(* ===== verification/_CoqProject ===== *)
-Q . S2P
Prelude.v
Errno.v
Spinlock.v
KMem.v
Queue.v
Dll.v
QueueFacts.v
QueueMove.v
QueueSpec.v
Sample.v
QueueProps.v
Stack.v
RingBuf.v
Bitmap.v
BitmapFacts.v
BitmapSpec.v
BitmapProps.v
EmbQueue.v
EmbFacts.v
EmbProps.v
Tree.v
BTree.v
BTreeFacts.v
BTreeSpec.v
Iter.v
BTreeProps.v
Mmap.v
MmapFacts.v
MmapHoles.v
MmapMap.v
MmapRegion.v
MmapInit.v
MmapProps.v
CMem.v
Str.v
StrWords.v
StrCopy.v
StrSse.v
StrSseFacts.v
StrTok.v
StrProps.v
Wait.v
WaitFacts.v
RwLock.v
RwDeadlock.v
WaitMonitor.v
Mutex.v
Cond.v
Event.v
SyncFacts.v
SyncProps.v
Pmm.v
PmmFacts.v
PmmAlloc.v
PmmInit.v
PmmBoot.v
PmmSetup.v
PmmProps.v
Sched.v
SchedFacts.v
SchedProps.v
Paging.v
PagingFacts.v
PagingMap.v
PagingRange.v
PagingNew.v
PagingPmm.v
PagingProps.v
Signal.v
SignalFacts.v
SignalTake.v
SignalInv.v
SignalWait.v
SignalProps.v
Vmm.v
VmmFacts.v
VmmInv.v
VmmProps.v
File.v
FileFacts.v
