(* ===== verification/Prelude.v ===== *)
(** * A verification of the core of the XytherOS kernel

    XytherOS is a small x86-64 kernel in C.  This library models the parts of it
    that carry its data, its memory, its synchronisation, its scheduling and its signals:
    the spinlocks, the data structures of ds/, the page allocator, the address spaces and
    the kernel's virtual memory of mm/, the page tables, the string functions of lib/, the
    locks of sync/ on which threads sleep, the run queues and the signals of a process,
    and proves what they promise to their callers.  Paths below are relative to
    src/src/kernel.

    ** Conventions

    A function of the kernel is a function in the monad [K] = [M kmem] over the
    memory [kmem] (KMem.v): [Done a m] is a return, [Panic] a failed assertion,
    [Fault] the use of a pointer or index that designates no live object, [Diverge]
    an endless loop.  Every C type has its own heap, a finite map from addresses to
    records; an out-parameter is a component of the result; a boolean argument says
    whether an out-pointer is not NULL.  Unsigned 64-bit arithmetic is written with
    [u64], signed with [s64].  Return codes are integers, errors negative (Errno.v).
    [kmalloc] is the class [KAlloc]: what the n-th call answers, possibly NULL, with
    the single law that a block is not live already.  The calls of mm/mmap.c into the
    page-table code are the class [Paging] of Mmap.v.

    Loops whose end depends on a list in memory take fuel: one more than the number
    of live nodes of that type, which is enough on every well-formed list, since its
    nodes are distinct and live ([vseg_length] and its like); [Diverge] is then
    excluded by the theorems, which are about [wp], total correctness.

    The string functions work on a flat memory of bytes (CMem.v) instead, with words
    and vectors read from it at any alignment; a function that meets an unmapped byte
    faults.  Their loops take fuel from the length of the string or the block.  The
    blocking locks work on a machine of threads (Wait.v): an operation is the list of
    its statements, a state is the object, the owners of the spinlocks, the wait
    queues and the threads, and an execution ([reaches]) is any interleaving of
    statements, calls, signals, timeouts and cancellations.

    ** Components

    - Spinlock.v: include/sync/spinlock.h, sync/spinlock.c, include/sync/preempt.h.
      [spin_acquire] and the other macros over one lock and the CPU's interrupt
      state; [lock_acquire], [lock_release] are the view the structures use.
    - Queue.v, Dll.v, QueueFacts.v, QueueMove.v, QueueSpec.v, QueueProps.v:
      ds/queue/queue.c.  Doubly linked queues, their refinement of lists, moving
      runs of nodes between queues.
    - Stack.v: ds/stack.c, over the queues.  RingBuf.v: ds/ringbuf.c.
    - Bitmap.v, BitmapFacts.v, BitmapSpec.v, BitmapProps.v: ds/bitmap.c, and the
      calloc and realloc of mm/liballoc/liballoc.c that it uses (KMem.v).
    - EmbQueue.v, EmbFacts.v, EmbProps.v: ds/queue/embedded.c.
    - Tree.v (values), BTree.v (ds/btree/btree.c), BTreeFacts.v, BTreeSpec.v,
      Iter.v (ds/iter.c, ds/btree/btree_iter.c), BTreeProps.v.
    - Mmap.v (mm/mmap.c), MmapFacts.v (lists of regions, searches), MmapHoles.v
      (finding room), MmapMap.v (insertion), MmapRegion.v (mmap_map_region and
      mmap_remove), MmapInit.v (mmap_alloc), MmapProps.v.
    - CMem.v (byte memory, the class [CAlloc]), Str.v (lib/string.c, lib/ctype.c),
      StrSse.v (lib/xyther_strings.c), StrWords.v (the zero-byte test on words,
      lengths), StrCopy.v, StrSseFacts.v, StrTok.v (tokenize), StrProps.v.
    - Wait.v (the wait and wakeup half of sys/sched/sched.c and
      sys/thread/thread_sleep.c), WaitFacts.v (wait queues, executions, a thread that
      runs alone), WaitMonitor.v (objects behind a guard).
    - RwLock.v (sync/rwlock.c and its invariant), RwDeadlock.v (waiting writers);
      Mutex.v (sync/mutex.c); Cond.v (sync/cond.c and its invariant); Event.v
      (sync/event.c); SyncFacts.v (mutexes and events), SyncProps.v (the theorems).
    - Pmm.v (mm/pmm: zones, alloc.c, free.c, pages.c), PmmFacts.v (zones and single
      frames), PmmAlloc.v (runs of frames), PmmProps.v; PmmInit.v (mm/pmm/zones.c and
      the boot allocator of boot/boot.c), PmmBoot.v, PmmSetup.v.  A
      state of the page allocator represents the reference counts of the frames of
      each zone.
    - Paging.v (arch/x86_64/paging.c and paging.h): the tables in physical memory,
      which the code edits through the recursive entry of the root, that is, through
      the address translation [mmu] of the processor.  PagingFacts.v (the window on the
      tables, writing one entry), PagingMap.v (one page, a whole user half), PagingRange.v (ranges),
      PagingNew.v (new roots), PagingPmm.v (the
      reference counts of PmmAlloc.v as an instance of the class [FrameAlloc]),
      PagingProps.v.
    - Sched.v (sys/sched/scheduler.c, sched.c, load_balancer.c, metrics.c): run queues
      as lists, one step per operation, any locks busy; SchedFacts.v, SchedProps.v.
    - Signal.v (sys/signal, include/sys/sigset.h, arch/x86_64/threads/signal.c): the
      signals of the threads of one process, a state [sigworld] over the threads of
      Sched.v, with handlers as a parameter; SignalFacts.v (one queue, locks, frames),
      SignalTake.v (taking), SignalInv.v (the invariant), SignalWait.v (sigtimedwait),
      SignalProps.v.
    - Vmm.v (mm/vmm/vmm.c): the free and used regions of kernel addresses in doubly
      linked lists; VmmFacts.v (lists of nodes, each operation on them),
      VmmInv.v (the reference allocator and its invariant), VmmProps.v, which also makes
      it an instance of the class [Vmman] that the page-table code asks for.
    - File.v (fs/file.c, fs/sysfile.c, fs/inode.c, fs/dentry.c, the end of open in
      fs/open.c, sys/syscall/cred.c): descriptor tables, open files, entries, inodes and
      credentials as objects of a state [fsys], the operations of a file system as the
      class [FileSystem]; FileFacts.v (the counts, each call, the theorems).
    - Sample.v: concrete memories and allocators on which theorems are exercised.

    ** What the theorems show

    Refinements: any sequence of calls on a locked queue, stack, bitmap, ring or
    tree returns and behaves as on a list, a LIFO, a finite set, a FIFO of bytes or
    a finite map, without touching other objects; any sequence of calls of the page
    allocator behaves as on a table of reference counts, and any sequence of
    page-sized calls of the kernel's virtual memory as a first-fit allocator that
    coalesces.  Functional theorems: what moving,
    sorted insertion, deletion, traversal, mapping and unmapping of regions do on
    every branch; which frames an allocation takes; what mapping a page does to the
    translation of addresses; which thread runs next; in which order signals are taken
    and with which mask their handlers run.  Invariants: nesting of interrupt
    disabling, sortedness of queues and regions, consistency of the wait queues, the
    counter of a condition variable, the set-up of the zones, the one run queue of
    every ready thread, the kernel half that all address spaces share, pending bits and
    queues of signals that agree, the counts of open files as processes open, duplicate,
    fork and close.
    Equivalences: word-wise and vector code of strlen and memmove against one
    definition, the jumps of the permission check against the bits of the mode.  Liveness: who gets a reader-writer lock after a release, and when
    nobody does; aging, which brings every waiting thread to the highest level (in at
    most 16 passes: three levels of at most six).  Safety and bounds: exclusion by a
    reader-writer lock, ids that stay dropped, everything freed exactly once, in particular every table and
    page of a user half, fill levels, and the searches for room, which are sound and
    complete.  Error theorems prove the places where the code faults, panics or loses
    data; they are listed as findings in the manifest.

    ** Not modelled

    Formatted output and the dump functions, which only print; port I/O, interrupt
    entry, context switching, the translation buffer of the processor and everything
    else that is assembly or device access; the copy-on-write copy of an address space
    (x86_64_lazycpy) and the page-fault handler; the block lists inside liballoc;
    memory of user processes; user space.  Of signals: sigsuspend, pause and alarm,
    signal_free, the frames and context switches of a handler on the alternative stack,
    and the locks of single signal queues; the loops of sigtimedwait take the number of
    polls as fuel.  Of open files: the calls by path and path resolution, pipes, mapping of
    files, creation of inodes, entries and tables; the loop of a write takes fuel, and
    the wake-ups of readers and writers are left out.  The data structures are verified as code that runs with the lock it
    asserts, another context's operation being one step; statements interleave only
    in the machine of Wait.v.  Creation and exit of threads and processes, timers, hash
    maps and the file systems below the operations of an inode are not modelled.

    This file: the outcome monad with its notations, the weakest precondition and
    its rules, bounded loops, and lemmas on 64-bit integers shared by all. *)
From stdpp Require Export base tactics numbers list option gmap sets.
From Stdlib Require Export ZArith Lia.
Global Open Scope Z_scope.

(** ** Outcomes of running a piece of kernel code

    [Done a s]: the code returned [a] in state [s].  [Panic]: an [assert] of the
    code failed.  [Fault]: the code used a pointer or an index that does not
    designate a live object.  [Diverge]: the code spins for ever (or the bound
    given to a loop ran out). *)
Inductive outcome (S A : Type) : Type :=
  | Done (a : A) (s : S)
  | Panic
  | Fault
  | Diverge.
Arguments Done {S A} a s.
Arguments Panic {S A}.
Arguments Fault {S A}.
Arguments Diverge {S A}.

Definition M (S A : Type) : Type := S -> outcome S A.

Definition M_ret {S A} (a : A) : M S A := fun s => Done a s.
Definition M_bind {S A B} (c : M S A) (k : A -> M S B) : M S B := fun s =>
  match c s with
  | Done a s' => k a s'
  | Panic => Panic
  | Fault => Fault
  | Diverge => Diverge
  end.

Lemma M_bind_done {S A B} (c : M S A) (k : A -> M S B) s a s' :
  c s = Done a s' -> M_bind c k s = k a s'.
Proof. unfold M_bind. by intros ->. Qed.
Lemma M_bind_fault {S A B} (c : M S A) (k : A -> M S B) s :
  c s = Fault -> M_bind c k s = Fault.
Proof. unfold M_bind. by intros ->. Qed.

Lemma M_bind_panic {S A B} (c : M S A) (k : A -> M S B) s :
  c s = Panic -> M_bind c k s = Panic.
Proof. unfold M_bind. by intros ->. Qed.

Lemma M_bind_cong {S A B} (c : M S A) (f g : A -> M S B) s :
  (forall a s', c s = Done a s' -> f a s' = g a s') -> M_bind c f s = M_bind c g s.
Proof. unfold M_bind. destruct (c s); naive_solver. Qed.
Lemma M_bind_assoc {S A B C} (c : M S A) (f : A -> M S B) (g : B -> M S C) s :
  M_bind (M_bind c f) g s = M_bind c (fun a => M_bind (f a) g) s.
Proof. unfold M_bind. by destruct (c s). Qed.

Declare Scope kernel_scope.
Delimit Scope kernel_scope with K.
Notation "'let!' x := c 'in' k" := (M_bind c (fun x => k))
  (at level 10, x name, c at level 100, k at level 200,
   format "'[v' 'let!'  x  :=  c  'in' '/' k ']'") : kernel_scope.
Notation "'do!' c 'in' k" := (M_bind c (fun _ => k))
  (at level 10, c at level 100, k at level 200,
   format "'[v' 'do!'  c  'in' '/' k ']'") : kernel_scope.
Notation "'ret!' a" := (M_ret a) (at level 100, a at level 99) : kernel_scope.
Global Open Scope kernel_scope.

Definition M_panic {S A} : M S A := fun _ => Panic.
Definition M_fault {S A} : M S A := fun _ => Fault.
Definition M_diverge {S A} : M S A := fun _ => Diverge.
Definition M_get {S} : M S S := fun s => Done s s.
Definition M_put {S} (s' : S) : M S unit := fun _ => Done tt s'.

(** [assert(cond, ...)] of core/assert.h. *)
Definition M_assert {S} (b : bool) : M S unit := if b then M_ret tt else M_panic.
Definition M_when {S} (b : bool) (c : M S unit) : M S unit := if b then c else M_ret tt.

(** ** Total-correctness weakest precondition *)
Definition wp {S A} (c : M S A) (Q : A -> S -> Prop) (s : S) : Prop :=
  match c s with
  | Done a s' => Q a s'
  | _ => False
  end.

Section wp.
Context {S : Type}.

Lemma wp_ret {A} (a : A) (Q : A -> S -> Prop) s : Q a s -> wp (M_ret a) Q s.
Proof. done. Qed.

Lemma wp_bind {A B} (c : M S A) (k : A -> M S B) Q s :
  wp c (fun a => wp (k a) Q) s -> wp (M_bind c k) Q s.
Proof. unfold wp, M_bind. by destruct (c s). Qed.

Lemma wp_bind_ret {A B} (c : M S A) (f : A -> B) Q s :
  wp (M_bind c (fun a => M_ret (f a))) Q s -> wp c (fun a => Q (f a)) s.
Proof. unfold wp, M_bind, M_ret. by destruct (c s). Qed.

Lemma wp_eq {A} (c c' : M S A) Q s : c s = c' s -> wp c' Q s -> wp c Q s.
Proof. unfold wp. by intros ->. Qed.

Lemma wp_mono {A} (c : M S A) (Q Q' : A -> S -> Prop) s :
  wp c Q s -> (forall a s', Q a s' -> Q' a s') -> wp c Q' s.
Proof. unfold wp. destruct (c s); naive_solver. Qed.

Lemma wp_get (Q : S -> S -> Prop) s : Q s s -> wp M_get Q s.
Proof. done. Qed.

Lemma wp_put s' (Q : unit -> S -> Prop) s : Q tt s' -> wp (M_put s') Q s.
Proof. done. Qed.

Lemma wp_assert (b : bool) (Q : unit -> S -> Prop) s :
  b = true -> Q tt s -> wp (M_assert b) Q s.
Proof. by intros ->. Qed.

Lemma wp_when (b : bool) c (Q : unit -> S -> Prop) s :
  (b = true -> wp c Q s) -> (b = false -> Q tt s) -> wp (M_when b c) Q s.
Proof. destruct b; naive_solver. Qed.

Lemma wp_done {A} (c : M S A) Q s :
  wp c Q s <-> exists a s', c s = Done a s' /\ Q a s'.
Proof. unfold wp. destruct (c s); naive_solver. Qed.

Lemma wp_if {A} (b : bool) (c1 c2 : M S A) Q s :
  (b = true -> wp c1 Q s) -> (b = false -> wp c2 Q s) -> wp (if b then c1 else c2) Q s.
Proof. destruct b; naive_solver. Qed.
End wp.

(** ** Loops

    [for_range n i body] is [for (; n > 0; i++, n--) body(i)] whose body may
    [return]: [Some r] leaves the enclosing function with [r], [None] goes on. *)
Fixpoint for_range {S R} (n : nat) (i : Z) (body : Z -> M S (option R)) : M S (option R) :=
  match n with
  | O => ret! None
  | Datatypes.S n' =>
      let! r := body i in
      match r with
      | Some x => ret! (Some x)
      | None => for_range n' (i + 1) body
      end
  end.

(** A loop that never returns early keeps an invariant indexed by its counter. *)
Lemma wp_for_range {S R} (I : Z -> S -> Prop) (body : Z -> M S (option R)) n i s :
  I i s ->
  (forall j s', i <= j < i + Z.of_nat n -> I j s' ->
     wp (body j) (fun r s'' => r = None /\ I (j + 1) s'') s') ->
  wp (for_range n i body) (fun r s' => r = None /\ I (i + Z.of_nat n) s') s.
Proof.
  revert i s. induction n as [|n IH]; intros i s Hi Hb; simpl.
  - apply wp_ret. split; [done|]. by replace (i + Z.of_nat 0) with i by lia.
  - apply wp_bind. eapply wp_mono; [apply Hb; [lia|done]|].
    intros r s' [-> Hs]. eapply wp_mono; [apply IH; [done|]|].
    + intros j s'' Hj. apply Hb. lia.
    + intros r s'' [-> Hs']. split; [done|].
      by replace (i + Z.of_nat (Datatypes.S n)) with (i + 1 + Z.of_nat n) by lia.
Qed.

(** A loop that only inspects the state: it stops at the first index where its
    test answers, and otherwise runs to the end. *)
Lemma for_range_search {S R} (body : Z -> M S (option R)) (f : Z -> option R) n i s :
  (forall j, i <= j < i + Z.of_nat n -> body j s = Done (f j) s) ->
  exists r, for_range n i body s = Done r s /\
    match r with
    | None => forall j, i <= j < i + Z.of_nat n -> f j = None
    | Some x => exists j, i <= j < i + Z.of_nat n /\ f j = Some x /\
                  forall j', i <= j' < j -> f j' = None
    end.
Proof.
  revert i. induction n as [|n IH]; intros i Hb; simpl.
  - exists None. split; [done|]. lia.
  - unfold M_bind. rewrite Hb by lia. destruct (f i) as [x|] eqn:Hf.
    + exists (Some x). split; [done|]. exists i. split; [lia|]. split; [done|lia].
    + destruct (IH (i + 1)) as (r & Hr & Hspec); [intros; apply Hb; lia|].
      exists r. split; [done|]. destruct r as [x|].
      * destruct Hspec as (j & ? & ? & Hlt). exists j. split; [lia|]. split; [done|].
        intros j' ?. destruct (decide (j' = i)) as [->|]; [done|]. apply Hlt; lia.
      * intros j ?. destruct (decide (j = i)) as [->|]; [done|]. apply Hspec; lia.
Qed.

(** A loop whose body does nothing until the first index that satisfies [P], where
    it acts and returns. *)
Lemma wp_for_range_first {S R} (P : Z -> Prop) `{forall j, Decision (P j)}
    (body : Z -> M S (option R)) (Q : option R -> S -> Prop) n i s :
  (forall j, i <= j < i + Z.of_nat n -> ~ P j -> body j s = Done None s) ->
  (forall j, i <= j < i + Z.of_nat n -> P j -> (forall j', i <= j' < j -> ~ P j') ->
     wp (body j) (fun r s' => exists x, r = Some x /\ Q (Some x) s') s) ->
  ((forall j, i <= j < i + Z.of_nat n -> ~ P j) -> Q None s) ->
  wp (for_range n i body) Q s.
Proof.
  revert i. induction n as [|n IH]; intros i Hno Hyes Hnone; simpl.
  { apply wp_ret, Hnone. lia. }
  apply wp_bind. destruct (decide (P i)) as [Hi|Hi].
  - eapply wp_mono; [apply Hyes; [lia|done|lia]|]. intros r s' (x & -> & HQ). by apply wp_ret.
  - unfold wp at 1. rewrite Hno by (done || lia). apply IH.
    + intros j ?. apply Hno. lia.
    + intros j ? Hj Hlt. apply Hyes; [lia|done|]. intros j' ?.
      destruct (decide (j' = i)) as [->|]; [done|]. apply Hlt. lia.
    + intros Hall. apply Hnone. intros j ?. destruct (decide (j = i)) as [->|]; [done|]. apply Hall. lia.
Qed.

(** ** Machine words *)

(** 64-bit unsigned wrap-around ([usize], [size_t], [uintptr_t]). *)
Definition two64 : Z := 18446744073709551616.
Definition u64 (z : Z) : Z := z mod two64.
Definition is_u64 (z : Z) : Prop := 0 <= z < two64.
Global Instance is_u64_dec z : Decision (is_u64 z).
Proof. unfold is_u64. apply _. Defined.

Lemma two64_eq : two64 = 2 ^ 64.
Proof. reflexivity. Qed.

Lemma u64_small z : is_u64 z -> u64 z = z.
Proof. apply Z.mod_small. Qed.

Lemma u64_range z : is_u64 (u64 z).
Proof. apply Z.mod_pos_bound. reflexivity. Qed.

Lemma u64_idemp z : u64 (u64 z) = u64 z.
Proof. apply u64_small, u64_range. Qed.

Lemma u64_sub_add z k : u64 (z + k * two64) = u64 z.
Proof. apply Z.mod_add. unfold two64. lia. Qed.

Lemma u64_add_l a b : u64 (u64 a + b) = u64 (a + b).
Proof. unfold u64. by rewrite Zplus_mod_idemp_l. Qed.

Lemma u64_sub_l a b : u64 (u64 a - b) = u64 (a - b).
Proof. unfold u64. by rewrite Zminus_mod_idemp_l. Qed.

(** 64-bit signed view of a word ([isize], [long]). *)
Definition s64 (z : Z) : Z :=
  let w := u64 z in if w <? two64 / 2 then w else w - two64.

(** 32-bit signed value ([int]). *)
Definition s32 (z : Z) : Z :=
  let w := z mod 4294967296 in if w <? 2147483648 then w else w - 4294967296.

(** ** Single bits of a word *)
Definition bit_mask (b : Z) : Z := Z.shiftl 1 b.
Definition not64 (w : Z) : Z := Z.lxor w (two64 - 1).

Lemma bit_mask_spec b i : 0 <= b -> 0 <= i -> Z.testbit (bit_mask b) i = bool_decide (i = b).
Proof.
  intros Hb Hi. unfold bit_mask. rewrite Z.shiftl_1_l, Z.pow2_bits_eqb by done.
  case_bool_decide; subst; [by rewrite Z.eqb_refl|]. apply Z.eqb_neq. congruence.
Qed.

Lemma land_bit_mask_0 w b : 0 <= b -> (Z.land w (bit_mask b) =? 0) = negb (Z.testbit w b).
Proof.
  intros Hb. destruct (Z.testbit w b) eqn:E; simpl.
  - apply Z.eqb_neq. intros H0.
    assert (Z.testbit (Z.land w (bit_mask b)) b = false) as Hf by (rewrite H0; apply Z.bits_0).
    rewrite Z.land_spec, E, bit_mask_spec, bool_decide_eq_true_2 in Hf; done.
  - apply Z.eqb_eq, Z.bits_inj'. intros n Hn.
    rewrite Z.land_spec, Z.bits_0, bit_mask_spec by done.
    case_bool_decide; subst; [by rewrite E|apply andb_false_r].
Qed.

Lemma ones64_testbit i : 0 <= i -> Z.testbit (two64 - 1) i = bool_decide (i < 64).
Proof.
  intros Hi. replace (two64 - 1) with (Z.ones 64) by reflexivity.
  case_bool_decide; [apply Z.ones_spec_low | apply Z.ones_spec_high]; lia.
Qed.

Lemma not64_testbit w i : 0 <= i < 64 -> Z.testbit (not64 w) i = negb (Z.testbit w i).
Proof.
  intros Hi. unfold not64. rewrite Z.lxor_spec, ones64_testbit by lia.
  rewrite bool_decide_eq_true_2 by lia. by destruct (Z.testbit w i).
Qed.

Lemma is_u64_testbit w : is_u64 w <-> 0 <= w /\ forall i, 64 <= i -> Z.testbit w i = false.
Proof.
  unfold is_u64. rewrite two64_eq. split.
  - intros [? ?]. split; [done|]. intros i Hi.
    destruct (decide (w = 0)) as [->|]; [apply Z.bits_0|].
    apply Z.bits_above_log2; [done|].
    apply Z.lt_le_trans with 64; [|done]. apply Z.log2_lt_pow2; lia.
  - intros [? Hb]. split; [done|].
    destruct (decide (w = 0)) as [->|]; [done|].
    destruct (decide (w < 2 ^ 64)) as [|Hge]; [done|]. exfalso.
    assert (64 <= Z.log2 w) by (apply Z.log2_le_pow2; lia).
    pose proof (Hb (Z.log2 w) H0). rewrite Z.bit_log2 in H1; [done|lia].
Qed.

(** Two words agree when their 64 bits do. *)
Lemma u64_bits_ext v w :
  is_u64 v -> is_u64 w -> (forall i, 0 <= i < 64 -> Z.testbit v i = Z.testbit w i) -> v = w.
Proof.
  intros [_ Hv]%is_u64_testbit [_ Hw]%is_u64_testbit Heq. apply Z.bits_inj'. intros i Hi.
  destruct (decide (i < 64)); [by apply Heq|]. rewrite Hv, Hw by lia. done.
Qed.

Lemma is_u64_bitop (op : Z -> Z -> Z) f v w :
  (forall a b n, Z.testbit (op a b) n = f (Z.testbit a n) (Z.testbit b n)) ->
  f false false = false -> (0 <= v -> 0 <= w -> 0 <= op v w) ->
  is_u64 v -> is_u64 w -> is_u64 (op v w).
Proof.
  intros Hop Hff Hpos [? Hv]%is_u64_testbit [? Hw]%is_u64_testbit.
  apply is_u64_testbit. split; [auto|]. intros i Hi. by rewrite Hop, Hv, Hw.
Qed.

Lemma is_u64_lor v w : is_u64 v -> is_u64 w -> is_u64 (Z.lor v w).
Proof. apply (is_u64_bitop _ orb); [apply Z.lor_spec|done|]. intros. by apply Z.lor_nonneg. Qed.
Lemma is_u64_land v w : is_u64 v -> is_u64 w -> is_u64 (Z.land v w).
Proof. apply (is_u64_bitop _ andb); [apply Z.land_spec|done|]. intros. apply Z.land_nonneg. auto. Qed.
Lemma is_u64_lxor v w : is_u64 v -> is_u64 w -> is_u64 (Z.lxor v w).
Proof. apply (is_u64_bitop _ xorb); [apply Z.lxor_spec|done|]. intros. by apply Z.lxor_nonneg. Qed.
Lemma is_u64_bit_mask b : 0 <= b < 64 -> is_u64 (bit_mask b).
Proof.
  intros. unfold bit_mask. rewrite Z.shiftl_1_l. split; [lia|].
  rewrite two64_eq. apply Z.pow_lt_mono_r; lia.
Qed.
Lemma is_u64_not64 w : is_u64 w -> is_u64 (not64 w).
Proof. intros. apply is_u64_lxor; [done|]. by split. Qed.

(** ** Automation *)
Create HintDb kernel.
#[export] Hint Resolve wp_ret wp_get wp_put : kernel.
#[export] Hint Resolve u64_range is_u64_lor is_u64_land is_u64_lxor is_u64_bit_mask
  is_u64_not64 : kernel.

(** Run the next primitive of a [wp] goal. *)
Ltac wp_step :=
  match goal with
  | |- wp (M_bind _ _) _ _ => apply wp_bind
  | |- wp (M_ret _) _ _ => apply wp_ret
  | |- wp M_get _ _ => apply wp_get
  | |- wp (M_put _) _ _ => apply wp_put
  | |- wp (M_assert _) _ _ => apply wp_assert; [try done|]
  | |- wp (M_when _ _) _ _ => apply wp_when; intros ?
  end.
Ltac wp_steps := repeat (wp_step; simpl).
