(* ===== verification/Errno.v ===== *)
(** * Error numbers of bits/errno.h

    Only the numbers the modelled code returns.  Functions of the kernel return
    [0] or the negated number, as an [int]. *)
From S2P Require Import Prelude.

Definition EPERM : Z := 1.
Definition ENOENT : Z := 2.
Definition ESRCH : Z := 3.
Definition EINTR : Z := 4.
Definition EAGAIN : Z := 11.
Definition ENOMEM : Z := 12.
Definition EACCES : Z := 13.
Definition EFAULT : Z := 14.
Definition EEXIST : Z := 17.
Definition ENOTDIR : Z := 20.
Definition EISDIR : Z := 21.
Definition EINVAL : Z := 22.
Definition ENOSPC : Z := 28.
Definition ENOSYS : Z := 38.
Definition EBADFD : Z := 77.
Definition ENOTSUP : Z := 95.
Definition ETIMEDOUT : Z := 110.
Definition EALREADY : Z := 114.
