(* ===== verification/Spinlock.v ===== *)
(** * Spinlocks (sync/spinlock.h, sync/spinlock.c, sync/preempt.h)

    The state of the executing CPU ([cpu_t]: the interrupt flag, [ncli] and
    [intena]) and one lock, with the operations of the macros of
    include/sync/spinlock.h (the build does not define USE_SPINLOCK_FUNCTIONS).
    [file] and [line], written for the panic messages only, are left out.

    A lock taken by somebody else never becomes free while this CPU runs alone,
    so the waiting loop of [spin_acquire] is [Diverge] here. *)
From S2P Require Import Prelude.

Record spinlock_t := mkLock {
  guard : bool;      (* arch_raw_lock_t: held or not *)
  locked : bool;
  owner : Z
}.

(** Who executes: [current] (the running thread, 0 when there is none) and
    [cpu] (the address of the cpu_t, never 0). *)
Record who := mkWho { w_current : Z; w_cpu : Z }.

Record cpu_t := mkCpu {
  IF : bool;         (* EFLAGS.IF *)
  ncli : Z;
  intena : bool
}.

Definition SPINLOCK_INIT : spinlock_t := mkLock false false 0.

(** ** The interrupt-disable counter (sync/preempt.h) *)
Definition disable_interrupts (c : cpu_t) : bool * cpu_t :=
  (IF c, mkCpu false (ncli c) (intena c)).
Definition enable_interrupts (ena : bool) (c : cpu_t) : cpu_t :=
  if ena then mkCpu true (ncli c) (intena c) else c.

Definition pushcli (c : cpu_t) : cpu_t :=
  let '(ena, c) := disable_interrupts c in
  let c := if ena then mkCpu (IF c) (ncli c) ena else c in
  mkCpu (IF c) (ncli c + 1) (intena c).

Definition popcli (c : cpu_t) : outcome cpu_t unit :=
  if IF c then Panic else
  let c := mkCpu (IF c) (ncli c - 1) (intena c) in
  if ncli c <? 0 then Panic else
  let ena := intena c in
  if (ncli c =? 0) && ena then Done tt (enable_interrupts ena (mkCpu (IF c) (ncli c) false))
  else Done tt c.

(** ** Lock operations over a CPU and a lock *)
Definition L (A : Type) := M (cpu_t * spinlock_t) A.

Definition L_pushcli : L unit := fun '(c, lk) => Done tt (pushcli c, lk).
Definition L_popcli : L unit := fun '(c, lk) =>
  match popcli c with
  | Done _ c' => Done tt (c', lk)
  | _ => Panic
  end.
Definition raw_lock_acquire : L unit := fun '(c, lk) =>
  if guard lk then Diverge else Done tt (c, mkLock true (locked lk) (owner lk)).
Definition raw_lock_release : L unit := fun '(c, lk) =>
  Done tt (c, mkLock false (locked lk) (owner lk)).

Section Spinlock.
Context (w : who).

Definition self : Z := if w_current w =? 0 then w_cpu w else w_current w.

Definition holding (lk : spinlock_t) : bool :=
  locked lk && ((owner lk =? w_current w) || (owner lk =? w_cpu w)).

Definition set_lock (b : bool) (o : Z) : L unit := fun '(c, lk) =>
  Done tt (c, mkLock (guard lk) b o).

Definition spin_acquire : L unit :=
  do! L_pushcli in
  do! raw_lock_acquire in
  let! s := M_get in
  do! M_assert (negb (holding s.2)) in
  if locked s.2 then M_diverge else
  do! set_lock true self in
  raw_lock_release.

Definition spin_release : L unit :=
  do! L_pushcli in
  do! raw_lock_acquire in
  let! s := M_get in
  do! M_assert (holding s.2) in
  do! set_lock false 0 in
  do! raw_lock_release in
  do! L_popcli in
  L_popcli.

Definition spin_islocked : L bool :=
  do! L_pushcli in
  do! raw_lock_acquire in
  let! s := M_get in
  do! raw_lock_release in
  do! L_popcli in
  ret! (holding s.2).

Definition spin_recursive_lock : L bool :=
  let! h := spin_islocked in
  if h then ret! false else do! spin_acquire in ret! true.

Definition spin_assert_locked : L unit :=
  let! h := spin_islocked in M_assert h.

Definition spin_trylock : L bool :=
  do! L_pushcli in
  do! raw_lock_acquire in
  let! s := M_get in
  do! M_assert (negb (holding s.2)) in
  if locked s.2 then
    do! L_popcli in do! raw_lock_release in ret! false
  else
    do! set_lock true self in do! raw_lock_release in ret! true.
End Spinlock.

(** ** The lock as the rest of the kernel sees it

    What acquiring and releasing does to the lock itself, the CPU left aside:
    the data structures of ds/ and mm/ use a lock through these. *)
Section LockView.
Context (w : who).

Definition lock_acquire : M spinlock_t unit := fun lk =>
  if holding w lk then Panic
  else if locked lk then Diverge
  else Done tt (mkLock (guard lk) true (self w)).

Definition lock_release : M spinlock_t unit := fun lk =>
  if holding w lk then Done tt (mkLock (guard lk) false 0) else Panic.
End LockView.

(** The CPU between lock operations: interrupts are on only outside every
    [pushcli], and [intena] remembers an interrupted-on state only inside one. *)
Definition cpu_ok (c : cpu_t) : Prop :=
  0 <= ncli c /\ (IF c = true -> ncli c = 0) /\ (ncli c = 0 -> intena c = false).

Lemma popcli_pushcli c : cpu_ok c -> popcli (pushcli c) = Done tt c.
Proof.
  destruct c as [f n i]; intros (Hn & Hf & Hi); simpl in *.
  unfold popcli, pushcli; destruct f; simpl.
  - rewrite Hf by done. simpl. rewrite Hi by auto. done.
  - replace (n + 1 - 1) with n by lia.
    destruct (Z.ltb_spec n 0); [lia|]. destruct (Z.eqb_spec n 0); simpl; [|done].
    by rewrite Hi.
Qed.

Lemma cpu_ok_pushcli c : cpu_ok c -> cpu_ok (pushcli c).
Proof.
  destruct c as [f n i]; intros (Hn & Hf & Hi); unfold pushcli, cpu_ok; simpl in *.
  destruct f; simpl; split_and!; try done; lia.
Qed.
#[export] Hint Resolve cpu_ok_pushcli : kernel.

Section SpinlockFacts.
Context (w : who) (c : cpu_t) (lk : spinlock_t).
Hypothesis Hc : cpu_ok c.
Hypothesis Hg : guard lk = false.

(** Acquiring acts on the lock as [lock_acquire] says, and leaves one more
    [pushcli] outstanding. *)
Lemma spin_acquire_view :
  spin_acquire w (c, lk) =
    match lock_acquire w lk with
    | Done _ lk' => Done tt (pushcli c, lk')
    | Panic => Panic | Fault => Fault | Diverge => Diverge
    end.
Proof.
  destruct lk as [g l o]; simpl in *; subst g.
  unfold spin_acquire, lock_acquire, M_bind, M_assert, holding; simpl.
  destruct (l && _); simpl; [done|]. by destruct l.
Qed.

Lemma spin_islocked_view : spin_islocked w (c, lk) = Done (holding w lk) (c, lk).
Proof.
  destruct lk as [g l o]; simpl in *; subst g.
  unfold spin_islocked, M_bind, M_ret, L_popcli, holding; simpl.
  by rewrite popcli_pushcli.
Qed.

Lemma spin_release_view :
  spin_release w (pushcli c, lk) =
    match lock_release w lk with
    | Done _ lk' => Done tt (c, lk')
    | Panic => Panic | Fault => Fault | Diverge => Diverge
    end.
Proof.
  destruct lk as [g l o]; simpl in *; subst g.
  unfold spin_release, lock_release, M_bind, M_assert, L_popcli, holding; simpl.
  destruct (l && _); simpl; [|done].
  rewrite popcli_pushcli by eauto with kernel. by rewrite popcli_pushcli.
Qed.
End SpinlockFacts.

(** A lock nobody holds, and the same lock lk_held by the running thread. *)
Definition lk_free (lk : spinlock_t) : Prop := locked lk = false /\ owner lk = 0.
Definition lk_held (o : who) (lk : spinlock_t) : spinlock_t := mkLock (guard lk) true (self o).
Lemma holding_lk_held o lk : holding o (lk_held o lk) = true.
Proof. unfold holding, lk_held, self. simpl. destruct (Z.eqb_spec (w_current o) 0); rewrite ?Z.eqb_refl; [apply orb_true_r|done]. Qed.
Lemma lk_acquire_free o lk : lk_free lk -> lock_acquire o lk = Done tt (lk_held o lk).
Proof. intros [H H']. unfold lock_acquire, holding. by rewrite H. Qed.
Lemma lk_release_held o lk : lk_free lk -> lock_release o (lk_held o lk) = Done tt lk.
Proof. intros [H H']. unfold lock_release. rewrite holding_lk_held. destruct lk; simpl in *. by subst. Qed.

(** ** Properties *)

(** C36: A critical section is balanced: on a free lock, [spin_lock] leaves the
    caller as holder with interrupts off, and the matching [spin_unlock] gives
    back the interrupt flag, the [pushcli] depth and the free lock exactly as they
    were, at any nesting depth; taking a lock one already holds panics. *)
Theorem spin_critical_section w c lk :
  cpu_ok c -> guard lk = false -> locked lk = false ->
  exists c' lk', spin_acquire w (c, lk) = Done tt (c', lk') /\
    IF c' = false /\ ncli c' = ncli c + 1 /\ holding w lk' = true /\ cpu_ok c' /\
    spin_acquire w (c', lk') = Panic /\
    spin_release w (c', lk') = Done tt (c, mkLock false false 0).
Proof.
  intros Hc Hg Hl. set (lk' := mkLock (guard lk) true (self w)).
  assert (holding w lk' = true) as Hh.
  { unfold lk', holding, self. simpl. destruct (w_current w =? 0); rewrite Z.eqb_refl; [apply orb_true_r|done]. }
  exists (pushcli c), lk'. split_and!.
  - rewrite spin_acquire_view by done. unfold lock_acquire, holding. by rewrite Hl.
  - unfold pushcli, disable_interrupts. by destruct (IF c).
  - unfold pushcli, disable_interrupts. by destruct (IF c).
  - done.
  - by apply cpu_ok_pushcli.
  - rewrite spin_acquire_view by eauto with kernel. unfold lock_acquire. by rewrite Hh.
  - rewrite spin_release_view by done. unfold lock_release. rewrite Hh. unfold lk'. simpl. by rewrite Hg.
Qed.

Lemma spin_critical_section_witness :
  exists c' lk', spin_acquire (mkWho 7 4096) (mkCpu true 0 false, SPINLOCK_INIT) = Done tt (c', lk') /\
    IF c' = false /\ ncli c' = 0 + 1 /\ holding (mkWho 7 4096) lk' = true /\ cpu_ok c' /\
    spin_acquire (mkWho 7 4096) (c', lk') = Panic /\
    spin_release (mkWho 7 4096) (c', lk') = Done tt (mkCpu true 0 false, mkLock false false 0).
Proof.
  apply (spin_critical_section (mkWho 7 4096) (mkCpu true 0 false) SPINLOCK_INIT); [|reflexivity..].
  split_and!; [done..].
Defined.
