(* ===== verification/KMem.v ===== *)
(** * Kernel memory

    The objects the modelled code works on, one finite map from addresses to
    objects per C type; loading, storing, allocating and freeing them; arrays; and
    the locking operations that structures with a spinlock have in common. *)
From S2P Require Import Prelude Spinlock.

(** ** Objects *)

(** ds/queue.h *)
Record queue_node_t := mkQnode { n_prev : Z; n_data : Z; n_next : Z }.
Record queue_t := mkQueue { head : Z; tail : Z; q_count : Z; q_lock : spinlock_t }.

(** ds/stack.h: [s_queue], the first member, lives at the stack's own address. *)
Record stack_t := mkStack { s_lock : spinlock_t }.

(** ds/bitmap.h *)
Record bitmap_t := mkBitmap { bm_map : Z; bm_size : Z; bm_lock : spinlock_t }.

(** ds/ringbuf.h *)
Record ringbuf_t := mkRing {
  r_buf : Z; r_size : Z; r_head : Z; r_tail : Z; r_count : Z; r_lock : spinlock_t
}.

(** ds/btree.h *)
Record btree_node_t := mkBtnode {
  bt_key : Z; bt_data : Z; bt_left : Z; bt_parent : Z; bt_right : Z; bt_btree : Z
}.
Record btree_t := mkBtree { nr_nodes : Z; root : Z; bt_lock : spinlock_t }.

(** mm/vm_region.h: what a region describes, and the region in its list.  All the
    members of struct vmr but [prev] and [next] are grouped in [v_reg]. *)
Record vreg := mkVreg {
  v_refs : Z; v_flags : Z; v_vflags : Z; v_priv : Z; v_file : Z; v_filesz : Z; v_memsz : Z;
  v_file_pos : Z; v_mmap : Z; v_vmops : Z; v_paddr : Z; v_start : Z; v_end : Z
}.
Record vmr_t := mkVmr { v_reg : vreg; v_prev : Z; v_next : Z }.

(** mm/mmap.h *)
Record mmap_t := mkMmap {
  mm_flags : Z; mm_refs : Z; mm_priv : Z; mm_arg : Z; mm_env : Z; mm_heap : Z; mm_brk : Z;
  mm_pgdir : Z; mm_limit : Z; mm_guard : Z; used_space : Z; vmr_head : Z; vmr_tail : Z;
  mm_entry : Z; mm_lock : spinlock_t
}.

Record kmem := mkKmem {
  k_who : who;
  k_tick : nat;
  k_arrays : gmap Z (list Z);
  k_queues : gmap Z queue_t;
  k_qnodes : gmap Z queue_node_t;
  k_stacks : gmap Z stack_t;
  k_bitmaps : gmap Z bitmap_t;
  k_rings : gmap Z ringbuf_t;
  k_btrees : gmap Z btree_t;
  k_btnodes : gmap Z btree_node_t;
  k_vmrs : gmap Z vmr_t;
  k_mmaps : gmap Z mmap_t
}.

Definition K (A : Type) := M kmem A.

(** Every address that designates a live object, whatever its type. *)
Definition k_live (m : kmem) : gset Z :=
  dom (k_arrays m) ∪
  dom (k_queues m) ∪
  dom (k_qnodes m) ∪
  dom (k_stacks m) ∪
  dom (k_bitmaps m) ∪
  dom (k_rings m) ∪
  dom (k_btrees m) ∪
  dom (k_btnodes m) ∪
  dom (k_vmrs m) ∪
  dom (k_mmaps m).

Definition set_tick (t : nat) (m : kmem) : kmem :=
  mkKmem (k_who m) t (k_arrays m) (k_queues m) (k_qnodes m) (k_stacks m) (k_bitmaps m) (k_rings m) (k_btrees m)
    (k_btnodes m) (k_vmrs m) (k_mmaps m).

(** ** Typed heaps: how an object type is stored in [kmem] *)
Class HeapOf (T : Type) := {
  h_get : kmem -> gmap Z T;
  h_set : gmap Z T -> kmem -> kmem;
  h_get_set : forall h m, h_get (h_set h m) = h;
  h_set_set : forall h h' m, h_set h (h_set h' m) = h_set h m;
  h_set_get : forall m, h_set (h_get m) m = m;
  h_set_who : forall h m, k_who (h_set h m) = k_who m;
  h_get_tick : forall t m, h_get (set_tick t m) = h_get m;
  h_live : forall m, dom (h_get m) ⊆ k_live m
}.

#[local] Obligation Tactic :=
  intros; simpl; try solve
    [ reflexivity | match goal with m : kmem |- _ => by destruct m end
    | unfold k_live; set_solver ].

#[export] Program Instance arrays_heap : HeapOf (list Z) := {|
  h_get := k_arrays;
  h_set h m := mkKmem (k_who m) (k_tick m) h (k_queues m) (k_qnodes m) (k_stacks m) (k_bitmaps m) (k_rings m) (k_btrees m)
    (k_btnodes m) (k_vmrs m) (k_mmaps m)
|}.
#[export] Program Instance queues_heap : HeapOf queue_t := {|
  h_get := k_queues;
  h_set h m := mkKmem (k_who m) (k_tick m) (k_arrays m) h (k_qnodes m) (k_stacks m) (k_bitmaps m) (k_rings m) (k_btrees m)
    (k_btnodes m) (k_vmrs m) (k_mmaps m)
|}.
#[export] Program Instance qnodes_heap : HeapOf queue_node_t := {|
  h_get := k_qnodes;
  h_set h m := mkKmem (k_who m) (k_tick m) (k_arrays m) (k_queues m) h (k_stacks m) (k_bitmaps m) (k_rings m) (k_btrees m)
    (k_btnodes m) (k_vmrs m) (k_mmaps m)
|}.
#[export] Program Instance stacks_heap : HeapOf stack_t := {|
  h_get := k_stacks;
  h_set h m := mkKmem (k_who m) (k_tick m) (k_arrays m) (k_queues m) (k_qnodes m) h (k_bitmaps m) (k_rings m) (k_btrees m)
    (k_btnodes m) (k_vmrs m) (k_mmaps m)
|}.
#[export] Program Instance bitmaps_heap : HeapOf bitmap_t := {|
  h_get := k_bitmaps;
  h_set h m := mkKmem (k_who m) (k_tick m) (k_arrays m) (k_queues m) (k_qnodes m) (k_stacks m) h (k_rings m) (k_btrees m)
    (k_btnodes m) (k_vmrs m) (k_mmaps m)
|}.
#[export] Program Instance rings_heap : HeapOf ringbuf_t := {|
  h_get := k_rings;
  h_set h m := mkKmem (k_who m) (k_tick m) (k_arrays m) (k_queues m) (k_qnodes m) (k_stacks m) (k_bitmaps m) h (k_btrees m)
    (k_btnodes m) (k_vmrs m) (k_mmaps m)
|}.
#[export] Program Instance btrees_heap : HeapOf btree_t := {|
  h_get := k_btrees;
  h_set h m := mkKmem (k_who m) (k_tick m) (k_arrays m) (k_queues m) (k_qnodes m) (k_stacks m) (k_bitmaps m) (k_rings m) h
    (k_btnodes m) (k_vmrs m) (k_mmaps m)
|}.
#[export] Program Instance btnodes_heap : HeapOf btree_node_t := {|
  h_get := k_btnodes;
  h_set h m := mkKmem (k_who m) (k_tick m) (k_arrays m) (k_queues m) (k_qnodes m) (k_stacks m) (k_bitmaps m) (k_rings m) (k_btrees m)
    h (k_vmrs m) (k_mmaps m)
|}.
#[export] Program Instance vmrs_heap : HeapOf vmr_t := {|
  h_get := k_vmrs;
  h_set h m := mkKmem (k_who m) (k_tick m) (k_arrays m) (k_queues m) (k_qnodes m) (k_stacks m) (k_bitmaps m) (k_rings m) (k_btrees m)
    (k_btnodes m) h (k_mmaps m)
|}.
#[export] Program Instance mmaps_heap : HeapOf mmap_t := {|
  h_get := k_mmaps;
  h_set h m := mkKmem (k_who m) (k_tick m) (k_arrays m) (k_queues m) (k_qnodes m) (k_stacks m) (k_bitmaps m) (k_rings m) (k_btrees m)
    (k_btnodes m) (k_vmrs m) h
|}.

Arguments h_get {T _} m : simpl never.
Arguments h_set {T _} h m : simpl never.

(** Storing objects of one type leaves the heaps of the others alone. *)
Class HDisj (T1 T2 : Type) `{HeapOf T1, HeapOf T2} := {
  h_get_set_ne : forall h m, h_get (T:=T1) (h_set (T:=T2) h m) = h_get m;
  h_set_comm : forall h h' m,
    h_set (T:=T1) h (h_set (T:=T2) h' m) = h_set (T:=T2) h' (h_set (T:=T1) h m)
}.
#[export] Hint Extern 1 (HDisj _ _) => (constructor; intros; reflexivity) : typeclass_instances.

Ltac ksimpl :=
  repeat first
    [ rewrite h_get_set | rewrite h_get_set_ne | rewrite h_set_set
    | rewrite h_set_who | rewrite h_get_tick ].

(** ** The allocator

    [kmalloc] and [kzalloc] reach the allocator of mm/liballoc.  [ka_pick n live]
    is what its [n]-th call answers when the addresses in [live] are taken: [None]
    is the NULL of an exhausted memory.  [ka_junk n i] is what byte [i] of that
    memory happens to hold. *)
Class KAlloc := {
  ka_pick : nat -> gset Z -> option Z;
  ka_junk : nat -> Z -> Z;
  ka_fresh : forall n s p, ka_pick n s = Some p -> p ∉ s /\ 0 < p < two64
}.

Section Access.
Context {T : Type} {HT : HeapOf T}.

Definition load (p : Z) : K T := fun m =>
  match h_get m !! p with
  | Some x => Done x m
  | None => Fault
  end.

Definition store (p : Z) (x : T) : K unit := fun m =>
  match h_get m !! p with
  | Some _ => Done tt (h_set (<[p := x]> (h_get m)) m)
  | None => Fault
  end.

Definition modify (p : Z) (f : T -> T) : K unit :=
  let! x := load p in store p (f x).

(** [kfree(NULL)] only prints a warning; freeing what is not live is a fault. *)
Definition kfree (p : Z) : K unit := fun m =>
  if p =? 0 then Done tt m else
  match h_get m !! p with
  | Some _ => Done tt (h_set (delete p (h_get m)) m)
  | None => Fault
  end.

(** Allocation of one object, [init] being what its memory holds. *)
Definition kalloc {KA : KAlloc} (init : T) : K Z := fun m =>
  let m' := set_tick (S (k_tick m)) m in
  match ka_pick (k_tick m) (k_live m) with
  | Some p => Done p (h_set (<[p := init]> (h_get m')) m')
  | None => Done 0 m'
  end.

Lemma wp_load p x (Q : T -> kmem -> Prop) m :
  h_get m !! p = Some x -> Q x m -> wp (load p) Q m.
Proof. intros Hp HQ. unfold wp, load. by rewrite Hp. Qed.

Lemma wp_store p x y (Q : unit -> kmem -> Prop) m :
  h_get m !! p = Some x -> Q tt (h_set (<[p := y]> (h_get m)) m) -> wp (store p y) Q m.
Proof. intros Hp HQ. unfold wp, store. by rewrite Hp. Qed.

Lemma wp_modify p x f (Q : unit -> kmem -> Prop) m :
  h_get m !! p = Some x -> Q tt (h_set (<[p := f x]> (h_get m)) m) -> wp (modify p f) Q m.
Proof. intros Hp HQ. apply wp_bind. eapply wp_load, wp_store; done. Qed.

Lemma modify_eq p x f m :
  h_get m !! p = Some x -> modify p f m = Done tt (h_set (<[p := f x]> (h_get m)) m).
Proof. intros Hp. unfold modify, M_bind, load, store. by rewrite Hp, Hp. Qed.
Lemma modify_fault p f m : h_get m !! p = None -> modify p f m = Fault.
Proof. intros Hp. unfold modify, M_bind, load. by rewrite Hp. Qed.
Lemma load_eq p x m : h_get m !! p = Some x -> load p m = Done x m.
Proof. intros Hp. unfold load. by rewrite Hp. Qed.

Lemma wp_kfree p x (Q : unit -> kmem -> Prop) m :
  h_get m !! p = Some x -> p <> 0 -> Q tt (h_set (delete p (h_get m)) m) -> wp (kfree p) Q m.
Proof.
  intros Hp H0 HQ. unfold wp, kfree. destruct (Z.eqb_spec p 0); [done|]. by rewrite Hp.
Qed.

Lemma wp_kalloc {KA : KAlloc} init (Q : Z -> kmem -> Prop) m :
  (ka_pick (k_tick m) (k_live m) = None -> Q 0 (set_tick (S (k_tick m)) m)) ->
  (forall p, ka_pick (k_tick m) (k_live m) = Some p ->
     p ∉ k_live m -> 0 < p < two64 -> h_get m !! p = None ->
     Q p (h_set (<[p := init]> (h_get m)) (set_tick (S (k_tick m)) m))) ->
  wp (kalloc init) Q m.
Proof.
  intros H0 HQ. unfold wp, kalloc. destruct (ka_pick _ _) as [p|] eqn:E; [|by apply H0].
  pose proof (ka_fresh _ _ _ E) as [Hfr Hr]. rewrite h_get_tick. apply HQ; try done.
  apply not_elem_of_dom. intros Hin. apply Hfr. by apply h_live.
Qed.
End Access.

(** ** Arrays

    An array object is a list of elements (bytes or words); an access outside it
    faults. *)
Section Arrays.

Definition arr_get (p i : Z) : K Z :=
  let! a := load (T:=list Z) p in
  match (if i <? 0 then None else a !! Z.to_nat i) with
  | Some v => ret! v
  | None => M_fault
  end.

Definition arr_set (p i v : Z) : K unit :=
  let! a := load (T:=list Z) p in
  if (0 <=? i) && (i <? Z.of_nat (length a)) then store p (<[Z.to_nat i := v]> a) else M_fault.

(** [kmalloc(n)] of [n] bytes, with whatever they hold. *)
Definition kmalloc_bytes {KA : KAlloc} (n : Z) : K Z := fun m =>
  kalloc (map (fun i => ka_junk (k_tick m) i mod 256) (seqZ 0 n)) m.

(** Word arrays: [kmalloc(n * sizeof(usize))], and [calloc] and [realloc] of
    mm/liballoc/liballoc.c.  [calloc] keeps the byte count in an [int] and clears
    the block without testing for NULL; [realloc] copies without testing either.
    A pointer that is not a live block is a fault here; liballoc recognises it by
    its magic number, counts an error and answers NULL. *)
Section Words.
Context {KA : KAlloc}.

Definition kmalloc_words (n : Z) : K Z := fun m =>
  kalloc (map (fun i => u64 (ka_junk (k_tick m) i)) (seqZ 0 n)) m.

Definition kcalloc_words (nobj : Z) : K Z :=
  let real_size := s32 (nobj * 8) in
  if real_size <? 0 then M_fault else
  let! p := kmalloc_words (real_size / 8) in
  if p =? 0 then (if real_size =? 0 then ret! p else M_fault) else
  do! store p (replicate (Z.to_nat (real_size / 8)) 0) in
  ret! p.

Definition krealloc_words (p n : Z) : K Z :=
  if n =? 0 then do! kfree (T:=list Z) p in ret! 0 else
  if p =? 0 then kmalloc_words n else
  let! a := load p in
  if n <=? Z.of_nat (length a) then do! store p (take (Z.to_nat n) a) in ret! p else
  let! ptr := kmalloc_words n in
  if ptr =? 0 then
    if Z.of_nat (length a) =? 0 then do! kfree (T:=list Z) p in ret! 0 else M_fault
  else
    let! b := load ptr in
    do! store ptr (a ++ drop (length a) b) in
    do! kfree (T:=list Z) p in
    ret! ptr.
End Words.

Lemma wp_arr_get p a i v (Q : Z -> kmem -> Prop) m :
  h_get m !! p = Some a -> 0 <= i -> a !! Z.to_nat i = Some v -> Q v m -> wp (arr_get p i) Q m.
Proof.
  intros Hp Hi Hv HQ. apply wp_bind. eapply wp_load; [done|].
  destruct (Z.ltb_spec i 0); [lia|]. rewrite Hv. by apply wp_ret.
Qed.

Lemma wp_arr_set p a i v (Q : unit -> kmem -> Prop) m :
  h_get m !! p = Some a -> 0 <= i < Z.of_nat (length a) ->
  Q tt (h_set (<[p := <[Z.to_nat i := v]> a]> (h_get m)) m) -> wp (arr_set p i v) Q m.
Proof.
  intros Hp Hi HQ. apply wp_bind. eapply wp_load; [done|].
  destruct (Z.leb_spec 0 i); [|lia]. destruct (Z.ltb_spec i (Z.of_nat (length a))); [|lia].
  by eapply wp_store.
Qed.
End Arrays.

(** ** Structures protected by a spinlock

    [x_lock], [x_unlock], [x_islocked], [x_recursive_lock] and [x_assert_locked]
    of the headers, which first assert that the pointer is not NULL. *)
Class Lockable (T : Type) := {
  lock_of : T -> spinlock_t;
  with_lock : spinlock_t -> T -> T;
  lock_of_with_lock : forall lk x, lock_of (with_lock lk x) = lk
}.
#[export] Program Instance queue_lockable : Lockable queue_t := {|
  lock_of := q_lock; with_lock lk q := mkQueue (head q) (tail q) (q_count q) lk |}.
#[export] Program Instance stack_lockable : Lockable stack_t := {|
  lock_of := s_lock; with_lock lk _ := mkStack lk |}.
#[export] Program Instance bitmap_lockable : Lockable bitmap_t := {|
  lock_of := bm_lock; with_lock lk b := mkBitmap (bm_map b) (bm_size b) lk |}.
#[export] Program Instance ring_lockable : Lockable ringbuf_t := {|
  lock_of := r_lock;
  with_lock lk r := mkRing (r_buf r) (r_size r) (r_head r) (r_tail r) (r_count r) lk |}.
#[export] Program Instance btree_lockable : Lockable btree_t := {|
  lock_of := bt_lock; with_lock lk b := mkBtree (nr_nodes b) (root b) lk |}.

#[export] Program Instance mmap_lockable : Lockable mmap_t := {|
  lock_of := mm_lock;
  with_lock lk x := mkMmap (mm_flags x) (mm_refs x) (mm_priv x) (mm_arg x) (mm_env x) (mm_heap x)
    (mm_brk x) (mm_pgdir x) (mm_limit x) (mm_guard x) (used_space x) (vmr_head x) (vmr_tail x)
    (mm_entry x) lk |}.

Section Locking.
Context {T : Type} {HT : HeapOf T} {LT : Lockable T}.

Definition run_lock (p : Z) (op : M spinlock_t unit) : K unit :=
  let! x := load p in
  match op (lock_of x) with
  | Done _ lk => store p (with_lock lk x)
  | Panic => M_panic
  | Fault => M_fault
  | Diverge => M_diverge
  end.

Definition obj_lock (p : Z) : K unit :=
  do! M_assert (negb (p =? 0)) in
  let! m := M_get in run_lock p (lock_acquire (k_who m)).
Definition obj_unlock (p : Z) : K unit :=
  do! M_assert (negb (p =? 0)) in
  let! m := M_get in run_lock p (lock_release (k_who m)).
Definition obj_islocked (p : Z) : K bool :=
  do! M_assert (negb (p =? 0)) in
  let! m := M_get in
  let! x := load p in ret! (holding (k_who m) (lock_of x)).
Definition obj_recursive_lock (p : Z) : K bool :=
  let! h := obj_islocked p in
  if h then ret! false else do! obj_lock p in ret! true.
Definition obj_assert_locked (p : Z) : K unit :=
  let! h := obj_islocked p in M_assert h.

(** [p] designates an object whose lock the running context holds. *)
Definition held (m : kmem) (p : Z) (x : T) : Prop :=
  p <> 0 /\ h_get m !! p = Some x /\ holding (k_who m) (lock_of x) = true.

Lemma wp_obj_lock p x (Q : unit -> kmem -> Prop) m :
  p <> 0 -> h_get m !! p = Some x -> locked (lock_of x) = false ->
  (forall lk, holding (k_who m) lk = true -> Q tt (h_set (<[p := with_lock lk x]> (h_get m)) m)) ->
  wp (obj_lock p) Q m.
Proof.
  intros H0 Hp Hl HQ. unfold obj_lock. apply wp_bind, wp_assert; [by apply negb_true_iff, Z.eqb_neq|].
  apply wp_bind, wp_get. unfold run_lock. apply wp_bind. eapply wp_load; [exact Hp|].
  unfold lock_acquire, holding at 1. rewrite Hl. simpl. eapply wp_store; [exact Hp|]. apply HQ.
  unfold holding, self. simpl. destruct (w_current (k_who m) =? 0); rewrite Z.eqb_refl; [apply orb_true_r|done].
Qed.

Lemma wp_obj_unlock p x (Q : unit -> kmem -> Prop) m :
  held m p x ->
  (forall lk, locked lk = false -> Q tt (h_set (<[p := with_lock lk x]> (h_get m)) m)) ->
  wp (obj_unlock p) Q m.
Proof.
  intros (H0 & Hp & Hh) HQ. unfold obj_unlock. apply wp_bind, wp_assert; [by apply negb_true_iff, Z.eqb_neq|].
  apply wp_bind, wp_get. unfold run_lock. apply wp_bind. eapply wp_load; [exact Hp|].
  unfold lock_release. rewrite Hh. eapply wp_store; [exact Hp|]. by apply HQ.
Qed.

Lemma wp_obj_assert_locked p x (Q : unit -> kmem -> Prop) m :
  held m p x -> Q tt m -> wp (obj_assert_locked p) Q m.
Proof.
  intros (H0 & Hp & Hh) HQ. unfold obj_assert_locked, obj_islocked.
  apply wp_bind, wp_bind, wp_assert; [by apply negb_true_iff, Z.eqb_neq|].
  apply wp_bind, wp_get, wp_bind. eapply wp_load; [done|]. apply wp_ret. by apply wp_assert.
Qed.
(** Taking a lock one already holds is a panic. *)
Lemma obj_lock_held p x m : held m p x -> obj_lock p m = Panic.
Proof.
  intros (H0 & Hp & Hh). unfold obj_lock, run_lock, M_bind, M_get, load.
  apply Z.eqb_neq in H0. rewrite H0. simpl. rewrite Hp. unfold lock_acquire. by rewrite Hh.
Qed.
End Locking.
