(* ===== verification/Queue.v ===== *)
(** * Queues (ds/queue/queue.c, ds/queue.h)

    The operations of the kernel's doubly linked queue, over the node and queue
    objects of [kmem].  Pointers are addresses, [0] is NULL.  An out-parameter is
    a component of the result ([None]: not written); where the code tests the
    out-pointer itself for NULL, that test is a [bool] argument. *)
From S2P Require Import Prelude Errno Spinlock KMem.

Definition QUEUE_DUPLICATES : Z := 0.
Definition QUEUE_UNIQUE : Z := 1.
Definition QUEUE_TAIL : Z := 0.
Definition QUEUE_HEAD : Z := 1.

Definition set_prev (x : Z) (n : queue_node_t) := mkQnode x (n_data n) (n_next n).
Definition set_data (x : Z) (n : queue_node_t) := mkQnode (n_prev n) x (n_next n).
Definition set_next (x : Z) (n : queue_node_t) := mkQnode (n_prev n) (n_data n) x.
Definition set_head (x : Z) (q : queue_t) := mkQueue x (tail q) (q_count q) (q_lock q).
Definition set_tail (x : Z) (q : queue_t) := mkQueue (head q) x (q_count q) (q_lock q).
Definition add_count (k : Z) (q : queue_t) :=
  mkQueue (head q) (tail q) (u64 (q_count q + k)) (q_lock q).

Definition is_null (p : Z) : bool := p =? 0.
Definition bad_whence (whence : Z) : bool :=
  negb (whence =? QUEUE_HEAD) && negb (whence =? QUEUE_TAIL).

(** A walk over the nodes of an acyclic list ends within this many steps. *)
Definition node_fuel : K nat := fun m => Done (S (size (k_qnodes m))) m.

(** The initial content of memory that is about to be initialised. *)
Definition QUEUE_INIT : queue_t := mkQueue 0 0 0 SPINLOCK_INIT.
Definition QNODE_ZERO : queue_node_t := mkQnode 0 0 0.

Definition queue_assert_locked (queue : Z) : K unit := obj_assert_locked (T:=queue_t) queue.
Definition queue_lock (queue : Z) : K unit := obj_lock (T:=queue_t) queue.
Definition queue_unlock (queue : Z) : K unit := obj_unlock (T:=queue_t) queue.
Definition queue_recursive_lock (queue : Z) : K bool := obj_recursive_lock (T:=queue_t) queue.

Definition queue_node_init (qnode data : Z) : K Z :=
  if is_null qnode then ret! (- EINVAL) else
  do! modify qnode (set_data data) in
  do! modify qnode (set_next 0) in
  do! modify qnode (set_prev 0) in
  ret! 0.

Definition queue_init (queue : Z) : K Z :=
  if is_null queue then ret! (- EINVAL) else
  do! modify queue (fun q => mkQueue (head q) (tail q) 0 (q_lock q)) in
  do! modify queue (set_tail 0) in
  do! modify queue (set_head 0) in
  do! modify (T:=queue_t) queue (with_lock SPINLOCK_INIT) in
  ret! 0.

(** The unlinking of [node], between [prev] and [next], that [queue_flush],
    [dequeue], [dequeue_tail], [queue_remove_node] and [queue_remove] all spell
    out, up to the decrement of [q_count]. *)
Definition queue_unlink (queue node prev next : Z) : K unit :=
  do! M_when (negb (is_null prev)) (modify prev (set_next next)) in
  do! M_when (negb (is_null next)) (modify next (set_prev prev)) in
  let! q := load queue in
  do! M_when (node =? head q) (modify queue (set_head next)) in
  let! q := load queue in
  do! M_when (node =? tail q) (modify queue (set_tail prev)) in
  modify queue (add_count (-1)).

Fixpoint queue_flush_loop (fuel : nat) (queue node : Z) : K unit :=
  match fuel with
  | O => M_diverge
  | S fuel =>
      if is_null node then ret! tt else
      let! n := load node in
      do! queue_unlink queue node (n_prev n) (n_next n) in
      do! kfree (T:=queue_node_t) node in
      queue_flush_loop fuel queue (n_next n)
  end.

Definition queue_flush (queue : Z) : K unit :=
  do! queue_assert_locked queue in
  let! q := load queue in
  let! fuel := node_fuel in
  do! queue_flush_loop fuel queue (head q) in
  do! modify queue (set_tail 0) in
  modify queue (set_head 0).

Definition queue_length (queue : Z) : K Z :=
  do! queue_assert_locked queue in
  let! q := load queue in ret! (q_count q).

Definition queue_empty (queue : Z) : K bool :=
  do! queue_assert_locked queue in
  let! n := queue_length queue in ret! (n =? 0).

Definition queue_free (queue : Z) : K unit :=
  let! _ := queue_recursive_lock queue in
  do! queue_flush queue in
  do! queue_unlock queue in
  kfree (T:=queue_t) queue.

Definition queue_peek (queue whence : Z) (pdp : bool) : K (Z * option Z) :=
  do! queue_assert_locked queue in
  if is_null queue || negb pdp then ret! (- EINVAL, None) else
  if bad_whence whence then ret! (- EINVAL, None) else
  let! len := queue_length queue in
  if len =? 0 then ret! (- ENOENT, None) else
  let! q := load queue in
  if whence =? QUEUE_TAIL
  then let! n := load (tail q) in ret! (0, Some (n_data n))
  else let! n := load (head q) in ret! (0, Some (n_data n)).

(** The walk of [queue_contains]: the first node that carries [data]. *)
Fixpoint queue_find (fuel : nat) (node data : Z) : K (option Z) :=
  match fuel with
  | O => M_diverge
  | S fuel =>
      if is_null node then ret! None else
      let! n := load node in
      if n_data n =? data then ret! (Some node) else queue_find fuel (n_next n) data
  end.

Definition queue_contains (queue data : Z) : K (Z * option Z) :=
  do! queue_assert_locked queue in
  if is_null queue then ret! (- EINVAL, None) else
  let! q := load queue in
  let! fuel := node_fuel in
  let! r := queue_find fuel (head q) data in
  match r with
  | Some node => ret! (0, Some node)
  | None => ret! (- ENOENT, None)
  end.

(** Linking a detached [node] at the tail, and at the head: the text shared by
    [enqueue], [enqueue_head] and the two cases of [queue_rellocate_node]. *)
Definition queue_link_tail (queue node : Z) : K unit :=
  let! q := load queue in
  do! (if is_null (head q) then modify queue (set_head node)
       else do! modify (tail q) (set_next node) in
            modify node (set_prev (tail q))) in
  modify queue (set_tail node).

Definition queue_link_head (queue node : Z) : K unit :=
  let! q := load queue in
  do! (if is_null (head q) then modify queue (set_tail node)
       else do! modify (head q) (set_prev node) in
            modify node (set_next (head q))) in
  modify queue (set_head node).

Section Alloc.
Context {KA : KAlloc}.

Definition queue_alloc (pqp : bool) : K (Z * option Z) :=
  if negb pqp then ret! (- EINVAL, None) else
  let! queue := kalloc QUEUE_INIT in
  if is_null queue then ret! (- ENOMEM, None) else
  let! _ := queue_init queue in
  ret! (0, Some queue).

Definition enqueue (queue data uniqueness : Z) : K (Z * option Z) :=
  do! queue_assert_locked queue in
  if is_null queue then ret! (- EINVAL, None) else
  let! dup := (if uniqueness =? QUEUE_UNIQUE
               then let! r := queue_contains queue data in ret! (r.1 =? 0)
               else ret! false) in
  if dup then ret! (- EEXIST, None) else
  let! node := kalloc QNODE_ZERO in
  if is_null node then ret! (- ENOMEM, None) else
  do! store node QNODE_ZERO in
  do! modify node (set_data data) in
  do! queue_link_tail queue node in
  do! modify queue (add_count 1) in
  ret! (0, Some node).

Definition enqueue_head (queue data uniqueness : Z) : K (Z * option Z) :=
  do! queue_assert_locked queue in
  if is_null queue then ret! (- EINVAL, None) else
  let! dup := (if uniqueness =? QUEUE_UNIQUE
               then let! r := queue_contains queue data in ret! (r.1 =? 0)
               else ret! false) in
  if dup then ret! (- EEXIST, None) else
  let! node := kalloc QNODE_ZERO in
  if is_null node then ret! (- ENOMEM, None) else
  do! store node QNODE_ZERO in
  do! modify node (set_data data) in
  do! queue_link_head queue node in
  do! modify queue (add_count 1) in
  ret! (0, Some node).

Definition enqueue_whence (queue data uniqueness whence : Z) : K (Z * option Z) :=
  do! queue_assert_locked queue in
  if whence =? QUEUE_HEAD then enqueue_head queue data uniqueness
  else if whence =? QUEUE_TAIL then enqueue queue data uniqueness
  else ret! (- EINVAL, None).
End Alloc.

Definition dequeue (queue : Z) (pdp : bool) : K (Z * option Z) :=
  do! queue_assert_locked queue in
  if is_null queue || negb pdp then ret! (- EINVAL, None) else
  let! q := load queue in
  let node := head q in
  if is_null node then ret! (- ENOENT, None) else
  let! n := load node in
  do! queue_unlink queue node (n_prev n) (n_next n) in
  do! kfree (T:=queue_node_t) node in
  ret! (0, Some (n_data n)).

Definition dequeue_tail (queue : Z) (pdp : bool) : K (Z * option Z) :=
  do! queue_assert_locked queue in
  if is_null queue || negb pdp then ret! (- EINVAL, None) else
  let! q := load queue in
  let node := tail q in
  if is_null node then ret! (- ENOENT, None) else
  let! n := load node in
  do! queue_unlink queue node (n_prev n) (n_next n) in
  do! kfree (T:=queue_node_t) node in
  ret! (0, Some (n_data n)).

Definition dequeue_whence (queue whence : Z) (pdp : bool) : K (Z * option Z) :=
  do! queue_assert_locked queue in
  if whence =? QUEUE_HEAD then dequeue queue pdp
  else if whence =? QUEUE_TAIL then dequeue_tail queue pdp
  else ret! (- EINVAL, None).

(** The walk that [queue_remove_node] and [queue_remove] share: unlink and free
    the first node their test accepts. *)
Fixpoint queue_remove_loop (fuel : nat) (test : Z -> queue_node_t -> bool) (queue node : Z) : K Z :=
  match fuel with
  | O => M_diverge
  | S fuel =>
      if is_null node then ret! (- ENOENT) else
      let! n := load node in
      if test node n then
        do! queue_unlink queue node (n_prev n) (n_next n) in
        do! kfree (T:=queue_node_t) node in
        ret! 0
      else queue_remove_loop fuel test queue (n_next n)
  end.

Definition queue_remove_node (queue target : Z) : K Z :=
  do! queue_assert_locked queue in
  if is_null queue || is_null target then ret! (- EINVAL) else
  let! q := load queue in
  let! fuel := node_fuel in
  queue_remove_loop fuel (fun node _ => target =? node) queue (head q).

Definition queue_remove (queue data : Z) : K Z :=
  do! queue_assert_locked queue in
  if is_null queue then ret! (- EINVAL) else
  let! q := load queue in
  let! fuel := node_fuel in
  queue_remove_loop fuel (fun _ n => n_data n =? data) queue (head q).

Definition queue_rellocate_node (queue node whence : Z) : K Z :=
  if is_null queue || is_null node then ret! (- EINVAL) else
  do! queue_assert_locked queue in
  if bad_whence whence then ret! (- EINVAL) else
  let! n := load node in
  let prev := n_prev n in
  let next := n_next n in
  do! M_when (negb (is_null next)) (modify next (set_prev prev)) in
  do! M_when (negb (is_null prev)) (modify prev (set_next next)) in
  let! q := load queue in
  do! M_when (node =? head q) (modify queue (set_head next)) in
  let! q := load queue in
  do! M_when (node =? tail q) (modify queue (set_tail prev)) in
  do! modify node (set_prev 0) in
  do! modify node (set_next 0) in
  do! (if whence =? QUEUE_HEAD then queue_link_head queue node
       else queue_link_tail queue node) in
  ret! 0.

Definition queue_rellocate (queue data whence : Z) : K Z :=
  if is_null queue then ret! (- EINVAL) else
  do! queue_assert_locked queue in
  let! r := queue_contains queue data in
  match r with
  | (0, Some node) => queue_rellocate_node queue node whence
  | (err, _) => ret! err
  end.

(** [while (node && index < start_pos)]: [n] steps along [next], less if the
    list ends before. *)
Fixpoint queue_advance (n : nat) (node : Z) : K Z :=
  match n with
  | O => ret! node
  | S n =>
      if is_null node then ret! node else
      let! x := load node in queue_advance n (n_next x)
  end.

(** [for (i = 1; i < num_nodes; i++) last = last->next], with no NULL test. *)
Fixpoint queue_follow (n : nat) (node : Z) : K Z :=
  match n with
  | O => ret! node
  | S n => let! x := load node in queue_follow n (n_next x)
  end.

(** [forlinked(node, first, node->next) {}]: a walk whose body is empty. *)
Fixpoint queue_walk (fuel : nat) (node : Z) : K unit :=
  match fuel with
  | O => M_diverge
  | S fuel =>
      if is_null node then ret! tt else
      let! x := load node in queue_walk fuel (n_next x)
  end.

Definition queue_node_migrate (dstq srcq start_pos num_nodes whence : Z) : K Z :=
  do! queue_assert_locked srcq in
  do! queue_assert_locked dstq in
  let! sq := load srcq in
  if (q_count sq <=? start_pos) || (num_nodes =? 0)
     || (q_count sq <? u64 (start_pos + num_nodes)) then ret! (- EINVAL) else
  if bad_whence whence then ret! (- EINVAL) else
  let! node := queue_advance (Z.to_nat start_pos) (head sq) in
  if is_null node then ret! (- ENOENT) else
  let first := node in
  let! last := queue_follow (Z.to_nat (num_nodes - 1)) node in
  (* remove [first .. last] from the source queue *)
  let! f := load first in
  let! l := load last in
  do! (if negb (is_null (n_prev f)) then modify (n_prev f) (set_next (n_next l))
       else modify srcq (set_head (n_next l))) in
  let! l := load last in
  let! f := load first in
  do! (if negb (is_null (n_next l)) then modify (n_next l) (set_prev (n_prev f))
       else modify srcq (set_tail (n_prev f))) in
  do! modify srcq (add_count (- num_nodes)) in
  do! modify first (set_prev 0) in
  do! modify last (set_next 0) in
  let! fuel := node_fuel in
  do! queue_walk fuel first in
  (* insert them into the destination queue *)
  let! dq := load dstq in
  do! (if whence =? QUEUE_HEAD then
         do! modify last (set_next (head dq)) in
         do! M_when (negb (is_null (head dq))) (modify (head dq) (set_prev last)) in
         do! modify dstq (set_head first) in
         M_when (is_null (tail dq)) (modify dstq (set_tail last))
       else
         do! modify first (set_prev (tail dq)) in
         do! M_when (negb (is_null (tail dq))) (modify (tail dq) (set_next first)) in
         do! modify dstq (set_tail last) in
         M_when (is_null (head dq)) (modify dstq (set_head first))) in
  do! modify dstq (add_count num_nodes) in
  ret! 0.

Definition queue_move (dstq srcq whence : Z) : K Z :=
  do! queue_assert_locked srcq in
  do! queue_assert_locked dstq in
  if bad_whence whence then ret! (- EINVAL) else
  let! sq := load srcq in
  queue_node_migrate dstq srcq 0 (q_count sq) whence.

Fixpoint queue_replace_loop (fuel : nat) (node data0 data1 : Z) : K Z :=
  match fuel with
  | O => M_diverge
  | S fuel =>
      if is_null node then ret! (- ENOENT) else
      let! n := load node in
      if n_data n =? data0 then do! modify node (set_data data1) in ret! 0
      else queue_replace_loop fuel (n_next n) data0 data1
  end.

Definition queue_replace (queue data0 data1 : Z) : K Z :=
  if is_null queue || (data0 =? data1) then ret! (- EINVAL) else
  do! queue_assert_locked queue in
  let! q := load queue in
  let! fuel := node_fuel in
  queue_replace_loop fuel (head q) data0 data1.
