(* ===== verification/Dll.v ===== *)
(** * Doubly linked segments of queue nodes

    The shape of a run of nodes in node memory and the lemmas that split it,
    frame it and relink its ends.  Shared by the queues of ds/queue/queue.c and
    the embedded queues of ds/queue/embedded.c. *)
From S2P Require Import Prelude Errno Spinlock KMem Queue.

Notation qnodes m := (h_get (T:=queue_node_t) m) (only parsing).
Notation queues m := (h_get (T:=queue_t) m) (only parsing).

(** A segment is described by its nodes in order, each with its address and the
    data it carries. *)
Definition addrs {D} (l : list (Z * D)) : list Z := l.*1.
Arguments addrs : simpl never.
Definition hd_addr {D} (l : list (Z * D)) (d : Z) : Z :=
  match l with [] => d | x :: _ => x.1 end.
Fixpoint last_addr {D} (l : list (Z * D)) (d : Z) : Z :=
  match l with [] => d | x :: l => last_addr l x.1 end.

Fixpoint seg (h : gmap Z queue_node_t) (pv : Z) (l : list (Z * Z)) (nx : Z) : Prop :=
  match l with
  | [] => True
  | (p, d) :: l => h !! p = Some (mkQnode pv d (hd_addr l nx)) /\ seg h p l nx
  end.

Definition addr_ok (p : Z) : Prop := 0 < p < two64.
Definition dll_ok {D} (l : list (Z * D)) : Prop := NoDup (addrs l) /\ Forall addr_ok (addrs l).

(** ** Ends *)
Section Lists.
Context {D : Type}.
Implicit Types (l : list (Z * D)) (x : Z * D).

Lemma hd_addr_app l1 l2 d : hd_addr (l1 ++ l2) d = hd_addr l1 (hd_addr l2 d).
Proof. by destruct l1. Qed.
Lemma last_addr_app l1 l2 d : last_addr (l1 ++ l2) d = last_addr l2 (last_addr l1 d).
Proof. revert d. induction l1 as [|x l1 IH]; intros d; simpl; [done|apply IH]. Qed.
Lemma last_addr_snoc l x d : last_addr (l ++ [x]) d = x.1.
Proof. by rewrite last_addr_app. Qed.
Lemma addrs_app l1 l2 : addrs (l1 ++ l2) = addrs l1 ++ addrs l2.
Proof. apply fmap_app. Qed.
Lemma addrs_cons x l : addrs (x :: l) = x.1 :: addrs l.
Proof. done. Qed.

Lemma elem_of_addrs_app p l1 l2 : p ∈ addrs (l1 ++ l2) <-> p ∈ addrs l1 \/ p ∈ addrs l2.
Proof. by rewrite addrs_app, elem_of_app. Qed.
Lemma elem_of_addrs_cons p x l : p ∈ addrs (x :: l) <-> p = x.1 \/ p ∈ addrs l.
Proof. by rewrite addrs_cons, elem_of_cons. Qed.
Lemma not_elem_of_addrs_nil p : p ∉ addrs (D:=D) [].
Proof. apply not_elem_of_nil. Qed.

Lemma last_addr_in l d : l <> [] -> last_addr l d ∈ addrs l.
Proof.
  destruct l as [|x l] using rev_ind; [done|]. intros _.
  rewrite last_addr_snoc, elem_of_addrs_app, elem_of_addrs_cons. auto.
Qed.
Lemma hd_addr_in l d : l <> [] -> hd_addr l d ∈ addrs l.
Proof. destruct l; [done|]. intros _. apply elem_of_addrs_cons. by left. Qed.

(** ** Well-formed lists of nodes *)
Lemma dll_ok_app l1 l2 :
  dll_ok (l1 ++ l2) <-> dll_ok l1 /\ dll_ok l2 /\ (forall p, p ∈ addrs l1 -> p ∉ addrs l2).
Proof. unfold dll_ok. rewrite addrs_app, NoDup_app, Forall_app. naive_solver. Qed.

Lemma dll_ok_cons x l : dll_ok (x :: l) <-> addr_ok x.1 /\ x.1 ∉ addrs l /\ dll_ok l.
Proof. unfold dll_ok. rewrite addrs_cons, NoDup_cons, Forall_cons. naive_solver. Qed.

Lemma dll_ok_nil : dll_ok (D:=D) [].
Proof. split; constructor. Qed.

Lemma dll_ok_perm l l' : Permutation l l' -> dll_ok l -> dll_ok l'.
Proof.
  intros Hp [Hn Ha]. assert (Permutation (addrs l) (addrs l')) as Hpa by (by apply fmap_Permutation).
  split; [by rewrite <- Hpa | by rewrite <- Hpa].
Qed.

Lemma dll_ok_addr l p : dll_ok l -> p ∈ addrs l -> addr_ok p.
Proof. intros [_ Hf] Hp. rewrite Forall_forall in Hf. by apply Hf. Qed.

Lemma dll_ok_hd_null l : dll_ok l -> is_null (hd_addr l 0) = true <-> l = [].
Proof.
  intros Hok. unfold is_null. rewrite Z.eqb_eq. split; [|by intros ->].
  destruct l as [|x l]; [done|]. intros Hx.
  destruct (dll_ok_addr _ (hd_addr (x :: l) 0) Hok) as [? _]; [by apply hd_addr_in|lia].
Qed.
Lemma dll_ok_last_null l : dll_ok l -> is_null (last_addr l 0) = true <-> l = [].
Proof.
  intros Hok. unfold is_null. rewrite Z.eqb_eq. split; [|by intros ->].
  destruct l as [|x l]; [done|]. intros Hx.
  destruct (dll_ok_addr _ (last_addr (x :: l) 0) Hok) as [? _]; [by apply last_addr_in|lia].
Qed.

(** Addresses are 64-bit and distinct, so a list of nodes is shorter than 2^64. *)
Lemma addr_list_length (a : list Z) : NoDup a -> Forall addr_ok a -> Z.of_nat (length a) < two64.
Proof.
  intros Hn Ha. assert (length a <= length (seqZ 1 (two64 - 1)))%nat as Hle.
  { apply submseteq_length, NoDup_submseteq; [done|]. intros p Hp.
    rewrite Forall_forall in Ha. apply Ha in Hp. apply elem_of_seqZ. unfold addr_ok in Hp. lia. }
  rewrite length_seqZ in Hle. unfold two64 in *. lia.
Qed.
Lemma dll_ok_length l : dll_ok l -> Z.of_nat (length l) < two64.
Proof.
  intros [Hn Ha]. pose proof (addr_list_length _ Hn Ha) as H. unfold addrs in H. by rewrite length_fmap in H.
Qed.

(** Taking one node out of a list. *)
Lemma hd_addr_mid_eq l1 p d l2 :
  dll_ok (l1 ++ (p, d) :: l2) ->
  (if p =? hd_addr (l1 ++ (p, d) :: l2) 0 then hd_addr l2 0 else hd_addr (l1 ++ (p, d) :: l2) 0)
  = hd_addr (l1 ++ l2) 0.
Proof.
  intros Hok. destruct l1 as [|x l1]; simpl; [by rewrite Z.eqb_refl|].
  destruct (Z.eqb_spec p x.1) as [->|]; [|done]. exfalso.
  simpl in Hok. apply dll_ok_cons in Hok as (_ & Hn & _). apply Hn, elem_of_addrs_app.
  right. apply elem_of_addrs_cons. by left.
Qed.

Lemma last_addr_mid_eq l1 p d l2 :
  dll_ok (l1 ++ (p, d) :: l2) ->
  (if p =? last_addr (l1 ++ (p, d) :: l2) 0 then last_addr l1 0 else last_addr (l1 ++ (p, d) :: l2) 0)
  = last_addr (l1 ++ l2) 0.
Proof.
  intros Hok. rewrite !last_addr_app. simpl.
  destruct l2 as [|x l2 _] using rev_ind; simpl; [by rewrite Z.eqb_refl|].
  rewrite !last_addr_snoc. destruct (Z.eqb_spec p x.1) as [->|]; [|done]. exfalso.
  apply dll_ok_app in Hok as (_ & Hok & _). apply dll_ok_cons in Hok as (_ & Hn & _).
  apply Hn, elem_of_addrs_app. right. apply elem_of_addrs_cons. by left.
Qed.

Lemma dll_ok_mid l1 p d l2 :
  dll_ok (l1 ++ (p, d) :: l2) ->
  dll_ok (l1 ++ l2) /\ p ∉ addrs (l1 ++ l2) /\ addr_ok p /\
  dll_ok l1 /\ dll_ok l2 /\ (forall a, a ∈ addrs l1 -> a ∉ addrs l2).
Proof.
  intros Hok. assert (dll_ok ((p, d) :: (l1 ++ l2))) as Hc.
  { eapply dll_ok_perm; [|exact Hok]. symmetry. apply Permutation_middle. }
  apply dll_ok_cons in Hc as (? & ? & Hc). split_and!; try done;
    apply dll_ok_app in Hc as (? & ? & ?); done.
Qed.
End Lists.

(** ** Splitting, framing and relinking segments *)
Section Seg.
Implicit Types h : gmap Z queue_node_t.

Lemma seg_app h pv l1 l2 nx :
  seg h pv (l1 ++ l2) nx <->
  seg h pv l1 (hd_addr l2 nx) /\ seg h (last_addr l1 pv) l2 nx.
Proof.
  revert pv. induction l1 as [|[p d] l1 IH]; intros pv; simpl; [naive_solver|].
  rewrite IH, hd_addr_app. naive_solver.
Qed.

Lemma seg_ext h h' pv l nx :
  (forall p, p ∈ addrs l -> h' !! p = h !! p) -> seg h pv l nx -> seg h' pv l nx.
Proof.
  revert pv. induction l as [|[p d] l IH]; intros pv Hext; simpl; [done|].
  intros [Hp Hl]. setoid_rewrite elem_of_addrs_cons in Hext. simpl in Hext. split.
  - rewrite Hext; auto.
  - apply IH; auto.
Qed.

Lemma seg_lookup h pv l nx p : seg h pv l nx -> p ∈ addrs l -> is_Some (h !! p).
Proof.
  revert pv. induction l as [|[q d] l IH]; intros pv; simpl.
  { intros _ []%not_elem_of_addrs_nil. }
  intros [Hq Hl]. intros [->|Hp]%elem_of_addrs_cons; [eauto|].
  by apply (IH q).
Qed.

Lemma seg_subset h pv l nx : seg h pv l nx -> list_to_set (addrs l) ⊆ dom h.
Proof.
  intros Hs p Hp. apply elem_of_list_to_set in Hp. apply elem_of_dom. by eapply seg_lookup.
Qed.

(** A walk along a segment ends within the number of live nodes. *)
Lemma seg_length h pv l nx : seg h pv l nx -> dll_ok l -> (length l <= size h)%nat.
Proof.
  intros Hs [Hn _]. pose proof (subseteq_size _ _ (seg_subset _ _ _ _ Hs)) as Hsz.
  rewrite size_list_to_set in Hsz by done. rewrite size_dom in Hsz.
  unfold addrs in Hsz. by rewrite length_fmap in Hsz.
Qed.

Lemma seg_set_next h pv l p d nx nx' :
  seg h pv (l ++ [(p, d)]) nx -> p ∉ addrs l ->
  seg (<[p := mkQnode (last_addr l pv) d nx']> h) pv (l ++ [(p, d)]) nx'.
Proof.
  rewrite !seg_app. simpl. intros (Hl & _ & _) Hp. split_and!; [|by simplify_map_eq|done].
  eapply seg_ext; [|done]. intros q Hq. apply lookup_insert_ne. by intros ->.
Qed.

Lemma seg_set_prev h pv pv' l p d nx :
  seg h pv ((p, d) :: l) nx -> p ∉ addrs l ->
  seg (<[p := mkQnode pv' d (hd_addr l nx)]> h) pv' ((p, d) :: l) nx.
Proof.
  simpl. intros [_ Hl] Hp. split; [by simplify_map_eq|].
  eapply seg_ext; [|done]. intros q Hq. apply lookup_insert_ne. by intros ->.
Qed.
End Seg.

(** ** Relinking as the code does it

    [if (prev) prev->next = x] at the end of a segment, and
    [if (next) next->prev = x] at its start: the segment keeps its nodes, and no
    other node changes. *)
Definition relinked (l : list (Z * Z)) (h h' : gmap Z queue_node_t) : Prop :=
  (forall p, p ∉ addrs l -> h' !! p = h !! p) /\ dom h' = dom h.

Lemma relinked_refl l h : relinked l h h.
Proof. done. Qed.

Lemma wp_link_next l pv nx x (Q : unit -> kmem -> Prop) m :
  seg (qnodes m) pv l nx -> dll_ok l ->
  (forall h', seg h' pv l x -> relinked l (qnodes m) h' -> Q tt (h_set h' m)) ->
  wp (M_when (negb (is_null (last_addr l 0))) (modify (last_addr l 0) (set_next x))) Q m.
Proof.
  intros Hs Hok HQ. destruct l as [|[p d] l _] using rev_ind.
  { simpl. rewrite <- (h_set_get m). by apply HQ. }
  rewrite last_addr_snoc. apply dll_ok_app in Hok as (_ & Hok2 & Hd).
  apply dll_ok_cons in Hok2 as ([? _] & _ & _). simpl in *.
  assert (p ∉ addrs l) as Hp by (intros Hin; apply (Hd _ Hin), elem_of_addrs_cons; by left).
  pose proof (proj1 (seg_app _ _ _ _ _) Hs) as (_ & Hp' & _).
  unfold is_null. rewrite (proj2 (Z.eqb_neq p 0)) by lia. simpl.
  eapply wp_modify; [done|]. apply HQ; [by eapply seg_set_next|]. split.
  - intros q Hq. apply lookup_insert_ne. intros ->. apply Hq.
    rewrite elem_of_addrs_app, elem_of_addrs_cons. auto.
  - apply dom_insert_lookup_L. eauto.
Qed.

Lemma wp_link_prev l pv nx x (Q : unit -> kmem -> Prop) m :
  seg (qnodes m) pv l nx -> dll_ok l ->
  (forall h', seg h' x l nx -> relinked l (qnodes m) h' -> Q tt (h_set h' m)) ->
  wp (M_when (negb (is_null (hd_addr l 0))) (modify (hd_addr l 0) (set_prev x))) Q m.
Proof.
  intros Hs Hok HQ. destruct l as [|[p d] l].
  { simpl. rewrite <- (h_set_get m). by apply HQ. }
  apply dll_ok_cons in Hok as ([? _] & Hp & _). simpl in *.
  pose proof Hs as [Hp' _].
  unfold is_null. rewrite (proj2 (Z.eqb_neq p 0)) by lia. simpl.
  eapply wp_modify; [done|]. apply HQ; [by apply (seg_set_prev _ pv)|]. split.
  - intros q Hq. apply lookup_insert_ne. intros ->. apply Hq, elem_of_addrs_cons. auto.
  - apply dom_insert_lookup_L. eauto.
Qed.
