(* ===== verification/QueueFacts.v ===== *)
(** * Correctness of the queue operations

    What a queue in memory represents ([queue_rep], [queue_own]) and what each
    operation of [Queue] does to it. *)
From S2P Require Import Prelude Errno Spinlock KMem Queue Dll.

Implicit Types (l ls ld : list (Z * Z)) (d : Z).

(** ** Representation

    [queue_rep m q lk l]: at [q] there is a queue whose lock is [lk] and whose
    nodes, from head to tail, are those of [l] (address and data). *)
Definition queue_rep (m : kmem) (q : Z) (lk : spinlock_t) (l : list (Z * Z)) : Prop :=
  q <> 0 /\
  queues m !! q = Some (mkQueue (hd_addr l 0) (last_addr l 0) (Z.of_nat (length l)) lk) /\
  seg (qnodes m) 0 l 0 /\ dll_ok l.

(** [queue_rep] of a queue whose lock the running context holds. *)
Definition queue_own (m : kmem) (q : Z) (l : list (Z * Z)) : Prop :=
  exists lk, holding (k_who m) lk = true /\ queue_rep m q lk l.

(** What an operation on queue [q] with nodes [l] may change: the queue object,
    its own nodes, and nodes that were not live.  Everything else stays. *)
Definition q_erase (m : kmem) : kmem :=
  set_tick 0 (h_set (T:=queue_t) ∅ (h_set (T:=queue_node_t) ∅ m)).

Record queue_frame (q : Z) (l : list (Z * Z)) (m m' : kmem) : Prop := {
  qf_erase : q_erase m' = q_erase m;
  qf_queues : forall q', q' <> q -> queues m' !! q' = queues m !! q';
  qf_nodes : forall p x, p ∉ addrs l -> qnodes m !! p = Some x -> qnodes m' !! p = Some x
}.

Lemma queue_frame_who q l m m' : queue_frame q l m m' -> k_who m' = k_who m.
Proof. intros [He _ _]. apply (f_equal k_who) in He. exact He. Qed.

Lemma queue_frame_refl q l m : queue_frame q l m m.
Proof. done. Qed.

Lemma queue_frame_trans q l l' m1 m2 m3 :
  (forall p x, p ∉ addrs l -> qnodes m1 !! p = Some x -> p ∉ addrs l') ->
  queue_frame q l m1 m2 -> queue_frame q l' m2 m3 -> queue_frame q l m1 m3.
Proof.
  intros Hl [He1 Hq1 Hn1] [He2 Hq2 Hn2]. split.
  - by rewrite He2.
  - intros q' Hq. by rewrite Hq2, Hq1.
  - intros p x Hp Hx. eauto.
Qed.

(** A queue elsewhere survives, with the same content. *)
Lemma queue_rep_frame q l m m' q2 lk2 l2 :
  queue_frame q l m m' -> q2 <> q -> (forall p, p ∈ addrs l2 -> p ∉ addrs l) ->
  queue_rep m q2 lk2 l2 -> queue_rep m' q2 lk2 l2.
Proof.
  intros [_ Hq Hn] Hne Hd (H0 & Hq2 & Hs & Hok). split_and!; try done; [by rewrite Hq|].
  eapply seg_ext; [|done]. intros p Hp. destruct (seg_lookup _ _ _ _ p Hs Hp) as [x Hx].
  rewrite Hx. by apply Hn; [apply Hd|].
Qed.

Lemma queue_own_held m q l :
  queue_own m q l -> exists x, held m q x /\ x = mkQueue (hd_addr l 0) (last_addr l 0)
    (Z.of_nat (length l)) (q_lock x).
Proof. intros (lk & Hh & H0 & Hq & _). eexists. split; [by split_and!|done]. Qed.

(** [queue_assert_locked] passes, and changes nothing. *)
Lemma wp_queue_assert_locked m q l (Q : unit -> kmem -> Prop) :
  queue_own m q l -> Q tt m -> wp (queue_assert_locked q) Q m.
Proof.
  intros (x & Hx & _)%queue_own_held HQ. unfold queue_assert_locked.
  by eapply wp_obj_assert_locked.
Qed.

Lemma queue_assert_locked_eq m q l : queue_own m q l -> queue_assert_locked q m = Done tt m.
Proof.
  intros Hown. pose proof (wp_queue_assert_locked m q l (fun _ m' => m' = m) Hown eq_refl) as Hw.
  by apply wp_done in Hw as ([] & m' & Hr & ->).
Qed.

Lemma queue_own_not_null m q l : queue_own m q l -> is_null q = false.
Proof. intros (lk & _ & H0 & _). by apply Z.eqb_neq. Qed.

(** Loading the queue object. *)
Lemma wp_load_queue m q l (Q : queue_t -> kmem -> Prop) :
  queue_own m q l ->
  (forall lk, holding (k_who m) lk = true -> queue_rep m q lk l ->
     Q (mkQueue (hd_addr l 0) (last_addr l 0) (Z.of_nat (length l)) lk) m) ->
  wp (load q) Q m.
Proof. intros (lk & Hh & Hr) HQ. pose proof Hr as (_ & Hq & _). eapply wp_load; eauto. Qed.

Lemma queue_own_length m q l : queue_own m q l -> is_u64 (Z.of_nat (length l)).
Proof. intros (lk & _ & _ & _ & _ & Hok). apply dll_ok_length in Hok. unfold is_u64. lia. Qed.

(** The fuel of a walk covers the queue. *)
Lemma wp_node_fuel m q l (Q : nat -> kmem -> Prop) :
  queue_own m q l -> (forall fuel, (length l < fuel)%nat -> Q fuel m) -> wp node_fuel Q m.
Proof.
  intros (lk & _ & _ & _ & Hs & Hok) HQ. unfold wp, node_fuel. apply HQ.
  apply seg_length in Hs; [|done]. change (k_qnodes m) with (qnodes m). lia.
Qed.

Ltac queue_prologue H :=
  apply wp_bind; eapply wp_queue_assert_locked; [exact H|];
  rewrite ?(queue_own_not_null _ _ _ H); simpl.

(** ** Unlinking a node *)
Lemma seg_mid h l1 p d l2 :
  seg h 0 (l1 ++ (p, d) :: l2) 0 ->
  seg h 0 l1 p /\ h !! p = Some (mkQnode (last_addr l1 0) d (hd_addr l2 0)) /\ seg h p l2 0.
Proof. rewrite seg_app. simpl. naive_solver. Qed.

(** The two relinkings that take [p] out of the chain. *)
Lemma seg_bridge h h1 h2 l1 l2 p :
  (forall x, x ∈ addrs l1 -> x ∉ addrs l2) ->
  seg h p l2 0 -> seg h1 0 l1 (hd_addr l2 0) -> relinked l1 h h1 ->
  seg h1 p l2 0 /\
  (seg h2 (last_addr l1 0) l2 0 -> relinked l2 h1 h2 -> seg h2 0 (l1 ++ l2) 0).
Proof.
  intros Hd Hs2 Hs1 [Hr1 _]. split.
  - eapply seg_ext; [|exact Hs2]. intros x Hx. apply Hr1. intros Hx1. by apply (Hd x).
  - intros Hs2' [Hr2 _]. apply seg_app. split; [|done].
    eapply seg_ext; [|exact Hs1]. intros x Hx. apply Hr2. by apply Hd.
Qed.

Lemma u64_pred n : is_u64 (Z.of_nat (S n)) -> u64 (Z.of_nat (S n) + -1) = Z.of_nat n.
Proof. unfold is_u64. intros. rewrite u64_small; unfold is_u64; lia. Qed.

(** The [head] and [tail] pointers of the queue object when [p] leaves the list. *)
Lemma wp_fix_ends {A} m q n lk l1 p d l2 (k : K A) Q :
  dll_ok (l1 ++ (p, d) :: l2) ->
  queues m !! q = Some (mkQueue (hd_addr (l1 ++ (p, d) :: l2) 0) (last_addr (l1 ++ (p, d) :: l2) 0) n lk) ->
  wp k Q (h_set (<[q := mkQueue (hd_addr (l1 ++ l2) 0) (last_addr (l1 ++ l2) 0) n lk]> (queues m)) m) ->
  wp (let! q0 := load q in
      do! M_when (p =? head q0) (modify q (set_head (hd_addr l2 0))) in
      let! q0 := load q in
      do! M_when (p =? tail q0) (modify q (set_tail (last_addr l1 0))) in k) Q m.
Proof.
  intros Hok Hq HQ. apply wp_bind. eapply wp_load; [exact Hq|]. simpl. apply wp_bind.
  eapply (wp_mono _ (fun _ s => s = h_set (<[q := mkQueue (hd_addr (l1 ++ l2) 0)
      (last_addr (l1 ++ (p, d) :: l2) 0) n lk]> (queues m)) m)).
  { rewrite <- (hd_addr_mid_eq l1 p d l2) by done. apply wp_when; intros Hb; rewrite Hb.
    - by eapply wp_modify.
    - by rewrite insert_id, h_set_get by done. }
  intros _ ? ->. apply wp_bind. eapply wp_load; [ksimpl; by simplify_map_eq|]. simpl. apply wp_bind.
  rewrite <- (last_addr_mid_eq l1 p d l2) in HQ by done. apply wp_when; intros Hb; rewrite Hb in HQ.
  - eapply wp_modify; [ksimpl; by simplify_map_eq|]. ksimpl. by rewrite insert_insert_eq.
  - done.
Qed.

(** [wp] of [queue_unlink] on a node in the middle of the list [l1 ++ (p, d) :: l2]. *)
Lemma wp_queue_unlink_strong m q l1 p d l2 (Q : unit -> kmem -> Prop) :
  queue_own m q (l1 ++ (p, d) :: l2) ->
  (forall m', queue_own m' q (l1 ++ l2) -> q_erase m' = q_erase m -> k_tick m' = k_tick m ->
     (forall q', q' <> q -> queues m' !! q' = queues m !! q') ->
     qnodes m' !! p = qnodes m !! p -> relinked (l1 ++ (p, d) :: l2) (qnodes m) (qnodes m') -> Q tt m') ->
  wp (queue_unlink q p (last_addr l1 0) (hd_addr l2 0)) Q m.
Proof.
  intros (lk & Hh & H0 & Hq & Hs & Hok) HQ.
  pose proof (dll_ok_length _ Hok) as Hlen.
  destruct (seg_mid _ _ _ _ _ Hs) as (Hs1 & Hp & Hs2).
  destruct (dll_ok_mid _ _ _ _ Hok) as (Hok' & Hpn & _ & Hok1 & Hok2 & Hd).
  unfold queue_unlink. apply wp_bind. eapply wp_link_next; [done..|].
  intros h1 Hs1' Hr1. destruct (seg_bridge _ _ h1 _ _ _ Hd Hs2 Hs1' Hr1) as [Hs2' _].
  apply wp_bind. eapply (wp_link_prev l2 p 0); [by ksimpl|done|].
  intros h2 Hs2'' Hr2. ksimpl. rewrite h_get_set in Hr2.
  destruct (seg_bridge _ _ h2 _ _ _ Hd Hs2 Hs1' Hr1) as [_ Hs12]. specialize (Hs12 Hs2'' Hr2).
  destruct Hr1 as [Hr1 Hd1], Hr2 as [Hr2 Hd2].
  eapply wp_fix_ends; [done|ksimpl; exact Hq|].
  eapply wp_modify; [ksimpl; by simplify_map_eq|].
  ksimpl. rewrite insert_insert_eq. unfold add_count; simpl.
  replace (u64 _) with (Z.of_nat (length (l1 ++ l2))).
  2:{ rewrite !length_app in *. simpl in *. rewrite Nat.add_succ_r in *.
      rewrite u64_pred; [done|]. unfold is_u64. lia. }
  apply HQ; ksimpl.
  - exists lk. split; [by ksimpl|]. split_and!; ksimpl; first [done | by simplify_map_eq].
  - done.
  - done.
  - intros q' Hne. by rewrite lookup_insert_ne.
  - rewrite elem_of_addrs_app in Hpn. rewrite Hr2, Hr1; naive_solver.
  - split; [|by rewrite Hd2]. intros x Hx. rewrite elem_of_addrs_app, elem_of_addrs_cons in Hx.
    rewrite Hr2, Hr1; naive_solver.
Qed.

Lemma wp_queue_unlink m q l1 p d l2 (Q : unit -> kmem -> Prop) :
  queue_own m q (l1 ++ (p, d) :: l2) ->
  (forall m', queue_own m' q (l1 ++ l2) -> queue_frame q (l1 ++ (p, d) :: l2) m m' ->
     qnodes m' !! p = qnodes m !! p -> dom (qnodes m') = dom (qnodes m) -> Q tt m') ->
  wp (queue_unlink q p (last_addr l1 0) (hd_addr l2 0)) Q m.
Proof.
  intros Hown HQ. eapply wp_queue_unlink_strong; [done|]. intros m' Hown' He _ Hq Hp [Hr Hd].
  apply HQ; try done. split; [done..|]. intros x n Hx Hn. by rewrite Hr.
Qed.

(** Unlinking a node and freeing it, as four of the operations do. *)
Lemma wp_unlink_free {A} m q l1 p d l2 (k : K A) (Q : A -> kmem -> Prop) :
  queue_own m q (l1 ++ (p, d) :: l2) ->
  (forall m', queue_own m' q (l1 ++ l2) -> queue_frame q (l1 ++ (p, d) :: l2) m m' ->
     dom (qnodes m') = dom (qnodes m) ∖ {[p]} -> wp k Q m') ->
  wp (do! queue_unlink q p (last_addr l1 0) (hd_addr l2 0) in
      do! kfree (T:=queue_node_t) p in k) Q m.
Proof.
  intros Hown HQ. pose proof Hown as (lk & _ & _ & _ & Hs & Hok).
  destruct (seg_mid _ _ _ _ _ Hs) as (_ & Hp & _).
  destruct (dll_ok_mid _ _ _ _ Hok) as (_ & Hpn & [? _] & _).
  apply wp_bind. eapply wp_queue_unlink; [done|]. intros m' (lk' & Hh' & H0 & Hq & Hs' & Hok') Hf Hp' Hdom.
  apply wp_bind. eapply wp_kfree; [by rewrite Hp'|lia|]. apply HQ.
  - exists lk'. split; [by ksimpl|]. split_and!; ksimpl; try done.
    eapply seg_ext; [|exact Hs']. intros x Hx. apply lookup_delete_ne. by intros ->.
  - destruct Hf as [He Hq' Hn]. split; ksimpl; [done|done|]. intros x n Hx Hn'.
    rewrite lookup_delete_ne; [by apply Hn|]. intros ->. apply Hx, elem_of_addrs_app. right.
    apply elem_of_addrs_cons. by left.
  - ksimpl. by rewrite dom_delete_L, Hdom.
Qed.

(** Loading a node of the queue. *)
Lemma wp_load_node m q l1 p d l2 (Q : queue_node_t -> kmem -> Prop) :
  queue_own m q (l1 ++ (p, d) :: l2) ->
  Q (mkQnode (last_addr l1 0) d (hd_addr l2 0)) m -> wp (load p) Q m.
Proof.
  intros (lk & _ & _ & _ & Hs & _) HQ. destruct (seg_mid _ _ _ _ _ Hs) as (_ & Hp & _).
  by eapply wp_load.
Qed.

Lemma load_node_eq m q l1 p d l2 :
  queue_own m q (l1 ++ (p, d) :: l2) ->
  load p m = Done (mkQnode (last_addr l1 0) d (hd_addr l2 0)) m.
Proof.
  intros (lk & _ & _ & _ & Hs & _). destruct (seg_mid _ _ _ _ _ Hs) as (_ & Hp & _).
  unfold load. by rewrite Hp.
Qed.

Lemma queue_own_node_null m q l1 p d l2 : queue_own m q (l1 ++ (p, d) :: l2) -> is_null p = false.
Proof.
  intros (lk & _ & _ & _ & _ & Hok). destruct (dll_ok_mid _ _ _ _ Hok) as (_ & _ & [? _] & _).
  apply Z.eqb_neq. lia.
Qed.

(** ** Taking elements out *)
Lemma dequeue_spec m q l :
  queue_own m q l ->
  wp (dequeue q true) (fun r m' =>
    match l with
    | [] => r = (- ENOENT, None) /\ m' = m
    | (p, d) :: l' => r = (0, Some d) /\ queue_own m' q l' /\ queue_frame q l m m' /\
                      dom (qnodes m') = dom (qnodes m) ∖ {[p]}
    end) m.
Proof.
  intros Hown. unfold dequeue. queue_prologue Hown.
  apply wp_bind. eapply wp_load_queue; [done|]. intros lk _ _. simpl.
  destruct l as [|[p d] l]; simpl; [by apply wp_ret|].
  rewrite (queue_own_node_null _ _ [] p d l Hown). apply wp_bind.
  eapply (wp_load_node _ _ [] p d l); [done|]. simpl.
  eapply (wp_unlink_free _ _ [] p d l); [done|]. intros m' Hown' Hf Hp. by apply wp_ret.
Qed.

Lemma dequeue_tail_spec m q l :
  queue_own m q l ->
  wp (dequeue_tail q true) (fun r m' =>
    (l = [] /\ r = (- ENOENT, None) /\ m' = m) \/
    exists l' p d, l = l' ++ [(p, d)] /\ r = (0, Some d) /\ queue_own m' q l' /\
      queue_frame q l m m' /\ dom (qnodes m') = dom (qnodes m) ∖ {[p]}) m.
Proof.
  intros Hown. unfold dequeue_tail. queue_prologue Hown.
  apply wp_bind. eapply wp_load_queue; [done|]. intros lk _ _. simpl.
  destruct l as [|[p d] l _] using rev_ind; [by apply wp_ret; left|].
  rewrite last_addr_snoc. simpl. rewrite (queue_own_node_null _ _ l p d [] Hown). apply wp_bind.
  eapply (wp_load_node _ _ l p d []); [done|]. simpl.
  eapply (wp_unlink_free _ _ l p d []); [done|]. intros m' Hown' Hf Hp. apply wp_ret.
  rewrite app_nil_r in Hown'. right. eauto 10.
Qed.

(** The removal walk: it stops at the first node its test accepts. *)
Lemma queue_remove_loop_spec test m q l1 l2 fuel :
  queue_own m q (l1 ++ l2) -> (length l2 < fuel)%nat ->
  wp (queue_remove_loop fuel test q (hd_addr l2 0)) (fun r m' =>
    (r = - ENOENT /\ m' = m /\
     forall l p d r, l2 = l ++ (p, d) :: r ->
       test p (mkQnode (last_addr (l1 ++ l) 0) d (hd_addr r 0)) = false) \/
    exists l p d r', l2 = l ++ (p, d) :: r' /\ r = 0 /\
      test p (mkQnode (last_addr (l1 ++ l) 0) d (hd_addr r' 0)) = true /\
      (forall l0 p0 d0 r0, l = l0 ++ (p0, d0) :: r0 ->
         test p0 (mkQnode (last_addr (l1 ++ l0) 0) d0 (hd_addr (r0 ++ (p, d) :: r') 0)) = false) /\
      queue_own m' q (l1 ++ l ++ r') /\ queue_frame q (l1 ++ l2) m m' /\ dom (qnodes m') = dom (qnodes m) ∖ {[p]}) m.
Proof.
  revert l1 fuel. induction l2 as [|[p d] l2 IH]; intros l1 [|fuel] Hown Hf; simpl in Hf; try lia; simpl.
  - apply wp_ret. left. split_and!; [done..|]. intros [|??] ???; by discriminate.
  - rewrite (queue_own_node_null _ _ _ _ _ _ Hown). apply wp_bind.
    eapply wp_load_node; [done|]. destruct (test p _) eqn:Ht; simpl.
    + eapply wp_unlink_free; [done|]. intros m' Hown' Hf' Hp. apply wp_ret. right.
      exists [], p, d, l2. rewrite app_nil_r. split_and!; try done.
      intros [|??] ???; by discriminate.
    + eapply wp_mono; [apply (IH (l1 ++ [(p, d)])); [by rewrite <- app_assoc|lia]|].
      intros r m' [(-> & -> & Hall)|(l & p' & d' & r' & -> & -> & Ht' & Hall & Hown' & Hf' & Hp')].
      * left. split_and!; [done..|]. intros [|[p0 d0] l] p1 d1 r1 Heq; simplify_eq/=.
        { by rewrite app_nil_r. }
        specialize (Hall l p1 d1 r1 eq_refl). by rewrite <- app_assoc in Hall.
      * right. exists ((p, d) :: l), p', d', r'. rewrite <- !app_assoc in *. split_and!; try done.
        intros [|[p0 d0] l0] p1 d1 r1 Heq; simplify_eq/=.
        { rewrite app_nil_r. by rewrite hd_addr_app in *. }
        specialize (Hall l0 p1 d1 r1 eq_refl). by rewrite <- app_assoc in Hall.
Qed.

(** [l] splits at its first node that carries [d]. *)
Definition first_data (d : Z) (l l1 : list (Z * Z)) (p : Z) (l2 : list (Z * Z)) : Prop :=
  l = l1 ++ (p, d) :: l2 /\ d ∉ l1.*2.

Lemma not_elem_data_split d (l : list (Z * Z)) :
  (forall l1 p d0 r, l = l1 ++ (p, d0) :: r -> (d0 =? d) = false) -> d ∉ l.*2.
Proof.
  intros Hall Hin. apply list_elem_of_fmap in Hin as ([p d0] & Hd & Hin). simpl in Hd; subst d0.
  apply list_elem_of_split in Hin as (l1 & r & ->).
  specialize (Hall l1 p d r eq_refl). by rewrite Z.eqb_refl in Hall.
Qed.

Lemma not_elem_addr_split t (l : list (Z * Z)) :
  (forall l1 p d0 r, l = l1 ++ (p, d0) :: r -> (t =? p) = false) -> t ∉ addrs l.
Proof.
  intros Hall Hin. apply list_elem_of_fmap in Hin as ([p d0] & Hd & Hin). simpl in Hd; subst p.
  apply list_elem_of_split in Hin as (l1 & r & ->).
  specialize (Hall l1 t d0 r eq_refl). by rewrite Z.eqb_refl in Hall.
Qed.

Lemma queue_remove_spec m q l data :
  queue_own m q l ->
  wp (queue_remove q data) (fun r m' =>
    (r = - ENOENT /\ m' = m /\ data ∉ l.*2) \/
    exists l1 p l2, r = 0 /\ first_data data l l1 p l2 /\ queue_own m' q (l1 ++ l2) /\
      queue_frame q l m m' /\ dom (qnodes m') = dom (qnodes m) ∖ {[p]}) m.
Proof.
  intros Hown. unfold queue_remove. queue_prologue Hown.
  apply wp_bind. eapply wp_load_queue; [done|]. intros lk _ _. simpl.
  apply wp_bind. eapply wp_node_fuel; [done|]. intros fuel Hf.
  eapply wp_mono; [eapply (queue_remove_loop_spec _ _ _ [] l); [done|lia]|]. simpl.
  intros r m' [(-> & -> & Hall)|(l1 & p & d & l2 & -> & -> & Ht & Hall & Hown' & Hfr & Hp)].
  - left. split_and!; [done..|]. apply not_elem_data_split. intros. by eapply (Hall l1 p d0 r).
  - right. apply Z.eqb_eq in Ht. simpl in Ht; subst d. exists l1, p, l2. split_and!; try done.
    split; [done|]. apply not_elem_data_split. intros. by eapply (Hall l0 p0 d0 r).
Qed.

Lemma queue_remove_node_spec m q l target :
  queue_own m q l -> target <> 0 ->
  wp (queue_remove_node q target) (fun r m' =>
    (r = - ENOENT /\ m' = m /\ target ∉ addrs l) \/
    exists l1 d l2, r = 0 /\ l = l1 ++ (target, d) :: l2 /\ queue_own m' q (l1 ++ l2) /\
      queue_frame q l m m' /\ dom (qnodes m') = dom (qnodes m) ∖ {[target]}) m.
Proof.
  intros Hown Ht0. unfold queue_remove_node. queue_prologue Hown.
  unfold is_null. rewrite (proj2 (Z.eqb_neq target 0)) by done.
  apply wp_bind. eapply wp_load_queue; [done|]. intros lk _ _. simpl.
  apply wp_bind. eapply wp_node_fuel; [done|]. intros fuel Hf.
  eapply wp_mono; [eapply (queue_remove_loop_spec _ _ _ [] l); [done|lia]|]. simpl.
  intros r m' [(-> & -> & Hall)|(l1 & p & d & l2 & -> & -> & Ht & Hall & Hown' & Hfr & Hp)].
  - left. split_and!; [done..|]. by apply not_elem_addr_split.
  - right. apply Z.eqb_eq in Ht; subst p. exists l1, d, l2. auto.
Qed.

(** ** Looking for data *)
Lemma queue_find_spec m q l1 l2 data fuel :
  queue_own m q (l1 ++ l2) -> (length l2 < fuel)%nat ->
  exists r, queue_find fuel (hd_addr l2 0) data m = Done r m /\
    match r with
    | None => data ∉ l2.*2
    | Some p => exists l l', first_data data l2 l p l'
    end.
Proof.
  revert l1 fuel. induction l2 as [|[p d] l2 IH]; intros l1 [|fuel] Hown Hf; simpl in Hf; try lia; simpl.
  { exists None. split; [done|]. apply not_elem_of_nil. }
  rewrite (queue_own_node_null _ _ _ _ _ _ Hown). unfold M_bind.
  rewrite (load_node_eq _ _ _ _ _ _ Hown). simpl. destruct (Z.eqb_spec d data) as [->|Hd].
  { exists (Some p). split; [done|]. exists [], l2. split; [done|]. apply not_elem_of_nil. }
  destruct (IH (l1 ++ [(p, d)]) fuel) as (r & Hr & Hspec); [by rewrite <- app_assoc|lia|].
  exists r. split; [exact Hr|]. destruct r as [p'|].
  - destruct Hspec as (l & l' & -> & Hn). exists ((p, d) :: l), l'. split; [done|].
    simpl. apply not_elem_of_cons. auto.
  - simpl. apply not_elem_of_cons. auto.
Qed.

Lemma queue_contains_spec m q l data :
  queue_own m q l ->
  exists r, queue_contains q data m = Done r m /\
    ((r = (- ENOENT, None) /\ data ∉ l.*2) \/
     exists l1 p l2, r = (0, Some p) /\ first_data data l l1 p l2).
Proof.
  intros Hown.
  enough (wp (queue_contains q data) (fun r m' => m' = m /\
    ((r = (- ENOENT, None) /\ data ∉ l.*2) \/
     exists l1 p l2, r = (0, Some p) /\ first_data data l l1 p l2)) m) as Hwp.
  { apply wp_done in Hwp as (r & m' & Hr & -> & ?). eauto. }
  unfold queue_contains. queue_prologue Hown.
  apply wp_bind. eapply wp_load_queue; [done|]. intros lk _ _. simpl.
  apply wp_bind. eapply wp_node_fuel; [done|]. intros fuel Hf.
  destruct (queue_find_spec m q [] l data fuel Hown Hf) as (r & Hr & Hspec).
  apply wp_bind. unfold wp at 1. rewrite Hr. destruct r as [p|]; apply wp_ret; split; auto.
  right. destruct Hspec as (l1 & l2 & ?). eauto.
Qed.

(** ** Putting elements in *)
Section Enqueue.
Context {KA : KAlloc}.

(** The duplicate test both enqueue functions start with. *)
Lemma wp_dup_test m q l data u (k : bool -> K (Z * option Z)) Q :
  queue_own m q l ->
  (u = QUEUE_UNIQUE -> data ∈ l.*2 -> wp (k true) Q m) ->
  ((u = QUEUE_UNIQUE -> data ∉ l.*2) -> wp (k false) Q m) ->
  wp (let! dup := (if u =? QUEUE_UNIQUE
                   then let! r := queue_contains q data in ret! (r.1 =? 0)
                   else ret! false) in k dup) Q m.
Proof.
  intros Hown Hdup Hnodup. apply wp_bind. destruct (Z.eqb_spec u QUEUE_UNIQUE) as [Hu|Hu].
  - apply wp_bind. destruct (queue_contains_spec m q l data Hown) as (r & Hr & Hspec).
    unfold wp at 1. rewrite Hr. apply wp_ret.
    destruct Hspec as [[-> Hn]|(l1 & p & l2 & -> & Hf)]; simpl; [by apply Hnodup|].
    apply Hdup; [done|]. destruct Hf as [-> _]. rewrite fmap_app. simpl. set_solver.
  - apply wp_ret. by apply Hnodup.
Qed.

(** A freshly allocated node, linked nowhere yet: the queue is as before. *)
Lemma queue_own_alloc m q l p x t :
  queue_own m q l -> p ∉ k_live m -> queue_own (h_set (<[p := x]> (qnodes m)) (set_tick t m)) q l /\ p ∉ addrs l.
Proof.
  intros (lk & Hh & H0 & Hq & Hs & Hok) Hp.
  assert (p ∉ addrs l) as Hpl.
  { intros Hin. apply Hp, (h_live (T:=queue_node_t)). apply elem_of_dom. by eapply seg_lookup. }
  split; [|done]. exists lk. split; [by ksimpl|]. split_and!; ksimpl; try done.
  eapply seg_ext; [|exact Hs]. intros x' Hx'. apply lookup_insert_ne. by intros ->.
Qed.
End Enqueue.

(** ** Linking a detached node at either end *)

(** The queue object at [q] says that its nodes are [l], whatever its count. *)
Definition queue_ends (m : kmem) (q n : Z) (lk : spinlock_t) (l : list (Z * Z)) : Prop :=
  queues m !! q = Some (mkQueue (hd_addr l 0) (last_addr l 0) n lk) /\
  seg (qnodes m) 0 l 0 /\ dll_ok l.

(** [p] is a node of its own, outside [l]. *)
Definition detached (m : kmem) (p d : Z) (l : list (Z * Z)) : Prop :=
  qnodes m !! p = Some (mkQnode 0 d 0) /\ p ∉ addrs l /\ addr_ok p.

Definition linked (m : kmem) (q n : Z) lk (l l' : list (Z * Z)) (p : Z) (m' : kmem) : Prop :=
  exists h', m' = h_set (<[q := mkQueue (hd_addr l' 0) (last_addr l' 0) n lk]> (queues m)) (h_set h' m) /\
    seg h' 0 l' 0 /\ dll_ok l' /\
    (forall x, x ∉ addrs l -> x <> p -> h' !! x = qnodes m !! x) /\ dom h' = dom (qnodes m).

Lemma dll_ok_snoc l p d : dll_ok l -> p ∉ addrs l -> addr_ok p -> dll_ok (l ++ [(p, d)]).
Proof.
  intros Hok Hp Ha. apply (dll_ok_perm ((p, d) :: l)).
  - apply Permutation_cons_append.
  - by apply dll_ok_cons.
Qed.

Lemma wp_queue_link_tail m q n lk l p d :
  queue_ends m q n lk l -> detached m p d l ->
  wp (queue_link_tail q p) (fun _ => linked m q n lk l (l ++ [(p, d)]) p) m.
Proof.
  intros (Hq & Hs & Hok) (Hp & Hpl & Ha). pose proof (dll_ok_snoc _ _ d Hok Hpl Ha) as Hok'.
  unfold queue_link_tail. apply wp_bind. eapply wp_load; [done|]. simpl. apply wp_bind.
  destruct l as [|[a b] l _] using rev_ind.
  - simpl. eapply wp_modify; [done|]. eapply wp_modify; [ksimpl; by simplify_map_eq|].
    exists (qnodes m). split_and!; try done. ksimpl. rewrite insert_insert_eq. by rewrite h_set_get.
  - assert (is_null (hd_addr (l ++ [(a, b)]) 0) = false) as ->.
    { apply not_true_iff_false. rewrite dll_ok_hd_null by done. by destruct l. }
    rewrite last_addr_snoc. simpl. destruct (seg_mid _ _ _ _ _ Hs) as (Hs1 & Hl & _).
    assert (a <> p) as Hap by (intros ->; apply Hpl, elem_of_addrs_app; right; apply elem_of_addrs_cons; auto).
    apply dll_ok_mid in Hok as (_ & Hal & _). rewrite app_nil_r in Hal.
    apply wp_bind. eapply wp_modify; [done|]. eapply wp_modify; [ksimpl; by simplify_map_eq|].
    eapply wp_modify; [ksimpl; done|]. ksimpl.
    exists (<[p := mkQnode a d 0]> (<[a := mkQnode (last_addr l 0) b p]> (qnodes m))).
    split_and!; try done.
    + rewrite !last_addr_snoc, !hd_addr_app. by destruct l.
    + apply seg_app. rewrite last_addr_snoc. split; [|simpl; by simplify_map_eq].
      apply (seg_ext (<[a := mkQnode (last_addr l 0) b p]> (qnodes m))).
      { intros x Hx. apply lookup_insert_ne. by intros ->. }
      by apply (seg_set_next _ _ _ _ _ 0).
    + intros x Hx Hxp. rewrite elem_of_addrs_app, elem_of_addrs_cons in Hx.
      rewrite !lookup_insert_ne; naive_solver.
    + rewrite !dom_insert_lookup_L; [done|eauto|]. rewrite lookup_insert_ne by done. eauto.
Qed.

Lemma wp_queue_link_head m q n lk l p d :
  queue_ends m q n lk l -> detached m p d l ->
  wp (queue_link_head q p) (fun _ => linked m q n lk l ((p, d) :: l) p) m.
Proof.
  intros (Hq & Hs & Hok) (Hp & Hpl & Ha).
  assert (dll_ok ((p, d) :: l)) as Hok' by (by apply dll_ok_cons).
  unfold queue_link_head. apply wp_bind. eapply wp_load; [done|]. simpl. apply wp_bind.
  destruct l as [|[a b] l].
  - simpl. eapply wp_modify; [done|]. eapply wp_modify; [ksimpl; by simplify_map_eq|].
    exists (qnodes m). split_and!; try done. ksimpl. rewrite insert_insert_eq. by rewrite h_set_get.
  - pose proof (dll_ok_hd_null _ Hok) as Hnull. simpl in *.
    destruct (is_null a); [exfalso; destruct Hnull as [Hnull _]; by discriminate Hnull|]. clear Hnull.
    destruct Hs as [Hl Hs].
    assert (a <> p) as Hap by (intros ->; apply Hpl, elem_of_addrs_cons; auto).
    apply dll_ok_cons in Hok as (_ & Hal & _). simpl in Hal.
    apply wp_bind. eapply wp_modify; [done|]. eapply wp_modify; [ksimpl; by simplify_map_eq|].
    eapply wp_modify; [ksimpl; done|]. ksimpl.
    exists (<[p := mkQnode 0 d a]> (<[a := mkQnode p b (hd_addr l 0)]> (qnodes m))).
    split_and!; try done.
    + simpl. split; [by simplify_map_eq|].
      apply (seg_ext (<[a := mkQnode p b (hd_addr l 0)]> (qnodes m)) _ p ((a, b) :: l)).
      { intros x Hx. apply lookup_insert_ne. by intros ->. }
      by apply (seg_set_prev _ 0).
    + intros x Hx Hxp. rewrite elem_of_addrs_cons in Hx. rewrite !lookup_insert_ne; naive_solver.
    + rewrite !dom_insert_lookup_L; [done|eauto|]. rewrite lookup_insert_ne by done. eauto.
Qed.

(** How an [enqueue] ends: refused as a duplicate, out of memory, or with the
    new node [p] in the queue, whose list became [l' p]. *)
Definition enqueued {KA : KAlloc} (m : kmem) (q : Z) (l : list (Z * Z)) (data u : Z)
    (l' : Z -> list (Z * Z)) (r : Z * option Z) (m' : kmem) : Prop :=
  (u = QUEUE_UNIQUE /\ data ∈ l.*2 /\ r = (- EEXIST, None) /\ m' = m) \/
  (u = QUEUE_UNIQUE -> data ∉ l.*2) /\
  ((r = (- ENOMEM, None) /\ m' = set_tick (S (k_tick m)) m /\ ka_pick (k_tick m) (k_live m) = None) \/
   exists p, r = (0, Some p) /\ p ∉ k_live m /\ queue_own m' q (l' p) /\ queue_frame q l m m' /\
     k_live m' = {[p]} ∪ k_live m).

Lemma u64_succ n : Z.of_nat (S n) < two64 -> u64 (Z.of_nat n + 1) = Z.of_nat (S n).
Proof. intros. rewrite u64_small; unfold is_u64; lia. Qed.

Section EnqueueSpec.
Context {KA : KAlloc}.

(** The second half of both functions: allocate, initialise, link, count. *)
Lemma wp_alloc_link m q l data u (link : Z -> K unit) (l' : Z -> list (Z * Z)) :
  queue_own m q l -> (u = QUEUE_UNIQUE -> data ∉ l.*2) ->
  (forall p, length (l' p) = S (length l)) ->
  (forall m1 n lk p, queue_ends m1 q n lk l -> detached m1 p data l ->
     wp (link p) (fun _ => linked m1 q n lk l (l' p) p) m1) ->
  wp (let! node := kalloc QNODE_ZERO in
      if is_null node then ret! (- ENOMEM, None) else
      do! store node QNODE_ZERO in
      do! modify node (set_data data) in
      do! link node in
      do! modify q (add_count 1) in
      ret! (0, Some node)) (enqueued m q l data u l') m.
Proof.
  intros Hown Hnd Hlen Hlink. apply wp_bind, wp_kalloc; [intros HE; apply wp_ret; right; auto|].
  intros p _ Hp Hr _.
  destruct (queue_own_alloc _ _ _ _ (mkQnode 0 data 0) (S (k_tick m)) Hown Hp) as [Hown' Hpl].
  assert (is_null p = false) as -> by (apply Z.eqb_neq; lia).
  apply wp_bind. eapply wp_store; [ksimpl; by simplify_map_eq|].
  apply wp_bind. eapply wp_modify; [ksimpl; by simplify_map_eq|].
  ksimpl. rewrite !insert_insert_eq. change (set_data data QNODE_ZERO) with (mkQnode 0 data 0).
  set (m1 := h_set _ _) in *. destruct Hown' as (lk & Hh & H0 & Hq & Hs & Hok).
  apply wp_bind. eapply wp_mono; [eapply (Hlink m1 _ lk p)|].
  { by split_and!. } { split_and!; [|done..]. unfold m1. ksimpl. by simplify_map_eq. }
  intros _ m2 (h' & -> & Hs' & Hok' & Hext & Hdom').
  pose proof (dll_ok_length _ Hok') as Hl'. rewrite Hlen in Hl'.
  apply wp_bind. eapply wp_modify; [ksimpl; by simplify_map_eq|]. apply wp_ret.
  ksimpl. rewrite insert_insert_eq. unfold add_count; simpl. rewrite u64_succ by done.
  right. split; [done|]. right. exists p. split_and!; [done..| | |].
  - exists lk. split; [by ksimpl|]. rewrite <- (Hlen p).
    split_and!; ksimpl; first [done | by simplify_map_eq].
  - split; [done|..]; ksimpl.
    + intros q' Hne. rewrite lookup_insert_ne by done. done.
    + intros x y Hx Hy. assert (x <> p) as Hxp.
      { intros ->. apply Hp, (h_live (T:=queue_node_t)). by apply elem_of_dom. }
      rewrite Hext by done. unfold m1. ksimpl. by rewrite lookup_insert_ne.
  - revert Hdom' Hq. unfold m1. ksimpl. rewrite dom_insert_L. intros Hdom' Hq.
    unfold k_live, h_set, h_get in *. simpl in *. rewrite (dom_insert_lookup_L (k_queues m)) by eauto.
    rewrite Hdom'. set_solver.
Qed.

Lemma enqueue_spec m q l data u :
  queue_own m q l ->
  wp (enqueue q data u) (enqueued m q l data u (fun p => l ++ [(p, data)])) m.
Proof.
  intros Hown. unfold enqueue. queue_prologue Hown.
  eapply wp_dup_test; [done|intros; apply wp_ret; left; auto|].
  intros Hnd. apply (wp_alloc_link m q l data u (queue_link_tail q)); try done.
  - intros p. rewrite length_app. simpl. lia.
  - intros. by apply wp_queue_link_tail.
Qed.

Lemma enqueue_head_spec m q l data u :
  queue_own m q l ->
  wp (enqueue_head q data u) (enqueued m q l data u (fun p => (p, data) :: l)) m.
Proof.
  intros Hown. unfold enqueue_head. queue_prologue Hown.
  eapply wp_dup_test; [done|intros; apply wp_ret; left; auto|].
  intros Hnd. apply (wp_alloc_link m q l data u (queue_link_head q)); try done.
  intros. by apply wp_queue_link_head.
Qed.
End EnqueueSpec.

(** ** Reading *)
Lemma wp_queue_length m q l (Q : Z -> kmem -> Prop) :
  queue_own m q l -> Q (Z.of_nat (length l)) m -> wp (queue_length q) Q m.
Proof.
  intros Hown HQ. unfold queue_length. queue_prologue Hown.
  apply wp_bind. eapply wp_load_queue; [done|]. intros. by apply wp_ret.
Qed.

Lemma queue_peek_spec m q l whence :
  queue_own m q l ->
  wp (queue_peek q whence true) (fun r m' => m' = m /\
    r = if bad_whence whence then (- EINVAL, None) else
        match (if whence =? QUEUE_TAIL then last l.*2 else l.*2 !! O) with
        | None => (- ENOENT, None)
        | Some d => (0, Some d)
        end) m.
Proof.
  intros Hown. unfold queue_peek. queue_prologue Hown.
  destruct (bad_whence whence); [by apply wp_ret|].
  apply wp_bind. eapply wp_queue_length; [done|].
  destruct l as [|[p d] l].
  { simpl. apply wp_ret. by destruct (whence =? QUEUE_TAIL). }
  simpl. apply wp_bind. eapply wp_load_queue; [done|]. intros lk _ _.
  destruct (whence =? QUEUE_TAIL); simpl.
  - destruct (exists_last (l:=(p, d) :: l)) as (l' & [p' d'] & Heq); [done|].
    assert (last_addr l p = p') as Hlast.
    { change (last_addr l p) with (last_addr ((p, d) :: l) 0). by rewrite Heq, last_addr_snoc. }
    assert (last (((p, d) :: l).*2) = Some d') as Hld by (rewrite Heq, fmap_app; apply last_snoc).
    rewrite Heq in Hown. rewrite Hlast.
    apply wp_bind. eapply wp_load_node; [exact Hown|]. apply wp_ret. split; [done|].
    simpl in Hld. by rewrite Hld.
  - apply wp_bind. eapply (wp_load_node _ _ [] p d l); [done|]. by apply wp_ret.
Qed.

(** ** Flushing *)
Lemma queue_flush_loop_spec m q l fuel :
  queue_own m q l -> (length l < fuel)%nat ->
  wp (queue_flush_loop fuel q (hd_addr l 0)) (fun _ m' =>
    queue_own m' q [] /\ queue_frame q l m m' /\
    dom (qnodes m') = dom (qnodes m) ∖ list_to_set (addrs l)) m.
Proof.
  revert m fuel. induction l as [|[p d] l IH]; intros m [|fuel] Hown Hf; simpl in Hf; try lia; simpl.
  - apply wp_ret. split_and!; [done..|]. set_solver.
  - rewrite (queue_own_node_null _ _ [] p d l Hown). apply wp_bind.
    eapply (wp_load_node _ _ [] p d l); [done|]. simpl.
    eapply (wp_unlink_free _ _ [] p d l); [done|]. simpl. intros m1 Hown1 Hf1 Hd1.
    eapply wp_mono; [apply IH; [done|lia]|]. intros _ m' (Hown' & Hf' & Hd'). split_and!; [done| |].
    + eapply queue_frame_trans; [|done..]. intros x y Hx _ Hin. apply Hx, elem_of_addrs_cons. auto.
    + rewrite Hd', Hd1. set_solver.
Qed.

Lemma queue_flush_spec m q l :
  queue_own m q l ->
  wp (queue_flush q) (fun _ m' =>
    queue_own m' q [] /\ queue_frame q l m m' /\
    dom (qnodes m') = dom (qnodes m) ∖ list_to_set (addrs l)) m.
Proof.
  intros Hown. unfold queue_flush. queue_prologue Hown.
  apply wp_bind. eapply wp_load_queue; [done|]. intros lk0 _ _. simpl.
  apply wp_bind. eapply wp_node_fuel; [done|]. intros fuel Hf.
  apply wp_bind. eapply wp_mono; [by apply queue_flush_loop_spec|].
  intros _ m1 ((lk & Hh & H0 & Hq & Hs & Hok) & Hfr & Hd). simpl in Hq.
  apply wp_bind. eapply wp_modify; [done|]. eapply wp_modify; [ksimpl; by simplify_map_eq|].
  ksimpl. rewrite !insert_insert_eq. unfold set_tail, set_head; simpl. rewrite insert_id by done.
  rewrite h_set_get. split_and!; try done. by exists lk.
Qed.

(** ** Replacing data *)
Lemma queue_replace_loop_spec m q l1 l2 data0 data1 fuel :
  queue_own m q (l1 ++ l2) -> (length l2 < fuel)%nat ->
  wp (queue_replace_loop fuel (hd_addr l2 0) data0 data1) (fun r m' =>
    (r = - ENOENT /\ m' = m /\ data0 ∉ l2.*2) \/
    exists l p l', r = 0 /\ first_data data0 l2 l p l' /\
      queue_own m' q (l1 ++ l ++ (p, data1) :: l') /\ queue_frame q (l1 ++ l2) m m') m.
Proof.
  revert l1 fuel. induction l2 as [|[p d] l2 IH]; intros l1 [|fuel] Hown Hf; simpl in Hf; try lia; simpl.
  { apply wp_ret. left. split_and!; [done..|]. apply not_elem_of_nil. }
  rewrite (queue_own_node_null _ _ _ _ _ _ Hown). apply wp_bind.
  eapply wp_load_node; [done|]. simpl. destruct (Z.eqb_spec d data0) as [->|Hd].
  - destruct Hown as (lk & Hh & H0 & Hq & Hs & Hok).
    destruct (seg_mid _ _ _ _ _ Hs) as (Hs1 & Hp & Hs2).
    destruct (dll_ok_mid _ _ _ _ Hok) as (Hok' & Hpn & Ha & Hok1 & Hok2 & Hdj).
    rewrite elem_of_addrs_app in Hpn.
    apply wp_bind. eapply wp_modify; [done|]. apply wp_ret. right. exists [], p, l2.
    split_and!; [done|split; [done|apply not_elem_of_nil]|..].
    + exists lk. split; [by ksimpl|]. split_and!; ksimpl; try done.
      * rewrite Hq, !hd_addr_app, !last_addr_app, !length_app. done.
      * simpl. apply seg_app. simpl. split_and!; [|by simplify_map_eq|];
          (eapply seg_ext; [|eassumption]; intros x Hx; apply lookup_insert_ne; naive_solver).
      * apply (dll_ok_perm ((p, data1) :: l1 ++ l2)); [apply Permutation_middle|].
        apply dll_ok_cons. rewrite elem_of_addrs_app. done.
    + split; ksimpl; [done..|]. intros x y Hx Hy. rewrite lookup_insert_ne; [done|].
      rewrite elem_of_addrs_app, elem_of_addrs_cons in Hx. naive_solver.
  - eapply wp_mono; [apply (IH (l1 ++ [(p, d)])); [by rewrite <- app_assoc|lia]|].
    intros r m' [(-> & -> & Hn)|(l & p' & l' & -> & [-> Hn] & Hown' & Hf')].
    + left. split_and!; [done..|]. simpl. apply not_elem_of_cons. auto.
    + right. exists ((p, d) :: l), p', l'. rewrite <- !app_assoc in *. split_and!; try done.
      split; [done|]. simpl. apply not_elem_of_cons. auto.
Qed.

Lemma queue_replace_spec m q l data0 data1 :
  queue_own m q l ->
  wp (queue_replace q data0 data1) (fun r m' =>
    (r = - EINVAL /\ m' = m /\ data0 = data1) \/
    (r = - ENOENT /\ m' = m /\ data0 <> data1 /\ data0 ∉ l.*2) \/
    exists l1 p l2, r = 0 /\ data0 <> data1 /\ first_data data0 l l1 p l2 /\
      queue_own m' q (l1 ++ (p, data1) :: l2) /\ queue_frame q l m m') m.
Proof.
  intros Hown. unfold queue_replace. rewrite (queue_own_not_null _ _ _ Hown). simpl.
  destruct (Z.eqb_spec data0 data1) as [|Hne]; [apply wp_ret; auto|].
  queue_prologue Hown. apply wp_bind. eapply wp_load_queue; [done|]. intros lk _ _. simpl.
  apply wp_bind. eapply wp_node_fuel; [done|]. intros fuel Hf.
  eapply wp_mono; [by apply (queue_replace_loop_spec m q [] l)|]. simpl.
  intros r m' [(-> & -> & Hn)|(l1 & p & l2 & -> & Hfd & Hown' & Hf')]; right.
  - left. auto.
  - right. exists l1, p, l2. auto.
Qed.

(** ** Relocating a node to either end *)

(** The list after its node [x], between [l1] and [l2], went to [whence]. *)
Definition relocated (whence : Z) (l1 : list (Z * Z)) (x : Z * Z) (l2 : list (Z * Z)) :=
  if whence =? QUEUE_HEAD then x :: l1 ++ l2 else (l1 ++ l2) ++ [x].

Lemma relocated_perm whence l1 x l2 : Permutation (l1 ++ x :: l2) (relocated whence l1 x l2).
Proof.
  unfold relocated. destruct (whence =? QUEUE_HEAD).
  - symmetry. apply Permutation_middle.
  - rewrite <- Permutation_middle. apply Permutation_cons_append.
Qed.

(** Taking [p] out of the chain, [next] first, and clearing its own links. *)
Lemma wp_detach {A} m q n lk l1 p d l2 (k : K A) Q :
  queue_ends m q n lk (l1 ++ (p, d) :: l2) ->
  (forall h', queue_ends (h_set (<[q := mkQueue (hd_addr (l1 ++ l2) 0) (last_addr (l1 ++ l2) 0) n lk]>
                 (queues m)) (h_set h' m)) q n lk (l1 ++ l2) ->
     h' !! p = Some (mkQnode 0 d 0) ->
     (forall x, x ∉ addrs (l1 ++ (p, d) :: l2) -> h' !! x = qnodes m !! x) -> dom h' = dom (qnodes m) ->
     wp k Q (h_set (<[q := mkQueue (hd_addr (l1 ++ l2) 0) (last_addr (l1 ++ l2) 0) n lk]>
                 (queues m)) (h_set h' m))) ->
  wp (do! M_when (negb (is_null (hd_addr l2 0))) (modify (hd_addr l2 0) (set_prev (last_addr l1 0))) in
      do! M_when (negb (is_null (last_addr l1 0))) (modify (last_addr l1 0) (set_next (hd_addr l2 0))) in
      let! q0 := load q in
      do! M_when (p =? head q0) (modify q (set_head (hd_addr l2 0))) in
      let! q0 := load q in
      do! M_when (p =? tail q0) (modify q (set_tail (last_addr l1 0))) in
      do! modify p (set_prev 0) in
      do! modify p (set_next 0) in k) Q m.
Proof.
  intros (Hq & Hs & Hok) HQ. destruct (seg_mid _ _ _ _ _ Hs) as (Hs1 & Hp & Hs2).
  destruct (dll_ok_mid _ _ _ _ Hok) as (Hok' & Hpn & _ & Hok1 & Hok2 & Hd).
  rewrite elem_of_addrs_app in Hpn.
  apply wp_bind. eapply (wp_link_prev l2 p 0); [done..|]. intros h1 Hs2' [Hr1 Hd1].
  apply wp_bind. eapply (wp_link_next l1 0 p); [|done|].
  { ksimpl. eapply seg_ext; [|exact Hs1]. intros x Hx. apply Hr1. by apply Hd. }
  intros h2 Hs1' [Hr2 Hd2]. rewrite h_get_set in Hr2, Hd2. ksimpl.
  eapply wp_fix_ends; [done|ksimpl; exact Hq|]. ksimpl.
  assert (h2 !! p = qnodes m !! p) as Hp2 by (rewrite Hr2, Hr1; naive_solver).
  apply wp_bind. eapply wp_modify; [ksimpl; by rewrite Hp2|].
  apply wp_bind. eapply wp_modify; [ksimpl; by simplify_map_eq|]. ksimpl. rewrite insert_insert_eq.
  unfold set_next, set_prev; simpl.
  rewrite (h_set_comm (T1:=queue_node_t)). ksimpl. apply HQ.
  - split_and!; ksimpl; [by simplify_map_eq| |done].
    apply (seg_ext h2).
    { intros x Hx%elem_of_addrs_app. apply lookup_insert_ne. intros ->. naive_solver. }
    apply seg_app. split; [done|]. eapply seg_ext; [|exact Hs2'].
    intros x Hx. apply Hr2. intros Hx1. by apply (Hd x).
  - by simplify_map_eq.
  - intros x Hx. rewrite elem_of_addrs_app, elem_of_addrs_cons in Hx.
    rewrite lookup_insert_ne by naive_solver. rewrite Hr2, Hr1; naive_solver.
  - rewrite dom_insert_lookup_L; [by rewrite Hd2|]. rewrite Hp2. eauto.
Qed.

Lemma wp_link_whence m q n lk l p d whence :
  queue_ends m q n lk l -> detached m p d l ->
  wp (if whence =? QUEUE_HEAD then queue_link_head q p else queue_link_tail q p) (fun _ =>
    linked m q n lk l (if whence =? QUEUE_HEAD then (p, d) :: l else l ++ [(p, d)]) p) m.
Proof.
  intros. destruct (whence =? QUEUE_HEAD); [by apply wp_queue_link_head|by apply wp_queue_link_tail].
Qed.

Lemma queue_rellocate_node_spec m q l1 p d l2 whence :
  queue_own m q (l1 ++ (p, d) :: l2) ->
  wp (queue_rellocate_node q p whence) (fun r m' =>
    if bad_whence whence then r = - EINVAL /\ m' = m else
    r = 0 /\ queue_own m' q (relocated whence l1 (p, d) l2) /\
    queue_frame q (l1 ++ (p, d) :: l2) m m' /\ dom (qnodes m') = dom (qnodes m)) m.
Proof.
  intros Hown. unfold queue_rellocate_node.
  rewrite (queue_own_not_null _ _ _ Hown), (queue_own_node_null _ _ _ _ _ _ Hown). simpl.
  apply wp_bind; eapply wp_queue_assert_locked; [exact Hown|].
  destruct (bad_whence whence); [by apply wp_ret|]. apply wp_bind. eapply wp_load_node; [done|]. simpl.
  destruct Hown as (lk & Hh & H0 & Hq & Hs & Hok).
  destruct (dll_ok_mid _ _ _ _ Hok) as (_ & Hpn & Ha & _).
  eapply wp_detach; [by split_and!|]. intros h' Hends Hp Hext Hdom.
  apply wp_bind. eapply wp_mono; [eapply wp_link_whence; [done|]|].
  { split_and!; [ksimpl; exact Hp|done..]. }
  intros _ m' (h2 & -> & Hs' & Hok' & Hext' & Hdom'). apply wp_ret. ksimpl. rewrite insert_insert_eq.
  rewrite h_get_set_ne, h_get_set in Hext', Hdom'.
  assert (length (l1 ++ (p, d) :: l2) = length (relocated whence l1 (p, d) l2)) as Hlen
    by apply Permutation_length, relocated_perm.
  split_and!; [done| | |by ksimpl; rewrite Hdom'].
  - exists lk. split; [by ksimpl|]. rewrite Hlen. split_and!; ksimpl; first [done | by simplify_map_eq].
  - split; [done|..]; ksimpl.
    + intros q' Hne. by rewrite lookup_insert_ne.
    + intros x y Hx Hy. pose proof Hx as Hx2. rewrite elem_of_addrs_app, elem_of_addrs_cons in Hx2.
      rewrite Hext'; [by rewrite Hext| |naive_solver]. rewrite elem_of_addrs_app. naive_solver.
Qed.

Lemma queue_rellocate_spec m q l data whence :
  queue_own m q l ->
  wp (queue_rellocate q data whence) (fun r m' =>
    (r = - ENOENT /\ m' = m /\ data ∉ l.*2) \/
    (r = - EINVAL /\ m' = m /\ data ∈ l.*2 /\ bad_whence whence = true) \/
    exists l1 p l2, r = 0 /\ bad_whence whence = false /\ first_data data l l1 p l2 /\
      queue_own m' q (relocated whence l1 (p, data) l2) /\ queue_frame q l m m' /\
      dom (qnodes m') = dom (qnodes m)) m.
Proof.
  intros Hown. unfold queue_rellocate. rewrite (queue_own_not_null _ _ _ Hown).
  queue_prologue Hown. apply wp_bind.
  destruct (queue_contains_spec m q l data Hown) as (r & Hr & Hspec). unfold wp at 1. rewrite Hr.
  destruct Hspec as [[-> Hn]|(l1 & p & l2 & -> & Hfd)]; [apply wp_ret; left; auto|].
  destruct Hfd as [-> Hn]. eapply wp_mono; [by apply queue_rellocate_node_spec|].
  intros r' m'. destruct (bad_whence whence) eqn:Hb; [intros [-> ->]|intros (-> & ? & ? & ?)]; right.
  - left. split_and!; try done. rewrite fmap_app. simpl. set_solver.
  - right. exists l1, p, l2. split_and!; try done.
Qed.

(** ** Creating and destroying queues *)
Lemma wp_queue_unlock m q l :
  queue_own m q l ->
  wp (queue_unlock q) (fun _ m' => exists lk,
    m' = h_set (<[q := mkQueue (hd_addr l 0) (last_addr l 0) (Z.of_nat (length l)) lk]> (queues m)) m) m.
Proof.
  intros (lk & Hh & H0 & Hq & _). eapply wp_obj_unlock; [by split_and!|]. intros lk' _. by exists lk'.
Qed.

(** The prologue of [queue_free] when the caller already holds the lock. *)
Lemma wp_queue_recursive_lock m q l (Q : bool -> kmem -> Prop) :
  queue_own m q l -> Q false m -> wp (queue_recursive_lock q) Q m.
Proof.
  intros (lk & Hh & H0 & Hq & _) HQ. unfold queue_recursive_lock, obj_recursive_lock, obj_islocked.
  apply wp_bind, wp_bind, wp_assert; [by apply negb_true_iff, Z.eqb_neq|].
  apply wp_bind, wp_get, wp_bind. eapply wp_load; [exact Hq|]. apply wp_ret. simpl. rewrite Hh. by apply wp_ret.
Qed.

Lemma queue_free_spec m q l :
  queue_own m q l ->
  wp (queue_free q) (fun _ m' =>
    queue_frame q l m m' /\ queues m' = delete q (queues m) /\
    dom (qnodes m') = dom (qnodes m) ∖ list_to_set (addrs l)) m.
Proof.
  intros Hown. unfold queue_free. apply wp_bind. eapply wp_queue_recursive_lock; [exact Hown|].
  apply wp_bind. eapply wp_mono; [by apply queue_flush_spec|]. intros _ m1 (Hown1 & Hf & Hd).
  apply wp_bind. eapply wp_mono; [by apply wp_queue_unlock|]. intros _ m2 [lk ->].
  pose proof Hown1 as (lk1 & _ & H0 & _).
  eapply wp_kfree; [ksimpl; by simplify_map_eq|done|]. ksimpl. rewrite delete_insert_eq.
  assert (delete q (queues m1) = delete q (queues m)) as Heq.
  { apply map_eq. intros q'. destruct (decide (q' = q)) as [->|]; [by rewrite !lookup_delete_eq|].
    rewrite !lookup_delete_ne by done. by apply (qf_queues _ _ _ _ Hf). }
  split_and!; [|by ksimpl..]. destruct Hf as [He Hq Hn]. split; ksimpl; [done| |done].
  intros q' Hne. rewrite lookup_delete_ne by done. auto.
Qed.

Lemma queue_alloc_spec {KA : KAlloc} m :
  wp (queue_alloc true) (fun r m' =>
    (r = (- ENOMEM, None) /\ m' = set_tick (S (k_tick m)) m) \/
    exists q, r = (0, Some q) /\ q ∉ k_live m /\ queue_rep m' q SPINLOCK_INIT [] /\
      m' = h_set (<[q := QUEUE_INIT]> (queues m)) (set_tick (S (k_tick m)) m)) m.
Proof.
  unfold queue_alloc. simpl. apply wp_bind, wp_kalloc; [intros _; apply wp_ret; auto|]. intros q _ Hq Hr _.
  assert (is_null q = false) as Hn by (apply Z.eqb_neq; lia). rewrite Hn.
  apply wp_bind. unfold queue_init. rewrite Hn.
  do 4 (apply wp_bind; eapply wp_modify; [ksimpl; apply lookup_insert_eq|]; ksimpl; rewrite ?insert_insert_eq).
  apply wp_ret, wp_ret. right. exists q. split_and!; try done.
  split_and!; [lia|ksimpl; by simplify_map_eq|done|apply dll_ok_nil].
Qed.
