(* ===== verification/QueueMove.v ===== *)
(** * Moving nodes between queues

    [queue_node_migrate] and [queue_move] of ds/queue/queue.c relink a run of
    nodes of one queue onto an end of another, without allocating. *)
From S2P Require Import Prelude Errno Spinlock KMem Queue Dll QueueFacts.

Implicit Types (l ls ld : list (Z * Z)) (d : Z).

(** ** Walks *)
Lemma queue_advance_spec m pv l1 l2 :
  seg (qnodes m) pv (l1 ++ l2) 0 -> dll_ok (l1 ++ l2) ->
  queue_advance (length l1) (hd_addr (l1 ++ l2) 0) m = Done (hd_addr l2 0) m.
Proof.
  revert pv. induction l1 as [|[p d] l1 IH]; intros pv Hs Hok; [done|]. simpl in *.
  destruct Hs as [Hp Hs]. apply dll_ok_cons in Hok as ([? _] & _ & Hok). simpl in *.
  unfold is_null. rewrite (proj2 (Z.eqb_neq p 0)) by lia. unfold M_bind, load. rewrite Hp. simpl.
  by eapply IH.
Qed.

Lemma queue_follow_spec m pv p d l nx :
  seg (qnodes m) pv ((p, d) :: l) nx -> queue_follow (length l) p m = Done (last_addr l p) m.
Proof.
  revert pv p d. induction l as [|[p' d'] l IH]; intros pv p d Hs; [done|].
  destruct Hs as [Hp Hs]. change (length ((p', d') :: l)) with (S (length l)). simpl queue_follow.
  unfold M_bind, load. rewrite Hp. simpl n_next. by eapply IH.
Qed.

Lemma queue_walk_spec m pv l fuel :
  seg (qnodes m) pv l 0 -> dll_ok l -> (length l < fuel)%nat ->
  queue_walk fuel (hd_addr l 0) m = Done tt m.
Proof.
  revert pv fuel. induction l as [|[p d] l IH]; intros pv [|fuel] Hs Hok Hf; simpl in *; try lia; [done|].
  destruct Hs as [Hp Hs]. apply dll_ok_cons in Hok as ([? _] & _ & Hok). simpl in *.
  unfold is_null. rewrite (proj2 (Z.eqb_neq p 0)) by lia. unfold M_bind, load. rewrite Hp.
  eapply IH; [done..|lia].
Qed.

(** ** Relinking either a neighbour or the queue's own end *)
Lemma wp_link_next_or m l pv nx x y q t n lk (Q : unit -> kmem -> Prop) :
  seg (qnodes m) pv l nx -> dll_ok l ->
  queues m !! q = Some (mkQueue (hd_addr l y) t n lk) ->
  (forall h', seg h' pv l x -> relinked l (qnodes m) h' ->
     Q tt (h_set (<[q := mkQueue (hd_addr l x) t n lk]> (queues m)) (h_set h' m))) ->
  wp (if negb (is_null (last_addr l 0)) then modify (last_addr l 0) (set_next x)
      else modify q (set_head x)) Q m.
Proof.
  intros Hs Hok Hq HQ. pose proof (dll_ok_last_null _ Hok) as Hn.
  destruct (is_null (last_addr l 0)) eqn:E; simpl.
  - destruct Hn as [Hn _]. rewrite Hn in * by done. simpl in *.
    eapply wp_modify; [done|]. specialize (HQ (qnodes m) I (relinked_refl _ _)).
    by rewrite h_set_get in HQ.
  - pose proof (wp_link_next l pv nx x Q m Hs Hok) as Hw. rewrite E in Hw. simpl in Hw.
    apply Hw. intros h' Hs' Hr. destruct l as [|z l]; [done|]. simpl in *.
    specialize (HQ h' Hs' Hr). by rewrite insert_id, (h_set_comm (T1:=queue_t)), h_set_get in HQ.
Qed.

Lemma wp_link_prev_or m l pv nx x y q hd n lk (Q : unit -> kmem -> Prop) :
  seg (qnodes m) pv l nx -> dll_ok l ->
  queues m !! q = Some (mkQueue hd (last_addr l y) n lk) ->
  (forall h', seg h' x l nx -> relinked l (qnodes m) h' ->
     Q tt (h_set (<[q := mkQueue hd (last_addr l x) n lk]> (queues m)) (h_set h' m))) ->
  wp (if negb (is_null (hd_addr l 0)) then modify (hd_addr l 0) (set_prev x)
      else modify q (set_tail x)) Q m.
Proof.
  intros Hs Hok Hq HQ. pose proof (dll_ok_hd_null _ Hok) as Hn.
  destruct (is_null (hd_addr l 0)) eqn:E; simpl.
  - destruct Hn as [Hn _]. rewrite Hn in * by done. simpl in *.
    eapply wp_modify; [done|]. specialize (HQ (qnodes m) I (relinked_refl _ _)).
    by rewrite h_set_get in HQ.
  - pose proof (wp_link_prev l pv nx x Q m Hs Hok) as Hw. rewrite E in Hw. simpl in Hw.
    apply Hw. intros h' Hs' Hr. destruct l as [|z l]; [done|]. simpl in *.
    specialize (HQ h' Hs' Hr). by rewrite insert_id, (h_set_comm (T1:=queue_t)), h_set_get in HQ.
Qed.

(** The ends of a non-empty run, written without a test. *)
Lemma wp_set_first m l pv nx x (Q : unit -> kmem -> Prop) :
  seg (qnodes m) pv l nx -> dll_ok l -> l <> [] ->
  (forall h', seg h' x l nx -> relinked l (qnodes m) h' -> Q tt (h_set h' m)) ->
  wp (modify (hd_addr l 0) (set_prev x)) Q m.
Proof.
  intros Hs Hok Hl HQ. pose proof (wp_link_prev l pv nx x Q m Hs Hok HQ) as Hw.
  destruct (is_null (hd_addr l 0)) eqn:E; [|done]. by apply dll_ok_hd_null in E.
Qed.

Lemma wp_set_last m l pv nx x (Q : unit -> kmem -> Prop) :
  seg (qnodes m) pv l nx -> dll_ok l -> l <> [] ->
  (forall h', seg h' pv l x -> relinked l (qnodes m) h' -> Q tt (h_set h' m)) ->
  wp (modify (last_addr l 0) (set_next x)) Q m.
Proof.
  intros Hs Hok Hl HQ. pose proof (wp_link_next l pv nx x Q m Hs Hok HQ) as Hw.
  destruct (is_null (last_addr l 0)) eqn:E; [|done]. by apply dll_ok_last_null in E.
Qed.

(** Membership in the addresses of concatenated runs. *)
Ltac in_addrs := intros; rewrite ?elem_of_addrs_app in *; naive_solver.

(** Queue objects outermost, each heap written once. *)
Ltac qnorm :=
  ksimpl; repeat (rewrite (h_set_comm (T1:=queue_node_t) (T2:=queue_t)); ksimpl).

(** A segment outside the relinked nodes stays. *)
Lemma seg_relinked h h' l pv l' nx :
  relinked l h h' -> (forall p, p ∈ addrs l' -> p ∉ addrs l) -> seg h pv l' nx -> seg h' pv l' nx.
Proof. intros [Hr _] Hd. apply seg_ext. intros p Hp. by apply Hr, Hd. Qed.

(** [h'] has the same nodes as [h], and differs from it at most on [ps]. *)
Definition only_at (ps : list Z) (h h' : gmap Z queue_node_t) : Prop :=
  (forall p, p ∉ ps -> h' !! p = h !! p) /\ dom h' = dom h.

Lemma only_at_refl ps h : only_at ps h h.
Proof. done. Qed.
Lemma only_at_relinked ps l h h1 h2 :
  relinked l h1 h2 -> (forall p, p ∈ addrs l -> p ∈ ps) -> only_at ps h h1 -> only_at ps h h2.
Proof.
  intros [Hr Hd'] Hl [Ha Hd]. split; [|by rewrite Hd'].
  intros p Hp. rewrite Hr, Ha; [done..|]. intros ?. apply Hp. auto.
Qed.

(** ** Cutting a run out of the source queue *)
Lemma seg_first_node h pv b nx :
  seg h pv b nx -> b <> [] -> exists d x, h !! hd_addr b 0 = Some (mkQnode pv d x).
Proof. intros Hx Hb. destruct b as [|[p d] b]; [done|]. destruct Hx as [? _]. simpl. eauto. Qed.

Lemma seg_last_node h pv b nx :
  seg h pv b nx -> b <> [] -> exists x d, h !! last_addr b 0 = Some (mkQnode x d nx).
Proof.
  intros Hx Hb. destruct b as [|[p d] b' _] using rev_ind; [done|]. rewrite last_addr_snoc.
  apply seg_app in Hx as (_ & ? & _). simpl in *. eauto.
Qed.

Lemma wp_cut {A} m q n num lk a b c (k : K A) Q :
  queue_ends m q n lk (a ++ b ++ c) -> b <> [] ->
  (forall h', seg h' 0 (a ++ c) 0 -> seg h' 0 b 0 -> only_at (addrs (a ++ b ++ c)) (qnodes m) h' ->
     wp k Q (h_set (<[q := mkQueue (hd_addr (a ++ c) 0) (last_addr (a ++ c) 0) (u64 (n + - num)) lk]>
       (queues m)) (h_set h' m))) ->
  wp (let! f := load (hd_addr b 0) in
      let! l := load (last_addr b 0) in
      do! (if negb (is_null (n_prev f)) then modify (n_prev f) (set_next (n_next l))
           else modify q (set_head (n_next l))) in
      let! l := load (last_addr b 0) in
      let! f := load (hd_addr b 0) in
      do! (if negb (is_null (n_next l)) then modify (n_next l) (set_prev (n_prev f))
           else modify q (set_tail (n_prev f))) in
      do! modify q (add_count (- num)) in
      do! modify (hd_addr b 0) (set_prev 0) in
      do! modify (last_addr b 0) (set_next 0) in k) Q m.
Proof.
  intros (Hq & Hs & Hok) Hb HQ.
  apply seg_app in Hs as [Hsa Hs]. apply seg_app in Hs as [Hsb Hsc].
  pose proof Hok as Hok0.
  apply dll_ok_app in Hok0 as (Hoka & Hok0 & Hda). apply dll_ok_app in Hok0 as (Hokb & Hokc & Hdb).
  setoid_rewrite elem_of_addrs_app in Hda.
  destruct (seg_first_node _ _ _ _ Hsb Hb) as (df & nf & Hf). destruct (seg_last_node _ _ _ _ Hsb Hb) as (pl & dl & Hl).
  apply wp_bind. eapply wp_load; [exact Hf|]. apply wp_bind. eapply wp_load; [exact Hl|]. simpl.
  rewrite hd_addr_app in Hq. rewrite (last_addr_app a), (last_addr_app b) in Hq.
  apply wp_bind. eapply (wp_link_next_or _ a 0 _ (hd_addr c 0) _ q); [exact Hsa|done|exact Hq|].
  intros h1 Hsa1 Hr1.
  assert (seg h1 (last_addr a 0) b (hd_addr c 0)) as Hsb1.
  { eapply seg_relinked; [exact Hr1| |exact Hsb]. intros p Hp Hp'. naive_solver. }
  destruct (seg_first_node _ _ _ _ Hsb1 Hb) as (df1 & nf1 & Hf1). destruct (seg_last_node _ _ _ _ Hsb1 Hb) as (pl1 & dl1 & Hl1).
  apply wp_bind. eapply wp_load; [ksimpl; exact Hl1|]. apply wp_bind. eapply wp_load; [ksimpl; exact Hf1|]. simpl.
  apply wp_bind. eapply (wp_link_prev_or _ c _ 0 (last_addr a 0) _ q); [|done|ksimpl; by simplify_map_eq|].
  { ksimpl. eapply seg_relinked; [exact Hr1| |exact Hsc]. intros p Hp Hp'. naive_solver. }
  rewrite h_get_set_ne, h_get_set. intros h2 Hsc2 Hr2. ksimpl. rewrite insert_insert_eq.
  assert (seg h2 (last_addr a 0) b (hd_addr c 0)) as Hsb2.
  { eapply seg_relinked; [exact Hr2| |exact Hsb1]. intros p Hp Hp'. naive_solver. }
  apply wp_bind. eapply wp_modify; [ksimpl; by simplify_map_eq|]. ksimpl. rewrite insert_insert_eq.
  unfold add_count; simpl.
  apply wp_bind. eapply wp_set_first; [ksimpl; exact Hsb2|done..|]. ksimpl. intros h3 Hsb3 Hr3.
  apply wp_bind. eapply wp_set_last; [ksimpl; exact Hsb3|done..|]. ksimpl. intros h4 Hsb4 Hr4.
  rewrite hd_addr_app, last_addr_app in HQ.
  qnorm.
  apply HQ; [|done|].
  - apply seg_app. split.
    + eapply seg_relinked; [exact Hr4|naive_solver|]. eapply seg_relinked; [exact Hr3|naive_solver|].
      eapply seg_relinked; [exact Hr2|naive_solver|exact Hsa1].
    + eapply seg_relinked; [exact Hr4|naive_solver|]. eapply seg_relinked; [exact Hr3|naive_solver|exact Hsc2].
  - eapply only_at_relinked; [exact Hr4|in_addrs|]. eapply only_at_relinked; [exact Hr3|in_addrs|].
    eapply only_at_relinked; [exact Hr2|in_addrs|]. eapply only_at_relinked; [exact Hr1|in_addrs|].
    apply only_at_refl.
Qed.

(** ** Splicing a run onto the destination queue *)
Definition spliced (whence : Z) (b l : list (Z * Z)) : list (Z * Z) :=
  if whence =? QUEUE_HEAD then b ++ l else l ++ b.

Lemma wp_splice {A} m q n num lk b l whence (k : K A) Q :
  queue_ends m q n lk l -> seg (qnodes m) 0 b 0 -> dll_ok (b ++ l) -> b <> [] ->
  (forall h', seg h' 0 (spliced whence b l) 0 -> only_at (addrs (b ++ l)) (qnodes m) h' ->
     wp k Q (h_set (<[q := mkQueue (hd_addr (spliced whence b l) 0) (last_addr (spliced whence b l) 0)
        (u64 (n + num)) lk]> (queues m)) (h_set h' m))) ->
  wp (let! dq := load q in
      do! (if whence =? QUEUE_HEAD then
             do! modify (last_addr b 0) (set_next (head dq)) in
             do! M_when (negb (is_null (head dq))) (modify (head dq) (set_prev (last_addr b 0))) in
             do! modify q (set_head (hd_addr b 0)) in
             M_when (is_null (tail dq)) (modify q (set_tail (last_addr b 0)))
           else
             do! modify (hd_addr b 0) (set_prev (tail dq)) in
             do! M_when (negb (is_null (tail dq))) (modify (tail dq) (set_next (hd_addr b 0))) in
             do! modify q (set_tail (last_addr b 0)) in
             M_when (is_null (head dq)) (modify q (set_head (hd_addr b 0)))) in
      do! modify q (add_count num) in k) Q m.
Proof.
  intros (Hq & Hs & Hokl) Hsb Hok Hb HQ. apply dll_ok_app in Hok as (Hokb & _ & Hd).
  apply wp_bind. eapply wp_load; [exact Hq|]. simpl. unfold spliced in HQ.
  destruct (whence =? QUEUE_HEAD); apply wp_bind, wp_bind.
  - eapply wp_set_last; [exact Hsb|done..|]. intros h1 Hsb1 Hr1.
    apply wp_bind. eapply (wp_link_prev l 0 0); [|done|].
    { ksimpl. eapply seg_relinked; [exact Hr1|in_addrs|done]. }
    ksimpl. intros h2 Hs2 Hr2. apply wp_bind. eapply wp_modify; [ksimpl; exact Hq|]. qnorm.
    eapply (wp_mono _ (fun _ s => s = h_set (<[q := mkQueue (hd_addr (b ++ l) 0)
      (last_addr (b ++ l) 0) n lk]> (queues m)) (h_set h2 m))).
    { rewrite hd_addr_app, last_addr_app. destruct b as [|x b]; [done|]. simpl.
      pose proof (dll_ok_last_null _ Hokl) as Hn. destruct (is_null (last_addr l 0)); simpl.
      - rewrite (proj1 Hn) by done. eapply wp_modify; [ksimpl; by simplify_map_eq|]. qnorm.
        by rewrite insert_insert_eq.
      - destruct l as [|y l]; [by destruct Hn as [_ Hn]; discriminate Hn|]. done. }
    intros _ ? ->. apply wp_bind. eapply wp_modify; [ksimpl; by simplify_map_eq|]. qnorm.
    rewrite insert_insert_eq. apply HQ.
    + apply seg_app. split; [|done]. eapply seg_relinked; [exact Hr2|in_addrs|done].
    + do 2 (eapply only_at_relinked; [eassumption|in_addrs|]). apply only_at_refl.
  - eapply wp_set_first; [exact Hsb|done..|]. intros h1 Hsb1 Hr1.
    apply wp_bind. eapply (wp_link_next l 0 0); [|done|].
    { ksimpl. eapply seg_relinked; [exact Hr1|in_addrs|done]. }
    ksimpl. intros h2 Hs2 Hr2. apply wp_bind. eapply wp_modify; [ksimpl; exact Hq|]. qnorm.
    eapply (wp_mono _ (fun _ s => s = h_set (<[q := mkQueue (hd_addr (l ++ b) 0)
      (last_addr (l ++ b) 0) n lk]> (queues m)) (h_set h2 m))).
    { rewrite hd_addr_app, last_addr_app. destruct b as [|x b]; [done|]. simpl.
      pose proof (dll_ok_hd_null _ Hokl) as Hn. destruct (is_null (hd_addr l 0)); simpl.
      - rewrite (proj1 Hn) by done. eapply wp_modify; [ksimpl; by simplify_map_eq|]. qnorm.
        by rewrite insert_insert_eq.
      - destruct l as [|y l]; [by destruct Hn as [_ Hn]; discriminate Hn|]. done. }
    intros _ ? ->. apply wp_bind. eapply wp_modify; [ksimpl; by simplify_map_eq|]. qnorm.
    rewrite insert_insert_eq. apply HQ.
    + apply seg_app. split.
      * destruct b; [done|]. done.
      * eapply seg_relinked; [exact Hr2|in_addrs|done].
    + do 2 (eapply only_at_relinked; [eassumption|in_addrs|]). apply only_at_refl.
Qed.

(** ** The two operations *)

(** What moving nodes between [src] and [dst] leaves alone. *)
Record move_frame (src dst : Z) (ps : list Z) (m m' : kmem) : Prop := {
  mf_erase : q_erase m' = q_erase m;
  mf_queues : forall q, q <> src -> q <> dst -> queues m' !! q = queues m !! q;
  mf_nodes : only_at ps (qnodes m) (qnodes m')
}.

(** The guard of [queue_node_migrate], on a source of [len] nodes. *)
Definition migrate_ok (len start num whence : Z) : bool :=
  negb ((len <=? start) || (num =? 0) || (len <? start + num)) && negb (bad_whence whence).

(** Attaching the cut run to the destination, and what the move amounts to. *)
Lemma wp_attach m src dst lks lkd a b c ld h1 whence :
  holding (k_who m) lks = true -> holding (k_who m) lkd = true -> src <> 0 -> dst <> 0 -> src <> dst ->
  queues m !! dst = Some (mkQueue (hd_addr ld 0) (last_addr ld 0) (Z.of_nat (length ld)) lkd) ->
  seg (qnodes m) 0 ld 0 -> dll_ok ((a ++ b ++ c) ++ ld) -> b <> [] ->
  seg h1 0 (a ++ c) 0 -> seg h1 0 b 0 -> only_at (addrs (a ++ b ++ c)) (qnodes m) h1 ->
  wp (let! dq := load dst in
      do! (if whence =? QUEUE_HEAD then
             do! modify (last_addr b 0) (set_next (head dq)) in
             do! M_when (negb (is_null (head dq))) (modify (head dq) (set_prev (last_addr b 0))) in
             do! modify dst (set_head (hd_addr b 0)) in
             M_when (is_null (tail dq)) (modify dst (set_tail (last_addr b 0)))
           else
             do! modify (hd_addr b 0) (set_prev (tail dq)) in
             do! M_when (negb (is_null (tail dq))) (modify (tail dq) (set_next (hd_addr b 0))) in
             do! modify dst (set_tail (last_addr b 0)) in
             M_when (is_null (head dq)) (modify dst (set_head (hd_addr b 0)))) in
      do! modify dst (add_count (Z.of_nat (length b))) in
      ret! 0) (fun r m' =>
    r = 0 /\ queue_own m' src (a ++ c) /\ queue_own m' dst (spliced whence b ld) /\
    move_frame src dst (addrs ((a ++ b ++ c) ++ ld)) m m')
    (h_set (<[src := mkQueue (hd_addr (a ++ c) 0) (last_addr (a ++ c) 0)
       (u64 (Z.of_nat (length (a ++ b ++ c)) + - Z.of_nat (length b))) lks]> (queues m)) (h_set h1 m)).
Proof.
  intros Hhs Hhd Hs0 Hd0 Hne Hqd Hsd Hok Hb Hac Hb1 Ho1.
  pose proof Hok as Hok0. apply dll_ok_app in Hok0 as (Hoks & Hokd & Hdis).
  pose proof Hoks as Hok0. apply dll_ok_app in Hok0 as (Hoka & Hok0 & Hda).
  pose proof Hok0 as Hok1. apply dll_ok_app in Hok1 as (Hokb & Hokc & Hdb).
  eapply (wp_splice _ dst _ _ lkd b ld).
  - split_and!; ksimpl; [rewrite lookup_insert_ne by done; exact Hqd| |done].
    eapply seg_ext; [|exact Hsd]. intros p Hp. apply Ho1. intros Hp'. by apply (Hdis p).
  - by ksimpl.
  - apply dll_ok_app. split_and!; [done..|]. intros p Hp. apply Hdis. rewrite !elem_of_addrs_app. auto.
  - done.
  - ksimpl. intros h2 Hbl Ho2. apply wp_ret. split; [done|]. qnorm.
    assert (only_at (addrs ((a ++ b ++ c) ++ ld)) (qnodes m) h2) as Ho.
    { destruct Ho1 as [Ho1 Hd1], Ho2 as [Ho2 Hd2]. split; [|by rewrite Hd2].
      intros p Hp. rewrite !elem_of_addrs_app in Hp. setoid_rewrite elem_of_addrs_app in Ho1.
      setoid_rewrite elem_of_addrs_app in Ho1. setoid_rewrite elem_of_addrs_app in Ho2.
      rewrite Ho2, Ho1; naive_solver. }
    pose proof (dll_ok_length _ Hok) as Hl. rewrite !length_app in Hl.
    split_and!.
    + exists lks. split; [by ksimpl|]. split_and!; ksimpl; try done.
      * rewrite lookup_insert_ne by done. rewrite lookup_insert_eq. do 3 f_equal.
        rewrite u64_small; [|unfold is_u64]; rewrite !length_app; lia.
      * eapply seg_ext; [|exact Hac]. intros p Hp. apply Ho2.
        specialize (Hda p). specialize (Hdb p). specialize (Hdis p).
        rewrite !elem_of_addrs_app in *. tauto.
      * apply dll_ok_app. split_and!; [done..|]. intros p Hp Hp'. apply (Hda p Hp). apply elem_of_addrs_app. auto.
    + exists lkd. split; [by ksimpl|]. split_and!; ksimpl; try done.
      * rewrite lookup_insert_eq. do 3 f_equal. unfold spliced.
        rewrite u64_small by (unfold is_u64; lia). destruct (whence =? QUEUE_HEAD); rewrite length_app; lia.
      * unfold spliced. assert (dll_ok (b ++ ld)) as Hbl'.
        { apply dll_ok_app. split_and!; [done..|]. intros p Hp. apply Hdis. rewrite !elem_of_addrs_app. auto. }
        destruct (whence =? QUEUE_HEAD); [done|]. eapply dll_ok_perm; [|exact Hbl']. apply Permutation_app_comm.
    + split; ksimpl; [done| |done]. intros q Hq1 Hq2. by rewrite !lookup_insert_ne.
Qed.

Lemma migrate_run m src dst a b c ld whence :
  queue_own m src (a ++ b ++ c) -> queue_own m dst ld -> src <> dst ->
  dll_ok ((a ++ b ++ c) ++ ld) -> b <> [] -> bad_whence whence = false ->
  wp (queue_node_migrate dst src (Z.of_nat (length a)) (Z.of_nat (length b)) whence) (fun r m' =>
    r = 0 /\ queue_own m' src (a ++ c) /\ queue_own m' dst (spliced whence b ld) /\
    move_frame src dst (addrs ((a ++ b ++ c) ++ ld)) m m') m.
Proof.
  intros Hsrc Hdst Hne Hok Hb Hw. unfold queue_node_migrate.
  pose proof (queue_own_length _ _ _ Hsrc) as Hlen.
  apply wp_bind. eapply wp_queue_assert_locked; [exact Hsrc|].
  apply wp_bind. eapply wp_queue_assert_locked; [exact Hdst|].
  destruct Hsrc as (lks & Hhs & Hs0 & Hqs & Hss & Hoks).
  destruct Hdst as (lkd & Hhd & Hd0 & Hqd & Hsd & Hokd).
  apply wp_bind. eapply wp_load; [exact Hqs|]. cbn [q_count KMem.head].
  rewrite !length_app in Hlen |- *. assert (0 < length b)%nat by (destruct b; [done|simpl; lia]).
  rewrite u64_small by (unfold is_u64 in *; lia).
  destruct (Z.leb_spec (Z.of_nat (length a + (length b + length c))) (Z.of_nat (length a))); [lia|].
  destruct (Z.eqb_spec (Z.of_nat (length b)) 0); [lia|].
  destruct (Z.ltb_spec (Z.of_nat (length a + (length b + length c))) (Z.of_nat (length a) + Z.of_nat (length b))); [lia|].
  simpl orb. rewrite Hw. cbn iota. rewrite Nat2Z.id.
  apply wp_bind. unfold wp at 1. erewrite queue_advance_spec by done.
  assert (hd_addr (b ++ c) 0 = hd_addr b 0) as -> by (by destruct b).
  pose proof Hok as Hok0. apply dll_ok_app in Hok0 as (_ & _ & Hdis).
  pose proof Hoks as Hok0. apply dll_ok_app in Hok0 as (Hoka & Hok0 & Hda).
  pose proof Hok0 as Hok1. apply dll_ok_app in Hok1 as (Hokb & Hokc & Hdb).
  destruct (is_null (hd_addr b 0)) eqn:E; [by apply dll_ok_hd_null in E|]. clear E.
  apply wp_bind. unfold wp at 1.
  replace (queue_follow _ _ _) with (Done (last_addr b 0) m : outcome kmem Z).
  2:{ symmetry. destruct b as [|[p d] b]; [done|]. simpl hd_addr. simpl last_addr.
      replace (Z.to_nat _) with (length b) by (simpl; lia). apply seg_app in Hss as [_ Hss].
      apply seg_app in Hss as [Hss _]. by eapply queue_follow_spec. }
  eapply wp_cut; [by split_and!|done|]. intros h1 Hac Hb1 Ho1.
  apply wp_bind. unfold wp at 1, node_fuel. apply wp_bind. unfold wp at 1.
  erewrite queue_walk_spec; [|by ksimpl|done|].
  2:{ apply seg_length in Hb1; [|done]. change (k_qnodes ?m) with (qnodes m). ksimpl. lia. }
  by eapply wp_attach.
Qed.

(** An accepted request cuts the source list in three. *)
Lemma migrate_ok_split (ls : list (Z * Z)) start num whence :
  migrate_ok (Z.of_nat (length ls)) start num whence = true -> is_u64 start -> is_u64 num ->
  let a := take (Z.to_nat start) ls in
  let b := take (Z.to_nat num) (drop (Z.to_nat start) ls) in
  let c := drop (Z.to_nat (start + num)) ls in
  bad_whence whence = false /\ length a = Z.to_nat start /\ length b = Z.to_nat num /\
  ls = a ++ b ++ c /\ b <> [].
Proof.
  unfold migrate_ok. intros [Hg Hw]%andb_true_iff Hst Hnum. apply negb_true_iff in Hw.
  apply negb_true_iff, orb_false_iff in Hg as [Hg Hg3]. apply orb_false_iff in Hg as [Hg1 Hg2].
  apply Z.leb_gt in Hg1. apply Z.eqb_neq in Hg2. apply Z.ltb_ge in Hg3. unfold is_u64 in *.
  assert (length (take (Z.to_nat num) (drop (Z.to_nat start) ls)) = Z.to_nat num) as Hb
    by (rewrite length_take, length_drop; lia).
  split_and!; [done|rewrite length_take; lia|done| |].
  - rewrite Z2Nat.inj_add by lia. rewrite <- drop_drop, take_drop. symmetry. apply take_drop.
  - intros Hnil. rewrite Hnil in Hb. simpl in Hb. lia.
Qed.

Lemma queue_node_migrate_spec m src dst ls ld start num whence :
  queue_own m src ls -> queue_own m dst ld -> src <> dst -> dll_ok (ls ++ ld) ->
  is_u64 start -> is_u64 num -> start + num < two64 ->
  wp (queue_node_migrate dst src start num whence) (fun r m' =>
    if migrate_ok (Z.of_nat (length ls)) start num whence then
      r = 0 /\
      queue_own m' src (take (Z.to_nat start) ls ++ drop (Z.to_nat (start + num)) ls) /\
      queue_own m' dst (spliced whence (take (Z.to_nat num) (drop (Z.to_nat start) ls)) ld) /\
      move_frame src dst (addrs (ls ++ ld)) m m'
    else r = - EINVAL /\ m' = m) m.
Proof.
  intros Hsrc Hdst Hne Hok Hst Hnum Hsum. destruct (migrate_ok _ _ _ _) eqn:E.
  - apply migrate_ok_split in E as (Hw & Ha & Hb & Hls & Hbn); [|done..].
    pose proof (migrate_run m src dst (take (Z.to_nat start) ls)
      (take (Z.to_nat num) (drop (Z.to_nat start) ls)) (drop (Z.to_nat (start + num)) ls) ld whence) as Hrun.
    rewrite <- Hls in Hrun. rewrite Ha, Hb, !Z2Nat.id in Hrun by (apply Hst || apply Hnum). by apply Hrun.
  - unfold queue_node_migrate, migrate_ok in *. apply wp_bind. eapply wp_queue_assert_locked; [exact Hsrc|].
    apply wp_bind. eapply wp_queue_assert_locked; [exact Hdst|].
    apply wp_bind. eapply wp_load_queue; [exact Hsrc|]. intros lk _ _. simpl.
    rewrite u64_small by (unfold is_u64 in *; lia).
    destruct (_ || _ : bool); [by apply wp_ret|]. simpl in E. apply negb_false_iff in E. rewrite E. by apply wp_ret.
Qed.

Lemma queue_move_spec m src dst ls ld whence :
  queue_own m src ls -> queue_own m dst ld -> src <> dst -> dll_ok (ls ++ ld) ->
  wp (queue_move dst src whence) (fun r m' =>
    if (negb (bad_whence whence) && negb (Z.of_nat (length ls) =? 0))%bool then
      r = 0 /\ queue_own m' src [] /\ queue_own m' dst (spliced whence ls ld) /\
      move_frame src dst (addrs (ls ++ ld)) m m'
    else r = - EINVAL /\ m' = m) m.
Proof.
  intros Hsrc Hdst Hne Hok. pose proof (queue_own_length _ _ _ Hsrc) as Hlen.
  unfold queue_move. apply wp_bind. eapply wp_queue_assert_locked; [exact Hsrc|].
  apply wp_bind. eapply wp_queue_assert_locked; [exact Hdst|].
  destruct (bad_whence whence) eqn:Hw; [by apply wp_ret|]. simpl.
  apply wp_bind. eapply wp_load_queue; [exact Hsrc|]. intros lk _ _. simpl.
  eapply wp_mono; [eapply (queue_node_migrate_spec m src dst ls ld 0); try done; unfold is_u64 in *; lia|].
  intros r m'. unfold migrate_ok. rewrite Hw, Z.add_0_l, Z.ltb_irrefl, orb_false_r.
  destruct (Z.eqb_spec (Z.of_nat (length ls)) 0) as [E|E].
  - rewrite orb_true_r. done.
  - destruct (Z.leb_spec (Z.of_nat (length ls)) 0); [lia|]. simpl.
    rewrite Nat2Z.id, drop_all, firstn_all. done.
Qed.
