(* ===== verification/QueueSpec.v ===== *)
(** * The abstract queue

    A queue as a list of data values, the operations of ds/queue/queue.c as
    functions on it, and the simulation: any sequence of operations run on a
    queue in memory behaves as the abstract queue, and neither panics, nor uses a
    dead node, nor loops. *)
From S2P Require Import Prelude Errno Spinlock KMem Queue Dll QueueFacts.

(** ** Operations and their abstract meaning *)
Inductive q_op :=
  | Enqueue (data uniqueness : Z)
  | EnqueueHead (data uniqueness : Z)
  | Dequeue
  | DequeueTail
  | Remove (data : Z)
  | Replace (data0 data1 : Z)
  | Relocate (data whence : Z)
  | Peek (whence : Z)
  | Contains (data : Z)
  | Length
  | Flush.

(** A result: the error code (or the length), and the data handed out. *)
Definition q_res : Type := Z * option Z.

Fixpoint remove_first (d : Z) (l : list Z) : list Z :=
  match l with
  | [] => []
  | x :: l => if x =? d then l else x :: remove_first d l
  end.
Fixpoint replace_first (d d' : Z) (l : list Z) : list Z :=
  match l with
  | [] => []
  | x :: l => if x =? d then d' :: l else x :: replace_first d d' l
  end.

Definition mem (d : Z) (l : list Z) : bool := bool_decide (d ∈ l).

Definition q_step (o : q_op) (l : list Z) : q_res * list Z :=
  match o with
  | Enqueue d u =>
      if (u =? QUEUE_UNIQUE) && mem d l then ((- EEXIST, None), l) else ((0, None), l ++ [d])
  | EnqueueHead d u =>
      if (u =? QUEUE_UNIQUE) && mem d l then ((- EEXIST, None), l) else ((0, None), d :: l)
  | Dequeue => match l with [] => ((- ENOENT, None), []) | d :: l => ((0, Some d), l) end
  | DequeueTail =>
      match last l with None => ((- ENOENT, None), l) | Some d => ((0, Some d), removelast l) end
  | Remove d => if mem d l then ((0, None), remove_first d l) else ((- ENOENT, None), l)
  | Replace d0 d1 =>
      if d0 =? d1 then ((- EINVAL, None), l)
      else if mem d0 l then ((0, None), replace_first d0 d1 l) else ((- ENOENT, None), l)
  | Relocate d whence =>
      if mem d l then
        if bad_whence whence then ((- EINVAL, None), l)
        else ((0, None), if whence =? QUEUE_HEAD then d :: remove_first d l else remove_first d l ++ [d])
      else ((- ENOENT, None), l)
  | Peek whence =>
      (if bad_whence whence then (- EINVAL, None)
       else match (if whence =? QUEUE_TAIL then last l else l !! O) with
            | None => (- ENOENT, None)
            | Some d => (0, Some d)
            end, l)
  | Contains d => ((if mem d l then 0 else - ENOENT, None), l)
  | Length => ((Z.of_nat (length l), None), l)
  | Flush => ((0, None), [])
  end.

(** An enqueue may also find memory exhausted; it then leaves the queue alone. *)
Definition q_oom (o : q_op) (l : list Z) : bool :=
  match o with
  | Enqueue d u | EnqueueHead d u => negb ((u =? QUEUE_UNIQUE) && mem d l)
  | _ => false
  end.

Inductive q_trans (o : q_op) (l : list Z) : q_res -> list Z -> Prop :=
  | q_trans_step : q_trans o l (q_step o l).1 (q_step o l).2
  | q_trans_oom : q_oom o l = true -> q_trans o l (- ENOMEM, None) l.

Inductive q_trace : list q_op -> list Z -> list q_res -> list Z -> Prop :=
  | q_trace_nil l : q_trace [] l [] l
  | q_trace_cons o os l r l1 rs l2 :
      q_trans o l r l1 -> q_trace os l1 rs l2 -> q_trace (o :: os) l (r :: rs) l2.

(** ** The operations on memory *)
Section Exec.
Context {KA : KAlloc}.

Definition q_exec (q : Z) (o : q_op) : K q_res :=
  match o with
  | Enqueue d u => let! r := enqueue_whence q d u QUEUE_TAIL in ret! (r.1, None)
  | EnqueueHead d u => let! r := enqueue_whence q d u QUEUE_HEAD in ret! (r.1, None)
  | Dequeue => dequeue_whence q QUEUE_HEAD true
  | DequeueTail => dequeue_whence q QUEUE_TAIL true
  | Remove d => let! r := queue_remove q d in ret! (r, None)
  | Replace d0 d1 => let! r := queue_replace q d0 d1 in ret! (r, None)
  | Relocate d whence => let! r := queue_rellocate q d whence in ret! (r, None)
  | Peek whence => queue_peek q whence true
  | Contains d => let! r := queue_contains q d in ret! (r.1, None)
  | Length => let! n := queue_length q in ret! (n, None)
  | Flush => do! queue_flush q in ret! (0, None)
  end.

Fixpoint q_run (q : Z) (os : list q_op) : K (list q_res) :=
  match os with
  | [] => ret! []
  | o :: os => let! r := q_exec q o in let! rs := q_run q os in ret! (r :: rs)
  end.
End Exec.

(** ** First occurrences in a list of nodes and in a list of data *)
Lemma mem_true d l : d ∈ l -> mem d l = true.
Proof. intros. by apply bool_decide_eq_true. Qed.
Lemma mem_false d l : d ∉ l -> mem d l = false.
Proof. intros. by apply bool_decide_eq_false. Qed.

Lemma remove_first_app d l1 l2 : d ∉ l1 -> remove_first d (l1 ++ d :: l2) = l1 ++ l2.
Proof.
  induction l1 as [|x l1 IH]; intros Hn; simpl; [by rewrite Z.eqb_refl|].
  apply not_elem_of_cons in Hn as [Hd Hn]. rewrite (proj2 (Z.eqb_neq x d)) by done. by rewrite IH.
Qed.
Lemma replace_first_app d d' l1 l2 : d ∉ l1 -> replace_first d d' (l1 ++ d :: l2) = l1 ++ d' :: l2.
Proof.
  induction l1 as [|x l1 IH]; intros Hn; simpl; [by rewrite Z.eqb_refl|].
  apply not_elem_of_cons in Hn as [Hd Hn]. rewrite (proj2 (Z.eqb_neq x d)) by done. by rewrite IH.
Qed.

Lemma first_data_fmap d l l1 p l2 :
  first_data d l l1 p l2 ->
  mem d l.*2 = true /\ remove_first d l.*2 = (l1 ++ l2).*2 /\
  (forall d', replace_first d d' l.*2 = (l1 ++ (p, d') :: l2).*2).
Proof.
  intros [-> Hn]. rewrite !fmap_app, fmap_cons. split_and!; [apply mem_true; set_solver|..].
  - by apply remove_first_app.
  - intros d'. rewrite fmap_app, fmap_cons. by apply replace_first_app.
Qed.

(** ** One operation *)
Section Simulation.
Context {KA : KAlloc}.

(** What one operation establishes: an abstract transition on the data, and a
    frame for everything but the queue. *)
Definition q_simulates (m : kmem) (q : Z) (l : list (Z * Z)) (o : q_op) (r : q_res) (m' : kmem) : Prop :=
  exists l', queue_own m' q l' /\ q_trans o l.*2 r l'.*2 /\
    k_who m' = k_who m /\ queue_frame q l m m' /\
    (forall p x, p ∉ addrs l -> qnodes m !! p = Some x -> p ∉ addrs l').

Lemma q_simulates_step m q l o r l' m' :
  queue_own m' q l' -> queue_frame q l m m' ->
  (forall p x, p ∉ addrs l -> qnodes m !! p = Some x -> p ∉ addrs l') ->
  q_step o l.*2 = (r, l'.*2) -> q_simulates m q l o r m'.
Proof.
  intros Hown Hf Hin Heq. exists l'. split_and!; try done.
  - pose proof (q_trans_step o l.*2) as Ht. by rewrite Heq in Ht.
  - by eapply queue_frame_who.
Qed.

Lemma q_simulates_same m q l o r :
  queue_own m q l -> q_step o l.*2 = (r, l.*2) -> q_simulates m q l o r m.
Proof. intros. by eapply q_simulates_step. Qed.

(** Enqueueing at either end. *)
Lemma enqueued_simulates m q l d u o (l' : Z -> list (Z * Z)) r m' :
  queue_own m q l ->
  o = Enqueue d u \/ o = EnqueueHead d u ->
  (forall p, q_step o l.*2 = if (u =? QUEUE_UNIQUE) && mem d l.*2
     then ((- EEXIST, None), l.*2) else ((0, None), (l' p).*2)) ->
  (forall p x, x ∈ addrs (l' p) -> x = p \/ x ∈ addrs l) ->
  enqueued m q l d u l' r m' -> q_simulates m q l o (r.1, None) m'.
Proof.
  intros Hown Ho Hstep Hin [(-> & Hd & -> & ->)|[Hn [(-> & -> & _)|(p & -> & Hp & Hown' & Hf & _)]]].
  - apply q_simulates_same; [done|]. rewrite (Hstep 0). by rewrite mem_true.
  - exists l. split_and!; try done.
    + apply q_trans_oom. assert ((u =? QUEUE_UNIQUE) && mem d l.*2 = false) as Hb.
      { destruct (Z.eqb_spec u QUEUE_UNIQUE); [|done]. simpl. apply mem_false. auto. }
      by destruct Ho as [-> | ->]; simpl; rewrite Hb.
  - eapply q_simulates_step; [done..| |].
    + intros x y Hx Hy Hxl. destruct (Hin p x Hxl) as [->|]; [|done].
      apply Hp, (h_live (T:=queue_node_t)). by apply elem_of_dom.
    + rewrite (Hstep p). destruct (Z.eqb_spec u QUEUE_UNIQUE); [|done]. simpl. rewrite mem_false; auto.
Qed.

(** An operation that takes nodes out, or changes none. *)
Lemma q_simulates_sub m q l o r l' m' :
  queue_own m' q l' -> queue_frame q l m m' ->
  (forall p, p ∈ addrs l' -> p ∈ addrs l) -> q_step o l.*2 = (r, l'.*2) -> q_simulates m q l o r m'.
Proof. intros ? ? Hsub ?. eapply q_simulates_step; eauto. Qed.

Lemma q_exec_enqueue m q l d u :
  queue_own m q l -> wp (q_exec q (Enqueue d u)) (q_simulates m q l (Enqueue d u)) m.
Proof.
  intros Hown. simpl. unfold enqueue_whence. apply wp_bind. queue_prologue Hown.
  eapply wp_mono; [by apply enqueue_spec|]. intros r m' He. apply wp_ret.
  eapply enqueued_simulates; [done|by left|..|done].
  - intros p. simpl. by rewrite fmap_app.
  - intros p x. rewrite elem_of_addrs_app, elem_of_addrs_cons. intros [?|[?|[]%not_elem_of_addrs_nil]]; auto.
Qed.

Lemma q_exec_enqueue_head m q l d u :
  queue_own m q l -> wp (q_exec q (EnqueueHead d u)) (q_simulates m q l (EnqueueHead d u)) m.
Proof.
  intros Hown. simpl. unfold enqueue_whence. apply wp_bind. queue_prologue Hown.
  eapply wp_mono; [by apply enqueue_head_spec|]. intros r m' He. apply wp_ret.
  eapply enqueued_simulates; [done|by right|..|exact He]; [done|].
  intros p x. by rewrite elem_of_addrs_cons.
Qed.

Lemma q_exec_dequeue m q l :
  queue_own m q l -> wp (q_exec q Dequeue) (q_simulates m q l Dequeue) m.
Proof.
  intros Hown. simpl. unfold dequeue_whence. queue_prologue Hown.
  eapply wp_mono; [by apply dequeue_spec|]. intros r m'. destruct l as [|[p d] l].
  - intros [-> ->]. by apply q_simulates_same.
  - intros (-> & Hown' & Hf & _). eapply q_simulates_sub; [done..| |done].
    intros x Hx. apply elem_of_addrs_cons. auto.
Qed.

Lemma q_exec_dequeue_tail m q l :
  queue_own m q l -> wp (q_exec q DequeueTail) (q_simulates m q l DequeueTail) m.
Proof.
  intros Hown. simpl. unfold dequeue_whence. queue_prologue Hown.
  eapply wp_mono; [by apply dequeue_tail_spec|].
  intros r m' [(-> & -> & ->)|(l' & p & d & -> & -> & Hown' & Hf & _)]; [by apply q_simulates_same|].
  eapply q_simulates_sub; [done..| |].
  - intros x Hx. apply elem_of_addrs_app. auto.
  - simpl. rewrite fmap_app. simpl. by rewrite last_snoc, removelast_last.
Qed.

Lemma q_exec_remove m q l d :
  queue_own m q l -> wp (q_exec q (Remove d)) (q_simulates m q l (Remove d)) m.
Proof.
  intros Hown. simpl. apply wp_bind. eapply wp_mono; [by apply queue_remove_spec|].
  intros r m' [(-> & -> & Hn)|(l1 & p & l2 & -> & Hfd & Hown' & Hf & _)]; apply wp_ret.
  - apply q_simulates_same; [done|]. simpl. by rewrite mem_false.
  - destruct (first_data_fmap _ _ _ _ _ Hfd) as (Hm & Hr & _). destruct Hfd as [-> _].
    eapply q_simulates_sub; [done..| |]; [|simpl; by rewrite Hm, Hr].
    intros x. rewrite !elem_of_addrs_app, elem_of_addrs_cons. naive_solver.
Qed.

Lemma q_exec_replace m q l d0 d1 :
  queue_own m q l -> wp (q_exec q (Replace d0 d1)) (q_simulates m q l (Replace d0 d1)) m.
Proof.
  intros Hown. simpl. apply wp_bind. eapply wp_mono; [by apply queue_replace_spec|].
  intros r m' [(-> & -> & ->)|[(-> & -> & Hne & Hn)|(l1 & p & l2 & -> & Hne & Hfd & Hown' & Hf)]]; apply wp_ret.
  - apply q_simulates_same; [done|]. simpl. by rewrite Z.eqb_refl.
  - apply q_simulates_same; [done|]. simpl. rewrite (proj2 (Z.eqb_neq _ _)) by done. by rewrite mem_false.
  - destruct (first_data_fmap _ _ _ _ _ Hfd) as (Hm & _ & Hr). destruct Hfd as [-> _].
    eapply q_simulates_sub; [done..| |].
    + intros x. by rewrite !elem_of_addrs_app, !elem_of_addrs_cons.
    + simpl. rewrite (proj2 (Z.eqb_neq _ _)) by done. by rewrite Hm, Hr.
Qed.

Lemma q_exec_relocate m q l d whence :
  queue_own m q l -> wp (q_exec q (Relocate d whence)) (q_simulates m q l (Relocate d whence)) m.
Proof.
  intros Hown. simpl. apply wp_bind. eapply wp_mono; [by apply queue_rellocate_spec|].
  intros r m' [(-> & -> & Hn)|[(-> & -> & Hn & Hw)|(l1 & p & l2 & -> & Hw & Hfd & Hown' & Hf & _)]]; apply wp_ret.
  - apply q_simulates_same; [done|]. simpl. by rewrite mem_false.
  - apply q_simulates_same; [done|]. simpl. by rewrite mem_true, Hw.
  - destruct (first_data_fmap _ _ _ _ _ Hfd) as (Hm & Hr & _). destruct Hfd as [-> _].
    eapply q_simulates_sub; [done..| |].
    + intros x. unfold addrs. by rewrite (relocated_perm whence l1 (p, d) l2).
    + simpl. rewrite Hm, Hw, Hr. unfold relocated. destruct (whence =? QUEUE_HEAD); [done|].
      by rewrite (fmap_app _ (l1 ++ l2)).
Qed.

Lemma q_exec_simulates m q l o :
  queue_own m q l -> wp (q_exec q o) (q_simulates m q l o) m.
Proof.
  intros Hown. destruct o as [d u|d u| | |d|d0 d1|d whence|whence|d| |].
  - by apply q_exec_enqueue.
  - by apply q_exec_enqueue_head.
  - by apply q_exec_dequeue.
  - by apply q_exec_dequeue_tail.
  - by apply q_exec_remove.
  - by apply q_exec_replace.
  - by apply q_exec_relocate.
  - eapply wp_mono; [by apply queue_peek_spec|]. intros r m' [-> ->]. by apply q_simulates_same.
  - simpl. apply wp_bind. destruct (queue_contains_spec m q l d Hown) as (r & Hr & Hspec).
    unfold wp at 1. rewrite Hr. apply wp_ret, q_simulates_same; [done|]. simpl.
    destruct Hspec as [[-> Hn]|(l1 & p & l2 & -> & Hfd)]; [by rewrite mem_false|].
    by rewrite (proj1 (first_data_fmap _ _ _ _ _ Hfd)).
  - simpl. apply wp_bind. eapply wp_queue_length; [done|]. apply wp_ret, q_simulates_same; [done|].
    simpl. by rewrite length_fmap.
  - simpl. apply wp_bind. eapply wp_mono; [by apply queue_flush_spec|]. intros _ m' (Hown' & Hf & _).
    apply wp_ret. eapply q_simulates_sub; [done..| |done]. intros x []%not_elem_of_addrs_nil.
Qed.

(** ** Sequences of operations *)
Lemma q_run_simulates m q l os :
  queue_own m q l ->
  wp (q_run q os) (fun rs m' =>
    exists l', queue_own m' q l' /\ q_trace os l.*2 rs l'.*2 /\ queue_frame q l m m' /\
      (forall p x, p ∉ addrs l -> qnodes m !! p = Some x -> p ∉ addrs l')) m.
Proof.
  revert m l. induction os as [|o os IH]; intros m l Hown; simpl.
  - apply wp_ret. exists l. split_and!; try done. constructor.
  - apply wp_bind. eapply wp_mono; [by apply q_exec_simulates|].
    intros r m1 (l1 & Hown1 & Ht1 & _ & Hf1 & Hin1). apply wp_bind.
    eapply wp_mono; [by apply IH|]. intros rs m2 (l2 & Hown2 & Ht2 & Hf2 & Hin2). apply wp_ret.
    exists l2. split_and!; try done.
    + by econstructor.
    + eapply queue_frame_trans; [|done..]. done.
    + intros p x Hp Hx. eapply Hin2; [by eapply Hin1|]. by eapply (qf_nodes _ _ _ _ Hf1).
Qed.
End Simulation.
