(* ===== verification/Sample.v ===== *)
(** * Concrete states

    A small machine on which the theorems are exercised: an allocator that hands
    out successive slots, an idle memory, and the identity of a running thread. *)
From S2P Require Import Prelude Spinlock KMem.

(** Slot [n] of a region above 0x10000, when it is free. *)
#[refine] Definition slot_alloc : KAlloc := {|
  ka_pick n s :=
    let p := 65536 + 64 * Z.of_nat n in
    if decide (p ∉ s /\ 0 < p < two64) then Some p else None;
  ka_junk _ _ := 165
|}.
Proof. intros n s p. simpl. case_decide as H; [|done]. intros [= <-]. exact H. Defined.

Definition thread_7 : who := mkWho 7 4096.
Definition held_lock : spinlock_t := mkLock false true 7.
Definition free_lock : spinlock_t := SPINLOCK_INIT.

Definition idle : kmem := mkKmem thread_7 0 ∅ ∅ ∅ ∅ ∅ ∅ ∅ ∅ ∅ ∅.

(** Discharge a closed goal about a concrete state. *)
Ltac concrete := repeat split; try (vm_compute; first [reflexivity | discriminate]).

(** The lowest free address. *)
Definition lowest_free (s : gset Z) : option Z :=
  hd_error (filter (fun p => p ∉ s /\ p < two64) (seqZ 1 (Z.of_nat (size s) + 1))).
#[refine] Definition first_fit : KAlloc := {| ka_pick _ s := lowest_free s; ka_junk _ _ := 165 |}.
Proof.
  intros n s p Hp. apply head_Some_elem_of, list_elem_of_filter in Hp as [[Hs Hlt] Hp%elem_of_seqZ]. split; [done|lia].
Defined.

(** It runs out only when the address space does. *)
Lemma lowest_free_some s : Z.of_nat (size s) + 1 < two64 -> is_Some (lowest_free s).
Proof.
  intros Hs. unfold lowest_free. destruct (filter _ _) as [|p l] eqn:E; [|by eexists].
  assert (length (seqZ 1 (Z.of_nat (size s) + 1)) <= size s)%nat as Hle; [|rewrite length_seqZ in Hle; lia].
  unfold size, set_size. simpl. apply submseteq_length, NoDup_submseteq; [apply NoDup_seqZ|].
  intros p Hp. apply elem_of_elements. destruct (decide (p ∈ s)) as [|Hn]; [done|].
  assert (p ∈ (@nil Z)) as []%not_elem_of_nil. rewrite <- E. apply list_elem_of_filter. split; [|done].
  apply elem_of_seqZ in Hp. unfold size, set_size in *. simpl in *. split; [done|lia].
Qed.
