(* ===== verification/QueueProps.v ===== *)
(** * Properties of the queue component

    The refinement of the list queue, moving runs of nodes, and the releasing of
    all nodes, with concrete queues that exercise them. *)
From S2P Require Import Prelude Errno Spinlock KMem Queue Dll QueueFacts QueueMove QueueSpec Sample.


(** ** Concrete queues *)
Definition queue_of (l : list (Z * Z)) (lk : spinlock_t) : queue_t :=
  mkQueue (hd_addr l 0) (last_addr l 0) (Z.of_nat (length l)) lk.
Fixpoint chain (pv : Z) (l : list (Z * Z)) : gmap Z queue_node_t :=
  match l with
  | [] => ∅
  | (p, d) :: l => <[p := mkQnode pv d (hd_addr l 0)]> (chain p l)
  end.

(** Two locked queues: at 100 with data 5, 6, 5, 8 and at 200 with data 9. *)
Definition src_nodes : list (Z * Z) := [(110, 5); (120, 6); (130, 5); (140, 8)].
Definition dst_nodes : list (Z * Z) := [(210, 9)].
Definition two_queues : kmem :=
  h_set (<[100 := queue_of src_nodes held_lock]> {[200 := queue_of dst_nodes held_lock]})
    (h_set (chain 0 src_nodes ∪ chain 0 dst_nodes) idle).

Instance dll_ok_dec (l : list (Z * Z)) : Decision (dll_ok l).
Proof. unfold dll_ok, addr_ok. apply _. Defined.

Lemma two_queues_src : queue_own two_queues 100 src_nodes.
Proof.
  exists held_lock. split; [done|]. split_and!; [done|reflexivity| |by apply (bool_decide_unpack _)].
  simpl. split_and!; reflexivity.
Qed.
Lemma two_queues_dst : queue_own two_queues 200 dst_nodes.
Proof.
  exists held_lock. split; [done|]. split_and!; [done|reflexivity| |by apply (bool_decide_unpack _)].
  simpl. split_and!; reflexivity.
Qed.

(** ** Properties *)

(** C1: Whatever sequence of enqueue, dequeue, remove, replace, relocate, peek,
    contains, length and flush calls is made on a locked queue, the calls all
    return (no panic, no access to a dead node, no endless walk), their results
    and the final content are those of the abstract list queue, and every other
    queue keeps its content. *)
Theorem queue_refines_list {KA : KAlloc} m q l os q2 lk2 l2 :
  queue_own m q l -> queue_rep m q2 lk2 l2 -> q2 <> q -> (forall p, p ∈ addrs l2 -> p ∉ addrs l) ->
  wp (q_run q os) (fun rs m' =>
    exists l', queue_own m' q l' /\ q_trace os l.*2 rs l'.*2 /\ queue_rep m' q2 lk2 l2) m.
Proof.
  intros Hown H2 Hne Hd. eapply wp_mono; [by apply q_run_simulates|].
  intros rs m' (l' & Hown' & Ht & Hf & _). exists l'. split_and!; try done.
  by eapply queue_rep_frame.
Qed.

Definition sample_ops : list q_op :=
  [Enqueue 7 QUEUE_UNIQUE; Enqueue 7 QUEUE_UNIQUE; Relocate 5 QUEUE_TAIL; Dequeue; Remove 8; DequeueTail].

Lemma queue_refines_list_witness :
  wp (q_run (KA:=slot_alloc) 100 sample_ops) (fun rs m' =>
    exists l', queue_own m' 100 l' /\ q_trace sample_ops [5; 6; 5; 8] rs l'.*2 /\
      queue_rep m' 200 held_lock dst_nodes) two_queues.
Proof.
  apply (queue_refines_list (KA:=slot_alloc) two_queues 100 src_nodes sample_ops 200 held_lock dst_nodes).
  - apply two_queues_src.
  - destruct two_queues_dst as (lk & _ & H0 & Hq & Hr). split_and!; [done|reflexivity|apply Hr..].
  - done.
  - intros p Hp. revert p Hp. apply Forall_forall. repeat constructor; by apply (bool_decide_unpack _).
Defined.

(** Moving [num_nodes] nodes from position [start_pos] of one queue to an end
    of another takes exactly that run, in order, out of the source and puts it at
    the requested end of the destination, changing no other queue and no other
    node; a range outside the source, an empty range or a bad end is refused with
    EINVAL and changes nothing. *)
Theorem queue_migrate_moves_run m src dst ls ld start num whence :
  queue_own m src ls -> queue_own m dst ld -> src <> dst -> dll_ok (ls ++ ld) ->
  is_u64 start -> is_u64 num -> start + num < two64 ->
  wp (queue_node_migrate dst src start num whence) (fun r m' =>
    if migrate_ok (Z.of_nat (length ls)) start num whence then
      r = 0 /\
      queue_own m' src (take (Z.to_nat start) ls ++ drop (Z.to_nat (start + num)) ls) /\
      queue_own m' dst (spliced whence (take (Z.to_nat num) (drop (Z.to_nat start) ls)) ld) /\
      move_frame src dst (addrs (ls ++ ld)) m m'
    else r = - EINVAL /\ m' = m) m.
Proof. apply queue_node_migrate_spec. Qed.

Lemma queue_migrate_moves_run_witness :
  wp (queue_node_migrate 200 100 1 2 QUEUE_HEAD) (fun r m' =>
    r = 0 /\ queue_own m' 100 [(110, 5); (140, 8)] /\
    queue_own m' 200 [(120, 6); (130, 5); (210, 9)] /\
    move_frame 100 200 (addrs (src_nodes ++ dst_nodes)) two_queues m') two_queues.
Proof.
  apply (queue_migrate_moves_run two_queues 100 200 src_nodes dst_nodes 1 2 QUEUE_HEAD);
    [apply two_queues_src|apply two_queues_dst|done|by apply (bool_decide_unpack _)|done..].
Defined.

(** The range test of [queue_node_migrate] is done with wrapped arithmetic. *)
Lemma queue_follow_past_end m pv p d l n :
  seg (qnodes m) pv ((p, d) :: l) 0 -> qnodes m !! 0 = None -> (S (length l) < n)%nat ->
  queue_follow n p m = Fault.
Proof.
  revert pv p d n. induction l as [|[p' d'] l IH]; intros pv p d [|n] Hs H0 Hn; simpl in Hn; try lia;
    destruct Hs as [Hp Hs]; simpl; unfold M_bind, load; rewrite Hp; simpl.
  - destruct n; [simpl in Hn; lia|]. simpl. unfold M_bind, load. by rewrite H0.
  - eapply IH; [done..|lia].
Qed.

(** The range test of [queue_node_migrate] adds [start_pos] and [num_nodes]
    with 64-bit wrap-around: a [num_nodes] so large that the sum wraps passes it,
    and the walk to the last node then runs off the end of the source queue and
    dereferences NULL instead of answering EINVAL. *)
Theorem queue_migrate_wrapped_range m src dst ls ld start num whence :
  queue_own m src ls -> queue_own m dst ld -> qnodes m !! 0 = None ->
  Z.of_nat (length ls) < two64 - 1 -> bad_whence whence = false ->
  0 <= start < Z.of_nat (length ls) -> is_u64 num -> two64 <= start + num ->
  queue_node_migrate dst src start num whence m = Fault.
Proof.
  intros Hsrc Hdst H0 Hlen Hw Hst Hnum Hsum. unfold queue_node_migrate.
  erewrite M_bind_done by (exact (queue_assert_locked_eq _ _ _ Hsrc)).
  erewrite M_bind_done by (exact (queue_assert_locked_eq _ _ _ Hdst)).
  destruct Hsrc as (lk & _ & _ & Hq & Hs & Hok). erewrite M_bind_done by (unfold load; by rewrite Hq).
  cbn [q_count KMem.head]. unfold is_u64 in Hnum.
  assert (u64 (start + num) = start + num - two64) as ->.
  { rewrite <- (u64_sub_add _ (-1)), u64_small; unfold is_u64; lia. }
  destruct (Z.leb_spec (Z.of_nat (length ls)) start); [lia|].
  destruct (Z.eqb_spec num 0); [lia|].
  destruct (Z.ltb_spec (Z.of_nat (length ls)) (start + num - two64)); [lia|]. rewrite Hw. cbn [orb].
  cbn iota.
  assert (exists a b, ls = a ++ b /\ length a = Z.to_nat start /\ (0 < length b < Z.to_nat num - 1)%nat)
    as (a & b & -> & Ha & Hb).
  { exists (take (Z.to_nat start) ls), (drop (Z.to_nat start) ls).
    rewrite take_drop, length_take, length_drop. split_and!; [done|lia..]. }
  rewrite <- Ha. erewrite M_bind_done by (by eapply queue_advance_spec).
  apply seg_app in Hs as [_ Hs]. apply dll_ok_app in Hok as (_ & Hok & _).
  destruct (is_null (hd_addr b 0)) eqn:E.
  { apply dll_ok_hd_null in E; [|done]. subst b. simpl in Hb. lia. }
  destruct b as [|[p d] b]; [simpl in Hb; lia|]. simpl hd_addr. apply M_bind_fault.
  eapply queue_follow_past_end; [done..|]. simpl in Hb. lia.
Qed.

Lemma queue_migrate_wrapped_range_witness :
  queue_node_migrate 200 100 3 (two64 - 1) QUEUE_TAIL two_queues = Fault.
Proof.
  apply (queue_migrate_wrapped_range two_queues 100 200 src_nodes dst_nodes 3 (two64 - 1) QUEUE_TAIL);
    [apply two_queues_src|apply two_queues_dst|done..].
Defined.

(** Freeing a queue releases the queue and every node that is in it, and
    nothing else: the other queues and the nodes outside it stay as they are. *)
Theorem queue_free_releases_nodes m q l :
  queue_own m q l ->
  wp (queue_free q) (fun _ m' =>
    queues m' = delete q (queues m) /\
    dom (qnodes m') = dom (qnodes m) ∖ list_to_set (addrs l) /\
    (forall p x, p ∉ addrs l -> qnodes m !! p = Some x -> qnodes m' !! p = Some x) /\
    q_erase m' = q_erase m) m.
Proof.
  intros Hown. eapply wp_mono; [by apply queue_free_spec|].
  intros _ m' ([He Hq Hn] & Hqs & Hd). done.
Qed.

Lemma queue_free_releases_nodes_witness :
  wp (queue_free 100) (fun _ m' =>
    queues m' = delete 100 (queues two_queues) /\
    dom (qnodes m') = dom (qnodes two_queues) ∖ list_to_set (addrs src_nodes) /\
    (forall p x, p ∉ addrs src_nodes -> qnodes two_queues !! p = Some x -> qnodes m' !! p = Some x) /\
    q_erase m' = q_erase two_queues) two_queues.
Proof. exact (queue_free_releases_nodes two_queues 100 src_nodes two_queues_src). Defined.
