(* ===== verification/Stack.v ===== *)
(** * Stacks (ds/stack.c, ds/stack.h)

    A stack is a queue with a lock of its own; [s_queue] is the structure's first
    member, so the queue object is at the stack's address. *)
From S2P Require Import Prelude Errno Spinlock KMem Queue Dll QueueFacts QueueSpec Sample.

Definition stack_lock (s : Z) : K unit := obj_lock (T:=stack_t) s.
Definition stack_unlock (s : Z) : K unit := obj_unlock (T:=stack_t) s.
Definition stack_islocked (s : Z) : K bool := obj_islocked (T:=stack_t) s.
Definition stack_assert_locked (s : Z) : K unit := obj_assert_locked (T:=stack_t) s.

Definition stack_init (s : Z) : K Z :=
  if is_null s then ret! (- EINVAL) else
  do! store s QUEUE_INIT in
  do! store s (mkStack SPINLOCK_INIT) in
  ret! 0.

Definition stack_pop (s : Z) (pdp : bool) : K (Z * option Z) :=
  if is_null s then ret! (- EINVAL, None) else
  do! stack_assert_locked s in
  do! queue_lock s in
  let! err := dequeue_tail s pdp in
  do! queue_unlock s in
  ret! err.

Definition stack_remove (s data : Z) : K Z :=
  if is_null s then ret! (- EINVAL) else
  do! stack_assert_locked s in
  do! queue_lock s in
  let! err := queue_remove s data in
  do! queue_unlock s in
  ret! err.

Definition stack_contains (s data : Z) : K Z :=
  if is_null s then ret! (- EINVAL) else
  do! stack_assert_locked s in
  do! queue_lock s in
  let! err := queue_contains s data in
  do! queue_unlock s in
  ret! err.1.

Definition stack_size (s : Z) : K Z :=
  do! stack_assert_locked s in
  do! queue_lock s in
  let! size := queue_length s in
  do! queue_unlock s in
  ret! size.

Definition stack_flush (s : Z) : K Z :=
  if is_null s then ret! (- EINVAL) else
  do! stack_assert_locked s in
  do! queue_lock s in
  do! queue_flush s in
  do! queue_unlock s in
  ret! 0.

Definition stack_peek (s top : Z) (pdp : bool) : K (Z * option Z) :=
  if is_null s || negb pdp then ret! (- EINVAL, None) else
  do! stack_assert_locked s in
  do! queue_lock s in
  let! err := queue_peek s top pdp in
  do! queue_unlock s in
  ret! err.

(** [kfree(s)] releases the stack together with the queue inside it. *)
Definition stack_kfree (s : Z) : K unit :=
  do! kfree (T:=stack_t) s in
  kfree (T:=queue_t) s.

Definition stack_free (s : Z) : K unit :=
  if is_null s then ret! tt else
  let! b := stack_islocked s in
  do! M_when (negb b) (stack_lock s) in
  let! _ := stack_flush s in
  do! stack_unlock s in
  stack_kfree s.

Section Alloc.
Context {KA : KAlloc}.

Definition stack_push (s pd : Z) : K Z :=
  if is_null s then ret! (- EINVAL) else
  do! stack_assert_locked s in
  do! queue_lock s in
  let! err := enqueue s pd 0 in
  do! queue_unlock s in
  ret! err.1.

(** [kmalloc(sizeof *s)]: one block, which holds the stack and its queue. *)
Definition stack_kmalloc : K Z :=
  let! s := kalloc (mkStack SPINLOCK_INIT) in
  if is_null s then ret! s else
  let! m := M_get in
  do! M_put (h_set (<[s := QUEUE_INIT]> (h_get m)) m) in
  ret! s.

Definition stack_alloc (psp : bool) : K (Z * option Z) :=
  if negb psp then ret! (- EINVAL, None) else
  let! s := stack_kmalloc in
  if is_null s then ret! (- ENOMEM, None) else
  let! err := stack_init s in
  if negb (err =? 0) then
    do! M_when (negb (is_null s)) (stack_kfree s) in ret! (err, None)
  else ret! (0, Some s).
End Alloc.

(** * The stack behaves as a LIFO stack

    The stack operations over the facts about queues, and the refinement of the
    abstract stack. *)
Notation stacks m := (h_get (T:=stack_t) m) (only parsing).

(** A locked stack whose queue, itself unlocked, has the nodes [l]. *)
Definition stack_own (m : kmem) (s : Z) (l : list (Z * Z)) : Prop :=
  (exists x, held m s x /\ x = mkStack (s_lock x)) /\
  exists ql, locked ql = false /\ queue_rep m s ql l.

(** ** The abstract stack: the top comes first *)
Inductive s_op := Push (d : Z) | Pop | SRemove (d : Z) | SContains (d : Z) | Size | SFlush | SPeek (top : Z).

Fixpoint remove_last (d : Z) (l : list Z) : list Z :=
  match l with
  | [] => []
  | x :: l => if mem d l then x :: remove_last d l else if x =? d then l else x :: l
  end.

Definition s_step (o : s_op) (st : list Z) : q_res * list Z :=
  match o with
  | Push d => ((0, None), d :: st)
  | Pop => match st with [] => ((- ENOENT, None), []) | d :: st => ((0, Some d), st) end
  | SRemove d => if mem d st then ((0, None), remove_last d st) else ((- ENOENT, None), st)
  | SContains d => ((if mem d st then 0 else - ENOENT, None), st)
  | Size => ((Z.of_nat (length st), None), st)
  | SFlush => ((0, None), [])
  | SPeek top =>
      (if bad_whence top then (- EINVAL, None)
       else match (if top =? QUEUE_TAIL then st !! O else last st) with
            | None => (- ENOENT, None)
            | Some d => (0, Some d)
            end, st)
  end.

Inductive s_trace : list s_op -> list Z -> list q_res -> list Z -> Prop :=
  | s_trace_nil st : s_trace [] st [] st
  | s_trace_step o os st rs st' :
      s_trace os (s_step o st).2 rs st' -> s_trace (o :: os) st ((s_step o st).1 :: rs) st'
  | s_trace_oom d os st rs st' :
      s_trace os st rs st' -> s_trace (Push d :: os) st ((- ENOMEM, None) :: rs) st'.

Section Exec.
Context {KA : KAlloc}.

Definition s_exec (s : Z) (o : s_op) : K q_res :=
  match o with
  | Push d => let! r := stack_push s d in ret! (r, None)
  | Pop => stack_pop s true
  | SRemove d => let! r := stack_remove s d in ret! (r, None)
  | SContains d => let! r := stack_contains s d in ret! (r, None)
  | Size => let! n := stack_size s in ret! (n, None)
  | SFlush => let! r := stack_flush s in ret! (r, None)
  | SPeek top => stack_peek s top true
  end.

Fixpoint s_run (s : Z) (os : list s_op) : K (list q_res) :=
  match os with
  | [] => ret! []
  | o :: os => let! r := s_exec s o in let! rs := s_run s os in ret! (r :: rs)
  end.

(** The queue operation each stack operation performs under the queue's lock. *)
Definition s_queue_op (o : s_op) : q_op :=
  match o with
  | Push d => Enqueue d 0
  | Pop => DequeueTail
  | SRemove d => Remove d
  | SContains d => Contains d
  | Size => Length
  | SFlush => Flush
  | SPeek top => Peek top
  end.
End Exec.

(** ** List facts: the queue holds the stack upside down *)
Lemma mem_cons d x l : mem d (x :: l) = (x =? d) || mem d l.
Proof.
  unfold mem. destruct (Z.eqb_spec x d) as [->|]; simpl.
  - apply bool_decide_eq_true_2. set_solver.
  - apply bool_decide_ext. set_solver.
Qed.
Lemma mem_rev d l : mem d (rev l) = mem d l.
Proof. apply bool_decide_ext. by rewrite !list_elem_of_In, <- in_rev. Qed.

Lemma remove_first_snoc d l x :
  remove_first d (l ++ [x]) =
    if mem d l then remove_first d l ++ [x] else if x =? d then l else l ++ [x].
Proof.
  induction l as [|y l IH]; simpl; [done|]. rewrite mem_cons, IH.
  destruct (y =? d); simpl; [done|]. by repeat case_match.
Qed.

Lemma remove_last_rev d l : remove_first d (rev l) = rev (remove_last d l).
Proof.
  induction l as [|x l IH]; [done|]. simpl. rewrite remove_first_snoc, IH, mem_rev.
  by repeat case_match.
Qed.

Lemma last_rev (l : list Z) : last (rev l) = l !! O.
Proof. destruct l as [|x l]; [done|]. simpl. apply last_snoc. Qed.
Lemma rev_head (l : list Z) : rev l !! O = last l.
Proof. rewrite <- (rev_involutive l) at 2. by rewrite last_rev. Qed.

(** An abstract queue step, read upside down, is the stack step. *)
Lemma q_trans_stack o st r l' :
  q_trans (s_queue_op o) (rev st) r l' ->
  (r = (s_step o st).1 /\ l' = rev (s_step o st).2) \/
  (exists d, o = Push d /\ r = (- ENOMEM, None) /\ l' = rev st).
Proof.
  intros [|Hoom].
  - left. destruct o as [d| |d|d| | |top]; simpl; try done.
    + rewrite last_rev. destruct st as [|d st]; simpl; [done|]. by rewrite removelast_last.
    + rewrite mem_rev, remove_last_rev. by case_match.
    + by rewrite mem_rev.
    + by rewrite length_rev.
    + by rewrite last_rev, rev_head.
  - destruct o; try done. right. eauto.
Qed.

(** ** Taking the queue's lock around one queue operation *)
Lemma wp_queue_lock m s ql l (Q : unit -> kmem -> Prop) :
  queue_rep m s ql l -> locked ql = false ->
  (forall ql', holding (k_who m) ql' = true ->
     Q tt (h_set (<[s := mkQueue (hd_addr l 0) (last_addr l 0) (Z.of_nat (length l)) ql']> (queues m)) m)) ->
  wp (queue_lock s) Q m.
Proof. intros (H0 & Hq & _) Hl HQ. eapply wp_obj_lock; [done|exact Hq|done|]. intros. by apply HQ. Qed.

Lemma stack_own_frame m m' s l :
  queue_frame s l m m' -> forall l', (exists ql, locked ql = false /\ queue_rep m' s ql l') ->
  stack_own m s l -> stack_own m' s l'.
Proof.
  intros Hf l' Hq [(x & (H0 & Hx & Hh) & He) _]. split; [|done]. exists x. split; [|done].
  pose proof (qf_erase _ _ _ _ Hf) as Herase. apply (f_equal (h_get (T:=stack_t))) in Herase.
  change (stacks m' = stacks m) in Herase.
  split_and!; [done|by rewrite Herase|]. by rewrite (queue_frame_who _ _ _ _ Hf).
Qed.

Lemma queue_rep_relock m s ql l ql' :
  queue_rep m s ql l ->
  queue_rep (h_set (<[s := mkQueue (hd_addr l 0) (last_addr l 0) (Z.of_nat (length l)) ql']> (queues m)) m) s ql' l.
Proof. intros (H0 & Hq & Hs & Hok). split_and!; ksimpl; first [done | by simplify_map_eq]. Qed.

Lemma queue_frame_lock m s l x : queue_frame s l m (h_set (<[s := x]> (queues m)) m).
Proof. split; ksimpl; [done| |done]. intros q' Hne. by rewrite lookup_insert_ne. Qed.

(** Releasing leaves the queue unlocked. *)
Lemma wp_queue_unlock_rep m s l :
  queue_own m s l ->
  wp (queue_unlock s) (fun _ m' => queue_frame s l m m' /\ qnodes m' = qnodes m /\
    exists ql, locked ql = false /\ queue_rep m' s ql l) m.
Proof.
  intros (lk & Hh & Hr). pose proof Hr as (H0 & Hq & _).
  eapply wp_obj_unlock; [by split_and!|]. intros lk' Hl.
  split_and!; [apply queue_frame_lock|by ksimpl|]. exists lk'. split; [done|]. by eapply queue_rep_relock.
Qed.

Section Simulation.
Context {KA : KAlloc}.

Definition s_simulates (m : kmem) (s : Z) (l : list (Z * Z)) (o : s_op) (r : q_res) (m' : kmem) : Prop :=
  exists l', stack_own m' s l' /\ q_trans (s_queue_op o) l.*2 r l'.*2 /\ queue_frame s l m m' /\
    (forall p x, p ∉ addrs l -> qnodes m !! p = Some x -> p ∉ addrs l').

Lemma wp_locked_queue {A B} m s l o (op : K A) (f : A -> q_res) (g : A -> B) (h : B -> q_res) :
  stack_own m s l ->
  (forall m1, queue_own m1 s l -> wp op (fun r => q_simulates m1 s l (s_queue_op o) (f r)) m1) ->
  (forall r, h (g r) = f r) ->
  wp (do! queue_lock s in let! r := op in do! queue_unlock s in ret! (g r)) (fun b =>
    s_simulates m s l o (h b)) m.
Proof.
  intros Hown Hop Hh. pose proof Hown as [_ (ql & Hl & Hrep)].
  apply wp_bind. eapply wp_queue_lock; [done..|]. intros ql1 Hh1.
  assert (queue_own (h_set (<[s := mkQueue (hd_addr l 0) (last_addr l 0) (Z.of_nat (length l)) ql1]> (queues m)) m) s l)
    as Hown1 by (exists ql1; split; [by ksimpl|by eapply queue_rep_relock]).
  apply wp_bind. eapply wp_mono; [by apply Hop|].
  intros r m2 (l' & Hown2 & Ht & _ & Hf & Hin). apply wp_bind.
  eapply wp_mono; [by apply wp_queue_unlock_rep|]. intros _ m3 (Hf3 & Hn3 & Hq3). apply wp_ret.
  rewrite Hh. assert (queue_frame s l m m3) as Hfr.
  { eapply queue_frame_trans; [|apply queue_frame_lock|].
    { intros p x Hp _. exact Hp. }
    eapply (queue_frame_trans s l l'); [|done..]. intros p x Hp Hx. by eapply Hin. }
  exists l'. split_and!; try done.
  by eapply stack_own_frame.
Qed.

Ltac stack_prologue H :=
  let x := fresh "x" in let Hx := fresh "Hx" in
  pose proof H as [(x & Hx & _) _]; pose proof Hx as (? & _ & _);
  unfold is_null; rewrite ?(proj2 (Z.eqb_neq _ _)) by done; simpl;
  apply wp_bind; eapply wp_obj_assert_locked; [exact Hx|].

Lemma s_exec_simulates m s l o :
  stack_own m s l -> wp (s_exec s o) (s_simulates m s l o) m.
Proof.
  intros Hown. destruct o as [d| |d|d| | |top]; simpl; try apply wp_bind.
  - unfold stack_push. stack_prologue Hown.
    eapply (wp_locked_queue _ _ _ (Push d) _ (fun r => (r.1, None)) _ (fun b => (b, None))); [done| |done].
    intros m1 Hown1. pose proof (q_exec_enqueue m1 s l d 0 Hown1) as Hw. simpl in Hw.
    apply wp_bind_ret in Hw. eapply wp_eq; [|exact Hw]. symmetry. unfold enqueue_whence.
    by rewrite (M_bind_done _ _ _ _ _ (queue_assert_locked_eq _ _ _ Hown1)).
  - unfold stack_pop. stack_prologue Hown.
    eapply (wp_locked_queue _ _ _ Pop _ id _ id); [done| |done].
    intros m1 Hown1. pose proof (q_exec_dequeue_tail m1 s l Hown1) as Hw. simpl in Hw.
    eapply wp_eq; [|exact Hw]. symmetry. unfold dequeue_whence.
    by rewrite (M_bind_done _ _ _ _ _ (queue_assert_locked_eq _ _ _ Hown1)).
  - unfold stack_remove. stack_prologue Hown.
    eapply (wp_locked_queue _ _ _ (SRemove d) _ (fun r => (r, None)) _ (fun b => (b, None))); [done| |done].
    intros m1 Hown1. apply (wp_bind_ret _ (fun r => (r, None))). by apply q_exec_remove.
  - unfold stack_contains. stack_prologue Hown.
    eapply (wp_locked_queue _ _ _ (SContains d) _ (fun r => (r.1, None)) _ (fun b => (b, None))); [done| |done].
    intros m1 Hown1. apply (wp_bind_ret _ (fun r : Z * option Z => (r.1, None))).
    by apply (q_exec_simulates m1 s l (Contains d)).
  - unfold stack_size. stack_prologue Hown.
    eapply (wp_locked_queue _ _ _ Size _ (fun r => (r, None)) _ (fun b => (b, None))); [done| |done].
    intros m1 Hown1. apply (wp_bind_ret _ (fun r => (r, None))). by apply (q_exec_simulates m1 s l Length).
  - unfold stack_flush. stack_prologue Hown.
    eapply (wp_locked_queue _ _ _ SFlush _ (fun _ => (0, None)) _ (fun b => (b, None))); [done| |done].
    intros m1 Hown1. apply (wp_bind_ret _ (fun _ => (0, None))). by apply (q_exec_simulates m1 s l Flush).
  - unfold stack_peek. stack_prologue Hown.
    eapply (wp_locked_queue _ _ _ (SPeek top) _ id _ id); [done| |done].
    intros m1 Hown1. by apply (q_exec_simulates m1 s l (Peek top)).
Qed.

Lemma s_run_simulates m s l os st :
  stack_own m s l -> l.*2 = rev st ->
  wp (s_run s os) (fun rs m' => exists l' st', stack_own m' s l' /\ l'.*2 = rev st' /\
    s_trace os st rs st' /\ queue_frame s l m m') m.
Proof.
  revert m l st. induction os as [|o os IH]; intros m l st Hown Hl; simpl.
  { apply wp_ret. exists l, st. split_and!; [done..|constructor|done]. }
  apply wp_bind. eapply wp_mono; [by apply s_exec_simulates|].
  intros r m1 (l1 & Hown1 & Ht & Hf & Hin). rewrite Hl in Ht. apply wp_bind.
  assert (forall st1, l1.*2 = rev st1 ->
    (forall rs st2, s_trace os st1 rs st2 -> s_trace (o :: os) st (r :: rs) st2) ->
    wp (s_run s os) (fun rs => wp (ret! r :: rs) (fun rs m' => exists l' st', stack_own m' s l' /\
      l'.*2 = rev st' /\ s_trace (o :: os) st rs st' /\ queue_frame s l m m')) m1) as Hgo.
  { intros st1 Hst1 Htr. eapply wp_mono; [by apply IH|].
    intros rs m2 (l2 & st2 & Hown2 & Hl2 & Htr2 & Hf2). apply wp_ret. exists l2, st2.
    split_and!; try done; [by apply Htr|]. by eapply queue_frame_trans. }
  apply q_trans_stack in Ht as [[-> Heq]|(d & -> & -> & Heq)].
  - apply (Hgo _ Heq). intros. by constructor.
  - apply (Hgo _ Heq). intros. by constructor.
Qed.
End Simulation.

(** ** Properties *)


Definition sample_stack : kmem :=
  h_set {[100 := mkStack held_lock]}
    (h_set (T:=queue_t) {[100 := mkQueue 110 110 1 free_lock]}
      (h_set (T:=queue_node_t) {[110 := mkQnode 0 5 0]} idle)).

