(* ===== verification/RingBuf.v ===== *)
(** * Ring buffers (ds/ringbuf.c, ds/ringbuf.h)

    The buffer is an array of bytes; [head] and [tail] are free-running 64-bit
    counters reduced modulo [size] at each access. *)
From S2P Require Import Prelude Errno Spinlock KMem Queue Sample.

Definition set_rhead (x : Z) (r : ringbuf_t) :=
  mkRing (r_buf r) (r_size r) x (r_tail r) (r_count r) (r_lock r).
Definition set_rtail (x : Z) (r : ringbuf_t) :=
  mkRing (r_buf r) (r_size r) (r_head r) x (r_count r) (r_lock r).
Definition add_rcount (k : Z) (r : ringbuf_t) :=
  mkRing (r_buf r) (r_size r) (r_head r) (r_tail r) (u64 (r_count r + k)) (r_lock r).

Definition ringbuf_assert_locked (ring : Z) : K unit := obj_assert_locked (T:=ringbuf_t) ring.

(** [RINGBUF_INDEX]: the modulus by a zero [size] is a division error. *)
Definition RINGBUF_INDEX (r : ringbuf_t) (i : Z) : K Z :=
  if r_size r =? 0 then M_fault else ret! (i mod r_size r).

Definition ringbuf_isempty (ring : Z) : K bool :=
  do! ringbuf_assert_locked ring in
  let! r := load ring in ret! (r_count r =? 0).

Definition ringbuf_isfull (ring : Z) : K bool :=
  do! ringbuf_assert_locked ring in
  let! r := load ring in ret! (r_count r =? r_size r).

(** [while (n)]: [i] is how far [buf] has advanced.  The result is the final [n]. *)
Fixpoint ringbuf_read_loop (n : nat) (ring buf i : Z) : K Z :=
  match n with
  | O => ret! 0
  | S n' =>
      let! e := ringbuf_isempty ring in
      if e then ret! (Z.of_nat n) else
      let! r := load ring in
      do! modify ring (set_rhead (u64 (r_head r + 1))) in
      let! k := RINGBUF_INDEX r (r_head r) in
      let! c := arr_get (r_buf r) k in
      do! arr_set buf i c in
      do! modify ring (add_rcount (-1)) in
      ringbuf_read_loop n' ring buf (i + 1)
  end.

Definition ringbuf_read (ring buf n : Z) : K Z :=
  do! ringbuf_assert_locked ring in
  do! M_assert (negb (is_null buf)) in
  let! rest := ringbuf_read_loop (Z.to_nat n) ring buf 0 in
  ret! (n - rest).

Fixpoint ringbuf_write_loop (n : nat) (ring buf i : Z) : K Z :=
  match n with
  | O => ret! 0
  | S n' =>
      let! f := ringbuf_isfull ring in
      if f then ret! (Z.of_nat n) else
      let! r := load ring in
      do! modify ring (set_rtail (u64 (r_tail r + 1))) in
      let! k := RINGBUF_INDEX r (r_tail r) in
      let! c := arr_get buf i in
      do! arr_set (r_buf r) k c in
      do! modify ring (add_rcount 1) in
      ringbuf_write_loop n' ring buf (i + 1)
  end.

Definition ringbuf_write (ring buf n : Z) : K Z :=
  do! ringbuf_assert_locked ring in
  do! M_assert (negb (is_null buf)) in
  let! rest := ringbuf_write_loop (Z.to_nat n) ring buf 0 in
  ret! (n - rest).

Definition ringbuf_available (ring : Z) : K Z :=
  do! ringbuf_assert_locked ring in
  let! r := load ring in
  if r_head r <=? r_tail r then ret! (u64 (r_tail r - r_head r))
  else ret! (u64 (r_tail r + r_size r - r_head r)).

Definition ringbuf_free_buffer (ring : Z) : K unit :=
  do! M_assert (negb (is_null ring)) in
  let! r := load ring in
  if is_null (r_buf r) then ret! tt else
  do! kfree (T:=list Z) (r_buf r) in
  do! modify ring (set_rhead 0) in
  do! modify ring (fun r => mkRing (r_buf r) 0 (r_head r) (r_tail r) (r_count r) (r_lock r)) in
  do! modify ring (set_rtail 0) in
  do! modify ring (fun r => mkRing (r_buf r) (r_size r) (r_head r) (r_tail r) 0 (r_lock r)) in
  modify ring (fun r => mkRing 0 (r_size r) (r_head r) (r_tail r) (r_count r) (r_lock r)).

Definition ringbuf_free (ring : Z) : K unit :=
  do! M_assert (negb (is_null ring)) in
  let! r := load ring in
  do! kfree (T:=list Z) (r_buf r) in
  kfree (T:=ringbuf_t) ring.

Section Alloc.
Context {KA : KAlloc}.

Definition ringbuf_init (size ring : Z) : K Z :=
  if is_null ring then ret! (- EINVAL) else
  let! buf := kmalloc_bytes (u64 size) in
  if is_null buf then
    do! kfree (T:=ringbuf_t) ring in ret! (- ENOMEM)
  else
    do! store ring (mkRing buf (u64 size) 0 0 0 SPINLOCK_INIT) in
    ret! 0.

Definition ringbuf_new (size : Z) (rref : bool) : K (Z * option Z) :=
  do! M_assert rref in
  let! ring := kalloc (mkRing 0 0 0 0 0 SPINLOCK_INIT) in
  if is_null ring then ret! (- ENOMEM, None) else
  let! err := ringbuf_init size ring in
  if negb (err =? 0) then
    do! M_when (negb (is_null ring)) (kfree (T:=ringbuf_t) ring) in
    ret! (err, None)
  else ret! (0, Some ring).
End Alloc.

(** * The ring buffer is a bounded FIFO of bytes

    The content of a ring, what reading and writing do to it, and its
    properties. *)
Notation rings m := (h_get (T:=ringbuf_t) m) (only parsing).
Notation arrays m := (h_get (T:=list Z) m) (only parsing).

(** ** Representation *)

(** [bs] holds [data], oldest first, from position [head] on, modulo its length. *)
Definition window (bs : list Z) (head : Z) (data : list Z) : Prop :=
  forall i v, data !! i = Some v -> bs !! Z.to_nat ((head + Z.of_nat i) mod Z.of_nat (length bs)) = Some v.

Record ring_own (m : kmem) (ring buf size head : Z) (data : list Z) : Prop := {
  ro_lock : spinlock_t;
  ro_bs : list Z;
  ro_null : ring <> 0;
  ro_ring : rings m !! ring = Some (mkRing buf size head (head + Z.of_nat (length data)) (Z.of_nat (length data)) ro_lock);
  ro_held : holding (k_who m) ro_lock = true;
  ro_buf : arrays m !! buf = Some ro_bs;
  ro_size : size = Z.of_nat (length ro_bs) /\ 0 < size;
  ro_fits : Z.of_nat (length data) <= size;
  ro_head : 0 <= head /\ head + Z.of_nat (length data) < two64;
  ro_window : window ro_bs head data
}.

(** What reading from or writing to a ring may change: the ring object, its
    buffer, and the array [dst] the bytes go to. *)
Definition r_erase (m : kmem) : kmem := h_set (T:=ringbuf_t) ∅ (h_set (T:=list Z) ∅ m).
Record ring_frame (ring buf dst : Z) (m m' : kmem) : Prop := {
  rf_erase : r_erase m' = r_erase m;
  rf_rings : forall r, r <> ring -> rings m' !! r = rings m !! r;
  rf_arrays : forall a, a <> buf -> a <> dst -> arrays m' !! a = arrays m !! a
}.

Lemma ring_frame_refl ring buf dst m : ring_frame ring buf dst m m.
Proof. done. Qed.
Lemma ring_frame_trans ring buf dst m1 m2 m3 :
  ring_frame ring buf dst m1 m2 -> ring_frame ring buf dst m2 m3 -> ring_frame ring buf dst m1 m3.
Proof.
  intros [He1 Hr1 Ha1] [He2 Hr2 Ha2]. split; [by rewrite He2|..].
  - intros. by rewrite Hr2, Hr1.
  - intros. by rewrite Ha2, Ha1.
Qed.

(** ** Windows *)
Lemma mod_window a s i j : 0 <= i < j -> j - i < s -> (a + i) mod s <> (a + j) mod s.
Proof.
  intros Hij Hs Heq. assert ((a + j - (a + i)) mod s = 0) as H0.
  { rewrite Zminus_mod, Heq, Z.sub_diag. apply Z.mod_0_l. lia. }
  rewrite Z.mod_small in H0; lia.
Qed.

Lemma window_drop bs head d data : window bs head (d :: data) -> window bs (head + 1) data.
Proof.
  intros Hw i v Hi. specialize (Hw (S i) v Hi).
  by replace (head + 1 + Z.of_nat i) with (head + Z.of_nat (S i)) by lia.
Qed.

Lemma window_snoc bs head data c :
  (length data < length bs)%nat -> window bs head data ->
  window (<[Z.to_nat ((head + Z.of_nat (length data)) mod Z.of_nat (length bs)) := c]> bs) head (data ++ [c]).
Proof.
  intros Hlen Hw i v Hi. rewrite length_insert.
  pose proof (Z.mod_pos_bound (head + Z.of_nat (length data)) (Z.of_nat (length bs))) as Hb.
  destruct (decide (i < length data)%nat) as [Hlt|Hge].
  - rewrite lookup_app_l in Hi by done.
    pose proof (mod_window head (Z.of_nat (length bs)) (Z.of_nat i) (Z.of_nat (length data))) as Hne.
    pose proof (Z.mod_pos_bound (head + Z.of_nat i) (Z.of_nat (length bs))) as Hbi.
    rewrite list_lookup_insert_ne by lia. by apply Hw.
  - rewrite lookup_app_r in Hi by lia. apply list_lookup_singleton_Some in Hi as [Hi <-].
    replace i with (length data) by lia. apply list_lookup_insert_eq. lia.
Qed.

(** ** Loading *)
Lemma wp_ringbuf_assert_locked m ring buf size head data (Q : unit -> kmem -> Prop) :
  ring_own m ring buf size head data -> Q tt m -> wp (ringbuf_assert_locked ring) Q m.
Proof. intros [lk bs H0 Hr Hh _ _ _ _ _] HQ. eapply wp_obj_assert_locked; [|done]. by split_and!. Qed.

(** One byte out. *)
Lemma ring_own_pop m ring buf size head d data m' h :
  ring_own m ring buf size head (d :: data) ->
  rings m' = <[ring := mkRing buf size (head + 1) (head + 1 + Z.of_nat (length data)) (Z.of_nat (length data)) h]> (rings m) ->
  holding (k_who m') h = true -> arrays m' !! buf = arrays m !! buf ->
  ring_own m' ring buf size (head + 1) data.
Proof.
  intros [lk bs H0 Hr Hh Hb Hs Hf Hhd Hw] Hr' Hh' Hb'. rewrite length_cons in *.
  exists h bs; try done; [by rewrite Hr'; simplify_map_eq|by rewrite Hb'|lia|lia|by eapply window_drop].
Qed.

(** One byte in. *)
Lemma ring_own_push m ring buf size head data c m' h bs :
  ring_own m ring buf size head data -> Z.of_nat (length data) < size ->
  head + Z.of_nat (length data) + 1 < two64 -> arrays m !! buf = Some bs ->
  rings m' = <[ring := mkRing buf size head (head + Z.of_nat (length data) + 1) (Z.of_nat (length data) + 1) h]> (rings m) ->
  holding (k_who m') h = true ->
  arrays m' !! buf = Some (<[Z.to_nat ((head + Z.of_nat (length data)) mod size) := c]> bs) ->
  ring_own m' ring buf size head (data ++ [c]).
Proof.
  intros [lk bs0 H0 Hr Hh Hb [Hs Hs0] Hf Hhd Hw] Hlt Hlast Hbs Hr' Hh' Hb'. simplify_eq.
  eexists h _; [done|..|exact Hb'| | | |]; rewrite ?length_insert, ?length_app; simpl; try lia; [|done|..].
  - rewrite Hr', lookup_insert_eq. do 2 f_equal; lia.
  - apply window_snoc; [lia|done].
Qed.

(** ** Reading *)
Lemma ringbuf_read_loop_spec n m ring buf size head data dst out i :
  ring_own m ring buf size head data -> arrays m !! dst = Some out -> dst <> buf ->
  (i + n <= length out)%nat ->
  let k := (n `min` length data)%nat in
  wp (ringbuf_read_loop n ring dst (Z.of_nat i)) (fun rest m' =>
    rest = Z.of_nat (n - k) /\ ring_own m' ring buf size (head + Z.of_nat k) (drop k data) /\
    arrays m' !! dst = Some (take i out ++ take k data ++ drop (i + k) out) /\
    ring_frame ring buf dst m m') m.
Proof.
  revert m head data out i. induction n as [|n IH]; intros m head data out i Hown Hout Hne Hi; simpl.
  { apply wp_ret. rewrite Nat.add_0_r, Z.add_0_r. simpl. by rewrite take_drop. }
  unfold ringbuf_isempty. apply wp_bind, wp_bind. eapply wp_ringbuf_assert_locked; [exact Hown|].
  pose proof Hown as [lk bs H0 Hr Hh Hb [Hs Hs0] Hf Hhd Hw].
  apply wp_bind. eapply wp_load; [exact Hr|]. apply wp_ret. simpl.
  destruct data as [|d data]; simpl.
  { apply wp_ret. rewrite Nat.add_0_r, Z.add_0_r. by rewrite take_drop. }
  simpl in Hr, Hf, Hhd. apply wp_bind. eapply wp_load; [exact Hr|].
  apply wp_bind. eapply wp_modify; [exact Hr|]. unfold set_rhead; simpl.
  apply wp_bind. unfold RINGBUF_INDEX; simpl. destruct (Z.eqb_spec size 0); [lia|]. apply wp_ret.
  apply wp_bind. eapply (wp_arr_get buf bs _ d); [by ksimpl|apply Z.mod_pos_bound; lia| |].
  { specialize (Hw O d eq_refl). rewrite Z.add_0_r in Hw. by rewrite Hs. }
  apply wp_bind. eapply wp_arr_set; [ksimpl; exact Hout|lia|].
  apply wp_bind. eapply wp_modify; [ksimpl; apply lookup_insert_eq|].
  ksimpl. rewrite insert_insert_eq. unfold add_rcount; simpl.
  rewrite !u64_small by (unfold is_u64; lia). rewrite Nat2Z.id.
  replace (Z.of_nat i + 1) with (Z.of_nat (S i)) by lia.
  eapply wp_mono; [eapply (IH _ (head + 1) data (<[i := d]> out) (S i))|].
  - eapply (ring_own_pop _ _ _ _ _ _ _ _ lk); [exact Hown|ksimpl; f_equal|by ksimpl|].
    + f_equal; lia.
    + ksimpl. by rewrite lookup_insert_ne.
  - ksimpl. apply lookup_insert_eq.
  - done.
  - rewrite length_insert. lia.
  - intros rest m' (-> & Hown' & Hout' & Hfr). split_and!.
    + lia.
    + by replace (head + Z.of_nat (S _)) with (head + 1 + Z.of_nat (n `min` length data)) by lia.
    + rewrite Hout'. f_equal. rewrite (take_S_r _ _ d) by (apply list_lookup_insert_eq; lia).
      rewrite take_insert_ge by lia. rewrite drop_insert_lt by lia. rewrite <- app_assoc.
      simpl. by rewrite Nat.add_succ_r.
    + eapply ring_frame_trans; [|exact Hfr]. split; ksimpl; [done|..]; intros; by rewrite lookup_insert_ne.
Qed.

Lemma ringbuf_read_spec m ring buf size head data dst out n :
  ring_own m ring buf size head data -> arrays m !! dst = Some out -> dst <> buf -> dst <> 0 ->
  0 <= n <= Z.of_nat (length out) ->
  let k := (Z.to_nat n `min` length data)%nat in
  wp (ringbuf_read ring dst n) (fun r m' =>
    r = Z.of_nat k /\ ring_own m' ring buf size (head + Z.of_nat k) (drop k data) /\
    arrays m' !! dst = Some (take k data ++ drop k out) /\ ring_frame ring buf dst m m') m.
Proof.
  intros Hown Hout Hne H0 Hn. unfold ringbuf_read. apply wp_bind.
  eapply wp_ringbuf_assert_locked; [exact Hown|]. apply wp_bind, wp_assert.
  { by apply negb_true_iff, Z.eqb_neq. }
  apply wp_bind. eapply wp_mono; [apply (ringbuf_read_loop_spec _ _ _ _ _ _ _ _ _ O Hown Hout Hne); lia|].
  intros rest m' (-> & Hown' & Hout' & Hfr). apply wp_ret. split_and!; try done. lia.
Qed.

(** ** Writing *)
Lemma ringbuf_write_loop_spec n m ring buf size head data src inp i :
  ring_own m ring buf size head data -> arrays m !! src = Some inp -> src <> buf ->
  (i + n <= length inp)%nat -> head + Z.of_nat (length data) + Z.of_nat n < two64 ->
  let k := (n `min` (Z.to_nat size - length data))%nat in
  wp (ringbuf_write_loop n ring src (Z.of_nat i)) (fun rest m' =>
    rest = Z.of_nat (n - k) /\ ring_own m' ring buf size head (data ++ take k (drop i inp)) /\
    ring_frame ring buf buf m m') m.
Proof.
  revert m data i. induction n as [|n IH]; intros m data i Hown Hinp Hne Hi Hlast; simpl.
  { apply wp_ret. by rewrite app_nil_r. }
  unfold ringbuf_isfull. apply wp_bind, wp_bind. eapply wp_ringbuf_assert_locked; [exact Hown|].
  pose proof Hown as [lk bs H0 Hr Hh Hb [Hs Hs0] Hf Hhd Hw].
  apply wp_bind. eapply wp_load; [exact Hr|]. apply wp_ret. simpl.
  destruct (Z.eqb_spec (Z.of_nat (length data)) size) as [Hfull|Hnf].
  { apply wp_ret. replace (Z.to_nat size - length data)%nat with O by lia. simpl.
    by rewrite app_nil_r. }
  destruct (lookup_lt_is_Some_2 inp i) as [c Hc]; [lia|].
  apply wp_bind. eapply wp_load; [exact Hr|].
  apply wp_bind. eapply wp_modify; [exact Hr|]. unfold set_rtail; simpl.
  apply wp_bind. unfold RINGBUF_INDEX; simpl. destruct (Z.eqb_spec size 0); [lia|]. apply wp_ret.
  apply wp_bind. eapply (wp_arr_get src inp _ c); [by ksimpl|lia|by rewrite Nat2Z.id|].
  pose proof (Z.mod_pos_bound (head + Z.of_nat (length data)) size) as Hmod.
  apply wp_bind. eapply wp_arr_set; [ksimpl; exact Hb|lia|].
  apply wp_bind. eapply wp_modify; [ksimpl; apply lookup_insert_eq|].
  ksimpl. rewrite insert_insert_eq. unfold add_rcount; simpl.
  rewrite !u64_small by (unfold is_u64; lia).
  replace (Z.of_nat i + 1) with (Z.of_nat (S i)) by lia.
  eapply wp_mono; [eapply (IH _ (data ++ [c]) (S i))|].
  - eapply (ring_own_push m ring buf size head data c _ lk bs); try done; try lia; ksimpl; first [done|apply lookup_insert_eq].
  - ksimpl. by rewrite lookup_insert_ne.
  - done.
  - lia.
  - rewrite length_app. simpl. lia.
  - intros rest m' (-> & Hown' & Hfr).
    rewrite length_app in *. simpl in *.
    replace (Z.to_nat size - length data)%nat with (S (Z.to_nat size - (length data + 1))) by lia.
    simpl. split_and!; [lia| |].
    + rewrite (drop_S inp c) by done. simpl. by rewrite <- app_assoc in Hown'.
    + eapply ring_frame_trans; [|exact Hfr]. split; ksimpl; [done|..]; intros; by rewrite lookup_insert_ne.
Qed.

Lemma ringbuf_write_spec m ring buf size head data src inp n :
  ring_own m ring buf size head data -> arrays m !! src = Some inp -> src <> buf -> src <> 0 ->
  0 <= n <= Z.of_nat (length inp) -> head + Z.of_nat (length data) + n < two64 ->
  let k := (Z.to_nat n `min` (Z.to_nat size - length data))%nat in
  wp (ringbuf_write ring src n) (fun r m' =>
    r = Z.of_nat k /\ ring_own m' ring buf size head (data ++ take k inp) /\
    ring_frame ring buf buf m m') m.
Proof.
  intros Hown Hinp Hne H0 Hn Hlast. unfold ringbuf_write. apply wp_bind.
  eapply wp_ringbuf_assert_locked; [exact Hown|]. apply wp_bind, wp_assert.
  { by apply negb_true_iff, Z.eqb_neq. }
  apply wp_bind. eapply wp_mono; [apply (ringbuf_write_loop_spec _ _ _ _ _ _ _ _ _ O Hown Hinp Hne); lia|].
  intros rest m' (-> & Hown' & Hfr). apply wp_ret. split_and!; try done. lia.
Qed.

Lemma ringbuf_available_spec m ring buf size head data :
  ring_own m ring buf size head data ->
  wp (ringbuf_available ring) (fun r m' => r = Z.of_nat (length data) /\ m' = m) m.
Proof.
  intros Hown. unfold ringbuf_available. apply wp_bind. eapply wp_ringbuf_assert_locked; [exact Hown|].
  pose proof Hown as [lk bs H0 Hr Hh Hb _ _ Hhd _]. apply wp_bind. eapply wp_load; [exact Hr|]. simpl.
  destruct (Z.leb_spec head (head + Z.of_nat (length data))); [|lia]. apply wp_ret. split; [|done].
  rewrite u64_small; unfold is_u64; lia.
Qed.

(** ** Streams: any interleaving of writes and reads *)
Inductive r_op := RWrite (src n : Z) | RRead (dst n : Z).
Definition op_array (o : r_op) : Z := match o with RWrite a _ | RRead a _ => a end.
Definition op_len (o : r_op) : Z := match o with RWrite _ n | RRead _ n => n end.

(** The bytes an operation put into the ring, and those it took out. *)
Definition r_exec (ring : Z) (o : r_op) : K (list Z * list Z) :=
  match o with
  | RWrite src n =>
      let! inp := load src in
      let! k := ringbuf_write ring src n in
      ret! (take (Z.to_nat k) inp, [])
  | RRead dst n =>
      let! k := ringbuf_read ring dst n in
      let! out := load dst in
      ret! ([], take (Z.to_nat k) out)
  end.

Fixpoint r_run (ring : Z) (os : list r_op) : K (list Z * list Z) :=
  match os with
  | [] => ret! ([], [])
  | o :: os =>
      let! r := r_exec ring o in
      let! rs := r_run ring os in
      ret! (r.1 ++ rs.1, r.2 ++ rs.2)
  end.

(** The caller's array covers the request and is not the ring's own buffer. *)
Definition op_ok (m : kmem) (buf : Z) (o : r_op) : Prop :=
  exists a, arrays m !! op_array o = Some a /\ 0 <= op_len o <= Z.of_nat (length a) /\
    op_array o <> buf /\ op_array o <> 0.

Lemma op_ok_mono m m' buf o :
  (forall a l, a <> buf -> arrays m !! a = Some l -> exists l', arrays m' !! a = Some l' /\ length l' = length l) ->
  op_ok m buf o -> op_ok m' buf o.
Proof.
  intros Hm (a & Ha & Hlen & Hne & H0). destruct (Hm _ _ Hne Ha) as (l' & Hl' & Heq).
  exists l'. rewrite Heq. auto.
Qed.

Lemma r_exec_spec m ring buf size head data o :
  ring_own m ring buf size head data -> op_ok m buf o ->
  head + Z.of_nat (length data) + op_len o < two64 ->
  wp (r_exec ring o) (fun r m' => exists head' data',
    ring_own m' ring buf size head' data' /\ r.2 ++ data' = data ++ r.1 /\
    head' + Z.of_nat (length data') <= head + Z.of_nat (length data) + op_len o /\
    (forall a l, a <> buf -> arrays m !! a = Some l ->
       exists l', arrays m' !! a = Some l' /\ length l' = length l)) m.
Proof.
  intros Hown (a & Ha & Hlen & Hne & H0) Hlast. destruct o as [src n|dst n]; simpl in *.
  - apply wp_bind. eapply wp_load; [exact Ha|]. apply wp_bind.
    eapply wp_mono; [by eapply ringbuf_write_spec|]. intros r m' (-> & Hown' & Hfr). apply wp_ret.
    eexists head, _. split; [done|]. rewrite Nat2Z.id. simpl. split_and!; [done| |].
    + rewrite length_app, length_take. lia.
    + intros x l Hx Hl. exists l. split; [|done]. by rewrite (rf_arrays _ _ _ _ _ Hfr).
  - apply wp_bind. eapply wp_mono; [by eapply ringbuf_read_spec|].
    intros r m' (-> & Hown' & Hout & Hfr). apply wp_bind. eapply wp_load; [exact Hout|]. apply wp_ret.
    eexists _, _. split; [exact Hown'|]. rewrite Nat2Z.id. simpl. rewrite app_nil_r.
    assert (length (take (Z.to_nat n `min` length data) data) = (Z.to_nat n `min` length data)%nat) as Hl
      by (rewrite length_take; lia).
    split_and!.
    + rewrite <- Hl at 1. rewrite take_app_length. apply take_drop.
    + rewrite length_drop. lia.
    + intros x l Hx Hxl. destruct (decide (x = dst)) as [->|].
      * rewrite Ha in Hxl. injection Hxl as <-. eexists. split; [exact Hout|].
        rewrite length_app, Hl, length_drop. lia.
      * exists l. by rewrite (rf_arrays _ _ _ _ _ Hfr).
Qed.

(** ** Properties *)

(** C17: The ring buffer is a FIFO of bytes: over any interleaving of reads and
    writes (each within its caller's buffer, and fewer than 2^64 bytes in all),
    every call returns, no byte is lost, duplicated or reordered: what was read,
    followed by what is still buffered, is what was buffered at first followed by
    what the writes accepted. *)
Theorem ringbuf_is_fifo os m ring buf size head data :
  ring_own m ring buf size head data -> Forall (op_ok m buf) os ->
  head + Z.of_nat (length data) + foldr Z.add 0 (map op_len os) < two64 ->
  wp (r_run ring os) (fun r m' => exists head' data',
    ring_own m' ring buf size head' data' /\ r.2 ++ data' = data ++ r.1) m.
Proof.
  revert m head data. induction os as [|o os IH]; intros m head data Hown Hok Hlast; simpl in *.
  { apply wp_ret. exists head, data. split; [done|]. simpl. by rewrite app_nil_r. }
  apply Forall_cons in Hok as [Ho Hok].
  assert (forall os, Forall (op_ok m buf) os -> 0 <= foldr Z.add 0 (map op_len os)) as Hpos.
  { clear. induction 1 as [|o os (? & _ & ? & _) _ IH]; simpl; lia. }
  specialize (Hpos os Hok). apply wp_bind. eapply wp_mono; [apply (r_exec_spec _ _ _ _ _ _ _ Hown Ho); lia|].
  intros r m1 (head1 & data1 & Hown1 & Heq1 & Hle & Harr). apply wp_bind.
  eapply wp_mono; [apply (IH m1 head1 data1 Hown1)|].
  - eapply Forall_impl; [exact Hok|]. intros o'. by apply op_ok_mono.
  - lia.
  - intros rs m2 (head2 & data2 & Hown2 & Heq2). apply wp_ret. exists head2, data2. split; [done|].
    simpl. rewrite <- app_assoc, Heq2, app_assoc, Heq1. by rewrite app_assoc.
Qed.

(** A ring of four bytes that holds two, across the end of its buffer. *)
Definition sample_ring : kmem :=
  h_set {[100 := mkRing 110 4 3 5 2 held_lock]}
    (h_set (<[110 := [8; 0; 0; 7]]> (<[120 := [1; 2; 3]]> {[130 := [0; 0; 0; 0]]})) idle).

Lemma sample_ring_own : ring_own sample_ring 100 110 4 3 [7; 8].
Proof.
  exists held_lock [8; 0; 0; 7]; try done.
  intros [|[|i]] v; simpl; try done; by intros [= <-].
Qed.

Lemma ringbuf_is_fifo_witness :
  wp (r_run 100 [RWrite 120 3; RRead 130 4; RRead 130 4]) (fun r m' => exists head' data',
    ring_own m' 100 110 4 head' data' /\ r.2 ++ data' = [7; 8] ++ r.1) sample_ring.
Proof.
  apply (ringbuf_is_fifo _ _ _ _ _ 3).
  - exact sample_ring_own.
  - repeat constructor; eexists; (split_and!; [reflexivity|done..]).
  - done.
Defined.

(** C38: The space accounting is right: a write accepts as many bytes as there is
    room for and no more, a read delivers as many as are buffered and no more, and
    [ringbuf_available] is the number of bytes buffered. *)
Theorem ringbuf_accounting m ring buf size head data src inp n :
  ring_own m ring buf size head data -> arrays m !! src = Some inp -> src <> buf -> src <> 0 ->
  0 <= n <= Z.of_nat (length inp) -> head + Z.of_nat (length data) + n < two64 ->
  let k := Z.min n (size - Z.of_nat (length data)) in
  wp (let! r := ringbuf_write ring src n in let! a := ringbuf_available ring in
      let! f := ringbuf_isfull ring in ret! (r, a, f)) (fun x m' =>
    x = (k, Z.of_nat (length data) + k, Z.of_nat (length data) + k =? size) /\
    ring_own m' ring buf size head (data ++ take (Z.to_nat k) inp)) m.
Proof.
  intros Hown Hinp Hne H0 Hn Hlast k. apply wp_bind. eapply wp_mono; [by eapply ringbuf_write_spec|].
  intros r m' (-> & Hown' & _).
  assert (Z.to_nat n `min` (Z.to_nat size - length data) = Z.to_nat k)%nat as Hk.
  { destruct Hown as [? ? _ _ _ _ _ Hf _ _]. unfold k. lia. }
  assert (0 <= k) by (destruct Hown as [? ? _ _ _ _ _ Hf _ _]; unfold k; lia).
  rewrite Hk in *. apply wp_bind. eapply wp_mono; [by eapply ringbuf_available_spec|].
  assert (length (data ++ take (Z.to_nat k) inp) = length data + Z.to_nat k)%nat as Hl
    by (rewrite length_app, length_take; lia).
  intros a ? [-> ->]. unfold ringbuf_isfull. apply wp_bind, wp_bind.
  eapply wp_ringbuf_assert_locked; [exact Hown'|].
  pose proof Hown' as [lk bs _ Hr _ _ _ _ _ _]. apply wp_bind. eapply wp_load; [exact Hr|].
  apply wp_ret, wp_ret. simpl. rewrite Hl in *.
  replace (Z.of_nat (length data + Z.to_nat k)) with (Z.of_nat (length data) + k) by lia.
  rewrite Z2Nat.id by done. done.
Qed.

Lemma ringbuf_accounting_witness :
  wp (let! r := ringbuf_write 100 120 3 in let! a := ringbuf_available 100 in
      let! f := ringbuf_isfull 100 in ret! (r, a, f)) (fun x m' =>
    x = (2, 4, true) /\ ring_own m' 100 110 4 3 ([7; 8] ++ [1; 2])) sample_ring.
Proof. apply (ringbuf_accounting sample_ring 100 110 4 3 [7; 8] 120 [1; 2; 3] 3 sample_ring_own); done. Defined.

(** When memory runs out between its two allocations, [ringbuf_new] frees the
    ring twice: [ringbuf_init] has already released it on that path. *)
Theorem ringbuf_new_double_free {KA : KAlloc} m size p :
  ka_pick (k_tick m) (k_live m) = Some p ->
  (forall s, ka_pick (S (k_tick m)) s = None) ->
  ringbuf_new size true m = Fault.
Proof.
  intros Hp Hnone. pose proof (ka_fresh _ _ _ Hp) as [Hfr Hr].
  assert (is_null p = false) as Hnull by (apply Z.eqb_neq; lia).
  unfold ringbuf_new. rewrite (M_bind_done _ _ _ tt m) by done.
  erewrite M_bind_done by (unfold kalloc; rewrite Hp; done). rewrite Hnull.
  set (m1 := h_set _ _). assert (rings m1 !! p = Some (mkRing 0 0 0 0 0 SPINLOCK_INIT)) as Hp1.
  { unfold m1. ksimpl. apply lookup_insert_eq. }
  assert (k_tick m1 = S (k_tick m)) as Ht by done.
  erewrite M_bind_done.
  2:{ unfold ringbuf_init. rewrite Hnull. cbn iota.
      erewrite M_bind_done by (unfold kmalloc_bytes, kalloc; rewrite Ht, Hnone; done). change (is_null 0) with true. cbn iota.
      erewrite M_bind_done; [done|]. unfold kfree. rewrite (proj2 (Z.eqb_neq p 0)) by lia.
      ksimpl. rewrite Hp1. done. }
  simpl negb. cbn iota. apply M_bind_fault. simpl. unfold kfree.
  rewrite (proj2 (Z.eqb_neq p 0)) by lia. ksimpl. by rewrite lookup_delete_eq.
Qed.

(** An allocator with room for one block only. *)
#[refine] Definition one_slot : KAlloc := {|
  ka_pick n s := if decide (n = O /\ 65536 ∉ s) then Some 65536 else None;
  ka_junk _ _ := 0
|}.
Proof. intros n s p. case_decide as H; [|done]. intros [= <-]. split; [apply H|done]. Defined.

Lemma ringbuf_new_double_free_witness : ringbuf_new (KA:=one_slot) 16 true idle = Fault.
Proof. apply (ringbuf_new_double_free (KA:=one_slot) idle 16 65536); [reflexivity|]. intros s. reflexivity. Defined.
