(* ===== verification/Bitmap.v ===== *)
(** * Bitmaps (ds/bitmap.c, ds/bitmap.h)

    The map is an array of 64-bit words in memory; bit [k] of the bitmap is bit
    [k mod 64] of word [k / 64].  The [bitmap_dump*] functions, which only print,
    are not here. *)
From S2P Require Import Prelude Errno Spinlock KMem Queue.

Definition BITS_PER_USIZE : Z := 64.
Definition ALL_ONES : Z := two64 - 1.

Definition bitmap_lock (bm : Z) : K unit := obj_lock (T:=bitmap_t) bm.
Definition bitmap_unlock (bm : Z) : K unit := obj_unlock (T:=bitmap_t) bm.

Definition set_bm_size (x : Z) (b : bitmap_t) := mkBitmap (bm_map b) x (bm_lock b).
Definition set_bm_map (x : Z) (b : bitmap_t) := mkBitmap x (bm_size b) (bm_lock b).

(** [(bm_size + BITS_PER_USIZE - 1) / BITS_PER_USIZE], in [usize]. *)
Definition num_units (size : Z) : Z := u64 (size + BITS_PER_USIZE - 1) / BITS_PER_USIZE.

(** [bm_map[k / BITS_PER_USIZE] & (1UL << k % BITS_PER_USIZE)]. *)
Definition bm_test (bitmap k : Z) : K bool :=
  let! b := load bitmap in
  let! w := arr_get (bm_map b) (k / BITS_PER_USIZE) in
  ret! (negb (Z.land w (bit_mask (k mod BITS_PER_USIZE)) =? 0)).

(** [bm_map[k / BITS_PER_USIZE] op= 1UL << k % BITS_PER_USIZE]. *)
Definition bm_update (op : Z -> Z -> Z) (bitmap k : Z) : K unit :=
  let! b := load bitmap in
  let! w := arr_get (bm_map b) (k / BITS_PER_USIZE) in
  arr_set (bm_map b) (k / BITS_PER_USIZE) (op w (bit_mask (k mod BITS_PER_USIZE))).

Definition op_set (w mask : Z) : Z := Z.lor w mask.
Definition op_unset (w mask : Z) : Z := Z.land w (not64 mask).
Definition op_toggle (w mask : Z) : Z := Z.lxor w mask.

(** The loop that updates the [nbits] bits from [pos] on. *)
Definition bm_update_range (op : Z -> Z -> Z) (bitmap pos nbits : Z) : K unit :=
  let! _ := for_range (R:=unit) (Z.to_nat nbits) 0 (fun i =>
    do! bm_update op bitmap (u64 (pos + i)) in ret! None) in
  ret! tt.

(** The loop that looks for a bit equal to [v] in the same range. *)
Definition bm_find_in_range (v : bool) (bitmap pos nbits : Z) : K bool :=
  let! r := for_range (Z.to_nat nbits) 0 (fun i =>
    let! t := bm_test bitmap (u64 (pos + i)) in
    ret! (if Bool.eqb t v then Some tt else None)) in
  ret! (match r with Some _ => true | None => false end).

(** The loop that stores [v] in the words [i .. i + n - 1]. *)
Definition bm_fill (bitmap i n v : Z) : K unit :=
  let! _ := for_range (R:=unit) (Z.to_nat n) i (fun i =>
    let! b := load bitmap in do! arr_set (bm_map b) i v in ret! None) in
  ret! tt.

(** [bm_map[units - 1] &= ~0 >> excess_bits], when there are excess bits. *)
Definition bm_trim (bitmap units size : Z) : K unit :=
  let excess_bits := u64 (units * BITS_PER_USIZE - size) in
  if 0 <? excess_bits then
    let! b := load bitmap in
    let! w := arr_get (bm_map b) (units - 1) in
    arr_set (bm_map b) (units - 1) (Z.land w (Z.shiftr ALL_ONES excess_bits))
  else ret! tt.

Definition bitmap_init (bitmap bm_array size : Z) : K Z :=
  if is_null bitmap || is_null bm_array || (size =? 0) then ret! (- EINVAL) else
  do! modify bitmap (set_bm_size size) in
  do! modify bitmap (set_bm_map bm_array) in
  do! modify (T:=bitmap_t) bitmap (with_lock SPINLOCK_INIT) in
  do! bm_fill bitmap 0 (num_units size) 0 in
  ret! 0.

Definition bitmap_free (bitmap : Z) : K unit :=
  if is_null bitmap then ret! tt else
  do! modify bitmap (set_bm_size 0) in
  let! b := load bitmap in
  do! M_when (negb (is_null (bm_map b))) (kfree (T:=list Z) (bm_map b)) in
  do! modify bitmap (set_bm_map 0) in
  kfree (T:=bitmap_t) bitmap.

Definition bitmap_set (bitmap pos nbits : Z) : K Z :=
  do! bitmap_lock bitmap in
  let! b := load bitmap in
  if bm_size b <? u64 (pos + nbits) then do! bitmap_unlock bitmap in ret! (- EINVAL) else
  let! found := bm_find_in_range true bitmap pos nbits in
  if found then do! bitmap_unlock bitmap in ret! (- EALREADY) else
  do! bm_update_range op_set bitmap pos nbits in
  do! bitmap_unlock bitmap in
  ret! 0.

Definition bitmap_unset (bitmap pos nbits : Z) : K Z :=
  do! bitmap_lock bitmap in
  let! b := load bitmap in
  if bm_size b <? u64 (pos + nbits) then do! bitmap_unlock bitmap in ret! (- EINVAL) else
  let! found := bm_find_in_range false bitmap pos nbits in
  if found then do! bitmap_unlock bitmap in ret! (- EALREADY) else
  do! bm_update_range op_unset bitmap pos nbits in
  do! bitmap_unlock bitmap in
  ret! 0.

Definition bitmap_test (bitmap pos nbits : Z) : K Z :=
  do! bitmap_lock bitmap in
  let! b := load bitmap in
  if bm_size b <? u64 (pos + nbits) then do! bitmap_unlock bitmap in ret! (- EINVAL) else
  let! found := bm_find_in_range false bitmap pos nbits in
  if found then do! bitmap_unlock bitmap in ret! 0 else
  do! bitmap_unlock bitmap in
  ret! 1.

(** [pos] tells whether the caller's [pos] pointer is not NULL. *)
Definition bitmap_alloc_range (bitmap nbits : Z) (pos : bool) : K (Z * option Z) :=
  do! bitmap_lock bitmap in
  let! b := load bitmap in
  if (nbits =? 0) || (bm_size b <? nbits) || negb pos then
    do! bitmap_unlock bitmap in ret! (- EINVAL, None) else
  let! r := for_range (Z.to_nat (bm_size b - nbits + 1)) 0 (fun i =>
    let! taken := bm_find_in_range true bitmap i nbits in
    if taken then ret! None else
    do! bm_update_range op_set bitmap i nbits in
    ret! (Some i)) in
  do! bitmap_unlock bitmap in
  ret! (match r with Some i => (0, Some i) | None => (- ENOSPC, None) end).

Definition bitmap_clear_all (bitmap : Z) : K unit :=
  do! bitmap_lock bitmap in
  let! b := load bitmap in
  do! bm_fill bitmap 0 (num_units (bm_size b)) 0 in
  bitmap_unlock bitmap.

Definition bitmap_set_all (bitmap : Z) : K unit :=
  do! bitmap_lock bitmap in
  let! b := load bitmap in
  do! bm_fill bitmap 0 (num_units (bm_size b)) ALL_ONES in
  do! bm_trim bitmap (num_units (bm_size b)) (bm_size b) in
  bitmap_unlock bitmap.

Definition bitmap_find_first_unset (bitmap : Z) : K (Z * option Z) :=
  do! bitmap_lock bitmap in
  let! b := load bitmap in
  let! r := for_range (Z.to_nat (num_units (bm_size b))) 0 (fun i =>
    let! w := arr_get (bm_map b) i in
    if w =? ALL_ONES then ret! None else
    let! r := for_range (R:=option Z) 64 0 (fun bit =>
      let bit_pos := i * BITS_PER_USIZE + bit in
      if bm_size b <=? bit_pos then ret! (Some None) else
      let! w := arr_get (bm_map b) i in
      ret! (if Z.land w (bit_mask bit) =? 0 then Some (Some bit_pos) else None)) in
    ret! (match r with Some (Some p) => Some p | _ => None end)) in
  do! bitmap_unlock bitmap in
  ret! (match r with Some p => (0, Some p) | None => (- ENOENT, None) end).

(** [while (val) { count += val & 1; val >>= 1; }]: 64 rounds empty any word. *)
Fixpoint popcount_loop (fuel : nat) (val count : Z) : Z :=
  match fuel with
  | O => count
  | S fuel => if val =? 0 then count
              else popcount_loop fuel (Z.shiftr val 1) (u64 (count + Z.land val 1))
  end.

(** [for (i = 0; i < num_units; i++) { val = bm_map[i]; while (val) ... }]. *)
Fixpoint count_set_loop (map : Z) (n : nat) (i count : Z) : K Z :=
  match n with
  | O => ret! count
  | S n => let! val := arr_get map i in count_set_loop map n (i + 1) (popcount_loop 64 val count)
  end.

Definition bitmap_count_set (bitmap : Z) : K Z :=
  do! bitmap_lock bitmap in
  let! b := load bitmap in
  let! count := count_set_loop (bm_map b) (Z.to_nat (num_units (bm_size b))) 0 0 in
  do! bitmap_unlock bitmap in
  ret! count.

Definition bitmap_count_unset (bitmap : Z) : K Z :=
  let! b := load bitmap in
  let! n := bitmap_count_set bitmap in
  ret! (u64 (bm_size b - n)).

Definition bitmap_toggle (bitmap pos nbits : Z) : K Z :=
  let! b := load bitmap in
  if bm_size b <? u64 (pos + nbits) then ret! (- EINVAL) else
  do! bitmap_lock bitmap in
  do! bm_update_range op_toggle bitmap pos nbits in
  do! bitmap_unlock bitmap in
  ret! 0.

Section Alloc.
Context {KA : KAlloc}.

Definition bitmap_init_array (bitmap size : Z) : K Z :=
  if is_null bitmap then ret! (- EINVAL) else
  let! bm_array := kcalloc_words (num_units size) in
  if is_null bm_array then ret! (- ENOMEM) else
  let! err := bitmap_init bitmap bm_array size in
  if negb (err =? 0) then do! kfree (T:=list Z) bm_array in ret! err else
  ret! 0.

Definition bitmap_alloc (size : Z) (ppbm : bool) : K (Z * option Z) :=
  if negb ppbm || (size =? 0) then ret! (-1, None) else
  let! bm_array := kcalloc_words (num_units size) in
  if is_null bm_array then ret! (-1, None) else
  let! bitmap := kalloc (mkBitmap 0 0 SPINLOCK_INIT) in
  if is_null bitmap then do! kfree (T:=list Z) bm_array in ret! (- ENOMEM, None) else
  let! err := bitmap_init bitmap bm_array size in
  if negb (err =? 0) then
    do! kfree (T:=bitmap_t) bitmap in do! kfree (T:=list Z) bm_array in ret! (err, None)
  else ret! (0, Some bitmap).

Definition bitmap_resize (bitmap new_size : Z) : K Z :=
  do! bitmap_lock bitmap in
  let! b := load bitmap in
  let old_num_units := num_units (bm_size b) in
  let new_num_units := num_units new_size in
  let! new_map := krealloc_words (bm_map b) new_num_units in
  if is_null new_map then do! bitmap_unlock bitmap in ret! (- ENOMEM) else
  do! modify bitmap (set_bm_map new_map) in
  do! M_when (old_num_units <? new_num_units)
        (bm_fill bitmap old_num_units (new_num_units - old_num_units) 0) in
  do! modify bitmap (set_bm_size new_size) in
  do! bm_trim bitmap new_num_units new_size in
  do! bitmap_unlock bitmap in
  ret! 0.

(** [memcpy] of the words of [src]'s map. *)
Definition bitmap_copy (src dest : Z) : K Z :=
  do! bitmap_lock src in
  let! s := load src in
  do! modify dest (set_bm_size (bm_size s)) in
  let! s := load src in
  let units := num_units (bm_size s) in
  let! p := kmalloc_words units in
  do! modify dest (set_bm_map p) in
  let! d := load dest in
  if is_null (bm_map d) then do! bitmap_unlock src in ret! (- EINVAL) else
  let! s := load src in
  let! _ := for_range (R:=unit) (Z.to_nat units) 0 (fun i =>
    let! w := arr_get (bm_map s) i in do! arr_set (bm_map d) i w in ret! None) in
  do! modify (T:=bitmap_t) dest (with_lock SPINLOCK_INIT) in
  do! bitmap_unlock src in
  ret! 0.
End Alloc.
