(* ===== verification/BitmapFacts.v ===== *)
(** * Correctness of the bitmap operations

    Bits of an array of words, the loops of ds/bitmap.c over them, and what each
    operation does to the represented bits. *)
From S2P Require Import Prelude Errno Spinlock KMem Queue Bitmap Sample.

Notation bitmaps m := (h_get (T:=bitmap_t) m) (only parsing).
Notation words m := (h_get (T:=list Z) m) (only parsing).

(** ** Bits of a list of words *)
Definition bit_at (ws : list Z) (k : Z) : bool :=
  match ws !! Z.to_nat (k / 64) with
  | Some w => Z.testbit w (k mod 64)
  | None => false
  end.

Definition upd_bit (op : Z -> Z -> Z) (ws : list Z) (k : Z) : list Z :=
  match ws !! Z.to_nat (k / 64) with
  | Some w => <[Z.to_nat (k / 64) := op w (bit_mask (k mod 64))]> ws
  | None => ws
  end.

(** [op w mask] applies [g] to the bit the mask selects and keeps the others. *)
Record bit_op (op : Z -> Z -> Z) (g : bool -> bool) : Prop := {
  bo_u64 : forall w b, is_u64 w -> 0 <= b < 64 -> is_u64 (op w (bit_mask b));
  bo_bit : forall w b i, 0 <= b < 64 -> 0 <= i < 64 ->
    Z.testbit (op w (bit_mask b)) i = if i =? b then g (Z.testbit w i) else Z.testbit w i
}.

Lemma bit_mask_eqb b i : 0 <= b -> 0 <= i -> Z.testbit (bit_mask b) i = (i =? b).
Proof.
  intros. rewrite bit_mask_spec by done. case_bool_decide; symmetry; [by apply Z.eqb_eq|by apply Z.eqb_neq].
Qed.

Lemma bit_op_set : bit_op op_set (fun _ => true).
Proof.
  split; unfold op_set; intros; [eauto with kernel|]. rewrite Z.lor_spec, bit_mask_eqb by lia.
  destruct (i =? b); [apply orb_true_r|apply orb_false_r].
Qed.
Lemma bit_op_unset : bit_op op_unset (fun _ => false).
Proof.
  split; unfold op_unset; intros; [eauto with kernel|].
  rewrite Z.land_spec, not64_testbit, bit_mask_eqb by lia.
  destruct (i =? b); [apply andb_false_r|apply andb_true_r].
Qed.
Lemma bit_op_toggle : bit_op op_toggle negb.
Proof.
  split; unfold op_toggle; intros; [eauto with kernel|]. rewrite Z.lxor_spec, bit_mask_eqb by lia.
  destruct (i =? b); [apply xorb_true_r|apply xorb_false_r].
Qed.

Lemma bit_index_eq j k : 0 <= j -> 0 <= k -> Z.to_nat (j / 64) = Z.to_nat (k / 64) -> j mod 64 = k mod 64 -> j = k.
Proof.
  intros Hj Hk Hd Hm. pose proof (Z.div_mod j 64 ltac:(lia)). pose proof (Z.div_mod k 64 ltac:(lia)).
  pose proof (Z.div_pos j 64 Hj ltac:(lia)). pose proof (Z.div_pos k 64 Hk ltac:(lia)). lia.
Qed.

Lemma index_lt k n : 0 <= k < 64 * Z.of_nat n -> 0 <= k / 64 < Z.of_nat n.
Proof. intros. split; [apply Z.div_pos; lia|]. apply Z.div_lt_upper_bound; lia. Qed.

Lemma upd_bit_length op ws k : length (upd_bit op ws k) = length ws.
Proof. unfold upd_bit. case_match; [apply length_insert|done]. Qed.

Lemma upd_bit_u64 op g ws k : bit_op op g -> Forall is_u64 ws -> Forall is_u64 (upd_bit op ws k).
Proof.
  intros [Hu _] Hws. unfold upd_bit. case_match eqn:E; [|done]. apply Forall_insert; [done|].
  apply Hu; [|apply Z.mod_pos_bound; lia]. by eapply Forall_lookup_1 in E.
Qed.

Lemma bit_at_upd op g ws k j :
  bit_op op g -> 0 <= k < 64 * Z.of_nat (length ws) -> 0 <= j ->
  bit_at (upd_bit op ws k) j = if j =? k then g (bit_at ws j) else bit_at ws j.
Proof.
  intros [_ Hb] Hk Hj. pose proof (index_lt _ _ Hk) as Hi.
  destruct (lookup_lt_is_Some_2 ws (Z.to_nat (k / 64))) as [w Hw]; [lia|].
  pose proof (Z.mod_pos_bound k 64 ltac:(lia)) as Hmk. pose proof (Z.mod_pos_bound j 64 ltac:(lia)) as Hmj.
  unfold upd_bit, bit_at. rewrite Hw. destruct (decide (Z.to_nat (j / 64) = Z.to_nat (k / 64))) as [E|E].
  - rewrite E, list_lookup_insert_eq, Hw by (by apply lookup_lt_Some in Hw). rewrite Hb by done.
    destruct (Z.eqb_spec (j mod 64) (k mod 64)) as [Em|Em]; destruct (Z.eqb_spec j k) as [->|Ejk]; try done.
    exfalso. apply Ejk, bit_index_eq; [done|lia|done..].
  - rewrite list_lookup_insert_ne by done. destruct (Z.eqb_spec j k) as [->|]; [by destruct E|done].
Qed.

(** ** Memory that holds a bitmap *)
Section Loops.
Context (m : kmem) (bm map size : Z) (lk : spinlock_t) (ws : list Z).
Hypothesis Hobj : bitmaps m !! bm = Some (mkBitmap map size lk).
Hypothesis Harr : words m !! map = Some ws.
Hypothesis Hu64 : Forall is_u64 ws.

(** The same memory, with the map's words replaced. *)
Definition with_words (ws' : list Z) : kmem := h_set (<[map := ws']> (words m)) m.

Lemma with_words_id : with_words ws = m.
Proof. unfold with_words. by rewrite insert_id, h_set_get. Qed.

Lemma with_words_obj ws' : bitmaps (with_words ws') !! bm = Some (mkBitmap map size lk).
Proof. unfold with_words. by ksimpl. Qed.
Lemma with_words_arr ws' : words (with_words ws') !! map = Some ws'.
Proof. unfold with_words. ksimpl. apply lookup_insert_eq. Qed.

Lemma bm_test_eq k :
  0 <= k < 64 * Z.of_nat (length ws) -> bm_test bm k m = Done (bit_at ws k) m.
Proof.
  intros Hk. pose proof (index_lt _ _ Hk) as Hi. unfold bm_test, bit_at.
  erewrite M_bind_done by (unfold load; by rewrite Hobj). unfold arr_get, BITS_PER_USIZE. simpl.
  destruct (lookup_lt_is_Some_2 ws (Z.to_nat (k / 64))) as [w Hw]; [lia|].
  erewrite M_bind_done; [|erewrite M_bind_done by (unfold load; by rewrite Harr)].
  2:{ destruct (Z.ltb_spec (k / 64) 0); [lia|]. by rewrite Hw. }
  rewrite Hw, land_bit_mask_0, negb_involutive; [done|]. apply Z.mod_pos_bound. lia.
Qed.

Lemma wp_bm_update op ws1 k (Q : unit -> kmem -> Prop) :
  0 <= k < 64 * Z.of_nat (length ws1) ->
  Q tt (with_words (upd_bit op ws1 k)) -> wp (bm_update op bm k) Q (with_words ws1).
Proof.
  intros Hk HQ. pose proof (index_lt _ _ Hk) as Hi. unfold bm_update, BITS_PER_USIZE.
  destruct (lookup_lt_is_Some_2 ws1 (Z.to_nat (k / 64))) as [w Hw]; [lia|].
  apply wp_bind. eapply wp_load; [apply with_words_obj|]. simpl.
  apply wp_bind. eapply wp_arr_get; [apply with_words_arr|lia|exact Hw|].
  eapply wp_arr_set; [apply with_words_arr|lia|]. unfold upd_bit, with_words in *. rewrite Hw in HQ.
  ksimpl. by rewrite insert_insert_eq.
Qed.

(** Updating a range applies [g] to its bits and to no other. *)
Definition range_updated (g : bool -> bool) (pos n : Z) (ws' : list Z) : Prop :=
  length ws' = length ws /\ Forall is_u64 ws' /\
  forall j, 0 <= j -> bit_at ws' j = if (pos <=? j) && (j <? pos + n) then g (bit_at ws j) else bit_at ws j.

Lemma range_updated_0 g pos : range_updated g pos 0 ws.
Proof.
  split_and!; [done..|]. intros j Hj. destruct (Z.leb_spec pos j); simpl; [|done].
  destruct (Z.ltb_spec j (pos + 0)); [lia|done].
Qed.

Lemma range_updated_S op g pos i ws1 :
  bit_op op g -> 0 <= i -> 0 <= pos -> pos + i < 64 * Z.of_nat (length ws) ->
  range_updated g pos i ws1 -> range_updated g pos (i + 1) (upd_bit op ws1 (pos + i)).
Proof.
  intros Hop Hi Hpos Hlt (Hl & Hu & Hb). split_and!; [by rewrite upd_bit_length|by eapply upd_bit_u64|].
  intros j Hj. rewrite (bit_at_upd op g) by (done || lia). rewrite !Hb by done.
  destruct (Z.eqb_spec j (pos + i)) as [->|Hne].
  - destruct (Z.leb_spec pos (pos + i)); [|lia]. destruct (Z.ltb_spec (pos + i) (pos + i)); [lia|].
    destruct (Z.ltb_spec (pos + i) (pos + (i + 1))); [done|lia].
  - destruct (Z.leb_spec pos j); simpl; [|done].
    destruct (Z.ltb_spec j (pos + i)), (Z.ltb_spec j (pos + (i + 1))); done || lia.
Qed.

Lemma wp_bm_update_range op g pos n (Q : unit -> kmem -> Prop) :
  bit_op op g -> 0 <= pos -> 0 <= n -> pos + n <= 64 * Z.of_nat (length ws) -> pos + n < two64 ->
  (forall ws', range_updated g pos n ws' -> Q tt (with_words ws')) ->
  wp (bm_update_range op bm pos n) Q m.
Proof.
  intros Hop Hpos Hn Hlen H64 HQ. unfold bm_update_range. apply wp_bind.
  eapply wp_mono; [eapply (wp_for_range (fun i m' => exists ws', m' = with_words ws' /\ range_updated g pos i ws'))|].
  - exists ws. split; [by rewrite with_words_id|apply range_updated_0].
  - intros i s Hi (ws1 & -> & Hr). pose proof Hr as (Hl1 & _). rewrite Z2Nat.id in Hi by done.
    rewrite u64_small by (unfold is_u64; lia). apply wp_bind.
    eapply wp_bm_update; [rewrite Hl1; lia|]. apply wp_ret. split; [done|].
    eexists. split; [done|]. apply range_updated_S; [done|lia|done|lia|done].
  - intros r s (-> & ws' & -> & Hr). apply wp_ret, HQ. by rewrite Z.add_0_l, Z2Nat.id in Hr.
Qed.

(** Looking for a bit with value [v] in a range. *)
Lemma bm_find_in_range_eq v pos n :
  0 <= pos -> 0 <= n -> pos + n <= 64 * Z.of_nat (length ws) -> pos + n < two64 ->
  exists b : bool, bm_find_in_range v bm pos n m = Done b m /\
    (if b then exists k, pos <= k < pos + n /\ bit_at ws k = v
     else forall k, pos <= k < pos + n -> bit_at ws k = negb v).
Proof.
  intros Hpos Hn Hlen H64. unfold bm_find_in_range.
  destruct (for_range_search (fun i => let! t := bm_test bm (u64 (pos + i)) in
      ret! (if Bool.eqb t v then Some tt else None))
    (fun i => if Bool.eqb (bit_at ws (pos + i)) v then Some tt else None) (Z.to_nat n) 0 m) as (r & Hr & Hspec).
  { intros j Hj. rewrite u64_small by (unfold is_u64; lia).
    erewrite M_bind_done by (apply bm_test_eq; lia). done. }
  erewrite M_bind_done by exact Hr. destruct r as [[]|]; eexists; (split; [done|]); cbn beta iota.
  - destruct Hspec as (j & Hj & Hf & _). exists (pos + j). split; [lia|].
    destruct (Bool.eqb _ v) eqn:E; [by apply eqb_prop|done].
  - intros k Hk. specialize (Hspec (k - pos)). replace (pos + (k - pos)) with k in Hspec by lia.
    destruct (bit_at ws k), v; simpl in *; try done; by discriminate Hspec; lia.
Qed.
End Loops.

(** ** Representation *)

(** At [bm] there is a bitmap of [size] bits whose words are [ws]; the bits of the
    last word past [size] are clear. *)
Record bitmap_rep (m : kmem) (bm map size : Z) (lk : spinlock_t) (ws : list Z) : Prop := {
  br_null : bm <> 0;
  br_obj : bitmaps m !! bm = Some (mkBitmap map size lk);
  br_arr : words m !! map = Some ws;
  br_map : map <> 0;
  br_u64 : Forall is_u64 ws;
  br_len : Z.of_nat (length ws) = (size + 63) / 64;
  br_size : 0 < size /\ size + 63 < two64;
  br_tail : forall k, size <= k -> bit_at ws k = false
}.

(** A bitmap nobody holds the lock of. *)
Definition bitmap_own (m : kmem) (bm map size : Z) (ws : list Z) : Prop :=
  exists lk, locked lk = false /\ bitmap_rep m bm map size lk ws.

(** Memory after an operation that left the words [ws']: nothing else changed. *)
Definition bm_result (m : kmem) (bm map size : Z) (ws' : list Z) (m' : kmem) : Prop :=
  exists lk, locked lk = false /\
    m' = h_set (<[bm := mkBitmap map size lk]> (bitmaps m)) (h_set (<[map := ws']> (words m)) m).

Lemma size_units size n : 0 < size -> Z.of_nat n = (size + 63) / 64 -> size <= 64 * Z.of_nat n < size + 64.
Proof.
  intros Hs ->. pose proof (Z.div_mod (size + 63) 64 ltac:(lia)) as Hd.
  pose proof (Z.mod_pos_bound (size + 63) 64 ltac:(lia)). lia.
Qed.

Lemma bitmap_rep_cover m bm map size lk ws :
  bitmap_rep m bm map size lk ws -> size <= 64 * Z.of_nat (length ws) < size + 64.
Proof. intros [_ _ _ _ _ Hl [Hs _] _]. by apply size_units. Qed.

Lemma num_units_eq m bm map size lk ws :
  bitmap_rep m bm map size lk ws -> num_units size = Z.of_nat (length ws).
Proof.
  intros [_ _ _ _ _ Hl [Hs H64] _]. unfold num_units, BITS_PER_USIZE.
  rewrite u64_small by (unfold is_u64; lia). rewrite Hl. f_equal. lia.
Qed.

Lemma bitmap_rep_update m m' bm map size lk lk' ws ws' :
  bitmap_rep m bm map size lk ws -> bitmaps m' !! bm = Some (mkBitmap map size lk') ->
  words m' !! map = Some ws' -> length ws' = length ws -> Forall is_u64 ws' ->
  (forall k, size <= k -> bit_at ws' k = false) -> bitmap_rep m' bm map size lk' ws'.
Proof. intros [H0 _ _ Hm _ Hl Hs _] Ho Ha Hlen Hu Ht. split; try done. by rewrite Hlen. Qed.

Lemma bm_result_own m bm map size ws ws' m' :
  bitmap_own m bm map size ws -> bm_result m bm map size ws' m' ->
  length ws' = length ws -> Forall is_u64 ws' -> (forall k, size <= k -> bit_at ws' k = false) ->
  bitmap_own m' bm map size ws'.
Proof.
  intros (lk & _ & Hrep) (lk' & Hl & ->) Hlen Hu Ht. exists lk'. split; [done|].
  eapply bitmap_rep_update; [exact Hrep|ksimpl; apply lookup_insert_eq..|done|done|done].
Qed.

Lemma range_updated_tail ws g pos n size ws' :
  range_updated ws g pos n ws' -> (forall k, size <= k -> bit_at ws k = false) ->
  0 <= size -> pos + n <= size -> forall k, size <= k -> bit_at ws' k = false.
Proof.
  intros (_ & _ & Hb) Ht Hs Hle k Hk. rewrite Hb by lia.
  destruct (Z.ltb_spec k (pos + n)); [lia|]. rewrite andb_false_r. auto.
Qed.

(** ** The lock around each operation *)
Lemma wp_bitmap_lock {A} m bm map size ws (k : K A) Q :
  bitmap_own m bm map size ws ->
  (forall lk m1, holding (k_who m1) lk = true -> bitmap_rep m1 bm map size lk ws ->
     m1 = h_set (<[bm := mkBitmap map size lk]> (bitmaps m)) m -> wp k Q m1) ->
  wp (do! bitmap_lock bm in k) Q m.
Proof.
  intros (lk0 & Hl & Hrep) HQ. pose proof Hrep as [H0 Ho Ha _ Hu _ _ Ht]. apply wp_bind.
  eapply wp_obj_lock; [done|exact Ho|done|]. intros lk Hh. eapply (HQ lk); [by ksimpl| |done].
  eapply bitmap_rep_update; [exact Hrep|ksimpl; apply lookup_insert_eq|by ksimpl|done..].
Qed.

Lemma wp_bitmap_unlock_tt m m1 bm map size lk ws ws' (Q : unit -> kmem -> Prop) :
  m1 = h_set (<[bm := mkBitmap map size lk]> (bitmaps m)) m ->
  holding (k_who m1) lk = true -> bitmap_rep m1 bm map size lk ws ->
  (forall m', bm_result m bm map size ws' m' -> Q tt m') ->
  wp (bitmap_unlock bm) Q (with_words m1 map ws').
Proof.
  intros -> Hh [H0 Ho _ _ _ _ _ _] HQ. rewrite h_set_who in Hh. eapply wp_obj_unlock.
  - split_and!; [done|unfold with_words; ksimpl; apply lookup_insert_eq|]. unfold with_words. by ksimpl.
  - intros lk' Hl. apply HQ. exists lk'. split; [done|]. unfold with_words. ksimpl.
    rewrite insert_insert_eq. rewrite (h_set_comm (T1:=list Z) (T2:=bitmap_t)). by ksimpl.
Qed.

Lemma wp_bitmap_unlock {A} m m1 bm map size lk ws ws' (x : A) (Q : A -> kmem -> Prop) :
  m1 = h_set (<[bm := mkBitmap map size lk]> (bitmaps m)) m ->
  holding (k_who m1) lk = true -> bitmap_rep m1 bm map size lk ws ->
  (forall m', bm_result m bm map size ws' m' -> Q x m') ->
  wp (do! bitmap_unlock bm in ret! x) Q (with_words m1 map ws').
Proof. intros. apply wp_bind. eapply wp_bitmap_unlock_tt; eauto using wp_ret. Qed.

Lemma wp_bitmap_unlock_same {A} m m1 bm map size lk ws (x : A) (Q : A -> kmem -> Prop) :
  m1 = h_set (<[bm := mkBitmap map size lk]> (bitmaps m)) m ->
  holding (k_who m1) lk = true -> bitmap_rep m1 bm map size lk ws ->
  (forall m', bm_result m bm map size ws m' -> Q x m') ->
  wp (do! bitmap_unlock bm in ret! x) Q m1.
Proof.
  intros Hm1 Hh Hrep HQ. rewrite <- (with_words_id m1 map ws) by apply (br_arr _ _ _ _ _ _ Hrep).
  by eapply wp_bitmap_unlock.
Qed.

Lemma wp_load_bitmap m bm map size lk ws (Q : bitmap_t -> kmem -> Prop) :
  bitmap_rep m bm map size lk ws -> Q (mkBitmap map size lk) m -> wp (load bm) Q m.
Proof. intros [_ Ho _ _ _ _ _ _] HQ. by eapply wp_load. Qed.

(** ** Setting, clearing, testing, toggling *)

(** [bitmap_set] and [bitmap_unset] share this shape: [v] is the value that makes
    the request a repetition. *)
Definition range_changed (v : bool) (size pos n : Z) (ws ws' : list Z) (r : Z) : Prop :=
  (size < pos + n /\ r = - EINVAL /\ ws' = ws) \/
  (pos + n <= size /\ r = - EALREADY /\ ws' = ws /\ exists k, pos <= k < pos + n /\ bit_at ws k = v) \/
  (pos + n <= size /\ r = 0 /\ range_updated ws (fun _ => v) pos n ws' /\
   forall k, pos <= k < pos + n -> bit_at ws k = negb v).

Lemma bitmap_change_spec op v m bm map size ws pos n :
  bit_op op (fun _ => v) -> bitmap_own m bm map size ws -> 0 <= pos -> 0 <= n -> pos + n < two64 ->
  wp (do! bitmap_lock bm in
      let! b := load bm in
      if bm_size b <? u64 (pos + n) then do! bitmap_unlock bm in ret! (- EINVAL) else
      let! found := bm_find_in_range v bm pos n in
      if found then do! bitmap_unlock bm in ret! (- EALREADY) else
      do! bm_update_range op bm pos n in
      do! bitmap_unlock bm in
      ret! 0) (fun r m' => exists ws', bm_result m bm map size ws' m' /\ range_changed v size pos n ws ws' r) m.
Proof.
  intros Hop Hown Hpos Hn H64. eapply wp_bitmap_lock; [exact Hown|]. intros lk m1 Hh Hrep Hm1.
  apply wp_bind. eapply wp_load_bitmap; [exact Hrep|]. simpl. rewrite u64_small by (unfold is_u64; lia).
  destruct (Z.ltb_spec size (pos + n)).
  { eapply wp_bitmap_unlock_same; [done..|]. intros m' Hm'. exists ws. split; [done|]. left. auto. }
  pose proof (bitmap_rep_cover _ _ _ _ _ _ Hrep) as Hc. pose proof Hrep as [_ Ho Ha _ Hu _ _ _].
  destruct (bm_find_in_range_eq m1 bm map size lk ws Ho Ha v pos n) as (b & Hb & Hspec); [lia..|].
  apply wp_bind. unfold wp at 1. rewrite Hb. destruct b.
  - eapply wp_bitmap_unlock_same; [done..|]. intros m' Hm'. exists ws. split; [done|]. right. left. auto.
  - apply wp_bind. eapply (wp_bm_update_range m1 bm map size lk ws Ho Ha Hu op); [done|lia..|].
    intros ws' Hws'. eapply wp_bitmap_unlock; [done..|]. intros m' Hm'. exists ws'. split; [done|].
    right. right. auto.
Qed.

Lemma range_changed_own v size pos n ws ws' r m m' bm map :
  bitmap_own m bm map size ws -> bm_result m bm map size ws' m' ->
  range_changed v size pos n ws ws' r -> bitmap_own m' bm map size ws'.
Proof.
  intros Hown Hres Hc. pose proof Hown as (lk & _ & [_ _ _ _ Hu _ Hs Ht]).
  destruct Hc as [(_ & _ & ->)|[(_ & _ & -> & _)|(Hle & _ & Hr & _)]];
    [by eapply bm_result_own..|]. pose proof Hr as (Hl & Hu' & _).
  eapply bm_result_own; [done..|]. eapply range_updated_tail; [done..| |done]. lia.
Qed.

Lemma bitmap_set_spec m bm map size ws pos n :
  bitmap_own m bm map size ws -> 0 <= pos -> 0 <= n -> pos + n < two64 ->
  wp (bitmap_set bm pos n) (fun r m' => exists ws', bm_result m bm map size ws' m' /\
    range_changed true size pos n ws ws' r) m.
Proof. apply bitmap_change_spec, bit_op_set. Qed.

Lemma bitmap_unset_spec m bm map size ws pos n :
  bitmap_own m bm map size ws -> 0 <= pos -> 0 <= n -> pos + n < two64 ->
  wp (bitmap_unset bm pos n) (fun r m' => exists ws', bm_result m bm map size ws' m' /\
    range_changed false size pos n ws ws' r) m.
Proof. apply bitmap_change_spec, bit_op_unset. Qed.

Lemma bitmap_test_spec m bm map size ws pos n :
  bitmap_own m bm map size ws -> 0 <= pos -> 0 <= n -> pos + n < two64 ->
  wp (bitmap_test bm pos n) (fun r m' => bm_result m bm map size ws m' /\
    ((size < pos + n /\ r = - EINVAL) \/
     (pos + n <= size /\ r = 0 /\ exists k, pos <= k < pos + n /\ bit_at ws k = false) \/
     (pos + n <= size /\ r = 1 /\ forall k, pos <= k < pos + n -> bit_at ws k = true))) m.
Proof.
  intros Hown Hpos Hn H64. eapply wp_bitmap_lock; [exact Hown|]. intros lk m1 Hh Hrep Hm1.
  apply wp_bind. eapply wp_load_bitmap; [exact Hrep|]. simpl. rewrite u64_small by (unfold is_u64; lia).
  destruct (Z.ltb_spec size (pos + n)).
  { eapply wp_bitmap_unlock_same; [done..|]. auto. }
  pose proof (bitmap_rep_cover _ _ _ _ _ _ Hrep) as Hc. pose proof Hrep as [_ Ho Ha _ _ _ _ _].
  destruct (bm_find_in_range_eq m1 bm map size lk ws Ho Ha false pos n) as (b & Hb & Hspec); [lia..|].
  apply wp_bind. unfold wp at 1. rewrite Hb.
  destruct b; (eapply wp_bitmap_unlock_same; [done..|]); intros m' Hm'; (split; [done|]); auto 10.
Qed.

Lemma bitmap_toggle_spec m bm map size ws pos n :
  bitmap_own m bm map size ws -> 0 <= pos -> 0 <= n -> pos + n < two64 ->
  wp (bitmap_toggle bm pos n) (fun r m' =>
    (size < pos + n /\ r = - EINVAL /\ m' = m) \/
    (pos + n <= size /\ r = 0 /\ exists ws', bm_result m bm map size ws' m' /\ range_updated ws negb pos n ws')) m.
Proof.
  intros Hown Hpos Hn H64. pose proof Hown as (lk0 & _ & Hrep0). unfold bitmap_toggle. apply wp_bind.
  eapply wp_load_bitmap; [exact Hrep0|]. simpl. rewrite u64_small by (unfold is_u64; lia).
  destruct (Z.ltb_spec size (pos + n)); [apply wp_ret; auto|].
  eapply wp_bitmap_lock; [exact Hown|]. intros lk m1 Hh Hrep Hm1.
  pose proof (bitmap_rep_cover _ _ _ _ _ _ Hrep) as Hc. pose proof Hrep as [_ Ho Ha _ Hu _ _ _].
  apply wp_bind. eapply (wp_bm_update_range m1 bm map size lk ws Ho Ha Hu); [apply bit_op_toggle|lia..|].
  intros ws' Hws'. eapply wp_bitmap_unlock; [done..|]. eauto 10.
Qed.

(** ** First-fit allocation of a range *)
Definition range_clear (ws : list Z) (pos n : Z) : Prop :=
  forall k, pos <= k < pos + n -> bit_at ws k = false.

Instance range_clear_dec ws pos n : Decision (range_clear ws pos n).
Proof.
  refine (cast_if (decide (Forall (fun k => bit_at ws k = false) (seqZ pos n)))).
  - intros k Hk; rewrite Forall_forall in f; apply f, elem_of_seqZ; lia.
  - intros Hc; apply n0, Forall_forall; intros k Hk; apply Hc; apply elem_of_seqZ in Hk; lia.
Defined.

Definition first_fit (ws : list Z) (size n i : Z) : Prop :=
  0 <= i /\ i + n <= size /\ range_clear ws i n /\ forall j, 0 <= j < i -> ~ range_clear ws j n.

Lemma bitmap_alloc_range_spec m bm map size ws n :
  bitmap_own m bm map size ws -> 0 <= n < two64 ->
  wp (bitmap_alloc_range bm n true) (fun r m' => exists ws', bm_result m bm map size ws' m' /\
    ((r = (- EINVAL, None) /\ ws' = ws /\ (n = 0 \/ size < n)) \/
     (r = (- ENOSPC, None) /\ ws' = ws /\ 0 < n <= size /\
        forall i, 0 <= i -> i + n <= size -> ~ range_clear ws i n) \/
     exists i, r = (0, Some i) /\ 0 < n <= size /\ first_fit ws size n i /\
       range_updated ws (fun _ => true) i n ws')) m.
Proof.
  intros Hown Hn. eapply wp_bitmap_lock; [exact Hown|]. intros lk m1 Hh Hrep Hm1.
  apply wp_bind. eapply wp_load_bitmap; [exact Hrep|]. simpl. rewrite orb_false_r.
  pose proof (bitmap_rep_cover _ _ _ _ _ _ Hrep) as Hc. pose proof Hrep as [_ Ho Ha _ Hu _ [Hs0 Hs] _].
  destruct (Z.eqb_spec n 0); simpl.
  { eapply wp_bitmap_unlock_same; [done..|]. intros m' Hm'. exists ws. split; [done|]. auto. }
  destruct (Z.ltb_spec size n); simpl.
  { eapply wp_bitmap_unlock_same; [done..|]. intros m' Hm'. exists ws. split; [done|]. auto. }
  apply wp_bind. eapply (wp_for_range_first (fun i => range_clear ws i n)).
  - intros i Hi Hnc. destruct (bm_find_in_range_eq m1 bm map size lk ws Ho Ha true i n) as (b & Hb & Hspec); [lia..|].
    erewrite M_bind_done by exact Hb. destruct b; [done|]. by destruct Hnc.
  - intros i Hi Hcl Hfirst.
    destruct (bm_find_in_range_eq m1 bm map size lk ws Ho Ha true i n) as (b & Hb & Hspec); [lia..|].
    apply wp_bind. unfold wp at 1. rewrite Hb. destruct b.
    { destruct Hspec as (k & Hk & Hbit). rewrite Hcl in Hbit by done. done. }
    apply wp_bind. eapply (wp_bm_update_range m1 bm map size lk ws Ho Ha Hu); [apply bit_op_set|lia..|].
    intros ws' Hws'. apply wp_ret. exists i. split; [done|].
    eapply wp_bitmap_unlock; [done..|]. intros m' Hm'. exists ws'. split; [done|]. right. right. exists i.
    split_and!; [done|lia|lia| |done]. split_and!; [lia|lia|done|]. intros j Hj. apply Hfirst. lia.
  - intros Hall. eapply wp_bitmap_unlock_same; [done..|]. intros m' Hm'. exists ws. split; [done|].
    right. left. split_and!; [done|done|lia|lia|]. intros i Hi Hin. apply Hall. lia.
Qed.

(** ** Filling words *)
Lemma wp_bm_fill m bm map size lk ws i n v (Q : unit -> kmem -> Prop) :
  bitmaps m !! bm = Some (mkBitmap map size lk) -> words m !! map = Some ws ->
  0 <= i -> 0 <= n -> i + n <= Z.of_nat (length ws) ->
  Q tt (with_words m map (take (Z.to_nat i) ws ++ replicate (Z.to_nat n) v ++ drop (Z.to_nat (i + n)) ws)) ->
  wp (bm_fill bm i n v) Q m.
Proof.
  intros Ho Ha Hi Hn Hlen HQ. unfold bm_fill. apply wp_bind.
  eapply wp_mono; [eapply (wp_for_range (fun j m' => i <= j /\
    m' = with_words m map (take (Z.to_nat i) ws ++ replicate (Z.to_nat (j - i)) v ++ drop (Z.to_nat j) ws)))|].
  - split; [done|]. rewrite Z.sub_diag. simpl. rewrite take_drop. symmetry. by apply with_words_id.
  - intros j s Hj [Hij ->]. rewrite Z2Nat.id in Hj by done.
    apply wp_bind. eapply wp_load; [by apply with_words_obj|]. simpl.
    apply wp_bind. eapply wp_arr_set;
      [apply with_words_arr|rewrite !length_app, length_take, length_replicate, length_drop; lia|].
    apply wp_ret. split; [done|]. split; [lia|]. unfold with_words. ksimpl. rewrite insert_insert_eq. do 2 f_equal.
    assert (length (take (Z.to_nat i) ws) = Z.to_nat i) as Hl by (rewrite length_take; lia).
    rewrite insert_app_r_alt by (rewrite Hl; lia). f_equal. rewrite Hl.
    rewrite insert_app_r_alt by (rewrite length_replicate; lia). rewrite length_replicate.
    replace (Z.to_nat j - Z.to_nat i - Z.to_nat (j - i))%nat with O by lia.
    replace (Z.to_nat (j + 1 - i)) with (S (Z.to_nat (j - i))) by lia. rewrite replicate_S_end, <- app_assoc. f_equal.
    destruct (lookup_lt_is_Some_2 ws (Z.to_nat j)) as [w Hw]; [lia|].
    rewrite (drop_S ws w) by done. simpl. by replace (Z.to_nat (j + 1)) with (S (Z.to_nat j)) by lia.
  - intros r s (-> & _ & ->). apply wp_ret. rewrite Z2Nat.id by done.
    by replace (i + n - i) with n by lia.
Qed.

Lemma bit_at_replicate n v k :
  0 <= k -> bit_at (replicate n v) k = (k <? 64 * Z.of_nat n) && Z.testbit v (k mod 64).
Proof.
  intros Hk. unfold bit_at. destruct (Z.ltb_spec k (64 * Z.of_nat n)); simpl.
  - rewrite lookup_replicate_2; [done|]. pose proof (index_lt k n). lia.
  - rewrite (proj1 (lookup_replicate_None _ _ _)); [done|]. apply Nat.le_ngt. intros Hlt.
    assert (k / 64 < Z.of_nat n) by lia. pose proof (Z.div_mod k 64 ltac:(lia)).
    pose proof (Z.mod_pos_bound k 64 ltac:(lia)). lia.
Qed.

Lemma bitmap_clear_all_spec m bm map size ws :
  bitmap_own m bm map size ws ->
  wp (bitmap_clear_all bm) (fun _ m' => exists ws', bm_result m bm map size ws' m' /\
    length ws' = length ws /\ Forall is_u64 ws' /\ forall k, 0 <= k -> bit_at ws' k = false) m.
Proof.
  intros Hown. eapply wp_bitmap_lock; [exact Hown|]. intros lk m1 Hh Hrep Hm1.
  apply wp_bind. eapply wp_load_bitmap; [exact Hrep|]. simpl. rewrite (num_units_eq _ _ _ _ _ _ Hrep).
  pose proof Hrep as [_ Ho Ha _ Hu _ _ _].
  apply wp_bind. eapply wp_bm_fill; [exact Ho|exact Ha|lia..|].
  rewrite Z.add_0_l, Nat2Z.id, drop_all, app_nil_r. simpl.
  eapply wp_bitmap_unlock_tt; [done..|]. intros m' Hm'. eexists. split; [exact Hm'|]. split_and!.
  - apply length_replicate.
  - by apply Forall_replicate.
  - intros k Hk. rewrite bit_at_replicate, Z.bits_0 by done. apply andb_false_r.
Qed.

(** ** Trimming the last word *)
Lemma bit_at_past ws k : 64 * Z.of_nat (length ws) <= k -> bit_at ws k = false.
Proof.
  intros Hk. unfold bit_at. rewrite lookup_ge_None_2; [done|].
  assert (Z.of_nat (length ws) <= k / 64); [|lia]. apply Z.div_le_lower_bound; lia.
Qed.

Lemma is_u64_shiftr v e : is_u64 v -> 0 <= e -> is_u64 (Z.shiftr v e).
Proof.
  intros [Hv0 Hv] He. split; [by apply Z.shiftr_nonneg|]. rewrite Z.shiftr_div_pow2 by done.
  apply Z.le_lt_trans with v; [|done]. assert (0 < 2 ^ e) by (apply Z.pow_pos_nonneg; lia).
  apply Z.div_le_upper_bound; nia.
Qed.

Lemma bit_at_trim ws w n s :
  ws !! n = Some w -> S n = length ws -> 64 * Z.of_nat n < s <= 64 * Z.of_nat (length ws) ->
  forall k, 0 <= k ->
  bit_at (<[n := Z.land w (Z.shiftr ALL_ONES (64 * Z.of_nat (length ws) - s))]> ws) k = (k <? s) && bit_at ws k.
Proof.
  intros Hw Hn Hs k Hk. destruct (Z.ltb_spec k (64 * Z.of_nat (length ws))) as [Hlt|Hge].
  2:{ rewrite !bit_at_past by (rewrite ?length_insert; lia). by rewrite andb_false_r. }
  pose proof (Z.mod_pos_bound k 64 ltac:(lia)) as Hm. pose proof (Z.div_mod k 64 ltac:(lia)) as Hd.
  assert (0 <= k / 64) by (apply Z.div_pos; lia). unfold bit_at.
  destruct (decide (Z.to_nat (k / 64) = n)) as [E|E].
  - rewrite E, list_lookup_insert_eq, Hw by lia. rewrite Z.land_spec, Z.shiftr_spec by lia.
    unfold ALL_ONES. rewrite ones64_testbit by lia. rewrite andb_comm. f_equal.
    destruct (Z.ltb_spec k s); [apply bool_decide_eq_true_2|apply bool_decide_eq_false_2]; lia.
  - rewrite list_lookup_insert_ne by done. destruct (Z.ltb_spec k s); [done|]. lia.
Qed.

Lemma wp_bm_trim m bm map size lk ws s (Q : unit -> kmem -> Prop) :
  bitmaps m !! bm = Some (mkBitmap map size lk) -> words m !! map = Some ws -> Forall is_u64 ws ->
  0 < s -> s <= 64 * Z.of_nat (length ws) < s + 64 ->
  (forall ws', length ws' = length ws -> Forall is_u64 ws' ->
     (forall k, 0 <= k -> bit_at ws' k = (k <? s) && bit_at ws k) -> Q tt (with_words m map ws')) ->
  wp (bm_trim bm (Z.of_nat (length ws)) s) Q m.
Proof.
  intros Ho Ha Hu Hs Hc HQ. unfold bm_trim, BITS_PER_USIZE.
  rewrite u64_small by (unfold is_u64, two64; lia). rewrite (Z.mul_comm _ 64).
  destruct (Z.ltb_spec 0 (64 * Z.of_nat (length ws) - s)) as [Hex|Hex].
  - assert (exists n, S n = length ws) as [n Hn] by (exists (length ws - 1)%nat; lia).
    destruct (lookup_lt_is_Some_2 ws n) as [w Hw]; [lia|].
    assert (Z.to_nat (Z.of_nat (length ws) - 1) = n) as Ei by lia.
    apply wp_bind. eapply wp_load; [exact Ho|]. simpl.
    apply wp_bind. eapply (wp_arr_get map ws _ w); [exact Ha|lia|by rewrite Ei|].
    eapply wp_arr_set; [exact Ha|lia|]. rewrite Ei. apply HQ.
    + apply length_insert.
    + apply Forall_insert; [done|]. apply is_u64_land; [by eapply Forall_lookup_1 in Hw|].
      by apply is_u64_shiftr; [|lia].
    + apply bit_at_trim; [done..|lia].
  - apply wp_ret. rewrite <- (with_words_id m map ws) by done. apply HQ; [done..|].
    intros k Hk. destruct (Z.ltb_spec k s); [done|]. apply bit_at_past. lia.
Qed.

Lemma bitmap_set_all_spec m bm map size ws :
  bitmap_own m bm map size ws ->
  wp (bitmap_set_all bm) (fun _ m' => exists ws', bm_result m bm map size ws' m' /\
    length ws' = length ws /\ Forall is_u64 ws' /\ forall k, 0 <= k -> bit_at ws' k = (k <? size)) m.
Proof.
  intros Hown. eapply wp_bitmap_lock; [exact Hown|]. intros lk m1 Hh Hrep Hm1.
  apply wp_bind. eapply wp_load_bitmap; [exact Hrep|]. simpl. rewrite (num_units_eq _ _ _ _ _ _ Hrep).
  pose proof (bitmap_rep_cover _ _ _ _ _ _ Hrep) as Hc. pose proof Hrep as [_ Ho Ha _ Hu _ [Hs _] _].
  apply wp_bind. eapply wp_bm_fill; [exact Ho|exact Ha|lia..|].
  rewrite Z.add_0_l, Nat2Z.id, drop_all, app_nil_r. simpl.
  apply wp_bind. assert (length (replicate (length ws) ALL_ONES) = length ws) as Hl by apply length_replicate.
  remember (replicate (length ws) ALL_ONES) as ones eqn:Eones. rewrite <- Hl.
  eapply (wp_bm_trim _ bm map size lk).
  - by apply with_words_obj.
  - apply with_words_arr.
  - subst ones. apply Forall_replicate. by unfold ALL_ONES, is_u64.
  - done.
  - by rewrite Hl.
  - intros ws' Hl' Hu' Hb. unfold with_words at 1. ksimpl.
    replace (h_set _ _) with (with_words m1 map ws').
    2:{ unfold with_words. ksimpl. by rewrite insert_insert_eq. }
    eapply wp_bitmap_unlock_tt; [done..|]. intros m' Hm'. exists ws'. split; [exact Hm'|].
    split_and!; [by rewrite Hl', Hl|done|]. intros k Hk. rewrite Hb, Eones, bit_at_replicate by done.
    destruct (Z.ltb_spec k size); [|done]. simpl. destruct (Z.ltb_spec k (64 * Z.of_nat (length ws))); [|lia].
    unfold ALL_ONES. rewrite ones64_testbit by (apply Z.mod_pos_bound; lia).
    apply bool_decide_eq_true_2. apply Z.mod_pos_bound. lia.
Qed.

(** ** Counting *)
Fixpoint count_bits (f : Z -> bool) (n : nat) : Z :=
  match n with
  | O => 0
  | S n => count_bits f n + Z.b2z (f (Z.of_nat n))
  end.

Lemma count_bits_ext f g n :
  (forall k, 0 <= k < Z.of_nat n -> f k = g k) -> count_bits f n = count_bits g n.
Proof.
  induction n as [|n IH]; intros Heq; simpl; [done|]. rewrite IH, Heq by (intros; try apply Heq; lia). done.
Qed.

Lemma count_bits_bound f n : 0 <= count_bits f n <= Z.of_nat n.
Proof. induction n as [|n IH]; cbn [count_bits]; [lia|]. destruct (f (Z.of_nat n)); simpl Z.b2z; lia. Qed.

Lemma count_bits_app f a b :
  count_bits f (a + b) = count_bits f a + count_bits (fun k => f (Z.of_nat a + k)) b.
Proof.
  induction b as [|b IH]; [rewrite Nat.add_0_r; simpl; lia|].
  rewrite Nat.add_succ_r. cbn [count_bits]. rewrite IH, Nat2Z.inj_add. lia.
Qed.

Lemma count_bits_false f n : (forall k, 0 <= k < Z.of_nat n -> f k = false) -> count_bits f n = 0.
Proof.
  intros Hf. rewrite (count_bits_ext f (fun _ => false)) by done. clear. induction n as [|n IH]; simpl; [done|lia].
Qed.

Lemma count_bits_negb f n : count_bits (fun k => negb (f k)) n = Z.of_nat n - count_bits f n.
Proof. induction n as [|n IH]; cbn [count_bits]; [done|]. rewrite IH. destruct (f (Z.of_nat n)); simpl Z.b2z; lia. Qed.

Lemma popcount_loop_spec n w c :
  0 <= w < 2 ^ Z.of_nat n -> 0 <= c -> c + Z.of_nat n < two64 ->
  popcount_loop n w c = c + count_bits (Z.testbit w) n.
Proof.
  revert w c. induction n as [|n IH]; intros w c Hw Hc Hlt; [simpl; lia|]. cbn [popcount_loop].
  destruct (Z.eqb_spec w 0) as [->|Hw0].
  { rewrite count_bits_false; [lia|]. intros. apply Z.bits_0. }
  assert (Z.land w 1 = Z.b2z (Z.testbit w 0)) as Hl.
  { change 1 with (Z.ones 1). rewrite Z.land_ones by lia. by rewrite Z.bit0_mod. }
  assert (0 <= Z.b2z (Z.testbit w 0) <= 1) by (destruct (Z.testbit w 0); simpl; lia).
  rewrite Hl, u64_small by (unfold is_u64; lia).
  rewrite IH; [|rewrite Z.shiftr_div_pow2 by lia|lia|lia].
  - change (S n) with (1 + n)%nat. rewrite (count_bits_app _ 1 n). cbn [count_bits]. change (Z.of_nat 0) with 0.
    rewrite (count_bits_ext (Z.testbit (Z.shiftr w 1)) (fun k => Z.testbit w (Z.of_nat 1 + k))); [lia|].
    intros k Hk. rewrite Z.shiftr_spec by lia. f_equal. lia.
  - rewrite Nat2Z.inj_succ, Z.pow_succ_r in Hw by lia. split; [apply Z.div_pos; lia|].
    apply Z.div_lt_upper_bound; lia.
Qed.

Lemma bit_at_word ws i w k :
  ws !! i = Some w -> 0 <= k < 64 -> bit_at ws (64 * Z.of_nat i + k) = Z.testbit w k.
Proof.
  intros Hw Hk. unfold bit_at. rewrite (Z.mul_comm 64), Z.div_add_l, Z.div_small, Z.add_0_r, Nat2Z.id, Hw by lia.
  by rewrite Z.add_comm, Z.mod_add, Z.mod_small by lia.
Qed.

Lemma bitmap_count_set_spec m bm map size ws :
  bitmap_own m bm map size ws ->
  wp (bitmap_count_set bm) (fun r m' => bm_result m bm map size ws m' /\
    r = count_bits (bit_at ws) (Z.to_nat size)) m.
Proof.
  intros Hown. eapply wp_bitmap_lock; [exact Hown|]. intros lk m1 Hh Hrep Hm1.
  apply wp_bind. eapply wp_load_bitmap; [exact Hrep|]. simpl. rewrite (num_units_eq _ _ _ _ _ _ Hrep), Nat2Z.id.
  pose proof (bitmap_rep_cover _ _ _ _ _ _ Hrep) as Hc. pose proof Hrep as [_ Ho Ha _ Hu _ [Hs H64] Ht].
  apply wp_bind.
  assert (forall n i, (i + n = length ws)%nat ->
    count_set_loop map n (Z.of_nat i) (count_bits (bit_at ws) (64 * i)) m1 =
      Done (count_bits (bit_at ws) (64 * length ws)) m1) as Hloop.
  { induction n as [|n IH]; intros i Hi; cbn [count_set_loop]; [by replace (length ws) with i by lia|].
    destruct (lookup_lt_is_Some_2 ws i) as [w Hw]; [lia|].
    pose proof (Forall_lookup_1 _ _ _ _ Hu Hw) as Hw64.
    erewrite M_bind_done. 2:{ unfold arr_get. erewrite M_bind_done by (unfold load; by rewrite Ha).
      destruct (Z.ltb_spec (Z.of_nat i) 0); [lia|]. by rewrite Nat2Z.id, Hw. }
    replace (Z.of_nat i + 1) with (Z.of_nat (S i)) by lia.
    replace (popcount_loop _ _ _) with (count_bits (bit_at ws) (64 * S i)); [apply IH; lia|].
    pose proof (count_bits_bound (bit_at ws) (64 * i)).
    rewrite (popcount_loop_spec 64) by (unfold is_u64 in *; rewrite ?two64_eq in *; lia).
    replace (64 * S i)%nat with (64 * i + 64)%nat by lia. rewrite count_bits_app. f_equal.
    apply count_bits_ext. intros k Hk. rewrite Nat2Z.inj_mul. by apply bit_at_word. }
  pose proof (Hloop (length ws) O eq_refl) as Hl. change (Z.of_nat 0) with 0 in Hl.
  change (count_bits (bit_at ws) (64 * 0)) with 0 in Hl. unfold wp at 1. rewrite Hl.
  eapply wp_bitmap_unlock_same; [done..|]. intros m' Hm'. split; [done|].
  replace (64 * length ws)%nat with (Z.to_nat size + (64 * length ws - Z.to_nat size))%nat by lia.
  rewrite count_bits_app, (count_bits_false (fun k => bit_at ws (Z.of_nat (Z.to_nat size) + k))); [lia|]. intros k Hk. apply Ht. lia.
Qed.

Lemma bitmap_count_unset_spec m bm map size ws :
  bitmap_own m bm map size ws ->
  wp (bitmap_count_unset bm) (fun r m' => bm_result m bm map size ws m' /\
    r = count_bits (fun k => negb (bit_at ws k)) (Z.to_nat size)) m.
Proof.
  intros Hown. pose proof Hown as (lk0 & _ & Hrep0). unfold bitmap_count_unset. apply wp_bind.
  eapply wp_load_bitmap; [exact Hrep0|]. apply wp_bind. eapply wp_mono; [by apply bitmap_count_set_spec|].
  intros r m' [Hm' ->]. apply wp_ret. split; [done|]. simpl. destruct Hrep0 as [_ _ _ _ _ _ [Hs H64] _].
  pose proof (count_bits_bound (bit_at ws) (Z.to_nat size)). rewrite count_bits_negb, u64_small; unfold is_u64; lia.
Qed.

(** ** The first clear bit *)
Definition word_full (ws : list Z) (size i : Z) : Prop :=
  forall b, 0 <= b < 64 -> 64 * i + b < size -> bit_at ws (64 * i + b) = true.

Instance word_full_dec ws size i : Decision (word_full ws size i).
Proof.
  refine (cast_if (decide (Forall (fun b => 64 * i + b < size -> bit_at ws (64 * i + b) = true) (seqZ 0 64)))).
  - intros b Hb; rewrite Forall_forall in f; apply f, elem_of_seqZ; lia.
  - intros Hc; apply n, Forall_forall; intros b Hb; apply Hc; apply elem_of_seqZ in Hb; lia.
Defined.

Definition first_clear (ws : list Z) (size p : Z) : Prop :=
  0 <= p < size /\ bit_at ws p = false /\ forall k, 0 <= k < p -> bit_at ws k = true.

(** What the body of the outer loop finds in word [i]. *)
Lemma find_in_word m map ws size i w :
  words m !! map = Some ws -> ws !! i = Some w ->
  exists r, for_range (R:=option Z) 64 0 (fun bit =>
      let bit_pos := Z.of_nat i * BITS_PER_USIZE + bit in
      if size <=? bit_pos then ret! (Some None) else
      let! w := arr_get map (Z.of_nat i) in
      ret! (if Z.land w (bit_mask bit) =? 0 then Some (Some bit_pos) else None)) m = Done r m /\
    match r with
    | Some (Some p) => exists b, 0 <= b < 64 /\ p = 64 * Z.of_nat i + b /\ p < size /\ bit_at ws p = false /\
                         forall b', 0 <= b' < b -> bit_at ws (64 * Z.of_nat i + b') = true
    | _ => word_full ws size (Z.of_nat i)
    end.
Proof.
  intros Ha Hw. unfold BITS_PER_USIZE.
  destruct (for_range_search (fun bit => let bit_pos := Z.of_nat i * 64 + bit in
        if size <=? bit_pos then ret! (Some None) else
        let! w := arr_get map (Z.of_nat i) in
        ret! (if Z.land w (bit_mask bit) =? 0 then Some (Some bit_pos) else None))
      (fun b => if size <=? Z.of_nat i * 64 + b then Some None else
        if Z.testbit w b then None else Some (Some (Z.of_nat i * 64 + b))) 64 0 m) as (r & Hr & Hspec).
  { intros b Hb. cbv zeta. destruct (size <=? _); [done|]. erewrite M_bind_done.
    2:{ unfold arr_get. erewrite M_bind_done by (unfold load; by rewrite Ha).
        destruct (Z.ltb_spec (Z.of_nat i) 0); [lia|]. by rewrite Nat2Z.id, Hw. }
    rewrite land_bit_mask_0 by lia. by destruct (Z.testbit w b). }
  exists r. split; [exact Hr|].
  assert (forall b, 0 <= b < 64 -> bit_at ws (64 * Z.of_nat i + b) = Z.testbit w b) as Hbit
    by (intros; by apply bit_at_word).
  destruct r as [[p|]|].
  - destruct Hspec as (b & Hb & Hf & Hlt). exists b. destruct (Z.leb_spec size (Z.of_nat i * 64 + b)); [done|].
    destruct (Z.testbit w b) eqn:E; [done|]. injection Hf as <-. split_and!; [lia..| |].
    + rewrite (Z.mul_comm _ 64). rewrite Hbit by lia. done.
    + intros b' Hb'. rewrite Hbit by lia. specialize (Hlt b' ltac:(lia)).
      destruct (size <=? _); [done|]. by destruct (Z.testbit w b').
  - destruct Hspec as (b & Hb & Hf & Hlt). destruct (Z.leb_spec size (Z.of_nat i * 64 + b)).
    2:{ by destruct (Z.testbit w b). }
    intros b' Hb' Hin. rewrite Hbit by lia. specialize (Hlt b' ltac:(lia)).
    destruct (Z.leb_spec size (Z.of_nat i * 64 + b')); [lia|]. by destruct (Z.testbit w b').
  - intros b' Hb' Hin. rewrite Hbit by lia. specialize (Hspec b' ltac:(lia)).
    destruct (Z.leb_spec size (Z.of_nat i * 64 + b')); [lia|]. by destruct (Z.testbit w b').
Qed.

Lemma words_full_below ws size i k :
  (forall j, 0 <= j < i -> word_full ws size j) -> 0 <= k < 64 * i -> k < size -> bit_at ws k = true.
Proof.
  intros Hall Hk Hs. pose proof (Z.div_mod k 64 ltac:(lia)) as Hd. pose proof (Z.mod_pos_bound k 64 ltac:(lia)).
  rewrite Hd. apply Hall; [|lia|lia]. split; [apply Z.div_pos; lia|apply Z.div_lt_upper_bound; lia].
Qed.

Lemma bitmap_find_first_unset_spec m bm map size ws :
  bitmap_own m bm map size ws ->
  wp (bitmap_find_first_unset bm) (fun r m' => bm_result m bm map size ws m' /\
    ((r = (- ENOENT, None) /\ forall k, 0 <= k < size -> bit_at ws k = true) \/
     exists p, r = (0, Some p) /\ first_clear ws size p)) m.
Proof.
  intros Hown. eapply wp_bitmap_lock; [exact Hown|]. intros lk m1 Hh Hrep Hm1.
  apply wp_bind. eapply wp_load_bitmap; [exact Hrep|]. cbn [bm_map bm_size]. rewrite (num_units_eq _ _ _ _ _ _ Hrep), Nat2Z.id.
  pose proof (bitmap_rep_cover _ _ _ _ _ _ Hrep) as Hc. pose proof Hrep as [_ Ho Ha _ Hu _ [Hs H64] Ht].
  assert (forall j, 0 <= j < Z.of_nat (length ws) -> exists i w, j = Z.of_nat i /\ ws !! i = Some w /\
    arr_get map j m1 = Done w m1) as Hget.
  { intros j Hj. destruct (lookup_lt_is_Some_2 ws (Z.to_nat j)) as [w Hw]; [lia|].
    exists (Z.to_nat j), w. split_and!; [lia|done|]. unfold arr_get.
    erewrite M_bind_done by (unfold load; by rewrite Ha). destruct (Z.ltb_spec j 0); [lia|]. by rewrite Hw. }
  apply wp_bind. eapply (wp_for_range_first (fun i => ~ word_full ws size i)).
  - intros j Hj Hfull. destruct (Hget j ltac:(lia)) as (i & w & -> & Hw & Hr). erewrite M_bind_done by exact Hr.
    destruct (w =? ALL_ONES); [done|]. destruct (find_in_word m1 map ws size i w Ha Hw) as (r & Hr' & Hspec).
    erewrite M_bind_done by exact Hr'. destruct r as [[p|]|]; [|done..]. exfalso. apply Hfull. intros Hf.
    destruct Hspec as (b & Hb & -> & Hlt & Hbit & _). by rewrite Hf in Hbit by lia.
  - intros j Hj Hnf Hfirst. destruct (Hget j ltac:(lia)) as (i & w & -> & Hw & Hr).
    apply wp_bind. unfold wp at 1. rewrite Hr. destruct (Z.eqb_spec w ALL_ONES) as [->|Hne].
    { exfalso. apply Hnf. intros b Hb _. rewrite (bit_at_word ws i ALL_ONES) by done.
      unfold ALL_ONES. rewrite ones64_testbit by lia. apply bool_decide_eq_true_2. lia. }
    destruct (find_in_word m1 map ws size i w Ha Hw) as (r & Hr' & Hspec).
    apply wp_bind. unfold wp at 1. cbv zeta in Hr' |- *. rewrite Hr'. destruct r as [[p|]|]; [|done..].
    apply wp_ret. exists p. split; [done|]. eapply wp_bitmap_unlock_same; [done..|]. intros m' Hm'.
    split; [done|]. right. exists p. split; [done|]. destruct Hspec as (b & Hb & -> & Hlt & Hbit & Hpre).
    split_and!; [lia|done|done|]. intros k Hk. destruct (decide (k < 64 * Z.of_nat i)).
    + apply (words_full_below ws size (Z.of_nat i)); [|lia|lia]. intros j' Hj'.
      destruct (decide (word_full ws size j')) as [|Hn]; [done|]. exfalso. by apply (Hfirst j'); [lia|].
    + replace k with (64 * Z.of_nat i + (k - 64 * Z.of_nat i)) by lia. apply Hpre. lia.
  - intros Hall. eapply wp_bitmap_unlock_same; [done..|]. intros m' Hm'. split; [done|]. left. split; [done|].
    intros k Hk. apply (words_full_below ws size (Z.of_nat (length ws))); [|lia|lia].
    intros j Hj. destruct (decide (word_full ws size j)) as [|Hn]; [done|]. exfalso. by apply (Hall j); [lia|].
Qed.
