(* ===== verification/BitmapSpec.v ===== *)
(** * The abstract bitmap: a finite set of bit positions

    Every operation of ds/bitmap.c as a function on the set of the bits that are
    set, and the simulation between sequences of calls and that machine. *)
From S2P Require Import Prelude Errno Spinlock KMem Queue Bitmap BitmapFacts.

(** ** The abstract machine *)
Inductive b_op :=
  | BSet (pos n : Z) | BUnset (pos n : Z) | BTest (pos n : Z) | BToggle (pos n : Z)
  | BAlloc (n : Z) | BFind | BClear | BFill | BCount | BCountUnset.

Definition b_res : Type := Z * option Z.

Definition rng (pos n : Z) : gset Z := list_to_set (seqZ pos n).

Definition b_step (sz : Z) (o : b_op) (X : gset Z) : b_res * gset Z :=
  match o with
  | BSet p n =>
      if sz <? p + n then ((- EINVAL, None), X)
      else if decide (rng p n ## X) then ((0, None), X ∪ rng p n) else ((- EALREADY, None), X)
  | BUnset p n =>
      if sz <? p + n then ((- EINVAL, None), X)
      else if decide (rng p n ⊆ X) then ((0, None), X ∖ rng p n) else ((- EALREADY, None), X)
  | BTest p n =>
      if sz <? p + n then ((- EINVAL, None), X)
      else ((if decide (rng p n ⊆ X) then 1 else 0, None), X)
  | BToggle p n =>
      if sz <? p + n then ((- EINVAL, None), X)
      else ((0, None), (X ∖ rng p n) ∪ (rng p n ∖ X))
  | BAlloc n =>
      if (n =? 0) || (sz <? n) then ((- EINVAL, None), X)
      else match list_find (fun i => rng i n ## X) (seqZ 0 (sz - n + 1)) with
           | Some (_, i) => ((0, Some i), X ∪ rng i n)
           | None => ((- ENOSPC, None), X)
           end
  | BFind =>
      (match list_find (fun k => k ∉ X) (seqZ 0 sz) with
       | Some (_, k) => (0, Some k)
       | None => (- ENOENT, None)
       end, X)
  | BClear => ((0, None), ∅)
  | BFill => ((0, None), rng 0 sz)
  | BCount => ((Z.of_nat (size X), None), X)
  | BCountUnset => ((sz - Z.of_nat (size X), None), X)
  end.

Fixpoint b_steps (sz : Z) (os : list b_op) (X : gset Z) : list b_res * gset Z :=
  match os with
  | [] => ([], X)
  | o :: os => let '(r, X1) := b_step sz o X in let '(rs, X2) := b_steps sz os X1 in (r :: rs, X2)
  end.

(** The arguments are [usize] values whose sum does not wrap. *)
Definition b_arg_ok (o : b_op) : Prop :=
  match o with
  | BSet p n | BUnset p n | BTest p n | BToggle p n => 0 <= p /\ 0 <= n /\ p + n < two64
  | BAlloc n => 0 <= n < two64
  | _ => True
  end.

(** ** The calls *)
Definition b_exec (bm : Z) (o : b_op) : K b_res :=
  match o with
  | BSet p n => let! r := bitmap_set bm p n in ret! (r, None)
  | BUnset p n => let! r := bitmap_unset bm p n in ret! (r, None)
  | BTest p n => let! r := bitmap_test bm p n in ret! (r, None)
  | BToggle p n => let! r := bitmap_toggle bm p n in ret! (r, None)
  | BAlloc n => bitmap_alloc_range bm n true
  | BFind => bitmap_find_first_unset bm
  | BClear => do! bitmap_clear_all bm in ret! (0, None)
  | BFill => do! bitmap_set_all bm in ret! (0, None)
  | BCount => let! r := bitmap_count_set bm in ret! (r, None)
  | BCountUnset => let! r := bitmap_count_unset bm in ret! (r, None)
  end.

Fixpoint b_run (bm : Z) (os : list b_op) : K (list b_res) :=
  match os with
  | [] => ret! []
  | o :: os => let! r := b_exec bm o in let! rs := b_run bm os in ret! (r :: rs)
  end.

(** ** Words that represent a set *)
Definition repr (ws : list Z) (sz : Z) (X : gset Z) : Prop :=
  forall k, k ∈ X <-> 0 <= k < sz /\ bit_at ws k = true.

Lemma elem_of_rng k p n : k ∈ rng p n <-> p <= k < p + n.
Proof. unfold rng. rewrite elem_of_list_to_set, elem_of_seqZ. lia. Qed.

Lemma repr_not ws sz X k : repr ws sz X -> 0 <= k < sz -> k ∉ X <-> bit_at ws k = false.
Proof. intros HX Hk. rewrite (HX k). destruct (bit_at ws k); naive_solver. Qed.

Lemma repr_disjoint ws sz X p n :
  repr ws sz X -> 0 <= p -> p + n <= sz -> rng p n ## X <-> range_clear ws p n.
Proof.
  intros HX Hp Hn. split.
  - intros Hd k Hk. apply (repr_not _ _ _ _ HX); [lia|]. intros Hin. apply (Hd k); [by apply elem_of_rng|done].
  - intros Hc k Hk Hin. apply elem_of_rng in Hk. specialize (Hc k Hk). apply HX in Hin as [_ Hin]. congruence.
Qed.

Lemma repr_subset ws sz X p n :
  repr ws sz X -> 0 <= p -> p + n <= sz ->
  rng p n ⊆ X <-> forall k, p <= k < p + n -> bit_at ws k = true.
Proof.
  intros HX Hp Hn. split.
  - intros Hs k Hk. apply HX, Hs, elem_of_rng. done.
  - intros Hall k Hk%elem_of_rng. apply HX. split; [lia|auto].
Qed.

(** A range updated with [g] represents the set with [f] applied on the range. *)
Lemma repr_update ws sz X g p n ws' Y :
  repr ws sz X -> range_updated ws g p n ws' ->
  (forall k, 0 <= k < sz -> k ∈ Y <-> (if decide (p <= k < p + n) then g (bit_at ws k) = true else k ∈ X)) ->
  (forall k, k ∈ Y -> 0 <= k < sz) -> repr ws' sz Y.
Proof.
  intros HX (_ & _ & Hb) HY Hin k. split.
  - intros Hk. pose proof (Hin k Hk) as Hr. split; [done|]. rewrite Hb by lia. apply HY in Hk; [|done].
    case_decide as Hd.
    + destruct (Z.leb_spec p k), (Z.ltb_spec k (p + n)); try lia. done.
    + apply HX in Hk as [_ Hk]. destruct (Z.leb_spec p k), (Z.ltb_spec k (p + n)); try lia; done.
  - intros [Hr Hk]. apply HY; [done|]. rewrite Hb in Hk by lia. case_decide as Hd.
    + destruct (Z.leb_spec p k), (Z.ltb_spec k (p + n)); try lia. done.
    + apply HX. split; [done|]. destruct (Z.leb_spec p k), (Z.ltb_spec k (p + n)); try lia; done.
Qed.

(** Counting the set bits is the size of the set. *)
Lemma count_bits_filter f n :
  count_bits f n = Z.of_nat (length (filter (fun k => f k = true) (seqZ 0 (Z.of_nat n)))).
Proof.
  induction n as [|n IH]; [done|]. cbn [count_bits]. rewrite IH, Nat2Z.inj_succ, <- Z.add_1_r, seqZ_app by lia.
  rewrite filter_app, length_app, Z.add_0_l. change (seqZ (Z.of_nat n) 1) with [Z.of_nat n].
  rewrite filter_cons, filter_nil.
  case_decide as E; [rewrite E|apply not_true_is_false in E; rewrite E]; simpl; lia.
Qed.

Lemma repr_count ws sz X : 0 <= sz -> repr ws sz X -> count_bits (bit_at ws) (Z.to_nat sz) = Z.of_nat (size X).
Proof.
  intros Hs HX. rewrite count_bits_filter, Z2Nat.id by done. f_equal.
  replace X with (list_to_set (filter (fun k => bit_at ws k = true) (seqZ 0 sz)) : gset Z).
  - symmetry. apply size_list_to_set. apply NoDup_filter, NoDup_seqZ.
  - apply set_eq. intros k. rewrite elem_of_list_to_set, list_elem_of_filter, elem_of_seqZ, (HX k). naive_solver lia.
Qed.

(** [list_find] over an interval of integers. *)
Lemma list_find_seqZ_Some (P : Z -> Prop) `{forall x, Decision (P x)} n i :
  0 <= i < n -> P i -> (forall j, 0 <= j < i -> ~ P j) -> list_find P (seqZ 0 n) = Some (Z.to_nat i, i).
Proof.
  intros Hi HP Hlt. apply list_find_Some. rewrite lookup_seqZ. split_and!; [lia|lia|done|].
  intros j y [-> Hy]%lookup_seqZ Hj. apply Hlt. lia.
Qed.
Lemma list_find_seqZ_None (P : Z -> Prop) `{forall x, Decision (P x)} n :
  (forall j, 0 <= j < n -> ~ P j) -> list_find P (seqZ 0 n) = None.
Proof. intros Hno. apply list_find_None, Forall_forall. intros j Hj%elem_of_seqZ. apply Hno. lia. Qed.

(** ** Simulation *)
Definition b_simulates (m : kmem) (bm map sz : Z) (X : gset Z) (o : b_op) (r : b_res) (m' : kmem) : Prop :=
  exists ws', bitmap_own m' bm map sz ws' /\ bm_result m bm map sz ws' m' /\
    repr ws' sz (b_step sz o X).2 /\ r = (b_step sz o X).1.

Lemma bm_result_trans m m1 m2 bm map sz ws1 ws2 :
  bm_result m bm map sz ws1 m1 -> bm_result m1 bm map sz ws2 m2 -> bm_result m bm map sz ws2 m2.
Proof.
  intros (lk1 & _ & ->) (lk2 & Hl & ->). exists lk2. split; [done|]. ksimpl. rewrite !insert_insert_eq.
  rewrite (h_set_comm (T1:=list Z) (T2:=bitmap_t)). by ksimpl.
Qed.

Lemma bm_result_refl m bm map sz ws : bitmap_own m bm map sz ws -> bm_result m bm map sz ws m.
Proof.
  intros (lk & Hl & [_ Ho Ha _ _ _ _ _]). exists lk. split; [done|].
  rewrite (insert_id (words m)), h_set_get, insert_id by done. symmetry. apply h_set_get.
Qed.

Section Steps.
Context (m : kmem) (bm map sz : Z) (ws : list Z) (X : gset Z).
Hypothesis Hown : bitmap_own m bm map sz ws.
Hypothesis HX : repr ws sz X.

Lemma own_size : 0 < sz.
Proof. destruct Hown as (lk & _ & [_ _ _ _ _ _ [Hs _] _]). done. Qed.

(** An operation that leaves the words alone. *)
Lemma b_simulates_same o r m' :
  bm_result m bm map sz ws m' -> b_step sz o X = (r, X) -> b_simulates m bm map sz X o r m'.
Proof.
  intros Hres Hs. exists ws. rewrite Hs. split_and!; try done.
  pose proof Hown as (lk & _ & [_ _ _ _ Hu _ _ Ht]). by eapply bm_result_own.
Qed.

(** An operation that updates one range. *)
Lemma b_simulates_range o r m' g p n ws' Y :
  bm_result m bm map sz ws' m' -> range_updated ws g p n ws' -> 0 <= p -> p + n <= sz ->
  b_step sz o X = (r, Y) ->
  (forall k, 0 <= k < sz -> k ∈ Y <-> (if decide (p <= k < p + n) then g (bit_at ws k) = true else k ∈ X)) ->
  (forall k, k ∈ Y -> 0 <= k < sz) -> b_simulates m bm map sz X o r m'.
Proof.
  intros Hres Hu Hp Hn Hs HY Hin. pose proof own_size. exists ws'. rewrite Hs. split_and!; try done.
  - pose proof Hown as (lk & _ & [_ _ _ _ _ _ _ Ht]). pose proof Hu as (Hl & Hu' & _).
    eapply bm_result_own; [done..|]. eapply range_updated_tail; [done..|lia|done].
  - by eapply repr_update.
Qed.

Lemma rng_in k p n : k ∈ rng p n -> 0 <= p -> p + n <= sz -> 0 <= k < sz.
Proof. rewrite elem_of_rng. lia. Qed.

Lemma b_exec_set p n :
  b_arg_ok (BSet p n) -> wp (b_exec bm (BSet p n)) (b_simulates m bm map sz X (BSet p n)) m.
Proof.
  intros (Hp & Hn & H64). simpl. apply wp_bind. eapply wp_mono; [by apply bitmap_set_spec|].
  intros r m' (ws' & Hres & [(Hlt & -> & ->)|[(Hle & -> & -> & k & Hk & Hb)|(Hle & -> & Hu & Hcl)]]); apply wp_ret.
  - apply b_simulates_same; [done|]. simpl. by destruct (Z.ltb_spec sz (p + n)); [|lia].
  - apply b_simulates_same; [done|]. simpl. destruct (Z.ltb_spec sz (p + n)); [lia|].
    rewrite decide_False; [done|]. rewrite (repr_disjoint ws sz) by done. intros Hc. by rewrite Hc in Hb by done.
  - eapply (b_simulates_range _ _ _ _ p n); [done|exact Hu|done|done| | |].
    + simpl. destruct (Z.ltb_spec sz (p + n)); [lia|]. rewrite decide_True; [done|]. by apply (repr_disjoint ws sz).
    + intros k Hk. rewrite elem_of_union, elem_of_rng. case_decide; naive_solver.
    + intros k [Hk%HX|Hk]%elem_of_union; [naive_solver|by eapply rng_in].
Qed.

Lemma b_exec_unset p n :
  b_arg_ok (BUnset p n) -> wp (b_exec bm (BUnset p n)) (b_simulates m bm map sz X (BUnset p n)) m.
Proof.
  intros (Hp & Hn & H64). simpl. apply wp_bind. eapply wp_mono; [by apply bitmap_unset_spec|].
  intros r m' (ws' & Hres & [(Hlt & -> & ->)|[(Hle & -> & -> & k & Hk & Hb)|(Hle & -> & Hu & Hcl)]]); apply wp_ret.
  - apply b_simulates_same; [done|]. simpl. by destruct (Z.ltb_spec sz (p + n)); [|lia].
  - apply b_simulates_same; [done|]. simpl. destruct (Z.ltb_spec sz (p + n)); [lia|].
    rewrite decide_False; [done|]. rewrite (repr_subset ws sz) by done. intros Hc. by rewrite Hc in Hb by done.
  - eapply (b_simulates_range _ _ _ _ p n); [done|exact Hu|done|done| | |].
    + simpl. destruct (Z.ltb_spec sz (p + n)); [lia|]. rewrite decide_True; [done|]. by apply (repr_subset ws sz).
    + intros k Hk. rewrite elem_of_difference, elem_of_rng. case_decide; naive_solver.
    + intros k [Hk%HX _]%elem_of_difference. naive_solver.
Qed.

Lemma b_exec_test p n :
  b_arg_ok (BTest p n) -> wp (b_exec bm (BTest p n)) (b_simulates m bm map sz X (BTest p n)) m.
Proof.
  intros (Hp & Hn & H64). simpl. apply wp_bind. eapply wp_mono; [by apply bitmap_test_spec|].
  intros r m' [Hres [(Hlt & ->)|[(Hle & -> & k & Hk & Hb)|(Hle & -> & Hall)]]]; apply wp_ret;
    (apply b_simulates_same; [done|]); simpl; destruct (Z.ltb_spec sz (p + n)); try lia; [done|..].
  - rewrite decide_False; [done|]. rewrite (repr_subset ws sz) by done. intros Hc. by rewrite Hc in Hb by done.
  - rewrite decide_True; [done|]. by apply (repr_subset ws sz).
Qed.

Lemma b_exec_toggle p n :
  b_arg_ok (BToggle p n) -> wp (b_exec bm (BToggle p n)) (b_simulates m bm map sz X (BToggle p n)) m.
Proof.
  intros (Hp & Hn & H64). simpl. apply wp_bind. eapply wp_mono; [by apply bitmap_toggle_spec|].
  intros r m' [(Hlt & -> & ->)|(Hle & -> & ws' & Hres & Hu)]; apply wp_ret.
  - apply b_simulates_same; [by apply bm_result_refl|]. simpl. by destruct (Z.ltb_spec sz (p + n)); [|lia].
  - eapply (b_simulates_range _ _ _ _ p n); [done|exact Hu|done|done| | |].
    + simpl. by destruct (Z.ltb_spec sz (p + n)); [lia|].
    + intros k Hk. rewrite elem_of_union, !elem_of_difference, elem_of_rng.
      pose proof (repr_not _ _ _ k HX Hk) as Hnot. case_decide; destruct (bit_at ws k); naive_solver.
    + intros k [[Hk%HX _]%elem_of_difference|[Hk _]%elem_of_difference]%elem_of_union; [naive_solver|by eapply rng_in].
Qed.

Lemma b_exec_alloc n :
  b_arg_ok (BAlloc n) -> wp (b_exec bm (BAlloc n)) (b_simulates m bm map sz X (BAlloc n)) m.
Proof.
  intros Hn. simpl. eapply wp_mono; [by apply bitmap_alloc_range_spec|].
  intros r m' (ws' & Hres & [(-> & -> & Hbad)|[(-> & -> & Hr & Hno)|(i & -> & Hr & (Hi & Hin & Hcl & Hfirst) & Hu)]]).
  - apply b_simulates_same; [done|]. simpl.
    by destruct (Z.eqb_spec n 0), (Z.ltb_spec sz n); simpl; try lia.
  - apply b_simulates_same; [done|]. simpl. destruct (Z.eqb_spec n 0), (Z.ltb_spec sz n); simpl; try lia.
    rewrite list_find_seqZ_None; [done|]. intros j Hj. rewrite (repr_disjoint ws sz) by (done || lia). apply Hno; lia.
  - eapply (b_simulates_range _ _ _ _ i n); [done|exact Hu|done|done| | |].
    + simpl. destruct (Z.eqb_spec n 0), (Z.ltb_spec sz n); simpl; try lia.
      rewrite (list_find_seqZ_Some _ _ i); [done|lia|by apply (repr_disjoint ws sz)|].
      intros j Hj. rewrite (repr_disjoint ws sz) by (done || lia). by apply Hfirst.
    + intros k Hk. rewrite elem_of_union, elem_of_rng. case_decide; naive_solver.
    + intros k [Hk%HX|Hk]%elem_of_union; [naive_solver|by eapply rng_in].
Qed.

Lemma b_exec_find : wp (b_exec bm BFind) (b_simulates m bm map sz X BFind) m.
Proof.
  simpl. eapply wp_mono; [by apply bitmap_find_first_unset_spec|].
  intros r m' [Hres [(-> & Hall)|(p & -> & Hp & Hb & Hlt)]]; (apply b_simulates_same; [done|]); simpl.
  - rewrite list_find_seqZ_None; [done|]. intros j Hj Hn. apply (repr_not _ _ _ _ HX) in Hn; [|done].
    rewrite Hall in Hn by done. done.
  - rewrite (list_find_seqZ_Some _ _ p); [done|done|by apply (repr_not _ _ _ _ HX)|].
    intros j Hj Hn. apply (repr_not _ _ _ _ HX) in Hn; [|lia]. rewrite Hlt in Hn by done. done.
Qed.

Lemma b_exec_all v o :
  (forall ws', length ws' = length ws -> (forall k, 0 <= k -> bit_at ws' k = v && (k <? sz)) ->
     repr ws' sz (b_step sz o X).2) -> (b_step sz o X).1 = (0, None) ->
  forall c : K unit, wp c (fun _ m' => exists ws', bm_result m bm map sz ws' m' /\ length ws' = length ws /\
    Forall is_u64 ws' /\ forall k, 0 <= k -> bit_at ws' k = v && (k <? sz)) m ->
  wp (do! c in ret! (0, None)) (b_simulates m bm map sz X o) m.
Proof.
  intros Hrepr Hres c Hc. apply wp_bind. eapply wp_mono; [exact Hc|].
  intros _ m' (ws' & Hr & Hl & Hu & Hb). apply wp_ret. exists ws'. pose proof own_size.
  split_and!; [|done|by apply Hrepr|done]. eapply bm_result_own; [done..|].
  intros k Hk. rewrite Hb by lia. destruct (Z.ltb_spec k sz); [lia|]. apply andb_false_r.
Qed.

Lemma b_exec_simulates o : b_arg_ok o -> wp (b_exec bm o) (b_simulates m bm map sz X o) m.
Proof.
  intros Hok. destruct o as [p n|p n|p n|p n|n| | | | |].
  - by apply b_exec_set.
  - by apply b_exec_unset.
  - by apply b_exec_test.
  - by apply b_exec_toggle.
  - by apply b_exec_alloc.
  - apply b_exec_find.
  - apply (b_exec_all false); [|done|].
    + intros ws' _ Hb k. cbn [b_step snd]. rewrite elem_of_empty. split; [done|]. intros [Hk Ht]. rewrite Hb in Ht by lia. done.
    + by apply bitmap_clear_all_spec.
  - apply (b_exec_all true); [|done|].
    + intros ws' _ Hb k. cbn [b_step snd]. rewrite elem_of_rng. split.
      * intros Hk. split; [lia|]. rewrite Hb by lia. simpl. apply Z.ltb_lt. lia.
      * intros [Hk _]. lia.
    + by apply bitmap_set_all_spec.
  - simpl. apply wp_bind. eapply wp_mono; [by apply bitmap_count_set_spec|]. intros r m' [Hres ->].
    apply wp_ret, b_simulates_same; [done|]. simpl. pose proof own_size. by rewrite (repr_count _ _ X) by (done || lia).
  - simpl. apply wp_bind. eapply wp_mono; [by apply bitmap_count_unset_spec|]. intros r m' [Hres ->].
    apply wp_ret, b_simulates_same; [done|]. simpl. pose proof own_size.
    rewrite count_bits_negb, (repr_count _ _ X), Z2Nat.id by (done || lia). done.
Qed.
End Steps.

Lemma b_run_simulates os m bm map sz ws X :
  bitmap_own m bm map sz ws -> repr ws sz X -> Forall b_arg_ok os ->
  wp (b_run bm os) (fun rs m' => exists ws', bitmap_own m' bm map sz ws' /\ bm_result m bm map sz ws' m' /\
    repr ws' sz (b_steps sz os X).2 /\ rs = (b_steps sz os X).1) m.
Proof.
  revert m ws X. induction os as [|o os IH]; intros m ws X Hown HX Hok; simpl.
  { apply wp_ret. exists ws. split_and!; [done|by apply bm_result_refl|done..]. }
  apply Forall_cons in Hok as [Ho Hok]. apply wp_bind.
  eapply wp_mono; [by eapply b_exec_simulates|]. intros r m1 (ws1 & Hown1 & Hres1 & HX1 & ->).
  apply wp_bind. eapply wp_mono; [by eapply IH|]. intros rs m2 (ws2 & Hown2 & Hres2 & HX2 & ->).
  apply wp_ret. exists ws2. destruct (b_step sz o X) as [r1 X1]. simpl in *.
  destruct (b_steps sz os X1) as [rs X2]. simpl in *. split_and!; try done. by eapply bm_result_trans.
Qed.
