(* ===== verification/BitmapProps.v ===== *)
(** * Properties of the bitmap component

    The refinement of the finite set of bit positions, the allocation round trip,
    and the calls whose range wraps. *)
From S2P Require Import Prelude Errno Spinlock KMem Queue Bitmap BitmapFacts BitmapSpec Sample.

(** ** Creation *)
Lemma bitmap_init_spec m bm arr sz b0 ws0 :
  bm <> 0 -> arr <> 0 -> bitmaps m !! bm = Some b0 -> words m !! arr = Some ws0 ->
  0 < sz -> sz + 63 < two64 -> Z.of_nat (length ws0) = (sz + 63) / 64 ->
  wp (bitmap_init bm arr sz) (fun r m' => r = 0 /\
    bm_result m bm arr sz (replicate (length ws0) 0) m' /\
    bitmap_own m' bm arr sz (replicate (length ws0) 0)) m.
Proof.
  intros H0 Ha0 Ho Ha Hs H64 Hl. unfold bitmap_init, is_null.
  rewrite !(proj2 (Z.eqb_neq _ _)) by (done || lia). simpl.
  do 3 (apply wp_bind; eapply wp_modify; [ksimpl; first [exact Ho|apply lookup_insert_eq]|]; ksimpl; rewrite ?insert_insert_eq).
  unfold set_bm_map, set_bm_size; simpl.
  assert (num_units sz = Z.of_nat (length ws0)) as Hn.
  { unfold num_units, BITS_PER_USIZE. rewrite u64_small by (unfold is_u64; lia). rewrite Hl. f_equal. lia. }
  rewrite Hn. apply wp_bind. eapply (wp_bm_fill _ bm arr sz SPINLOCK_INIT ws0); [ksimpl; apply lookup_insert_eq|by ksimpl|lia..|].
  rewrite Z.add_0_l, Nat2Z.id, drop_all, app_nil_r. simpl. apply wp_ret. split; [done|].
  assert (bm_result m bm arr sz (replicate (length ws0) 0) (with_words (h_set (<[bm := mkBitmap arr sz SPINLOCK_INIT]> (bitmaps m)) m) arr (replicate (length ws0) 0))) as Hres.
  { exists SPINLOCK_INIT. split; [done|]. unfold with_words. ksimpl.
    by rewrite (h_set_comm (T1:=list Z) (T2:=bitmap_t)). }
  split; [done|]. exists SPINLOCK_INIT. split; [done|].
  split; unfold with_words; ksimpl; try done; [apply lookup_insert_eq..| |by rewrite length_replicate|].
  - by apply Forall_replicate.
  - intros k Hk. rewrite bit_at_replicate, Z.bits_0 by lia. apply andb_false_r.
Qed.

Lemma repr_clear n sz : repr (replicate n 0) sz ∅.
Proof.
  intros k. rewrite elem_of_empty. split; [done|]. intros [Hk Hb].
  rewrite bit_at_replicate, Z.bits_0, andb_false_r in Hb by lia. done.
Qed.

(** A bitmap of 70 bits at 100, its words at 110, with bits 0, 1 and 65 set. *)
Definition sample_bitmap : kmem :=
  h_set {[100 := mkBitmap 110 70 free_lock]} (h_set {[110 := [3; 2]]} idle).

Lemma sample_bitmap_own : bitmap_own sample_bitmap 100 110 70 [3; 2].
Proof.
  exists free_lock. split; [done|]. split; try done.
  - by repeat constructor.
  - intros k Hk. unfold bit_at. destruct (decide (k < 128)) as [Hlt|Hge].
    + assert (k / 64 = 1) as -> by (symmetry; apply (Z.div_unique k 64 1 (k - 64)); lia). simpl.
      assert (k mod 64 = k - 64) as -> by (symmetry; apply (Z.mod_unique k 64 1 (k - 64)); lia).
      change 2 with (2 ^ 1). apply Z.pow2_bits_false. lia.
    + assert (2 <= k / 64) by (apply Z.div_le_lower_bound; lia).
      rewrite lookup_ge_None_2; [done|]. simpl. lia.
Qed.

Lemma sample_bitmap_repr : repr [3; 2] 70 {[0; 1; 65]}.
Proof.
  intros k. rewrite !elem_of_union, !elem_of_singleton. split.
  - intros [[->| ->]| ->]; by split.
  - intros [Hk Hb]. assert (forallb (fun k => implb (bit_at [3; 2] k)
      ((k =? 0) || (k =? 1) || (k =? 65))) (seqZ 0 70) = true) as Hall by (vm_compute; reflexivity).
    rewrite forallb_forall in Hall. assert (In k (seqZ 0 70)) as Hin by (apply list_elem_of_In, elem_of_seqZ; lia).
    specialize (Hall k Hin). rewrite Hb in Hall. cbn [implb] in Hall.
    apply orb_true_iff in Hall as [Hall|?%Z.eqb_eq]; [|by right]. left.
    apply orb_true_iff in Hall as [?%Z.eqb_eq|?%Z.eqb_eq]; auto.
Qed.

(** ** Properties *)


Definition sample_bops : list b_op :=
  [BSet 66 4; BSet 1 2; BAlloc 64; BToggle 0 70; BFind; BCount; BUnset 60 3; BFill; BCountUnset].


(** A range of bits that [bitmap_alloc_range] handed out can be given back:
    [bitmap_unset] on it succeeds and the bitmap is as before, bit for bit. *)
Theorem bitmap_alloc_unset_roundtrip m bm map sz ws n :
  bitmap_own m bm map sz ws -> 0 <= n < two64 ->
  wp (let! r := bitmap_alloc_range bm n true in
      match r.2 with
      | Some i => let! e := bitmap_unset bm i n in ret! (r.1, e)
      | None => ret! (r.1, 0)
      end) (fun r m' => r.2 = 0 /\ exists ws', bitmap_own m' bm map sz ws' /\
        forall k, 0 <= k -> bit_at ws' k = bit_at ws k) m.
Proof.
  intros Hown Hn. pose proof Hown as (lk & _ & [_ _ _ _ Hu _ [Hs H64] Ht]).
  apply wp_bind. eapply wp_mono; [by apply bitmap_alloc_range_spec|].
  intros r m1 (ws1 & Hres1 & [(-> & -> & _)|[(-> & -> & _)|(i & -> & Hr & (Hi & Hin & Hcl & _) & Hup)]]); simpl.
  1,2: apply wp_ret; split; [done|]; exists ws; split; [by eapply bm_result_own|done].
  pose proof Hup as (Hl1 & Hu1 & Hb1).
  assert (bitmap_own m1 bm map sz ws1) as Hown1.
  { eapply bm_result_own; [done..|]. eapply range_updated_tail; [done..|lia|lia]. }
  apply wp_bind. eapply wp_mono; [apply bitmap_unset_spec; [exact Hown1|lia..]|].
  intros e m2 (ws2 & Hres2 & Hc). pose proof (range_changed_own _ _ _ _ _ _ _ _ _ _ _ Hown1 Hres2 Hc) as Hown2.
  apply wp_ret. destruct Hc as [(? & _)|[(_ & _ & _ & k & Hk & Hbk)|(_ & -> & (_ & _ & Hb2) & _)]]; [lia|..].
  { rewrite Hb1 in Hbk by lia. destruct (Z.leb_spec i k), (Z.ltb_spec k (i + n)); simpl in Hbk; lia || done. }
  split; [done|]. exists ws2. split; [done|]. intros k Hk. rewrite Hb2, Hb1 by done.
  destruct (Z.leb_spec i k), (Z.ltb_spec k (i + n)); simpl; try done. by rewrite Hcl.
Qed.

Lemma bitmap_alloc_unset_roundtrip_witness :
  wp (let! r := bitmap_alloc_range 100 5 true in
      match r.2 with
      | Some i => let! e := bitmap_unset 100 i 5 in ret! (r.1, e)
      | None => ret! (r.1, 0)
      end) (fun r m' => r.2 = 0 /\ exists ws', bitmap_own m' 100 110 70 ws' /\
        forall k, 0 <= k -> bit_at ws' k = bit_at [3; 2] k) sample_bitmap.
Proof. apply (bitmap_alloc_unset_roundtrip sample_bitmap 100 110 70 [3; 2] 5 sample_bitmap_own). done. Defined.

(** [kcalloc] of a moderate number of words, when memory is available. *)
Lemma kcalloc_words_spec {KA : KAlloc} m n p :
  0 < n -> n * 8 < 2147483648 -> ka_pick (k_tick m) (k_live m) = Some p ->
  kcalloc_words n m = Done p (h_set (<[p := replicate (Z.to_nat n) 0]> (words m)) (set_tick (S (k_tick m)) m)).
Proof.
  intros Hn Hlt Hp. pose proof (ka_fresh _ _ _ Hp) as [_ Hr]. unfold kcalloc_words.
  assert (s32 (n * 8) = n * 8) as ->.
  { unfold s32. rewrite Z.mod_small by lia. by destruct (Z.ltb_spec (n * 8) 2147483648); [|lia]. }
  destruct (Z.ltb_spec (n * 8) 0); [lia|]. rewrite Z.div_mul by lia.
  erewrite M_bind_done by (unfold kmalloc_words, kalloc; rewrite Hp; done).
  rewrite (proj2 (Z.eqb_neq p 0)) by lia. erewrite M_bind_done; [done|]. unfold store. ksimpl.
  rewrite lookup_insert_eq. by rewrite insert_insert_eq.
Qed.

Lemma num_units_small sz : 0 < sz -> sz + 63 < two64 -> num_units sz = (sz + 63) / 64 /\ 0 < num_units sz.
Proof.
  intros. unfold num_units, BITS_PER_USIZE. rewrite u64_small by (unfold is_u64; lia).
  replace (sz + 64 - 1) with (sz + 63) by lia. split; [done|]. apply Z.div_str_pos. lia.
Qed.

(** [bitmap_alloc] creates a bitmap whose bits are all clear (for a map of less
    than 2 GiB, the first allocation succeeding); when the second allocation fails
    it gives the map back, so that nothing stays allocated. *)
Theorem bitmap_alloc_all_clear {KA : KAlloc} m sz map :
  0 < sz -> (sz + 63) / 64 * 8 < 2147483648 -> ka_pick (k_tick m) (k_live m) = Some map ->
  wp (bitmap_alloc sz true) (fun r m' =>
    (r = (- ENOMEM, None) /\ k_live m' = k_live m) \/
    exists bm ws, r = (0, Some bm) /\ bm ∉ k_live m /\ bitmap_own m' bm map sz ws /\ repr ws sz ∅) m.
Proof.
  intros Hs Hlt Hp. pose proof (ka_fresh _ _ _ Hp) as [Hfr Hr].
  assert (sz + 63 < two64) as H64.
  { pose proof (Z.div_mod (sz + 63) 64 ltac:(lia)). pose proof (Z.mod_pos_bound (sz + 63) 64 ltac:(lia)).
    unfold two64. lia. }
  destruct (num_units_small sz Hs H64) as [Hn Hn0]. rewrite <- Hn in Hlt.
  unfold bitmap_alloc. rewrite (proj2 (Z.eqb_neq sz 0)) by lia. simpl.
  apply wp_bind. unfold wp at 1. rewrite (kcalloc_words_spec m _ map) by done.
  assert (is_null map = false) as -> by (apply Z.eqb_neq; lia).
  set (ws0 := replicate _ 0). apply wp_bind, wp_kalloc.
  - intros _. apply wp_bind. eapply wp_kfree; [ksimpl; apply lookup_insert_eq|lia|]. apply wp_ret. left. split; [done|].
    ksimpl. rewrite delete_insert_id; [done|]. apply not_elem_of_dom. intros Hin. by apply Hfr, (h_live (T:=list Z)).
  - intros bm _ Hbm Hrb _. assert (is_null bm = false) as -> by (apply Z.eqb_neq; lia). ksimpl.
    apply wp_bind. eapply wp_mono; [eapply (bitmap_init_spec _ bm map sz _ ws0)|].
    + lia.
    + lia.
    + ksimpl. apply lookup_insert_eq.
    + ksimpl. apply lookup_insert_eq.
    + done.
    + done.
    + unfold ws0. rewrite length_replicate, Z2Nat.id by lia. done.
    + intros e m' (-> & _ & Hown). simpl. apply wp_ret. right. eexists bm, _. split_and!; [done| |exact Hown|apply repr_clear].
      intros Hin. apply Hbm. revert Hin. unfold k_live. rewrite !elem_of_union. clear.
      unfold h_set, arrays_heap; simpl. rewrite dom_insert_L. set_solver.
Qed.

Lemma bitmap_alloc_all_clear_witness :
  wp (bitmap_alloc (KA:=slot_alloc) 100 true) (fun r m' =>
    (r = (- ENOMEM, None) /\ k_live m' = k_live idle) \/
    exists bm ws, r = (0, Some bm) /\ bm ∉ k_live idle /\ bitmap_own m' bm 65536 100 ws /\ repr ws 100 ∅) idle.
Proof. apply (bitmap_alloc_all_clear (KA:=slot_alloc) idle 100 65536); [done|done|reflexivity]. Defined.

(** The bounds test of [bitmap_set] wraps: a position past the end of the map
    and a length that makes their sum wrap to a small number pass it, and the
    operation reads outside the map instead of answering EINVAL. *)
Theorem bitmap_set_wrapped_range m bm map sz ws pos n :
  bitmap_own m bm map sz ws -> 64 * Z.of_nat (length ws) <= pos < two64 -> 0 < n < two64 ->
  two64 <= pos + n <= two64 + sz ->
  bitmap_set bm pos n m = Fault.
Proof.
  intros Hown Hpos Hn Hsum. pose proof Hown as (lk0 & Hl0 & [H0 Ho0 _ _ _ _ [_ Hsz] _]).
  pose proof (wp_bitmap_lock m bm map sz ws M_get (fun m1 m1' => m1 = m1' /\ exists lk, bitmap_rep m1 bm map sz lk ws) Hown) as Hw.
  unfold wp, M_bind, M_get in Hw. unfold bitmap_set.
  destruct (bitmap_lock bm m) as [[] m1| | |] eqn:Hlock; try (exfalso; apply Hw; naive_solver).
  destruct Hw as [_ [lk [_ Ho Ha _ _ _ _ _]]]; [naive_solver|].
  erewrite M_bind_done by exact Hlock. erewrite M_bind_done by (unfold load; by rewrite Ho). cbn [bm_size].
  assert (u64 (pos + n) = pos + n - two64) as ->.
  { rewrite <- (u64_sub_add _ (-1)), u64_small; unfold is_u64; lia. }
  destruct (Z.ltb_spec sz (pos + n - two64)); [lia|]. apply M_bind_fault. unfold bm_find_in_range.
  assert (exists j, Z.to_nat n = S j) as [j ->] by (exists (Z.to_nat n - 1)%nat; lia). simpl.
  apply M_bind_fault, M_bind_fault, M_bind_fault. rewrite Z.add_0_r, u64_small by (unfold is_u64; lia).
  unfold bm_test. erewrite M_bind_done by (unfold load; by rewrite Ho). apply M_bind_fault.
  unfold arr_get, BITS_PER_USIZE. simpl. erewrite M_bind_done by (unfold load; by rewrite Ha).
  assert (Z.of_nat (length ws) <= pos / 64) by (apply Z.div_le_lower_bound; lia).
  destruct (Z.ltb_spec (pos / 64) 0); [done|]. by rewrite lookup_ge_None_2 by lia.
Qed.

Lemma bitmap_set_wrapped_range_witness : bitmap_set 100 (two64 - 1) 2 sample_bitmap = Fault.
Proof. apply (bitmap_set_wrapped_range sample_bitmap 100 110 70 [3; 2] (two64 - 1) 2 sample_bitmap_own); done. Defined.

(** Shrinking a bitmap to zero bits corrupts it: [krealloc] with size 0 frees the
    map and answers NULL, [bitmap_resize] takes that for lack of memory, reports
    ENOMEM and leaves the bitmap pointing at the freed map, so that the next test
    of a bit uses dead memory. *)
Theorem bitmap_resize_zero_dangles {KA : KAlloc} m bm map sz ws :
  bitmap_own m bm map sz ws ->
  exists m', bitmap_resize bm 0 m = Done (- ENOMEM) m' /\ bitmap_test bm 0 1 m' = Fault.
Proof.
  intros Hown. pose proof Hown as (lk0 & _ & [H0 _ _ Hmap _ _ [Hs0 _] _]).
  assert (wp (bitmap_resize bm 0) (fun r m' => r = - ENOMEM /\ words m' !! map = None /\
    exists lk, locked lk = false /\ bitmaps m' !! bm = Some (mkBitmap map sz lk)) m) as Hw.
  { unfold bitmap_resize. eapply wp_bitmap_lock; [exact Hown|]. intros lk m1 Hh [_ Ho Ha _ _ _ _ _] _.
    apply wp_bind. eapply wp_load; [exact Ho|]. cbn [bm_map bm_size]. change (num_units 0) with 0.
    apply wp_bind. unfold krealloc_words. simpl. apply wp_bind. eapply wp_kfree; [exact Ha|done|]. apply wp_ret.
    simpl. apply wp_bind. eapply wp_obj_unlock; [split_and!; [done|ksimpl; exact Ho|by ksimpl]|].
    intros lk' Hl'. apply wp_ret. split_and!; [done|ksimpl; apply lookup_delete_eq|]. exists lk'. split; [done|].
    ksimpl. apply lookup_insert_eq. }
  apply wp_done in Hw as (r & m' & Hr & -> & Ha & lk & Hl & Ho). exists m'. split; [exact Hr|].
  unfold bitmap_test.
  assert (wp (bitmap_lock bm) (fun _ m1 => words m1 !! map = None /\
    exists lk, bitmaps m1 !! bm = Some (mkBitmap map sz lk)) m') as Hw.
  { eapply wp_obj_lock; [done|exact Ho|done|]. intros lk1 _. split; [by ksimpl|]. exists lk1. ksimpl. apply lookup_insert_eq. }
  apply wp_done in Hw as ([] & m1 & Hlock & Ha1 & lk1 & Ho1). erewrite M_bind_done by exact Hlock.
  erewrite M_bind_done by (unfold load; by rewrite Ho1). cbn [bm_size]. change (u64 (0 + 1)) with 1.
  destruct (Z.ltb_spec sz 1); [lia|]. apply M_bind_fault. unfold bm_find_in_range. simpl.
  apply M_bind_fault, M_bind_fault, M_bind_fault. unfold bm_test.
  erewrite M_bind_done by (unfold load; by rewrite Ho1). apply M_bind_fault.
  unfold arr_get. apply M_bind_fault. unfold load. simpl. by rewrite Ha1.
Qed.

Lemma bitmap_resize_zero_dangles_witness :
  exists m', bitmap_resize (KA:=slot_alloc) 100 0 sample_bitmap = Done (- ENOMEM) m' /\ bitmap_test 100 0 1 m' = Fault.
Proof. exact (bitmap_resize_zero_dangles (KA:=slot_alloc) sample_bitmap 100 110 70 [3; 2] sample_bitmap_own). Defined.
