(* ===== verification/EmbQueue.v ===== *)
(** * Embedded queues (ds/queue/embedded.c)

    The queue operations on nodes that live inside other objects: nothing is
    allocated or freed, and a node is identified by its address. *)
From S2P Require Import Prelude Errno Spinlock KMem Queue.

Definition QUEUE_EQUAL : Z := 0.
Definition QUEUE_LESSER : Z := 1.
Definition QUEUE_GREATER : Z := 2.
Definition QUEUE_ASCENDING : Z := 0.
Definition QUEUE_DESCENDING : Z := 1.

Definition validate_whence (whence : Z) : Z :=
  if negb (whence =? QUEUE_HEAD) && negb (whence =? QUEUE_TAIL) then - EINVAL else 0.
Definition validate_uniqueness (uniqueness : Z) : Z :=
  if negb (uniqueness =? QUEUE_UNIQUE) && negb (uniqueness =? QUEUE_DUPLICATES) then - EINVAL else 0.
Definition validate_uniqueness_and_whence (uniqueness whence : Z) : Z :=
  let err := validate_uniqueness uniqueness in
  if negb (err =? 0) then err else validate_whence whence.

Definition embedded_queue_empty (queue : Z) : K bool :=
  do! queue_assert_locked queue in
  let! n := queue_length queue in ret! (if negb (n =? 0) then false else true).

(** [node->next = NULL; node->prev = NULL;] *)
Definition clear_links (node : Z) : K unit :=
  do! modify node (set_next 0) in modify node (set_prev 0).

Fixpoint embedded_queue_flush_loop (fuel : nat) (queue node : Z) : K unit :=
  match fuel with
  | O => M_diverge
  | S fuel =>
      if is_null node then ret! tt else
      let! n := load node in
      do! queue_unlink queue node (n_prev n) (n_next n) in
      do! clear_links node in
      embedded_queue_flush_loop fuel queue (n_next n)
  end.

Definition embedded_queue_flush (queue : Z) : K unit :=
  do! queue_assert_locked queue in
  let! q := load queue in
  let! fuel := node_fuel in
  do! embedded_queue_flush_loop fuel queue (head q) in
  do! modify queue (set_head 0) in
  modify queue (set_tail 0).

Definition embedded_queue_peek (queue whence : Z) (pnp : bool) : K (Z * option Z) :=
  if is_null queue || negb pnp then ret! (- EINVAL, None) else
  if bad_whence whence then ret! (- EINVAL, None) else
  do! queue_assert_locked queue in
  let! n := queue_length queue in
  if n =? 0 then ret! (- ENOENT, None) else
  let! q := load queue in
  if whence =? QUEUE_TAIL then ret! (0, Some (tail q)) else ret! (0, Some (head q)).

Fixpoint embedded_find (fuel : nat) (node qnode : Z) : K Z :=
  match fuel with
  | O => M_diverge
  | S fuel =>
      if is_null node then ret! (- ENOENT) else
      if node =? qnode then ret! 0 else
      let! n := load node in embedded_find fuel (n_next n) qnode
  end.

Definition embedded_queue_contains (queue qnode : Z) : K Z :=
  if is_null queue || is_null qnode then ret! (- EINVAL) else
  do! queue_assert_locked queue in
  let! q := load queue in
  let! fuel := node_fuel in
  embedded_find fuel (head q) qnode.

(** The test [uniqueness == QUEUE_UNIQUE && embedded_queue_contains(...) == 0]. *)
Definition embedded_duplicate (queue qnode uniqueness : Z) : K bool :=
  if uniqueness =? QUEUE_UNIQUE
  then let! r := embedded_queue_contains queue qnode in ret! (r =? 0)
  else ret! false.

Definition embedded_enqueue_after (queue node prev uniqueness : Z) : K Z :=
  if is_null queue || is_null node || is_null prev then ret! (- EINVAL) else
  do! queue_assert_locked queue in
  let! dup := embedded_duplicate queue node uniqueness in
  if dup then ret! (- EEXIST) else
  do! modify node (set_prev prev) in
  let! p := load prev in
  do! modify node (set_next (n_next p)) in
  do! modify prev (set_next node) in
  let! q := load queue in
  do! M_when (tail q =? prev) (modify queue (set_tail node)) in
  do! modify queue (add_count 1) in
  ret! 0.

Definition embedded_enqueue_before (queue node next uniqueness : Z) : K Z :=
  if is_null queue || is_null node || is_null next then ret! (- EINVAL) else
  do! queue_assert_locked queue in
  let! dup := embedded_duplicate queue node uniqueness in
  if dup then ret! (- EEXIST) else
  do! modify node (set_next next) in
  let! n := load next in
  do! modify node (set_prev (n_prev n)) in
  do! modify next (set_prev node) in
  let! q := load queue in
  do! M_when (head q =? next) (modify queue (set_head node)) in
  do! modify queue (add_count 1) in
  ret! 0.

Definition embedded_queue_insert (queue qnode : Z) : K Z :=
  do! modify qnode (set_next 0) in
  do! modify qnode (set_prev 0) in
  let! q := load queue in
  do! (if is_null (head q) then
         do! modify queue (set_head qnode) in
         modify queue (set_tail qnode)
       else
         do! modify (tail q) (set_next qnode) in
         modify qnode (set_prev (tail q))) in
  do! modify queue (set_tail qnode) in
  do! modify queue (add_count 1) in
  ret! 0.

Definition embedded_enqueue (queue qnode uniqueness : Z) : K Z :=
  if is_null queue || is_null qnode then ret! (- EINVAL) else
  do! queue_assert_locked queue in
  let! dup := embedded_duplicate queue qnode uniqueness in
  if dup then ret! (- EEXIST) else
  embedded_queue_insert queue qnode.

Definition embedded_enqueue_head (queue qnode uniqueness : Z) : K Z :=
  if is_null queue || is_null qnode then ret! (- EINVAL) else
  do! queue_assert_locked queue in
  let! dup := embedded_duplicate queue qnode uniqueness in
  if dup then ret! (- EEXIST) else
  do! modify qnode (set_next 0) in
  do! modify qnode (set_prev 0) in
  let! q := load queue in
  do! (if is_null (head q) then
         do! modify queue (set_head qnode) in
         modify queue (set_tail qnode)
       else
         do! modify (head q) (set_prev qnode) in
         modify qnode (set_next (head q))) in
  do! modify queue (set_head qnode) in
  do! modify queue (add_count 1) in
  ret! 0.

Definition embedded_enqueue_whence (queue qnode uniqueness whence : Z) : K Z :=
  do! queue_assert_locked queue in
  if whence =? QUEUE_HEAD then embedded_enqueue_head queue qnode uniqueness
  else if whence =? QUEUE_TAIL then embedded_enqueue queue qnode uniqueness
  else ret! (- EINVAL).

Definition embedded_dequeue (queue : Z) (pnp : bool) : K (Z * option Z) :=
  if is_null queue || negb pnp then ret! (- EINVAL, None) else
  do! queue_assert_locked queue in
  let! q := load queue in
  let node := head q in
  if is_null node then ret! (- ENOENT, None) else
  let! n := load node in
  do! queue_unlink queue node (n_prev n) (n_next n) in
  do! clear_links node in
  ret! (0, Some node).

Definition embedded_dequeue_tail (queue : Z) (pnp : bool) : K (Z * option Z) :=
  if is_null queue || negb pnp then ret! (- EINVAL, None) else
  do! queue_assert_locked queue in
  let! q := load queue in
  let node := tail q in
  if is_null node then ret! (- ENOENT, None) else
  let! n := load node in
  do! queue_unlink queue node (n_prev n) (n_next n) in
  do! clear_links node in
  ret! (0, Some node).

Definition embedded_dequeue_whence (queue whence : Z) (pnp : bool) : K (Z * option Z) :=
  do! queue_assert_locked queue in
  if whence =? QUEUE_HEAD then embedded_dequeue queue pnp
  else if whence =? QUEUE_TAIL then embedded_dequeue_tail queue pnp
  else ret! (- EINVAL, None).

Definition embedded_queue_detach (queue qnode : Z) : K Z :=
  if is_null queue || is_null qnode then ret! (- EINVAL) else
  do! queue_assert_locked queue in
  let! n := load qnode in
  do! queue_unlink queue qnode (n_prev n) (n_next n) in
  do! clear_links qnode in
  ret! 0.

Definition embedded_queue_remove (queue qnode : Z) : K Z :=
  if is_null queue || is_null qnode then ret! (- EINVAL) else
  do! queue_assert_locked queue in
  let! err := embedded_queue_contains queue qnode in
  if negb (err =? 0) then ret! err else
  embedded_queue_detach queue qnode.

(** What [embedded_queue_replace] does at the node it looks for. *)
Definition embedded_replace_at (queue node qnode1 : Z) : K unit :=
  let! n := load node in
  do! modify qnode1 (set_next (n_next n)) in
  let! n := load node in
  do! modify qnode1 (set_prev (n_prev n)) in
  let! n1 := load qnode1 in
  do! M_when (negb (is_null (n_next n1))) (modify (n_next n1) (set_prev qnode1)) in
  let! n1 := load qnode1 in
  do! M_when (negb (is_null (n_prev n1))) (modify (n_prev n1) (set_next qnode1)) in
  let! q := load queue in
  do! M_when (head q =? node) (modify queue (set_head qnode1)) in
  let! q := load queue in
  do! M_when (tail q =? node) (modify queue (set_tail qnode1)) in
  clear_links node.

Fixpoint embedded_replace_loop (fuel : nat) (queue node qnode0 qnode1 : Z) : K Z :=
  match fuel with
  | O => M_diverge
  | S fuel =>
      if is_null node then ret! (- ENOENT) else
      if node =? qnode0 then do! embedded_replace_at queue node qnode1 in ret! 0 else
      let! n := load node in embedded_replace_loop fuel queue (n_next n) qnode0 qnode1
  end.

Definition embedded_queue_replace (queue qnode0 qnode1 : Z) : K Z :=
  if is_null queue || is_null qnode0 || is_null qnode1 then ret! (- EINVAL) else
  do! queue_assert_locked queue in
  if qnode0 =? qnode1 then ret! 0 else
  let! q := load queue in
  let! fuel := node_fuel in
  embedded_replace_loop fuel queue (head q) qnode0 qnode1.

Definition embedded_queue_migrate (dst src pos n whence : Z) : K Z :=
  if is_null dst || is_null src then ret! (- EINVAL) else
  do! queue_assert_locked dst in
  do! queue_assert_locked src in
  let! sq := load src in
  if (q_count sq <=? pos) || (n =? 0) || (q_count sq <? u64 (pos + n)) then ret! (- EINVAL) else
  if bad_whence whence then ret! (- EINVAL) else
  let! node := queue_advance (Z.to_nat pos) (head sq) in
  if is_null node then ret! (- ENOENT) else
  let first := node in
  let! last := queue_follow (Z.to_nat (n - 1)) node in
  let! f := load first in
  let! l := load last in
  do! (if negb (is_null (n_prev f)) then modify (n_prev f) (set_next (n_next l))
       else modify src (set_head (n_next l))) in
  let! l := load last in
  let! f := load first in
  do! (if negb (is_null (n_next l)) then modify (n_next l) (set_prev (n_prev f))
       else modify src (set_tail (n_prev f))) in
  do! modify src (add_count (- n)) in
  do! modify first (set_prev 0) in
  do! modify last (set_next 0) in
  let! dq := load dst in
  do! (if whence =? QUEUE_HEAD then
         do! modify last (set_next (head dq)) in
         do! M_when (negb (is_null (head dq))) (modify (head dq) (set_prev last)) in
         do! modify dst (set_head first) in
         M_when (is_null (tail dq)) (modify dst (set_tail last))
       else
         do! modify first (set_prev (tail dq)) in
         do! M_when (negb (is_null (tail dq))) (modify (tail dq) (set_next first)) in
         do! modify dst (set_tail last) in
         M_when (is_null (head dq)) (modify dst (set_head first))) in
  do! modify dst (add_count n) in
  ret! 0.

(** ** Sorted insertion

    [compare] is the caller's comparison of two nodes, [None] a NULL pointer. *)
Definition queue_cmp_nodes (node0 node1 order : Z) (compare : option (Z -> Z -> Z)) : Z :=
  if is_null node0 || is_null node1 then - EINVAL else
  match compare with
  | Some cmp => if order =? QUEUE_DESCENDING then cmp node1 node0 else cmp node0 node1
  | None => if node0 =? node1 then QUEUE_EQUAL
            else if node0 <? node1 then QUEUE_LESSER else QUEUE_GREATER
  end.

(** [Some r]: the function returns [r]; [None]: [goto done], or the loop ran out. *)
Fixpoint embedded_sorted_loop (fuel : nat) (queue node qnode uniqueness order : Z)
    (compare : option (Z -> Z -> Z)) : K (option Z) :=
  match fuel with
  | O => M_diverge
  | S fuel =>
      if is_null node then ret! None else
      let! n := load node in
      let next := n_next n in
      let retval := queue_cmp_nodes qnode node order compare in
      if retval =? QUEUE_EQUAL then
        if uniqueness =? QUEUE_UNIQUE then ret! (Some (- EEXIST)) else
        do! modify qnode (set_prev node) in
        let! n := load node in
        do! modify qnode (set_next (n_next n)) in
        do! modify node (set_next qnode) in
        let! qn := load qnode in
        do! (if negb (is_null (n_next qn)) then modify (n_next qn) (set_prev qnode)
             else modify queue (set_tail qnode)) in
        ret! None
      else if retval =? QUEUE_LESSER then
        do! modify qnode (set_next node) in
        let! n := load node in
        do! modify qnode (set_prev (n_prev n)) in
        do! modify node (set_prev qnode) in
        let! qn := load qnode in
        do! (if negb (is_null (n_prev qn)) then modify (n_prev qn) (set_next qnode)
             else modify queue (set_head qnode)) in
        ret! None
      else if (retval =? QUEUE_GREATER) && is_null next then
        do! modify qnode (set_next 0) in
        do! modify queue (set_tail qnode) in
        do! modify qnode (set_prev node) in
        do! modify node (set_next qnode) in
        ret! None
      else if retval <? 0 then ret! (Some retval)
      else embedded_sorted_loop fuel queue next qnode uniqueness order compare
  end.

Definition embedded_enqueue_sorted (queue qnode uniqueness order : Z)
    (compare : option (Z -> Z -> Z)) : K Z :=
  if is_null queue || is_null qnode then ret! (- EINVAL) else
  do! queue_assert_locked queue in
  do! modify qnode (set_prev 0) in
  do! modify qnode (set_next 0) in
  let! q := load queue in
  if is_null (head q) then
    do! modify queue (set_tail qnode) in
    do! modify queue (set_head qnode) in
    do! modify queue (add_count 1) in
    ret! 0
  else
    let! dup := embedded_duplicate queue qnode uniqueness in
    if dup then ret! (- EEXIST) else
    let! q := load queue in
    let! fuel := node_fuel in
    let! r := embedded_sorted_loop fuel queue (head q) qnode uniqueness order compare in
    match r with
    | Some e => ret! e
    | None => do! modify queue (add_count 1) in ret! 0
    end.

(** ** Moving one node between queues *)
Definition validate_dest_and_srcq (dest src : Z) : Z :=
  if is_null dest || is_null src then - EINVAL else 0.

Definition embedded_queue_check_relloc_input (dst src node uniqueness whence : Z) : Z :=
  let err := validate_uniqueness_and_whence uniqueness whence in
  if negb (err =? 0) then err else
  let err := validate_dest_and_srcq dst src in
  if negb (err =? 0) then err else
  if is_null node then - EINVAL else 0.

Definition embedded_queue_relloc (dst src node uniqueness whence : Z) : K Z :=
  let err := embedded_queue_check_relloc_input dst src node uniqueness whence in
  if negb (err =? 0) then ret! err else
  do! queue_assert_locked src in
  do! queue_assert_locked dst in
  let! err := embedded_queue_remove src node in
  if negb (err =? 0) then ret! err else
  let! err := embedded_enqueue_whence dst node uniqueness whence in
  if negb (err =? 0) then
    let! _ := embedded_queue_insert src node in ret! err
  else ret! 0.
