(* ===== verification/EmbFacts.v ===== *)
(** * Correctness of the embedded-queue operations

    Linking, detaching and searching nodes that live inside other objects. *)
From S2P Require Import Prelude Errno Spinlock KMem Queue Dll QueueFacts QueueMove EmbQueue.

Implicit Types (l ls ld : list (Z * Z)) (d : Z).

(** ** A node that may be put in a queue: live, in none of the nodes [l] *)
Definition spare (m : kmem) (p d : Z) (l : list (Z * Z)) : Prop :=
  (exists a b, qnodes m !! p = Some (mkQnode a d b)) /\ p ∉ addrs l /\ addr_ok p.

(** The frame of an operation on queue [q] that may touch the nodes [ps]. *)
Record emb_frame (q : Z) (ps : list Z) (m m' : kmem) : Prop := {
  ef_erase : q_erase m' = q_erase m;
  ef_tick : k_tick m' = k_tick m;
  ef_queues : forall q', q' <> q -> queues m' !! q' = queues m !! q';
  ef_nodes : only_at ps (qnodes m) (qnodes m')
}.

Lemma emb_frame_refl q ps m : emb_frame q ps m m.
Proof. done. Qed.

Lemma only_at_trans ps ps' h1 h2 h3 :
  (forall p, p ∈ ps' -> p ∈ ps) -> only_at ps h1 h2 -> only_at ps' h2 h3 -> only_at ps h1 h3.
Proof.
  intros Hsub [H12 D12] [H23 D23]. split; [|by rewrite D23].
  intros p Hp. rewrite H23, H12; [done..|]. intros ?. by apply Hp, Hsub.
Qed.

Lemma only_at_mono ps ps' h1 h2 : (forall p, p ∈ ps' -> p ∈ ps) -> only_at ps' h1 h2 -> only_at ps h1 h2.
Proof. intros Hsub [H D]. split; [|done]. intros p Hp. apply H. intros ?. by apply Hp, Hsub. Qed.

Lemma emb_frame_trans q ps ps' m1 m2 m3 :
  (forall p, p ∈ ps' -> p ∈ ps) -> emb_frame q ps m1 m2 -> emb_frame q ps' m2 m3 -> emb_frame q ps m1 m3.
Proof.
  intros Hsub [E1 T1 Q1 N1] [E2 T2 Q2 N2]. split; [by rewrite E2|by rewrite T2|..].
  - intros q' Hq. by rewrite Q2, Q1.
  - by eapply only_at_trans.
Qed.

Lemma emb_frame_who q ps m m' : emb_frame q ps m m' -> k_who m' = k_who m.
Proof. intros [He _ _ _]. apply (f_equal k_who) in He. exact He. Qed.

(** Another queue, none of whose nodes is touched, keeps its content. *)
Lemma queue_own_emb_frame q ps m m' q2 l2 :
  emb_frame q ps m m' -> q2 <> q -> (forall p, p ∈ addrs l2 -> p ∉ ps) ->
  queue_own m q2 l2 -> queue_own m' q2 l2.
Proof.
  intros Hf Hne Hd (lk & Hh & H0 & Hq & Hs & Hok). exists lk. pose proof Hf as [_ _ Hq' [Hn _]].
  split; [by rewrite (emb_frame_who _ _ _ _ Hf)|]. split_and!; [done|by rewrite Hq'| |done].
  eapply seg_ext; [|exact Hs]. intros p Hp. apply Hn. by apply Hd.
Qed.

(** ** Taking nodes out *)
Lemma wp_unlink_clear {A} m q l1 p d l2 (k : K A) (Q : A -> kmem -> Prop) :
  queue_own m q (l1 ++ (p, d) :: l2) ->
  (forall m', queue_own m' q (l1 ++ l2) -> emb_frame q (addrs (l1 ++ (p, d) :: l2)) m m' ->
     qnodes m' !! p = Some (mkQnode 0 d 0) -> wp k Q m') ->
  wp (do! queue_unlink q p (last_addr l1 0) (hd_addr l2 0) in do! clear_links p in k) Q m.
Proof.
  intros Hown HQ. pose proof Hown as (lk & _ & _ & _ & Hs & Hok).
  destruct (seg_mid _ _ _ _ _ Hs) as (_ & Hp & _).
  destruct (dll_ok_mid _ _ _ _ Hok) as (_ & Hpn & _).
  apply wp_bind. eapply wp_queue_unlink_strong; [done|].
  intros m' (lk' & Hh' & H0 & Hq & Hs' & Hok') He Ht Hqs Hp' Hon. rewrite Hp in Hp'.
  apply wp_bind. unfold clear_links. apply wp_bind. eapply wp_modify; [exact Hp'|].
  eapply wp_modify; [ksimpl; apply lookup_insert_eq|]. ksimpl. rewrite insert_insert_eq.
  unfold set_next, set_prev; simpl. apply HQ.
  - exists lk'. split; [by ksimpl|]. split_and!; ksimpl; try done.
    eapply seg_ext; [|exact Hs']. intros x Hx. apply lookup_insert_ne. by intros ->.
  - split; ksimpl; [done|done|done|]. destruct Hon as [Hon Hd]. split.
    + intros x Hx. rewrite lookup_insert_ne; [by apply Hon|]. intros ->. apply Hx, elem_of_addrs_app. right.
      apply elem_of_addrs_cons. by left.
    + rewrite dom_insert_lookup_L; [done|]. rewrite Hp'. eauto.
  - ksimpl. apply lookup_insert_eq.
Qed.

(** ** Looking for a node *)
Lemma embedded_find_spec m q l1 l2 p fuel :
  queue_own m q (l1 ++ l2) -> (length l2 < fuel)%nat ->
  embedded_find fuel (hd_addr l2 0) p m = Done (if decide (p ∈ addrs l2) then 0 else - ENOENT) m.
Proof.
  revert l1 fuel. induction l2 as [|[x d] l2 IH]; intros l1 [|fuel] Hown Hf; simpl in Hf; try lia;
    cbn [embedded_find hd_addr fst].
  { by rewrite decide_False by apply not_elem_of_addrs_nil. }
  rewrite (queue_own_node_null _ _ _ _ _ _ Hown). destruct (Z.eqb_spec x p) as [->|Hx].
  { rewrite decide_True; [done|]. apply elem_of_addrs_cons. by left. }
  erewrite M_bind_done by (by eapply load_node_eq). cbn [n_next].
  rewrite (IH (l1 ++ [(x, d)])) by (rewrite <- ?app_assoc; done || lia).
  do 2 f_equal. apply decide_ext. rewrite elem_of_addrs_cons. simpl. naive_solver.
Qed.

Lemma node_fuel_eq m : node_fuel m = Done (S (size (k_qnodes m))) m.
Proof. done. Qed.

Lemma queue_own_fuel m q l : queue_own m q l -> (length l < S (size (k_qnodes m)))%nat.
Proof.
  intros (lk & _ & _ & _ & Hs & Hok). apply seg_length in Hs; [|done].
  change (k_qnodes m) with (qnodes m). lia.
Qed.

Lemma load_queue_eq m q l :
  queue_own m q l -> exists lk, load q m = Done (mkQueue (hd_addr l 0) (last_addr l 0) (Z.of_nat (length l)) lk) m.
Proof. intros (lk & _ & _ & Hq & _). exists lk. unfold load. by rewrite Hq. Qed.

Lemma embedded_queue_contains_spec m q l p :
  queue_own m q l -> p <> 0 ->
  embedded_queue_contains q p m = Done (if decide (p ∈ addrs l) then 0 else - ENOENT) m.
Proof.
  intros Hown Hp. unfold embedded_queue_contains. rewrite (queue_own_not_null _ _ _ Hown).
  assert (is_null p = false) as -> by (by apply Z.eqb_neq). simpl.
  erewrite M_bind_done by (by eapply queue_assert_locked_eq).
  destruct (load_queue_eq _ _ _ Hown) as [lk Hq]. erewrite M_bind_done by exact Hq.
  erewrite M_bind_done by apply node_fuel_eq. cbn [KMem.head].
  apply (embedded_find_spec m q [] l); [done|by eapply queue_own_fuel].
Qed.

Lemma embedded_duplicate_spec m q l p u :
  queue_own m q l -> p <> 0 ->
  embedded_duplicate q p u m = Done ((u =? QUEUE_UNIQUE) && bool_decide (p ∈ addrs l)) m.
Proof.
  intros Hown Hp. unfold embedded_duplicate. destruct (u =? QUEUE_UNIQUE); [|done]. simpl.
  erewrite M_bind_done by (by eapply embedded_queue_contains_spec). unfold M_ret. f_equal.
  case_bool_decide; case_decide; done.
Qed.

(** ** Putting nodes in *)

(** Clearing the links of a spare node makes it [detached]. *)
Lemma wp_clear_spare {A} m q n lk l p d (k : K A) (Q : A -> kmem -> Prop) f g :
  (f = set_next 0 /\ g = set_prev 0) \/ (f = set_prev 0 /\ g = set_next 0) ->
  queue_ends m q n lk l -> spare m p d l ->
  (forall h', queue_ends (h_set h' m) q n lk l -> detached (h_set h' m) p d l ->
     only_at [p] (qnodes m) h' -> wp k Q (h_set h' m)) ->
  wp (do! modify p f in do! modify p g in k) Q m.
Proof.
  intros Hfg (Hq & Hs & Hok) ((a & b & Hp) & Hpl & Ha) HQ.
  apply wp_bind. eapply wp_modify; [exact Hp|]. apply wp_bind.
  eapply wp_modify; [ksimpl; apply lookup_insert_eq|]. ksimpl. rewrite insert_insert_eq.
  replace (g (f (mkQnode a d b))) with (mkQnode 0 d 0) by (destruct Hfg as [[-> ->]|[-> ->]]; done).
  apply HQ.
  - split_and!; ksimpl; [done| |done]. eapply seg_ext; [|exact Hs]. intros x Hx. apply lookup_insert_ne. by intros ->.
  - split_and!; [|done|apply Ha..]. ksimpl. apply lookup_insert_eq.
  - split; [|apply dom_insert_lookup_L; eauto]. intros x Hx. apply lookup_insert_ne. intros ->. apply Hx. set_solver.
Qed.

(** The linking text of this file stores to the empty queue's two ends at once. *)
Lemma wp_emb_link_tail {A} m q n lk l p d (k : K A) Q :
  queue_ends m q n lk l -> detached m p d l ->
  (forall m', linked m q n lk l (l ++ [(p, d)]) p m' -> wp k Q m') ->
  wp (let! q0 := load q in
      do! (if is_null (head q0) then do! modify q (set_head p) in modify q (set_tail p)
           else do! modify (tail q0) (set_next p) in modify p (set_prev (tail q0))) in
      do! modify q (set_tail p) in k) Q m.
Proof.
  intros Hends Hdet HQ. pose proof (wp_queue_link_tail _ _ _ _ _ _ _ Hends Hdet) as Hl.
  destruct Hends as (Hq & Hs & Hok). destruct (is_null (hd_addr l 0)) eqn:E.
  - apply dll_ok_hd_null in E; [|done]. subst l. destruct Hdet as (Hp & Hpl & Ha). simpl in *.
    apply wp_bind. eapply wp_load; [exact Hq|]. simpl. apply wp_bind, wp_bind. eapply wp_modify; [exact Hq|].
    eapply wp_modify; [ksimpl; apply lookup_insert_eq|]. ksimpl. rewrite insert_insert_eq.
    apply wp_bind. eapply wp_modify; [ksimpl; apply lookup_insert_eq|]. ksimpl. rewrite insert_insert_eq.
    apply HQ. exists (qnodes m). split_and!; try done.
    apply dll_ok_cons. split; [done|]. split; [done|apply dll_ok_nil].
  - eapply (wp_eq _ (do! queue_link_tail q p in k)); [|apply wp_bind; eapply wp_mono; [exact Hl|intros []; exact HQ]].
    unfold queue_link_tail. rewrite M_bind_assoc. apply M_bind_cong. intros q0 s Hld.
    unfold load in Hld. rewrite Hq in Hld. injection Hld as <- <-. simpl. rewrite E. symmetry. apply M_bind_assoc.
Qed.

Lemma wp_emb_link_head {A} m q n lk l p d (k : K A) Q :
  queue_ends m q n lk l -> detached m p d l ->
  (forall m', linked m q n lk l ((p, d) :: l) p m' -> wp k Q m') ->
  wp (let! q0 := load q in
      do! (if is_null (head q0) then do! modify q (set_head p) in modify q (set_tail p)
           else do! modify (head q0) (set_prev p) in modify p (set_next (head q0))) in
      do! modify q (set_head p) in k) Q m.
Proof.
  intros Hends Hdet HQ. pose proof (wp_queue_link_head _ _ _ _ _ _ _ Hends Hdet) as Hl.
  destruct Hends as (Hq & Hs & Hok). destruct (is_null (hd_addr l 0)) eqn:E.
  - apply dll_ok_hd_null in E; [|done]. subst l. destruct Hdet as (Hp & Hpl & Ha). simpl in *.
    apply wp_bind. eapply wp_load; [exact Hq|]. simpl. apply wp_bind, wp_bind. eapply wp_modify; [exact Hq|].
    eapply wp_modify; [ksimpl; apply lookup_insert_eq|]. ksimpl. rewrite insert_insert_eq.
    apply wp_bind. eapply wp_modify; [ksimpl; apply lookup_insert_eq|]. ksimpl. rewrite insert_insert_eq.
    apply HQ. exists (qnodes m). split_and!; try done.
    apply dll_ok_cons. split; [done|]. split; [done|apply dll_ok_nil].
  - eapply (wp_eq _ (do! queue_link_head q p in k)); [|apply wp_bind; eapply wp_mono; [exact Hl|intros []; exact HQ]].
    unfold queue_link_head. rewrite M_bind_assoc. apply M_bind_cong. intros q0 s Hld.
    unfold load in Hld. rewrite Hq in Hld. injection Hld as <- <-. simpl. rewrite E. symmetry. apply M_bind_assoc.
Qed.

Lemma linked_own {A} m q lk l l' p (Q : A -> kmem -> Prop) m' (x : A) :
  holding (k_who m) lk = true -> q <> 0 -> length l' = S (length l) ->
  linked m q (Z.of_nat (length l)) lk l l' p m' ->
  (forall m2, queue_own m2 q l' -> emb_frame q (p :: addrs l) m m2 -> Q x m2) ->
  wp (do! modify q (add_count 1) in ret! x) Q m'.
Proof.
  intros Hh H0 Hlen (h' & -> & Hs & Hok & Hext & Hdom) HQ.
  pose proof (dll_ok_length _ Hok) as Hl. rewrite Hlen in Hl.
  apply wp_bind. eapply wp_modify; [ksimpl; apply lookup_insert_eq|]. apply wp_ret. ksimpl.
  rewrite insert_insert_eq. unfold add_count; simpl. rewrite u64_succ, <- Hlen by done. apply HQ.
  - exists lk. split; [by ksimpl|]. split_and!; ksimpl; first [done|apply lookup_insert_eq].
  - split; ksimpl; [done|done| |].
    + intros q' Hne. by rewrite lookup_insert_ne.
    + split; [|done]. intros x' Hx. apply not_elem_of_cons in Hx as [? ?]. by apply Hext.
Qed.

Lemma emb_frame_pre q ps p m h' m2 :
  only_at [p] (qnodes m) h' -> p ∈ ps -> emb_frame q ps (h_set h' m) m2 -> emb_frame q ps m m2.
Proof.
  intros Hon Hp [He Ht Hq Hn]. split; [by rewrite He|by rewrite Ht| |].
  - intros q' Hne. rewrite Hq by done. by ksimpl.
  - rewrite h_get_set in Hn. eapply only_at_trans; [|eapply (only_at_mono _ [p]); [|exact Hon]|exact Hn]; set_solver.
Qed.

Lemma embedded_queue_insert_spec m q l p d :
  queue_own m q l -> spare m p d l ->
  wp (embedded_queue_insert q p) (fun r m' => r = 0 /\ queue_own m' q (l ++ [(p, d)]) /\
    emb_frame q (p :: addrs l) m m') m.
Proof.
  intros (lk & Hh & H0 & Hq & Hs & Hok) Hsp. unfold embedded_queue_insert.
  eapply wp_clear_spare; [by left|by split_and!|done|]. intros h' Hends Hdet Hon.
  eapply wp_emb_link_tail; [done..|]. intros m1 Hl.
  eapply linked_own; [|done| |exact Hl|]; [by ksimpl|rewrite length_app; simpl; lia|].
  intros m2 Hown Hf. split_and!; [done..|]. eapply emb_frame_pre; [done| |done]. set_solver.
Qed.

(** How an enqueue ends. *)
Definition emb_enqueued (m : kmem) (q : Z) (l : list (Z * Z)) (p u : Z) (l' : list (Z * Z)) (r : Z) (m' : kmem) : Prop :=
  r = 0 /\ queue_own m' q l' /\ emb_frame q (p :: addrs l) m m'.

Lemma embedded_enqueue_spec m q l p d u :
  queue_own m q l -> spare m p d l ->
  wp (embedded_enqueue q p u) (emb_enqueued m q l p u (l ++ [(p, d)])) m.
Proof.
  intros Hown Hsp. pose proof Hsp as (_ & Hpl & [Hp _]). unfold embedded_enqueue.
  rewrite (queue_own_not_null _ _ _ Hown). assert (is_null p = false) as -> by (apply Z.eqb_neq; lia). simpl.
  apply wp_bind. eapply wp_queue_assert_locked; [done|]. apply wp_bind. unfold wp at 1.
  rewrite (embedded_duplicate_spec _ _ l) by (done || lia). rewrite bool_decide_eq_false_2, andb_false_r by done.
  by apply embedded_queue_insert_spec.
Qed.

Lemma embedded_enqueue_head_spec m q l p d u :
  queue_own m q l -> spare m p d l ->
  wp (embedded_enqueue_head q p u) (emb_enqueued m q l p u ((p, d) :: l)) m.
Proof.
  intros Hown Hsp. pose proof Hsp as (_ & Hpl & [Hp _]). unfold embedded_enqueue_head.
  rewrite (queue_own_not_null _ _ _ Hown). assert (is_null p = false) as -> by (apply Z.eqb_neq; lia). simpl.
  apply wp_bind. eapply wp_queue_assert_locked; [done|]. apply wp_bind. unfold wp at 1.
  rewrite (embedded_duplicate_spec _ _ l) by (done || lia). rewrite bool_decide_eq_false_2, andb_false_r by done.
  destruct Hown as (lk & Hh & H0 & Hq & Hs & Hok).
  eapply wp_clear_spare; [by left|by split_and!|done|]. intros h' Hends Hdet Hon.
  eapply wp_emb_link_head; [done..|]. intros m1 Hl.
  eapply linked_own; [|done| |exact Hl|]; [by ksimpl|done|].
  intros m2 Hown Hf. split_and!; [done..|]. eapply emb_frame_pre; [done| |done]. set_solver.
Qed.

(** A node that is already there is refused when [uniqueness] asks for it. *)
Lemma embedded_enqueue_dup m q l p :
  queue_own m q l -> p <> 0 -> p ∈ addrs l ->
  embedded_enqueue q p QUEUE_UNIQUE m = Done (- EEXIST) m /\
  embedded_enqueue_head q p QUEUE_UNIQUE m = Done (- EEXIST) m.
Proof.
  intros Hown Hp Hin. unfold embedded_enqueue, embedded_enqueue_head.
  rewrite (queue_own_not_null _ _ _ Hown). assert (is_null p = false) as -> by (by apply Z.eqb_neq). simpl.
  split; (erewrite M_bind_done by (by eapply queue_assert_locked_eq));
    (erewrite M_bind_done by (by eapply embedded_duplicate_spec));
    by rewrite bool_decide_eq_true_2 by done.
Qed.

Definition emb_whence (whence : Z) (l : list (Z * Z)) (x : Z * Z) : list (Z * Z) :=
  if whence =? QUEUE_HEAD then x :: l else l ++ [x].

Lemma embedded_enqueue_whence_spec m q l p d u whence :
  queue_own m q l -> spare m p d l -> bad_whence whence = false ->
  wp (embedded_enqueue_whence q p u whence) (emb_enqueued m q l p u (emb_whence whence l (p, d))) m.
Proof.
  intros Hown Hsp Hw. unfold embedded_enqueue_whence. apply wp_bind.
  eapply wp_queue_assert_locked; [done|]. unfold emb_whence, bad_whence in *.
  destruct (whence =? QUEUE_HEAD); [by apply embedded_enqueue_head_spec|].
  destruct (whence =? QUEUE_TAIL); [by apply embedded_enqueue_spec|done].
Qed.

(** ** Dequeueing, detaching, removing *)
Lemma embedded_dequeue_spec m q l :
  queue_own m q l ->
  wp (embedded_dequeue q true) (fun r m' =>
    match l with
    | [] => r = (- ENOENT, None) /\ m' = m
    | (p, d) :: l' => r = (0, Some p) /\ queue_own m' q l' /\ emb_frame q (addrs l) m m' /\
                      qnodes m' !! p = Some (mkQnode 0 d 0)
    end) m.
Proof.
  intros Hown. unfold embedded_dequeue. rewrite (queue_own_not_null _ _ _ Hown). simpl.
  apply wp_bind. eapply wp_queue_assert_locked; [done|].
  apply wp_bind. eapply wp_load_queue; [done|]. intros lk _ _. simpl.
  destruct l as [|[p d] l]; simpl; [by apply wp_ret|].
  rewrite (queue_own_node_null _ _ [] p d l Hown). apply wp_bind.
  eapply (wp_load_node _ _ [] p d l); [done|]. simpl.
  eapply (wp_unlink_clear _ _ [] p d l); [done|]. intros m' Hown' Hf Hp. by apply wp_ret.
Qed.

Lemma embedded_queue_detach_spec m q l1 p d l2 :
  queue_own m q (l1 ++ (p, d) :: l2) ->
  wp (embedded_queue_detach q p) (fun r m' => r = 0 /\ queue_own m' q (l1 ++ l2) /\
    emb_frame q (addrs (l1 ++ (p, d) :: l2)) m m' /\ qnodes m' !! p = Some (mkQnode 0 d 0)) m.
Proof.
  intros Hown. unfold embedded_queue_detach.
  rewrite (queue_own_not_null _ _ _ Hown), (queue_own_node_null _ _ _ _ _ _ Hown). simpl.
  apply wp_bind. eapply wp_queue_assert_locked; [done|].
  apply wp_bind. eapply wp_load_node; [done|]. simpl.
  eapply wp_unlink_clear; [done|]. intros m' Hown' Hf Hp. by apply wp_ret.
Qed.

Lemma addrs_split p l : p ∈ addrs l -> exists l1 d l2, l = l1 ++ (p, d) :: l2.
Proof.
  intros Hin. apply list_elem_of_fmap in Hin as ([p' d] & -> & Hin).
  apply list_elem_of_split in Hin as (l1 & l2 & ->). simpl. eauto.
Qed.

Lemma embedded_queue_remove_spec m q l p :
  queue_own m q l -> p <> 0 ->
  wp (embedded_queue_remove q p) (fun r m' =>
    (r = - ENOENT /\ m' = m /\ p ∉ addrs l) \/
    exists l1 d l2, r = 0 /\ l = l1 ++ (p, d) :: l2 /\ queue_own m' q (l1 ++ l2) /\
      emb_frame q (addrs l) m m' /\ qnodes m' !! p = Some (mkQnode 0 d 0)) m.
Proof.
  intros Hown Hp. unfold embedded_queue_remove. rewrite (queue_own_not_null _ _ _ Hown).
  assert (is_null p = false) as -> by (by apply Z.eqb_neq). simpl.
  apply wp_bind. eapply wp_queue_assert_locked; [done|]. apply wp_bind. unfold wp at 1.
  rewrite (embedded_queue_contains_spec _ _ l) by done. destruct (decide (p ∈ addrs l)) as [Hin|Hin]; simpl.
  - apply addrs_split in Hin as (l1 & d & l2 & ->).
    eapply wp_mono; [by apply embedded_queue_detach_spec|]. intros r m' (-> & ? & ? & ?). right. eauto 10.
  - apply wp_ret. left. auto.
Qed.

(** ** Moving one node to another queue *)
Lemma embedded_queue_relloc_spec m src dst ls ld p u whence :
  queue_own m src ls -> queue_own m dst ld -> src <> dst -> dll_ok (ls ++ ld) -> p <> 0 ->
  validate_uniqueness_and_whence u whence = 0 ->
  wp (embedded_queue_relloc dst src p u whence) (fun r m' =>
    (r = - ENOENT /\ m' = m /\ p ∉ addrs ls) \/
    exists l1 d l2, r = 0 /\ ls = l1 ++ (p, d) :: l2 /\ queue_own m' src (l1 ++ l2) /\
      queue_own m' dst (emb_whence whence ld (p, d)) /\
      move_frame src dst (addrs (ls ++ ld)) m m') m.
Proof.
  intros Hsrc Hdst Hne Hok Hp Hv. unfold embedded_queue_relloc, embedded_queue_check_relloc_input, validate_dest_and_srcq.
  rewrite Hv, (queue_own_not_null _ _ _ Hsrc), (queue_own_not_null _ _ _ Hdst). simpl.
  assert (is_null p = false) as -> by (by apply Z.eqb_neq). simpl.
  assert (bad_whence whence = false) as Hw.
  { unfold validate_uniqueness_and_whence, validate_whence in Hv. unfold bad_whence.
    destruct (validate_uniqueness u =? 0) eqn:E; simpl in Hv; [|rewrite Hv in E; done].
    by destruct (negb (whence =? QUEUE_HEAD) && negb (whence =? QUEUE_TAIL)). }
  apply wp_bind. eapply wp_queue_assert_locked; [exact Hsrc|].
  apply wp_bind. eapply wp_queue_assert_locked; [exact Hdst|].
  apply wp_bind. eapply wp_mono; [by apply embedded_queue_remove_spec|].
  intros r m1 [(-> & -> & Hn)|(l1 & d & l2 & -> & -> & Hsrc1 & Hf1 & Hp1)]; simpl; [apply wp_ret; left; auto|].
  pose proof Hok as Hok0. apply dll_ok_app in Hok0 as (Hoks & Hokd & Hdis).
  destruct (dll_ok_mid _ _ _ _ Hoks) as (_ & Hpn & Ha & _).
  assert (p ∉ addrs ld) as Hpd by (apply Hdis; rewrite elem_of_addrs_app, elem_of_addrs_cons; auto).
  assert (queue_own m1 dst ld) as Hdst1.
  { eapply queue_own_emb_frame; [exact Hf1|done| |exact Hdst]. intros x Hx Hx'. by apply (Hdis x). }
  apply wp_bind. eapply wp_mono; [eapply embedded_enqueue_whence_spec; [exact Hdst1| |done]|].
  { split_and!; [eauto|done|apply Ha..]. }
  intros r m2 (-> & Hdst2 & Hf2). simpl. apply wp_ret. right. exists l1, d, l2. split_and!; try done.
  - eapply queue_own_emb_frame; [exact Hf2|done| |exact Hsrc1]. intros x Hx. apply not_elem_of_cons. split.
    + intros ->. done.
    + apply Hdis. rewrite !elem_of_addrs_app, elem_of_addrs_cons in *. naive_solver.
  - destruct Hf1 as [E1 _ Q1 N1], Hf2 as [E2 _ Q2 N2]. split; [by rewrite E2| |].
    + intros q Hq1 Hq2. by rewrite Q2, Q1.
    + eapply (only_at_trans _ (p :: addrs ld)); [|eapply only_at_mono; [|exact N1]|exact N2].
      * intros x. rewrite elem_of_cons, !elem_of_addrs_app, elem_of_addrs_cons. naive_solver.
      * intros x. rewrite !elem_of_addrs_app. naive_solver.
Qed.

(** ** Sorted insertion *)

(** The code answered by a comparison that follows a key. *)
Definition cmp_code (c : comparison) : Z :=
  match c with Eq => QUEUE_EQUAL | Lt => QUEUE_LESSER | Gt => QUEUE_GREATER end.

Section Sorted.
Context (m : kmem) (q n : Z) (lk : spinlock_t) (p d : Z).

(** Between [l1] (not empty) and [l2]: the text of the [QUEUE_EQUAL] case. *)
Lemma wp_insert_after l1 l2 x dx :
  queue_ends m q n lk ((l1 ++ [(x, dx)]) ++ l2) -> detached m p d ((l1 ++ [(x, dx)]) ++ l2) ->
  wp (do! modify p (set_prev x) in
      let! n := load x in
      do! modify p (set_next (n_next n)) in
      do! modify x (set_next p) in
      let! qn := load p in
      do! (if negb (is_null (n_next qn)) then modify (n_next qn) (set_prev p)
           else modify q (set_tail p)) in
      ret! (None : option Z)) (fun r m' => r = None /\
    linked m q n lk ((l1 ++ [(x, dx)]) ++ l2) ((l1 ++ [(x, dx)]) ++ (p, d) :: l2) p m') m.
Proof.
  set (l1' := l1 ++ [(x, dx)]). intros (Hq & Hs & Hok) (Hp & Hpl & Ha). rewrite elem_of_addrs_app in Hpl.
  assert (last_addr l1' 0 = x) as Hx by apply last_addr_snoc.
  assert (l1' <> []) as Hne by (unfold l1'; by destruct l1).
  pose proof Hok as Hok0. apply dll_ok_app in Hok0 as (Hok1 & Hok2 & Hd).
  apply seg_app in Hs as [Hs1 Hs2]. rewrite hd_addr_app, last_addr_app, Hx in Hq. rewrite Hx in Hs2.
  assert (p <> x) as Hpx by (intros ->; apply Hpl; left; rewrite <- Hx; by apply last_addr_in).
  destruct (seg_last_node _ _ _ _ Hs1 Hne) as (a & dx' & Hxn). rewrite Hx in Hxn.
  apply wp_bind. eapply wp_modify; [exact Hp|]. apply wp_bind.
  eapply wp_load; [ksimpl; rewrite lookup_insert_ne by done; exact Hxn|]. simpl n_next.
  apply wp_bind. eapply wp_modify; [ksimpl; apply lookup_insert_eq|]. ksimpl. rewrite insert_insert_eq.
  unfold set_next at 1, set_prev at 1; simpl. set (h1 := <[p := _]> _).
  assert (forall l, p ∉ addrs l -> forall pv nx, seg (qnodes m) pv l nx -> seg h1 pv l nx) as Hfr.
  { intros l Hl pv nx. apply seg_ext. intros y Hy. apply lookup_insert_ne. by intros ->. }
  apply wp_bind. rewrite <- Hx. eapply wp_set_last; [ksimpl; apply Hfr; [naive_solver|exact Hs1]|done..|].
  rewrite h_get_set. intros h2 Hs1' Hr2. ksimpl.
  assert (h2 !! p = Some (mkQnode x d (hd_addr l2 0))) as Hp2.
  { destruct Hr2 as [Hr2 _]. rewrite Hr2 by naive_solver. apply lookup_insert_eq. }
  apply wp_bind. eapply wp_load; [ksimpl; exact Hp2|]. simpl.
  apply wp_bind. eapply (wp_link_prev_or _ l2 x 0 p x q); [|done|ksimpl; exact Hq|].
  { ksimpl. eapply seg_relinked; [exact Hr2|naive_solver|]. apply Hfr; [naive_solver|exact Hs2]. }
  rewrite h_get_set. intros h3 Hs2' Hr3. apply wp_ret. split; [done|]. ksimpl. exists h3.
  assert (hd_addr l1' 0 = hd_addr l1' (hd_addr l2 0)) as Hhd by (by destruct l1').
  split_and!.
  - rewrite hd_addr_app, last_addr_app. simpl. by destruct l1'.
  - apply seg_app. rewrite Hx. simpl. split_and!.
    + eapply seg_relinked; [exact Hr3|naive_solver|exact Hs1'].
    + destruct Hr3 as [Hr3 _]. rewrite Hr3 by naive_solver. done.
    + done.
  - apply (dll_ok_perm ((p, d) :: l1' ++ l2)); [apply Permutation_middle|].
    apply dll_ok_cons. rewrite elem_of_addrs_app. done.
  - intros y Hy Hyp. rewrite elem_of_addrs_app in Hy. destruct Hr2 as [Hr2 _], Hr3 as [Hr3 _].
    rewrite Hr3, Hr2 by naive_solver. apply lookup_insert_ne. done.
  - destruct Hr2 as [_ D2], Hr3 as [_ D3]. rewrite D3, D2. apply dom_insert_lookup_L. eauto.
Qed.

(** Between [l1] and [l2] (not empty): the text of the [QUEUE_LESSER] case. *)
Lemma wp_insert_before l1 l2 x dx :
  queue_ends m q n lk (l1 ++ (x, dx) :: l2) -> detached m p d (l1 ++ (x, dx) :: l2) ->
  wp (do! modify p (set_next x) in
      let! n := load x in
      do! modify p (set_prev (n_prev n)) in
      do! modify x (set_prev p) in
      let! qn := load p in
      do! (if negb (is_null (n_prev qn)) then modify (n_prev qn) (set_next p)
           else modify q (set_head p)) in
      ret! (None : option Z)) (fun r m' => r = None /\
    linked m q n lk (l1 ++ (x, dx) :: l2) (l1 ++ (p, d) :: (x, dx) :: l2) p m') m.
Proof.
  set (l2' := (x, dx) :: l2). intros (Hq & Hs & Hok) (Hp & Hpl & Ha). rewrite elem_of_addrs_app in Hpl.
  assert (hd_addr l2' 0 = x) as Hx by done. assert (l2' <> []) as Hne by done.
  pose proof Hok as Hok0. apply dll_ok_app in Hok0 as (Hok1 & Hok2 & Hd).
  apply seg_app in Hs as [Hs1 Hs2]. rewrite hd_addr_app, last_addr_app, Hx in Hq. rewrite Hx in Hs1.
  assert (p <> x) as Hpx by (intros ->; apply Hpl; right; rewrite <- Hx; by apply hd_addr_in).
  destruct (seg_first_node _ _ _ _ Hs2 Hne) as (dx' & b & Hxn). rewrite Hx in Hxn.
  apply wp_bind. eapply wp_modify; [exact Hp|]. apply wp_bind.
  eapply wp_load; [ksimpl; rewrite lookup_insert_ne by done; exact Hxn|]. simpl n_prev.
  apply wp_bind. eapply wp_modify; [ksimpl; apply lookup_insert_eq|]. ksimpl. rewrite insert_insert_eq.
  unfold set_next at 1, set_prev at 1; simpl. set (h1 := <[p := _]> _).
  assert (forall l, p ∉ addrs l -> forall pv nx, seg (qnodes m) pv l nx -> seg h1 pv l nx) as Hfr.
  { intros l Hl pv nx. apply seg_ext. intros y Hy. apply lookup_insert_ne. by intros ->. }
  apply wp_bind. rewrite <- Hx. eapply wp_set_first; [ksimpl; apply Hfr; [naive_solver|exact Hs2]|done..|].
  rewrite h_get_set. intros h2 Hs2' Hr2. ksimpl.
  assert (h2 !! p = Some (mkQnode (last_addr l1 0) d x)) as Hp2.
  { destruct Hr2 as [Hr2 _]. rewrite Hr2 by naive_solver. apply lookup_insert_eq. }
  apply wp_bind. eapply wp_load; [ksimpl; exact Hp2|]. simpl n_prev.
  apply wp_bind. eapply (wp_link_next_or _ l1 0 x p x q); [|done|ksimpl; exact Hq|].
  { ksimpl. eapply seg_relinked; [exact Hr2|naive_solver|]. apply Hfr; [naive_solver|exact Hs1]. }
  rewrite h_get_set. intros h3 Hs1' Hr3. apply wp_ret. split; [done|]. ksimpl. exists h3.
  split_and!.
  - by rewrite hd_addr_app, last_addr_app.
  - apply seg_app. split; [exact Hs1'|]. split.
    + destruct Hr3 as [Hr3 _]. rewrite Hr3 by naive_solver. done.
    + eapply seg_relinked; [exact Hr3|naive_solver|exact Hs2'].
  - apply (dll_ok_perm ((p, d) :: l1 ++ l2')); [apply Permutation_middle|].
    apply dll_ok_cons. rewrite elem_of_addrs_app. done.
  - intros y Hy Hyp. rewrite elem_of_addrs_app in Hy. destruct Hr2 as [Hr2 _], Hr3 as [Hr3 _].
    rewrite Hr3, Hr2 by naive_solver. apply lookup_insert_ne. done.
  - destruct Hr2 as [_ D2], Hr3 as [_ D3]. rewrite D3, D2. apply dom_insert_lookup_L. eauto.
Qed.

(** At the end of a list that ends with [x]: the text of the [QUEUE_GREATER] case. *)
Lemma wp_insert_last l1 x dx :
  queue_ends m q n lk (l1 ++ [(x, dx)]) -> detached m p d (l1 ++ [(x, dx)]) ->
  wp (do! modify p (set_next 0) in
      do! modify q (set_tail p) in
      do! modify p (set_prev x) in
      do! modify x (set_next p) in
      ret! (None : option Z)) (fun r m' => r = None /\
    linked m q n lk (l1 ++ [(x, dx)]) ((l1 ++ [(x, dx)]) ++ [(p, d)]) p m') m.
Proof.
  set (l1' := l1 ++ [(x, dx)]). intros (Hq & Hs & Hok) (Hp & Hpl & Ha).
  assert (last_addr l1' 0 = x) as Hx by apply last_addr_snoc.
  assert (l1' <> []) as Hne by (unfold l1'; by destruct l1).
  apply wp_bind. eapply wp_modify; [exact Hp|].
  apply wp_bind. eapply wp_modify; [ksimpl; exact Hq|].
  apply wp_bind. eapply wp_modify; [ksimpl; apply lookup_insert_eq|]. qnorm. rewrite insert_insert_eq.
  unfold set_next at 1, set_prev at 1, set_tail; simpl. set (h1 := <[p := _]> _).
  apply wp_bind. rewrite <- Hx. eapply (wp_set_last _ l1' 0 0).
  { ksimpl. eapply seg_ext; [|exact Hs]. intros y Hy. apply lookup_insert_ne. by intros ->. }
  { done. } { done. }
  qnorm. intros h2 Hs1' Hr2. apply wp_ret. split; [done|]. qnorm. exists h2. split_and!.
  - rewrite hd_addr_app, last_addr_app. by destruct l1'.
  - apply seg_app. split; [exact Hs1'|]. rewrite Hx. split; [|done].
    destruct Hr2 as [Hr2 _]. rewrite Hr2 by done. apply lookup_insert_eq.
  - by apply dll_ok_snoc.
  - intros y Hy Hyp. destruct Hr2 as [Hr2 _]. rewrite Hr2 by done. by apply lookup_insert_ne.
  - destruct Hr2 as [_ D2]. rewrite D2. apply dom_insert_lookup_L. eauto.
Qed.

(** The walk: where the new node goes, or that it is refused. *)
Lemma embedded_sorted_loop_spec fuel l1 l2 u order compare k :
  queue_ends m q n lk (l1 ++ l2) -> detached m p d (l1 ++ l2) -> l1 ++ l2 <> [] ->
  (length l2 < fuel)%nat -> l2 <> [] ->
  (forall x, x ∈ addrs l2 -> queue_cmp_nodes p x order compare = cmp_code (k p ?= k x)) ->
  wp (embedded_sorted_loop fuel q (hd_addr l2 0) p u order compare) (fun r m' =>
    (exists x, r = Some (- EEXIST) /\ m' = m /\ u = QUEUE_UNIQUE /\ x ∈ addrs l2 /\ k x = k p) \/
    exists l l', r = None /\ l2 = l ++ l' /\ linked m q n lk (l1 ++ l2) (l1 ++ l ++ (p, d) :: l') p m' /\
      (forall x, x ∈ addrs l -> k x <= k p) /\ (forall x, hd_error (addrs l') = Some x -> k p <= k x \/
         exists y, last (addrs l) = Some y /\ k y = k p) /\
      (u = QUEUE_UNIQUE -> (forall x, x ∈ addrs l -> k x < k p) /\
         forall x, hd_error (addrs l') = Some x -> k p < k x)) m.
Proof.
  revert l1 fuel. induction l2 as [|[x dx] l2 IH]; intros l1 [|fuel] Hends Hdet Hnn Hf Hne Hcmp; simpl in Hf; try lia; [done|].
  pose proof Hends as (Hq & Hs & Hok). destruct (seg_mid _ _ _ _ _ Hs) as (_ & Hx & _).
  destruct (dll_ok_mid _ _ _ _ Hok) as (_ & _ & [Hx0 _] & _ & Hok2 & _).
  cbn [embedded_sorted_loop hd_addr fst]. assert (is_null x = false) as -> by (apply Z.eqb_neq; lia).
  apply wp_bind. eapply wp_load; [exact Hx|]. cbn [n_next]. cbv zeta.
  rewrite Hcmp by (apply elem_of_addrs_cons; by left).
  destruct (Z.compare_spec (k p) (k x)) as [Heq|Hlt|Hgt]; cbn [cmp_code].
  - simpl (QUEUE_EQUAL =? QUEUE_EQUAL). cbn iota. destruct (Z.eqb_spec u QUEUE_UNIQUE) as [Hu|Hu].
    + apply wp_ret. left. exists x. split_and!; try done. apply elem_of_addrs_cons. by left.
    + rewrite (app_assoc l1 [_] l2 : l1 ++ (x, dx) :: l2 = _) in Hends, Hdet |- *.
      eapply wp_mono; [by eapply wp_insert_after|]. intros r m' [-> Hl]. right. exists [(x, dx)], l2.
      rewrite <- (app_assoc l1 [(x, dx)] (_ :: _)) in Hl. split_and!; try done.
      * intros y [->|[]%not_elem_of_addrs_nil]%elem_of_addrs_cons. simpl. lia.
      * intros y _. right. exists x. done.
  - simpl (QUEUE_LESSER =? QUEUE_EQUAL). simpl (QUEUE_LESSER =? QUEUE_LESSER). cbn iota.
    eapply wp_mono; [by eapply wp_insert_before|]. intros r m' [-> Hl]. right. exists [], ((x, dx) :: l2).
    split_and!; try done; [intros y []%not_elem_of_addrs_nil|..].
    + intros y [= <-]. left. lia.
    + intros _. split; [intros y []%not_elem_of_addrs_nil|]. intros y [= <-]. lia.
  - simpl (QUEUE_GREATER =? _). cbn iota. simpl andb. destruct (is_null (hd_addr l2 0)) eqn:E.
    + apply dll_ok_hd_null in E; [|done]. subst l2. eapply wp_mono; [by eapply wp_insert_last|].
      intros r m' [-> Hl]. right. exists [(x, dx)], []. rewrite <- !app_assoc in Hl. split_and!; try done.
      * intros y [->|[]%not_elem_of_addrs_nil]%elem_of_addrs_cons. simpl. lia.
      * intros _. split; [|done]. intros y [->|[]%not_elem_of_addrs_nil]%elem_of_addrs_cons. simpl. lia.
    + simpl (QUEUE_GREATER <? 0). cbn iota.
      eapply wp_mono; [apply (IH (l1 ++ [(x, dx)]))|]; rewrite <- ?app_assoc; try done; [lia| | |].
      * intros ->. done.
      * intros y Hy. apply Hcmp, elem_of_addrs_cons. by right.
      * intros r m' [(y & -> & -> & Hu & Hy & Hk)|(l & l' & -> & -> & Hl & Hle & Hge & Hst)].
        { left. exists y. split_and!; try done. apply elem_of_addrs_cons. by right. }
        right. exists ((x, dx) :: l), l'. rewrite <- !app_assoc in Hl. split_and!; try done.
        { intros y [->|Hy]%elem_of_addrs_cons; [simpl; lia|by apply Hle]. }
        { intros y Hy. destruct (Hge y Hy) as [|(z & Hz & Hzk)]; [by left|]. right. exists z. split; [|done].
          rewrite addrs_cons. by destruct (addrs l). }
        intros Hu. destruct (Hst Hu) as [Hst1 Hst2]. split; [|done].
        intros y [->|Hy]%elem_of_addrs_cons; [simpl; lia|by apply Hst1].
Qed.
End Sorted.

(** ** Sorted queues *)
Definition sorted_by (k : Z -> Z) (l : list (Z * Z)) : Prop :=
  forall (l1 : list Z) x (l2 : list Z) y, addrs l = l1 ++ x :: l2 -> y ∈ l2 -> k x <= k y.

Lemma sorted_by_insert k l l' p d :
  sorted_by k (l ++ l') -> (forall x, x ∈ addrs l -> k x <= k p) ->
  (forall x, hd_error (addrs l') = Some x -> k p <= k x \/ exists y, last (addrs l) = Some y /\ k y = k p) ->
  sorted_by k (l ++ (p, d) :: l').
Proof.
  intros Hs Hle Hge.
  assert (forall y, y ∈ addrs l' -> k p <= k y) as Hge'.
  { intros y Hy. destruct (addrs l') as [|x t] eqn:E; [by apply not_elem_of_nil in Hy|].
    destruct (Hge x eq_refl) as [Hpx|(z & Hz & <-)].
    - apply elem_of_cons in Hy as [->|Hy]; [done|]. transitivity (k x); [done|].
      apply (Hs (addrs l) x t); [|done]. by rewrite addrs_app, E.
    - apply last_Some in Hz as [l0 Hl0]. apply (Hs l0 z (x :: t)); [|done].
      by rewrite addrs_app, E, Hl0, <- app_assoc. }
  assert (forall x y, x ∈ addrs l -> y ∈ addrs l' -> k x <= k y) as Hcross.
  { intros x y Hx Hy. transitivity (k p); auto. }
  intros l1 x l2 y Heq Hy. rewrite addrs_app, addrs_cons in Heq. cbn [fst] in Heq.
  apply app_eq_app in Heq as (t & [[E1 E2]|[E1 E2]]).
  - destruct t as [|z t]; cbn in E2; injection E2 as -> ->; [by apply Hge'|].
    assert (z ∈ addrs l) as Hz by (rewrite E1; set_solver).
    apply elem_of_app in Hy as [Hy|[->|Hy]%elem_of_cons]; [|by apply Hle|by apply Hcross].
    apply (Hs l1 z (t ++ addrs l')); [by rewrite addrs_app, E1, <- app_assoc|set_solver].
  - destruct t as [|z t]; cbn in E2; injection E2 as -> E2; [by apply Hge'; rewrite E2|].
    apply (Hs (addrs l ++ t) x l2); [|done]. by rewrite addrs_app, E2, <- app_assoc.
Qed.

Section SortedOp.
Context (key : Z -> Z) (cmp : Z -> Z -> Z) (order : Z).
Hypothesis cmp_key : forall a b, cmp a b = cmp_code (key a ?= key b).

(** The key in the direction of the requested order. *)
Definition order_key (x : Z) : Z := if order =? QUEUE_DESCENDING then - key x else key x.

Lemma queue_cmp_nodes_key p x :
  p <> 0 -> x <> 0 -> queue_cmp_nodes p x order (Some cmp) = cmp_code (order_key p ?= order_key x).
Proof.
  intros Hp Hx. unfold queue_cmp_nodes, order_key, is_null. rewrite !(proj2 (Z.eqb_neq _ _)) by done. simpl.
  destruct (order =? QUEUE_DESCENDING); rewrite cmp_key; [by rewrite Z.compare_opp|done].
Qed.

Lemma embedded_enqueue_sorted_spec m q l p d u :
  queue_own m q l -> spare m p d l -> sorted_by order_key l ->
  wp (embedded_enqueue_sorted q p u order (Some cmp)) (fun r m' =>
    (r = - EEXIST /\ u = QUEUE_UNIQUE /\ (exists x, x ∈ addrs l /\ order_key x = order_key p) /\
       queue_own m' q l) \/
    (r = 0 /\ exists l1 l2, l = l1 ++ l2 /\ queue_own m' q (l1 ++ (p, d) :: l2) /\
       sorted_by order_key (l1 ++ (p, d) :: l2) /\
       (u = QUEUE_UNIQUE -> forall x, x ∈ addrs l -> order_key x <> order_key p))) m.
Proof.
  intros Hown Hsp Hsort. pose proof Hsp as (_ & Hpl & [Hp0 _]). unfold embedded_enqueue_sorted.
  rewrite (queue_own_not_null _ _ _ Hown). assert (is_null p = false) as -> by (apply Z.eqb_neq; lia). simpl orb.
  cbn iota. apply wp_bind. eapply wp_queue_assert_locked; [done|].
  destruct Hown as (lk & Hh & H0 & Hq & Hs & Hok).
  eapply wp_clear_spare; [by right|by split_and!|done|]. intros h' Hends Hdet Hon.
  set (m1 := h_set h' m) in *. assert (holding (k_who m1) lk = true) as Hh1 by (unfold m1; by ksimpl).
  assert (queue_own m1 q l) as Hown1 by (exists lk; split; [done|split; [done|exact Hends]]).
  apply wp_bind. pose proof Hends as (Hq1 & _). eapply wp_load; [exact Hq1|]. cbn [KMem.head].
  destruct (is_null (hd_addr l 0)) eqn:E.
  { apply dll_ok_hd_null in E; [|done]. subst l. destruct Hdet as (Hp & _ & Ha).
    apply wp_bind. eapply wp_modify; [exact Hq1|].
    apply wp_bind. eapply wp_modify; [ksimpl; apply lookup_insert_eq|]. ksimpl. rewrite insert_insert_eq.
    apply wp_bind. eapply wp_modify; [ksimpl; apply lookup_insert_eq|]. ksimpl. rewrite insert_insert_eq.
    apply wp_ret. right. split; [done|]. exists [], []. split; [done|]. split.
    - exists lk. split; [by ksimpl|]. split; [done|]. ksimpl. split; [apply lookup_insert_eq|]. split; [by split|].
      apply dll_ok_cons. split_and!; [apply Ha..|apply not_elem_of_addrs_nil|apply dll_ok_nil].
    - split; [apply (sorted_by_insert _ [] []); [done| |done]; intros x []%not_elem_of_addrs_nil|].
      intros _ x []%not_elem_of_addrs_nil. }
  apply wp_bind. unfold wp at 1. rewrite (embedded_duplicate_spec _ _ l) by (done || lia).
  rewrite bool_decide_eq_false_2, andb_false_r by done.
  apply wp_bind. eapply wp_load; [exact Hq1|]. apply wp_bind. eapply wp_node_fuel; [exact Hown1|]. intros fuel Hf.
  assert (l <> []) as Hne by (intros ->; done). apply wp_bind.
  eapply wp_mono; [apply (embedded_sorted_loop_spec m1 q (Z.of_nat (length l)) lk p d fuel [] l u order (Some cmp) order_key); try done|].
  { intros x Hx. apply queue_cmp_nodes_key; [lia|]. pose proof (dll_ok_addr _ _ Hok Hx) as [? _]. lia. }
  intros r m' [(x & -> & -> & Hu & Hx & Hk)|(l1 & l2 & -> & -> & Hl & Hle & Hge & Hst)].
  - apply wp_ret. left. eauto 10.
  - eapply linked_own; [exact Hh1|done| |exact Hl|].
    + simpl. rewrite !length_app. simpl. lia.
    + intros m2 Hown2 _. right. split; [done|]. exists l1, l2. split_and!; try done; [by apply sorted_by_insert|].
      intros Hu x [Hx|Hx]%elem_of_addrs_app; destruct (Hst Hu) as [Hlt Hgt].
      * specialize (Hlt x Hx). lia.
      * destruct (addrs l2) as [|y t] eqn:E2; [by apply not_elem_of_nil in Hx|].
        specialize (Hgt y eq_refl). apply elem_of_cons in Hx as [->|Hx]; [lia|].
        pose proof (Hsort (addrs l1) y t x) as Hyx. rewrite addrs_app, E2 in Hyx. specialize (Hyx eq_refl Hx). lia.
Qed.
End SortedOp.

(** ** Moving a run of nodes *)
Lemma embedded_migrate_run m src dst a b c ld whence :
  queue_own m src (a ++ b ++ c) -> queue_own m dst ld -> src <> dst ->
  dll_ok ((a ++ b ++ c) ++ ld) -> b <> [] -> bad_whence whence = false ->
  wp (embedded_queue_migrate dst src (Z.of_nat (length a)) (Z.of_nat (length b)) whence) (fun r m' =>
    r = 0 /\ queue_own m' src (a ++ c) /\ queue_own m' dst (spliced whence b ld) /\
    move_frame src dst (addrs ((a ++ b ++ c) ++ ld)) m m') m.
Proof.
  intros Hsrc Hdst Hne Hok Hb Hw. unfold embedded_queue_migrate.
  rewrite (queue_own_not_null _ _ _ Hsrc), (queue_own_not_null _ _ _ Hdst). cbn [orb].
  pose proof (queue_own_length _ _ _ Hsrc) as Hlen.
  apply wp_bind. eapply wp_queue_assert_locked; [exact Hdst|].
  apply wp_bind. eapply wp_queue_assert_locked; [exact Hsrc|].
  destruct Hsrc as (lks & Hhs & Hs0 & Hqs & Hss & Hoks).
  destruct Hdst as (lkd & Hhd & Hd0 & Hqd & Hsd & Hokd).
  apply wp_bind. eapply wp_load; [exact Hqs|]. cbn [q_count KMem.head].
  rewrite !length_app in Hlen |- *. assert (0 < length b)%nat by (destruct b; [done|simpl; lia]).
  rewrite u64_small by (unfold is_u64 in *; lia).
  destruct (Z.leb_spec (Z.of_nat (length a + (length b + length c))) (Z.of_nat (length a))); [lia|].
  destruct (Z.eqb_spec (Z.of_nat (length b)) 0); [lia|].
  destruct (Z.ltb_spec (Z.of_nat (length a + (length b + length c))) (Z.of_nat (length a) + Z.of_nat (length b))); [lia|].
  cbn [orb]. rewrite Hw. rewrite Nat2Z.id.
  apply wp_bind. unfold wp at 1. erewrite queue_advance_spec by done.
  assert (hd_addr (b ++ c) 0 = hd_addr b 0) as -> by (by destruct b).
  pose proof Hoks as Hok0. apply dll_ok_app in Hok0 as (_ & Hok0 & _). apply dll_ok_app in Hok0 as (Hokb & _ & _).
  destruct (is_null (hd_addr b 0)) eqn:E; [by apply dll_ok_hd_null in E|]. clear E.
  apply wp_bind. unfold wp at 1.
  replace (queue_follow _ _ _) with (Done (last_addr b 0) m : outcome kmem Z).
  2:{ symmetry. destruct b as [|[p d] b]; [done|]. simpl hd_addr. simpl last_addr.
      replace (Z.to_nat _) with (length b) by (simpl; lia). apply seg_app in Hss as [_ Hss].
      apply seg_app in Hss as [Hss _]. by eapply queue_follow_spec. }
  eapply wp_cut; [by split_and!|done|]. intros h1 Hac Hb1 Ho1. by eapply wp_attach.
Qed.

Lemma embedded_queue_migrate_spec m src dst ls ld pos n whence :
  queue_own m src ls -> queue_own m dst ld -> src <> dst -> dll_ok (ls ++ ld) ->
  is_u64 pos -> is_u64 n -> pos + n < two64 ->
  wp (embedded_queue_migrate dst src pos n whence) (fun r m' =>
    if migrate_ok (Z.of_nat (length ls)) pos n whence then
      r = 0 /\ queue_own m' src (take (Z.to_nat pos) ls ++ drop (Z.to_nat (pos + n)) ls) /\
      queue_own m' dst (spliced whence (take (Z.to_nat n) (drop (Z.to_nat pos) ls)) ld) /\
      move_frame src dst (addrs (ls ++ ld)) m m'
    else r = - EINVAL /\ m' = m) m.
Proof.
  intros Hsrc Hdst Hne Hok Hst Hnum Hsum. destruct (migrate_ok _ _ _ _) eqn:E.
  - apply migrate_ok_split in E as (Hw & Ha & Hb & Hls & Hbn); [|done..].
    pose proof (embedded_migrate_run m src dst (take (Z.to_nat pos) ls)
      (take (Z.to_nat n) (drop (Z.to_nat pos) ls)) (drop (Z.to_nat (pos + n)) ls) ld whence) as Hrun.
    rewrite <- Hls in Hrun. rewrite Ha, Hb, !Z2Nat.id in Hrun by (apply Hst || apply Hnum). by apply Hrun.
  - unfold embedded_queue_migrate, migrate_ok in *.
    rewrite (queue_own_not_null _ _ _ Hsrc), (queue_own_not_null _ _ _ Hdst). cbn [orb].
    apply wp_bind. eapply wp_queue_assert_locked; [exact Hdst|].
    apply wp_bind. eapply wp_queue_assert_locked; [exact Hsrc|].
    apply wp_bind. eapply wp_load_queue; [exact Hsrc|]. intros lk _ _. simpl.
    rewrite u64_small by (unfold is_u64 in *; lia).
    destruct (_ || _ : bool); [by apply wp_ret|]. simpl in E. apply negb_false_iff in E. rewrite E. by apply wp_ret.
Qed.
