(* ===== verification/EmbProps.v ===== *)
(** * Properties of the embedded queues

    Relocation, migration and sorted insertion, and the two operations that damage
    the queue. *)
From S2P Require Import Prelude Errno Spinlock KMem Queue Dll QueueFacts QueueMove EmbQueue EmbFacts Sample QueueProps.

Implicit Types (l ls ld : list (Z * Z)) (d : Z).

(** ** Forward chains: what a walk along [next] sees *)
Fixpoint fseg (h : gmap Z queue_node_t) (l : list (Z * Z)) (nx : Z) : Prop :=
  match l with
  | [] => True
  | (p, _) :: l => (exists a d, h !! p = Some (mkQnode a d (hd_addr l nx))) /\ fseg h l nx
  end.

Lemma seg_fseg h pv l nx : seg h pv l nx -> fseg h l nx.
Proof. revert pv. induction l as [|[p d] l IH]; intros pv; simpl; [done|]. intros [Hp Hs]. eauto. Qed.

Lemma fseg_ext h h' l nx :
  (forall p a d b, p ∈ addrs l -> h !! p = Some (mkQnode a d b) -> exists a' d', h' !! p = Some (mkQnode a' d' b)) ->
  fseg h l nx -> fseg h' l nx.
Proof.
  induction l as [|[p d] l IH]; simpl; [done|]. intros Hext [(a & x & Hp) Hs].
  setoid_rewrite elem_of_addrs_cons in Hext. split; [eapply Hext; [by left|exact Hp]|].
  apply IH; [|done]. intros y a' d' b Hy. apply Hext. by right.
Qed.

Lemma fseg_app h l1 l2 nx : fseg h (l1 ++ l2) nx <-> fseg h l1 (hd_addr l2 nx) /\ fseg h l2 nx.
Proof. induction l1 as [|[p d] l1 IH]; simpl; [naive_solver|]. rewrite IH, hd_addr_app. naive_solver. Qed.

Lemma embedded_find_fseg m l p fuel :
  fseg (qnodes m) l 0 -> dll_ok l -> (length l < fuel)%nat ->
  embedded_find fuel (hd_addr l 0) p m = Done (if decide (p ∈ addrs l) then 0 else - ENOENT) m.
Proof.
  revert fuel. induction l as [|[x d] l IH]; intros [|fuel] Hs Hok Hf; simpl in Hf; try lia;
    cbn [embedded_find hd_addr fst].
  { by rewrite decide_False by apply not_elem_of_addrs_nil. }
  destruct Hs as [(a & d' & Hx) Hs]. apply dll_ok_cons in Hok as ([? _] & _ & Hok). cbn [fst] in *.
  assert (is_null x = false) as -> by (apply Z.eqb_neq; lia). destruct (Z.eqb_spec x p) as [->|Hxp].
  { rewrite decide_True; [done|]. apply elem_of_addrs_cons. by left. }
  erewrite M_bind_done by (unfold load; by rewrite Hx). cbn [n_next]. rewrite IH by (done || lia).
  do 2 f_equal. apply decide_ext. rewrite elem_of_addrs_cons. simpl. naive_solver.
Qed.

(** [embedded_queue_contains] on a queue that is only intact forwards. *)
Lemma embedded_queue_contains_fseg m q l p lk tl n :
  q <> 0 -> p <> 0 -> queues m !! q = Some (mkQueue (hd_addr l 0) tl n lk) -> holding (k_who m) lk = true ->
  fseg (qnodes m) l 0 -> dll_ok l -> (length l <= size (qnodes m))%nat ->
  embedded_queue_contains q p m = Done (if decide (p ∈ addrs l) then 0 else - ENOENT) m.
Proof.
  intros H0 Hp Hq Hh Hs Hok Hsz. unfold embedded_queue_contains, is_null.
  rewrite (proj2 (Z.eqb_neq q 0)), (proj2 (Z.eqb_neq p 0)) by done. cbn [orb].
  assert (queue_assert_locked q m = Done tt m) as Ha.
  { assert (wp (queue_assert_locked q) (fun _ m' => m' = m) m) as Hw
      by (eapply wp_obj_assert_locked; [by split_and!|done]).
    by apply wp_done in Hw as ([] & m' & Hr & ->). }
  erewrite M_bind_done by exact Ha. erewrite M_bind_done by (unfold load; by rewrite Hq).
  erewrite M_bind_done by apply node_fuel_eq. cbn [KMem.head]. apply embedded_find_fseg; [done..|].
  change (k_qnodes m) with (qnodes m). lia.
Qed.

(** ** Properties *)

(** [embedded_queue_relloc] moves one node between two queues: the node leaves
    the source, keeps its data and joins the destination at the requested end,
    both queues stay well formed and nothing else changes; a node that is not in
    the source is reported with ENOENT and nothing changes. *)
Theorem embedded_relloc_moves_node m src dst ls ld p u whence :
  queue_own m src ls -> queue_own m dst ld -> src <> dst -> dll_ok (ls ++ ld) -> p <> 0 ->
  validate_uniqueness_and_whence u whence = 0 ->
  wp (embedded_queue_relloc dst src p u whence) (fun r m' =>
    (r = - ENOENT /\ m' = m /\ p ∉ addrs ls) \/
    exists l1 d l2, r = 0 /\ ls = l1 ++ (p, d) :: l2 /\ queue_own m' src (l1 ++ l2) /\
      queue_own m' dst (emb_whence whence ld (p, d)) /\
      move_frame src dst (addrs (ls ++ ld)) m m') m.
Proof. apply embedded_queue_relloc_spec. Qed.

Lemma embedded_relloc_moves_node_witness :
  wp (embedded_queue_relloc 200 100 130 QUEUE_UNIQUE QUEUE_HEAD) (fun r m' =>
    (r = - ENOENT /\ m' = two_queues /\ 130 ∉ addrs src_nodes) \/
    exists l1 d l2, r = 0 /\ src_nodes = l1 ++ (130, d) :: l2 /\ queue_own m' 100 (l1 ++ l2) /\
      queue_own m' 200 (emb_whence QUEUE_HEAD dst_nodes (130, d)) /\
      move_frame 100 200 (addrs (src_nodes ++ dst_nodes)) two_queues m') two_queues.
Proof.
  apply (embedded_relloc_moves_node two_queues 100 200 src_nodes dst_nodes 130);
    [apply two_queues_src|apply two_queues_dst|done|by apply (bool_decide_unpack _)|done|reflexivity].
Defined.


(** The queue at 200 and the spare node 110, whose data is 5. *)
Definition one_spare : kmem :=
  h_set {[200 := queue_of [(120, 9); (140, 8)] held_lock]}
    (h_set (<[110 := mkQnode 77 5 78]> (chain 0 [(120, 9); (140, 8)])) idle).

Lemma one_spare_own : queue_own one_spare 200 [(120, 9); (140, 8)].
Proof.
  exists held_lock. split; [done|]. split_and!; [done|reflexivity| |by apply (bool_decide_unpack _)].
  simpl. split_and!; reflexivity.
Qed.
Lemma one_spare_spare : spare one_spare 110 5 [(120, 9); (140, 8)].
Proof.
  split; [exists 77, 78; reflexivity|]. split; [by apply (bool_decide_unpack _)|done].
Qed.

Definition cmp_addr (a b : Z) : Z := cmp_code (a ?= b).


(** [embedded_enqueue_before] links the new node to its neighbours but never
    redirects its predecessor: after inserting [p] before a node that is not the
    first, the call reports success and counts the node, yet a walk from the head
    does not meet it, so that [embedded_queue_contains] answers ENOENT. *)
Theorem embedded_before_loses_node m q l1 a da b db l2 p d :
  queue_own m q (l1 ++ (a, da) :: (b, db) :: l2) -> spare m p d (l1 ++ (a, da) :: (b, db) :: l2) ->
  wp (let! r := embedded_enqueue_before q p b QUEUE_UNIQUE in
      let! c := embedded_queue_contains q p in ret! (r, c)) (fun x m' =>
    x = (0, - ENOENT) /\ exists q', queues m' !! q = Some q' /\
      q_count q' = Z.of_nat (length (l1 ++ (a, da) :: (b, db) :: l2)) + 1) m.
Proof.
  set (l := l1 ++ (a, da) :: (b, db) :: l2). intros Hown Hsp.
  pose proof Hsp as ((x & y & Hp) & Hpl & [Hp0 Hp64]). pose proof Hown as (lk & Hh & H0 & Hq & Hs & Hok).
  assert (b ∈ addrs l) as Hbl by (unfold l; rewrite elem_of_addrs_app, !elem_of_addrs_cons; auto).
  pose proof (dll_ok_addr _ _ Hok Hbl) as [Hb0 _]. assert (p <> b) as Hpb by (by intros ->).
  assert (qnodes m !! b = Some (mkQnode a db (hd_addr l2 0))) as Hb.
  { unfold l in Hs. apply seg_app in Hs as [_ Hs]. simpl in Hs. naive_solver. }
  assert (hd_addr l 0 <> b) as Hhd.
  { unfold l in Hok |- *. apply dll_ok_app in Hok as (_ & Hok & Hd). destruct l1 as [|z l1]; simpl.
    - apply dll_ok_cons in Hok as (_ & Hn & _). simpl in Hn. intros ->. apply Hn, elem_of_addrs_cons. by left.
    - intros <-. apply (Hd z.1); [by apply elem_of_addrs_cons; left|]. rewrite !elem_of_addrs_cons. auto. }
  unfold embedded_enqueue_before. rewrite (queue_own_not_null _ _ _ Hown).
  assert (is_null p = false) as -> by (apply Z.eqb_neq; lia).
  assert (is_null b = false) as -> by (apply Z.eqb_neq; lia). simpl orb. cbn iota.
  apply wp_bind, wp_bind. eapply wp_queue_assert_locked; [done|]. apply wp_bind. unfold wp at 1.
  rewrite (embedded_duplicate_spec _ _ l) by (done || lia). rewrite bool_decide_eq_false_2 by done. simpl andb. cbn iota.
  apply wp_bind. eapply wp_modify; [exact Hp|]. apply wp_bind.
  eapply wp_load; [ksimpl; rewrite lookup_insert_ne by done; exact Hb|].
  apply wp_bind. eapply wp_modify; [ksimpl; apply lookup_insert_eq|]. ksimpl. rewrite insert_insert_eq.
  apply wp_bind. eapply wp_modify; [ksimpl; rewrite lookup_insert_ne by done; exact Hb|]. ksimpl.
  apply wp_bind. eapply wp_load; [ksimpl; exact Hq|]. cbn [KMem.head]. rewrite (proj2 (Z.eqb_neq _ _)) by done.
  apply wp_bind, wp_ret, wp_bind. eapply wp_modify; [ksimpl; exact Hq|]. qnorm. apply wp_ret.
  pose proof (queue_own_fuel _ _ _ Hown) as Hsz. change (k_qnodes m) with (qnodes m) in Hsz.
  set (h := <[b := _]> _). apply wp_bind. unfold wp at 1.
  rewrite (embedded_queue_contains_fseg _ q l p lk (last_addr l 0) (u64 (Z.of_nat (length l) + 1))).
  - rewrite decide_False by done. apply wp_ret. split; [done|]. eexists. split; [ksimpl; apply lookup_insert_eq|]. simpl.
    apply u64_small. unfold is_u64.
    assert (dll_ok ((p, d) :: l)) as Hok' by (by apply dll_ok_cons). apply dll_ok_length in Hok'. simpl in Hok'. lia.
  - done.
  - lia.
  - ksimpl. apply lookup_insert_eq.
  - by ksimpl.
  - ksimpl. eapply fseg_ext; [|eapply seg_fseg, Hs]. intros z a' d' b' Hz Hz'. unfold h.
    destruct (decide (z = b)) as [->|]; [rewrite Hb in Hz'; injection Hz' as <- <- <-; rewrite lookup_insert_eq; eauto|].
    rewrite !lookup_insert_ne by (done || by intros ->). eauto.
  - done.
  - ksimpl. unfold h. rewrite !map_size_insert_Some; [lia|eauto|]. rewrite lookup_insert_ne by done. eauto.
Qed.

Lemma embedded_before_loses_node_witness :
  wp (let! r := embedded_enqueue_before 200 110 140 QUEUE_UNIQUE in
      let! c := embedded_queue_contains 200 110 in ret! (r, c)) (fun x m' =>
    x = (0, - ENOENT) /\ exists q', queues m' !! 200 = Some q' /\ q_count q' = 2 + 1) one_spare.
Proof.
  apply (embedded_before_loses_node one_spare 200 [] 120 9 140 8 [] 110 5 one_spare_own one_spare_spare).
Defined.

(** [embedded_enqueue_sorted] clears the links of the node it is given before it
    looks whether the node is already there: inserting a node twice with
    [QUEUE_UNIQUE] answers EEXIST but cuts the queue after that node, and the nodes
    that followed are no longer found. *)
Theorem embedded_sorted_twice_cuts_queue m q l1 p d x dx l2 order compare :
  queue_own m q (l1 ++ (p, d) :: (x, dx) :: l2) ->
  wp (let! r := embedded_enqueue_sorted q p QUEUE_UNIQUE order compare in
      let! c := embedded_queue_contains q x in ret! (r, c)) (fun y m' => y = (- EEXIST, - ENOENT)) m.
Proof.
  set (l := l1 ++ (p, d) :: (x, dx) :: l2). intros Hown.
  pose proof (queue_own_node_null _ _ _ _ _ _ Hown) as Hpn. pose proof (proj1 (Z.eqb_neq p 0) Hpn) as Hp0.
  pose proof Hown as (lk & Hh & H0 & Hq & Hs & Hok). pose proof (queue_own_fuel _ _ _ Hown) as Hsz.
  change (k_qnodes m) with (qnodes m) in Hsz. destruct (seg_mid _ _ _ _ _ Hs) as (Hs1 & Hp & _).
  assert (l = (l1 ++ [(p, d)]) ++ (x, dx) :: l2) as El by (unfold l; by rewrite <- app_assoc).
  rewrite El in Hok. apply dll_ok_app in Hok as (Hok1 & Hok2 & Hd).
  apply dll_ok_cons in Hok2 as ([Hx0 _] & _ & _). simpl in Hx0.
  assert (x ∉ addrs (l1 ++ [(p, d)])) as Hxn.
  { intros Hin. apply (Hd x Hin), elem_of_addrs_cons. by left. }
  assert (p ∉ addrs l1) as Hpl1.
  { apply dll_ok_app in Hok1 as (_ & _ & Hd1). intros Hin. apply (Hd1 p Hin), elem_of_addrs_cons. by left. }
  unfold embedded_enqueue_sorted. rewrite (queue_own_not_null _ _ _ Hown), Hpn. cbn [orb].
  apply wp_bind, wp_bind. eapply wp_queue_assert_locked; [done|].
  apply wp_bind. eapply wp_modify; [exact Hp|]. apply wp_bind. eapply wp_modify; [ksimpl; apply lookup_insert_eq|].
  ksimpl. rewrite insert_insert_eq. unfold set_prev, set_next; simpl. set (h := <[p := _]> _).
  apply wp_bind. eapply wp_load; [ksimpl; exact Hq|]. cbn [KMem.head].
  assert (hd_addr l 0 = hd_addr (l1 ++ [(p, d)]) 0) as Ehd by (unfold l; by destruct l1).
  assert (forall z, z <> 0 -> embedded_queue_contains q z (h_set h m) =
    Done (if decide (z ∈ addrs (l1 ++ [(p, d)])) then 0 else - ENOENT) (h_set h m)) as Hcont.
  { intros z Hz. apply (embedded_queue_contains_fseg _ q _ z lk (last_addr l 0) (Z.of_nat (length l))).
    - done.
    - done.
    - ksimpl. by rewrite <- Ehd.
    - by ksimpl.
    - ksimpl. apply fseg_app. split.
      + eapply fseg_ext; [|eapply seg_fseg, Hs1]. intros y a' d' b' Hy Hy'. unfold h.
        rewrite lookup_insert_ne by (by intros ->). eauto.
      + simpl. split; [|done]. unfold h. rewrite lookup_insert_eq. eauto.
    - done.
    - ksimpl. unfold h. rewrite map_size_insert_Some by eauto. unfold l in Hsz.
      rewrite !length_app in *. simpl in *. lia. }
  rewrite Ehd. destruct (is_null (hd_addr (l1 ++ [(p, d)]) 0)) eqn:E.
  { apply dll_ok_hd_null in E; [|done]. by destruct l1. }
  apply wp_bind. unfold embedded_duplicate. simpl (QUEUE_UNIQUE =? QUEUE_UNIQUE). cbn iota.
  apply wp_bind. unfold wp at 1. rewrite Hcont by done.
  rewrite decide_True by (rewrite elem_of_addrs_app, elem_of_addrs_cons; auto). apply wp_ret. cbn iota. apply wp_ret.
  apply wp_bind. unfold wp at 1. rewrite Hcont by lia. rewrite decide_False by done. by apply wp_ret.
Qed.

Lemma embedded_sorted_twice_cuts_queue_witness :
  wp (let! r := embedded_enqueue_sorted 100 120 QUEUE_UNIQUE QUEUE_ASCENDING None in
      let! c := embedded_queue_contains 100 130 in ret! (r, c)) (fun y m' => y = (- EEXIST, - ENOENT)) two_queues.
Proof.
  exact (embedded_sorted_twice_cuts_queue two_queues 100 [(110, 5)] 120 6 130 5 [(140, 8)] QUEUE_ASCENDING None
    two_queues_src).
Defined.

(** [embedded_queue_migrate], which the load balancer uses, moves exactly the
    requested run of nodes, in order, to the requested end of the other queue, and
    refuses a range outside the source with EINVAL, changing nothing. *)
Theorem embedded_migrate_moves_run m src dst ls ld pos n whence :
  queue_own m src ls -> queue_own m dst ld -> src <> dst -> dll_ok (ls ++ ld) ->
  is_u64 pos -> is_u64 n -> pos + n < two64 ->
  wp (embedded_queue_migrate dst src pos n whence) (fun r m' =>
    if migrate_ok (Z.of_nat (length ls)) pos n whence then
      r = 0 /\ queue_own m' src (take (Z.to_nat pos) ls ++ drop (Z.to_nat (pos + n)) ls) /\
      queue_own m' dst (spliced whence (take (Z.to_nat n) (drop (Z.to_nat pos) ls)) ld) /\
      move_frame src dst (addrs (ls ++ ld)) m m'
    else r = - EINVAL /\ m' = m) m.
Proof. apply embedded_queue_migrate_spec. Qed.

Lemma embedded_migrate_moves_run_witness :
  wp (embedded_queue_migrate 200 100 0 3 QUEUE_TAIL) (fun r m' =>
    r = 0 /\ queue_own m' 100 [(140, 8)] /\
    queue_own m' 200 [(210, 9); (110, 5); (120, 6); (130, 5)] /\
    move_frame 100 200 (addrs (src_nodes ++ dst_nodes)) two_queues m') two_queues.
Proof.
  apply (embedded_migrate_moves_run two_queues 100 200 src_nodes dst_nodes 0 3 QUEUE_TAIL);
    [apply two_queues_src|apply two_queues_dst|done|by apply (bool_decide_unpack _)|done..].
Defined.
