(* ===== verification/Tree.v ===== *)
(** * Search trees as values

    The abstract side of ds/btree: a tree is a value whose nodes carry the address
    they live at, their key and their data.  [graft], [cut] and [sub] are what
    [btree_insert_node], the unlinking in [btree_delete_node] and a node pointer
    mean for such a value. *)
From stdpp Require Import sorting.
From S2P Require Import Prelude.

Inductive tree :=
  | Leaf
  | Node (p k d : Z) (l r : tree).

#[export] Instance tree_eq_dec : EqDecision tree.
Proof. solve_decision. Defined.

Definition taddr (t : tree) : Z := match t with Leaf => 0 | Node p _ _ _ _ => p end.

Fixpoint taddrs (t : tree) : list Z :=
  match t with Leaf => [] | Node p _ _ l r => taddrs l ++ p :: taddrs r end.
(** The keys with their data, in key order for a search tree. *)
Fixpoint inorder (t : tree) : list (Z * Z) :=
  match t with Leaf => [] | Node _ k d l r => inorder l ++ (k, d) :: inorder r end.
Definition keys (t : tree) : list Z := (inorder t).*1.
Arguments keys : simpl never.

Fixpoint bst (t : tree) : Prop :=
  match t with
  | Leaf => True
  | Node _ k _ l r =>
      bst l /\ bst r /\ (forall x, x ∈ keys l -> x < k) /\ (forall x, x ∈ keys r -> k < x)
  end.

Lemma keys_node p k d l r : keys (Node p k d l r) = keys l ++ k :: keys r.
Proof. unfold keys. simpl. by rewrite fmap_app. Qed.
Lemma keys_leaf : keys Leaf = [].
Proof. done. Qed.
Lemma elem_of_keys_node x p k d l r :
  x ∈ keys (Node p k d l r) <-> x ∈ keys l \/ x = k \/ x ∈ keys r.
Proof. rewrite keys_node, elem_of_app, elem_of_cons. naive_solver. Qed.
Lemma elem_of_taddrs_node x p k d l r :
  x ∈ taddrs (Node p k d l r) <-> x ∈ taddrs l \/ x = p \/ x ∈ taddrs r.
Proof. simpl. rewrite elem_of_app, elem_of_cons. naive_solver. Qed.
Lemma length_inorder t : length (inorder t) = length (taddrs t).
Proof. induction t as [|p k d l IHl r IHr]; simpl; [done|]. rewrite !length_app. simpl. lia. Qed.

(** A search tree lists its keys in strictly increasing order. *)
Lemma bst_sorted t : bst t -> StronglySorted Z.lt (keys t).
Proof.
  induction t as [|p k d l IHl r IHr]; [constructor|]. rewrite keys_node.
  intros (Hl & Hr & Hlt & Hgt). apply StronglySorted_app_2; [|by apply IHl|].
  - intros x y Hx [->|Hy]%elem_of_cons; [by apply Hlt|]. specialize (Hlt _ Hx). specialize (Hgt _ Hy). lia.
  - constructor; [by apply IHr|]. by apply Forall_forall.
Qed.

Lemma bst_keys_nodup t : bst t -> NoDup (keys t).
Proof.
  intros Hs%bst_sorted. induction Hs as [|x l Hs IH Hf]; constructor; [|done].
  rewrite Forall_forall in Hf. intros Hx%Hf. lia.
Qed.

(** ** The map a tree stands for *)
Definition tree_map (t : tree) : gmap Z Z := list_to_map (inorder t).

Lemma tree_map_lookup t k d :
  bst t -> tree_map t !! k = Some d <-> (k, d) ∈ inorder t.
Proof. intros Hb. symmetry. apply elem_of_list_to_map, bst_keys_nodup, Hb. Qed.

Lemma tree_map_none t k : tree_map t !! k = None <-> k ∉ keys t.
Proof. symmetry. apply not_elem_of_list_to_map. Qed.

Fixpoint tfind (k : Z) (t : tree) : tree :=
  match t with
  | Leaf => Leaf
  | Node _ k' _ l r => if k' =? k then t else if k <? k' then tfind k l else tfind k r
  end.

Lemma tfind_spec k t :
  bst t ->
  match tfind k t with
  | Leaf => tree_map t !! k = None
  | Node p k' d _ _ => k' = k /\ p ∈ taddrs t /\ tree_map t !! k = Some d
  end.
Proof.
  intros Hb.
  assert (match tfind k t with
          | Leaf => k ∉ keys t
          | Node p k' d _ _ => k' = k /\ p ∈ taddrs t /\ (k, d) ∈ inorder t
          end) as H.
  { induction t as [|p k' d l IHl r IHr]; simpl; [apply not_elem_of_nil|].
    destruct Hb as (Hl & Hr & Hlt & Hgt). specialize (IHl Hl). specialize (IHr Hr).
    destruct (Z.eqb_spec k' k) as [->|Hne].
    { split; [done|]. rewrite !elem_of_app, !elem_of_cons. auto. }
    destruct (Z.ltb_spec k k').
    - destruct (tfind k l); [|rewrite !elem_of_app; naive_solver].
      rewrite elem_of_keys_node. intros [?|[?|Hx]]; [done|lia|]. specialize (Hgt _ Hx). lia.
    - destruct (tfind k r); [|rewrite !elem_of_app, !elem_of_cons; naive_solver].
      rewrite elem_of_keys_node. intros [Hx|[?|?]]; [|lia|done]. specialize (Hlt _ Hx). lia. }
  destruct (tfind k t); [by apply tree_map_none|]. by rewrite tree_map_lookup.
Qed.

(** ** Hanging a tree below another *)
Definition tkey (s : tree) : Z := match s with Leaf => 0 | Node _ k _ _ _ => k end.

Fixpoint graft (s t : tree) : tree :=
  match t with
  | Leaf => s
  | Node p k d l r =>
      if tkey s <? k then Node p k d (graft s l) r else Node p k d l (graft s r)
  end.

(** [s] fits in [t]: every key of [t] has all the keys of [s] on one side. *)
Definition fits (s t : tree) : Prop :=
  forall x, x ∈ keys t -> (forall y, y ∈ keys s -> y < x) \/ (forall y, y ∈ keys s -> x < y).

Lemma graft_addrs s t : Permutation (taddrs (graft s t)) (taddrs s ++ taddrs t).
Proof.
  induction t as [|p k d l IHl r IHr]; simpl; [by rewrite app_nil_r|].
  destruct (tkey s <? k); simpl; [rewrite IHl|rewrite IHr]; solve_Permutation.
Qed.

Lemma graft_inorder s t : Permutation (inorder (graft s t)) (inorder s ++ inorder t).
Proof.
  induction t as [|p k d l IHl r IHr]; simpl; [by rewrite app_nil_r|].
  destruct (tkey s <? k); simpl; [rewrite IHl|rewrite IHr]; solve_Permutation.
Qed.

Lemma graft_keys s t x : x ∈ keys (graft s t) <-> x ∈ keys s \/ x ∈ keys t.
Proof. unfold keys. by rewrite graft_inorder, fmap_app, elem_of_app. Qed.

Lemma fits_side s t x :
  s <> Leaf -> fits s t -> x ∈ keys t ->
  if tkey s <? x then forall y, y ∈ keys s -> y < x else forall y, y ∈ keys s -> x < y.
Proof.
  intros Hs Hf Hx. assert (tkey s ∈ keys s) as Hk.
  { destruct s; [done|]. apply elem_of_keys_node. auto. }
  destruct (Hf x Hx) as [H|H]; specialize (H _ Hk) as Hk'; destruct (Z.ltb_spec (tkey s) x); done || lia.
Qed.

Lemma graft_bst s t : bst s -> bst t -> s <> Leaf -> fits s t -> bst (graft s t).
Proof.
  intros Hs Ht Hne Hf. induction t as [|p k d l IHl r IHr]; simpl; [done|].
  destruct Ht as (Hl & Hr & Hlt & Hgt).
  assert (fits s l /\ fits s r) as [Hfl Hfr].
  { split; intros x Hx; apply Hf, elem_of_keys_node; auto. }
  pose proof (fits_side s _ k Hne Hf) as Hside. rewrite elem_of_keys_node in Hside.
  destruct (tkey s <? k); simpl; split_and!; try naive_solver;
    intros x; rewrite graft_keys; naive_solver.
Qed.

(** ** The subtree at a node, and the tree without it *)
Fixpoint sub (a : Z) (t : tree) : tree :=
  match t with
  | Leaf => Leaf
  | Node p _ _ l r =>
      if p =? a then t else match sub a l with Leaf => sub a r | s => s end
  end.
Fixpoint cut (a : Z) (t : tree) : tree :=
  match t with
  | Leaf => Leaf
  | Node p k d l r => if p =? a then Leaf else Node p k d (cut a l) (cut a r)
  end.

Lemma sub_leaf a t : sub a t = Leaf <-> a ∉ taddrs t.
Proof.
  induction t as [|p k d l IHl r IHr]; simpl; [split; [intros _; apply not_elem_of_nil|done]|].
  rewrite elem_of_app, elem_of_cons. destruct (Z.eqb_spec p a) as [->|]; [naive_solver|].
  destruct (sub a l); naive_solver.
Qed.

Lemma sub_addr a t : sub a t <> Leaf -> taddr (sub a t) = a.
Proof.
  induction t as [|p k d l IHl r IHr]; simpl; [done|].
  destruct (Z.eqb_spec p a); [done|]. destruct (sub a l) eqn:E; [done|]. intros _. by apply IHl.
Qed.

Lemma cut_absent a t : a ∉ taddrs t -> cut a t = t.
Proof.
  induction t as [|p k d l IHl r IHr]; simpl; [done|].
  rewrite elem_of_app, elem_of_cons. intros Hn. destruct (Z.eqb_spec p a); [naive_solver|].
  rewrite IHl, IHr; naive_solver.
Qed.

(** A node occurs once, so exactly one side changes. *)
Lemma NoDup_taddrs_node p k d l r :
  NoDup (taddrs (Node p k d l r)) <->
  NoDup (taddrs l) /\ NoDup (taddrs r) /\ p ∉ taddrs l /\ p ∉ taddrs r /\
  (forall x, x ∈ taddrs l -> x ∉ taddrs r).
Proof. simpl. rewrite NoDup_app, NoDup_cons. setoid_rewrite elem_of_cons. naive_solver. Qed.

Lemma sub_node a p k d l r :
  NoDup (taddrs (Node p k d l r)) -> a ∈ taddrs (Node p k d l r) -> p <> a ->
  (a ∈ taddrs l /\ a ∉ taddrs r /\ sub a (Node p k d l r) = sub a l /\
     cut a (Node p k d l r) = Node p k d (cut a l) r) \/
  (a ∈ taddrs r /\ a ∉ taddrs l /\ sub a (Node p k d l r) = sub a r /\
     cut a (Node p k d l r) = Node p k d l (cut a r)).
Proof.
  intros (_ & _ & _ & _ & Hd)%NoDup_taddrs_node Ha Hne.
  rewrite elem_of_taddrs_node in Ha. simpl. destruct (Z.eqb_spec p a) as [|_]; [done|].
  destruct Ha as [Ha|[?|Ha]]; [left|done|right].
  - split_and!; [done|naive_solver| |].
    + destruct (sub a l) eqn:E; [|done]. by apply sub_leaf in E.
    + rewrite (cut_absent a r); naive_solver.
  - assert (a ∉ taddrs l) as Hal by (intros ?; naive_solver). split_and!; [done..| |].
    + by apply sub_leaf in Hal as ->.
    + by rewrite (cut_absent a l).
Qed.

Lemma cut_addrs a t :
  NoDup (taddrs t) -> Permutation (taddrs t) (taddrs (sub a t) ++ taddrs (cut a t)).
Proof.
  destruct (decide (a ∈ taddrs t)) as [Ha|Ha]; cycle 1.
  { intros _. rewrite cut_absent by done. by apply sub_leaf in Ha as ->. }
  induction t as [|p k d l IHl r IHr]; [done|]. intros Hnd.
  destruct (decide (p = a)) as [->|Hne]; [simpl; rewrite Z.eqb_refl; by rewrite app_nil_r|].
  pose proof Hnd as (Hl & Hr & _)%NoDup_taddrs_node.
  destruct (sub_node _ _ _ _ _ _ Hnd Ha Hne) as [(Hal & _ & -> & ->)|(Har & _ & -> & ->)]; simpl.
  - rewrite (IHl Hal Hl) at 1. solve_Permutation.
  - rewrite (IHr Har Hr) at 1. solve_Permutation.
Qed.

Lemma cut_inorder a t :
  NoDup (taddrs t) -> Permutation (inorder t) (inorder (sub a t) ++ inorder (cut a t)).
Proof.
  destruct (decide (a ∈ taddrs t)) as [Ha|Ha]; cycle 1.
  { intros _. rewrite cut_absent by done. by apply sub_leaf in Ha as ->. }
  induction t as [|p k d l IHl r IHr]; [done|]. intros Hnd.
  destruct (decide (p = a)) as [->|Hne]; [simpl; rewrite Z.eqb_refl; by rewrite app_nil_r|].
  pose proof Hnd as (Hl & Hr & _)%NoDup_taddrs_node.
  destruct (sub_node _ _ _ _ _ _ Hnd Ha Hne) as [(Hal & _ & -> & ->)|(Har & _ & -> & ->)]; simpl.
  - rewrite (IHl Hal Hl) at 1. solve_Permutation.
  - rewrite (IHr Har Hr) at 1. solve_Permutation.
Qed.

Lemma cut_keys a t x : x ∈ keys (cut a t) -> x ∈ keys t.
Proof.
  induction t as [|p k d l IHl r IHr]; simpl; [done|]. destruct (p =? a).
  - by intros ?%not_elem_of_nil.
  - rewrite !elem_of_keys_node. naive_solver.
Qed.
Lemma sub_keys a t x : x ∈ keys (sub a t) -> x ∈ keys t.
Proof.
  induction t as [|p k d l IHl r IHr]; simpl; [done|]. destruct (p =? a); [done|].
  rewrite elem_of_keys_node. destruct (sub a l); naive_solver.
Qed.

Lemma cut_bst a t : bst t -> bst (cut a t).
Proof.
  induction t as [|p k d l IHl r IHr]; simpl; [done|]. destruct (p =? a); [done|].
  intros (? & ? & Hlt & Hgt). simpl. split_and!; auto; intros x Hx%cut_keys; auto.
Qed.
Lemma sub_bst a t : bst t -> bst (sub a t).
Proof.
  induction t as [|p k d l IHl r IHr]; simpl; [done|]. destruct (p =? a); [done|].
  intros (Hl & Hr & _). destruct (sub a l); auto.
Qed.

(** What is cut out of a search tree fits back. *)
Lemma sub_fits a t : bst t -> NoDup (taddrs t) -> a ∈ taddrs t -> fits (sub a t) (cut a t).
Proof.
  induction t as [|p k d l IHl r IHr]; [by intros _ _ ?%not_elem_of_nil|].
  intros (Hl & Hr & Hlt & Hgt) Hnd Ha. pose proof Hnd as (Hnl & Hnr & _)%NoDup_taddrs_node.
  destruct (decide (p = a)) as [->|Hne].
  { simpl. rewrite Z.eqb_refl. intros x Hx. by apply not_elem_of_nil in Hx. }
  destruct (sub_node _ _ _ _ _ _ Hnd Ha Hne) as [(Hal & _ & -> & ->)|(Har & _ & -> & ->)];
    intros x; rewrite elem_of_keys_node; intros [Hx|[->|Hx]].
  - by apply (IHl Hl Hnl Hal).
  - left. intros y Hy%sub_keys. auto.
  - left. intros y Hy%sub_keys. apply Hlt in Hy. apply Hgt in Hx. lia.
  - right. intros y Hy%sub_keys. apply Hgt in Hy. apply Hlt in Hx. lia.
  - right. intros y Hy%sub_keys. auto.
  - by apply (IHr Hr Hnr Har).
Qed.

Lemma fits_mono s s' t : (forall x, x ∈ keys s' -> x ∈ keys s) -> fits s t -> fits s' t.
Proof. intros Hsub Hf x Hx. destruct (Hf x Hx); [left|right]; auto. Qed.
Lemma fits_graft s s' t : fits s t -> fits s s' -> fits s (graft s' t).
Proof. intros Hf Hf' x [Hx|Hx]%graft_keys; auto. Qed.

Lemma graft_leaf t : graft Leaf t = t.
Proof. induction t as [|p k d l IHl r IHr]; simpl; [done|]. destruct (0 <? k); congruence. Qed.

Lemma graft_back s t :
  s <> Leaf -> taddr s ∉ taddrs t -> cut (taddr s) (graft s t) = t /\ sub (taddr s) (graft s t) = s.
Proof.
  intros Hs. induction t as [|p k d l IHl r IHr].
  - intros _. simpl. destruct s; [done|]. simpl. by rewrite Z.eqb_refl.
  - rewrite elem_of_taddrs_node. intros Hn. simpl.
    destruct IHl as [Hcl Hsl]; [naive_solver|]. destruct IHr as [Hcr Hsr]; [naive_solver|].
    destruct (tkey s <? k); simpl; destruct (Z.eqb_spec p (taddr s)); try naive_solver.
    + rewrite Hcl, Hsl, cut_absent by naive_solver. by destruct s.
    + rewrite Hcr, Hsr, cut_absent by naive_solver.
      assert (sub (taddr s) l = Leaf) as -> by (apply sub_leaf; naive_solver). done.
Qed.

Lemma sub_addrs a t x : x ∈ taddrs (sub a t) -> x ∈ taddrs t.
Proof.
  induction t as [|p k d l IHl r IHr]; simpl; [done|]. destruct (p =? a); [done|].
  rewrite elem_of_app, elem_of_cons. destruct (sub a l); naive_solver.
Qed.
Lemma cut_addrs_sub a t x : x ∈ taddrs (cut a t) -> x ∈ taddrs t.
Proof.
  induction t as [|p k d l IHl r IHr]; simpl; [done|]. destruct (p =? a).
  - by intros ?%not_elem_of_nil.
  - simpl. rewrite !elem_of_app, !elem_of_cons. naive_solver.
Qed.

(** Cutting inside a subtree. *)
Lemma cut_inside a b t :
  NoDup (taddrs t) -> b ∈ taddrs (sub a t) ->
  cut a (cut b t) = cut a t /\ (b <> a -> sub a (cut b t) = cut b (sub a t)).
Proof.
  induction t as [|p k d l IHl r IHr]; [by intros _ ?%not_elem_of_nil|]. intros Hnd Hb.
  pose proof Hnd as (Hl & Hr & Hpl & Hpr & Hd)%NoDup_taddrs_node.
  assert (sub a (Node p k d l r) <> Leaf) as Hne by (intros H; rewrite H in Hb; by apply not_elem_of_nil in Hb).
  assert (a ∈ taddrs (Node p k d l r)) as Ha.
  { destruct (decide (a ∈ taddrs (Node p k d l r))) as [|Hn]; [done|]. by apply sub_leaf in Hn. }
  destruct (decide (p = a)) as [->|Hpa].
  { simpl in Hb |- *. rewrite Z.eqb_refl in Hb |- *. destruct (Z.eqb_spec a b) as [->|]; simpl.
    - split; [done|]. intros ?; congruence.
    - rewrite !Z.eqb_refl. split; [done|]. by destruct (Z.eqb_spec a b). }
  destruct (sub_node _ _ _ _ _ _ Hnd Ha Hpa) as [(Hal & Har & Hs & Hc)|(Har & Hal & Hs & Hc)];
    rewrite Hs in Hb |- *; rewrite Hc; pose proof (sub_addrs _ _ _ Hb) as Hbs.
  - destruct (IHl Hl Hb) as [IHc IHs]. simpl. destruct (Z.eqb_spec p b) as [->|]; [done|]. simpl.
    destruct (Z.eqb_spec p a); [done|]. rewrite (cut_absent b r) by auto. rewrite (cut_absent a r), IHc by done.
    split; [done|]. intros Hba. specialize (IHs Hba). rewrite IHs.
    apply sub_leaf in Har as ->. by destruct (cut b (sub a l)).
  - destruct (IHr Hr Hb) as [IHc IHs]. simpl. destruct (Z.eqb_spec p b) as [->|]; [done|]. simpl.
    destruct (Z.eqb_spec p a); [done|]. rewrite (cut_absent b l) by (intros ?; naive_solver).
    rewrite (cut_absent a l), IHc by done. split; [done|]. intros Hba. specialize (IHs Hba).
    by apply sub_leaf in Hal as ->.
Qed.

(** ** Deleting a node: its two subtrees are hung back, the right one first *)
Definition tdel (a : Z) (t : tree) : tree :=
  match sub a t with
  | Leaf => t
  | Node _ _ _ l r => graft l (graft r (cut a t))
  end.

Section Tdel.
Context (a : Z) (t : tree) (p k d : Z) (l r : tree).
Hypothesis Hbst : bst t.
Hypothesis Hnd : NoDup (taddrs t).
Hypothesis Hsub : sub a t = Node p k d l r.

Lemma tdel_in : a ∈ taddrs t.
Proof. destruct (decide (a ∈ taddrs t)) as [|Hn]; [done|]. apply sub_leaf in Hn. congruence. Qed.

Lemma tdel_sub_addr : p = a.
Proof. pose proof (sub_addr a t) as H. rewrite Hsub in H. by apply H. Qed.

Lemma tdel_sub_bst : bst l /\ bst r.
Proof. pose proof (sub_bst a t Hbst) as H. rewrite Hsub in H. simpl in H. naive_solver. Qed.

Lemma tdel_fits_r : fits r (cut a t).
Proof.
  eapply fits_mono; [|apply (sub_fits a t Hbst Hnd), tdel_in]. intros x Hx. rewrite Hsub.
  apply elem_of_keys_node. auto.
Qed.

Lemma tdel_fits_l : fits l (graft r (cut a t)).
Proof.
  apply fits_graft.
  - eapply fits_mono; [|apply (sub_fits a t Hbst Hnd), tdel_in]. intros x Hx. rewrite Hsub.
    apply elem_of_keys_node. auto.
  - pose proof (sub_bst a t Hbst) as H. rewrite Hsub in H. destruct H as (_ & _ & Hlt & Hgt).
    intros x Hx. left. intros y Hy. apply Hlt in Hy. apply Hgt in Hx. lia.
Qed.

Lemma graft_bst_any s u : bst s -> bst u -> fits s u -> bst (graft s u).
Proof. destruct s; [by rewrite graft_leaf|]. intros. by apply graft_bst. Qed.

Lemma tdel_bst : bst (tdel a t).
Proof.
  unfold tdel. rewrite Hsub. destruct tdel_sub_bst. apply graft_bst_any; [done| |apply tdel_fits_l].
  apply graft_bst_any; [done|by apply cut_bst|apply tdel_fits_r].
Qed.

Lemma tdel_inorder : Permutation (inorder t) ((k, d) :: inorder (tdel a t)).
Proof.
  unfold tdel. rewrite (cut_inorder a t Hnd), Hsub. simpl. rewrite !graft_inorder. solve_Permutation.
Qed.

Lemma tdel_addrs : Permutation (taddrs t) (a :: taddrs (tdel a t)).
Proof.
  unfold tdel. rewrite (cut_addrs a t Hnd), Hsub. simpl. rewrite tdel_sub_addr, !graft_addrs.
  solve_Permutation.
Qed.

Lemma tdel_map : tree_map (tdel a t) = delete k (tree_map t).
Proof.
  assert (tree_map t = <[k := d]> (tree_map (tdel a t))) as ->.
  { unfold tree_map. rewrite (list_to_map_proper (inorder t) ((k, d) :: inorder (tdel a t))); [done| |].
    - by apply bst_keys_nodup.
    - apply tdel_inorder. }
  rewrite delete_insert_id; [done|]. apply tree_map_none. intros Hin.
  pose proof (bst_keys_nodup t Hbst) as Hn. unfold keys in Hn, Hin. rewrite tdel_inorder in Hn.
  simpl in Hn. by apply NoDup_cons in Hn as [? _].
Qed.
End Tdel.

(** Inserting a fresh key. *)
Lemma graft_new_map t p k d :
  bst t -> k ∉ keys t -> tree_map (graft (Node p k d Leaf Leaf) t) = <[k := d]> (tree_map t).
Proof.
  intros Hb Hk. unfold tree_map.
  rewrite (list_to_map_proper (inorder (graft _ t)) ((k, d) :: inorder t)); [done| |apply graft_inorder].
  rewrite graft_inorder. simpl. apply NoDup_cons. split; [done|by apply bst_keys_nodup].
Qed.

Lemma fits_new t p k d : k ∉ keys t -> fits (Node p k d Leaf Leaf) t.
Proof.
  intros Hk x Hx. assert (k <> x) by (intros ->; done).
  assert (forall y, y ∈ keys (Node p k d Leaf Leaf) -> y = k) as Hy.
  { intros y [?%not_elem_of_nil|[?|?%not_elem_of_nil]]%elem_of_keys_node; done. }
  destruct (decide (k < x)); [left|right]; intros y ->%Hy; lia.
Qed.

Lemma bst_single p k d : bst (Node p k d Leaf Leaf).
Proof. simpl. split_and!; try done; by intros x ?%not_elem_of_nil. Qed.

(** ** Extremes *)
Fixpoint tleast (t : tree) (a : Z) : Z :=
  match t with Leaf => a | Node p _ _ l _ => tleast l p end.
Fixpoint tlargest (t : tree) (a : Z) : Z :=
  match t with Leaf => a | Node p _ _ _ r => tlargest r p end.

(** ** Subtrees of subtrees *)
Lemma taddr_in t : t <> Leaf -> taddr t ∈ taddrs t.
Proof. destruct t; [done|]. intros _. apply elem_of_taddrs_node. auto. Qed.
Lemma cut_root t : cut (taddr t) t = Leaf.
Proof. destruct t; simpl; [done|]. by rewrite Z.eqb_refl. Qed.
Lemma sub_in_sub a t : sub a t <> Leaf -> a ∈ taddrs t.
Proof.
  intros Hs. destruct (decide (a ∈ taddrs t)) as [|Hn]; [done|]. by apply sub_leaf in Hn.
Qed.

Lemma sub_sub a b t : NoDup (taddrs t) -> b ∈ taddrs (sub a t) -> sub b t = sub b (sub a t).
Proof.
  induction t as [|p k d l IHl r IHr]; [done|]. intros Hnd Hb.
  destruct (decide (p = a)) as [->|Hpa]; [simpl in Hb |- *; rewrite Z.eqb_refl in Hb |- *; done|].
  pose proof Hnd as (Hl & Hr & Hpl & Hpr & Hd)%NoDup_taddrs_node.
  assert (a ∈ taddrs (Node p k d l r)) as Ha.
  { apply sub_in_sub. intros E. rewrite E in Hb. by apply not_elem_of_nil in Hb. }
  destruct (sub_node _ _ _ _ _ _ Hnd Ha Hpa) as [(_ & _ & Hs & _)|(_ & _ & Hs & _)];
    rewrite Hs in Hb |- *; pose proof (sub_addrs _ _ _ Hb) as Hbs; simpl;
    (destruct (Z.eqb_spec p b) as [->|]; [done|]).
  - rewrite <- IHl by done. destruct (sub b l) eqn:E; [|done]. by apply sub_leaf in E.
  - rewrite <- IHr by done. assert (sub b l = Leaf) as -> by (apply sub_leaf; intros ?; by apply (Hd b)). done.
Qed.

(** The children of a node of the tree. *)
Lemma sub_child a t k d l r :
  NoDup (taddrs t) -> sub a t = Node a k d l r ->
  (l <> Leaf -> sub (taddr l) t = l) /\ (r <> Leaf -> sub (taddr r) t = r).
Proof.
  intros Hnd Hs. assert (NoDup (taddrs (sub a t))) as Hns.
  { rewrite cut_addrs in Hnd by done. by apply NoDup_app in Hnd as (? & _). }
  rewrite Hs in Hns. pose proof Hns as (_ & _ & Hal & Har & Hd)%NoDup_taddrs_node.
  split; intros Hne; pose proof (taddr_in _ Hne) as Hin;
    rewrite (sub_sub a) by (first [done | rewrite Hs; apply elem_of_taddrs_node; by auto]); rewrite Hs; simpl.
  - destruct l as [|p' k' d' l' r']; [done|]. simpl.
    destruct (Z.eqb_spec a p') as [->|]; [|by rewrite Z.eqb_refl].
    exfalso. apply Hal, elem_of_taddrs_node. auto.
  - destruct r as [|p' k' d' l' r']; [done|]. cbn [taddr].
    assert (p' ∈ taddrs (Node p' k' d' l' r')) as Hp' by (apply elem_of_taddrs_node; auto).
    destruct (Z.eqb_spec a p') as [->|]; [done|].
    assert (sub p' l = Leaf) as -> by (apply sub_leaf; intros ?; by apply (Hd p')).
    simpl. by rewrite Z.eqb_refl.
Qed.

(** Cutting the left subtree of a node away. *)
Lemma sub_cut_left a t k d l r :
  NoDup (taddrs t) -> 0 ∉ taddrs t -> sub a t = Node a k d l r ->
  sub a (cut (taddr l) t) = Node a k d Leaf r /\ cut a (cut (taddr l) t) = cut a t.
Proof.
  intros Hnd H0 Hs. assert (NoDup (taddrs (sub a t))) as Hns.
  { rewrite cut_addrs in Hnd by done. by apply NoDup_app in Hnd as (? & _). }
  rewrite Hs in Hns. pose proof Hns as (_ & _ & Hal & Har & Hd)%NoDup_taddrs_node.
  destruct (decide (l = Leaf)) as [->|Hl]; [simpl; by rewrite cut_absent|].
  pose proof (taddr_in l Hl) as Hin.
  destruct (cut_inside a (taddr l) t Hnd) as [Hc Hsub].
  { rewrite Hs. apply elem_of_taddrs_node. auto. }
  split; [|done]. rewrite Hsub, Hs by (intros E; by rewrite E in Hin). simpl.
  destruct (Z.eqb_spec a (taddr l)) as [E|_]; [by rewrite <- E in Hin|].
  rewrite cut_root, cut_absent; [done|]. by apply Hd.
Qed.
