(* ===== verification/BTree.v ===== *)
(** * Binary search trees (ds/btree/btree.c, ds/btree.h)

    The kernel's unbalanced binary search tree, over the node and tree objects of
    [kmem].  Keys are [uintptr_t], data are pointers.  [traversal_queue], a member
    of btree_t that no function reads or writes apart from clearing it, is left
    out.  A loop or a recursion along the links of a tree runs with [bt_fuel],
    more than the number of live nodes. *)
From S2P Require Import Prelude Errno Spinlock KMem Queue.

Definition set_key (x : Z) (n : btree_node_t) :=
  mkBtnode x (bt_data n) (bt_left n) (bt_parent n) (bt_right n) (bt_btree n).
Definition set_bt_data (x : Z) (n : btree_node_t) :=
  mkBtnode (bt_key n) x (bt_left n) (bt_parent n) (bt_right n) (bt_btree n).
Definition set_left (x : Z) (n : btree_node_t) :=
  mkBtnode (bt_key n) (bt_data n) x (bt_parent n) (bt_right n) (bt_btree n).
Definition set_parent (x : Z) (n : btree_node_t) :=
  mkBtnode (bt_key n) (bt_data n) (bt_left n) x (bt_right n) (bt_btree n).
Definition set_right (x : Z) (n : btree_node_t) :=
  mkBtnode (bt_key n) (bt_data n) (bt_left n) (bt_parent n) x (bt_btree n).
Definition set_btree (x : Z) (n : btree_node_t) :=
  mkBtnode (bt_key n) (bt_data n) (bt_left n) (bt_parent n) (bt_right n) x.
Definition set_root (x : Z) (b : btree_t) := mkBtree (nr_nodes b) x (bt_lock b).
Definition add_nodes (k : Z) (b : btree_t) := mkBtree (u64 (nr_nodes b + k)) (root b) (bt_lock b).

Definition BTREE_ZERO : btree_t := mkBtree 0 0 SPINLOCK_INIT.
Definition BTNODE_ZERO : btree_node_t := mkBtnode 0 0 0 0 0 0.

Definition bt_fuel : K nat := fun m => Done (S (size (k_btnodes m))) m.

Definition btree_assert_locked (btree : Z) : K unit := obj_assert_locked (T:=btree_t) btree.
Definition btree_lock (btree : Z) : K unit := obj_lock (T:=btree_t) btree.
Definition btree_unlock (btree : Z) : K unit := obj_unlock (T:=btree_t) btree.

Definition btree_nr_nodes (btree : Z) : K Z :=
  do! btree_assert_locked btree in
  let! b := load (T:=btree_t) btree in ret! (nr_nodes b).
Definition btree_isempty (btree : Z) : K bool :=
  do! btree_assert_locked btree in
  let! b := load (T:=btree_t) btree in ret! (is_null (root b)).

Definition btree_node_isleft (node : Z) : K bool :=
  let! n := load node in
  if is_null (bt_parent n) then ret! false else
  let! p := load (bt_parent n) in ret! (bt_left p =? node).
Definition btree_node_isright (node : Z) : K bool :=
  let! n := load node in
  if is_null (bt_parent n) then ret! false else
  let! p := load (bt_parent n) in ret! (bt_right p =? node).

Definition btree_init (btree : Z) : K Z :=
  if is_null btree then ret! (- EINVAL) else
  do! modify (T:=btree_t) btree (with_lock SPINLOCK_INIT) in
  do! modify btree (set_root 0) in
  do! modify btree (fun b => mkBtree 0 (root b) (bt_lock b)) in
  ret! 0.

Definition btree_free (btree : Z) : K unit :=
  if is_null btree then ret! tt else
  do! store btree BTREE_ZERO in
  kfree (T:=btree_t) btree.

Definition btree_free_node (node : Z) : K unit :=
  if is_null node then ret! tt else
  do! store node BTNODE_ZERO in
  kfree (T:=btree_node_t) node.

(** The walk of [btree_insert_node] from [parent] down to a free link. *)
Fixpoint btree_insert_loop (fuel : nat) (node parent : Z) : K Z :=
  match fuel with
  | O => M_diverge
  | S fuel =>
      if is_null parent then ret! 0 else
      let! n := load node in
      let! p := load parent in
      if bt_key p =? bt_key n then ret! (- EEXIST) else
      let iter := if bt_key n <? bt_key p then bt_left p else bt_right p in
      do! M_when (is_null iter)
        (do! modify node (set_parent parent) in
         if bt_key n <? bt_key p then modify parent (set_left node)
         else modify parent (set_right node)) in
      btree_insert_loop fuel node iter
  end.

Definition btree_insert_node (btree node : Z) : K Z :=
  if is_null btree || is_null node then ret! (- EINVAL) else
  do! btree_assert_locked btree in
  do! modify node (set_parent 0) in
  let! empty := btree_isempty btree in
  let! err := (if empty then do! modify btree (set_root node) in ret! 0
               else let! b := load btree in
                    let! fuel := bt_fuel in
                    btree_insert_loop fuel node (root b)) in
  if negb (err =? 0) then ret! err else
  do! modify btree (add_nodes 1) in
  do! modify node (set_btree btree) in
  ret! 0.

(** [if (child) \{ btree->nr_nodes--; btree_insert_node(btree, child); \}] *)
Definition btree_reinsert (btree child : Z) : K unit :=
  M_when (negb (is_null child))
    (do! modify btree (add_nodes (-1)) in
     let! _ := btree_insert_node btree child in ret! tt).

(** Clearing the link that leads to [node], whose content is [n]. *)
Definition btree_unlink (btree node : Z) (n : btree_node_t) (b : btree_t) : K unit :=
  if node =? root b then modify btree (set_root 0) else
  let! isr := btree_node_isright node in
  if isr then modify (bt_parent n) (set_right 0) else
  let! isl := btree_node_isleft node in
  if isl then modify (bt_parent n) (set_left 0) else ret! tt.

Definition btree_delete_node (btree node : Z) : K unit :=
  if is_null btree then ret! tt else
  do! btree_assert_locked btree in
  if is_null node then ret! tt else
  let! n := load node in
  let! b := load btree in
  do! btree_unlink btree node n b in
  do! btree_free_node node in
  do! modify btree (add_nodes (-1)) in
  do! btree_reinsert btree (bt_right n) in
  btree_reinsert btree (bt_left n).

(** [forlinked(tmp, root, tmp->left) node = tmp], and along [right]. *)
Fixpoint btree_descend (fuel : nat) (next : btree_node_t -> Z) (tmp node : Z) : K Z :=
  match fuel with
  | O => M_diverge
  | S fuel =>
      if is_null tmp then ret! node else
      let! n := load tmp in btree_descend fuel next (next n) tmp
  end.

Definition btree_least_node (btree : Z) : K Z :=
  if is_null btree then ret! 0 else
  do! btree_assert_locked btree in
  let! b := load btree in
  let! fuel := bt_fuel in
  btree_descend fuel bt_left (root b) 0.

Definition btree_largest_node (btree : Z) : K Z :=
  if is_null btree then ret! 0 else
  do! btree_assert_locked btree in
  let! b := load btree in
  let! fuel := bt_fuel in
  btree_descend fuel bt_right (root b) 0.

Fixpoint btree_lookup_loop (fuel : nat) (node key : Z) : K Z :=
  match fuel with
  | O => M_diverge
  | S fuel =>
      if is_null node then ret! 0 else
      let! n := load node in
      if bt_key n =? key then ret! node
      else if key <? bt_key n then btree_lookup_loop fuel (bt_left n) key
      else btree_lookup_loop fuel (bt_right n) key
  end.

Definition btree_lookup (btree key : Z) : K Z :=
  if is_null btree then ret! 0 else
  do! btree_assert_locked btree in
  let! b := load btree in
  let! fuel := bt_fuel in
  btree_lookup_loop fuel (root b) key.

Definition btree_delete (btree key : Z) : K unit :=
  do! btree_assert_locked btree in
  let! node := btree_lookup btree key in
  btree_delete_node btree node.

(** [pdata]: whether the caller asks for the data. *)
Definition btree_search (btree key : Z) (pdata : bool) : K (Z * option Z) :=
  do! btree_assert_locked btree in
  let! node := btree_lookup btree key in
  if is_null node then ret! (- ENOENT, None) else
  if pdata then let! n := load node in ret! (0, Some (bt_data n))
  else ret! (0, None).

Definition btree_least (btree : Z) : K Z :=
  if is_null btree then ret! 0 else
  let! node := btree_least_node btree in
  if is_null node then ret! 0 else
  let! n := load node in ret! (bt_data n).

Definition btree_largest (btree : Z) : K Z :=
  if is_null btree then ret! 0 else
  let! node := btree_largest_node btree in
  if is_null node then ret! 0 else
  let! n := load node in ret! (bt_data n).

Section Alloc.
Context {KA : KAlloc}.

Definition btree_alloc (pbtree : bool) : K (Z * option Z) :=
  if negb pbtree then ret! (- EINVAL, None) else
  let! btree := kalloc BTREE_ZERO in
  if is_null btree then ret! (- ENOMEM, None) else
  do! modify (T:=btree_t) btree (with_lock SPINLOCK_INIT) in
  ret! (0, Some btree).

Definition btree_alloc_node : K Z := kalloc BTNODE_ZERO.

Definition btree_insert (btree key data : Z) : K Z :=
  if is_null btree then ret! (- EINVAL) else
  do! btree_assert_locked btree in
  let! node := btree_alloc_node in
  if is_null node then ret! (- ENOMEM) else
  do! modify node (set_key key) in
  do! modify node (set_bt_data data) in
  let! err := btree_insert_node btree node in
  if negb (err =? 0) then do! btree_free_node node in ret! err
  else ret! 0.

(** The results of the two recursive calls are dropped. *)
Fixpoint btree_node_traverse (fuel : nat) (node queue : Z) : K Z :=
  match fuel with
  | O => M_diverge
  | S fuel =>
      do! queue_assert_locked queue in
      if is_null queue then ret! (- EINVAL) else
      if is_null node then ret! 0 else
      let! n := load node in
      do! btree_assert_locked (bt_btree n) in
      let! _ := btree_node_traverse fuel (bt_left n) queue in
      let! n := load node in
      let! r := enqueue queue (bt_data n) QUEUE_UNIQUE in
      if negb (r.1 =? 0) then ret! r.1 else
      let! n := load node in
      let! _ := btree_node_traverse fuel (bt_right n) queue in
      ret! 0
  end.

Definition btree_traverse (btree queue : Z) : K Z :=
  do! btree_assert_locked btree in
  do! queue_assert_locked queue in
  if is_null btree || is_null queue then ret! (- EINVAL) else
  let! b := load btree in
  let! fuel := bt_fuel in
  let! err := btree_node_traverse fuel (root b) queue in
  do! M_when (negb (err =? 0)) (queue_flush queue) in
  ret! err.
End Alloc.

(** [cb] is the callback applied to its [arg]; [None] is a NULL callback. *)
Fixpoint btree_traverse_inorder (fuel : nat) (node : Z) (cb : option (Z -> K Z)) : K Z :=
  match fuel with
  | O => M_diverge
  | S fuel =>
      match cb with
      | None => ret! (- EINVAL)
      | Some f =>
          if is_null node then ret! (- EINVAL) else
          let! n := load node in
          do! btree_assert_locked (bt_btree n) in
          let! _ := btree_traverse_inorder fuel (bt_left n) cb in
          let! n := load node in
          let! err := f (bt_data n) in
          if negb (err =? 0) then ret! err else
          let! n := load node in
          let! _ := btree_traverse_inorder fuel (bt_right n) cb in
          ret! 0
      end
  end.

Fixpoint btree_flush_node (fuel : nat) (node : Z) : K Z :=
  match fuel with
  | O => M_diverge
  | S fuel =>
      if is_null node then ret! 0 else
      let! n := load node in
      do! btree_assert_locked (bt_btree n) in
      let! _ := btree_flush_node fuel (bt_left n) in
      let! n := load node in
      let right := bt_right n in
      do! btree_delete_node (bt_btree n) node in
      let! _ := btree_flush_node fuel right in
      ret! 0
  end.

Definition btree_flush (btree : Z) : K Z :=
  do! btree_assert_locked btree in
  if is_null btree then ret! (- EINVAL) else
  let! b := load btree in
  let! fuel := bt_fuel in
  btree_flush_node fuel (root b).
