(* ===== verification/BTreeFacts.v ===== *)
(** * Correctness of the search tree operations

    The nodes of a tree in memory against the tree values of [Tree]: each
    operation of ds/btree/btree.c computes the function of [Tree] that describes
    it, and leaves everything else alone. *)
From S2P Require Import Prelude Errno Spinlock KMem Queue Dll QueueFacts Tree BTree.

Notation btnodes m := (h_get (T:=btree_node_t) m) (only parsing).
Notation btrees m := (h_get (T:=btree_t) m) (only parsing).

(** ** Representation *)

(** The nodes of [t], which belongs to [b] and hangs below [par]. *)
Fixpoint tree_at (h : gmap Z btree_node_t) (b par : Z) (t : tree) : Prop :=
  match t with
  | Leaf => True
  | Node p k d l r =>
      h !! p = Some (mkBtnode k d (taddr l) par (taddr r) b) /\ tree_at h b p l /\ tree_at h b p r
  end.

Definition addrs_ok (t : tree) : Prop := NoDup (taddrs t) /\ Forall addr_ok (taddrs t).

Definition btree_rep (m : kmem) (b : Z) (lk : spinlock_t) (t : tree) : Prop :=
  b <> 0 /\
  btrees m !! b = Some (mkBtree (Z.of_nat (length (taddrs t))) (taddr t) lk) /\
  tree_at (btnodes m) b 0 t /\ addrs_ok t /\ bst t.

Definition btree_own (m : kmem) (b : Z) (t : tree) : Prop :=
  exists lk, holding (k_who m) lk = true /\ btree_rep m b lk t.

(** What an operation on the tree [b] with nodes [t] may change. *)
Definition bt_erase (m : kmem) : kmem :=
  set_tick 0 (h_set (T:=btree_t) ∅ (h_set (T:=btree_node_t) ∅ m)).

Record btree_frame (b : Z) (a : list Z) (m m' : kmem) : Prop := {
  bf_erase : bt_erase m' = bt_erase m;
  bf_trees : forall b', b' <> b -> btrees m' !! b' = btrees m !! b';
  bf_nodes : forall p x, p ∉ a -> btnodes m !! p = Some x -> btnodes m' !! p = Some x
}.

Lemma btree_frame_refl b a m : btree_frame b a m m.
Proof. done. Qed.
Lemma btree_frame_who b a m m' : btree_frame b a m m' -> k_who m' = k_who m.
Proof. intros [He _ _]. apply (f_equal k_who) in He. exact He. Qed.
Lemma btree_frame_trans b a a' m1 m2 m3 :
  (forall p x, p ∉ a -> btnodes m1 !! p = Some x -> p ∉ a') ->
  btree_frame b a m1 m2 -> btree_frame b a' m2 m3 -> btree_frame b a m1 m3.
Proof.
  intros Ha [He1 Hq1 Hn1] [He2 Hq2 Hn2]. split; [by rewrite He2| |eauto].
  intros b' Hb. by rewrite Hq2, Hq1.
Qed.

(** ** Trees in node memory *)
Lemma tree_at_ext h h' b par t :
  (forall p, p ∈ taddrs t -> h' !! p = h !! p) -> tree_at h b par t -> tree_at h' b par t.
Proof.
  revert par. induction t as [|p k d l IHl r IHr]; intros par Hext; [done|]. simpl.
  setoid_rewrite elem_of_taddrs_node in Hext. intros (Hp & Hl & Hr).
  split_and!; [rewrite Hext; auto|apply IHl; auto|apply IHr; auto].
Qed.

Lemma tree_at_set h b par t p x : p ∉ taddrs t -> tree_at h b par t -> tree_at (<[p := x]> h) b par t.
Proof. intros Hp. apply tree_at_ext. intros p' Hp'. apply lookup_insert_ne. congruence. Qed.

Lemma tree_at_lookup h b par t p : tree_at h b par t -> p ∈ taddrs t -> is_Some (h !! p).
Proof.
  revert par. induction t as [|q k d l IHl r IHr]; intros par; [by intros _ ?%not_elem_of_nil|].
  intros (Hp & Hl & Hr) [?|[->|?]]%elem_of_taddrs_node; eauto.
Qed.

Lemma addrs_ok_node p k d l r :
  addrs_ok (Node p k d l r) <->
  addr_ok p /\ addrs_ok l /\ addrs_ok r /\ p ∉ taddrs l /\ p ∉ taddrs r /\
  (forall x, x ∈ taddrs l -> x ∉ taddrs r).
Proof.
  unfold addrs_ok. rewrite NoDup_taddrs_node. simpl. rewrite Forall_app, Forall_cons. naive_solver.
Qed.

Lemma addrs_ok_null t : addrs_ok t -> is_null (taddr t) = true <-> t = Leaf.
Proof.
  unfold is_null. rewrite Z.eqb_eq. destruct t as [|p k d l r]; [done|].
  intros (Hp & _)%addrs_ok_node. unfold addr_ok in Hp. simpl. split; [lia|done].
Qed.
Lemma addrs_ok_node_null p k d l r : addrs_ok (Node p k d l r) -> is_null p = false.
Proof. intros (Hp & _)%addrs_ok_node. unfold addr_ok in Hp. apply Z.eqb_neq. lia. Qed.
Lemma addrs_ok_zero t : addrs_ok t -> 0 ∉ taddrs t.
Proof. intros [_ Hf] H0. rewrite Forall_forall in Hf. apply Hf in H0. unfold addr_ok in H0. lia. Qed.

Lemma addrs_ok_perm t t' : Permutation (taddrs t) (taddrs t') -> addrs_ok t -> addrs_ok t'.
Proof. unfold addrs_ok. by intros ->. Qed.

(** There are at least as many live nodes as the tree has. *)
Lemma tree_at_size h b par t : tree_at h b par t -> NoDup (taddrs t) -> (length (taddrs t) <= size h)%nat.
Proof.
  intros Ht Hnd. rewrite <- size_dom. rewrite <- (size_list_to_set (C:=gset Z) (taddrs t)) by done.
  apply subseteq_size. intros p Hp%elem_of_list_to_set. apply elem_of_dom. by eapply tree_at_lookup.
Qed.

(** ** Common first steps *)
Lemma wp_btree_assert_locked m b t (Q : unit -> kmem -> Prop) :
  btree_own m b t -> Q tt m -> wp (btree_assert_locked b) Q m.
Proof. intros (lk & Hh & H0 & Hb & _) HQ. eapply wp_obj_assert_locked; [by split_and!|done]. Qed.
Lemma btree_own_not_null m b t : btree_own m b t -> is_null b = false.
Proof. intros (lk & _ & H0 & _). by apply Z.eqb_neq. Qed.
Lemma wp_load_btree m b t (Q : btree_t -> kmem -> Prop) :
  btree_own m b t ->
  (forall lk, Q (mkBtree (Z.of_nat (length (taddrs t))) (taddr t) lk) m) -> wp (load b) Q m.
Proof. intros (lk & _ & _ & Hb & _) HQ. by eapply wp_load. Qed.
Lemma wp_bt_fuel m b t (Q : nat -> kmem -> Prop) :
  btree_own m b t -> (forall n, (length (taddrs t) < n)%nat -> Q n m) -> wp bt_fuel Q m.
Proof.
  intros (lk & _ & _ & _ & Ht & [Hnd _] & _) HQ. apply HQ.
  apply tree_at_size in Ht; [|done]. unfold h_get in Ht. simpl in Ht. lia.
Qed.

Ltac btree_prologue H :=
  rewrite ?(btree_own_not_null _ _ _ H); simpl;
  apply wp_bind; eapply wp_btree_assert_locked; [exact H|].

(** ** Looking a key up *)
Lemma btree_lookup_loop_spec m b par t key fuel :
  tree_at (btnodes m) b par t -> addrs_ok t -> (length (taddrs t) < fuel)%nat ->
  wp (btree_lookup_loop fuel (taddr t) key) (fun r m' => m' = m /\ r = taddr (tfind key t)) m.
Proof.
  revert par fuel. induction t as [|p k d l IHl r IHr]; intros par [|fuel] Ht Hok Hf; simpl in Hf; try lia.
  { by apply wp_ret. }
  simpl. rewrite (addrs_ok_node_null _ _ _ _ _ Hok). apply addrs_ok_node in Hok as (_ & Hokl & Hokr & _).
  destruct Ht as (Hp & Hl & Hr). rewrite length_app in Hf. simpl in Hf.
  apply wp_bind. eapply wp_load; [exact Hp|]. simpl.
  destruct (k =? key); [by apply wp_ret|].
  destruct (key <? k); [eapply IHl|eapply IHr]; eauto; lia.
Qed.

Lemma btree_lookup_spec m b t key :
  btree_own m b t -> wp (btree_lookup b key) (fun r m' => m' = m /\ r = taddr (tfind key t)) m.
Proof.
  intros Hown. unfold btree_lookup. btree_prologue Hown.
  apply wp_bind. eapply wp_load_btree; [done|]. intros lk. apply wp_bind. eapply wp_bt_fuel; [done|].
  intros n Hn. destruct Hown as (? & _ & _ & _ & Ht & Hok & _). by eapply btree_lookup_loop_spec.
Qed.

Lemma tree_at_sub h b par t a :
  tree_at h b par t -> exists par', tree_at h b par' (sub a t).
Proof.
  revert par. induction t as [|p k d l IHl r IHr]; intros par Ht; [by exists 0|].
  simpl. destruct (p =? a); [by exists par|]. destruct Ht as (_ & Hl & Hr).
  destruct (IHl _ Hl) as [pl Hl']. destruct (IHr _ Hr) as [pr Hr']. destruct (sub a l); eauto.
Qed.

Lemma tfind_sub key t : bst t -> NoDup (taddrs t) -> sub (taddr (tfind key t)) t = tfind key t \/ tfind key t = Leaf.
Proof.
  induction t as [|p k d l IHl r IHr]; [by right|]. intros (Hbl & Hbr & _) Hnd.
  pose proof Hnd as (Hl & Hr & Hpl & Hpr & Hd)%NoDup_taddrs_node. cbn [tfind].
  destruct (Z.eqb_spec k key) as [_|_]; [left; simpl; by rewrite Z.eqb_refl|].
  destruct (Z.ltb_spec key k).
  - destruct (IHl Hbl Hl) as [E|E]; [|by right]. destruct (tfind key l) as [|a k' d' l' r'] eqn:Ef; [by right|].
    left. simpl in E |- *. assert (a ∈ taddrs l) as Ha.
    { destruct (decide (a ∈ taddrs l)) as [|Hn]; [done|]. apply sub_leaf in Hn. congruence. }
    destruct (Z.eqb_spec p a); [naive_solver|]. by rewrite E.
  - destruct (IHr Hbr Hr) as [E|E]; [|by right]. destruct (tfind key r) as [|a k' d' l' r'] eqn:Ef; [by right|].
    left. simpl in E |- *. assert (a ∈ taddrs r) as Ha.
    { destruct (decide (a ∈ taddrs r)) as [|Hn]; [done|]. apply sub_leaf in Hn. congruence. }
    destruct (Z.eqb_spec p a); [naive_solver|].
    assert (sub a l = Leaf) as -> by (apply sub_leaf; naive_solver). done.
Qed.

(** A node found is the node of its key, and can be read. *)
Lemma tfind_node m b t key p k d l r :
  btree_own m b t -> tfind key t = Node p k d l r ->
  k = key /\ tree_map t !! key = Some d /\ sub p t = Node p k d l r /\ is_null p = false /\
  exists par, btnodes m !! p = Some (mkBtnode k d (taddr l) par (taddr r) b).
Proof.
  intros (lk & _ & _ & _ & Ht & Hok & Hbst) Hf.
  pose proof (tfind_spec key t Hbst) as Hs. rewrite Hf in Hs. destruct Hs as (-> & Hp & Hm).
  destruct (tfind_sub key t Hbst (proj1 Hok)) as [E|E]; [|congruence]. rewrite Hf in E. simpl in E.
  split_and!; [done..| |].
  - apply Z.eqb_neq. intros ->. by apply (addrs_ok_zero t).
  - destruct (tree_at_sub _ _ _ _ p Ht) as [par Hp']. rewrite E in Hp'. exists par. apply Hp'.
Qed.

Lemma btree_search_spec m b t key pdata :
  btree_own m b t ->
  wp (btree_search b key pdata) (fun r m' => m' = m /\
    r = match tree_map t !! key with
        | None => (- ENOENT, None)
        | Some d => (0, if pdata then Some d else None)
        end) m.
Proof.
  intros Hown. unfold btree_search. btree_prologue Hown.
  apply wp_bind. eapply wp_mono; [by apply btree_lookup_spec|]. intros _ _ [-> ->].
  pose proof Hown as (lk & _ & _ & _ & _ & _ & Hbst). pose proof (tfind_spec key t Hbst) as Hs.
  destruct (tfind key t) as [|p k d l r] eqn:Hf; simpl; [rewrite Hs; by apply wp_ret|].
  destruct (tfind_node _ _ _ _ _ _ _ _ _ Hown Hf) as (_ & -> & _ & -> & par & Hn).
  destruct pdata; [|by apply wp_ret]. apply wp_bind. eapply wp_load; [exact Hn|]. by apply wp_ret.
Qed.

(** ** The extremes *)
Lemma btree_descend_least m b par t a fuel :
  tree_at (btnodes m) b par t -> addrs_ok t -> (length (taddrs t) < fuel)%nat ->
  wp (btree_descend fuel bt_left (taddr t) a) (fun r m' => m' = m /\ r = tleast t a) m.
Proof.
  revert par a fuel.
  induction t as [|p k d l IHl r IHr]; intros par a [|fuel] Ht Hok Hf; simpl in Hf; try lia;
    [by apply wp_ret|].
  simpl. rewrite (addrs_ok_node_null _ _ _ _ _ Hok). apply addrs_ok_node in Hok as (_ & Hokl & Hokr & _).
  destruct Ht as (Hp & Hl & Hr). rewrite length_app in Hf. simpl in Hf.
  apply wp_bind. eapply wp_load; [exact Hp|]. eapply IHl; eauto; lia.
Qed.
Lemma btree_descend_largest m b par t a fuel :
  tree_at (btnodes m) b par t -> addrs_ok t -> (length (taddrs t) < fuel)%nat ->
  wp (btree_descend fuel bt_right (taddr t) a) (fun r m' => m' = m /\ r = tlargest t a) m.
Proof.
  revert par a fuel.
  induction t as [|p k d l IHl r IHr]; intros par a [|fuel] Ht Hok Hf; simpl in Hf; try lia;
    [by apply wp_ret|].
  simpl. rewrite (addrs_ok_node_null _ _ _ _ _ Hok). apply addrs_ok_node in Hok as (_ & Hokl & Hokr & _).
  destruct Ht as (Hp & Hl & Hr). rewrite length_app in Hf. simpl in Hf.
  apply wp_bind. eapply wp_load; [exact Hp|]. eapply IHr; eauto; lia.
Qed.

Lemma tleast_node h b par t a :
  tree_at h b par t ->
  match inorder t with
  | [] => tleast t a = a
  | (k, d) :: _ => tleast t a ∈ taddrs t /\ exists n, h !! tleast t a = Some n /\ bt_key n = k /\ bt_data n = d
  end.
Proof.
  revert par a. induction t as [|p k d l IHl r IHr]; intros par a Ht; [done|].
  destruct Ht as (Hp & Hl & Hr). simpl. specialize (IHl _ p Hl).
  destruct (inorder l) as [|[k' d'] i] eqn:E; simpl; rewrite elem_of_app, elem_of_cons.
  - rewrite IHl. split; [auto|]. eauto.
  - naive_solver.
Qed.
Lemma tlargest_node h b par t a :
  tree_at h b par t ->
  match last (inorder t) with
  | None => tlargest t a = a
  | Some (k, d) => tlargest t a ∈ taddrs t /\
      exists n, h !! tlargest t a = Some n /\ bt_key n = k /\ bt_data n = d
  end.
Proof.
  revert par a. induction t as [|p k d l IHl r IHr]; intros par a Ht; [done|].
  destruct Ht as (Hp & Hl & Hr). simpl. specialize (IHr _ p Hr). rewrite last_app_cons.
  destruct (inorder r) as [|x i] eqn:E.
  - simpl. simpl in IHr. rewrite IHr, elem_of_app, elem_of_cons. split; [auto|]. eauto.
  - change (last ((k, d) :: x :: i)) with (last (x :: i)).
    destruct (last (x :: i)) as [[k' d']|] eqn:El; [|by apply last_None in El].
    rewrite elem_of_app, elem_of_cons. naive_solver.
Qed.

(** The data of the first and of the last entry in key order. *)
Lemma btree_least_spec m b t :
  btree_own m b t ->
  wp (btree_least b) (fun r m' => m' = m /\ r = match inorder t with [] => 0 | (_, d) :: _ => d end) m.
Proof.
  intros Hown. unfold btree_least, btree_least_node. rewrite (btree_own_not_null _ _ _ Hown).
  apply wp_bind. btree_prologue Hown. apply wp_bind. eapply wp_load_btree; [done|]. intros lk.
  apply wp_bind. eapply wp_bt_fuel; [done|]. intros n Hn.
  destruct Hown as (? & _ & _ & _ & Ht & Hok & _).
  eapply wp_mono; [eapply (btree_descend_least _ _ _ _ 0); done|]. intros _ _ [-> ->].
  pose proof (tleast_node _ _ _ _ 0 Ht) as Hl. destruct (inorder t) as [|[k d] i].
  - rewrite Hl. by apply wp_ret.
  - destruct Hl as (Hin & nd & Hx & _ & <-). unfold is_null. destruct (Z.eqb_spec (tleast t 0) 0) as [E|_].
    { rewrite E in Hin. by apply addrs_ok_zero in Hin. }
    apply wp_bind. eapply wp_load; [exact Hx|]. by apply wp_ret.
Qed.
Lemma btree_largest_spec m b t :
  btree_own m b t ->
  wp (btree_largest b) (fun r m' => m' = m /\
    r = match last (inorder t) with None => 0 | Some (_, d) => d end) m.
Proof.
  intros Hown. unfold btree_largest, btree_largest_node. rewrite (btree_own_not_null _ _ _ Hown).
  apply wp_bind. btree_prologue Hown. apply wp_bind. eapply wp_load_btree; [done|]. intros lk.
  apply wp_bind. eapply wp_bt_fuel; [done|]. intros n Hn.
  destruct Hown as (? & _ & _ & _ & Ht & Hok & _).
  eapply wp_mono; [eapply (btree_descend_largest _ _ _ _ 0); done|]. intros _ _ [-> ->].
  pose proof (tlargest_node _ _ _ _ 0 Ht) as Hl. destruct (last (inorder t)) as [[k d]|].
  - destruct Hl as (Hin & nd & Hx & _ & <-). unfold is_null. destruct (Z.eqb_spec (tlargest t 0) 0) as [E|_].
    { rewrite E in Hin. by apply addrs_ok_zero in Hin. }
    apply wp_bind. eapply wp_load; [exact Hx|]. by apply wp_ret.
  - rewrite Hl. by apply wp_ret.
Qed.

(** ** Linking a node or a whole subtree below a tree *)

(** [q] is now the parent of [node], which hangs where a tree of its key fits:
    any heap in which the nodes of [t] are as in [h'] and in which a tree [s] of
    that key stands at [node] holds [graft s t]. *)
Definition hung (h h' : gmap Z btree_node_t) (b par node q : Z) (n : btree_node_t) (t : tree) : Prop :=
  q ∈ taddrs t /\ h' !! node = Some (set_parent q n) /\
  (forall p, p ∉ taddrs t -> p <> node -> h' !! p = h !! p) /\
  (forall h'' s, (forall p, p ∈ taddrs t -> h'' !! p = h' !! p) ->
     taddr s = node -> tkey s = bt_key n -> tree_at h'' b q s -> tree_at h'' b par (graft s t)).

Section Hung.
Context (h : gmap Z btree_node_t) (b par node : Z) (n : btree_node_t).
Context (p k d : Z) (l r : tree).
Hypothesis Hn : h !! node = Some n.
Hypothesis Hnode : node ∉ taddrs (Node p k d l r).
Hypothesis Hok : addrs_ok (Node p k d l r).
Hypothesis Ht : tree_at h b par (Node p k d l r).

Lemma hung_here (left : bool) :
  (if left then l = Leaf /\ bt_key n < k else r = Leaf /\ k < bt_key n) ->
  hung h (<[p := (if left then set_left node else set_right node)
                   (mkBtnode k d (taddr l) par (taddr r) b)]> (<[node := set_parent p n]> h))
    b par node p n (Node p k d l r).
Proof.
  intros Hside. destruct Ht as (Hp & Hl & Hr).
  pose proof Hok as (_ & _ & _ & Hpl & Hpr & _)%addrs_ok_node. rewrite elem_of_taddrs_node in Hnode.
  unfold hung. setoid_rewrite elem_of_taddrs_node. split_and!; [auto| | |].
  - rewrite lookup_insert_ne by (intros ->; auto). by simplify_map_eq.
  - intros x Hx Hxn. rewrite !lookup_insert_ne by (intros ->; auto). done.
  - intros h'' s Hh <- Hks Hs. simpl.
    assert (h'' !! p = Some ((if left then set_left (taddr s) else set_right (taddr s))
                   (mkBtnode k d (taddr l) par (taddr r) b))) as Hp''.
    { rewrite Hh by auto. by simplify_map_eq. }
    assert (forall x, x ∈ taddrs l \/ x ∈ taddrs r -> h'' !! x = h !! x) as Hx.
    { intros x Hx. rewrite Hh by naive_solver. rewrite !lookup_insert_ne; [done|intros <-; naive_solver..]. }
    destruct left; destruct Hside as [-> Hlt]; destruct (Z.ltb_spec (tkey s) k); try lia; simpl; split_and!;
      try done; apply (tree_at_ext h); auto.
Qed.

Lemma taddr_graft s t : t <> Leaf -> taddr (graft s t) = taddr t.
Proof. destruct t as [|p' k' d' l' r']; [done|]. intros _. simpl. by destruct (tkey s <? k'). Qed.

Lemma hung_below h' q (left : bool) :
  (if left then l <> Leaf /\ bt_key n < k else r <> Leaf /\ k < bt_key n) ->
  hung h h' b p node q n (if left then l else r) -> hung h h' b par node q n (Node p k d l r).
Proof.
  intros Hside (Hq & Hnn & Hfr & Hg). destruct Ht as (Hp & Hl & Hr).
  pose proof Hok as (_ & _ & _ & Hpl & Hpr & Hd)%addrs_ok_node. rewrite elem_of_taddrs_node in Hnode.
  assert (h' !! p = h !! p) as Hp' by (apply Hfr; [by destruct left|intros ->; auto]).
  unfold hung. setoid_rewrite elem_of_taddrs_node. split_and!; [destruct left; auto|done| |].
  - intros x Hx Hxn. apply Hfr; [|done]. destruct left; auto.
  - intros h'' s Hh Hsn Hks Hs. simpl.
    assert (tree_at h'' b p (graft s (if left then l else r))) as Hgr.
    { apply Hg; auto. intros x Hx. apply Hh. destruct left; auto. }
    assert (tree_at h'' b p (if left then r else l)) as Ho.
    { eapply tree_at_ext; [|destruct left; [exact Hr|exact Hl]]. intros x Hx.
      rewrite Hh by (destruct left; auto). apply Hfr; [|intros ->; destruct left; auto].
      destruct left; naive_solver. }
    destruct left; destruct Hside as [Hne Hlt]; destruct (Z.ltb_spec (tkey s) k); try lia; simpl;
      rewrite taddr_graft by done; rewrite Hh, Hp' by auto; done.
Qed.
End Hung.

Lemma btree_insert_loop_spec m b par t node n fuel :
  tree_at (btnodes m) b par t -> addrs_ok t -> t <> Leaf ->
  btnodes m !! node = Some n -> node ∉ taddrs t -> (length (taddrs t) < fuel)%nat ->
  wp (btree_insert_loop fuel node (taddr t)) (fun r m' =>
    match tfind (bt_key n) t with
    | Node _ _ _ _ _ => r = - EEXIST /\ m' = m
    | Leaf => r = 0 /\ exists h' q, m' = h_set h' m /\ hung (btnodes m) h' b par node q n t
    end) m.
Proof.
  revert par fuel.
  induction t as [|p k d l IHl r IHr]; intros par [|fuel] Ht Hok Hne Hn Hnode Hf; simpl in Hf; try lia; [done|].
  pose proof Hok as (Hp & Hokl & Hokr & _)%addrs_ok_node. pose proof Ht as (Hpn & Hl & Hr).
  pose proof Hnode as Hnot. rewrite elem_of_taddrs_node in Hnot.
  simpl. rewrite (addrs_ok_node_null _ _ _ _ _ Hok). rewrite length_app in Hf. simpl in Hf.
  apply wp_bind. eapply wp_load; [exact Hn|]. apply wp_bind. eapply wp_load; [exact Hpn|]. simpl.
  destruct (Z.eqb_spec k (bt_key n)) as [->|Hk]; [by apply wp_ret|].
  assert (node <> p) as Hnp by naive_solver.
  destruct (Z.ltb_spec (bt_key n) k) as [Hlt|Hlt].
  - destruct (is_null (taddr l)) eqn:El; apply wp_bind; simpl.
    + apply addrs_ok_null in El; [|done].
      apply wp_bind. eapply wp_modify; [exact Hn|]. eapply wp_modify; [ksimpl; by simplify_map_eq|].
      subst l. destruct fuel; [lia|]. simpl. apply wp_ret. split; [done|]. ksimpl.
      eexists _, p. split; [done|]. by eapply hung_here with (left := true).
    + apply wp_ret. assert (l <> Leaf) as Hnl by (intros ->; done).
      eapply wp_mono; [eapply IHl; eauto; lia|]. intros r' m'. destruct (tfind (bt_key n) l); [|done].
      intros (-> & h' & q & -> & Hh). split; [done|]. exists h', q. split; [done|].
      by eapply hung_below with (left := true).
  - destruct (is_null (taddr r)) eqn:Er; apply wp_bind; simpl.
    + apply addrs_ok_null in Er; [|done].
      apply wp_bind. eapply wp_modify; [exact Hn|]. eapply wp_modify; [ksimpl; by simplify_map_eq|].
      subst r. destruct fuel; [lia|]. simpl. apply wp_ret. split; [done|]. ksimpl.
      eexists _, p. split; [done|].
      eapply hung_here with (left := false); eauto with lia.
    + apply wp_ret. assert (r <> Leaf) as Hnr by (intros ->; done).
      eapply wp_mono; [eapply IHr; eauto; lia|]. intros r' m'. destruct (tfind (bt_key n) r); [|done].
      intros (-> & h' & q & -> & Hh). split; [done|]. exists h', q. split; [done|].
      eapply hung_below with (left := false); eauto with lia.
Qed.

(** A locked tree whose node counter is [cnt], and the nodes of [s] outside it:
    all of [s] but the parent and tree fields of its root. *)
Definition btree_open (m : kmem) (b : Z) (lk : spinlock_t) (cnt : Z) (t : tree) : Prop :=
  held m b (mkBtree cnt (taddr t) lk) /\ tree_at (btnodes m) b 0 t /\ addrs_ok t.
Definition loose (m : kmem) (b : Z) (s : tree) (n : btree_node_t) : Prop :=
  match s with
  | Leaf => False
  | Node p k d l r =>
      btnodes m !! p = Some n /\
      (forall par, set_btree b (set_parent par n) = mkBtnode k d (taddr l) par (taddr r) b) /\
      tree_at (btnodes m) b p l /\ tree_at (btnodes m) b p r
  end.

Lemma loose_lookup m b s n p : loose m b s n -> p ∈ taddrs s -> is_Some (btnodes m !! p).
Proof.
  destruct s as [|q k d l r]; [done|]. intros (Hq & _ & Hl & Hr) [?|[->|?]]%elem_of_taddrs_node;
    [by eapply (tree_at_lookup _ _ _ l)|eauto|by eapply (tree_at_lookup _ _ _ r)].
Qed.

Lemma btree_own_open m b t :
  btree_own m b t <-> exists lk, btree_open m b lk (Z.of_nat (length (taddrs t))) t /\ bst t.
Proof. unfold btree_own, btree_rep, btree_open, held. simpl. naive_solver. Qed.

Lemma wp_open_fuel m b lk cnt t (Q : nat -> kmem -> Prop) :
  btree_open m b lk cnt t -> (forall n, (length (taddrs t) < n)%nat -> Q n m) -> wp bt_fuel Q m.
Proof.
  intros (_ & Ht & [Hnd _]) HQ. apply HQ. apply tree_at_size in Ht; [|done].
  unfold h_get in Ht. simpl in Ht. lia.
Qed.

Lemma wp_open_load m b lk cnt t (Q : btree_t -> kmem -> Prop) :
  btree_open m b lk cnt t -> Q (mkBtree cnt (taddr t) lk) m -> wp (load b) Q m.
Proof. intros ((_ & Hb & _) & _) HQ. by eapply wp_load. Qed.

Lemma wp_open_modify m b lk cnt t f (Q : unit -> kmem -> Prop) :
  btree_open m b lk cnt t ->
  Q tt (h_set (<[b := f (mkBtree cnt (taddr t) lk)]> (btrees m)) m) -> wp (modify b f) Q m.
Proof. intros ((_ & Hb & _) & _) HQ. by eapply wp_modify. Qed.

Lemma wp_open_assert m b lk cnt t (Q : unit -> kmem -> Prop) :
  btree_open m b lk cnt t -> Q tt m -> wp (btree_assert_locked b) Q m.
Proof. intros (Hh & _) HQ. by eapply wp_obj_assert_locked. Qed.

Lemma btree_open_null m b lk cnt t : btree_open m b lk cnt t -> is_null b = false.
Proof. intros ((H0 & _) & _). by apply Z.eqb_neq. Qed.

Lemma wp_btree_isempty m b lk cnt t (Q : bool -> kmem -> Prop) :
  btree_open m b lk cnt t -> Q (is_null (taddr t)) m -> wp (btree_isempty b) Q m.
Proof.
  intros Ho HQ. unfold btree_isempty. apply wp_bind. eapply wp_open_assert; [done|].
  apply wp_bind. eapply wp_open_load; [done|]. by apply wp_ret.
Qed.

(** Changing a node outside the tree keeps it open. *)
Lemma btree_open_set m b lk cnt t p x :
  p ∉ taddrs t -> btree_open m b lk cnt t -> btree_open (h_set (<[p := x]> (btnodes m)) m) b lk cnt t.
Proof.
  intros Hp ((H0 & Hb & Hh) & Ht & Hok). split_and!; try done. ksimpl. by apply tree_at_set.
Qed.

Lemma addrs_ok_root p k d l r a :
  NoDup (taddrs (Node p k d l r) ++ a) -> p ∉ taddrs l /\ p ∉ taddrs r /\ p ∉ a.
Proof.
  intros (Hn & Hd & _)%NoDup_app. apply NoDup_taddrs_node in Hn as (_ & _ & Hl & Hr & _).
  split_and!; [done..|]. apply Hd, elem_of_taddrs_node. auto.
Qed.

(** Where [btree_insert_node] leaves node memory. *)
Definition grafted (b : Z) (s t : tree) (h h' : gmap Z btree_node_t) : Prop :=
  tree_at h' b 0 (graft s t) /\ (forall p, p ∉ taddrs s ++ taddrs t -> h' !! p = h !! p).

Lemma grafted_root b s n m :
  loose m b s n -> NoDup (taddrs s) ->
  grafted b s Leaf (btnodes m) (<[taddr s := set_btree b (set_parent 0 n)]> (btnodes m)).
Proof.
  destruct s as [|p k d l r]; [done|]. intros (Hp & Hrec & Hl & Hr) (_ & _ & Hpl & Hpr & _)%NoDup_taddrs_node.
  split; [simpl; split_and!|].
  - by rewrite lookup_insert, decide_True, Hrec.
  - by apply tree_at_set.
  - by apply tree_at_set.
  - intros x. rewrite app_nil_r, elem_of_taddrs_node. intros Hx. apply lookup_insert_ne.
    intros <-. simpl in Hx. auto.
Qed.

Lemma grafted_hung b s t n m h' q :
  loose m b s n -> NoDup (taddrs s ++ taddrs t) ->
  hung (<[taddr s := set_parent 0 n]> (btnodes m)) h' b 0 (taddr s) q (set_parent 0 n) t ->
  grafted b s t (btnodes m) (<[taddr s := set_btree b (set_parent q n)]> h').
Proof.
  destruct s as [|p k d l r]; [done|]. intros (Hp & Hrec & Hl & Hr) Hnd (Hq & Hn & Hfr & Hg).
  destruct (addrs_ok_root _ _ _ _ _ _ Hnd) as (Hpl & Hpr & Hpt). simpl in Hn, Hfr, Hg |- *.
  assert (forall x, x ∈ taddrs l \/ x ∈ taddrs r -> x ∉ taddrs t) as Hd.
  { intros x Hx. apply NoDup_app in Hnd as (_ & Hnd & _). apply Hnd, elem_of_taddrs_node. naive_solver. }
  split.
  - apply Hg; [|done| |].
    + intros x Hx. apply lookup_insert_ne. intros <-. done.
    + pose proof (Hrec 0) as E. by injection E.
    + simpl. split_and!; [by rewrite lookup_insert, decide_True, Hrec| |];
        apply tree_at_set; [done| |done|]; eapply tree_at_ext; [|exact Hl| |exact Hr]; intros x Hx;
        (rewrite Hfr; [apply lookup_insert_ne; intros <-; done|auto|intros <-; done]).
  - intros x. rewrite elem_of_app, elem_of_taddrs_node. intros Hx.
    assert (p <> x) as Hpx by (intros <-; naive_solver).
    rewrite lookup_insert_ne by done. rewrite Hfr by naive_solver. by apply lookup_insert_ne.
Qed.

Lemma btree_insert_node_spec m b lk cnt t s n :
  btree_open m b lk cnt t -> loose m b s n -> NoDup (taddrs s ++ taddrs t) -> addrs_ok s ->
  wp (btree_insert_node b (taddr s)) (fun r m' =>
    match tfind (tkey s) t with
    | Node _ _ _ _ _ => r = - EEXIST /\ m' = h_set (<[taddr s := set_parent 0 n]> (btnodes m)) m
    | Leaf => r = 0 /\ exists h',
        m' = h_set (<[b := mkBtree (u64 (cnt + 1)) (taddr (graft s t)) lk]> (btrees m)) (h_set h' m) /\
        grafted b s t (btnodes m) h'
    end) m.
Proof.
  intros Ho Hs Hnd Hoks. unfold btree_insert_node. rewrite (btree_open_null _ _ _ _ _ Ho).
  destruct s as [|p k d l r] eqn:Es; [done|]. rewrite <- Es in *.
  assert (p = taddr s /\ k = tkey s) as [Ep Ek] by (by rewrite Es).
  assert (is_null (taddr s) = false /\ btnodes m !! taddr s = Some n /\ bt_key n = tkey s
          /\ taddr s ∉ taddrs t) as (-> & Hn & Hkn & Hst).
  { rewrite Es in Hs, Hnd, Hoks |- *. split_and!; [by eapply addrs_ok_node_null|apply Hs| |].
    - destruct Hs as (_ & Hrec & _). specialize (Hrec 0). by injection Hrec.
    - eapply addrs_ok_root, Hnd. }
  simpl. apply wp_bind. eapply wp_open_assert; [done|].
  apply wp_bind. eapply wp_modify; [exact Hn|].
  pose proof (btree_open_set _ _ _ _ _ _ (set_parent 0 n) Hst Ho) as Ho1.
  apply wp_bind. eapply wp_btree_isempty; [exact Ho1|].
  destruct (is_null (taddr t)) eqn:Et.
  - apply addrs_ok_null in Et; [|apply Ho]. subst t. simpl.
    apply wp_bind, wp_bind. eapply wp_open_modify; [exact Ho1|]. apply wp_ret. simpl.
    apply wp_bind. eapply wp_modify; [ksimpl; by simplify_map_eq|].
    apply wp_bind. eapply wp_modify; [ksimpl; by simplify_map_eq|]. apply wp_ret. split; [done|].
    ksimpl. rewrite !insert_insert_eq. exists (<[taddr s := set_btree b (set_parent 0 n)]> (btnodes m)).
    split; [|by apply grafted_root; [|apply Hoks]]. rewrite h_set_comm. ksimpl. done.
  - assert (t <> Leaf) as Hnl by (intros ->; done).
    apply wp_bind, wp_bind. eapply wp_open_load; [exact Ho1|]. simpl.
    apply wp_bind. eapply wp_open_fuel; [exact Ho1|]. intros fuel Hf.
    eapply wp_mono; [eapply btree_insert_loop_spec; [apply Ho1|apply Ho1|done| |done|done]|].
    { ksimpl. by simplify_map_eq. }
    intros e m'. simpl. rewrite Hkn. destruct (tfind (tkey s) t); [|by intros [-> ->]; apply wp_ret].
    intros (-> & h' & q & -> & Hh). simpl. ksimpl. pose proof Hh as (_ & Hn' & _).
    apply wp_bind. eapply wp_modify; [ksimpl; apply Ho|].
    apply wp_bind. eapply wp_modify; [ksimpl; exact Hn'|]. apply wp_ret. split; [done|].
    ksimpl. exists (<[taddr s := set_btree b (set_parent q n)]> h').
    rewrite taddr_graft by done. split; [rewrite h_set_comm; by ksimpl|].
    revert Hh. ksimpl. by apply grafted_hung.
Qed.

Lemma addrs_ok_length t : addrs_ok t -> is_u64 (Z.of_nat (length (taddrs t))).
Proof. intros [Hn Hf]. pose proof (addr_list_length _ Hn Hf). unfold is_u64. lia. Qed.

Lemma addrs_ok_app_graft s t :
  NoDup (taddrs s ++ taddrs t) -> Forall addr_ok (taddrs s ++ taddrs t) -> addrs_ok (graft s t).
Proof. unfold addrs_ok. by rewrite graft_addrs. Qed.

(** ** Inserting a key *)
Lemma tfind_leaf t k : bst t -> tfind k t = Leaf <-> k ∉ keys t.
Proof.
  intros Hb. rewrite <- tree_map_none. pose proof (tfind_spec k t Hb) as H.
  destruct (tfind k t); [naive_solver|]. destruct H as (_ & _ & H). rewrite H. naive_solver.
Qed.

Lemma wp_btree_free_node p x (Q : unit -> kmem -> Prop) m :
  btnodes m !! p = Some x -> is_null p = false ->
  Q tt (h_set (delete p (btnodes m)) m) -> wp (btree_free_node p) Q m.
Proof.
  intros Hp H0 HQ. unfold btree_free_node. rewrite H0. apply wp_bind. eapply wp_store; [exact Hp|].
  apply Z.eqb_neq in H0. eapply wp_kfree; [ksimpl; by simplify_map_eq|done|]. ksimpl.
  by rewrite delete_insert_eq.
Qed.

(** How an insertion ends. *)
Definition inserted (m : kmem) (b : Z) (t : tree) (key data r : Z) (m' : kmem) : Prop :=
  (r = - ENOMEM /\ m' = set_tick (S (k_tick m)) m) \/
  (key ∈ keys t /\ r = - EEXIST /\ m' = set_tick (S (k_tick m)) m) \/
  (key ∉ keys t /\ r = 0 /\ exists p, p ∉ k_live m /\
     btree_own m' b (graft (Node p key data Leaf Leaf) t) /\ btree_frame b (taddrs t) m m' /\
     dom (btnodes m') = {[p]} ∪ dom (btnodes m)).

Lemma grafted_dom b s t h h' :
  grafted b s t h h' -> (forall p, p ∈ taddrs s ++ taddrs t -> is_Some (h !! p)) -> dom h' = dom h.
Proof.
  intros [Hg Hfr] Hin. apply set_eq. intros p. rewrite !elem_of_dom.
  destruct (decide (p ∈ taddrs s ++ taddrs t)) as [Hp|Hp]; [|by rewrite Hfr].
  split; [auto|]. intros _. eapply tree_at_lookup; [exact Hg|]. by rewrite graft_addrs.
Qed.

Section Insert.
Context {KA : KAlloc}.

Lemma btree_own_fresh m b t p x tk :
  btree_own m b t -> btnodes m !! p = None -> addr_ok p ->
  exists lk, btree_open (h_set (<[p := x]> (btnodes m)) (set_tick tk m)) b lk
    (Z.of_nat (length (taddrs t))) t /\ p ∉ taddrs t /\ bst t.
Proof.
  intros (lk & ((H0 & Hb & Hh) & Ht & Hok) & Hbst)%btree_own_open Hp Hr. exists lk.
  assert (p ∉ taddrs t) as Hpt.
  { intros Hin. destruct (tree_at_lookup _ _ _ _ _ Ht Hin). congruence. }
  split; [|done]. split_and!; [by split_and!| |done]. ksimpl. by apply tree_at_set.
Qed.

Lemma btree_insert_spec m b t key data :
  btree_own m b t -> wp (btree_insert b key data) (inserted m b t key data) m.
Proof.
  intros Hown. unfold btree_insert, btree_alloc_node. btree_prologue Hown.
  apply wp_bind, wp_kalloc; [intros _; apply wp_ret; by left|]. intros p _ Hlive Hr Hp.
  assert (is_null p = false) as Hnull by (apply Z.eqb_neq; lia). rewrite Hnull.
  apply wp_bind. eapply wp_modify; [ksimpl; by simplify_map_eq|].
  apply wp_bind. eapply wp_modify; [ksimpl; by simplify_map_eq|].
  ksimpl. rewrite !insert_insert_eq. set (n := set_bt_data _ _). set (m1 := h_set _ _).
  destruct (btree_own_fresh m b t p n (S (k_tick m)) Hown Hp Hr) as (lk & Ho & Hpt & Hbst). fold m1 in Ho.
  set (s := Node p key data Leaf Leaf).
  assert (loose m1 b s n) as Hloose.
  { split_and!; try done. unfold m1. ksimpl. by simplify_map_eq. }
  assert (NoDup (taddrs s ++ taddrs t) /\ Forall addr_ok (taddrs s ++ taddrs t)) as [Hnd Hfa].
  { simpl. split; constructor; try done; apply Ho. }
  apply wp_bind. eapply wp_mono; [eapply (btree_insert_node_spec m1 b lk _ t s n); try done|].
  { split; simpl; [apply NoDup_singleton|by apply Forall_singleton]. }
  intros e m'. simpl. destruct (tfind key t) as [|q k' d' l' r'] eqn:Ef.
  - apply tfind_leaf in Ef; [|done]. intros (-> & h' & -> & Hg). apply wp_ret. right; right.
    split_and!; [done..|]. exists p.
    assert (dom h' = {[p]} ∪ dom (btnodes m)) as Hdom.
    { rewrite (grafted_dom _ _ _ _ _ Hg).
      - unfold m1. ksimpl. apply dom_insert_L.
      - intros x [Hx|Hx]%elem_of_app; [by eapply loose_lookup|]. by eapply tree_at_lookup; [apply Ho|]. }
    destruct Hg as [Hg Hfr]. split_and!; [done| | |by ksimpl].
    + apply btree_own_open. exists lk. split; [|by apply graft_bst; [apply bst_single| | |apply fits_new]].
      pose proof (addrs_ok_app_graft _ _ Hnd Hfa) as Hokg. pose proof (addrs_ok_length _ Hokg) as Hu.
      rewrite graft_addrs in Hu |- *. simpl in Hu |- *. rewrite Nat2Z.inj_succ in Hu |- *.
      split_and!; [split_and!| |done]; ksimpl; [apply Ho| |apply Ho|done].
      rewrite lookup_insert, decide_True by done. rewrite u64_small by done. done.
    + split; [done| |]; ksimpl.
      * intros b' Hb'. rewrite lookup_insert_ne by done. done.
      * intros x y Hx Hy. assert (x <> p) as Hxp by congruence.
        rewrite Hfr by (simpl; rewrite elem_of_cons; naive_solver).
        unfold m1. ksimpl. by rewrite lookup_insert_ne.
  - intros [-> ->]. simpl. apply wp_bind. unfold m1. ksimpl.
    eapply wp_btree_free_node; [ksimpl; by simplify_map_eq|done|]. apply wp_ret. right; left. split_and!; [|done|].
    + destruct (decide (key ∈ keys t)) as [|Hk]; [done|]. apply tfind_leaf in Hk; congruence.
    + ksimpl. rewrite insert_insert_eq, delete_insert_id by done.
      rewrite <- (h_get_tick (S (k_tick m)) m), h_set_get. done.
Qed.
End Insert.

(** ** Deleting a node *)

(** The link that [btree_delete_node] clears below the root. *)
Definition clear_child (a : Z) (x : btree_node_t) : btree_node_t :=
  if bt_right x =? a then set_right 0 x else set_left 0 x.

Lemma taddr_not a t : a ∉ taddrs t -> a <> 0 -> taddr t <> a.
Proof. destruct t; simpl; [congruence|]. intros Hn _ <-. apply Hn. apply elem_of_app. right. by left. Qed.
Lemma taddr_cut a t : a <> taddr t -> taddr (cut a t) = taddr t.
Proof. destruct t; simpl; [done|]. intros. by destruct (Z.eqb_spec p a). Qed.

Lemma tree_at_unlink h b par t a :
  tree_at h b par t -> addrs_ok t -> a ∈ taddrs t -> a <> taddr t ->
  exists q x, q ∈ taddrs t /\ q ∉ taddrs (sub a t) /\ h !! q = Some x /\
    (exists na, h !! a = Some na /\ bt_parent na = q) /\
    (bt_right x = a \/ bt_left x = a) /\ tree_at (<[q := clear_child a x]> h) b par (cut a t).
Proof.
  revert par. induction t as [|p k d l IHl r IHr]; intros par Ht Hok Ha Hne; [by apply not_elem_of_nil in Ha|].
  pose proof Hok as (Hp & Hokl & Hokr & Hpl & Hpr & Hd)%addrs_ok_node. destruct Ht as (Hpn & Hl & Hr).
  assert (a <> 0) as Ha0 by (intros ->; by apply addrs_ok_zero in Ha).
  destruct (sub_node a p k d l r (proj1 Hok) Ha ltac:(done)) as [(Hal & Har & -> & ->)|(Har & Hal & -> & ->)].
  - pose proof (taddr_not a r Har Ha0) as Hrne.
    destruct (decide (a = taddr l)) as [->|Hnl].
    + exists p. eexists. split_and!; [apply elem_of_taddrs_node; auto|by intros ?%sub_addrs|exact Hpn| |by right|].
      * destruct l as [|pl kl dl ll rl]; [done|]. destruct Hl as (Hpl' & _). by eexists.
      * rewrite cut_root. simpl. unfold clear_child. simpl. destruct (Z.eqb_spec (taddr r) (taddr l)); [done|].
        split_and!; [by simplify_map_eq|done|by apply tree_at_set].
    + destruct (IHl p Hl Hokl Hal Hnl) as (q & x & Hq & Hqs & Hx & Hna & Hch & Hcut).
      exists q, x. split_and!; try done; [apply elem_of_taddrs_node; auto|].
      simpl. rewrite taddr_cut by done. split_and!; [|done|].
      * rewrite lookup_insert_ne by (intros <-; done). done.
      * apply tree_at_set; [|done]. by apply Hd.
  - destruct (decide (a = taddr r)) as [->|Hnr].
    + exists p. eexists. split_and!; [apply elem_of_taddrs_node; auto|by intros ?%sub_addrs|exact Hpn| |by left|].
      * destruct r as [|pl kl dl ll rl]; [done|]. destruct Hr as (Hpr' & _). by eexists.
      * rewrite cut_root. simpl. unfold clear_child. simpl. rewrite Z.eqb_refl.
        split_and!; [by simplify_map_eq|by apply tree_at_set|done].
    + destruct (IHr p Hr Hokr Har Hnr) as (q & x & Hq & Hqs & Hx & Hna & Hch & Hcut).
      exists q, x. split_and!; try done; [apply elem_of_taddrs_node; auto|].
      simpl. rewrite taddr_cut by done. split_and!; [| |done].
      * rewrite lookup_insert_ne by (intros <-; done). done.
      * apply tree_at_set; [|done]. intros Hql. by apply (Hd q).
Qed.

Lemma set_left_clear a x : bt_right x <> a -> set_left 0 x = clear_child a x.
Proof. intros Hne. unfold clear_child. by destruct (Z.eqb_spec (bt_right x) a). Qed.

Lemma btree_unlink_spec m b lk cnt t a n (Q : unit -> kmem -> Prop) :
  btree_open m b lk cnt t -> a ∈ taddrs t -> btnodes m !! a = Some n ->
  (forall h',
     tree_at h' b 0 (cut a t) ->
     (forall p, p ∉ taddrs (cut a t) -> h' !! p = btnodes m !! p) -> dom h' = dom (btnodes m) ->
     Q tt (h_set (<[b := mkBtree cnt (taddr (cut a t)) lk]> (btrees m)) (h_set h' m))) ->
  wp (btree_unlink b a n (mkBtree cnt (taddr t) lk)) Q m.
Proof.
  intros ((H0 & Hb & Hh) & Ht & Hok) Ha Hn HQ. unfold btree_unlink. simpl.
  destruct (Z.eqb_spec a (taddr t)) as [->|Hne].
  { eapply wp_modify; [exact Hb|]. specialize (HQ (btnodes m)). rewrite cut_root, h_set_get in HQ. by apply HQ. }
  destruct (tree_at_unlink _ _ _ _ _ Ht Hok Ha Hne)
    as (q & x & Hq & Hqs & Hx & (na & Hna & Hpar) & Hch & Hcut).
  assert (na = n) as -> by congruence. rewrite Hpar.
  assert (is_null q = false) as Hq0.
  { apply Z.eqb_neq. intros ->. by apply addrs_ok_zero in Hq. }
  assert (Q tt (h_set (<[q := clear_child a x]> (btnodes m)) m)) as HQ'.
  { specialize (HQ _ Hcut). rewrite taddr_cut in HQ by done.
    rewrite (insert_id (btrees m)) in HQ by done. revert HQ.
    rewrite <- (h_set_comm (T1:=btree_node_t)), h_set_get. intros HQ. apply HQ.
    - intros p Hp. apply lookup_insert_ne. intros <-. apply Hp.
      pose proof (cut_addrs a t (proj1 Hok)) as Hperm. rewrite Hperm in Hq.
      apply elem_of_app in Hq as [?|?]; done.
    - apply dom_insert_lookup_L. eauto. }
  apply wp_bind. unfold btree_node_isright. apply wp_bind. eapply wp_load; [exact Hn|].
  rewrite Hpar, Hq0. apply wp_bind. eapply wp_load; [exact Hx|]. apply wp_ret.
  destruct (Z.eqb_spec (bt_right x) a) as [E|E].
  { eapply wp_modify; [exact Hx|]. unfold clear_child in HQ'. by rewrite E, Z.eqb_refl in HQ'. }
  apply wp_bind. unfold btree_node_isleft. apply wp_bind. eapply wp_load; [exact Hn|].
  rewrite Hpar, Hq0. apply wp_bind. eapply wp_load; [exact Hx|]. apply wp_ret.
  destruct (Z.eqb_spec (bt_left x) a) as [E'|E']; [|naive_solver].
  eapply wp_modify; [exact Hx|]. by rewrite (set_left_clear a).
Qed.

Lemma u64_pred_succ c : is_u64 c -> u64 (u64 (c + -1) + 1) = c.
Proof. intros Hc. rewrite u64_add_l. replace (c + -1 + 1) with c by lia. by apply u64_small. Qed.

Lemma loose_of_tree_at m b par s : s <> Leaf -> tree_at (btnodes m) b par s -> exists n, loose m b s n.
Proof. destruct s as [|p k d l r]; [done|]. intros _ (Hp & Hl & Hr). eexists. by split_and!. Qed.

Lemma fits_tfind s t : bst t -> s <> Leaf -> fits s t -> tfind (tkey s) t = Leaf.
Proof.
  intros Hb Hs Hf. apply tfind_leaf; [done|]. intros Hin.
  assert (tkey s ∈ keys s) as Hk by (destruct s; [done|]; apply elem_of_keys_node; auto).
  destruct (Hf _ Hin) as [H|H]; apply H in Hk; lia.
Qed.

Lemma btree_reinsert_spec m b lk cnt t par s :
  btree_open m b lk cnt t -> tree_at (btnodes m) b par s -> addrs_ok s -> NoDup (taddrs s ++ taddrs t) ->
  bst t -> fits s t -> is_u64 cnt ->
  wp (btree_reinsert b (taddr s)) (fun _ m' => exists h',
    m' = h_set (<[b := mkBtree cnt (taddr (graft s t)) lk]> (btrees m)) (h_set h' m) /\
    grafted b s t (btnodes m) h') m.
Proof.
  intros Ho Hs Hoks Hnd Hbst Hfits Hc. unfold btree_reinsert. pose proof Ho as ((H0 & Hb & Hh) & Ht & Hok).
  destruct (decide (s = Leaf)) as [->|Hne].
  { simpl. apply wp_ret. exists (btnodes m). rewrite graft_leaf, (insert_id (btrees m)) by done.
    rewrite <- (h_set_comm (T1:=btree_node_t)), !h_set_get. split; [done|]. split; [by rewrite graft_leaf|done]. }
  assert (is_null (taddr s) = false) as ->.
  { destruct (is_null (taddr s)) eqn:E; [|done]. by apply addrs_ok_null in E. }
  simpl. apply wp_bind. eapply wp_open_modify; [done|]. set (m1 := h_set _ m).
  destruct (loose_of_tree_at m1 b par s Hne) as [n Hn]; [unfold m1; by ksimpl|].
  assert (btree_open m1 b lk (u64 (cnt + -1)) t) as Ho1.
  { unfold m1. split_and!; [split_and!| |done]; ksimpl; [done| |done|done]. by simplify_map_eq. }
  apply wp_bind. eapply wp_mono; [by eapply (btree_insert_node_spec m1 b lk _ t s n)|].
  intros e m'. rewrite fits_tfind by done. intros (-> & h' & -> & Hg). apply wp_ret. exists h'.
  unfold m1 in Hg |- *. rewrite u64_pred_succ by done. split; [|revert Hg; by ksimpl].
  rewrite <- (h_set_comm (T1:=btree_t) (T2:=btree_node_t)). ksimpl. by rewrite insert_insert_eq.
Qed.

(** The state in the middle of a deletion: [a] is gone, its two subtrees hang loose. *)
Lemma addrs_ok_split3 a t k d l r :
  addrs_ok t -> sub a t = Node a k d l r ->
  NoDup (taddrs r ++ taddrs (cut a t)) /\ NoDup (taddrs l ++ taddrs r ++ taddrs (cut a t)) /\
  addrs_ok l /\ addrs_ok r /\ addrs_ok (cut a t) /\
  (a ∉ taddrs l /\ a ∉ taddrs r /\ a ∉ taddrs (cut a t)) /\
  (forall x, x ∈ taddrs t <-> x = a \/ x ∈ taddrs l \/ x ∈ taddrs r \/ x ∈ taddrs (cut a t)).
Proof.
  intros [Hn Hf] Hs. pose proof (cut_addrs a t Hn) as Hp. rewrite Hs in Hp. simpl in Hp.
  assert (Permutation (taddrs t) (a :: taddrs l ++ taddrs r ++ taddrs (cut a t))) as Hp'.
  { rewrite Hp. solve_Permutation. }
  unfold addrs_ok. setoid_rewrite Hp'. rewrite Hp' in Hn, Hf.
  setoid_rewrite elem_of_cons. setoid_rewrite elem_of_app. setoid_rewrite elem_of_app.
  apply NoDup_cons in Hn as [Ha Hn]. rewrite !elem_of_app in Ha. rewrite !NoDup_app in *.
  rewrite Forall_cons, !Forall_app in Hf. naive_solver.
Qed.

Lemma tree_at_delete h b par t a : a ∉ taddrs t -> tree_at h b par t -> tree_at (delete a h) b par t.
Proof. intros Ha. apply tree_at_ext. intros p Hp. apply lookup_delete_ne. congruence. Qed.

Lemma grafted_keeps b s t h h' par u :
  grafted b s t h h' -> (forall x, x ∈ taddrs u -> x ∉ taddrs s ++ taddrs t) ->
  tree_at h b par u -> tree_at h' b par u.
Proof. intros [_ Hfr] Hd. apply tree_at_ext. intros p Hp. by apply Hfr, Hd. Qed.

Lemma btree_open_graft m b lk cnt s t h' :
  held m b (mkBtree cnt (taddr t) lk) -> grafted b s t (btnodes m) h' -> addrs_ok (graft s t) ->
  btree_open (h_set (<[b := mkBtree cnt (taddr (graft s t)) lk]> (btrees m)) (h_set h' m)) b lk cnt (graft s t).
Proof.
  intros (H0 & Hb & Hh) [Hg _] Hok. split_and!; [split_and!| |done]; ksimpl; try done. by simplify_map_eq.
Qed.

Lemma bt_erase_set h h' m : bt_erase (h_set (T:=btree_t) h (h_set (T:=btree_node_t) h' m)) = bt_erase m.
Proof. done. Qed.

Lemma addrs_ok_graft2 a t k d l r :
  addrs_ok t -> sub a t = Node a k d l r ->
  addrs_ok (graft r (cut a t)) /\ addrs_ok (graft l (graft r (cut a t))).
Proof.
  intros Hok Hs. destruct (addrs_ok_split3 _ _ _ _ _ _ Hok Hs) as (Hn1 & Hn2 & [_ Hfl] & [_ Hfr] & [_ Hfc] & _).
  assert (Forall addr_ok (taddrs r ++ taddrs (cut a t))) by (by apply Forall_app).
  split; apply addrs_ok_app_graft; try done; rewrite graft_addrs; [done|]. by apply Forall_app.
Qed.

Section DeleteNode.
Context (m : kmem) (b a k d : Z) (t l r : tree).
Hypothesis Hown : btree_own m b t.
Hypothesis Hsub : sub a t = Node a k d l r.

(** Hanging the two subtrees back, the right one first. *)
Lemma btree_rehang_spec m2 lk cnt :
  btree_open m2 b lk cnt (cut a t) -> is_u64 cnt ->
  tree_at (btnodes m2) b a l -> tree_at (btnodes m2) b a r ->
  wp (do! btree_reinsert b (taddr r) in btree_reinsert b (taddr l)) (fun _ m' =>
    btree_open m' b lk cnt (tdel a t) /\ bt_erase m' = bt_erase m2 /\
    (forall b', b' <> b -> btrees m' !! b' = btrees m2 !! b') /\
    (forall p, p ∉ taddrs (tdel a t) -> btnodes m' !! p = btnodes m2 !! p) /\
    dom (btnodes m') = dom (btnodes m2)) m2.
Proof.
  intros Ho Hc Hl Hr. destruct Hown as (lk0 & _ & _ & _ & _ & Hok & Hbst).
  destruct (addrs_ok_split3 _ _ _ _ _ _ Hok Hsub) as (Hn1 & Hn2 & Hokl & Hokr & Hokc & _ & _).
  destruct (addrs_ok_graft2 _ _ _ _ _ _ Hok Hsub) as [Hokg1 Hokg2].
  pose proof (tdel_fits_r a t a k d l r Hbst (proj1 Hok) Hsub) as Hfr.
  pose proof (tdel_fits_l a t a k d l r Hbst (proj1 Hok) Hsub) as Hfl.
  destruct (tdel_sub_bst a t a k d l r Hbst Hsub) as [Hbl Hbr].
  unfold tdel. rewrite Hsub.
  apply wp_bind. eapply wp_mono; [eapply (btree_reinsert_spec m2 b lk cnt (cut a t) a r); try done; by apply cut_bst|].
  intros _ m3 (h3 & -> & Hg3). pose proof (btree_open_graft _ _ _ _ _ _ _ (proj1 Ho) Hg3 Hokg1) as Ho3.
  assert (NoDup (taddrs l ++ taddrs (graft r (cut a t)))) as Hn2' by (by rewrite graft_addrs).
  eapply wp_mono; [eapply (btree_reinsert_spec _ b lk cnt (graft r (cut a t)) a l); try done|].
  - ksimpl. eapply grafted_keeps; [done| |done]. apply NoDup_app in Hn2 as (_ & Hd & _). exact Hd.
  - apply graft_bst_any; [done|by apply cut_bst|done].
  - intros _ m4 (h4 & -> & Hg4). revert Hg4. ksimpl. intros Hg4.
    rewrite (h_set_comm (T1:=btree_node_t)). ksimpl. rewrite insert_insert_eq.
    split_and!.
    + split_and!; [split_and!| |done]; ksimpl; [apply Ho|by simplify_map_eq|apply Ho|apply Hg4].
    + done.
    + intros b' Hb'. ksimpl. by rewrite lookup_insert_ne.
    + intros p. rewrite !graft_addrs. intros Hp. ksimpl. destruct Hg3 as [_ Hf3]. destruct Hg4 as [_ Hf4].
      rewrite Hf4 by (by rewrite graft_addrs). apply Hf3. rewrite elem_of_app in Hp. naive_solver.
    + ksimpl. rewrite (grafted_dom _ _ _ _ _ Hg4), (grafted_dom _ _ _ _ _ Hg3); [done|..].
      * intros p [Hp|Hp]%elem_of_app; eapply tree_at_lookup; [exact Hr|done|apply Ho|done].
      * intros p [Hp|Hp]%elem_of_app; eapply tree_at_lookup; [| exact Hp| |exact Hp].
        { eapply grafted_keeps; [done| |exact Hl]. apply NoDup_app in Hn2 as (_ & Hd & _). exact Hd. }
        { apply Hg3. }
Qed.

Lemma btree_delete_node_spec :
  wp (btree_delete_node b a) (fun _ m' =>
    btree_own m' b (tdel a t) /\ btree_frame b (taddrs t) m m' /\
    dom (btnodes m') = dom (btnodes m) ∖ {[a]}) m.
Proof.
  pose proof Hown as (lk & Ho & Hbst)%btree_own_open. pose proof Ho as ((H0 & Hb & Hh) & Ht & Hok).
  destruct (addrs_ok_split3 _ _ _ _ _ _ Hok Hsub) as (_ & _ & _ & _ & Hokc & (Hal & Har & Hac) & Hin).
  assert (a ∈ taddrs t) as Ha by (apply Hin; auto).
  assert (is_null a = false) as Hnull by (apply Z.eqb_neq; intros ->; by apply addrs_ok_zero in Ha).
  destruct (tree_at_sub _ _ _ _ a Ht) as [par Hsa]. rewrite Hsub in Hsa. destruct Hsa as (Hn & Hl & Hr).
  pose proof (tdel_addrs a t a k d l r (proj1 Hok) Hsub) as Hperm.
  unfold btree_delete_node. btree_prologue Hown. rewrite Hnull. apply wp_bind. eapply wp_load; [exact Hn|].
  apply wp_bind. eapply wp_open_load; [exact Ho|]. apply wp_bind. eapply btree_unlink_spec; [done..|].
  intros h1 Hc1 Hf1 Hd1. apply wp_bind. eapply wp_btree_free_node; [ksimpl; by rewrite Hf1|done|].
  apply wp_bind. eapply wp_modify; [ksimpl; by simplify_map_eq|]. ksimpl. rewrite insert_insert_eq.
  rewrite (h_set_comm (T1:=btree_node_t)). ksimpl. simpl.
  unfold add_nodes. simpl. set (m2 := h_set _ (h_set _ m)).
  assert (forall x, x ∈ taddrs l \/ x ∈ taddrs r -> h1 !! x = btnodes m !! x) as Hx.
  { intros x Hx. apply Hf1. destruct (addrs_ok_split3 _ _ _ _ _ _ Hok Hsub) as (N1 & N2 & _).
    rewrite !NoDup_app in N1. rewrite NoDup_app in N2. setoid_rewrite elem_of_app in N2. naive_solver. }
  eapply wp_mono; [apply (btree_rehang_spec m2 lk (Z.of_nat (length (taddrs (tdel a t)))))|].
  - unfold m2. split_and!; [split_and!| |done]; ksimpl; try done; [|by apply tree_at_delete].
    simplify_map_eq. rewrite Hperm. simpl. rewrite u64_pred; [done|].
    pose proof (addrs_ok_length _ Hok) as Hu. by rewrite Hperm in Hu.
  - pose proof (addrs_ok_length _ Hok) as Hu. rewrite Hperm in Hu. simpl in Hu. unfold is_u64 in *. lia.
  - unfold m2. ksimpl. apply tree_at_delete; [done|]. eapply tree_at_ext; [|exact Hl]. auto.
  - unfold m2. ksimpl. apply tree_at_delete; [done|]. eapply tree_at_ext; [|exact Hr]. auto.
  - intros _ m' (Ho' & He & Hbs & Hns & Hd). split_and!.
    + apply btree_own_open. exists lk. split; [done|]. exact (tdel_bst a t a k d l r Hbst (proj1 Hok) Hsub).
    + split; [by rewrite He| |].
      * intros b' Hb'. rewrite Hbs by done. unfold m2. ksimpl. by rewrite lookup_insert_ne.
      * intros p x Hp Hpx. rewrite Hperm, elem_of_cons in Hp. rewrite Hns by naive_solver. unfold m2. ksimpl.
        rewrite lookup_delete_ne by naive_solver. rewrite Hf1; [done|]. intros Hpc.
        apply Hp. assert (p ∈ taddrs t) as Hpt by (apply Hin; auto). rewrite Hperm in Hpt. by apply elem_of_cons in Hpt.
    + rewrite Hd. unfold m2. ksimpl. by rewrite dom_delete_L, Hd1.
Qed.
End DeleteNode.

Lemma btree_frame_sub b a a' m1 m2 m3 :
  (forall p, p ∈ a' -> p ∈ a) ->
  btree_frame b a m1 m2 -> btree_frame b a' m2 m3 -> btree_frame b a m1 m3.
Proof. intros Ha. apply btree_frame_trans. auto. Qed.

Lemma btree_delete_spec m b t key :
  btree_own m b t ->
  wp (btree_delete b key) (fun _ m' => exists t',
    btree_own m' b t' /\ tree_map t' = delete key (tree_map t) /\ btree_frame b (taddrs t) m m' /\
    (forall p, p ∈ taddrs t' -> p ∈ taddrs t) /\
    dom (btnodes m') = dom (btnodes m) ∖ (if decide (key ∈ keys t) then {[taddr (tfind key t)]} else ∅)) m.
Proof.
  intros Hown. unfold btree_delete. btree_prologue Hown.
  apply wp_bind. eapply wp_mono; [by apply btree_lookup_spec|]. intros _ _ [-> ->].
  pose proof Hown as (lk & _ & _ & _ & _ & Hok & Hbst).
  destruct (tfind key t) as [|p k d l r] eqn:Ef; simpl.
  - apply tfind_leaf in Ef; [|done]. unfold btree_delete_node. btree_prologue Hown. apply wp_ret.
    exists t. split_and!; try done; [|rewrite decide_False by done; set_solver].
    symmetry. by apply delete_id, tree_map_none.
  - destruct (tfind_node _ _ _ _ _ _ _ _ _ Hown Ef) as (-> & Hm & Hs & _ & _).
    assert (key ∈ keys t) as Hk.
    { destruct (decide (key ∈ keys t)) as [|Hn]; [done|]. apply tree_map_none in Hn. congruence. }
    eapply wp_mono; [by eapply btree_delete_node_spec|]. intros _ m' (Hown' & Hf & Hd).
    exists (tdel p t). pose proof (tdel_addrs p t p key d l r (proj1 Hok) Hs) as Hperm. split_and!; try done.
    + exact (tdel_map p t p key d l r Hbst (proj1 Hok) Hs).
    + intros x Hx. rewrite Hperm. by right.
    + by rewrite decide_True.
Qed.

(** ** Flushing *)
Lemma flushed_right a t r :
  0 ∉ taddrs (cut a t) -> (r <> Leaf -> taddr r ∉ taddrs (cut a t)) ->
  cut (taddr r) (graft r (cut a t)) = cut a t /\ (r <> Leaf -> sub (taddr r) (graft r (cut a t)) = r).
Proof.
  intros H0 Hr. destruct (decide (r = Leaf)) as [->|Hne]; [simpl; rewrite graft_leaf, cut_absent by done; by split|].
  destruct (graft_back r (cut a t) Hne (Hr Hne)). auto.
Qed.

Lemma btree_own_node m b t a :
  btree_own m b t -> a ∈ taddrs t ->
  is_null a = false /\ exists k d l r par,
    sub a t = Node a k d l r /\ btnodes m !! a = Some (mkBtnode k d (taddr l) par (taddr r) b).
Proof.
  intros (lk & _ & _ & _ & Ht & Hok & _) Ha. split; [apply Z.eqb_neq; intros ->; by apply addrs_ok_zero in Ha|].
  destruct (sub a t) as [|p k d l r] eqn:E; [by apply sub_leaf in E|].
  assert (p = a) as ->.
  { pose proof (sub_addr a t) as Hp. rewrite E in Hp. by apply Hp. }
  destruct (tree_at_sub _ _ _ _ a Ht) as [par Hp]. rewrite E in Hp. destruct Hp as (Hp & _).
  exists k, d, l, r, par. done.
Qed.

(** Flushing a subtree takes all of it out of the tree and frees its nodes. *)
Lemma btree_flush_node_spec s fuel m b t :
  btree_own m b t -> (s <> Leaf -> sub (taddr s) t = s) -> (length (taddrs s) < fuel)%nat ->
  wp (btree_flush_node fuel (taddr s)) (fun e m' =>
    e = 0 /\ btree_own m' b (cut (taddr s) t) /\ btree_frame b (taddrs t) m m' /\
    dom (btnodes m') = dom (btnodes m) ∖ list_to_set (taddrs s)) m.
Proof.
  revert fuel m t. induction s as [|a k d l IHl r IHr]; intros [|fuel] m t Hown Hs Hf; simpl in Hf; try lia.
  { pose proof Hown as (lk & _ & _ & _ & _ & Hok & _). apply wp_ret. simpl.
    rewrite cut_absent by (by apply addrs_ok_zero). split_and!; try done. set_solver. }
  specialize (Hs ltac:(done)). cbn [taddr] in Hs |- *. rewrite length_app in Hf. simpl in Hf.
  pose proof Hown as (lk & _ & _ & _ & Ht & Hok & Hbst).
  assert (a ∈ taddrs t) as Ha by (apply sub_in_sub; congruence).
  destruct (btree_own_node _ _ _ _ Hown Ha) as (Hnull & k0 & d0 & l0 & r0 & par & Hs0 & Hn).
  rewrite Hs in Hs0. injection Hs0 as <- <- <- <-.
  destruct (sub_child a t k d l r (proj1 Hok) Hs) as [Hcl _].
  destruct (sub_cut_left a t k d l r (proj1 Hok) (addrs_ok_zero _ Hok) Hs) as [Hs1 Hc1].
  cbn [btree_flush_node]. rewrite Hnull. apply wp_bind. eapply wp_load; [exact Hn|].
  apply wp_bind. eapply wp_btree_assert_locked; [exact Hown|].
  apply wp_bind. cbn [bt_left]. eapply wp_mono; [apply (IHl fuel m t); [done|done|lia]|].
  intros _ m1 (_ & Hown1 & Hf1 & Hd1). set (t1 := cut (taddr l) t) in *.
  pose proof Hown1 as (lk1 & _ & _ & _ & _ & Hok1 & Hbst1).
  destruct (btree_own_node _ _ t1 a Hown1) as (_ & k1 & d1 & l1 & r1 & par1 & Hs1' & Hn1);
    [apply sub_in_sub; congruence|].
  rewrite Hs1 in Hs1'. injection Hs1' as <- <- <- <-.
  apply wp_bind. eapply wp_load; [exact Hn1|]. cbn [bt_right bt_btree].
  apply wp_bind. eapply wp_mono; [by eapply btree_delete_node_spec|]. intros _ m2 (Hown2 & Hf2 & Hd2).
  assert (tdel a t1 = graft r (cut a t)) as Et2 by (unfold tdel; by rewrite Hs1, graft_leaf, Hc1).
  rewrite Et2 in Hown2.
  destruct (addrs_ok_split3 _ _ _ _ _ _ Hok Hs) as (Hn2 & _ & _ & _ & Hokc & _ & Hin).
  destruct (flushed_right a t r) as [Hcr Hsr].
  { by apply addrs_ok_zero. } { intros Hr. apply NoDup_app in Hn2 as (_ & Hd & _). by apply Hd, taddr_in. }
  apply wp_bind. eapply wp_mono; [apply (IHr fuel m2 _ Hown2 Hsr); lia|].
  intros _ m3 (_ & Hown3 & Hf3 & Hd3). rewrite Hcr in Hown3. apply wp_ret. split_and!; [done..| |].
  - eapply btree_frame_sub; [|eapply btree_frame_sub; [|exact Hf1|exact Hf2]|exact Hf3].
    + intros p. rewrite graft_addrs, elem_of_app, Hin. naive_solver.
    + intros p. apply cut_addrs_sub.
  - rewrite Hd3, Hd2, Hd1. simpl. rewrite list_to_set_app_L. set_solver.
Qed.

Lemma btree_flush_spec m b t :
  btree_own m b t ->
  wp (btree_flush b) (fun e m' =>
    e = 0 /\ btree_own m' b Leaf /\ btree_frame b (taddrs t) m m' /\
    dom (btnodes m') = dom (btnodes m) ∖ list_to_set (taddrs t)) m.
Proof.
  intros Hown. unfold btree_flush. btree_prologue Hown.
  apply wp_bind. eapply wp_load_btree; [done|]. intros lk. apply wp_bind. eapply wp_bt_fuel; [done|]. intros n Hn.
  eapply wp_mono; [apply (btree_flush_node_spec t n m b t); [done| |done]|].
  - intros Hne. destruct t; [done|]. simpl. by rewrite Z.eqb_refl.
  - intros e m'. by rewrite cut_root.
Qed.
