(* ===== verification/BTreeSpec.v ===== *)
(** * The abstract search tree

    A tree as a finite map from keys to data, the operations of ds/btree/btree.c
    as transitions on it, and the simulation of any sequence of them. *)
From S2P Require Import Prelude Errno Spinlock KMem Queue Dll Tree BTree BTreeFacts.

Inductive bt_op :=
  | TInsert (key data : Z)
  | TDelete (key : Z)
  | TSearch (key : Z)
  | TLeast
  | TLargest
  | TCount
  | TFlush.

(** A result: the error code, the count or 0, and the data handed out. *)
Definition bt_res : Type := Z * option Z.

(** [d] is the datum of the extreme key of [s], for an order on keys; 0, the NULL
    of [btree_least] and [btree_largest], for an empty map. *)
Definition extreme (le : Z -> Z -> Prop) (s : gmap Z Z) (d : Z) : Prop :=
  (s = ∅ /\ d = 0) \/
  exists k, s !! k = Some d /\ forall k', is_Some (s !! k') -> le k k'.

Inductive bt_trans (s : gmap Z Z) : bt_op -> bt_res -> gmap Z Z -> Prop :=
  | bt_insert k d : s !! k = None -> bt_trans s (TInsert k d) (0, None) (<[k := d]> s)
  | bt_insert_dup k d : is_Some (s !! k) -> bt_trans s (TInsert k d) (- EEXIST, None) s
  | bt_insert_oom k d : bt_trans s (TInsert k d) (- ENOMEM, None) s
  | bt_delete k : bt_trans s (TDelete k) (0, None) (delete k s)
  | bt_search k d : s !! k = Some d -> bt_trans s (TSearch k) (0, Some d) s
  | bt_search_none k : s !! k = None -> bt_trans s (TSearch k) (- ENOENT, None) s
  | bt_least d : extreme Z.le s d -> bt_trans s TLeast (0, Some d) s
  | bt_largest d : extreme Z.ge s d -> bt_trans s TLargest (0, Some d) s
  | bt_count : bt_trans s TCount (Z.of_nat (size s), None) s
  | bt_flush : bt_trans s TFlush (0, None) ∅.

Inductive bt_trace : list bt_op -> gmap Z Z -> list bt_res -> gmap Z Z -> Prop :=
  | bt_trace_nil s : bt_trace [] s [] s
  | bt_trace_cons o os s r s1 rs s2 :
      bt_trans s o r s1 -> bt_trace os s1 rs s2 -> bt_trace (o :: os) s (r :: rs) s2.

Section Exec.
Context {KA : KAlloc}.

Definition bt_exec (b : Z) (o : bt_op) : K bt_res :=
  match o with
  | TInsert k d => let! r := btree_insert b k d in ret! (r, None)
  | TDelete k => do! btree_delete b k in ret! (0, None)
  | TSearch k => btree_search b k true
  | TLeast => let! d := btree_least b in ret! (0, Some d)
  | TLargest => let! d := btree_largest b in ret! (0, Some d)
  | TCount => let! n := btree_nr_nodes b in ret! (n, None)
  | TFlush => let! r := btree_flush b in ret! (r, None)
  end.

Fixpoint bt_run (b : Z) (os : list bt_op) : K (list bt_res) :=
  match os with
  | [] => ret! []
  | o :: os => let! r := bt_exec b o in let! rs := bt_run b os in ret! (r :: rs)
  end.
End Exec.

(** ** Extremes of a sorted listing *)
Lemma tree_map_is_Some t k : is_Some (tree_map t !! k) <-> k ∈ keys t.
Proof.
  pose proof (tree_map_none t k) as H. destruct (tree_map t !! k) as [d|]; [|naive_solver].
  split; [|eauto]. intros _. destruct (decide (k ∈ keys t)) as [|Hn]; [done|]. by apply H in Hn.
Qed.

Lemma tree_map_empty t : inorder t = [] -> tree_map t = ∅.
Proof. unfold tree_map. by intros ->. Qed.

Lemma least_extreme t :
  bst t -> extreme Z.le (tree_map t) (match inorder t with [] => 0 | (_, d) :: _ => d end).
Proof.
  intros Hb. destruct (inorder t) as [|[k d] i] eqn:E; [left; split; [by apply tree_map_empty|done]|].
  right. exists k. split; [apply tree_map_lookup; [done|rewrite E; by left]|].
  intros k' Hk'%tree_map_is_Some. pose proof (bst_sorted t Hb) as Hs. unfold keys in *. rewrite E in *.
  simpl in *. inversion Hs as [|? ? _ Hf]; subst. rewrite Forall_forall in Hf.
  apply elem_of_cons in Hk' as [->|Hk']; [lia|]. apply Hf in Hk'. lia.
Qed.

Lemma largest_extreme t :
  bst t -> extreme Z.ge (tree_map t) (match last (inorder t) with None => 0 | Some (_, d) => d end).
Proof.
  intros Hb. destruct (last (inorder t)) as [[k d]|] eqn:E.
  - apply last_Some in E as [i E]. right. exists k.
    split; [apply tree_map_lookup; [done|rewrite E; apply elem_of_app; right; by left]|].
    intros k' Hk'%tree_map_is_Some. pose proof (bst_sorted t Hb) as Hs. unfold keys in *. rewrite E in *.
    rewrite fmap_app in *. apply elem_of_app in Hk' as [Hk'|Hk'].
    + simpl in Hs. assert (k' < k); [|lia].
      eapply (sorting.StronglySorted_app_1_elem_of Z.lt); [exact Hs|exact Hk'|by left].
    + simpl in Hk'. apply list_elem_of_singleton in Hk'. lia.
  - apply last_None in E. left. split; [by apply tree_map_empty|done].
Qed.

Lemma tree_map_size t : bst t -> size (tree_map t) = length (taddrs t).
Proof.
  intros Hb. unfold tree_map. rewrite <- length_inorder, <- (length_map_to_list (list_to_map _)).
  apply Permutation_length. apply map_to_list_to_map. by apply bst_keys_nodup.
Qed.

(** ** Simulation *)
Section Simulation.
Context {KA : KAlloc}.

(** What one operation establishes. *)
Definition bt_simulates (m : kmem) (b : Z) (t : tree) (o : bt_op) (r : bt_res) (m' : kmem) : Prop :=
  exists t', btree_own m' b t' /\ bt_trans (tree_map t) o r (tree_map t') /\
    btree_frame b (taddrs t) m m' /\
    (forall p x, p ∉ taddrs t -> btnodes m !! p = Some x -> p ∉ taddrs t').

Lemma bt_simulates_same m b t o r :
  btree_own m b t -> bt_trans (tree_map t) o r (tree_map t) -> bt_simulates m b t o r m.
Proof. intros. exists t. done. Qed.

Lemma bt_exec_insert m b t k d :
  btree_own m b t -> wp (bt_exec b (TInsert k d)) (bt_simulates m b t (TInsert k d)) m.
Proof.
  intros Hown. pose proof Hown as (lk & Hh & H0 & Hb & Ht & Hok & Hbst). simpl.
  apply wp_bind. eapply wp_mono; [by apply btree_insert_spec|].
  intros r m' [[-> ->]|[(Hk & -> & ->)|(Hk & -> & p & Hp & Hown' & Hf & Hd)]]; apply wp_ret.
  - exists t. split_and!; try done; constructor.
  - exists t. split_and!; try done; constructor. by apply tree_map_is_Some.
  - exists (graft (Node p k d Leaf Leaf) t). split_and!; try done.
    + rewrite graft_new_map by done. constructor. by apply tree_map_none.
    + intros x y Hx Hy. rewrite graft_addrs. simpl. intros [->|?]%elem_of_cons; [|done].
      apply Hp, (h_live (T:=btree_node_t)). by apply elem_of_dom.
Qed.

Lemma bt_exec_simulates m b t o :
  btree_own m b t -> wp (bt_exec b o) (bt_simulates m b t o) m.
Proof.
  intros Hown. pose proof Hown as (lk & Hh & H0 & Hb & Ht & Hok & Hbst).
  destruct o as [k d|k|k| | | |]; [by apply bt_exec_insert|..]; simpl.
  - apply wp_bind. eapply wp_mono; [by apply btree_delete_spec|].
    intros _ m' (t' & Hown' & Hm & Hf & Hin & _). apply wp_ret. exists t'. rewrite Hm.
    split_and!; [done|constructor|done|naive_solver].
  - eapply wp_mono; [by apply btree_search_spec|]. intros r m' [-> ->].
    destruct (tree_map t !! k) eqn:E; apply bt_simulates_same; try done; by constructor.
  - apply wp_bind. eapply wp_mono; [by apply btree_least_spec|]. intros r m' [-> ->].
    apply wp_ret, bt_simulates_same; [done|]. constructor. by apply least_extreme.
  - apply wp_bind. eapply wp_mono; [by apply btree_largest_spec|]. intros r m' [-> ->].
    apply wp_ret, bt_simulates_same; [done|]. constructor. by apply largest_extreme.
  - unfold btree_nr_nodes. apply wp_bind. btree_prologue Hown. apply wp_bind.
    eapply wp_load_btree; [done|]. intros lk'. apply wp_ret, wp_ret, bt_simulates_same; [done|].
    simpl. rewrite <- tree_map_size by done. constructor.
  - apply wp_bind. eapply wp_mono; [by apply btree_flush_spec|]. intros r m' (-> & Hown' & Hf & _).
    apply wp_ret. exists Leaf. split_and!; [done| |done|].
    + apply (bt_flush (tree_map t)).
    + intros p x _ _. apply not_elem_of_nil.
Qed.

Lemma bt_run_simulates m b t os :
  btree_own m b t ->
  wp (bt_run b os) (fun rs m' =>
    exists t', btree_own m' b t' /\ bt_trace os (tree_map t) rs (tree_map t') /\
      btree_frame b (taddrs t) m m' /\
      (forall p x, p ∉ taddrs t -> btnodes m !! p = Some x -> p ∉ taddrs t')) m.
Proof.
  revert m t. induction os as [|o os IH]; intros m t Hown; simpl.
  - apply wp_ret. exists t. split_and!; try done. constructor.
  - apply wp_bind. eapply wp_mono; [by apply bt_exec_simulates|].
    intros r m1 (t1 & Hown1 & Ht1 & Hf1 & Hin1). apply wp_bind.
    eapply wp_mono; [by apply IH|]. intros rs m2 (t2 & Hown2 & Ht2 & Hf2 & Hin2). apply wp_ret.
    exists t2. split_and!; [done|by econstructor|by eapply btree_frame_trans|].
    intros p x Hp Hx. eapply Hin2; [by eapply Hin1|]. by eapply (bf_nodes _ _ _ _ Hf1).
Qed.
End Simulation.
