(* ===== verification/Iter.v ===== *)
(** * Iterators (ds/iter.c, ds/iter.h, ds/btree/btree_iter.c)

    An iter_t is a struct whose only member is a queue_t, so an iterator is the
    queue object at its own address. *)
From S2P Require Import Prelude Errno Spinlock KMem Queue Dll QueueFacts Tree BTree BTreeFacts.

(** [iter_init(iter, init_cb, arg)]; [None] is a NULL callback. *)
Definition iter_init (iter : Z) (init_cb : option (Z -> Z -> K Z)) (arg : Z) : K Z :=
  match init_cb with
  | None => ret! (- EINVAL)
  | Some cb =>
      if is_null iter then ret! (- EINVAL) else
      do! queue_lock iter in
      let! err := cb arg iter in
      do! queue_unlock iter in
      ret! err
  end.

(** The shape of [iter_next], [iter_reverse_next], [iter_peek] and
    [iter_peek_reverse]: one queue operation under the queue's lock. *)
Definition iter_locked {A} (iter : Z) (op : K A) : K A :=
  do! queue_lock iter in
  let! r := op in
  do! queue_unlock iter in
  ret! r.

Definition iter_next (iter : Z) (item : bool) : K (Z * option Z) :=
  if is_null iter || negb item then ret! (- EINVAL, None) else
  iter_locked iter (dequeue iter item).
Definition iter_reverse_next (iter : Z) (item : bool) : K (Z * option Z) :=
  if is_null iter || negb item then ret! (- EINVAL, None) else
  iter_locked iter (dequeue_tail iter item).
Definition iter_peek (iter : Z) (item : bool) : K (Z * option Z) :=
  if is_null iter || negb item then ret! (- EINVAL, None) else
  iter_locked iter (queue_peek iter QUEUE_HEAD item).
Definition iter_peek_reverse (iter : Z) (item : bool) : K (Z * option Z) :=
  if is_null iter || negb item then ret! (- EINVAL, None) else
  iter_locked iter (queue_peek iter QUEUE_TAIL item).

Definition iter_destroy (iter : Z) : K unit :=
  if is_null iter then ret! tt else
  do! queue_lock iter in
  do! queue_flush iter in
  do! queue_unlock iter in
  kfree (T:=queue_t) iter.

Definition iter_create {KA : KAlloc} (riter : bool) : K (Z * option Z) :=
  if negb riter then ret! (- EINVAL, None) else
  let! iter := kalloc QUEUE_INIT in
  if is_null iter then ret! (- ENOMEM, None) else
  let! err := queue_init iter in
  if negb (err =? 0) then do! kfree (T:=queue_t) iter in ret! (err, None)
  else ret! (0, Some iter).

(** ** Iterators over a tree *)
Section TreeIter.
Context {KA : KAlloc}.

Definition btree_iter_init (tree iter : Z) : K Z :=
  if is_null tree || is_null iter then ret! (- EINVAL) else
  do! btree_assert_locked tree in
  do! queue_lock iter in
  let! err := btree_traverse tree iter in
  do! queue_unlock iter in
  ret! err.

Definition btree_iter_create (tree : Z) (riter : bool) : K (Z * option Z) :=
  if is_null tree || negb riter then ret! (- EINVAL, None) else
  do! btree_assert_locked tree in
  let! r := iter_create true in
  match r with
  | (0, Some iter) =>
      let! err := btree_iter_init tree iter in
      if negb (err =? 0) then do! iter_destroy iter in ret! (err, None)
      else ret! (0, Some iter)
  | (err, _) => ret! (err, None)
  end.
End TreeIter.

Definition btree_iter_next (iter : Z) (item : bool) : K (Z * option Z) :=
  if is_null iter || negb item then ret! (- EINVAL, None) else
  do! queue_lock iter in
  let! r := dequeue iter item in
  do! queue_unlock iter in
  ret! r.
Definition btree_iter_reverse_next (iter : Z) (item : bool) : K (Z * option Z) :=
  if is_null iter || negb item then ret! (- EINVAL, None) else
  do! queue_lock iter in
  let! r := dequeue_tail iter item in
  do! queue_unlock iter in
  ret! r.
Definition btree_iter_destory (iter : Z) : K unit :=
  if is_null iter then ret! tt else
  do! queue_lock iter in
  do! queue_flush iter in
  do! queue_unlock iter in
  kfree (T:=queue_t) iter.

(** [iter_foreach_item(item, iter, init_cb, arg)] with a body that keeps each
    item: the items the loop hands out, in order. *)
Fixpoint iter_drain (fuel : nat) (iter : Z) : K (list Z) :=
  match fuel with
  | O => M_diverge
  | S fuel =>
      let! r := iter_next iter true in
      match r with
      | (0, Some item) => let! l := iter_drain fuel iter in ret! (item :: l)
      | _ => ret! []
      end
  end.
Definition iter_foreach_item (fuel : nat) (iter : Z) (init_cb : option (Z -> Z -> K Z)) (arg : Z)
    : K (list Z) :=
  let! ok := iter_init iter init_cb arg in
  if negb (ok =? 0) || is_null iter then ret! [] else iter_drain fuel iter.

(** * Correctness of iterators and of tree traversal

    An iterator is a queue nobody holds; each operation takes its lock, does one
    queue operation and releases it.  Traversing a tree enqueues its data in key
    order, so iterating over a tree visits it in key order. *)
(** ** Iterators *)
Definition iter_rep (m : kmem) (it : Z) (l : list (Z * Z)) : Prop :=
  exists lk, locked lk = false /\ queue_rep m it lk l.

(** [m'] is [m] with the lock of the queue at [it] taken or released. *)
Definition relocked (it : Z) (m m' : kmem) : Prop :=
  exists q lk, queues m !! it = Some q /\ m' = h_set (<[it := with_lock lk q]> (queues m)) m.

Lemma relocked_frame it l m m' : relocked it m m' -> queue_frame it l m m'.
Proof.
  intros (q & lk & Hq & ->). split; [done| |]; ksimpl; [|done]. intros q' Hne. by apply lookup_insert_ne.
Qed.
Lemma relocked_nodes it m m' : relocked it m m' -> qnodes m' = qnodes m.
Proof. intros (q & lk & Hq & ->). by ksimpl. Qed.
Lemma relocked_live it m m' : relocked it m m' -> k_live m' = k_live m.
Proof.
  intros (q & lk & Hq & ->). unfold k_live, h_set, h_get in *. simpl in *.
  by rewrite (dom_insert_lookup_L (k_queues m)) by eauto.
Qed.

Lemma wp_iter_lock m it l (Q : unit -> kmem -> Prop) :
  iter_rep m it l -> (forall m1, queue_own m1 it l -> relocked it m m1 -> Q tt m1) -> wp (queue_lock it) Q m.
Proof.
  intros (lk & Hl & H0 & Hq & Hs & Hok) HQ. eapply wp_obj_lock; [done..|]. intros lk' Hh. apply HQ.
  - exists lk'. split; [done|]. split_and!; ksimpl; try done. by simplify_map_eq.
  - eexists _, lk'. done.
Qed.

Lemma wp_iter_unlock m it l (Q : unit -> kmem -> Prop) :
  queue_own m it l -> (forall m1, iter_rep m1 it l -> relocked it m m1 -> Q tt m1) -> wp (queue_unlock it) Q m.
Proof.
  intros (lk & Hh & H0 & Hq & Hs & Hok) HQ. eapply wp_obj_unlock; [by split_and!|]. intros lk' Hl. apply HQ.
  - exists lk'. split; [done|]. split_and!; ksimpl; try done. by simplify_map_eq.
  - eexists _, lk'. done.
Qed.

(** An operation [op] on the iterator's queue, done under its lock. *)
Lemma wp_iter_locked {A} m it l (op : K A) (Q : A -> kmem -> Prop) :
  iter_rep m it l ->
  (forall m1, queue_own m1 it l -> relocked it m m1 ->
     wp op (fun r m2 => exists l', queue_own m2 it l' /\
       forall m3, iter_rep m3 it l' -> relocked it m2 m3 -> Q r m3) m1) ->
  wp (iter_locked it op) Q m.
Proof.
  intros Hit Hop. unfold iter_locked. apply wp_bind. eapply wp_iter_lock; [done|]. intros m1 Ho1 Hr1.
  apply wp_bind. eapply wp_mono; [by apply Hop|]. intros r m2 (l' & Ho2 & HQ).
  apply wp_bind. eapply wp_iter_unlock; [done|]. intros m3 Hi3 Hr3. by apply wp_ret, HQ.
Qed.

Lemma iter_rep_not_null m it l : iter_rep m it l -> is_null it = false.
Proof. intros (lk & _ & H0 & _). by apply Z.eqb_neq. Qed.

(** Frames around the lock operations. *)
Lemma frame_relocked it l m m1 m2 m3 :
  relocked it m m1 -> queue_frame it l m1 m2 -> relocked it m2 m3 -> queue_frame it l m m3.
Proof.
  intros H1 H2 H3. eapply (queue_frame_trans _ l l); [done|eapply (queue_frame_trans _ l l); [done| |exact H2]|];
    by apply relocked_frame.
Qed.

Lemma iter_next_spec m it l :
  iter_rep m it l ->
  wp (iter_next it true) (fun r m' => queue_frame it l m m' /\
    match l with
    | [] => r = (- ENOENT, None) /\ iter_rep m' it []
    | (p, d) :: l' => r = (0, Some d) /\ iter_rep m' it l'
    end) m.
Proof.
  intros Hit. unfold iter_next. rewrite (iter_rep_not_null _ _ _ Hit). simpl.
  eapply wp_iter_locked; [done|]. intros m1 Ho1 Hr1. eapply wp_mono; [by apply dequeue_spec|].
  intros r m2 H. destruct l as [|[p d] l].
  - destruct H as [-> ->]. exists []. split; [done|]. intros m3 Hi3 Hr3. split; [|done].
    by eapply frame_relocked.
  - destruct H as (-> & Ho2 & Hf & _). exists l. split; [done|]. intros m3 Hi3 Hr3. split; [|done].
    by eapply frame_relocked.
Qed.

Lemma iter_reverse_next_spec m it l :
  iter_rep m it l ->
  wp (iter_reverse_next it true) (fun r m' => queue_frame it l m m' /\
    ((l = [] /\ r = (- ENOENT, None) /\ iter_rep m' it []) \/
     exists l' p d, l = l' ++ [(p, d)] /\ r = (0, Some d) /\ iter_rep m' it l')) m.
Proof.
  intros Hit. unfold iter_reverse_next. rewrite (iter_rep_not_null _ _ _ Hit). simpl.
  eapply wp_iter_locked; [done|]. intros m1 Ho1 Hr1. eapply wp_mono; [by apply dequeue_tail_spec|].
  intros r m2 [(-> & -> & ->)|(l' & p & d & -> & -> & Ho2 & Hf & _)].
  - exists []. split; [done|]. intros m3 Hi3 Hr3. split; [|by left]. by eapply frame_relocked.
  - exists l'. split; [done|]. intros m3 Hi3 Hr3. split; [|right; eauto 10].
    by eapply frame_relocked.
Qed.

(** Draining hands the items out in queue order and leaves the iterator empty. *)
Lemma iter_drain_spec m it l fuel :
  iter_rep m it l -> (length l < fuel)%nat ->
  wp (iter_drain fuel it) (fun ds m' => ds = l.*2 /\ iter_rep m' it [] /\ queue_frame it l m m') m.
Proof.
  revert m fuel. induction l as [|[p d] l IH]; intros m [|fuel] Hit Hf; simpl in Hf; try lia; simpl;
    apply wp_bind; (eapply wp_mono; [by apply iter_next_spec|]); intros r m1 (Hf1 & -> & Hit1).
  - by apply wp_ret.
  - apply wp_bind. eapply wp_mono; [apply IH; [done|lia]|]. intros ds m2 (-> & Hit2 & Hf2). apply wp_ret.
    split_and!; [done..|]. eapply queue_frame_trans; [|done..].
    intros x y Hx _ Hin. apply Hx, elem_of_addrs_cons. auto.
Qed.

(** Destroying an iterator frees it and what is left in it. *)
Lemma iter_destroy_spec m it l :
  iter_rep m it l ->
  wp (iter_destroy it) (fun _ m' => queue_frame it l m m' /\ queues m' = delete it (queues m) /\
    dom (qnodes m') = dom (qnodes m) ∖ list_to_set (addrs l)) m.
Proof.
  intros Hit. unfold iter_destroy. rewrite (iter_rep_not_null _ _ _ Hit).
  apply wp_bind. eapply wp_iter_lock; [done|]. intros m1 Ho1 Hr1.
  apply wp_bind. eapply wp_mono; [by apply queue_flush_spec|]. intros _ m2 (Ho2 & Hf2 & Hd2).
  apply wp_bind. eapply wp_iter_unlock; [done|]. intros m3 Hi3 Hr3.
  destruct Hi3 as (lk & _ & H0 & Hq3 & _). eapply wp_kfree; [exact Hq3|done|].
  assert (queue_frame it l m m3) as [He Hq Hn].
  { by eapply frame_relocked. }
  ksimpl. split_and!.
  - split; ksimpl; [done| |done]. intros q' Hne. rewrite lookup_delete_ne by done. auto.
  - apply map_eq. intros q'. destruct (decide (q' = it)) as [->|]; [by rewrite !lookup_delete_eq|].
    rewrite !lookup_delete_ne by done. auto.
  - by rewrite (relocked_nodes _ _ _ Hr3), Hd2, (relocked_nodes _ _ _ Hr1).
Qed.

(** ** Traversing a tree into a queue *)
Section Traverse.
Context {KA : KAlloc}.

(** The allocator answers for the next [n] objects. *)
Definition roomy (m : kmem) (n : nat) : Prop :=
  forall tk s, k_live m ⊆ s -> (size s < size (k_live m) + n)%nat -> is_Some (ka_pick tk s).

(** [new] was appended to the queue [q], in memory that was free. *)
Record appended (q : Z) (l new : list (Z * Z)) (m m' : kmem) : Prop := {
  ap_own : queue_own m' q (l ++ new);
  ap_frame : queue_frame q l m m';
  ap_live : k_live m' = list_to_set (addrs new) ∪ k_live m;
  ap_fresh : forall p, p ∈ addrs new -> p ∉ k_live m
}.

Lemma appended_nil q l m : queue_own m q l -> appended q l [] m m.
Proof.
  intros Ho. split; [by rewrite app_nil_r|done| |].
  - unfold addrs. simpl. by rewrite (left_id_L ∅ (∪)).
  - intros p []%not_elem_of_addrs_nil.
Qed.

Lemma appended_app q l n1 n2 m1 m2 m3 :
  appended q l n1 m1 m2 -> appended q (l ++ n1) n2 m2 m3 -> appended q l (n1 ++ n2) m1 m3.
Proof.
  intros [Ho1 Hf1 Hl1 Hn1] [Ho2 Hf2 Hl2 Hn2]. split.
  - by rewrite app_assoc.
  - eapply queue_frame_trans; [|exact Hf1|exact Hf2]. intros p x Hp Hx. rewrite elem_of_addrs_app.
    intros [?|Hin]; [done|]. apply (Hn1 p Hin), (h_live (T:=queue_node_t)). by apply elem_of_dom.
  - rewrite Hl2, Hl1, addrs_app, list_to_set_app_L.
    apply set_eq. intros x. rewrite !elem_of_union. tauto.
  - intros p [Hp|Hp]%elem_of_addrs_app; [auto|]. apply Hn2 in Hp. rewrite Hl1, not_elem_of_union in Hp. apply Hp.
Qed.

Lemma appended_trees q l new m m' :
  appended q l new m m' -> btnodes m' = btnodes m /\ btrees m' = btrees m /\ k_who m' = k_who m.
Proof.
  intros [_ [He _ _] _ _]. split_and!.
  - apply (f_equal k_btnodes) in He. exact He.
  - apply (f_equal k_btrees) in He. exact He.
  - apply (f_equal k_who) in He. exact He.
Qed.

Lemma appended_roomy q l new m m' n :
  appended q l new m m' -> queue_own m q l -> roomy m (length new + n) -> roomy m' n.
Proof.
  intros [Ho _ Hl Hfr] _ Hr tk s Hs Hsz. destruct Ho as (lk & _ & _ & _ & _ & Hok).
  apply dll_ok_app in Hok as (_ & [Hnd _] & _).
  assert (size (k_live m') = length new + size (k_live m))%nat as Hsize.
  { rewrite Hl, size_union by (intros x Hx%elem_of_list_to_set; by apply Hfr).
    rewrite size_list_to_set by done. unfold addrs. by rewrite length_fmap. }
  apply Hr; [|lia]. etrans; [|exact Hs]. rewrite Hl. apply union_subseteq_r.
Qed.

Lemma enqueue_appends m q l d :
  queue_own m q l -> d ∉ l.*2 -> roomy m 1 ->
  wp (enqueue q d QUEUE_UNIQUE) (fun r m' => r.1 = 0 /\ exists p, appended q l [(p, d)] m m') m.
Proof.
  intros Ho Hd Hr. eapply wp_mono; [by apply enqueue_spec|].
  intros r m' [(_ & Hin & _)|[_ [(_ & _ & Hp)|(p & -> & Hp & Ho' & Hf & Hl)]]]; [done| |].
  - destruct (Hr (k_tick m) (k_live m)) as [x Hx]; [done|lia|congruence].
  - split; [done|]. exists p. split; try done.
    + rewrite Hl. unfold addrs. simpl. by rewrite (right_id_L ∅ (∪)).
    + intros x [->|[]%not_elem_of_addrs_nil]%elem_of_addrs_cons. done.
Qed.

Lemma inorder_data_node p k d l r :
  (inorder (Node p k d l r)).*2 = (inorder l).*2 ++ d :: (inorder r).*2.
Proof. simpl. by rewrite fmap_app. Qed.

Lemma roomy_mono m n n' : roomy m n -> (n' <= n)%nat -> roomy m n'.
Proof. intros Hr Hn tk s Hs Hsz. apply Hr; [done|lia]. Qed.

(** With room, and data that are all different and not yet queued, the whole
    tree is appended in key order. *)
Lemma btree_node_traverse_spec t m b (x : btree_t) par q l fuel :
  queue_own m q l -> held m b x -> tree_at (btnodes m) b par t -> addrs_ok t ->
  (length (taddrs t) < fuel)%nat -> NoDup (l.*2 ++ (inorder t).*2) -> roomy m (length (taddrs t)) ->
  wp (btree_node_traverse fuel (taddr t) q) (fun e m' =>
    e = 0 /\ exists new, new.*2 = (inorder t).*2 /\ appended q l new m m') m.
Proof.
  revert m par l fuel. induction t as [|p k d lt IHl rt IHr]; intros m par l [|fuel] Ho Hb Ht Hok Hf Hnd Hr;
    simpl in Hf; try lia; cbn [btree_node_traverse]; queue_prologue Ho.
  { apply wp_ret. split; [done|]. exists []. split; [done|by apply appended_nil]. }
  rewrite length_app in Hf. simpl in Hf. rewrite (addrs_ok_node_null _ _ _ _ _ Hok).
  apply addrs_ok_node in Hok as (_ & Hokl & Hokr & _). destruct Ht as (Hp & Hl & Hrt).
  rewrite inorder_data_node in Hnd. simpl in Hr. rewrite length_app in Hr. simpl in Hr.
  apply wp_bind. eapply wp_load; [exact Hp|]. apply wp_bind. eapply wp_obj_assert_locked; [exact Hb|].
  cbn [bt_left]. apply wp_bind. eapply wp_mono; [eapply (IHl m p l fuel); try done; [lia| |]|].
  { rewrite app_assoc in Hnd. by apply NoDup_app in Hnd as (? & _). }
  { eapply roomy_mono; [done|lia]. }
  intros _ m1 (_ & n1 & E1 & Ha1). destruct (appended_trees _ _ _ _ _ Ha1) as (Hbn1 & Hbt1 & Hw1).
  assert (length n1 = length (taddrs lt)) as Hlen1.
  { rewrite <- length_inorder, <- (length_fmap snd (inorder lt)), <- E1. by rewrite length_fmap. }
  apply wp_bind. eapply wp_load; [rewrite Hbn1; exact Hp|]. cbn [bt_data].
  apply wp_bind. eapply wp_mono; [apply (enqueue_appends m1 q (l ++ n1) d); [apply Ha1| |]|].
  { rewrite fmap_app, E1. rewrite app_assoc in Hnd. apply NoDup_app in Hnd as (_ & Hd & _).
    intros Hin. apply (Hd d Hin). by left. }
  { eapply appended_roomy; [exact Ha1|done|]. eapply roomy_mono; [done|lia]. }
  intros r2 m2 (-> & p2 & Ha2). destruct (appended_trees _ _ _ _ _ Ha2) as (Hbn2 & Hbt2 & Hw2). simpl.
  pose proof (appended_app _ _ _ _ _ _ _ Ha1 Ha2) as Ha12.
  apply wp_bind. eapply wp_load; [rewrite Hbn2, Hbn1; exact Hp|]. cbn [bt_right].
  apply wp_bind. eapply wp_mono; [eapply (IHr m2 p (l ++ n1 ++ [(p2, d)]) fuel)|].
  - apply Ha12.
  - destruct Hb as (H0 & Hb & Hh). split_and!; [done|by rewrite Hbt2, Hbt1|by rewrite Hw2, Hw1].
  - by rewrite Hbn2, Hbn1.
  - done.
  - lia.
  - rewrite !fmap_app, E1. simpl. by rewrite <- !app_assoc.
  - eapply appended_roomy; [exact Ha12|done|]. eapply roomy_mono; [done|]. rewrite length_app. simpl. lia.
  - intros e3 m3 (_ & n3 & E3 & Ha3). apply wp_ret. split; [done|].
    exists ((n1 ++ [(p2, d)]) ++ n3). split.
    + simpl. rewrite !fmap_app, E1, E3. simpl. by rewrite <- app_assoc.
    + by eapply appended_app.
Qed.

Lemma btree_traverse_spec m b t q l :
  btree_own m b t -> queue_own m q l -> NoDup (l.*2 ++ (inorder t).*2) -> roomy m (length (taddrs t)) ->
  wp (btree_traverse b q) (fun e m' =>
    e = 0 /\ btree_own m' b t /\ exists new, new.*2 = (inorder t).*2 /\ appended q l new m m') m.
Proof.
  intros Hown Ho Hnd Hr. unfold btree_traverse. btree_prologue Hown. queue_prologue Ho.
  apply wp_bind. eapply wp_load_btree; [done|]. intros lk'. apply wp_bind. eapply wp_bt_fuel; [done|]. intros n Hn.
  pose proof Hown as (lk & Hh & H0 & Hb & Ht & Hok & Hbst).
  apply wp_bind. eapply wp_mono; [eapply (btree_node_traverse_spec t m b _ 0 q l n Ho); try done; by split_and!|].
  intros e m' (-> & new & Enew & Ha). simpl. apply wp_bind, wp_ret, wp_ret. split; [done|].
  split; [|eauto]. destruct (appended_trees _ _ _ _ _ Ha) as (Hbn & Hbt & Hw).
  exists lk. rewrite Hw. split; [done|]. split_and!; try done; [by rewrite Hbt|by rewrite Hbn].
Qed.
End Traverse.

(** ** Iterators over a tree *)
Section TreeIter.
Context {KA : KAlloc}.

Lemma iter_create_spec m n :
  roomy m (S n) ->
  wp (iter_create true) (fun r m' => exists it, r = (0, Some it) /\ iter_rep m' it [] /\
    queue_frame it [] m m' /\ it ∉ k_live m /\ roomy m' n) m.
Proof.
  intros Hr. unfold iter_create. simpl. apply wp_bind, wp_kalloc.
  { intros E. destruct (Hr (k_tick m) (k_live m)) as [x Hx]; [done|lia|congruence]. }
  intros it _ Hlive Hit _. assert (is_null it = false) as Hn by (apply Z.eqb_neq; lia). rewrite Hn.
  apply wp_bind. unfold queue_init. rewrite Hn.
  do 4 (apply wp_bind; eapply wp_modify; [ksimpl; apply lookup_insert_eq|]; ksimpl; rewrite ?insert_insert_eq).
  apply wp_ret. simpl. apply wp_ret. exists it. split_and!; [done| | |done|].
  - exists SPINLOCK_INIT. split; [done|].
    split_and!; [lia|ksimpl; by simplify_map_eq|done|apply dll_ok_nil].
  - split; [done| |]; ksimpl; [|done]. intros q' Hne. by apply lookup_insert_ne.
  - set (m1 := h_set _ _). assert (k_live m1 = {[it]} ∪ k_live m) as Hl.
    { unfold m1, k_live, h_set, h_get. simpl. rewrite dom_insert_L. apply set_eq. intros x.
      rewrite !elem_of_union. tauto. }
    intros tk s Hs Hsz. rewrite Hl in Hs, Hsz. apply union_subseteq in Hs as [_ Hs].
    rewrite size_union, size_singleton in Hsz by (intros x ->%elem_of_singleton; done).
    apply Hr; [done|lia].
Qed.

Lemma queue_frame_btree_own it l m m' b t : queue_frame it l m m' -> btree_own m b t -> btree_own m' b t.
Proof.
  intros [He _ _] (lk & Hh & H0 & Hb & Ht & Hok & Hbst). exists lk.
  assert (k_who m' = k_who m) as -> by (apply (f_equal k_who) in He; exact He).
  assert (btrees m' = btrees m) as Eb by (apply (f_equal k_btrees) in He; exact He).
  assert (btnodes m' = btnodes m) as En by (apply (f_equal k_btnodes) in He; exact He).
  split; [done|]. split_and!; try done; [by rewrite Eb|by rewrite En].
Qed.

Lemma relocked_roomy it m m' n : relocked it m m' -> roomy m n -> roomy m' n.
Proof. intros Hr%relocked_live Hroom tk s. rewrite Hr. apply Hroom. Qed.

Lemma btree_iter_init_spec m b t it l :
  btree_own m b t -> iter_rep m it l -> NoDup (l.*2 ++ (inorder t).*2) -> roomy m (length (taddrs t)) ->
  wp (btree_iter_init b it) (fun e m' => e = 0 /\ btree_own m' b t /\ queue_frame it l m m' /\
    exists new, new.*2 = (inorder t).*2 /\ iter_rep m' it (l ++ new)) m.
Proof.
  intros Hown Hit Hnd Hr. unfold btree_iter_init.
  rewrite (btree_own_not_null _ _ _ Hown), (iter_rep_not_null _ _ _ Hit). simpl.
  apply wp_bind. eapply wp_btree_assert_locked; [done|]. apply wp_bind. eapply wp_iter_lock; [done|].
  intros m1 Ho1 Hr1. apply wp_bind. eapply wp_mono; [apply (btree_traverse_spec m1 b t it l)|].
  - eapply queue_frame_btree_own; [by apply (relocked_frame it [])|done].
  - done.
  - done.
  - by eapply relocked_roomy.
  - intros e m2 (-> & Hb2 & new & En & Ha). apply wp_bind. eapply wp_iter_unlock; [apply Ha|].
    intros m3 Hi3 Hr3. apply wp_ret. split_and!; [done| |eapply frame_relocked; [done|apply Ha|done]|eauto].
    eapply queue_frame_btree_own; [by apply (relocked_frame it [])|done].
Qed.

Lemma btree_iter_create_spec m b t :
  btree_own m b t -> NoDup (inorder t).*2 -> roomy m (S (length (taddrs t))) ->
  wp (btree_iter_create b true) (fun r m' => exists it l, r = (0, Some it) /\ it ∉ k_live m /\
    iter_rep m' it l /\ l.*2 = (inorder t).*2 /\ btree_own m' b t) m.
Proof.
  intros Hown Hnd Hr. unfold btree_iter_create. rewrite (btree_own_not_null _ _ _ Hown). simpl.
  apply wp_bind. eapply wp_btree_assert_locked; [done|].
  apply wp_bind. eapply wp_mono; [by apply iter_create_spec|]. intros r m1 (it & -> & Hi1 & Hf1 & Hl & Hr1).
  apply wp_bind. eapply wp_mono; [apply (btree_iter_init_spec m1 b t it []); try done|].
  - by eapply queue_frame_btree_own.
  - intros e m2 (-> & Hb2 & _ & new & En & Hi2). apply wp_ret. by exists it, new.
Qed.
(** [iter_init] calls its callback with the queue's lock held, and
    [btree_iter_init] takes that lock again. *)
Lemma btree_iter_init_locked m b t it l :
  btree_own m b t -> queue_own m it l -> btree_iter_init b it m = Panic.
Proof.
  intros Hown Ho. unfold btree_iter_init.
  rewrite (btree_own_not_null _ _ _ Hown), (queue_own_not_null _ _ _ Ho). simpl.
  pose proof (wp_btree_assert_locked m b t (fun _ m' => m' = m) Hown eq_refl) as H.
  apply wp_done in H as ([] & m' & E & ->). erewrite M_bind_done by exact E.
  apply M_bind_panic. destruct (queue_own_held _ _ _ Ho) as (x & Hh & _). by eapply obj_lock_held.
Qed.

Lemma btree_foreach_panics m b t it l fuel :
  btree_own m b t -> iter_rep m it l ->
  iter_foreach_item fuel it (Some btree_iter_init) b m = Panic.
Proof.
  intros Hown Hit. unfold iter_foreach_item, iter_init. apply M_bind_panic.
  rewrite (iter_rep_not_null _ _ _ Hit).
  assert (wp (queue_lock it) (fun _ m1 => queue_own m1 it l /\ relocked it m m1) m) as H
    by (by eapply wp_iter_lock).
  apply wp_done in H as ([] & m1 & E & Ho1 & Hr1). erewrite M_bind_done by exact E.
  apply M_bind_panic. eapply btree_iter_init_locked; [|exact Ho1].
  eapply queue_frame_btree_own; [by apply (relocked_frame it [])|done].
Qed.
End TreeIter.
