(* ===== verification/BTreeProps.v ===== *)
(** * Properties of search trees and iterators

    The theorems about ds/btree and ds/iter.c and the concrete trees that exercise
    them. *)
From stdpp Require Import sorting.
From S2P Require Import Prelude Errno Spinlock KMem Queue Dll QueueFacts Tree BTree BTreeFacts BTreeSpec Iter Sample.


(** ** Concrete trees *)
Fixpoint tree_nodes (b par : Z) (t : tree) : gmap Z btree_node_t :=
  match t with
  | Leaf => ∅
  | Node p k d l r =>
      <[p := mkBtnode k d (taddr l) par (taddr r) b]> (tree_nodes b p l ∪ tree_nodes b p r)
  end.

(** Keys 10, 20, 25, 30, 40 with data 110, 120, 125, 130, 140, and a second tree. *)
Definition five_keys : tree :=
  Node 1030 30 130 (Node 1010 10 110 Leaf (Node 1020 20 120 Leaf (Node 1025 25 125 Leaf Leaf)))
    (Node 1040 40 140 Leaf Leaf).
Definition one_key : tree := Node 2007 7 77 Leaf Leaf.
Definition two_trees : kmem :=
  h_set (T:=btree_t) (<[1000 := mkBtree 5 1030 held_lock]> {[2000 := mkBtree 1 2007 free_lock]})
    (h_set (tree_nodes 1000 0 five_keys ∪ tree_nodes 2000 0 one_key) idle).

#[export] Instance bst_dec t : Decision (bst t).
Proof.
  refine (cast_if (decide (StronglySorted Z.lt (keys t)))); [|intros Hb; apply n, bst_sorted, Hb].
  induction t as [|p k d l IHl r IHr]; [done|]. rewrite keys_node in s.
  apply StronglySorted_app in s as (Hlr & Hl & Hr). apply StronglySorted_inv in Hr as [Hr Hf].
  rewrite Forall_forall in Hf. simpl. split_and!; [auto|auto|..].
  - intros x Hx. apply Hlr; [done|by left].
  - auto.
Defined.

Lemma two_trees_own : btree_own two_trees 1000 five_keys.
Proof.
  exists held_lock. split; [done|]. split_and!; [done|reflexivity| | |].
  - simpl. split_and!; reflexivity.
  - split; by apply (bool_decide_unpack _).
  - by apply (bool_decide_unpack _).
Qed.
Lemma two_trees_other : btree_rep two_trees 2000 free_lock one_key.
Proof.
  split_and!; [done|reflexivity| | |].
  - simpl. split_and!; reflexivity.
  - split; by apply (bool_decide_unpack _).
  - by apply (bool_decide_unpack _).
Qed.

(** ** Search trees *)

(** C2: Whatever sequence of insertions, deletions, searches, least, largest,
    node counts and flushes is run on a locked tree, the calls all return, their
    results and the final content are those of the finite map from keys to data,
    the nodes remain a search tree whose counter is the size of the map, and any
    other tree in memory keeps its content. *)
Theorem btree_refines_map {KA : KAlloc} m b t os b2 lk2 t2 :
  btree_own m b t -> btree_rep m b2 lk2 t2 -> b2 <> b -> (forall p, p ∈ taddrs t2 -> p ∉ taddrs t) ->
  wp (bt_run b os) (fun rs m' =>
    exists t', btree_own m' b t' /\ bt_trace os (tree_map t) rs (tree_map t') /\
      btree_rep m' b2 lk2 t2) m.
Proof.
  intros Hown (H0 & Hb2 & Ht2 & Hok2 & Hbst2) Hne Hd. eapply wp_mono; [by apply bt_run_simulates|].
  intros rs m' (t' & Hown' & Ht & [_ Hf Hn] & _). exists t'. split; [done|]. split; [done|].
  split_and!; [done|by rewrite Hf| |done..].
  eapply tree_at_ext; [|exact Ht2]. intros p Hp. destruct (tree_at_lookup _ _ _ _ _ Ht2 Hp) as [x Hx].
  rewrite Hx. by apply Hn; [apply Hd|].
Qed.

Definition tree_ops : list bt_op :=
  [TInsert 35 135; TDelete 30; TInsert 10 9; TLeast; TDelete 10; TLargest; TSearch 25; TCount; TFlush; TLeast].

Lemma btree_refines_map_witness :
  wp (bt_run (KA:=slot_alloc) 1000 tree_ops) (fun rs m' =>
    exists t', btree_own m' 1000 t' /\ bt_trace tree_ops (tree_map five_keys) rs (tree_map t') /\
      btree_rep m' 2000 free_lock one_key) two_trees.
Proof.
  apply (btree_refines_map (KA:=slot_alloc) two_trees 1000 five_keys tree_ops 2000 free_lock one_key).
  - apply two_trees_own.
  - apply two_trees_other.
  - done.
  - intros p Hp. revert p Hp. apply Forall_forall. repeat constructor; by apply (bool_decide_unpack _).
Defined.

(** C18: Flushing a tree, which deletes its nodes one by one while it walks it,
    visits every node although each deletion re-hangs subtrees: it returns 0, the
    tree is empty with a zero counter, exactly the nodes of the tree are freed,
    and no other node or tree changes. *)
Theorem btree_flush_frees_all m b t :
  btree_own m b t ->
  wp (btree_flush b) (fun e m' =>
    e = 0 /\ btree_own m' b Leaf /\
    dom (btnodes m') = dom (btnodes m) ∖ list_to_set (taddrs t) /\
    (forall p x, p ∉ taddrs t -> btnodes m !! p = Some x -> btnodes m' !! p = Some x) /\
    (forall b', b' <> b -> btrees m' !! b' = btrees m !! b')) m.
Proof.
  intros Hown. eapply wp_mono; [by apply btree_flush_spec|]. intros e m' (-> & Ho & [_ Hb Hn] & Hd). done.
Qed.

Lemma btree_flush_frees_all_witness :
  wp (btree_flush 1000) (fun e m' =>
    e = 0 /\ btree_own m' 1000 Leaf /\
    dom (btnodes m') = dom (btnodes two_trees) ∖ list_to_set (taddrs five_keys) /\
    (forall p x, p ∉ taddrs five_keys -> btnodes two_trees !! p = Some x -> btnodes m' !! p = Some x) /\
    (forall b', b' <> 1000 -> btrees m' !! b' = btrees two_trees !! b')) two_trees.
Proof. exact (btree_flush_frees_all two_trees 1000 five_keys two_trees_own). Defined.

(** Deleting the node at an address frees that node alone, and the tree then
    holds the same keys with the same data except the deleted one: the two
    subtrees of the node are hung back without breaking the search order. *)
Theorem btree_delete_node_removes_one m b t a k d l r :
  btree_own m b t -> sub a t = Node a k d l r ->
  wp (btree_delete_node b a) (fun _ m' => exists t',
    btree_own m' b t' /\ Permutation (inorder t) ((k, d) :: inorder t') /\
    Permutation (taddrs t) (a :: taddrs t') /\ dom (btnodes m') = dom (btnodes m) ∖ {[a]}) m.
Proof.
  intros Hown Hs. pose proof Hown as (lk & _ & _ & _ & _ & Hok & Hbst).
  eapply wp_mono; [by eapply btree_delete_node_spec|]. intros _ m' (Ho & _ & Hd).
  exists (tdel a t). split_and!; [done| | |done].
  - exact (tdel_inorder a t a k d l r (proj1 Hok) Hs).
  - exact (tdel_addrs a t a k d l r (proj1 Hok) Hs).
Qed.

Lemma btree_delete_node_removes_one_witness :
  wp (btree_delete_node 1000 1030) (fun _ m' => exists t',
    btree_own m' 1000 t' /\ Permutation (inorder five_keys) ((30, 130) :: inorder t') /\
    Permutation (taddrs five_keys) (1030 :: taddrs t') /\
    dom (btnodes m') = dom (btnodes two_trees) ∖ {[1030]}) two_trees.
Proof.
  eapply (btree_delete_node_removes_one two_trees 1000 five_keys 1030); [apply two_trees_own|reflexivity].
Defined.

(** ** Iterators *)

(** An iterator made from a tree whose data are pairwise different, with room
    for its queue, hands out the data of the whole tree in increasing key order,
    once each, ends, and leaves the tree as it was. *)
Theorem btree_iterates_in_key_order {KA : KAlloc} m b t fuel :
  btree_own m b t -> NoDup (inorder t).*2 -> roomy m (S (length (taddrs t))) ->
  (length (taddrs t) < fuel)%nat ->
  wp (let! r := btree_iter_create b true in
      match r with (_, Some it) => iter_drain fuel it | (_, None) => ret! [] end)
    (fun ds m' => ds = (inorder t).*2 /\ StronglySorted Z.lt (inorder t).*1 /\ btree_own m' b t) m.
Proof.
  intros Hown Hnd Hr Hf. pose proof Hown as (_ & _ & _ & _ & _ & _ & Hbst).
  apply wp_bind. eapply wp_mono; [by apply btree_iter_create_spec|].
  intros r m1 (it & l & -> & _ & Hit & El & Hb1).
  assert (length l = length (taddrs t)) as Hlen.
  { rewrite <- length_inorder, <- (length_fmap snd (inorder t)), <- El. by rewrite length_fmap. }
  eapply wp_mono; [apply iter_drain_spec; [exact Hit|lia]|]. intros ds m2 (-> & _ & Hfr).
  split_and!; [done|by apply bst_sorted|by eapply queue_frame_btree_own].
Qed.

Lemma btree_iterates_in_key_order_witness :
  wp (let! r := btree_iter_create (KA:=first_fit) 1000 true in
      match r with (_, Some it) => iter_drain 6 it | (_, None) => ret! [] end)
    (fun ds m' => ds = [110; 120; 125; 130; 140] /\
      StronglySorted Z.lt (inorder five_keys).*1 /\ btree_own m' 1000 five_keys) two_trees.
Proof.
  apply (btree_iterates_in_key_order (KA:=first_fit) two_trees 1000 five_keys 6).
  - apply two_trees_own.
  - by apply (bool_decide_unpack _).
  - intros tk s _ Hs. apply lowest_free_some. vm_compute (size (k_live two_trees)) in Hs. simpl in Hs. unfold two64. lia.
  - simpl. lia.
Defined.

(** [btree_foreach_item], the loop macro over a tree, always panics on a
    valid iterator: [iter_init] holds the iterator's lock while it calls
    [btree_iter_init], which takes the same lock again. *)
Theorem btree_foreach_item_panics {KA : KAlloc} m b t it l fuel :
  btree_own m b t -> iter_rep m it l ->
  iter_foreach_item fuel it (Some btree_iter_init) b m = Panic.
Proof. apply btree_foreach_panics. Qed.

Definition tree_and_iter : kmem := h_set {[3000 := QUEUE_INIT]} two_trees.

Lemma btree_foreach_item_panics_witness :
  iter_foreach_item 6 3000 (Some (btree_iter_init (KA:=first_fit))) 1000 tree_and_iter = Panic.
Proof.
  apply (btree_foreach_item_panics (KA:=first_fit) tree_and_iter 1000 five_keys 3000 [] 6).
  - exact two_trees_own.
  - exists free_lock. split; [done|]. split_and!; [done|reflexivity|done|apply dll_ok_nil].
Defined.

(** A tree whose node of key 6 carries the same datum as the node of key 4. *)
Definition dup_tree : tree :=
  Node 1004 4 500 Leaf (Node 1006 6 500 Leaf (Node 1007 7 800 Leaf Leaf)).
Definition dup_mem : kmem :=
  h_set (T:=btree_t) {[1000 := mkBtree 3 1004 held_lock]}
    (h_set (T:=queue_t) {[3000 := mkQueue 0 0 0 held_lock]} (h_set (tree_nodes 1000 0 dup_tree) idle)).

(** The errors of the recursive calls of [btree_node_traverse] are dropped:
    when a datum occurs at two keys, the enqueue of the second is refused, the
    right subtree of that node is skipped, and the traversal still answers 0 with
    the keys beyond missing from the queue. *)
Theorem btree_traverse_drops_subtree :
  exists m', btree_traverse (KA:=slot_alloc) 1000 3000 dup_mem = Done 0 m' /\
    exists p, queue_own m' 3000 [(p, 500)] /\ (7, 800) ∈ inorder dup_tree /\ btree_own m' 1000 dup_tree.
Proof.
  eexists. split; [vm_compute; reflexivity|]. exists 65536. split_and!.
  - exists held_lock. split; [done|]. split_and!; [done|reflexivity| |].
    + simpl. split; reflexivity.
    + split; [apply NoDup_singleton|by apply Forall_singleton].
  - simpl. rewrite !elem_of_cons. auto.
  - exists held_lock. split; [done|]. split_and!; [done|reflexivity| | |].
    + simpl. split_and!; reflexivity.
    + split; by apply (bool_decide_unpack _).
    + by apply (bool_decide_unpack _).
Qed.
