(* ===== verification/Mmap.v ===== *)
(** * Address spaces (mm/mmap.c, mm/mmap.h, mm/vm_region.h)

    An address space keeps its memory regions in a doubly linked list sorted by
    address.  The list, the region records and the bookkeeping of the mmap_t are
    modelled; the page tables behind them are not: the functions of
    arch/paging.h that can fail are a parameter that answers an error code, the
    others have no effect on the modelled state.  [refs] is a signed counter and
    is kept as an integer.  [mmap_dump_list] and [vmr_dump] only print, and
    [mmap_copy_arglist] writes user memory; they are left out. *)
From S2P Require Import Prelude Errno Spinlock KMem Queue.

Definition PAGESZ : Z := 4096.
Definition PAGEMASK : Z := 4095.
Definition USTACK : Z := 140737488355328.
Definition VMA_BASE : Z := 18446603336221196288.
Definition mmap_limit : Z := USTACK - 1.
Definition MMAP_USER : Z := 1.
Definition sizeof_vmr : Z := 120.

(** mm/vm_region.h: VM_..., MAP_... and PROT_... of mm/mmap.h, PTE_... *)
Definition VM_EXEC : Z := 1.
Definition VM_WRITE : Z := 2.
Definition VM_READ : Z := 4.
Definition VM_ZERO : Z := 8.
Definition VM_SHARED : Z := 16.
Definition VM_GROWSDOWN : Z := 256.
Definition VM_DONTEXPAND : Z := 512.
Definition MAP_PRIVATE : Z := 1.
Definition MAP_SHARED : Z := 2.
Definition MAP_DONTEXPAND : Z := 4.
Definition MAP_ZERO : Z := 16.
Definition MAP_STACK : Z := 256.
Definition MAP_FIXED : Z := 4096.
Definition PROT_READ : Z := 1.
Definition PROT_WRITE : Z := 2.
Definition PROT_EXEC : Z := 4.
Definition PTE_R : Z := 1.
Definition PTE_W : Z := 2.
Definition PTE_X : Z := 1.
Definition PTE_U : Z := 4.

Definition has (flags bit : Z) : bool := negb (Z.land flags bit =? 0).
Definition isaligned (p : Z) : bool := Z.land p PAGEMASK =? 0.
Definition valid_addr (a : Z) : bool := a <=? mmap_limit.
Definition opt (b : bool) (bit : Z) : Z := if b then bit else 0.

(** ** Regions *)
Definition vmr_size (r : vreg) : Z := u64 (u64 (v_end r - v_start r) + 1).
Definition vmr_upper_bound (r : vreg) : Z := u64 (v_end r + 1).
Definition vmr_lower_bound (r : vreg) : Z := u64 (v_start r - 1).
Definition vmr_dontexpand (r : vreg) : bool := has (v_flags r) VM_DONTEXPAND.
Definition vmr_growsdown (r : vreg) : bool := has (v_flags r) VM_GROWSDOWN.
Definition vmr_isstack (r : vreg) : bool := vmr_growsdown r.

Definition set_refs (x : Z) (r : vreg) := mkVreg x (v_flags r) (v_vflags r) (v_priv r) (v_file r)
  (v_filesz r) (v_memsz r) (v_file_pos r) (v_mmap r) (v_vmops r) (v_paddr r) (v_start r) (v_end r).
Definition set_flags (x y : Z) (r : vreg) := mkVreg (v_refs r) x y (v_priv r) (v_file r)
  (v_filesz r) (v_memsz r) (v_file_pos r) (v_mmap r) (v_vmops r) (v_paddr r) (v_start r) (v_end r).
Definition set_vpriv (x : Z) (r : vreg) := mkVreg (v_refs r) (v_flags r) (v_vflags r) x (v_file r)
  (v_filesz r) (v_memsz r) (v_file_pos r) (v_mmap r) (v_vmops r) (v_paddr r) (v_start r) (v_end r).
Definition set_vfile (x y : Z) (r : vreg) := mkVreg (v_refs r) (v_flags r) (v_vflags r) (v_priv r) x
  (v_filesz r) (v_memsz r) y (v_mmap r) (v_vmops r) (v_paddr r) (v_start r) (v_end r).
Definition set_vmmap (x : Z) (r : vreg) := mkVreg (v_refs r) (v_flags r) (v_vflags r) (v_priv r) (v_file r)
  (v_filesz r) (v_memsz r) (v_file_pos r) x (v_vmops r) (v_paddr r) (v_start r) (v_end r).
Definition set_start (x : Z) (r : vreg) := mkVreg (v_refs r) (v_flags r) (v_vflags r) (v_priv r) (v_file r)
  (v_filesz r) (v_memsz r) (v_file_pos r) (v_mmap r) (v_vmops r) (v_paddr r) x (v_end r).
Definition set_end (x : Z) (r : vreg) := mkVreg (v_refs r) (v_flags r) (v_vflags r) (v_priv r) (v_file r)
  (v_filesz r) (v_memsz r) (v_file_pos r) (v_mmap r) (v_vmops r) (v_paddr r) (v_start r) x.
Definition add_refs (k : Z) (r : vreg) := set_refs (v_refs r + k) r.

Definition on_reg (f : vreg -> vreg) (v : vmr_t) : vmr_t := mkVmr (f (v_reg v)) (v_prev v) (v_next v).
Definition set_vprev (x : Z) (v : vmr_t) : vmr_t := mkVmr (v_reg v) x (v_next v).
Definition set_vnext (x : Z) (v : vmr_t) : vmr_t := mkVmr (v_reg v) (v_prev v) x.

Definition set_vmr_head (x : Z) (s : mmap_t) := mkMmap (mm_flags s) (mm_refs s) (mm_priv s) (mm_arg s)
  (mm_env s) (mm_heap s) (mm_brk s) (mm_pgdir s) (mm_limit s) (mm_guard s) (used_space s) x (vmr_tail s)
  (mm_entry s) (mm_lock s).
Definition set_vmr_tail (x : Z) (s : mmap_t) := mkMmap (mm_flags s) (mm_refs s) (mm_priv s) (mm_arg s)
  (mm_env s) (mm_heap s) (mm_brk s) (mm_pgdir s) (mm_limit s) (mm_guard s) (used_space s) (vmr_head s) x
  (mm_entry s) (mm_lock s).
(** [mmap->refs += k] and [mmap->used_space += n]. *)
Definition add_space (k n : Z) (s : mmap_t) := mkMmap (mm_flags s) (mm_refs s + k) (mm_priv s) (mm_arg s)
  (mm_env s) (mm_heap s) (mm_brk s) (mm_pgdir s) (mm_limit s) (mm_guard s) (u64 (used_space s + n))
  (vmr_head s) (vmr_tail s) (mm_entry s) (mm_lock s).
(** The members that point at special regions. *)
Definition set_special (arg env heap brk : Z) (s : mmap_t) := mkMmap (mm_flags s) (mm_refs s) (mm_priv s)
  arg env heap brk (mm_pgdir s) (mm_limit s) (mm_guard s) (used_space s) (vmr_head s) (vmr_tail s)
  (mm_entry s) (mm_lock s).

Definition VREG_ZERO : vreg := mkVreg 0 0 0 0 0 0 0 0 0 0 0 0 0.
Definition VMR_ZERO : vmr_t := mkVmr VREG_ZERO 0 0.

(** A walk along the regions of a list ends within this many steps. *)
Definition vmr_fuel : K nat := fun m => Done (S (size (k_vmrs m))) m.

Definition mmap_assert_locked (mmap : Z) : K unit := obj_assert_locked (T:=mmap_t) mmap.
Definition mmap_lock (mmap : Z) : K unit := obj_lock (T:=mmap_t) mmap.
Definition mmap_unlock (mmap : Z) : K unit := obj_unlock (T:=mmap_t) mmap.
Definition mmap_recursive_lock (mmap : Z) : K bool := obj_recursive_lock (T:=mmap_t) mmap.

Definition vmr_free (r : Z) : K unit :=
  if is_null r then ret! tt else
  do! modify r (on_reg (add_refs (-1))) in
  let! v := load (T:=vmr_t) r in
  M_when (v_refs (v_reg v) <=? 0) (kfree (T:=vmr_t) r).

Definition vmr_can_split (r addr : Z) : K bool :=
  if is_null r then ret! false else
  let! v := load (T:=vmr_t) r in
  ret! ((v_start (v_reg v) <? addr) && (addr <? v_end (v_reg v))).

Definition vmr_copy (rdst rsrc : Z) : K Z :=
  if is_null rdst || is_null rsrc then ret! (- EINVAL) else
  let! d := load (T:=vmr_t) rdst in
  let! s := load (T:=vmr_t) rsrc in
  if negb (is_null (v_mmap (v_reg d))) && (v_mmap (v_reg d) =? v_mmap (v_reg s)) then ret! (- EINVAL) else
  do! store rdst s in
  do! modify rdst (on_reg (set_refs 0)) in
  do! modify rdst (on_reg (set_vmmap 0)) in
  do! modify rdst (on_reg (set_vpriv 0)) in
  do! modify rdst (fun v => set_vnext 0 (set_vprev 0 v)) in
  ret! 0.

(** ** Searching the list *)

(** The first region, from [tmp] along [next], that [test] accepts, or 0. *)
Fixpoint vmr_search (fuel : nat) (step : vmr_t -> Z) (test : Z -> vmr_t -> bool) (tmp : Z) : K Z :=
  match fuel with
  | O => M_diverge
  | S fuel =>
      if is_null tmp then ret! 0 else
      let! v := load (T:=vmr_t) tmp in
      if test tmp v then ret! tmp else vmr_search fuel step test (step v)
  end.

Definition mmap_contains (mmap r : Z) : K Z :=
  if is_null mmap || is_null r then ret! (- EINVAL) else
  do! mmap_assert_locked mmap in
  let! s := load (T:=mmap_t) mmap in
  let! fuel := vmr_fuel in
  let! tmp := vmr_search fuel v_next (fun tmp _ => tmp =? r) (vmr_head s) in
  ret! (if is_null tmp then 0 else 1).

Definition mmap_find (mmap addr : Z) : K Z :=
  if is_null mmap then ret! 0 else
  do! mmap_assert_locked mmap in
  let! s := load (T:=mmap_t) mmap in
  let! fuel := vmr_fuel in
  vmr_search fuel v_next
    (fun _ v => (v_start (v_reg v) <=? addr) && (addr <=? v_end (v_reg v))) (vmr_head s).

Definition mmap_find_stack (mmap addr : Z) (pvp : bool) : K (Z * option Z) :=
  if is_null mmap || negb pvp then ret! (- EINVAL, None) else
  let! stack := mmap_find mmap addr in
  if is_null stack then ret! (- EFAULT, None) else
  let! v := load (T:=vmr_t) stack in
  if negb (vmr_isstack (v_reg v)) then ret! (- EFAULT, None) else ret! (0, Some stack).

Definition mmap_find_exact (mmap start end_ : Z) : K Z :=
  if is_null mmap then ret! 0 else
  do! mmap_assert_locked mmap in
  let! vmr := mmap_find mmap start in
  if is_null vmr then ret! 0 else
  let! v := load (T:=vmr_t) vmr in
  if negb (start =? v_start (v_reg v)) || negb (end_ =? v_end (v_reg v)) then ret! 0 else ret! vmr.

(** The region that holds [addr] (or 0), and the one that [*pnext] receives. *)
Definition mmap_find_vmr_next (mmap addr : Z) : K (Z * Z) :=
  if is_null mmap then ret! (0, 0) else
  do! mmap_assert_locked mmap in
  let! r := mmap_find mmap addr in
  if negb (is_null r) then let! v := load (T:=vmr_t) r in ret! (r, v_next v) else
  let! s := load (T:=mmap_t) mmap in
  let! fuel := vmr_fuel in
  let! tmp := vmr_search fuel v_next (fun _ v => addr <? v_start (v_reg v)) (vmr_head s) in
  ret! (0, tmp).

Definition mmap_find_vmr_prev (mmap addr : Z) : K (Z * Z) :=
  if is_null mmap then ret! (0, 0) else
  do! mmap_assert_locked mmap in
  let! r := mmap_find mmap addr in
  if negb (is_null r) then let! v := load (T:=vmr_t) r in ret! (r, v_prev v) else
  let! s := load (T:=mmap_t) mmap in
  let! fuel := vmr_fuel in
  let! tmp := vmr_search fuel v_prev (fun _ v => v_end (v_reg v) <? addr) (vmr_tail s) in
  ret! (0, tmp).

Definition mmap_find_vmr_overlap (mmap start end_ : Z) : K Z :=
  if is_null mmap then ret! 0 else
  do! mmap_assert_locked mmap in
  let! r := mmap_find mmap start in
  if is_null r then ret! 0 else
  let! v := load (T:=vmr_t) r in
  if end_ <=? v_end (v_reg v) then ret! r else ret! 0.

(** The error code, and what [*plen] holds afterwards. *)
Definition mmap_getholesize (mmap addr : Z) : K (Z * Z) :=
  if is_null mmap then ret! (- EINVAL, 0) else
  do! mmap_assert_locked mmap in
  let! s := load (T:=mmap_t) mmap in
  if mm_limit s <? addr then ret! (- EINVAL, 0) else
  let! r := mmap_find mmap addr in
  if negb (is_null r) then ret! (- EINVAL, 0) else
  let! rn := mmap_find_vmr_next mmap addr in
  let! s := load (T:=mmap_t) mmap in
  if is_null rn.2 then ret! (0, u64 (mm_limit s + 1 - addr)) else
  let! v := load (T:=vmr_t) rn.2 in ret! (0, u64 (v_start (v_reg v) - addr)).

(** ** Finding room *)
Definition whence_start : Z := 0.
Definition whence_end : Z := 1.

(** The gaps after [tmp] and its successors: the first of at least [size] bytes.
    [fst]: whether one was found; [snd]: its address. *)
Fixpoint hole_forward (fuel : nat) (mmap size tmp : Z) : K (option Z) :=
  match fuel with
  | O => M_diverge
  | S fuel =>
      if is_null tmp then ret! None else
      let! v := load (T:=vmr_t) tmp in
      let up := vmr_upper_bound (v_reg v) in
      let! holesz :=
        (if negb (is_null (v_next v))
         then let! n := load (T:=vmr_t) (v_next v) in ret! (u64 (v_start (v_reg n) - up))
         else let! h := mmap_getholesize mmap up in ret! h.2) in
      if size <=? holesz then ret! (Some up) else hole_forward fuel mmap size (v_next v)
  end.

(** The gaps before [tmp] and its predecessors; [edge]: also the one before the
    first region, which only [mmap_find_hole] looks at. *)
Fixpoint hole_backward (fuel : nat) (edge : bool) (size tmp : Z) : K (option Z) :=
  match fuel with
  | O => M_diverge
  | S fuel =>
      if is_null tmp then ret! None else
      let! v := load (T:=vmr_t) tmp in
      let start := v_start (v_reg v) in
      let! holesz :=
        (if negb (is_null (v_prev v))
         then let! p := load (T:=vmr_t) (v_prev v) in ret! (Some (u64 (start - vmr_upper_bound (v_reg p))))
         else if edge && (0 <? vmr_lower_bound (v_reg v)) then ret! (Some start) else ret! None) in
      match holesz with
      | Some h => if size <=? h then ret! (Some (u64 (start - size))) else hole_backward fuel edge size (v_prev v)
      | None => hole_backward fuel edge size (v_prev v)
      end
  end.

(** [pp]: whether [paddr] is not NULL. *)
Definition mmap_find_hole (mmap size : Z) (pp : bool) (whence : Z) : K (Z * Z) :=
  if is_null mmap || negb pp || (size =? 0) then ret! (- EINVAL, 0) else
  do! mmap_assert_locked mmap in
  let! s := load (T:=mmap_t) mmap in
  let! fuel := vmr_fuel in
  let! found :=
    (if whence =? whence_start then
       let! h := mmap_getholesize mmap 0 in
       if size <=? h.2 then ret! (Some 0) else hole_forward fuel mmap size (vmr_head s)
     else if whence =? whence_end then
       let top := u64 (mm_limit s + 1 - size) in
       let! h := mmap_getholesize mmap top in
       if size <=? h.2 then ret! (Some top) else hole_backward fuel true size (vmr_tail s)
     else ret! None) in
  match found with
  | Some a => ret! (0, a)
  | None => ret! (- ENOMEM, 0)
  end.

(** The gap just before [near], looked at first when searching upwards. *)
Definition hole_before (size near : Z) : K (option Z) :=
  if is_null near then ret! None else
  let! v := load (T:=vmr_t) near in
  if is_null (v_prev v) then ret! None else
  let! p := load (T:=vmr_t) (v_prev v) in
  if size <=? u64 (v_start (v_reg v) - vmr_upper_bound (v_reg p))
  then ret! (Some (vmr_upper_bound (v_reg p))) else ret! None.

(** The gap just after [near], or at the very end of the address space, looked at
    first when searching downwards. *)
Definition hole_after (mmap size near : Z) : K (option Z) :=
  let! s := load (T:=mmap_t) mmap in
  if is_null near then
    let top := u64 (mm_limit s + 1 - size) in
    let! h := mmap_getholesize mmap top in
    if size <=? h.2 then ret! (Some top) else ret! None
  else
    let! v := load (T:=vmr_t) near in
    let up := vmr_upper_bound (v_reg v) in
    if negb (is_null (v_next v)) then
      let! n := load (T:=vmr_t) (v_next v) in
      if size <=? u64 (v_start (v_reg n) - up) then ret! (Some (u64 (v_start (v_reg n) - size))) else ret! None
    else
      let! h := mmap_getholesize mmap up in
      if size <=? h.2 then ret! (Some (u64 (up + h.2 - size))) else ret! None.

Definition mmap_find_holeat (mmap addr size : Z) (pp : bool) (whence : Z) : K (Z * Z) :=
  if is_null mmap || negb pp || (size =? 0) then ret! (- EINVAL, 0) else
  do! mmap_assert_locked mmap in
  let! near :=
    (if addr =? 0 then ret! 0 else
     if whence =? whence_start then let! r := mmap_find_vmr_next mmap addr in ret! r.2
     else if whence =? whence_end then let! r := mmap_find_vmr_prev mmap addr in ret! r.2
     else ret! 0) in
  let! s := load (T:=mmap_t) mmap in
  let! fuel := vmr_fuel in
  let! found :=
    (if whence =? whence_start then
       let! h := mmap_getholesize mmap addr in
       if size <=? h.2 then ret! (Some addr) else
       let near := if is_null near then vmr_head s else near in
       let! b := hole_before size near in
       match b with
       | Some a => ret! (Some a)
       | None => hole_forward fuel mmap size near
       end
     else if whence =? whence_end then
       let near := if is_null near then vmr_tail s else near in
       let! b := hole_after mmap size near in
       match b with
       | Some a => ret! (Some a)
       | None => hole_backward fuel false size near
       end
     else ret! None) in
  match found with
  | Some a => ret! (0, a)
  | None => mmap_find_hole mmap size pp whence
  end.

(** ** Putting a region in *)

(** [while (addr <= __vmr_end(r))]: no region may lie between [addr] and [last]. *)
Fixpoint mapin_check (fuel : nat) (mm addr last : Z) : K Z :=
  match fuel with
  | O => M_diverge
  | S fuel =>
      if negb (addr <=? last) then ret! 0 else
      let! f := mmap_find mm addr in
      if negb (is_null f) then ret! (- EEXIST) else
      let! h := mmap_getholesize mm addr in
      if negb (h.1 =? 0) then ret! h.1 else
      do! M_assert (negb (h.2 =? 0)) in
      mapin_check fuel mm (u64 (addr + h.2)) last
  end.

(** [r->mmap = mm; mm->refs++; mm->used_space += __vmr_size(r)] *)
Definition mapin_account (mm r : Z) : K unit :=
  do! modify r (on_reg (set_vmmap mm)) in
  let! v := load (T:=vmr_t) r in
  modify mm (add_space 1 (vmr_size (v_reg v))).

(** Linking [r] before [node].  When [node] is the first region the code advances
    its own pointer ([node++]) before it writes [node->prev]. *)
Definition mapin_before (mm r node : Z) : K unit :=
  let! n := load (T:=vmr_t) node in
  do! modify r (set_vnext node) in
  do! modify r (set_vprev (v_prev n)) in
  let! node :=
    (if negb (is_null (v_prev n)) then
       do! modify (v_prev n) (set_vnext r) in
       do! modify r (on_reg (add_refs 1)) in ret! node
     else
       do! modify mm (set_vmr_head r) in
       do! modify r (on_reg (add_refs 1)) in ret! (u64 (node + sizeof_vmr))) in
  do! modify node (set_vprev r) in
  do! modify r (on_reg (add_refs 1)) in
  mapin_account mm r.

(** Whether a place was found before some region. *)
Fixpoint mapin_loop (fuel : nat) (mm r node : Z) : K bool :=
  match fuel with
  | O => M_diverge
  | S fuel =>
      if is_null node then ret! false else
      let! v := load (T:=vmr_t) r in
      let! n := load (T:=vmr_t) node in
      if v_start (v_reg v) <? v_start (v_reg n) then do! mapin_before mm r node in ret! true
      else mapin_loop fuel mm r (v_next n)
  end.

Definition mapin_last (mm r : Z) : K unit :=
  do! modify r (set_vnext 0) in
  let! s := load (T:=mmap_t) mm in
  do! modify r (set_vprev (vmr_tail s)) in
  do! (if negb (is_null (vmr_tail s)) then
         do! modify (vmr_tail s) (set_vnext r) in
         do! modify r (on_reg (add_refs 1)) in
         modify mm (set_vmr_tail (u64 (vmr_tail s + sizeof_vmr)))
       else
         do! modify mm (set_vmr_head r) in
         modify r (on_reg (add_refs 1))) in
  do! modify mm (set_vmr_tail r) in
  do! modify r (on_reg (add_refs 1)) in
  mapin_account mm r.

Definition mmap_mapin (mm r : Z) : K Z :=
  if is_null mm || is_null r then ret! (- EINVAL) else
  do! M_assert (VMA_BASE <? r) in
  let! c := mmap_contains mm r in
  if negb (c =? 0) then ret! (- EEXIST) else
  let! v := load (T:=vmr_t) r in
  if (vmr_size (v_reg v) =? 0) || (mmap_limit <? v_end (v_reg v)) then ret! (- EINVAL) else
  let! fuel := vmr_fuel in
  let! err := mapin_check (S fuel) mm (v_start (v_reg v)) (v_end (v_reg v)) in
  if negb (err =? 0) then ret! err else
  let! s := load (T:=mmap_t) mm in
  if is_null (vmr_head s) then
    do! modify r (on_reg (add_refs 2)) in
    do! modify mm (fun s => set_vmr_head r (set_vmr_tail r s)) in
    do! mapin_account mm r in
    ret! 0
  else
    let! ins := mapin_loop fuel mm r (vmr_head s) in
    if ins then ret! 0 else
    do! mapin_last mm r in
    ret! 0.

(** ** Taking a region out *)
Definition mmap_unlink (mmap r : Z) : K unit :=
  let! v := load (T:=vmr_t) r in
  do! M_when (negb (is_null (v_prev v)))
    (do! modify (v_prev v) (set_vnext (v_next v)) in modify r (on_reg (add_refs (-1)))) in
  do! M_when (negb (is_null (v_next v)))
    (do! modify (v_next v) (set_vprev (v_prev v)) in modify r (on_reg (add_refs (-1)))) in
  let! s := load (T:=mmap_t) mmap in
  do! M_when (vmr_head s =? r)
    (do! modify mmap (set_vmr_head (v_next v)) in
     M_when (negb (is_null (v_next v)))
       (do! modify (v_next v) (set_vprev 0) in
        let! h := load (T:=vmr_t) (v_next v) in
        M_when (is_null (v_next h)) (modify (v_next v) (on_reg (add_refs (-1)))))) in
  let! s := load (T:=mmap_t) mmap in
  M_when (vmr_tail s =? r)
    (do! modify mmap (set_vmr_tail (v_prev v)) in
     M_when (negb (is_null (v_prev v)))
       (do! modify (v_prev v) (set_vnext 0) in
        let! t := load (T:=vmr_t) (v_prev v) in
        M_when (is_null (v_prev t)) (modify (v_prev v) (on_reg (add_refs (-1)))))).

Definition mmap_remove (mmap r : Z) : K Z :=
  if is_null mmap || is_null r then ret! (- EINVAL) else
  do! mmap_assert_locked mmap in
  let! c := mmap_contains mmap r in
  if c =? 0 then ret! (- ENOENT) else
  do! mmap_unlink mmap r in
  do! modify r (on_reg (fun v => set_vmmap 0 (add_refs (-1) v))) in
  do! modify mmap (add_space (-1) 0) in
  let! s := load (T:=mmap_t) mmap in
  do! (if r =? mm_heap s then modify mmap (set_special (mm_arg s) (mm_env s) 0 0)
       else if r =? mm_arg s then modify mmap (set_special 0 (mm_env s) (mm_heap s) (mm_brk s))
       else if r =? mm_env s then modify mmap (set_special (mm_arg s) 0 (mm_heap s) (mm_brk s))
       else ret! tt) in
  do! vmr_free r in
  ret! 0.

(** ** Operations that allocate *)

(** The answers of arch/paging.h: the error codes of [arch_map_n(vaddr, sz, flags)],
    [arch_mprotect(vaddr, sz, flags)] and [arch_lazycpy(dst, src)], and what the
    [n]-th call of [arch_getpgdir] answers: an error code and a page directory. *)
Class Paging := {
  arch_map_n : Z -> Z -> Z -> Z;
  arch_mprotect : Z -> Z -> Z -> Z;
  arch_lazycpy : Z -> Z -> Z;
  arch_getpgdir : nat -> Z * Z
}.

Section Alloc.
Context {KA : KAlloc} {PG : Paging}.

Definition vmr_alloc : K (Z * Z) :=
  let! r := kalloc VMR_ZERO in
  if is_null r then ret! (- ENOMEM, 0) else ret! (0, r).

(** [pvmr]: whether the out-pointer is not NULL.  The code writes [*pvmr = NULL]
    before it tests it. *)
Definition vmr_split (r addr : Z) (pvmr : bool) : K (Z * Z) :=
  let! can := vmr_can_split r addr in
  if is_null r || negb can then ret! (- EINVAL, 0) else
  if negb pvmr then M_fault else
  let! a := vmr_alloc in
  if negb (a.1 =? 0) then ret! (a.1, 0) else
  let new := a.2 in
  let! v := load (T:=vmr_t) r in
  do! modify new (on_reg (set_start addr)) in
  do! modify new (on_reg (set_end (v_end (v_reg v)))) in
  do! modify new (on_reg (set_vfile (v_file (v_reg v))
        (if is_null (v_file (v_reg v)) then 0 else u64 (addr - v_start (v_reg v))))) in
  do! modify new (on_reg (set_flags (v_flags (v_reg v)) (v_vflags (v_reg v)))) in
  do! modify r (on_reg (set_end (u64 (addr - 1)))) in
  let! err := mmap_mapin (v_mmap (v_reg v)) new in
  if negb (err =? 0) then do! vmr_free new in ret! (err, 0) else ret! (0, new).

Definition vmr_clone (src : Z) (pclone : bool) : K (Z * Z) :=
  if is_null src || negb pclone then ret! (- EINVAL, 0) else
  let! a := vmr_alloc in
  if negb (a.1 =? 0) then ret! (a.1, 0) else
  let! err := vmr_copy a.2 src in
  if negb (err =? 0) then do! vmr_free a.2 in ret! (err, 0) else ret! (0, a.2).

(** One round of [while (len)] in [mmap_unmap]: the new [start] and [len], or
    [None] for [break]. *)
Definition unmap_round (mmap start len : Z) : K (option (Z * Z)) :=
  let last := u64 (start + len - 1) in
  let! ex := mmap_find_exact mmap start last in
  if negb (is_null ex) then
    let! _ := mmap_remove mmap ex in
    ret! (Some (u64 (start + u64 (last - start)), u64 (len - u64 (last - start))))
  else
    let! vmr := mmap_find mmap start in
    if negb (is_null vmr) then
      let! v := load (T:=vmr_t) vmr in
      let size := vmr_size (v_reg v) in
      if v_start (v_reg v) =? start then
        if len <? size then
          do! modify vmr (on_reg (set_start (u64 (v_start (v_reg v) + len)))) in
          ret! (Some (start, 0))
        else if size <? len then
          let! _ := mmap_remove mmap vmr in
          ret! (Some (vmr_upper_bound (v_reg v), u64 (len - size)))
        else ret! (Some (start, len))
      else if v_end (v_reg v) =? start then
        do! modify vmr (on_reg (set_end (u64 (v_end (v_reg v) - 1)))) in
        ret! (Some (start, len))
      else
        let! _ := vmr_split vmr start false in
        ret! (Some (start, len))
    else
      let! h := mmap_getholesize mmap start in
      if h.2 =? 0 then ret! None else
      let holesz := if len <? h.2 then len else h.2 in
      ret! (Some (u64 (start + holesz), u64 (len - holesz))).

Fixpoint unmap_loop (fuel : nat) (mmap start len : Z) : K unit :=
  match fuel with
  | O => M_diverge
  | S fuel =>
      if len =? 0 then ret! tt else
      let! next := unmap_round mmap start len in
      match next with
      | None => ret! tt
      | Some sl => unmap_loop fuel mmap sl.1 sl.2
      end
  end.

(** Each region costs at most two rounds, and so does each gap. *)
Definition unmap_fuel : K nat := fun m => Done (S (S (S (S (4 * size (k_vmrs m))))))%nat m.

Definition mmap_unmap (mmap start len : Z) : K Z :=
  let last := u64 (start + len - 1) in
  if is_null mmap || (len =? 0) then ret! (- EINVAL) else
  do! mmap_assert_locked mmap in
  if negb (valid_addr last) then ret! (- EINVAL) else
  let! fuel := unmap_fuel in
  do! unmap_loop fuel mmap start len in
  ret! 0.

Definition mmap_forced_mapin (mmap r : Z) : K Z :=
  if is_null mmap || is_null r then ret! (- EINVAL) else
  do! mmap_assert_locked mmap in
  let! v := load (T:=vmr_t) r in
  let! err := mmap_unmap mmap (v_start (v_reg v)) (vmr_size (v_reg v)) in
  if negb (err =? 0) then ret! err else mmap_mapin mmap r.

(** The flags a new region gets from [prot], [flags] and the address space. *)
Definition region_flags (prot flags : Z) : Z :=
  Z.lor (opt (has prot PROT_EXEC) VM_EXEC)
  (Z.lor (opt (has prot PROT_READ) VM_READ)
  (Z.lor (opt (has prot PROT_WRITE) VM_WRITE)
  (Z.lor (opt (has flags MAP_ZERO) VM_ZERO)
  (Z.lor (opt (has flags MAP_SHARED) VM_SHARED)
  (Z.lor (opt (has flags MAP_STACK) VM_GROWSDOWN)
         (opt (has flags MAP_DONTEXPAND) VM_DONTEXPAND)))))).
Definition region_vflags (vflags mflags : Z) : Z :=
  Z.lor (opt (has vflags VM_READ) PTE_R)
  (Z.lor (opt (has vflags VM_WRITE) PTE_W)
  (Z.lor (opt (has vflags VM_EXEC) PTE_X)
         (opt (has mflags MMAP_USER) PTE_U))).

Definition map_args_bad (addr len prot flags : Z) : bool :=
  (has flags MAP_FIXED && negb (isaligned addr))
  || (has flags MAP_FIXED && negb (valid_addr addr))
  || (has flags MAP_STACK && (negb (isaligned addr) || negb (isaligned len)))
  || ((has flags MAP_PRIVATE && has flags MAP_SHARED)
      || (negb (has flags MAP_PRIVATE) && negb (has flags MAP_SHARED)))
  || (has flags MAP_STACK && negb (has prot PROT_READ && has prot PROT_WRITE)).

Definition mmap_map_region (mmap addr len prot flags : Z) (pvmr : bool) : K (Z * option Z) :=
  if is_null mmap || (negb (has flags MAP_FIXED) && negb pvmr) || (len =? 0) then ret! (- EINVAL, None) else
  do! mmap_assert_locked mmap in
  if map_args_bad addr len prot flags then ret! (- EINVAL, None) else
  let! s := load (T:=mmap_t) mmap in
  let len := if has flags MAP_STACK then u64 (len + mm_guard s) else len in
  let whence := if has flags MAP_STACK then whence_end else whence_start in
  let! at_ := (if has flags MAP_FIXED then ret! (0, addr)
               else mmap_find_holeat mmap addr len true whence) in
  if negb (at_.1 =? 0) then ret! (at_.1, None) else
  let addr := at_.2 in
  let! a := vmr_alloc in
  if negb (a.1 =? 0) then ret! (a.1, None) else
  let r := a.2 in
  do! modify r (on_reg (set_start addr)) in
  do! modify r (on_reg (set_end (u64 (u64 (addr + len) - 1)))) in
  do! modify r (on_reg (fun v => let f := Z.lor (v_flags v) (region_flags prot flags) in
         set_flags f (Z.lor (v_vflags v) (region_vflags f (mm_flags s))) v)) in
  let! err := (if has flags MAP_FIXED then mmap_forced_mapin mmap r else mmap_mapin mmap r) in
  if negb (err =? 0) then do! vmr_free r in ret! (err, None)
  else ret! (0, if pvmr then Some r else None).

Definition mmap_alloc_vmr (mmap size prot flags : Z) (pvmr : bool) : K (Z * option Z) :=
  if is_null mmap || negb pvmr then ret! (- EINVAL, None) else
  do! mmap_assert_locked mmap in
  if has flags MAP_FIXED then ret! (- EINVAL, None) else
  mmap_map_region mmap 0 size prot flags pvmr.

Definition mmap_alloc_mapped_vmr (mmap addr len prot flags : Z) (pvmr : bool) : K (Z * option Z) :=
  if is_null mmap || negb pvmr then ret! (- EINVAL, None) else
  do! mmap_assert_locked mmap in
  if has flags MAP_FIXED then ret! (- EINVAL, None) else
  let! r := mmap_map_region mmap addr len prot flags true in
  match r with
  | (0, Some vmr) =>
      let! v := load (T:=vmr_t) vmr in
      let err := arch_map_n (v_start (v_reg v)) len (v_vflags (v_reg v)) in
      if negb (err =? 0) then let! _ := mmap_remove mmap vmr in ret! (err, None)
      else ret! (0, Some vmr)
  | (err, _) => ret! (err, None)
  end.

Definition mmap_alloc_stack (mmap size : Z) (pstack : bool) : K (Z * option Z) :=
  if is_null mmap || negb pstack then ret! (- EINVAL, None) else
  do! mmap_assert_locked mmap in
  mmap_map_region mmap 0 size (Z.lor PROT_READ PROT_WRITE) (Z.lor MAP_STACK MAP_PRIVATE) pstack.

(** [incr] is an [isize]. *)
Definition mmap_vmr_expand (mmap r incr : Z) : K Z :=
  if is_null mmap || is_null r then ret! (- EINVAL) else
  if incr =? 0 then ret! 0 else
  do! mmap_assert_locked mmap in
  let! v := load (T:=vmr_t) r in
  if vmr_dontexpand (v_reg v) then ret! (- EINVAL) else
  let oldsz := s64 (vmr_size (v_reg v)) in
  let newsz := s64 (oldsz + incr) in
  let shrink := u64 (u64 oldsz - u64 newsz) in
  if negb (vmr_growsdown (v_reg v)) then
    if oldsz <? newsz then
      let! h := mmap_getholesize mmap (vmr_upper_bound (v_reg v)) in
      if negb (h.1 =? 0) then ret! h.1 else
      if u64 incr <=? h.2 then
        do! modify r (on_reg (set_end (u64 (u64 (v_start (v_reg v) + u64 newsz) - 1)))) in ret! 0
      else ret! (- ENOMEM)
    else if newsz <? 0 then ret! (- EINVAL)
    else if newsz =? 0 then mmap_remove mmap r
    else do! modify r (on_reg (set_end (u64 (v_end (v_reg v) - shrink)))) in ret! 0
  else
    if oldsz <? newsz then
      let hole_addr := u64 (v_start (v_reg v) - incr) in
      let! h := mmap_getholesize mmap hole_addr in
      if negb (h.1 =? 0) then ret! h.1 else
      if u64 incr <=? h.2 then do! modify r (on_reg (set_start hole_addr)) in ret! 0
      else ret! (- ENOMEM)
    else if newsz <? 0 then ret! (- EINVAL)
    else if newsz =? 0 then mmap_remove mmap r
    else do! modify r (on_reg (set_start (u64 (v_start (v_reg v) + shrink)))) in ret! 0.

Definition prot_of (flags : Z) : Z :=
  Z.lor (opt (has flags VM_READ) PROT_READ)
  (Z.lor (opt (has flags VM_WRITE) PROT_WRITE) (opt (has flags VM_EXEC) PROT_EXEC)).
Definition flags_of (prot : Z) : Z :=
  Z.lor (opt (has prot PROT_READ) VM_READ)
  (Z.lor (opt (has prot PROT_WRITE) VM_WRITE) (opt (has prot PROT_EXEC) VM_EXEC)).

(** The splitting of [r] in [mmap_protect] so that it covers [addr .. last] only:
    0, or the error that ends the call. *)
Definition protect_split (mmap r addr last : Z) : K Z :=
  let! v := load (T:=vmr_t) r in
  let! a := vmr_alloc in
  if negb (a.1 =? 0) then ret! a.1 else
  let split0 := a.2 in
  do! store split0 (mkVmr (set_refs 0 (v_reg v)) 0 0) in
  if v_start (v_reg v) =? addr then
    do! modify r (on_reg (set_end last)) in
    do! modify split0 (on_reg (set_start (u64 (last + 1)))) in
    let! err := mmap_mapin mmap split0 in
    if negb (err =? 0) then
      do! modify r (on_reg (set_end (v_end (v_reg v)))) in
      do! vmr_free split0 in ret! err
    else ret! 0
  else if v_end (v_reg v) =? last then
    do! modify r (on_reg (set_start addr)) in
    do! modify split0 (on_reg (set_end (u64 (addr - 1)))) in
    let! err := mmap_mapin mmap split0 in
    if negb (err =? 0) then
      do! modify r (on_reg (set_start (v_start (v_reg v)))) in
      do! vmr_free split0 in ret! err
    else ret! 0
  else
    let! a := vmr_alloc in
    if negb (a.1 =? 0) then do! vmr_free split0 in ret! a.1 else
    let split1 := a.2 in
    do! store split1 (mkVmr (v_reg v) 0 0) in
    do! modify r (on_reg (set_start addr)) in
    do! modify split0 (on_reg (set_end (u64 (addr - 1)))) in
    do! modify r (on_reg (set_end last)) in
    do! modify split1 (on_reg (set_start (u64 (last + 1)))) in
    let! err := mmap_mapin mmap split0 in
    if negb (err =? 0) then
      do! store r v in
      do! vmr_free split0 in do! vmr_free split1 in ret! err
    else
      let! err := mmap_mapin mmap split1 in
      if negb (err =? 0) then
        do! store r v in
        let! _ := mmap_remove mmap split0 in
        do! vmr_free split0 in do! vmr_free split1 in ret! err
      else ret! 0.

Definition mmap_protect (mmap addr len prot : Z) : K Z :=
  let last := u64 (addr + len - 1) in
  if is_null mmap || (len =? 0) then ret! (- EINVAL) else
  do! mmap_assert_locked mmap in
  if negb (isaligned addr) || negb (isaligned len) then ret! (- EINVAL) else
  if negb (valid_addr addr) then ret! (- ENOMEM) else
  let! r := mmap_find_vmr_overlap mmap addr last in
  if is_null r then ret! (- ENOMEM) else
  let! v := load (T:=vmr_t) r in
  if vmr_isstack (v_reg v) then ret! (- EACCES) else
  let old := prot_of (v_flags (v_reg v)) in
  if old =? prot then ret! 0 else
  if (has prot PROT_WRITE && has prot PROT_EXEC)
     || (has prot PROT_WRITE && has old PROT_EXEC)
     || (has prot PROT_EXEC && has old PROT_WRITE) then ret! (- EACCES) else
  let! err := (if len <? vmr_size (v_reg v) then protect_split mmap r addr last else ret! 0) in
  if negb (err =? 0) then ret! err else
  let! s := load (T:=mmap_t) mmap in
  do! modify r (on_reg (set_flags (flags_of prot) (region_vflags (flags_of prot) (mm_flags s)))) in
  let! v := load (T:=vmr_t) r in
  ret! (arch_mprotect (v_start (v_reg v)) (vmr_size (v_reg v)) (v_vflags (v_reg v))).

(** ** Whole address spaces *)

(** The switch to the page directory of [mmap] and back around the unmapping is
    left out with the page tables. *)
Definition mmap_clean (mmap : Z) : K Z :=
  if is_null mmap then ret! (- EINVAL) else
  do! mmap_assert_locked mmap in
  let! s := load (T:=mmap_t) mmap in
  let! err := mmap_unmap mmap 0 (u64 (mm_limit s + 1)) in
  if negb (err =? 0) then ret! err else
  do! modify mmap (fun s => mkMmap MMAP_USER 0 0 0 0 0 0 (mm_pgdir s) mmap_limit PAGESZ 0 0 0
        (mm_entry s) (mm_lock s)) in
  ret! 0.

Definition mmap_init (mmap : Z) : K Z :=
  if is_null mmap then ret! (- EINVAL) else
  do! mmap_assert_locked mmap in
  let! err := mmap_clean mmap in
  if negb (err =? 0) then ret! err else
  let! r := mmap_map_region mmap 0 16777216 0
              (Z.lor MAP_FIXED (Z.lor MAP_PRIVATE MAP_DONTEXPAND)) false in
  ret! r.1.

Definition mmap_alloc (ref : bool) : K (Z * option Z) :=
  if negb ref then ret! (- EINVAL, None) else
  let! m := M_get in
  let pg := arch_getpgdir (k_tick m) in
  if negb (pg.1 =? 0) then ret! (pg.1, None) else
  let! mmap := kalloc (mkMmap 0 0 0 0 0 0 0 0 0 0 0 0 0 0 SPINLOCK_INIT) in
  if is_null mmap then ret! (- ENOMEM, None) else
  do! store mmap (mkMmap MMAP_USER 0 0 0 0 0 0 pg.2 mmap_limit PAGESZ 0 0 0 0 SPINLOCK_INIT) in
  do! mmap_lock mmap in
  let! err := mmap_init mmap in
  if negb (err =? 0) then do! mmap_unlock mmap in do! kfree (T:=mmap_t) mmap in ret! (err, None)
  else ret! (0, Some mmap).

Definition mmap_free (mmap : Z) : K unit :=
  if is_null mmap then ret! tt else
  let! _ := mmap_recursive_lock mmap in
  let! _ := mmap_clean mmap in
  let! s := load (T:=mmap_t) mmap in
  if mm_refs s <=? 0 then do! mmap_unlock mmap in kfree (T:=mmap_t) mmap
  else mmap_unlock mmap.

Fixpoint mmap_copy_loop (fuel : nat) (dst tmp : Z) : K Z :=
  match fuel with
  | O => M_diverge
  | S fuel =>
      if is_null tmp then ret! 0 else
      let! c := vmr_clone tmp true in
      if negb (c.1 =? 0) then ret! c.1 else
      let! err := mmap_mapin dst c.2 in
      if negb (err =? 0) then do! vmr_free c.2 in ret! err else
      let! v := load (T:=vmr_t) tmp in
      mmap_copy_loop fuel dst (v_next v)
  end.

(** [src->x ? mmap_find(dst, src->x->start) : NULL] *)
Definition find_copy (dst x : Z) : K Z :=
  if is_null x then ret! 0 else
  let! v := load (T:=vmr_t) x in mmap_find dst (v_start (v_reg v)).

Definition mmap_copy (dst src : Z) : K Z :=
  if is_null dst || is_null src then ret! (- EINVAL) else
  do! mmap_assert_locked src in
  do! mmap_assert_locked dst in
  let! s := load (T:=mmap_t) src in
  do! modify dst (fun d => mkMmap (mm_flags s) 0 0 0 0 0 (mm_brk d) (mm_pgdir d) (mm_limit s)
        (mm_guard s) 0 0 0 (mm_entry d) (mm_lock d)) in
  let! fuel := vmr_fuel in
  let! s := load (T:=mmap_t) src in
  let! err := mmap_copy_loop fuel dst (vmr_head s) in
  if negb (err =? 0) then ret! err else
  let! s := load (T:=mmap_t) src in
  let! arg := find_copy dst (mm_arg s) in
  let! env := find_copy dst (mm_env s) in
  let! heap := find_copy dst (mm_heap s) in
  do! modify dst (fun d => set_special arg env heap (mm_brk d) d) in
  let! d := load (T:=mmap_t) dst in
  let err := arch_lazycpy (mm_pgdir d) (mm_pgdir s) in
  ret! err.

Definition mmap_clone (mmap : Z) (pclone : bool) : K (Z * option Z) :=
  if is_null mmap || negb pclone then ret! (- EINVAL, None) else
  do! mmap_assert_locked mmap in
  let! a := mmap_alloc true in
  match a with
  | (0, Some clone) =>
      do! mmap_lock clone in
      let! err := mmap_copy clone mmap in
      if negb (err =? 0) then do! mmap_free clone in ret! (err, None) else
      do! mmap_unlock clone in
      ret! (0, Some clone)
  | (err, _) => ret! (err, None)
  end.
End Alloc.

Definition mmap_set_focus (mmap : Z) : K Z :=
  if is_null mmap then ret! (- EINVAL) else
  do! mmap_assert_locked mmap in
  let! s := load (T:=mmap_t) mmap in
  if mm_pgdir s =? 0 then ret! (- EINVAL) else ret! 0.
