(* ===== verification/MmapFacts.v ===== *)
(** * Correctness of the address space operations: regions and holes

    The regions of an address space as a sorted list of disjoint ranges, and what
    the searches of mm/mmap.c compute on it. *)
From S2P Require Import Prelude Errno Spinlock KMem Queue Dll Mmap.

Notation vmrs m := (h_get (T:=vmr_t) m) (only parsing).
Notation mmaps m := (h_get (T:=mmap_t) m) (only parsing).

Implicit Types (l : list (Z * vreg)) (r : vreg).

(** ** Region lists in memory *)
Fixpoint vseg (h : gmap Z vmr_t) (pv : Z) l (nx : Z) : Prop :=
  match l with
  | [] => True
  | (p, r) :: l => h !! p = Some (mkVmr r pv (hd_addr l nx)) /\ vseg h p l nx
  end.

Lemma vseg_app h pv l1 l2 nx :
  vseg h pv (l1 ++ l2) nx <-> vseg h pv l1 (hd_addr l2 nx) /\ vseg h (last_addr l1 pv) l2 nx.
Proof.
  revert pv. induction l1 as [|[p r] l1 IH]; intros pv; simpl; [naive_solver|].
  rewrite IH, hd_addr_app. naive_solver.
Qed.

Lemma vseg_ext h h' pv l nx :
  (forall p, p ∈ addrs l -> h' !! p = h !! p) -> vseg h pv l nx -> vseg h' pv l nx.
Proof.
  revert pv. induction l as [|[p r] l IH]; intros pv Hext; simpl; [done|].
  setoid_rewrite elem_of_addrs_cons in Hext. intros [Hp Hl]. split; [rewrite Hext; auto|]. apply IH; auto.
Qed.

Lemma vseg_insert h pv l nx p x : p ∉ addrs l -> vseg h pv l nx -> vseg (<[p := x]> h) pv l nx.
Proof. intros Hp. apply vseg_ext. intros q Hq. apply lookup_insert_ne. by intros ->. Qed.

Lemma vseg_lookup h pv l nx p : vseg h pv l nx -> p ∈ addrs l -> is_Some (h !! p).
Proof.
  revert pv. induction l as [|[q r] l IH]; intros pv; simpl; [intros _ []%not_elem_of_addrs_nil|].
  intros [Hq Hl] [->|Hp]%elem_of_addrs_cons; [eauto|]. by apply (IH q).
Qed.

Lemma vseg_length h pv l nx : vseg h pv l nx -> dll_ok l -> (length l <= size h)%nat.
Proof.
  intros Hs [Hn _]. assert (length (addrs l) <= size h)%nat as H.
  { rewrite <- size_dom, <- (size_list_to_set (C:=gset Z) (addrs l)) by done. apply subseteq_size.
    intros p Hp%elem_of_list_to_set. apply elem_of_dom. by eapply vseg_lookup. }
  unfold addrs in H. by rewrite length_fmap in H.
Qed.

Lemma vseg_mid h pv l1 p r l2 nx :
  vseg h pv (l1 ++ (p, r) :: l2) nx ->
  h !! p = Some (mkVmr r (last_addr l1 pv) (hd_addr l2 nx)).
Proof. rewrite vseg_app. simpl. naive_solver. Qed.

(** ** Sorted lists of disjoint ranges *)
Fixpoint ranges_from (lo lim : Z) l : Prop :=
  match l with
  | [] => True
  | (_, r) :: l => lo <= v_start r <= v_end r /\ v_end r <= lim /\ ranges_from (v_end r + 1) lim l
  end.

(** Every address of the address space is below this, so bounds do not wrap. *)
Lemma mmap_limit_small : mmap_limit + 1 < two64.
Proof. reflexivity. Qed.

Record mmap_rep (m : kmem) (mm : Z) (s : mmap_t) l : Prop := {
  mr_null : mm <> 0;
  mr_obj : mmaps m !! mm = Some s;
  mr_head : vmr_head s = hd_addr l 0;
  mr_tail : vmr_tail s = last_addr l 0;
  mr_limit : mm_limit s = mmap_limit;
  mr_seg : vseg (vmrs m) 0 l 0;
  mr_ok : dll_ok l;
  mr_ranges : ranges_from 0 mmap_limit l
}.
Definition mmap_own (m : kmem) (mm : Z) (s : mmap_t) l : Prop :=
  mmap_rep m mm s l /\ holding (k_who m) (mm_lock s) = true.

Lemma ranges_from_app lo lim l1 l2 :
  ranges_from lo lim (l1 ++ l2) ->
  ranges_from lo lim l1 /\
  ranges_from (match last l1 with Some (_, r) => v_end r + 1 | None => lo end) lim l2.
Proof.
  revert lo. induction l1 as [|[p r] l1 IH]; intros lo; simpl; [done|]. intros (Hr & Hl & H).
  apply IH in H as [H1 H2]. split; [tauto|]. destruct l1 as [|[q r'] l1]; [done|].
  change (last ((p, r) :: (q, r') :: l1)) with (last ((q, r') :: l1)).
  destruct (last ((q, r') :: l1)) as [[q' r'']|] eqn:E; [done|]. by apply last_None in E.
Qed.

Lemma ranges_from_elem lo lim l p r :
  ranges_from lo lim l -> (p, r) ∈ l -> lo <= v_start r <= v_end r /\ v_end r <= lim.
Proof.
  revert lo. induction l as [|[q r'] l IH]; intros lo; simpl; [by intros _ ?%not_elem_of_nil|].
  intros (Hr & Hl & H) [[= -> ->]|Hin]%elem_of_cons; [done|]. specialize (IH _ H Hin). lia.
Qed.

(** ** Searches as functions on the list *)
Fixpoint first_at (t : Z -> vreg -> bool) l : Z :=
  match l with
  | [] => 0
  | (p, r) :: l => if t p r then p else first_at t l
  end.

Definition covers (a : Z) (_ : Z) r : bool := (v_start r <=? a) && (a <=? v_end r).
Definition covered (a : Z) l : bool := existsb (fun x => covers a x.1 x.2) l.

Lemma vmr_search_eq m pv l fuel (t : Z -> vreg -> bool) (test : Z -> vmr_t -> bool) :
  vseg (vmrs m) pv l 0 -> dll_ok l -> (length l < fuel)%nat -> (forall p v, test p v = t p (v_reg v)) ->
  vmr_search fuel v_next test (hd_addr l 0) m = Done (first_at t l) m.
Proof.
  intros Hs Hok Hf Ht. revert pv fuel Hs Hok Hf.
  induction l as [|[p r] l IH]; intros pv [|fuel] Hs Hok Hf; simpl in Hf; try lia; [done|]. simpl.
  destruct Hs as [Hp Hs]. apply dll_ok_cons in Hok as ([? _] & _ & Hok). simpl in *.
  unfold is_null. rewrite (proj2 (Z.eqb_neq p 0)) by lia. unfold M_bind, load. rewrite Hp, Ht. simpl.
  destruct (t p r); [done|]. eapply IH; [done..|lia].
Qed.

(** The same walk backwards from the tail. *)
Fixpoint last_at (t : Z -> vreg -> bool) l : Z :=
  match l with
  | [] => 0
  | (p, r) :: l => if last_at t l =? 0 then (if t p r then p else 0) else last_at t l
  end.

Lemma last_at_snoc t l p r :
  p <> 0 -> last_at t (l ++ [(p, r)]) = if t p r then p else last_at t l.
Proof.
  intros Hp. induction l as [|[q r'] l IH]; simpl; [done|]. rewrite IH.
  destruct (t p r); [|done]. by rewrite (proj2 (Z.eqb_neq p 0)).
Qed.

Lemma vmr_search_back_eq m l nx fuel (t : Z -> vreg -> bool) (test : Z -> vmr_t -> bool) :
  vseg (vmrs m) 0 l nx -> dll_ok l -> (length l < fuel)%nat -> (forall p v, test p v = t p (v_reg v)) ->
  vmr_search fuel v_prev test (last_addr l 0) m = Done (last_at t l) m.
Proof.
  intros Hs Hok Hf Ht. revert nx fuel Hs Hok Hf.
  induction l as [|[p r] l IH] using rev_ind; intros nx [|fuel] Hs Hok Hf; try lia; [done|].
  rewrite last_addr_snoc. pose proof (vseg_mid _ _ _ _ _ _ _ Hs) as Hp. apply vseg_app in Hs as [Hs _].
  apply dll_ok_app in Hok as (Hok & [[? _] _]%dll_ok_cons & _). rewrite length_app in Hf. simpl in *.
  unfold is_null. rewrite (proj2 (Z.eqb_neq p 0)) by lia. unfold M_bind, load. rewrite Hp, Ht. simpl.
  rewrite last_at_snoc by lia. destruct (t p r); [done|]. eapply IH; [done..|lia].
Qed.

(** What a forward search finds. *)
Lemma first_at_spec t l :
  dll_ok l ->
  (first_at t l = 0 /\ existsb (fun x => t x.1 x.2) l = false) \/
  (exists l1 p r l2, l = l1 ++ (p, r) :: l2 /\ p <> 0 /\ first_at t l = p /\ t p r = true /\
     existsb (fun x => t x.1 x.2) l1 = false).
Proof.
  induction l as [|[p r] l IH]; [by left|]. intros ([? _] & _ & Hok)%dll_ok_cons. simpl in *.
  destruct (t p r) eqn:E.
  - right. exists [], p, r, l. split_and!; try done. lia.
  - destruct (IH Hok) as [[-> ->]|(l1 & q & r' & l2 & -> & Hq & -> & Ht & Hl1)]; [by left|].
    right. exists ((p, r) :: l1), q, r', l2. split_and!; try done. simpl. by rewrite E.
Qed.

Section Reads.
Context (m : kmem) (mm : Z) (s : mmap_t) (l : list (Z * vreg)).
Hypothesis Hown : mmap_own m mm s l.

Lemma mmap_not_null : is_null mm = false.
Proof. apply Z.eqb_neq, (mr_null _ _ _ _ (proj1 Hown)). Qed.

Lemma mmap_assert_locked_eq : mmap_assert_locked mm m = Done tt m.
Proof.
  destruct Hown as [[H0 Ho _ _ _ _ _ _] Hh].
  pose proof (wp_obj_assert_locked mm s (fun _ m' => m' = m) m) as H.
  specialize (H ltac:(by split_and!) eq_refl). apply wp_done in H as ([] & m' & E & ->). exact E.
Qed.

Lemma mmap_load_eq : load (T:=mmap_t) mm m = Done s m.
Proof. destruct Hown as [[_ Ho _ _ _ _ _ _] _]. unfold load. by rewrite Ho. Qed.

Lemma vmr_load_eq l1 p r l2 :
  l = l1 ++ (p, r) :: l2 -> load (T:=vmr_t) p m = Done (mkVmr r (last_addr l1 0) (hd_addr l2 0)) m.
Proof.
  intros ->. destruct Hown as [[_ _ _ _ _ Hs _ _] _]. unfold load. by rewrite (vseg_mid _ _ _ _ _ _ _ Hs).
Qed.

Lemma vmr_fuel_eq : exists n, vmr_fuel m = Done n m /\ (length l < n)%nat.
Proof.
  destruct Hown as [[_ _ _ _ _ Hs Hok _] _]. eexists. split; [done|].
  apply vseg_length in Hs; [|done]. unfold h_get in Hs. simpl in Hs. lia.
Qed.

Lemma mmap_search_eq (t : Z -> vreg -> bool) (test : Z -> vmr_t -> bool) n :
  (length l < n)%nat -> (forall p v, test p v = t p (v_reg v)) ->
  vmr_search n v_next test (vmr_head s) m = Done (first_at t l) m.
Proof.
  destruct Hown as [[_ _ Hh _ _ Hs Hok _] _]. intros Hn Ht. rewrite Hh. by eapply vmr_search_eq.
Qed.
Lemma mmap_search_back_eq (t : Z -> vreg -> bool) (test : Z -> vmr_t -> bool) n :
  (length l < n)%nat -> (forall p v, test p v = t p (v_reg v)) ->
  vmr_search n v_prev test (vmr_tail s) m = Done (last_at t l) m.
Proof.
  destruct Hown as [[_ _ _ Hh _ Hs Hok _] _]. intros Hn Ht. rewrite Hh. by eapply vmr_search_back_eq.
Qed.

Ltac mm_step H := erewrite M_bind_done by (exact H).
Ltac mm_prologue := rewrite mmap_not_null; simpl; mm_step mmap_assert_locked_eq.

Lemma mmap_contains_eq (r : Z) :
  is_null r = false -> mmap_contains mm r m = Done (if bool_decide (r ∈ addrs l) then 1 else 0) m.
Proof.
  intros Hr. unfold mmap_contains. rewrite Hr. mm_prologue. mm_step mmap_load_eq.
  destruct vmr_fuel_eq as (n & Hn & Hlt). mm_step Hn.
  erewrite M_bind_done by (apply (mmap_search_eq (fun p _ => p =? r)); done).
  unfold M_ret. f_equal. destruct Hown as [[_ _ _ _ _ _ Hok _] _].
  destruct (first_at_spec (fun p _ => p =? r) l Hok) as [[-> He]|(l1 & p & r' & l2 & E & Hp & -> & Hpr & _)].
  - rewrite bool_decide_eq_false_2; [done|]. intros Hin. unfold addrs in Hin.
    apply list_elem_of_fmap in Hin as ([q x] & -> & Hin).
    assert (existsb (fun y => y.1 =? q) l = true); [|simpl in He; congruence].
    apply existsb_exists. exists (q, x). split; [by apply list_elem_of_In|]. apply Z.eqb_refl.
  - apply Z.eqb_eq in Hpr as ->. rewrite Hr, bool_decide_eq_true_2; [done|]. rewrite E.
    apply elem_of_addrs_app. right. apply elem_of_addrs_cons. by left.
Qed.

Lemma mmap_find_eq a : mmap_find mm a m = Done (first_at (covers a) l) m.
Proof.
  unfold mmap_find. mm_prologue. mm_step mmap_load_eq. destruct vmr_fuel_eq as (n & Hn & Hlt). mm_step Hn.
  apply mmap_search_eq; [done|]. done.
Qed.

(** [mmap_find] by cases. *)
Lemma mmap_find_cases a :
  (mmap_find mm a m = Done 0 m /\ covered a l = false) \/
  (exists l1 p r l2, l = l1 ++ (p, r) :: l2 /\ is_null p = false /\ mmap_find mm a m = Done p m /\
     v_start r <= a <= v_end r).
Proof.
  rewrite mmap_find_eq. destruct Hown as [[_ _ _ _ _ _ Hok _] _].
  destruct (first_at_spec (covers a) l Hok) as [[-> He]|(l1 & p & r & l2 & E & Hp & -> & Hc & _)]; [by left|].
  right. exists l1, p, r, l2. split_and!; try done; [by apply Z.eqb_neq|..];
    unfold covers in Hc; apply andb_true_iff in Hc as [?%Z.leb_le ?%Z.leb_le]; done.
Qed.
End Reads.

(** ** Gaps *)

(** The first address after [a] that a region occupies, when [a] is in a gap. *)
Fixpoint gap_end (lim a : Z) l : Z :=
  match l with
  | [] => lim + 1
  | (_, r) :: l => if a <? v_start r then v_start r else gap_end lim a l
  end.
Definition gap_size (lim a : Z) l : Z :=
  if (lim <? a) || covered a l then 0 else gap_end lim a l - a.

Lemma gap_end_bounds lo lim a l :
  ranges_from lo lim l -> a <= lim -> covered a l = false ->
  a < gap_end lim a l <= lim + 1 /\
  (forall p r, (p, r) ∈ l -> v_end r < a \/ gap_end lim a l <= v_start r).
Proof.
  revert lo. induction l as [|[p r] l IH]; intros lo; simpl.
  - intros _ Ha _. split; [lia|]. by intros ? ? ?%not_elem_of_nil.
  - intros (Hr & Hl & H) Ha Hc. apply orb_false_iff in Hc as [Hc1 Hc].
    unfold covers in Hc1. simpl in Hc1. destruct (Z.ltb_spec a (v_start r)).
    + split; [lia|]. intros q r' [[= -> ->]|Hin]%elem_of_cons; [right; lia|].
      pose proof (ranges_from_elem _ _ _ _ _ H Hin). right. lia.
    + destruct (IH _ H Ha Hc) as [Hb Hd]. split; [done|].
      intros q r' [[= -> ->]|Hin]%elem_of_cons; [|eauto]. left.
      destruct (Z.leb_spec (v_start r) a), (Z.leb_spec a (v_end r)); simpl in *; lia || done.
Qed.

Lemma gap_end_first h pv l a :
  vseg h pv l 0 -> dll_ok l ->
  gap_end mmap_limit a l =
    let q := first_at (fun _ r => a <? v_start r) l in
    if q =? 0 then mmap_limit + 1 else match h !! q with Some v => v_start (v_reg v) | None => 0 end.
Proof.
  revert pv. induction l as [|[p r] l IH]; intros pv; simpl; [done|]. intros [Hp Hs] (Ha & _ & Hok)%dll_ok_cons.
  destruct (a <? v_start r); [|by eapply IH]. destruct Ha as [Ha _]. simpl in Ha.
  by rewrite (proj2 (Z.eqb_neq p 0)), Hp by lia.
Qed.

Section Holes.
Context (m : kmem) (mm : Z) (s : mmap_t) (l : list (Z * vreg)).
Hypothesis Hown : mmap_own m mm s l.

Ltac mm_step H := erewrite M_bind_done by (exact H).
Ltac mm_prologue := rewrite (mmap_not_null _ _ _ _ Hown); simpl; mm_step (mmap_assert_locked_eq _ _ _ _ Hown).

Lemma mmap_getholesize_eq a :
  is_u64 a ->
  mmap_getholesize mm a m =
    Done (if (mmap_limit <? a) || covered a l then (- EINVAL, 0) else (0, gap_size mmap_limit a l)) m.
Proof.
  intros Ha. unfold mmap_getholesize. mm_prologue. mm_step (mmap_load_eq _ _ _ _ Hown).
  pose proof Hown as [[_ _ _ _ Hlim Hs Hok Hr] _]. rewrite Hlim.
  destruct (Z.ltb_spec mmap_limit a); [done|]. simpl.
  destruct (mmap_find_cases _ _ _ _ Hown a) as [[E Hc]|(l1 & p & r & l2 & El & Hp & E & Hcov)]; mm_step E; cycle 1.
  { rewrite Hp. simpl. replace (covered a l) with true; [done|]. symmetry. apply existsb_exists.
    exists (p, r). split; [rewrite El; apply in_app_iff; right; by left|]. simpl. unfold covers.
    destruct (Z.leb_spec (v_start r) a), (Z.leb_spec a (v_end r)); lia || done. }
  rewrite Hc. simpl. unfold gap_size. rewrite Hc.
  destruct (Z.ltb_spec mmap_limit a) as [?|_]; [lia|]. simpl.
  destruct (gap_end_bounds _ _ a l Hr ltac:(lia) Hc) as [Hb _]. pose proof mmap_limit_small.
  assert (mmap_find_vmr_next mm a m = Done (0, first_at (fun _ r => a <? v_start r) l) m) as En.
  { unfold mmap_find_vmr_next. mm_prologue. mm_step E. simpl. mm_step (mmap_load_eq _ _ _ _ Hown).
    destruct (vmr_fuel_eq _ _ _ _ Hown) as (n & Hn & Hlt). mm_step Hn.
    erewrite M_bind_done by (apply (mmap_search_eq _ _ _ _ Hown (fun _ r => a <? v_start r)); done). done. }
  mm_step En. mm_step (mmap_load_eq _ _ _ _ Hown). cbn [snd]. rewrite Hlim.
  rewrite (gap_end_first _ _ l a Hs Hok) in Hb |- *. cbn zeta in Hb |- *.
  destruct (first_at_spec (fun _ r => a <? v_start r) l Hok) as [[Ef _]|(l1 & p & r & l2 & El & Hp & Ef & Hcov & _)];
    rewrite Ef in Hb |- *.
  { simpl in Hb |- *. unfold M_ret. rewrite u64_small; [done|]. unfold is_u64 in *. lia. }
  unfold is_null. rewrite (proj2 (Z.eqb_neq p 0)) by done.
  pose proof (vmr_load_eq _ _ _ _ Hown _ _ _ _ El) as Hld. mm_step Hld. cbn [v_reg].
  assert (vmrs m !! p = Some (mkVmr r (last_addr l1 0) (hd_addr l2 0))) as Hpl.
  { unfold load in Hld. destruct (vmrs m !! p); congruence. }
  rewrite (proj2 (Z.eqb_neq p 0)), Hpl in Hb by done. rewrite Hpl.
  cbn [v_reg] in Hb |- *. unfold M_ret. rewrite u64_small; [done|]. unfold is_u64 in *. lia.
Qed.
End Holes.
