(* ===== verification/MmapHoles.v ===== *)
(** * Finding room in an address space

    [mmap_find_hole] and [mmap_find_holeat] return a free range whenever there is
    one of the requested size. *)
From S2P Require Import Prelude Errno Spinlock KMem Queue Dll Mmap MmapFacts.

Implicit Types (l : list (Z * vreg)) (r : vreg).

(** The [n] addresses from [a] on are valid and in no region. *)
Definition free_range l (a n : Z) : Prop :=
  0 <= a /\ a + n <= mmap_limit + 1 /\
  forall p r, (p, r) ∈ l -> v_end r < a \/ a + n <= v_start r.

(** The bounds of the gap between two parts of the list. *)
Definition gap_lo (lo : Z) l : Z := match last l with Some (_, r) => v_end r + 1 | None => lo end.
Definition gap_hi l : Z := match l with (_, r) :: _ => v_start r | [] => mmap_limit + 1 end.

Lemma ranges_app_gap lo l1 l2 :
  ranges_from lo mmap_limit (l1 ++ l2) -> lo <= mmap_limit + 1 ->
  (forall p r, (p, r) ∈ l1 -> v_end r < gap_lo lo l1) /\ (forall p r, (p, r) ∈ l2 -> gap_hi l2 <= v_start r) /\
  lo <= gap_lo lo l1 <= gap_hi l2 /\ gap_hi l2 <= mmap_limit + 1.
Proof.
  intros H Hlo. pose proof (ranges_from_app _ _ _ _ H) as [H1 H2]. fold (gap_lo lo l1) in H2.
  assert (lo <= gap_lo lo l1 <= mmap_limit + 1 /\ forall p r, (p, r) ∈ l1 -> v_end r < gap_lo lo l1) as [Hb1 Hall].
  { clear H H2 l2. revert lo Hlo H1. induction l1 as [|[p r] l1 IH]; intros lo Hlo.
    - intros _. unfold gap_lo. simpl. split; [lia|]. by intros ? ? ?%not_elem_of_nil.
    - simpl. intros (Hr & Hl & H). destruct (IH (v_end r + 1)) as [Hb Hi]; [lia|done|].
      assert (gap_lo lo ((p, r) :: l1) = gap_lo (v_end r + 1) l1) as Eg.
      { unfold gap_lo. destruct l1 as [|[q r'] l1]; [done|]. change (last ((p, r) :: (q, r') :: l1))
          with (last ((q, r') :: l1)). destruct (last ((q, r') :: l1)) as [[? ?]|] eqn:E; [done|].
        by apply last_None in E. }
      rewrite Eg. split; [lia|]. intros q r' [[= -> ->]|Hin]%elem_of_cons; [lia|eauto]. }
  split; [done|]. split.
  - intros p r Hin. destruct l2 as [|[q r'] l2]; [by apply not_elem_of_nil in Hin|]. simpl in *.
    destruct H2 as (Hr & Hl & H2). apply elem_of_cons in Hin as [[= -> ->]|Hin]; [lia|].
    pose proof (ranges_from_elem _ _ _ _ _ H2 Hin). lia.
  - destruct l2 as [|[q r'] l2]; simpl in *; lia.
Qed.

(** Any range inside a gap is free. *)
Lemma gap_free l1 l2 a n :
  ranges_from 0 mmap_limit (l1 ++ l2) -> gap_lo 0 l1 <= a -> a + n <= gap_hi l2 ->
  free_range (l1 ++ l2) a n.
Proof.
  intros H Ha Hn. destruct (ranges_app_gap 0 l1 l2 H) as (H1 & H2 & Hb & Hl); [done|].
  split_and!; [lia|lia|]. intros p r [Hin|Hin]%elem_of_app; [apply H1 in Hin|apply H2 in Hin]; lia.
Qed.

(** ** The forward walk *)
Fixpoint fwd (size : Z) l : option Z :=
  match l with
  | [] => None
  | (_, r) :: l => if size <=? gap_hi l - (v_end r + 1) then Some (v_end r + 1) else fwd size l
  end.

Lemma fwd_sound l1 l2 size a :
  ranges_from 0 mmap_limit (l1 ++ l2) -> fwd size l2 = Some a -> free_range (l1 ++ l2) a size.
Proof.
  revert l1. induction l2 as [|[p r] l2 IH]; intros l1 H; [done|]. simpl.
  destruct (Z.leb_spec size (gap_hi l2 - (v_end r + 1))).
  - intros [= <-]. rewrite cons_middle, app_assoc in H |- *. apply gap_free; [done| |lia].
    unfold gap_lo. rewrite last_snoc. lia.
  - rewrite cons_middle, app_assoc in H |- *. by apply IH.
Qed.

Lemma fwd_complete lo l size :
  ranges_from lo mmap_limit l -> 0 < size -> gap_hi l - lo < size -> fwd size l = None ->
  forall a, lo <= a -> a + size <= mmap_limit + 1 ->
  exists p r, (p, r) ∈ l /\ v_start r < a + size /\ a <= v_end r.
Proof.
  revert lo. induction l as [|[p r] l IH]; intros lo H Hs Hg Hf a Ha Hb; simpl in *; [lia|].
  destruct H as (Hr & Hl & H). destruct (Z.leb_spec size (gap_hi l - (v_end r + 1))); [done|].
  destruct (decide (a <= v_end r)).
  - exists p, r. split; [by left|]. lia.
  - destruct (IH _ H Hs ltac:(lia) Hf a) as (q & r' & Hin & ?); [lia|lia|]. exists q, r'. split; [by right|done].
Qed.

(** ** The backward walk, on the reversed list *)
Fixpoint bwd (edge : bool) (size : Z) (rl : list (Z * vreg)) : option Z :=
  match rl with
  | [] => None
  | (_, r) :: rl' =>
      let lo := match rl' with (_, r') :: _ => v_end r' + 1 | [] => 0 end in
      if (match rl' with [] => edge && negb (v_start r =? 1) | _ => true end) && (size <=? v_start r - lo)
      then Some (v_start r - size) else bwd edge size rl'
  end.

Lemma bwd_sound l1 l2 edge size a :
  ranges_from 0 mmap_limit (l1 ++ l2) -> bwd edge size (rev l1) = Some a -> free_range (l1 ++ l2) a size.
Proof.
  revert l2. induction l1 as [|[p r] l1 IH] using rev_ind; intros l2 H; [done|].
  rewrite rev_app_distr. simpl. rewrite <- app_assoc in H |- *. simpl in *.
  assert (match rev l1 with (_, r') :: _ => v_end r' + 1 | [] => 0 end = gap_lo 0 l1) as ->.
  { unfold gap_lo. destruct l1 as [|[q r'] l1 _] using rev_ind; [done|]. by rewrite rev_app_distr, last_snoc. }
  destruct (_ && (size <=? v_start r - gap_lo 0 l1)) eqn:E; [|by apply IH].
  apply andb_true_iff in E as [_ E%Z.leb_le]. intros [= <-]. apply gap_free; [done|lia|]. simpl. lia.
Qed.

(** When neither a gap before a region nor the gap from the last one up to [top]
    has room. *)
Lemma bwd_complete l size top :
  ranges_from 0 mmap_limit l -> 1 < size -> bwd true size (rev l) = None -> top - gap_lo 0 l < size ->
  forall a, 0 <= a -> a + size <= top ->
  exists p r, (p, r) ∈ l /\ v_start r < a + size /\ a <= v_end r.
Proof.
  intros H Hs. revert top H. induction l as [|[p r] l IH] using rev_ind; intros top H Hb Hg a Ha Hle.
  - unfold gap_lo in Hg. simpl in Hg. lia.
  - rewrite rev_app_distr in Hb. simpl in Hb. unfold gap_lo in Hg. rewrite last_snoc in Hg.
    assert (match rev l with (_, r') :: _ => v_end r' + 1 | [] => 0 end = gap_lo 0 l) as Eg.
    { unfold gap_lo. destruct l as [|[q r'] l _] using rev_ind; [done|]. by rewrite rev_app_distr, last_snoc. }
    rewrite Eg in Hb. pose proof (proj1 (ranges_from_app _ _ _ _ H)) as H1.
    destruct (_ && _) eqn:E; [done|].
    destruct (decide (v_start r < a + size)) as [?|Hge].
    { exists p, r. split; [apply elem_of_app; right; by left|lia]. }
    assert (v_start r - gap_lo 0 l < size) as Hlt.
    { apply andb_false_iff in E as [E|E%Z.leb_gt]; [|lia].
      destruct l as [|x l _] using rev_ind; [|rewrite rev_app_distr in E; by simpl in E].
      simpl in E. destruct (Z.eqb_spec (v_start r) 1) as [E1|]; [|done]. unfold gap_lo. simpl. lia. }
    destruct (IH (v_start r) H1 Hb Hlt a Ha) as (q & r' & Hq & ?); [lia|].
    exists q, r'. split; [apply elem_of_app; by left|done].
Qed.

(** ** Gap sizes *)
Lemma gap_size_sound l a n :
  ranges_from 0 mmap_limit l -> 0 <= a -> 0 < n -> n <= gap_size mmap_limit a l -> free_range l a n.
Proof.
  intros H Ha Hn. unfold gap_size. destruct (Z.ltb_spec mmap_limit a); simpl; [lia|].
  destruct (covered a l) eqn:Hc; [lia|]. intros Hle.
  destruct (gap_end_bounds _ _ a l H ltac:(lia) Hc) as [Hb Hd]. split_and!; [lia|lia|].
  intros p r Hin. destruct (Hd p r Hin); [by left|]. right. lia.
Qed.

Lemma existsb_elem {A} (f : A -> bool) (k : list A) : existsb f k = true <-> exists x, x ∈ k /\ f x = true.
Proof. rewrite existsb_exists. setoid_rewrite list_elem_of_In. done. Qed.

Lemma gap_end_in l1 l2 a :
  (forall p r, (p, r) ∈ l1 -> v_start r <= a) -> (l2 <> [] -> a < gap_hi l2) ->
  gap_end mmap_limit a (l1 ++ l2) = gap_hi l2.
Proof.
  induction l1 as [|[p r] l1 IH]; intros H1 H2; simpl.
  - destruct l2 as [|[q r] l2]; [done|]. simpl in *. destruct (Z.ltb_spec a (v_start r)); [done|].
    specialize (H2 ltac:(done)). lia.
  - assert (v_start r <= a) by (apply (H1 p r); by left). destruct (Z.ltb_spec a (v_start r)); [lia|].
    apply IH; [|done]. intros q r' Hin. apply (H1 q). by right.
Qed.

(** Inside the gap between two parts of the list, the gap reaches to its end. *)
Lemma gap_size_in l1 l2 a :
  ranges_from 0 mmap_limit (l1 ++ l2) -> gap_lo 0 l1 <= a <= gap_hi l2 ->
  gap_size mmap_limit a (l1 ++ l2) = gap_hi l2 - a.
Proof.
  intros H Ha. destruct (ranges_app_gap 0 l1 l2 H) as (H1 & H2 & Hb & Hl); [done|].
  unfold gap_size. destruct (Z.ltb_spec mmap_limit a); simpl; [lia|].
  destruct (covered a (l1 ++ l2)) eqn:Hc.
  - apply existsb_elem in Hc as ([p r] & Hin & Hc). unfold covers in Hc. simpl in Hc.
    apply andb_true_iff in Hc as [?%Z.leb_le ?%Z.leb_le].
    apply elem_of_app in Hin as [Hin|Hin]; [apply H1 in Hin; lia|]. apply H2 in Hin. lia.
  - f_equal. apply gap_end_in.
    + intros p r Hin. pose proof (H1 _ _ Hin).
      destruct (ranges_from_elem _ _ _ p r H) as [? ?]; [apply elem_of_app; by left|]. lia.
    + intros Hne. destruct (decide (a = gap_hi l2)) as [->|]; [|lia]. exfalso.
      destruct l2 as [|[q r'] l2]; [done|]. simpl in *.
      assert (covered (v_start r') (l1 ++ (q, r') :: l2) = true) as Hcov; [|congruence].
      apply existsb_elem. exists (q, r'). split; [apply elem_of_app; right; by left|].
      destruct (ranges_from_elem _ _ _ q r' H) as [? ?]; [apply elem_of_app; right; by left|].
      unfold covers. simpl. destruct (Z.leb_spec (v_start r') (v_start r')), (Z.leb_spec (v_start r') (v_end r'));
        simpl; lia || done.
Qed.

(** ** The walks of the code *)
Section Walks.
Context (m : kmem) (mm : Z) (s : mmap_t) (l : list (Z * vreg)).
Hypothesis Hown : mmap_own m mm s l.

Ltac mm_step H := erewrite M_bind_done by (exact H).

Lemma mmap_node_facts l1 p r l2 :
  l = l1 ++ (p, r) :: l2 ->
  is_null p = false /\ 0 <= v_start r <= v_end r /\ v_end r <= mmap_limit /\
  vmr_upper_bound r = v_end r + 1 /\ v_end r + 1 <= gap_hi l2 <= mmap_limit + 1 /\
  gap_lo 0 l1 <= v_start r /\ (is_null (hd_addr l2 0) = true <-> l2 = []) /\
  (is_null (last_addr l1 0) = true <-> l1 = []).
Proof.
  intros El. destruct Hown as [[_ _ _ _ _ _ Hok Hr] _]. rewrite El in Hok, Hr.
  pose proof (ranges_from_elem _ _ _ p r Hr) as [? ?]; [apply elem_of_app; right; by left|].
  destruct (ranges_app_gap 0 l1 _ Hr) as (_ & _ & Hb1 & _); [done|].
  rewrite cons_middle, app_assoc in Hr. destruct (ranges_app_gap 0 _ l2 Hr) as (_ & _ & Hb2 & Hb3); [done|].
  unfold gap_lo in Hb2. rewrite last_snoc in Hb2. simpl in Hb1. pose proof mmap_limit_small.
  destruct (dll_ok_mid _ _ _ _ Hok) as (_ & _ & Hp & Hok1 & Hok2 & _). unfold addr_ok in Hp.
  split_and!; try lia; [apply Z.eqb_neq; lia| |by apply dll_ok_hd_null|by apply dll_ok_last_null].
  unfold vmr_upper_bound. rewrite u64_small; [done|]. unfold is_u64. lia.
Qed.

Lemma hole_forward_eq l1 l2 size fuel :
  l = l1 ++ l2 -> (length l2 < fuel)%nat ->
  hole_forward fuel mm size (hd_addr l2 0) m = Done (fwd size l2) m.
Proof.
  revert l1 fuel. induction l2 as [|[p r] l2 IH]; intros l1 [|fuel] El Hf; simpl in Hf; try lia; [done|].
  destruct (mmap_node_facts _ _ _ _ El) as (Hp & Hr & Hlim & Hup & Hgap & Hlo & Hnx & _).
  pose proof mmap_limit_small as Hsm. simpl. rewrite Hp. mm_step (vmr_load_eq _ _ _ _ Hown _ _ _ _ El). simpl.
  rewrite Hup.
  assert ((if negb (is_null (hd_addr l2 0))
           then let! n := load (T:=vmr_t) (hd_addr l2 0) in ret! (u64 (v_start (v_reg n) - (v_end r + 1)))
           else let! h := mmap_getholesize mm (v_end r + 1) in ret! h.2) m
          = Done (gap_hi l2 - (v_end r + 1)) m) as Eh.
  { destruct l2 as [|[q r'] l2].
    - simpl. erewrite M_bind_done by (apply (mmap_getholesize_eq _ _ _ _ Hown); unfold is_u64; lia).
      unfold M_ret. f_equal.
      pose proof (gap_size_in (l1 ++ [(p, r)]) [] (v_end r + 1)) as Hg.
      unfold gap_lo in Hg. rewrite last_snoc, app_nil_r, <- El in Hg. simpl in Hg.
      rewrite <- Hg by (first [lia | apply Hown]). unfold gap_size.
      by destruct ((mmap_limit <? v_end r + 1) || covered (v_end r + 1) l).
    - destruct (is_null (hd_addr ((q, r') :: l2) 0)); [by specialize (proj1 Hnx eq_refl)|]. simpl.
      rewrite (cons_middle (p, r)), app_assoc in El. mm_step (vmr_load_eq _ _ _ _ Hown _ _ _ _ El).
      simpl. unfold M_ret. simpl in Hgap. rewrite u64_small; [done|]. unfold is_u64. lia. }
  mm_step Eh. destruct (size <=? _); [done|]. apply (IH (l1 ++ [(p, r)])); [|lia]. by rewrite <- app_assoc.
Qed.

Lemma hole_backward_eq l1 l2 edge size fuel :
  l = l1 ++ l2 -> (length l1 < fuel)%nat -> is_u64 size ->
  hole_backward fuel edge size (last_addr l1 0) m = Done (bwd edge size (rev l1)) m.
Proof.
  intros El Hf Hsz. revert l2 fuel El Hf.
  induction l1 as [|[p r] l1 IH] using rev_ind; intros l2 [|fuel] El Hf; try lia; [done|].
  rewrite length_app in Hf. rewrite <- app_assoc in El. simpl in El, Hf.
  destruct (mmap_node_facts _ _ _ _ El) as (Hp & Hr & Hlim & Hup & Hgap & Hlo & _ & Hpv).
  pose proof mmap_limit_small as Hsm. rewrite last_addr_snoc. simpl. rewrite Hp.
  mm_step (vmr_load_eq _ _ _ _ Hown _ _ _ _ El). simpl. rewrite rev_app_distr. simpl.
  destruct l1 as [|[q r'] l1' _] using rev_ind.
  - simpl. rewrite Z.sub_0_r. unfold vmr_lower_bound.
    assert ((0 <? u64 (v_start r - 1)) = negb (v_start r =? 1)) as ->.
    { destruct (Z.eqb_spec (v_start r) 1) as [->|]; [done|]. simpl. apply Z.ltb_lt.
      destruct (decide (v_start r = 0)) as [->|]; [done|]. rewrite u64_small; unfold is_u64; lia. }
    destruct edge; simpl; [|by apply (IH ((p, r) :: l2)); [|lia]].
    destruct (v_start r =? 1); simpl; [by apply (IH ((p, r) :: l2)); [|lia]|].
    unfold M_bind at 1. simpl. destruct (Z.leb_spec size (v_start r)); [|by apply (IH ((p, r) :: l2)); [|lia]].
    unfold M_ret. rewrite u64_small; [done|]. unfold is_u64 in *. lia.
  - rewrite rev_app_distr. simpl rev. simpl app. rewrite last_addr_snoc in Hpv |- *. cbn [fst] in Hpv |- *.
    destruct (is_null q); [apply proj1 in Hpv; specialize (Hpv eq_refl); by apply app_nil in Hpv as [_ ?]|]. simpl.
    rewrite <- app_assoc in El. simpl in El.
    destruct (mmap_node_facts _ _ _ _ El) as (_ & Hr' & Hlim' & Hup' & Hgap' & _). simpl in Hgap'.
    erewrite (M_bind_done _ _ m (Some (v_start r - (v_end r' + 1))) m).
    2:{ mm_step (vmr_load_eq _ _ _ _ Hown _ _ _ _ El). simpl. unfold M_ret. rewrite Hup', u64_small; [done|].
        unfold is_u64. lia. }
    destruct (Z.leb_spec size (v_start r - (v_end r' + 1))).
    + unfold M_ret. rewrite u64_small; [done|]. unfold is_u64 in *. lia.
    + pose proof (IH ((p, r) :: l2) fuel) as IH'. rewrite rev_app_distr, last_addr_snoc in IH'.
      apply IH'; [by rewrite <- app_assoc|lia].
Qed.
End Walks.

Lemma last_at_spec t l :
  dll_ok l -> exists l1 l2, l = l1 ++ l2 /\ last_at t l = last_addr l1 0.
Proof.
  induction l as [|[p r] l IH]; [by exists [], []|]. intros ([? _] & _ & Hok)%dll_ok_cons. simpl in *.
  destruct (IH Hok) as (l1 & l2 & -> & E). destruct (Z.eqb_spec (last_at t (l1 ++ l2)) 0).
  - destruct (t p r); [by exists [(p, r)], (l1 ++ l2)|by exists [], ((p, r) :: l1 ++ l2)].
  - exists ((p, r) :: l1), l2. split; [done|]. rewrite E in *.
    destruct l1 as [|x l1 _] using rev_ind; [done|].
    change ((p, r) :: l1 ++ [x]) with (((p, r) :: l1) ++ [x]). by rewrite !last_addr_snoc.
Qed.

(** How a search for room ends. *)
Definition hole_result l (size : Z) (res : Z * Z) : Prop :=
  (res.1 = 0 /\ free_range l res.2 size) \/
  (res.1 = - ENOMEM /\ forall a, ~ free_range l a size).

Lemma no_free_range l size :
  (forall a, 0 <= a -> a + size <= mmap_limit + 1 ->
     exists p r, (p, r) ∈ l /\ v_start r < a + size /\ a <= v_end r) ->
  forall a, ~ free_range l a size.
Proof.
  intros H a (H0 & Hl & Hf). destruct (H a H0 Hl) as (p & r & Hin & Hs & He). destruct (Hf p r Hin); lia.
Qed.

Section Find.
Context (m : kmem) (mm : Z) (s : mmap_t) (l : list (Z * vreg)).
Hypothesis Hown : mmap_own m mm s l.
Context (size : Z).
Hypothesis Hsize : is_u64 size.
Hypothesis Hpos : 0 < size.

Ltac mm_step H := erewrite M_bind_done by (exact H).
Ltac mm_prologue := rewrite (mmap_not_null _ _ _ _ Hown); simpl; mm_step (mmap_assert_locked_eq _ _ _ _ Hown).

Let Hr : ranges_from 0 mmap_limit l := mr_ranges _ _ _ _ (proj1 Hown).

(** The size reported for the gap at [a], whatever the error code. *)
Lemma holesize_snd a :
  is_u64 a -> exists e, mmap_getholesize mm a m = Done (e, gap_size mmap_limit a l) m.
Proof.
  intros Ha. rewrite (mmap_getholesize_eq _ _ _ _ Hown a Ha). unfold gap_size.
  destruct ((mmap_limit <? a) || covered a l); eauto.
Qed.

Lemma gap_at_zero : gap_size mmap_limit 0 l = gap_hi l - 0.
Proof. apply (gap_size_in [] l 0 Hr). destruct (ranges_app_gap 0 [] l Hr) as (_ & _ & ? & _); [done|]. unfold gap_lo in *. simpl in *. lia. Qed.

Lemma find_hole_start :
  exists res, mmap_find_hole mm size true whence_start m = Done res m /\ hole_result l size res.
Proof.
  unfold mmap_find_hole. rewrite (proj2 (Z.eqb_neq size 0)) by lia. mm_prologue.
  mm_step (mmap_load_eq _ _ _ _ Hown). destruct (vmr_fuel_eq _ _ _ _ Hown) as (n & Hn & Hlt). mm_step Hn.
  destruct (holesize_snd 0 ltac:(done)) as (e & Ee).
  assert ((let! h := mmap_getholesize mm 0 in
           if size <=? h.2 then ret! Some 0 else hole_forward n mm size (vmr_head s)) m
          = Done (if size <=? gap_size mmap_limit 0 l then Some 0 else fwd size l) m) as Ef.
  { mm_step Ee. cbn [snd]. destruct (size <=? _); [done|]. rewrite (mr_head _ _ _ _ (proj1 Hown)).
    by apply (hole_forward_eq _ _ _ _ Hown []). }
  mm_step Ef. destruct (Z.leb_spec size (gap_size mmap_limit 0 l)).
  { eexists. split; [done|]. left. split; [done|]. by apply gap_size_sound. }
  rewrite gap_at_zero in *. destruct (fwd size l) as [a|] eqn:E.
  - eexists. split; [done|]. left. split; [done|]. by apply (fwd_sound []).
  - eexists. split; [done|]. right. split; [done|]. apply no_free_range. by apply fwd_complete.
Qed.

(** The range that ends at the limit. *)
Lemma top_gap :
  exists e, mmap_getholesize mm (u64 (mmap_limit + 1 - size)) m =
    Done (e, gap_size mmap_limit (u64 (mmap_limit + 1 - size)) l) m /\
  (size <= gap_size mmap_limit (u64 (mmap_limit + 1 - size)) l ->
     free_range l (u64 (mmap_limit + 1 - size)) size) /\
  (gap_size mmap_limit (u64 (mmap_limit + 1 - size)) l < size ->
     mmap_limit + 1 - gap_lo 0 l < size).
Proof.
  pose proof mmap_limit_small as Hsm. set (top := u64 (mmap_limit + 1 - size)).
  assert (is_u64 top) as Htop by apply u64_range.
  destruct (holesize_snd top Htop) as (e & He). exists e. split_and!; [done| |].
  - intros Hle. apply gap_size_sound; try done. apply Htop.
  - intros Hlt. destruct (decide (mmap_limit + 1 - gap_lo 0 l < size)) as [|Hge]; [done|].
    assert (top = mmap_limit + 1 - size) as Et.
    { unfold top. apply u64_small. destruct (ranges_app_gap 0 l []) as (_ & _ & ? & _); [by rewrite app_nil_r|done|].
      unfold is_u64 in *. lia. }
    pose proof (gap_size_in l [] top) as Hg. rewrite app_nil_r in Hg. simpl in Hg.
    specialize (Hg Hr ltac:(lia)). lia.
Qed.

Lemma find_hole_end :
  1 < size ->
  exists res, mmap_find_hole mm size true whence_end m = Done res m /\ hole_result l size res.
Proof.
  intros H1. unfold mmap_find_hole. rewrite (proj2 (Z.eqb_neq size 0)) by lia. mm_prologue.
  mm_step (mmap_load_eq _ _ _ _ Hown). destruct (vmr_fuel_eq _ _ _ _ Hown) as (n & Hn & Hlt). mm_step Hn.
  rewrite (mr_limit _ _ _ _ (proj1 Hown)). destruct top_gap as (e & Ee & Hs & Hc).
  set (top := u64 (mmap_limit + 1 - size)) in *.
  assert ((let! h := mmap_getholesize mm top in
           if size <=? h.2 then ret! Some top else hole_backward n true size (vmr_tail s)) m
          = Done (if size <=? gap_size mmap_limit top l then Some top else bwd true size (rev l)) m) as Ef.
  { mm_step Ee. cbn [snd]. destruct (size <=? _); [done|]. rewrite (mr_tail _ _ _ _ (proj1 Hown)).
    apply (hole_backward_eq _ _ _ _ Hown l []); [by rewrite app_nil_r|done|done]. }
  mm_step Ef. destruct (Z.leb_spec size (gap_size mmap_limit top l)).
  { eexists. split; [done|]. left. auto. }
  destruct (bwd true size (rev l)) as [a|] eqn:E.
  - eexists. split; [done|]. left. split; [done|].
    pose proof (bwd_sound l [] true size a) as Hb. rewrite app_nil_r in Hb. auto.
  - eexists. split; [done|]. right. split; [done|]. apply no_free_range. eapply bwd_complete; eauto.
Qed.

(** ** Near a given address *)
Lemma find_next_suffix a :
  exists x l1 l2, mmap_find_vmr_next mm a m = Done (x, hd_addr l2 0) m /\ l = l1 ++ l2.
Proof.
  unfold mmap_find_vmr_next. mm_prologue.
  destruct (mmap_find_cases _ _ _ _ Hown a) as [[E _]|(l1 & p & r & l2 & El & Hp & E & _)]; mm_step E.
  - simpl. mm_step (mmap_load_eq _ _ _ _ Hown). destruct (vmr_fuel_eq _ _ _ _ Hown) as (n & Hn & Hlt). mm_step Hn.
    erewrite M_bind_done by (apply (mmap_search_eq _ _ _ _ Hown (fun _ r => a <? v_start r)); done).
    destruct (first_at_spec (fun _ r => a <? v_start r) l (mr_ok _ _ _ _ (proj1 Hown)))
      as [[-> _]|(l1 & p & r & l2 & El & _ & -> & _)].
    + exists 0, l, []. by rewrite app_nil_r.
    + by exists 0, l1, ((p, r) :: l2).
  - rewrite Hp. simpl. mm_step (vmr_load_eq _ _ _ _ Hown _ _ _ _ El).
    exists p, (l1 ++ [(p, r)]), l2. by rewrite <- app_assoc.
Qed.

Lemma find_prev_prefix a :
  exists x l1 l2, mmap_find_vmr_prev mm a m = Done (x, last_addr l1 0) m /\ l = l1 ++ l2.
Proof.
  unfold mmap_find_vmr_prev. mm_prologue.
  destruct (mmap_find_cases _ _ _ _ Hown a) as [[E _]|(l1 & p & r & l2 & El & Hp & E & _)]; mm_step E.
  - simpl. mm_step (mmap_load_eq _ _ _ _ Hown). destruct (vmr_fuel_eq _ _ _ _ Hown) as (n & Hn & Hlt). mm_step Hn.
    erewrite M_bind_done by (apply (mmap_search_back_eq _ _ _ _ Hown (fun _ r => v_end r <? a)); done).
    destruct (last_at_spec (fun _ r => v_end r <? a) l (mr_ok _ _ _ _ (proj1 Hown))) as (l1 & l2 & El & ->).
    by exists 0, l1, l2.
  - rewrite Hp. simpl. mm_step (vmr_load_eq _ _ _ _ Hown _ _ _ _ El).
    exists p, l1, ((p, r) :: l2). done.
Qed.
Lemma hole_before_spec l1 l2 :
  l = l1 ++ l2 ->
  exists o, hole_before size (hd_addr l2 0) m = Done o m /\
    (forall a, o = Some a -> free_range l a size).
Proof.
  intros El. unfold hole_before. destruct l2 as [|[p r] l2]; [by exists None|].
  destruct (mmap_node_facts _ _ _ _ Hown _ _ _ _ El) as (Hp & Hrr & Hlim & _ & _ & Hlo & _ & Hpv).
  simpl. rewrite Hp. mm_step (vmr_load_eq _ _ _ _ Hown _ _ _ _ El). simpl.
  destruct l1 as [|[q r'] l1 _] using rev_ind; [by exists None|].
  rewrite last_addr_snoc in Hpv |- *. cbn [fst] in Hpv |- *.
  destruct (is_null q); [apply proj1 in Hpv; specialize (Hpv eq_refl); by apply app_nil in Hpv as [_ ?]|].
  pose proof El as El'. rewrite <- app_assoc in El'. simpl in El'.
  destruct (mmap_node_facts _ _ _ _ Hown _ _ _ _ El') as (_ & Hr' & Hlim' & Hup' & Hgap' & _). simpl in Hgap'.
  mm_step (vmr_load_eq _ _ _ _ Hown _ _ _ _ El'). simpl. rewrite Hup'. pose proof mmap_limit_small.
  rewrite u64_small by (unfold is_u64; lia).
  destruct (Z.leb_spec size (v_start r - (v_end r' + 1))); eexists; (split; [done|]); intros a [= <-].
  rewrite El in Hr |- *. apply gap_free; [done| |simpl; lia]. unfold gap_lo. rewrite last_snoc. lia.
Qed.

Lemma hole_after_spec l1 l2 :
  l = l1 ++ l2 ->
  exists o, hole_after mm size (last_addr l1 0) m = Done o m /\
    (forall a, o = Some a -> free_range l a size).
Proof.
  intros El. unfold hole_after. mm_step (mmap_load_eq _ _ _ _ Hown). pose proof mmap_limit_small as Hsm.
  destruct l1 as [|[p r] l1 _] using rev_ind.
  { simpl. rewrite (mr_limit _ _ _ _ (proj1 Hown)). destruct top_gap as (e & Ee & Hs & _). mm_step Ee. cbn [snd].
    destruct (Z.leb_spec size (gap_size mmap_limit (u64 (mmap_limit + 1 - size)) l)); eexists; (split; [done|]);
      intros a [= <-]. auto. }
  pose proof El as El'. rewrite <- app_assoc in El'. simpl in El'.
  destruct (mmap_node_facts _ _ _ _ Hown _ _ _ _ El') as (Hp & Hrr & Hlim & Hup & Hgap & _ & Hnx & _).
  rewrite last_addr_snoc. cbn [fst]. rewrite Hp. mm_step (vmr_load_eq _ _ _ _ Hown _ _ _ _ El'). simpl. rewrite Hup.
  assert (gap_lo 0 (l1 ++ [(p, r)]) = v_end r + 1) as Hglo by (unfold gap_lo; by rewrite last_snoc).
  destruct l2 as [|[q r'] l2].
  - simpl. destruct (holesize_snd (v_end r + 1)) as (e & Ee); [unfold is_u64; lia|]. mm_step Ee. cbn [snd].
    assert (gap_size mmap_limit (v_end r + 1) l = mmap_limit + 1 - (v_end r + 1)) as Eg.
    { rewrite El. apply (gap_size_in _ []); [by rewrite <- El|]. rewrite Hglo. simpl. lia. }
    rewrite Eg. destruct (Z.leb_spec size (mmap_limit + 1 - (v_end r + 1))); eexists; (split; [done|]);
      intros a [= <-]. rewrite u64_small by (unfold is_u64 in *; lia).
    rewrite El in Hr |- *. apply gap_free; [done|lia|simpl; lia].
  - destruct (is_null (hd_addr ((q, r') :: l2) 0)); [by specialize (proj1 Hnx eq_refl)|]. simpl.
    mm_step (vmr_load_eq _ _ _ _ Hown _ _ _ _ El). simpl in Hgap |- *.
    rewrite (u64_small (v_start r' - _)) by (unfold is_u64; lia).
    destruct (Z.leb_spec size (v_start r' - (v_end r + 1))); eexists; (split; [done|]); intros a [= <-].
    rewrite u64_small by (unfold is_u64 in *; lia).
    rewrite El in Hr |- *. apply gap_free; [done|lia|simpl; lia].
Qed.

Lemma near_head l1 l2 :
  l = l1 ++ l2 ->
  exists l1' l2', (if is_null (hd_addr l2 0) then vmr_head s else hd_addr l2 0) = hd_addr l2' 0 /\ l = l1' ++ l2'.
Proof.
  intros El. destruct (is_null (hd_addr l2 0)); [|eauto]. exists [], l. by rewrite (mr_head _ _ _ _ (proj1 Hown)).
Qed.
Lemma near_tail l1 l2 :
  l = l1 ++ l2 ->
  exists l1' l2', (if is_null (last_addr l1 0) then vmr_tail s else last_addr l1 0) = last_addr l1' 0 /\ l = l1' ++ l2'.
Proof.
  intros El. destruct (is_null (last_addr l1 0)); [|eauto]. exists l, [].
  by rewrite (mr_tail _ _ _ _ (proj1 Hown)), app_nil_r.
Qed.

Lemma find_holeat_start addr :
  is_u64 addr ->
  exists res, mmap_find_holeat mm addr size true whence_start m = Done res m /\ hole_result l size res.
Proof.
  intros Ha. unfold mmap_find_holeat. rewrite (proj2 (Z.eqb_neq size 0)) by lia. mm_prologue.
  assert (exists l1 l2, (if addr =? 0 then ret! 0 else let! r := mmap_find_vmr_next mm addr in ret! r.2) m
            = Done (hd_addr l2 0) m /\ l = l1 ++ l2) as (l1 & l2 & En & El).
  { destruct (addr =? 0); [exists l, []; by rewrite app_nil_r|].
    destruct (find_next_suffix addr) as (x & l1 & l2 & E & El). mm_step E. eauto. }
  mm_step En. mm_step (mmap_load_eq _ _ _ _ Hown). destruct (vmr_fuel_eq _ _ _ _ Hown) as (n & Hn & Hlt). mm_step Hn.
  destruct (holesize_snd addr Ha) as (e & Ee). destruct (near_head l1 l2 El) as (l1' & l2' & -> & El').
  destruct (hole_before_spec l1' l2' El') as (o & Eo & Hos).
  assert ((length l2' < n)%nat) as Hlt2 by (rewrite El', length_app in Hlt; lia).
  pose proof (hole_forward_eq _ _ _ _ Hown l1' l2' size n El' Hlt2) as Ef.
  erewrite M_bind_done.
  2:{ mm_step Ee. cbn [snd]. instantiate (1 := m). instantiate (1 := if size <=? gap_size mmap_limit addr l
        then Some addr else match o with Some a => Some a | None => fwd size l2' end).
      destruct (size <=? _); [done|]. mm_step Eo. by destruct o. }
  destruct (Z.leb_spec size (gap_size mmap_limit addr l)).
  { eexists. split; [done|]. left. split; [done|]. apply gap_size_sound; try done. apply Ha. }
  destruct o as [a|]; [eexists; split; [done|]; left; auto|].
  destruct (fwd size l2') as [a|] eqn:E; [|apply find_hole_start].
  eexists. split; [done|]. left. split; [done|]. rewrite El' in Hr |- *. by apply fwd_sound.
Qed.

Lemma find_holeat_end addr :
  1 < size ->
  exists res, mmap_find_holeat mm addr size true whence_end m = Done res m /\ hole_result l size res.
Proof.
  intros H1. unfold mmap_find_holeat. rewrite (proj2 (Z.eqb_neq size 0)) by lia. mm_prologue.
  assert (exists l1 l2, (if addr =? 0 then ret! 0 else let! r := mmap_find_vmr_prev mm addr in ret! r.2) m
            = Done (last_addr l1 0) m /\ l = l1 ++ l2) as (l1 & l2 & En & El).
  { destruct (addr =? 0); [by exists [], l|].
    destruct (find_prev_prefix addr) as (x & l1 & l2 & E & El). mm_step E. eauto. }
  mm_step En. mm_step (mmap_load_eq _ _ _ _ Hown). destruct (vmr_fuel_eq _ _ _ _ Hown) as (n & Hn & Hlt). mm_step Hn.
  destruct (near_tail l1 l2 El) as (l1' & l2' & -> & El').
  destruct (hole_after_spec l1' l2' El') as (o & Eo & Hos).
  assert ((length l1' < n)%nat) as Hlt2 by (rewrite El', length_app in Hlt; lia).
  pose proof (hole_backward_eq _ _ _ _ Hown l1' l2' false size n El' Hlt2 Hsize) as Ef.
  erewrite M_bind_done.
  2:{ mm_step Eo. instantiate (1 := m). instantiate (1 := match o with Some a => Some a | None => bwd false size (rev l1') end).
      by destruct o. }
  destruct o as [a|]; [eexists; split; [done|]; left; auto|].
  destruct (bwd false size (rev l1')) as [a|] eqn:E; [|by apply find_hole_end].
  eexists. split; [done|]. left. split; [done|]. rewrite El' in Hr |- *. by eapply bwd_sound.
Qed.
End Find.
