(* ===== verification/MmapMap.v ===== *)
(** * Adding regions

    The overlap test, the search for the place and the three ways of linking of
    [mmap_mapin], and the address space that results. *)
From S2P Require Import Prelude Errno Spinlock KMem Queue Dll Mmap MmapFacts MmapHoles.

Implicit Types (l : list (Z * vreg)).

(** ** What changes *)
Definition mm_erase (m : kmem) : kmem :=
  set_tick 0 (h_set (T:=mmap_t) ∅ (h_set (T:=vmr_t) ∅ m)).

Record mmap_frame (mm : Z) (a : list Z) (m m' : kmem) : Prop := {
  mf_erase : mm_erase m' = mm_erase m;
  mf_maps : forall q, q <> mm -> mmaps m' !! q = mmaps m !! q;
  mf_vmrs : forall p, p ∉ a -> vmrs m' !! p = vmrs m !! p
}.

Lemma mmap_frame_refl mm a m : mmap_frame mm a m m.
Proof. done. Qed.
Lemma mmap_frame_trans mm a a' m1 m2 m3 :
  (forall p, p ∈ a' -> p ∈ a) -> mmap_frame mm a m1 m2 -> mmap_frame mm a' m2 m3 -> mmap_frame mm a m1 m3.
Proof.
  intros Ha [He1 Hq1 Hn1] [He2 Hq2 Hn2]. split; [by rewrite He2| |].
  - intros q Hq. by rewrite Hq2, Hq1.
  - intros p Hp. rewrite Hn2, Hn1; auto.
Qed.

(** ** Relinking *)
Lemma vseg_set_next h h' pv l o ro nx nx' :
  vseg h pv (l ++ [(o, ro)]) nx -> h' !! o = Some (mkVmr ro (last_addr l pv) nx') ->
  (forall x, x ∈ addrs l -> h' !! x = h !! x) -> vseg h' pv (l ++ [(o, ro)]) nx'.
Proof.
  rewrite !vseg_app. simpl. intros (Hl & _ & _) Ho Hx. split_and!; try done. by eapply vseg_ext.
Qed.
Lemma vseg_set_prev h h' pv pv' l q rq nx :
  vseg h pv ((q, rq) :: l) nx -> h' !! q = Some (mkVmr rq pv' (hd_addr l nx)) ->
  (forall x, x ∈ addrs l -> h' !! x = h !! x) -> vseg h' pv' ((q, rq) :: l) nx.
Proof. simpl. intros [_ Hl] Hq Hx. split; [done|]. by eapply vseg_ext. Qed.

(** A list with one more node: its parts, and the new node between them. *)
Lemma vseg_link h l1 p r l2 :
  vseg h 0 l1 p -> h !! p = Some (mkVmr r (last_addr l1 0) (hd_addr l2 0)) -> vseg h p l2 0 ->
  vseg h 0 (l1 ++ (p, r) :: l2) 0.
Proof. intros H1 Hp H2. apply vseg_app. done. Qed.

(** ** The overlap test *)
Definition is_free l (a last : Z) : bool :=
  forallb (fun x => (v_end x.2 <? a) || (last <? v_start x.2)) l.

Lemma is_free_spec l a last :
  is_free l a last = true <-> forall p r, (p, r) ∈ l -> v_end r < a \/ last < v_start r.
Proof.
  unfold is_free. rewrite forallb_forall. setoid_rewrite <- list_elem_of_In. split.
  - intros H p r Hin. apply H in Hin. apply orb_true_iff in Hin as [?%Z.ltb_lt|?%Z.ltb_lt]; auto.
  - intros H [p r] Hin. simpl. apply orb_true_iff. rewrite !Z.ltb_lt. eauto.
Qed.

Lemma gap_end_region lo lim l a :
  ranges_from lo lim l -> gap_end lim a l <= lim -> covered (gap_end lim a l) l = true.
Proof.
  revert lo. induction l as [|[p r] l IH]; intros lo; simpl; [lia|]. intros (Hr & Hl & H) Hle.
  unfold covers at 1. simpl. destruct (a <? v_start r).
  - destruct (Z.leb_spec (v_start r) (v_start r)), (Z.leb_spec (v_start r) (v_end r)); simpl; lia || done.
  - apply orb_true_iff. right. by eapply IH.
Qed.

Section Check.
Context (m : kmem) (mm : Z) (s : mmap_t) (l : list (Z * vreg)).
Hypothesis Hown : mmap_own m mm s l.
Ltac mm_step H := erewrite M_bind_done by (exact H).

Lemma mmap_find_covered a :
  exists p, mmap_find mm a m = Done p m /\ is_null p = negb (covered a l).
Proof.
  destruct (mmap_find_cases _ _ _ _ Hown a) as [[E Hc]|(l1 & p & r & l2 & El & Hp & E & Hr)].
  - exists 0. by rewrite Hc.
  - exists p. split; [done|]. rewrite Hp. replace (covered a l) with true; [done|]. symmetry.
    apply existsb_elem. exists (p, r). split; [rewrite El; apply elem_of_app; right; by left|].
    unfold covers. simpl. destruct (Z.leb_spec (v_start r) a), (Z.leb_spec a (v_end r)); lia || done.
Qed.

Lemma covered_not_free a last :
  covered a l = true -> a <= last -> is_free l a last = false.
Proof.
  intros ([p r] & Hin & Hc)%existsb_elem Ha. unfold covers in Hc. simpl in Hc.
  apply andb_true_iff in Hc as [?%Z.leb_le ?%Z.leb_le].
  destruct (is_free l a last) eqn:E; [|done]. exfalso.
  destruct (proj1 (is_free_spec _ _ _) E p r Hin); lia.
Qed.

Lemma mapin_check_eq a last fuel :
  0 <= a <= last -> last <= mmap_limit -> (2 <= fuel)%nat ->
  mapin_check fuel mm a last m = Done (if is_free l a last then 0 else - EEXIST) m.
Proof.
  intros Ha Hl Hf. destruct fuel as [|[|fuel]]; try lia. pose proof mmap_limit_small as Hsm.
  pose proof (mr_ranges _ _ _ _ (proj1 Hown)) as Hr.
  cbn [mapin_check]. rewrite (proj2 (Z.leb_le a last)) by lia. cbn [negb].
  destruct (mmap_find_covered a) as (p & E & Hp). mm_step E. rewrite Hp, negb_involutive.
  destruct (covered a l) eqn:Hc; [by rewrite covered_not_free by (done || lia)|].
  erewrite M_bind_done by (apply (mmap_getholesize_eq _ _ _ _ Hown); unfold is_u64; lia).
  rewrite Hc. destruct (Z.ltb_spec mmap_limit a); [lia|]. cbn [orb fst snd negb].
  unfold gap_size. rewrite Hc. destruct (Z.ltb_spec mmap_limit a); [lia|]. cbn [orb].
  destruct (gap_end_bounds _ _ a l Hr ltac:(lia) Hc) as [Hb Hd].
  destruct (Z.eqb_spec (gap_end mmap_limit a l - a) 0); [lia|]. simpl.
  replace (a + (gap_end mmap_limit a l - a)) with (gap_end mmap_limit a l) by lia.
  unfold M_bind at 1. simpl. rewrite u64_small by (unfold is_u64; lia).
  destruct (Z.leb_spec (gap_end mmap_limit a l) last) as [Hle|Hgt]; simpl.
  - destruct (mmap_find_covered (gap_end mmap_limit a l)) as (q & E2 & Hq). mm_step E2.
    assert (covered (gap_end mmap_limit a l) l = true) as Hcov by (eapply gap_end_region; [done|lia]).
    rewrite Hq, Hcov. simpl. destruct (is_free l a last) eqn:Ef; [|done]. exfalso.
    pose proof (covered_not_free _ last Hcov Hle) as Hn.
    destruct (is_free l (gap_end mmap_limit a l) last) eqn:Ef2; [done|].
    enough (is_free l (gap_end mmap_limit a l) last = true) by congruence.
    apply is_free_spec. intros x rx Hin. destruct (proj1 (is_free_spec _ _ _) Ef x rx Hin); [left; lia|auto].
  - replace (is_free l a last) with true; [done|]. symmetry. apply is_free_spec.
    intros x rx Hin. destruct (Hd x rx Hin); [by left|right; lia].
Qed.

(** The insertion loop skips the regions that start at or below the new one. *)
Lemma mapin_loop_eq p v l1 l2 fuel :
  vmrs m !! p = Some v -> l = l1 ++ l2 -> (length l2 < fuel)%nat ->
  (forall q rq, (q, rq) ∈ l2 -> v_start rq <= v_start (v_reg v)) ->
  mapin_loop fuel mm p (hd_addr l2 0) m = Done false m.
Proof.
  intros Hp. revert l1 fuel. induction l2 as [|[q rq] l2 IH]; intros l1 [|fuel] El Hf Hall; simpl in Hf; try lia; [done|].
  destruct (mmap_node_facts _ _ _ _ Hown _ _ _ _ El) as (Hq & _). simpl. rewrite Hq.
  erewrite (M_bind_done (load p)) by (unfold load; by rewrite Hp).
  mm_step (vmr_load_eq _ _ _ _ Hown _ _ _ _ El). simpl.
  destruct (Z.ltb_spec (v_start (v_reg v)) (v_start rq)).
  { specialize (Hall q rq ltac:(by left)). lia. }
  apply (IH (l1 ++ [(q, rq)])); [by rewrite <- app_assoc|lia|]. intros x rx Hin. apply (Hall x). by right.
Qed.

Lemma mapin_loop_stop p v l1 l2 q rq l3 fuel :
  vmrs m !! p = Some v -> l = l1 ++ l2 ++ (q, rq) :: l3 -> (length l2 + S (length l3) < fuel)%nat ->
  (forall x rx, (x, rx) ∈ l2 -> v_start rx <= v_start (v_reg v)) -> v_start (v_reg v) < v_start rq ->
  mapin_loop fuel mm p (hd_addr (l2 ++ (q, rq) :: l3) 0) m = (do! mapin_before mm p q in ret! true) m.
Proof.
  intros Hp. revert l1 fuel. induction l2 as [|[x rx] l2 IH]; intros l1 [|fuel] El Hf Hall Hq; simpl in Hf; try lia.
  - destruct (mmap_node_facts _ _ _ _ Hown _ _ _ _ El) as (Hqn & _). simpl. rewrite Hqn.
    erewrite (M_bind_done (load p)) by (unfold load; by rewrite Hp).
    mm_step (vmr_load_eq _ _ _ _ Hown _ _ _ _ El). simpl.
    by destruct (Z.ltb_spec (v_start (v_reg v)) (v_start rq)); [|lia].
  - simpl in El. destruct (mmap_node_facts _ _ _ _ Hown _ _ _ _ El) as (Hx & _). simpl. rewrite Hx.
    erewrite (M_bind_done (load p)) by (unfold load; by rewrite Hp).
    mm_step (vmr_load_eq _ _ _ _ Hown _ _ _ _ El). simpl.
    destruct (Z.ltb_spec (v_start (v_reg v)) (v_start rx)).
    { specialize (Hall x rx ltac:(by left)). lia. }
    apply (IH (l1 ++ [(x, rx)])); [by rewrite <- app_assoc|lia| |done]. intros y ry Hin. apply (Hall y). by right.
Qed.
End Check.

(** ** Linking a new region in *)
Definition mapped (mm : Z) (r : vreg) : vreg := set_vmmap mm (add_refs 2 r).
Definition with_ends l (s : mmap_t) : mmap_t := set_vmr_head (hd_addr l 0) (set_vmr_tail (last_addr l 0) s).

Lemma with_ends_id l s : vmr_head s = hd_addr l 0 -> vmr_tail s = last_addr l 0 -> with_ends l s = s.
Proof. unfold with_ends. intros <- <-. by destruct s. Qed.
Lemma mapped_twice mm r : set_vmmap mm (add_refs 1 (add_refs 1 r)) = mapped mm r.
Proof. unfold mapped, add_refs, set_vmmap, set_refs. simpl. f_equal. lia. Qed.
Lemma mapped_range mm r : v_start (mapped mm r) = v_start r /\ v_end (mapped mm r) = v_end r.
Proof. done. Qed.
Lemma vmr_size_mapped mm r : vmr_size (mapped mm r) = vmr_size r.
Proof. done. Qed.

(** Memory after [p], a region [r] outside the list, was linked between [l1] and [l2]. *)
Definition linked_in (mm p : Z) (r : vreg) l1 l2 (s : mmap_t) (m m' : kmem) : Prop :=
  let l' := l1 ++ (p, mapped mm r) :: l2 in
  exists h', m' = h_set (<[mm := with_ends l' (add_space 1 (vmr_size r) s)]> (mmaps m)) (h_set h' m) /\
    vseg h' 0 l' 0 /\ (forall x, x <> p -> x ∉ addrs (l1 ++ l2) -> h' !! x = vmrs m !! x).

Section Link.
Context (m : kmem) (mm p : Z) (s : mmap_t) (r : vreg) (pv nx : Z).
Hypothesis Hp : vmrs m !! p = Some (mkVmr r pv nx).

Ltac vstep := apply wp_bind; eapply wp_modify; [ksimpl; by simplify_map_eq|]; ksimpl.
Ltac vload := apply wp_bind; eapply wp_load; [ksimpl; by simplify_map_eq|]; ksimpl.

(** Before a region that is not the first. *)
Lemma mapin_before_spec l1 o ro q rq l2 :
  mmap_own m mm s ((l1 ++ [(o, ro)]) ++ (q, rq) :: l2) -> p ∉ addrs ((l1 ++ [(o, ro)]) ++ (q, rq) :: l2) ->
  wp (mapin_before mm p q) (fun _ => linked_in mm p r (l1 ++ [(o, ro)]) ((q, rq) :: l2) s m) m.
Proof.
  intros [[H0 Ho Hhd Htl Hlim Hs Hok Hrg] Hh] Hpl.
  pose proof Hs as [Hs1 Hs2]%vseg_app. pose proof (vseg_mid _ _ _ _ _ _ _ Hs) as Hq.
  rewrite last_addr_snoc in Hs2, Hq. cbn [fst] in Hs2, Hq.
  assert (vmrs m !! o = Some (mkVmr ro (last_addr l1 0) q)) as Hov by (by apply vseg_app in Hs1 as [_ [? _]]).
  pose proof Hok as (Hok1 & Hok2 & Hd)%dll_ok_app.
  apply dll_ok_app in Hok1 as (_ & [[? _] _]%dll_ok_cons & Hd1).
  apply dll_ok_cons in Hok2 as (_ & Hq2 & _). simpl in *.
  setoid_rewrite elem_of_addrs_app in Hd. setoid_rewrite elem_of_addrs_cons in Hd. simpl in Hd.
  setoid_rewrite elem_of_addrs_cons in Hd1. simpl in Hd1.
  rewrite !elem_of_addrs_app, !elem_of_addrs_cons in Hpl. simpl in Hpl.
  assert (o <> q /\ p <> o /\ p <> q /\ o ∉ addrs l1 /\ o ∉ addrs l2) as (Hoq & Hpo & Hpq & Ho1 & Ho2).
  { split_and!; try naive_solver. }
  assert (q ∉ addrs l1) as Hq1 by (intros Hin; apply (Hd q); auto).
  unfold mapin_before. apply wp_bind. eapply wp_load; [exact Hq|]. cbn [v_prev].
  vstep. vstep. unfold is_null. rewrite (proj2 (Z.eqb_neq o 0)) by lia. simpl.
  apply wp_bind. vstep. vstep. apply wp_ret. vstep. vstep. unfold mapin_account. vstep. vload.
  eapply wp_modify; [ksimpl; exact Ho|]. ksimpl. unfold on_reg, set_vprev, set_vnext. simpl.
  rewrite mapped_twice, vmr_size_mapped. set (h' := <[p := _]> _).
  assert (h' !! p = Some (mkVmr (mapped mm r) o q)) as Hp' by (unfold h'; by simplify_map_eq).
  assert (h' !! o = Some (mkVmr ro (last_addr l1 0) p)) as Ho' by (unfold h'; by simplify_map_eq).
  assert (h' !! q = Some (mkVmr rq p (hd_addr l2 0))) as Hq' by (unfold h'; by simplify_map_eq).
  assert (forall x, x <> p -> x <> o -> x <> q -> h' !! x = vmrs m !! x) as Hx'.
  { intros x Hxp Hxo Hxq. unfold h'. by rewrite !lookup_insert_ne by done. }
  clearbody h'. exists h'. split; [|split].
  - f_equal. f_equal. rewrite with_ends_id; [done|..]; simpl.
    + rewrite Hhd. by rewrite !hd_addr_app.
    + rewrite Htl. by rewrite !last_addr_app.
  - apply vseg_link.
    + eapply vseg_set_next; [exact Hs1|done|]. intros x Hx. apply Hx'; naive_solver.
    + by rewrite last_addr_snoc.
    + eapply vseg_set_prev; [exact Hs2|done|]. intros x Hx. apply Hx'; naive_solver.
  - intros x Hxp. rewrite !elem_of_addrs_app, !elem_of_addrs_cons. simpl. intros Hx. apply Hx'; naive_solver.
Qed.

(** After the last region. *)
Lemma mapin_last_spec l1 o ro :
  mmap_own m mm s (l1 ++ [(o, ro)]) -> p ∉ addrs (l1 ++ [(o, ro)]) ->
  wp (mapin_last mm p) (fun _ => linked_in mm p r (l1 ++ [(o, ro)]) [] s m) m.
Proof.
  intros [[H0 Ho Hhd Htl Hlim Hs Hok Hrg] Hh] Hpl.
  pose proof (vseg_mid _ _ _ _ _ _ _ Hs) as Hov. simpl in Hov.
  apply dll_ok_app in Hok as (_ & [[? _] _]%dll_ok_cons & Hd1).
  setoid_rewrite elem_of_addrs_cons in Hd1. simpl in *.
  rewrite !elem_of_addrs_app, !elem_of_addrs_cons in Hpl. simpl in Hpl.
  assert (p <> o /\ o ∉ addrs l1) as (Hpo & Ho1) by (split; naive_solver).
  rewrite last_addr_snoc in Htl. cbn [fst] in Htl.
  unfold mapin_last. vstep. apply wp_bind. eapply wp_load; [ksimpl; exact Ho|]. rewrite Htl. vstep.
  unfold is_null. rewrite (proj2 (Z.eqb_neq o 0)) by lia. simpl.
  apply wp_bind. vstep. vstep. eapply wp_modify; [ksimpl; exact Ho|]. ksimpl.
  vstep. vstep. unfold mapin_account. vstep. vload. eapply wp_modify; [ksimpl; by simplify_map_eq|]. ksimpl.
  unfold on_reg, set_vprev, set_vnext. simpl.
  rewrite mapped_twice, vmr_size_mapped, !insert_insert_eq.
  rewrite (h_set_comm (T1:=vmr_t) (T2:=mmap_t)). ksimpl. set (h' := <[p := _]> _).
  assert (h' !! p = Some (mkVmr (mapped mm r) o 0)) as Hp' by (unfold h'; rewrite Htl; by simplify_map_eq).
  assert (h' !! o = Some (mkVmr ro (last_addr l1 0) p)) as Ho' by (unfold h'; by simplify_map_eq).
  assert (forall x, x <> p -> x <> o -> h' !! x = vmrs m !! x) as Hx'.
  { intros x Hxp Hxo. unfold h'. by rewrite !lookup_insert_ne by done. }
  clearbody h'. exists h'. split; [|split].
  - f_equal. f_equal. unfold with_ends. rewrite last_addr_snoc, !hd_addr_app in *. simpl in Hhd |- *.
    rewrite <- Hhd. by destruct s.
  - apply vseg_link; [|by rewrite last_addr_snoc|done].
    eapply vseg_set_next; [exact Hs|done|]. intros x Hx. apply Hx'; naive_solver.
  - intros x Hxp. rewrite !elem_of_addrs_app, !elem_of_addrs_cons. simpl. intros Hx. apply Hx'; naive_solver.
Qed.
End Link.

(** ** [mmap_mapin] *)

(** The list around a free range that does not come before the first region. *)
Lemma split_at_start lo l a :
  ranges_from lo mmap_limit l ->
  exists l1 l2, l = l1 ++ l2 /\ (forall p r, (p, r) ∈ l1 -> v_start r <= a) /\
    (forall p r, (p, r) ∈ l2 -> a < v_start r).
Proof.
  revert lo. induction l as [|[p r] l IH]; intros lo.
  - intros _. exists [], []. split_and!; [done|by intros ? ? ?%not_elem_of_nil..].
  - intros (Hr & Hl & H). destruct (decide (v_start r <= a)).
    + destruct (IH _ H) as (l1 & l2 & -> & H1 & H2). exists ((p, r) :: l1), l2. split_and!; try done.
      intros q rq [[= -> ->]|Hin]%elem_of_cons; eauto.
    + exists [], ((p, r) :: l). split_and!; [done|by intros ? ? ?%not_elem_of_nil|].
      intros q rq [[= -> ->]|Hin]%elem_of_cons; [lia|]. pose proof (ranges_from_elem _ _ _ _ _ H Hin). lia.
Qed.

Lemma ranges_link l1 l2 p r :
  ranges_from 0 mmap_limit (l1 ++ l2) -> gap_lo 0 l1 <= v_start r <= v_end r -> v_end r < gap_hi l2 ->
  ranges_from 0 mmap_limit (l1 ++ (p, r) :: l2).
Proof.
  assert (forall lo, lo <= mmap_limit + 1 -> ranges_from lo mmap_limit (l1 ++ l2) -> gap_lo lo l1 <= v_start r <= v_end r ->
    v_end r < gap_hi l2 -> ranges_from lo mmap_limit (l1 ++ (p, r) :: l2)) as Hg; [|by apply Hg].
  induction l1 as [|[q rq] l1 IH]; intros lo Hlo; simpl.
  - intros H Hs He. unfold gap_lo in Hs. simpl in Hs. split; [lia|].
    destruct l2 as [|[o ro] l2]; simpl in *; [lia|]. destruct H as (H1 & H2 & H3). split_and!; try lia. done.
  - intros (Hr & Hl & H) Hs He. split; [done|]. split; [done|]. apply IH; try done; [lia|].
    assert (gap_lo lo ((q, rq) :: l1) = gap_lo (v_end rq + 1) l1) as <-; [|done].
    unfold gap_lo. destruct l1 as [|[o ro] l1]; [done|]. change (last ((q, rq) :: (o, ro) :: l1)) with (last ((o, ro) :: l1)).
    destruct (last ((o, ro) :: l1)) as [[? ?]|] eqn:E; [done|]. by apply last_None in E.
Qed.

(** A free range fits between the two parts of the list around its start. *)
Lemma free_between l1 l2 a last :
  ranges_from 0 mmap_limit (l1 ++ l2) -> 0 <= a <= last -> last <= mmap_limit -> is_free (l1 ++ l2) a last = true ->
  (forall p r, (p, r) ∈ l1 -> v_start r <= a) -> (forall p r, (p, r) ∈ l2 -> a < v_start r) ->
  gap_lo 0 l1 <= a /\ last < gap_hi l2.
Proof.
  intros Hr Ha Hl Hf H1 H2. rewrite is_free_spec in Hf. split.
  - destruct l1 as [|[p r] l1 _] using rev_ind; [unfold gap_lo; simpl; lia|]. unfold gap_lo. rewrite last_snoc.
    destruct (Hf p r); [apply elem_of_app; left; apply elem_of_app; right; by left|lia|].
    specialize (H1 p r ltac:(apply elem_of_app; right; by left)). lia.
  - destruct l2 as [|[p r] l2]; simpl; [lia|]. specialize (H2 p r ltac:(by left)).
    destruct (Hf p r); [apply elem_of_app; right; by left| |lia].
    destruct (ranges_from_elem _ _ _ p r Hr); [apply elem_of_app; right; by left|]. lia.
Qed.

Lemma vmr_size_eq r : 0 <= v_start r <= v_end r -> v_end r <= mmap_limit -> vmr_size r = v_end r - v_start r + 1.
Proof.
  intros H1 H2. pose proof mmap_limit_small. unfold vmr_size.
  rewrite (u64_small (v_end r - v_start r)), u64_small; unfold is_u64; lia.
Qed.

(** An outcome of [mmap_mapin] on a region [r] at [p] outside the list [l]. *)
Definition mapin_outcome (mm p : Z) (r : vreg) l (s : mmap_t) (m : kmem) (e : Z) (m' : kmem) : Prop :=
  if mmap_limit <? v_end r then e = - EINVAL /\ m' = m
  else if is_free l (v_start r) (v_end r)
  then e = 0 /\ exists l1 l2, l = l1 ++ l2 /\ ranges_from 0 mmap_limit (l1 ++ (p, r) :: l2) /\ linked_in mm p r l1 l2 s m m'
  else e = - EEXIST /\ m' = m.

(** The new region does not come before the first one. *)
Definition heads_below l (a : Z) : Prop := match l with [] => True | (_, r) :: _ => v_start r <= a end.

Section Mapin.
Context (m : kmem) (mm p : Z) (s : mmap_t) (r : vreg) (l : list (Z * vreg)).
Hypothesis Hp : vmrs m !! p = Some (mkVmr r 0 0).
Hypothesis Hown : mmap_own m mm s l.
Hypothesis Hpl : p ∉ addrs l.
Ltac mm_step H := erewrite M_bind_done by (exact H).
Ltac vstep := apply wp_bind; eapply wp_modify; [ksimpl; by simplify_map_eq|]; ksimpl.
Ltac vload := apply wp_bind; eapply wp_load; [ksimpl; by simplify_map_eq|]; ksimpl.

Lemma mapin_empty_spec :
  l = [] ->
  wp (do! modify p (on_reg (add_refs 2)) in
      do! modify mm (fun s => set_vmr_head p (set_vmr_tail p s)) in
      do! mapin_account mm p in
      ret! 0) (fun e m' => e = 0 /\ linked_in mm p r [] [] s m m') m.
Proof.
  intros El. pose proof Hown as [[H0 Ho _ _ _ _ _ _] _].
  vstep. apply wp_bind. eapply wp_modify; [ksimpl; exact Ho|]. ksimpl.
  unfold mapin_account. apply wp_bind. vstep. vload. eapply wp_modify; [ksimpl; by simplify_map_eq|]. ksimpl.
  apply wp_ret. split; [done|]. unfold on_reg. simpl. fold (mapped mm r). rewrite vmr_size_mapped, !insert_insert_eq.
  rewrite (h_set_comm (T1:=vmr_t) (T2:=mmap_t)). ksimpl. eexists. split_and!; [reflexivity|..].
  - simpl. split; [by simplify_map_eq|done].
  - intros x Hx _. by simplify_map_eq.
Qed.

Lemma mapin_insert_spec l1 l2 fuel :
  l = l1 ++ l2 -> l1 <> [] -> (length l < fuel)%nat ->
  (forall q rq, (q, rq) ∈ l1 -> v_start rq <= v_start r) ->
  (forall q rq, (q, rq) ∈ l2 -> v_start r < v_start rq) ->
  wp (let! ins := mapin_loop fuel mm p (vmr_head s) in
      if ins then ret! 0 else
      do! mapin_last mm p in
      ret! 0) (fun e m' => e = 0 /\ linked_in mm p r l1 l2 s m m') m.
Proof.
  intros El Hl1 Hf H1 H2. rewrite (mr_head _ _ _ _ (proj1 Hown)).
  destruct l2 as [|[q rq] l2].
  - rewrite app_nil_r in El. apply wp_bind.
    eapply wp_done. exists false, m. split; [apply (mapin_loop_eq _ _ _ _ Hown p _ [] l _ Hp); subst; done|].
    destruct l1 as [|[o ro] l1 _] using rev_ind; [done|]. apply wp_bind. subst l.
    eapply wp_mono; [by apply (mapin_last_spec m mm p s r 0 0 Hp)|]. intros [] m' H. by apply wp_ret.
  - apply wp_bind. unfold wp. subst l.
    rewrite (mapin_loop_stop _ _ _ _ Hown p _ [] l1 q rq l2 _ Hp); [|done|by rewrite length_app in Hf|done|].
    2: { simpl. apply (H2 q). by left. }
    destruct l1 as [|[o ro] l1 _] using rev_ind; [done|]. apply wp_bind.
    eapply wp_mono; [by apply (mapin_before_spec m mm p s r 0 0 Hp)|]. intros [] m' H. apply wp_ret. by apply wp_ret.
Qed.

Lemma mmap_mapin_spec :
  VMA_BASE < p -> 0 <= v_start r <= v_end r -> is_u64 (v_end r) -> heads_below l (v_start r) ->
  wp (mmap_mapin mm p) (mapin_outcome mm p r l s m) m.
Proof.
  intros Hb Hse He Hhb. unfold mapin_outcome, wp, mmap_mapin. rewrite (mmap_not_null _ _ _ _ Hown).
  assert (is_null p = false) as Hpn by (apply Z.eqb_neq; unfold VMA_BASE in Hb; lia). rewrite Hpn. cbn [orb].
  rewrite (proj2 (Z.ltb_lt VMA_BASE p)) by done. cbn [M_assert]. unfold M_bind at 1, M_ret at 1.
  mm_step (mmap_contains_eq _ _ _ _ Hown p Hpn). rewrite bool_decide_eq_false_2 by done. cbn [negb Z.eqb].
  erewrite (M_bind_done (load p)) by (unfold load; by rewrite Hp). cbn [v_reg].
  destruct (Z.ltb_spec mmap_limit (v_end r)); [by rewrite orb_true_r|].
  rewrite vmr_size_eq by lia. rewrite (proj2 (Z.eqb_neq _ 0)) by lia. cbn [orb].
  destruct (vmr_fuel_eq _ _ _ _ Hown) as (n & Hn & Hlt). mm_step Hn.
  erewrite M_bind_done by (apply (mapin_check_eq _ _ _ _ Hown); lia).
  destruct (is_free l (v_start r) (v_end r)) eqn:Hfree; [|done]. cbn [negb Z.eqb].
  mm_step (mmap_load_eq _ _ _ _ Hown).
  destruct (split_at_start _ _ (v_start r) (mr_ranges _ _ _ _ (proj1 Hown))) as (l1 & l2 & El & H1 & H2).
  pose proof (mr_ranges _ _ _ _ (proj1 Hown)) as Hrg. rewrite El in Hrg, Hfree.
  destruct (free_between _ _ _ _ Hrg ltac:(done) ltac:(done) Hfree H1 H2) as [Hlo Hhi].
  pose proof (ranges_link _ _ p r Hrg ltac:(lia) Hhi) as Hrg'.
  pose proof (mr_ok _ _ _ _ (proj1 Hown)) as Hok. pose proof (mr_head _ _ _ _ (proj1 Hown)) as Hhd.
  assert (l = [] \/ exists q rq l0, l = (q, rq) :: l0) as [El0|(q & rq & l0 & El0)].
  { destruct l as [|[q rq] l0]; [by left|right; eauto]. }
  - pose proof El as El'. rewrite El0 in El'. symmetry in El'. apply app_eq_nil in El' as [-> ->].
    replace (is_null (vmr_head s)) with true by (by rewrite Hhd, El0).
    eapply wp_mono; [by apply mapin_empty_spec|]. intros e m' [-> HL]. split; [done|]. by exists [], [].
  - destruct (mmap_node_facts _ _ _ _ Hown [] q rq l0 El0) as (Hq & _). 
    replace (is_null (vmr_head s)) with false by (by rewrite Hhd, El0).
    eapply wp_mono; [apply (mapin_insert_spec l1 l2); try done|].
    + intros ->. simpl in El. rewrite <- El, El0 in H2. specialize (H2 q rq ltac:(by left)).
      rewrite El0 in Hhb. simpl in Hhb. lia.
    + intros e m' [-> HL]. split; [done|]. by exists l1, l2.
Qed.
End Mapin.

Lemma ranges_mapped lo lim mm l1 p r l2 :
  ranges_from lo lim (l1 ++ (p, r) :: l2) -> ranges_from lo lim (l1 ++ (p, mapped mm r) :: l2).
Proof. revert lo. induction l1 as [|[q rq] l1 IH]; intros lo; simpl; [done|]. intros (? & ? & ?). auto. Qed.

(** The address space after a region was linked in. *)
Lemma linked_mmap_own m mm p r s l1 l2 m' :
  mmap_own m mm s (l1 ++ l2) -> addr_ok p -> p ∉ addrs (l1 ++ l2) ->
  ranges_from 0 mmap_limit (l1 ++ (p, r) :: l2) -> linked_in mm p r l1 l2 s m m' ->
  let l' := l1 ++ (p, mapped mm r) :: l2 in
  mmap_own m' mm (with_ends l' (add_space 1 (vmr_size r) s)) l' /\ mmap_frame mm (p :: addrs (l1 ++ l2)) m m'.
Proof.
  intros [[H0 Ho Hhd Htl Hlim Hs Hok Hrg] Hh] Ha Hp Hrg' (h' & -> & Hs' & Hx). split; [split; [split|]|split].
  - done.
  - ksimpl. by simplify_map_eq.
  - done.
  - done.
  - done.
  - by ksimpl.
  - apply dll_ok_app in Hok as (Hok1 & Hok2 & Hd). rewrite elem_of_addrs_app in Hp.
    apply dll_ok_app. split_and!; [done|apply dll_ok_cons; naive_solver|].
    intros q Hq [->|Hq2]%elem_of_addrs_cons; [naive_solver|]. by apply (Hd q).
  - by apply ranges_mapped.
  - ksimpl. done.
  - unfold mm_erase. by rewrite (h_set_comm (T1:=vmr_t) (T2:=mmap_t)), !h_set_set.
  - intros q Hq. ksimpl. by rewrite lookup_insert_ne.
  - intros q [Hqp Hql]%not_elem_of_cons. ksimpl. by apply Hx.
Qed.
