(* ===== verification/MmapRegion.v ===== *)
(** * Creating regions

    What [mmap_map_region] does when the kernel picks the address: it finds a free
    range exactly when there is one, and links a region of that range into the
    sorted list. *)
From S2P Require Import Prelude Errno Spinlock KMem Queue Dll Mmap MmapFacts MmapHoles MmapMap.

Implicit Types (l : list (Z * vreg)).

(** The bytes a request needs: a stack gets a guard as well. *)
Definition region_size (s : mmap_t) (len flags : Z) : Z :=
  if has flags MAP_STACK then len + mm_guard s else len.
Definition new_region (mm : Z) (s : mmap_t) (a size prot flags : Z) : vreg :=
  let f := region_flags prot flags in
  mkVreg 2 f (region_vflags f (mm_flags s)) 0 0 0 0 0 mm 0 0 a (a + size - 1).

(** [s] with one more region, of [size] bytes, in the list [l]. *)
Definition grown l (size : Z) (s : mmap_t) : mmap_t := with_ends l (add_space 1 size s).

Section Region.
Context {KA : KAlloc} {PG : Paging}.

(** [vmr_alloc] and the assignments that follow it leave a fresh region. *)
Definition region_outcome (mm : Z) (s : mmap_t) l (len prot flags : Z) (m : kmem)
    (res : Z * option Z) (m' : kmem) : Prop :=
  let size := region_size s len flags in
  (res = (- ENOMEM, None) /\ m' = m /\ forall a, ~ free_range l a size) \/
  (res = (- ENOMEM, None) /\ m' = set_tick (S (k_tick m)) m /\ ka_pick (k_tick m) (k_live m) = None) \/
  (exists p a l1 l2, res = (0, Some p) /\ l = l1 ++ l2 /\ free_range l a size /\ p ∉ k_live m /\
     let l' := l1 ++ (p, new_region mm s a size prot flags) :: l2 in
     mmap_own m' mm (grown l' size s) l' /\ mmap_frame mm (p :: addrs l) m m').

Context (m : kmem) (mm : Z) (s : mmap_t) (l : list (Z * vreg)).
Hypothesis Hown : mmap_own m mm s l.
Hypothesis Hupper : forall n live p, ka_pick n live = Some p -> VMA_BASE < p.
Ltac mm_step H := erewrite M_bind_done by (exact H).

Lemma mmap_own_fresh p r :
  vmrs m !! p = None -> mmap_own (h_set (<[p := r]> (vmrs m)) (set_tick (S (k_tick m)) m)) mm s l.
Proof.
  intros Hp. destruct Hown as [[H0 Ho Hhd Htl Hlim Hs Hok Hrg] Hh].
  split; [split; try done; ksimpl; try done|ksimpl; done].
  apply vseg_insert; [|done]. intros Hin. destruct (vseg_lookup _ _ _ _ _ Hs Hin). congruence.
Qed.

Lemma free_range_is_free a size : 0 < size -> free_range l a size -> is_free l a (a + size - 1) = true.
Proof. intros Hs (_ & _ & H). apply is_free_spec. intros p r Hin. destruct (H p r Hin); lia. Qed.

Lemma find_holeat_any addr size flags :
  is_u64 addr -> is_u64 size -> 0 < size -> (has flags MAP_STACK = true -> 1 < size) ->
  exists res, mmap_find_holeat mm addr size true
      (if has flags MAP_STACK then whence_end else whence_start) m = Done res m /\ hole_result l size res.
Proof.
  intros Ha Hs Hp H1. destruct (has flags MAP_STACK).
  - apply (find_holeat_end _ _ _ _ Hown); auto.
  - by apply (find_holeat_start _ _ _ _ Hown).
Qed.

Lemma aligned_big len : isaligned len = true -> 0 < len -> 1 < len.
Proof. intros H Hl. destruct (decide (len = 1)) as [->|]; [by vm_compute in H|lia]. Qed.

(** The region just before it is mapped. *)
Definition raw_region (s : mmap_t) (a size prot flags : Z) : vreg :=
  let f := region_flags prot flags in
  mkVreg 0 f (region_vflags f (mm_flags s)) 0 0 0 0 0 0 0 0 a (a + size - 1).

Lemma free_range_bounds a size : 0 < size -> free_range l a size -> is_u64 a /\ is_u64 (a + size) /\ 0 <= a.
Proof. intros Hs (H0 & H1 & _). pose proof mmap_limit_small. unfold is_u64. lia. Qed.

(** Mapping a fresh region over a free range. *)
Lemma mapin_fresh_spec p a size prot flags :
  heads_below l 0 -> 0 < size -> free_range l a size -> VMA_BASE < p -> addr_ok p -> p ∉ k_live m ->
  vmrs m !! p = None ->
  let m1 := h_set (<[p := mkVmr (raw_region s a size prot flags) 0 0]> (vmrs m)) (set_tick (S (k_tick m)) m) in
  wp (mmap_mapin mm p) (fun e m' => e = 0 /\ exists l1 l2, l = l1 ++ l2 /\
     let l' := l1 ++ (p, new_region mm s a size prot flags) :: l2 in
     mmap_own m' mm (grown l' size s) l' /\ mmap_frame mm (p :: addrs l) m m') m1.
Proof.
  intros Hhb Hsz Hfree Hv Ha Hlive Hp m1.
  destruct (free_range_bounds _ _ Hsz Hfree) as (Ha1 & Ha2 & H0). pose proof Hfree as (_ & Hmax & _).
  assert (p ∉ addrs l) as Hpl.
  { intros Hin. destruct (vseg_lookup _ _ _ _ _ (mr_seg _ _ _ _ (proj1 Hown)) Hin). congruence. }
  pose proof (mmap_own_fresh p (mkVmr (raw_region s a size prot flags) 0 0) Hp) as Hown1. fold m1 in Hown1.
  assert (vmrs m1 !! p = Some (mkVmr (raw_region s a size prot flags) 0 0)) as Hp1 by (unfold m1; ksimpl; by simplify_map_eq).
  eapply wp_mono; [apply (mmap_mapin_spec _ _ _ _ _ _ Hp1 Hown1 Hpl Hv); simpl|].
  - lia.
  - unfold is_u64 in *. lia.
  - destruct l as [|[q rq] l0]; simpl in *; [done|lia].
  - intros e m' H. unfold mapin_outcome in H. simpl in H.
    destruct (Z.ltb_spec mmap_limit (a + size - 1)); [lia|]. rewrite free_range_is_free in H by done.
    destruct H as (-> & l1 & l2 & El & Hrg & HL). split; [done|]. exists l1, l2. split; [done|].
    rewrite El in Hown1, Hpl. destruct (linked_mmap_own _ _ _ _ _ _ _ _ Hown1 Ha Hpl Hrg HL) as [Ho Hf].
    rewrite vmr_size_eq in Ho by (simpl; lia). simpl in Ho. replace (a + size - 1 - a + 1) with size in Ho by lia.
    split; [exact Ho|]. eapply mmap_frame_trans; [intros q Hq; exact Hq| |rewrite El; exact Hf].
    split; [unfold m1, mm_erase; by rewrite (h_set_set (T:=vmr_t))|by unfold m1; ksimpl|].
    intros q [Hqp _]%not_elem_of_cons. unfold m1. ksimpl. by rewrite lookup_insert_ne.
Qed.

Ltac vstep := apply wp_bind; eapply wp_modify; [ksimpl; by simplify_map_eq|]; ksimpl; rewrite ?insert_insert_eq.

Lemma mmap_map_region_spec addr len prot flags :
  heads_below l 0 -> is_u64 addr -> 0 < len -> 0 <= mm_guard s -> is_u64 (len + mm_guard s) ->
  has flags MAP_FIXED = false -> map_args_bad addr len prot flags = false ->
  wp (mmap_map_region mm addr len prot flags true) (region_outcome mm s l len prot flags m) m.
Proof.
  intros Hhb Haddr Hlen Hg Hlg Hfix Hbad. unfold mmap_map_region, wp.
  rewrite (mmap_not_null _ _ _ _ Hown), Hfix, (proj2 (Z.eqb_neq len 0)) by lia. cbn [orb negb andb].
  mm_step (mmap_assert_locked_eq _ _ _ _ Hown). rewrite Hbad. mm_step (mmap_load_eq _ _ _ _ Hown).
  replace (if has flags MAP_STACK then u64 (len + mm_guard s) else len) with (region_size s len flags).
  2: { unfold region_size. by rewrite u64_small. }
  unfold region_outcome. set (size := region_size s len flags).
  assert (0 < size /\ is_u64 size /\ (has flags MAP_STACK = true -> 1 < size)) as (Hsz & Hu & H1).
  { unfold size, region_size. unfold is_u64 in *. unfold map_args_bad in Hbad. destruct (has flags MAP_STACK); [|split_and!; lia || done].
    apply orb_false_iff in Hbad as [[[_ Hal]%orb_false_iff _]%orb_false_iff _]. cbn [andb] in Hal.
    apply orb_false_iff in Hal as [_ Hal%negb_false_iff]. pose proof (aligned_big len Hal Hlen). lia. }
  clearbody size.
  destruct (find_holeat_any addr size flags Haddr Hu Hsz H1) as ([e a] & Ef & Hres). mm_step Ef.
  destruct Hres as [[He Hfree]|[He Hno]]; cbn [fst snd] in *; subst e; [|by left].
  simpl (negb _). cbn [fst snd]. destruct (free_range_bounds _ _ Hsz Hfree) as (Ha1 & Ha2 & H0).
  rewrite (u64_small (a + size)), (u64_small (a + size - 1)) by (unfold is_u64 in *; lia).
  unfold vmr_alloc. apply wp_bind, wp_bind, wp_kalloc; [intros Hpick; right; left; done|].
  intros p Hpick Hlive Hr Hp. unfold is_null. rewrite (proj2 (Z.eqb_neq p 0)) by lia. apply wp_ret. cbn [fst snd Z.eqb negb].
  vstep. vstep. vstep. apply wp_bind. unfold on_reg. simpl.
  eapply wp_mono; [apply (mapin_fresh_spec p a size prot flags); eauto|].
  intros e m' (-> & l1 & l2 & El & Ho & Hf). apply wp_ret. right. right. by exists p, a, l1, l2.
Qed.
End Region.

(** * Removing regions

    The unlinking of [mmap_remove] for an only, a first, a last and an inner
    region, and the address space and memory that result. *)

(** A neighbour that becomes the only region loses a reference. *)
Definition settle l : list (Z * vreg) :=
  match l with
  | [(p, r)] => [(p, add_refs (-1) r)]
  | _ => l
  end.
Lemma addrs_settle l : addrs (settle l) = addrs l.
Proof. by destruct l as [|[p r] [|]]. Qed.
Lemma settle_ranges lo lim l : ranges_from lo lim l -> ranges_from lo lim (settle l).
Proof. by destruct l as [|[p r] [|]]. Qed.
Lemma settle_long p r q rq l : settle ((p, r) :: (q, rq) :: l) = (p, r) :: (q, rq) :: l.
Proof. done. Qed.

(** Memory after [p] was unlinked from between [l1] and [l2]. *)
Record unlinked (mm p : Z) l1 l2 (s : mmap_t) (r : vreg) (m m' : kmem) : Prop := {
  ul_erase : mm_erase m' = mm_erase m;
  ul_maps : mmaps m' = <[mm := with_ends (settle (l1 ++ l2)) s]> (mmaps m);
  ul_seg : vseg (vmrs m') 0 (settle (l1 ++ l2)) 0;
  ul_node : exists k, 0 <= k /\ vmrs m' !! p = Some (mkVmr (add_refs (- k) r) (last_addr l1 0) (hd_addr l2 0));
  ul_other : forall x, x <> p -> x ∉ addrs (l1 ++ l2) -> vmrs m' !! x = vmrs m !! x
}.

Lemma add_refs_twice a b r : add_refs a (add_refs b r) = add_refs (b + a) r.
Proof. unfold add_refs, set_refs. simpl. f_equal. lia. Qed.
Lemma add_refs_zero r : add_refs 0 r = r.
Proof. destruct r. unfold add_refs, set_refs. simpl. f_equal. lia. Qed.

Lemma settle_two l1 x y l2 : settle ((l1 ++ [x]) ++ y :: l2) = (l1 ++ [x]) ++ y :: l2.
Proof. destruct x, y. by destruct l1 as [|[] [|[] ]]. Qed.

Section Unlink.
Context (m : kmem) (mm p : Z) (s : mmap_t) (r : vreg).
Ltac mstep := apply wp_bind; eapply wp_modify; [ksimpl; by simplify_map_eq|]; ksimpl; rewrite ?insert_insert_eq.
Ltac mlast := eapply wp_modify; [ksimpl; by simplify_map_eq|]; ksimpl; rewrite ?insert_insert_eq.
Ltac vload := apply wp_bind; eapply wp_load; [ksimpl; by simplify_map_eq|]; ksimpl.
Ltac skip := apply wp_bind, wp_ret.
Ltac nonnull x := unfold is_null; rewrite (proj2 (Z.eqb_neq x 0)) by lia; simpl.

Lemma unlink_only :
  mmap_own m mm s [(p, r)] -> wp (mmap_unlink mm p) (fun _ => unlinked mm p [] [] s r m) m.
Proof.
  intros [[H0 Ho Hhd Htl Hlim [Hp _] Hok Hrg] Hh]. simpl in *.
  unfold mmap_unlink. vload. simpl. skip. skip. vload. rewrite Hhd, Z.eqb_refl. simpl.
  apply wp_bind. mstep. apply wp_ret.
  vload. simpl. rewrite Htl, Z.eqb_refl. simpl. mstep. split; ksimpl; try done.
  exists 0. simpl. by rewrite add_refs_zero.
Qed.

Lemma unlink_mid l1 o ro q rq l2 :
  mmap_own m mm s ((l1 ++ [(o, ro)]) ++ (p, r) :: (q, rq) :: l2) ->
  wp (mmap_unlink mm p) (fun _ => unlinked mm p (l1 ++ [(o, ro)]) ((q, rq) :: l2) s r m) m.
Proof.
  intros [[H0 Ho Hhd Htl Hlim Hs Hok Hrg] Hh].
  pose proof Hs as [Hs1 Hs2]%vseg_app. rewrite last_addr_snoc in Hs2. destruct Hs2 as [Hp [Hq Hs2]].
  simpl in Hp, Hs1. assert (vmrs m !! o = Some (mkVmr ro (last_addr l1 0) p)) as Hov by (by apply vseg_app in Hs1 as [_ [? _]]).
  pose proof (dll_ok_mid _ _ _ _ Hok) as (Hok' & Hpn & Hpa & Hok1 & Hok2 & Hd).
  apply dll_ok_app in Hok1 as (_ & [[? _] _]%dll_ok_cons & Hd1). apply dll_ok_cons in Hok2 as ([? _] & Hq2 & _).
  setoid_rewrite elem_of_addrs_app in Hd. setoid_rewrite elem_of_addrs_cons in Hd. setoid_rewrite elem_of_addrs_cons in Hd1.
  simpl in *. rewrite !elem_of_addrs_app, !elem_of_addrs_cons in Hpn. simpl in Hpn.
  assert (o <> q /\ p <> o /\ p <> q /\ o ∉ addrs l1 /\ o ∉ addrs l2 /\ q ∉ addrs l1) as (Hoq & Hpo & Hpq & Ho1 & Ho2 & Hq1).
  { split_and!; naive_solver. }
  assert (hd_addr (l1 ++ (o, ro) :: (p, r) :: (q, rq) :: l2) 0 <> p) as Hnh.
  { destruct l1 as [|x l1]; simpl; [done|]. rewrite elem_of_addrs_cons in Hpn. naive_solver. }
  assert (last_addr ((q, rq) :: l2) 0 <> p) as Hnt.
  { intros E. apply Hpn. right. pose proof (last_addr_in ((q, rq) :: l2) 0 ltac:(done)) as Hin.
    rewrite E, elem_of_addrs_cons in Hin. simpl in Hin. naive_solver. }
  unfold mmap_unlink. vload. simpl. nonnull o. apply wp_bind. mstep. mlast.
  nonnull q. apply wp_bind. mstep. mlast. vload.
  rewrite Hhd, <- app_assoc. simpl. rewrite (proj2 (Z.eqb_neq _ p)) by done. simpl. skip. vload.
  rewrite Htl, !last_addr_app. simpl. rewrite (proj2 (Z.eqb_neq _ p)) by done. simpl. apply wp_ret.
  split.
  - done.
  - ksimpl. rewrite settle_two, with_ends_id; [by rewrite insert_id| |].
    + by rewrite Hhd, !hd_addr_app.
    + by rewrite Htl, !last_addr_app.
  - rewrite settle_two. ksimpl. apply vseg_app. split.
    + eapply vseg_set_next; [exact Hs1|by simplify_map_eq|]. intros x Hx. rewrite !lookup_insert_ne by naive_solver. done.
    + rewrite last_addr_snoc. eapply vseg_set_prev; [split; [exact Hq|exact Hs2]|by simplify_map_eq|].
      intros x Hx. rewrite !lookup_insert_ne by naive_solver. done.
  - exists 2. split; [done|]. ksimpl. simplify_map_eq. unfold on_reg. simpl. rewrite add_refs_twice, last_addr_snoc. done.
  - intros x Hx. rewrite !elem_of_addrs_app, !elem_of_addrs_cons. simpl. intros Hn. ksimpl.
    rewrite !lookup_insert_ne by naive_solver. done.
Qed.

Lemma unlink_first q rq l2 :
  mmap_own m mm s ((p, r) :: (q, rq) :: l2) ->
  wp (mmap_unlink mm p) (fun _ => unlinked mm p [] ((q, rq) :: l2) s r m) m.
Proof.
  intros [[H0 Ho Hhd Htl Hlim Hs Hok Hrg] Hh]. destruct Hs as [Hp [Hq Hs]].
  apply dll_ok_cons in Hok as ([? _] & Hpn & Hok). pose proof Hok as ([? _] & Hq2 & Hok2)%dll_ok_cons.
  rewrite elem_of_addrs_cons in Hpn. simpl in *.
  assert (p <> q /\ p ∉ addrs l2) as [Hpq Hp2] by (split; naive_solver).
  assert (last_addr l2 q <> p) as Hnt.
  { intros E. pose proof (last_addr_in ((q, rq) :: l2) 0 ltac:(done)) as Hin. simpl in Hin.
    rewrite E, elem_of_addrs_cons in Hin. simpl in Hin. naive_solver. }
  unfold mmap_unlink. vload. simpl. skip. nonnull q. apply wp_bind. mstep. mlast. vload.
  rewrite Hhd, Z.eqb_refl. simpl. apply wp_bind. mstep. mstep. vload. simpl.
  destruct l2 as [|[q2 rq2] l2].
  - simpl. mlast. vload. simpl in *. rewrite Htl, (proj2 (Z.eqb_neq q p)) by done. apply wp_ret. split; ksimpl; try done.
    + unfold with_ends. simpl. do 2 f_equal. rewrite <- Htl. by destruct s.
    + simpl. by simplify_map_eq.
    + exists 1. by simplify_map_eq.
    + intros x Hx Hn. simpl in Hn. rewrite elem_of_addrs_cons in Hn. simpl in Hn. rewrite !lookup_insert_ne by naive_solver. done.
  - simpl. apply dll_ok_cons in Hok2 as ([? _] & _ & _). simpl in *. nonnull q2. apply wp_ret. vload. simpl in *.
    rewrite Htl, (proj2 (Z.eqb_neq _ p)) by done. apply wp_ret. split; ksimpl; try done.
    + unfold with_ends. simpl. do 2 f_equal. rewrite <- Htl. by destruct s.
    + simpl ([] ++ _). rewrite settle_long. eapply (vseg_set_prev _ _ _ _ ((q2, rq2) :: l2) q); [split; [exact Hq|exact Hs]|by simplify_map_eq|].
      intros x Hx. rewrite !lookup_insert_ne by naive_solver. done.
    + exists 1. by simplify_map_eq.
    + intros x Hx Hn. simpl in Hn. rewrite elem_of_addrs_cons in Hn. simpl in Hn. rewrite !lookup_insert_ne by naive_solver. done.
Qed.

Lemma unlink_last l1 o ro :
  mmap_own m mm s ((l1 ++ [(o, ro)]) ++ [(p, r)]) ->
  wp (mmap_unlink mm p) (fun _ => unlinked mm p (l1 ++ [(o, ro)]) [] s r m) m.
Proof.
  intros [[H0 Ho Hhd Htl Hlim Hs Hok Hrg] Hh].
  pose proof Hs as [Hs1 [Hp _]]%vseg_app. rewrite last_addr_snoc in Hp.
  simpl in Hp, Hs1. assert (vmrs m !! o = Some (mkVmr ro (last_addr l1 0) p)) as Hov by (by apply vseg_app in Hs1 as [_ [? _]]).
  pose proof (dll_ok_mid _ _ _ _ Hok) as (_ & Hpn & Hpa & Hok1 & _).
  apply dll_ok_app in Hok1 as (Hok1 & [[? _] _]%dll_ok_cons & Hd1). setoid_rewrite elem_of_addrs_cons in Hd1.
  rewrite app_nil_r, elem_of_addrs_app, elem_of_addrs_cons in Hpn. simpl in *.
  assert (p <> o /\ p ∉ addrs l1 /\ o ∉ addrs l1) as (Hpo & Hp1 & Ho1) by (split_and!; naive_solver).
  assert (hd_addr (l1 ++ (o, ro) :: [(p, r)]) 0 <> p) as Hnh.
  { destruct l1 as [|x l1]; simpl; [done|]. rewrite elem_of_addrs_cons in Hp1. naive_solver. }
  rewrite last_addr_snoc in Htl. simpl in Htl. rewrite <- app_assoc in Hhd. simpl in Hhd.
  unfold mmap_unlink. vload. simpl. nonnull o. apply wp_bind. mstep. mlast. skip. vload.
  rewrite Hhd, (proj2 (Z.eqb_neq _ p)) by done. simpl. skip. vload. rewrite Htl, Z.eqb_refl. simpl.
  mstep. mstep. vload. simpl. destruct l1 as [|[o' ro'] l1].
  - simpl in *. mlast. split; ksimpl; try done.
    + unfold with_ends. simpl. do 2 f_equal. destruct s. simpl in *. by subst.
    + simpl. by simplify_map_eq.
    + exists 1. by simplify_map_eq.
    + intros x Hx Hn. simpl in Hn. rewrite elem_of_addrs_cons in Hn. simpl in Hn. rewrite !lookup_insert_ne by naive_solver. done.
  - assert (is_null (last_addr ((o', ro') :: l1) 0) = false) as Hnn.
    { destruct (is_null _) eqn:E; [|done]. by apply (dll_ok_last_null _ Hok1) in E. }
    unfold is_null in Hnn. rewrite Hnn. simpl (M_when _ _). apply wp_ret.
    assert (settle ((((o', ro') :: l1) ++ [(o, ro)]) ++ []) = ((o', ro') :: l1) ++ [(o, ro)]) as Est.
    { rewrite app_nil_r. simpl. by destruct l1. }
    split; rewrite ?Est; ksimpl; try done.
    + unfold with_ends. rewrite last_addr_snoc. simpl. do 2 f_equal. destruct s. simpl in *. by subst.
    + eapply vseg_set_next; [exact Hs1|by simplify_map_eq|]. intros x Hx. rewrite !lookup_insert_ne by naive_solver. done.
    + exists 1. simplify_map_eq. by rewrite last_addr_snoc.
    + intros x Hx Hn. rewrite app_nil_r, elem_of_addrs_app, !elem_of_addrs_cons in Hn. simpl in Hn.
      rewrite !lookup_insert_ne by naive_solver. done.
Qed.

Lemma mmap_unlink_spec l1 l2 :
  mmap_own m mm s (l1 ++ (p, r) :: l2) -> wp (mmap_unlink mm p) (fun _ => unlinked mm p l1 l2 s r m) m.
Proof.
  destruct l1 as [|[o ro] l1 _] using rev_ind; destruct l2 as [|[q rq] l2].
  - apply unlink_only.
  - apply unlink_first.
  - apply unlink_last.
  - apply unlink_mid.
Qed.
End Unlink.

(** ** [mmap_remove] *)

(** The pointer of the address space that named the region is cleared. *)
Definition forget (p : Z) (s : mmap_t) : mmap_t :=
  if p =? mm_heap s then set_special (mm_arg s) (mm_env s) 0 0 s
  else if p =? mm_arg s then set_special 0 (mm_env s) (mm_heap s) (mm_brk s) s
  else if p =? mm_env s then set_special (mm_arg s) 0 (mm_heap s) (mm_brk s) s
  else s.
Definition shrunk (p : Z) l (s : mmap_t) : mmap_t := forget p (add_space (-1) 0 (with_ends l s)).

Lemma shrunk_facts p l s :
  vmr_head (shrunk p l s) = hd_addr l 0 /\ vmr_tail (shrunk p l s) = last_addr l 0 /\
  mm_limit (shrunk p l s) = mm_limit s /\ mm_lock (shrunk p l s) = mm_lock s.
Proof. unfold shrunk, forget. by repeat case_match. Qed.

Section Remove.
Context (m : kmem) (mm p : Z) (s : mmap_t) (r : vreg) (l1 l2 : list (Z * vreg)).
Hypothesis Hown : mmap_own m mm s (l1 ++ (p, r) :: l2).
Ltac mm_step H := erewrite M_bind_done by (exact H).
Ltac vload := apply wp_bind; eapply wp_load; [ksimpl; by simplify_map_eq|]; ksimpl.

Definition removed (m' : kmem) : Prop :=
  let l' := settle (l1 ++ l2) in
  mmap_own m' mm (shrunk p l' s) l' /\ vmrs m' !! p = None /\ mmap_frame mm (p :: addrs (l1 ++ l2)) m m'.

(** What the memory after the unlinking, with the region gone, amounts to. *)
Lemma unlinked_removed m1 m' :
  unlinked mm p l1 l2 s r m m1 -> mm_erase m' = mm_erase m1 ->
  mmaps m' = <[mm := shrunk p (settle (l1 ++ l2)) s]> (mmaps m1) -> vmrs m' = delete p (vmrs m1) -> removed m'.
Proof.
  intros [He Hm Hs _ Ho] He' Hm' Hv'. pose proof Hown as [[H0 Hobj _ _ Hlim _ Hok Hrg] Hh].
  destruct (shrunk_facts p (settle (l1 ++ l2)) s) as (E1 & E2 & E3 & E4).
  apply dll_ok_mid in Hok as (Hok & Hpn & _).
  assert (ranges_from 0 mmap_limit (l1 ++ l2)) as Hrg2.
  { clear -Hrg. generalize dependent 0. induction l1 as [|[q rq] l IH]; intros lo; simpl.
    - intros (Hr & _ & H). destruct l2 as [|[q rq] l2']; [done|]. simpl in *. split; [lia|]. tauto.
    - intros (? & ? & ?). auto. }
  split; [split; [split|]|split; [|split]].
  - done.
  - rewrite Hm'. by simplify_map_eq.
  - done.
  - done.
  - by rewrite E3.
  - rewrite Hv'. eapply vseg_ext; [|exact Hs]. intros q Hq. rewrite addrs_settle in Hq.
    apply lookup_delete_ne. by intros ->.
  - unfold dll_ok. rewrite addrs_settle. exact Hok.
  - by apply settle_ranges.
  - rewrite E4. replace (k_who m') with (k_who m); [done|].
    assert (mm_erase m' = mm_erase m) as E by congruence. by apply (f_equal k_who) in E.
  - rewrite Hv'. apply lookup_delete_eq.
  - congruence.
  - intros q Hq. rewrite Hm', Hm, !lookup_insert_ne by done. done.
  - intros q [Hqp Hq]%not_elem_of_cons. rewrite Hv', lookup_delete_ne by done. by apply Ho.
Qed.

Lemma mmap_remove_spec :
  v_refs r <= 2 -> wp (mmap_remove mm p) (fun e m' => e = 0 /\ removed m') m.
Proof.
  intros Hrefs. pose proof (mr_ok _ _ _ _ (proj1 Hown)) as Hok.
  pose proof (dll_ok_mid _ _ _ _ Hok) as (_ & _ & [Hp0 _] & _).
  assert (is_null p = false) as Hpn by (apply Z.eqb_neq; lia).
  unfold wp, mmap_remove. rewrite (mmap_not_null _ _ _ _ Hown), Hpn. cbn [orb].
  mm_step (mmap_assert_locked_eq _ _ _ _ Hown). mm_step (mmap_contains_eq _ _ _ _ Hown p Hpn).
  rewrite bool_decide_eq_true_2 by (apply elem_of_addrs_app; right; apply elem_of_addrs_cons; by left). cbn [Z.eqb].
  apply wp_bind. eapply wp_mono; [by apply (mmap_unlink_spec _ _ _ s r l1 l2)|]. intros [] m1 Hul.
  pose proof Hul as [_ Hm _ (k & Hk & Hp) _].
  apply wp_bind. eapply wp_modify; [exact Hp|]. ksimpl.
  apply wp_bind. eapply wp_modify; [ksimpl; rewrite Hm; by simplify_map_eq|]. ksimpl.
  vload. apply wp_bind.
  eapply (wp_mono _ (fun _ m' => mm_erase m' = mm_erase m1 /\ mmaps m' = <[mm := shrunk p (settle (l1 ++ l2)) s]> (mmaps m1) /\
    vmrs m' = <[p := on_reg (fun v => set_vmmap 0 (add_refs (-1) v)) (mkVmr (add_refs (- k) r) (last_addr l1 0) (hd_addr l2 0))]> (vmrs m1))).
  - unfold shrunk, forget. destruct (p =? mm_heap _); [|destruct (p =? mm_arg _); [|destruct (p =? mm_env _)]];
      [eapply wp_modify; [ksimpl; by simplify_map_eq|]..|apply wp_ret]; ksimpl; rewrite ?insert_insert_eq; done.
  - intros [] m2 (He & Hm2 & Hv2). apply wp_bind. unfold vmr_free. rewrite Hpn.
    apply wp_bind. eapply wp_modify; [rewrite Hv2; by simplify_map_eq|]. ksimpl.
    vload. simpl. rewrite (proj2 (Z.leb_le _ 0)) by lia. simpl.
    eapply wp_kfree; [ksimpl; by simplify_map_eq|lia|]. apply wp_ret. split; [done|].
    apply (unlinked_removed m1); [done|done|by ksimpl|]. ksimpl. by rewrite Hv2, !delete_insert_eq.
Qed.
End Remove.
