(* ===== verification/MmapInit.v ===== *)
(** * New address spaces

    [mmap_alloc] hands out an address space that holds one region, the first
    sixteen megabytes, and whose lock the caller already holds. *)
From S2P Require Import Prelude Errno Spinlock KMem Queue Dll Mmap MmapFacts MmapHoles MmapMap MmapRegion.

(** ** An address space without regions *)
Section Empty.
Context {KA : KAlloc} {PG : Paging} (m : kmem) (mm : Z) (s : mmap_t).
Hypothesis Hown : mmap_own m mm s [].
Ltac mm_step H := erewrite M_bind_done by (exact H).

Lemma unmap_round_empty len :
  0 < len <= mmap_limit + 1 -> unmap_round mm 0 len m = Done (Some (len, 0)) m.
Proof.
  intros Hlen. pose proof mmap_limit_small. unfold unmap_round.
  pose proof (mmap_find_eq _ _ _ _ Hown 0) as Hf. simpl in Hf.
  erewrite (M_bind_done (mmap_find_exact _ _ _)).
  2: { unfold mmap_find_exact. rewrite (mmap_not_null _ _ _ _ Hown). mm_step (mmap_assert_locked_eq _ _ _ _ Hown).
       mm_step Hf. reflexivity. }
  cbn [is_null Z.eqb negb]. mm_step Hf. cbn [is_null Z.eqb negb].
  erewrite M_bind_done by (apply (mmap_getholesize_eq _ _ _ _ Hown); done). simpl (fst _).
  unfold gap_size, covered. simpl. unfold M_ret. do 2 f_equal.
  change (mmap_limit + 1 - 0) with (mmap_limit + 1). destruct (Z.ltb_spec len (mmap_limit + 1)).
  - by rewrite Z.sub_diag, u64_small by (unfold is_u64; lia).
  - assert (len = mmap_limit + 1) as -> by lia. reflexivity.
Qed.

Lemma mmap_unmap_empty len : 0 < len <= mmap_limit + 1 -> mmap_unmap mm 0 len m = Done 0 m.
Proof.
  intros Hlen. pose proof mmap_limit_small. unfold mmap_unmap.
  rewrite (mmap_not_null _ _ _ _ Hown), (proj2 (Z.eqb_neq len 0)) by lia. cbn [orb].
  mm_step (mmap_assert_locked_eq _ _ _ _ Hown). rewrite u64_small by (unfold is_u64; lia).
  unfold valid_addr. rewrite (proj2 (Z.leb_le _ mmap_limit)) by lia. simpl (negb _).
  unfold unmap_fuel. unfold M_bind at 1. cbn [unmap_loop].
  rewrite (proj2 (Z.eqb_neq len 0)) by lia. erewrite M_bind_done.
  2: { mm_step (unmap_round_empty len Hlen). reflexivity. }
  reflexivity.
Qed.
End Empty.

(** ** [mmap_init] and [mmap_alloc] *)
Definition init_flags : Z := Z.lor MAP_FIXED (Z.lor MAP_PRIVATE MAP_DONTEXPAND).
Definition init_size : Z := 16777216.
(** An address space as [mmap_clean] leaves it. *)
Definition clean_mmap (pgdir entry : Z) (lk : spinlock_t) : mmap_t :=
  mkMmap MMAP_USER 0 0 0 0 0 0 pgdir mmap_limit PAGESZ 0 0 0 entry lk.
Definition first_region (mm : Z) : vreg := new_region mm (clean_mmap 0 0 SPINLOCK_INIT) 0 init_size 0 init_flags.
(** The address space with that region, at [p]. *)
Definition fresh_mmap (pgdir entry p : Z) (lk : spinlock_t) : mmap_t :=
  mkMmap MMAP_USER 1 0 0 0 0 0 pgdir mmap_limit PAGESZ init_size p p entry lk.

Section Init.
Context {KA : KAlloc} {PG : Paging} (m : kmem) (mm : Z).
Hypothesis Hupper : forall n live p, ka_pick n live = Some p -> VMA_BASE < p.
Ltac mm_step H := erewrite M_bind_done by (exact H).
Ltac vstep := apply wp_bind; eapply wp_modify; [ksimpl; by simplify_map_eq|]; ksimpl; rewrite ?insert_insert_eq.

(** The fixed mapping of the first sixteen megabytes. *)
Lemma map_first_spec pgdir entry lk :
  mmap_own m mm (clean_mmap pgdir entry lk) [] ->
  wp (mmap_map_region mm 0 init_size 0 init_flags false)
    (fun res m' =>
       (res = (- ENOMEM, None) /\ ka_pick (k_tick m) (k_live m) = None /\ m' = set_tick (S (k_tick m)) m) \/
       (exists p, res = (0, None) /\ p ∉ k_live m /\
          mmap_own m' mm (fresh_mmap pgdir entry p lk) [(p, first_region mm)] /\ mmap_frame mm [p] m m')) m.
Proof.
  intros Hown. unfold mmap_map_region, wp. rewrite (mmap_not_null _ _ _ _ Hown). cbn [orb].
  change (has init_flags MAP_FIXED) with true. change (has init_flags MAP_STACK) with false.
  change (init_size =? 0) with false. cbn [negb andb orb].
  mm_step (mmap_assert_locked_eq _ _ _ _ Hown). change (map_args_bad 0 init_size 0 init_flags) with false. cbv iota.
  mm_step (mmap_load_eq _ _ _ _ Hown). unfold M_bind at 1, M_ret at 1. cbn [fst snd Z.eqb negb].
  unfold vmr_alloc. apply wp_bind, wp_bind, wp_kalloc; [by left|].
  intros p Hpick Hlive Hr Hp. unfold is_null. rewrite (proj2 (Z.eqb_neq p 0)) by lia. apply wp_ret. cbn [fst snd Z.eqb negb].
  vstep. vstep. vstep. apply wp_bind.
  set (m1 := h_set _ _).
  pose proof (mmap_own_fresh _ _ _ _ Hown p (mkVmr (raw_region (clean_mmap pgdir entry lk) 0 init_size 0 init_flags) 0 0) Hp) as Hown1.
  change (mmap_own m1 mm (clean_mmap pgdir entry lk) []) in Hown1.
  assert (vmrs m1 !! p = Some (mkVmr (raw_region (clean_mmap pgdir entry lk) 0 init_size 0 init_flags) 0 0)) as Hp1
    by (unfold m1; ksimpl; by simplify_map_eq).
  unfold mmap_forced_mapin, wp. rewrite (mmap_not_null _ _ _ _ Hown). unfold is_null. rewrite (proj2 (Z.eqb_neq p 0)) by lia.
  cbn [orb]. mm_step (mmap_assert_locked_eq _ _ _ _ Hown1).
  erewrite (M_bind_done (load p)) by (unfold load; by rewrite Hp1).
  change (v_start (v_reg _)) with 0. change (vmr_size (v_reg _)) with init_size.
  erewrite (M_bind_done (mmap_unmap _ _ _)) by (apply (mmap_unmap_empty _ _ _ Hown1); done).
  cbn [Z.eqb negb].
  eapply wp_mono; [apply (mapin_fresh_spec _ _ _ _ Hown p 0 init_size 0 init_flags); try done; eauto|].
  { split_and!; [done|done|]. by intros ? ? ?%not_elem_of_nil. }
  intros e m' (-> & l1 & l2 & [-> ->]%eq_sym%app_eq_nil & Ho & Hf). apply wp_ret. right. exists p. split_and!; done.
Qed.

Lemma mmap_clean_empty s :
  mmap_own m mm s [] ->
  let s' := clean_mmap (mm_pgdir s) (mm_entry s) (mm_lock s) in
  let m' := h_set (<[mm := s']> (mmaps m)) m in
  mmap_clean mm m = Done 0 m' /\ mmap_own m' mm s' [].
Proof.
  intros Hown s' m'. pose proof Hown as [[H0 Ho _ _ Hlim _ _ _] Hh]. split.
  - unfold mmap_clean. rewrite (mmap_not_null _ _ _ _ Hown). mm_step (mmap_assert_locked_eq _ _ _ _ Hown).
    mm_step (mmap_load_eq _ _ _ _ Hown). rewrite Hlim, (u64_small (mmap_limit + 1)) by done.
    erewrite M_bind_done by (apply (mmap_unmap_empty _ _ _ Hown); done). cbn [Z.eqb negb].
    unfold modify, M_bind, load, store. rewrite Ho. simpl. by rewrite Ho.
  - unfold m'. split; [split; ksimpl; try done; try by simplify_map_eq|by ksimpl]. apply dll_ok_nil.
Qed.

End Init.

Lemma live_mmap m mm s s' : mmaps m !! mm = Some s -> k_live (h_set (<[mm := s']> (mmaps m)) m) = k_live m.
Proof.
  intros Hs. assert (dom (<[mm := s']> (mmaps m)) = dom (mmaps m)) as E.
  { rewrite dom_insert_L. apply elem_of_dom_2 in Hs. set_solver. }
  unfold k_live. unfold h_get, h_set in *. simpl in *. by rewrite E.
Qed.

Section Alloc.
Context {KA : KAlloc} {PG : Paging} (m : kmem).
Hypothesis Hupper : forall n live p, ka_pick n live = Some p -> VMA_BASE < p.
Ltac mm_step H := erewrite M_bind_done by (exact H).

Lemma mmap_init_spec mm s :
  mmap_own m mm s [] ->
  wp (mmap_init mm)
    (fun e m' =>
       (e = - ENOMEM /\ ka_pick (k_tick m) (k_live m) = None /\ m' = set_tick (S (k_tick m))
          (h_set (<[mm := clean_mmap (mm_pgdir s) (mm_entry s) (mm_lock s)]> (mmaps m)) m)) \/
       (exists p, e = 0 /\ p ∉ k_live m /\
          mmap_own m' mm (fresh_mmap (mm_pgdir s) (mm_entry s) p (mm_lock s)) [(p, first_region mm)] /\
          mmap_frame mm [p] m m')) m.
Proof.
  intros Hown. destruct (mmap_clean_empty m mm s Hown) as [Ec Hown'].
  pose proof (live_mmap m mm s (clean_mmap (mm_pgdir s) (mm_entry s) (mm_lock s)) (mr_obj _ _ _ _ (proj1 Hown))) as Hlive.
  assert (mmap_frame mm [] m (h_set (<[mm := clean_mmap (mm_pgdir s) (mm_entry s) (mm_lock s)]> (mmaps m)) m)) as Hfr.
  { split; [done| |by ksimpl]. intros q Hq. ksimpl. by rewrite lookup_insert_ne. }
  revert Ec Hown' Hlive Hfr. set (s' := clean_mmap _ _ _). set (m' := h_set _ _). intros Ec Hown' Hlive Hfr.
  unfold wp, mmap_init. rewrite (mmap_not_null _ _ _ _ Hown). mm_step (mmap_assert_locked_eq _ _ _ _ Hown).
  mm_step Ec. cbn [Z.eqb negb]. apply wp_bind. eapply wp_mono; [by apply map_first_spec|].
  intros res m2 [(-> & Hpick & ->)|(p & -> & Hp & Ho & Hf)]; apply wp_ret; [left|right].
  - split; [done|]. rewrite Hlive in Hpick. done.
  - exists p. rewrite Hlive in Hp. split_and!; try done. destruct Hf as [He Hq Hv], Hfr as [He' Hq' Hv'].
    split; [congruence| |]; intros q Hx; [by rewrite Hq, Hq'|rewrite Hv, Hv'; [done|apply not_elem_of_nil|done]].
Qed.
End Alloc.

Section New.
Context {KA : KAlloc} {PG : Paging} (m : kmem).
Hypothesis Hupper : forall n live p, ka_pick n live = Some p -> VMA_BASE < p.

(** How [mmap_alloc] ends: on an error the memory is as before. *)
Definition alloc_outcome (res : Z * option Z) (m' : kmem) : Prop :=
  let pg := arch_getpgdir (k_tick m) in
  (pg.1 <> 0 /\ res = (pg.1, None) /\ m' = m) \/
  (pg.1 = 0 /\ res = (- ENOMEM, None) /\ exists t, m' = set_tick t m) \/
  (exists mm p lk, pg.1 = 0 /\ res = (0, Some mm) /\ mm ∉ k_live m /\ p ∉ k_live m /\
     mmap_own m' mm (fresh_mmap pg.2 0 p lk) [(p, first_region mm)] /\ mmap_frame mm [p] m m').

Lemma mmap_alloc_spec : wp (mmap_alloc true) alloc_outcome m.
Proof.
  unfold mmap_alloc, alloc_outcome. cbn [negb]. apply wp_bind, wp_get.
  destruct (arch_getpgdir (k_tick m)) as [e pgdir]. cbn [fst snd].
  destruct (Z.eqb_spec e 0) as [->|He]; cbn [negb]; [|apply wp_ret; by left].
  apply wp_bind, wp_kalloc; [intros _; apply wp_ret; right; left; eauto|].
  intros mm _ Hlive Hr Hmm. unfold is_null. rewrite (proj2 (Z.eqb_neq mm 0)) by lia.
  apply wp_bind. eapply wp_store; [ksimpl; by simplify_map_eq|]. ksimpl. rewrite insert_insert_eq.
  apply wp_bind. eapply wp_obj_lock; [lia|ksimpl; by simplify_map_eq|done|]. intros lk Hlk. ksimpl. rewrite insert_insert_eq.
  set (m1 := h_set _ _). assert (mmap_own m1 mm (clean_mmap pgdir 0 lk) []) as Hown.
  { unfold m1. split; [split; ksimpl; try done; try lia; try by simplify_map_eq|by ksimpl]. apply dll_ok_nil. }
  assert (mmaps m1 = <[mm := clean_mmap pgdir 0 lk]> (mmaps m)) as Hm1 by (unfold m1; by ksimpl).
  assert (forall h t, set_tick t (h_set (T:=mmap_t) h m1) = set_tick t (h_set (T:=mmap_t) h m)) as Ht1 by done.
  assert (forall q, q ∉ k_live m1 -> q ∉ k_live m) as Hlv.
  { intros q Hq Hin. apply Hq. unfold m1, k_live, h_set, h_get in *. simpl. set_solver. }
  assert (mmap_frame mm [] m m1) as Hfr.
  { split; [done| |done]. intros q Hq. rewrite Hm1. by rewrite lookup_insert_ne. }
  clearbody m1. apply wp_bind. eapply wp_mono; [by apply mmap_init_spec|].
  intros e m2 [(-> & _ & ->)|(p & -> & Hp & Ho & [He Hq Hv])].
  - cbn [Z.eqb negb Z.opp]. simpl (negb _). apply wp_bind. eapply wp_obj_unlock.
    { split_and!; [lia|ksimpl; by simplify_map_eq|]. simpl. ksimpl. apply (proj2 Hown). }
    intros lk' _. ksimpl. apply wp_bind. eapply wp_kfree; [ksimpl; by simplify_map_eq|lia|]. ksimpl. apply wp_ret.
    right. left. split_and!; try done. exists (S (k_tick m1)).
    rewrite !delete_insert_eq, Hm1, delete_insert_id by done.
    transitivity (set_tick (S (k_tick m1)) (h_set (mmaps m) m1)); [done|]. by rewrite Ht1, h_set_get.
  - apply wp_ret. right. right. exists mm, p, lk. cbn [mm_pgdir mm_entry mm_lock clean_mmap] in Ho. split_and!; try done; auto.
    destruct Hfr as [He' Hq' Hv']. split; [congruence| |]; intros q Hx;
      [by rewrite Hq, Hq'|rewrite Hv, Hv'; [done|apply not_elem_of_nil|done]].
Qed.
End New.
