(* ===== verification/MmapProps.v ===== *)
(** * Properties of address spaces

    The theorems about mm/mmap.c, with a concrete address space on which each of
    them is exercised. *)
From S2P Require Import Prelude Errno Spinlock KMem Queue Dll Mmap MmapFacts MmapHoles MmapMap MmapRegion MmapInit Sample.

Implicit Types (l : list (Z * vreg)).

(** ** A concrete machine *)

(** Slots above the base of the kernel half. *)
#[refine] Definition high_alloc : KAlloc := {|
  ka_pick n s :=
    let p := VMA_BASE + 4096 + 128 * Z.of_nat n in
    if decide (p ∉ s /\ 0 < p < two64) then Some p else None;
  ka_junk _ _ := 165
|}.
Proof. intros n s p. simpl. case_decide as H; [|done]. intros [= <-]. exact H. Defined.
Lemma high_alloc_upper n live p : ka_pick (KAlloc:=high_alloc) n live = Some p -> VMA_BASE < p.
Proof. simpl. case_decide; [|done]. intros [= <-]. lia. Qed.

Definition no_paging : Paging := {|
  arch_map_n _ _ _ := 0; arch_mprotect _ _ _ := 0; arch_lazycpy _ _ := 0; arch_getpgdir _ := (0, 4096) |}.

(** An address space at slot 0 with regions at slots 1 and 2; slot 3 is a region in
    no address space. *)
Definition slot (n : Z) : Z := VMA_BASE + 4096 + 128 * n.
Definition plain_region (mm a b : Z) : vreg := mkVreg 2 6 3 0 0 0 0 0 mm 0 0 a b.
Definition reg_1 : vreg := plain_region (slot 0) 0 16777215.
Definition reg_2 : vreg := plain_region (slot 0) 20971520 20979711.
Definition reg_3 : vreg := mkVreg 0 6 3 0 0 0 0 0 0 0 0 18874368 18878463.
Definition two_regions : list (Z * vreg) := [(slot 1, reg_1); (slot 2, reg_2)].
Definition space : mmap_t :=
  mkMmap MMAP_USER 2 0 0 0 (slot 2) 0 4096 mmap_limit PAGESZ 16785408 (slot 1) (slot 2) 0 held_lock.
Definition with_space : kmem :=
  set_tick 4 (h_set (T:=mmap_t) {[slot 0 := space]}
    (h_set (T:=vmr_t) (list_to_map [(slot 1, mkVmr reg_1 0 (slot 2)); (slot 2, mkVmr reg_2 (slot 1) 0);
                                    (slot 3, mkVmr reg_3 0 0)]) idle)).

Lemma with_space_own : mmap_own with_space (slot 0) space two_regions.
Proof.
  split; [split|].
  - unfold slot, VMA_BASE. lia.
  - vm_compute. reflexivity.
  - vm_compute. reflexivity.
  - vm_compute. reflexivity.
  - vm_compute. reflexivity.
  - simpl. split_and!; [vm_compute; reflexivity..|exact I].
  - split.
    + apply (bool_decide_unpack _). vm_compute. exact I.
    + unfold addrs, two_regions, slot, VMA_BASE, addr_ok, two64. simpl. repeat constructor; lia.
  - simpl. unfold reg_1, reg_2, plain_region, mmap_limit, USTACK. simpl. lia.
  - vm_compute. reflexivity.
Qed.

(** ** Searching *)

(** C22: The searches for room in an address space are exact: [mmap_find_holeat] and
    [mmap_find_hole], upwards or downwards, return the start of a range of the
    requested size that lies below the limit and meets no region, and they answer
    -ENOMEM only when there is no such range.  None of them changes the memory. *)
Theorem mmap_hole_search_exact m mm s l addr size :
  mmap_own m mm s l -> is_u64 addr -> is_u64 size -> 0 < size ->
  (exists res, mmap_find_holeat mm addr size true whence_start m = Done res m /\ hole_result l size res) /\
  (exists res, mmap_find_hole mm size true whence_start m = Done res m /\ hole_result l size res) /\
  (1 < size ->
     (exists res, mmap_find_holeat mm addr size true whence_end m = Done res m /\ hole_result l size res) /\
     (exists res, mmap_find_hole mm size true whence_end m = Done res m /\ hole_result l size res)).
Proof.
  intros Hown Ha Hs Hp. split_and!.
  - by eapply find_holeat_start.
  - by eapply find_hole_start.
  - intros H1. split; [by eapply find_holeat_end|by eapply find_hole_end].
Qed.

Lemma mmap_hole_search_exact_witness :
  exists res, mmap_find_holeat (slot 0) 0 8192 true whence_start with_space = Done res with_space /\
    hole_result two_regions 8192 res.
Proof. apply (mmap_hole_search_exact with_space (slot 0) space two_regions 0 8192 with_space_own); done. Defined.

(** ** Insertion and removal *)





(** [mmap_remove] of a region in the list with at most the two references that
    [mmap_mapin] gives it answers 0, takes exactly that region out of the list,
    frees it, clears the pointer of the address space that named it, and leaves the
    rest sorted and disjoint; a neighbour left alone loses one reference. *)
Theorem mmap_remove_frees m mm s l1 p r l2 :
  mmap_own m mm s (l1 ++ (p, r) :: l2) -> v_refs r <= 2 ->
  wp (mmap_remove mm p) (fun e m' => e = 0 /\
    let l' := settle (l1 ++ l2) in
    mmap_own m' mm (shrunk p l' s) l' /\ vmrs m' !! p = None /\ mmap_frame mm (p :: addrs (l1 ++ l2)) m m') m.
Proof. intros Hown Hr. exact (mmap_remove_spec m mm p s r l1 l2 Hown Hr). Qed.

Lemma mmap_remove_frees_witness :
  exists m', mmap_remove (slot 0) (slot 2) with_space = Done 0 m' /\
    mmap_own m' (slot 0) (shrunk (slot 2) [(slot 1, add_refs (-1) reg_1)] space) [(slot 1, add_refs (-1) reg_1)].
Proof.
  destruct (proj1 (wp_done _ _ _) (mmap_remove_frees with_space (slot 0) space [(slot 1, reg_1)] (slot 2) reg_2 []
    with_space_own ltac:(unfold reg_2; simpl; lia))) as (e & m' & E & -> & Ho & _).
  exists m'. split; [exact E|exact Ho].
Defined.

(** ** A region that was mapped is found again *)
Lemma first_at_app t l1 l2 :
  dll_ok l1 -> first_at t (l1 ++ l2) = if first_at t l1 =? 0 then first_at t l2 else first_at t l1.
Proof.
  induction l1 as [|[p r] l1 IH]; [done|]. intros ([? _] & _ & Hok)%dll_ok_cons. simpl in *.
  destruct (t p r); [|by apply IH]. by rewrite (proj2 (Z.eqb_neq p 0)) by lia.
Qed.

Lemma first_at_none t l : existsb (fun x => t x.1 x.2) l = false -> first_at t l = 0.
Proof. induction l as [|[p r] l IH]; simpl; [done|]. destruct (t p r); simpl; [done|auto]. Qed.

Lemma first_at_insert x l1 p r l2 :
  dll_ok (l1 ++ (p, r) :: l2) -> is_free (l1 ++ l2) (v_start r) (v_end r) = true ->
  first_at (covers x) (l1 ++ (p, r) :: l2) =
    if covers x p r then p else first_at (covers x) (l1 ++ l2).
Proof.
  intros Hok Hf. pose proof Hok as (Hok1 & _ & _)%dll_ok_app. rewrite !first_at_app by done. simpl.
  destruct (covers x p r) eqn:E; [|done]. rewrite first_at_none; [done|].
  apply not_true_iff_false. intros ([q rq] & Hin & Hc)%existsb_elem. unfold covers in *. simpl in *.
  apply andb_true_iff in Hc as [?%Z.leb_le ?%Z.leb_le], E as [?%Z.leb_le ?%Z.leb_le].
  rewrite is_free_spec in Hf. destruct (Hf q rq); [apply elem_of_app; by left|lia..].
Qed.

(** After a successful [mmap_map_region] the new region is what [mmap_find]
    returns for every address of it, and every other address is found, or not, as
    before. *)
Theorem mmap_map_then_find {KA : KAlloc} {PG : Paging} m mm s l addr len prot flags :
  (forall n live p, ka_pick n live = Some p -> VMA_BASE < p) ->
  mmap_own m mm s l -> heads_below l 0 -> is_u64 addr -> 0 < len -> 0 <= mm_guard s -> is_u64 (len + mm_guard s) ->
  has flags MAP_FIXED = false -> map_args_bad addr len prot flags = false ->
  wp (mmap_map_region mm addr len prot flags true) (fun res m' =>
    forall p, res = (0, Some p) -> exists a, forall x,
      if (a <=? x) && (x <=? a + region_size s len flags - 1) then mmap_find mm x m' = Done p m'
      else exists q, mmap_find mm x m = Done q m /\ mmap_find mm x m' = Done q m') m.
Proof.
  intros Hup Hown Hhb Ha Hlen Hg Hlg Hfix Hbad.
  eapply wp_mono; [by apply (mmap_map_region_spec m mm s l)|].
  intros res m' [(-> & _)|[(-> & _)|(p & a & l1 & l2 & -> & -> & Hfree & Hlive & Hown' & _)]] p' [=]; subst p'.
  exists a. intros x. rewrite (mmap_find_eq _ _ _ _ Hown' x), first_at_insert.
  - change (covers x p _) with ((a <=? x) && (x <=? a + region_size s len flags - 1)).
    destruct (_ && _); [done|]. eexists. split; [apply (mmap_find_eq _ _ _ _ Hown x)|done].
  - apply (mr_ok _ _ _ _ (proj1 Hown')).
  - simpl. apply free_range_is_free; [|done]. unfold region_size. destruct (has flags MAP_STACK); lia.
Qed.

Lemma mmap_map_then_find_witness :
  wp (mmap_map_region (KA:=high_alloc) (slot 0) 0 8192 6 MAP_PRIVATE true) (fun res m' =>
    forall p, res = (0, Some p) -> exists a, forall x,
      if (a <=? x) && (x <=? a + 8192 - 1) then mmap_find (slot 0) x m' = Done p m'
      else exists q, mmap_find (slot 0) x with_space = Done q with_space /\ mmap_find (slot 0) x m' = Done q m') with_space.
Proof.
  apply (mmap_map_then_find (KA:=high_alloc) (PG:=no_paging)
    with_space (slot 0) space two_regions 0 8192 6 MAP_PRIVATE high_alloc_upper with_space_own).
  - vm_compute. discriminate.
  - done.
  - lia.
  - vm_compute. discriminate.
  - vm_compute. split; congruence.
  - vm_compute. reflexivity.
  - vm_compute. reflexivity.
Defined.

(** ** New address spaces *)

(** [mmap_alloc] either fails, with the error of [arch_getpgdir] or -ENOMEM, and
    leaves memory as it was; or returns a fresh address space that holds exactly one
    region, the first sixteen megabytes without access rights, and that is locked by
    the caller. *)
Theorem mmap_alloc_first_region {KA : KAlloc} {PG : Paging} m :
  (forall n live p, ka_pick n live = Some p -> VMA_BASE < p) ->
  wp (mmap_alloc true) (alloc_outcome m) m.
Proof. apply mmap_alloc_spec. Qed.

Lemma mmap_alloc_first_region_witness :
  wp (mmap_alloc (KA:=high_alloc) (PG:=no_paging) true) (alloc_outcome (PG:=no_paging) idle) idle.
Proof. apply (mmap_alloc_first_region (KA:=high_alloc) (PG:=no_paging) idle high_alloc_upper). Defined.

(** [mmap_clone] never returns a copy: [mmap_alloc] hands out the new address
    space locked, and [mmap_clone] takes its lock again, which is a panic.  It
    returns only with the error of a failed allocation. *)
Theorem mmap_clone_panics {KA : KAlloc} {PG : Paging} m mm s l :
  (forall n live p, ka_pick n live = Some p -> VMA_BASE < p) -> mmap_own m mm s l ->
  mmap_clone mm true m = Panic \/
  exists e m', mmap_clone mm true m = Done (e, None) m' /\ e <> 0 /\ exists t, m' = set_tick t m.
Proof.
  intros Hup Hown. unfold mmap_clone. rewrite (mmap_not_null _ _ _ _ Hown). cbn [negb orb].
  erewrite M_bind_done by apply (mmap_assert_locked_eq _ _ _ _ Hown).
  pose proof (mmap_alloc_spec m Hup) as H. apply wp_done in H as (res & m' & E & H). erewrite M_bind_done by exact E.
  destruct H as [(He & -> & ->)|[(_ & -> & t & ->)|(c & p & lk & _ & -> & _ & _ & [[H0 Ho _ _ _ _ _ _] Hh] & _)]].
  - right. destruct ((arch_getpgdir (k_tick m)).1) as [|e|e] eqn:Ep; [done|..]; eexists _, m; (split; [reflexivity|]);
      (split; [done|]); exists (k_tick m); by destruct m.
  - right. eexists _, _. split; [reflexivity|]. split; [done|]. by exists t.
  - left. by erewrite M_bind_panic by (eapply obj_lock_held; by split_and!).
Qed.

Lemma mmap_clone_panics_witness :
  mmap_clone (KA:=high_alloc) (PG:=no_paging) (slot 0) true with_space = Panic \/
  exists e m', mmap_clone (KA:=high_alloc) (PG:=no_paging) (slot 0) true with_space = Done (e, None) m' /\ e <> 0 /\
    exists t, m' = set_tick t with_space.
Proof. apply (mmap_clone_panics (KA:=high_alloc) (PG:=no_paging) with_space (slot 0) space two_regions high_alloc_upper with_space_own). Defined.

(** ** Where the list code goes wrong *)

(** Mapping a region in front of the first one is a memory error: [mmap_mapin]
    advances its own pointer ([node++]) before it writes [node->prev], so the write
    goes past the end of the old first region. *)
Theorem mmap_mapin_first_faults m mm s q rq l p r pv nx :
  mmap_own m mm s ((q, rq) :: l) -> vmrs m !! p = Some (mkVmr r pv nx) -> p ∉ addrs ((q, rq) :: l) ->
  VMA_BASE < p -> 0 <= v_start r <= v_end r -> v_end r < v_start rq ->
  u64 (q + sizeof_vmr) <> p -> vmrs m !! u64 (q + sizeof_vmr) = None ->
  mmap_mapin mm p m = Fault.
Proof.
  intros Hown Hp Hpl Hv Hr Hbefore Hnp Hnone. pose proof Hown as [[H0 Ho Hhd Htl _ [Hq Hseg] Hok (Hb1 & Hb2 & Hrg)] _].
  assert (is_null p = false) as Hpn by (apply Z.eqb_neq; unfold VMA_BASE in Hv; lia).
  assert (is_free ((q, rq) :: l) (v_start r) (v_end r) = true) as Hfree.
  { apply is_free_spec. intros x rx [[= -> ->]|Hin]%elem_of_cons; [by right|].
    pose proof (ranges_from_elem _ _ _ _ _ Hrg Hin). right. lia. }
  unfold mmap_mapin. rewrite (mmap_not_null _ _ _ _ Hown), Hpn. cbn [orb].
  rewrite (proj2 (Z.ltb_lt VMA_BASE p)) by done. cbn [M_assert]. unfold M_bind at 1, M_ret at 1.
  erewrite M_bind_done by apply (mmap_contains_eq _ _ _ _ Hown p Hpn). rewrite bool_decide_eq_false_2 by done. cbn [negb Z.eqb].
  erewrite (M_bind_done (load p)) by (unfold load; by rewrite Hp). cbn [v_reg].
  rewrite vmr_size_eq by lia. rewrite (proj2 (Z.eqb_neq _ 0)), (proj2 (Z.ltb_ge _ _)) by lia. cbn [orb].
  destruct (vmr_fuel_eq _ _ _ _ Hown) as (n & Hn & Hlt). erewrite M_bind_done by exact Hn.
  erewrite M_bind_done by (apply (mapin_check_eq _ _ _ _ Hown); lia). rewrite Hfree. cbn [negb Z.eqb].
  erewrite M_bind_done by apply (mmap_load_eq _ _ _ _ Hown). rewrite Hhd.
  destruct (mmap_node_facts _ _ _ _ Hown [] q rq l eq_refl) as (Hqn & _). cbn [hd_addr fst]. rewrite Hqn.
  pose proof (mapin_loop_stop _ _ _ _ Hown p _ [] [] q rq l n Hp eq_refl ltac:(simpl in *; lia)
    ltac:(by intros ? ? ?%not_elem_of_nil) ltac:(simpl; lia)) as Hloop. simpl in Hloop.
  rewrite elem_of_addrs_cons in Hpl. simpl in Hpl. assert (p <> q) as Hpq by naive_solver.
  assert (mapin_before mm p q m = Fault) as Hfault; [|unfold M_bind at 1; rewrite Hloop; by erewrite M_bind_fault].
  unfold mapin_before. erewrite (M_bind_done (load q)) by (by apply load_eq). cbn [v_prev is_null Z.eqb negb].
  do 2 (erewrite M_bind_done by (apply modify_eq; ksimpl; by simplify_map_eq); ksimpl).
  erewrite M_bind_done.
  2: { erewrite M_bind_done by (apply modify_eq; ksimpl; exact Ho). ksimpl.
       erewrite M_bind_done by (apply modify_eq; ksimpl; by simplify_map_eq). reflexivity. }
  apply M_bind_fault, modify_fault. ksimpl. by rewrite !lookup_insert_ne.
Qed.

(** The concrete address space without its first region. *)
Definition late_space : mmap_t :=
  mkMmap MMAP_USER 1 0 0 0 0 0 4096 mmap_limit PAGESZ 8192 (slot 2) (slot 2) 0 held_lock.
Definition with_late : kmem :=
  set_tick 4 (h_set (T:=mmap_t) {[slot 0 := late_space]}
    (h_set (T:=vmr_t) (list_to_map [(slot 2, mkVmr reg_2 0 0); (slot 3, mkVmr reg_3 0 0)]) idle)).
Lemma with_late_own : mmap_own with_late (slot 0) late_space [(slot 2, reg_2)].
Proof.
  split; [split|].
  - unfold slot, VMA_BASE. lia.
  - vm_compute. reflexivity.
  - vm_compute. reflexivity.
  - vm_compute. reflexivity.
  - vm_compute. reflexivity.
  - simpl. split_and!; [vm_compute; reflexivity..|exact I].
  - split; [|unfold addrs, slot, VMA_BASE, addr_ok, two64; simpl; repeat constructor; lia].
    apply (bool_decide_unpack _). vm_compute. exact I.
  - simpl. unfold reg_2, plain_region, mmap_limit, USTACK. simpl. lia.
  - vm_compute. reflexivity.
Qed.

Lemma mmap_mapin_first_faults_witness : mmap_mapin (slot 0) (slot 3) with_late = Fault.
Proof.
  apply (mmap_mapin_first_faults with_late (slot 0) late_space (slot 2) reg_2 [] (slot 3) reg_3 0 0 with_late_own).
  - vm_compute. reflexivity.
  - apply (bool_decide_unpack _). vm_compute. exact I.
  - unfold slot, VMA_BASE. lia.
  - unfold reg_3. simpl. lia.
  - unfold reg_3, reg_2, plain_region. simpl. lia.
  - vm_compute. discriminate.
  - vm_compute. reflexivity.
Defined.

(** The region that holds an address. *)
Lemma mmap_find_mid m mm s l1 p r l2 a :
  mmap_own m mm s (l1 ++ (p, r) :: l2) -> v_start r <= a <= v_end r -> mmap_find mm a m = Done p m.
Proof.
  intros Hown Ha. rewrite (mmap_find_eq _ _ _ _ Hown a). f_equal.
  pose proof (mr_ok _ _ _ _ (proj1 Hown)) as Hok. pose proof Hok as (Hok1 & _ & _)%dll_ok_app.
  rewrite first_at_app by done. rewrite first_at_none.
  - simpl. unfold covers. by rewrite (proj2 (Z.leb_le _ a)), (proj2 (Z.leb_le a _)) by lia.
  - apply not_true_iff_false. intros ([q rq] & Hin & Hc)%existsb_elem. unfold covers in Hc. simpl in Hc.
    apply andb_true_iff in Hc as [_ ?%Z.leb_le].
    destruct (ranges_app_gap 0 l1 ((p, r) :: l2) (mr_ranges _ _ _ _ (proj1 Hown)) ltac:(done)) as (Hlo & _ & Hg & _).
    specialize (Hlo _ _ Hin). simpl in Hg. lia.
Qed.

(** Unmapping a range that starts strictly inside a region is a memory error:
    [mmap_unmap] calls [vmr_split] without a place for the second part, and
    [vmr_split] writes there before it tests the pointer. *)
Theorem mmap_unmap_inside_faults {KA : KAlloc} m mm s l1 p r l2 a len :
  mmap_own m mm s (l1 ++ (p, r) :: l2) -> v_start r < a < v_end r -> 0 < len -> a + len - 1 <= mmap_limit ->
  mmap_unmap mm a len m = Fault.
Proof.
  intros Hown Ha Hlen Hlim. pose proof mmap_limit_small as Hsm. pose proof (mr_ranges _ _ _ _ (proj1 Hown)) as Hrg.
  destruct (ranges_from_elem _ _ _ p r Hrg) as [Hr1 Hr2]; [apply elem_of_app; right; by left|].
  destruct (mmap_node_facts _ _ _ _ Hown _ _ _ _ eq_refl) as (Hpn & _).
  pose proof (mmap_find_mid _ _ _ _ _ _ _ a Hown ltac:(lia)) as Hf.
  pose proof (vmr_load_eq _ _ _ _ Hown _ _ _ _ eq_refl) as Hld.
  unfold mmap_unmap. rewrite (mmap_not_null _ _ _ _ Hown), (proj2 (Z.eqb_neq len 0)) by lia. cbn [orb].
  erewrite M_bind_done by apply (mmap_assert_locked_eq _ _ _ _ Hown). rewrite u64_small by (unfold is_u64; lia).
  unfold valid_addr. rewrite (proj2 (Z.leb_le _ mmap_limit)) by lia. cbn [negb].
  unfold unmap_fuel. unfold M_bind at 1. apply M_bind_fault. cbn [unmap_loop].
  rewrite (proj2 (Z.eqb_neq len 0)) by lia. apply M_bind_fault. unfold unmap_round.
  erewrite (M_bind_done (mmap_find_exact _ _ _)).
  2: { unfold mmap_find_exact. rewrite (mmap_not_null _ _ _ _ Hown). erewrite M_bind_done by apply (mmap_assert_locked_eq _ _ _ _ Hown).
       erewrite M_bind_done by exact Hf. rewrite Hpn. erewrite M_bind_done by exact Hld. cbn [v_reg].
       rewrite (proj2 (Z.eqb_neq a (v_start r))) by lia. reflexivity. }
  cbn [is_null Z.eqb negb]. erewrite M_bind_done by exact Hf. rewrite Hpn. cbn [negb].
  erewrite M_bind_done by exact Hld. cbn [v_reg].
  rewrite (proj2 (Z.eqb_neq (v_start r) a)), (proj2 (Z.eqb_neq (v_end r) a)) by lia.
  apply M_bind_fault. unfold vmr_split, vmr_can_split. rewrite Hpn.
  erewrite M_bind_done by (erewrite M_bind_done by exact Hld; reflexivity). cbn [v_reg].
  rewrite (proj2 (Z.ltb_lt (v_start r) a)), (proj2 (Z.ltb_lt a _)) by lia. reflexivity.
Qed.

Lemma mmap_unmap_inside_faults_witness : mmap_unmap (KA:=high_alloc) (slot 0) 4096 4096 with_space = Fault.
Proof.
  apply (mmap_unmap_inside_faults (KA:=high_alloc) with_space (slot 0) space [] (slot 1) reg_1 [(slot 2, reg_2)] 4096 4096 with_space_own).
  - unfold reg_1, plain_region. simpl. lia.
  - lia.
  - unfold mmap_limit, USTACK. lia.
Defined.

(** ** Changing the protection of a region *)
Lemma vseg_update h l1 p r r' l2 :
  dll_ok (l1 ++ (p, r) :: l2) -> vseg h 0 (l1 ++ (p, r) :: l2) 0 ->
  vseg (<[p := mkVmr r' (last_addr l1 0) (hd_addr l2 0)]> h) 0 (l1 ++ (p, r') :: l2) 0.
Proof.
  intros (_ & Hpn & _)%dll_ok_mid Hs. rewrite elem_of_addrs_app in Hpn.
  apply vseg_app in Hs as [H1 [_ H2]]. apply vseg_app. split; [|split].
  - apply vseg_insert; naive_solver.
  - by rewrite lookup_insert_eq.
  - apply vseg_insert; naive_solver.
Qed.

Lemma ranges_update lo lim l1 p r r' l2 :
  v_start r' = v_start r -> v_end r' = v_end r ->
  ranges_from lo lim (l1 ++ (p, r) :: l2) -> ranges_from lo lim (l1 ++ (p, r') :: l2).
Proof.
  intros Hs He. revert lo. induction l1 as [|[q rq] l1 IH]; intros lo; simpl; [by rewrite Hs, He|]. intros (? & ? & ?). auto.
Qed.

(** Replacing a region by one with the same range. *)
Lemma mmap_own_update m mm s l1 p r r' l2 :
  mmap_own m mm s (l1 ++ (p, r) :: l2) -> v_start r' = v_start r -> v_end r' = v_end r ->
  mmap_own (h_set (<[p := mkVmr r' (last_addr l1 0) (hd_addr l2 0)]> (vmrs m)) m) mm s (l1 ++ (p, r') :: l2).
Proof.
  intros [[H0 Ho Hhd Htl Hlim Hs Hok Hrg] Hh] E1 E2. split; [split|]; ksimpl; try done.
  - rewrite Hhd. by rewrite !hd_addr_app.
  - rewrite Htl. by rewrite !last_addr_app.
  - by eapply vseg_update.
  - unfold dll_ok in *. rewrite addrs_app, addrs_cons in *. exact Hok.
  - by eapply ranges_update.
Qed.

(** [mmap_protect] of exactly one region that is not a stack, to a protection
    that differs from the present one and that neither asks for writing and execution
    together nor changes one into the other: it answers what the paging code answers,
    and the region's flags become exactly the bits of [prot], so that VM_SHARED,
    VM_ZERO and VM_DONTEXPAND are lost; the list and the other regions stay. *)
Theorem mmap_protect_whole {KA : KAlloc} {PG : Paging} m mm s l1 p r l2 prot :
  mmap_own m mm s (l1 ++ (p, r) :: l2) ->
  isaligned (v_start r) = true -> isaligned (vmr_size r) = true -> vmr_isstack r = false ->
  prot_of (v_flags r) <> prot ->
  (has prot PROT_WRITE && has prot PROT_EXEC) || (has prot PROT_WRITE && has (prot_of (v_flags r)) PROT_EXEC)
    || (has prot PROT_EXEC && has (prot_of (v_flags r)) PROT_WRITE) = false ->
  let vf := region_vflags (flags_of prot) (mm_flags s) in
  exists m', mmap_protect mm (v_start r) (vmr_size r) prot m = Done (arch_mprotect (v_start r) (vmr_size r) vf) m' /\
    mmap_own m' mm s (l1 ++ (p, set_flags (flags_of prot) vf r) :: l2) /\ mmap_frame mm [p] m m'.
Proof.
  intros Hown Hal Hlal Hst Hne Hwx vf. pose proof mmap_limit_small as Hsm.
  destruct (ranges_from_elem _ _ _ p r (mr_ranges _ _ _ _ (proj1 Hown))) as [Hr1 Hr2]; [apply elem_of_app; right; by left|].
  destruct (mmap_node_facts _ _ _ _ Hown _ _ _ _ eq_refl) as (Hpn & _).
  pose proof (vmr_size_eq r ltac:(lia) Hr2) as Hsz. pose proof (vmr_load_eq _ _ _ _ Hown _ _ _ _ eq_refl) as Hld.
  pose proof (mmap_own_update _ _ _ _ _ _ (set_flags (flags_of prot) vf r) _ Hown eq_refl eq_refl) as Hown'.
  eexists. split; [|split; [exact Hown'|]].
  2: { split; [done|by ksimpl|]. intros q Hq. ksimpl. apply lookup_insert_ne. intros ->. apply Hq. by left. }
  unfold mmap_protect. rewrite (mmap_not_null _ _ _ _ Hown), (proj2 (Z.eqb_neq (vmr_size r) 0)) by lia. cbn [orb].
  erewrite M_bind_done by apply (mmap_assert_locked_eq _ _ _ _ Hown). rewrite Hal, Hlal. cbn [negb orb].
  unfold valid_addr. rewrite (proj2 (Z.leb_le _ mmap_limit)) by lia. cbn [negb].
  replace (u64 (v_start r + vmr_size r - 1)) with (v_end r) by (rewrite Hsz, u64_small; unfold is_u64; lia).
  erewrite (M_bind_done (mmap_find_vmr_overlap _ _ _)).
  2: { unfold mmap_find_vmr_overlap. rewrite (mmap_not_null _ _ _ _ Hown).
       erewrite M_bind_done by apply (mmap_assert_locked_eq _ _ _ _ Hown).
       erewrite M_bind_done by (apply (mmap_find_mid _ _ _ _ _ _ _ (v_start r) Hown); lia). rewrite Hpn.
       erewrite M_bind_done by exact Hld. cbn [v_reg]. rewrite Z.leb_refl. reflexivity. }
  rewrite Hpn. erewrite M_bind_done by exact Hld. cbn [v_reg]. rewrite Hst, (proj2 (Z.eqb_neq _ prot)), Hwx by done.
  rewrite Z.ltb_irrefl. unfold M_bind at 1, M_ret at 1. cbn [Z.eqb negb].
  erewrite M_bind_done by apply (mmap_load_eq _ _ _ _ Hown). fold vf.
  erewrite M_bind_done by (apply modify_eq; unfold load in Hld; destruct (vmrs m !! p); [|done]; by injection Hld as ->).
  unfold on_reg. cbn [v_reg v_prev v_next].
  erewrite M_bind_done by apply (vmr_load_eq _ _ _ _ Hown' _ _ _ _ eq_refl). reflexivity.
Qed.

Lemma mmap_protect_whole_witness :
  exists m', mmap_protect (KA:=high_alloc) (PG:=no_paging) (slot 0) 20971520 8192 PROT_READ with_space = Done 0 m' /\
    mmap_own m' (slot 0) space [(slot 1, reg_1); (slot 2, set_flags 4 5 reg_2)].
Proof.
  destruct (mmap_protect_whole (KA:=high_alloc) (PG:=no_paging) with_space (slot 0) space [(slot 1, reg_1)] (slot 2) reg_2 []
    PROT_READ with_space_own) as (m' & E & Ho & _).
  - vm_compute. reflexivity.
  - vm_compute. reflexivity.
  - vm_compute. reflexivity.
  - vm_compute. discriminate.
  - vm_compute. reflexivity.
  - exists m'. split; [exact E|exact Ho].
Defined.
