(* ===== verification/CMem.v ===== *)
(** * Byte memory

    The string functions of lib/ work on bytes through pointers they compute with.
    They run over a flat memory: the bytes that are mapped, and the live blocks of
    the heap inside it ([c_blocks]: address and size).  Reading or writing a byte
    that is not mapped is a fault; a write past the end of a block that stays in
    mapped memory is not, it changes whatever lies there. *)
From S2P Require Import Prelude.

Record cmem := mkCmem {
  c_bytes : gmap Z Z;
  c_blocks : gmap Z Z;
  c_tick : nat
}.
Definition CM (A : Type) : Type := M cmem A.

Definition set_bytes (h : gmap Z Z) (m : cmem) : cmem := mkCmem h (c_blocks m) (c_tick m).

Definition rd8 (p : Z) : CM Z := fun m =>
  match c_bytes m !! p with
  | Some b => Done b m
  | None => Fault
  end.
Definition wr8 (p b : Z) : CM unit := fun m =>
  match c_bytes m !! p with
  | Some _ => Done tt (set_bytes (<[p := b]> (c_bytes m)) m)
  | None => Fault
  end.

(** [n] bytes from [p] on, read before anything is written. *)
Fixpoint rdn (n : nat) (p : Z) : CM (list Z) :=
  match n with
  | O => ret! []
  | S n => let! b := rd8 p in let! l := rdn n (p + 1) in ret! (b :: l)
  end.
Fixpoint wrn (p : Z) (l : list Z) : CM unit :=
  match l with
  | [] => ret! tt
  | b :: l => do! wr8 p b in wrn (p + 1) l
  end.

(** Little-endian words. *)
Fixpoint le_word (l : list Z) : Z :=
  match l with
  | [] => 0
  | b :: l => b + 256 * le_word l
  end.
Fixpoint le_bytes (n : nat) (w : Z) : list Z :=
  match n with
  | O => []
  | S n => w mod 256 :: le_bytes n (w / 256)
  end.
Definition rd64 (p : Z) : CM Z := let! l := rdn 8 p in ret! (le_word l).
Definition wr64 (p w : Z) : CM unit := wrn p (le_bytes 8 w).

(** A [char] is signed: its value as an [int]. *)
Definition schar (b : Z) : Z := if b <? 128 then b else b - 256.

(** A scan along mapped bytes ends within this many steps. *)
Definition str_fuel : CM nat := fun m => Done (S (size (c_bytes m))) m.

(** ** The heap

    What the [n]-th call of [kmalloc(size)] answers.  A block is mapped memory that
    no live block covers. *)
Definition in_block (m : cmem) (q : Z) : Prop :=
  exists p n, c_blocks m !! p = Some n /\ p <= q < p + n.
Class CAlloc := {
  ca_pick : cmem -> Z -> option Z;
  ca_pick_ok : forall m n p, ca_pick m n = Some p ->
    0 < p /\ p + n <= two64 /\ c_blocks m !! p = None /\
    forall q, p <= q < p + n -> is_Some (c_bytes m !! q) /\ ~ in_block m q
}.

Definition cmalloc {CA : CAlloc} (n : Z) : CM Z := fun m =>
  match ca_pick m n with
  | Some p => Done p (mkCmem (c_bytes m) (<[p := n]> (c_blocks m)) (S (c_tick m)))
  | None => Done 0 (mkCmem (c_bytes m) (c_blocks m) (S (c_tick m)))
  end.
Definition cfree (p : Z) : CM unit := fun m =>
  if p =? 0 then Done tt m else
  match c_blocks m !! p with
  | Some _ => Done tt (mkCmem (c_bytes m) (delete p (c_blocks m)) (c_tick m))
  | None => Fault
  end.

(** ** What is in memory *)
Fixpoint bytes_at (h : gmap Z Z) (p : Z) (l : list Z) : Prop :=
  match l with
  | [] => True
  | b :: l => h !! p = Some b /\ bytes_at h (p + 1) l
  end.

(** A string: bytes other than NUL, then a NUL. *)
Definition chars (s : list Z) : Prop := Forall (fun b => 0 < b < 256) s.
Definition cstr (h : gmap Z Z) (p : Z) (s : list Z) : Prop := bytes_at h p (s ++ [0]) /\ chars s.

(** Memory holds bytes, at 64-bit addresses, and is mapped in pages, so in whole
    aligned blocks of 16 bytes. *)
Record mem_ok (h : gmap Z Z) : Prop := {
  mo_byte : forall p b, h !! p = Some b -> 0 <= b < 256;
  mo_addr : forall p, is_Some (h !! p) -> 0 <= p < two64;
  mo_block : forall p q, is_Some (h !! p) -> q / 16 = p / 16 -> is_Some (h !! q)
}.

(** [h] with [l] written at [p]. *)
Fixpoint put (h : gmap Z Z) (p : Z) (l : list Z) : gmap Z Z :=
  match l with
  | [] => h
  | b :: l => put (<[p := b]> h) (p + 1) l
  end.
