(* ===== verification/Str.v ===== *)
(** * Strings (lib/string.c)

    Every function of lib/string.c over byte memory.  Pointers are addresses; the
    functions that read a word at a time do so here, through [rd64] and the bit trick
    [HASZERO].  [char] is signed where the code compares it with an [int]. *)
From S2P Require Import Prelude Errno CMem.

Definition ALIGN : Z := 8.
Definition UCHAR_MAX : Z := 255.
Definition ONES : Z := (two64 - 1) / UCHAR_MAX.
Definition HIGHS : Z := ONES * (UCHAR_MAX / 2 + 1).
Definition HASZERO (x : Z) : bool :=
  negb (Z.land (Z.land (u64 (x - ONES)) (not64 x)) HIGHS =? 0).

(** [(uint8_t)c] *)
Definition u8 (c : Z) : Z := c mod 256.

(** A byteset: [size_t byteset[4]] and [BITOP(byteset, b, |=)], [BITOP(byteset, b, &)]. *)
Definition byteset_none : list Z := replicate 4 0.
Definition byteset_add (bs : list Z) (b : Z) : list Z :=
  alter (fun w => Z.lor w (bit_mask (b mod 64))) (Z.to_nat (b / 64)) bs.
Definition byteset_has (bs : list Z) (b : Z) : bool :=
  match bs !! Z.to_nat (b / 64) with
  | Some w => negb (Z.land w (bit_mask (b mod 64)) =? 0)
  | None => false
  end.

(** ** Blocks of memory *)
Fixpoint memcmp_loop (n : nat) (l r : Z) : CM Z :=
  match n with
  | O => ret! 0
  | S n =>
      let! a := rd8 l in
      let! b := rd8 r in
      if a =? b then memcmp_loop n (l + 1) (r + 1) else ret! (a - b)
  end.
Definition memcmp (vl vr n : Z) : CM Z := memcmp_loop (Z.to_nat n) vl vr.

(** [for (; (s & (ALIGN - 1)) && n && *s != c; s++, n--)] *)
Fixpoint memchr_align (fuel : nat) (s c n : Z) : CM (Z * Z) :=
  match fuel with
  | O => M_diverge
  | S fuel =>
      if Z.land s (ALIGN - 1) =? 0 then ret! (s, n) else
      if n =? 0 then ret! (s, n) else
      let! b := rd8 s in
      if b =? c then ret! (s, n) else memchr_align fuel (s + 1) c (n - 1)
  end.
(** [for (; n >= sizeof(size_t) && !HASZERO( *w ^ k); w++, n -= sizeof(size_t))] *)
Fixpoint memchr_words (fuel : nat) (w k n : Z) : CM (Z * Z) :=
  match fuel with
  | O => M_diverge
  | S fuel =>
      if n <? 8 then ret! (w, n) else
      let! x := rd64 w in
      if HASZERO (Z.lxor x k) then ret! (w, n) else memchr_words fuel (w + 8) k (n - 8)
  end.
(** [for (; n && *s != c; s++, n--)] *)
Fixpoint memchr_bytes (n : nat) (s c : Z) : CM (Z * Z) :=
  match n with
  | O => ret! (s, 0)
  | S n' =>
      let! b := rd8 s in
      if b =? c then ret! (s, Z.of_nat n) else memchr_bytes n' (s + 1) c
  end.
Definition memchr (src c n : Z) : CM Z :=
  let c := u8 c in
  let! sn := memchr_align 8 src c n in
  let! stop := (if sn.2 =? 0 then ret! true else let! b := rd8 sn.1 in ret! (b =? c)) in
  let! sn :=
    (if stop then ret! sn else
     let k := u64 (ONES * c) in
     let! wn := memchr_words (S (Z.to_nat sn.2)) sn.1 k sn.2 in
     memchr_bytes (Z.to_nat wn.2) wn.1 c) in
  ret! (if sn.2 =? 0 then 0 else sn.1).

(** [while (n--) if (s[n] == c) return s + n;] *)
Fixpoint memrchr_loop (n : nat) (s c : Z) : CM Z :=
  match n with
  | O => ret! 0
  | S n =>
      let! b := rd8 (s + Z.of_nat n) in
      if b =? c then ret! (s + Z.of_nat n) else memrchr_loop n s c
  end.
Definition memrchr (m c n : Z) : CM Z := memrchr_loop (Z.to_nat n) m (u8 c).

(** [for (i = 0; i < size; i++) dst[i] = src[i]] *)
Fixpoint copy_up (n : nat) (dst src : Z) : CM unit :=
  match n with
  | O => ret! tt
  | S n =>
      let! b := rd8 src in
      do! wr8 dst b in
      copy_up n (dst + 1) (src + 1)
  end.
Definition memcpy (dstptr srcptr size : Z) : CM Z :=
  do! copy_up (Z.to_nat size) dstptr srcptr in
  ret! dstptr.

(** Units of [k] bytes, each read whole before it is written. *)
Fixpoint copy_units (n k : nat) (dst src : Z) : CM unit :=
  match n with
  | O => ret! tt
  | S n =>
      let! l := rdn k src in
      do! wrn dst l in
      copy_units n k (dst + Z.of_nat k) (src + Z.of_nat k)
  end.
Definition memcpy32 (dstptr srcptr n : Z) : CM Z :=
  do! copy_units (Z.to_nat n) 4 dstptr srcptr in
  ret! dstptr.

Fixpoint fill_units (n : nat) (p : Z) (unit_ : list Z) : CM unit :=
  match n with
  | O => ret! tt
  | S n =>
      do! wrn p unit_ in
      fill_units n (p + Z.of_nat (length unit_)) unit_
  end.
Definition memset (bufptr value size : Z) : CM Z :=
  do! fill_units (Z.to_nat size) bufptr [u8 value] in
  ret! bufptr.
Definition memsetw (bufptr value size : Z) : CM Z :=
  do! fill_units (Z.to_nat size) bufptr (le_bytes 2 (value mod 65536)) in
  ret! bufptr.

(** [while (n) { n--; d[n] = s[n]; }] *)
Fixpoint copy_down (n : nat) (d s : Z) : CM unit :=
  match n with
  | O => ret! tt
  | S n =>
      let! b := rd8 (s + Z.of_nat n) in
      do! wr8 (d + Z.of_nat n) b in
      copy_down n d s
  end.

(** [while (d % 8) { if (!n--) return; *d++ = *s++; }]: [None] for the return. *)
Fixpoint move_align_up (fuel : nat) (d s n : Z) : CM (option (Z * Z * Z)) :=
  match fuel with
  | O => M_diverge
  | S fuel =>
      if d mod 8 =? 0 then ret! (Some (d, s, n)) else
      if n =? 0 then ret! None else
      let! b := rd8 s in
      do! wr8 d b in
      move_align_up fuel (d + 1) (s + 1) (n - 1)
  end.
(** [while ((d + n) % 8) { if (!n--) return; d[n] = s[n]; }] *)
Fixpoint move_align_down (fuel : nat) (d s n : Z) : CM (option Z) :=
  match fuel with
  | O => M_diverge
  | S fuel =>
      if (d + n) mod 8 =? 0 then ret! (Some n) else
      if n =? 0 then ret! None else
      let! b := rd8 (s + (n - 1)) in
      do! wr8 (d + (n - 1)) b in
      move_align_down fuel d s (n - 1)
  end.
(** [while (n >= 8) { n -= 8; *(size_t * )(d + n) = *(size_t * )(s + n); }]: what is left of [n]. *)
Fixpoint move_words_down (fuel : nat) (d s n : Z) : CM Z :=
  match fuel with
  | O => M_diverge
  | S fuel =>
      if n <? 8 then ret! n else
      let! l := rdn 8 (s + (n - 8)) in
      do! wrn (d + (n - 8)) l in
      move_words_down fuel d s (n - 8)
  end.

Definition memmove (dest src n : Z) : CM Z :=
  if dest =? src then ret! dest else
  if (src + n <=? dest) || (dest + n <=? src) then memcpy dest src n else
  if dest <? src then
    if src mod 8 =? dest mod 8 then
      let! a := move_align_up 8 dest src n in
      match a with
      | None => ret! dest
      | Some (d, s, n) =>
          do! copy_units (Z.to_nat (n / 8)) 8 d s in
          do! copy_up (Z.to_nat (n mod 8)) (d + 8 * (n / 8)) (s + 8 * (n / 8)) in
          ret! dest
      end
    else
      do! copy_up (Z.to_nat n) dest src in
      ret! dest
  else
    if src mod 8 =? dest mod 8 then
      let! a := move_align_down 8 dest src n in
      match a with
      | None => ret! dest
      | Some n =>
          let! n := move_words_down (S (Z.to_nat n)) dest src n in
          do! copy_down (Z.to_nat n) dest src in
          ret! dest
      end
    else
      do! copy_down (Z.to_nat n) dest src in
      ret! dest.

(** ** Comparing and measuring *)

(** [for (; *l == *r && *l; l++, r++)] *)
Fixpoint strcmp_loop (fuel : nat) (l r : Z) : CM Z :=
  match fuel with
  | O => M_diverge
  | S fuel =>
      let! a := rd8 l in
      let! b := rd8 r in
      if (a =? b) && negb (a =? 0) then strcmp_loop fuel (l + 1) (r + 1) else ret! (a - b)
  end.
Definition strcmp (l r : Z) : CM Z :=
  let! fuel := str_fuel in strcmp_loop fuel l r.
Definition strcoll (s1 s2 : Z) : CM Z := strcmp s1 s2.

(** [for (; s % ALIGN; s++) if (!*s || ...) return ...]: [inl] for the return. *)
Fixpoint scan_align (fuel : nat) (stop : Z -> bool) (s : Z) : CM (Z + Z) :=
  match fuel with
  | O => M_diverge
  | S fuel =>
      if s mod ALIGN =? 0 then ret! (inr s) else
      let! b := rd8 s in
      if stop b then ret! (inl s) else scan_align fuel stop (s + 1)
  end.
(** [for (w = s; !test( *w); w++)] *)
Fixpoint scan_words (fuel : nat) (test : Z -> bool) (w : Z) : CM Z :=
  match fuel with
  | O => M_diverge
  | S fuel =>
      let! x := rd64 w in
      if test x then ret! w else scan_words fuel test (w + 8)
  end.
(** [for (; !stop( *s); s++)] *)
Fixpoint scan_bytes (fuel : nat) (stop : Z -> bool) (s : Z) : CM Z :=
  match fuel with
  | O => M_diverge
  | S fuel =>
      let! b := rd8 s in
      if stop b then ret! s else scan_bytes fuel stop (s + 1)
  end.
Definition is_nul (b : Z) : bool := b =? 0.

Definition strlen (s : Z) : CM Z :=
  let! fuel := str_fuel in
  let! a := scan_align 8 is_nul s in
  match a with
  | inl e => ret! (e - s)
  | inr w =>
      let! w := scan_words fuel HASZERO w in
      let! e := scan_bytes fuel is_nul w in
      ret! (e - s)
  end.

(** ** Copying strings *)

(** [for (; ( *d = *s); s++, d++)]: the address of the NUL written. *)
Fixpoint strcpy_loop (fuel : nat) (d s : Z) : CM Z :=
  match fuel with
  | O => M_diverge
  | S fuel =>
      let! b := rd8 s in
      do! wr8 d b in
      if b =? 0 then ret! d else strcpy_loop fuel (d + 1) (s + 1)
  end.
(** [for (; s % ALIGN; s++, d++) if (!( *d = *s)) return d;] *)
Fixpoint stpcpy_align (fuel : nat) (d s : Z) : CM (Z + Z * Z) :=
  match fuel with
  | O => M_diverge
  | S fuel =>
      if s mod ALIGN =? 0 then ret! (inr (d, s)) else
      let! b := rd8 s in
      do! wr8 d b in
      if b =? 0 then ret! (inl d) else stpcpy_align fuel (d + 1) (s + 1)
  end.
(** [for (; !HASZERO( *ws); *wd++ = *ws++)] *)
Fixpoint stpcpy_words (fuel : nat) (wd ws : Z) : CM (Z * Z) :=
  match fuel with
  | O => M_diverge
  | S fuel =>
      let! l := rdn 8 ws in
      if HASZERO (le_word l) then ret! (wd, ws) else
      do! wrn wd l in
      stpcpy_words fuel (wd + 8) (ws + 8)
  end.
Definition stpcpy (d s : Z) : CM Z :=
  let! fuel := str_fuel in
  if s mod ALIGN =? d mod ALIGN then
    let! a := stpcpy_align 8 d s in
    match a with
    | inl d => ret! d
    | inr (d, s) =>
        let! w := stpcpy_words fuel d s in
        strcpy_loop fuel w.1 w.2
    end
  else strcpy_loop fuel d s.
Definition strcpy (dest src : Z) : CM Z :=
  let! fuel := str_fuel in
  let! _ := strcpy_loop fuel dest src in
  ret! dest.

(** [while ( *src) { *end++ = *src++; }] *)
Fixpoint strcat_loop (fuel : nat) (end_ src : Z) : CM Z :=
  match fuel with
  | O => M_diverge
  | S fuel =>
      let! b := rd8 src in
      if b =? 0 then ret! end_ else
      do! wr8 end_ b in
      strcat_loop fuel (end_ + 1) (src + 1)
  end.
Definition strcat (dest src : Z) : CM Z :=
  let! fuel := str_fuel in
  let! e := scan_bytes fuel is_nul dest in
  let! e := strcat_loop fuel e src in
  do! wr8 e 0 in
  ret! dest.

(** [while ( *src && i < n) { *end++ = *src++; i++; }]: where the copy stopped. *)
Fixpoint strncat_loop (n : nat) (end_ src : Z) : CM Z :=
  let! b := rd8 src in
  if b =? 0 then ret! end_ else
  match n with
  | O => ret! end_
  | S n =>
      do! wr8 end_ b in
      strncat_loop n (end_ + 1) (src + 1)
  end.
Definition strncat (dest src n : Z) : CM Z :=
  let! fuel := str_fuel in
  let! e := scan_bytes fuel is_nul dest in
  let! e := strncat_loop (Z.to_nat n) e src in
  do! wr8 e 0 in
  ret! dest.

(** [while (n > 0) { if (!*src) break; *out++ = *src++; --n; }] *)
Fixpoint strncpy_loop (n : nat) (out src : Z) : CM (Z * Z) :=
  match n with
  | O => ret! (out, 0)
  | S n' =>
      let! b := rd8 src in
      if b =? 0 then ret! (out, Z.of_nat n) else
      do! wr8 out b in
      strncpy_loop n' (out + 1) (src + 1)
  end.
(** The padding loop counts with an [int]; the function returns [out], not [dest]. *)
Definition strncpy (dest src n : Z) : CM Z :=
  let! on := strncpy_loop (Z.to_nat n) dest src in
  let pad := Z.max 0 (s32 on.2) in
  do! fill_units (Z.to_nat pad) on.1 [0] in
  ret! (on.1 + pad).

(** [while (--n > 0 && ( *s++ = *t++) != 0)] *)
Fixpoint safestrncpy_loop (n : nat) (s t : Z) : CM Z :=
  match n with
  | O => ret! s
  | S n =>
      let! b := rd8 t in
      do! wr8 s b in
      if b =? 0 then ret! (s + 1) else safestrncpy_loop n (s + 1) (t + 1)
  end.
Definition safestrncpy (s t n : Z) : CM Z :=
  if n =? 0 then ret! s else
  let! e := safestrncpy_loop (Z.to_nat (n - 1)) s t in
  do! wr8 e 0 in
  ret! s.

(** ** Spans and searches *)
Fixpoint byteset_of (fuel : nat) (bs : list Z) (c : Z) : CM (list Z) :=
  match fuel with
  | O => M_diverge
  | S fuel =>
      let! b := rd8 c in
      if b =? 0 then ret! bs else byteset_of fuel (byteset_add bs b) (c + 1)
  end.
Definition strspn (s c : Z) : CM Z :=
  let! fuel := str_fuel in
  let! c0 := rd8 c in
  if c0 =? 0 then ret! 0 else
  let! c1 := rd8 (c + 1) in
  if c1 =? 0 then
    let! e := scan_bytes fuel (fun b => negb (b =? c0)) s in ret! (e - s)
  else
    let! bs := byteset_of fuel byteset_none c in
    let! e := scan_bytes fuel (fun b => is_nul b || negb (byteset_has bs b)) s in
    ret! (e - s).

Definition strchrnul (s c : Z) : CM Z :=
  let! fuel := str_fuel in
  let c := u8 c in
  if c =? 0 then let! n := strlen s in ret! (s + n) else
  let stop := (fun b => is_nul b || (b =? c)) in
  let! a := scan_align 8 stop s in
  match a with
  | inl e => ret! e
  | inr w =>
      let k := u64 (ONES * c) in
      let! w := scan_words fuel (fun x => HASZERO x || HASZERO (Z.lxor x k)) w in
      scan_bytes fuel stop w
  end.
Definition strchr (s c : Z) : CM Z :=
  let! r := strchrnul s c in
  let! b := rd8 r in
  ret! (if b =? u8 c then r else 0).
Definition strrchr (s c : Z) : CM Z :=
  let! n := strlen s in memrchr s c (n + 1).
Definition strcspn (s c : Z) : CM Z :=
  let! fuel := str_fuel in
  let! c0 := rd8 c in
  let! c1 := (if c0 =? 0 then ret! 0 else rd8 (c + 1)) in
  if c1 =? 0 then
    let! r := strchrnul s (schar c0) in ret! (r - s)
  else
    let! bs := byteset_of fuel byteset_none c in
    let! e := scan_bytes fuel (fun b => is_nul b || byteset_has bs b) s in
    ret! (e - s).
Definition strpbrk (s b : Z) : CM Z :=
  let! n := strcspn s b in
  let! x := rd8 (s + n) in
  ret! (if x =? 0 then 0 else s + n).
Definition lfind (str accept : Z) : CM Z := strchr str accept.
Definition rfind (str accept : Z) : CM Z := strrchr str accept.

(** [for (h += k - 1; *h && hw != nw; hw = step(hw, *++h))], at [h]. *)
Fixpoint window_scan (fuel : nat) (step : Z -> Z -> Z) (hw nw h : Z) : CM Z :=
  match fuel with
  | O => M_diverge
  | S fuel =>
      let! b := rd8 h in
      if (b =? 0) || (hw =? nw) then ret! h else
      let! b := rd8 (h + 1) in
      window_scan fuel step (step hw b) nw (h + 1)
  end.
Definition u16 (z : Z) : Z := z mod 65536.
Definition u32 (z : Z) : Z := z mod 4294967296.

Definition strstr_2b (h n : Z) : CM Z :=
  let! fuel := str_fuel in
  let! ns := rdn 2 n in
  let! hs := rdn 2 h in
  let word := (fun l => u16 (match l with [a; b] => Z.lor (Z.shiftl a 8) b | _ => 0 end)) in
  let! e := window_scan fuel (fun w b => u16 (Z.lor (Z.shiftl w 8) b)) (word hs) (word ns) (h + 1) in
  let! b := rd8 e in
  ret! (if b =? 0 then 0 else e - 1).
Definition strstr_3b (h n : Z) : CM Z :=
  let! fuel := str_fuel in
  let! ns := rdn 3 n in
  let! hs := rdn 3 h in
  let word := (fun l => u32 (match l with
    | [a; b; c] => Z.lor (Z.lor (Z.shiftl a 24) (Z.shiftl b 16)) (Z.shiftl c 8) | _ => 0 end)) in
  let! e := window_scan fuel (fun w b => u32 (Z.shiftl (Z.lor w b) 8)) (word hs) (word ns) (h + 2) in
  let! b := rd8 e in
  ret! (if b =? 0 then 0 else e - 2).
Definition strstr_4b (h n : Z) : CM Z :=
  let! fuel := str_fuel in
  let! ns := rdn 4 n in
  let! hs := rdn 4 h in
  let word := (fun l => u32 (match l with
    | [a; b; c; d] => Z.lor (Z.lor (Z.lor (Z.shiftl a 24) (Z.shiftl b 16)) (Z.shiftl c 8)) d | _ => 0 end)) in
  let! e := window_scan fuel (fun w b => u32 (Z.lor (Z.shiftl w 8) b)) (word hs) (word ns) (h + 3) in
  let! b := rd8 e in
  ret! (if b =? 0 then 0 else e - 3).

(** The maximal suffix of the needle with respect to [gt]: [ip] and the period [p].
    The indices are [size_t] and [ip] starts at -1. *)
Fixpoint max_suffix (fuel : nat) (gt : Z -> Z -> bool) (n l ip jp k p : Z) : CM (Z * Z) :=
  match fuel with
  | O => M_diverge
  | S fuel =>
      if negb (u64 (jp + k) <? l) then ret! (ip, p) else
      let! a := rd8 (n + u64 (ip + k)) in
      let! b := rd8 (n + u64 (jp + k)) in
      if a =? b then
        if k =? p then max_suffix fuel gt n l ip (u64 (jp + p)) 1 p
        else max_suffix fuel gt n l ip jp (k + 1) p
      else if gt a b then
        let jp := u64 (jp + k) in max_suffix fuel gt n l ip jp 1 (u64 (jp - ip))
      else max_suffix fuel gt n l jp (u64 (jp + 1)) 1 1
  end.

(** The length of the needle, its byteset and its shift table, or [None] when the
    haystack is shorter. *)
Fixpoint needle_table (fuel : nat) (h n l : Z) (bs : list Z) (shift : gmap Z Z)
    : CM (option (Z * list Z * gmap Z Z)) :=
  match fuel with
  | O => M_diverge
  | S fuel =>
      let! b := rd8 (n + l) in
      if b =? 0 then ret! (Some (l, bs, shift)) else
      let! c := rd8 (h + l) in
      if c =? 0 then ret! None else
      needle_table fuel h n (l + 1) (byteset_add bs b) (<[b := l + 1]> shift)
  end.

(** [for (k = MAX(ms + 1, mem); n[k] && n[k] == h[k]; k++)] *)
Fixpoint right_half (fuel : nat) (h n k : Z) : CM Z :=
  match fuel with
  | O => M_diverge
  | S fuel =>
      let! b := rd8 (n + k) in
      if b =? 0 then ret! k else
      let! c := rd8 (h + k) in
      if b =? c then right_half fuel h n (k + 1) else ret! k
  end.
(** [for (k = ms + 1; k > mem && n[k - 1] == h[k - 1]; k--)] *)
Fixpoint left_half (fuel : nat) (h n mem k : Z) : CM Z :=
  match fuel with
  | O => M_diverge
  | S fuel =>
      if negb (mem <? k) then ret! k else
      let! b := rd8 (n + (k - 1)) in
      let! c := rd8 (h + (k - 1)) in
      if b =? c then left_half fuel h n mem (k - 1) else ret! k
  end.

(** The search loop of [strstr_twoway]. *)
Fixpoint twoway_loop (fuel : nat) (n l ms p mem0 : Z) (bs : list Z) (shift : gmap Z Z) (h z mem : Z) : CM Z :=
  match fuel with
  | O => M_diverge
  | S fuel =>
      let! z :=
        (if u64 (z - h) <? l then
           let grow := Z.lor l 63 in
           let! z2 := memchr z 0 grow in
           if z2 =? 0 then ret! (Some (z + grow))
           else if u64 (z2 - h) <? l then ret! None else ret! (Some z2)
         else ret! (Some z)) in
      match z with
      | None => ret! 0
      | Some z =>
          let! last := rd8 (h + (l - 1)) in
          if negb (byteset_has bs last) then twoway_loop fuel n l ms p mem0 bs shift (h + l) z 0 else
          let k := u64 (l - default 0 (shift !! last)) in
          if negb (k =? 0) then
            let k := if negb (mem0 =? 0) && negb (mem =? 0) && (k <? p) then u64 (l - p) else k in
            twoway_loop fuel n l ms p mem0 bs shift (h + k) z 0
          else
            let! lf := str_fuel in
            let! k := right_half lf h n (Z.max (u64 (ms + 1)) mem) in
            let! b := rd8 (n + k) in
            if negb (b =? 0) then twoway_loop fuel n l ms p mem0 bs shift (h + u64 (k - ms)) z 0 else
            let! k := left_half lf h n mem (u64 (ms + 1)) in
            if k <=? mem then ret! h else twoway_loop fuel n l ms p mem0 bs shift (h + p) z mem0
      end
  end.
Definition strstr_twoway (h n : Z) : CM Z :=
  let! fuel := str_fuel in
  let! t := needle_table fuel h n 0 byteset_none ∅ in
  match t with
  | None => ret! 0
  | Some (l, bs, shift) =>
      let sf := S (Z.to_nat (3 * l)) in
      let! s1 := max_suffix sf (fun a b => b <? a) n l (two64 - 1) 0 1 1 in
      let! s2 := max_suffix sf (fun a b => a <? b) n l (two64 - 1) 0 1 1 in
      let mp := if u64 (s1.1 + 1) <? u64 (s2.1 + 1) then s2 else s1 in
      let! c := memcmp n (n + mp.2) (u64 (mp.1 + 1)) in
      let mem0 := if c =? 0 then u64 (l - mp.2) else 0 in
      let p := if c =? 0 then mp.2 else u64 (Z.max mp.1 (u64 (l - mp.1 - 1)) + 1) in
      twoway_loop fuel n l mp.1 p mem0 bs shift h h 0
  end.

Definition strstr (h n : Z) : CM Z :=
  let! n0 := rd8 n in
  if n0 =? 0 then ret! h else
  let! h := strchr h (schar n0) in
  if h =? 0 then ret! 0 else
  let! n1 := rd8 (n + 1) in
  if n1 =? 0 then ret! h else
  let! h1 := rd8 (h + 1) in
  if h1 =? 0 then ret! 0 else
  let! n2 := rd8 (n + 2) in
  if n2 =? 0 then strstr_2b h n else
  let! h2 := rd8 (h + 2) in
  if h2 =? 0 then ret! 0 else
  let! n3 := rd8 (n + 3) in
  if n3 =? 0 then strstr_3b h n else
  let! h3 := rd8 (h + 3) in
  if h3 =? 0 then ret! 0 else
  let! n4 := rd8 (n + 4) in
  if n4 =? 0 then strstr_4b h n else
  strstr_twoway h n.

(** ** Tokens *)

(** The token and what [*saveptr] holds afterwards; [str = 0] continues at [saved]. *)
Definition strtok_r (str delim saved : Z) : CM (Z * Z) :=
  let str := if str =? 0 then saved else str in
  let! n := strspn str delim in
  let token := str + n in
  let! b := rd8 token in
  if b =? 0 then ret! (0, token) else
  let! e := strpbrk token delim in
  if e =? 0 then
    let! z := lfind token 0 in ret! (token, z)
  else
    do! wr8 e 0 in
    ret! (token, e + 1).
(** [strtok] keeps [saveptr] in a static variable, reset when a string is given. *)
Definition strtok (str delim saved : Z) : CM (Z * Z) :=
  strtok_r str delim (if str =? 0 then saved else 0).

(** ** Case and character classes (lib/ctype.c) *)
Definition isupper (c : Z) : bool := (65 <=? c) && (c <=? 90).
Definition islower (c : Z) : bool := (97 <=? c) && (c <=? 122).
Definition isalpha (c : Z) : bool := islower c || isupper c.
Definition isdigit (c : Z) : bool := (48 <=? c) && (c <=? 57).
Definition isxdigit (c : Z) : bool :=
  isdigit c || ((97 <=? c) && (c <=? 102)) || ((65 <=? c) && (c <=? 70)).
Definition isalphanum (c : Z) : bool := isalpha c || isdigit c.
Definition isspace (c : Z) : bool :=
  (c =? 32) || (c =? 11) || (c =? 8) || (c =? 12) || (c =? 9) || (c =? 13) || (c =? 10).
Definition tolower (c : Z) : Z := if isalpha c then Z.lor c 32 else c.
Definition toupper (c : Z) : Z := if isalpha c then Z.land (not64 32) c else c.

(** The bytes are compared folded, the difference returned is that of the bytes. *)
Fixpoint strcasecmp_loop (fuel : nat) (s1 s2 : Z) : CM Z :=
  match fuel with
  | O => M_diverge
  | S fuel =>
      let! a := rd8 s1 in
      let! b := rd8 s2 in
      if (tolower (schar a) =? tolower (schar b)) && negb (a =? 0)
      then strcasecmp_loop fuel (s1 + 1) (s2 + 1) else ret! (a - b)
  end.
Definition strcasecmp (s1 s2 : Z) : CM Z :=
  let! fuel := str_fuel in strcasecmp_loop fuel s1 s2.

(** [while (n-- && fold( *s1) == fold( *s2)) { if (!n || !*s1) break; s1++; s2++; }],
    for [n > 0]: where it stops. *)
Fixpoint strn_loop (n : nat) (fold_ : Z -> Z) (s1 s2 : Z) : CM (Z * Z) :=
  match n with
  | O => ret! (s1, s2)
  | S n =>
      let! a := rd8 s1 in
      let! b := rd8 s2 in
      if negb (fold_ a =? fold_ b) then ret! (s1, s2) else
      if Nat.eqb n 0 || (a =? 0) then ret! (s1, s2) else strn_loop n fold_ (s1 + 1) (s2 + 1)
  end.
Definition strncmp (s1 s2 n : Z) : CM Z :=
  if n =? 0 then ret! 0 else
  let! p := strn_loop (Z.to_nat n) (fun b => b) s1 s2 in
  let! a := rd8 p.1 in
  let! b := rd8 p.2 in
  ret! (a - b).
Definition strncasecmp (s1 s2 n : Z) : CM Z :=
  if n =? 0 then ret! 0 else
  let fold_ := (fun b => tolower (schar b)) in
  let! p := strn_loop (Z.to_nat n) fold_ s1 s2 in
  let! a := rd8 p.1 in
  let! b := rd8 p.2 in
  ret! (s32 (fold_ a - fold_ b)).

Definition string_eq (s0 s1 : Z) : CM bool :=
  let! n0 := strlen s0 in
  let! n1 := strlen s1 in
  if negb (n0 =? n1) then ret! false else
  let! c := strcmp s0 s1 in
  ret! (c =? 0).

(** ** Functions that allocate *)
Section Alloc.
Context {CA : CAlloc}.

(** [len] is an [int]. *)
Definition strdup (s : Z) : CM Z :=
  let! n := strlen s in
  let len := s32 (n + 1) in
  let! str := cmalloc (u64 len) in
  if str =? 0 then ret! 0 else
  let! _ := strcpy str s in
  do! wr8 (str + (len - 1)) 0 in
  ret! str.

Definition combine_strings (s0 s1 : Z) : CM Z :=
  if (s0 =? 0) || (s1 =? 0) then ret! 0 else
  let! len0 := strlen s0 in
  let! len1 := strlen s1 in
  let! result := cmalloc (u64 (len0 + len1 + 1)) in
  if result =? 0 then ret! 0 else
  let! _ := memcpy result s0 len0 in
  let! _ := memcpy (result + len0) s1 (len1 + 1) in
  ret! result.

(** [while (end >= p && *end == delim) *end-- = '\0';] *)
Fixpoint trim_trailing (fuel : nat) (is_delim : Z -> bool) (p end_ : Z) : CM unit :=
  match fuel with
  | O => M_diverge
  | S fuel =>
      if end_ <? p then ret! tt else
      let! b := rd8 end_ in
      if is_delim b then do! wr8 end_ 0 in trim_trailing fuel is_delim p (end_ - 1) else ret! tt
  end.

(** The delimiters followed by a byte that is neither NUL nor a delimiter. *)
Fixpoint count_tokens (fuel : nat) (is_delim : Z -> bool) (scan count : Z) : CM Z :=
  match fuel with
  | O => M_diverge
  | S fuel =>
      let! b := rd8 scan in
      if b =? 0 then ret! count else
      if negb (is_delim b) then count_tokens fuel is_delim (scan + 1) count else
      let! c := rd8 (scan + 1) in
      count_tokens fuel is_delim (scan + 1) (if (c =? 0) || is_delim c then count else count + 1)
  end.

(** [while ( *p) { tokens[token_index++] = p; ... }]: the number of tokens. *)
Fixpoint extract_tokens (fuel : nat) (is_delim : Z -> bool) (tokens p i : Z) : CM Z :=
  match fuel with
  | O => M_diverge
  | S fuel =>
      let! b := rd8 p in
      if b =? 0 then ret! i else
      do! wr64 (tokens + 8 * i) p in
      let! sf := str_fuel in
      let! p := scan_bytes sf (fun b => is_nul b || is_delim b) p in
      let! b := rd8 p in
      if b =? 0 then extract_tokens fuel is_delim tokens p (i + 1) else
      do! wr8 p 0 in
      let! p := scan_bytes sf (fun b => negb (is_delim b)) (p + 1) in
      extract_tokens fuel is_delim tokens p (i + 1)
  end.

(** [pp]: whether [ptokenized] is not NULL.  The error code, and on success the
    array of tokens, [*ntoks] and [*plast_tok]. *)
Definition tokenize (s delim : Z) (pp : bool) : CM (Z * option (Z * Z * Z)) :=
  if (s =? 0) || (delim =? 0) || negb pp then ret! (- EINVAL, None) else
  let is_delim := (fun b => schar b =? delim) in
  let! len := strlen s in
  let! buf := cmalloc (u64 (len + 1)) in
  if buf =? 0 then ret! (- ENOMEM, None) else
  let! _ := memcpy buf s (len + 1) in
  let! fuel := str_fuel in
  let! p := scan_bytes fuel (fun b => negb (is_delim b)) buf in
  do! (if p =? buf then ret! tt else
       let! n := strlen p in
       let! _ := memmove buf p (n + 1) in ret! tt) in
  do! trim_trailing fuel is_delim buf (buf + len - 1) in
  let! count := count_tokens fuel is_delim buf 0 in
  let! tokens := cmalloc (u64 (u64 (count + 2) * 8)) in
  if tokens =? 0 then do! cfree buf in ret! (- ENOMEM, None) else
  let! n := extract_tokens fuel is_delim tokens buf 0 in
  do! wr64 (tokens + 8 * n) 0 in
  let! last := (if n =? 0 then ret! 0 else rd64 (tokens + 8 * (n - 1))) in
  ret! (0, Some (tokens, n, last)).
End Alloc.

(** Frees the buffer through the first token, then the array. *)
Definition tokens_free (tokens : Z) : CM unit :=
  if tokens =? 0 then ret! tt else
  let! t := rd64 tokens in
  do! cfree t in
  cfree tokens.

Definition canonicalize_path {CA : CAlloc} (path : Z) (pp : bool) : CM (Z * option (Z * Z * Z)) :=
  tokenize path 47 pp.
