(* ===== verification/StrWords.v ===== *)
(** * Words as bytes

    Why the word-at-a-time loops of lib/string.c are right: bitwise operations on a
    little-endian word act on its bytes, and [HASZERO] tells whether one of them
    is NUL. *)
From S2P Require Import Prelude Errno CMem Str.

Definition byte (b : Z) : Prop := 0 <= b < 256.

Lemma testbit_byte a u i :
  byte a -> 0 <= i -> Z.testbit (a + 256 * u) i = if i <? 8 then Z.testbit a i else Z.testbit u (i - 8).
Proof.
  intros Ha Hi. change 256 with (2 ^ 8). destruct (Z.ltb_spec i 8).
  - rewrite <- (Z.mod_pow2_bits_low _ 8) by lia. rewrite (Z.add_comm a), (Z.mul_comm (2 ^ 8)), Z.add_comm, Z.mod_add by lia.
    rewrite Z.mod_pow2_bits_low by lia. done.
  - replace i with (i - 8 + 8) at 1 by lia. rewrite <- Z.div_pow2_bits by lia.
    rewrite (Z.mul_comm (2 ^ 8)), Z.div_add, (Z.div_small a) by (unfold byte in Ha; change (2 ^ 8) with 256; lia). done.
Qed.

(** A bitwise operation on [a + 256 * u]. *)
Section Bitop.
Context (op : Z -> Z -> Z) (f : bool -> bool -> bool).
Hypothesis op_spec : forall a b n, Z.testbit (op a b) n = f (Z.testbit a n) (Z.testbit b n).

Lemma bitop_split a b u v :
  byte a -> byte b -> byte (op a b) -> op (a + 256 * u) (b + 256 * v) = op a b + 256 * op u v.
Proof.
  intros Ha Hb Hab. apply Z.bits_inj'. intros i Hi. rewrite op_spec, !testbit_byte by done.
  destruct (i <? 8); by rewrite op_spec.
Qed.
End Bitop.

Lemma byte_testbit b : byte b <-> 0 <= b /\ forall i, 8 <= i -> Z.testbit b i = false.
Proof.
  unfold byte. split.
  - intros [H0 H]. split; [done|]. intros i Hi. destruct (decide (b = 0)) as [->|]; [apply Z.bits_0|].
    apply Z.bits_above_log2; [done|]. apply Z.lt_le_trans with 8; [|done]. apply Z.log2_lt_pow2; [lia|]. done.
  - intros [H0 H]. split; [done|]. destruct (decide (b < 256)); [done|]. exfalso.
    assert (8 <= Z.log2 b) by (apply Z.log2_le_pow2; [lia|]; change (2 ^ 8) with 256; lia).
    specialize (H _ H1). rewrite Z.bit_log2 in H; [done|lia].
Qed.

Lemma byte_land a b : byte a -> byte b -> byte (Z.land a b).
Proof.
  rewrite !byte_testbit. intros [Ha Ha'] [Hb Hb']. split; [apply Z.land_nonneg; auto|].
  intros i Hi. by rewrite Z.land_spec, Ha'.
Qed.
Lemma byte_lxor a b : byte a -> byte b -> byte (Z.lxor a b).
Proof.
  rewrite !byte_testbit. intros [Ha Ha'] [Hb Hb']. split; [apply Z.lxor_nonneg; tauto|].
  intros i Hi. by rewrite Z.lxor_spec, Ha', Hb'.
Qed.

Lemma land_split a b u v :
  byte a -> byte b -> Z.land (a + 256 * u) (b + 256 * v) = Z.land a b + 256 * Z.land u v.
Proof. intros. apply (bitop_split _ andb); [apply Z.land_spec|done..|by apply byte_land]. Qed.
Lemma lxor_split a b u v :
  byte a -> byte b -> Z.lxor (a + 256 * u) (b + 256 * v) = Z.lxor a b + 256 * Z.lxor u v.
Proof. intros. apply (bitop_split _ xorb); [apply Z.lxor_spec|done..|by apply byte_lxor]. Qed.

(** ** [HASZERO] *)

(** [n] bytes equal to [c]; [ONES] and [HIGHS] are of this form. *)
Fixpoint repeated (n : nat) (c : Z) : Z := match n with O => 0 | S n => c + 256 * repeated n c end.
Lemma ONES_repeated : ONES = repeated 8 1.
Proof. reflexivity. Qed.
Lemma HIGHS_repeated : HIGHS = repeated 8 128.
Proof. reflexivity. Qed.

(** The trick without the wrap-around. *)
Definition zero_marks (n : nat) (x : Z) : Z :=
  Z.land (Z.land (x - repeated n 1) (Z.lnot x)) (repeated n 128).

Lemma low_marks b : 1 <= b < 256 -> Z.land (Z.land (b - 1) (255 - b)) 128 = 0.
Proof.
  intros Hb. assert (forallb (fun b => Z.land (Z.land (b - 1) (255 - b)) 128 =? 0) (seqZ 1 255) = true) as H by (vm_compute; reflexivity).
  rewrite forallb_forall in H. apply Z.eqb_eq, H, list_elem_of_In, elem_of_seqZ. lia.
Qed.

Lemma zero_marks_spec l :
  Forall byte l -> (zero_marks (length l) (le_word l) =? 0) = negb (existsb (fun b => b =? 0) l).
Proof.
  unfold zero_marks. induction l as [|b l IH]; intros Hl; [done|].
  apply Forall_cons in Hl as [Hb Hl]. specialize (IH Hl). simpl.
  replace (Z.lnot (b + 256 * le_word l)) with ((255 - b) + 256 * Z.lnot (le_word l)) by (unfold Z.lnot; lia).
  destruct (Z.eqb_spec b 0) as [->|Hne]; simpl.
  - replace (0 + 256 * le_word l - (1 + 256 * repeated (length l) 1))
      with (255 + 256 * (le_word l - repeated (length l) 1 - 1)) by lia.
    change (255 - 0) with 255. rewrite !land_split by (try apply byte_land; unfold byte; lia).
    change (Z.land (Z.land 255 255) 128) with 128. apply Z.eqb_neq. lia.
  - unfold byte in Hb. replace (b + 256 * le_word l - (1 + 256 * repeated (length l) 1))
      with ((b - 1) + 256 * (le_word l - repeated (length l) 1)) by lia.
    rewrite !land_split by (try apply byte_land; unfold byte; lia). rewrite low_marks by lia.
    rewrite <- IH. set (z := Z.land (Z.land _ _) (repeated _ _)). destruct (Z.eqb_spec z 0) as [->|Hz]; [done|].
    apply Z.eqb_neq. lia.
Qed.

Lemma le_word_range l : Forall byte l -> 0 <= le_word l < 256 ^ Z.of_nat (length l).
Proof.
  induction l as [|b l IH]; intros Hl; [done|]. apply Forall_cons in Hl as [Hb Hl]. specialize (IH Hl). simpl length.
  rewrite Nat2Z.inj_succ, Z.pow_succ_r by lia. simpl. unfold byte in Hb. lia.
Qed.

Lemma le_word_u64 l : Forall byte l -> length l = 8%nat -> is_u64 (le_word l).
Proof. intros Hl Hn. pose proof (le_word_range l Hl) as H. rewrite Hn in H. exact H. Qed.

Lemma HASZERO_marks x : is_u64 x -> HASZERO x = negb (zero_marks 8 x =? 0).
Proof.
  intros Hx. unfold HASZERO, zero_marks. rewrite ONES_repeated, HIGHS_repeated. do 2 f_equal.
  apply Z.bits_inj'. intros i Hi. rewrite !Z.land_spec.
  destruct (decide (i < 64)) as [Hlt|Hge].
  - rewrite not64_testbit, Z.lnot_spec by lia. unfold u64. rewrite two64_eq, Z.mod_pow2_bits_low by lia. done.
  - replace (Z.testbit (repeated 8 128) i) with false; [by rewrite !andb_false_r|].
    symmetry. apply (proj2 (proj1 (is_u64_testbit (repeated 8 128)) ltac:(by vm_compute))). lia.
Qed.

(** [HASZERO] of a word holds exactly when one of its bytes is NUL. *)
Lemma HASZERO_spec l :
  Forall byte l -> length l = 8%nat -> HASZERO (le_word l) = existsb (fun b => b =? 0) l.
Proof.
  intros Hl Hn. rewrite HASZERO_marks by (by apply le_word_u64). rewrite <- Hn at 1.
  rewrite zero_marks_spec by done. by rewrite negb_involutive.
Qed.

(** ... and of its exclusive or with [ONES * c], when one of them is [c]. *)
Lemma le_word_lxor l c :
  Forall byte l -> byte c ->
  Z.lxor (le_word l) (repeated (length l) c) = le_word (map (fun b => Z.lxor b c) l).
Proof.
  intros Hl Hc. induction l as [|b l IH]; [done|]. apply Forall_cons in Hl as [Hb Hl]. simpl.
  rewrite lxor_split, IH by done. done.
Qed.

Lemma ONES_mul c : byte c -> u64 (ONES * c) = repeated 8 c.
Proof.
  intros Hc. assert (ONES * c = repeated 8 c) as ->. { rewrite ONES_repeated. simpl. lia. }
  apply u64_small. unfold byte, is_u64, two64 in *. simpl. lia.
Qed.

Lemma HASZERO_lxor l c :
  Forall byte l -> length l = 8%nat -> byte c ->
  HASZERO (Z.lxor (le_word l) (u64 (ONES * c))) = existsb (fun b => b =? c) l.
Proof.
  intros Hl Hn Hc. rewrite ONES_mul by done. rewrite <- Hn at 1. rewrite le_word_lxor by done.
  rewrite HASZERO_spec; [| |by rewrite length_map].
  - clear Hn. induction l as [|b l IH]; [done|]. apply Forall_cons in Hl as [Hb Hl]. simpl. rewrite IH by done. f_equal.
    destruct (Z.eqb_spec b c) as [->|Hne]; [by rewrite Z.lxor_nilpotent|]. apply Z.eqb_neq. intros E.
    apply Hne. by apply Z.lxor_eq.
  - apply Forall_forall. intros x Hx. apply list_elem_of_fmap in Hx as (b & -> & Hb).
    apply byte_lxor; [|done]. rewrite Forall_forall in Hl. auto.
Qed.

(** * Scanning strings

    Bytes and strings in memory, and what the scanning loops of lib/string.c find:
    the byte loops, and the loops that go a word at a time, which read only mapped
    memory because memory is mapped in aligned blocks. *)
Implicit Types (h : gmap Z Z) (l s : list Z) (m : cmem).

(** ** Bytes in memory *)
Lemma bytes_at_app h p l1 l2 :
  bytes_at h p (l1 ++ l2) <-> bytes_at h p l1 /\ bytes_at h (p + Z.of_nat (length l1)) l2.
Proof.
  revert p. induction l1 as [|b l1 IH]; intros p; cbn [app length bytes_at].
  - change (Z.of_nat 0) with 0. rewrite Z.add_0_r. tauto.
  - rewrite IH. replace (p + 1 + Z.of_nat (length l1)) with (p + Z.of_nat (S (length l1))) by lia. tauto.
Qed.

Lemma bytes_at_lookup h p l i b : bytes_at h p l -> l !! i = Some b -> h !! (p + Z.of_nat i) = Some b.
Proof.
  revert p i. induction l as [|c l IH]; intros p i; [done|]. intros [Hp Hl]. destruct i as [|i]; cbn [lookup list_lookup].
  - intros [= ->]. change (Z.of_nat 0) with 0. by rewrite Z.add_0_r.
  - intros Hi. replace (p + Z.of_nat (S i)) with (p + 1 + Z.of_nat i) by lia. eauto.
Qed.

Lemma bytes_at_intro h p l : (forall i b, l !! i = Some b -> h !! (p + Z.of_nat i) = Some b) -> bytes_at h p l.
Proof.
  revert p. induction l as [|c l IH]; intros p H; simpl; [done|]. split.
  - specialize (H 0%nat c eq_refl). change (Z.of_nat 0) with 0 in H. by rewrite Z.add_0_r in H.
  - apply IH. intros i b Hi. replace (p + 1 + Z.of_nat i) with (p + Z.of_nat (S i)) by lia. by apply H.
Qed.

Lemma bytes_at_ext h h' p l :
  (forall q, p <= q < p + Z.of_nat (length l) -> h' !! q = h !! q) -> bytes_at h p l -> bytes_at h' p l.
Proof.
  intros Hx Hl. apply bytes_at_intro. intros i b Hi. rewrite Hx; [by eapply bytes_at_lookup|].
  apply lookup_lt_Some in Hi. lia.
Qed.

(** The bytes of mapped memory. *)
Lemma bytes_at_byte h p l : mem_ok h -> bytes_at h p l -> Forall byte l.
Proof.
  intros Hok. revert p. induction l as [|b l IH]; intros p; [constructor|]. intros [Hp Hl]. constructor; [|eauto].
  by eapply mo_byte.
Qed.

(** Distinct addresses: what is in memory fits in it. *)
Lemma bytes_at_size h p l : bytes_at h p l -> (length l <= size h)%nat.
Proof.
  intros Hl. set (a := seqZ p (Z.of_nat (length l))).
  assert (length a = length l) as <- by (unfold a; rewrite length_seqZ; lia).
  rewrite <- size_dom, <- (size_list_to_set (C:=gset Z) a) by apply NoDup_seqZ. apply subseteq_size.
  intros q Hq%elem_of_list_to_set%elem_of_seqZ. apply elem_of_dom.
  destruct (lookup_lt_is_Some_2 l (Z.to_nat (q - p))) as [b Hb]; [lia|].
  exists b. pose proof (bytes_at_lookup _ _ _ _ _ Hl Hb) as H. by replace (p + Z.of_nat (Z.to_nat (q - p))) with q in H by lia.
Qed.

(** ** Reading *)
Lemma rd8_eq m p b : c_bytes m !! p = Some b -> rd8 p m = Done b m.
Proof. intros Hp. unfold rd8. by rewrite Hp. Qed.

Lemma rdn_eq m p l : bytes_at (c_bytes m) p l -> rdn (length l) p m = Done l m.
Proof.
  revert p. induction l as [|b l IH]; intros p; [done|]. intros [Hp Hl]. simpl.
  erewrite M_bind_done by (by apply rd8_eq). by erewrite M_bind_done by (by apply IH).
Qed.

(** An aligned word that starts in mapped memory is mapped. *)
Lemma block_bytes h k p :
  mem_ok h -> is_Some (h !! p) -> (k = 8 \/ k = 16) -> p mod k = 0 ->
  exists l, length l = Z.to_nat k /\ bytes_at h p l.
Proof.
  intros Hok Hp Hk Hmod. assert (forall j, 0 <= j < k -> is_Some (h !! (p + j))) as Hj.
  { intros j Hj. apply (mo_block _ Hok p); [done|]. symmetry. destruct Hk as [->| ->].
    - apply Z.div_unique with (p mod 16 + j); [|pose proof (Z.div_mod p 16); lia].
      left. pose proof (Z.mod_pos_bound p 16 ltac:(lia)). split; [lia|].
      assert (p mod 16 = 0 \/ p mod 16 = 8) as [->| ->]; [|lia..].
      rewrite (Z.div_mod p 16) in Hmod by lia. replace (16 * (p / 16) + p mod 16) with (p mod 16 + 2 * (p / 16) * 8) in Hmod by lia.
      rewrite Z.mod_add in Hmod by lia. apply Z.mod_divide in Hmod as [c Hc]; lia.
    - apply Z.div_unique with j; [lia|]. pose proof (Z.div_mod p 16). lia. }
  assert (forall n, Z.of_nat n <= k -> exists l, length l = n /\ bytes_at h p l) as Hn.
  { intros n. induction n as [|n IH]; intros Hle; [by exists []|]. destruct IH as (l & Hl & Hb); [lia|].
    destruct (Hj (Z.of_nat n)) as [b Hb']; [lia|]. exists (l ++ [b]). rewrite length_app. split; [simpl; lia|].
    apply bytes_at_app. split; [done|]. rewrite Hl. done. }
  apply Hn. lia.
Qed.

(** ** Scanning byte by byte *)
Lemma scan_bytes_eq m p l b fuel (stop : Z -> bool) :
  bytes_at (c_bytes m) p (l ++ [b]) -> Forall (fun c => stop c = false) l -> stop b = true -> (length l < fuel)%nat ->
  scan_bytes fuel stop p m = Done (p + Z.of_nat (length l)) m.
Proof.
  revert p fuel. induction l as [|c l IH]; intros p fuel; simpl.
  - intros [Hp _] _ Hb Hf. destruct fuel as [|fuel]; [lia|]. simpl. erewrite M_bind_done by (by apply rd8_eq).
    rewrite Hb. by rewrite Z.add_0_r.
  - intros [Hp Hl] [Hc Hall]%Forall_cons Hb Hf. destruct fuel as [|fuel]; [lia|]. simpl.
    erewrite M_bind_done by (by apply rd8_eq). rewrite Hc, (IH (p + 1)) by (done || lia). f_equal. lia.
Qed.

Definition fuel_ok (m : cmem) (l : list Z) : Prop := (length l <= size (c_bytes m))%nat.

(** Where a scan with [stop] ends in [l ++ [b]], for the fuel of the memory. *)
Lemma scan_bytes_fuel m p l b (stop : Z -> bool) :
  bytes_at (c_bytes m) p (l ++ [b]) -> Forall (fun c => stop c = false) l -> stop b = true ->
  scan_bytes (S (size (c_bytes m))) stop p m = Done (p + Z.of_nat (length l)) m.
Proof.
  intros Hl Hall Hb. eapply scan_bytes_eq; [done..|]. pose proof (bytes_at_size _ _ _ Hl) as H.
  rewrite length_app in H. simpl in H. lia.
Qed.

Ltac zlia := Z.to_euclidean_division_equations; lia.

(** ** Scanning by words *)
Section Scan.
Context (m : cmem) (stop : Z -> bool) (b : Z).
Hypothesis Hok : mem_ok (c_bytes m).
Hypothesis Hb : stop b = true.

Lemma scan_align_eq p l fuel :
  bytes_at (c_bytes m) p (l ++ [b]) -> Forall (fun c => stop c = false) l -> (- p) mod 8 < Z.of_nat fuel ->
  exists r, scan_align fuel stop p m = Done r m /\
    (r = inl (p + Z.of_nat (length l)) \/
     exists l1 l2, l = l1 ++ l2 /\ r = inr (p + Z.of_nat (length l1)) /\ (p + Z.of_nat (length l1)) mod 8 = 0).
Proof.
  revert p fuel. induction l as [|c l IH]; intros p fuel Hl Hall Hf; (destruct fuel as [|fuel]; [zlia|]);
    cbn [scan_align]; unfold ALIGN; destruct (Z.eqb_spec (p mod 8) 0) as [E|E];
    try (eexists; split; [reflexivity|]; right; eexists [], _; cbn [length app]; change (Z.of_nat 0) with 0;
         rewrite Z.add_0_r; by split_and!).
  - destruct Hl as [Hp _]. eexists. erewrite M_bind_done by (by apply rd8_eq). rewrite Hb. split; [reflexivity|].
    left. cbn [length]. by rewrite Z.add_0_r.
  - destruct Hl as [Hp Hl]. apply Forall_cons in Hall as [Hc Hall].
    erewrite M_bind_done by (by apply rd8_eq). rewrite Hc.
    destruct (IH (p + 1) fuel Hl Hall) as (r & E' & Hr); [zlia|]. exists r. split; [done|].
    destruct Hr as [->|(l1 & l2 & -> & -> & Hm)]; [left; f_equal; simpl; lia|].
    right. exists (c :: l1), l2. split_and!; [done|f_equal; simpl; lia|]. rewrite <- Hm. f_equal. simpl. lia.
Qed.

Context (test : Z -> bool).
Hypothesis Htest : forall x, Forall byte x -> length x = 8%nat -> test (le_word x) = existsb stop x.

Lemma scan_words_eq w l fuel :
  w mod 8 = 0 -> bytes_at (c_bytes m) w (l ++ [b]) -> Forall (fun c => stop c = false) l -> (length l < fuel)%nat ->
  exists l1 l2, l = l1 ++ l2 /\ scan_words fuel test w m = Done (w + Z.of_nat (length l1)) m.
Proof.
  revert w l. induction fuel as [|fuel IH]; intros w l Hw Hl Hall Hf; [lia|]. cbn [scan_words].
  assert (is_Some (c_bytes m !! w)) as Hmap by (destruct l; destruct Hl; eauto).
  destruct (block_bytes _ 8 w Hok Hmap ltac:(auto) Hw) as (x & Hx & Hxb). change (Z.to_nat 8) with 8%nat in Hx.
  assert (rd64 w m = Done (le_word x) m) as Er.
  { unfold rd64. rewrite <- Hx. by erewrite M_bind_done by (by apply rdn_eq). }
  erewrite M_bind_done by exact Er. rewrite Htest by (by eauto using bytes_at_byte).
  destruct (existsb stop x) eqn:Es.
  - exists [], l. cbn [length]. by rewrite Z.add_0_r.
  - assert (forall i c, x !! i = Some c -> (l ++ [b]) !! i = Some c \/ (length l < i)%nat) as Hag.
    { intros i c Hi. destruct (decide (length l < i)%nat); [by right|left].
      destruct (lookup_lt_is_Some_2 (l ++ [b]) i) as [c' Hc']; [rewrite length_app; simpl; lia|].
      pose proof (bytes_at_lookup _ _ _ _ _ Hxb Hi). pose proof (bytes_at_lookup _ _ _ _ _ Hl Hc'). congruence. }
    assert (8 <= length l)%nat as H8.
    { destruct (decide (8 <= length l)%nat); [done|]. exfalso.
      destruct (lookup_lt_is_Some_2 x (length l)) as [c Hc]; [lia|].
      destruct (Hag _ _ Hc) as [H|H]; [|lia]. rewrite lookup_app_r, Nat.sub_diag in H by lia. injection H as <-.
      assert (existsb stop x = true); [|congruence]. apply existsb_exists. exists b. split; [|done].
      apply list_elem_of_In. by eapply list_elem_of_lookup_2. }
    rewrite <- (take_drop 8 l) in Hl, Hall. rewrite <- app_assoc in Hl. apply bytes_at_app in Hl as [_ Hl].
    rewrite length_take_le in Hl by done. apply Forall_app in Hall as [_ Hall].
    destruct (IH (w + 8) (drop 8 l)) as (l1 & l2 & El & E); [zlia|done|done|rewrite length_drop; lia|].
    exists (take 8 l ++ l1), l2. rewrite <- app_assoc, <- El, take_drop. split; [done|]. rewrite E. f_equal.
    rewrite length_app, length_take_le by done. lia.
Qed.

(** The three loops one after the other. *)
Lemma scan_eq p l :
  bytes_at (c_bytes m) p (l ++ [b]) -> Forall (fun c => stop c = false) l ->
  (exists e, scan_align 8 stop p m = Done (inl e) m /\ e = p + Z.of_nat (length l)) \/
  (exists w w', scan_align 8 stop p m = Done (inr w) m /\
     scan_words (S (size (c_bytes m))) test w m = Done w' m /\
     scan_bytes (S (size (c_bytes m))) stop w' m = Done (p + Z.of_nat (length l)) m).
Proof.
  intros Hl Hall. destruct (scan_align_eq p l 8 Hl Hall) as (r & E & [->|(l1 & l2 & -> & -> & Hm)]); [zlia|eauto|].
  right. rewrite <- app_assoc in Hl. apply bytes_at_app in Hl as [_ Hl]. apply Forall_app in Hall as [_ Hall].
  pose proof (bytes_at_size _ _ _ Hl) as Hsz. rewrite length_app in Hsz. simpl in Hsz.
  destruct (scan_words_eq _ l2 (S (size (c_bytes m))) Hm Hl Hall) as (l3 & l4 & -> & E2); [lia|].
  rewrite <- app_assoc in Hl. apply bytes_at_app in Hl as [_ Hl]. apply Forall_app in Hall as [_ Hall].
  eexists _, _. split_and!; [exact E|exact E2|]. rewrite (scan_bytes_fuel m _ l4 b) by done.
  f_equal. rewrite !length_app. lia.
Qed.
End Scan.

(** ** Lengths and positions *)

(** The first position of [s] where [f] holds, its length when there is none. *)
Fixpoint index_of (f : Z -> bool) s : nat :=
  match s with
  | [] => 0
  | b :: s => if f b then 0 else S (index_of f s)
  end.

Lemma index_of_le f s : (index_of f s <= length s)%nat.
Proof. induction s as [|b s IH]; simpl; [lia|]. destruct (f b); lia. Qed.

(** The string up to that position, and what stands there ([0] at the end). *)
Lemma index_of_split f s :
  exists l b r, s ++ [0] = l ++ b :: r /\ length l = index_of f s /\ Forall (fun c => f c = false) l /\
    (b = 0 /\ r = [] /\ l = s \/ f b = true /\ exists r', s = l ++ b :: r').
Proof.
  induction s as [|b s IH]; simpl; [by eexists [], 0, []; split_and!; auto|]. destruct (f b) eqn:E.
  - exists [], b, (s ++ [0]). split_and!; try done. right. split; [done|]. by exists s.
  - destruct IH as (l & c & r & Hs & Hl & Hall & Hc). exists (b :: l), c, r.
    split_and!; [by rewrite Hs|by simpl; f_equal|by constructor|].
    destruct Hc as [(-> & -> & ->)|(Hc & r' & ->)]; [by left|right]. split; [done|]. by exists r'.
Qed.

Lemma chars_not_nul s : chars s -> Forall (fun c => is_nul c = false) s.
Proof. intros H. eapply Forall_impl; [exact H|]. intros b Hb. simpl in Hb. apply Z.eqb_neq. lia. Qed.
Lemma chars_byte s : chars s -> Forall byte s.
Proof. intros H. eapply Forall_impl; [exact H|]. unfold byte. simpl. lia. Qed.

Lemma bytes_at_stop h p l b r : bytes_at h p (l ++ b :: r) -> bytes_at h p (l ++ [b]).
Proof. rewrite !bytes_at_app. simpl. tauto. Qed.

Section Strings.
Context (m : cmem) (p : Z) (s : list Z).
Hypothesis Hok : mem_ok (c_bytes m).
Hypothesis Hs : cstr (c_bytes m) p s.

Lemma strlen_eq : strlen p m = Done (Z.of_nat (length s)) m.
Proof.
  destruct Hs as [Hb Hc]. unfold strlen, str_fuel. unfold M_bind at 1.
  destruct (scan_eq m is_nul 0 Hok eq_refl HASZERO) with (p := p) (l := s) as [(e & E & ->)|(w & w' & E1 & E2 & E3)]; try done.
  - intros x Hx Hn. by apply HASZERO_spec.
  - by apply chars_not_nul.
  - erewrite M_bind_done by exact E. unfold M_ret. f_equal. lia.
  - erewrite M_bind_done by exact E1. cbv beta iota. erewrite M_bind_done by exact E2. erewrite M_bind_done by exact E3.
    unfold M_ret. f_equal. lia.
Qed.

Lemma strchrnul_eq c : strchrnul p c m = Done (p + Z.of_nat (index_of (fun b => b =? u8 c) s)) m.
Proof.
  pose proof Hs as [Hb Hc]. unfold strchrnul, str_fuel. unfold M_bind at 1.
  assert (byte (u8 c)) as Hu by (apply Z.mod_pos_bound; lia).
  destruct (Z.eqb_spec (u8 c) 0) as [E0|Hne].
  { erewrite M_bind_done by apply strlen_eq. unfold M_ret. do 3 f_equal. rewrite E0. clear -Hc.
    induction s as [|b s' IH]; [done|]. apply Forall_cons in Hc as [H1 H2]. simpl.
    rewrite (proj2 (Z.eqb_neq b 0)) by lia. f_equal. by apply IH. }
  destruct (index_of_split (fun b => b =? u8 c) s) as (l & b & r & El & Hl & Hall & Hb').
  rewrite El in Hb. apply bytes_at_stop in Hb. rewrite <- Hl.
  destruct (scan_eq m (fun b => is_nul b || (b =? u8 c)) b Hok) with
    (test := fun x => HASZERO x || HASZERO (Z.lxor x (u64 (ONES * u8 c)))) (p := p) (l := l)
    as [(e & E & ->)|(w & w' & E1 & E2 & E3)]; try done.
  - destruct Hb' as [(-> & _)|(-> & _)]; [done|]. apply orb_true_r.
  - intros x Hx Hn. rewrite HASZERO_spec, HASZERO_lxor by done. clear.
    induction x as [|a x IH]; [done|]. simpl. rewrite <- IH. unfold is_nul. by destruct (a =? 0), (a =? u8 c), (existsb _ x).
  - apply Forall_forall. intros a Ha. rewrite Forall_forall in Hall. rewrite Hall by done.
    apply orb_false_iff. split; [|done]. apply chars_not_nul in Hc. rewrite Forall_forall in Hc. apply Hc.
    destruct Hb' as [(_ & _ & ->)|(_ & r' & ->)]; [done|]. apply elem_of_app. by left.
  - by erewrite M_bind_done by exact E.
  - erewrite M_bind_done by exact E1. cbv beta iota. erewrite M_bind_done by exact E2. done.
Qed.

(** What [strchr] returns: the first occurrence, the NUL itself when asked for. *)
Definition chr_result (c : Z) : Z :=
  let i := index_of (fun b => b =? u8 c) s in
  if (u8 c =? 0) || (i <? length s)%nat then p + Z.of_nat i else 0.

Lemma strchr_eq c : strchr p c m = Done (chr_result c) m.
Proof.
  destruct Hs as [Hb Hc]. unfold strchr. erewrite M_bind_done by apply strchrnul_eq. unfold chr_result.
  destruct (index_of_split (fun b => b =? u8 c) s) as (l & b & r & El & Hl & Hall & Hb').
  rewrite <- Hl. rewrite El in Hb. apply bytes_at_app in Hb as [_ [Hb _]].
  erewrite M_bind_done by (by apply rd8_eq). unfold M_ret. f_equal.
  destruct Hb' as [(-> & _ & ->)|(E & r' & ->)].
  - rewrite Z.eqb_sym, Nat.ltb_irrefl. by destruct (u8 c =? 0).
  - rewrite E. rewrite length_app. simpl. by rewrite (proj2 (Nat.ltb_lt _ _)), orb_true_r by lia.
Qed.
End Strings.
