(* ===== verification/StrCopy.v ===== *)
(** * Copying memory

    What the copying loops write, when source and destination overlap as well, and
    that [memmove] is right in every case. *)
From S2P Require Import Prelude Errno CMem Str StrWords.

Implicit Types (h : gmap Z Z) (l : list Z) (m : cmem).

(** ** Writing a list of bytes *)
Lemma lookup_put h p l q :
  put h p l !! q = if decide (p <= q < p + Z.of_nat (length l)) then l !! Z.to_nat (q - p) else h !! q.
Proof.
  revert h p. induction l as [|b l IH]; intros h p; cbn [put length].
  - by rewrite decide_False by lia.
  - rewrite IH. destruct (decide (q = p)) as [->|Hne].
    + rewrite decide_False, decide_True by lia. by rewrite Z.sub_diag, lookup_insert_eq.
    + rewrite lookup_insert_ne by done. destruct (decide (p + 1 <= q < p + 1 + Z.of_nat (length l))).
      * rewrite decide_True by lia. by replace (Z.to_nat (q - p)) with (S (Z.to_nat (q - (p + 1)))) by lia.
      * by rewrite decide_False by lia.
Qed.

Lemma put_app h p l1 l2 : put h p (l1 ++ l2) = put (put h p l1) (p + Z.of_nat (length l1)) l2.
Proof.
  revert h p. induction l1 as [|b l1 IH]; intros h p; cbn [put app length]; [by rewrite Z.add_0_r|].
  rewrite IH. f_equal. lia.
Qed.

Lemma lookup_put_out h p l q : ~ (p <= q < p + Z.of_nat (length l)) -> put h p l !! q = h !! q.
Proof. intros Hq. by rewrite lookup_put, decide_False. Qed.

Lemma bytes_at_put h p l : bytes_at (put h p l) p l.
Proof.
  apply bytes_at_intro. intros i b Hi. rewrite lookup_put, decide_True by (apply lookup_lt_Some in Hi; lia).
  by replace (Z.to_nat (p + Z.of_nat i - p)) with i by lia.
Qed.

(** [k] bytes from [p] on are mapped. *)
Definition mapped_at h (p : Z) (k : nat) : Prop := forall i, (i < k)%nat -> is_Some (h !! (p + Z.of_nat i)).

Lemma mapped_at_put h p k q l : mapped_at h p k -> mapped_at (put h q l) p k.
Proof.
  intros Hm i Hi. rewrite lookup_put. case_decide; [|by apply Hm]. apply lookup_lt_is_Some. lia.
Qed.
Lemma mapped_at_cons h p k : mapped_at h p (S k) -> is_Some (h !! p) /\ mapped_at h (p + 1) k.
Proof.
  intros H. split.
  - specialize (H 0%nat ltac:(lia)). change (Z.of_nat 0) with 0 in H. by rewrite Z.add_0_r in H.
  - intros i Hi. specialize (H (S i) ltac:(lia)). by replace (p + 1 + Z.of_nat i) with (p + Z.of_nat (S i)) by lia.
Qed.
Lemma mapped_at_app h p j k : mapped_at h p (j + k) -> mapped_at h p j /\ mapped_at h (p + Z.of_nat j) k.
Proof.
  intros H. split; intros i Hi; [apply H; lia|]. specialize (H (j + i)%nat ltac:(lia)).
  by replace (p + Z.of_nat j + Z.of_nat i) with (p + Z.of_nat (j + i)) by lia.
Qed.

Lemma wr8_eq m p b : is_Some (c_bytes m !! p) -> wr8 p b m = Done tt (set_bytes (<[p := b]> (c_bytes m)) m).
Proof. intros [x Hx]. unfold wr8. by rewrite Hx. Qed.

Lemma wrn_eq m p l :
  mapped_at (c_bytes m) p (length l) -> wrn p l m = Done tt (set_bytes (put (c_bytes m) p l) m).
Proof.
  revert m p. induction l as [|b l IH]; intros m p Hm; cbn [wrn put]; [by destruct m|].
  apply mapped_at_cons in Hm as [Hp Hm]. erewrite M_bind_done by (by apply wr8_eq). rewrite IH; [done|].
  apply (mapped_at_put _ _ _ p [b]). done.
Qed.

(** ** The copying loops *)

(** Copying upwards is right unless the destination starts inside the source. *)
Definition up_ok (d s : Z) (k : nat) : Prop := d <= s \/ s + Z.of_nat k <= d.
Definition down_ok (d s : Z) (k : nat) : Prop := s <= d \/ d + Z.of_nat k <= s.

Lemma copy_up_eq m d s l :
  bytes_at (c_bytes m) s l -> mapped_at (c_bytes m) d (length l) -> up_ok d s (length l) ->
  copy_up (length l) d s m = Done tt (set_bytes (put (c_bytes m) d l) m).
Proof.
  revert m d s. induction l as [|b l IH]; intros m d s Hl Hm Hu; cbn [copy_up put length]; [by destruct m|].
  destruct Hl as [Hs Hl]. apply mapped_at_cons in Hm as [Hd Hm]. unfold up_ok in *. cbn [length] in Hu.
  erewrite M_bind_done by (by apply rd8_eq). erewrite M_bind_done by (by apply wr8_eq). rewrite IH; [done| | |lia].
  - simpl. eapply bytes_at_ext; [|exact Hl]. intros q Hq. apply lookup_insert_ne. lia.
  - apply (mapped_at_put _ _ _ d [b]). done.
Qed.

Lemma copy_units_eq m n k d s l :
  (0 < k)%nat -> length l = (n * k)%nat -> bytes_at (c_bytes m) s l -> mapped_at (c_bytes m) d (length l) ->
  up_ok d s (length l) -> copy_units n k d s m = Done tt (set_bytes (put (c_bytes m) d l) m).
Proof.
  intros Hk. revert m d s l. induction n as [|n IH]; intros m d s l Hn Hl Hm Hu; cbn [copy_units].
  - destruct l; [by destruct m|done].
  - rewrite <- (take_drop k l) in Hl. apply bytes_at_app in Hl as [Hl1 Hl2].
    assert (length (take k l) = k) as Hlk by (rewrite length_take_le; lia). rewrite Hlk in Hl2.
    pose proof (length_drop l k) as Hld.
    erewrite M_bind_done by (rewrite <- Hlk at 1; by apply rdn_eq).
    replace (length l) with (k + length (drop k l))%nat in Hm by lia. apply mapped_at_app in Hm as [Hm1 Hm2].
    erewrite M_bind_done by (apply wrn_eq; by rewrite Hlk).
    rewrite (IH _ _ _ (drop k l)); [| |simpl|simpl|unfold up_ok in *; lia].
    + pose proof (put_app (c_bytes m) d (take k l) (drop k l)) as E. rewrite take_drop, Hlk in E. by rewrite E.
    + lia.
    + eapply bytes_at_ext; [|exact Hl2]. intros q Hq. apply lookup_put_out. unfold up_ok in *. lia.
    + by apply mapped_at_put.
Qed.

(** Writing a list backwards gives the same memory. *)
Lemma put_snoc h p l b : put h p (l ++ [b]) = put (<[p + Z.of_nat (length l) := b]> h) p l.
Proof.
  apply map_eq. intros q. rewrite !lookup_put, length_app. cbn [length].
  destruct (decide (p <= q < p + Z.of_nat (length l + 1))).
  - case_decide.
    + rewrite lookup_app_l by lia. done.
    + assert (q = p + Z.of_nat (length l)) as -> by lia. rewrite lookup_insert_eq.
      replace (Z.to_nat (p + Z.of_nat (length l) - p)) with (length l) by lia.
      by rewrite lookup_app_r, Nat.sub_diag by lia.
  - rewrite decide_False by lia. by rewrite lookup_insert_ne by lia.
Qed.

Lemma copy_down_eq m d s l :
  bytes_at (c_bytes m) s l -> mapped_at (c_bytes m) d (length l) -> down_ok d s (length l) ->
  copy_down (length l) d s m = Done tt (set_bytes (put (c_bytes m) d l) m).
Proof.
  revert m. induction l as [|b l IH] using rev_ind; intros m Hl Hm Hu; [by destruct m|].
  rewrite length_app in *. cbn [length] in *. rewrite Nat.add_1_r in *. cbn [copy_down].
  apply bytes_at_app in Hl as [Hl [Hb _]]. erewrite M_bind_done by (by apply rd8_eq).
  erewrite M_bind_done by (apply wr8_eq, Hm; lia). rewrite IH; [by rewrite put_snoc|..|unfold down_ok in *; lia]; simpl.
  - eapply bytes_at_ext; [|exact Hl]. intros q Hq. apply lookup_insert_ne. unfold down_ok in *. lia.
  - intros i Hi. apply (mapped_at_put _ _ (S (length l)) (d + Z.of_nat (length l)) [b]); [done|lia].
Qed.

Lemma put_app_rev h p l1 l2 : put h p (l1 ++ l2) = put (put h (p + Z.of_nat (length l1)) l2) p l1.
Proof.
  rewrite put_app. apply map_eq. intros q. rewrite !lookup_put.
  repeat case_decide; done || lia.
Qed.
Lemma put_same h p l : bytes_at h p l -> put h p l = h.
Proof.
  intros Hl. apply map_eq. intros q. rewrite lookup_put. case_decide; [|done].
  destruct (lookup_lt_is_Some_2 l (Z.to_nat (q - p))) as [b Hb]; [lia|]. rewrite Hb.
  pose proof (bytes_at_lookup _ _ _ _ _ Hl Hb) as H'. by replace (p + Z.of_nat (Z.to_nat (q - p))) with q in H' by lia.
Qed.
Lemma bytes_at_put_out h p l q l' :
  (q + Z.of_nat (length l') <= p \/ p + Z.of_nat (length l) <= q) -> bytes_at h p l -> bytes_at (put h q l') p l.
Proof. intros Hd. apply bytes_at_ext. intros x Hx. apply lookup_put_out. lia. Qed.
Lemma set_bytes_bytes h m : c_bytes (set_bytes h m) = h.
Proof. done. Qed.
Lemma set_bytes_twice h h' m : set_bytes h (set_bytes h' m) = set_bytes h m.
Proof. done. Qed.

Lemma move_align_up_eq m d s l fuel :
  bytes_at (c_bytes m) s l -> mapped_at (c_bytes m) d (length l) -> d <= s -> (- d) mod 8 < Z.of_nat fuel ->
  exists l1 l2, l = l1 ++ l2 /\ let m' := set_bytes (put (c_bytes m) d l1) m in
    (move_align_up fuel d s (Z.of_nat (length l)) m = Done None m' /\ l2 = []) \/
    move_align_up fuel d s (Z.of_nat (length l)) m
      = Done (Some (d + Z.of_nat (length l1), s + Z.of_nat (length l1), Z.of_nat (length l2))) m'.
Proof.
  revert m d s fuel. induction l as [|b l IH]; intros m d s fuel Hl Hm Hds Hf; (destruct fuel as [|fuel]; [zlia|]);
    cbn [move_align_up]; destruct (Z.eqb_spec (d mod 8) 0) as [E|E].
  - exists [], []. split; [done|]. right. cbn [length put]. rewrite !Z.add_0_r. by destruct m.
  - exists [], []. split; [done|]. left. by destruct m.
  - exists [], (b :: l). split; [done|]. right. cbn [length put]. rewrite !Z.add_0_r. by destruct m.
  - destruct Hl as [Hs Hl]. apply mapped_at_cons in Hm as [Hd Hm]. cbn [length]. rewrite (proj2 (Z.eqb_neq _ 0)) by lia.
    erewrite M_bind_done by (by apply rd8_eq). erewrite M_bind_done by (by apply wr8_eq).
    replace (Z.of_nat (S (length l)) - 1) with (Z.of_nat (length l)) by lia.
    destruct (IH (set_bytes (<[d := b]> (c_bytes m)) m) (d + 1) (s + 1) fuel) as (l1 & l2 & -> & H).
    + simpl. eapply bytes_at_ext; [|exact Hl]. intros q Hq. apply lookup_insert_ne. lia.
    + apply (mapped_at_put _ _ _ d [b]). done.
    + lia.
    + zlia.
    + exists (b :: l1), l2. split; [done|]. destruct H as [[H ->]|H]; [by left|]. right. rewrite H.
      cbn [length]. replace (d + 1 + Z.of_nat (length l1)) with (d + Z.of_nat (S (length l1))) by lia.
      by replace (s + 1 + Z.of_nat (length l1)) with (s + Z.of_nat (S (length l1))) by lia.
Qed.

Lemma move_align_down_eq m d s l fuel :
  bytes_at (c_bytes m) s l -> mapped_at (c_bytes m) d (length l) -> s <= d ->
  (d + Z.of_nat (length l)) mod 8 < Z.of_nat fuel ->
  exists l1 l2, l = l1 ++ l2 /\ let m' := set_bytes (put (c_bytes m) (d + Z.of_nat (length l1)) l2) m in
    (move_align_down fuel d s (Z.of_nat (length l)) m = Done None m' /\ l1 = []) \/
    move_align_down fuel d s (Z.of_nat (length l)) m = Done (Some (Z.of_nat (length l1))) m'.
Proof.
  revert m fuel. induction l as [|b l IH] using rev_ind; intros m fuel Hl Hm Hds Hf; (destruct fuel as [|fuel]; [zlia|]);
    cbn [move_align_down]; match goal with |- context [if (?x) =? 0 then _ else _] => destruct (Z.eqb_spec x 0) as [E|E] end.
  - exists [], []. split; [done|]. right. by destruct m.
  - exists [], []. split; [done|]. left. by destruct m.
  - exists (l ++ [b]), []. rewrite app_nil_r. split; [done|]. right. by destruct m.
  - rewrite length_app in *. cbn [length] in *. rewrite Nat.add_1_r in *. rewrite (proj2 (Z.eqb_neq _ 0)) by lia.
    replace (Z.of_nat (S (length l)) - 1) with (Z.of_nat (length l)) by lia.
    apply bytes_at_app in Hl as [Hl [Hb _]]. erewrite M_bind_done by (by apply rd8_eq).
    erewrite M_bind_done by (apply wr8_eq, Hm; lia).
    destruct (IH (set_bytes (<[d + Z.of_nat (length l) := b]> (c_bytes m)) m) fuel) as (l1 & l2 & -> & H).
    + simpl. eapply bytes_at_ext; [|exact Hl]. intros q Hq. apply lookup_insert_ne. lia.
    + intros i Hi. apply (mapped_at_put _ _ (S (length l)) (d + Z.of_nat (length l)) [b]); [done|lia].
    + done.
    + zlia.
    + exists l1, (l2 ++ [b]). rewrite app_assoc. split; [done|]. cbn zeta. rewrite put_snoc.
      replace (d + Z.of_nat (length l1) + Z.of_nat (length l2)) with (d + Z.of_nat (length (l1 ++ l2))) by (rewrite length_app; lia).
      exact H.
Qed.

Lemma move_words_down_eq m d s l fuel :
  bytes_at (c_bytes m) s l -> mapped_at (c_bytes m) d (length l) -> s <= d -> (length l < fuel)%nat ->
  exists l1 l2, l = l1 ++ l2 /\
    move_words_down fuel d s (Z.of_nat (length l)) m
      = Done (Z.of_nat (length l1)) (set_bytes (put (c_bytes m) (d + Z.of_nat (length l1)) l2) m).
Proof.
  revert m l. induction fuel as [|fuel IH]; intros m l Hl Hm Hds Hf; [lia|]. cbn [move_words_down].
  destruct (Z.ltb_spec (Z.of_nat (length l)) 8) as [H8|H8].
  - exists l, []. rewrite app_nil_r. split; [done|]. by destruct m.
  - set (k := (length l - 8)%nat). rewrite <- (take_drop k l) in Hl. apply bytes_at_app in Hl as [Hl1 Hl2].
    assert (length (take k l) = k) as Hk by (rewrite length_take_le; lia).
    assert (length (drop k l) = 8%nat) as Hd by (rewrite length_drop; lia). rewrite Hk in Hl2.
    replace (Z.of_nat (length l) - 8) with (Z.of_nat k) by lia.
    erewrite M_bind_done by (rewrite <- Hd; by apply rdn_eq).
    replace (length l) with (k + 8)%nat in Hm by lia. apply mapped_at_app in Hm as [Hm1 Hm2].
    erewrite M_bind_done by (apply wrn_eq; by rewrite Hd).
    destruct (IH (set_bytes (put (c_bytes m) (d + Z.of_nat k) (drop k l)) m) (take k l)) as (l1 & l2 & El & E).
    + simpl. apply bytes_at_put_out; [|done]. lia.
    + apply mapped_at_put. by rewrite Hk.
    + done.
    + lia.
    + exists l1, (l2 ++ drop k l). rewrite app_assoc, <- El, take_drop. split; [done|].
      rewrite Hk in E. rewrite E, put_app_rev. apply (f_equal length) in El. rewrite length_app in El.
      by replace (d + Z.of_nat (length l1) + Z.of_nat (length l2)) with (d + Z.of_nat k) by lia.
Qed.

(** ** [memcpy] and [memmove] *)
Lemma memcpy_eq m d s l :
  bytes_at (c_bytes m) s l -> mapped_at (c_bytes m) d (length l) -> up_ok d s (length l) ->
  memcpy d s (Z.of_nat (length l)) m = Done d (set_bytes (put (c_bytes m) d l) m).
Proof. intros. unfold memcpy. rewrite Nat2Z.id. by erewrite M_bind_done by (by apply copy_up_eq). Qed.

(** Whole words, then the bytes that are left. *)
Lemma copy_words_up_eq m d s l (x : Z) :
  bytes_at (c_bytes m) s l -> mapped_at (c_bytes m) d (length l) -> d <= s ->
  (do! copy_units (Z.to_nat (Z.of_nat (length l) / 8)) 8 d s in
   do! copy_up (Z.to_nat (Z.of_nat (length l) mod 8)) (d + 8 * (Z.of_nat (length l) / 8)) (s + 8 * (Z.of_nat (length l) / 8)) in
   ret! x) m = Done x (set_bytes (put (c_bytes m) d l) m).
Proof.
  intros Hl Hm Hds. set (k := (length l / 8)%nat). rewrite <- (take_drop (k * 8) l) in Hl. apply bytes_at_app in Hl as [Hl2 Hl3].
  pose proof (Nat.div_mod_eq (length l) 8) as Hdm. fold k in Hdm.
  pose proof (Nat.mod_upper_bound (length l) 8 ltac:(lia)) as Hub.
  assert (length (take (k * 8) l) = (k * 8)%nat) as Hk by (rewrite length_take_le; lia).
  assert (length (drop (k * 8) l) = (length l mod 8)%nat) as Hd by (rewrite length_drop; lia).
  assert (Z.of_nat (length l) / 8 = Z.of_nat k) as -> by (unfold k; rewrite Nat2Z.inj_div; done).
  assert (Z.of_nat (length l) mod 8 = Z.of_nat (length l mod 8)) as -> by (rewrite Nat2Z.inj_mod; done).
  rewrite !Nat2Z.id. rewrite Hk in Hl3. replace (length l) with (k * 8 + length l mod 8)%nat in Hm by lia.
  apply mapped_at_app in Hm as [Hm2 Hm3]. replace (8 * Z.of_nat k) with (Z.of_nat (k * 8)) by lia.
  erewrite M_bind_done by (apply (copy_units_eq _ _ _ _ _ (take (k * 8) l)); [lia|done|done|by rewrite Hk|unfold up_ok; lia]).
  rewrite <- Hd. erewrite M_bind_done.
  2: { apply copy_up_eq; simpl.
       - apply bytes_at_put_out; [lia|done].
       - apply mapped_at_put. by rewrite Hd.
       - unfold up_ok. lia. }
  unfold M_ret. f_equal. cbn [c_bytes set_bytes]. rewrite set_bytes_twice. f_equal.
  pose proof (put_app (c_bytes m) d (take (k * 8) l) (drop (k * 8) l)) as E. rewrite take_drop, Hk in E. by rewrite E.
Qed.

Lemma copy_words_down_eq m d s l (x : Z) :
  bytes_at (c_bytes m) s l -> mapped_at (c_bytes m) d (length l) -> s <= d ->
  (let! n := move_words_down (S (Z.to_nat (Z.of_nat (length l)))) d s (Z.of_nat (length l)) in
   do! copy_down (Z.to_nat n) d s in
   ret! x) m = Done x (set_bytes (put (c_bytes m) d l) m).
Proof.
  intros Hl Hm Hds.
  destruct (move_words_down_eq m d s l (S (Z.to_nat (Z.of_nat (length l)))) Hl Hm Hds) as (l3 & l4 & -> & E2); [lia|].
  erewrite M_bind_done by exact E2. apply bytes_at_app in Hl as [Hl _]. rewrite length_app in Hm. apply mapped_at_app in Hm as [Hm _].
  rewrite Nat2Z.id. erewrite M_bind_done by (apply copy_down_eq; simpl;
    [apply bytes_at_put_out; [lia|done]|by apply mapped_at_put|unfold down_ok; lia]).
  unfold M_ret. f_equal. cbn [c_bytes set_bytes]. rewrite set_bytes_twice. by rewrite <- put_app_rev.
Qed.

Lemma memmove_eq m d s l :
  bytes_at (c_bytes m) s l -> mapped_at (c_bytes m) d (length l) ->
  memmove d s (Z.of_nat (length l)) m = Done d (set_bytes (put (c_bytes m) d l) m).
Proof.
  intros Hl Hm. unfold memmove. destruct (Z.eqb_spec d s) as [->|Hne].
  { rewrite put_same by done. by destruct m. }
  destruct ((s + _ <=? d) || _) eqn:E.
  { apply memcpy_eq; [done..|]. apply orb_true_iff in E as [?%Z.leb_le|?%Z.leb_le]; unfold up_ok; lia. }
  apply orb_false_iff in E as [?%Z.leb_gt ?%Z.leb_gt]. rewrite Nat2Z.id. destruct (Z.ltb_spec d s).
  - destruct (s mod 8 =? d mod 8).
    2: { by erewrite M_bind_done by (apply copy_up_eq; try done; unfold up_ok; lia). }
    destruct (move_align_up_eq m d s l 8 Hl Hm) as (l1 & l2 & -> & [[E ->]|E]); [lia|zlia|..]; erewrite M_bind_done by exact E.
    { by rewrite app_nil_r. }
    cbv beta iota. apply bytes_at_app in Hl as [_ Hl]. rewrite length_app in Hm. apply mapped_at_app in Hm as [_ Hm].
    rewrite copy_words_up_eq; [|simpl; apply bytes_at_put_out; [lia|done]|by apply mapped_at_put|lia].
    by rewrite put_app.
  - destruct (s mod 8 =? d mod 8).
    2: { by erewrite M_bind_done by (apply copy_down_eq; try done; unfold down_ok; lia). }
    destruct (move_align_down_eq m d s l 8 Hl Hm) as (l1 & l2 & -> & [[E ->]|E]); [lia|zlia|..]; erewrite M_bind_done by exact E.
    { cbn [length app]. by rewrite Z.add_0_r. }
    cbv beta iota. apply bytes_at_app in Hl as [Hl _]. rewrite length_app in Hm. apply mapped_at_app in Hm as [Hm _].
    rewrite copy_words_down_eq; [|simpl; apply bytes_at_put_out; [lia|done]|by apply mapped_at_put|lia].
    by rewrite put_app_rev.
Qed.
