(* ===== verification/StrSse.v ===== *)
(** * Vector string functions (lib/xyther_strings.c)

    The functions of lib/xyther_strings.c, sixteen bytes at a time.  An [__m128i] is
    the list of its sixteen bytes; the intrinsics are the functions on such lists
    below.  An aligned store or load at an address that is not a multiple of 16 is a
    fault. *)
From S2P Require Import Prelude Errno CMem Str.

(** ** Intrinsics *)
Definition mm_loadu (p : Z) : CM (list Z) := rdn 16 p.
Definition mm_storeu (p : Z) (v : list Z) : CM unit := wrn p v.
Definition mm_load (p : Z) : CM (list Z) := if p mod 16 =? 0 then rdn 16 p else M_fault.
Definition mm_store (p : Z) (v : list Z) : CM unit := if p mod 16 =? 0 then wrn p v else M_fault.
Definition mm_set1 (b : Z) : list Z := replicate 16 (u8 b).
Definition mm_zero : list Z := replicate 16 0.
Definition mm_cmpeq (a b : list Z) : list Z := zip_with (fun x y => if x =? y then 255 else 0) a b.
(** Signed comparisons of bytes. *)
Definition mm_cmpgt (a b : list Z) : list Z := zip_with (fun x y => if schar y <? schar x then 255 else 0) a b.
Definition mm_cmplt (a b : list Z) : list Z := zip_with (fun x y => if schar x <? schar y then 255 else 0) a b.
Definition mm_and (a b : list Z) : list Z := zip_with Z.land a b.
Definition mm_or (a b : list Z) : list Z := zip_with Z.lor a b.
(** The top bits of the bytes. *)
Fixpoint mm_movemask (v : list Z) : Z :=
  match v with
  | [] => 0
  | b :: v => (if 128 <=? b then 1 else 0) + 2 * mm_movemask v
  end.
(** [__builtin_ctz]: the lowest set bit of a 32-bit word. *)
Fixpoint ctz_from (fuel : nat) (i x : Z) : Z :=
  match fuel with
  | O => i
  | S fuel => if Z.testbit x i then i else ctz_from fuel (i + 1) x
  end.
Definition builtin_ctz (x : Z) : Z := ctz_from 32 0 x.
Definition eq_mask (a b : list Z) : Z := mm_movemask (mm_cmpeq a b).
Definition nul_mask (a : list Z) : Z := eq_mask a mm_zero.

Definition sse_load (p : Z) : CM (list Z) := if p mod 16 =? 0 then mm_load p else mm_loadu p.
Definition sse_store (p : Z) (v : list Z) : CM unit := if p mod 16 =? 0 then mm_store p v else mm_storeu p v.

(** ** Blocks of memory *)

(** [while ((p & 15) && count) { *p++ = v; count--; }], [v] of [length unit_] bytes. *)
Fixpoint sse_fill_align (fuel : nat) (p : Z) (unit_ : list Z) (count : Z) : CM (Z * Z) :=
  match fuel with
  | O => M_diverge
  | S fuel =>
      if (p mod 16 =? 0) || (count =? 0) then ret! (p, count) else
      do! wrn p unit_ in
      sse_fill_align fuel (p + Z.of_nat (length unit_)) unit_ (count - 1)
  end.
(** [while (count >= per) { store(p, v); p += 16; count -= per; }] *)
Fixpoint sse_fill_chunks (fuel : nat) (p : Z) (v : list Z) (per count : Z) : CM (Z * Z) :=
  match fuel with
  | O => M_diverge
  | S fuel =>
      if count <? per then ret! (p, count) else
      do! mm_store p v in
      sse_fill_chunks fuel (p + 16) v per (count - per)
  end.
Definition xytherOs_memset (dest value count : Z) : CM Z :=
  let! pc := sse_fill_align (S (Z.to_nat count)) dest [u8 value] count in
  let! pc := sse_fill_chunks (S (Z.to_nat pc.2)) pc.1 (mm_set1 value) 16 pc.2 in
  do! fill_units (Z.to_nat pc.2) pc.1 [u8 value] in
  ret! dest.
Definition xytherOs_memsetw (dest value count : Z) : CM Z :=
  let w := le_bytes 2 (u16 value) in
  let! pc := sse_fill_align (S (Z.to_nat count)) dest w count in
  let! pc := sse_fill_chunks (S (Z.to_nat pc.2)) pc.1 (mjoin (replicate 8 w)) 8 pc.2 in
  do! fill_units (Z.to_nat pc.2) pc.1 w in
  ret! dest.

(** [while ((d & 15) && count) { *d++ = *s++; count--; }] *)
Fixpoint sse_copy_align (fuel : nat) (d s count : Z) : CM (Z * Z * Z) :=
  match fuel with
  | O => M_diverge
  | S fuel =>
      if (d mod 16 =? 0) || (count =? 0) then ret! (d, s, count) else
      let! b := rd8 s in
      do! wr8 d b in
      sse_copy_align fuel (d + 1) (s + 1) (count - 1)
  end.
(** [while (count >= 16) { store(d, loadu(s)); ... }] *)
Fixpoint sse_copy_chunks (fuel : nat) (d s count : Z) : CM (Z * Z * Z) :=
  match fuel with
  | O => M_diverge
  | S fuel =>
      if count <? 16 then ret! (d, s, count) else
      let! v := mm_loadu s in
      do! mm_store d v in
      sse_copy_chunks fuel (d + 16) (s + 16) (count - 16)
  end.
Definition xytherOs_memcpy (dest src count : Z) : CM Z :=
  let! a := sse_copy_align 16 dest src count in
  let '(d, s, count) := a in
  let! a := sse_copy_chunks (S (Z.to_nat count)) d s count in
  let '(d, s, count) := a in
  do! copy_up (Z.to_nat count) d s in
  ret! dest.

(** The same downwards, [d] and [s] one past the end. *)
Fixpoint sse_move_align (fuel : nat) (d s count : Z) : CM (Z * Z * Z) :=
  match fuel with
  | O => M_diverge
  | S fuel =>
      if (d mod 16 =? 0) || (count =? 0) then ret! (d, s, count) else
      let! b := rd8 (s - 1) in
      do! wr8 (d - 1) b in
      sse_move_align fuel (d - 1) (s - 1) (count - 1)
  end.
Fixpoint sse_move_chunks (fuel : nat) (d s count : Z) : CM (Z * Z * Z) :=
  match fuel with
  | O => M_diverge
  | S fuel =>
      if count <? 16 then ret! (d, s, count) else
      let! v := mm_loadu (s - 16) in
      do! mm_store (d - 16) v in
      sse_move_chunks fuel (d - 16) (s - 16) (count - 16)
  end.
Definition xytherOs_memmove (dest src count : Z) : CM Z :=
  if dest <? src then xytherOs_memcpy dest src count else
  if src <? dest then
    let! a := sse_move_align 16 (dest + count) (src + count) count in
    let '(d, s, count) := a in
    let! a := sse_move_chunks (S (Z.to_nat count)) d s count in
    let '(d, s, count) := a in
    do! copy_down (Z.to_nat count) (d - count) (s - count) in
    ret! dest
  else ret! dest.

(** The first [n] bytes that differ, as -1 or 1. *)
Fixpoint cmp_bytes (n : nat) (p1 p2 : Z) : CM Z :=
  match n with
  | O => ret! 0
  | S n =>
      let! a := rd8 p1 in
      let! b := rd8 p2 in
      if a =? b then cmp_bytes n (p1 + 1) (p2 + 1) else ret! (if a <? b then -1 else 1)
  end.
Fixpoint sse_cmp_chunks (fuel : nat) (p1 p2 count : Z) : CM (Z + Z * Z * Z) :=
  match fuel with
  | O => M_diverge
  | S fuel =>
      if count <? 16 then ret! (inr (p1, p2, count)) else
      let! v1 := mm_loadu p1 in
      let! v2 := mm_loadu p2 in
      let! c := (if eq_mask v1 v2 =? 65535 then ret! 0 else cmp_bytes 16 p1 p2) in
      if negb (c =? 0) then ret! (inl c) else sse_cmp_chunks fuel (p1 + 16) (p2 + 16) (count - 16)
  end.
Definition xytherOs_memcmp (ptr1 ptr2 count : Z) : CM Z :=
  let! a := sse_cmp_chunks (S (Z.to_nat count)) ptr1 ptr2 count in
  match a with
  | inl c => ret! c
  | inr (p1, p2, count) => cmp_bytes (Z.to_nat count) p1 p2
  end.

(** The first of [n] bytes equal to [v], or 0. *)
Fixpoint find_byte (n : nat) (p v : Z) : CM Z :=
  match n with
  | O => ret! 0
  | S n =>
      let! b := rd8 p in
      if b =? v then ret! p else find_byte n (p + 1) v
  end.
Fixpoint sse_chr_chunks (fuel : nat) (p v count : Z) : CM (Z + Z * Z) :=
  match fuel with
  | O => M_diverge
  | S fuel =>
      if count <? 16 then ret! (inr (p, count)) else
      let! c := mm_loadu p in
      let! q := (if eq_mask c (mm_set1 v) =? 0 then ret! 0 else find_byte 16 p v) in
      if negb (q =? 0) then ret! (inl q) else sse_chr_chunks fuel (p + 16) v (count - 16)
  end.
Definition xytherOs_memchr (ptr value count : Z) : CM Z :=
  let v := u8 value in
  let! a := sse_chr_chunks (S (Z.to_nat count)) ptr v count in
  match a with
  | inl q => ret! q
  | inr (p, count) => find_byte (Z.to_nat count) p v
  end.

(** ** Measuring and searching strings *)

(** [while (s & 15) { if (stop( *s)) return ...; s++; }] *)
Fixpoint sse_align (fuel : nat) (stop : Z -> bool) (s : Z) : CM (Z + Z) :=
  match fuel with
  | O => M_diverge
  | S fuel =>
      if s mod 16 =? 0 then ret! (inr s) else
      let! b := rd8 s in
      if stop b then ret! (inl s) else sse_align fuel stop (s + 1)
  end.
Fixpoint sse_len_loop (fuel : nat) (s : Z) : CM Z :=
  match fuel with
  | O => M_diverge
  | S fuel =>
      let! v := mm_loadu s in
      let mask := nul_mask v in
      if mask =? 0 then sse_len_loop fuel (s + 16) else ret! (s + builtin_ctz mask)
  end.
Definition xytherOs_strlen (str : Z) : CM Z :=
  let! fuel := str_fuel in
  let! a := sse_align 16 is_nul str in
  match a with
  | inl e => ret! (e - str)
  | inr s => let! e := sse_len_loop fuel s in ret! (e - str)
  end.

Fixpoint sse_strchr_loop (fuel : nat) (ch str : Z) : CM Z :=
  match fuel with
  | O => M_diverge
  | S fuel =>
      let! v := mm_loadu str in
      let mask := eq_mask v (mm_set1 ch) in
      if negb (mask =? 0) then ret! (str + builtin_ctz mask) else
      if negb (nul_mask v =? 0) then ret! 0 else sse_strchr_loop fuel ch (str + 16)
  end.
Definition xytherOs_strchr (str c : Z) : CM Z :=
  let! fuel := str_fuel in
  let ch := u8 c in
  let! a := sse_align 16 (fun b => (b =? ch) || is_nul b) str in
  match a with
  | inl e => let! b := rd8 e in ret! (if b =? ch then e else 0)
  | inr s => sse_strchr_loop fuel ch s
  end.
Fixpoint strrchr_loop (fuel : nat) (ch str last : Z) : CM Z :=
  match fuel with
  | O => M_diverge
  | S fuel =>
      let! b := rd8 str in
      if b =? 0 then ret! last else strrchr_loop fuel ch (str + 1) (if b =? ch then str else last)
  end.
Definition xytherOs_strrchr (str c : Z) : CM Z :=
  let! fuel := str_fuel in strrchr_loop fuel (u8 c) str 0.
Fixpoint sse_strstr_loop (fuel : nat) (haystack needle needle_len : Z) : CM Z :=
  match fuel with
  | O => M_diverge
  | S fuel =>
      let! b := rd8 haystack in
      if b =? 0 then ret! 0 else
      let! c := xytherOs_memcmp haystack needle needle_len in
      if c =? 0 then ret! haystack else sse_strstr_loop fuel (haystack + 1) needle needle_len
  end.
Definition xytherOs_strstr (haystack needle : Z) : CM Z :=
  let! fuel := str_fuel in
  let! n := xytherOs_strlen needle in
  if n =? 0 then ret! haystack else sse_strstr_loop fuel haystack needle n.
(** [for (;; str += 16)], from any address. *)
Definition xytherOs_lfind (str ch : Z) : CM Z :=
  let! fuel := str_fuel in sse_strchr_loop fuel (u8 ch) str.
(** [for (i = 0; i < len; i++) if (str[i] == (char)ch) last = str + i;] *)
Fixpoint rfind_loop (n : nat) (str ch last : Z) : CM Z :=
  match n with
  | O => ret! last
  | S n =>
      let! b := rd8 str in
      rfind_loop n (str + 1) ch (if b =? ch then str else last)
  end.
Definition xytherOs_rfind (str ch : Z) : CM Z :=
  let! len := xytherOs_strlen str in
  if ch =? 0 then ret! (str + len) else rfind_loop (Z.to_nat len) str (u8 ch) 0.

(** ** Copying strings *)

(** [while (src & 15) if (( *d++ = *src++) == 0) return dest;]: [None] for the return. *)
Fixpoint sse_cpy_align (fuel : nat) (d src : Z) : CM (option (Z * Z)) :=
  match fuel with
  | O => M_diverge
  | S fuel =>
      if src mod 16 =? 0 then ret! (Some (d, src)) else
      let! b := rd8 src in
      do! wr8 d b in
      if b =? 0 then ret! None else sse_cpy_align fuel (d + 1) (src + 1)
  end.
(** Each chunk is stored whole, the last one too. *)
Fixpoint sse_cpy_loop (fuel : nat) (d src : Z) : CM unit :=
  match fuel with
  | O => M_diverge
  | S fuel =>
      let! v := mm_loadu src in
      do! mm_storeu d v in
      if nul_mask v =? 0 then sse_cpy_loop fuel (d + 16) (src + 16) else ret! tt
  end.
Definition xytherOs_strcpy (dest src : Z) : CM Z :=
  let! fuel := str_fuel in
  let! a := sse_cpy_align 16 dest src in
  match a with
  | None => ret! dest
  | Some (d, src) => do! sse_cpy_loop fuel d src in ret! dest
  end.

(** [while (n && (src & 15)) { ... }]: [None] for the return. *)
Fixpoint sse_ncpy_align (fuel : nat) (d src n : Z) : CM (option (Z * Z * Z)) :=
  match fuel with
  | O => M_diverge
  | S fuel =>
      if (n =? 0) || (src mod 16 =? 0) then ret! (Some (d, src, n)) else
      let! b := rd8 src in
      do! wr8 d b in
      if b =? 0 then do! fill_units (Z.to_nat (n - 1)) (d + 1) [0] in ret! None
      else sse_ncpy_align fuel (d + 1) (src + 1) (n - 1)
  end.
Fixpoint sse_ncpy_chunks (fuel : nat) (d src n : Z) : CM (option (Z * Z * Z)) :=
  match fuel with
  | O => M_diverge
  | S fuel =>
      if n <? 16 then ret! (Some (d, src, n)) else
      let! v := mm_loadu src in
      do! mm_storeu d v in
      let mask := nul_mask v in
      if mask =? 0 then sse_ncpy_chunks fuel (d + 16) (src + 16) (n - 16) else
      let z := builtin_ctz mask in
      do! fill_units (Z.to_nat (16 - z)) (d + z) [0] in ret! None
  end.
(** [while (n--) if (( *d++ = *src++) == 0) { while (n--) *d++ = 0; return dest; }] *)
Fixpoint sse_ncpy_bytes (n : nat) (d src : Z) : CM unit :=
  match n with
  | O => ret! tt
  | S n =>
      let! b := rd8 src in
      do! wr8 d b in
      if b =? 0 then fill_units n (d + 1) [0] else sse_ncpy_bytes n (d + 1) (src + 1)
  end.
Definition xytherOs_strncpy (dest src n : Z) : CM Z :=
  let! a := sse_ncpy_align 16 dest src n in
  match a with
  | None => ret! dest
  | Some (d, src, n) =>
      let! a := sse_ncpy_chunks (S (Z.to_nat n)) d src n in
      match a with
      | None => ret! dest
      | Some (d, src, n) => do! sse_ncpy_bytes (Z.to_nat n) d src in ret! dest
      end
  end.

(** [while (n - i >= 16)]: [inl i] for [goto finish], [inr i] when the loop ends. *)
Fixpoint sse_safe_chunks (fuel : nat) (dest src n i : Z) : CM (Z + Z) :=
  match fuel with
  | O => M_diverge
  | S fuel =>
      if u64 (n - i) <? 16 then ret! (inr i) else
      let! v := sse_load (src + i) in
      let mask := nul_mask v in
      if mask =? 0 then
        do! sse_store (dest + i) v in
        sse_safe_chunks fuel dest src n (i + 16)
      else
        let pos := builtin_ctz mask in
        let! _ := memcpy (dest + i) (src + i) pos in
        ret! (inl (i + pos))
  end.
(** [for (; i < n - 1; i++) { dest[i] = src[i]; if (src[i] == 0) return dest; }]: whether it returned. *)
Fixpoint safe_bytes (k : nat) (d s : Z) : CM bool :=
  match k with
  | O => ret! false
  | S k =>
      let! b := rd8 s in
      do! wr8 d b in
      if b =? 0 then ret! true else safe_bytes k (d + 1) (s + 1)
  end.
Definition xytherOs_safestrncpy (dest src n : Z) : CM Z :=
  if n =? 0 then ret! dest else
  let! a := sse_safe_chunks (S (Z.to_nat n)) dest src n 0 in
  let! done_ :=
    match a with
    | inl _ => ret! false
    | inr i => safe_bytes (Z.to_nat (n - 1 - i)) (dest + i) (src + i)
    end in
  if done_ then ret! dest else
  do! wr8 (dest + (n - 1)) 0 in
  ret! dest.

(** [for (;;) { if (mask of NULs) { d += ctz; break; } d += 16; }] *)
Definition sse_end (d : Z) : CM Z := let! fuel := str_fuel in sse_len_loop fuel d.
(** Whole chunks, then the bytes before the NUL, then a NUL. *)
Fixpoint sse_append (fuel : nat) (d src : Z) : CM unit :=
  match fuel with
  | O => M_diverge
  | S fuel =>
      let! v := sse_load src in
      let mask := nul_mask v in
      if mask =? 0 then
        do! sse_store d v in
        sse_append fuel (d + 16) (src + 16)
      else
        let pos := builtin_ctz mask in
        let! _ := memcpy d src pos in
        wr8 (d + pos) 0
  end.
Definition xytherOs_strcat (dest src : Z) : CM Z :=
  let! fuel := str_fuel in
  let! d := sse_end dest in
  do! sse_append fuel d src in
  ret! dest.

(** [while (copied < n)], in terms of what is left: where [d] ends up. *)
Fixpoint sse_ncat_loop (fuel : nat) (d src left : Z) : CM Z :=
  match fuel with
  | O => M_diverge
  | S fuel =>
      if left =? 0 then ret! d else
      let! v := sse_load src in
      let mask := nul_mask v in
      if negb (mask =? 0) then
        let to_copy := Z.min left (builtin_ctz mask) in
        let! _ := memcpy d src to_copy in
        ret! (d + to_copy)
      else if 16 <=? left then
        do! sse_store d v in
        sse_ncat_loop fuel (d + 16) (src + 16) (left - 16)
      else
        let! q := find_byte (Z.to_nat left) src 0 in
        let k := if q =? 0 then left else q - src in
        let! _ := memcpy d src k in
        ret! (d + k)
  end.
Definition xytherOs_strncat (dest src n : Z) : CM Z :=
  let! d := sse_end dest in
  let! d := sse_ncat_loop (S (Z.to_nat n)) d src n in
  do! wr8 d 0 in
  ret! dest.

(** ** Comparing strings *)

(** [while ((s1 & 15) && (s2 & 15)) { if ( *s1 != *s2 || !*s1) return *s1 - *s2; ... }] *)
Fixpoint sse_strcmp_align (fuel : nat) (s1 s2 : Z) : CM (Z + Z * Z) :=
  match fuel with
  | O => M_diverge
  | S fuel =>
      if (s1 mod 16 =? 0) || (s2 mod 16 =? 0) then ret! (inr (s1, s2)) else
      let! a := rd8 s1 in
      let! b := rd8 s2 in
      if negb (a =? b) || (a =? 0) then ret! (inl (a - b)) else sse_strcmp_align fuel (s1 + 1) (s2 + 1)
  end.
(** [for (i = 0; i < 16; i++) { if (s1[i] != s2[i]) return ...; if (s1[i] == 0) return 0; }]
    over bytes folded by [fold_]: the result, or [None] when it falls through. *)
Fixpoint cmp_chunk (n : nat) (fold_ : Z -> Z) (s1 s2 : Z) : CM (option Z) :=
  match n with
  | O => ret! None
  | S n =>
      let! a := rd8 s1 in
      let! b := rd8 s2 in
      if negb (fold_ a =? fold_ b) then ret! (Some (fold_ a - fold_ b)) else
      if fold_ a =? 0 then ret! (Some 0) else cmp_chunk n fold_ (s1 + 1) (s2 + 1)
  end.
Definition no_fold (b : Z) : Z := b.
(** A chunk is looked at only when the two differ. *)
Fixpoint sse_strcmp_loop (fuel : nat) (s1 s2 : Z) : CM Z :=
  match fuel with
  | O => M_diverge
  | S fuel =>
      let! v1 := mm_loadu s1 in
      let! v2 := mm_loadu s2 in
      let! r := (if eq_mask v1 v2 =? 65535 then ret! None else cmp_chunk 16 no_fold s1 s2) in
      match r with
      | Some c => ret! c
      | None => sse_strcmp_loop fuel (s1 + 16) (s2 + 16)
      end
  end.
Definition xytherOs_strcmp (s1 s2 : Z) : CM Z :=
  let! fuel := str_fuel in
  let! a := sse_strcmp_align 16 s1 s2 in
  match a with
  | inl c => ret! c
  | inr (s1, s2) => sse_strcmp_loop fuel s1 s2
  end.
Definition xytherOs_string_eq (s0 s1 : Z) : CM bool :=
  let! n0 := xytherOs_strlen s0 in
  let! n1 := xytherOs_strlen s1 in
  if negb (n0 =? n1) then ret! false else
  let! c := xytherOs_strcmp s0 s1 in
  ret! (c =? 0).

(** A-Z to lower case, on a byte ([unsigned char]) and on sixteen of them. *)
Definition fold_byte (c : Z) : Z := if (65 <=? c) && (c <=? 90) then Z.lor c 32 else c.
Definition mm_lower (v : list Z) : list Z :=
  mm_or v (mm_and (mm_and (mm_cmpgt v (mm_set1 64)) (mm_cmplt v (mm_set1 91))) (mm_set1 32)).

(** The bytes at the first position where the vectors differ, [~mask] being an [int]. *)
Definition first_diff (v1 v2 : list Z) : Z :=
  let i := builtin_ctz (Z.lnot (eq_mask v1 v2)) in
  default 0 (v1 !! Z.to_nat i) - default 0 (v2 !! Z.to_nat i).

(** [while (n >= 16)]: [inl] for a return; [lower] and [fold_] are the identity in [strncmp]. *)
Fixpoint sse_ncmp_chunks (fuel : nat) (lower : list Z -> list Z) (fold_ : Z -> Z) (s1 s2 n : Z) : CM (Z + Z * Z * Z) :=
  match fuel with
  | O => M_diverge
  | S fuel =>
      if n <? 16 then ret! (inr (s1, s2, n)) else
      let! v1 := sse_load s1 in
      let! v2 := sse_load s2 in
      let v1 := lower v1 in
      let v2 := lower v2 in
      if negb (eq_mask v1 v2 =? 65535) then ret! (inl (first_diff v1 v2)) else
      if negb (nul_mask v1 =? 0) then
        let! r := cmp_chunk 16 fold_ s1 s2 in ret! (inl (default 0 r))
      else sse_ncmp_chunks fuel lower fold_ (s1 + 16) (s2 + 16) (n - 16)
  end.
(** [while (n--) { if (c1 != c2) return c1 - c2; if (c1 == 0) return 0; }] *)
Definition ncmp_bytes (n : nat) (fold_ : Z -> Z) (s1 s2 : Z) : CM Z :=
  let! r := cmp_chunk n fold_ s1 s2 in ret! (default 0 r).
Definition xytherOs_strncmp (s1 s2 n : Z) : CM Z :=
  let! a := sse_ncmp_chunks (S (Z.to_nat n)) (fun v => v) no_fold s1 s2 n in
  match a with
  | inl c => ret! c
  | inr (s1, s2, n) => ncmp_bytes (Z.to_nat n) no_fold s1 s2
  end.
Definition xytherOs_strncasecmp (s1 s2 n : Z) : CM Z :=
  if n =? 0 then ret! 0 else
  let! a := sse_ncmp_chunks (S (Z.to_nat n)) mm_lower fold_byte s1 s2 n in
  match a with
  | inl c => ret! c
  | inr (s1, s2, n) => ncmp_bytes (Z.to_nat n) fold_byte s1 s2
  end.
Fixpoint sse_casecmp_loop (fuel : nat) (s1 s2 : Z) : CM Z :=
  match fuel with
  | O => M_diverge
  | S fuel =>
      let! v1 := sse_load s1 in
      let! v2 := sse_load s2 in
      let l1 := mm_lower v1 in
      let l2 := mm_lower v2 in
      if negb (eq_mask l1 l2 =? 65535) then ret! (first_diff l1 l2) else
      let! r := (if nul_mask l1 =? 0 then ret! None else cmp_chunk 16 fold_byte s1 s2) in
      match r with
      | Some c => ret! c
      | None => sse_casecmp_loop fuel (s1 + 16) (s2 + 16)
      end
  end.
Definition xytherOs_strcasecmp (s1 s2 : Z) : CM Z :=
  let! fuel := str_fuel in sse_casecmp_loop fuel s1 s2.

(** ** Tokens *)

(** The positions of [v] that hold one of the delimiters. *)
Definition delim_mask (v delim : list Z) : Z := foldr (fun d acc => Z.lor (eq_mask v (mm_set1 d)) acc) 0 delim.
Fixpoint sse_skip_delim (fuel : nat) (s : Z) (delim : list Z) : CM Z :=
  match fuel with
  | O => M_diverge
  | S fuel =>
      let! v := sse_load s in
      let nmask := nul_mask v in
      let dmask := delim_mask v delim in
      if negb (nmask =? 0) then
        let valid := builtin_ctz nmask in
        let low := bit_mask valid - 1 in
        if Z.land dmask low =? low then ret! (s + valid)
        else ret! (s + builtin_ctz (Z.lnot (Z.land dmask low)))
      else if dmask =? 65535 then sse_skip_delim fuel (s + 16) delim
      else ret! (s + builtin_ctz (Z.lnot dmask))
  end.
Fixpoint sse_find_delim (fuel : nat) (s : Z) (delim : list Z) : CM Z :=
  match fuel with
  | O => M_diverge
  | S fuel =>
      let! v := sse_load s in
      let nmask := nul_mask v in
      let dmask := delim_mask v delim in
      if negb (nmask =? 0) then
        let valid := builtin_ctz nmask in
        let mask := Z.land dmask (bit_mask valid - 1) in
        ret! (s + (if mask =? 0 then valid else builtin_ctz mask))
      else if negb (dmask =? 0) then ret! (s + builtin_ctz dmask)
      else sse_find_delim fuel (s + 16) delim
  end.
(** [while ( *s && (strchr(delim, *s) != NULL) == want) s++] *)
Fixpoint skip_while (fuel : nat) (want : bool) (delim s : Z) : CM Z :=
  match fuel with
  | O => M_diverge
  | S fuel =>
      let! b := rd8 s in
      if b =? 0 then ret! s else
      let! q := xytherOs_strchr delim (schar b) in
      if Bool.eqb (negb (q =? 0)) want then skip_while fuel want delim (s + 1) else ret! s
  end.

(** The token and what [*saveptr] holds afterwards. *)
Definition xytherOs_strtok_r (s delim saved : Z) : CM (Z * Z) :=
  let! fuel := str_fuel in
  let! d0 := (if delim =? 0 then ret! 0 else rd8 delim) in
  if d0 =? 0 then
    if s =? 0 then ret! (s, 0) else let! n := strlen s in ret! (s, s + n)
  else
    let s := if s =? 0 then saved else s in
    let! n := strlen delim in
    let dlen := s32 n in
    if (0 <? dlen) && (dlen <=? 16) then
      let! ds := rdn (Z.to_nat dlen) delim in
      let! token := sse_skip_delim fuel s ds in
      let! b := rd8 token in
      if b =? 0 then ret! (0, token) else
      let! e := sse_find_delim fuel token ds in
      let! b := rd8 e in
      if b =? 0 then ret! (token, e) else do! wr8 e 0 in ret! (token, e + 1)
    else
      let! token := skip_while fuel true delim s in
      let! b := rd8 token in
      if b =? 0 then ret! (0, token) else
      let! e := skip_while fuel false delim token in
      let! b := rd8 e in
      if b =? 0 then ret! (token, e) else do! wr8 e 0 in ret! (token, e + 1).
Definition xytherOs_strtok (s delim last : Z) : CM (Z * Z) := xytherOs_strtok_r s delim last.

Section Alloc.
Context {CA : CAlloc}.

Definition xytherOs_strdup (s : Z) : CM Z :=
  let! fuel := str_fuel in
  let! len := xytherOs_strlen s in
  let! dup := cmalloc (u64 (len + 1)) in
  if dup =? 0 then ret! 0 else
  do! sse_append fuel dup s in
  ret! dup.

(** The text of [xytherOs_tokenize], [xytherOs_combine_strings] and
    [xytherOs_canonicalize_path] is that of lib/string.c. *)
Definition xytherOs_tokenize (s delim : Z) (pp : bool) : CM (Z * option (Z * Z * Z)) := tokenize s delim pp.
Definition xytherOs_combine_strings (s0 s1 : Z) : CM Z := combine_strings s0 s1.
Definition xytherOs_canonicalize_path (path : Z) (pp : bool) : CM (Z * option (Z * Z * Z)) := tokenize path 47 pp.

(** [while (end >= p && strchr(delim, *end)) *end-- = 0;] *)
Fixpoint trim_trailing_r (fuel : nat) (delim p end_ : Z) : CM unit :=
  match fuel with
  | O => M_diverge
  | S fuel =>
      if end_ <? p then ret! tt else
      let! b := rd8 end_ in
      let! q := xytherOs_strchr delim (schar b) in
      if q =? 0 then ret! tt else do! wr8 end_ 0 in trim_trailing_r fuel delim p (end_ - 1)
  end.
Fixpoint count_tokens_r (fuel : nat) (delim scan : Z) (in_token : bool) (count : Z) : CM Z :=
  match fuel with
  | O => M_diverge
  | S fuel =>
      let! b := rd8 scan in
      if b =? 0 then ret! count else
      let! q := xytherOs_strchr delim (schar b) in
      if negb (q =? 0) then count_tokens_r fuel delim (scan + 1) false count
      else count_tokens_r fuel delim (scan + 1) true (if in_token then count else count + 1)
  end.
Fixpoint extract_tokens_r (fuel : nat) (delim tokens p i : Z) : CM Z :=
  match fuel with
  | O => M_diverge
  | S fuel =>
      let! b := rd8 p in
      if b =? 0 then ret! i else
      do! wr64 (tokens + 8 * i) p in
      let! sf := str_fuel in
      let! p := skip_while sf false delim p in
      let! b := rd8 p in
      if b =? 0 then extract_tokens_r fuel delim tokens p (i + 1) else
      do! wr8 p 0 in
      let! p := skip_while sf true delim (p + 1) in
      extract_tokens_r fuel delim tokens p (i + 1)
  end.
Definition xytherOs_tokenize_r (s delim : Z) (pp : bool) : CM (Z * option (Z * Z * Z)) :=
  if (s =? 0) || (delim =? 0) || negb pp then ret! (- EINVAL, None) else
  let! len := xytherOs_strlen s in
  let! buf := cmalloc (u64 (len + 1)) in
  if buf =? 0 then ret! (- ENOMEM, None) else
  let! _ := xytherOs_memcpy buf s (len + 1) in
  let! fuel := str_fuel in
  let! p := skip_while fuel true delim buf in
  do! (if p =? buf then ret! tt else
       let! n := xytherOs_strlen p in
       let! _ := xytherOs_memmove buf p (n + 1) in ret! tt) in
  let! n := xytherOs_strlen buf in
  do! trim_trailing_r fuel delim buf (buf + n - 1) in
  let! count := count_tokens_r fuel delim buf false 0 in
  let! tokens := cmalloc (u64 (u64 (count + 1) * 8)) in
  if tokens =? 0 then do! cfree buf in ret! (- ENOMEM, None) else
  let! n := extract_tokens_r fuel delim tokens buf 0 in
  do! wr64 (tokens + 8 * n) 0 in
  let! last := (if n =? 0 then ret! 0 else rd64 (tokens + 8 * (n - 1))) in
  ret! (0, Some (tokens, n, last)).
End Alloc.
Definition xytherOs_tokens_free (tokens : Z) : CM unit := tokens_free tokens.
