(* ===== verification/StrSseFacts.v ===== *)
(** * Correctness of the vector string functions

    Masks and their lowest bit, the vector [strlen], and the vector copies, which
    write the same memory as the byte loops. *)
From S2P Require Import Prelude Errno CMem Str StrWords StrCopy StrSse.

Implicit Types (h : gmap Z Z) (l v : list Z) (m : cmem).

(** ** Masks *)
Definition top (b : Z) : bool := 128 <=? b.

Lemma movemask_nonneg v : 0 <= mm_movemask v.
Proof. induction v as [|b v IH]; simpl; [done|]. destruct (128 <=? b); lia. Qed.

Lemma movemask_zero v : (mm_movemask v =? 0) = negb (existsb top v).
Proof.
  induction v as [|b v IH]; [done|]. simpl. unfold top at 1. pose proof (movemask_nonneg v).
  destruct (128 <=? b); simpl; [apply Z.eqb_neq; lia|]. rewrite <- IH.
  destruct (Z.eqb_spec (mm_movemask v) 0) as [->|]; [done|]. apply Z.eqb_neq. lia.
Qed.

Lemma ctz_from_shift fuel i b x : 0 <= i -> (b = 0 \/ b = 1) -> ctz_from fuel (i + 1) (b + 2 * x) = ctz_from fuel i x + 1.
Proof.
  revert i. induction fuel as [|fuel IH]; intros i Hi Hb; cbn [ctz_from]; [done|].
  replace (Z.testbit (b + 2 * x) (i + 1)) with (Z.testbit x i).
  - destruct (Z.testbit x i); [done|]. apply IH; [lia|done].
  - destruct Hb as [->| ->].
    + rewrite Z.add_0_l, Z.add_1_r, Z.testbit_even_succ by lia. done.
    + rewrite (Z.add_comm 1), (Z.add_1_r i), Z.testbit_odd_succ by lia. done.
Qed.

Lemma ctz_movemask v fuel :
  existsb top v = true -> (length v <= fuel)%nat -> ctz_from fuel 0 (mm_movemask v) = Z.of_nat (index_of top v).
Proof.
  revert fuel. induction v as [|b v IH]; intros fuel; [done|]. simpl. unfold top at 1 3.
  intros He Hf. destruct fuel as [|fuel]; [lia|]. cbn [ctz_from].
  destruct (128 <=? b) eqn:E.
  - rewrite Z.add_comm, Z.testbit_odd_0. done.
  - rewrite Z.add_0_l at 1. rewrite Z.testbit_even_0. simpl in He.
    rewrite (ctz_from_shift fuel 0) by auto with lia. rewrite IH by (done || lia). lia.
Qed.

Lemma cmpeq_rep k v c : length v = k -> mm_cmpeq v (replicate k c) = map (fun x => if x =? c then 255 else 0) v.
Proof. intros <-. unfold mm_cmpeq. induction v as [|b v IH]; [done|]. cbn. f_equal. exact IH. Qed.

Lemma top_map v c :
  existsb top (map (fun x => if x =? c then 255 else 0) v) = existsb (fun b => b =? c) v /\
  index_of top (map (fun x => if x =? c then 255 else 0) v) = index_of (fun b => b =? c) v.
Proof. induction v as [|b v [IH1 IH2]]; [done|]. simpl. rewrite IH1, IH2. by destruct (b =? c). Qed.

Lemma eq_mask_zero v c : length v = 16%nat -> (eq_mask v (replicate 16 c) =? 0) = negb (existsb (fun b => b =? c) v).
Proof. intros Hv. unfold eq_mask. rewrite (cmpeq_rep 16) by done. by rewrite movemask_zero, (proj1 (top_map v c)). Qed.

Lemma eq_mask_ctz v c :
  length v = 16%nat -> existsb (fun b => b =? c) v = true ->
  builtin_ctz (eq_mask v (replicate 16 c)) = Z.of_nat (index_of (fun b => b =? c) v).
Proof.
  intros Hv He. unfold eq_mask, builtin_ctz. rewrite (cmpeq_rep 16) by done. destruct (top_map v c) as [H1 H2].
  rewrite ctz_movemask, H2; [done|by rewrite H1|rewrite length_map; lia].
Qed.

(** Two vectors of equal length have a full mask exactly when they are equal. *)
Lemma eq_mask_full v w :
  length v = length w -> (eq_mask v w =? 2 ^ Z.of_nat (length v) - 1) = bool_decide (v = w).
Proof.
  revert w. unfold eq_mask. induction v as [|a v IH]; intros [|b w]; try done. intros [= Hl]. specialize (IH w Hl).
  cbn [mm_cmpeq zip_with mm_movemask length]. fold (mm_cmpeq v w).
  rewrite Nat2Z.inj_succ, Z.pow_succ_r by lia. set (x := mm_movemask _) in *. set (k := 2 ^ Z.of_nat (length v)) in *.
  destruct (Z.eqb_spec a b) as [->|Hne]; simpl.
  - destruct (Z.eqb_spec x (k - 1)) as [->|Hx].
    + symmetry in IH. apply bool_decide_eq_true in IH as ->. rewrite bool_decide_eq_true_2 by done. apply Z.eqb_eq. lia.
    + symmetry in IH. apply bool_decide_eq_false in IH. rewrite bool_decide_eq_false_2 by congruence. apply Z.eqb_neq. lia.
  - rewrite bool_decide_eq_false_2 by congruence. apply Z.eqb_neq. assert (Z.even (2 * x) = true) by apply Z.even_even.
    intros E. assert (k > 0) by (apply Z.lt_gt, Z.pow_pos_nonneg; lia). lia.
Qed.

(** ** [strlen] *)
Lemma loadu_eq m p v : length v = 16%nat -> bytes_at (c_bytes m) p v -> mm_loadu p m = Done v m.
Proof. intros Hv Hb. unfold mm_loadu. rewrite <- Hv. by apply rdn_eq. Qed.

Lemma sse_align_eq m (stop : Z -> bool) b p l fuel :
  stop b = true -> bytes_at (c_bytes m) p (l ++ [b]) -> Forall (fun c => stop c = false) l -> (- p) mod 16 < Z.of_nat fuel ->
  exists r, sse_align fuel stop p m = Done r m /\
    (r = inl (p + Z.of_nat (length l)) \/
     exists l1 l2, l = l1 ++ l2 /\ r = inr (p + Z.of_nat (length l1)) /\ (p + Z.of_nat (length l1)) mod 16 = 0).
Proof.
  intros Hb. revert p fuel. induction l as [|c l IH]; intros p fuel Hl Hall Hf; (destruct fuel as [|fuel]; [zlia|]);
    cbn [sse_align]; destruct (Z.eqb_spec (p mod 16) 0) as [E|E];
    try (eexists; split; [reflexivity|]; right; eexists [], _; cbn [length app]; change (Z.of_nat 0) with 0;
         rewrite Z.add_0_r; by split_and!).
  - destruct Hl as [Hp _]. eexists. erewrite M_bind_done by (by apply rd8_eq). rewrite Hb. split; [reflexivity|].
    left. cbn [length]. by rewrite Z.add_0_r.
  - destruct Hl as [Hp Hl]. apply Forall_cons in Hall as [Hc Hall].
    erewrite M_bind_done by (by apply rd8_eq). rewrite Hc.
    destruct (IH (p + 1) fuel Hl Hall) as (r & E' & Hr); [zlia|]. exists r. split; [done|].
    destruct Hr as [->|(l1 & l2 & -> & -> & Hm)]; [left; f_equal; simpl; lia|].
    right. exists (c :: l1), l2. split_and!; [done|f_equal; simpl; lia|]. rewrite <- Hm. f_equal. simpl. lia.
Qed.

(** A block that starts at [l ++ [b]]: either inside [l], or it shows [b] at its place. *)
Lemma block_split h p l b v :
  bytes_at h p (l ++ [b]) -> bytes_at h p v ->
  (length v <= length l /\ v = take (length v) l)%nat \/
  (length l < length v /\ exists r, v = l ++ b :: r)%nat.
Proof.
  intros Hl Hv. destruct (decide (length v <= length l)%nat) as [Hle|Hgt].
  - left. split; [done|]. apply list_eq. intros i. destruct (decide (i < length v)%nat) as [Hi|Hi].
    + destruct (lookup_lt_is_Some_2 v i Hi) as [x Hx], (lookup_lt_is_Some_2 l i ltac:(lia)) as [y Hy].
      rewrite lookup_take_lt, Hx, Hy by done. apply (bytes_at_lookup h p) in Hx; [|done].
      assert ((l ++ [b]) !! i = Some y) as Hy' by (rewrite lookup_app_l by lia; done).
      apply (bytes_at_lookup h p) in Hy'; [|done]. congruence.
    + rewrite !lookup_ge_None_2; [done|rewrite length_take; lia|lia].
  - right. split; [lia|]. exists (drop (S (length l)) v).
    replace (l ++ b :: drop (S (length l)) v) with ((l ++ [b]) ++ drop (S (length l)) v) by (by rewrite <- app_assoc).
    rewrite <- (take_drop (S (length l)) v) at 1. f_equal. apply list_eq. intros i.
    destruct (decide (i < S (length l))%nat) as [Hi|Hi].
    + rewrite lookup_take_lt by done.
      destruct (lookup_lt_is_Some_2 v i ltac:(lia)) as [x Hx], (lookup_lt_is_Some_2 (l ++ [b]) i) as [y Hy]; [rewrite length_app; simpl; lia|].
      rewrite Hx, Hy. apply (bytes_at_lookup h p) in Hx, Hy; try done. congruence.
    + rewrite !lookup_ge_None_2; [done|rewrite length_app; simpl; lia|rewrite length_take; lia].
Qed.

Lemma index_of_app f l b r : Forall (fun c => f c = false) l -> f b = true -> index_of f (l ++ b :: r) = length l.
Proof.
  intros Hl Hb. induction l as [|c l IH]; simpl; [by rewrite Hb|]. apply Forall_cons in Hl as [Hc Hl]. rewrite Hc. f_equal. auto.
Qed.
Lemma existsb_false_Forall {A} (f : A -> bool) (l : list A) : existsb f l = false <-> Forall (fun c => f c = false) l.
Proof.
  induction l as [|a l IH]; simpl; [by split|]. rewrite orb_false_iff, Forall_cons. tauto.
Qed.

Lemma sse_len_loop_eq m s l fuel :
  mem_ok (c_bytes m) -> s mod 16 = 0 -> bytes_at (c_bytes m) s (l ++ [0]) -> chars l -> (length l < fuel)%nat ->
  sse_len_loop fuel s m = Done (s + Z.of_nat (length l)) m.
Proof.
  intros Hok. revert s l. induction fuel as [|fuel IH]; intros s l Hs Hl Hc Hf; [lia|]. cbn [sse_len_loop].
  assert (is_Some (c_bytes m !! s)) as Hmap by (destruct l; destruct Hl; eauto).
  destruct (block_bytes _ 16 s Hok Hmap ltac:(auto) Hs) as (v & Hv & Hvb). change (Z.to_nat 16) with 16%nat in Hv.
  erewrite M_bind_done by (by apply loadu_eq). unfold nul_mask, mm_zero. rewrite eq_mask_zero by done.
  destruct (block_split _ _ _ _ _ Hl Hvb) as [[Hle Htk]|(Hlt & r & ->)].
  - rewrite Hv in Hle, Htk. rewrite Htk.
    rewrite (proj2 (existsb_false_Forall _ _)); [|apply Forall_take, chars_not_nul, Hc]. cbn [negb]. set (k := 16%nat) in *. rewrite <- (take_drop k l) in Hl. rewrite <- app_assoc in Hl.
    assert (length (take k l) = k) as Hk by (rewrite length_take_le; lia).
    apply bytes_at_app in Hl as [_ Hl]. rewrite Hk in Hl. rewrite (IH (s + 16) (drop k l)).
    + f_equal. rewrite length_drop. unfold k in *. lia.
    + zlia.
    + exact Hl.
    + by apply Forall_drop.
    + rewrite length_drop. unfold k in *. lia.
  - rewrite existsb_app. cbn [existsb]. rewrite Z.eqb_refl, orb_true_r. cbn [negb].
    unfold M_ret. f_equal. f_equal. rewrite eq_mask_ctz; [|done|].
    + rewrite index_of_app; [done|by apply chars_not_nul|done].
    + rewrite existsb_app. cbn [existsb]. by rewrite Z.eqb_refl, orb_true_r.
Qed.

Lemma xytherOs_strlen_eq m p l :
  mem_ok (c_bytes m) -> cstr (c_bytes m) p l -> xytherOs_strlen p m = Done (Z.of_nat (length l)) m.
Proof.
  intros Hok [Hl Hc]. unfold xytherOs_strlen, str_fuel. unfold M_bind at 1.
  pose proof (bytes_at_size _ _ _ Hl) as Hsz. rewrite length_app in Hsz. simpl in Hsz.
  destruct (sse_align_eq m is_nul 0 p l 16 eq_refl Hl) as (r & E & [->|(l1 & l2 & -> & -> & Hm)]);
    [by apply chars_not_nul|zlia|..]; erewrite M_bind_done by exact E; cbv beta iota.
  - unfold M_ret. f_equal. lia.
  - rewrite <- app_assoc in Hl. apply bytes_at_app in Hl as [_ Hl]. apply Forall_app in Hc as [_ Hc].
    rewrite length_app in Hsz. erewrite M_bind_done by (apply (sse_len_loop_eq m _ l2); try done; lia).
    unfold M_ret. f_equal. rewrite length_app. lia.
Qed.

(** ** Copies *)

(** After a copy upwards has written a prefix, the rest is still there to copy. *)
Lemma up_rest h d s l1 l2 :
  bytes_at h s (l1 ++ l2) -> mapped_at h d (length (l1 ++ l2)) -> up_ok d s (length (l1 ++ l2)) ->
  let k := Z.of_nat (length l1) in
  bytes_at (put h d l1) (s + k) l2 /\ mapped_at (put h d l1) (d + k) (length l2) /\ up_ok (d + k) (s + k) (length l2).
Proof.
  intros Hl Hm Hu k. unfold up_ok in *. rewrite length_app in Hm, Hu. apply bytes_at_app in Hl as [_ Hl]. apply mapped_at_app in Hm as [_ Hm].
  split_and!; [apply bytes_at_put_out; [lia|done]|by apply mapped_at_put|lia].
Qed.
Lemma down_rest h d s l1 l2 :
  bytes_at h s (l1 ++ l2) -> mapped_at h d (length (l1 ++ l2)) -> s <= d ->
  let h' := put h (d + Z.of_nat (length l1)) l2 in
  bytes_at h' s l1 /\ mapped_at h' d (length l1).
Proof.
  intros Hl Hm Hu h'. rewrite length_app in Hm. apply bytes_at_app in Hl as [Hl _]. apply mapped_at_app in Hm as [Hm _].
  split; [apply bytes_at_put_out; [lia|done]|by apply mapped_at_put].
Qed.

Lemma split_16 l : (16 <= length l)%nat -> exists v w, l = v ++ w /\ length v = 16%nat.
Proof. intros H. exists (take 16 l), (drop 16 l). rewrite take_drop, length_take_le by done. done. Qed.
Lemma storeu_eq m p v :
  p mod 16 = 0 -> mapped_at (c_bytes m) p (length v) -> mm_store p v m = Done tt (set_bytes (put (c_bytes m) p v) m).
Proof. intros Hp Hm. unfold mm_store. rewrite Hp. by apply wrn_eq. Qed.

Lemma sse_copy_align_eq m d s l fuel :
  bytes_at (c_bytes m) s l -> mapped_at (c_bytes m) d (length l) -> up_ok d s (length l) -> (- d) mod 16 < Z.of_nat fuel ->
  exists l1 l2, l = l1 ++ l2 /\ let k := Z.of_nat (length l1) in
    sse_copy_align fuel d s (Z.of_nat (length l)) m
      = Done (d + k, s + k, Z.of_nat (length l2)) (set_bytes (put (c_bytes m) d l1) m) /\
    ((d + k) mod 16 = 0 \/ l2 = []).
Proof.
  revert m d s l. induction fuel as [|fuel IH]; intros m d s l Hl Hm Hu Hf; [zlia|]. cbn [sse_copy_align].
  destruct (Z.eqb_spec (d mod 16) 0) as [E|E]; [|destruct l as [|b l]].
  1, 2: eexists [], _; rewrite !Z.add_0_r; split_and!; [done|by destruct m|auto].
  rewrite (proj2 (Z.eqb_neq _ 0)) by (simpl; lia). cbn [orb].
  pose proof Hl as [Hs _]. pose proof (proj1 (mapped_at_cons _ _ _ Hm)) as Hd.
  erewrite M_bind_done by (by apply rd8_eq). erewrite M_bind_done by (by apply wr8_eq).
  destruct (up_rest _ _ _ [b] l Hl Hm Hu) as (Hl' & Hm' & Hu'). cbn [length put] in Hl', Hm', Hu'. change (Z.of_nat 1) with 1 in *.
  destruct (IH (set_bytes (<[d := b]> (c_bytes m)) m) (d + 1) (s + 1) l Hl' Hm' Hu') as (l1 & l2 & -> & Eq & Hal); [zlia|].
  exists (b :: l1), l2. split; [done|]. cbn zeta in *.
  replace (Z.of_nat (length (b :: l1 ++ l2)) - 1) with (Z.of_nat (length (l1 ++ l2))) by (simpl; lia). rewrite Eq.
  replace (d + 1 + Z.of_nat (length l1)) with (d + Z.of_nat (length (b :: l1))) in * by (simpl; lia).
  replace (s + 1 + Z.of_nat (length l1)) with (s + Z.of_nat (length (b :: l1))) in * by (simpl; lia). done.
Qed.

Lemma sse_copy_chunks_eq m d s l fuel :
  bytes_at (c_bytes m) s l -> mapped_at (c_bytes m) d (length l) -> up_ok d s (length l) -> (length l < fuel)%nat ->
  (d mod 16 = 0 \/ l = []) ->
  exists l1 l2, l = l1 ++ l2 /\ let k := Z.of_nat (length l1) in
    sse_copy_chunks fuel d s (Z.of_nat (length l)) m
      = Done (d + k, s + k, Z.of_nat (length l2)) (set_bytes (put (c_bytes m) d l1) m).
Proof.
  revert m d s l. induction fuel as [|fuel IH]; intros m d s l Hl Hm Hu Hf Hal; [lia|]. cbn [sse_copy_chunks].
  destruct (Z.ltb_spec (Z.of_nat (length l)) 16) as [E|E].
  { eexists [], _. rewrite !Z.add_0_r. split; [done|by destruct m]. }
  assert (d mod 16 = 0) as Hd by (destruct Hal as [Hal|Hal]; [done|subst l; simpl in E; lia]).
  destruct (split_16 l ltac:(lia)) as (v & w & -> & Hv). rewrite length_app in E, Hf.
  destruct (up_rest _ _ _ v w Hl Hm Hu) as (Hl' & Hm' & Hu'). rewrite Hv in Hl', Hm', Hu'. change (Z.of_nat 16) with 16 in *.
  erewrite M_bind_done by (apply loadu_eq; [done|]; by apply bytes_at_app in Hl as [? _]).
  erewrite M_bind_done by (apply storeu_eq; [done|]; rewrite length_app in Hm; by apply mapped_at_app in Hm as [? _]).
  destruct (IH (set_bytes (put (c_bytes m) d v) m) (d + 16) (s + 16) w) as (l1 & l2 & Hw & Eq); try done; [lia|left; zlia|].
  exists (v ++ l1), l2. rewrite Hw, <- !app_assoc. split; [done|]. cbn zeta in *. rewrite Hw in Eq.
  replace (Z.of_nat (length (v ++ l1 ++ l2)) - 16) with (Z.of_nat (length (l1 ++ l2))) by (rewrite !length_app; lia). rewrite Eq.
  rewrite put_app, (length_app v), Nat2Z.inj_add, Hv, !Z.add_assoc. done.
Qed.

Lemma xytherOs_memcpy_eq m d s l :
  bytes_at (c_bytes m) s l -> mapped_at (c_bytes m) d (length l) -> up_ok d s (length l) ->
  xytherOs_memcpy d s (Z.of_nat (length l)) m = Done d (set_bytes (put (c_bytes m) d l) m).
Proof.
  intros Hl Hm Hu. unfold xytherOs_memcpy.
  destruct (sse_copy_align_eq m d s l 16 Hl Hm Hu) as (l1 & l2 & -> & Eq & Hal); [zlia|].
  erewrite M_bind_done by exact Eq. cbv beta iota zeta. destruct (up_rest _ _ _ _ _ Hl Hm Hu) as (Hl' & Hm' & Hu').
  set (m1 := set_bytes (put (c_bytes m) d l1) m).
  destruct (sse_copy_chunks_eq m1 (d + Z.of_nat (length l1)) (s + Z.of_nat (length l1)) l2 (S (length l2)))
    as (l3 & l4 & -> & Eq'); try done; [lia|]. rewrite Nat2Z.id.
  erewrite M_bind_done by exact Eq'. cbv beta iota zeta. rewrite Nat2Z.id.
  destruct (up_rest _ _ _ _ _ Hl' Hm' Hu') as (Hl'' & Hm'' & Hu'').
  erewrite M_bind_done by (apply copy_up_eq; [exact Hl''|exact Hm''|exact Hu'']).
  unfold M_ret. f_equal. unfold m1, set_bytes. cbn [c_bytes c_blocks c_tick]. by rewrite !put_app, <- !Z.add_assoc.
Qed.

(** Downwards: [l2] has been copied, [l1] is left. *)
Definition moved_down (f : Z -> Z -> Z -> CM (Z * Z * Z)) (m : cmem) (d s : Z) l l1 l2 : Prop :=
  l = l1 ++ l2 /\
  f (d + Z.of_nat (length l)) (s + Z.of_nat (length l)) (Z.of_nat (length l)) m
    = Done (d + Z.of_nat (length l1), s + Z.of_nat (length l1), Z.of_nat (length l1))
        (set_bytes (put (c_bytes m) (d + Z.of_nat (length l1)) l2) m).

Lemma moved_none f m d s l :
  f (d + Z.of_nat (length l)) (s + Z.of_nat (length l)) (Z.of_nat (length l)) m
    = Done (d + Z.of_nat (length l), s + Z.of_nat (length l), Z.of_nat (length l)) m ->
  moved_down f m d s l l [].
Proof. intros E. split; [by rewrite app_nil_r|]. rewrite E. by destruct m. Qed.

Lemma mapped_at_suffix h p j k : mapped_at h p (j + k) -> mapped_at h (p + Z.of_nat j) k.
Proof. intros H. by apply mapped_at_app in H as [_ ?]. Qed.

Lemma sse_move_align_eq m d s l fuel :
  bytes_at (c_bytes m) s l -> mapped_at (c_bytes m) d (length l) -> s <= d ->
  (d + Z.of_nat (length l)) mod 16 < Z.of_nat fuel ->
  exists l1 l2, moved_down (sse_move_align fuel) m d s l l1 l2 /\ ((d + Z.of_nat (length l1)) mod 16 = 0 \/ l1 = []).
Proof.
  revert m l. induction fuel as [|fuel IH]; intros m l Hl Hm Hu Hf; [zlia|].
  destruct (Z.eqb_spec ((d + Z.of_nat (length l)) mod 16) 0) as [E|E]; [|destruct l as [|b l _] using rev_ind].
  1, 2: eexists _, []; split; [apply moved_none; cbn [sse_move_align]|auto].
  - by rewrite E.
  - by rewrite orb_true_r.
  - destruct (down_rest _ _ _ l [b] Hl Hm Hu) as (Hl' & Hm'). cbn [put] in Hl', Hm'.
    apply bytes_at_app in Hl as [_ [Hs _]]. rewrite length_app in *. cbn [length] in *.
    pose proof (Hm (length l) ltac:(lia)) as Hd.
    set (m1 := set_bytes (<[d + Z.of_nat (length l) := b]> (c_bytes m)) m).
    destruct (IH m1 l Hl' Hm' Hu) as (l1 & l2 & [-> Eq] & Hal); [zlia|].
    exists l1, (l2 ++ [b]). split; [|done]. split; [by rewrite app_assoc|]. cbn [sse_move_align].
    rewrite !(length_app (l1 ++ l2)) in *. cbn [length] in *.
    rewrite (proj2 (Z.eqb_neq _ 0)) by done. rewrite (proj2 (Z.eqb_neq (Z.of_nat _) 0)) by lia. cbn [orb].
    replace (s + Z.of_nat (length (l1 ++ l2) + 1) - 1) with (s + Z.of_nat (length (l1 ++ l2))) by lia.
    replace (d + Z.of_nat (length (l1 ++ l2) + 1) - 1) with (d + Z.of_nat (length (l1 ++ l2))) by lia.
    replace (Z.of_nat (length (l1 ++ l2) + 1) - 1) with (Z.of_nat (length (l1 ++ l2))) by lia.
    erewrite M_bind_done by (by apply rd8_eq). erewrite M_bind_done by (by apply wr8_eq).
    fold m1. rewrite Eq. f_equal. unfold m1, set_bytes. cbn [c_bytes c_blocks c_tick]. f_equal.
    rewrite put_snoc. f_equal. f_equal. rewrite length_app. lia.
Qed.

Lemma sse_move_chunks_eq m d s l fuel :
  bytes_at (c_bytes m) s l -> mapped_at (c_bytes m) d (length l) -> s <= d -> (length l < fuel)%nat ->
  ((d + Z.of_nat (length l)) mod 16 = 0 \/ l = []) ->
  exists l1 l2, moved_down (sse_move_chunks fuel) m d s l l1 l2.
Proof.
  revert m l. induction fuel as [|fuel IH]; intros m l Hl Hm Hu Hf Hal; [lia|].
  destruct (Z.ltb_spec (Z.of_nat (length l)) 16) as [E|E].
  { eexists _, []. apply moved_none. cbn [sse_move_chunks]. by rewrite (proj2 (Z.ltb_lt _ _) E). }
  assert ((d + Z.of_nat (length l)) mod 16 = 0) as Hd by (destruct Hal as [Hal|Hal]; [done|subst l; simpl in E; lia]).
  assert (exists w v, l = w ++ v /\ length v = 16%nat) as (w & v & -> & Hv).
  { exists (take (length l - 16) l), (drop (length l - 16) l). rewrite take_drop, length_drop. split; [done|lia]. }
  destruct (down_rest _ _ _ w v Hl Hm Hu) as (Hl' & Hm'). apply bytes_at_app in Hl as [_ Hs].
  rewrite length_app in *. pose proof (mapped_at_suffix _ _ _ _ Hm) as Hmv.
  set (m1 := set_bytes (put (c_bytes m) (d + Z.of_nat (length w)) v) m).
  destruct (IH m1 w Hl' Hm' Hu) as (l1 & l2 & [-> Eq]); [lia|left; zlia|].
  exists l1, (l2 ++ v). split; [by rewrite app_assoc|]. cbn [sse_move_chunks]. rewrite !(length_app (l1 ++ l2)), Hv in *.
  rewrite (proj2 (Z.ltb_ge _ _)) by lia.
  replace (s + Z.of_nat (length (l1 ++ l2) + 16) - 16) with (s + Z.of_nat (length (l1 ++ l2))) by lia.
  replace (d + Z.of_nat (length (l1 ++ l2) + 16) - 16) with (d + Z.of_nat (length (l1 ++ l2))) by lia.
  replace (Z.of_nat (length (l1 ++ l2) + 16) - 16) with (Z.of_nat (length (l1 ++ l2))) by lia.
  erewrite M_bind_done by (by apply loadu_eq).
  erewrite M_bind_done by (apply storeu_eq; [zlia|by rewrite Hv]).
  fold m1. rewrite Eq. f_equal. unfold m1, set_bytes. cbn [c_bytes c_blocks c_tick]. f_equal.
  rewrite put_app_rev. f_equal. rewrite length_app. f_equal. lia.
Qed.

Lemma sse_down_eq m d s l :
  bytes_at (c_bytes m) s l -> mapped_at (c_bytes m) d (length l) -> s < d ->
  xytherOs_memmove d s (Z.of_nat (length l)) m = Done d (set_bytes (put (c_bytes m) d l) m).
Proof.
  intros Hl Hm Hu. unfold xytherOs_memmove. rewrite (proj2 (Z.ltb_ge _ _)), (proj2 (Z.ltb_lt _ _)) by lia.
  destruct (sse_move_align_eq m d s l 16 Hl Hm) as (l1 & l2 & [-> Eq] & Hal); [lia|zlia|].
  erewrite M_bind_done by exact Eq. cbv beta iota zeta. rewrite Nat2Z.id.
  destruct (down_rest _ _ _ l1 l2 Hl Hm) as (Hl' & Hm'); [lia|].
  set (m1 := set_bytes (put (c_bytes m) (d + Z.of_nat (length l1)) l2) m).
  destruct (sse_move_chunks_eq m1 d s l1 (S (length l1)) Hl' Hm') as (l3 & l4 & [-> Eq']); [lia|lia|done|].
  erewrite M_bind_done by exact Eq'. cbv beta iota zeta. rewrite Nat2Z.id.
  destruct (down_rest _ _ _ l3 l4 Hl' Hm') as (Hl'' & Hm''); [lia|].
  rewrite !Z.add_simpl_r.
  erewrite M_bind_done by (apply copy_down_eq; [exact Hl''|exact Hm''|unfold down_ok; lia]).
  unfold M_ret. f_equal. unfold m1, set_bytes. cbn [c_bytes c_blocks c_tick]. f_equal.
  rewrite <- app_assoc. rewrite (put_app_rev _ _ l3), put_app_rev. rewrite length_app, Nat2Z.inj_add, Z.add_assoc. done.
Qed.

Lemma xytherOs_memmove_eq m d s l :
  bytes_at (c_bytes m) s l -> mapped_at (c_bytes m) d (length l) ->
  xytherOs_memmove d s (Z.of_nat (length l)) m = Done d (set_bytes (put (c_bytes m) d l) m).
Proof.
  intros Hl Hm. destruct (Z.lt_total d s) as [H|[->|H]].
  - unfold xytherOs_memmove. rewrite (proj2 (Z.ltb_lt _ _)) by done. apply xytherOs_memcpy_eq; [done..|left; lia].
  - unfold xytherOs_memmove. rewrite Z.ltb_irrefl, put_same by done. by destruct m.
  - by apply sse_down_eq.
Qed.
