(* ===== verification/StrTok.v ===== *)
(** * Correctness of [tokenize]

    The words of a string, and the proof that [tokenize] returns them: the passes of
    the function over its buffer one by one, then the whole function. *)
From S2P Require Import Prelude Errno CMem Str StrWords StrCopy.

Implicit Types (h : gmap Z Z) (l w s : list Z) (m : cmem).

(** ** Words

    The fields between delimiters (the first, and the others), and those that are
    not empty. *)
Fixpoint fields (f : Z -> bool) l : list Z * list (list Z) :=
  match l with
  | [] => ([], [])
  | b :: l =>
      let '(w, ws) := fields f l in
      if f b then ([], w :: ws) else (b :: w, ws)
  end.
Definition nonempty (w : list Z) : bool := match w with [] => false | _ => true end.
Definition words (f : Z -> bool) l : list (list Z) :=
  let '(w, ws) := fields f l in List.filter nonempty (w :: ws).

(** The delimiters that a word follows. *)
Definition starts_word (f : Z -> bool) l : bool := match l with b :: _ => negb (f b) | [] => false end.
Fixpoint separators (f : Z -> bool) l : nat :=
  match l with
  | [] => 0
  | b :: l => (if f b && starts_word f l then 1 else 0) + separators f l
  end.

Section Words.
Context (f : Z -> bool).

Lemma words_delims w l : Forall (fun b => f b = true) w -> words f (w ++ l) = words f l.
Proof.
  unfold words. induction 1 as [|b w Hb _ IH]; [done|]. rewrite <- IH. simpl. destruct (fields f (w ++ l)). by rewrite Hb.
Qed.
Lemma fields_word w l :
  Forall (fun b => f b = false) w -> fields f (w ++ l) = (w ++ (fields f l).1, (fields f l).2).
Proof.
  induction 1 as [|b w Hb _ IH]; simpl; [by destruct (fields f l)|]. by rewrite IH, Hb.
Qed.
Lemma words_word w b l :
  w <> [] -> Forall (fun b => f b = false) w -> f b = true -> words f (w ++ b :: l) = w :: words f l.
Proof.
  intros Hne Hw Hb. unfold words. rewrite fields_word by done. simpl. destruct (fields f l). rewrite Hb. simpl.
  rewrite app_nil_r. by destruct w.
Qed.
Lemma words_last w : w <> [] -> Forall (fun b => f b = false) w -> words f w = [w].
Proof.
  intros Hne Hw. unfold words. rewrite <- (app_nil_r w) at 1. rewrite fields_word by done. simpl. rewrite app_nil_r. by destruct w.
Qed.
Lemma fields_trail w l :
  Forall (fun b => f b = true) w -> fields f (l ++ w) = ((fields f l).1, (fields f l).2 ++ replicate (length w) []).
Proof.
  intros Hw. induction l as [|b l IH]; simpl.
  - induction Hw as [|b w Hb _ IH]; simpl; [done|]. by rewrite IH, Hb.
  - rewrite IH. destruct (fields f l). by destruct (f b).
Qed.
Lemma words_trail w l : Forall (fun b => f b = true) w -> words f (l ++ w) = words f l.
Proof.
  intros Hw. unfold words. rewrite fields_trail by done. destruct (fields f l) as [v vs]. rewrite app_comm_cons, List.filter_app.
  replace (List.filter nonempty (replicate (length w) [])) with (@nil (list Z)) by (induction (length w); auto).
  by rewrite app_nil_r.
Qed.

Lemma first_field l : nonempty (fields f l).1 = starts_word f l.
Proof. destruct l as [|b l]; [done|]. simpl. destruct (fields f l). by destruct (f b). Qed.

Lemma words_separators l : length (words f l) = (separators f l + (if starts_word f l then 1 else 0))%nat.
Proof.
  unfold words. induction l as [|b l IH]; [done|]. pose proof (first_field l) as H1. simpl.
  destruct (fields f l) as [w ws]. simpl in H1, IH. rewrite <- H1 in *.
  destruct (f b), (nonempty w) eqn:E; simpl in *; rewrite ?E; simpl; lia.
Qed.
End Words.

(** ** The passes over the buffer *)
Section Passes.
Context (f : Z -> bool).
Hypothesis Hf0 : f 0 = false.

(** Trimming writes NULs over the delimiters at the end of the [len] bytes. *)
Lemma trim_trailing_eq m p l fuel :
  bytes_at (c_bytes m) p l -> (length l < fuel)%nat ->
  exists l1 l2, l = l1 ++ l2 /\ Forall (fun b => f b = true) l2 /\
    trim_trailing fuel f p (p + Z.of_nat (length l) - 1) m
      = Done tt (set_bytes (put (c_bytes m) (p + Z.of_nat (length l1)) (replicate (length l2) 0)) m).
Proof.
  revert m fuel. induction l as [|b l IH] using rev_ind; intros m fuel Hl Hf; (destruct fuel as [|fuel]; [simpl in *; lia|]);
    cbn [trim_trailing].
  - exists [], []. rewrite (proj2 (Z.ltb_lt _ _)) by (simpl; lia). split_and!; [done..|by destruct m].
  - rewrite length_app in *. cbn [length] in *. rewrite (proj2 (Z.ltb_ge _ _)) by lia.
    apply bytes_at_app in Hl as [Hl [Hb _]].
    replace (p + Z.of_nat (length l + 1) - 1) with (p + Z.of_nat (length l)) by lia.
    erewrite M_bind_done by (by apply rd8_eq). destruct (f b) eqn:E.
    + erewrite M_bind_done by (apply wr8_eq; eauto).
      destruct (IH (set_bytes (<[p + Z.of_nat (length l) := 0]> (c_bytes m)) m) fuel) as (l1 & l2 & -> & H2 & Eq); [|lia|].
      { eapply bytes_at_ext; [|exact Hl]. intros q Hq. apply lookup_insert_ne. lia. }
      exists l1, (l2 ++ [b]). rewrite app_assoc, Forall_app. split_and!; [done..|by constructor|].
      rewrite Eq, (length_app l2), replicate_add. cbn [length replicate]. rewrite put_snoc, length_replicate.
      unfold set_bytes. cbn [c_bytes c_blocks c_tick]. do 4 f_equal. rewrite length_app. lia.
    + exists (l ++ [b]), []. rewrite app_nil_r, length_app. split_and!; [done..|by destruct m].
Qed.

(** A word starts here, or nothing is left. *)
Definition at_word l : Prop := l = [] \/ starts_word f l = true.

Lemma delims_split l : exists ds l2, l = ds ++ l2 /\ Forall (fun b => f b = true) ds /\ at_word l2.
Proof.
  unfold at_word. induction l as [|b l (ds & l2 & -> & Hds & H2)]; [by exists [], []; auto|]. destruct (f b) eqn:E.
  - exists (b :: ds), l2. split_and!; auto.
  - exists [], (b :: ds ++ l2). split_and!; [done..|]. right. simpl. by rewrite E.
Qed.

Lemma skip_delims_eq m p ds l2 fuel :
  bytes_at (c_bytes m) p (ds ++ l2 ++ [0]) -> Forall (fun b => f b = true) ds -> at_word l2 -> (length ds < fuel)%nat ->
  scan_bytes fuel (fun b => negb (f b)) p m = Done (p + Z.of_nat (length ds)) m.
Proof.
  intros Hl Hds H2 Hfu. assert (exists c r, l2 ++ [0] = c :: r /\ f c = false) as (c & r & E & Hc).
  { destruct l2 as [|c l2]; [by exists 0, []|]. exists c, (l2 ++ [0]). split; [done|]. destruct H2 as [|H2]; [done|].
    simpl in H2. by destruct (f c). }
  rewrite E in Hl. apply bytes_at_stop in Hl. eapply scan_bytes_eq; [exact Hl| |by rewrite Hc|lia].
  eapply Forall_impl; [exact Hds|]. intros b Hb. simpl in *. by rewrite Hb.
Qed.

Lemma count_tokens_eq m p l c fuel :
  bytes_at (c_bytes m) p (l ++ [0]) -> chars l -> (length l < fuel)%nat ->
  count_tokens fuel f p c m = Done (c + Z.of_nat (separators f l)) m.
Proof.
  revert p c fuel. induction l as [|b l IH]; intros p c fuel Hl Hc Hfu; (destruct fuel as [|fuel]; [simpl in *; lia|]);
    cbn [count_tokens]; destruct Hl as [Hp Hl]; erewrite M_bind_done by (by apply rd8_eq).
  { rewrite Z.eqb_refl. simpl. by rewrite Z.add_0_r. }
  apply Forall_cons in Hc as [Hb Hc]. rewrite (proj2 (Z.eqb_neq _ _)) by lia. fold (app l [0]) in *. simpl in Hfu.
  cbn [separators]. destruct (f b) eqn:E; cbn [negb andb]; [|rewrite IH; auto; lia].
  destruct l as [|c' l].
  - destruct Hl as [Hl _]. erewrite M_bind_done by (by apply rd8_eq). rewrite Z.eqb_refl. cbn [orb].
    rewrite IH; [done|by split|done|simpl in *; lia].
  - pose proof Hl as [Hp' _]. erewrite M_bind_done by (by apply rd8_eq). pose proof Hc as [Hc' _]%Forall_cons.
    rewrite (proj2 (Z.eqb_neq c' 0)) by lia. cbn [orb starts_word].
    rewrite IH by (done || simpl in *; lia). destruct (f c'); f_equal; cbn [negb separators]; lia.
Qed.

(** What extraction leaves: a C string for each word, and the array of pointers to them. *)
Record extracted h h' (p : Z) l (a : Z) (ptrs : list Z) : Prop := {
  ex_words : Forall2 (cstr h') ptrs (words f l);
  ex_array : bytes_at h' a (mjoin (map (le_bytes 8) ptrs));
  ex_head : l = [] \/ head ptrs = Some p;
  ex_inside : Forall2 (fun q w => p <= q /\ q + Z.of_nat (length w) <= p + Z.of_nat (length l)) ptrs (words f l);
  ex_frame : forall q, ~ (p <= q < p + Z.of_nat (length l)) -> ~ (a <= q < a + 8 * Z.of_nat (length ptrs)) -> h' !! q = h !! q;
  ex_mapped : forall q, is_Some (h !! q) -> is_Some (h' !! q)
}.

Lemma length_le_bytes n z : length (le_bytes n z) = n.
Proof. revert z. induction n as [|n IH]; intros z; simpl; [done|]. by rewrite IH. Qed.
Lemma array_cons q ptrs : mjoin (map (le_bytes 8) (q :: ptrs)) = le_bytes 8 q ++ mjoin (map (le_bytes 8) ptrs).
Proof. done. Qed.
Lemma length_array ptrs : length (mjoin (map (le_bytes 8) ptrs)) = (8 * length ptrs)%nat.
Proof.
  induction ptrs as [|q ptrs IH]; [done|].
  rewrite array_cons, length_app, length_le_bytes, IH. cbn [length]. lia.
Qed.
Lemma is_Some_put h p l q : is_Some (h !! q) -> is_Some (put h p l !! q).
Proof. intros H. rewrite lookup_put. case_decide; [apply lookup_lt_is_Some; lia|done]. Qed.

(** The pointer to the next word is stored and the word is ended by a NUL. *)
Definition cut h (p : Z) w (a : Z) : gmap Z Z := <[p + Z.of_nat (length w) := 0]> (put h a (le_bytes 8 p)).

Lemma cut_out h p w a q :
  q <> p + Z.of_nat (length w) -> ~ (a <= q < a + 8) -> cut h p w a !! q = h !! q.
Proof. intros H1 H2. unfold cut. rewrite lookup_insert_ne by done. apply lookup_put_out. by rewrite length_le_bytes. Qed.

Lemma extracted_cons h h' p w g l2 a ptrs :
  let l := w ++ g ++ l2 in
  w <> [] -> chars w -> bytes_at h p w -> words f l = w :: words f l2 ->
  (g = [] -> h !! (p + Z.of_nat (length w)) = Some 0 /\ l2 = []) ->
  a + 8 * Z.of_nat (length (words f l)) <= p \/ p + Z.of_nat (length l) + 1 <= a ->
  extracted (cut h p w a) h' (p + Z.of_nat (length (w ++ g))) l2 (a + 8) ptrs ->
  extracted h h' p l a (p :: ptrs).
Proof.
  intros l Hw Hc Hb Hwords Hg Hd [E1 E2 E3 E4 E5 E6]. subst l.
  pose proof (Forall2_length _ _ _ E1) as Hlen. rewrite Hwords in *. cbn [length] in Hd. rewrite <- Hlen in Hd. clear Hlen.
  rewrite !length_app in *. assert (0 < length w)%nat as Hw0 by (destruct w; [done|simpl; lia]).
  assert (forall q, p <= q < p + Z.of_nat (length w) -> h' !! q = h !! q) as Hword.
  { intros q Hq. rewrite E5 by lia. apply cut_out; lia. }
  assert (h' !! (p + Z.of_nat (length w)) = Some 0) as Hz.
  { destruct g as [|b g]; [|cbn [length] in *; rewrite E5 by lia; apply lookup_insert_eq].
    destruct (Hg eq_refl) as [Hz ->]. cbn [length] in *. rewrite E5 by lia. apply lookup_insert_eq. }
  constructor; rewrite ?length_app.
  - rewrite Hwords. constructor; [|done]. split; [|done]. apply bytes_at_app. split; [|by split].
    eapply bytes_at_ext; [|exact Hb]. done.
  - rewrite array_cons. apply bytes_at_app. rewrite length_le_bytes. split; [|exact E2].
    eapply bytes_at_ext; [|apply bytes_at_put]. rewrite length_le_bytes. intros q Hq. rewrite E5 by lia.
    unfold cut. rewrite lookup_insert_ne by lia. done.
  - by right.
  - rewrite Hwords. constructor; [lia|]. eapply Forall2_impl; [exact E4|]. simpl. lia.
  - intros q H1 H2. cbn [length] in H2. rewrite E5 by lia. destruct (decide (q = p + Z.of_nat (length w))) as [->|Hne].
    + destruct g as [|b g]; [|cbn [length] in *; lia]. destruct (Hg eq_refl) as [Hz' ->].
      rewrite Hz'. apply lookup_insert_eq.
    + apply cut_out; lia.
  - intros q Hq. apply E6. unfold cut. rewrite lookup_insert. case_decide; [done|]. by apply is_Some_put.
Qed.

Lemma extracted_nil h p a : extracted h h p [] a [].
Proof. constructor; simpl; auto. Qed.

(** The first word of a string that starts with one, the delimiters after it, the rest. *)
Lemma word_split l :
  starts_word f l = true ->
  exists w g l2, l = w ++ g ++ l2 /\ w <> [] /\ Forall (fun c => f c = false) w /\ words f l = w :: words f l2 /\
    at_word l2 /\ (g = [] /\ l2 = [] \/ exists b ds, g = b :: ds /\ f b = true /\ Forall (fun b => f b = true) ds).
Proof.
  intros Hst. destruct (index_of_split f l) as (w & b & r & E & _ & Hall & Hb).
  assert (w <> []) as Hw.
  { intros ->. destruct l as [|c l]; [done|]. simpl in Hst, E. injection E as <- <-.
    destruct Hb as [(_ & _ & ?)|(Hb & _)]; [done|]. by rewrite Hb in Hst. }
  exists w. destruct Hb as [(_ & _ & <-)|(Hb & r' & ->)].
  - exists [], []. rewrite app_nil_r, words_last by done. unfold at_word. split_and!; auto.
  - destruct (delims_split r') as (ds & l2 & -> & Hds & H2). exists (b :: ds), l2.
    rewrite words_word, words_delims by done. split_and!; try done. right. eauto.
Qed.

Lemma mapped_at_cut h p w a q k : mapped_at h q k -> mapped_at (cut h p w a) q k.
Proof.
  intros H i Hi. unfold cut. rewrite lookup_insert. case_decide; [done|]. apply is_Some_put. by apply H.
Qed.

(** One round of extraction up to the end of the word. *)
Lemma extract_step m p w b t i fuel :
  w <> [] -> Forall (fun c => f c = false) w -> chars w -> (f b = true \/ b = 0) ->
  bytes_at (c_bytes m) p (w ++ [b]) -> mapped_at (c_bytes m) (t + 8 * i) 8 ->
  t + 8 * i + 8 <= p \/ p + Z.of_nat (length w) + 1 <= t + 8 * i ->
  let m1 := set_bytes (put (c_bytes m) (t + 8 * i) (le_bytes 8 p)) m in
  extract_tokens (S fuel) f t p i m =
    (if b =? 0 then extract_tokens fuel f t (p + Z.of_nat (length w)) (i + 1) m1 else
      (let! p := scan_bytes (S (size (c_bytes m1))) (fun b => negb (f b)) (p + Z.of_nat (length w) + 1) in
      extract_tokens fuel f t p (i + 1)) (set_bytes (cut (c_bytes m) p w (t + 8 * i)) m)).
Proof.
  intros Hw Hall Hc Hb Hl Hm Hd m1.
  assert (bytes_at (c_bytes m1) p (w ++ [b])) as Hl1.
  { apply bytes_at_put_out; [|done]. rewrite length_le_bytes, length_app. simpl. lia. }
  assert (Forall (fun c => is_nul c || f c = false) w) as Hall'.
  { apply chars_not_nul in Hc. rewrite Forall_forall in *. intros c Hin. by rewrite Hc, Hall. }
  destruct w as [|c w]; [done|]. cbn [extract_tokens]. destruct Hl as [Hp _]. apply Forall_cons in Hc as [Hc _].
  erewrite M_bind_done by (by apply rd8_eq). rewrite (proj2 (Z.eqb_neq _ _)) by lia. unfold wr64.
  erewrite M_bind_done by (apply wrn_eq; by rewrite length_le_bytes). fold m1. unfold str_fuel. unfold M_bind at 1.
  erewrite M_bind_done by (eapply scan_bytes_fuel; [exact Hl1|exact Hall'|]; destruct Hb as [-> | ->]; [apply orb_true_r|done]).
  apply bytes_at_app in Hl1 as [_ [Hb1 _]]. erewrite M_bind_done by (by apply rd8_eq). destruct (b =? 0); [done|].
  by erewrite M_bind_done by (apply wr8_eq; eauto).
Qed.

(** The round when the word is the last, and when delimiters follow. *)
Lemma extract_last m p w t i fuel :
  w <> [] -> Forall (fun c => f c = false) w -> chars w -> bytes_at (c_bytes m) p (w ++ [0]) ->
  mapped_at (c_bytes m) (t + 8 * i) 8 -> t + 8 * i + 8 <= p \/ p + Z.of_nat (length w) + 1 <= t + 8 * i ->
  let h1 := cut (c_bytes m) p w (t + 8 * i) in
  extract_tokens (S fuel) f t p i m = extract_tokens fuel f t (p + Z.of_nat (length w)) (i + 1) (set_bytes h1 m) /\
  bytes_at h1 (p + Z.of_nat (length w)) [0].
Proof.
  intros Hw Hall Hc Hl Hm Hd h1. rewrite (extract_step m p w 0) by auto. rewrite Z.eqb_refl.
  split; [|split; [apply lookup_insert_eq|done]]. unfold h1, cut. rewrite insert_id; [done|].
  apply bytes_at_app in Hl as [_ [Hl _]]. rewrite lookup_put_out; [done|]. rewrite length_le_bytes. lia.
Qed.
Lemma extract_mid m p w b ds l2 t i fuel :
  w <> [] -> Forall (fun c => f c = false) w -> chars w -> f b = true -> Forall (fun b => f b = true) ds -> at_word l2 ->
  bytes_at (c_bytes m) p (w ++ (b :: ds) ++ l2 ++ [0]) ->
  mapped_at (c_bytes m) (t + 8 * i) 8 -> t + 8 * i + 8 <= p \/ p + Z.of_nat (length (w ++ (b :: ds) ++ l2)) + 1 <= t + 8 * i ->
  let h1 := cut (c_bytes m) p w (t + 8 * i) in let p2 := p + Z.of_nat (length (w ++ b :: ds)) in
  extract_tokens (S fuel) f t p i m = extract_tokens fuel f t p2 (i + 1) (set_bytes h1 m) /\ bytes_at h1 p2 (l2 ++ [0]).
Proof.
  intros Hw Hall Hc Hb Hds H2 Hl Hm Hd h1 p2. rewrite !length_app in Hd. cbn [length] in Hd.
  assert (bytes_at h1 (p + Z.of_nat (length w) + 1) (ds ++ l2 ++ [0])) as Hr.
  { apply bytes_at_app in Hl as [_ [_ Hl]]. eapply bytes_at_ext; [|exact Hl].
    intros q Hq. rewrite !length_app in Hq. cbn [length] in Hq. apply cut_out; lia. }
  assert (b <> 0) as Hb0 by congruence. rewrite (extract_step m p w b) by (auto || (by eapply bytes_at_stop) || lia).
  rewrite (proj2 (Z.eqb_neq _ _)) by done. split.
  - pose proof (bytes_at_size _ _ _ Hl) as Hsz. rewrite !length_app in Hsz. cbn [length] in Hsz.
    assert (size (put (c_bytes m) (t + 8 * i) (le_bytes 8 p)) >= size (c_bytes m))%nat as Hs.
    { rewrite <- !size_dom. apply subseteq_size. intros q Hq%elem_of_dom. by apply elem_of_dom, is_Some_put. }
    rewrite set_bytes_bytes. erewrite M_bind_done by (eapply (skip_delims_eq (set_bytes h1 m)); try done; lia).
    f_equal. unfold p2. rewrite length_app. cbn [length]. lia.
  - apply bytes_at_app in Hr as [_ Hr].
    replace p2 with (p + Z.of_nat (length w) + 1 + Z.of_nat (length ds)) by (unfold p2; rewrite length_app; cbn [length]; lia).
    done.
Qed.

Lemma extract_tokens_eq m p l t i fuel :
  bytes_at (c_bytes m) p (l ++ [0]) -> chars l -> at_word l ->
  mapped_at (c_bytes m) (t + 8 * i) (8 * length (words f l)) ->
  t + 8 * i + 8 * Z.of_nat (length (words f l)) <= p \/ p + Z.of_nat (length l) + 1 <= t + 8 * i ->
  (length l < fuel)%nat ->
  exists ptrs h', extract_tokens fuel f t p i m = Done (i + Z.of_nat (length ptrs)) (set_bytes h' m) /\
    extracted (c_bytes m) h' p l (t + 8 * i) ptrs.
Proof.
  revert m p l i. induction fuel as [|fuel IH]; intros m p l i Hl Hc Hat Hm Hd Hfu; [lia|]. destruct Hat as [->|Hst].
  { exists [], (c_bytes m). split; [|apply extracted_nil]. cbn [extract_tokens]. destruct Hl as [Hp _].
    erewrite M_bind_done by (by apply rd8_eq). rewrite Z.add_0_r. by destruct m. }
  destruct (word_split l Hst) as (w & g & l2 & -> & Hw & Hall & Hwords & H2 & Hg).
  set (a := t + 8 * i) in *. set (h1 := cut (c_bytes m) p w a). set (p2 := p + Z.of_nat (length (w ++ g))).
  rewrite <- !app_assoc in Hl. pose proof Hc as [Hcw [_ Hc2]%Forall_app]%Forall_app.
  pose proof (proj1 (proj1 (bytes_at_app _ _ _ _) Hl)) as Hlw. rewrite Hwords in Hm, Hd. cbn [length] in Hm, Hd.
  assert (0 < length w)%nat as Hw0 by (destruct w; [done|simpl; lia]).
  assert (mapped_at (c_bytes m) a 8 /\ mapped_at (c_bytes m) (a + 8) (8 * length (words f l2))) as [Hm1 Hm2].
  { replace (8 * S (length (words f l2)))%nat with (8 + 8 * length (words f l2))%nat in Hm by lia. by apply mapped_at_app in Hm. }
  assert (extract_tokens (S fuel) f t p i m = extract_tokens fuel f t p2 (i + 1) (set_bytes h1 m) /\
          bytes_at h1 p2 (l2 ++ [0])) as [-> Hl2].
  { unfold p2. destruct Hg as [(-> & ->)|(b & ds & -> & Hb & Hds)].
    - rewrite !app_nil_r in *. apply extract_last; try done.
    - apply extract_mid; try done. unfold a in *. lia. }
  rewrite !length_app in Hd, Hfu. replace (a + 8) with (t + 8 * (i + 1)) in * by (unfold a; lia).
  destruct (IH (set_bytes h1 m) p2 l2 (i + 1)) as (ptrs & h' & E & Hex); try done.
  - by apply mapped_at_cut.
  - unfold p2. rewrite length_app. unfold a in *. lia.
  - lia.
  - exists (p :: ptrs), h'. split; [rewrite E; f_equal; cbn [length]; lia|].
    replace (t + 8 * (i + 1)) with (a + 8) in Hex by (unfold a; lia).
    eapply extracted_cons; try done.
    + intros ->. destruct Hg as [(_ & ->)|(? & ? & ? & _)]; [|done]. apply bytes_at_app in Hl as [_ [Hl _]]. done.
    + rewrite Hwords, !length_app. cbn [length]. lia.
Qed.
End Passes.

(** ** The buffer *)
Lemma mapped_bytes h p k : mapped_at h p k -> exists l, length l = k /\ bytes_at h p l.
Proof.
  revert p. induction k as [|k IH]; intros p Hm; [by exists []|]. apply mapped_at_cons in Hm as [[b Hb] Hm].
  destruct (IH _ Hm) as (l & <- & Hl). by exists (b :: l).
Qed.
Lemma bytes_at_prefix h p l1 l2 :
  bytes_at h p l1 -> bytes_at h p l2 -> (length l1 <= length l2)%nat -> exists r, l2 = l1 ++ r.
Proof.
  revert p l2. induction l1 as [|b l1 IH]; intros p [|c l2]; simpl; try lia; [by eauto..|]. intros [H1 Hl1] [H2 Hl2] Hlen.
  destruct (IH (p + 1) l2) as [r ->]; [done..|lia|]. exists r. congruence.
Qed.
Lemma mem_ok_put h p l : mem_ok h -> mapped_at h p (length l) -> Forall byte l -> mem_ok (put h p l).
Proof.
  intros [H1 H2 H3] Hm Hl. assert (forall q, is_Some (put h p l !! q) -> is_Some (h !! q)) as Hd.
  { intros q. rewrite lookup_put. case_decide; [|done]. intros _. replace q with (p + Z.of_nat (Z.to_nat (q - p))) by lia.
    apply Hm. lia. }
  split.
  - intros q b. rewrite lookup_put. case_decide; [|apply H1]. intros Hb. by apply (Forall_lookup_1 _ _ _ _ Hl) in Hb.
  - intros q Hq. by apply H2, Hd.
  - intros q q' Hq E. apply is_Some_put. eapply H3; [by apply Hd|done].
Qed.
Lemma le_word_bytes n z : 0 <= z < 256 ^ Z.of_nat n -> le_word (le_bytes n z) = z.
Proof.
  revert z. induction n as [|n IH]; intros z Hz; [simpl in *; lia|]. cbn [le_bytes le_word].
  rewrite Nat2Z.inj_succ, Z.pow_succ_r in Hz by lia. rewrite IH; [pose proof (Z.div_mod z 256); lia|].
  split; [apply Z.div_pos; lia|apply Z.div_lt_upper_bound; lia].
Qed.
Lemma rd64_eq m p z : bytes_at (c_bytes m) p (le_bytes 8 z) -> 0 <= z < two64 -> rd64 p m = Done z m.
Proof.
  intros Hb Hz. unfold rd64. erewrite M_bind_done by (by apply (rdn_eq m p (le_bytes 8 z))). unfold M_ret.
  by rewrite le_word_bytes.
Qed.

Section Buffer.
Context (f : Z -> bool) (m : cmem) (buf : Z).
Hypothesis Hf0 : f 0 = false.
Hypothesis Hok : mem_ok (c_bytes m).

Lemma trim_leading_eq ds l2 :
  bytes_at (c_bytes m) buf (ds ++ l2 ++ [0]) -> chars l2 -> let p := buf + Z.of_nat (length ds) in
  (if p =? buf then ret! tt else
     let! n := strlen p in
     let! _ := memmove buf p (n + 1) in ret! tt) m = Done tt (set_bytes (put (c_bytes m) buf (l2 ++ [0])) m).
Proof.
  intros Hl Hc p. pose proof Hl as [_ Hl2]%bytes_at_app. destruct (Z.eqb_spec p buf) as [E|E].
  { rewrite put_same; [by destruct m|]. by replace (buf + _) with buf in Hl2. }
  erewrite M_bind_done by (by apply (strlen_eq m p l2)).
  replace (Z.of_nat (length l2) + 1) with (Z.of_nat (length (l2 ++ [0]))) by (rewrite length_app; simpl; lia).
  erewrite M_bind_done; [done|]. apply memmove_eq; [done|]. intros i Hi.
  destruct (lookup_lt_is_Some_2 (ds ++ l2 ++ [0]) i) as [b Hb]; [rewrite !length_app in *; lia|].
  eexists. by eapply bytes_at_lookup.
Qed.

(** After the leading delimiters [ds] have gone, trimming leaves the same words. *)
Lemma trim_eq ds l2 fuel :
  let h := put (c_bytes m) buf (l2 ++ [0]) in
  bytes_at (c_bytes m) buf (ds ++ l2 ++ [0]) -> chars l2 -> at_word f l2 -> (length (ds ++ l2) < fuel)%nat ->
  exists l3 h', trim_trailing fuel f buf (buf + Z.of_nat (length (ds ++ l2)) - 1) (set_bytes h m) = Done tt (set_bytes h' m) /\
    bytes_at h' buf (l3 ++ [0]) /\ chars l3 /\ at_word f l3 /\ words f l3 = words f l2 /\ (length l3 <= length l2)%nat /\
    (forall q, ~ (buf <= q < buf + Z.of_nat (length (ds ++ l2) + 1)) -> h' !! q = c_bytes m !! q) /\
    (forall q, is_Some (c_bytes m !! q) -> is_Some (h' !! q)).
Proof.
  intros h Hl Hc Hat Hfu. set (k := length (ds ++ l2)) in *.
  assert (bytes_at h buf (l2 ++ [0])) as Hh by apply bytes_at_put.
  assert (exists w, length w = k /\ bytes_at h buf w) as (w & Hw & Hwb).
  { apply mapped_bytes, mapped_at_put. intros i Hi. destruct (lookup_lt_is_Some_2 (ds ++ l2 ++ [0]) i) as [b Hb];
      [unfold k in *; rewrite !length_app in *; lia|]. eexists. by eapply bytes_at_lookup. }
  destruct (trim_trailing_eq f (set_bytes h m) buf w fuel Hwb ltac:(lia)) as (l1 & tl & -> & Htl & E). rewrite Hw in E.
  set (h' := put h (buf + Z.of_nat (length l1)) (replicate (length tl) 0)).
  assert (exists l3, bytes_at h' buf (l3 ++ [0]) /\ (l3 = l2 \/ l3 = l1 /\ l2 = l1 ++ tl)) as (l3 & Hl3 & Hcase).
  { destruct ds as [|d ds].
    - destruct (bytes_at_prefix h buf l2 (l1 ++ tl)) as [r Er]; [by apply bytes_at_app in Hh as [? _]|done|by rewrite Hw|].
      assert (r = []) as -> by (apply nil_length_inv; rewrite Er, length_app in Hw; unfold k in Hw; simpl in Hw; lia).
      rewrite app_nil_r in Er. exists l1. split; [|by right]. apply bytes_at_app in Hwb as [Hl1 _]. apply bytes_at_app. split.
      + apply bytes_at_put_out; [lia|done].
      + split; [|done]. destruct tl as [|b tl].
        * rewrite app_nil_r in Er. subst l1. by apply bytes_at_app in Hh as [_ [? _]].
        * exact (proj1 (bytes_at_put h (buf + Z.of_nat (length l1)) (replicate (length (b :: tl)) 0))).
    - destruct (bytes_at_prefix h buf (l2 ++ [0]) (l1 ++ tl)) as [r Er]; [done..| |].
      { rewrite Hw. unfold k. rewrite !length_app. simpl. lia. }
      exists l2. split; [|by left]. apply bytes_at_put_out; [|done]. right. rewrite length_app. cbn [length].
      destruct (decide (length l2 < length l1)%nat) as [|Hge]; [lia|]. exfalso.
      assert ((l1 ++ tl) !! length l2 = Some 0) as H0 by (rewrite Er, <- app_assoc; by apply list_lookup_middle).
      rewrite lookup_app_r in H0 by lia. apply (Forall_lookup_1 _ _ _ _ Htl) in H0. congruence. }
  exists l3, h'. rewrite E. split_and!; try done.
  - destruct Hcase as [->|(-> & ->)]; [done|]. by apply Forall_app in Hc as [? _].
  - destruct Hcase as [->|(-> & ->)]; [done|]. destruct l1 as [|b l1]; [by left|]. destruct Hat as [|Hat]; [done|]. by right.
  - destruct Hcase as [->|(-> & ->)]; [done|]. by rewrite words_trail.
  - destruct Hcase as [->|(-> & ->)]; [done|]. rewrite length_app. lia.
  - intros q Hq. rewrite length_app in Hw. unfold h', h. rewrite !lookup_put_out; [done|..].
    + unfold k in *. rewrite !length_app in *. simpl. lia.
    + rewrite length_replicate. lia.
  - intros q Hq. by apply is_Some_put, is_Some_put.
Qed.
End Buffer.

(** ** The function *)
Lemma interval_disjoint (P : Z -> Prop) a n b k :
  0 < n -> 0 < k -> (forall q, a <= q < a + n -> ~ P q) -> (forall q, b <= q < b + k -> P q) -> a + n <= b \/ b + k <= a.
Proof.
  intros Hn Hk Ha Hb. destruct (decide (a + n <= b)); [by left|]. destruct (decide (b + k <= a)); [by right|].
  exfalso. apply (Ha (Z.max a b)); [lia|]. apply Hb. lia.
Qed.

Section Tokenize.
Context {CA : CAlloc} (f : Z -> bool).
Hypothesis Hf0 : f 0 = false.

(** The memory [m'] after the words of [s] have been found: [tokens] holds the
    pointers [ptrs] and a NULL, [buf] is the buffer they point into. *)
Record tokenized m m' s (buf tokens : Z) (ptrs : list Z) : Prop := {
  tk_words : Forall2 (cstr (c_bytes m')) ptrs (words f s);
  tk_array : bytes_at (c_bytes m') tokens (mjoin (map (le_bytes 8) (ptrs ++ [0])));
  tk_head : ptrs = [] \/ head ptrs = Some buf;
  tk_blocks : exists sz, 8 * (Z.of_nat (length ptrs) + 1) <= sz /\
    c_blocks m' = <[tokens := sz]> (<[buf := Z.of_nat (length s) + 1]> (c_blocks m));
  tk_fresh : c_blocks m !! buf = None /\ c_blocks m !! tokens = None /\ tokens <> buf /\ 0 < buf < two64 /\ 0 < tokens;
  tk_frame : forall q, in_block m q -> c_bytes m' !! q = c_bytes m !! q
}.

Definition tokens_tail (fuel : nat) (buf : Z) : CM (Z * option (Z * Z * Z)) :=
  let! count := count_tokens fuel f buf 0 in
  let! tokens := cmalloc (u64 (u64 (count + 2) * 8)) in
  if tokens =? 0 then do! cfree buf in ret! (- ENOMEM, None) else
  let! n := extract_tokens fuel f tokens buf 0 in
  do! wr64 (tokens + 8 * n) 0 in
  let! last := (if n =? 0 then ret! 0 else rd64 (tokens + 8 * (n - 1))) in
  ret! (0, Some (tokens, n, last)).

Lemma last_pointer m t ptrs :
  bytes_at (c_bytes m) t (mjoin (map (le_bytes 8) (ptrs ++ [0]))) -> Forall (fun q => 0 <= q < two64) ptrs ->
  (if Z.of_nat (length ptrs) =? 0 then ret! 0 else rd64 (t + 8 * (Z.of_nat (length ptrs) - 1))) m = Done (default 0 (last ptrs)) m.
Proof.
  intros Hb Hall. destruct ptrs as [|q ptrs _] using rev_ind; [done|]. rewrite length_app. cbn [length].
  rewrite (proj2 (Z.eqb_neq _ _)) by lia. rewrite last_snoc. cbn [default].
  apply Forall_app in Hall as [_ [Hq _]%Forall_cons]. apply rd64_eq; [|done].
  rewrite <- app_assoc, map_app, join_app in Hb. apply bytes_at_app in Hb as [_ Hb]. rewrite length_array in Hb.
  cbn [app] in Hb. rewrite array_cons in Hb. apply bytes_at_app in Hb as [Hb _].
  by replace (t + 8 * (Z.of_nat (length ptrs + 1) - 1)) with (t + Z.of_nat (8 * length ptrs)) by lia.
Qed.

Lemma tokens_tail_eq m buf l k fuel :
  c_blocks m !! buf = Some k -> bytes_at (c_bytes m) buf (l ++ [0]) -> chars l -> at_word f l ->
  Z.of_nat (length l) < k -> k < 2 ^ 60 -> 0 < buf -> buf + k <= two64 -> (length l < fuel)%nat ->
  exists r m', tokens_tail fuel buf m = Done r m' /\
   ((r = (- ENOMEM, None) /\ c_blocks m' = delete buf (c_blocks m) /\ c_bytes m' = c_bytes m /\ exists n, ca_pick m n = None) \/
    exists tokens ptrs sz, r = (0, Some (tokens, Z.of_nat (length ptrs), default 0 (last ptrs))) /\
      Forall2 (cstr (c_bytes m')) ptrs (words f l) /\
      bytes_at (c_bytes m') tokens (mjoin (map (le_bytes 8) (ptrs ++ [0]))) /\ (ptrs = [] \/ head ptrs = Some buf) /\
      8 * (Z.of_nat (length ptrs) + 1) <= sz /\ c_blocks m' = <[tokens := sz]> (c_blocks m) /\ c_blocks m !! tokens = None /\
      0 < tokens /\ (forall q, in_block m q -> ~ (buf <= q < buf + k) -> c_bytes m' !! q = c_bytes m !! q)).
Proof.
  intros Hbuf Hl Hc Hat Hlk Hk H0 H64 Hfu. unfold tokens_tail. erewrite M_bind_done by (by apply count_tokens_eq).
  pose proof (words_separators f l) as Hsep. set (n := 8 * (Z.of_nat (separators f l) + 2)).
  assert (separators f l <= length l)%nat as Hle.
  { clear. induction l as [|b l IH]; simpl; [lia|]. destruct (f b && starts_word f l); lia. }
  replace (u64 (u64 _ * 8)) with n; [|unfold u64, n; rewrite (Z.mod_small (_ + 2)) by (unfold two64; lia); rewrite Z.mod_small; unfold two64 in *; lia].
  unfold cmalloc at 1. unfold M_bind at 1. destruct (ca_pick m n) as [t|] eqn:Ep; cbv beta iota.
  2: { rewrite Z.eqb_refl. eexists _, _. unfold cfree. rewrite (proj2 (Z.eqb_neq _ _)) by lia.
       unfold M_bind. cbn [c_blocks]. rewrite Hbuf. split; [reflexivity|]. left. eauto. }
  destruct (ca_pick_ok m n t Ep) as (Ht0 & Ht64 & Hfresh & Hblk). rewrite (proj2 (Z.eqb_neq t 0)) by lia.
  assert (length (words f l) + 1 <= separators f l + 2)%nat as Hwl by (rewrite Hsep; destruct (starts_word f l); lia).
  assert (t + n <= buf \/ buf + k <= t) as Hdis.
  { apply (interval_disjoint (in_block m)); [unfold n; lia|lia|by intros q Hq; apply Hblk|intros q Hq; by exists buf, k]. }
  assert (forall i, 0 <= i < n -> is_Some (c_bytes m !! (t + i))) as Hmap by (intros i Hi; apply Hblk; lia).
  set (m1 := mkCmem (c_bytes m) (<[t := n]> (c_blocks m)) (S (c_tick m))).
  destruct (extract_tokens_eq f Hf0 m1 buf l t 0 fuel) as (ptrs & h' & E & Hex); try done.
  { intros i Hi. rewrite Z.mul_0_r, Z.add_0_r. apply Hmap. unfold n. lia. }
  { rewrite Z.mul_0_r, Z.add_0_r. unfold n in *. lia. }
  rewrite Z.mul_0_r, Z.add_0_r, Z.add_0_l in *. destruct Hex as [E1 E2 E3 E4 E5 E6]. cbn [c_bytes m1] in *.
  pose proof (Forall2_length _ _ _ E1) as Hlen. erewrite M_bind_done by exact E. unfold wr64.
  set (m2 := set_bytes (put h' (t + 8 * Z.of_nat (length ptrs)) (le_bytes 8 0)) m1).
  assert (bytes_at (c_bytes m2) t (mjoin (map (le_bytes 8) (ptrs ++ [0])))) as Harr.
  { rewrite map_app, join_app. apply bytes_at_app. rewrite length_array, array_cons. split.
    - apply bytes_at_put_out; [|done]. rewrite length_array. lia.
    - replace (Z.of_nat (8 * length ptrs)) with (8 * Z.of_nat (length ptrs)) by lia.
      cbn [map]. rewrite app_nil_r. apply bytes_at_put. }
  erewrite M_bind_done.
  2: { apply (wrn_eq (set_bytes h' m1)). intros i Hi. rewrite length_le_bytes in Hi. cbn [set_bytes c_bytes]. apply E6.
       rewrite <- Z.add_assoc. apply Hmap. unfold n. lia. }
  change (set_bytes (put (c_bytes (set_bytes h' m1)) (t + 8 * Z.of_nat (length ptrs)) (le_bytes 8 0)) (set_bytes h' m1)) with m2.
  erewrite M_bind_done.
  2: { apply last_pointer; [done|]. eapply Forall2_Forall_l; [exact E4|]. apply Forall_forall. intros w _ q. simpl. lia. }
  eexists _, m2. split; [reflexivity|]. right. exists t, ptrs, n. split_and!; try done.
  - apply Forall2_same_length_lookup_2; [done|]. intros i q w Hiq Hiw.
    destruct (Forall2_lookup_lr _ _ _ _ _ _ E1 Hiq Hiw) as [Hq Hcw]. pose proof (Forall2_lookup_lr _ _ _ _ _ _ E4 Hiq Hiw).
    split; [|done]. apply bytes_at_put_out; [|done]. rewrite length_le_bytes, length_app. simpl.
    unfold n in *. lia.
  - destruct E3 as [->|E3]; [left|by right]. by apply nil_length_inv.
  - unfold n. lia.
  - intros q Hq Hb. cbn [set_bytes c_bytes m2]. rewrite lookup_put_out.
    + apply E5; [lia|]. intros Ht. apply (Hblk q); [|done]. unfold n. lia.
    + rewrite length_le_bytes. intros Ht. apply (Hblk q); [|done]. unfold n. lia.
Qed.

(** What [tokenize] returns, as a relation to the memory before and after. *)
Definition tok_outcome m m' s (r : Z * option (Z * Z * Z)) : Prop :=
  (r = (- ENOMEM, None) /\ c_blocks m' = c_blocks m /\ (forall q, in_block m q -> c_bytes m' !! q = c_bytes m !! q) /\
   exists m1 n, ca_pick m1 n = None) \/
  (exists buf tokens ptrs, r = (0, Some (tokens, Z.of_nat (length ptrs), default 0 (last ptrs))) /\
   tokenized m m' s buf tokens ptrs).
End Tokenize.

Lemma in_block_insert m p n q h t : c_blocks m !! p = None -> in_block m q -> in_block (mkCmem h (<[p := n]> (c_blocks m)) t) q.
Proof. intros Hp (a & k & Ha & Hq). exists a, k. split; [|done]. cbn [c_blocks]. rewrite lookup_insert_ne by congruence. done. Qed.
Lemma schar_0 : schar 0 = 0.
Proof. done. Qed.

Lemma tokenize_spec `{CA : CAlloc} m p s delim :
  mem_ok (c_bytes m) -> cstr (c_bytes m) p s -> 0 < p -> delim <> 0 -> Z.of_nat (length s) + 1 < 2 ^ 60 ->
  (forall q, p <= q <= p + Z.of_nat (length s) -> in_block m q) ->
  exists r m', tokenize p delim true m = Done r m' /\ tok_outcome (fun b => schar b =? delim) m m' s r.
Proof.
  intros Hok [Hl Hc] Hp Hd Hlen Hblk. unfold tokenize. rewrite !(proj2 (Z.eqb_neq _ _)) by lia. cbn [orb negb].
  set (f := fun b => schar b =? delim). assert (f 0 = false) as Hf0 by (apply Z.eqb_neq; rewrite schar_0; lia).
  erewrite M_bind_done by (by apply (strlen_eq m p s)). set (k := Z.of_nat (length s) + 1).
  assert (u64 k = k) as -> by (unfold u64; rewrite Z.mod_small; unfold two64, k; lia).
  unfold cmalloc at 1. unfold M_bind at 1. destruct (ca_pick m k) as [buf|] eqn:Ep; cbv beta iota.
  2: { rewrite Z.eqb_refl. eexists _, _. split; [reflexivity|]. left. split_and!; eauto. }
  destruct (ca_pick_ok m k buf Ep) as (H0 & H64 & Hfresh & Hfree). rewrite (proj2 (Z.eqb_neq _ _)) by lia.
  set (m1 := mkCmem _ _ _).
  assert (buf + k <= p \/ p + k <= buf) as Hdis.
  { apply (interval_disjoint (in_block m)); [lia..|by intros q Hq; apply Hfree|]. intros q Hq. apply Hblk. lia. }
  assert (Z.of_nat (length (s ++ [0])) = k) as Hk by (rewrite length_app; unfold k; simpl; lia).
  assert (mapped_at (c_bytes m1) buf (length (s ++ [0]))) as Hmap by (intros i Hi; apply Hfree; lia).
  replace (memcpy buf p k) with (memcpy buf p (Z.of_nat (length (s ++ [0])))) by (by rewrite Hk).
  erewrite M_bind_done by (apply memcpy_eq; [done|done|unfold up_ok; lia]).
  set (m2 := set_bytes _ m1). unfold str_fuel. unfold M_bind at 1. set (fuel := S (size (c_bytes m2))).
  assert (bytes_at (c_bytes m2) buf (s ++ [0])) as Hl2 by apply bytes_at_put.
  assert (mem_ok (c_bytes m2)) as Hok2.
  { apply mem_ok_put; [done..|]. apply Forall_app. split; [by apply chars_byte|]. constructor; [unfold byte; lia|done]. }
  assert (length s < fuel)%nat as Hfu.
  { pose proof (bytes_at_size _ _ _ Hl2) as H. rewrite length_app in H. cbn [length] in H. unfold fuel. lia. }
  destruct (delims_split f s) as (ds & l2 & Es & Hds & Hat). rewrite Es in Hl2, Hc. rewrite <- app_assoc in Hl2.
  apply Forall_app in Hc as [_ Hc2]. rewrite Es, length_app in Hfu.
  erewrite M_bind_done by (apply (skip_delims_eq f Hf0 m2 buf ds l2); [done..|lia]).
  erewrite M_bind_done by (by apply (trim_leading_eq m2 buf Hok2 ds l2)).
  destruct (trim_eq f m2 buf Hf0 ds l2 fuel) as (l3 & h' & E & Hl3 & Hc3 & Hat3 & Hw & Hle & Hout & Hdom); try done;
    [by rewrite length_app|]. replace (length s) with (length (ds ++ l2)) by (by rewrite Es).
  erewrite M_bind_done by exact E. clear E.
  fold (tokens_tail f fuel buf). set (m3 := set_bytes h' m2).
  assert (Z.of_nat (length l3) < k) as Hl3k by (unfold k; rewrite Es, length_app; lia).
  destruct (tokens_tail_eq f Hf0 m3 buf l3 k fuel) as (r & m' & E & Hr); try done; [apply lookup_insert_eq|lia|].
  assert (words f l3 = words f s) as Hws by (rewrite Hw, Es; by rewrite words_delims).
  assert (forall q, in_block m q -> ~ (buf <= q < buf + k)) as Hnb by (intros q Hq Hr'; by apply (Hfree q)).
  assert (forall q, in_block m q -> c_bytes m3 !! q = c_bytes m !! q) as Hfr3.
  { intros q Hq. specialize (Hnb q Hq). cbn [m3 set_bytes c_bytes].
    rewrite Hout by (rewrite <- Es; unfold k in *; lia). cbn [m2 set_bytes c_bytes]. apply lookup_put_out. rewrite Hk. lia. }
  exists r, m'. split; [exact E|]. destruct Hr as [(-> & Hb & Hbytes & n & Hn)|(t & ptrs & sz & -> & H1 & H2 & H3 & H4 & H5 & H6 & H7 & H8)].
  - left. split_and!; [done| |by intros q Hq; rewrite Hbytes; auto|eauto]. rewrite Hb. by apply delete_insert_id.
  - right. exists buf, t, ptrs. split; [done|]. constructor; auto; fold f.
    + by rewrite <- Hws.
    + exists sz. split; [done|]. by rewrite H5.
    + cbn [m3 m2 m1 set_bytes c_blocks] in H6. apply lookup_insert_None in H6 as [H6 Hne]. split_and!; auto; lia.
    + intros q Hq. rewrite H8; auto. apply in_block_insert; auto.
Qed.
