(* ===== verification/StrProps.v ===== *)
(** * Properties of the string functions

    The claims about lib/string.c and lib/xyther_strings.c, on C strings in byte
    memory, with a concrete memory for each. *)
From S2P Require Import Prelude Errno CMem Str StrWords StrCopy StrSse StrSseFacts StrTok.

Implicit Types (h : gmap Z Z) (l w s t : list Z) (m : cmem).

(** ** Comparing *)

(** The difference at the first position where two strings differ, the end being 0. *)
Fixpoint lex_diff s t : Z :=
  match s, t with
  | a :: s, b :: t => if a =? b then lex_diff s t else a - b
  | a :: _, [] => a
  | [], b :: _ => - b
  | [], [] => 0
  end.

Lemma lex_diff_zero s t : chars s -> chars t -> lex_diff s t = 0 <-> s = t.
Proof.
  intros Hs. revert t. induction Hs as [|a s Ha Hs IH]; intros t Ht; destruct Ht as [|b t Hb Ht]; simpl; try done.
  - split; [simpl in Hb; lia|done].
  - split; [simpl in Ha; lia|done].
  - destruct (Z.eqb_spec a b) as [->|Hne]; [rewrite IH by done; split; congruence|]. split; [lia|congruence].
Qed.

Lemma strcmp_loop_eq m p q s t fuel :
  cstr (c_bytes m) p s -> cstr (c_bytes m) q t -> (length s < fuel)%nat -> strcmp_loop fuel p q m = Done (lex_diff s t) m.
Proof.
  revert p q s t. induction fuel as [|fuel IH]; intros p q s t [Hs Hcs] [Ht Hct] Hf; [lia|]. cbn [strcmp_loop].
  destruct s as [|a s], t as [|b t]; destruct Hs as [Ha Hs], Ht as [Hb Ht];
    erewrite M_bind_done by (by apply rd8_eq); erewrite M_bind_done by (by apply rd8_eq);
    try apply Forall_cons in Hcs as [Hca Hcs]; try apply Forall_cons in Hct as [Hcb Hct]; cbn [lex_diff].
  - done.
  - rewrite (proj2 (Z.eqb_neq _ _)) by lia. done.
  - rewrite (proj2 (Z.eqb_neq a 0)) by lia. cbn [andb]. unfold M_ret. f_equal. lia.
  - rewrite (proj2 (Z.eqb_neq a 0)) by lia. rewrite andb_true_r. destruct (a =? b); [|done].
    apply IH; [by split..|simpl in Hf; lia].
Qed.

Lemma cstr_fuel m p s : cstr (c_bytes m) p s -> (length s < size (c_bytes m))%nat.
Proof. intros [Hs _]. apply bytes_at_size in Hs. rewrite length_app in Hs. cbn [length] in Hs. lia. Qed.

Lemma strcmp_eq m p q s t : cstr (c_bytes m) p s -> cstr (c_bytes m) q t -> strcmp p q m = Done (lex_diff s t) m.
Proof.
  intros Hs Ht. unfold strcmp, str_fuel. unfold M_bind at 1. apply strcmp_loop_eq; [done..|].
  pose proof (cstr_fuel _ _ _ Hs). lia.
Qed.

Lemma string_eq_eq m p q s t :
  mem_ok (c_bytes m) -> cstr (c_bytes m) p s -> cstr (c_bytes m) q t -> string_eq p q m = Done (bool_decide (s = t)) m.
Proof.
  intros Hok Hs Ht. unfold string_eq. erewrite M_bind_done by (by apply (strlen_eq m p s)).
  erewrite M_bind_done by (by apply (strlen_eq m q t)). destruct (Z.eqb_spec (Z.of_nat (length s)) (Z.of_nat (length t))) as [E|E].
  - cbn [negb]. erewrite M_bind_done by (by apply strcmp_eq). unfold M_ret. f_equal.
    destruct Hs as [_ Hs], Ht as [_ Ht]. pose proof (lex_diff_zero s t Hs Ht) as H.
    destruct (Z.eqb_spec (lex_diff s t) 0) as [Ez|Ez]; symmetry; [apply bool_decide_eq_true|apply bool_decide_eq_false]; tauto.
  - cbn [negb]. unfold M_ret. f_equal. symmetry. apply bool_decide_eq_false. congruence.
Qed.

(** ** Releasing tokens *)
Lemma tokens_free_eq f m m' s buf tokens ptrs :
  tokenized f m m' s buf tokens ptrs ->
  exists m2, tokens_free tokens m' = Done tt m2 /\ c_bytes m2 = c_bytes m' /\
    c_blocks m2 = if nonempty ptrs then c_blocks m else <[buf := Z.of_nat (length s) + 1]> (c_blocks m).
Proof.
  intros [H1 H2 H3 (sz & H4 & H5) (F1 & F2 & F3 & F4 & F5) H6]. unfold tokens_free. rewrite (proj2 (Z.eqb_neq _ _)) by lia.
  assert (rd64 tokens m' = Done (default 0 (head ptrs)) m') as E.
  { destruct ptrs as [|q ptrs]; cbn [app] in H2; rewrite array_cons in H2; apply bytes_at_app in H2 as [H2 _];
      apply rd64_eq; try done. destruct H3 as [|H3]; [done|]. injection H3 as ->. simpl. lia. }
  erewrite M_bind_done by exact E. unfold cfree, M_bind. rewrite (proj2 (Z.eqb_neq tokens 0)) by lia.
  destruct ptrs as [|q ptrs].
  - change (default 0 (head (@nil Z))) with 0. rewrite Z.eqb_refl, H5, lookup_insert_eq. eexists. split; [reflexivity|]. split; [done|].
    cbn [c_blocks nonempty]. rewrite delete_insert_id; [done|]. by rewrite lookup_insert_ne.
  - destruct H3 as [|H3]; [done|]. injection H3 as ->. change (default 0 (head (buf :: ptrs))) with buf. rewrite (proj2 (Z.eqb_neq buf 0)) by lia.
    rewrite H5, lookup_insert_ne, lookup_insert_eq by done. cbn [c_blocks].
    rewrite lookup_delete_ne, lookup_insert_eq by done. eexists. split; [reflexivity|]. split; [done|]. cbn [c_blocks nonempty].
    rewrite delete_insert_ne by done. rewrite !delete_insert_id; [done|done|by rewrite delete_insert_id].
Qed.

(** ** Faults of the vector functions *)
Lemma sse_strcmp_equal_block m p q v :
  length v = 16%nat -> bytes_at (c_bytes m) p v -> bytes_at (c_bytes m) q v -> p mod 16 = 0 \/ q mod 16 = 0 ->
  xytherOs_strcmp p q m = sse_strcmp_loop (size (c_bytes m)) (p + 16) (q + 16) m.
Proof.
  intros Hv Hp Hq Hal. unfold xytherOs_strcmp, str_fuel. unfold M_bind at 1.
  assert (sse_strcmp_align 16 p q m = Done (inr (p, q)) m) as E.
  { cbn [sse_strcmp_align]. destruct Hal as [->| ->]; [done|]. by rewrite orb_true_r. }
  erewrite M_bind_done by exact E. cbv beta iota. cbn [sse_strcmp_loop].
  erewrite M_bind_done by (by apply loadu_eq). erewrite M_bind_done by (by apply loadu_eq).
  pose proof (eq_mask_full v v eq_refl) as Hm. rewrite bool_decide_eq_true_2, Hv in Hm by done.
  change (2 ^ Z.of_nat 16 - 1) with 65535 in Hm. rewrite Hm. done.
Qed.

Lemma sse_safestrncpy_short m d p s n :
  mem_ok (c_bytes m) -> cstr (c_bytes m) p s -> p mod 16 = 0 -> (length s < 16)%nat -> 16 <= n < two64 ->
  d + n <= p \/ p + 16 <= d -> (forall i, 0 <= i < n -> is_Some (c_bytes m !! (d + i))) ->
  xytherOs_safestrncpy d p n m = Done d (set_bytes (<[d + (n - 1) := 0]> (put (c_bytes m) d s)) m).
Proof.
  intros Hok [Hl Hc] Hal Hs Hn Hd Hm. unfold xytherOs_safestrncpy. rewrite (proj2 (Z.eqb_neq _ _)) by lia.
  assert (is_Some (c_bytes m !! p)) as Hmap by (destruct s; destruct Hl; eauto).
  destruct (block_bytes _ 16 p Hok Hmap ltac:(auto) Hal) as (v & Hv & Hvb). change (Z.to_nat 16) with 16%nat in Hv.
  destruct (block_split _ _ _ _ _ Hl Hvb) as [[Hle _]|(_ & r & ->)]; [lia|].
  assert (existsb (fun b => b =? 0) (s ++ 0 :: r) = true) as Hex.
  { rewrite existsb_app. cbn [existsb]. by rewrite Z.eqb_refl, orb_true_r. }
  assert (sse_safe_chunks (S (Z.to_nat n)) d p n 0 m = Done (inl (Z.of_nat (length s))) (set_bytes (put (c_bytes m) d s) m)) as E.
  { cbn [sse_safe_chunks]. rewrite Z.sub_0_r. unfold u64. rewrite (Z.mod_small n), (proj2 (Z.ltb_ge _ _)) by lia.
    rewrite !Z.add_0_r. unfold sse_load, mm_load. rewrite Hal, Z.eqb_refl.
    change (rdn 16 p) with (mm_loadu p). erewrite M_bind_done by (by apply loadu_eq). unfold nul_mask, mm_zero.
    rewrite eq_mask_zero, Hex by done. cbn [negb]. rewrite eq_mask_ctz by done.
    rewrite index_of_app by (done || by apply chars_not_nul). apply bytes_at_app in Hl as [Hl _].
    erewrite M_bind_done by (apply memcpy_eq; [done| |unfold up_ok; lia]; intros i Hi; apply Hm; lia). done. }
  erewrite M_bind_done by exact E. erewrite M_bind_done by done. cbv beta iota.
  erewrite M_bind_done by (apply wr8_eq; apply is_Some_put, Hm; lia). done.
Qed.

(** ** Concrete memory *)

(** Whole blocks of 16 bytes from a multiple of 16 on. *)
Lemma mem_ok_blocks p l :
  Forall byte l -> p mod 16 = 0 -> Z.of_nat (length l) mod 16 = 0 -> 0 <= p -> p + Z.of_nat (length l) <= two64 ->
  mem_ok (put ∅ p l).
Proof.
  intros Hl Hp Hn H0 H64.
  assert (forall q, is_Some (put ∅ p l !! q) <-> p <= q < p + Z.of_nat (length l)) as Hd.
  { intros q. rewrite lookup_put. case_decide; [|by rewrite lookup_empty, is_Some_alt]. split; [done|]. intros _.
    apply lookup_lt_is_Some. lia. }
  split.
  - intros q b. rewrite lookup_put. case_decide; [|done]. intros Hb. by apply (Forall_lookup_1 _ _ _ _ Hl) in Hb.
  - intros q Hq. apply Hd in Hq. lia.
  - intros q q' Hq E. apply Hd. apply Hd in Hq. zlia.
Qed.

(** "ab" then bytes 7 at 4096, "ab" then bytes 9 at 4128, 16 bytes of 1 and 2 after each. *)
Definition two_strings : list Z :=
  [97; 98; 0] ++ replicate 13 7 ++ replicate 16 1 ++ [97; 98; 0] ++ replicate 13 7 ++ replicate 16 2.
Definition str_mem : cmem := mkCmem (put ∅ 4096 two_strings) ∅ 0.
Lemma byte_list l : forallb (fun b => (0 <=? b) && (b <? 256)) l = true -> Forall byte l.
Proof. intros H. apply Forall_forall. intros b Hb. rewrite forallb_forall in H. apply list_elem_of_In, H in Hb. unfold byte. lia. Qed.
Lemma str_mem_ok : mem_ok (c_bytes str_mem).
Proof. apply mem_ok_blocks; [by apply byte_list|done..]. Qed.
Lemma str_mem_cstr p : p = 4096 \/ p = 4128 -> cstr (c_bytes str_mem) p [97; 98].
Proof. intros [->| ->]; (split; [vm_compute; by split_and!|]); repeat constructor; lia. Qed.

(** An allocator that tries the addresses of a list and takes the first that fits. *)
Definition covers (m : cmem) (q : Z) : bool :=
  existsb (fun pn => (pn.1 <=? q) && (q <? pn.1 + pn.2)) (map_to_list (c_blocks m)).
Definition fits (m : cmem) (n p : Z) : bool :=
  (0 <? p) && (p + n <=? two64) && negb (bool_decide (is_Some (c_blocks m !! p))) && (n <=? 4096) &&
  forallb (fun q => bool_decide (is_Some (c_bytes m !! q)) && negb (covers m q)) (seqZ p n).
Lemma covers_in_block m q : in_block m q -> covers m q = true.
Proof.
  intros (p & n & Hp & Hq). apply existsb_exists. exists (p, n). split; [|simpl; lia].
  by apply list_elem_of_In, elem_of_map_to_list.
Qed.
Lemma fits_ok m n p :
  fits m n p = true ->
  0 < p /\ p + n <= two64 /\ c_blocks m !! p = None /\ forall q, p <= q < p + n -> is_Some (c_bytes m !! q) /\ ~ in_block m q.
Proof.
  unfold fits. rewrite !andb_true_iff, negb_true_iff, bool_decide_eq_false, forallb_forall.
  intros ((((H1 & H2) & H3) & _) & H5). apply eq_None_not_Some in H3. split_and!; [lia..|done|]. intros q Hq.
  specialize (H5 q). rewrite <- list_elem_of_In, elem_of_seqZ, andb_true_iff, bool_decide_eq_true, negb_true_iff in H5.
  destruct H5 as [Hs Hc]; [lia|]. split; [done|]. intros Hin. apply covers_in_block in Hin. congruence.
Qed.
Definition first_fit (addrs : list Z) (m : cmem) (n : Z) : option Z := List.find (fits m n) addrs.
Lemma first_fit_ok addrs m n p :
  first_fit addrs m n = Some p ->
  0 < p /\ p + n <= two64 /\ c_blocks m !! p = None /\ forall q, p <= q < p + n -> is_Some (c_bytes m !! q) /\ ~ in_block m q.
Proof. intros H. apply List.find_some in H as [_ H]. by apply fits_ok. Qed.
Definition fit_alloc (addrs : list Z) : CAlloc := {| ca_pick := first_fit addrs; ca_pick_ok := first_fit_ok addrs |}.

(** "//ab/c" at 4096 in a block of its own, 64 free bytes from 4112 on. *)
Definition path_mem : cmem := mkCmem (put ∅ 4096 ([47; 47; 97; 98; 47; 99; 0] ++ replicate 73 9)) {[4096 := 7]} 0.
Definition path_alloc : CAlloc := fit_alloc [4112; 4128].
Lemma path_mem_ok : mem_ok (c_bytes path_mem).
Proof. apply mem_ok_blocks; [by apply byte_list|done..]. Qed.
Lemma path_cstr : cstr (c_bytes path_mem) 4096 [47; 47; 97; 98; 47; 99].
Proof. split; [vm_compute; by split_and!|]. repeat constructor; lia. Qed.
Lemma path_block q : 4096 <= q <= 4096 + 6 -> in_block path_mem q.
Proof. intros Hq. exists 4096, 7. split; [done|lia]. Qed.

(** ** Properties *)

(** The word-at-a-time [strlen] and the vector [xytherOs_strlen] are equivalent: on a C string at any
    alignment both return its length, change nothing, and read no unmapped byte, although both
    read whole blocks past the NUL. *)
Theorem strlen_equiv m p s :
  mem_ok (c_bytes m) -> cstr (c_bytes m) p s ->
  strlen p m = Done (Z.of_nat (length s)) m /\ xytherOs_strlen p m = Done (Z.of_nat (length s)) m.
Proof. intros Hok Hs. split; [by apply strlen_eq|by apply xytherOs_strlen_eq]. Qed.

Lemma strlen_equiv_witness : strlen 4128 str_mem = Done 2 str_mem /\ xytherOs_strlen 4128 str_mem = Done 2 str_mem.
Proof. exact (strlen_equiv str_mem 4128 [97; 98] str_mem_ok (str_mem_cstr 4128 (or_intror eq_refl))). Defined.

(** C33: [memmove] and [xytherOs_memmove] are equivalent: whatever the overlap and the alignment of the two
    regions, both leave at the destination the bytes the source had, and change no other byte. *)
Theorem memmove_equiv m d p l :
  bytes_at (c_bytes m) p l -> mapped_at (c_bytes m) d (length l) ->
  let m' := set_bytes (put (c_bytes m) d l) m in
  memmove d p (Z.of_nat (length l)) m = Done d m' /\ xytherOs_memmove d p (Z.of_nat (length l)) m = Done d m'.
Proof. intros Hl Hm m'. split; [by apply memmove_eq|by apply xytherOs_memmove_eq]. Qed.

Lemma memmove_equiv_witness :
  let l := take 40 two_strings in let m' := set_bytes (put (c_bytes str_mem) 4099 l) str_mem in
  memmove 4099 4096 40 str_mem = Done 4099 m' /\ xytherOs_memmove 4099 4096 40 str_mem = Done 4099 m'.
Proof.
  apply (memmove_equiv str_mem 4099 4096 (take 40 two_strings)).
  - vm_compute. by split_and!.
  - intros i Hi. unfold str_mem. cbn [c_bytes]. rewrite lookup_put.
    assert (i < 40)%nat by exact Hi. rewrite decide_True by (change (length two_strings) with 64%nat; lia).
    apply lookup_lt_is_Some. change (length two_strings) with 64%nat. lia.
Defined.

(** [strchr] returns the first position that holds the character, the position of the NUL when the
    character is NUL, and NULL when it does not occur; [strchrnul] returns the end instead of NULL. *)
Theorem strchr_first m p s c :
  mem_ok (c_bytes m) -> cstr (c_bytes m) p s ->
  let i := index_of (fun b => b =? u8 c) s in
  strchrnul p c m = Done (p + Z.of_nat i) m /\
  strchr p c m = Done (if (u8 c =? 0) || (i <? length s)%nat then p + Z.of_nat i else 0) m.
Proof. intros Hok Hs i. split; [by apply strchrnul_eq|by apply (strchr_eq m p s)]. Qed.

Lemma strchr_first_witness : strchrnul 4128 98 str_mem = Done 4129 str_mem /\ strchr 4128 98 str_mem = Done 4129 str_mem.
Proof. exact (strchr_first str_mem 4128 [97; 98] 98 str_mem_ok (str_mem_cstr 4128 (or_intror eq_refl))). Defined.

(** [strcmp] returns the difference of the first bytes that differ as unsigned bytes, the end counting
    as 0, and [string_eq] decides equality of the two strings. *)
Theorem string_eq_decides m p q s t :
  mem_ok (c_bytes m) -> cstr (c_bytes m) p s -> cstr (c_bytes m) q t ->
  strcmp p q m = Done (lex_diff s t) m /\ string_eq p q m = Done (bool_decide (s = t)) m.
Proof. intros Hok Hs Ht. split; [by apply strcmp_eq|by apply string_eq_eq]. Qed.

Lemma string_eq_decides_witness : strcmp 4096 4128 str_mem = Done 0 str_mem /\ string_eq 4096 4128 str_mem = Done true str_mem.
Proof.
  exact (string_eq_decides str_mem 4096 4128 [97; 98] [97; 98] str_mem_ok (str_mem_cstr 4096 (or_introl eq_refl))
    (str_mem_cstr 4128 (or_intror eq_refl))).
Defined.



(** [tokens_free] gives back both blocks of [tokenize] exactly when the string has a word; when it has
    none the array is freed and the buffer is leaked. *)
Theorem tokens_free_returns (CA : CAlloc) m p s delim tokens n last_ m' :
  mem_ok (c_bytes m) -> cstr (c_bytes m) p s -> 0 < p -> delim <> 0 -> Z.of_nat (length s) + 1 < 2 ^ 60 ->
  (forall q, p <= q <= p + Z.of_nat (length s) -> in_block m q) ->
  tokenize p delim true m = Done (0, Some (tokens, n, last_)) m' ->
  exists m2, tokens_free tokens m' = Done tt m2 /\
    (words (fun b => schar b =? delim) s <> [] -> c_blocks m2 = c_blocks m) /\
    (words (fun b => schar b =? delim) s = [] ->
     exists buf, c_blocks m !! buf = None /\ c_blocks m2 = <[buf := Z.of_nat (length s) + 1]> (c_blocks m)).
Proof.
  intros Hok Hs Hp Hd Hlen Hblk E. destruct (tokenize_spec m p s delim) as (r & m1 & E' & Hout); try done.
  rewrite E in E'. injection E' as <- <-. destruct Hout as [(? & _)|(buf & t & ptrs & [= -> -> ->] & Htok)]; [done|].
  destruct (tokens_free_eq _ _ _ _ _ _ _ Htok) as (m2 & E2 & _ & Hb). exists m2. split; [done|].
  pose proof (Forall2_length _ _ _ (tk_words _ _ _ _ _ _ _ Htok)) as Hl.
  split; intros Hw; (destruct ptrs as [|q ptrs]; simpl in Hb).
  - destruct (words _ s); done.
  - done.
  - exists buf. by destruct (tk_fresh _ _ _ _ _ _ _ Htok).
  - by rewrite Hw in Hl.
Qed.

Definition path_after : cmem :=
  match @tokenize path_alloc 4096 47 true path_mem with
  | Done _ m => m
  | _ => path_mem
  end.
Lemma tokens_free_returns_witness :
  exists m2, tokens_free 4128 path_after = Done tt m2 /\
    (words (fun b => schar b =? 47) [47; 47; 97; 98; 47; 99] <> [] -> c_blocks m2 = c_blocks path_mem) /\
    (words (fun b => schar b =? 47) [47; 47; 97; 98; 47; 99] = [] ->
     exists buf, c_blocks path_mem !! buf = None /\ c_blocks m2 = <[buf := 7]> (c_blocks path_mem)).
Proof.
  refine (tokens_free_returns path_alloc path_mem 4096 [47; 47; 97; 98; 47; 99] 47 4128 2 4115 path_after path_mem_ok path_cstr
    _ _ _ path_block _); try (simpl; lia). vm_compute. reflexivity.
Defined.

(** [xytherOs_strcmp] does not stop at the NUL: two strings whose 16-byte blocks are equal, the bytes
    after the NUL included, are compared by what follows the blocks, even when the strings have
    ended and are equal. *)
Theorem sse_strcmp_past_nul m p q v :
  length v = 16%nat -> bytes_at (c_bytes m) p v -> bytes_at (c_bytes m) q v -> p mod 16 = 0 \/ q mod 16 = 0 ->
  xytherOs_strcmp p q m = sse_strcmp_loop (size (c_bytes m)) (p + 16) (q + 16) m.
Proof. apply sse_strcmp_equal_block. Qed.

(** "ab" is equal to "ab" for [string_eq] and not for [xytherOs_string_eq]. *)
Lemma sse_strcmp_past_nul_witness :
  xytherOs_strcmp 4096 4128 str_mem = sse_strcmp_loop 64 4112 4144 str_mem /\
  sse_strcmp_loop 64 4112 4144 str_mem = Done (-1) str_mem /\
  string_eq 4096 4128 str_mem = Done true str_mem /\ xytherOs_string_eq 4096 4128 str_mem = Done false str_mem.
Proof.
  split; [|split_and!; vm_compute; reflexivity].
  assert (size (c_bytes str_mem) = 64%nat) as <- by (vm_compute; reflexivity).
  apply (sse_strcmp_past_nul str_mem 4096 4128 ([97; 98; 0] ++ replicate 13 7)); [done|vm_compute; by split_and!..|by left].
Defined.

(** [xytherOs_safestrncpy] of an aligned string shorter than 16 bytes into at least 16 bytes copies its
    bytes and writes a single NUL, in the last byte of the destination: the byte after the copy keeps
    what it held. *)
Theorem safestrncpy_no_terminator m d p s n :
  mem_ok (c_bytes m) -> cstr (c_bytes m) p s -> p mod 16 = 0 -> (length s < 16)%nat -> 16 <= n < two64 ->
  d + n <= p \/ p + 16 <= d -> (forall i, 0 <= i < n -> is_Some (c_bytes m !! (d + i))) ->
  exists m', xytherOs_safestrncpy d p n m = Done d m' /\ bytes_at (c_bytes m') d s /\
    forall i, Z.of_nat (length s) <= i < n - 1 -> c_bytes m' !! (d + i) = c_bytes m !! (d + i).
Proof.
  intros Hok Hs Hal Hlen Hn Hd Hm. eexists. split; [by apply sse_safestrncpy_short|]. cbn [set_bytes c_bytes]. split.
  - eapply bytes_at_ext; [|apply bytes_at_put]. intros q Hq. apply lookup_insert_ne. lia.
  - intros i Hi. rewrite lookup_insert_ne by lia. apply lookup_put_out. lia.
Qed.

Lemma safestrncpy_no_terminator_witness :
  (exists m', xytherOs_safestrncpy 4112 4096 16 str_mem = Done 4112 m' /\ bytes_at (c_bytes m') 4112 [97; 98] /\
    forall i, Z.of_nat 2 <= i < 16 - 1 -> c_bytes m' !! (4112 + i) = c_bytes str_mem !! (4112 + i)) /\
  c_bytes str_mem !! 4114 = Some 1.
Proof.
  split; [|done].
  apply (safestrncpy_no_terminator str_mem 4112 4096 [97; 98] 16 str_mem_ok (str_mem_cstr 4096 (or_introl eq_refl)));
    [done|simpl; lia|unfold two64; lia|right; lia|].
  intros i Hi. unfold str_mem. cbn [c_bytes]. rewrite lookup_put. change (length two_strings) with 64%nat.
  rewrite decide_True by lia. apply lookup_lt_is_Some. change (length two_strings) with 64%nat. lia.
Defined.
