(* ===== verification/Wait.v ===== *)
(** * Waiting and waking (sys/sched/sched.c, sys/thread/thread_sleep.c)

    Threads that share an object guarded by spinlocks and sleep on its wait queues.
    The code of the operations in sync/ is a list of commands, one per statement; a
    system is the shared object, the owner of each spinlock, the wait queues (the
    embedded queues of the kernel, here as the lists they represent) and the threads.
    One step of a thread is one command.  [sched_wait_whence] holds the locks of the
    queue and of the thread from the test for interruption until the thread is
    switched out, and a waker needs both, so going to sleep is one step, and being
    scheduled again and taking the spinlock back is another. *)
From S2P Require Import Prelude Errno Queue.

Definition tid : Type := nat.

Inductive wakeup_t := WAKEUP_NONE | WAKEUP_NORMAL | WAKEUP_SIGNAL | WAKEUP_TIMEOUT | WAKEUP_ERROR.
#[export] Instance wakeup_eq_dec : EqDecision wakeup_t.
Proof. solve_decision. Defined.

Definition validate_wakeup_reason (reason : wakeup_t) : bool :=
  match reason with
  | WAKEUP_NORMAL | WAKEUP_SIGNAL | WAKEUP_TIMEOUT => true
  | _ => false
  end.
Definition wakeup_interrupt (reason : wakeup_t) : bool :=
  match reason with
  | WAKEUP_SIGNAL | WAKEUP_TIMEOUT => true
  | _ => false
  end.

(** The local variables of an operation: the last error, the result, a counter, and
    the reason of the last wakeup. *)
Record regs := mkRegs { r_err : Z; r_ret : Z; r_cnt : Z; r_why : wakeup_t }.
Definition regs0 : regs := mkRegs 0 0 0 WAKEUP_NONE.
Definition set_err (e : Z) (r : regs) : regs := mkRegs e (r_ret r) (r_cnt r) (r_why r).
Definition set_ret (v : Z) (r : regs) : regs := mkRegs (r_err r) v (r_cnt r) (r_why r).
Definition set_cnt (v : Z) (r : regs) : regs := mkRegs (r_err r) (r_ret r) v (r_why r).
Definition set_why (e : Z) (w : wakeup_t) (r : regs) : regs := mkRegs e (r_ret r) (r_cnt r) w.

Section Machine.
Context {S : Type}.

(** What an expression of the code can read: the thread itself ([current]), the
    lengths of the wait queues, its locals and the object. *)
Record view := mkView { v_self : tid; v_len : nat -> nat; v_regs : regs; v_obj : S }.

Inductive cmd :=
  | SpinLock (l : nat)
  | SpinUnlock (l : nat)
  | Do (f : view -> regs * S)
  | If (b : view -> bool) (c1 c2 : list cmd)
  | While (b : view -> bool) (c : list cmd)
  | Assert (b : view -> bool)
  | Wait (q : nat) (whence : Z) (l : option nat)
  | Resume (l : option nat)
  | Wakeup (q : nat) (reason : wakeup_t) (whence : Z)
  | WakeupAll (q : nat) (reason : wakeup_t)
  | Return.

Record thread := mkThread {
  t_asleep : bool;
  t_wakeup : wakeup_t;
  t_canceled : bool;
  t_wait_queue : option nat;
  t_code : list cmd;
  t_regs : regs
}.
Record sys := mkSys {
  sy_obj : S;
  sy_locks : gmap nat tid;
  sy_queues : gmap nat (list tid);
  sy_threads : gmap tid thread;
  sy_panic : bool
}.

Definition queue_of (s : sys) (q : nat) : list tid := default [] (sy_queues s !! q).
Definition qlen (s : sys) (q : nat) : nat := length (queue_of s q).
Definition code_of (s : sys) (t : tid) : list cmd := from_option t_code [] (sy_threads s !! t).

Definition with_obj (o : S) (s : sys) : sys := mkSys o (sy_locks s) (sy_queues s) (sy_threads s) (sy_panic s).
Definition with_locks (l : gmap nat tid) (s : sys) : sys := mkSys (sy_obj s) l (sy_queues s) (sy_threads s) (sy_panic s).
Definition with_queue (q : nat) (l : list tid) (s : sys) : sys :=
  mkSys (sy_obj s) (sy_locks s) (<[q := l]> (sy_queues s)) (sy_threads s) (sy_panic s).
Definition with_thread (t : tid) (th : thread) (s : sys) : sys :=
  mkSys (sy_obj s) (sy_locks s) (sy_queues s) (<[t := th]> (sy_threads s)) (sy_panic s).
Definition panicked (s : sys) : sys := mkSys (sy_obj s) (sy_locks s) (sy_queues s) (sy_threads s) true.

(** ** Waking threads *)

(** The error, the reason and the thread with [t_wakeup] consumed. *)
Definition current_check_interrupted (th : thread) : Z * wakeup_t * thread :=
  let reason := t_wakeup th in
  let th := mkThread (t_asleep th) WAKEUP_NONE (t_canceled th) (t_wait_queue th) (t_code th) (t_regs th) in
  let err := if t_canceled th || wakeup_interrupt reason
             then (if decide (reason = WAKEUP_TIMEOUT) then - ETIMEDOUT else - EINTR) else 0 in
  (err, reason, th).

(** [t_asleep] stands for [T_SLEEP]; [thread_schedule] makes the thread ready. *)
Definition sched_wake_thread (t : tid) (reason : wakeup_t) (s : sys) : Z * sys :=
  match sy_threads s !! t with
  | None => (- EINVAL, s)
  | Some th =>
      if negb (validate_wakeup_reason reason) then (- EINVAL, s) else
      if negb (t_asleep th) then (- EINVAL, s) else
      (0, with_thread t (mkThread false reason (t_canceled th) (t_wait_queue th) (t_code th) (t_regs th)) s)
  end.

Definition clear_wait_queue (t : tid) (s : sys) : sys :=
  match sy_threads s !! t with
  | Some th => with_thread t (mkThread (t_asleep th) (t_wakeup th) (t_canceled th) None (t_code th) (t_regs th)) s
  | None => s
  end.

(** The thread leaves the queue before it is woken.  [embedded_queue_detach] of a
    thread that is not in the queue would corrupt its count. *)
Definition sched_detach_and_wakeup (q : nat) (t : tid) (reason : wakeup_t) (s : sys) : Z * sys :=
  if decide (t ∈ queue_of s q) then
    let '(err, s) := sched_wake_thread t reason (with_queue q (filter (fun u => u <> t) (queue_of s q)) s) in
    if negb (err =? 0) then (err, s) else (0, clear_wait_queue t s)
  else (0, panicked s).

(** [foreach_thread_reverse] starts at the head of the queue, as [foreach_thread]
    does, so both cases wake the first thread. *)
Definition sched_wakeup_whence (q : nat) (reason : wakeup_t) (whence : Z) (s : sys) : Z * sys :=
  if bad_whence whence then (- EINVAL, s) else
  match head (queue_of s q) with
  | Some t => sched_detach_and_wakeup q t reason s
  | None => (- ESRCH, s)
  end.

(** [queue_foreach_entry], over the threads that were waiting: the error, the number woken. *)
Fixpoint wakeup_loop (q : nat) (reason : wakeup_t) (ts : list tid) (count : Z) (s : sys) : Z * Z * sys :=
  match ts with
  | [] => (if 0 <? count then 0 else - ESRCH, count, s)
  | t :: ts =>
      let '(err, s) := sched_detach_and_wakeup q t reason s in
      if negb (err =? 0) then (err, count, s) else wakeup_loop q reason ts (count + 1) s
  end.
Definition sched_wakeup_all (q : nat) (reason : wakeup_t) (s : sys) : Z * Z * sys :=
  wakeup_loop q reason (queue_of s q) 0 s.

Definition sched_wakeup_specific (q : nat) (reason : wakeup_t) (t : tid) (s : sys) : Z * sys :=
  if Z.of_nat t <=? 0 then (- EINVAL, s) else
  if decide (t ∈ queue_of s q) then sched_detach_and_wakeup q t reason s else (- ESRCH, s).

(** [thread_wakeup], of a signal or a timer. *)
Definition thread_wakeup (t : tid) (reason : wakeup_t) (s : sys) : Z * sys :=
  match sy_threads s !! t with
  | None => (- EINVAL, s)
  | Some th =>
      if negb (validate_wakeup_reason reason) then (- EINVAL, s) else
      if negb (t_asleep th) then (0, s) else
      match t_wait_queue th with
      | Some q => sched_detach_and_wakeup q t reason s
      | None => sched_wake_thread t reason s
      end
  end.

(** ** Going to sleep *)

(** [sched_wait_whence] up to [sched()]: a pending interruption is answered at once;
    otherwise the thread queues up, gives the spinlock back and sleeps. *)
Definition sched_wait_whence (t : tid) (q : nat) (whence : Z) (l : option nat) (k : list cmd) (th : thread) (s : sys) : sys :=
  let '(err, why, th) := current_check_interrupted th in
  let again := (fun e => with_thread t (mkThread false (t_wakeup th) (t_canceled th) (t_wait_queue th) k (set_why e why (t_regs th))) s) in
  if negb (err =? 0) then again err else
  if decide (t ∈ queue_of s q) then again (- EEXIST) else
  if bad_whence whence then again (- EINVAL) else
  let s := with_queue q (if whence =? QUEUE_HEAD then t :: queue_of s q else queue_of s q ++ [t]) s in
  let s := with_thread t (mkThread true (t_wakeup th) (t_canceled th) (Some q) (Resume l :: k) (t_regs th)) s in
  match l with
  | None => s
  | Some l => if decide (sy_locks s !! l = Some t) then with_locks (delete l (sy_locks s)) s else panicked s
  end.

(** After [sched()]: the spinlock again, then the test for interruption. *)
Definition sched_resume (t : tid) (l : option nat) (k : list cmd) (th : thread) (s : sys) : option sys :=
  let '(err, why, th) := current_check_interrupted th in
  let go := with_thread t (mkThread false (t_wakeup th) (t_canceled th) (t_wait_queue th) k (set_why err why (t_regs th))) in
  match l with
  | None => Some (go s)
  | Some l =>
      match sy_locks s !! l with
      | None => Some (with_locks (<[l := t]> (sy_locks s)) (go s))
      | Some u => if decide (u = t) then Some (panicked s) else None
      end
  end.

(** ** Steps *)

(** Thread [t], whose record is [th], executes [c] and goes on with [k]. *)
Definition exec_cmd (t : tid) (c : cmd) (k : list cmd) (th : thread) (s : sys) : option sys :=
  let v := mkView t (qlen s) (t_regs th) (sy_obj s) in
  let go := (fun k r => with_thread t (mkThread false (t_wakeup th) (t_canceled th) (t_wait_queue th) k r)) in
  match c with
  | SpinLock l =>
      match sy_locks s !! l with
      | None => Some (with_locks (<[l := t]> (sy_locks s)) (go k (t_regs th) s))
      | Some u => if decide (u = t) then Some (panicked s) else None
      end
  | SpinUnlock l =>
      if decide (sy_locks s !! l = Some t)
      then Some (with_locks (delete l (sy_locks s)) (go k (t_regs th) s)) else Some (panicked s)
  | Do f => let '(r, o) := f v in Some (with_obj o (go k r s))
  | If b c1 c2 => Some (go ((if b v then c1 else c2) ++ k) (t_regs th) s)
  | While b body => Some (go (if b v then body ++ While b body :: k else k) (t_regs th) s)
  | Assert b => if b v then Some (go k (t_regs th) s) else Some (panicked s)
  | Wait q whence l => Some (sched_wait_whence t q whence l k th s)
  | Resume l => sched_resume t l k th s
  | Wakeup q reason whence =>
      let '(err, s) := sched_wakeup_whence q reason whence s in
      Some (go k (set_err err (t_regs th)) s)
  | WakeupAll q reason =>
      let '(err, n, s) := sched_wakeup_all q reason s in
      Some (go k (set_cnt n (set_err err (t_regs th))) s)
  | Return => Some (go [] (t_regs th) s)
  end.

Definition step_thread (t : tid) (s : sys) : option sys :=
  match sy_threads s !! t with
  | None => None
  | Some th =>
      if t_asleep th || sy_panic s then None else
      match t_code th with
      | [] => None
      | c :: k => exec_cmd t c k th s
      end
  end.

(** What can happen next: a thread runs, starts an operation, is hit by a signal or
    a timer while it sleeps, or is cancelled. *)
Inductive event :=
  | Run (t : tid)
  | Call (t : tid) (c : list cmd)
  | Interrupt (t : tid) (reason : wakeup_t)
  | Cancel (t : tid).

Definition happens (e : event) (s : sys) : option sys :=
  match e with
  | Run t => step_thread t s
  | Call t c =>
      match sy_threads s !! t with
      | Some th =>
          match t_code th with
          | [] => Some (with_thread t (mkThread (t_asleep th) (t_wakeup th) (t_canceled th) (t_wait_queue th) c regs0) s)
          | _ => None
          end
      | None => None
      end
  | Interrupt t reason => if wakeup_interrupt reason then Some (thread_wakeup t reason s).2 else None
  | Cancel t =>
      match sy_threads s !! t with
      | Some th => Some (with_thread t (mkThread (t_asleep th) (t_wakeup th) true (t_wait_queue th) (t_code th) (t_regs th)) s)
      | None => None
      end
  end.

Fixpoint runs (es : list event) (s : sys) : option sys :=
  match es with
  | [] => Some s
  | e :: es => match happens e s with Some s => runs es s | None => None end
  end.

(** Executions in which every event satisfies [ok] in the state where it happens. *)
Inductive reaches (ok : event -> sys -> Prop) : sys -> sys -> Prop :=
  | reaches_refl s : reaches ok s s
  | reaches_step s e s' s'' : ok e s -> happens e s = Some s' -> reaches ok s' s'' -> reaches ok s s''.
End Machine.
Arguments cmd : clear implicits.
Arguments view : clear implicits.
Arguments thread : clear implicits.
Arguments sys : clear implicits.
Arguments event : clear implicits.

Definition idle_thread {S} : thread S := mkThread false WAKEUP_NONE false None [] regs0.
(** Threads [0 .. n-1], none of them in an operation. *)
Definition sys_init {S} (o : S) (n : nat) : sys S :=
  mkSys o ∅ ∅ (list_to_map (map (fun t => (t, idle_thread)) (seq 0 n))) false.
