(* ===== verification/WaitFacts.v ===== *)
(** * Facts about waiting and waking

    The wait-queue invariant: a thread is on a wait queue exactly when it sleeps and
    [t_wait_queue] names that queue.  Every step of code that wakes threads for a
    valid reason keeps it, whatever signals, timeouts and cancellations happen. *)
From S2P Require Import Prelude Errno Queue Wait.

Section Facts.
Context {S : Type}.
Implicit Types (s : sys S) (th : thread S) (t u : tid).

Definition sleeps_on s t (q : nat) : Prop :=
  exists th, sy_threads s !! t = Some th /\ t_asleep th = true /\ t_wait_queue th = Some q.

Record wq_ok s : Prop := {
  wq_nodup : forall q, NoDup (queue_of s q);
  wq_member : forall q t, t ∈ queue_of s q <-> sleeps_on s t q;
  wq_asleep : forall t th, sy_threads s !! t = Some th -> t_asleep th = true -> is_Some (t_wait_queue th)
}.

(** What waking threads leaves as it is. *)
Record wake_frame s s' : Prop := {
  wf_obj : sy_obj s' = sy_obj s;
  wf_locks : sy_locks s' = sy_locks s;
  wf_panic : sy_panic s' = sy_panic s;
  wf_code : forall t, code_of s' t = code_of s t;
  wf_dom : dom (sy_threads s') = dom (sy_threads s);
  wf_awake : forall t th, sy_threads s !! t = Some th -> t_asleep th = false -> sy_threads s' !! t = Some th
}.
Lemma wake_frame_refl s : wake_frame s s.
Proof. done. Qed.
Lemma wake_frame_trans s1 s2 s3 : wake_frame s1 s2 -> wake_frame s2 s3 -> wake_frame s1 s3.
Proof. intros [] []. split; try congruence. auto. Qed.

Lemma queue_of_with s q l q' : queue_of (with_queue q l s) q' = if decide (q' = q) then l else queue_of s q'.
Proof.
  unfold queue_of, with_queue. cbn [sy_queues]. destruct (decide (q' = q)) as [->|Hne]; [by rewrite lookup_insert_eq|].
  by rewrite lookup_insert_ne.
Qed.
Lemma code_of_with s t th u : code_of (with_thread t th s) u = if decide (u = t) then t_code th else code_of s u.
Proof.
  unfold code_of, with_thread. cbn [sy_threads]. destruct (decide (u = t)) as [->|Hne]; [by rewrite lookup_insert_eq|].
  by rewrite lookup_insert_ne.
Qed.
Lemma threads_with s t th u :
  sy_threads (with_thread t th s) !! u = if decide (u = t) then Some th else sy_threads s !! u.
Proof.
  unfold with_thread. cbn [sy_threads]. destruct (decide (u = t)) as [->|Hne]; [by rewrite lookup_insert_eq|].
  by rewrite lookup_insert_ne.
Qed.

Definition roused (reason : wakeup_t) th : thread S :=
  mkThread false reason (t_canceled th) None (t_code th) (t_regs th).
Definition woken (q : nat) t (reason : wakeup_t) th s : sys S :=
  with_thread t (roused reason th) (with_queue q (filter (fun u => u <> t) (queue_of s q)) s).

Lemma detach_eq s q t reason :
  wq_ok s -> t ∈ queue_of s q -> validate_wakeup_reason reason = true ->
  exists th, sy_threads s !! t = Some th /\ t_asleep th = true /\ sched_detach_and_wakeup q t reason s = (0, woken q t reason th s).
Proof.
  intros Hok Hin Hr. destruct (proj1 (wq_member _ Hok q t) Hin) as (th & Hth & Ha & _). exists th. split_and!; [done..|].
  unfold sched_detach_and_wakeup. rewrite decide_True by done. unfold sched_wake_thread.
  change (sy_threads (with_queue q (filter (fun u => u <> t) (queue_of s q)) s)) with (sy_threads s). rewrite Hth, Hr, Ha. cbn.
  unfold clear_wait_queue. rewrite threads_with, decide_True by done. unfold woken, with_thread. cbn. f_equal. f_equal.
  by rewrite insert_insert_eq.
Qed.

Lemma woken_frame s q t reason th : sy_threads s !! t = Some th -> t_asleep th = true -> wake_frame s (woken q t reason th s).
Proof.
  intros Hth Ha. split; try done.
  - intros u. unfold woken. rewrite code_of_with. case_decide as E; [|done]. subst u. unfold code_of. by rewrite Hth.
  - unfold woken. cbn. apply dom_insert_lookup_L. by eexists.
  - intros u x Hx Hxa. unfold woken. rewrite threads_with. case_decide; [congruence|done].
Qed.

Lemma woken_ok s q t reason th : wq_ok s -> t ∈ queue_of s q -> sy_threads s !! t = Some th -> wq_ok (woken q t reason th s).
Proof.
  intros [H1 H2 H3] Hin Hth. unfold woken. set (s1 := with_queue q _ s).
  assert (forall q' u, u ∈ queue_of s1 q' <-> u ∈ queue_of s q' /\ (q' = q -> u <> t)) as Hq.
  { intros q' u. unfold s1. rewrite queue_of_with. case_decide as E; [subst q'; rewrite list_elem_of_filter; tauto|]. tauto. }
  split.
  - intros q'. change (NoDup (queue_of s1 q')). unfold s1. rewrite queue_of_with. case_decide; [by apply NoDup_filter|done].
  - intros q' u. change (queue_of (with_thread t (roused reason th) s1) q') with (queue_of s1 q'). rewrite Hq, H2. unfold sleeps_on.
    rewrite threads_with. change (sy_threads s1) with (sy_threads s). destruct (decide (u = t)) as [->|Hne].
    + split.
      * intros [(th' & Hth' & Ha & Hw) Hn]. destruct (decide (q' = q)) as [->|Hne]; [by destruct (Hn eq_refl)|].
        apply H2 in Hin as (th2 & Hth2 & _ & Hw2). congruence.
      * intros (? & [= <-] & ? & _). done.
    + split; [intros [? _]; done|]. intros ?. split; [done|]. intros _. done.
  - intros u th'. rewrite threads_with. case_decide; [intros [= <-]; done|]. apply H3.
Qed.

Lemma filter_all (P : tid -> Prop) `{forall x, Decision (P x)} (l : list tid) : (forall x, x ∈ l -> P x) -> filter P l = l.
Proof.
  induction l as [|x l IH]; intros HP; [done|]. rewrite filter_cons_True by (apply HP; left). f_equal. apply IH.
  intros y Hy. apply HP. by right.
Qed.

(** Waking the first thread, one thread after an interruption, or all of them. *)
Lemma wakeup_whence_ok s q reason whence err s' :
  wq_ok s -> validate_wakeup_reason reason = true -> sched_wakeup_whence q reason whence s = (err, s') ->
  wq_ok s' /\ wake_frame s s' /\
  (forall q', queue_of s' q' = if decide (q' = q) then (if bad_whence whence then queue_of s q else tail (queue_of s q)) else queue_of s q').
Proof.
  intros Hok Hr. unfold sched_wakeup_whence. destruct (bad_whence whence) eqn:Ew.
  { intros [= <- <-]. split_and!; [done..|]. intros q'. by case_decide; subst. }
  destruct (queue_of s q) as [|t ts] eqn:Eq; cbn [head hd_error].
  { intros [= <- <-]. split_and!; [done..|]. intros q'. by case_decide; subst. }
  assert (t ∈ queue_of s q) as Hin by (rewrite Eq; left).
  destruct (detach_eq s q t reason Hok Hin Hr) as (th & Hth & Has & ->). intros [= <- <-].
  split_and!; [by apply woken_ok|by apply woken_frame|]. intros q'. unfold woken.
  change (queue_of (with_thread ?a ?b ?c) q') with (queue_of c q'). rewrite queue_of_with. case_decide; [|done].
  rewrite Eq, filter_cons_False by auto. pose proof (wq_nodup _ Hok q) as Hnd. rewrite Eq in Hnd.
  apply NoDup_cons in Hnd as [Hnin _]. apply filter_all. intros u Hu ->. done.
Qed.

Lemma wakeup_loop_ok q reason ts c s err n s' :
  wq_ok s -> validate_wakeup_reason reason = true -> queue_of s q = ts -> 0 <= c ->
  wakeup_loop q reason ts c s = (err, n, s') ->
  wq_ok s' /\ wake_frame s s' /\ n = c + Z.of_nat (length ts) /\
  forall q', queue_of s' q' = if decide (q' = q) then [] else queue_of s q'.
Proof.
  revert c s. induction ts as [|t ts IH]; intros c s Hok Hr Eq Hc; cbn [wakeup_loop].
  { intros [= <- <- <-]. split_and!; [done..|simpl; lia|]. intros q'. by case_decide; subst. }
  assert (t ∈ queue_of s q) as Hin by (rewrite Eq; left).
  destruct (detach_eq s q t reason Hok Hin Hr) as (th & Hth & Has & ->). cbn. intros E.
  assert (queue_of (woken q t reason th s) q = ts) as Eq'.
  { unfold woken. change (queue_of (with_thread ?a ?b ?c) q) with (queue_of c q). rewrite queue_of_with, decide_True by done.
    rewrite Eq, filter_cons_False by auto. pose proof (wq_nodup _ Hok q) as Hnd. rewrite Eq in Hnd.
    apply NoDup_cons in Hnd as [Hnin _]. apply filter_all. intros u Hu ->. done. }
  destruct (IH (c + 1) (woken q t reason th s)) as (H1 & H2 & H3 & H4); try done; [by apply woken_ok|lia|].
  split_and!; [done|eapply wake_frame_trans; [by apply woken_frame|done]|simpl; lia|].
  intros q'. rewrite H4. case_decide as E'; [done|]. unfold woken. change (queue_of (with_thread ?a ?b ?c) q') with (queue_of c q').
  by rewrite queue_of_with, decide_False.
Qed.
Lemma wakeup_all_ok s q reason err n s' :
  wq_ok s -> validate_wakeup_reason reason = true -> sched_wakeup_all q reason s = (err, n, s') ->
  wq_ok s' /\ wake_frame s s' /\ n = Z.of_nat (qlen s q) /\
  forall q', queue_of s' q' = if decide (q' = q) then [] else queue_of s q'.
Proof. intros Hok Hr E. destruct (wakeup_loop_ok _ _ _ _ _ _ _ _ Hok Hr eq_refl (Z.le_refl 0) E) as (H1 & H2 & H3 & H4). by split_and!. Qed.

Lemma thread_wakeup_ok s t reason err s' :
  wq_ok s -> thread_wakeup t reason s = (err, s') -> wq_ok s' /\ wake_frame s s'.
Proof.
  intros Hok. unfold thread_wakeup. destruct (sy_threads s !! t) as [th|] eqn:Hth; [|by intros [= <- <-]].
  destruct (validate_wakeup_reason reason) eqn:Hr; [|by intros [= <- <-]]. cbn.
  destruct (t_asleep th) eqn:Ha; [|by intros [= <- <-]]. cbn.
  destruct (wq_asleep _ Hok t th Hth Ha) as [q Hq]. rewrite Hq.
  assert (t ∈ queue_of s q) as Hin by (apply (wq_member _ Hok); by exists th).
  destruct (detach_eq s q t reason Hok Hin Hr) as (th' & Hth' & Has & ->). intros [= <- <-].
  split; [by apply woken_ok|by apply woken_frame].
Qed.

(** A thread that runs keeps its place outside the queues; one that falls asleep takes it. *)
Lemma wq_ok_awake s t th th' :
  wq_ok s -> sy_threads s !! t = Some th -> t_asleep th = false -> t_asleep th' = false -> wq_ok (with_thread t th' s).
Proof.
  intros [H1 H2 H3] Hth Ha Ha'. split; [done| |].
  - intros q u. change (queue_of (with_thread t th' s) q) with (queue_of s q). rewrite H2. unfold sleeps_on.
    rewrite threads_with. destruct (decide (u = t)) as [->|Hne]; [|done]. rewrite Hth.
    split; intros (x & [= <-] & Hx & _); congruence.
  - intros u x. rewrite threads_with. case_decide; [intros [= <-]; congruence|]. apply H3.
Qed.
Lemma wq_ok_same s t th th' :
  wq_ok s -> sy_threads s !! t = Some th -> t_asleep th' = t_asleep th -> t_wait_queue th' = t_wait_queue th ->
  wq_ok (with_thread t th' s).
Proof.
  intros [H1 H2 H3] Hth Ha Hw. split; [done| |].
  - intros q u. change (queue_of (with_thread t th' s) q) with (queue_of s q). rewrite H2. unfold sleeps_on.
    rewrite threads_with. destruct (decide (u = t)) as [->|Hne]; [|done]. rewrite Hth.
    split; intros (x & [= <-] & Hx & Hx'); eexists; split_and!; try done; congruence.
  - intros u x. rewrite threads_with. case_decide as E; [|apply H3]. subst u. intros [= <-] Hx. rewrite Hw. apply (H3 t); congruence.
Qed.
Lemma wq_ok_sleep s t th th' q (l : list tid) :
  wq_ok s -> sy_threads s !! t = Some th -> t_asleep th = false -> t_asleep th' = true -> t_wait_queue th' = Some q ->
  l ≡ₚ t :: queue_of s q -> wq_ok (with_thread t th' (with_queue q l s)).
Proof.
  intros [H1 H2 H3] Hth Ha Ha' Hw Hl.
  assert (forall q', t ∉ queue_of s q') as Hnin.
  { intros q' Hin. apply H2 in Hin as (x & Hx & Hxa & _). congruence. }
  split.
  - intros q'. change (NoDup (queue_of (with_queue q l s) q')). rewrite queue_of_with. case_decide; [|done].
    rewrite Hl. by constructor.
  - intros q' u. change (queue_of (with_thread t th' (with_queue q l s)) q') with (queue_of (with_queue q l s) q').
    rewrite queue_of_with. unfold sleeps_on. rewrite threads_with. change (sy_threads (with_queue q l s)) with (sy_threads s).
    destruct (decide (u = t)) as [->|Hne], (decide (q' = q)) as [->|Hq].
    + rewrite Hl. split; [intros _; eauto|intros _; left].
    + split; [by intros ?%Hnin|]. intros (x & [= <-] & _ & ?). congruence.
    + rewrite Hl, elem_of_cons, H2. unfold sleeps_on. naive_solver.
    + apply H2.
  - intros u x. rewrite threads_with. case_decide; [intros [= <-]; rewrite Hw; eauto|apply H3].
Qed.

Lemma wq_ok_ext s s' : sy_queues s' = sy_queues s -> sy_threads s' = sy_threads s -> wq_ok s -> wq_ok s'.
Proof. intros Hq Ht [H1 H2 H3]. split; unfold queue_of, sleeps_on in *; rewrite ?Hq, ?Ht; done. Qed.

(** ** Steps *)
Definition interrupted th : bool := t_canceled th || wakeup_interrupt (t_wakeup th).

(** Code that wakes threads only for a valid reason. *)
Fixpoint cmd_ok (c : cmd S) : bool :=
  match c with
  | Wakeup _ reason _ | WakeupAll _ reason => validate_wakeup_reason reason
  | If _ c1 c2 => forallb cmd_ok c1 && forallb cmd_ok c2
  | While _ c => forallb cmd_ok c
  | _ => true
  end.
Definition code_ok s : Prop := forall t, forallb cmd_ok (code_of s t) = true.

Lemma code_ok_with s t th : code_ok s -> forallb cmd_ok (t_code th) = true -> code_ok (with_thread t th s).
Proof. intros H Hth u. rewrite code_of_with. by case_decide. Qed.
Lemma code_ok_frame s s' : (forall u, code_of s' u = code_of s u) -> code_ok s -> code_ok s'.
Proof. intros H Hs u. by rewrite H. Qed.

Lemma wait_whence_ok s t q whence l k th :
  wq_ok s -> code_ok s -> sy_threads s !! t = Some th -> t_asleep th = false -> forallb cmd_ok k = true ->
  wq_ok (sched_wait_whence t q whence l k th s) /\ code_ok (sched_wait_whence t q whence l k th s).
Proof.
  intros Hok Hc Hth Ha Hk. unfold sched_wait_whence, current_check_interrupted. cbv zeta beta iota.
  set (e := if _ || _ then _ else _). set (th0 := mkThread _ _ _ _ _ _).
  assert (forall x, wq_ok (with_thread t (mkThread false WAKEUP_NONE (t_canceled th) (t_wait_queue th) k x) s) /\
                    code_ok (with_thread t (mkThread false WAKEUP_NONE (t_canceled th) (t_wait_queue th) k x) s)) as Hagain.
  { intros x. split; [by eapply wq_ok_awake|by apply code_ok_with]. }
  destruct (e =? 0); cbn [negb]; [|apply Hagain]. case_decide as Hin; [apply Hagain|]. destruct (bad_whence whence); [apply Hagain|].
  set (s1 := with_thread t _ _). assert (wq_ok s1) as Hs1.
  { eapply wq_ok_sleep; try done. destruct (whence =? QUEUE_HEAD); [done|]. by rewrite Permutation_app_comm. }
  assert (code_ok s1) as Hc1 by (by apply code_ok_with).
  destruct l as [l|]; [|done]. case_decide; (split; [by apply (wq_ok_ext s1)|done]).
Qed.

Lemma sched_resume_ok s t l k th s' :
  wq_ok s -> code_ok s -> sy_threads s !! t = Some th -> t_asleep th = false -> forallb cmd_ok k = true ->
  sched_resume t l k th s = Some s' -> wq_ok s' /\ code_ok s'.
Proof.
  intros Hok Hc Hth Ha Hk. unfold sched_resume, current_check_interrupted. cbv zeta beta iota.
  set (th1 := mkThread _ _ _ _ k _). assert (wq_ok (with_thread t th1 s) /\ code_ok (with_thread t th1 s)) as [H1 H2].
  { split; [by eapply wq_ok_awake|by apply code_ok_with]. }
  destruct l as [l|]; [|by intros [= <-]]. destruct (sy_locks s !! l) as [u|].
  - case_decide; [|done]. intros [= <-]. split; [by apply (wq_ok_ext s)|done].
  - intros [= <-]. split; [by apply (wq_ok_ext (with_thread t th1 s))|done].
Qed.

Lemma exec_cmd_ok t c k th s s' :
  wq_ok s -> code_ok s -> sy_threads s !! t = Some th -> t_asleep th = false -> t_code th = c :: k ->
  exec_cmd t c k th s = Some s' -> wq_ok s' /\ code_ok s'.
Proof.
  intros Hok Hc Hth Ha Ec. unfold exec_cmd. cbv zeta.
  assert (cmd_ok c && forallb cmd_ok k = true) as [Hcc Hk]%andb_prop.
  { specialize (Hc t). unfold code_of in Hc. rewrite Hth in Hc. cbn in Hc. by rewrite Ec in Hc. }
  assert (forall s1 k' r, wq_ok s1 -> code_ok s1 -> (exists th1, sy_threads s1 !! t = Some th1 /\ t_asleep th1 = false) ->
    forallb cmd_ok k' = true ->
    let s2 := with_thread t (mkThread false (t_wakeup th) (t_canceled th) (t_wait_queue th) k' r) s1 in wq_ok s2 /\ code_ok s2) as Hgo.
  { intros s1 k' r H1 H2 (th1 & H3 & H4) H5. split; [by eapply wq_ok_awake|by apply code_ok_with]. }
  destruct c.
  - destruct (sy_locks s !! l); [case_decide; [|done]|]; intros [= <-]; [split; [by apply (wq_ok_ext s)|done]|].
    destruct (Hgo s k (t_regs th)) as [G1 G2]; eauto. split; [by eapply wq_ok_ext; [..|exact G1]|done].
  - case_decide; intros [= <-]; [|split; [by apply (wq_ok_ext s)|done]].
    destruct (Hgo s k (t_regs th)) as [G1 G2]; eauto. split; [by eapply wq_ok_ext; [..|exact G1]|done].
  - destruct (f _) as [r o]. intros [= <-]. destruct (Hgo s k r) as [G1 G2]; eauto. split; [by eapply wq_ok_ext; [..|exact G1]|done].
  - intros [= <-]. apply Hgo; eauto. assert (forallb cmd_ok c1 && forallb cmd_ok c2 = true) as [? ?]%andb_prop by exact Hcc.
    rewrite forallb_app, Hk, andb_true_r. by destruct (b _).
  - intros [= <-]. apply Hgo; eauto. destruct (b _); [|done]. rewrite forallb_app. assert (forallb cmd_ok c = true) as Hb by exact Hcc.
    change (forallb cmd_ok (While b c :: k)) with (forallb cmd_ok c && forallb cmd_ok k). by rewrite Hb, Hk.
  - destruct (b _); intros [= <-]; [apply Hgo; eauto|]. split; [by apply (wq_ok_ext s)|done].
  - intros [= <-]. by apply wait_whence_ok.
  - by apply sched_resume_ok.
  - destruct (sched_wakeup_whence q reason whence s) as [e s1] eqn:E. intros [= <-].
    destruct (wakeup_whence_ok _ _ _ _ _ _ Hok Hcc E) as (H1 & H2 & _). apply Hgo; [done|by apply (code_ok_frame s), Hc; apply (wf_code _ _ H2)| |done].
    exists th. split; [by apply (wf_awake _ _ H2)|done].
  - destruct (sched_wakeup_all q reason s) as [[e n] s1] eqn:E. intros [= <-].
    destruct (wakeup_all_ok _ _ _ _ _ _ Hok Hcc E) as (H1 & H2 & _). apply Hgo; [done|by apply (code_ok_frame s), Hc; apply (wf_code _ _ H2)| |done].
    exists th. split; [by apply (wf_awake _ _ H2)|done].
  - intros [= <-]. apply Hgo; eauto.
Qed.

(** The threads other than the one that runs keep their code. *)
Lemma exec_cmd_other t c k th s s' u :
  wq_ok s -> code_ok s -> sy_threads s !! t = Some th -> t_code th = c :: k ->
  exec_cmd t c k th s = Some s' -> u <> t -> code_of s' u = code_of s u.
Proof.
  intros Hok Hc Hth Ec He Hu. assert (cmd_ok c = true) as Hcc.
  { specialize (Hc t). unfold code_of in Hc. rewrite Hth in Hc. cbn in Hc. rewrite Ec in Hc. by apply andb_prop in Hc as [? _]. }
  assert (forall s1 x, code_of (with_thread t x s1) u = code_of s1 u) as Hgo by (intros; by rewrite code_of_with, decide_False).
  revert He. unfold exec_cmd. cbv zeta. destruct c.
  - destruct (sy_locks s !! l); [case_decide; [|done]|]; intros [= <-]; [done|]. apply (Hgo s).
  - case_decide; intros [= <-]; [|done]. apply (Hgo s).
  - destruct (f _) as [r o]. intros [= <-]. apply (Hgo s).
  - intros [= <-]. apply (Hgo s).
  - intros [= <-]. apply (Hgo s).
  - destruct (b _); intros [= <-]; [|done]. apply (Hgo s).
  - intros [= <-]. unfold sched_wait_whence, current_check_interrupted. cbv zeta beta iota.
    destruct (_ =? 0); [|apply (Hgo s)]. cbn [negb]. case_decide; [apply (Hgo s)|]. destruct (bad_whence whence); [apply (Hgo s)|].
    destruct l as [l|]; [case_decide|]; apply (Hgo (with_queue q _ s)).
  - unfold sched_resume, current_check_interrupted. cbv zeta beta iota. destruct l as [l|]; [|intros [= <-]; apply (Hgo s)].
    destruct (sy_locks s !! l); [case_decide; [|done]|]; intros [= <-]; [done|]. apply (Hgo s).
  - destruct (sched_wakeup_whence q reason whence s) as [e s1] eqn:E. intros [= <-].
    destruct (wakeup_whence_ok _ _ _ _ _ _ Hok Hcc E) as (_ & H2 & _). rewrite Hgo. apply (wf_code _ _ H2).
  - destruct (sched_wakeup_all q reason s) as [[e n] s1] eqn:E. intros [= <-].
    destruct (wakeup_all_ok _ _ _ _ _ _ Hok Hcc E) as (_ & H2 & _). rewrite Hgo. apply (wf_code _ _ H2).
  - intros [= <-]. apply (Hgo s).
Qed.

(** A thread that is awake and does not run keeps its record. *)
Lemma exec_cmd_awake t c k th s s' u x :
  wq_ok s -> code_ok s -> sy_threads s !! t = Some th -> t_code th = c :: k ->
  exec_cmd t c k th s = Some s' -> u <> t -> sy_threads s !! u = Some x -> t_asleep x = false -> sy_threads s' !! u = Some x.
Proof.
  intros Hok Hc Hth Ec He Hu Hx Hxa. assert (cmd_ok c = true) as Hcc.
  { specialize (Hc t). unfold code_of in Hc. rewrite Hth in Hc. cbn in Hc. rewrite Ec in Hc. by apply andb_prop in Hc as [? _]. }
  assert (forall s1 y, sy_threads s1 !! u = Some x -> sy_threads (with_thread t y s1) !! u = Some x) as Hgo.
  { intros. by rewrite threads_with, decide_False. }
  revert He. unfold exec_cmd. cbv zeta. destruct c.
  - destruct (sy_locks s !! l); [case_decide; [|done]|]; intros [= <-]; [done|]. by apply (Hgo s).
  - case_decide; intros [= <-]; [|done]. by apply (Hgo s).
  - destruct (f _) as [r o]. intros [= <-]. by apply (Hgo s).
  - intros [= <-]. by apply (Hgo s).
  - intros [= <-]. by apply (Hgo s).
  - destruct (b _); intros [= <-]; [|done]. by apply (Hgo s).
  - intros [= <-]. unfold sched_wait_whence, current_check_interrupted. cbv zeta beta iota.
    destruct (_ =? 0); [|by apply (Hgo s)]. cbn [negb]. case_decide; [by apply (Hgo s)|].
    destruct (bad_whence whence); [by apply (Hgo s)|].
    destruct l as [l|]; [case_decide|]; by apply (Hgo (with_queue q _ s)).
  - unfold sched_resume, current_check_interrupted. cbv zeta beta iota. destruct l as [l|]; [|intros [= <-]; by apply (Hgo s)].
    destruct (sy_locks s !! l); [case_decide; [|done]|]; intros [= <-]; [done|]. by apply (Hgo s).
  - destruct (sched_wakeup_whence q reason whence s) as [e s1] eqn:E. intros [= <-].
    destruct (wakeup_whence_ok _ _ _ _ _ _ Hok Hcc E) as (_ & H2 & _). apply Hgo. by apply (wf_awake _ _ H2).
  - destruct (sched_wakeup_all q reason s) as [[e n] s1] eqn:E. intros [= <-].
    destruct (wakeup_all_ok _ _ _ _ _ _ Hok Hcc E) as (_ & H2 & _). apply Hgo. by apply (wf_awake _ _ H2).
  - intros [= <-]. by apply (Hgo s).
Qed.

Lemma step_thread_inv t s s' :
  step_thread t s = Some s' ->
  exists th c k, sy_threads s !! t = Some th /\ t_asleep th = false /\ sy_panic s = false /\ t_code th = c :: k /\
    exec_cmd t c k th s = Some s'.
Proof.
  unfold step_thread. destruct (sy_threads s !! t) as [th|]; [|done]. destruct (t_asleep th) eqn:Ha; [done|].
  destruct (sy_panic s) eqn:Hp; [done|]. cbn [orb]. destruct (t_code th) as [|c k] eqn:Ec; [done|]. intros He. by exists th, c, k.
Qed.

(** What each command does, in terms of the object, the locks and the code. *)
Record effect s s' t (o : S) (l : gmap nat tid) (k : list (cmd S)) : Prop := {
  ef_obj : sy_obj s' = o;
  ef_locks : sy_locks s' = l;
  ef_panic : sy_panic s' = sy_panic s;
  ef_code : code_of s' t = k;
  ef_dom : dom (sy_threads s') = dom (sy_threads s)
}.

Section Effects.
Context (t : tid) (k : list (cmd S)) (th : thread S) (s s' : sys S).
Hypothesis Hth : sy_threads s !! t = Some th.

Lemma effect_go s1 r w cn wq o l :
  wake_frame s s1 -> o = sy_obj s1 -> l = sy_locks s1 ->
  effect s (with_thread t (mkThread false w cn wq k r) s1) t o l k.
Proof.
  intros Hf -> ->. destruct Hf. split; try done.
  - by rewrite code_of_with, decide_True.
  - rewrite <- wf_dom0. apply dom_insert_lookup_L. apply elem_of_dom. rewrite wf_dom0. apply elem_of_dom. by eexists.
Qed.
Lemma spin_lock_effect l :
  exec_cmd t (SpinLock l) k th s = Some s' -> sy_locks s !! l <> Some t ->
  sy_locks s !! l = None /\ effect s s' t (sy_obj s) (<[l := t]> (sy_locks s)) k.
Proof.
  cbn. destruct (sy_locks s !! l) as [u|]; [case_decide; [congruence|done]|]. intros [= <-] _. split; [done|].
  destruct (effect_go s (t_regs th) (t_wakeup th) (t_canceled th) (t_wait_queue th) _ _ (wake_frame_refl s) eq_refl eq_refl). by split.
Qed.
Lemma spin_unlock_effect l :
  exec_cmd t (SpinUnlock l) k th s = Some s' -> sy_locks s !! l = Some t -> effect s s' t (sy_obj s) (delete l (sy_locks s)) k.
Proof.
  cbn. intros E Hl. rewrite decide_True in E by done. injection E as <-.
  destruct (effect_go s (t_regs th) (t_wakeup th) (t_canceled th) (t_wait_queue th) _ _ (wake_frame_refl s) eq_refl eq_refl). by split.
Qed.
Lemma do_effect f :
  exec_cmd t (Do f) k th s = Some s' -> effect s s' t (f (mkView t (qlen s) (t_regs th) (sy_obj s))).2 (sy_locks s) k.
Proof.
  cbn. destruct (f _) as [r o]. intros [= <-].
  destruct (effect_go s r (t_wakeup th) (t_canceled th) (t_wait_queue th) _ _ (wake_frame_refl s) eq_refl eq_refl). by split.
Qed.
Lemma wakeup_effect q reason whence :
  wq_ok s -> validate_wakeup_reason reason = true -> exec_cmd t (Wakeup q reason whence) k th s = Some s' ->
  effect s s' t (sy_obj s) (sy_locks s) k.
Proof.
  intros Hok Hr. cbn. destruct (sched_wakeup_whence q reason whence s) as [e s1] eqn:E. intros [= <-].
  destruct (wakeup_whence_ok _ _ _ _ _ _ Hok Hr E) as (_ & H2 & _). apply effect_go; [done|symmetry; apply H2..].
Qed.
Lemma wakeup_all_effect q reason :
  wq_ok s -> validate_wakeup_reason reason = true -> exec_cmd t (WakeupAll q reason) k th s = Some s' ->
  effect s s' t (sy_obj s) (sy_locks s) k.
Proof.
  intros Hok Hr. cbn. destruct (sched_wakeup_all q reason s) as [[e n] s1] eqn:E. intros [= <-].
  destruct (wakeup_all_ok _ _ _ _ _ _ Hok Hr E) as (_ & H2 & _). apply effect_go; [done|symmetry; apply H2..].
Qed.
Lemma wait_effect q whence l :
  exec_cmd t (Wait q whence (Some l)) k th s = Some s' -> sy_locks s !! l = Some t ->
  effect s s' t (sy_obj s) (sy_locks s) k \/ effect s s' t (sy_obj s) (delete l (sy_locks s)) (Resume (Some l) :: k).
Proof.
  cbn. intros [= <-] Hl. unfold sched_wait_whence, current_check_interrupted. cbv zeta beta iota.
  destruct (_ =? 0); cbn [negb]; [|left; by apply effect_go].
  case_decide; [left; by apply effect_go|]. destruct (bad_whence whence); [left; by apply effect_go|].
  right. rewrite decide_True by done. split; try done.
  - unfold code_of. cbn. by rewrite lookup_insert_eq.
  - apply dom_insert_lookup_L. by eexists.
Qed.
Lemma resume_effect l :
  exec_cmd t (Resume (Some l)) k th s = Some s' -> sy_locks s !! l <> Some t ->
  sy_locks s !! l = None /\ effect s s' t (sy_obj s) (<[l := t]> (sy_locks s)) k.
Proof.
  cbn. unfold sched_resume, current_check_interrupted. cbv zeta beta iota.
  destruct (sy_locks s !! l) as [u|]; [case_decide; [congruence|done]|]. intros [= <-] _. split; [done|].
  edestruct (effect_go s) as [E1 E2 E3 E4 E5]; [apply wake_frame_refl|done|done|]. split; [done..|exact E4|exact E5].
Qed.
End Effects.

Lemma step_eq t s th c k :
  sy_threads s !! t = Some th -> t_asleep th = false -> sy_panic s = false -> t_code th = c :: k ->
  step_thread t s = exec_cmd t c k th s.
Proof. intros Hth Ha Hp Hc. unfold step_thread. by rewrite Hth, Ha, Hp, Hc. Qed.
Lemma if_effect t b c1 c2 k th s s' :
  sy_threads s !! t = Some th -> exec_cmd t (If b c1 c2) k th s = Some s' ->
  effect s s' t (sy_obj s) (sy_locks s) ((if b (mkView t (qlen s) (t_regs th) (sy_obj s)) then c1 else c2) ++ k).
Proof. intros Hth [= <-]. by apply (effect_go t _ th). Qed.
Lemma while_effect t b c k th s s' :
  sy_threads s !! t = Some th -> exec_cmd t (While b c) k th s = Some s' ->
  effect s s' t (sy_obj s) (sy_locks s) (if b (mkView t (qlen s) (t_regs th) (sy_obj s)) then c ++ While b c :: k else k).
Proof. intros Hth [= <-]. by apply (effect_go t _ th). Qed.
Lemma return_effect t k th s s' :
  sy_threads s !! t = Some th -> exec_cmd t Return k th s = Some s' -> effect s s' t (sy_obj s) (sy_locks s) [].
Proof. intros Hth [= <-]. by apply (effect_go t _ th). Qed.

Definition calls_ok (e : event S) : Prop :=
  match e with
  | Call _ c => forallb cmd_ok c = true
  | _ => True
  end.

Lemma happens_ok e s s' :
  wq_ok s -> code_ok s -> calls_ok e -> happens e s = Some s' -> wq_ok s' /\ code_ok s'.
Proof.
  intros Hok Hc He. destruct e as [t|t c|t reason|t]; cbn [happens].
  - intros (th & c & k & Hth & Ha & _ & Ec & E)%step_thread_inv. by eapply exec_cmd_ok.
  - destruct (sy_threads s !! t) as [th|] eqn:Hth; [|done]. destruct (t_code th); [|done]. intros [= <-].
    split; [by eapply wq_ok_same|by apply code_ok_with].
  - destruct (wakeup_interrupt reason); [|done]. destruct (thread_wakeup t reason s) as [err s1] eqn:E. intros [= <-].
    destruct (thread_wakeup_ok _ _ _ _ _ Hok E) as [H1 H2]. split; [done|]. apply (code_ok_frame s), Hc. apply (wf_code _ _ H2).
  - destruct (sy_threads s !! t) as [th|] eqn:Hth; [|done]. intros [= <-]. split; [by eapply wq_ok_same|].
    apply code_ok_with; [done|]. cbn. specialize (Hc t). unfold code_of in Hc. by rewrite Hth in Hc.
Qed.

(** An invariant of the events is an invariant of the executions. *)
Lemma reaches_invariant (ok : event S -> sys S -> Prop) (I : sys S -> Prop) s s' :
  (forall e s s', I s -> ok e s -> happens e s = Some s' -> I s') -> I s -> reaches ok s s' -> I s'.
Proof. intros Hstep HI H. induction H; eauto. Qed.
Lemma reaches_trans (ok : event S -> sys S -> Prop) s1 s2 s3 : reaches ok s1 s2 -> reaches ok s2 s3 -> reaches ok s1 s3.
Proof. intros H. induction H; eauto using reaches_step. Qed.
Lemma runs_reaches (ok : event S -> sys S -> Prop) es s s' :
  (forall e s, e ∈ es -> ok e s) -> runs es s = Some s' -> reaches ok s s'.
Proof.
  revert s. induction es as [|e es IH]; intros s Hok; cbn [runs]; [intros [= <-]; constructor|].
  destruct (happens e s) as [s1|] eqn:E; [|done]. intros H. eapply reaches_step; [apply Hok; left|done|].
  apply IH; [|done]. intros e' s2 He'. apply Hok. by right.
Qed.

Lemma runs_ok es s s' : wq_ok s -> code_ok s -> Forall calls_ok es -> runs es s = Some s' -> wq_ok s' /\ code_ok s'.
Proof.
  intros H1 H2 Hes. revert s H1 H2. induction Hes as [|e es He Hes IH]; intros s H1 H2; cbn [runs]; [by intros [= <-]|].
  destruct (happens e s) as [s1|] eqn:E; [|done]. destruct (happens_ok e s s1 H1 H2 He E). by apply IH.
Qed.

(** ** The start: no thread is in an operation *)
Lemma init_lookup (o : S) (n : nat) t th : sy_threads (sys_init o n) !! t = Some th -> th = idle_thread.
Proof.
  unfold sys_init. cbn. intros H. apply elem_of_list_to_map_2 in H. apply list_elem_of_fmap in H as (x & E & _). by injection E.
Qed.
Lemma init_code (o : S) (n : nat) u : code_of (sys_init o n) u = [].
Proof. unfold code_of. destruct (sy_threads _ !! u) as [th|] eqn:E; [|done]. by apply init_lookup in E as ->. Qed.
Lemma init_ok (o : S) (n : nat) : wq_ok (sys_init o n) /\ code_ok (sys_init o n).
Proof.
  split; [split|].
  - intros q. constructor.
  - intros q t. split; [intros H; by apply not_elem_of_nil in H|]. intros (th & Hth & Ha & _). by apply init_lookup in Hth as ->.
  - intros t th Hth Ha. by apply init_lookup in Hth as ->.
  - intros u. by rewrite init_code.
Qed.
Lemma init_size (o : S) (n : nat) : size (sy_threads (sys_init o n)) = n.
Proof.
  unfold sys_init. cbn. rewrite <- size_dom, dom_list_to_map_L, size_list_to_set.
  - by rewrite !length_fmap, length_seq.
  - rewrite <- list_fmap_compose. cbn. rewrite list_fmap_id. apply NoDup_seq.
Qed.
End Facts.

(** * Running one thread

    Symbolic execution of a thread that runs alone: [at_code] says where it is and
    what the object, the locks and the wait queues are, and each command has the
    state it leads to. *)
Section Run.
Context {S : Type} (s0 : sys S) (t : tid).
Implicit Types (s : sys S) (k : list (cmd S)) (o : S) (l : gmap nat tid) (Q : nat -> list tid).

(** The threads other than [t] have the code they had in [s0]. *)
Record at_code s o l Q k : Prop := {
  ac_queues : wq_ok s;
  ac_ok : code_ok s;
  ac_panic : sy_panic s = false;
  ac_obj : sy_obj s = o;
  ac_locks : sy_locks s = l;
  ac_Q : forall q, queue_of s q = Q q;
  ac_self : exists th, sy_threads s !! t = Some th /\ t_asleep th = false /\ t_code th = k;
  ac_others : forall u, u <> t -> code_of s u = code_of s0 u;
  ac_awake : forall u x, u <> t -> sy_threads s0 !! u = Some x -> t_asleep x = false -> sy_threads s !! u = Some x
}.

(** [s] can run [n] steps of [t] and is then in a state that satisfies [P]. *)
Definition run_to (n : nat) s (P : sys S -> Prop) : Prop := exists s', runs (replicate n (Run t)) s = Some s' /\ P s'.
Lemma run_to_done s (P : sys S -> Prop) : P s -> run_to 0 s P.
Proof. intros H. by exists s. Qed.

Definition self_view s (th : thread S) : view S := mkView t (qlen s) (t_regs th) (sy_obj s).

Lemma run_step n s (P : sys S -> Prop) o l Q c k :
  at_code s o l Q (c :: k) ->
  (forall th, sy_threads s !! t = Some th -> t_asleep th = false -> t_code th = c :: k ->
     exists s1, exec_cmd t c k th s = Some s1 /\
       (wq_ok s1 -> code_ok s1 -> (forall u, u <> t -> code_of s1 u = code_of s0 u) ->
        (forall u x, u <> t -> sy_threads s0 !! u = Some x -> t_asleep x = false -> sy_threads s1 !! u = Some x) -> run_to n s1 P)) ->
  run_to (Datatypes.S n) s P.
Proof.
  intros [H1 H2 H3 H4 H5 H6 (th & Hth & Ha & Hc) H8 H9] Hstep. destruct (Hstep th Hth Ha Hc) as (s1 & He & Hr).
  destruct (exec_cmd_ok t c k th s s1 H1 H2 Hth Ha Hc He) as [Hq Hk].
  destruct Hr as (s' & Hr & HP); [done..| | |].
  - intros u Hu. rewrite <- (H8 u Hu). by eapply exec_cmd_other.
  - intros u x Hu Hx Hxa. apply (exec_cmd_awake t c k th s s1 u x); auto.
  - exists s'. split; [|done]. cbn [replicate runs happens]. by rewrite (step_eq t s th c k Hth Ha H3 Hc), He.
Qed.

(** What the [qlen] of a command reads. *)
Lemma qlen_eq s o l Q k q : at_code s o l Q k -> qlen s q = length (Q q).
Proof. intros H. unfold qlen. by rewrite (ac_Q _ _ _ _ _ H). Qed.

Lemma run_lock n s P o l Q g k :
  at_code s o l Q (SpinLock g :: k) -> l !! g = None ->
  (forall s1, at_code s1 o (<[g := t]> l) Q k -> run_to n s1 P) -> run_to (Datatypes.S n) s P.
Proof.
  intros Hat Hl Hn. eapply run_step; [exact Hat|]. intros th Hth Ha Hc. destruct Hat as [H1 H2 H3 H4 H5 H6 _ H8 H9]. subst o l.
  eexists. split; [cbn; by rewrite Hl|]. intros Q1 Q2 Q3 Q4. apply Hn. split; try done. eexists. split; [apply lookup_insert_eq|done].
Qed.
Lemma run_unlock n s P o l Q g k :
  at_code s o l Q (SpinUnlock g :: k) -> l !! g = Some t ->
  (forall s1, at_code s1 o (delete g l) Q k -> run_to n s1 P) -> run_to (Datatypes.S n) s P.
Proof.
  intros Hat Hl Hn. eapply run_step; [exact Hat|]. intros th Hth Ha Hc. destruct Hat as [H1 H2 H3 H4 H5 H6 _ H8 H9]. subst o l.
  eexists. split; [cbn; by rewrite decide_True|]. intros Q1 Q2 Q3 Q4. apply Hn. split; try done. eexists. split; [apply lookup_insert_eq|done].
Qed.
(** The object after an assignment must not depend on the locals or the queues. *)
Lemma run_do n s P o l Q (f : view S -> regs * S) o' k :
  at_code s o l Q (Do f :: k) -> (forall ql r, (f (mkView t ql r o)).2 = o') ->
  (forall s1, at_code s1 o' l Q k -> run_to n s1 P) -> run_to (Datatypes.S n) s P.
Proof.
  intros Hat Hf Hn. eapply run_step; [exact Hat|]. intros th Hth Ha Hc. destruct Hat as [H1 H2 H3 H4 H5 H6 _ H8 H9]. subst o l.
  specialize (Hf (qlen s) (t_regs th)). cbn. destruct (f _) as [r o1]. cbn in Hf. subst o1.
  eexists. split; [reflexivity|]. intros Q1 Q2 Q3 Q4. apply Hn. split; try done. eexists. split; [apply lookup_insert_eq|done].
Qed.
Lemma run_if n s P o l Q (b : view S -> bool) (bv : bool) c1 c2 k :
  at_code s o l Q (If b c1 c2 :: k) ->
  (forall ql r, (forall q, ql q = length (Q q)) -> b (mkView t ql r o) = bv) ->
  (forall s1, at_code s1 o l Q ((if bv then c1 else c2) ++ k) -> run_to n s1 P) -> run_to (Datatypes.S n) s P.
Proof.
  intros Hat Hb Hn. eapply run_step; [exact Hat|]. intros th Hth Ha Hc.
  specialize (Hb (qlen s) (t_regs th) (fun q => qlen_eq _ _ _ _ _ q Hat)). destruct Hat as [H1 H2 H3 H4 H5 H6 _ H8 H9]. subst o l.
  eexists. split; [cbn; by rewrite Hb|]. intros Q1 Q2 Q3 Q4. apply Hn. split; try done. eexists. split; [apply lookup_insert_eq|done].
Qed.
Lemma run_while n s P o l Q (b : view S -> bool) (bv : bool) c k :
  at_code s o l Q (While b c :: k) ->
  (forall ql r, (forall q, ql q = length (Q q)) -> b (mkView t ql r o) = bv) ->
  (forall s1, at_code s1 o l Q (if bv then c ++ While b c :: k else k) -> run_to n s1 P) -> run_to (Datatypes.S n) s P.
Proof.
  intros Hat Hb Hn. eapply run_step; [exact Hat|]. intros th Hth Ha Hc.
  specialize (Hb (qlen s) (t_regs th) (fun q => qlen_eq _ _ _ _ _ q Hat)). destruct Hat as [H1 H2 H3 H4 H5 H6 _ H8 H9]. subst o l.
  eexists. split; [cbn; by rewrite Hb|]. intros Q1 Q2 Q3 Q4. apply Hn. split; try done. eexists. split; [apply lookup_insert_eq|done].
Qed.
Lemma run_assert n s P o l Q (b : view S -> bool) k :
  at_code s o l Q (Assert b :: k) -> (forall ql r, b (mkView t ql r o) = true) ->
  (forall s1, at_code s1 o l Q k -> run_to n s1 P) -> run_to (Datatypes.S n) s P.
Proof.
  intros Hat Hb Hn. eapply run_step; [exact Hat|]. intros th Hth Ha Hc.
  specialize (Hb (qlen s) (t_regs th)). destruct Hat as [H1 H2 H3 H4 H5 H6 _ H8 H9]. subst o l.
  eexists. split; [cbn; by rewrite Hb|]. intros Q1 Q2 Q3 Q4. apply Hn. split; try done. eexists. split; [apply lookup_insert_eq|done].
Qed.
Lemma run_resume n s P o l Q g k :
  at_code s o l Q (Resume (Some g) :: k) -> l !! g = None ->
  (forall s1, at_code s1 o (<[g := t]> l) Q k -> run_to n s1 P) -> run_to (Datatypes.S n) s P.
Proof.
  intros Hat Hl Hn. eapply run_step; [exact Hat|]. intros th Hth Ha Hc. destruct Hat as [H1 H2 H3 H4 H5 H6 _ H8 H9]. subst o l.
  eexists. split; [cbn; unfold sched_resume, current_check_interrupted; cbv zeta beta iota; by rewrite Hl|].
  intros Q1 Q2 Q3 Q4. apply Hn. split; try done. eexists. split; [apply lookup_insert_eq|done].
Qed.
Lemma run_wakeup n s P o l Q q reason whence k :
  at_code s o l Q (Wakeup q reason whence :: k) -> bad_whence whence = false ->
  (forall s1, at_code s1 o l (fun q' => if decide (q' = q) then tail (Q q) else Q q') k -> run_to n s1 P) ->
  run_to (Datatypes.S n) s P.
Proof.
  intros Hat Hw Hn. eapply run_step; [exact Hat|]. intros th Hth Ha Hc. destruct Hat as [H1 H2 H3 H4 H5 H6 _ H8 H9]. subst o l.
  assert (validate_wakeup_reason reason = true) as Hr.
  { specialize (H2 t). unfold code_of in H2. rewrite Hth in H2. cbn in H2. rewrite Hc in H2. by apply andb_prop in H2 as [? _]. }
  cbn. destruct (sched_wakeup_whence q reason whence s) as [e s1] eqn:E.
  destruct (wakeup_whence_ok _ _ _ _ _ _ H1 Hr E) as (_ & [F1 F2 F3 F4 F5 F6] & Hq). rewrite Hw in Hq.
  eexists. split; [reflexivity|]. intros Q1 Q2 Q3 Q4. apply Hn. split; try done; cbn.
  - by rewrite F3.
  - intros q'. change (queue_of (with_thread _ _ s1) q') with (queue_of s1 q'). rewrite Hq, !H6. done.
  - eexists. split; [apply lookup_insert_eq|done].
Qed.
End Run.
