(* ===== verification/RwLock.v ===== *)
(** * Reader-writer locks (sync/rwlock.c)

    Each function is the list of its statements.  The object is the two counters;
    [rw_rheld] and [rw_wheld] record which threads hold the lock, for the theorems. *)
From S2P Require Import Prelude Errno Queue Wait WaitFacts.

Record rwlock_t := mkRw {
  rw_writer : Z;
  rw_readers : Z;
  rw_rheld : list tid;
  rw_wheld : list tid
}.
Definition guard : nat := 0.
Definition writersq : nat := 0.
Definition readersq : nat := 1.

Definition rwlock_init : rwlock_t := mkRw 0 0 [] [].

Definition drop_tid (t : tid) (l : list tid) : list tid := filter (fun u => u <> t) l.
Definition readers_inc (v : view rwlock_t) : regs * rwlock_t :=
  let o := v_obj v in (v_regs v, mkRw (rw_writer o) (u64 (rw_readers o + 1)) (v_self v :: rw_rheld o) (rw_wheld o)).
Definition readers_dec (v : view rwlock_t) : regs * rwlock_t :=
  let o := v_obj v in (v_regs v, mkRw (rw_writer o) (u64 (rw_readers o - 1)) (drop_tid (v_self v) (rw_rheld o)) (rw_wheld o)).
Definition writer_inc (v : view rwlock_t) : regs * rwlock_t :=
  let o := v_obj v in (v_regs v, mkRw (u64 (rw_writer o + 1)) (rw_readers o) (rw_rheld o) (v_self v :: rw_wheld o)).
Definition writer_dec (v : view rwlock_t) : regs * rwlock_t :=
  let o := v_obj v in (v_regs v, mkRw (u64 (rw_writer o - 1)) (rw_readers o) (rw_rheld o) (drop_tid (v_self v) (rw_wheld o))).
Definition success (v : view rwlock_t) : regs * rwlock_t := (set_ret 1 (v_regs v), v_obj v).

(** A writer is active or waits. *)
Definition writer_busy (v : view rwlock_t) : bool :=
  negb (rw_writer (v_obj v) =? 0) || negb (v_len v writersq =? 0)%nat.
(** A reader or a writer is active, or a writer waits. *)
Definition lock_busy (v : view rwlock_t) : bool :=
  negb (rw_readers (v_obj v) =? 0) || writer_busy v.

Definition read_loop : cmd rwlock_t := While writer_busy [Wait readersq QUEUE_TAIL (Some guard)].
Definition rw_readlock_acquire : list (cmd rwlock_t) :=
  [SpinLock guard; read_loop; Do readers_inc; SpinUnlock guard].
Definition rw_readlock_try_acquire : list (cmd rwlock_t) :=
  [SpinLock guard; If (fun v => negb (writer_busy v)) [Do readers_inc; Do success] []; SpinUnlock guard].
Definition rw_readlock_release : list (cmd rwlock_t) :=
  [SpinLock guard;
   Do readers_dec;
   If (fun v => rw_readers (v_obj v) =? 0)
     [If (fun v => (1 <=? v_len v writersq)%nat) [Wakeup writersq WAKEUP_NORMAL QUEUE_HEAD] []] [];
   SpinUnlock guard].
Definition write_loop : cmd rwlock_t := While lock_busy [Wait writersq QUEUE_TAIL (Some guard)].
Definition rw_writelock_acquire : list (cmd rwlock_t) :=
  [SpinLock guard; write_loop; Do writer_inc; SpinUnlock guard].
Definition rw_writelock_try_acquire : list (cmd rwlock_t) :=
  [SpinLock guard; If (fun v => negb (lock_busy v)) [Do writer_inc; Do success] []; SpinUnlock guard].
Definition rw_writelock_release : list (cmd rwlock_t) :=
  [SpinLock guard;
   Do writer_dec;
   If (fun v => negb (v_len v writersq =? 0)%nat) [Wakeup writersq WAKEUP_NORMAL QUEUE_HEAD; SpinUnlock guard; Return] [];
   WakeupAll readersq WAKEUP_NORMAL;
   SpinUnlock guard].

(** ** Clients

    A thread asks for the lock when it does not hold it, and gives back what it holds. *)
Definition rw_asks (c : list (cmd rwlock_t)) : Prop :=
  c = rw_readlock_acquire \/ c = rw_readlock_try_acquire \/ c = rw_writelock_acquire \/ c = rw_writelock_try_acquire.
Definition rw_free (o : rwlock_t) (t : tid) : Prop := t ∉ rw_rheld o /\ t ∉ rw_wheld o.
Definition rw_client (e : event rwlock_t) (s : sys rwlock_t) : Prop :=
  match e with
  | Call t c =>
      (rw_asks c /\ rw_free (sy_obj s) t) \/
      (c = rw_readlock_release /\ t ∈ rw_rheld (sy_obj s)) \/
      (c = rw_writelock_release /\ t ∈ rw_wheld (sy_obj s))
  | _ => True
  end.

(** * The invariant of reader-writer locks

    In every reachable state the counters are the numbers of holders, a writer
    excludes everybody else, and every thread is at a point of its operation where
    what the operation has tested still holds. *)
Notation rwsys := (sys rwlock_t).
Implicit Types (s : sys rwlock_t) (o : rwlock_t) (t u : tid) (c k : list (cmd rwlock_t)).

(** Who holds the lock, and the counters. *)
Record rw_ok o : Prop := {
  ro_readers : rw_readers o = Z.of_nat (length (rw_rheld o));
  ro_writer : rw_writer o = Z.of_nat (length (rw_wheld o));
  ro_nodup : NoDup (rw_rheld o);
  ro_excl : rw_wheld o = [] \/ (exists t, rw_wheld o = [t]) /\ rw_rheld o = []
}.

(** Where a thread can be without the guard, and with it. *)
Inductive outside o u : list (cmd rwlock_t) -> Prop :=
  | out_idle : outside o u []
  | out_asks c : rw_asks c -> rw_free o u -> outside o u c
  | out_read_release : u ∈ rw_rheld o -> outside o u rw_readlock_release
  | out_write_release : u ∈ rw_wheld o -> outside o u rw_writelock_release
  | out_read_wait : rw_free o u -> outside o u [Resume (Some guard); read_loop; Do readers_inc; SpinUnlock guard]
  | out_write_wait : rw_free o u -> outside o u [Resume (Some guard); write_loop; Do writer_inc; SpinUnlock guard]
  | out_return : outside o u [Return; WakeupAll readersq WAKEUP_NORMAL; SpinUnlock guard].

Definition release_test : cmd rwlock_t :=
  If (fun v => (1 <=? v_len v writersq)%nat) [Wakeup writersq WAKEUP_NORMAL QUEUE_HEAD] [].
Definition last_reader_test : cmd rwlock_t := If (fun v => rw_readers (v_obj v) =? 0) [release_test] [].
Definition waiting_writer_test : cmd rwlock_t :=
  If (fun v => negb (v_len v writersq =? 0)%nat) [Wakeup writersq WAKEUP_NORMAL QUEUE_HEAD; SpinUnlock guard; Return] [].

Inductive inside o t : list (cmd rwlock_t) -> Prop :=
  | in_read_loop : rw_free o t -> inside o t [read_loop; Do readers_inc; SpinUnlock guard]
  | in_read_wait : rw_free o t -> inside o t [Wait readersq QUEUE_TAIL (Some guard); read_loop; Do readers_inc; SpinUnlock guard]
  | in_read_take : rw_free o t -> rw_writer o = 0 -> inside o t [Do readers_inc; SpinUnlock guard]
  | in_read_try : rw_free o t -> inside o t (drop 1 rw_readlock_try_acquire)
  | in_read_try_take : rw_free o t -> rw_writer o = 0 -> inside o t [Do readers_inc; Do success; SpinUnlock guard]
  | in_read_release : t ∈ rw_rheld o -> inside o t (drop 1 rw_readlock_release)
  | in_read_test : inside o t [last_reader_test; SpinUnlock guard]
  | in_read_test' : inside o t [release_test; SpinUnlock guard]
  | in_read_wake : inside o t [Wakeup writersq WAKEUP_NORMAL QUEUE_HEAD; SpinUnlock guard]
  | in_write_loop : rw_free o t -> inside o t [write_loop; Do writer_inc; SpinUnlock guard]
  | in_write_wait : rw_free o t -> inside o t [Wait writersq QUEUE_TAIL (Some guard); write_loop; Do writer_inc; SpinUnlock guard]
  | in_write_take : rw_free o t -> rw_writer o = 0 -> rw_readers o = 0 -> inside o t [Do writer_inc; SpinUnlock guard]
  | in_write_try : rw_free o t -> inside o t (drop 1 rw_writelock_try_acquire)
  | in_write_try_take : rw_free o t -> rw_writer o = 0 -> rw_readers o = 0 -> inside o t [Do writer_inc; Do success; SpinUnlock guard]
  | in_write_release : t ∈ rw_wheld o -> inside o t (drop 1 rw_writelock_release)
  | in_write_test : inside o t [waiting_writer_test; WakeupAll readersq WAKEUP_NORMAL; SpinUnlock guard]
  | in_write_wake : inside o t [Wakeup writersq WAKEUP_NORMAL QUEUE_HEAD; SpinUnlock guard; Return;
      WakeupAll readersq WAKEUP_NORMAL; SpinUnlock guard]
  | in_write_exit : inside o t [SpinUnlock guard; Return; WakeupAll readersq WAKEUP_NORMAL; SpinUnlock guard]
  | in_write_all : inside o t [WakeupAll readersq WAKEUP_NORMAL; SpinUnlock guard]
  | in_success : inside o t [Do success; SpinUnlock guard]
  | in_exit : inside o t [SpinUnlock guard].

Definition placed s u : Prop :=
  if decide (sy_locks s !! guard = Some u) then inside (sy_obj s) u (code_of s u) else outside (sy_obj s) u (code_of s u).

Record rw_inv s : Prop := {
  ri_queues : wq_ok s;
  ri_code : code_ok s;
  ri_panic : sy_panic s = false;
  ri_obj : rw_ok (sy_obj s);
  ri_dom : forall t, t ∈ rw_rheld (sy_obj s) -> is_Some (sy_threads s !! t);
  ri_bound : Z.of_nat (size (sy_threads s)) < two64;
  ri_placed : forall u, placed s u
}.

Lemma outside_stable o o' u c :
  (u ∈ rw_rheld o' <-> u ∈ rw_rheld o) -> (u ∈ rw_wheld o' <-> u ∈ rw_wheld o) -> outside o u c -> outside o' u c.
Proof.
  intros Hr Hw H. unfold rw_free in *. destruct H; constructor; unfold rw_free in *; tauto.
Qed.

(** The number of readers cannot overflow: each is a thread. *)
Lemma holders_bound (l : list tid) {A} (m : gmap tid A) : NoDup l -> (forall t, t ∈ l -> is_Some (m !! t)) -> (length l <= size m)%nat.
Proof.
  intros Hnd Hin. rewrite <- size_dom, <- (size_list_to_set (C:=gset tid) l) by done. apply subseteq_size.
  intros t Ht%elem_of_list_to_set. by apply elem_of_dom, Hin.
Qed.

(** What a step of thread [t] does to the others. *)
Lemma placed_others s s' t :
  rw_inv s -> (forall u, u <> t -> code_of s' u = code_of s u) ->
  (forall u, u <> t -> sy_locks s' !! guard = Some u <-> sy_locks s !! guard = Some u) ->
  (forall u, u <> t -> (u ∈ rw_rheld (sy_obj s') <-> u ∈ rw_rheld (sy_obj s)) /\ (u ∈ rw_wheld (sy_obj s') <-> u ∈ rw_wheld (sy_obj s))) ->
  sy_obj s' = sy_obj s \/ sy_locks s !! guard = Some t ->
  placed s' t -> forall u, placed s' u.
Proof.
  intros Hi Hcode Hlock Hheld Hobj Ht u. destruct (decide (u = t)) as [->|Hne]; [done|].
  pose proof (ri_placed _ Hi u) as Hu. unfold placed in *. rewrite (Hcode u Hne). destruct (Hheld u Hne) as [Hr Hw].
  destruct (decide (sy_locks s !! guard = Some u)) as [E|E].
  - rewrite decide_True by (by apply Hlock). destruct Hobj as [->|Hobj]; [done|]. congruence.
  - rewrite decide_False by (by rewrite Hlock). by eapply outside_stable.
Qed.

(** ** Steps *)
Section Step.
Context (s s' : rwsys) (t : tid) (th : thread rwlock_t) (c0 : cmd rwlock_t) (k : list (cmd rwlock_t)).
Hypothesis Hi : rw_inv s.
Hypothesis Hth : sy_threads s !! t = Some th.
Hypothesis Ha : t_asleep th = false.
Hypothesis Ec : t_code th = c0 :: k.
Hypothesis He : exec_cmd t c0 k th s = Some s'.

(** A step of [t] that leaves the holders other than [t] alone. *)
Lemma rw_inv_step o' l' k' :
  effect s s' t o' l' k' -> rw_ok o' ->
  (forall u, u <> t -> (u ∈ rw_rheld o' <-> u ∈ rw_rheld (sy_obj s)) /\ (u ∈ rw_wheld o' <-> u ∈ rw_wheld (sy_obj s))) ->
  (forall u, u <> t -> l' !! guard = Some u <-> sy_locks s !! guard = Some u) ->
  o' = sy_obj s \/ sy_locks s !! guard = Some t ->
  (if decide (l' !! guard = Some t) then inside o' t k' else outside o' t k') -> rw_inv s'.
Proof.
  intros [E1 E2 E3 E4 E5] Hok Hheld Hlock Hobj Hpl.
  destruct (exec_cmd_ok t c0 k th s s') as [Hq Hc]; [apply Hi..|done|done|done|done|].
  split; try done.
  - rewrite E3. apply Hi.
  - by rewrite E1.
  - rewrite E1. intros u Hu. apply elem_of_dom. rewrite E5. apply elem_of_dom. destruct (decide (u = t)) as [->|Hne]; [by eexists|].
    apply Hi. by apply Hheld.
  - rewrite <- size_dom, E5, size_dom. apply Hi.
  - apply (placed_others s s' t); try done.
    + intros u Hu. eapply exec_cmd_other; try done; apply Hi.
    + intros u Hu. rewrite E2. auto.
    + intros u Hu. rewrite E1. auto.
    + by rewrite E1.
    + unfold placed. by rewrite E1, E2, E4.
Qed.

(** A step that only moves [t] on, with the same object and locks. *)
Lemma rw_inv_move k' :
  effect s s' t (sy_obj s) (sy_locks s) k' ->
  (if decide (sy_locks s !! guard = Some t) then inside (sy_obj s) t k' else outside (sy_obj s) t k') -> rw_inv s'.
Proof. intros He' Hk. eapply rw_inv_step; [exact He'|apply Hi|done|done|by left|done]. Qed.
Lemma rw_inv_lock k' :
  sy_locks s !! guard = None -> effect s s' t (sy_obj s) (<[guard := t]> (sy_locks s)) k' -> inside (sy_obj s) t k' -> rw_inv s'.
Proof.
  intros Hn He' Hk. eapply rw_inv_step; [exact He'|apply Hi|done| |by left|].
  - intros u Hu. rewrite lookup_insert_eq, Hn. split; congruence.
  - by rewrite lookup_insert_eq, decide_True.
Qed.
Lemma rw_inv_unlock k' :
  sy_locks s !! guard = Some t -> effect s s' t (sy_obj s) (delete guard (sy_locks s)) k' -> outside (sy_obj s) t k' -> rw_inv s'.
Proof.
  intros Hn He' Hk. eapply rw_inv_step; [exact He'|apply Hi|done| |by left|].
  - intros u Hu. rewrite lookup_delete_eq, Hn. split; congruence.
  - by rewrite lookup_delete_eq, decide_False.
Qed.
Lemma rw_inv_do (f : view rwlock_t -> regs * rwlock_t) k' :
  sy_locks s !! guard = Some t -> effect s s' t (f (mkView t (qlen s) (t_regs th) (sy_obj s))).2 (sy_locks s) k' ->
  let o' := (f (mkView t (qlen s) (t_regs th) (sy_obj s))).2 in
  rw_ok o' -> (forall u, u <> t -> (u ∈ rw_rheld o' <-> u ∈ rw_rheld (sy_obj s)) /\ (u ∈ rw_wheld o' <-> u ∈ rw_wheld (sy_obj s))) ->
  inside o' t k' -> rw_inv s'.
Proof.
  intros Hn He' o' Hok Hheld Hk. eapply rw_inv_step; [exact He'|done|done|done|by right|]. by rewrite decide_True.
Qed.

End Step.

Lemma outside_step s s' t th (c0 : cmd rwlock_t) k :
  rw_inv s -> sy_threads s !! t = Some th -> t_asleep th = false -> t_code th = c0 :: k -> exec_cmd t c0 k th s = Some s' ->
  sy_locks s !! guard <> Some t -> outside (sy_obj s) t (c0 :: k) -> rw_inv s'.
Proof.
  intros Hi Hth Ha Ec He Hn Hout.
  assert (forall kk, sy_locks s !! guard = None /\ effect s s' t (sy_obj s) (<[guard := t]> (sy_locks s)) kk ->
          inside (sy_obj s) t kk -> rw_inv s') as Hlock.
  { intros kk [Hl He'] Hin. by eapply rw_inv_lock. }
  inversion Hout as [|c Hasks Hfree E|Hr E|Hw E|Hf E|Hf E|E]; subst.
  - destruct Hasks as [E|[E|[E|E]]]; injection E as -> ->; (eapply Hlock; [by eapply spin_lock_effect|by constructor]).
  - eapply Hlock; [by eapply spin_lock_effect|]. by apply in_read_release.
  - eapply Hlock; [by eapply spin_lock_effect|]. by apply in_write_release.
  - eapply Hlock; [by eapply resume_effect|]. by constructor.
  - eapply Hlock; [by eapply resume_effect|]. by constructor.
  - eapply rw_inv_move; try done; [by eapply return_effect|]. rewrite decide_False by done. constructor.
Qed.

(** ** The counters *)
Lemma elem_drop t u (l : list tid) : u ∈ drop_tid t l <-> u <> t /\ u ∈ l.
Proof. unfold drop_tid. by rewrite list_elem_of_filter. Qed.
Lemma length_drop_tid t (l : list tid) : NoDup l -> t ∈ l -> length l = S (length (drop_tid t l)).
Proof.
  unfold drop_tid. induction l as [|u l IH]; intros Hnd Hin; [by apply not_elem_of_nil in Hin|].
  apply NoDup_cons in Hnd as [Hn Hnd]. rewrite filter_cons. case_decide as E.
  - cbn [length]. rewrite (IH Hnd); [done|]. apply elem_of_cons in Hin as [->|Hin]; [by destruct E|done].
  - assert (u = t) as -> by (destruct (decide (u = t)); tauto). cbn [length]. f_equal. symmetry. f_equal. apply filter_all. intros x Hx ->. done.
Qed.
Lemma no_writer o : rw_ok o -> rw_writer o = 0 -> rw_wheld o = [].
Proof. intros [_ H _ _] E. apply nil_length_inv. lia. Qed.
Lemma no_reader o : rw_ok o -> rw_readers o = 0 -> rw_rheld o = [].
Proof. intros [H _ _ _] E. apply nil_length_inv. lia. Qed.

Lemma rw_ok_reader o t n :
  rw_ok o -> rw_free o t -> rw_writer o = 0 -> Z.of_nat (S (length (rw_rheld o))) <= n -> n < two64 ->
  rw_ok (mkRw (rw_writer o) (u64 (rw_readers o + 1)) (t :: rw_rheld o) (rw_wheld o)).
Proof.
  intros Hok [Hf _] Hw Hn Hb. pose proof (no_writer o Hok Hw) as Hnil. destruct Hok as [H1 H2 H3 H4]. split; cbn.
  - unfold u64. rewrite Z.mod_small; lia.
  - done.
  - by constructor.
  - by left.
Qed.
Lemma rw_ok_reader_gone o t :
  rw_ok o -> t ∈ rw_rheld o -> Z.of_nat (length (rw_rheld o)) < two64 ->
  rw_ok (mkRw (rw_writer o) (u64 (rw_readers o - 1)) (drop_tid t (rw_rheld o)) (rw_wheld o)).
Proof.
  intros [H1 H2 H3 H4] Hin Hb. pose proof (length_drop_tid t _ H3 Hin) as Hl. split; cbn; try done.
  - unfold u64. rewrite Z.mod_small; lia.
  - by apply NoDup_filter.
  - destruct H4 as [?|[? Hnil]]; [by left|]. rewrite Hnil in Hin. by apply not_elem_of_nil in Hin.
Qed.
Lemma rw_ok_writer o t :
  rw_ok o -> rw_writer o = 0 -> rw_readers o = 0 ->
  rw_ok (mkRw (u64 (rw_writer o + 1)) (rw_readers o) (rw_rheld o) (t :: rw_wheld o)).
Proof.
  intros Hok Hw Hr. pose proof (no_writer o Hok Hw) as Hwn. pose proof (no_reader o Hok Hr) as Hrn. destruct Hok as [H1 H2 H3 H4].
  split; cbn; try done; rewrite ?Hwn, ?Hw; [done|]. right. split; [by exists t|done].
Qed.
Lemma rw_ok_writer_gone o t :
  rw_ok o -> t ∈ rw_wheld o -> rw_ok (mkRw (u64 (rw_writer o - 1)) (rw_readers o) (rw_rheld o) (drop_tid t (rw_wheld o))).
Proof.
  intros [H1 H2 H3 H4] Hin. destruct H4 as [Hn|[[u Hu] Hrn]]; [rewrite Hn in Hin; by apply not_elem_of_nil in Hin|].
  rewrite Hu in *. apply list_elem_of_singleton in Hin as ->. cbn [length] in H2.
  assert (drop_tid u [u] = []) as E by (unfold drop_tid; by rewrite filter_cons_False by auto).
  rewrite E. split; cbn; try done; [by rewrite H2|by left].
Qed.

Lemma inside_step s s' t th (c0 : cmd rwlock_t) k :
  rw_inv s -> sy_threads s !! t = Some th -> t_asleep th = false -> t_code th = c0 :: k -> exec_cmd t c0 k th s = Some s' ->
  sy_locks s !! guard = Some t -> inside (sy_obj s) t (c0 :: k) -> rw_inv s'.
Proof.
  intros Hi Hth Ha Ec He Hn Hin.
  assert (forall kk, effect s s' t (sy_obj s) (sy_locks s) kk -> inside (sy_obj s) t kk -> rw_inv s') as Hmove.
  { intros kk He' Hk. eapply rw_inv_move; try done. by rewrite decide_True. }
  assert (forall kk, effect s s' t (sy_obj s) (delete guard (sy_locks s)) kk -> outside (sy_obj s) t kk -> rw_inv s') as Hunlock.
  { intros kk He' Hk. by eapply rw_inv_unlock. }
  pose proof (ri_obj _ Hi) as Hobj. pose proof (ri_queues _ Hi) as Hq.
  assert (forall l, NoDup l -> (forall u, u ∈ l -> u = t \/ u ∈ rw_rheld (sy_obj s)) -> Z.of_nat (length l) < two64) as Hbound.
  { intros l Hnd Hl. pose proof (ri_bound _ Hi). assert (length l <= size (sy_threads s))%nat; [|lia]. apply holders_bound; [done|].
    intros u Hu. destruct (Hl u Hu) as [->|Hu']; [by eexists|by apply (ri_dom _ Hi)]. }
  assert (forall kk, rw_free (sy_obj s) t -> rw_writer (sy_obj s) = 0 ->
    effect s s' t (readers_inc (mkView t (qlen s) (t_regs th) (sy_obj s))).2 (sy_locks s) kk ->
    (forall o', inside o' t kk) -> rw_inv s') as Hread.
  { intros kk Hf Hw He' Hk. eapply rw_inv_do; try done; cbn.
    - eapply rw_ok_reader; try done. apply (Hbound (t :: _)); [constructor; [apply Hf|apply Hobj]|].
      intros u [->|?]%elem_of_cons; auto.
    - intros u Hu. rewrite elem_of_cons. tauto. }
  assert (forall kk, rw_writer (sy_obj s) = 0 -> rw_readers (sy_obj s) = 0 ->
    effect s s' t (writer_inc (mkView t (qlen s) (t_regs th) (sy_obj s))).2 (sy_locks s) kk ->
    (forall o', inside o' t kk) -> rw_inv s') as Hwrite.
  { intros kk Hw Hr He' Hk. eapply rw_inv_do; try done; cbn.
    - by apply rw_ok_writer.
    - intros u Hu. rewrite elem_of_cons. tauto. }
  inversion Hin; subst.
  - eapply Hmove; [by eapply while_effect|]. unfold writer_busy at 1. cbn [v_obj v_len].
    destruct (Z.eqb_spec (rw_writer (sy_obj s)) 0) as [E|E]; cbn [negb orb]; [|by constructor].
    destruct (_ =? 0)%nat; cbn [negb]; by constructor.
  - destruct (wait_effect _ _ _ _ _ Hth _ _ _ He Hn) as [He'|He']; [eapply Hmove|eapply Hunlock]; try exact He'; by constructor.
  - eapply Hread; [done..|by eapply do_effect|]. intros; constructor.
  - eapply Hmove; [by eapply if_effect|]. unfold writer_busy at 1. cbn [v_obj v_len].
    destruct (Z.eqb_spec (rw_writer (sy_obj s)) 0) as [E|E]; cbn [negb orb app]; [|by constructor].
    destruct (_ =? 0)%nat; cbn [negb app]; by constructor.
  - eapply Hread; [done..|by eapply do_effect|]. intros; constructor.
  - eapply rw_inv_do; try done; [by eapply do_effect|..]; cbn.
    + apply rw_ok_reader_gone; try done. apply Hbound; [apply Hobj|]. auto.
    + intros u Hu. rewrite elem_drop. tauto.
    + apply in_read_test.
  - eapply Hmove; [by eapply if_effect|]. cbn [v_obj]. destruct (_ =? 0); constructor.
  - eapply Hmove; [by eapply if_effect|]. cbn [v_len]. destruct (_ <=? _)%nat; constructor.
  - eapply Hmove; [eapply wakeup_effect; [done|done| |exact He]; done|]. constructor.
  - eapply Hmove; [by eapply while_effect|]. unfold lock_busy at 1, writer_busy at 1. cbn [v_obj v_len].
    destruct (Z.eqb_spec (rw_readers (sy_obj s)) 0) as [E|E]; cbn [negb orb]; [|by constructor].
    destruct (Z.eqb_spec (rw_writer (sy_obj s)) 0) as [E'|E']; cbn [negb orb]; [|by constructor].
    destruct (_ =? 0)%nat; cbn [negb]; by constructor.
  - destruct (wait_effect _ _ _ _ _ Hth _ _ _ He Hn) as [He'|He']; [eapply Hmove|eapply Hunlock]; try exact He'; by constructor.
  - eapply Hwrite; [done..|by eapply do_effect|]. intros; constructor.
  - eapply Hmove; [by eapply if_effect|]. unfold lock_busy at 1, writer_busy at 1. cbn [v_obj v_len].
    destruct (Z.eqb_spec (rw_readers (sy_obj s)) 0) as [E|E]; cbn [negb orb app]; [|by constructor].
    destruct (Z.eqb_spec (rw_writer (sy_obj s)) 0) as [E'|E']; cbn [negb orb app]; [|by constructor].
    destruct (_ =? 0)%nat; cbn [negb app]; by constructor.
  - eapply Hwrite; [done..|by eapply do_effect|]. intros; constructor.
  - eapply rw_inv_do; try done; [by eapply do_effect|..]; cbn.
    + by apply rw_ok_writer_gone.
    + intros u Hu. rewrite elem_drop. tauto.
    + apply in_write_test.
  - eapply Hmove; [by eapply if_effect|]. cbn [v_len]. destruct (_ =? 0)%nat; constructor.
  - eapply Hmove; [eapply wakeup_effect; [done|done| |exact He]; done|]. constructor.
  - eapply Hunlock; [by eapply spin_unlock_effect|]. apply out_return.
  - eapply Hmove; [eapply wakeup_all_effect; [done|done| |exact He]; done|]. constructor.
  - eapply Hmove; [exact (do_effect _ _ _ _ _ Hth success He)|]. constructor.
  - eapply Hunlock; [by eapply spin_unlock_effect|]. constructor.
Qed.

(** ** Events *)
Lemma rw_asks_ok c : rw_asks c -> forallb cmd_ok c = true.
Proof. by intros [->|[->|[->| ->]]]. Qed.

(** Interruptions and cancellations change neither code nor object. *)
Lemma rw_inv_frame s s' :
  rw_inv s -> wq_ok s' -> code_ok s' -> sy_obj s' = sy_obj s -> sy_locks s' = sy_locks s -> sy_panic s' = sy_panic s ->
  (forall u, code_of s' u = code_of s u) -> dom (sy_threads s') = dom (sy_threads s) -> rw_inv s'.
Proof.
  intros Hi Hq Hc H1 H2 H3 H4 H5. split; try done.
  - rewrite H3. apply Hi.
  - rewrite H1. apply Hi.
  - rewrite H1. intros u Hu. apply elem_of_dom. rewrite H5. apply elem_of_dom. by apply Hi.
  - rewrite <- size_dom, H5, size_dom. apply Hi.
  - intros u. unfold placed. rewrite H1, H2, H4. apply Hi.
Qed.

Lemma rw_step e s s' : rw_inv s -> rw_client e s -> happens e s = Some s' -> rw_inv s'.
Proof.
  intros Hi Hcl He. assert (calls_ok e) as Hcalls.
  { destruct e as [t|t c|t r|t]; try done. destruct Hcl as [[Hc _]|[[-> _]|[-> _]]]; [by apply rw_asks_ok|done..]. }
  destruct (happens_ok e s s') as [Hq Hc]; [apply Hi..|done|done|].
  destruct e as [t|t c|t reason|t]; cbn [happens] in He.
  - apply step_thread_inv in He as (th & c & k & Hth & Ha & _ & Ec & E). pose proof (ri_placed _ Hi t) as Hp.
    unfold placed, code_of in Hp. rewrite Hth in Hp. cbn in Hp. rewrite Ec in Hp. case_decide.
    + by eapply inside_step.
    + by eapply outside_step.
  - destruct (sy_threads s !! t) as [th|] eqn:Hth; [|done]. destruct (t_code th) eqn:Ec; [|done]. injection He as <-.
    assert (code_of s t = []) as Hnil by (unfold code_of; rewrite Hth; done).
    split; try done; [apply Hi..| | |].
    + intros u Hu. rewrite threads_with. case_decide; [by eexists|by apply Hi].
    + cbn. rewrite <- size_dom, dom_insert_lookup_L, size_dom by (by eexists). apply Hi.
    + intros u. pose proof (ri_placed _ Hi u) as Hp. unfold placed in *. rewrite code_of_with.
      change (sy_obj (with_thread _ _ s)) with (sy_obj s). change (sy_locks (with_thread _ _ s)) with (sy_locks s).
      destruct (decide (u = t)) as [->|Hne]; [|done]. rewrite Hnil in Hp. cbn [t_code]. case_decide; [inversion Hp|].
      destruct Hcl as [[H1 H2]|[[-> H1]|[-> H1]]]; [by apply out_asks|by apply out_read_release|by apply out_write_release].
  - destruct (wakeup_interrupt reason); [|done]. destruct (thread_wakeup t reason s) as [err s1] eqn:E. injection He as <-.
    destruct (thread_wakeup_ok _ _ _ _ _ (ri_queues _ Hi) E) as [_ [F1 F2 F3 F4 F5 _]]. by eapply rw_inv_frame.
  - destruct (sy_threads s !! t) as [th|] eqn:Hth; [|done]. injection He as <-. eapply rw_inv_frame; try done.
    + intros u. rewrite code_of_with. case_decide; [|done]. subst u. unfold code_of. by rewrite Hth.
    + apply dom_insert_lookup_L. by eexists.
Qed.

(** At the start nobody holds the lock. *)
Lemma rw_inv_init n : Z.of_nat n < two64 -> rw_inv (sys_init rwlock_init n).
Proof.
  intros Hn. destruct (init_ok rwlock_init n) as [Hq Hc]. split; try done.
  - split; cbn; try done; [constructor|by left].
  - intros t Ht. by apply not_elem_of_nil in Ht.
  - by rewrite init_size.
  - intros u. unfold placed. rewrite init_code, decide_False by done. constructor.
Qed.
