(* ===== verification/RwDeadlock.v ===== *)
(** * Waiting writers and the reader-writer lock

    [rw_writelock_acquire] goes back to sleep as long as another writer waits.  When
    the lock is released while two writers wait, the writer that is woken finds the
    other one in the queue: from then on nobody gets the lock. *)
From S2P Require Import Prelude Errno Queue Wait WaitFacts RwLock.

Implicit Types (s : sys rwlock_t) (o : rwlock_t) (t u : tid) (c k : list (cmd rwlock_t)).

(** Points of the operations that ask for the lock, up to the tests, and the way out. *)
Inductive asking : list (cmd rwlock_t) -> Prop :=
  | ask_idle : asking []
  | ask_start c : rw_asks c -> asking c
  | ask_read_loop : asking [read_loop; Do readers_inc; SpinUnlock guard]
  | ask_read_wait : asking [Wait readersq QUEUE_TAIL (Some guard); read_loop; Do readers_inc; SpinUnlock guard]
  | ask_read_asleep : asking [Resume (Some guard); read_loop; Do readers_inc; SpinUnlock guard]
  | ask_read_try : asking (drop 1 rw_readlock_try_acquire)
  | ask_write_loop : asking [write_loop; Do writer_inc; SpinUnlock guard]
  | ask_write_wait : asking [Wait writersq QUEUE_TAIL (Some guard); write_loop; Do writer_inc; SpinUnlock guard]
  | ask_write_asleep : asking [Resume (Some guard); write_loop; Do writer_inc; SpinUnlock guard]
  | ask_write_try : asking (drop 1 rw_writelock_try_acquire)
  | ask_exit : asking [SpinUnlock guard]
  | ask_exit' : asking [SpinUnlock guard; Return; WakeupAll readersq WAKEUP_NORMAL; SpinUnlock guard]
  | ask_return : asking [Return; WakeupAll readersq WAKEUP_NORMAL; SpinUnlock guard].

(** Nobody holds the lock, a writer waits, and no thread is past its tests. *)
Record rw_stuck s : Prop := {
  rs_inv : rw_inv s;
  rs_free : rw_rheld (sy_obj s) = [] /\ rw_wheld (sy_obj s) = [];
  rs_writer : queue_of s writersq <> [];
  rs_asking : forall u, asking (code_of s u)
}.

Definition no_interrupt (e : event rwlock_t) : Prop := match e with Interrupt _ _ => False | _ => True end.

(** Commands that wake nobody and change no counter. *)
Definition calm (c : cmd rwlock_t) : bool :=
  match c with
  | Do _ | Wakeup _ _ _ | WakeupAll _ _ => false
  | _ => true
  end.
Lemma calm_step t (c : cmd rwlock_t) k th s s' q :
  calm c = true -> exec_cmd t c k th s = Some s' -> queue_of s q <> [] ->
  sy_obj s' = sy_obj s /\ queue_of s' q <> [].
Proof.
  intros Hc He Hq. destruct c; try done; revert He; cbn [exec_cmd].
  - destruct (sy_locks s !! l); [case_decide; [|done]|]; by intros [= <-].
  - case_decide; by intros [= <-].
  - by intros [= <-].
  - by intros [= <-].
  - destruct (b _); by intros [= <-].
  - intros [= <-]. unfold sched_wait_whence, current_check_interrupted. cbv zeta beta iota.
    destruct (_ =? 0); [|done]. cbn [negb]. case_decide; [done|]. destruct (bad_whence whence); [done|].
    set (s1 := with_queue q0 _ s). assert (sy_obj s1 = sy_obj s /\ queue_of s1 q <> []) as Hs1.
    { split; [done|]. unfold s1. rewrite queue_of_with. case_decide; [|done]. destruct (whence =? QUEUE_HEAD); [done|].
      intros E. by apply app_nil in E as [_ ?]. }
    destruct l as [l|]; [case_decide|]; exact Hs1.
  - unfold sched_resume, current_check_interrupted. cbv zeta beta iota. destruct l as [l|]; [|by intros [= <-]].
    destruct (sy_locks s !! l); [case_decide; [|done]|]; by intros [= <-].
  - by intros [= <-].
Qed.

Lemma writer_waits_busy s t r : queue_of s writersq <> [] -> writer_busy (mkView t (qlen s) r (sy_obj s)) = true.
Proof.
  intros Hq. unfold writer_busy. cbn [v_obj v_len]. apply orb_true_intro. right. unfold qlen.
  by destruct (queue_of s writersq).
Qed.

(** The code of a thread after such a command; a panic leaves it as it is. *)
Definition next_code (c : cmd rwlock_t) k (v : view rwlock_t) : list (list (cmd rwlock_t)) :=
  match c with
  | If b c1 c2 => [(if b v then c1 else c2) ++ k]
  | While b body => [if b v then body ++ While b body :: k else k]
  | Wait _ _ l => [k; Resume l :: k]
  | Return => [[]]
  | _ => [k; c :: k]
  end.
Lemma calm_code t (c : cmd rwlock_t) k th s s' :
  calm c = true -> sy_threads s !! t = Some th -> t_code th = c :: k -> exec_cmd t c k th s = Some s' ->
  match c with Assert _ => False | _ => True end ->
  code_of s' t ∈ next_code c k (mkView t (qlen s) (t_regs th) (sy_obj s)).
Proof.
  intros Hc Hth Ec He Has. assert (code_of s t = c :: k) as Hcode by (unfold code_of; by rewrite Hth).
  assert (forall s1 x, code_of (with_thread t x s1) t = t_code x) as Hgo by (intros; by rewrite code_of_with, decide_True).
  destruct c; try done; revert He; cbn [exec_cmd next_code].
  - destruct (sy_locks s !! l); [case_decide; [|done]|]; intros [= <-].
    + change (code_of (panicked s) t) with (code_of s t). rewrite Hcode. set_solver.
    + match goal with |- context [code_of (with_locks _ ?x) t] => change (code_of (with_locks _ x) t) with (code_of x t) end.
      rewrite Hgo. set_solver.
  - case_decide; intros [= <-].
    + match goal with |- context [code_of (with_locks ?y ?x) t] => change (code_of (with_locks y x) t) with (code_of x t) end.
      rewrite Hgo. set_solver.
    + change (code_of (panicked s) t) with (code_of s t). rewrite Hcode. set_solver.
  - intros [= <-]. rewrite Hgo. set_solver.
  - intros [= <-]. rewrite Hgo. set_solver.
  - intros [= <-]. unfold sched_wait_whence, current_check_interrupted. cbv zeta beta iota.
    destruct (_ =? 0); cbn [negb]; [|rewrite Hgo; set_solver]. case_decide; [rewrite Hgo; set_solver|].
    destruct (bad_whence whence); [rewrite Hgo; set_solver|].
    destruct l as [l|]; [case_decide|]; unfold code_of; cbn; rewrite lookup_insert_eq; cbn; set_solver.
  - unfold sched_resume, current_check_interrupted. cbv zeta beta iota. destruct l as [l|]; [|intros [= <-]; rewrite Hgo; set_solver].
    destruct (sy_locks s !! l); [case_decide; [|done]|]; intros [= <-].
    + change (code_of (panicked s) t) with (code_of s t). rewrite Hcode. set_solver.
    + unfold code_of. cbn. rewrite lookup_insert_eq. cbn. set_solver.
  - intros [= <-]. rewrite Hgo. set_solver.
Qed.

(** A thread that runs in a stuck state stays before its tests. *)
Lemma asking_step t th (c0 : cmd rwlock_t) k s s' :
  rw_stuck s -> sy_threads s !! t = Some th -> t_code th = c0 :: k -> exec_cmd t c0 k th s = Some s' ->
  calm c0 = true /\ asking (code_of s' t).
Proof.
  intros [Hi [Hr Hw] Hq Hask] Hth Ec He. specialize (Hask t).
  assert (code_of s t = c0 :: k) as Hc by (unfold code_of; by rewrite Hth).
  rewrite Hc in Hask. pose proof (writer_waits_busy s t (t_regs th) Hq) as Hbusy.
  assert (lock_busy (mkView t (qlen s) (t_regs th) (sy_obj s)) = true) as Hbusy' by (unfold lock_busy; by rewrite Hbusy, orb_true_r).
  assert (calm c0 = true /\ match c0 with Assert _ => False | _ => True end) as [Hcalm Hna].
  { inversion Hask as [|c Hasks E|E|E|E|E|E|E|E|E|E|E|E]; subst; try done. destruct Hasks as [E|[E|[E|E]]]; by injection E as -> _. }
  split; [done|]. pose proof (calm_code t c0 k th s s' Hcalm Hth Ec He Hna) as Hn.
  inversion Hask as [|c Hasks E|E|E|E|E|E|E|E|E|E|E|E]; subst; cbn [next_code read_loop write_loop] in Hn;
    try rewrite Hbusy in Hn; try rewrite Hbusy' in Hn; cbn [negb app] in Hn; set_unfold in Hn; destruct_or? Hn; try done;
    try (rewrite Hn; first [by constructor | by apply ask_read_try | by apply ask_write_try]).
  destruct Hasks as [E|[E|[E|E]]]; injection E as -> ->; cbn [next_code] in Hn; set_unfold in Hn;
    destruct Hn as [->|[->|[]]]; first [by constructor | by apply ask_start; unfold rw_asks; auto].
Qed.

Lemma rw_stuck_step e s s' :
  rw_stuck s -> rw_client e s -> no_interrupt e -> happens e s = Some s' -> rw_stuck s'.
Proof.
  intros Hst Hcl Hni He. pose proof (rw_step e s s' (rs_inv _ Hst) Hcl He) as Hinv. pose proof Hst as [Hi [Hr Hw] Hq Hask].
  destruct e as [t|t c|t reason|t]; cbn [happens] in He.
  - apply step_thread_inv in He as (th & c & k & Hth & Ha & _ & Ec & E).
    destruct (asking_step t th c k s s' Hst Hth Ec E) as [Hcalm Hk].
    destruct (calm_step t c k th s s' writersq Hcalm E Hq) as [Ho Hq']. split; [done|by rewrite Ho|done|].
    intros u. destruct (decide (u = t)) as [->|Hne]; [done|]. erewrite exec_cmd_other; [apply Hask|apply Hi..|done|done|done|done].
  - destruct (sy_threads s !! t) as [th|] eqn:Hth; [|done]. destruct (t_code th) eqn:Ec; [|done]. injection He as <-.
    split; try done. intros u. rewrite code_of_with. case_decide; [|apply Hask]. cbn [t_code].
    destruct Hcl as [[H1 _]|[[_ H1]|[_ H1]]]; [by apply ask_start| |]; rewrite ?Hr, ?Hw in H1; by apply not_elem_of_nil in H1.
  - done.
  - destruct (sy_threads s !! t) as [th|] eqn:Hth; [|done]. injection He as <-. split; try done.
    intros u. rewrite code_of_with. case_decide; [|apply Hask]. subst u. specialize (Hask t). unfold code_of in Hask.
    by rewrite Hth in Hask.
Qed.

(** ** How it comes about *)
Lemma runs_inv es s s' : rw_inv s -> (forall e x, e ∈ es -> rw_client e x) -> runs es s = Some s' -> rw_inv s'.
Proof. intros Hi Hcl Hr. eapply reaches_invariant; [apply rw_step|done|]. by eapply runs_reaches. Qed.

Lemma last_release_runs s t th :
  rw_inv s -> sy_locks s = ∅ -> rw_rheld (sy_obj s) = [t] -> sy_threads s !! t = Some th -> t_asleep th = false ->
  t_code th = rw_readlock_release -> (1 <= qlen s writersq)%nat ->
  exists s', runs (replicate 6 (Run t)) s = Some s' /\
    at_code s t s' (mkRw 0 0 [] []) ∅ (fun q => if decide (q = writersq) then tail (queue_of s writersq) else queue_of s q) [].
Proof.
  intros Hi Hl Hr Hth Ha Hc Hq.
  assert (rw_readers (sy_obj s) = 1) as Hread by (rewrite (ro_readers _ (ri_obj _ Hi)), Hr; done).
  assert (rw_wheld (sy_obj s) = []) as Hw.
  { destruct (ro_excl _ (ri_obj _ Hi)) as [?|[_ ?]]; [done|]. congruence. }
  assert (rw_writer (sy_obj s) = 0) as Hw0 by (rewrite (ro_writer _ (ri_obj _ Hi)), Hw; done).
  assert (at_code s t s (sy_obj s) ∅ (queue_of s) rw_readlock_release) as Hat by (split; try done; [apply Hi..|eauto]).
  eapply run_lock; [exact Hat|done|]. intros s1 Hat1.
  eapply run_do with (o' := mkRw 0 0 [] []); [exact Hat1| |].
  { intros. cbn. rewrite Hw0, Hread, Hr, Hw. unfold drop_tid. by rewrite filter_cons_False by auto. }
  intros s2 Hat2. eapply run_if with (bv := true); [exact Hat2|done|]. intros s3 Hat3.
  eapply run_if with (bv := true); [exact Hat3| |].
  { intros ql r Hql. cbn [v_len]. rewrite Hql. by apply Nat.leb_le. }
  intros s4 Hat4. eapply run_wakeup; [exact Hat4|done|]. intros s5 Hat5.
  eapply run_unlock; [exact Hat5|apply lookup_insert_eq|]. intros s6 Hat6. apply run_to_done.
  by rewrite delete_insert_id in Hat6.
Qed.

(** The whole call, from a state where the thread is between operations. *)
Lemma last_release_call s t th :
  rw_inv s -> sy_locks s = ∅ -> rw_rheld (sy_obj s) = [t] -> sy_threads s !! t = Some th -> t_asleep th = false -> t_code th = [] ->
  (1 <= qlen s writersq)%nat ->
  exists s', runs (Call t rw_readlock_release :: replicate 6 (Run t)) s = Some s' /\ rw_inv s' /\
    at_code s t s' (mkRw 0 0 [] []) ∅ (fun q => if decide (q = writersq) then tail (queue_of s writersq) else queue_of s q) [].
Proof.
  intros Hi Hl Hr Hth Ha Hc Hq. pose proof (ri_panic _ Hi) as Hp.
  assert (rw_client (Call t rw_readlock_release) s) as Hcl by (right; left; split; [done|rewrite Hr; left]).
  set (th1 := mkThread (t_asleep th) (t_wakeup th) (t_canceled th) (t_wait_queue th) rw_readlock_release regs0).
  set (s1 := with_thread t th1 s).
  assert (happens (Call t rw_readlock_release) s = Some s1) as E1 by (cbn; by rewrite Hth, Hc).
  assert (rw_inv s1) as Hi1 by (by eapply rw_step).
  destruct (last_release_runs s1 t th1) as (s' & E & Hat); try done; [apply lookup_insert_eq|].
  exists s'. split_and!; [cbn [runs]; by rewrite E1| |].
  - eapply runs_inv; [exact Hi1| |exact E]. intros e x He. apply elem_of_replicate in He as [-> _]. done.
  - destruct Hat as [H1 H2 H3 H4 H5 H6 H7 H8 H9]. split; try done.
    + intros u Hu. rewrite H8 by done. unfold s1. by rewrite code_of_with, decide_False.
    + intros u x Hu Hx. apply H9; [done|]. unfold s1. by rewrite threads_with, decide_False.
Qed.

Lemma last_reader_stuck s t th :
  rw_inv s -> sy_locks s = ∅ -> rw_rheld (sy_obj s) = [t] -> sy_threads s !! t = Some th -> t_asleep th = false -> t_code th = [] ->
  (2 <= qlen s writersq)%nat -> (forall u, u <> t -> asking (code_of s u)) ->
  exists s', runs (Call t rw_readlock_release :: replicate 6 (Run t)) s = Some s' /\ rw_stuck s'.
Proof.
  intros Hi Hl Hr Hth Ha Hc Hq Hask.
  destruct (last_release_call s t th) as (s' & E & Hi' & [_ _ _ H4 _ H6 (th' & Hth' & _ & Hc') H8 _]); try done; [lia|].
  exists s'. split; [done|]. split; [done|by rewrite H4| |].
  - rewrite H6, decide_True by done. unfold qlen in Hq. destruct (queue_of s writersq) as [|a [|b l]]; simpl in *; [lia..|done].
  - intros u. destruct (decide (u = t)) as [->|Hne]; [|rewrite H8 by done; auto]. unfold code_of. rewrite Hth'. cbn. rewrite Hc'. constructor.
Qed.

(** ** One waiting writer gets the lock *)
Definition write_waiting : list (cmd rwlock_t) := [Resume (Some guard); write_loop; Do writer_inc; SpinUnlock guard].

Lemma woken_writer_runs s w th :
  rw_inv s -> sy_locks s = ∅ -> sy_obj s = mkRw 0 0 [] [] -> queue_of s writersq = [] ->
  sy_threads s !! w = Some th -> t_asleep th = false -> t_code th = write_waiting ->
  exists s', runs (replicate 4 (Run w)) s = Some s' /\ at_code s w s' (mkRw 1 0 [] [w]) ∅ (queue_of s) [].
Proof.
  intros Hi Hl Ho Hq Hth Ha Hc.
  assert (at_code s w s (sy_obj s) ∅ (queue_of s) write_waiting) as Hat by (split; try done; [apply Hi..|eauto]).
  rewrite Ho in Hat. eapply run_resume; [exact Hat|done|]. intros s1 Hat1.
  eapply run_while with (bv := false); [exact Hat1| |].
  { intros ql r Hql. cbn. by rewrite Hql, Hq. }
  intros s2 Hat2. eapply run_do; [exact Hat2|intros; cbn; reflexivity|]. intros s3 Hat3.
  eapply run_unlock; [exact Hat3|apply lookup_insert_eq|]. intros s4 Hat4. apply run_to_done.
  by rewrite delete_insert_id in Hat4.
Qed.

Lemma runs_app {S} (es1 es2 : list (event S)) (s s1 : sys S) : runs es1 s = Some s1 -> runs (es1 ++ es2) s = runs es2 s1.
Proof.
  revert s. induction es1 as [|e es1 IH]; intros s; cbn; [by intros [= ->]|]. destruct (happens e s); [apply IH|done].
Qed.

Lemma last_reader_handoff s t th w :
  rw_inv s -> sy_locks s = ∅ -> rw_rheld (sy_obj s) = [t] -> sy_threads s !! t = Some th -> t_asleep th = false -> t_code th = [] ->
  queue_of s writersq = [w] -> code_of s w = write_waiting ->
  exists s', runs ((Call t rw_readlock_release :: replicate 6 (Run t)) ++ replicate 4 (Run w)) s = Some s' /\
    sy_locks s' = ∅ /\ sy_obj s' = mkRw 1 0 [] [w].
Proof.
  intros Hi Hl Hr Hth Ha Hc Hq Hw.
  destruct (last_release_call s t th) as (s1 & E1 & Hi1 & [H1 _ _ H4 H5 H6 _ H8 _]); try done; [unfold qlen; by rewrite Hq|].
  destruct (proj1 (wq_member _ (ri_queues _ Hi) writersq w)) as (x & Hx & Hxa & Hxq); [rewrite Hq; left|].
  assert (w <> t) as Hwt by (intros ->; congruence).
  assert (code_of s1 w = write_waiting) as Hc1 by (by rewrite H8).
  destruct (sy_threads s1 !! w) as [y|] eqn:Hy; [|unfold code_of in Hc1; by rewrite Hy in Hc1].
  assert (t_asleep y = false) as Hya.
  { destruct (t_asleep y) eqn:Hya; [|done]. destruct (wq_asleep _ H1 w y Hy Hya) as [q Hyq].
    assert (w ∈ queue_of s1 q) as Hin by (apply (wq_member _ H1); by exists y). rewrite H6, Hq in Hin.
    case_decide; [by apply not_elem_of_nil in Hin|]. apply (wq_member _ (ri_queues _ Hi)) in Hin as (z & Hz & _ & Hzq). congruence. }
  destruct (woken_writer_runs s1 w y) as (s' & E & [_ _ _ G1 G2 _ _ _ _]); try done; [by rewrite H6, Hq| |].
  { unfold code_of in Hc1. by rewrite Hy in Hc1. }
  exists s'. by rewrite (runs_app _ _ _ _ E1).
Qed.
