(* ===== verification/WaitMonitor.v ===== *)
(** * Objects behind a guard

    An object whose operations hold its spinlock while they look at it: an assertion
    for the thread inside, an invariant for when nobody is inside, and the rule that
    they hold in every execution. *)
From S2P Require Import Prelude Errno Queue Wait WaitFacts.

Section Monitor.
Context {S : Type}.
Implicit Types (s : sys S) (th : thread S) (t u : tid) (k : list (cmd S)) (o : S) (Q : nat -> list tid) (r : regs).

Definition regs_of s t : regs := from_option t_regs regs0 (sy_threads s !! t).

(** The state a command of [t] leads to. *)
Record moves s s' t o (l : gmap nat tid) Q r k : Prop := {
  mv_obj : sy_obj s' = o;
  mv_locks : sy_locks s' = l;
  mv_queues : forall q, queue_of s' q = Q q;
  mv_regs : regs_of s' t = r;
  mv_code : code_of s' t = k
}.

(** No thread has been hit by a signal, a timeout or a cancellation. *)
Definition quiet s : Prop := forall t th, sy_threads s !! t = Some th -> t_canceled th = false /\ wakeup_interrupt (t_wakeup th) = false.

Lemma at_self s t th : code_of (with_thread t th s) t = t_code th /\ regs_of (with_thread t th s) t = t_regs th.
Proof. unfold code_of, regs_of. cbn. by rewrite lookup_insert_eq. Qed.

Section Commands.
Context (t : tid) (k : list (cmd S)) (th : thread S) (s s' : sys S).
Hypothesis Hth : sy_threads s !! t = Some th.
Hypothesis Ha : t_asleep th = false.
Hypothesis Hq : wq_ok s.

Lemma moves_lock l :
  exec_cmd t (SpinLock l) k th s = Some s' ->
  (sy_locks s !! l = None /\ moves s s' t (sy_obj s) (<[l := t]> (sy_locks s)) (queue_of s) (t_regs th) k) \/ s' = panicked s.
Proof.
  cbn. destruct (sy_locks s !! l) as [u|]; [case_decide; [|done]|]; intros [= <-]; [by right|]. left. split; [done|].
  split; try done; unfold regs_of, code_of; cbn; by rewrite lookup_insert_eq.
Qed.
Lemma moves_unlock l :
  exec_cmd t (SpinUnlock l) k th s = Some s' ->
  moves s s' t (sy_obj s) (delete l (sy_locks s)) (queue_of s) (t_regs th) k \/ s' = panicked s.
Proof.
  cbn. case_decide; intros [= <-]; [left|by right]. split; try done; unfold regs_of, code_of; cbn; by rewrite lookup_insert_eq.
Qed.
Lemma moves_do f :
  exec_cmd t (Do f) k th s = Some s' ->
  let ro := f (mkView t (qlen s) (t_regs th) (sy_obj s)) in moves s s' t ro.2 (sy_locks s) (queue_of s) ro.1 k.
Proof.
  cbn. destruct (f _) as [r o]. intros [= <-]. split; try done; unfold regs_of, code_of; cbn; by rewrite lookup_insert_eq.
Qed.
Lemma moves_if b c1 c2 :
  exec_cmd t (If b c1 c2) k th s = Some s' ->
  moves s s' t (sy_obj s) (sy_locks s) (queue_of s) (t_regs th)
    ((if b (mkView t (qlen s) (t_regs th) (sy_obj s)) then c1 else c2) ++ k).
Proof. cbn. intros [= <-]. split; try done; unfold regs_of, code_of; cbn; by rewrite lookup_insert_eq. Qed.
Lemma moves_wakeup q reason whence :
  validate_wakeup_reason reason = true -> bad_whence whence = false -> exec_cmd t (Wakeup q reason whence) k th s = Some s' ->
  exists r, moves s s' t (sy_obj s) (sy_locks s) (fun q' => if decide (q' = q) then tail (queue_of s q) else queue_of s q') r k.
Proof.
  intros Hr Hw. cbn. destruct (sched_wakeup_whence q reason whence s) as [e s1] eqn:E. intros [= <-].
  destruct (wakeup_whence_ok _ _ _ _ _ _ Hq Hr E) as (_ & [F1 F2 F3 F4 F5 F6] & Hqs). rewrite Hw in Hqs. eexists.
  split; try done; unfold regs_of, code_of; cbn; by rewrite lookup_insert_eq.
Qed.
Lemma moves_wakeup_all q reason :
  validate_wakeup_reason reason = true -> exec_cmd t (WakeupAll q reason) k th s = Some s' ->
  exists r, r_cnt r = Z.of_nat (length (queue_of s q)) /\
    moves s s' t (sy_obj s) (sy_locks s) (fun q' => if decide (q' = q) then [] else queue_of s q') r k.
Proof.
  intros Hr. cbn. destruct (sched_wakeup_all q reason s) as [[e n] s1] eqn:E. intros [= <-].
  destruct (wakeup_all_ok _ _ _ _ _ _ Hq Hr E) as (_ & [F1 F2 F3 F4 F5 F6] & Hn & Hqs). exists (set_cnt n (set_err e (t_regs th))).
  split; [by rewrite Hn|]. split; try done; unfold regs_of, code_of; cbn; by rewrite lookup_insert_eq.
Qed.
(** Without interruption a thread that waits goes to sleep. *)
Lemma moves_wait q l :
  quiet s -> exec_cmd t (Wait q QUEUE_TAIL (Some l)) k th s = Some s' -> sy_locks s !! l = Some t ->
  moves s s' t (sy_obj s) (delete l (sy_locks s)) (fun q' => if decide (q' = q) then queue_of s q ++ [t] else queue_of s q')
    (t_regs th) (Resume (Some l) :: k).
Proof.
  intros Hqu. destruct (Hqu t th Hth) as [Hc Hw]. cbn. intros [= <-] Hl. unfold sched_wait_whence, current_check_interrupted.
  cbv zeta beta iota. cbn [t_canceled]. rewrite Hc, Hw. cbn [orb]. rewrite Z.eqb_refl. cbn [negb]. rewrite decide_False.
  2: { intros Hin. apply (wq_member _ Hq) in Hin as (th' & Hth' & Ha' & _). congruence. }
  rewrite decide_True by done. split; try done.
  - intros q'. apply (queue_of_with s q (queue_of s q ++ [t]) q').
  - unfold regs_of. cbn. by rewrite lookup_insert_eq.
  - unfold code_of. cbn. by rewrite lookup_insert_eq.
Qed.
Lemma moves_resume l :
  exec_cmd t (Resume (Some l)) k th s = Some s' ->
  (sy_locks s !! l = None /\ exists r, moves s s' t (sy_obj s) (<[l := t]> (sy_locks s)) (queue_of s) r k) \/ s' = panicked s.
Proof.
  cbn. unfold sched_resume, current_check_interrupted. cbv zeta beta iota.
  destruct (sy_locks s !! l) as [u|]; [case_decide; [|done]|]; intros [= <-]; [by right|]. left. split; [done|]. eexists.
  split; try done; unfold regs_of, code_of; cbn; by rewrite lookup_insert_eq.
Qed.
End Commands.

(** ** Quiet executions *)
Definition wakes_normally (c : cmd S) : Prop :=
  match c with
  | Wakeup _ reason _ | WakeupAll _ reason => reason = WAKEUP_NORMAL
  | _ => True
  end.

Lemma quiet_with s t th : quiet s -> t_canceled th = false -> wakeup_interrupt (t_wakeup th) = false -> quiet (with_thread t th s).
Proof. intros Hq H1 H2 u x. rewrite threads_with. case_decide; [intros [= <-]; done|]. apply Hq. Qed.
Lemma quiet_detach s q t err s' :
  wq_ok s -> quiet s -> t ∈ queue_of s q -> sched_detach_and_wakeup q t WAKEUP_NORMAL s = (err, s') -> quiet s'.
Proof.
  intros Hok Hq Hin. destruct (detach_eq s q t WAKEUP_NORMAL Hok Hin eq_refl) as (th & Hth & _ & ->). intros [= _ <-].
  unfold woken. apply quiet_with; [done| |done]. apply (Hq t th Hth).
Qed.
Lemma quiet_loop q ts c s err n s' :
  wq_ok s -> quiet s -> queue_of s q = ts -> wakeup_loop q WAKEUP_NORMAL ts c s = (err, n, s') -> quiet s'.
Proof.
  revert c s. induction ts as [|t ts IH]; intros c s Hok Hq Eq; cbn [wakeup_loop]; [by intros [= _ _ <-]|].
  assert (t ∈ queue_of s q) as Hin by (rewrite Eq; left).
  destruct (sched_detach_and_wakeup q t WAKEUP_NORMAL s) as [e s1] eqn:E. pose proof (quiet_detach _ _ _ _ _ Hok Hq Hin E) as Hq1.
  assert (sched_wakeup_whence q WAKEUP_NORMAL QUEUE_HEAD s = (e, s1)) as E'.
  { unfold sched_wakeup_whence. rewrite Eq. exact E. }
  destruct (wakeup_whence_ok s q WAKEUP_NORMAL QUEUE_HEAD e s1 Hok eq_refl E') as (Hok1 & _ & Hqs). destruct (e =? 0); cbn [negb].
  - apply IH; [done..|]. rewrite Hqs, decide_True, Eq by done. done.
  - by intros [= _ _ <-].
Qed.

Lemma exec_quiet t c k th s s' :
  wq_ok s -> quiet s -> sy_threads s !! t = Some th -> wakes_normally c -> exec_cmd t c k th s = Some s' -> quiet s'.
Proof.
  intros Hok Hq Hth Hn He. destruct (Hq t th Hth) as [Hc Hw].
  assert (forall s1 k1 r, quiet s1 -> quiet (with_thread t (mkThread false (t_wakeup th) (t_canceled th) (t_wait_queue th) k1 r) s1)) as Hgo.
  { intros. by apply quiet_with. }
  revert He. destruct c; cbn [exec_cmd].
  - destruct (sy_locks s !! l); [case_decide; [|done]|]; intros [= <-]; [done|]. apply (Hgo s); done.
  - case_decide; intros [= <-]; [|done]. apply (Hgo s); done.
  - destruct (f _) as [r o]. intros [= <-]. apply (Hgo s); done.
  - intros [= <-]. by apply Hgo.
  - intros [= <-]. by apply Hgo.
  - destruct (b _); intros [= <-]; [by apply Hgo|done].
  - intros [= <-]. unfold sched_wait_whence, current_check_interrupted. cbv zeta beta iota. cbn [t_canceled].
    destruct (_ =? 0); cbn [negb]; [|by apply quiet_with]. case_decide; [by apply quiet_with|].
    destruct (bad_whence whence); [by apply quiet_with|].
    destruct l as [l|]; [case_decide|]; apply (quiet_with (with_queue q _ s)); done.
  - unfold sched_resume, current_check_interrupted. cbv zeta beta iota.
    destruct l as [l|]; [|intros [= <-]; by apply quiet_with].
    destruct (sy_locks s !! l); [case_decide; [|done]|]; intros [= <-]; [done|]. by apply (quiet_with s).
  - cbn in Hn. subst reason. destruct (sched_wakeup_whence q WAKEUP_NORMAL whence s) as [e s1] eqn:E. intros [= <-]. apply Hgo.
    unfold sched_wakeup_whence in E. destruct (bad_whence whence); [by injection E as _ <-|].
    destruct (queue_of s q) as [|u us] eqn:Eq; [by injection E as _ <-|]. cbn in E. eapply quiet_detach; [..|exact E]; [done..|].
    rewrite Eq. left.
  - cbn in Hn. subst reason. destruct (sched_wakeup_all q WAKEUP_NORMAL s) as [[e n] s1] eqn:E. intros [= <-]. apply Hgo.
    by eapply quiet_loop.
  - intros [= <-]. by apply Hgo.
Qed.

(** Taking and giving back locks leaves the locals of the other threads alone. *)
Lemma other_regs t c k th s s' u :
  exec_cmd t c k th s = Some s' -> match c with SpinLock _ | SpinUnlock _ | Resume _ => True | _ => False end -> u <> t ->
  regs_of s' u = regs_of s u.
Proof.
  intros He Hc Hu. assert (forall s1 x, regs_of (with_thread t x s1) u = regs_of s1 u) as Hgo.
  { intros. unfold regs_of. by rewrite threads_with, decide_False. }
  revert He. destruct c; try done; cbn [exec_cmd].
  - destruct (sy_locks s !! l); [case_decide; [|done]|]; intros [= <-]; [done|]. apply (Hgo s).
  - case_decide; intros [= <-]; [|done]. apply (Hgo s).
  - unfold sched_resume, current_check_interrupted. cbv zeta beta iota.
    destruct l as [l|]; [|intros [= <-]; apply (Hgo s)].
    destruct (sy_locks s !! l); [case_decide; [|done]|]; intros [= <-]; [done|]. apply (Hgo s).
Qed.
End Monitor.
