(* ===== verification/Mutex.v ===== *)
(** * Mutexes (sync/mutex.c)

    Each function is the list of its statements; [m_held] records which threads hold
    the mutex, for the theorems. *)
From S2P Require Import Prelude Errno Queue Wait.

Record mtx_t := mkMtx {
  m_locked : Z;
  m_recurs : Z;
  m_owner : option tid;
  m_held : list tid
}.
Definition m_guard : nat := 0.
Definition m_waitQ : nat := 0.

Definition mtx_init : mtx_t := mkMtx 0 0 None [].

(** [mtx->m_locked && mtx->m_owner == current] *)
Definition mtx_mine (v : view mtx_t) : bool :=
  negb (m_locked (v_obj v) =? 0) && bool_decide (m_owner (v_obj v) = Some (v_self v)).
Definition mtx_busy (v : view mtx_t) : bool := negb (m_locked (v_obj v) =? 0).
Definition mtx_take (v : view mtx_t) : regs * mtx_t :=
  (v_regs v, mkMtx 1 1 (Some (v_self v)) (v_self v :: m_held (v_obj v))).
Definition mtx_retake (v : view mtx_t) : regs * mtx_t :=
  (v_regs v, mkMtx 1 (u64 (m_recurs (v_obj v) + 1)) (Some (v_self v)) (v_self v :: m_held (v_obj v))).
Definition mtx_count_down (v : view mtx_t) : regs * mtx_t :=
  let o := v_obj v in
  (v_regs v, mkMtx (m_locked o) (u64 (m_recurs o - 1)) (m_owner o) (m_held o)).
Definition mtx_clear (v : view mtx_t) : regs * mtx_t :=
  let o := v_obj v in
  (v_regs v, mkMtx 0 (m_recurs o) None (filter (fun u => u <> v_self v) (m_held o))).

(** A thread sleeps at most once: the test is an [if]. *)
Definition mtx_lock : list (cmd mtx_t) :=
  [SpinLock m_guard;
   Assert (fun v => negb (mtx_mine v));
   If mtx_busy [Wait m_waitQ QUEUE_TAIL (Some m_guard)] [];
   Do mtx_take;
   SpinUnlock m_guard].
Definition mtx_unlock : list (cmd mtx_t) :=
  [SpinLock m_guard;
   Assert mtx_mine;
   Assert (fun v => 0 <? m_recurs (v_obj v));
   Do mtx_count_down;
   If (fun v => m_recurs (v_obj v) =? 0) [Do mtx_clear; Wakeup m_waitQ WAKEUP_NORMAL QUEUE_HEAD] [];
   SpinUnlock m_guard].
Definition mtx_trylock : list (cmd mtx_t) :=
  [SpinLock m_guard;
   Assert (fun v => negb (mtx_mine v));
   If (fun v => m_locked (v_obj v) =? 0) [Do (fun v => (set_ret 1 (v_regs v), (mtx_take v).2))] [];
   SpinUnlock m_guard].
Definition mtx_islocked : list (cmd mtx_t) :=
  [SpinLock m_guard;
   Do (fun v => (set_ret (if mtx_mine v then 1 else 0) (v_regs v), v_obj v));
   SpinUnlock m_guard].
Definition mtx_assert_locked : list (cmd mtx_t) :=
  mtx_islocked ++ [Assert (fun v => negb (r_ret (v_regs v) =? 0))].
Definition mtx_recursive_lock : list (cmd mtx_t) :=
  [SpinLock m_guard;
   If (fun v => mtx_busy v && negb (bool_decide (m_owner (v_obj v) = Some (v_self v))))
     [Wait m_waitQ QUEUE_TAIL (Some m_guard)] [];
   Do mtx_retake;
   SpinUnlock m_guard].
