(* ===== verification/Cond.v ===== *)
(** * Condition variables (sync/cond.c)

    The counter is an unsigned 64-bit word of which the code looks at the low 32
    bits as an [int].  Lock 0 is the lock of the condition variable, lock 1 the
    caller's lock [lk], which may be absent. *)
From S2P Require Import Prelude Errno Queue Wait WaitFacts WaitMonitor.

Record cond_t := mkCond { cond_count : Z }.
Definition cond_guard : nat := 0.
Definition caller_lock : nat := 1.
Definition cond_waiters : nat := 0.

Definition cond_init : cond_t := mkCond 0.
Definition cond_add (k : Z) (v : view cond_t) : cond_t := mkCond (u64 (cond_count (v_obj v) + k)).

(** [if ((int)atomic_inc(&cond->count) >= 0)]: [r_cnt] is the value before. *)
Definition cond_inc (v : view cond_t) : regs * cond_t := (set_cnt (s32 (cond_count (v_obj v))) (v_regs v), cond_add 1 v).
Definition keep_err (v : view cond_t) : regs * cond_t := (set_ret (r_err (v_regs v)) (v_regs v), v_obj v).
Definition cond_wait (lk : bool) : list (cmd cond_t) :=
  (if lk then [SpinUnlock caller_lock] else []) ++
  [SpinLock cond_guard;
   Do cond_inc;
   If (fun v => 0 <=? r_cnt (v_regs v)) [Wait cond_waiters QUEUE_TAIL (Some cond_guard); Do keep_err] [];
   SpinUnlock cond_guard] ++
  (if lk then [SpinLock caller_lock] else []).

Definition cond_signal : list (cmd cond_t) :=
  [SpinLock cond_guard;
   Wakeup cond_waiters WAKEUP_NORMAL QUEUE_HEAD;
   Do (fun v => (v_regs v, cond_add (-1) v));
   SpinUnlock cond_guard].

Definition cond_broadcast : list (cmd cond_t) :=
  [SpinLock cond_guard;
   WakeupAll cond_waiters WAKEUP_NORMAL;
   Do (fun v => (v_regs v, mkCond (if r_cnt (v_regs v) =? 0 then two64 - 1 else 0)));
   SpinUnlock cond_guard].

(** [cond_free] up to the release of the memory. *)
Definition cond_free : list (cmd cond_t) :=
  [SpinLock cond_guard; WakeupAll cond_waiters WAKEUP_NORMAL; SpinUnlock cond_guard].

(** * The invariant of condition variables

    While the counter stays within the range of an [int] and nobody interrupts a
    waiting thread: a counter [z >= 0] is the number of waiting threads, and with
    [z < 0] nobody waits and [- z] signals are stored. *)
Implicit Types (s : sys cond_t) (o : cond_t) (t u : tid) (c k : list (cmd cond_t)) (Q : nat -> list tid) (r : regs) (z : Z).

Definition int_range z : Prop := - 2147483648 < z < 2147483647.
Definition counts o z : Prop := cond_count o = u64 z.

(** Waiting threads for a positive counter, none for a negative one. *)
Definition good z Q : Prop := Z.of_nat (length (Q cond_waiters)) = Z.max z 0.
Definition int_closed z : Prop := - 2147483648 <= z <= 2147483647.
Definition cond_ok o Q : Prop := exists z, counts o z /\ int_closed z /\ good z Q.

(** The counter is within the range of an [int], with room for one step. *)
Definition in_range o : Prop := exists z, counts o z /\ int_range z.

Lemma counts_inj o z z' : counts o z -> counts o z' -> - two64 / 2 <= z < two64 / 2 -> - two64 / 2 <= z' < two64 / 2 -> z = z'.
Proof.
  unfold counts, u64. intros -> E H1 H2. change (- two64 / 2) with (- 9223372036854775808) in *. change (two64 / 2) with 9223372036854775808 in *.
  pose proof (Z.div_mod z two64). pose proof (Z.div_mod z' two64). unfold two64 in *. lia.
Qed.
Lemma s32_counts o z : counts o z -> int_range z -> s32 (cond_count o) = z.
Proof.
  unfold counts, int_range, s32, u64. intros -> Hz. rewrite Z.mod_mod_divide by (exists 4294967296; done).
  destruct (Z.ltb_spec z 0) as [Hn|Hn].
  - replace (z mod 4294967296) with (z + 4294967296); [|symmetry; rewrite <- (Z.mod_small (z + 4294967296) 4294967296) by lia;
      rewrite <- (Z_mod_plus_full z 1 4294967296); f_equal; lia].
    rewrite (proj2 (Z.ltb_ge _ _)) by lia. lia.
  - rewrite Z.mod_small by lia. rewrite (proj2 (Z.ltb_lt _ _)) by lia. done.
Qed.
Lemma counts_add o z d : counts o z -> counts (mkCond (u64 (cond_count o + d))) (z + d).
Proof. unfold counts, u64. cbn. intros ->. by rewrite Z.add_mod_idemp_l by (unfold two64; lia). Qed.

(** ** Where threads can be *)
Definition cond_test : cmd cond_t :=
  If (fun v => 0 <=? r_cnt (v_regs v)) [Wait cond_waiters QUEUE_TAIL (Some cond_guard); Do keep_err] [].
Definition wait_body (tl : list (cmd cond_t)) : list (cmd cond_t) := Do cond_inc :: cond_test :: SpinUnlock cond_guard :: tl.
Definition signal_dec : cmd cond_t := Do (fun v => (v_regs v, cond_add (-1) v)).
Definition broadcast_set : cmd cond_t := Do (fun v => (v_regs v, mkCond (if r_cnt (v_regs v) =? 0 then two64 - 1 else 0))).
Definition wait_tail (tl : list (cmd cond_t)) : Prop := tl = [] \/ tl = [SpinLock caller_lock].

Inductive c_outside : list (cmd cond_t) -> Prop :=
  | co_idle : c_outside []
  | co_relock : c_outside [SpinLock caller_lock]
  | co_unlock : c_outside (SpinUnlock caller_lock :: SpinLock cond_guard :: wait_body [SpinLock caller_lock])
  | co_wait tl : wait_tail tl -> c_outside (SpinLock cond_guard :: wait_body tl)
  | co_asleep tl : wait_tail tl -> c_outside (Resume (Some cond_guard) :: Do keep_err :: SpinUnlock cond_guard :: tl)
  | co_signal : c_outside cond_signal
  | co_broadcast : c_outside cond_broadcast.

Inductive c_inside r o Q : list (cmd cond_t) -> Prop :=
  | ci_wait tl : wait_tail tl -> cond_ok o Q -> c_inside r o Q (wait_body tl)
  | ci_test tl z : wait_tail tl -> counts o (z + 1) -> int_range z -> good z Q -> r_cnt r = z ->
      c_inside r o Q (cond_test :: SpinUnlock cond_guard :: tl)
  | ci_sleep tl z : wait_tail tl -> counts o (z + 1) -> int_range z -> good z Q -> 0 <= z ->
      c_inside r o Q (Wait cond_waiters QUEUE_TAIL (Some cond_guard) :: Do keep_err :: SpinUnlock cond_guard :: tl)
  | ci_keep tl : wait_tail tl -> cond_ok o Q -> c_inside r o Q (Do keep_err :: SpinUnlock cond_guard :: tl)
  | ci_exit tl : wait_tail tl -> cond_ok o Q -> c_inside r o Q (SpinUnlock cond_guard :: tl)
  | ci_signal : cond_ok o Q -> c_inside r o Q (drop 1 cond_signal)
  | ci_dec z : counts o z -> int_closed z -> good (z - 1) Q -> c_inside r o Q [signal_dec; SpinUnlock cond_guard]
  | ci_broadcast : cond_ok o Q -> c_inside r o Q (drop 1 cond_broadcast)
  | ci_set : Q cond_waiters = [] -> c_inside r o Q [broadcast_set; SpinUnlock cond_guard].

Record cond_inv s : Prop := {
  cv_queues : wq_ok s;
  cv_code : code_ok s;
  cv_quiet : quiet s;
  cv_obj : sy_locks s !! cond_guard = None -> cond_ok (sy_obj s) (queue_of s);
  cv_placed : forall u, if decide (sy_locks s !! cond_guard = Some u)
    then c_inside (regs_of s u) (sy_obj s) (queue_of s) (code_of s u) else c_outside (code_of s u)
}.

Definition cond_client (e : event cond_t) : Prop :=
  match e with
  | Run _ => True
  | Call _ c => c = cond_wait true \/ c = cond_wait false \/ c = cond_signal \/ c = cond_broadcast
  | _ => False
  end.

(** ** Steps *)
Lemma good_ext z Q Q' : Q cond_waiters = Q' cond_waiters -> good z Q -> good z Q'.
Proof. unfold good. by intros ->. Qed.
Lemma cond_ok_ext o Q Q' : Q cond_waiters = Q' cond_waiters -> cond_ok o Q -> cond_ok o Q'.
Proof. intros E (z & H1 & H2 & H3). exists z. split_and!; [done..|by eapply good_ext]. Qed.
Lemma c_inside_ext r o Q Q' c : Q cond_waiters = Q' cond_waiters -> c_inside r o Q c -> c_inside r o Q' c.
Proof.
  intros E H. destruct H; [apply ci_wait|eapply ci_test|eapply ci_sleep|apply ci_keep|apply ci_exit|apply ci_signal|eapply ci_dec
    |apply ci_broadcast|apply ci_set; by rewrite <- E]; eauto using good_ext, cond_ok_ext.
Qed.

(** Commands that only take or give back a lock. *)
Definition lockish (c : cmd cond_t) : Prop := match c with SpinLock _ | SpinUnlock _ | Resume _ => True | _ => False end.

Lemma cond_panic s : cond_inv s -> cond_inv (panicked s).
Proof. intros [H1 H2 H3 H4 H5]. split; try done. by apply (wq_ok_ext s). Qed.

Lemma cond_finish s s' t th (c0 : cmd cond_t) k o' (l' : gmap nat tid) Q' r' k' :
  cond_inv s -> sy_threads s !! t = Some th -> t_asleep th = false -> t_code th = c0 :: k -> exec_cmd t c0 k th s = Some s' ->
  wakes_normally c0 -> moves s s' t o' l' Q' r' k' ->
  (forall u, u <> t -> l' !! cond_guard = Some u <-> sy_locks s !! cond_guard = Some u) ->
  (sy_locks s !! cond_guard = Some t \/ lockish c0 /\ o' = sy_obj s /\ Q' cond_waiters = queue_of s cond_waiters) ->
  (l' !! cond_guard = None -> cond_ok o' Q') ->
  (if decide (l' !! cond_guard = Some t) then c_inside r' o' Q' k' else c_outside k') -> cond_inv s'.
Proof.
  intros Hi Hth Ha Ec He Hn [M1 M2 M3 M4 M5] Hlock Hother Hobj Hpl.
  destruct (exec_cmd_ok t c0 k th s s') as [Hq Hc]; [apply Hi..|done|done|done|done|].
  split; [done|done| | |].
  - eapply exec_quiet; [apply Hi|apply Hi|done|done|done].
  - rewrite M1, M2. intros H. eapply cond_ok_ext; [symmetry; apply M3|auto].
  - intros u. rewrite M1, M2. destruct (decide (u = t)) as [->|Hne].
    + rewrite M4, M5. case_decide; [|done]. eapply c_inside_ext; [symmetry; apply M3|done].
    + assert (code_of s' u = code_of s u) as -> by (eapply exec_cmd_other; try done; apply Hi).
      pose proof (cv_placed _ Hi u) as Hu. destruct (decide (sy_locks s !! cond_guard = Some u)) as [E|E].
      * rewrite decide_True by (by apply Hlock). destruct Hother as [Ht|(Hl & -> & HQ)]; [congruence|].
        rewrite (other_regs t c0 k th s s' u He Hl Hne). eapply c_inside_ext; [|exact Hu]. by rewrite M3.
      * rewrite decide_False by (by rewrite Hlock). done.
Qed.

Lemma c_outside_step s s' t th (c0 : cmd cond_t) k :
  cond_inv s -> sy_threads s !! t = Some th -> t_asleep th = false -> t_code th = c0 :: k -> exec_cmd t c0 k th s = Some s' ->
  sy_locks s !! cond_guard <> Some t -> c_outside (c0 :: k) -> cond_inv s'.
Proof.
  intros Hi Hth Ha Ec He Hn Hout.
  (* taking the guard *)
  assert (forall r kk, sy_locks s !! cond_guard = None -> lockish c0 -> wakes_normally c0 ->
    moves s s' t (sy_obj s) (<[cond_guard := t]> (sy_locks s)) (queue_of s) r kk ->
    (forall Q, cond_ok (sy_obj s) Q -> c_inside r (sy_obj s) Q kk) -> cond_inv s') as Htake.
  { intros r kk Hl Hlk Hw Hm Hin. eapply cond_finish; try done.
    - intros u Hu. rewrite lookup_insert_eq, Hl. split; congruence.
    - by right.
    - by rewrite lookup_insert_eq.
    - rewrite lookup_insert_eq, decide_True by done. apply Hin, Hi, Hl. }
  (* the caller's lock *)
  assert (forall l' kk, l' !! cond_guard = sy_locks s !! cond_guard -> lockish c0 -> wakes_normally c0 ->
    moves s s' t (sy_obj s) l' (queue_of s) (t_regs th) kk -> c_outside kk -> cond_inv s') as Hmove.
  { intros l' kk Hl Hlk Hw Hm Hk. eapply cond_finish; try done.
    - intros u Hu. by rewrite Hl.
    - by right.
    - rewrite Hl. apply Hi.
    - by rewrite Hl, decide_False. }
  inversion Hout as [|E|E|tl Htl E|tl Htl E|E|E]; subst.
  - destruct (moves_lock _ _ _ _ _ _ He) as [[_ Hm]| ->]; [|by apply cond_panic].
    eapply Hmove; [|done|done|exact Hm|constructor]. by rewrite lookup_insert_ne.
  - destruct (moves_unlock _ _ _ _ _ _ He) as [Hm| ->]; [|by apply cond_panic].
    eapply Hmove; [|done|done|exact Hm|]; [by rewrite lookup_delete_ne|]. apply co_wait. by right.
  - destruct (moves_lock _ _ _ _ _ _ He) as [[Hl Hm]| ->]; [|by apply cond_panic]. eapply Htake; [done|done|done|exact Hm|].
    intros Q HQ. by apply ci_wait.
  - destruct (moves_resume _ _ _ _ _ _ He) as [(Hl & r & Hm)| ->]; [|by apply cond_panic]. eapply Htake; [done|done|done|exact Hm|].
    intros Q HQ. by apply ci_keep.
  - destruct (moves_lock _ _ _ _ _ _ He) as [[Hl Hm]| ->]; [|by apply cond_panic]. eapply Htake; [done|done|done|exact Hm|].
    intros Q HQ. by apply ci_signal.
  - destruct (moves_lock _ _ _ _ _ _ He) as [[Hl Hm]| ->]; [|by apply cond_panic]. eapply Htake; [done|done|done|exact Hm|].
    intros Q HQ. by apply ci_broadcast.
Qed.

(** The counter of a state in range. *)
Lemma range_eq o z : counts o z -> int_closed z -> in_range o -> int_range z.
Proof.
  intros Hz Hc (z' & Hz' & Hr). assert (z = z') as ->; [|done]. unfold int_closed, int_range in *.
  eapply counts_inj; [exact Hz|exact Hz'|..]; change (- two64 / 2) with (- 9223372036854775808); change (two64 / 2) with 9223372036854775808; lia.
Qed.

Lemma c_inside_step s s' t th (c0 : cmd cond_t) k :
  cond_inv s -> sy_threads s !! t = Some th -> t_asleep th = false -> t_code th = c0 :: k -> exec_cmd t c0 k th s = Some s' ->
  in_range (sy_obj s) -> sy_locks s !! cond_guard = Some t -> c_inside (t_regs th) (sy_obj s) (queue_of s) (c0 :: k) -> cond_inv s'.
Proof.
  intros Hi Hth Ha Ec He Hrange Hn Hin. pose proof (cv_queues _ Hi) as Hq.
  assert (forall o' Q' r' kk, wakes_normally c0 -> moves s s' t o' (sy_locks s) Q' r' kk -> c_inside r' o' Q' kk -> cond_inv s') as Hmove.
  { intros o' Q' r' kk Hw Hm Hk. eapply cond_finish; try done; [by left|congruence|by rewrite decide_True]. }
  assert (forall Q' r' kk, wakes_normally c0 -> moves s s' t (sy_obj s) (delete cond_guard (sy_locks s)) Q' r' kk ->
    cond_ok (sy_obj s) Q' -> c_outside kk -> cond_inv s') as Hleave.
  { intros Q' r' kk Hw Hm HQ Hk. eapply cond_finish; try done.
    - intros u Hu. rewrite lookup_delete_eq, Hn. split; congruence.
    - by left.
    - by rewrite lookup_delete_eq, decide_False. }
  inversion Hin as [tl Htl Hok|tl z Htl Hz Hr Hg Hcnt|tl z Htl Hz Hr Hg H0|tl Htl Hok|tl Htl Hok|Hok|z Hz Hc Hg|Hok|HQ]; subst.
  - destruct Hok as (z & Hz & Hc & Hg). pose proof (range_eq _ _ Hz Hc Hrange) as Hr.
    eapply Hmove; [done|exact (moves_do _ _ _ _ _ _ He)|]. cbn. eapply ci_test; [done|by apply counts_add|done|done|].
    cbn. by apply s32_counts.
  - eapply Hmove; [done|exact (moves_if _ _ _ _ _ _ _ _ He)|]. cbn [v_regs]. destruct (Z.leb_spec 0 (r_cnt (t_regs th))) as [H0|H0].
    + by eapply ci_sleep.
    + apply ci_exit; [done|]. exists (r_cnt (t_regs th) + 1). unfold int_closed, int_range, good in *. split_and!; [done|lia|lia|lia].
  - pose proof (moves_wait _ _ _ _ _ Hth Ha Hq _ _ (cv_quiet _ Hi) He Hn) as Hm. eapply Hleave; [done|exact Hm| |].
    + exists (z + 1). unfold int_closed, int_range, good in *. split_and!; [done|lia|lia|]. rewrite decide_True, length_app by done. simpl. lia.
    + by apply co_asleep.
  - eapply Hmove; [done|exact (moves_do _ _ _ _ _ _ He)|]. cbn. by apply ci_exit.
  - destruct (moves_unlock _ _ _ _ _ _ He) as [Hm| ->]; [|by apply cond_panic]. eapply Hleave; [done|exact Hm|done|].
    destruct Htl as [->| ->]; constructor.
  - destruct Hok as (z & Hz & Hc & Hg). destruct (moves_wakeup _ _ _ _ _ Hq _ WAKEUP_NORMAL QUEUE_HEAD eq_refl eq_refl He) as [r Hm].
    eapply Hmove; [done|exact Hm|]. apply (ci_dec _ _ _ z); [done..|]. unfold good in *. rewrite decide_True by done.
    destruct (queue_of s cond_waiters); simpl in *; lia.
  - pose proof (range_eq _ _ Hz Hc Hrange) as Hr. eapply Hmove; [done|exact (moves_do _ _ _ _ _ _ He)|]. cbn.
    apply ci_exit; [by left|]. exists (z - 1). unfold int_closed, int_range in *. split_and!; [by apply counts_add|lia|lia|done].
  - destruct (moves_wakeup_all _ _ _ _ _ Hq _ WAKEUP_NORMAL eq_refl He) as (r & _ & Hm).
    eapply Hmove; [done|exact Hm|]. apply ci_set. by rewrite decide_True.
  - eapply Hmove; [done|exact (moves_do _ _ _ _ _ _ He)|]. cbn. apply ci_exit; [by left|].
    destruct (r_cnt (t_regs th) =? 0); [exists (-1)|exists 0]; unfold int_closed, good, counts; cbn; rewrite HQ; (split_and!; [done|lia..|done]).
Qed.

(** ** Executions *)
Lemma cond_call_ok c : c = cond_wait true \/ c = cond_wait false \/ c = cond_signal \/ c = cond_broadcast ->
  forallb cmd_ok c = true /\ c_outside c.
Proof.
  intros [->|[->|[->| ->]]]; (split; [done|]); [apply co_unlock|apply co_wait; by left|apply co_signal|apply co_broadcast].
Qed.

Lemma cond_step e s s' : cond_inv s -> cond_client e -> in_range (sy_obj s) -> happens e s = Some s' -> cond_inv s'.
Proof.
  intros Hi Hcl Hr He. destruct e as [t|t c|t reason|t]; try done; cbn [happens] in He.
  - apply step_thread_inv in He as (th & c & k & Hth & Ha & _ & Ec & E). pose proof (cv_placed _ Hi t) as Hp.
    assert (code_of s t = c :: k /\ regs_of s t = t_regs th) as [E1 E2] by (unfold code_of, regs_of; by rewrite Hth).
    rewrite E1, E2 in Hp. case_decide; [by eapply c_inside_step|by eapply c_outside_step].
  - destruct (cond_call_ok c Hcl) as [Hok Hout]. destruct (sy_threads s !! t) as [th|] eqn:Hth; [|done].
    destruct (t_code th) eqn:Ec; [|done]. injection He as <-. destruct (cv_quiet _ Hi t th Hth) as [Hc Hw].
    assert (code_of s t = []) as Hnil by (unfold code_of; by rewrite Hth). split.
    + eapply wq_ok_same; [apply Hi|done..].
    + apply code_ok_with; [apply Hi|done].
    + apply quiet_with; [apply Hi|done|done].
    + apply Hi.
    + intros u. pose proof (cv_placed _ Hi u) as Hp. rewrite code_of_with. destruct (decide (u = t)) as [->|Hne].
      * cbn [sy_locks with_thread t_code]. rewrite Hnil in Hp. case_decide; [inversion Hp|done].
      * cbn [sy_locks with_thread sy_obj]. unfold regs_of. rewrite threads_with, (decide_False (P := u = t)) by done. exact Hp.
Qed.

Lemma cond_inv_init n : cond_inv (sys_init cond_init n).
Proof.
  destruct (init_ok cond_init n) as [Hq Hc]. split; try done.
  - intros t th Hth. by apply init_lookup in Hth as ->.
  - intros _. exists 0. unfold counts, int_closed, good. cbn. by split_and!.
  - intros u. rewrite init_code, decide_False by done. constructor.
Qed.
