(* ===== verification/Event.v ===== *)
(** * Events (sync/event.c)

    Lock 0 is [ev_lock], lock 1 the caller's spinlock, which may be absent.  The
    timer is a parameter: [late] tells whether the deadline has passed. *)
From S2P Require Import Prelude Errno Queue Wait.

Record await_event_t := mkEv {
  ev_count : Z;
  ev_triggered : bool;
  ev_broadcast : bool
}.
Definition ev_lock : nat := 0.
Definition ev_spin : nat := 1.
Definition ev_waitqueue : nat := 0.

Definition await_event_init : await_event_t := mkEv 0 false false.

(** [if (--ev->ev_count == 0) ev->ev_triggered = false;], [ev_count] a [long]. *)
Definition ev_take (o : await_event_t) : await_event_t :=
  let n := s64 (ev_count o - 1) in mkEv n (if n =? 0 then false else ev_triggered o) (ev_broadcast o).
Definition ev_do (f : await_event_t -> await_event_t) (v : view await_event_t) : regs * await_event_t := (v_regs v, f (v_obj v)).
Definition ev_wait_lock (lk : bool) : option nat := if lk then Some ev_spin else None.

(** One round of the loop, after which an error leaves the function. *)
Definition ev_round (lk : bool) : list (cmd await_event_t) :=
  [SpinUnlock ev_lock;
   Wait ev_waitqueue QUEUE_TAIL (ev_wait_lock lk);
   SpinLock ev_lock;
   If (fun v => negb (r_err (v_regs v) =? 0))
     [Do (fun v => (set_ret (r_err (v_regs v)) (v_regs v), v_obj v)); SpinUnlock ev_lock; Return] []].

(** After the event: the last of the waiters of a broadcast consumes it. *)
Definition ev_consume : list (cmd await_event_t) :=
  [If (fun v => ev_broadcast (v_obj v))
     [If (fun v => (v_len v ev_waitqueue =? 0)%nat)
        [Do (ev_do ev_take); Do (ev_do (fun o => mkEv (ev_count o) (ev_triggered o) false))] []]
     [Do (ev_do ev_take)];
   SpinUnlock ev_lock].

Definition ev_ready : list (cmd await_event_t) :=
  [If (fun v => 0 <? ev_count (v_obj v)) [Do (ev_do ev_take)] []].

(** [timeout]: [None] for NULL, otherwise whether the deadline has passed. *)
Definition await_event_timed (timeout : option (view await_event_t -> bool)) (lk : bool) : list (cmd await_event_t) :=
  [SpinLock ev_lock;
   If (fun v => ev_triggered (v_obj v)) (ev_ready ++ [SpinUnlock ev_lock; Return]) []] ++
  (match timeout with
   | None => [While (fun v => negb (ev_triggered (v_obj v))) (ev_round lk)]
   | Some late =>
       [While (fun v => negb (ev_triggered (v_obj v)) && negb (late v)) (ev_round lk);
        If (fun v => negb (ev_triggered (v_obj v)))
          [Do (fun v => (set_ret (- ETIMEDOUT) (v_regs v), v_obj v)); SpinUnlock ev_lock; Return] []]
   end) ++ ev_consume.
Definition await_event (lk : bool) : list (cmd await_event_t) := await_event_timed None lk.

Definition try_await_event : list (cmd await_event_t) :=
  [SpinLock ev_lock;
   If (fun v => ev_triggered (v_obj v)) (ev_ready ++ [Do (fun v => (set_ret 1 (v_regs v), v_obj v))]) [];
   SpinUnlock ev_lock].

Definition await_event_signal : list (cmd await_event_t) :=
  [SpinLock ev_lock;
   Do (ev_do (fun o => mkEv (s64 (ev_count o + 1)) true false));
   Wakeup ev_waitqueue WAKEUP_NORMAL QUEUE_HEAD;
   SpinUnlock ev_lock].

Definition await_event_broadcast : list (cmd await_event_t) :=
  [SpinLock ev_lock;
   Do (ev_do (fun o => mkEv (s64 (ev_count o + 1)) true (ev_broadcast o)));
   WakeupAll ev_waitqueue WAKEUP_NORMAL;
   If (fun v => 0 <? r_cnt (v_regs v)) [Do (ev_do (fun o => mkEv (ev_count o) (ev_triggered o) true))] [];
   SpinUnlock ev_lock].

(** The waiters are woken with [WAKEUP_ERROR], which [sched_wake_thread] refuses. *)
Definition await_event_destroy : list (cmd await_event_t) :=
  [SpinLock ev_lock;
   Do (ev_do (fun _ => mkEv 0 false false));
   WakeupAll ev_waitqueue WAKEUP_ERROR;
   SpinUnlock ev_lock].
