(* ===== verification/SyncFacts.v ===== *)
(** * Races in mutexes and events

    A woken thread takes the mutex without looking at it again; an event that is
    signalled just before a thread goes to sleep is missed; a thread that is
    detached from its queue without being woken sleeps for ever. *)
From S2P Require Import Prelude Errno Queue Wait WaitFacts WaitMonitor Mutex Cond Event.

(** ** Mutexes *)
Definition mtx_woken : list (cmd mtx_t) := [Resume (Some m_guard); Do mtx_take; SpinUnlock m_guard].

Lemma mtx_barge (s : sys mtx_t) (t : tid) th :
  wq_ok s -> code_ok s -> sy_panic s = false -> sy_locks s = ∅ ->
  sy_threads s !! t = Some th -> t_asleep th = false -> t_code th = mtx_woken ->
  exists s', runs (replicate 3 (Run t)) s = Some s' /\
    at_code s t s' (mkMtx 1 1 (Some t) (t :: m_held (sy_obj s))) (delete m_guard (<[m_guard := t]> ∅)) (queue_of s) [].
Proof.
  intros H1 H2 H3 H4 Hth Ha Hc.
  assert (at_code s t s (sy_obj s) ∅ (queue_of s) mtx_woken) as Hat by (split; try done; eauto).
  eapply run_resume; [exact Hat|done|]. intros s1 Hat1.
  eapply run_do; [exact Hat1|intros; cbn; reflexivity|]. intros s2 Hat2.
  eapply run_unlock; [exact Hat2|apply lookup_insert_eq|]. intros s3 Hat3. by apply run_to_done.
Qed.

(** Unlocking a mutex that another thread has taken over. *)
Lemma mtx_unlock_foreign (s : sys mtx_t) (u : tid) th :
  wq_ok s -> code_ok s -> sy_panic s = false -> sy_locks s = ∅ -> m_owner (sy_obj s) <> Some u ->
  sy_threads s !! u = Some th -> t_asleep th = false -> t_code th = [] ->
  exists s', runs [Call u mtx_unlock; Run u; Run u] s = Some s' /\ sy_panic s' = true.
Proof.
  intros H1 H2 H3 H4 Ho Hth Ha Hc.
  set (th1 := mkThread (t_asleep th) (t_wakeup th) (t_canceled th) (t_wait_queue th) mtx_unlock regs0).
  set (s1 := with_thread u th1 s). assert (happens (Call u mtx_unlock) s = Some s1) as E1 by (cbn; by rewrite Hth, Hc).
  destruct (happens_ok (Call u mtx_unlock) s s1 H1 H2 eq_refl E1) as [H1' H2'].
  assert (run_to u 2 s1 (fun s' => sy_panic s' = true)) as (s' & E & Hp).
  { assert (at_code s1 u s1 (sy_obj s) ∅ (queue_of s) mtx_unlock) as Hat.
    { split; try done; exists th1. split; [apply lookup_insert_eq|done]. }
    eapply run_lock; [exact Hat|done|]. intros s2 Hat2. eapply run_step; [exact Hat2|]. intros x Hx Hxa Hxc.
    exists (panicked s2). split; [|intros; by apply run_to_done]. cbn. unfold mtx_mine. cbn [v_obj v_self].
    rewrite (ac_obj _ _ _ _ _ _ _ Hat2). rewrite bool_decide_eq_false_2 by done. by rewrite andb_false_r. }
  exists s'. split; [|done]. cbn [runs]. rewrite E1. exact E.
Qed.

(** ** Events *)

(** With [WAKEUP_ERROR] the first waiter leaves the queue without being woken, and
    the loop stops there. *)
Lemma wakeup_all_error {S} (s : sys S) q u us :
  queue_of s q = u :: us -> u ∉ us -> sched_wakeup_all q WAKEUP_ERROR s = (- EINVAL, 0, with_queue q us s).
Proof.
  intros Eq Hu. unfold sched_wakeup_all. rewrite Eq. cbn [wakeup_loop]. unfold sched_detach_and_wakeup.
  rewrite decide_True by (rewrite Eq; left). rewrite Eq, filter_cons_False by auto. rewrite filter_all by (intros x Hx ->; done).
  unfold sched_wake_thread. by destruct (sy_threads _ !! u).
Qed.

(** ** Threads on no wait queue *)
Section Lost.
Context {S : Type} (u : tid) (x : thread S).
Implicit Types (s : sys S).

(** [u] is on no wait queue and its record is [x]. *)
Definition unqueued s : Prop := sy_threads s !! u = Some x /\ forall q, u ∉ queue_of s q.

Lemma unqueued_with s t th : unqueued s -> t <> u -> unqueued (with_thread t th s).
Proof. intros [H1 H2] Ht. split; [|exact H2]. by rewrite threads_with, decide_False. Qed.
Lemma unqueued_queue s q l : unqueued s -> u ∉ l -> unqueued (with_queue q l s).
Proof. intros [H1 H2] Hl. split; [done|]. intros q'. rewrite queue_of_with. by case_decide. Qed.
Lemma unqueued_wake s t reason e s' : unqueued s -> t <> u -> sched_wake_thread t reason s = (e, s') -> unqueued s'.
Proof.
  intros H Ht. unfold sched_wake_thread. destruct (sy_threads s !! t); [|by intros [= _ <-]].
  destruct (validate_wakeup_reason reason), (t_asleep _); cbn; intros [= _ <-]; try done. by apply unqueued_with.
Qed.
Lemma unqueued_detach s q t reason e s' : unqueued s -> sched_detach_and_wakeup q t reason s = (e, s') -> unqueued s'.
Proof.
  intros H. unfold sched_detach_and_wakeup. case_decide as Hin; [|by intros [= _ <-]].
  assert (t <> u) as Ht by (intros ->; by apply H in Hin). destruct (sched_wake_thread t reason _) as [e1 s1] eqn:E.
  assert (unqueued s1) as H1.
  { eapply unqueued_wake; [|done|exact E]. apply unqueued_queue; [done|]. rewrite list_elem_of_filter. intros [_ Hu]. by apply H in Hu. }
  destruct (e1 =? 0); cbn; intros [= _ <-]; [|done]. unfold clear_wait_queue. destruct (sy_threads s1 !! t); [|done]. by apply unqueued_with.
Qed.
Lemma unqueued_loop q reason ts c s e n s' : unqueued s -> wakeup_loop q reason ts c s = (e, n, s') -> unqueued s'.
Proof.
  revert c s. induction ts as [|t ts IH]; intros c s H; cbn [wakeup_loop]; [by intros [= _ _ <-]|].
  destruct (sched_detach_and_wakeup q t reason s) as [e1 s1] eqn:E. pose proof (unqueued_detach _ _ _ _ _ _ H E) as H1.
  destruct (e1 =? 0); cbn; [by apply IH|by intros [= _ _ <-]].
Qed.

Lemma unqueued_exec t c k th s s' : unqueued s -> t <> u -> exec_cmd t c k th s = Some s' -> unqueued s'.
Proof.
  intros H Ht He.
  assert (forall y s1, unqueued s1 -> unqueued (with_thread t y s1)) as Hgo by (intros; by apply unqueued_with).
  revert He. destruct c; cbn [exec_cmd].
  - destruct (sy_locks s !! l); [case_decide; [|done]|]; intros [= <-]; [done|]. by apply (Hgo _ s).
  - case_decide; intros [= <-]; [|done]. by apply (Hgo _ s).
  - destruct (f _) as [r o]. intros [= <-]. by apply (Hgo _ s).
  - intros [= <-]. by apply Hgo.
  - intros [= <-]. by apply Hgo.
  - destruct (b _); intros [= <-]; [by apply Hgo|done].
  - intros [= <-]. unfold sched_wait_whence, current_check_interrupted. cbv zeta beta iota.
    destruct (_ =? 0); cbn [negb]; [|by apply Hgo]. case_decide; [by apply Hgo|]. destruct (bad_whence whence); [by apply Hgo|].
    assert (unqueued (with_queue q (if whence =? QUEUE_HEAD then t :: queue_of s q else queue_of s q ++ [t]) s)) as H1.
    { apply unqueued_queue; [done|]. destruct H as [_ H]. specialize (H q). destruct (_ =? _); set_solver. }
    destruct l as [l|]; [case_decide|]; by apply (Hgo _ _ H1).
  - unfold sched_resume, current_check_interrupted. cbv zeta beta iota. destruct l as [l|]; [|intros [= <-]; by apply Hgo].
    destruct (sy_locks s !! l); [case_decide; [|done]|]; intros [= <-]; [done|]. by apply (Hgo _ s).
  - destruct (sched_wakeup_whence q reason whence s) as [e s1] eqn:E. intros [= <-]. apply Hgo.
    unfold sched_wakeup_whence in E. destruct (bad_whence whence); [by injection E as _ <-|].
    destruct (head (queue_of s q)); [by eapply unqueued_detach|by injection E as _ <-].
  - destruct (sched_wakeup_all q reason s) as [[e n] s1] eqn:E. intros [= <-]. apply Hgo. by eapply unqueued_loop.
  - intros [= <-]. by apply Hgo.
Qed.
End Lost.

(** A thread that sleeps and is on no wait queue sleeps until a signal or a timer
    comes for it: nothing that other threads do wakes it. *)
Definition lost {S} (s : sys S) (u : tid) : Prop :=
  exists th, t_asleep th = true /\ unqueued u th s.
Definition spares {S} (u : tid) (e : event S) : Prop := match e with Interrupt t _ => t <> u | _ => True end.

Lemma lost_with {S} u (s : sys S) t th th' :
  lost s u -> sy_threads s !! t = Some th -> t_asleep th' = t_asleep th -> lost (with_thread t th' s) u.
Proof.
  intros (x & Hx & H) Hth Ha. destruct (decide (t = u)) as [->|Hne]; [|exists x; split; [done|by apply unqueued_with]].
  destruct H as [Hux Huq]. exists th'. split; [congruence|]. split; [apply lookup_insert_eq|done].
Qed.
Lemma lost_step {S} u (e : event S) s s' : spares u e -> lost s u -> happens e s = Some s' -> lost s' u.
Proof.
  intros Hsp (x & Hx & H) He. pose proof H as [Hux Huq]. destruct e as [t|t c|t reason|t]; cbn [happens] in He.
  - apply step_thread_inv in He as (th & c & k & Hth & Ha & _ & Ec & E). exists x. split; [done|].
    eapply unqueued_exec; [done| |exact E]. intros ->. congruence.
  - destruct (sy_threads s !! t) as [th|] eqn:Hth; [|done]. destruct (t_code th) eqn:Ec; [|done]. injection He as <-.
    eapply lost_with; [by exists x|exact Hth|done].
  - destruct (wakeup_interrupt reason); [|done]. injection He as <-. exists x. split; [done|].
    unfold thread_wakeup. destruct (sy_threads s !! t) as [th|]; [|done].
    destruct (validate_wakeup_reason reason); [|done]. destruct (t_asleep th); [|done]. cbn [negb].
    destruct (t_wait_queue th) as [q|].
    + destruct (sched_detach_and_wakeup q t reason s) as [e1 s1] eqn:E. by eapply unqueued_detach.
    + destruct (sched_wake_thread t reason s) as [e1 s1] eqn:E. by eapply unqueued_wake.
  - destruct (sy_threads s !! t) as [th|] eqn:Hth; [|done]. injection He as <-. eapply lost_with; [by exists x|exact Hth|done].
Qed.

(** One command of [t], with the state spelled out. *)
Lemma run_one {S} es (s s1 : sys S) t th c k :
  sy_threads s !! t = Some th -> t_asleep th = false -> sy_panic s = false -> t_code th = c :: k ->
  exec_cmd t c k th s = Some s1 -> runs (Run t :: es) s = runs es s1.
Proof. intros H1 H2 H3 H4 H5. cbn [runs happens]. by rewrite (step_eq t s th c k), H5. Qed.

(** [await_event_destroy] by [t], with [u] first in the queue. *)
Lemma destroy_runs (s : sys await_event_t) (t u : tid) us th x :
  sy_panic s = false -> sy_locks s !! ev_lock = None -> queue_of s ev_waitqueue = u :: us ->
  (forall q, q <> ev_waitqueue -> u ∉ queue_of s q) -> u ∉ us -> sy_threads s !! u = Some x -> t_asleep x = true ->
  sy_threads s !! t = Some th -> t_asleep th = false -> t_code th = [] ->
  exists s', runs (Call t await_event_destroy :: replicate 4 (Run t)) s = Some s' /\ sy_panic s' = false /\ code_of s' t = [] /\ lost s' u.
Proof.
  intros Hp Hl Hq Hqs Hu Hx Hxa Hth Ha Hc. assert (t <> u) as Htu by (intros ->; congruence).
  set (at_ (k : list (cmd await_event_t)) r := mkThread false (t_wakeup th) (t_canceled th) (t_wait_queue th) k r).
  set (s1 := with_thread t (at_ await_event_destroy regs0) s).
  set (s2 := with_locks (<[ev_lock := t]> (sy_locks s)) (with_thread t (at_ (drop 1 await_event_destroy) regs0) s1)).
  set (s3 := with_obj (mkEv 0 false false) (with_thread t (at_ (drop 2 await_event_destroy) regs0) s2)).
  set (s4 := with_thread t (at_ (drop 3 await_event_destroy) (set_cnt 0 (set_err (- EINVAL) regs0))) (with_queue ev_waitqueue us s3)).
  set (s5 := with_locks (delete ev_lock (sy_locks s4)) (with_thread t (at_ [] (set_cnt 0 (set_err (- EINVAL) regs0))) s4)).
  exists s5. split_and!.
  - cbn [replicate]. assert (happens (Call t await_event_destroy) s = Some s1) as E by (cbn; by rewrite Hth, Hc, Ha).
    cbn [runs]. rewrite E. change (runs [Run t; Run t; Run t; Run t] s1 = Some s5).
    rewrite (run_one _ s1 s2 t (at_ await_event_destroy regs0) (SpinLock ev_lock) (drop 1 await_event_destroy));
      [|apply lookup_insert_eq|done|done|done|cbn; by rewrite Hl].
    erewrite (run_one _ s2 s3 t); [|apply lookup_insert_eq|done|done|done|done].
    erewrite (run_one _ s3 s4 t); [|apply lookup_insert_eq|done|done|done|cbn [exec_cmd]; by rewrite (wakeup_all_error s3 ev_waitqueue u us)].
    erewrite (run_one _ s4 s5 t); [done|apply lookup_insert_eq|done|done|done|]. cbn. by rewrite decide_True by apply lookup_insert_eq.
  - done.
  - unfold code_of. cbn. by rewrite lookup_insert_eq.
  - exists x. split; [done|]. split; [cbn; by rewrite !lookup_insert_ne by done|].
    intros q. change (u ∉ queue_of (with_queue ev_waitqueue us s3) q). rewrite queue_of_with. case_decide; [done|]. by apply Hqs.
Qed.

(** [await_event_signal] by [u] while nobody is in the queue. *)
Lemma signal_runs (s : sys await_event_t) (u : tid) th :
  wq_ok s -> code_ok s -> sy_panic s = false -> sy_locks s = ∅ ->
  sy_threads s !! u = Some th -> t_asleep th = false -> t_code th = [] ->
  exists s', runs (Call u await_event_signal :: replicate 4 (Run u)) s = Some s' /\
    at_code s u s' (mkEv (s64 (ev_count (sy_obj s) + 1)) true false) ∅
      (fun q => if decide (q = ev_waitqueue) then tail (queue_of s ev_waitqueue) else queue_of s q) [].
Proof.
  intros H1 H2 H3 H4 Hth Ha Hc.
  set (th1 := mkThread (t_asleep th) (t_wakeup th) (t_canceled th) (t_wait_queue th) await_event_signal regs0).
  set (s1 := with_thread u th1 s).
  assert (happens (Call u await_event_signal) s = Some s1) as E1 by (cbn; by rewrite Hth, Hc).
  destruct (happens_ok (Call u await_event_signal) s s1 H1 H2 eq_refl E1) as [H1' H2'].
  assert (at_code s u s1 (sy_obj s) ∅ (queue_of s) await_event_signal) as Hat.
  { split; try done.
    - exists th1. split; [apply lookup_insert_eq|done].
    - intros v Hv. unfold s1. by rewrite code_of_with, decide_False.
    - intros v x Hv. unfold s1. by rewrite threads_with, decide_False. }
  cbn [runs]. rewrite E1. eapply run_lock; [exact Hat|done|]. intros s2 Hat2.
  eapply run_do; [exact Hat2|intros; cbn; reflexivity|]. intros s3 Hat3.
  eapply run_wakeup; [exact Hat3|done|]. intros s4 Hat4.
  eapply run_unlock; [exact Hat4|apply lookup_insert_eq|]. intros s5 Hat5. apply run_to_done. by rewrite delete_insert_id in Hat5.
Qed.

(** A thread that calls [sched_wait] without being interrupted. *)
Lemma wait_sleeps {S} (s : sys S) t q k th :
  wq_ok s -> sy_threads s !! t = Some th -> t_asleep th = false -> sy_panic s = false ->
  t_code th = Wait q QUEUE_TAIL None :: k -> t_canceled th = false -> wakeup_interrupt (t_wakeup th) = false ->
  exists s', happens (Run t) s = Some s' /\ sy_obj s' = sy_obj s /\ queue_of s' q = queue_of s q ++ [t] /\ sleeps_on s' t q.
Proof.
  intros Hok Hth Ha Hp Hc Hca Hw. cbn [happens]. rewrite (step_eq t s th _ k Hth Ha Hp Hc). cbn [exec_cmd].
  eexists. split; [reflexivity|]. unfold sched_wait_whence, current_check_interrupted. cbv zeta beta iota. cbn [t_canceled].
  rewrite Hca, Hw. cbn [orb]. rewrite Z.eqb_refl. cbn [negb]. rewrite decide_False.
  2: { intros Hin. apply (wq_member _ Hok) in Hin as (y & Hy & Hya & _). congruence. }
  change (bad_whence QUEUE_TAIL) with false. cbv iota. split_and!; [done| |].
  - match goal with |- queue_of (with_thread _ _ ?x) q = _ => change (queue_of x q = queue_of s q ++ [t]) end.
    by rewrite queue_of_with, decide_True.
  - eexists. split; [apply lookup_insert_eq|done].
Qed.
