(* ===== verification/SyncProps.v ===== *)
(** * Theorems on waiting, waking and the locks built on them

    The wait queues are consistent in every execution; a reader-writer lock excludes
    writers from everybody else and is handed to a writer that waits alone, but two
    waiting writers block it for good; a condition variable counts its waiters and
    loses no signal; a woken thread takes a mutex that somebody else has got in the
    meantime; an event can be missed and its destruction loses a waiter. *)
From S2P Require Import Prelude Errno Queue Wait WaitFacts WaitMonitor RwLock RwDeadlock Mutex Cond Event SyncFacts.

(** ** Wait queues *)
Lemma reach_ok {S} (o : S) n s : reaches (fun e _ => calls_ok e) (sys_init o n) s -> wq_ok s /\ code_ok s.
Proof.
  intros Hr. eapply (reaches_invariant _ (fun s => wq_ok s /\ code_ok s)); [|apply init_ok|exact Hr].
  intros e x y [] He Hh. by eapply happens_ok.
Qed.

(** Two threads wait for a mutex that a third holds. *)
Definition mutex_contended : list (event mtx_t) :=
  Call 0%nat mtx_lock :: replicate 5 (Run 0%nat) ++
  Call 1%nat mtx_lock :: replicate 4 (Run 1%nat) ++ Call 2%nat mtx_lock :: replicate 4 (Run 2%nat).

(** ** Reader-writer locks *)


(** Schedules whose client conditions are checked along the way. *)
Inductive rw_op := ReadAcquire | WriteAcquire | ReadRelease | WriteRelease.
Definition rw_code (c : rw_op) : list (cmd rwlock_t) :=
  match c with
  | ReadAcquire => rw_readlock_acquire
  | WriteAcquire => rw_writelock_acquire
  | ReadRelease => rw_readlock_release
  | WriteRelease => rw_writelock_release
  end.
Definition rw_may (o : rwlock_t) (t : tid) (c : rw_op) : bool :=
  match c with
  | ReadAcquire | WriteAcquire => bool_decide (t ∉ rw_rheld o) && bool_decide (t ∉ rw_wheld o)
  | ReadRelease => bool_decide (t ∈ rw_rheld o)
  | WriteRelease => bool_decide (t ∈ rw_wheld o)
  end.
Fixpoint rw_play (es : list (tid * option rw_op)) (s : sys rwlock_t) : option (sys rwlock_t) :=
  match es with
  | [] => Some s
  | (t, None) :: es => match happens (Run t) s with Some s => rw_play es s | None => None end
  | (t, Some c) :: es =>
      if rw_may (sy_obj s) t c
      then match happens (Call t (rw_code c)) s with Some s => rw_play es s | None => None end else None
  end.
Lemma rw_play_reaches es s s' : rw_play es s = Some s' -> reaches rw_client s s'.
Proof.
  revert s. induction es as [|[t [c|]] es IH]; intros s; cbn [rw_play]; [intros [= <-]; constructor| |].
  - destruct (rw_may (sy_obj s) t c) eqn:Hm; [|done]. destruct (happens _ s) as [s1|] eqn:E; [|done]. intros H.
    eapply reaches_step; [|exact E|by apply IH]. destruct c; cbn in *; unfold rw_asks, rw_free.
    + apply andb_prop in Hm as [?%bool_decide_eq_true_1 ?%bool_decide_eq_true_1]. tauto.
    + apply andb_prop in Hm as [?%bool_decide_eq_true_1 ?%bool_decide_eq_true_1]. tauto.
    + apply bool_decide_eq_true_1 in Hm. tauto.
    + apply bool_decide_eq_true_1 in Hm. tauto.
  - destruct (happens _ s) as [s1|] eqn:E; [|done]. intros H. by eapply reaches_step; [|exact E|apply IH].
Qed.
(** A thread makes a call and runs [n] steps of it. *)
Definition calls (t : tid) (c : rw_op) (n : nat) : list (tid * option rw_op) := (t, Some c) :: replicate n (t, None).

(** Thread 0 reads; thread 1, and then thread 2, wait to write. *)
Definition writer_waits : list (tid * option rw_op) := calls 0%nat ReadAcquire 4 ++ calls 1%nat WriteAcquire 3.
Definition writers_wait : list (tid * option rw_op) := writer_waits ++ calls 2%nat WriteAcquire 3.



(** What the schedules above lead to. *)
Definition read_by_zero (s : sys rwlock_t) : Prop :=
  sy_locks s = ∅ /\ rw_rheld (sy_obj s) = [0%nat] /\ from_option t_asleep true (sy_threads s !! 0%nat) = false /\ code_of s 0%nat = [].
Lemma awake_thread_of {S} (s : sys S) (t : tid) k : from_option t_asleep true (sy_threads s !! t) = false -> code_of s t = k ->
  exists th, sy_threads s !! t = Some th /\ t_asleep th = false /\ t_code th = k.
Proof. unfold code_of. destruct (sy_threads s !! t) as [th|]; [|done]. cbn. intros Ha Hc. by exists th. Qed.
Definition leads_to {S} (r : option (sys S)) (P : sys S -> Prop) : Prop := match r with Some s => P s | None => False end.
Lemma writer_waits_state :
  leads_to (rw_play writer_waits (sys_init rwlock_init 2))
    (fun s => read_by_zero s /\ queue_of s writersq = [1%nat] /\ code_of s 1%nat = write_waiting).
Proof.
  vm_cast_no_check (conj (conj (eq_refl (∅ : gmap nat tid)) (conj (eq_refl [0%nat]) (conj (eq_refl false) (eq_refl (@nil (cmd rwlock_t))))))
    (conj (eq_refl [1%nat]) (eq_refl write_waiting))).
Qed.
Lemma writers_wait_state :
  leads_to (rw_play writers_wait (sys_init rwlock_init 3))
    (fun s => read_by_zero s /\ queue_of s writersq = [1%nat; 2%nat] /\ (dom (sy_threads s) : gset tid) = {[0%nat; 1%nat; 2%nat]} /\
       code_of s 1%nat = write_waiting /\ code_of s 2%nat = write_waiting).
Proof.
  vm_cast_no_check (conj (conj (eq_refl (∅ : gmap nat tid)) (conj (eq_refl [0%nat]) (conj (eq_refl false) (eq_refl (@nil (cmd rwlock_t))))))
    (conj (eq_refl [1%nat; 2%nat]) (conj (eq_refl ({[0%nat; 1%nat; 2%nat]} : gset tid)) (conj (eq_refl write_waiting) (eq_refl write_waiting))))).
Qed.


(** When the last reader releases the lock while two or more writers wait, and
    no other thread is past its tests, then nobody ever gets the lock again,
    whatever the threads do, unless a signal or a timer interrupts one of the
    sleeping writers: the writer that is woken sees the other one in the queue and
    goes back to sleep. *)
Theorem rwlock_two_writers_block (n : nat) (s : sys rwlock_t) (t : tid) th :
  Z.of_nat n < two64 -> reaches rw_client (sys_init rwlock_init n) s ->
  sy_locks s = ∅ -> rw_rheld (sy_obj s) = [t] -> sy_threads s !! t = Some th -> t_asleep th = false -> t_code th = [] ->
  (2 <= qlen s writersq)%nat -> (forall u, u <> t -> asking (code_of s u)) ->
  exists s', runs (Call t rw_readlock_release :: replicate 6 (Run t)) s = Some s' /\
    forall s'', reaches (fun e x => rw_client e x /\ no_interrupt e) s' s'' ->
      rw_rheld (sy_obj s'') = [] /\ rw_wheld (sy_obj s'') = [] /\ queue_of s'' writersq <> [].
Proof.
  intros Hn Hr H1 H2 H3 H4 H5 H6 H7.
  pose proof (reaches_invariant _ rw_inv _ s rw_step (rw_inv_init n Hn) Hr) as Hi.
  destruct (last_reader_stuck s t th) as (s' & E & Hs); [done..|]. exists s'. split; [done|]. intros s'' Hr'.
  assert (rw_stuck s'') as [_ [] ? _]; [|done].
  eapply reaches_invariant; [|exact Hs|exact Hr']. intros e x y Hx [He Hne] Hh. by eapply rw_stuck_step.
Qed.
Lemma not_zero (u : tid) : u ∈ ({[0%nat; 1%nat; 2%nat]} : gset tid) -> u <> 0%nat -> u = 1%nat \/ u = 2%nat.
Proof. set_solver. Qed.
Lemma rwlock_two_writers_block_witness :
  exists s s', rw_play writers_wait (sys_init rwlock_init 3) = Some s /\
    runs (Call 0%nat rw_readlock_release :: replicate 6 (Run 0%nat)) s = Some s' /\ queue_of s' writersq <> [] /\ rw_wheld (sy_obj s') = [].
Proof.
  pose proof writers_wait_state as H. destruct (rw_play writers_wait (sys_init rwlock_init 3)) as [s|] eqn:E; [|destruct H].
  destruct H as ((H1 & H2 & H3 & H4) & H5 & H6 & H7 & H8). destruct (awake_thread_of s 0%nat _ H3 H4) as (th & T1 & T2 & T3).
  destruct (rwlock_two_writers_block 3 s 0%nat th) as (s' & E' & Hs);
    [reflexivity|apply (rw_play_reaches writers_wait), E|assumption..|unfold qlen; rewrite H5; simpl; lia| |].
  - intros u Hu. destruct (decide (u ∈ (dom (sy_threads s) : gset tid))) as [Hin|Hout].
    + rewrite H6 in Hin. destruct (not_zero u Hin Hu) as [->| ->].
      * rewrite H7. apply ask_write_asleep.
      * rewrite H8. apply ask_write_asleep.
    + apply not_elem_of_dom in Hout. unfold code_of. rewrite Hout. constructor.
  - destruct (Hs s' (reaches_refl _ s')) as (_ & Hw & Hq). exists s, s'. split; [reflexivity|]. split; [exact E'|]. split; assumption.
Defined.

(** ** Mutexes *)
(** A thread that [mtx_unlock] has woken does not look at the mutex again.  If
    another thread has locked it in the meantime, the woken thread takes it as
    well, both hold it, and the unlock of the other one panics. *)
Theorem mutex_held_twice (n : nat) (s : sys mtx_t) (t u : tid) tht thu :
  reaches (fun e _ => calls_ok e) (sys_init mtx_init n) s -> sy_panic s = false -> sy_locks s = ∅ -> t <> u ->
  m_owner (sy_obj s) = Some u -> u ∈ m_held (sy_obj s) ->
  sy_threads s !! t = Some tht -> t_asleep tht = false -> t_code tht = mtx_woken ->
  sy_threads s !! u = Some thu -> t_asleep thu = false -> t_code thu = [] ->
  exists s1 s2, runs (replicate 3 (Run t)) s = Some s1 /\ code_of s1 t = [] /\ m_owner (sy_obj s1) = Some t /\
    t ∈ m_held (sy_obj s1) /\ u ∈ m_held (sy_obj s1) /\
    runs [Call u mtx_unlock; Run u; Run u] s1 = Some s2 /\ sy_panic s2 = true.
Proof.
  intros Hr Hp Hl Htu Ho Hu T1 T2 T3 U1 U2 U3. destruct (reach_ok _ _ _ Hr) as [H1 H2].
  destruct (mtx_barge s t tht) as (s1 & E1 & [G1 G2 G3 G4 G5 _ (x & X1 & _ & X3) _ G9]); try done.
  destruct (mtx_unlock_foreign s1 u thu) as (s2 & E2 & P2); try done.
  - rewrite G4. cbn. congruence.
  - by apply G9.
  - exists s1, s2. rewrite G4. cbn [m_owner m_held]. split_and!; try done; [|left|by right]. unfold code_of. by rewrite X1.
Qed.

(** Thread 1 waits for thread 0; thread 0 unlocks and locks again before thread 1 runs. *)
Definition mutex_relock : list (event mtx_t) :=
  Call 0%nat mtx_lock :: replicate 5 (Run 0%nat) ++ Call 1%nat mtx_lock :: replicate 4 (Run 1%nat) ++
  Call 0%nat mtx_unlock :: replicate 8 (Run 0%nat) ++ Call 0%nat mtx_lock :: replicate 5 (Run 0%nat).
Definition mutex_relocked (s : sys mtx_t) : Prop :=
  sy_panic s = false /\ sy_locks s = ∅ /\ m_owner (sy_obj s) = Some 0%nat /\ m_held (sy_obj s) = [0%nat] /\
  (from_option t_asleep true (sy_threads s !! 0%nat) = false /\ code_of s 0%nat = []) /\
  (from_option t_asleep true (sy_threads s !! 1%nat) = false /\ code_of s 1%nat = mtx_woken).
Lemma mutex_relock_state : leads_to (runs mutex_relock (sys_init mtx_init 2)) mutex_relocked.
Proof.
  vm_cast_no_check (conj (eq_refl false) (conj (eq_refl (∅ : gmap nat tid)) (conj (eq_refl (Some 0%nat)) (conj (eq_refl [0%nat])
    (conj (conj (eq_refl false) (eq_refl (@nil (cmd mtx_t)))) (conj (eq_refl false) (eq_refl mtx_woken))))))).
Qed.
Lemma schedule_calls_ok {S} (es : list (event S)) o n s :
  Forall calls_ok es -> runs es (sys_init o n) = Some s -> reaches (fun e _ => calls_ok e) (sys_init o n) s.
Proof. intros H. apply runs_reaches. intros e x He. by apply (proj1 (Forall_forall _ _) H). Qed.

Lemma mutex_held_twice_witness :
  exists s s1, runs mutex_relock (sys_init mtx_init 2) = Some s /\ runs (replicate 3 (Run 1%nat)) s = Some s1 /\
    0%nat ∈ m_held (sy_obj s1) /\ 1%nat ∈ m_held (sy_obj s1).
Proof.
  pose proof mutex_relock_state as H. destruct (runs mutex_relock (sys_init mtx_init 2)) as [s|] eqn:E; [|destruct H].
  destruct H as (H1 & H2 & H3 & H4 & [Z1 Z2] & O1 & O2).
  destruct (awake_thread_of s 0%nat _ Z1 Z2) as (th0 & A1 & A2 & A3). destruct (awake_thread_of s 1%nat _ O1 O2) as (th1 & B1 & B2 & B3).
  destruct (mutex_held_twice 2 s 1%nat 0%nat th1 th0) as (s1 & s2 & E1 & _ & _ & Ht & Hu & _); try assumption; [|lia|rewrite H4; left|].
  - apply (schedule_calls_ok mutex_relock); [|exact E]. repeat constructor.
  - exists s, s1. split; [reflexivity|]. split; [exact E1|]. split; assumption.
Defined.

(** ** Condition variables *)

(** In every execution of [cond_wait], [cond_signal] and [cond_broadcast] by any
    threads, without interruptions and with the counter within the range of an
    [int]: whenever the lock of the condition variable is free, a counter of zero
    or more is the number of threads in the queue, and a negative one is the number
    of signals kept for later waiters, of which there are none in the queue. *)
Theorem cond_counts_waiters (n : nat) (s : sys cond_t) :
  reaches (fun e x => cond_client e /\ in_range (sy_obj x)) (sys_init cond_init n) s -> sy_locks s !! cond_guard = None ->
  exists z, cond_count (sy_obj s) = u64 z /\ - 2147483648 <= z <= 2147483647 /\
    Z.of_nat (length (queue_of s cond_waiters)) = Z.max z 0.
Proof.
  intros Hr Hl.
  assert (cond_inv s) as Hi.
  { eapply reaches_invariant; [|apply cond_inv_init|exact Hr]. intros e x y Hx [He Hrange] Hh. by eapply cond_step. }
  destruct (cv_obj _ Hi Hl) as (z & H1 & H2 & H3). by exists z.
Qed.
(** Thread 0 waits, thread 1 signals twice, thread 2 takes the second signal. *)
Definition cond_schedule : list (event cond_t) :=
  Call 0%nat (cond_wait false) :: replicate 4 (Run 0%nat) ++ Call 1%nat cond_signal :: replicate 4 (Run 1%nat) ++
  Call 1%nat cond_signal :: replicate 4 (Run 1%nat) ++ Call 2%nat (cond_wait false) :: replicate 4 (Run 2%nat).
Definition small_count (s : sys cond_t) : bool := (cond_count (sy_obj s) <? 100) || (two64 - 100 <? cond_count (sy_obj s)) && (cond_count (sy_obj s) <? two64).
Fixpoint cond_play (es : list (event cond_t)) (s : sys cond_t) : option (sys cond_t) :=
  match es with
  | [] => Some s
  | e :: es => if (0 <=? cond_count (sy_obj s)) && small_count s then match happens e s with Some s => cond_play es s | None => None end else None
  end.
Lemma small_in_range s : 0 <= cond_count (sy_obj s) -> small_count s = true -> in_range (sy_obj s).
Proof.
  unfold small_count. intros H0 H. destruct (Z.ltb_spec (cond_count (sy_obj s)) 100).
  - exists (cond_count (sy_obj s)). unfold counts, int_range, u64, two64 in *. rewrite Z.mod_small; lia.
  - cbn in H. apply andb_prop in H as [?%Z.ltb_lt ?%Z.ltb_lt]. exists (cond_count (sy_obj s) - two64). unfold counts, int_range, u64, two64 in *.
    split; [|lia]. apply Z.mod_unique with (-1); lia.
Qed.
Lemma cond_play_reaches es s s' : Forall cond_client es -> cond_play es s = Some s' ->
  reaches (fun e x => cond_client e /\ in_range (sy_obj x)) s s'.
Proof.
  intros Hes. revert s. induction Hes as [|e es He _ IH]; intros s; cbn [cond_play]; [intros [= <-]; constructor|].
  destruct (Z.leb_spec 0 (cond_count (sy_obj s))); [|done]. destruct (small_count s) eqn:Hs; [|done]. cbn [andb].
  destruct (happens e s) as [s1|] eqn:E; [|done]. intros Hr. eapply reaches_step; [|exact E|by apply IH]. split; [done|by apply small_in_range].
Qed.
Lemma cond_counts_waiters_witness :
  exists s z, cond_play cond_schedule (sys_init cond_init 3) = Some s /\ cond_count (sy_obj s) = u64 z /\
    Z.of_nat (length (queue_of s cond_waiters)) = Z.max z 0.
Proof.
  assert (leads_to (cond_play cond_schedule (sys_init cond_init 3)) (fun s => sy_locks s !! cond_guard = None)) as H
    by (vm_cast_no_check (eq_refl (@None tid))).
  destruct (cond_play cond_schedule (sys_init cond_init 3)) as [s|] eqn:E; [|destruct H].
  destruct (cond_counts_waiters 3 s) as (z & H1 & _ & H2); [|exact H|exists s, z; split; [reflexivity|split; assumption]].
  apply (cond_play_reaches cond_schedule); [|exact E]. repeat constructor; cbn; tauto.
Defined.

(** ** Events *)

(** A signal between the moment a waiter gives [ev_lock] back and its call of
    [sched_wait] wakes nobody: the waiter then goes to sleep although the event is
    triggered. *)
Theorem event_signal_missed (n : nat) (s : sys await_event_t) (t u : tid) tht thu :
  reaches (fun e _ => calls_ok e) (sys_init await_event_init n) s -> sy_panic s = false -> sy_locks s = ∅ -> t <> u ->
  queue_of s ev_waitqueue = [] ->
  sy_threads s !! t = Some tht -> t_asleep tht = false -> t_canceled tht = false -> wakeup_interrupt (t_wakeup tht) = false ->
  t_code tht = drop 1 (ev_round false) ++ drop 2 (await_event false) ->
  sy_threads s !! u = Some thu -> t_asleep thu = false -> t_code thu = [] ->
  exists s', runs ((Call u await_event_signal :: replicate 4 (Run u)) ++ [Run t]) s = Some s' /\
    ev_triggered (sy_obj s') = true /\ ev_count (sy_obj s') = s64 (ev_count (sy_obj s) + 1) /\
    queue_of s' ev_waitqueue = [t] /\ sleeps_on s' t ev_waitqueue.
Proof.
  intros Hr Hp Hl Htu Hq T1 T2 T3 T4 T5 U1 U2 U3. destruct (reach_ok _ _ _ Hr) as [H1 H2].
  destruct (signal_runs s u thu) as (s1 & E1 & [G1 _ G3 G4 _ G6 _ _ G9]); try done.
  destruct (wait_sleeps s1 t ev_waitqueue (drop 2 (ev_round false) ++ drop 2 (await_event false)) tht) as (s2 & E2 & W1 & W2 & W3); try done.
  { by apply G9. }
  exists s2. rewrite (runs_app _ _ _ _ E1). cbn [runs]. rewrite E2, W1, G4. cbn [ev_triggered ev_count]. split_and!; try done.
  by rewrite W2, G6, Hq.
Qed.

(** [await_event_destroy] wakes its waiters with [WAKEUP_ERROR], which is not a
    valid reason: the first waiter leaves the queue without being woken, and then
    sleeps whatever the other threads do, until a signal or a timer comes for it. *)
Theorem event_destroy_loses_waiter (n : nat) (s : sys await_event_t) (t u : tid) us th :
  reaches (fun e _ => calls_ok e) (sys_init await_event_init n) s -> sy_panic s = false -> sy_locks s !! ev_lock = None ->
  queue_of s ev_waitqueue = u :: us -> sy_threads s !! t = Some th -> t_asleep th = false -> t_code th = [] ->
  exists s', runs (Call t await_event_destroy :: replicate 4 (Run t)) s = Some s' /\ sy_panic s' = false /\ code_of s' t = [] /\
    forall s'', reaches (fun e _ => spares u e) s' s'' ->
      (exists x, sy_threads s'' !! u = Some x /\ t_asleep x = true) /\ forall q, u ∉ queue_of s'' q.
Proof.
  intros Hr Hp Hl Hq T1 T2 T3. destruct (reach_ok _ _ _ Hr) as [[N M A] _].
  assert (u ∈ queue_of s ev_waitqueue) as Hin by (rewrite Hq; left). apply M in Hin as (x & X1 & X2 & X3).
  destruct (destroy_runs s t u us th x) as (s' & E & P' & C' & HL); try done.
  - intros q Hne Hu. apply M in Hu as (y & Y1 & _ & Y3). congruence.
  - pose proof (N ev_waitqueue) as Hnd. rewrite Hq in Hnd. by apply NoDup_cons in Hnd as [].
  - exists s'. split_and!; try done. intros s'' Hr'. 
    assert (lost s'' u) as (y & Y1 & Y2 & Y3); [|by split; [exists y|]].
    eapply (reaches_invariant _ (fun s => lost s u)); [|exact HL|exact Hr']. intros e a b Ha He Hh. exact (lost_step u e a b He Ha Hh).
Qed.

(** Thread 0 is about to wait in [await_event]; after one more step it sleeps. *)
Definition event_about_to_wait : list (event await_event_t) := Call 0%nat (await_event false) :: replicate 4 (Run 0%nat).
Definition event_waiting (k : list (cmd await_event_t)) (q : list tid) (asleep : bool) (s : sys await_event_t) : Prop :=
  sy_panic s = false /\ sy_locks s = ∅ /\ queue_of s ev_waitqueue = q /\
  (from_option t_asleep true (sy_threads s !! 1%nat) = false /\ code_of s 1%nat = []) /\
  (from_option t_asleep (negb asleep) (sy_threads s !! 0%nat) = asleep /\ code_of s 0%nat = k) /\
  from_option t_canceled true (sy_threads s !! 0%nat) = false /\ from_option t_wakeup WAKEUP_SIGNAL (sy_threads s !! 0%nat) = WAKEUP_NONE.
Lemma event_about_to_wait_state :
  leads_to (runs event_about_to_wait (sys_init await_event_init 2))
    (event_waiting (drop 1 (ev_round false) ++ drop 2 (await_event false)) [] false).
Proof.
  vm_cast_no_check (conj (eq_refl false) (conj (eq_refl (∅ : gmap nat tid)) (conj (eq_refl (@nil tid))
    (conj (conj (eq_refl false) (eq_refl (@nil (cmd await_event_t))))
    (conj (conj (eq_refl false) (eq_refl (drop 1 (ev_round false) ++ drop 2 (await_event false)))) (conj (eq_refl false) (eq_refl WAKEUP_NONE))))))).
Qed.
Lemma event_waits_state :
  leads_to (runs (event_about_to_wait ++ [Run 0%nat]) (sys_init await_event_init 2))
    (event_waiting (Resume None :: drop 2 (ev_round false) ++ drop 2 (await_event false)) [0%nat] true).
Proof.
  vm_cast_no_check (conj (eq_refl false) (conj (eq_refl (∅ : gmap nat tid)) (conj (eq_refl [0%nat])
    (conj (conj (eq_refl false) (eq_refl (@nil (cmd await_event_t))))
    (conj (conj (eq_refl true) (eq_refl (Resume None :: drop 2 (ev_round false) ++ drop 2 (await_event false))))
    (conj (eq_refl false) (eq_refl WAKEUP_NONE))))))).
Qed.

Lemma event_signal_missed_witness :
  exists s s', runs event_about_to_wait (sys_init await_event_init 2) = Some s /\
    runs ((Call 1%nat await_event_signal :: replicate 4 (Run 1%nat)) ++ [Run 0%nat]) s = Some s' /\
    ev_triggered (sy_obj s') = true /\ queue_of s' ev_waitqueue = [0%nat].
Proof.
  pose proof event_about_to_wait_state as H. destruct (runs event_about_to_wait (sys_init await_event_init 2)) as [s|] eqn:E; [|destruct H].
  destruct H as (H1 & H2 & H3 & [O1 O2] & [Z1 Z2] & Z3 & Z4).
  destruct (awake_thread_of s 0%nat _ Z1 Z2) as (th0 & A1 & A2 & A3). destruct (awake_thread_of s 1%nat _ O1 O2) as (th1 & B1 & B2 & B3).
  change (sy_threads s !! 0%nat) with (sy_threads s !! (0%nat : tid)) in Z3, Z4. rewrite A1 in Z3, Z4. cbn in Z3, Z4.
  destruct (event_signal_missed 2 s 0%nat 1%nat th0 th1) as (s' & E' & T & _ & Q & _); try assumption; [|lia|rewrite Z4; reflexivity|].
  - apply (schedule_calls_ok event_about_to_wait); [|exact E]. repeat constructor.
  - exists s, s'. split; [reflexivity|]. split; [exact E'|]. split; assumption.
Defined.

Lemma event_destroy_loses_waiter_witness :
  exists s s', runs (event_about_to_wait ++ [Run 0%nat]) (sys_init await_event_init 2) = Some s /\
    runs (Call 1%nat await_event_destroy :: replicate 4 (Run 1%nat)) s = Some s' /\
    (exists x, sy_threads s' !! (0%nat : tid) = Some x /\ t_asleep x = true) /\ (0%nat : tid) ∉ queue_of s' ev_waitqueue.
Proof.
  pose proof event_waits_state as H. destruct (runs (event_about_to_wait ++ [Run 0%nat]) (sys_init await_event_init 2)) as [s|] eqn:E; [|destruct H].
  destruct H as (H1 & H2 & H3 & [O1 O2] & _). destruct (awake_thread_of s 1%nat _ O1 O2) as (th1 & B1 & B2 & B3).
  destruct (event_destroy_loses_waiter 2 s 1%nat 0%nat [] th1) as (s' & E' & _ & _ & Hs); try assumption.
  - apply (schedule_calls_ok (event_about_to_wait ++ [Run 0%nat])); [|exact E]. repeat constructor.
  - rewrite H2. reflexivity.
  - exists s, s'. split; [reflexivity|]. split; [exact E'|]. split; apply (Hs s' (reaches_refl _ s')).
Defined.
