(* ===== verification/Pmm.v ===== *)
(** * Physical memory (mm/pmm/, mm/zone.h, mm/page.h, boot/boot.c)

    Four zones of page frames.  A zone has a bitmap of its frames in use (an object of
    [kmem], as in Bitmap.v) and an array of page structures; a pointer to a zone is
    its index in [zones], a pointer to a page structure is its address, 40 bytes
    apart.  [p_ram] is the physical memory, byte by byte.  What [arch_mount] does to
    reach a frame is a parameter. *)
From S2P Require Import Prelude Errno Spinlock KMem Queue Bitmap.

Definition PGSZ : Z := 4096.
Definition PGOFF (p : Z) : Z := Z.land p (PGSZ - 1).
Definition PGROUND (p : Z) : Z := Z.land p (not64 (PGSZ - 1)).
Definition PGROUNDUP (p : Z) : Z := if PGOFF p =? 0 then p else PGROUND (u64 (p + PGSZ)).
Definition NPAGE (p : Z) : Z := p / PGSZ + (if PGOFF p =? 0 then 0 else 1).
(** [(uintptr_t)1 << p]; a shift by 64 or more, which C leaves undefined, takes the
    count modulo 64 on this machine. *)
Definition BS (p : Z) : Z := Z.shiftl 1 (p mod 64).
Definition OVERLAPS (x sx y sy : Z) : bool := (x <? u64 (y + sy)) && (y <? u64 (x + sx)).
Definition VMA_BASE : Z := 0xFFFF800000000000.
Definition V2LO (p : Z) : Z := u64 (p - VMA_BASE).
Definition V2HI (p : Z) : Z := u64 (p + VMA_BASE).
Definition MEMMIO : Z := 0xfe000000.
Definition KiB (x : Z) : Z := u64 (1024 * x).
Definition MiB (x : Z) : Z := u64 (KiB 1024 * x).
Definition GiB (x : Z) : Z := u64 (MiB 1024 * x).
Definition M2KiB (x : Z) : Z := u64 (x * KiB 1).
Definition B2KiB (x : Z) : Z := x / KiB 1.

(** ** Data *)
Inductive page_watermark_t := PGWM_RESERVED | PGWM_DMA_POOL | PGWM_NORM_POOL | PGWM_HOLE_POOL | PGWM_HIGH_POOL | PGWM_OTHER (v : Z).
Record page_t := mkPage { pg_flags : Z; pg_refcnt : Z; pg_mapcnt : Z; pg_icache : Z; pg_watermark : page_watermark_t }.
Definition sizeof_page : Z := 40.
Definition PG_X : Z := BS 0.
Definition PG_R : Z := BS 1.
Definition PG_SWAPPABLE : Z := BS 8.

(** [z_bitmap] is the address of the bitmap inside the zone; the member [queue], which
    is only initialised, is left out. *)
Record zone_t := mkZone {
  z_size : Z; z_start : Z; z_bitmap : Z; z_pages : Z; z_npages : Z; z_upages : Z; z_flags : Z; z_lock : spinlock_t
}.
Definition NZONE : Z := 4.
Definition ZONEi_DMA : Z := 0.
Definition ZONEi_NORM : Z := 1.
Definition ZONEi_HOLE : Z := 2.
Definition ZONEi_HIGH : Z := 3.
Definition ZONE_VALID : Z := BS 0.

(** The members of [bootinfo] that the memory manager reads; the array [mmap] with its
    length [mmapcnt] is a list. *)
Record boot_mmap_t := mkBmap { bmp_addr : Z; bmp_size : Z; bmp_type : Z }.
Record bootinfo_t := mkBoot {
  b_watermark : Z; b_total : Z; b_usable : Z; b_memhi : Z; b_hole_size : Z; b_phyaddr : Z;
  b_mmap : list boot_mmap_t; b_kern_base : Z; b_kern_size : Z
}.

Record pmem := mkPmem {
  p_mem : kmem;
  p_zones : list zone_t;
  p_page : gmap Z page_t;
  p_ram : Z -> Z;
  p_boot : bootinfo_t
}.
Definition PM (A : Type) := M pmem A.

Definition with_mem (m : kmem) (s : pmem) : pmem := mkPmem m (p_zones s) (p_page s) (p_ram s) (p_boot s).
Definition with_zones (zs : list zone_t) (s : pmem) : pmem := mkPmem (p_mem s) zs (p_page s) (p_ram s) (p_boot s).
Definition with_page (g : gmap Z page_t) (s : pmem) : pmem := mkPmem (p_mem s) (p_zones s) g (p_ram s) (p_boot s).
Definition with_ram (r : Z -> Z) (s : pmem) : pmem := mkPmem (p_mem s) (p_zones s) (p_page s) r (p_boot s).
Definition with_boot (b : bootinfo_t) (s : pmem) : pmem := mkPmem (p_mem s) (p_zones s) (p_page s) (p_ram s) b.

(** A call into the code over [kmem]. *)
Definition lift {A} (c : K A) : PM A := fun s =>
  match c (p_mem s) with
  | Done a m => Done a (with_mem m s)
  | Panic => Panic
  | Fault => Fault
  | Diverge => Diverge
  end.
Definition zone_at (i : Z) (s : pmem) : option zone_t := if i <? 0 then None else p_zones s !! Z.to_nat i.
Definition zget (i : Z) : PM zone_t := fun s => match zone_at i s with Some z => Done z s | None => Fault end.
Definition zmod (i : Z) (f : zone_t -> zone_t) : PM unit := fun s =>
  match zone_at i s with
  | Some z => Done tt (with_zones (<[Z.to_nat i := f z]> (p_zones s)) s)
  | None => Fault
  end.
Definition pget (a : Z) : PM page_t := fun s => match p_page s !! a with Some p => Done p s | None => Fault end.
Definition pmod (a : Z) (f : page_t -> page_t) : PM unit := fun s =>
  match p_page s !! a with Some p => Done tt (with_page (<[a := f p]> (p_page s)) s) | None => Fault end.
Definition boot : PM bootinfo_t := fun s => Done (p_boot s) s.

Definition set_zlock (l : spinlock_t) (z : zone_t) : zone_t :=
  mkZone (z_size z) (z_start z) (z_bitmap z) (z_pages z) (z_npages z) (z_upages z) (z_flags z) l.
Definition set_upages (u : Z) (z : zone_t) : zone_t :=
  mkZone (z_size z) (z_start z) (z_bitmap z) (z_pages z) (z_npages z) u (z_flags z) (z_lock z).
Definition set_refcnt (r : Z) (p : page_t) : page_t := mkPage (pg_flags p) r (pg_mapcnt p) (pg_icache p) (pg_watermark p).

(** ** Zones (mm/zone.h) *)
Definition zone_lock (i : Z) : PM unit :=
  let! z := zget i in
  let! s := M_get in
  match lock_acquire (k_who (p_mem s)) (z_lock z) with
  | Done _ l => zmod i (set_zlock l)
  | Panic => M_panic
  | Fault => M_fault
  | Diverge => M_diverge
  end.
Definition zone_unlock (i : Z) : PM unit :=
  let! z := zget i in
  let! s := M_get in
  match lock_release (k_who (p_mem s)) (z_lock z) with
  | Done _ l => zmod i (set_zlock l)
  | _ => M_panic
  end.
Definition zone_isvalid (i : Z) : PM bool :=
  let! z := zget i in
  let! s := M_get in
  do! M_assert (holding (k_who (p_mem s)) (z_lock z)) in
  ret! (negb (Z.land (z_flags z) ZONE_VALID =? 0)).
Definition zone_end (z : zone_t) : Z := u64 (z_start z + z_size z).

(** ** Page structures (mm/page.h) *)
Definition page_index (page : Z) (z : zone_t) : Z := (page - z_pages z) / sizeof_page.
Definition page_at (z : zone_t) (idx : Z) : Z := u64 (z_pages z + sizeof_page * idx).
Definition page_addr (page : Z) (z : zone_t) : Z := u64 (z_start z + page_index page z * PGSZ).
Definition page_end (page npage : Z) (z : zone_t) : Z := u64 (page_addr page z + npage * PGSZ).
Definition good_watermark (w : page_watermark_t) : bool :=
  match w with
  | PGWM_DMA_POOL | PGWM_NORM_POOL | PGWM_HOLE_POOL | PGWM_HIGH_POOL => true
  | _ => false
  end.
Definition page_verify_watermark (page : Z) : PM unit :=
  let! p := pget page in M_assert (good_watermark (pg_watermark p)).

Definition is_kernel_addr (addr : Z) : PM bool :=
  let! b := boot in ret! ((b_kern_base b <=? addr) && (addr <? u64 (b_kern_base b + b_kern_size b))).

(** ** Finding zones (mm/pmm/zones.c) *)
Definition getzone_byaddr (paddr size : Z) : PM (Z * option Z) :=
  let! r := for_range 4 0 (fun i =>
    do! zone_lock i in
    let! z := zget i in
    let! v := zone_isvalid i in
    if (z_start z <=? paddr) && v && (u64 (paddr + size) <=? zone_end z) then ret! (Some i) else
    do! zone_unlock i in ret! None) in
  ret! (match r with Some i => (0, Some i) | None => (- ENOENT, None) end).

Definition getzone_bypage (page : Z) : PM (Z * option Z) :=
  if is_null page then ret! (- EINVAL, None) else
  let! r := for_range 4 0 (fun i =>
    do! zone_lock i in
    let! z := zget i in
    let! v := zone_isvalid i in
    if (z_pages z <=? page) && v && (page <? page_at z (z_npages z)) then ret! (Some i) else
    do! zone_unlock i in ret! None) in
  ret! (match r with Some i => (0, Some i) | None => (- ENOENT, None) end).

Definition getzone_byindex (zone_i : Z) : PM (Z * option Z) :=
  if (zone_i <? 0) || (NZONE <? zone_i) then ret! (- EINVAL, None) else
  do! zone_lock zone_i in
  let! v := zone_isvalid zone_i in
  if negb v then do! zone_unlock zone_i in ret! (- EINVAL, None) else
  ret! (0, Some zone_i).

(** ** Allocation (mm/pmm/alloc.c) *)

(** [while ((1UL << order) < pages_needed) order++;]: 64 rounds are enough for any
    64-bit number of pages. *)
Fixpoint page_order_loop (fuel : nat) (pages_needed order : Z) : option Z :=
  match fuel with
  | O => None
  | S fuel => if BS order <? pages_needed then page_order_loop fuel pages_needed (order + 1) else Some order
  end.
Definition get_page_order (size_in_bytes : Z) : option Z :=
  page_order_loop 64 (u64 (size_in_bytes + PGSZ - 1) / PGSZ) 0.

Definition GFP_ZERO : Z := 4096.
Definition GFP_NORMAL : Z := 2.
Definition GFP_HIGHMEM : Z := 4.
Definition GFP_WHENCE (gfp : Z) : Z := Z.land gfp 15.
Definition MAX_PAGE_ORDER : Z := 64.

Definition validate_input (gfp order : Z) (ppage ppaddr : bool) : Z :=
  if negb ppage && negb ppaddr then - EINVAL else
  if MAX_PAGE_ORDER <=? order then - ENOMEM else
  if GFP_HIGHMEM <? GFP_WHENCE gfp then - EINVAL else 0.
Definition gfp_to_zone_index (gfp : Z) : Z :=
  match GFP_WHENCE gfp with
  | 0 => ZONEi_NORM
  | 1 => ZONEi_DMA
  | 2 => ZONEi_NORM
  | 3 => ZONEi_HOLE
  | 4 => ZONEi_HIGH
  | _ => - EINVAL
  end.

(** Mapping a frame temporarily: the error, and the address at which the frame can
    then be written. *)
Class Mounting := { arch_mount : Z -> Z * Z }.

Section Alloc.
Context {MT : Mounting}.

Definition zero_frame (paddr : Z) : PM unit := fun s =>
  Done tt (with_ram (fun a => if (paddr <=? a) && (a <? paddr + PGSZ) then 0 else p_ram s a) s).

Definition zero_fill_page (i page whence : Z) : PM Z :=
  let! z := zget i in
  let paddr := u64 (z_start z + page_index page z * PGSZ) in
  do! page_verify_watermark page in
  if (whence =? ZONEi_HOLE) || (whence =? ZONEi_HIGH) then
    let '(err, vaddr) := arch_mount paddr in
    do! M_assert (err =? 0) in
    let! k := is_kernel_addr vaddr in
    do! M_assert (negb k) in
    do! zero_frame paddr in
    ret! 0
  else
    let! k := is_kernel_addr (V2HI paddr) in
    do! M_assert (negb k) in
    do! zero_frame paddr in
    ret! 0.

(** [for (page = &zone->pages[index]; npage--; ++page)] *)
Fixpoint alloc_pages (n : nat) (i gfp whence page : Z) : PM unit :=
  match n with
  | O => ret! tt
  | S n =>
      let! z := zget i in
      let! b := boot in
      do! M_assert (negb (OVERLAPS (page_addr page z) PGSZ (b_kern_base b) (b_kern_size b))) in
      let! p := pget page in
      do! M_assert (pg_refcnt p =? 0) in
      do! pmod page (set_refcnt (u64 (pg_refcnt p + 1))) in
      do! page_verify_watermark page in
      do! M_when (negb (Z.land gfp GFP_ZERO =? 0))
            (let! err := zero_fill_page i page whence in M_assert (err =? 0)) in
      alloc_pages n i gfp whence (page + sizeof_page)
  end.

(** The error, the page and its physical address. *)
Definition do_page_alloc_n (gfp order : Z) (ppage ppaddr : bool) : PM (Z * option (Z * Z)) :=
  let npage := BS order in
  let err := validate_input gfp order ppage ppaddr in
  if negb (err =? 0) then ret! (err, None) else
  let whence := gfp_to_zone_index gfp in
  if whence <? 0 then ret! (whence, None) else
  let! r := getzone_byindex whence in
  let '(err, zone) := r in
  match zone with
  | None => ret! (err, None)
  | Some i =>
      let! z := zget i in
      let! r := lift (bitmap_alloc_range (z_bitmap z) npage true) in
      match r with
      | (_, Some index) =>
          do! alloc_pages (Z.to_nat npage) i gfp whence (page_at z index) in
          let! z := zget i in
          do! zmod i (set_upages (u64 (z_upages z + BS order))) in
          let page := page_at z index in
          do! zone_unlock i in
          ret! (0, Some (page, page_addr page z))
      | (err, None) =>
          do! zone_unlock i in
          ret! (if err =? - ENOSPC then - ENOMEM else err, None)
      end
  end.

Definition page_alloc_n (gfp order : Z) : PM (Z * option Z) :=
  let! r := do_page_alloc_n gfp order true false in ret! (r.1, fst <$> r.2).
Definition page_alloc (gfp : Z) : PM (Z * option Z) :=
  let! r := do_page_alloc_n gfp 0 true false in ret! (r.1, fst <$> r.2).
Definition __page_alloc_n (gfp order : Z) : PM (Z * option Z) :=
  let! r := do_page_alloc_n gfp order false true in ret! (r.1, snd <$> r.2).
Definition __page_alloc (gfp : Z) : PM (Z * option Z) :=
  let! r := do_page_alloc_n gfp 0 false true in ret! (r.1, snd <$> r.2).
Definition page_alloc_x (gfp order : Z) (ppage paddr : bool) : PM (Z * option (Z * Z)) :=
  do_page_alloc_n gfp order ppage paddr.
Definition mm_alloc : PM Z :=
  let! r := __page_alloc GFP_NORMAL in ret! (default 0 r.2).
End Alloc.

(** ** Release (mm/pmm/free.c) *)
Definition page_reset (p : page_t) : page_t :=
  mkPage (Z.lor 0 PG_SWAPPABLE) (pg_refcnt p) (pg_mapcnt p) 0 (pg_watermark p).

Fixpoint free_pages (n : nat) (i page pos : Z) : PM unit :=
  match n with
  | O => ret! tt
  | S n =>
      let! p := pget page in
      do! M_assert (negb (pg_refcnt p =? 0)) in
      let r := u64 (pg_refcnt p - 1) in
      do! pmod page (set_refcnt r) in
      do! M_when (r =? 0)
        (let! z := zget i in
         let! err := lift (bitmap_unset (z_bitmap z) pos 1) in
         do! M_assert (err =? 0) in
         do! pmod page page_reset in
         zmod i (set_upages (u64 (z_upages z - 1)))) in
      free_pages n i (page + sizeof_page) (pos + 1)
  end.

Definition do_page_free_n (page addr order : Z) : PM unit :=
  let npage := BS order in
  do! M_assert (order <=? 64) in
  let! found :=
    (if is_null page then
       let! r := getzone_byaddr addr (u64 (npage * PGSZ)) in
       do! M_assert (r.1 =? 0) in
       match r.2 with
       | None => M_fault
       | Some i =>
           let! z := zget i in
           let page := page_at z (u64 (addr - z_start z) / PGSZ) in
           let! p := pget page in
           do! M_assert (negb (pg_refcnt p =? 0)) in
           let! t := lift (bitmap_test (z_bitmap z) (page_index page z) 1) in
           do! M_assert (negb (t =? 0)) in
           ret! (i, page)
       end
     else
       let! r := getzone_bypage page in
       do! M_assert (r.1 =? 0) in
       match r.2 with
       | None => M_fault
       | Some i => ret! (i, page)
       end) in
  let '(i, page) := found in
  let! z := zget i in
  let! k := is_kernel_addr (page_addr page z) in
  do! M_assert (negb k) in
  if zone_end z <=? page_end page npage z then zone_unlock i else
  do! free_pages (Z.to_nat npage) i page (page_index page z) in
  zone_unlock i.

Definition page_free_n (page order : Z) : PM unit := do_page_free_n page 0 order.
Definition page_free (page : Z) : PM unit := do_page_free_n page 0 0.
Definition __page_free_n (addr order : Z) : PM unit := do_page_free_n 0 addr order.
Definition __page_free (addr : Z) : PM unit := __page_free_n addr 0.

(** ** Counting references (mm/pmm/pages.c) *)
Definition mem_sum (f : zone_t -> Z) : PM Z :=
  let fix go (n : nat) (i size : Z) : PM Z :=
    match n with
    | O => ret! size
    | S n =>
        do! zone_lock i in
        let! v := zone_isvalid i in
        let! z := zget i in
        do! zone_unlock i in
        go n (i + 1) (if v then u64 (size + f z) else size)
    end in
  go 4%nat ZONEi_DMA 0.
Definition mem_free : PM Z :=
  let! size := mem_sum (fun z => u64 (u64 (z_npages z - z_upages z) * PGSZ)) in ret! (size / 1024).
Definition mem_used : PM Z :=
  let! size := mem_sum (fun z => u64 (z_upages z * PGSZ)) in ret! (size / 1024).

(** The common end of the four functions below, with the zone found and locked. *)
Definition refcnt_inc (i page : Z) : PM Z :=
  let! z := zget i in
  let! t := lift (bitmap_test (z_bitmap z) (page_index page z) 1) in
  do! M_assert (negb (t =? 0)) in
  do! pmod page (fun p => set_refcnt (u64 (pg_refcnt p + 1)) p) in
  do! zone_unlock i in
  ret! 0.
Definition refcnt_dec (i page : Z) : PM Z :=
  let! z := zget i in
  let! t := lift (bitmap_test (z_bitmap z) (page_index page z) 1) in
  do! M_assert (negb (t =? 0)) in
  let! p := pget page in
  do! pmod page (set_refcnt (u64 (pg_refcnt p - 1))) in
  do! M_when (u64 (pg_refcnt p - 1) =? 0)
    (let! err := lift (bitmap_unset (z_bitmap z) (page_index page z) 1) in M_assert (err =? 0)) in
  do! zone_unlock i in
  ret! 0.

Definition page_increment (page : Z) : PM Z :=
  if is_null page then ret! (- EINVAL) else
  let! r := getzone_bypage page in
  match r with
  | (_, Some i) => refcnt_inc i page
  | (err, None) => ret! err
  end.
Definition page_decrement (page : Z) : PM Z :=
  if is_null page then ret! (- EINVAL) else
  let! r := getzone_bypage page in
  match r with
  | (_, Some i) => refcnt_dec i page
  | (err, None) => ret! err
  end.
Definition __page_increment (paddr : Z) : PM Z :=
  if paddr =? 0 then ret! (- EINVAL) else
  let! r := getzone_byaddr paddr PGSZ in
  match r with
  | (_, Some i) => let! z := zget i in refcnt_inc i (page_at z (u64 (paddr - z_start z) / PGSZ))
  | (err, None) => ret! err
  end.
Definition __page_decrement (paddr : Z) : PM Z :=
  if paddr =? 0 then ret! (- EINVAL) else
  let! r := getzone_byaddr paddr PGSZ in
  match r with
  | (_, Some i) => let! z := zget i in refcnt_dec i (page_at z (u64 (paddr - z_start z) / PGSZ))
  | (err, None) => ret! err
  end.
Definition page_get (page : Z) : PM Z := page_increment page.
Definition __page_get (paddr : Z) : PM Z := __page_increment paddr.
Definition page_put (page : Z) : PM unit := let! err := page_decrement page in M_assert (err =? 0).
Definition __page_put (paddr : Z) : PM Z := __page_decrement paddr.
Definition mm_free (addr : Z) : PM unit := let! _ := __page_put addr in ret! tt.

(** The out-pointers are not NULL when the boolean says so. *)
Definition page_get_address (page : Z) (ppa : bool) : PM (Z * option Z) :=
  if is_null page || negb ppa then ret! (- EINVAL, None) else
  let! r := getzone_bypage page in
  match r with
  | (_, Some i) => let! z := zget i in do! zone_unlock i in ret! (0, Some (page_addr page z))
  | (err, None) => ret! (err, None)
  end.
Definition page_getcount (page : Z) (pcnt : bool) : PM (Z * option Z) :=
  if is_null page || negb pcnt then ret! (- EINVAL, None) else
  let! r := getzone_bypage page in
  match r with
  | (_, Some i) => let! p := pget page in do! zone_unlock i in ret! (0, Some (pg_refcnt p))
  | (err, None) => ret! (err, None)
  end.
Definition __page_getcount (paddr : Z) (pcnt : bool) : PM (Z * option Z) :=
  if (paddr =? 0) || negb pcnt then ret! (- EINVAL, None) else
  let! r := getzone_byaddr paddr PGSZ in
  match r with
  | (_, Some i) =>
      let! z := zget i in
      let! p := pget (page_at z (u64 (paddr - z_start z) / PGSZ)) in
      do! zone_unlock i in ret! (0, Some (pg_refcnt p))
  | (err, None) => ret! (err, None)
  end.
