(* ===== verification/PmmFacts.v ===== *)
(** * Zones of page frames: representation and single frames

    What a state of the physical memory manager represents: for every valid zone the
    reference counts of the frames in use, and what finding a zone, and taking and
    dropping a reference, do to it. *)
From S2P Require Import Prelude Errno Spinlock KMem Queue Bitmap BitmapFacts BitmapSpec Pmm.

Implicit Types (s : pmem) (z : zone_t) (C : gmap Z Z) (i j idx k n : Z).

(** ** Rules for the accessors *)
Lemma wp_lift {A} (c : K A) (Q : A -> pmem -> Prop) s :
  wp c (fun a m => Q a (with_mem m s)) (p_mem s) -> wp (lift c) Q s.
Proof. unfold wp, lift. by destruct (c (p_mem s)). Qed.
Lemma wp_zget i z (Q : zone_t -> pmem -> Prop) s : zone_at i s = Some z -> Q z s -> wp (zget i) Q s.
Proof. unfold wp, zget. by intros ->. Qed.
Lemma wp_zmod i f z (Q : unit -> pmem -> Prop) s :
  zone_at i s = Some z -> Q tt (with_zones (<[Z.to_nat i := f z]> (p_zones s)) s) -> wp (zmod i f) Q s.
Proof. unfold wp, zmod. by intros ->. Qed.
Lemma wp_pget a p (Q : page_t -> pmem -> Prop) s : p_page s !! a = Some p -> Q p s -> wp (pget a) Q s.
Proof. unfold wp, pget. by intros ->. Qed.
Lemma wp_pmod a f p (Q : unit -> pmem -> Prop) s :
  p_page s !! a = Some p -> Q tt (with_page (<[a := f p]> (p_page s)) s) -> wp (pmod a f) Q s.
Proof. unfold wp, pmod. by intros ->. Qed.

Lemma zone_at_eq i s z : zone_at i s = Some z <-> 0 <= i /\ p_zones s !! Z.to_nat i = Some z.
Proof. unfold zone_at. destruct (Z.ltb_spec i 0); [|naive_solver]. split; [done|lia]. Qed.
Lemma zone_at_insert i j z s :
  0 <= i -> (Z.to_nat i < length (p_zones s))%nat ->
  zone_at j (with_zones (<[Z.to_nat i := z]> (p_zones s)) s) = if decide (j = i) then Some z else zone_at j s.
Proof.
  intros Hi Hl. unfold zone_at. cbn. destruct (decide (j = i)) as [->|Hne].
  - destruct (Z.ltb_spec i 0); [lia|]. apply list_lookup_insert_eq. lia.
  - destruct (Z.ltb_spec j 0); [done|]. apply list_lookup_insert_ne. lia.
Qed.

(** ** Locks

    A zone without its lock; which zone, if any, the running context has locked. *)
Definition bare z : zone_t := set_zlock SPINLOCK_INIT z.
Definition locks_at s (h : option Z) : Prop :=
  length (p_zones s) = 4%nat /\
  forall j z, zone_at j s = Some z -> if decide (h = Some j) then holding (k_who (p_mem s)) (z_lock z) = true else locked (z_lock z) = false.

(** The same state up to the locks of the zones. *)
Definition relocked s s' : Prop :=
  p_mem s' = p_mem s /\ p_page s' = p_page s /\ p_ram s' = p_ram s /\ p_boot s' = p_boot s /\
  forall j, bare <$> zone_at j s' = bare <$> zone_at j s.
Lemma relocked_refl s : relocked s s.
Proof. by split_and!. Qed.
Lemma relocked_trans s1 s2 s3 : relocked s1 s2 -> relocked s2 s3 -> relocked s1 s3.
Proof. intros (A & B & D & E & F) (A' & B' & D' & E' & F'). split_and!; congruence. Qed.
Lemma relocked_at s s' i z : relocked s s' -> zone_at i s = Some z -> exists z', zone_at i s' = Some z' /\ bare z' = bare z.
Proof.
  intros (_ & _ & _ & _ & H) Hz. specialize (H i). rewrite Hz in H. cbn in H. destruct (zone_at i s') as [z'|]; [|done].
  exists z'. split; [done|]. by apply (inj Some).
Qed.

Lemma zone_at_lt s h i : locks_at s h -> 0 <= i < 4 -> is_Some (zone_at i s).
Proof. intros [Hl _] Hi. unfold zone_at. destruct (Z.ltb_spec i 0); [lia|]. apply lookup_lt_is_Some_2. lia. Qed.
Lemma zone_at_bound s h i z : locks_at s h -> zone_at i s = Some z -> 0 <= i < 4.
Proof. intros [Hl _] [Hi Hz]%zone_at_eq. apply lookup_lt_Some in Hz. lia. Qed.

Lemma wp_zone_lock i s (Q : unit -> pmem -> Prop) :
  locks_at s None -> 0 <= i < 4 -> (forall s', relocked s s' -> locks_at s' (Some i) -> Q tt s') -> wp (zone_lock i) Q s.
Proof.
  intros Hl Hi HQ. destruct (zone_at_lt s None i Hl Hi) as [z Hz]. destruct Hl as [Hlen Hl]. pose proof (Hl i z Hz) as Hlk. rewrite decide_False in Hlk by done.
  unfold zone_lock. apply wp_bind. eapply wp_zget; [exact Hz|]. apply wp_bind, wp_get.
  unfold lock_acquire, holding at 1. rewrite Hlk. cbn [andb]. eapply wp_zmod; [exact Hz|]. apply HQ.
  - split_and!; try done. intros j. rewrite zone_at_insert by lia. case_decide; [|done]. subst j. by rewrite Hz.
  - split; [cbn; by rewrite length_insert|]. intros j z'. rewrite zone_at_insert by lia. destruct (decide (j = i)) as [->|Hne].
    + intros [= <-]. rewrite decide_True by done. cbn. unfold holding, self. cbn.
      destruct (w_current _ =? 0); rewrite Z.eqb_refl; [apply orb_true_r|done].
    + intros Hz'. rewrite decide_False by congruence. specialize (Hl j z' Hz'). by rewrite decide_False in Hl.
Qed.
Lemma wp_zone_unlock i s (Q : unit -> pmem -> Prop) :
  locks_at s (Some i) -> 0 <= i < 4 -> (forall s', relocked s s' -> locks_at s' None -> Q tt s') -> wp (zone_unlock i) Q s.
Proof.
  intros Hl Hi HQ. destruct (zone_at_lt s _ i Hl Hi) as [z Hz]. destruct Hl as [Hlen Hl]. pose proof (Hl i z Hz) as Hlk. rewrite decide_True in Hlk by done.
  unfold zone_unlock. apply wp_bind. eapply wp_zget; [exact Hz|]. apply wp_bind, wp_get.
  unfold lock_release. rewrite Hlk. eapply wp_zmod; [exact Hz|]. apply HQ.
  - split_and!; try done. intros j. rewrite zone_at_insert by lia. case_decide; [|done]. subst j. by rewrite Hz.
  - split; [cbn; by rewrite length_insert|]. intros j z'. rewrite zone_at_insert by lia. rewrite (decide_False (P := None = Some j)) by done.
    destruct (decide (j = i)) as [->|Hne]; [by intros [= <-]|]. intros Hz'. specialize (Hl j z' Hz'). by rewrite decide_False in Hl by congruence.
Qed.
Lemma wp_zone_isvalid i z s (Q : bool -> pmem -> Prop) :
  locks_at s (Some i) -> zone_at i s = Some z -> Q (negb (Z.land (z_flags z) ZONE_VALID =? 0)) s -> wp (zone_isvalid i) Q s.
Proof.
  intros [_ Hl] Hz HQ. specialize (Hl i z Hz). rewrite decide_True in Hl by done. unfold zone_isvalid.
  apply wp_bind. eapply wp_zget; [exact Hz|]. apply wp_bind, wp_get. apply wp_bind, wp_assert; [done|]. by apply wp_ret.
Qed.

(** ** Searching the zones *)
Definition zvalid z : bool := negb (Z.land (z_flags z) ZONE_VALID =? 0).
Definition zone_search (test : zone_t -> bool -> bool) : Z -> PM (option Z) := fun i =>
  do! zone_lock i in
  let! z := zget i in
  let! v := zone_isvalid i in
  if test z v then ret! (Some i) else do! zone_unlock i in ret! None.

Lemma zone_search_spec (test : zone_t -> bool -> bool) (nn : nat) i s (Q : option Z -> pmem -> Prop) :
  (forall z v, test (bare z) v = test z v) -> locks_at s None -> 0 <= i -> i + Z.of_nat nn <= 4 ->
  (forall s' k z, relocked s s' -> locks_at s' (Some k) -> i <= k < i + Z.of_nat nn -> zone_at k s = Some z -> test z (zvalid z) = true ->
     (forall j z', i <= j < k -> zone_at j s = Some z' -> test z' (zvalid z') = false) -> Q (Some k) s') ->
  (forall s', relocked s s' -> locks_at s' None ->
     (forall j z', i <= j < i + Z.of_nat nn -> zone_at j s = Some z' -> test z' (zvalid z') = false) -> Q None s') ->
  wp (for_range nn i (zone_search test)) Q s.
Proof.
  intros Ht. revert i s Q. induction nn as [|nn IH]; intros i s Q Hl Hi Hn Hyes Hno; cbn [for_range].
  { apply wp_ret. apply Hno; [apply relocked_refl|done|lia]. }
  destruct (zone_at_lt s None i Hl ltac:(lia)) as [z Hz].
  apply wp_bind. unfold zone_search at 1. apply wp_bind. apply wp_zone_lock; [done|lia|]. intros s1 Hr1 Hl1.
  destruct (relocked_at _ _ _ _ Hr1 Hz) as (z1 & Hz1 & Hb1). apply wp_bind. eapply wp_zget; [exact Hz1|].
  apply wp_bind. eapply wp_zone_isvalid; [done..|]. fold (zvalid z1).
  assert (test z1 (zvalid z1) = test z (zvalid z)) as E.
  { rewrite <- (Ht z1), <- (Ht z), Hb1. unfold zvalid. change (z_flags z1) with (z_flags (bare z1)). by rewrite Hb1. }
  rewrite E. destruct (test z (zvalid z)) eqn:Ez.
  - apply wp_ret. cbn. apply wp_ret. apply (Hyes s1 i z); try done; lia.
  - apply wp_bind. apply wp_zone_unlock; [done|lia|]. intros s2 Hr2 Hl2. apply wp_ret. cbn.
    pose proof (relocked_trans _ _ _ Hr1 Hr2) as Hr. apply IH; [done|lia|lia| |].
    + intros s' k zk Hr' Hl' Hk Hzk Htest Hbefore. destruct (zone_at_lt s None k Hl ltac:(lia)) as [zk0 Hzk0].
      destruct (relocked_at _ _ _ _ Hr Hzk0) as (zk' & Hzk' & Hbk). assert (zk' = zk) as -> by congruence.
      assert (test zk0 (zvalid zk0) = true) as Htk.
      { rewrite <- Htest, <- (Ht zk), <- (Ht zk0), Hbk. unfold zvalid. change (z_flags zk) with (z_flags (bare zk)). by rewrite Hbk. }
      apply (Hyes s' k zk0); [by eapply relocked_trans|done|lia|done|done|].
      intros j zj Hj Hzj. destruct (decide (j = i)) as [->|]; [congruence|].
      destruct (relocked_at _ _ _ _ Hr Hzj) as (zj' & Hzj' & Hbj). specialize (Hbefore j zj' ltac:(lia) Hzj').
      rewrite <- (Ht zj), <- Hbj. unfold zvalid in *. change (z_flags zj) with (z_flags (bare zj)). rewrite <- Hbj. by rewrite Ht.
    + intros s' Hr' Hl' Hall. apply Hno; [by eapply relocked_trans|done|]. intros j zj Hj Hzj. destruct (decide (j = i)) as [->|]; [congruence|].
      destruct (relocked_at _ _ _ _ Hr Hzj) as (zj' & Hzj' & Hbj). specialize (Hall j zj' ltac:(lia) Hzj').
      rewrite <- (Ht zj), <- Hbj. unfold zvalid in *. change (z_flags zj) with (z_flags (bare zj)). rewrite <- Hbj. by rewrite Ht.
Qed.

(** ** What a zone represents *)

(** The fixed data of a zone: addresses, size, and the frames reserved at boot. *)
Record zinfo := mkInfo { i_start : Z; i_bitmap : Z; i_map : Z; i_pages : Z; i_npages : Z; i_reserved : gset Z }.
Implicit Types (I J : zinfo).
Definition frame I idx : Z := i_start I + idx * PGSZ.
Definition pg I idx : Z := i_pages I + sizeof_page * idx.

Record info_ok I : Prop := {
  io_npages : 0 < i_npages I;
  io_pages : 0 < i_pages I /\ i_pages I + sizeof_page * i_npages I < two64;
  io_range : 0 <= i_start I /\ i_start I + i_npages I * PGSZ < two64
}.
Record zone_is z I (u : Z) : Prop := {
  zi_start : z_start z = i_start I;
  zi_size : z_size z = i_npages I * PGSZ;
  zi_bitmap : z_bitmap z = i_bitmap I;
  zi_pages : z_pages z = i_pages I;
  zi_npages : z_npages z = i_npages I;
  zi_upages : z_upages z = u;
  zi_valid : zvalid z = true
}.
Definition bits (m : kmem) I (X : gset Z) : Prop :=
  exists ws, bitmap_own m (i_bitmap I) (i_map I) (i_npages I) ws /\ repr ws (i_npages I) X.

(** A frame that allocation may hand out: it does not touch the kernel image. *)
Definition in_kernel (b : bootinfo_t) (a : Z) : bool := (b_kern_base b <=? a) && (a <? u64 (b_kern_base b + b_kern_size b)).
Definition kernel_clear (b : bootinfo_t) (a : Z) : Prop :=
  OVERLAPS a PGSZ (b_kern_base b) (b_kern_size b) = false /\ in_kernel b a = false /\ in_kernel b (V2HI a) = false.

(** [C] holds the reference counts of the frames in use. *)
Record zone_rep s i I C (u : Z) : Prop := {
  zr_at : exists z, zone_at i s = Some z /\ zone_is z I u;
  zr_info : info_ok I;
  zr_bits : bits (p_mem s) I (dom C);
  zr_page : forall idx, 0 <= idx < i_npages I -> exists p, p_page s !! pg I idx = Some p /\
    pg_refcnt p = default 0 (C !! idx) /\ (idx ∉ i_reserved I -> good_watermark (pg_watermark p) = true);
  zr_count : forall idx c, C !! idx = Some c -> 0 < c < two64;
  zr_usable : forall idx, 0 <= idx < i_npages I -> idx ∉ i_reserved I -> kernel_clear (p_boot s) (frame I idx);
  zr_reserved : forall idx, idx ∈ i_reserved I -> is_Some (C !! idx)
}.

Lemma zone_is_bare z z' I u : bare z' = bare z -> zone_is z I u -> zone_is z' I u.
Proof.
  intros E [H1 H2 H3 H4 H5 H6 H7]. unfold zvalid in *.
  split; [change (z_start z') with (z_start (bare z'))|change (z_size z') with (z_size (bare z'))|change (z_bitmap z') with (z_bitmap (bare z'))
    |change (z_pages z') with (z_pages (bare z'))|change (z_npages z') with (z_npages (bare z'))|change (z_upages z') with (z_upages (bare z'))
    |unfold zvalid; change (z_flags z') with (z_flags (bare z'))]; rewrite E; assumption.
Qed.
Lemma page_at_eq z I u idx : info_ok I -> zone_is z I u -> 0 <= idx <= i_npages I -> page_at z idx = pg I idx.
Proof.
  intros [_ Hp _] Hz Hi. unfold page_at, pg. rewrite (zi_pages _ _ _ Hz). apply u64_small. unfold is_u64, sizeof_page in *. lia.
Qed.
Lemma page_index_eq z I u idx : zone_is z I u -> page_index (pg I idx) z = idx.
Proof.
  intros Hz. unfold page_index, pg. rewrite (zi_pages _ _ _ Hz). replace (i_pages I + sizeof_page * idx - i_pages I) with (idx * sizeof_page) by lia.
  apply Z.div_mul. done.
Qed.
Lemma page_addr_eq z I u idx : info_ok I -> zone_is z I u -> 0 <= idx <= i_npages I -> page_addr (pg I idx) z = frame I idx.
Proof.
  intros [_ _ Hr] Hz Hi. unfold page_addr, frame. rewrite (page_index_eq _ _ _ _ Hz), (zi_start _ _ _ Hz). apply u64_small.
  unfold is_u64, PGSZ in *. lia.
Qed.
Lemma zone_end_eq z I u : info_ok I -> zone_is z I u -> zone_end z = frame I (i_npages I).
Proof.
  intros [Hn _ Hr] Hz. unfold zone_end, frame. rewrite (zi_size _ _ _ Hz), (zi_start _ _ _ Hz). apply u64_small. unfold is_u64, PGSZ in *. lia.
Qed.
Lemma pg_inj I idx idx' : pg I idx = pg I idx' -> idx = idx'.
Proof. unfold pg, sizeof_page. lia. Qed.
Lemma zone_rep_in s i I C u idx : zone_rep s i I C u -> is_Some (C !! idx) -> 0 <= idx < i_npages I.
Proof. intros Hr [c Hc]. destruct (zr_bits _ _ _ _ _ Hr) as (ws & _ & HX). apply (HX idx). apply elem_of_dom. by exists c. Qed.

(** Locks do not matter to the representation. *)
Lemma zone_rep_relocked s s' i I C u : relocked s s' -> zone_rep s i I C u -> zone_rep s' i I C u.
Proof.
  intros Hr [(z & Hz & Hi) H2 H3 H4 H5 H6 H7]. pose proof Hr as (R1 & R2 & R3 & R4 & R5).
  destruct (relocked_at _ _ _ _ Hr Hz) as (z' & Hz' & Hb). split; try done.
  - exists z'. split; [done|by eapply zone_is_bare].
  - by rewrite R1.
  - by rewrite R2.
  - by rewrite R4.
Qed.

(** ** What an operation on one zone leaves alone *)
Record zstep s s' i I : Prop := {
  zs_boot : p_boot s' = p_boot s;
  zs_who : k_who (p_mem s') = k_who (p_mem s);
  zs_zones : forall j, j <> i -> bare <$> zone_at j s' = bare <$> zone_at j s;
  zs_bitmaps : forall a, a <> i_bitmap I -> bitmaps (p_mem s') !! a = bitmaps (p_mem s) !! a;
  zs_words : forall a, a <> i_map I -> words (p_mem s') !! a = words (p_mem s) !! a;
  zs_page : forall a, (forall idx, 0 <= idx < i_npages I -> a <> pg I idx) -> p_page s' !! a = p_page s !! a
}.
Lemma zstep_trans s1 s2 s3 i I : zstep s1 s2 i I -> zstep s2 s3 i I -> zstep s1 s3 i I.
Proof.
  intros [A1 A2 A3 A4 A5 A6] [B1 B2 B3 B4 B5 B6]. split; try congruence.
  - intros j Hj. by rewrite B3, A3.
  - intros a Ha. by rewrite B4, A4.
  - intros a Ha. by rewrite B5, A5.
  - intros a Ha. by rewrite B6, A6.
Qed.
Lemma zstep_relocked s s' i I : relocked s s' -> zstep s s' i I.
Proof. intros (A & B & D & E & F). split; try done; intros; rewrite ?A, ?B; done. Qed.
Lemma zstep_pages s i I idx p : 0 <= idx < i_npages I -> zstep s (with_page (<[pg I idx := p]> (p_page s)) s) i I.
Proof. intros Hi. split; try done. intros a Ha. cbn. apply lookup_insert_ne. intros E. by apply (Ha idx). Qed.
Lemma zstep_mem s m' i I ws' : bm_result (p_mem s) (i_bitmap I) (i_map I) (i_npages I) ws' m' -> zstep s (with_mem m' s) i I.
Proof.
  intros (lk & _ & ->). split; try done; cbn [p_mem with_mem].
  - intros a Ha. ksimpl. by apply lookup_insert_ne.
  - intros a Ha. ksimpl. by apply lookup_insert_ne.
Qed.
Lemma zstep_zone s i I z' : 0 <= i -> (Z.to_nat i < length (p_zones s))%nat -> zstep s (with_zones (<[Z.to_nat i := z']> (p_zones s)) s) i I.
Proof. intros Hi Hl. split; try done. intros j Hj. by rewrite zone_at_insert, decide_False. Qed.

Definition apart I J : Prop :=
  i_bitmap I <> i_bitmap J /\ i_map I <> i_map J /\
  (i_pages I + sizeof_page * i_npages I <= i_pages J \/ i_pages J + sizeof_page * i_npages J <= i_pages I) /\
  (frame I (i_npages I) <= i_start J \/ frame J (i_npages J) <= i_start I).

Lemma zone_rep_step s s' i j I J C u : apart I J -> i <> j -> zstep s s' i I -> zone_rep s j J C u -> zone_rep s' j J C u.
Proof.
  intros (D1 & D2 & D3 & D4) Hij [A1 A2 A3 A4 A5 A6] [(z & Hz & Hi) H2 (ws & (lk & Hl & [B1 B2 B3 B4 B5 B6 B7 B8]) & HX) H4 H5 H6 H7]. split; try done.
  - specialize (A3 j ltac:(done)). rewrite Hz in A3. cbn in A3. destruct (zone_at j s') as [z'|]; [|done]. exists z'. split; [done|].
    eapply zone_is_bare; [|done]. by apply (inj Some).
  - exists ws. split; [|done]. exists lk. split; [done|]. split; try done; [by rewrite A4|by rewrite A5].
  - intros idx Hidx. rewrite A6; [by apply H4|]. intros k Hk E. unfold pg, sizeof_page in *. lia.
  - by rewrite A1.
Qed.

(** ** The bitmap of a zone *)
Lemma locks_at_eq s s' h : p_zones s' = p_zones s -> k_who (p_mem s') = k_who (p_mem s) -> locks_at s h -> locks_at s' h.
Proof. unfold locks_at, zone_at. by intros -> ->. Qed.

(** A call of a bitmap operation on the bitmap of zone [i]. *)
Lemma wp_bits (o : b_op) {A} (c : K A) (g : A -> b_res) s i I X (Q : A -> pmem -> Prop) h :
  b_arg_ok o -> (forall m, b_exec (i_bitmap I) o m = M_bind c (fun a => M_ret (g a)) m) ->
  bits (p_mem s) I X -> locks_at s h ->
  (forall a m', g a = (b_step (i_npages I) o X).1 -> bits m' I (b_step (i_npages I) o X).2 ->
     zstep s (with_mem m' s) i I -> locks_at (with_mem m' s) h -> Q a (with_mem m' s)) -> wp (lift c) Q s.
Proof.
  intros Hok Hc (ws & Hown & HX) Hl HQ. apply wp_lift.
  pose proof (b_exec_simulates (p_mem s) _ _ _ ws X Hown HX o Hok) as H.
  eapply wp_eq in H; [|symmetry; apply Hc]. apply wp_bind_ret in H. eapply wp_mono; [exact H|].
  intros a m' (ws' & Hown' & Hres & HX' & E). apply HQ; [done|by exists ws'|by eapply zstep_mem|].
  eapply locks_at_eq; [..|exact Hl]; [done|]. destruct Hres as (lk & _ & ->). cbn. by ksimpl.
Qed.

Lemma wp_test_one s i I X idx h (Q : Z -> pmem -> Prop) :
  bits (p_mem s) I X -> info_ok I -> locks_at s h -> idx ∈ X -> 0 <= idx < i_npages I ->
  (forall m', bits m' I X -> zstep s (with_mem m' s) i I -> locks_at (with_mem m' s) h -> Q 1 (with_mem m' s)) ->
  wp (lift (bitmap_test (i_bitmap I) idx 1)) Q s.
Proof.
  intros Hb Hi Hl Hin Hidx HQ. eapply (wp_bits (BTest idx 1) _ (fun r => (r, None)) _ i); [| |exact Hb|exact Hl|].
  - destruct Hi as [_ _ Hr]. unfold PGSZ in Hr. cbn. lia.
  - done.
  - cbn [b_step]. destruct (Z.ltb_spec (i_npages I) (idx + 1)); [lia|].
    rewrite decide_True by (intros k Hk; apply elem_of_rng in Hk; by replace k with idx by lia). intros a m' [= ->]. apply HQ.
Qed.
Lemma wp_unset_one s i I X idx h (Q : Z -> pmem -> Prop) :
  bits (p_mem s) I X -> info_ok I -> locks_at s h -> idx ∈ X -> 0 <= idx < i_npages I ->
  (forall m', bits m' I (X ∖ {[idx]}) -> zstep s (with_mem m' s) i I -> locks_at (with_mem m' s) h -> Q 0 (with_mem m' s)) ->
  wp (lift (bitmap_unset (i_bitmap I) idx 1)) Q s.
Proof.
  intros Hb Hi Hl Hin Hidx HQ. eapply (wp_bits (BUnset idx 1) _ (fun r => (r, None)) _ i); [| |exact Hb|exact Hl|].
  - destruct Hi as [_ _ Hr]. unfold PGSZ in Hr. cbn. lia.
  - done.
  - cbn [b_step]. destruct (Z.ltb_spec (i_npages I) (idx + 1)); [lia|].
    rewrite decide_True by (intros k Hk; apply elem_of_rng in Hk; by replace k with idx by lia). intros a m' [= ->] Hb'. apply HQ.
    replace ({[idx]} : gset Z) with (rng idx 1); [exact Hb'|]. apply set_eq. intros k. rewrite elem_of_rng, elem_of_singleton. lia.
Qed.

(** ** One reference more, one reference less *)
Definition cnt_dec C idx : gmap Z Z :=
  match C !! idx with
  | Some c => if c =? 1 then delete idx C else <[idx := c - 1]> C
  | None => C
  end.

(** Replacing one page structure and the bit of its frame. *)
Lemma zone_rep_frame s s' i I C u u' idx c' p p' :
  zone_rep s i I C u -> 0 <= idx < i_npages I -> idx ∉ i_reserved I ->
  p_boot s' = p_boot s -> p_page s !! pg I idx = Some p -> pg_watermark p' = pg_watermark p -> pg_refcnt p' = c' -> 0 <= c' < two64 ->
  p_page s' = <[pg I idx := p']> (p_page s) ->
  (exists z, zone_at i s' = Some z /\ zone_is z I u') ->
  bits (p_mem s') I (dom (if c' =? 0 then delete idx C else <[idx := c']> C)) ->
  zone_rep s' i I (if c' =? 0 then delete idx C else <[idx := c']> C) u'.
Proof.
  intros [_ H2 _ H4 H5 H6 H7] Hidx Hres Hboot Hp Hw Hc Hc' Hpg Hz Hb.
  assert (forall k, (if c' =? 0 then delete idx C else <[idx := c']> C) !! k =
    if decide (k = idx) then (if c' =? 0 then None else Some c') else C !! k) as HC.
  { intros k. destruct (decide (k = idx)) as [->|Hne]; destruct (c' =? 0).
    - apply lookup_delete_eq.
    - apply lookup_insert_eq.
    - by apply lookup_delete_ne.
    - by apply lookup_insert_ne. }
  split; try done.
  - intros k Hk. rewrite Hpg, HC. destruct (H4 k Hk) as (q & Hq & Hqc & Hqw). destruct (decide (k = idx)) as [->|Hne].
    + exists p'. rewrite lookup_insert_eq. split; [done|]. split; [|rewrite Hw; intros; assert (p = q) as -> by congruence; auto].
      rewrite Hc. destruct (Z.eqb_spec c' 0); [by subst c'|done].
    + exists q. rewrite lookup_insert_ne by (intros E; apply Hne; symmetry; by apply (pg_inj I)). auto.
  - intros k c. rewrite HC. destruct (decide (k = idx)); [|apply H5]. destruct (Z.eqb_spec c' 0); [done|]. intros [= <-]. lia.
  - by rewrite Hboot.
  - intros k Hk. rewrite HC, decide_False by congruence. auto.
Qed.

(** The outcome of an operation that ends with the zone unlocked, or keeps it locked. *)
Definition zdone s i I C (u : Z) (h : option Z) s' : Prop :=
  zone_rep s' i I C u /\ zstep s s' i I /\ locks_at s' h /\ p_ram s' = p_ram s.

Lemma zone_rep_get s i I C u idx : zone_rep s i I C u -> 0 <= idx < i_npages I ->
  exists p, p_page s !! pg I idx = Some p /\ pg_refcnt p = default 0 (C !! idx).
Proof. intros H Hi. destruct (zr_page _ _ _ _ _ H idx Hi) as (p & Hp & Hc & _). by exists p. Qed.
Lemma zone_rep_mem s m' i I C u : zone_rep s i I C u -> bits m' I (dom C) -> zone_rep (with_mem m' s) i I C u.
Proof. intros [H1 H2 _ H4 H5 H6 H7] Hb. by split. Qed.
Lemma zdone_unlock s s' i I C u (Q : unit -> pmem -> Prop) :
  0 <= i < 4 -> zdone s i I C u (Some i) s' -> (forall s'', zdone s i I C u None s'' -> Q tt s'') -> wp (zone_unlock i) Q s'.
Proof.
  intros Hi (H1 & H2 & H3 & H4) HQ. apply wp_zone_unlock; [done..|]. intros s'' Hr Hl. apply HQ. split_and!; [|..].
  - by eapply zone_rep_relocked.
  - eapply zstep_trans; [done|by apply zstep_relocked].
  - done.
  - destruct Hr as (_ & _ & E & _ & _). congruence.
Qed.
Lemma rep_bound s i I C u h : zone_rep s i I C u -> locks_at s h -> 0 <= i < 4.
Proof. intros H Hl. destruct (zr_at _ _ _ _ _ H) as (z & Hz & _). by eapply zone_at_bound. Qed.

Lemma refcnt_inc_spec s i I C u idx c :
  zone_rep s i I C u -> locks_at s (Some i) -> C !! idx = Some c -> c + 1 < two64 -> idx ∉ i_reserved I ->
  wp (refcnt_inc i (pg I idx)) (fun r s' => r = 0 /\ zdone s i I (<[idx := c + 1]> C) u None s') s.
Proof.
  intros Hrep Hl Hc Hlt Hres. pose proof (rep_bound _ _ _ _ _ _ Hrep Hl) as Hi.
  pose proof (zone_rep_in _ _ _ _ _ _ Hrep (mk_is_Some _ _ Hc)) as Hidx. pose proof (zr_count _ _ _ _ _ Hrep _ _ Hc) as Hc0.
  pose proof (zr_at _ _ _ _ _ Hrep) as (z & Hz & Hzi). pose proof (zr_info _ _ _ _ _ Hrep) as Hinfo.
  destruct (zone_rep_get _ _ _ _ _ _ Hrep Hidx) as (p & Hp & Hpc). rewrite Hc in Hpc. cbn in Hpc.
  unfold refcnt_inc. apply wp_bind. eapply wp_zget; [exact Hz|]. rewrite (page_index_eq _ _ _ _ Hzi), (zi_bitmap _ _ _ Hzi).
  apply wp_bind. eapply (wp_test_one s i); [apply Hrep|done|done|apply elem_of_dom; by exists c|done|].
  intros m' Hb Hs Hl'. apply wp_bind, wp_assert; [done|]. apply wp_bind. eapply wp_pmod; [exact Hp|].
  apply wp_bind. eapply (zdone_unlock s _ i I (<[idx := c + 1]> C) u); [done| |intros s'' Hd; by apply wp_ret].
  split_and!; [|eapply zstep_trans; [exact Hs|by apply zstep_pages]|by eapply locks_at_eq; [..|exact Hl']|done].
  pose proof (zone_rep_frame (with_mem m' s) (with_page (<[pg I idx := set_refcnt (u64 (pg_refcnt p + 1)) p]> (p_page s)) (with_mem m' s))
    i I C u u idx (c + 1) p (set_refcnt (u64 (pg_refcnt p + 1)) p)) as H. destruct (Z.eqb_spec (c + 1) 0); [lia|]. apply H; try done.
  - by apply zone_rep_mem.
  - cbn. rewrite Hpc. apply u64_small. unfold is_u64. lia.
  - lia.
  - by exists z.
  - cbn. rewrite dom_insert_lookup_L by (by exists c). done.
Qed.

Lemma refcnt_dec_spec s i I C u idx c :
  zone_rep s i I C u -> locks_at s (Some i) -> C !! idx = Some c -> idx ∉ i_reserved I ->
  wp (refcnt_dec i (pg I idx)) (fun r s' => r = 0 /\ zdone s i I (cnt_dec C idx) u None s') s.
Proof.
  intros Hrep Hl Hc Hres. pose proof (rep_bound _ _ _ _ _ _ Hrep Hl) as Hi.
  pose proof (zone_rep_in _ _ _ _ _ _ Hrep (mk_is_Some _ _ Hc)) as Hidx. pose proof (zr_count _ _ _ _ _ Hrep _ _ Hc) as Hc0.
  pose proof (zr_at _ _ _ _ _ Hrep) as (z & Hz & Hzi). pose proof (zr_info _ _ _ _ _ Hrep) as Hinfo.
  destruct (zone_rep_get _ _ _ _ _ _ Hrep Hidx) as (p & Hp & Hpc). rewrite Hc in Hpc. cbn in Hpc.
  unfold refcnt_dec. apply wp_bind. eapply wp_zget; [exact Hz|]. rewrite (page_index_eq _ _ _ _ Hzi), (zi_bitmap _ _ _ Hzi).
  apply wp_bind. eapply (wp_test_one s i); [apply Hrep|done|done|apply elem_of_dom; by exists c|done|].
  intros m' Hb Hs Hl'. apply wp_bind, wp_assert; [done|]. apply wp_bind. eapply wp_pget; [exact Hp|].
  apply wp_bind. eapply wp_pmod; [exact Hp|]. rewrite Hpc, (u64_small (c - 1)) by (unfold is_u64; lia).
  set (s1 := with_page _ _). assert (zone_rep (with_mem m' s) i I C u) as Hrep1 by (by apply zone_rep_mem).
  assert (zstep s s1 i I) as Hs1 by (eapply zstep_trans; [exact Hs|by apply zstep_pages]).
  unfold cnt_dec. rewrite Hc. apply wp_bind. apply wp_when; intros E.
  - apply Z.eqb_eq in E. destruct (Z.eqb_spec c 1); [|lia]. apply wp_bind.
    eapply (wp_unset_one s1 i I (dom C) idx (Some i)); [exact Hb|done|by eapply locks_at_eq; [..|exact Hl']|apply elem_of_dom; by exists c|done|].
    intros m2 Hb2 Hs2 Hl2. apply wp_assert; [done|]. apply wp_bind.
    eapply (zdone_unlock s _ i I (delete idx C) u); [done| |intros s'' Hd; by apply wp_ret].
    split_and!; [|by eapply zstep_trans|done|done].
    apply (zone_rep_frame (with_mem m' s) (with_mem m2 s1) i I C u u idx 0 p (set_refcnt (c - 1) p)); try done.
    + by exists z.
    + cbn. by rewrite dom_delete_L.
  - apply Z.eqb_neq in E. destruct (Z.eqb_spec c 1); [lia|]. apply wp_bind.
    eapply (zdone_unlock s _ i I (<[idx := c - 1]> C) u); [done| |intros s'' Hd; by apply wp_ret].
    split_and!; [|done|by eapply locks_at_eq; [..|exact Hl']|done].
    pose proof (zone_rep_frame (with_mem m' s) s1 i I C u u idx (c - 1) p (set_refcnt (c - 1) p)) as H.
    destruct (Z.eqb_spec (c - 1) 0); [lia|]. apply H; try done; [lia|by exists z|]. cbn. rewrite dom_insert_lookup_L by (by exists c). done.
Qed.

(** [free_pages] drops one reference of each frame of a run. *)
Definition used_dec C (u : Z) idx : Z := if decide (C !! idx = Some 1) then u64 (u - 1) else u.
Fixpoint run_dec (nn : nat) C (u : Z) idx : gmap Z Z * Z :=
  match nn with
  | O => (C, u)
  | S nn => run_dec nn (cnt_dec C idx) (used_dec C u idx) (idx + 1)
  end.

Lemma free_one_spec s i I C u idx c nn (Q : unit -> pmem -> Prop) :
  zone_rep s i I C u -> locks_at s (Some i) -> C !! idx = Some c -> idx ∉ i_reserved I ->
  (forall s', zdone s i I (cnt_dec C idx) (used_dec C u idx) (Some i) s' -> wp (free_pages nn i (pg I (idx + 1)) (idx + 1)) Q s') ->
  wp (free_pages (S nn) i (pg I idx) idx) Q s.
Proof.
  intros Hrep Hl Hc Hres HQ. pose proof (rep_bound _ _ _ _ _ _ Hrep Hl) as Hi.
  pose proof (zone_rep_in _ _ _ _ _ _ Hrep (mk_is_Some _ _ Hc)) as Hidx. pose proof (zr_count _ _ _ _ _ Hrep _ _ Hc) as Hc0.
  pose proof (zr_at _ _ _ _ _ Hrep) as (z & Hz & Hzi). pose proof (zr_info _ _ _ _ _ Hrep) as Hinfo.
  destruct (zone_rep_get _ _ _ _ _ _ Hrep Hidx) as (p & Hp & Hpc). rewrite Hc in Hpc. cbn in Hpc.
  cbn [free_pages]. replace (pg I idx + sizeof_page) with (pg I (idx + 1)) by (unfold pg, sizeof_page; lia).
  apply wp_bind. eapply wp_pget; [exact Hp|]. apply wp_bind, wp_assert; [rewrite Hpc; destruct (Z.eqb_spec c 0); [lia|done]|].
  apply wp_bind. eapply wp_pmod; [exact Hp|]. rewrite Hpc, (u64_small (c - 1)) by (unfold is_u64; lia).
  set (s1 := with_page _ _). assert (zstep s s1 i I) as Hs1 by (by apply zstep_pages).
  unfold cnt_dec, used_dec in HQ. rewrite Hc in HQ. apply wp_bind. apply wp_when; intros E.
  - apply Z.eqb_eq in E. assert (c = 1) as -> by lia. rewrite decide_True in HQ by done. cbn [Z.eqb Pos.eqb] in HQ.
    apply wp_bind. eapply wp_zget; [exact Hz|]. rewrite (zi_bitmap _ _ _ Hzi). apply wp_bind.
    eapply (wp_unset_one s1 i I (dom C) idx (Some i)); [apply Hrep|done|by eapply locks_at_eq; [..|exact Hl]|apply elem_of_dom; by exists 1|done|].
    intros m2 Hb2 Hs2 Hl2. apply wp_bind, wp_assert; [done|]. apply wp_bind. eapply wp_pmod; [apply lookup_insert_eq|].
    eapply wp_zmod; [exact Hz|]. apply HQ. destruct Hl as [Hlen Hl].
    assert (0 <= i /\ (Z.to_nat i < length (p_zones s))%nat) as [Hi0 Hil] by lia. split_and!.
    + apply (zone_rep_frame s _ i I C u (u64 (u - 1)) idx 0 p (page_reset (set_refcnt (1 - 1) p))); try done.
      * cbn. by rewrite insert_insert_eq.
      * eexists. split; [rewrite zone_at_insert, decide_True by done; reflexivity|]. destruct Hzi as [Z1 Z2 Z3 Z4 Z5 Z6 Z7]. split; try done. cbn. by rewrite Z6.
      * cbn. by rewrite dom_delete_L.
    + eapply zstep_trans; [exact Hs1|]. eapply zstep_trans; [exact Hs2|]. eapply zstep_trans; [by apply zstep_pages|]. by apply zstep_zone.
    + split; [cbn; by rewrite length_insert|]. intros j z' Hz'. rewrite zone_at_insert in Hz' by done. destruct Hl2 as [_ Hl2].
      destruct (decide (j = i)) as [->|Hne]; [injection Hz' as <-; exact (Hl2 i z Hz)|]. exact (Hl2 j z' Hz').
    + done.
  - apply Z.eqb_neq in E. rewrite decide_False in HQ by (intros [= ->]; lia). destruct (Z.eqb_spec c 1); [lia|]. apply HQ.
    split_and!; [|done|by eapply locks_at_eq; [..|exact Hl]|done].
    pose proof (zone_rep_frame s s1 i I C u u idx (c - 1) p (set_refcnt (c - 1) p)) as H.
    destruct (Z.eqb_spec (c - 1) 0); [lia|]. apply H; try done; [lia|by exists z|]. cbn. rewrite dom_insert_lookup_L by (by exists c). apply Hrep.
Qed.
