(* ===== verification/PmmAlloc.v ===== *)
(** * Allocating and freeing runs of frames

    The loops over the page structures of a run, all zones together, and what
    [do_page_alloc_n], [do_page_free_n] and the functions of mm/pmm/pages.c do to
    the reference counts. *)
From S2P Require Import Prelude Errno Spinlock KMem Queue Bitmap BitmapFacts BitmapSpec Pmm PmmFacts.

Implicit Types (s : pmem) (z : zone_t) (C : gmap Z Z) (i j idx k n : Z) (I J : zinfo).

(** ** Loops *)
Lemma zdone_trans s s1 s2 i I C1 C2 u1 u2 h1 h2 :
  zdone s i I C1 u1 h1 s1 -> zdone s1 i I C2 u2 h2 s2 -> zdone s i I C2 u2 h2 s2.
Proof. intros (A1 & A2 & A3 & A4) (B1 & B2 & B3 & B4). split_and!; [done|by eapply zstep_trans|done|congruence]. Qed.
Lemma cnt_dec_ne C idx k : k <> idx -> cnt_dec C idx !! k = C !! k.
Proof. intros Hk. unfold cnt_dec. destruct (C !! idx); [|done]. destruct (_ =? 1); [by apply lookup_delete_ne|by apply lookup_insert_ne]. Qed.

Lemma free_pages_spec (nn : nat) s i I C u idx :
  zone_rep s i I C u -> locks_at s (Some i) ->
  (forall k, idx <= k < idx + Z.of_nat nn -> is_Some (C !! k) /\ k ∉ i_reserved I) ->
  wp (free_pages nn i (pg I idx) idx) (fun _ s' => zdone s i I (run_dec nn C u idx).1 (run_dec nn C u idx).2 (Some i) s') s.
Proof.
  revert s C u idx. induction nn as [|nn IH]; intros s C u idx Hrep Hl Hrun.
  { apply wp_ret. split_and!; try done. }
  destruct (Hrun idx ltac:(lia)) as [[c Hc] Hres]. eapply free_one_spec; [done..|]. intros s1 Hd.
  pose proof Hd as (Hrep1 & _ & Hl1 & _). eapply wp_mono; [apply (IH s1 _ _ _ Hrep1 Hl1)|].
  - intros k Hk. rewrite cnt_dec_ne by lia. apply Hrun. lia.
  - intros [] s' Hd'. by eapply zdone_trans.
Qed.

Section Alloc.
Context {MT : Mounting}.

(** [arch_mount] succeeds, at an address outside the kernel image. *)
Definition mount_ok (b : bootinfo_t) : Prop := forall paddr, (arch_mount paddr).1 = 0 /\ in_kernel b (arch_mount paddr).2 = false.
Definition wants_zero (gfp : Z) : bool := negb (Z.land gfp GFP_ZERO =? 0).
Definition ram_zeroed (b : bool) (lo hi : Z) (r r' : Z -> Z) : Prop :=
  forall a, r' a = if b && (lo <=? a) && (a <? hi) then 0 else r a.

Record pages_taken s I idx n (gfp : Z) s' : Prop := {
  pt_mem : p_mem s' = p_mem s;
  pt_zones : p_zones s' = p_zones s;
  pt_boot : p_boot s' = p_boot s;
  pt_run : forall k, idx <= k < idx + n -> p_page s' !! pg I k = set_refcnt 1 <$> p_page s !! pg I k;
  pt_rest : forall a, (forall k, idx <= k < idx + n -> a <> pg I k) -> p_page s' !! a = p_page s !! a;
  pt_ram : ram_zeroed (wants_zero gfp) (frame I idx) (frame I (idx + n)) (p_ram s) (p_ram s')
}.

Lemma zero_fill_spec s i I z u idx (whence : Z) p :
  zone_at i s = Some z -> zone_is z I u -> info_ok I -> mount_ok (p_boot s) -> 0 <= idx < i_npages I ->
  p_page s !! pg I idx = Some p -> good_watermark (pg_watermark p) = true -> kernel_clear (p_boot s) (frame I idx) ->
  wp (zero_fill_page i (pg I idx) whence) (fun r s' => r = 0 /\
    s' = with_ram (fun a => if (frame I idx <=? a) && (a <? frame I idx + PGSZ) then 0 else p_ram s a) s) s.
Proof.
  intros Hz Hzi Hinfo Hm Hidx Hp Hw (_ & _ & Hk). unfold zero_fill_page. apply wp_bind. eapply wp_zget; [exact Hz|].
  change (u64 (z_start z + page_index (pg I idx) z * PGSZ)) with (page_addr (pg I idx) z).
  rewrite (page_addr_eq z I u idx) by (done || lia). cbv zeta. apply wp_bind. unfold page_verify_watermark.
  apply wp_bind. eapply wp_pget; [exact Hp|]. apply wp_assert; [done|].
  destruct (_ || _).
  - destruct (Hm (frame I idx)) as [He Hv]. destruct (arch_mount (frame I idx)) as [err v]. cbn in He, Hv. subst err.
    apply wp_bind, wp_assert; [done|]. unfold is_kernel_addr. apply wp_bind, wp_bind. unfold boot, wp at 1. apply wp_ret.
    apply wp_bind, wp_assert; [fold (in_kernel (p_boot s) v); by rewrite Hv|]. apply wp_bind. unfold zero_frame, wp at 1. by apply wp_ret.
  - unfold is_kernel_addr. apply wp_bind, wp_bind. unfold boot, wp at 1. apply wp_ret.
    apply wp_bind, wp_assert; [fold (in_kernel (p_boot s) (V2HI (frame I idx))); by rewrite Hk|]. apply wp_bind. unfold zero_frame, wp at 1. by apply wp_ret.
Qed.

Lemma alloc_pages_spec (nn : nat) s i I z u idx (gfp whence : Z) :
  zone_at i s = Some z -> zone_is z I u -> info_ok I -> mount_ok (p_boot s) -> 0 <= idx -> idx + Z.of_nat nn <= i_npages I ->
  (forall k, idx <= k < idx + Z.of_nat nn -> kernel_clear (p_boot s) (frame I k) /\
     exists p, p_page s !! pg I k = Some p /\ pg_refcnt p = 0 /\ good_watermark (pg_watermark p) = true) ->
  wp (alloc_pages nn i gfp whence (pg I idx)) (fun _ s' => pages_taken s I idx (Z.of_nat nn) gfp s') s.
Proof.
  revert s idx. induction nn as [|nn IH]; intros s idx Hz Hzi Hinfo Hm H0 Hle Hrun.
  { apply wp_ret. split; try done; [lia|]. intros a. replace (idx + Z.of_nat 0) with idx by lia.
    destruct (Z.leb_spec (frame I idx) a), (Z.ltb_spec a (frame I idx)); rewrite ?andb_false_r; done || lia. }
  destruct (Hrun idx ltac:(lia)) as (Hk & p & Hp & Hc & Hw). cbn [alloc_pages].
  replace (pg I idx + sizeof_page) with (pg I (idx + 1)) by (unfold pg, sizeof_page; lia).
  apply wp_bind. eapply wp_zget; [exact Hz|]. apply wp_bind. unfold boot, wp at 1. rewrite (page_addr_eq z I u idx) by (done || lia).
  apply wp_bind, wp_assert; [destruct Hk as (-> & _ & _); done|]. apply wp_bind. eapply wp_pget; [exact Hp|].
  apply wp_bind, wp_assert; [by rewrite Hc|]. apply wp_bind. eapply wp_pmod; [exact Hp|]. rewrite Hc. change (u64 (0 + 1)) with 1.
  set (s1 := with_page _ s). apply wp_bind. unfold page_verify_watermark. apply wp_bind. eapply wp_pget; [apply lookup_insert_eq|]. apply wp_assert; [done|].
  assert (forall s2, p_mem s2 = p_mem s -> p_zones s2 = p_zones s -> p_boot s2 = p_boot s -> p_page s2 = p_page s1 ->
    ram_zeroed (wants_zero gfp) (frame I idx) (frame I (idx + 1)) (p_ram s) (p_ram s2) ->
    wp (alloc_pages nn i gfp whence (pg I (idx + 1))) (fun _ s' => pages_taken s I idx (Z.of_nat (S nn)) gfp s') s2) as Hnext.
  { intros s2 M1 M2 M3 M4 M5. eapply wp_mono; [apply (IH s2 (idx + 1))|].
    - unfold zone_at in *. by rewrite M2.
    - done.
    - done.
    - by rewrite M3.
    - lia.
    - lia.
    - intros k Hk'. rewrite M3, M4. unfold s1. cbn. rewrite lookup_insert_ne by (intros E; apply pg_inj in E; lia). apply Hrun. lia.
    - intros [] s' [P1 P2 P3 P4 P5 P6]. split; try congruence.
      + intros k Hk'. destruct (decide (k = idx)) as [->|Hne].
        * rewrite P5 by (intros k' Hk2 E; apply pg_inj in E; lia). rewrite M4. unfold s1. cbn. by rewrite lookup_insert_eq, Hp.
        * rewrite P4, M4 by lia. unfold s1. cbn. by rewrite lookup_insert_ne by (intros E; apply pg_inj in E; lia).
      + intros a Ha. rewrite P5, M4 by (intros k' Hk2; apply Ha; lia). unfold s1. cbn. apply lookup_insert_ne. intros E. apply (Ha idx); [lia|done].
      + intros a. rewrite P6, M5. unfold frame. replace (idx + 1 + Z.of_nat nn) with (idx + Z.of_nat (S nn)) by lia. destruct (wants_zero gfp); [|done]. cbn [andb].
        unfold PGSZ. destruct (Z.leb_spec (i_start I + (idx + 1) * 4096) a), (Z.ltb_spec a (i_start I + (idx + Z.of_nat (S nn)) * 4096)),
          (Z.leb_spec (i_start I + idx * 4096) a), (Z.ltb_spec a (i_start I + (idx + 1) * 4096)); cbn [andb]; try done; lia. }
  apply wp_bind. apply wp_when; intros Ezero.
  - apply wp_bind. eapply wp_mono; [apply (zero_fill_spec s1 i I z u idx whence (set_refcnt 1 p)); try done; [lia|apply lookup_insert_eq]|].
    intros r s2 [-> ->]. apply wp_assert; [done|]. apply Hnext; try done. intros a. cbn [p_ram with_ram s1 with_page].
    unfold wants_zero. rewrite Ezero. cbn [andb]. replace (frame I (idx + 1)) with (frame I idx + PGSZ) by (unfold frame; lia). done.
  - apply Hnext; try done. intros a. unfold wants_zero. by rewrite Ezero.
Qed.
End Alloc.

(** ** All zones *)
Definition layout : Type := Z -> option zinfo.
Definition counts : Type := Z -> gmap Z Z * Z.
Implicit Types (L : layout) (A : counts).
Definition aupd A i (a : gmap Z Z * Z) : counts := fun j => if decide (j = i) then a else A j.

(** Zone [i] is valid and described by [L i], with the reference counts and the
    number of used pages [A i]; or it is not valid. *)
Record pmm_rep s L A : Prop := {
  pr_zone : forall i, 0 <= i < 4 ->
    match L i with
    | Some J => zone_rep s i J (A i).1 (A i).2
    | None => exists z, zone_at i s = Some z /\ zvalid z = false
    end;
  pr_apart : forall i j I J, 0 <= i < 4 -> 0 <= j < 4 -> i <> j -> L i = Some I -> L j = Some J -> apart I J
}.
Definition pmm_own s L A : Prop := pmm_rep s L A /\ locks_at s None.

Lemma zvalid_bare z : zvalid (bare z) = zvalid z.
Proof. done. Qed.
Lemma pmm_rep_relocked s s' L A : relocked s s' -> pmm_rep s L A -> pmm_rep s' L A.
Proof.
  intros Hr [H1 H2]. split; [|done]. intros i Hi. specialize (H1 i Hi). destruct (L i) as [I|].
  - by eapply zone_rep_relocked.
  - destruct H1 as (z & Hz & Hv). destruct (relocked_at _ _ _ _ Hr Hz) as (z' & Hz' & Hb). exists z'. split; [done|].
    by rewrite <- zvalid_bare, Hb, zvalid_bare.
Qed.
Lemma pmm_rep_at s L A i I : pmm_rep s L A -> 0 <= i < 4 -> L i = Some I -> zone_rep s i I (A i).1 (A i).2.
Proof. intros [H _] Hi E. specialize (H i Hi). by rewrite E in H. Qed.
Lemma pmm_rep_upd s s' L A i I C u :
  pmm_rep s L A -> 0 <= i < 4 -> L i = Some I -> zone_rep s' i I C u -> zstep s s' i I -> pmm_rep s' L (aupd A i (C, u)).
Proof.
  intros [H1 H2] Hi E Hr Hs. split; [|done]. intros j Hj. specialize (H1 j Hj). unfold aupd. destruct (decide (j = i)) as [->|Hne].
  - by rewrite E.
  - destruct (L j) as [J|] eqn:Ej.
    + eapply (zone_rep_step s s' i j I J); [by apply (H2 i j)|done|done|done].
    + destruct H1 as (z & Hz & Hv). pose proof (zs_zones _ _ _ _ Hs j Hne) as Hb. rewrite Hz in Hb. cbn in Hb.
      destruct (zone_at j s') as [z'|]; [|done]. exists z'. split; [done|]. apply (inj Some) in Hb. by rewrite <- zvalid_bare, Hb, zvalid_bare.
Qed.
(** Neither the memory contents nor the boot information change. *)
Definition stays s s' : Prop := p_ram s' = p_ram s /\ p_boot s' = p_boot s.
Lemma stays_relocked s s' : relocked s s' -> stays s s'.
Proof. intros (_ & _ & R & B & _). by split. Qed.
(** The end of an operation on zone [i]. *)
Lemma pmm_own_done s s1 s' L A i I C u :
  pmm_rep s L A -> relocked s s1 -> 0 <= i < 4 -> L i = Some I -> zdone s1 i I C u None s' ->
  pmm_own s' L (aupd A i (C, u)) /\ stays s s'.
Proof.
  intros Hp Hr Hi E (D1 & D2 & D3 & D4). split; [split; [|done]|].
  - eapply pmm_rep_upd; [by eapply pmm_rep_relocked|done..].
  - destruct Hr as (_ & _ & R & B & _). split; [congruence|]. rewrite (zs_boot _ _ _ _ D2). done.
Qed.

(** ** Finding the zone of a page and of an address *)
Lemma getzone_bypage_spec s L A i I idx (Q : Z * option Z -> pmem -> Prop) :
  pmm_own s L A -> 0 <= i < 4 -> L i = Some I -> 0 <= idx < i_npages I ->
  (forall s', relocked s s' -> locks_at s' (Some i) -> Q (0, Some i) s') -> wp (getzone_bypage (pg I idx)) Q s.
Proof.
  intros [Hrep Hl] Hi E Hidx HQ. pose proof (pmm_rep_at _ _ _ _ _ Hrep Hi E) as Hz. pose proof (zr_info _ _ _ _ _ Hz) as Hinfo.
  pose proof Hinfo as [_ [Hp0 _] _]. unfold getzone_bypage, is_null. destruct (Z.eqb_spec (pg I idx) 0); [unfold pg, sizeof_page in *; lia|].
  apply wp_bind.
  apply (zone_search_spec (fun z v => (z_pages z <=? pg I idx) && v && (pg I idx <? page_at z (z_npages z))) 4 0 s);
    [done|done|lia|lia|..].
  - intros s' k z Hr Hlk Hk Hzk Htest _. apply wp_ret. destruct (decide (k = i)) as [->|Hne]; [by apply HQ|]. exfalso.
    pose proof (pr_zone _ _ _ Hrep k ltac:(lia)) as Hk'. destruct (L k) as [J|] eqn:Ek.
    + destruct Hk' as [(z' & Hz' & Hzi) Hinfo' _ _ _ _ _]. rewrite Hzk in Hz'. injection Hz' as <-.
      rewrite (zi_npages _ _ _ Hzi), (page_at_eq z J _ _ Hinfo' Hzi) in Htest by (destruct Hinfo'; lia). rewrite (zi_pages _ _ _ Hzi) in Htest.
      apply andb_prop in Htest as [[Ht1 _]%andb_prop Ht2]. apply Z.leb_le in Ht1. apply Z.ltb_lt in Ht2.
      destruct (pr_apart _ _ _ Hrep i k I J) as (_ & _ & Hd & _); [done|lia|done..|]. unfold pg, sizeof_page in *. lia.
    + destruct Hk' as (z' & Hz' & Hv). rewrite Hzk in Hz'. injection Hz' as <-. rewrite Hv, andb_false_r in Htest. done.
  - intros s' Hr Hlk Hno. exfalso. pose proof (zr_at _ _ _ _ _ Hz) as (z & Hzat & Hzi). specialize (Hno i z ltac:(lia) Hzat).
    rewrite (zi_valid _ _ _ Hzi), (zi_npages _ _ _ Hzi), (page_at_eq z I _ _ Hinfo Hzi), (zi_pages _ _ _ Hzi) in Hno by lia.
    destruct (Z.leb_spec (i_pages I) (pg I idx)), (Z.ltb_spec (pg I idx) (pg I (i_npages I))); cbn in Hno; try done; unfold pg, sizeof_page in *; lia.
Qed.

Lemma getzone_byaddr_any s L A i I idx size (Q : Z * option Z -> pmem -> Prop) :
  pmm_own s L A -> 0 <= i < 4 -> L i = Some I -> 0 <= idx -> 0 < size -> frame I idx + size <= frame I (i_npages I) ->
  (forall s', relocked s s' -> locks_at s' (Some i) -> Q (0, Some i) s') -> wp (getzone_byaddr (frame I idx) size) Q s.
Proof.
  intros [Hrep Hl] Hi E Hidx Hn Hle HQ. pose proof (pmm_rep_at _ _ _ _ _ Hrep Hi E) as Hz. pose proof (zr_info _ _ _ _ _ Hz) as Hinfo.
  assert (u64 (frame I idx + size) = frame I idx + size) as Esum.
  { destruct Hinfo as [_ _ Hr]. unfold frame, PGSZ in *. apply u64_small. unfold is_u64. lia. }
  unfold getzone_byaddr. rewrite Esum. apply wp_bind.
  apply (zone_search_spec (fun z v => (z_start z <=? frame I idx) && v && (frame I idx + size <=? zone_end z)) 4 0 s);
    [done|done|lia|lia|..].
  - intros s' k z Hr Hlk Hk Hzk Htest _. apply wp_ret. destruct (decide (k = i)) as [->|Hne]; [by apply HQ|]. exfalso.
    pose proof (pr_zone _ _ _ Hrep k ltac:(lia)) as Hk'. destruct (L k) as [J|] eqn:Ek.
    + destruct Hk' as [(z' & Hz' & Hzi) Hinfo' _ _ _ _ _]. rewrite Hzk in Hz'. injection Hz' as <-.
      rewrite (zone_end_eq _ _ _ Hinfo' Hzi), (zi_start _ _ _ Hzi) in Htest.
      apply andb_prop in Htest as [[Ht1 _]%andb_prop Ht2]. apply Z.leb_le in Ht1, Ht2.
      destruct (pr_apart _ _ _ Hrep i k I J) as (_ & _ & _ & Hd); [done|lia|done..|]. unfold frame, PGSZ in *. lia.
    + destruct Hk' as (z' & Hz' & Hv). rewrite Hzk in Hz'. injection Hz' as <-. rewrite Hv, andb_false_r in Htest. done.
  - intros s' Hr Hlk Hno. exfalso. pose proof (zr_at _ _ _ _ _ Hz) as (z & Hzat & Hzi). specialize (Hno i z ltac:(lia) Hzat).
    rewrite (zi_valid _ _ _ Hzi), (zone_end_eq _ _ _ Hinfo Hzi), (zi_start _ _ _ Hzi) in Hno.
    destruct (Z.leb_spec (i_start I) (frame I idx)), (Z.leb_spec (frame I idx + size) (frame I (i_npages I))); cbn in Hno; try done; unfold frame, PGSZ in *; lia.
Qed.

Lemma getzone_byaddr_spec s L A i I idx n (Q : Z * option Z -> pmem -> Prop) :
  pmm_own s L A -> 0 <= i < 4 -> L i = Some I -> 0 <= idx -> 0 < n -> idx + n <= i_npages I ->
  (forall s', relocked s s' -> locks_at s' (Some i) -> Q (0, Some i) s') -> wp (getzone_byaddr (frame I idx) (n * PGSZ)) Q s.
Proof. intros Hown Hi E Hidx Hn Hle. apply (getzone_byaddr_any s L A i I idx); try done; unfold frame, PGSZ; lia. Qed.

Lemma getzone_byindex_spec s L A i (Q : Z * option Z -> pmem -> Prop) :
  pmm_own s L A -> 0 <= i < 4 ->
  (forall s' I, L i = Some I -> relocked s s' -> locks_at s' (Some i) -> Q (0, Some i) s') ->
  (forall s', L i = None -> relocked s s' -> locks_at s' None -> Q (- EINVAL, None) s') -> wp (getzone_byindex i) Q s.
Proof.
  intros [Hrep Hl] Hi Hyes Hno. unfold getzone_byindex, NZONE. destruct (Z.ltb_spec i 0), (Z.ltb_spec 4 i); try lia. cbn [orb].
  apply wp_bind. apply wp_zone_lock; [done..|]. intros s1 Hr Hl1. pose proof (pmm_rep_relocked _ _ _ _ Hr Hrep) as Hrep1.
  pose proof (pr_zone _ _ _ Hrep1 i Hi) as Hz. destruct (L i) as [I|] eqn:E.
  - destruct (zr_at _ _ _ _ _ Hz) as (z & Hzat & Hzi). apply wp_bind. eapply wp_zone_isvalid; [done..|]. fold (zvalid z).
    rewrite (zi_valid _ _ _ Hzi). apply wp_ret. by apply (Hyes s1 I).
  - destruct Hz as (z & Hzat & Hv). apply wp_bind. eapply wp_zone_isvalid; [done..|]. fold (zvalid z). rewrite Hv. cbn [negb].
    apply wp_bind. apply wp_zone_unlock; [done..|]. intros s2 Hr2 Hl2. apply wp_ret. apply Hno; try done. by eapply relocked_trans.
Qed.

(** ** References *)
Lemma page_get_spec s L A i I idx c :
  pmm_own s L A -> 0 <= i < 4 -> L i = Some I -> (A i).1 !! idx = Some c -> c + 1 < two64 -> idx ∉ i_reserved I ->
  wp (page_get (pg I idx)) (fun r s' => r = 0 /\ pmm_own s' L (aupd A i (<[idx := c + 1]> (A i).1, (A i).2)) /\ stays s s') s.
Proof.
  intros Hown Hi E Hc Hlt Hres. pose proof (pmm_rep_at _ _ _ _ _ (proj1 Hown) Hi E) as Hz.
  pose proof (zone_rep_in _ _ _ _ _ _ Hz (mk_is_Some _ _ Hc)) as Hidx. unfold page_get, page_increment, is_null.
  destruct (Z.eqb_spec (pg I idx) 0) as [E0|_]; [exfalso; destruct (zr_info _ _ _ _ _ Hz) as [_ [Hp _] _]; unfold pg, sizeof_page in *; lia|].
  apply wp_bind. eapply getzone_bypage_spec; [done..|]. intros s1 Hr Hl.
  eapply wp_mono; [eapply refcnt_inc_spec; [by eapply zone_rep_relocked|done..]|]. intros r s' [-> Hd]. split; [done|].
  eapply pmm_own_done; [apply Hown|done|done|done|exact Hd].
Qed.
Lemma page_put_spec s L A i I idx c :
  pmm_own s L A -> 0 <= i < 4 -> L i = Some I -> (A i).1 !! idx = Some c -> idx ∉ i_reserved I ->
  wp (page_put (pg I idx)) (fun _ s' => pmm_own s' L (aupd A i (cnt_dec (A i).1 idx, (A i).2)) /\ stays s s') s.
Proof.
  intros Hown Hi E Hc Hres. pose proof (pmm_rep_at _ _ _ _ _ (proj1 Hown) Hi E) as Hz.
  pose proof (zone_rep_in _ _ _ _ _ _ Hz (mk_is_Some _ _ Hc)) as Hidx. unfold page_put, page_decrement, is_null.
  destruct (Z.eqb_spec (pg I idx) 0) as [E0|_]; [exfalso; destruct (zr_info _ _ _ _ _ Hz) as [_ [Hp _] _]; unfold pg, sizeof_page in *; lia|].
  apply wp_bind, wp_bind. eapply getzone_bypage_spec; [done..|]. intros s1 Hr Hl.
  eapply wp_mono; [eapply refcnt_dec_spec; [by eapply zone_rep_relocked|done..]|]. intros r s' [-> Hd]. apply wp_assert; [done|].
  eapply pmm_own_done; [apply Hown|done|done|done|exact Hd].
Qed.
(** The page structure of an address inside the zone. *)
Lemma page_of_addr z I u idx : info_ok I -> zone_is z I u -> 0 <= idx < i_npages I -> page_at z (u64 (frame I idx - z_start z) / PGSZ) = pg I idx.
Proof.
  intros Hinfo Hzi Hidx. rewrite (zi_start _ _ _ Hzi). unfold frame. replace (i_start I + idx * PGSZ - i_start I) with (idx * PGSZ) by lia.
  rewrite u64_small by (destruct Hinfo as [_ _ Hr]; unfold is_u64, PGSZ in *; lia). rewrite Z.div_mul by done. by eapply page_at_eq; [..|lia].
Qed.
Lemma getzone_of_frame s L A i I idx (Q : Z * option Z -> pmem -> Prop) :
  pmm_own s L A -> 0 <= i < 4 -> L i = Some I -> 0 <= idx < i_npages I ->
  (forall s', relocked s s' -> locks_at s' (Some i) -> Q (0, Some i) s') -> wp (getzone_byaddr (frame I idx) PGSZ) Q s.
Proof. intros Hown Hi E Hidx. apply (getzone_byaddr_spec s L A i I idx 1); try done; lia. Qed.

Lemma page_put_addr_spec s L A i I idx c :
  pmm_own s L A -> 0 <= i < 4 -> L i = Some I -> (A i).1 !! idx = Some c -> idx ∉ i_reserved I -> frame I idx <> 0 ->
  wp (__page_put (frame I idx)) (fun r s' => r = 0 /\ pmm_own s' L (aupd A i (cnt_dec (A i).1 idx, (A i).2)) /\ stays s s') s.
Proof.
  intros Hown Hi E Hc Hres H0. pose proof (pmm_rep_at _ _ _ _ _ (proj1 Hown) Hi E) as Hz.
  pose proof (zone_rep_in _ _ _ _ _ _ Hz (mk_is_Some _ _ Hc)) as Hidx. unfold __page_put, __page_decrement.
  destruct (Z.eqb_spec (frame I idx) 0); [done|]. apply wp_bind. eapply getzone_of_frame; [done..|]. intros s1 Hr Hl.
  pose proof (zone_rep_relocked _ _ _ _ _ _ Hr Hz) as Hz1. pose proof (zr_at _ _ _ _ _ Hz1) as (z & Hzat & Hzi).
  apply wp_bind. eapply wp_zget; [exact Hzat|]. rewrite (page_of_addr z I _ idx (zr_info _ _ _ _ _ Hz) Hzi Hidx).
  eapply wp_mono; [by eapply refcnt_dec_spec|]. intros r s' [-> Hd]. split; [done|].
  eapply pmm_own_done; [apply Hown|done|done|done|exact Hd].
Qed.
Lemma page_get_addr_spec s L A i I idx c :
  pmm_own s L A -> 0 <= i < 4 -> L i = Some I -> (A i).1 !! idx = Some c -> c + 1 < two64 -> idx ∉ i_reserved I -> frame I idx <> 0 ->
  wp (__page_get (frame I idx)) (fun r s' => r = 0 /\ pmm_own s' L (aupd A i (<[idx := c + 1]> (A i).1, (A i).2)) /\ stays s s') s.
Proof.
  intros Hown Hi E Hc Hlt Hres H0. pose proof (pmm_rep_at _ _ _ _ _ (proj1 Hown) Hi E) as Hz.
  pose proof (zone_rep_in _ _ _ _ _ _ Hz (mk_is_Some _ _ Hc)) as Hidx. unfold __page_get, __page_increment.
  destruct (Z.eqb_spec (frame I idx) 0); [done|]. apply wp_bind. eapply getzone_of_frame; [done..|]. intros s1 Hr Hl.
  pose proof (zone_rep_relocked _ _ _ _ _ _ Hr Hz) as Hz1. pose proof (zr_at _ _ _ _ _ Hz1) as (z & Hzat & Hzi).
  apply wp_bind. eapply wp_zget; [exact Hzat|]. rewrite (page_of_addr z I _ idx (zr_info _ _ _ _ _ Hz) Hzi Hidx).
  eapply wp_mono; [by eapply refcnt_inc_spec|]. intros r s' [-> Hd]. split; [done|].
  eapply pmm_own_done; [apply Hown|done|done|done|exact Hd].
Qed.
Lemma page_getcount_spec s L A i I idx :
  pmm_own s L A -> 0 <= i < 4 -> L i = Some I -> 0 <= idx < i_npages I ->
  wp (page_getcount (pg I idx) true) (fun r s' => r = (0, Some (default 0 ((A i).1 !! idx))) /\ pmm_own s' L A /\ stays s s') s.
Proof.
  intros Hown Hi E Hidx. pose proof (pmm_rep_at _ _ _ _ _ (proj1 Hown) Hi E) as Hz. unfold page_getcount, is_null.
  destruct (Z.eqb_spec (pg I idx) 0) as [E0|_]; [exfalso; destruct (zr_info _ _ _ _ _ Hz) as [_ [Hp _] _]; unfold pg, sizeof_page in *; lia|].
  cbn [orb negb]. apply wp_bind. eapply getzone_bypage_spec; [done..|]. intros s1 Hr Hl.
  destruct (zone_rep_get _ _ _ _ _ _ (zone_rep_relocked _ _ _ _ _ _ Hr Hz) Hidx) as (p & Hp & Hc).
  apply wp_bind. eapply wp_pget; [exact Hp|]. apply wp_bind. apply wp_zone_unlock; [done..|]. intros s2 Hr2 Hl2. apply wp_ret. rewrite Hc.
  pose proof (relocked_trans _ _ _ Hr Hr2) as Hr'. split; [done|]. split; [|by apply stays_relocked]. split; [|done]. eapply pmm_rep_relocked; [done|apply Hown].
Qed.

(** ** Releasing a run *)
Lemma order_range order : 0 <= order < 64 -> 0 < BS order /\ BS order = 2 ^ order /\ BS order < two64.
Proof.
  intros Ho. unfold BS. rewrite Z.mod_small by lia. rewrite Z.shiftl_mul_pow2, Z.mul_1_l by lia.
  split_and!; [apply Z.pow_pos_nonneg; lia|done|]. rewrite two64_eq. apply Z.pow_lt_mono_r; lia.
Qed.

(** [page_free_n] up to its test for the end of the zone. *)
Lemma page_free_enter s L A i I idx order (Q : unit -> pmem -> Prop) :
  pmm_own s L A -> 0 <= i < 4 -> L i = Some I -> 0 <= order < 64 -> 0 <= idx -> idx + BS order <= i_npages I -> idx ∉ i_reserved I ->
  (forall s1, relocked s s1 -> locks_at s1 (Some i) -> zone_rep s1 i I (A i).1 (A i).2 ->
     wp (if i_npages I <=? idx + BS order then zone_unlock i else
         do! free_pages (Z.to_nat (BS order)) i (pg I idx) idx in zone_unlock i) Q s1) ->
  wp (page_free_n (pg I idx) order) Q s.
Proof.
  intros Hown Hi E Ho Hidx Hle Hres HQ. pose proof (pmm_rep_at _ _ _ _ _ (proj1 Hown) Hi E) as Hz. destruct (order_range order Ho) as (Hn & _ & Hn64).
  pose proof (zr_info _ _ _ _ _ Hz) as Hinfo. unfold page_free_n, do_page_free_n.
  apply wp_bind, wp_assert; [apply Z.leb_le; lia|]. apply wp_bind. unfold is_null.
  destruct (Z.eqb_spec (pg I idx) 0) as [E0|_]; [exfalso; destruct Hinfo as [_ [Hp _] _]; unfold pg, sizeof_page in *; lia|].
  apply wp_bind. eapply getzone_bypage_spec; [done..|lia|]. intros s1 Hr Hl. apply wp_bind, wp_assert; [done|]. apply wp_ret. cbn [fst snd].
  pose proof (zone_rep_relocked _ _ _ _ _ _ Hr Hz) as Hz1. pose proof (zr_at _ _ _ _ _ Hz1) as (z & Hzat & Hzi).
  apply wp_bind. eapply wp_zget; [exact Hzat|]. rewrite (page_addr_eq z I _ idx Hinfo Hzi) by lia.
  destruct (zr_usable _ _ _ _ _ Hz1 idx) as (_ & Hk & _); [lia|done|].
  apply wp_bind. unfold is_kernel_addr. apply wp_bind. unfold boot, wp at 1. apply wp_ret.
  apply wp_bind, wp_assert; [fold (in_kernel (p_boot s1) (frame I idx)); by rewrite Hk|].
  rewrite (zone_end_eq z I _ Hinfo Hzi). unfold page_end. rewrite (page_addr_eq z I _ idx Hinfo Hzi), (page_index_eq _ _ _ _ Hzi) by lia.
  assert (u64 (frame I idx + BS order * PGSZ) = frame I (idx + BS order)) as ->.
  { destruct Hinfo as [_ _ Hr0]. unfold frame, PGSZ in *. rewrite u64_small; [lia|]. unfold is_u64. lia. }
  replace (frame I (i_npages I) <=? frame I (idx + BS order)) with (i_npages I <=? idx + BS order); [by apply HQ|].
  apply eq_bool_prop_intro. rewrite !Is_true_true, !Z.leb_le. unfold frame, PGSZ. lia.
Qed.

(** A run that ends before the end of its zone. *)
Lemma page_free_n_spec s L A i I idx order :
  pmm_own s L A -> 0 <= i < 4 -> L i = Some I -> 0 <= order < 64 -> 0 <= idx -> idx + BS order < i_npages I ->
  (forall k, idx <= k < idx + BS order -> is_Some ((A i).1 !! k) /\ k ∉ i_reserved I) ->
  wp (page_free_n (pg I idx) order) (fun _ s' =>
    pmm_own s' L (aupd A i (run_dec (Z.to_nat (BS order)) (A i).1 (A i).2 idx)) /\ stays s s') s.
Proof.
  intros Hown Hi E Ho Hidx Hle Hrun. destruct (order_range order Ho) as (Hn & _ & _).
  eapply page_free_enter; [done..|lia|apply Hrun; lia|]. intros s1 Hr Hl Hz1. destruct (Z.leb_spec (i_npages I) (idx + BS order)); [lia|].
  apply wp_bind. eapply wp_mono; [apply free_pages_spec; [exact Hz1|done|intros k Hk'; apply Hrun; lia]|].
  intros [] s2 Hd. eapply zdone_unlock; [done|exact Hd|]. intros s3 Hd3. rewrite surjective_pairing at 1.
  eapply pmm_own_done; [apply Hown|done|done|done|exact Hd3].
Qed.

(** A run that ends with its zone is not freed at all. *)
Lemma page_free_last_spec s L A i I idx order :
  pmm_own s L A -> 0 <= i < 4 -> L i = Some I -> 0 <= order < 64 -> 0 <= idx -> idx + BS order = i_npages I -> idx ∉ i_reserved I ->
  wp (page_free_n (pg I idx) order) (fun _ s' => pmm_own s' L A /\ stays s s') s.
Proof.
  intros Hown Hi E Ho Hidx Hle Hres. eapply page_free_enter; [done..|lia|done|]. intros s1 Hr Hl Hz1. rewrite Hle, Z.leb_refl.
  apply wp_zone_unlock; [done..|]. intros s2 Hr2 Hl2. pose proof (relocked_trans _ _ _ Hr Hr2) as Hr'.
  split; [split; [|done]|by apply stays_relocked]. eapply pmm_rep_relocked; [done|apply Hown].
Qed.

(** ** Allocation *)
Definition cnt_new C idx n : gmap Z Z := gset_to_gmap 1 (rng idx n) ∪ C.
Lemma cnt_new_lookup C idx n k : cnt_new C idx n !! k = if decide (idx <= k < idx + n) then Some 1 else C !! k.
Proof.
  unfold cnt_new. case_decide as Hk.
  - apply lookup_union_Some_l. apply lookup_gset_to_gmap_Some. split; [by apply elem_of_rng|done].
  - apply lookup_union_r. apply lookup_gset_to_gmap_None. by rewrite elem_of_rng.
Qed.
Lemma cnt_new_dom C idx n : dom (cnt_new C idx n) = dom C ∪ rng idx n.
Proof. unfold cnt_new. rewrite dom_union_L, dom_gset_to_gmap. set_solver. Qed.

(** The first run of [n] free frames. *)
Definition find_run (npages : Z) C n : option Z := snd <$> list_find (fun i => rng i n ## dom C) (seqZ 0 (npages - n + 1)).
Lemma run_taken C i n : ~ rng i n ## dom C -> exists k, i <= k < i + n /\ is_Some (C !! k).
Proof.
  intros Hnd. destruct (decide (Exists (fun k => k ∈ dom C) (seqZ i n))) as [(k & Hk & Hd)%Exists_exists|Hno].
  - exists k. apply elem_of_seqZ in Hk. split; [done|by apply elem_of_dom].
  - exfalso. apply Hnd. intros k Hk Hd. apply Hno, Exists_exists. exists k. split; [|done]. apply elem_of_rng in Hk. apply elem_of_seqZ. lia.
Qed.
Lemma find_run_Some npages C n idx : 0 < n -> find_run npages C n = Some idx ->
  0 <= idx /\ idx + n <= npages /\ (forall k, idx <= k < idx + n -> C !! k = None) /\
  forall i, 0 <= i < idx -> exists k, i <= k < i + n /\ is_Some (C !! k).
Proof.
  unfold find_run. intros Hn. destruct (list_find _ _) as [[m x]|] eqn:E; [|done]. intros [= ->].
  apply list_find_Some in E as (H1 & H2 & H3). apply lookup_seqZ in H1 as [-> H1]. split_and!; [lia|lia| |].
  - intros k Hk. apply not_elem_of_dom. intros Hin. apply (H2 k); [apply elem_of_rng; lia|done].
  - intros i Hi. assert (~ rng i n ## dom C) as Hnd by (apply (H3 (Z.to_nat i)); [apply lookup_seqZ; lia|lia]).
    by apply run_taken.
Qed.
Lemma find_run_None npages C n : find_run npages C n = None -> forall i, 0 <= i -> i + n <= npages -> exists k, i <= k < i + n /\ is_Some (C !! k).
Proof.
  unfold find_run. destruct (list_find _ _) as [[m x]|] eqn:E; [done|]. intros _ i Hi Hle. apply list_find_None in E. rewrite Forall_forall in E.
  assert (~ rng i n ## dom C) as Hnd by (apply E; apply elem_of_seqZ; lia).
  by apply run_taken.
Qed.

Section DoAlloc.
Context {MT : Mounting}.

(** What [do_page_alloc_n] answers and does to the counts, for zone [i]. *)
Definition a_alloc L A i n : (Z * option (Z * Z)) * counts :=
  match L i with
  | None => ((- EINVAL, None), A)
  | Some J =>
      if i_npages J <? n then ((- EINVAL, None), A) else
      match find_run (i_npages J) (A i).1 n with
      | None => ((- ENOMEM, None), A)
      | Some idx => ((0, Some (pg J idx, frame J idx)), aupd A i (cnt_new (A i).1 idx n, u64 ((A i).2 + n)))
      end
  end.
Definition ram_after (gfp n : Z) (r : Z * option (Z * Z)) s s' : Prop :=
  p_boot s' = p_boot s /\
  match r.2 with
  | Some (_, a) => ram_zeroed (wants_zero gfp) a (a + n * PGSZ) (p_ram s) (p_ram s')
  | None => p_ram s' = p_ram s
  end.

(** The run of a zone taken: the counts of the zone are those of the new map. *)
Lemma zone_rep_taken s s1 i I C u idx n gfp :
  zone_rep s i I C u -> 0 <= idx -> 0 < n -> idx + n <= i_npages I -> (forall k, idx <= k < idx + n -> C !! k = None) ->
  bits (p_mem s1) I (dom C ∪ rng idx n) -> pages_taken (with_mem (p_mem s1) s) I idx n gfp s1 ->
  zone_rep s1 i I (cnt_new C idx n) u.
Proof.
  intros [H1 H2 _ H4 H5 H6 H7] H0 Hn Hle Hfree Hb [P1 P2 P3 P4 P5 P6]. split; try done.
  - unfold zone_at in *. by rewrite P2.
  - by rewrite cnt_new_dom.
  - intros k Hk. destruct (H4 k Hk) as (p & Hp & Hc & Hw). rewrite cnt_new_lookup. case_decide as Hd.
    + exists (set_refcnt 1 p). rewrite P4 by done. cbn. by rewrite Hp.
    + exists p. split; [|done]. rewrite P5; [done|]. intros k' Hk' E. apply pg_inj in E. by subst k'.
  - intros k c. rewrite cnt_new_lookup. case_decide; [intros [= <-]; unfold two64; lia|apply H5].
  - by rewrite P3.
  - intros k Hk. rewrite cnt_new_lookup. case_decide; [by exists 1|auto].
Qed.
Lemma pages_taken_step s s1 s2 i I idx n gfp :
  zstep s s1 i I -> pages_taken s1 I idx n gfp s2 -> 0 <= idx -> idx + n <= i_npages I -> zstep s s2 i I.
Proof.
  intros Hs [P1 P2 P3 P4 P5 P6] H0 Hle. eapply zstep_trans; [exact Hs|]. split; try done; intros; rewrite ?P1; try done.
  - unfold zone_at. by rewrite P2.
  - apply P5. intros k Hk. apply H. lia.
Qed.

(** The bits of the run are set: the page structures, the count and the lock. *)
Lemma alloc_take_spec s m' i I C u idx order gfp whence z :
  zone_rep s i I C u -> zone_at i s = Some z -> zone_is z I u -> mount_ok (p_boot s) ->
  zstep s (with_mem m' s) i I -> locks_at (with_mem m' s) (Some i) ->
  bits m' I (dom C ∪ rng idx (BS order)) -> 0 <= idx -> 0 < BS order -> idx + BS order <= i_npages I ->
  (forall k, idx <= k < idx + BS order -> C !! k = None) ->
  wp (do! alloc_pages (Z.to_nat (BS order)) i gfp whence (pg I idx) in
      let! z := zget i in
      do! zmod i (set_upages (u64 (z_upages z + BS order))) in
      do! zone_unlock i in
      ret! (0, Some (page_at z idx, page_addr (page_at z idx) z))) (fun r s' => r = (0, Some (pg I idx, frame I idx)) /\
    zone_rep s' i I (cnt_new C idx (BS order)) (u64 (u + BS order)) /\ zstep s s' i I /\ locks_at s' None /\
    ram_zeroed (wants_zero gfp) (frame I idx) (frame I (idx + BS order)) (p_ram s) (p_ram s')) (with_mem m' s).
Proof.
  intros Hz Hzat Hzi Hm Hs Hl Hb F1 Hn F2 F3. set (n := BS order) in *. pose proof (zr_info _ _ _ _ _ Hz) as Hinfo.
  pose proof (zone_at_bound (with_mem m' s) _ i z Hl Hzat) as Hi.
  apply wp_bind. eapply wp_mono; [eapply (alloc_pages_spec (Z.to_nat n) (with_mem m' s) i I z); try done; [lia|]|].
  { intros k Hk. assert (0 <= k < i_npages I) as Hki by lia. assert (C !! k = None) as Hnone by (apply F3; lia).
    assert (k ∉ i_reserved I) as Hres by (intros Hin; apply (zr_reserved _ _ _ _ _ Hz) in Hin; rewrite Hnone in Hin; by destruct Hin).
    split; [by apply (zr_usable _ _ _ _ _ Hz)|]. destruct (zr_page _ _ _ _ _ Hz k Hki) as (p & Hp & Hc & Hw). exists p. rewrite Hnone in Hc. auto. }
  rewrite Z2Nat.id by lia. intros [] s2 Ht. pose proof Ht as [T1 T2 T3 T4 T5 T6]. cbn in T1, T2, T3.
  assert (zone_at i s2 = Some z) as Hz2 by (unfold zone_at in *; by rewrite T2).
  assert (zone_rep s2 i I (cnt_new C idx n) u) as Hrep2.
  { eapply (zone_rep_taken s s2); [exact Hz|lia|lia|lia|done|by rewrite T1|by rewrite T1]. }
  assert (zstep s s2 i I) as Hs2 by (eapply pages_taken_step; [exact Hs|exact Ht|lia|lia]).
  assert (locks_at s2 (Some i)) as [Hlen3 Hl3] by (eapply locks_at_eq; [..|exact Hl]; [done|by rewrite T1]).
  apply wp_bind. eapply wp_zget; [exact Hz2|]. apply wp_bind. eapply wp_zmod; [exact Hz2|].
  rewrite (page_at_eq z I _ idx Hinfo Hzi), (page_addr_eq z I _ idx Hinfo Hzi) by lia.
  assert (0 <= i /\ (Z.to_nat i < length (p_zones s2))%nat) as [Hi0 Hil] by lia.
  apply wp_bind. apply wp_zone_unlock; [|done|].
  - split; [cbn; by rewrite length_insert|]. intros j z'. rewrite zone_at_insert by done. destruct (decide (j = i)) as [->|Hne]; [|apply Hl3].
    intros [= <-]. specialize (Hl3 i z Hz2). by rewrite decide_True in Hl3 |- * by done.
  - intros s3 Hr3 Hlk3. apply wp_ret. split; [done|]. split_and!; [|..|done|].
    + eapply zone_rep_relocked; [exact Hr3|]. destruct Hrep2 as [_ R2 R3 R4 R5 R6 R7]. split; try done.
      eexists. split; [rewrite zone_at_insert, decide_True by done; reflexivity|]. destruct Hzi as [Z1 Z2 Z3 Z4 Z5 Z6 Z7]. split; try done. cbn. by rewrite Z6.
    + eapply zstep_trans; [exact Hs2|]. eapply zstep_trans; [by apply zstep_zone|by apply zstep_relocked].
    + destruct Hr3 as (_ & _ & Rr & _). intros a. rewrite Rr. apply T6.
Qed.

Lemma alloc_fail_spec s s1 m' L A i I gfp n err :
  pmm_rep s1 L A -> relocked s s1 -> 0 <= i < 4 -> L i = Some I -> zstep s1 (with_mem m' s1) i I -> locks_at (with_mem m' s1) (Some i) ->
  bits m' I (dom (A i).1) ->
  wp (do! zone_unlock i in ret! (err, None)) (fun r s' => r = (err, None) /\ pmm_own s' L A /\ ram_after gfp n r s s') (with_mem m' s1).
Proof.
  intros Hrep1 Hr Hi E Hs Hl Hb'. apply wp_bind. apply wp_zone_unlock; [done..|]. intros s3 Hr3 Hl3. apply wp_ret. split; [done|]. split.
  - split; [|done]. eapply pmm_rep_relocked; [exact Hr3|]. pose proof (pmm_rep_upd s1 (with_mem m' s1) L A i I (A i).1 (A i).2 Hrep1 Hi E) as Hu.
    assert (pmm_rep (with_mem m' s1) L (aupd A i ((A i).1, (A i).2))) as [U1 U2].
    { apply Hu; [|done]. apply zone_rep_mem; [by apply (pmm_rep_at _ L)|done]. }
    split; [|done]. intros j Hj. specialize (U1 j Hj). unfold aupd in U1. destruct (decide (j = i)) as [->|]; exact U1.
  - unfold ram_after. cbn. destruct Hr3 as (_ & _ & R3 & B3 & _). destruct Hr as (_ & _ & R1 & B1 & _). rewrite R3, B3. done.
Qed.

Lemma zone_index_range gfp : 0 <= GFP_WHENCE gfp <= 4 -> 0 <= gfp_to_zone_index gfp < 4.
Proof.
  intros Hg. unfold gfp_to_zone_index.
  assert (GFP_WHENCE gfp = 0 \/ GFP_WHENCE gfp = 1 \/ GFP_WHENCE gfp = 2 \/ GFP_WHENCE gfp = 3 \/ GFP_WHENCE gfp = 4)
    as [->|[->|[->|[->| ->]]]] by lia; unfold ZONEi_NORM, ZONEi_DMA, ZONEi_HOLE, ZONEi_HIGH; lia.
Qed.
Lemma validate_ok gfp order (pp pa : bool) : pp || pa = true -> 0 <= order < 64 -> 0 <= GFP_WHENCE gfp <= 4 -> validate_input gfp order pp pa = 0.
Proof.
  intros Hpp Ho Hg. unfold validate_input, MAX_PAGE_ORDER, GFP_HIGHMEM. destruct pp, pa; try done; cbn;
    destruct (Z.leb_spec 64 order), (Z.ltb_spec 4 (GFP_WHENCE gfp)); try lia; done.
Qed.

Lemma do_page_alloc_spec s L A gfp order (pp pa : bool) :
  pmm_own s L A -> mount_ok (p_boot s) -> pp || pa = true -> 0 <= order < 64 -> 0 <= GFP_WHENCE gfp <= 4 ->
  wp (do_page_alloc_n gfp order pp pa) (fun r s' =>
    r = (a_alloc L A (gfp_to_zone_index gfp) (BS order)).1 /\
    pmm_own s' L (a_alloc L A (gfp_to_zone_index gfp) (BS order)).2 /\ ram_after gfp (BS order) r s s') s.
Proof.
  intros Hown Hm Hpp Ho Hg. destruct (order_range order Ho) as (Hn & _ & Hn64). pose proof (zone_index_range gfp Hg) as Hi.
  unfold do_page_alloc_n. rewrite validate_ok by done. set (i := gfp_to_zone_index gfp) in *. cbn [negb Z.eqb].
  destruct (Z.ltb_spec i 0); [lia|]. apply wp_bind. eapply getzone_byindex_spec; [done..| |].
  2: { intros s1 E Hr Hl. apply wp_ret. unfold a_alloc. rewrite E. split; [done|]. split; [|split; apply Hr]. split; [|done]. eapply pmm_rep_relocked; [done|apply Hown]. }
  intros s1 I E Hr Hl1. pose proof (pmm_rep_relocked _ _ _ _ Hr (proj1 Hown)) as Hrep1. pose proof (pmm_rep_at _ _ _ _ _ Hrep1 Hi E) as Hz.
  pose proof (zr_at _ _ _ _ _ Hz) as (z & Hzat & Hzi). pose proof (zr_info _ _ _ _ _ Hz) as Hinfo.
  apply wp_bind. eapply wp_zget; [exact Hzat|]. rewrite (zi_bitmap _ _ _ Hzi). apply wp_bind.
  eapply (wp_bits (BAlloc (BS order)) _ id s1 i I); [cbn; lia| |apply Hz|exact Hl1|].
  { intros m. cbn. unfold M_bind. by destruct (bitmap_alloc_range (i_bitmap I) (BS order) true m). }
  intros r m' Er Hb Hs Hl2. cbn [b_step] in Er, Hb. unfold a_alloc. rewrite E.
  destruct (Z.eqb_spec (BS order) 0); [lia|]. cbn [orb] in Er, Hb. unfold id in Er. destruct (Z.ltb_spec (i_npages I) (BS order)) as [Hbig|Hbig].
  { subst r. by eapply alloc_fail_spec. }
  unfold find_run. destruct (list_find (fun i0 => rng i0 (BS order) ## dom (A i).1) (seqZ 0 (i_npages I - BS order + 1))) as [[m0 idx]|] eqn:Ef; cbn [fmap option_fmap option_map].
  2: { subst r. by eapply alloc_fail_spec. }
  subst r. cbn [fst snd] in Hb |- *.
  destruct (find_run_Some (i_npages I) (A i).1 (BS order) idx Hn) as (F1 & F2 & F3 & _); [unfold find_run; by rewrite Ef|].
  rewrite (page_at_eq z I _ idx Hinfo Hzi) by lia. destruct Hr as (R1 & R2 & R3 & R4 & R5).
  eapply wp_mono; [eapply (alloc_take_spec s1 m' i I (A i).1 (A i).2); try done; by rewrite R4|].
  intros r s' (-> & Hz' & Hs' & Hl' & Hram). split; [done|]. split; [split; [by eapply pmm_rep_upd|done]|].
  split; [by rewrite (zs_boot _ _ _ _ Hs')|]. cbn [snd]. rewrite <- R3. replace (frame I idx + BS order * PGSZ) with (frame I (idx + BS order)) by (unfold frame; lia). done.
Qed.
End DoAlloc.

(** ** Taking a run and giving it back *)
Lemma pmm_own_ext s L A A' : (forall j, A' j = A j) -> pmm_own s L A -> pmm_own s L A'.
Proof. intros E [[H1 H2] Hl]. split; [split; [|done]|done]. intros i Hi. specialize (H1 i Hi). by rewrite E. Qed.
Lemma run_dec_new (nn : nat) C u idx :
  (forall k, idx <= k < idx + Z.of_nat nn -> C !! k = None) -> 0 <= u -> u + Z.of_nat nn < two64 ->
  run_dec nn (cnt_new C idx (Z.of_nat nn)) (u + Z.of_nat nn) idx = (C, u).
Proof.
  revert idx. induction nn as [|nn IH]; intros idx Hf Hu Hlt; cbn [run_dec].
  { f_equal; [|lia]. apply map_eq. intros k. rewrite cnt_new_lookup, decide_False by lia. done. }
  assert (cnt_new C idx (Z.of_nat (S nn)) !! idx = Some 1) as E by (rewrite cnt_new_lookup, decide_True by lia; done).
  unfold cnt_dec, used_dec. rewrite E, decide_True by done. cbn [Z.eqb Pos.eqb].
  rewrite u64_small by (unfold is_u64; lia). replace (u + Z.of_nat (S nn) - 1) with (u + Z.of_nat nn) by lia.
  replace (delete idx (cnt_new C idx (Z.of_nat (S nn)))) with (cnt_new C (idx + 1) (Z.of_nat nn)).
  - apply IH; [|done|lia]. intros k Hk. apply Hf. lia.
  - apply map_eq. intros k. destruct (decide (k = idx)) as [->|Hne].
    + rewrite lookup_delete_eq, cnt_new_lookup, decide_False by lia. apply Hf. lia.
    + rewrite lookup_delete_ne, !cnt_new_lookup by done. destruct (decide (idx + 1 <= k < _)), (decide (idx <= k < _)); done || lia.
Qed.
Lemma aupd_same A i a : aupd A i a i = a.
Proof. unfold aupd. by rewrite decide_True. Qed.
Lemma aupd_undo A i a j : aupd (aupd A i a) i (A i) j = A j.
Proof. unfold aupd. by destruct (decide (j = i)) as [->|]. Qed.
