(* ===== verification/PmmInit.v ===== *)
(** * Setting up the zones (mm/pmm/zones.c, boot/boot.c)

    The bump allocator of the boot phase, the four zones over the memory the boot
    loader reports, and the frames reserved in them.  Memory handed out by
    [boot_alloc] is raw: the words of a bitmap hold anything before [bitmap_init]. *)
From S2P Require Import Prelude Errno Spinlock KMem Queue Bitmap Pmm.

Definition NMMAP : Z := 72.
Definition BOOT_ALLOC_WATERMARK : Z := 0x8932CD33DEADFAAF.
Definition MULTIBOOT_MEMORY_AVAILABLE : Z := 1.
Definition MULTIBOOT_MEMORY_RESERVED : Z := 2.

(** ** Boot information (boot/boot.c) *)

(** Swaps neighbours [j] and [j + 1] if they are in the wrong order. *)
Fixpoint bubble_pass (n : nat) (l : list boot_mmap_t) : list boot_mmap_t :=
  match n, l with
  | S n, a :: b :: l => if bmp_addr b <? bmp_addr a then b :: bubble_pass n (a :: l) else a :: bubble_pass n (b :: l)
  | _, _ => l
  end.
(** Pass [i] makes [count - 1 - i] comparisons; [None] when [count] is 0, where
    [count - 1] wraps around and the loops leave the array. *)
Fixpoint bubble_passes (n : nat) (l : list boot_mmap_t) : list boot_mmap_t :=
  match n with
  | O => l
  | S n => bubble_passes n (bubble_pass (S n) l)
  end.
Definition bubble_sort_mmap (l : list boot_mmap_t) : option (list boot_mmap_t) :=
  match length l with
  | O => None
  | S n => Some (bubble_passes n l)
  end.

Definition set_mmap (l : list boot_mmap_t) (b : bootinfo_t) : bootinfo_t :=
  mkBoot (b_watermark b) (b_total b) (b_usable b) (b_memhi b) (b_hole_size b) (b_phyaddr b) l (b_kern_base b) (b_kern_size b).
Definition bootinfo_add_mmap (type addr size : Z) : PM unit :=
  let! b := boot in
  do! M_assert (Z.of_nat (length (b_mmap b)) <? NMMAP) in
  fun s => Done tt (with_boot (set_mmap (b_mmap b ++ [mkBmap addr size type]) b) s).

Definition align_up (x alignment : Z) : Z := Z.land (u64 (x + alignment - 1)) (not64 (alignment - 1)).
Definition boot_alloc (size alignment : Z) : PM Z :=
  let! b := boot in
  do! M_assert (negb (b_watermark b =? BOOT_ALLOC_WATERMARK)) in
  if (size =? 0) || (alignment =? 0) || negb (Z.land alignment (alignment - 1) =? 0) then M_panic else
  let size := align_up size alignment in
  let aligned_addr := if b_phyaddr b mod alignment =? 0 then b_phyaddr b else align_up (b_phyaddr b) alignment in
  if u64 (aligned_addr + size) <? aligned_addr then M_panic else
  if KiB (b_usable b) <? u64 (aligned_addr + size) then M_panic else
  do! M_assert (negb (Z.of_nat (length (b_mmap b)) =? NMMAP)) in
  do! (fun s => Done tt (with_boot (mkBoot (b_watermark b) (b_total b) (u64 (b_usable b - B2KiB size)) (b_memhi b) (b_hole_size b)
         (u64 (aligned_addr + size)) (b_mmap b) (b_kern_base b) (b_kern_size b)) s)) in
  do! bootinfo_add_mmap MULTIBOOT_MEMORY_RESERVED (V2HI aligned_addr) size in
  ret! (V2HI aligned_addr).

(** ** Zones *)
Section Init.
(** What the word at an address of raw memory holds. *)
Context (junk : Z -> Z).

Definition raw_words (a n : Z) : PM unit := fun s =>
  Done tt (with_mem (h_set (<[a := map (fun k => u64 (junk (a + 8 * k))) (seqZ 0 n)]> (h_get (T:=list Z) (p_mem s))) (p_mem s)) s).

Definition zone_watermark (i : Z) : page_watermark_t :=
  match i with
  | 0 => PGWM_DMA_POOL
  | 1 => PGWM_NORM_POOL
  | 2 => PGWM_HOLE_POOL
  | 3 => PGWM_HIGH_POOL
  | _ => PGWM_OTHER 0
  end.
Definition page_init (a : Z) (w : page_watermark_t) : PM unit := fun s => Done tt (with_page (<[a := mkPage 0 0 0 0 w]> (p_page s)) s).
Definition init_pages (i : Z) (npages : Z) : PM unit :=
  let! _ := for_range (R:=unit) (Z.to_nat npages) 0 (fun idx =>
    let! z := zget i in do! page_init (page_at z idx) (zone_watermark i) in ret! None) in
  ret! tt.

Definition set_pages (p : Z) (z : zone_t) : zone_t :=
  mkZone (z_size z) (z_start z) (z_bitmap z) p (z_npages z) (z_upages z) (z_flags z) (z_lock z).
Definition set_flags (f : Z) (z : zone_t) : zone_t :=
  mkZone (z_size z) (z_start z) (z_bitmap z) (z_pages z) (z_npages z) (z_upages z) f (z_lock z).
Definition set_range (start size npages : Z) (z : zone_t) : zone_t :=
  mkZone size start (z_bitmap z) (z_pages z) npages (z_upages z) (z_flags z) (z_lock z).
Definition zone_flags_set (i f : Z) : PM unit :=
  let! z := zget i in
  let! s := M_get in
  do! M_assert (holding (k_who (p_mem s)) (z_lock z)) in
  zmod i (set_flags (Z.lor (z_flags z) f)).

Definition zone_alloc_buffers (i : Z) : PM Z :=
  let! z := zget i in
  if z_size z =? 0 then ret! 0 else
  let bitmap_size := PGROUNDUP (u64 (u64 (z_npages z + BITS_PER_USIZE - 1) / BITS_PER_USIZE * 8)) in
  let! bitmap := boot_alloc bitmap_size PGSZ in
  if is_null bitmap then ret! (- ENOMEM) else
  do! raw_words bitmap (num_units (z_npages z)) in
  let! err := lift (bitmap_init (z_bitmap z) bitmap (z_npages z)) in
  if negb (err =? 0) then ret! err else
  let size := PGROUNDUP (u64 (z_npages z * sizeof_page)) in
  let! pages := boot_alloc size PGSZ in
  if is_null pages then ret! (- ENOMEM) else
  do! zmod i (set_pages pages) in
  do! init_pages i (z_npages z) in
  do! zone_flags_set i ZONE_VALID in
  ret! 0.

Definition zone_set_address_range (i addr size : Z) : PM Z :=
  let! before := (if 0 <? i then zget (i - 1) else zget i) in
  if (0 <? i) && (Z.land (z_flags before) ZONE_VALID =? 0) then ret! (- EINVAL) else
  do! zmod i (set_range addr size (NPAGE size)) in
  let! err := zone_alloc_buffers i in
  if negb (err =? 0) then do! zmod i (set_range 0 0 0) in ret! err else ret! err.

(** Start and size of zone [i], with [memsz] KiB of memory left. *)
Definition zone_range (b : bootinfo_t) (i memsz : Z) : option (Z * Z) :=
  match i with
  | 0 => Some (0, if M2KiB 16 <? memsz then MiB 16 else KiB memsz)
  | 1 => Some (MiB 16, if M2KiB 2032 <? memsz then MiB 2032 else KiB memsz)
  | 2 => Some (GiB 2, u64 (u64 (KiB (u64 (b_memhi b + M2KiB 1)) + b_hole_size b) - GiB 2))
  | 3 => Some (GiB 4, KiB memsz)
  | _ => None
  end.
(** The answer has the memory that is left. *)
Definition zone_enumerate (i memsz : Z) : PM (Z * Z) :=
  let! z := zget i in
  let! s := M_get in
  do! M_assert (holding (k_who (p_mem s)) (z_lock z)) in
  let! b := boot in
  match zone_range b i memsz with
  | None => ret! (- EINVAL, memsz)
  | Some (addr, size) =>
      let! err := zone_set_address_range i addr size in
      if negb (err =? 0) then ret! (err, memsz) else
      let! z := zget i in
      ret! (0, u64 (memsz - B2KiB (z_size z)))
  end.

Definition initialize_zone_struct (i : Z) : PM unit :=
  let! z := zget i in
  do! zmod i (fun z => mkZone 0 0 (z_bitmap z) 0 0 0 0 SPINLOCK_INIT) in
  lift (store (z_bitmap z) (mkBitmap 0 0 SPINLOCK_INIT)).
Definition initialize_memory_zone (i memsz : Z) : PM (Z * Z) :=
  do! initialize_zone_struct i in
  do! zone_lock i in
  if memsz =? 0 then do! zone_unlock i in ret! (0, memsz) else
  let! r := zone_enumerate i memsz in
  do! zone_unlock i in
  ret! (if r.1 =? 0 then (0, r.2) else r).

(** [page->refcnt += 1; ...] of one reserved page. *)
Definition reserve_page (p : page_t) : page_t :=
  mkPage (Z.lor (pg_flags p) (Z.lor PG_R PG_X)) (u64 (pg_refcnt p + 1)) (u64 (pg_mapcnt p + 1)) (pg_icache p) PGWM_RESERVED.
Fixpoint mark_pages (n : nat) (i page : Z) : PM unit :=
  match n with
  | O => ret! tt
  | S n =>
      let! z := zget i in
      let! _ := lift (bitmap_set (z_bitmap z) (page_index page z) 1) in
      let! p := pget page in
      do! M_when (pg_refcnt p =? 0) (zmod i (set_upages (u64 (z_upages z + 1)))) in
      do! pmod page reserve_page in
      mark_pages n i (page + sizeof_page)
  end.
Definition mark_reserved_pages (i addr size : Z) : PM Z :=
  let! z := zget i in
  do! mark_pages (Z.to_nat (NPAGE size)) i (page_at z (NPAGE (u64 (addr - z_start z)))) in
  ret! 0.

Definition process_memory_map (map : boot_mmap_t) : PM Z :=
  if (V2HI MEMMIO <=? bmp_addr map) || (bmp_type map =? MULTIBOOT_MEMORY_AVAILABLE) then ret! 0 else
  let size := bmp_size map in
  let addr := PGROUND (V2LO (bmp_addr map)) in
  let! r := getzone_byaddr addr size in
  match r.2 with
  | None => M_panic
  | Some i =>
      let! err := mark_reserved_pages i addr size in
      do! M_assert (err =? 0) in
      do! zone_unlock i in
      ret! 0
  end.

Fixpoint init_zones (n : nat) (i memsz : Z) : PM Z :=
  match n with
  | O => ret! 0
  | S n =>
      let! r := initialize_memory_zone i memsz in
      if negb (r.1 =? 0) then ret! r.1 else init_zones n (i + 1) r.2
  end.
Fixpoint process_maps (l : list boot_mmap_t) : PM Z :=
  match l with
  | [] => ret! 0
  | m :: l => let! err := process_memory_map m in if negb (err =? 0) then ret! err else process_maps l
  end.
Definition set_watermark (w : Z) (b : bootinfo_t) : bootinfo_t :=
  mkBoot w (b_total b) (b_usable b) (b_memhi b) (b_hole_size b) (b_phyaddr b) (b_mmap b) (b_kern_base b) (b_kern_size b).
Definition zones_init : PM Z :=
  let! b := boot in
  let! err := init_zones 4 0 (b_total b) in
  if negb (err =? 0) then ret! err else
  let! b := boot in
  let! err := process_maps (b_mmap b) in
  if negb (err =? 0) then ret! err else
  do! (fun s => Done tt (with_boot (set_watermark BOOT_ALLOC_WATERMARK (p_boot s)) s)) in
  ret! 0.
End Init.
