(* ===== verification/PmmBoot.v ===== *)
(** * The boot phase: rounding, the memory map, the bump allocator

    Rounding to powers of two, the bubble sort of the memory map, and what
    [boot_alloc] hands out. *)
From S2P Require Import Prelude Errno Spinlock KMem Queue Bitmap Pmm PmmFacts PmmInit.
From Stdlib Require Import Sorting.Sorted.

Implicit Types (s : pmem) (b : bootinfo_t) (l : list boot_mmap_t) (j : Z).

(** ** Rounding *)
Lemma land_low x j : 0 <= j -> Z.land x (2 ^ j - 1) = x mod 2 ^ j.
Proof. intros Hj. rewrite <- Z.land_ones by done. f_equal. rewrite Z.ones_equiv. lia. Qed.
Lemma land_high x j : is_u64 x -> 0 <= j <= 64 -> Z.land x (not64 (2 ^ j - 1)) = x - x mod 2 ^ j.
Proof.
  intros Hx Hj. assert (x - x mod 2 ^ j = Z.ldiff x (Z.ones j)) as ->.
  { rewrite Z.ldiff_ones_r, Z.shiftl_mul_pow2, Z.shiftr_div_pow2 by lia. pose proof (Z.div_mod x (2 ^ j)). lia. }
  apply Z.bits_inj'. intros k Hk. rewrite Z.land_spec, Z.ldiff_spec. destruct (decide (k < 64)).
  - rewrite not64_testbit by lia. by replace (Z.ones j) with (2 ^ j - 1) by (rewrite Z.ones_equiv; lia).
  - apply is_u64_testbit in Hx as [_ Hx]. by rewrite Hx by lia.
Qed.

(** The next multiple of [2 ^ j]. *)
Definition up (x j : Z) : Z := (x + 2 ^ j - 1) / 2 ^ j * 2 ^ j.
Lemma up_spec x j : 0 <= j -> x <= up x j < x + 2 ^ j /\ up x j mod 2 ^ j = 0.
Proof.
  intros Hj. unfold up. pose proof (Z.pow_pos_nonneg 2 j). pose proof (Z.div_mod (x + 2 ^ j - 1) (2 ^ j)).
  pose proof (Z.mod_pos_bound (x + 2 ^ j - 1) (2 ^ j)). split; [lia|]. apply Z.mod_mul. lia.
Qed.
Lemma up_id x j : 0 <= j -> x mod 2 ^ j = 0 -> up x j = x.
Proof.
  intros Hj Hm. unfold up. pose proof (Z.pow_pos_nonneg 2 j). apply Z.mod_divide in Hm as [q ->]; [|lia].
  replace (q * 2 ^ j + 2 ^ j - 1) with (q * 2 ^ j + (2 ^ j - 1)) by lia. rewrite Z.div_add_l, (Z.div_small (2 ^ j - 1)) by lia. lia.
Qed.
Lemma align_up_eq x j : 0 <= x -> 0 <= j < 64 -> x + 2 ^ j - 1 < two64 -> align_up x (2 ^ j) = up x j.
Proof.
  intros Hx Hj H64. pose proof (Z.pow_pos_nonneg 2 j). unfold align_up. rewrite u64_small, land_high by (unfold is_u64; lia).
  unfold up. pose proof (Z.div_mod (x + 2 ^ j - 1) (2 ^ j)). lia.
Qed.
Lemma PGOFF_eq p : PGOFF p = p mod PGSZ.
Proof. exact (land_low p 12 ltac:(lia)). Qed.
Lemma PGROUND_eq p : is_u64 p -> PGROUND p = p - p mod PGSZ.
Proof. intros Hp. exact (land_high p 12 Hp ltac:(lia)). Qed.
Lemma PGROUNDUP_eq p : 0 <= p -> p + PGSZ < two64 -> PGROUNDUP p = up p 12.
Proof.
  intros Hp H64. unfold PGROUNDUP. rewrite PGOFF_eq. change PGSZ with (2 ^ 12) in *. destruct (Z.eqb_spec (p mod 2 ^ 12) 0) as [E|E].
  - symmetry. by apply up_id.
  - rewrite u64_small by (unfold is_u64; lia). change (PGROUND ?x) with (Z.land x (not64 (2 ^ 12 - 1))). rewrite land_high by (unfold is_u64; lia).
    unfold up. pose proof (Z.div_mod p (2 ^ 12) ltac:(lia)). pose proof (Z.mod_pos_bound p (2 ^ 12) ltac:(lia)).
    replace (p + 2 ^ 12) with (p + 1 * 2 ^ 12) at 2 by lia. rewrite Z.mod_add by lia.
    rewrite <- (Z.div_unique (p + 2 ^ 12 - 1) (2 ^ 12) (p / 2 ^ 12 + 1) (p mod 2 ^ 12 - 1)); lia.
Qed.
Lemma NPAGE_eq p : NPAGE p * PGSZ = up p 12.
Proof.
  unfold NPAGE. rewrite PGOFF_eq. change PGSZ with (2 ^ 12). destruct (Z.eqb_spec (p mod 2 ^ 12) 0) as [E|E].
  - rewrite up_id by (done || lia). pose proof (Z.div_mod p (2 ^ 12) ltac:(lia)). lia.
  - unfold up. pose proof (Z.div_mod p (2 ^ 12) ltac:(lia)). pose proof (Z.mod_pos_bound p (2 ^ 12) ltac:(lia)).
    rewrite <- (Z.div_unique (p + 2 ^ 12 - 1) (2 ^ 12) (p / 2 ^ 12 + 1) (p mod 2 ^ 12 - 1)); lia.
Qed.

(** ** Sorting the memory map *)
Definition addr_le : boot_mmap_t -> boot_mmap_t -> Prop := fun x y => bmp_addr x <= bmp_addr y.

Lemma bubble_pass_perm n l : bubble_pass n l ≡ₚ l.
Proof.
  revert l. induction n as [|n IH]; intros [|a [|b l]]; cbn [bubble_pass]; try done. destruct (bmp_addr b <? bmp_addr a).
  - rewrite IH. apply Permutation_swap.
  - by rewrite IH.
Qed.
(** A pass over the first [n + 1] entries puts the largest of them last. *)
Lemma bubble_pass_spec n l r : length l = S n -> exists p m, bubble_pass n (l ++ r) = p ++ m :: r /\ p ++ [m] ≡ₚ l /\ length p = n /\
  Forall (fun x => addr_le x m) p.
Proof.
  revert l. induction n as [|n IH]; intros [|a l] Hl; try done.
  - destruct l; [|done]. exists [], a. by split_and!.
  - destruct l as [|b l]; [done|]. cbn in Hl. cbn [bubble_pass app]. destruct (Z.ltb_spec (bmp_addr b) (bmp_addr a)).
    + destruct (IH (a :: l) ltac:(cbn; lia)) as (p & m & E & Hp & Hlen & Hle). exists (b :: p), m. change (a :: l ++ r) with ((a :: l) ++ r). rewrite E.
      split_and!; [done| |cbn; lia|].
      * cbn. rewrite Hp. apply Permutation_swap.
      * constructor; [|done]. assert (a ∈ p ++ [m]) as Hin by (rewrite Hp; left). apply elem_of_app in Hin as [Hin|Hin%list_elem_of_singleton].
        -- rewrite Forall_forall in Hle. specialize (Hle a Hin). unfold addr_le in *. lia.
        -- subst m. unfold addr_le. lia.
    + destruct (IH (b :: l) ltac:(cbn; lia)) as (p & m & E & Hp & Hlen & Hle). exists (a :: p), m. change (b :: l ++ r) with ((b :: l) ++ r). rewrite E.
      split_and!; [done| |cbn; lia|].
      * cbn. by rewrite Hp.
      * constructor; [|done]. assert (b ∈ p ++ [m]) as Hin by (rewrite Hp; left). apply elem_of_app in Hin as [Hin|Hin%list_elem_of_singleton].
        -- rewrite Forall_forall in Hle. specialize (Hle b Hin). unfold addr_le in *. lia.
        -- subst m. unfold addr_le. lia.
Qed.
Lemma bubble_passes_spec n l r :
  length l = S n -> Sorted addr_le r -> (forall x y, x ∈ l -> y ∈ r -> addr_le x y) ->
  Sorted addr_le (bubble_passes n (l ++ r)) /\ bubble_passes n (l ++ r) ≡ₚ l ++ r.
Proof.
  revert l r. induction n as [|n IH]; intros l r Hl Hr Hlr.
  - destruct l as [|a [|]]; try done. split; [|done]. cbn. constructor; [done|]. destruct r as [|y r]; constructor. apply Hlr; left.
  - cbn [bubble_passes]. destruct (bubble_pass_spec (S n) l r Hl) as (p & m & E & Hp & Hlen & Hle). rewrite E.
    destruct (IH p (m :: r)) as [H1 H2]; [done|..].
    + constructor; [done|]. destruct r as [|y r]; constructor. apply Hlr; [|left]. rewrite <- Hp. apply elem_of_app. right. left.
    + intros x y Hx Hy. apply elem_of_cons in Hy as [->|Hy].
      * rewrite Forall_forall in Hle. by apply Hle.
      * apply Hlr; [|done]. rewrite <- Hp. apply elem_of_app. by left.
    + split; [done|]. rewrite H2, <- Hp, <- app_assoc. done.
Qed.

(** ** The bump allocator *)
Definition grown (b : bootinfo_t) (a size : Z) : bootinfo_t :=
  mkBoot (b_watermark b) (b_total b) (b_usable b - size / 1024) (b_memhi b) (b_hole_size b) (a + size)
    (b_mmap b ++ [mkBmap (V2HI a) size MULTIBOOT_MEMORY_RESERVED]) (b_kern_base b) (b_kern_size b).

(** [boot_alloc] works as long as the guardrail is not set and the memory map has room. *)
Record booting (b : bootinfo_t) (n : Z) : Prop := {
  bt_watermark : b_watermark b <> BOOT_ALLOC_WATERMARK;
  bt_phyaddr : 0 <= b_phyaddr b;
  bt_usable : 0 <= b_usable b /\ 1024 * b_usable b < 2 ^ 63;
  bt_mmap : Z.of_nat (length (b_mmap b)) + n <= NMMAP
}.

Lemma boot_alloc_spec s size j (Q : Z -> pmem -> Prop) :
  let b := p_boot s in
  let a := up (b_phyaddr b) j in
  booting b 1 -> 0 < size -> 0 <= j <= 32 -> a + up size j <= 1024 * b_usable b ->
  Q (V2HI a) (with_boot (grown b a (up size j)) s) -> wp (boot_alloc size (2 ^ j)) Q s.
Proof.
  intros b a [Hw Hp [Hu0 Hu] Hm] Hs Hj Hfit HQ. subst a. pose proof (Z.pow_pos_nonneg 2 j ltac:(lia) ltac:(lia)) as H2.
  pose proof (Z.pow_le_mono_r 2 j 32 ltac:(lia) ltac:(lia)) as H3. change (2 ^ 63) with 9223372036854775808 in Hu. change (2 ^ 32) with 4294967296 in H3.
  assert (two64 = 18446744073709551616) as H64 by done.
  destruct (up_spec size j ltac:(lia)) as [Hus _]. destruct (up_spec (b_phyaddr b) j ltac:(lia)) as [Hup Hal].
  unfold boot_alloc. apply wp_bind. change (boot s) with (Done (A:=bootinfo_t) (p_boot s) s). unfold wp at 1, boot. fold b.
  apply wp_bind, wp_assert; [by destruct (Z.eqb_spec (b_watermark b) BOOT_ALLOC_WATERMARK)|].
  destruct (Z.eqb_spec size 0); [lia|]. destruct (Z.eqb_spec (2 ^ j) 0); [lia|].
  rewrite land_low, Z_mod_same_full by lia. cbn [orb negb Z.eqb].
  rewrite (align_up_eq size j) by lia.
  assert ((if b_phyaddr b mod 2 ^ j =? 0 then b_phyaddr b else align_up (b_phyaddr b) (2 ^ j)) = up (b_phyaddr b) j) as ->.
  { destruct (Z.eqb_spec (b_phyaddr b mod 2 ^ j) 0); [symmetry; apply up_id; [lia|done]|]. apply align_up_eq; lia. }
  set (a := up (b_phyaddr b) j) in *. set (m := up size j) in *. rewrite (u64_small (a + m)) by (unfold is_u64; lia).
  destruct (Z.ltb_spec (a + m) a); [lia|]. unfold KiB at 1. rewrite (u64_small (1024 * b_usable b)) by (unfold is_u64; lia).
  destruct (Z.ltb_spec (1024 * b_usable b) (a + m)); [lia|].
  unfold NMMAP in *. apply wp_bind, wp_assert; [destruct (Z.eqb_spec (Z.of_nat (length (b_mmap b))) 72); [lia|done]|].
  apply wp_bind. unfold wp at 1. apply wp_bind. unfold bootinfo_add_mmap. apply wp_bind. unfold wp at 1, boot. cbn [with_boot p_boot b_mmap].
  apply wp_bind, wp_assert; [unfold NMMAP; destruct (Z.ltb_spec (Z.of_nat (length (b_mmap b))) 72); [done|lia]|].
  unfold wp at 1. apply wp_ret. replace (u64 (b_usable b - B2KiB m)) with (b_usable b - m / 1024); [exact HQ|].
  change (B2KiB m) with (m / 1024). symmetry. apply u64_small. unfold is_u64. pose proof (Z.div_mod m 1024 ltac:(lia)).
  pose proof (Z.mod_pos_bound m 1024 ltac:(lia)). lia.
Qed.

(** Where requests of given sizes and alignments end up, above the address [p]. *)
Fixpoint place (p : Z) (reqs : list (Z * Z)) : list (Z * Z) :=
  match reqs with
  | [] => []
  | (size, j) :: reqs => (up p j, up size j) :: place (up p j + up size j) reqs
  end.
Fixpoint place_end (p : Z) (reqs : list (Z * Z)) : Z :=
  match reqs with
  | [] => p
  | (size, j) :: reqs => place_end (up p j + up size j) reqs
  end.
Definition req_ok (r : Z * Z) : Prop := 0 < r.1 /\ 0 <= r.2 <= 32.
Fixpoint boot_allocs (reqs : list (Z * Z)) : PM (list Z) :=
  match reqs with
  | [] => ret! []
  | (size, j) :: reqs => let! a := boot_alloc size (2 ^ j) in let! as_ := boot_allocs reqs in ret! (a :: as_)
  end.
Definition reserved_block (r : Z * Z) : boot_mmap_t := mkBmap (V2HI r.1) r.2 MULTIBOOT_MEMORY_RESERVED.

Lemma place_length p reqs : length (place p reqs) = length reqs.
Proof. revert p. induction reqs as [|[size j] reqs IH]; intros p; cbn; [done|]. by rewrite IH. Qed.
Lemma place_end_ge p reqs : Forall req_ok reqs -> p <= place_end p reqs.
Proof.
  intros H. revert p. induction H as [|[size j] reqs [Hs Hj] H IH]; intros p; cbn; [lia|]. cbn in Hs, Hj.
  pose proof (up_spec p j ltac:(lia)). pose proof (up_spec size j ltac:(lia)). pose proof (IH (up p j + up size j)). lia.
Qed.
Lemma place_spec p reqs k r a : Forall req_ok reqs -> reqs !! k = Some r -> place p reqs !! k = Some a ->
  p <= a.1 /\ a.1 mod 2 ^ r.2 = 0 /\ r.1 <= a.2 /\ a.1 + a.2 <= place_end p reqs.
Proof.
  intros H. revert p k. induction H as [|[size j] reqs [Hs Hj] H IH]; intros p [|k]; cbn; try done; cbn in Hs, Hj;
    pose proof (up_spec p j ltac:(lia)) as [U1 U2]; pose proof (up_spec size j ltac:(lia)) as [U3 U4].
  - intros [= <-] [= <-]. cbn. pose proof (place_end_ge (up p j + up size j) reqs H). split_and!; try done; lia.
  - intros Hr Ha. destruct (IH _ _ Hr Ha) as (A1 & A2 & A3 & A4). split_and!; try done; lia.
Qed.
Lemma place_disjoint p reqs k k' a a' : Forall req_ok reqs -> (k < k')%nat -> place p reqs !! k = Some a -> place p reqs !! k' = Some a' -> a.1 + a.2 <= a'.1.
Proof.
  intros H. revert p k k'. induction H as [|[size j] reqs Hr H IH]; intros p [|k] [|k'] Hk; cbn; try done; try lia.
  - intros [= <-] Ha'. cbn. assert (is_Some (reqs !! k')) as [r Hr'].
    { apply lookup_lt_is_Some. apply lookup_lt_Some in Ha'. by rewrite place_length in Ha'. }
    by destruct (place_spec _ _ _ _ _ H Hr' Ha') as [? _].
  - intros Ha Ha'. eapply IH; [|done|done]. lia.
Qed.

Lemma boot_allocs_spec reqs s (Q : list Z -> pmem -> Prop) :
  let b := p_boot s in
  booting b (Z.of_nat (length reqs)) -> Forall req_ok reqs ->
  2 * place_end (b_phyaddr b) reqs - b_phyaddr b <= 1024 * b_usable b ->
  (forall s', s' = with_boot (p_boot s') s -> b_mmap (p_boot s') = b_mmap b ++ map reserved_block (place (b_phyaddr b) reqs) ->
     b_phyaddr (p_boot s') = place_end (b_phyaddr b) reqs -> Q (map (fun r => V2HI r.1) (place (b_phyaddr b) reqs)) s') ->
  wp (boot_allocs reqs) Q s.
Proof.
  revert s Q. induction reqs as [|[size j] reqs IH]; intros s Q b Hb Hreqs Hfit HQ; cbn [boot_allocs].
  { apply wp_ret. apply HQ; [by destruct s|by rewrite app_nil_r|done]. }
  apply Forall_cons in Hreqs as [[Hs Hj] Hreqs]. cbn [fst snd] in Hs, Hj. cbn [place_end] in Hfit. destruct Hb as [Hw Hp [Hu0 Hu] Hm]. cbn [length] in Hm.
  pose proof (place_end_ge (up (b_phyaddr b) j + up size j) reqs Hreqs) as Hge.
  pose proof (up_spec (b_phyaddr b) j ltac:(lia)) as [U1 U2]. pose proof (up_spec size j ltac:(lia)) as [U3 U4].
  apply wp_bind. apply boot_alloc_spec; [split; fold b; try done; lia|done|lia|fold b; lia|]. fold b.
  pose proof (Z.div_mod (up size j) 1024 ltac:(lia)) as Hd. pose proof (Z.mod_pos_bound (up size j) 1024 ltac:(lia)) as Hr.
  apply wp_bind. apply IH; [split| |..]; cbn [with_boot p_boot grown b_watermark b_phyaddr b_usable b_mmap]; try done; try lia.
  - rewrite length_app. cbn. lia.
  - intros s' Es' Em Ep. apply wp_ret. cbn [place map fst snd]. apply HQ.
    + by rewrite Es' at 1.
    + rewrite Em, <- app_assoc. done.
    + done.
Qed.
