(* ===== verification/PmmSetup.v ===== *)
(** * Setting up the zones: facts

    What [zones_init] builds: the set-up of one zone, the frames that the memory map
    reserves, and the state from which the page allocator starts. *)
From S2P Require Import Prelude Errno Spinlock KMem Queue Bitmap BitmapFacts BitmapSpec BitmapProps Pmm PmmFacts PmmAlloc PmmInit PmmBoot.

Implicit Types (s : pmem) (z : zone_t) (C : gmap Z Z) (i j idx k n : Z) (I J : zinfo) (L : layout) (A : counts).

(** ** Code that does not look at the boot information *)
Definition out_boot {R} (b : bootinfo_t) (o : outcome pmem R) : outcome pmem R :=
  match o with
  | Done a s => Done a (with_boot b s)
  | Panic => Panic
  | Fault => Fault
  | Diverge => Diverge
  end.
Class Bootless {R} (c : PM R) : Prop := bootless : forall b s, c (with_boot b s) = out_boot b (c s).

#[export] Instance bootless_ret {R} (a : R) : Bootless (M_ret a).
Proof. by intros b s. Qed.
#[export] Instance bootless_panic {R} : Bootless (R:=R) M_panic.
Proof. by intros b s. Qed.
#[export] Instance bootless_bind {R R'} (c : PM R) (f : R -> PM R') : Bootless c -> (forall a, Bootless (f a)) -> Bootless (M_bind c f).
Proof. intros Hc Hf b s. unfold M_bind. rewrite Hc. destruct (c s); [apply Hf|done..]. Qed.
#[export] Instance bootless_assert (t : bool) : Bootless (M_assert t).
Proof. intros b s. by destruct t. Qed.
#[export] Instance bootless_when (t : bool) (c : PM unit) : Bootless c -> Bootless (M_when t c).
Proof. intros Hc b s. destruct t; [apply Hc|done]. Qed.
#[export] Instance bootless_if {R} (t : bool) (c d : PM R) : Bootless c -> Bootless d -> Bootless (if t then c else d).
Proof. by destruct t. Qed.
#[export] Instance bootless_lift {R} (c : K R) : Bootless (lift c).
Proof. intros b s. unfold lift. cbn. by destruct (c (p_mem s)). Qed.
#[export] Instance bootless_zget i : Bootless (zget i).
Proof. intros b s. unfold zget. change (zone_at i (with_boot b s)) with (zone_at i s). by destruct (zone_at i s). Qed.
#[export] Instance bootless_zmod i f : Bootless (zmod i f).
Proof. intros b s. unfold zmod. change (zone_at i (with_boot b s)) with (zone_at i s). by destruct (zone_at i s). Qed.
#[export] Instance bootless_pget a : Bootless (pget a).
Proof. intros b s. unfold pget. cbn. by destruct (p_page s !! a). Qed.
#[export] Instance bootless_pmod a f : Bootless (pmod a f).
Proof. intros b s. unfold pmod. cbn. by destruct (p_page s !! a). Qed.
#[export] Instance bootless_who {R} (f : who -> PM R) : (forall w, Bootless (f w)) -> Bootless (let! s := M_get in f (k_who (p_mem s))).
Proof. intros Hf b s. unfold M_bind, M_get. apply Hf. Qed.
#[export] Instance bootless_lock i : Bootless (zone_lock i).
Proof.
  unfold zone_lock. apply bootless_bind; [apply _|]. intros z.
  apply (bootless_who (fun w => match lock_acquire w (z_lock z) with Done _ l => zmod i (set_zlock l) | Panic => M_panic | Fault => M_fault | Diverge => M_diverge end)).
  intros w. by destruct (lock_acquire w (z_lock z)); [apply _|..].
Qed.
#[export] Instance bootless_unlock i : Bootless (zone_unlock i).
Proof.
  unfold zone_unlock. apply bootless_bind; [apply _|]. intros z.
  apply (bootless_who (fun w => match lock_release w (z_lock z) with Done _ l => zmod i (set_zlock l) | _ => M_panic end)).
  intros w. destruct (lock_release w (z_lock z)); apply _.
Qed.
#[export] Instance bootless_isvalid i : Bootless (zone_isvalid i).
Proof.
  unfold zone_isvalid. apply bootless_bind; [apply _|]. intros z.
  apply (bootless_who (fun w => do! M_assert (holding w (z_lock z)) in ret! (negb (Z.land (z_flags z) ZONE_VALID =? 0)))). apply _.
Qed.
#[export] Instance bootless_for_range {R} (nn : nat) i (body : Z -> PM (option R)) : (forall k, Bootless (body k)) -> Bootless (for_range nn i body).
Proof.
  intros Hb. revert i. induction nn as [|nn IH]; intros i; cbn [for_range]; [apply _|]. apply bootless_bind; [done|]. intros [x|]; [apply _|done].
Qed.
#[export] Instance bootless_byaddr paddr size : Bootless (getzone_byaddr paddr size).
Proof. unfold getzone_byaddr. apply _. Qed.
#[export] Instance bootless_mark (nn : nat) i page : Bootless (mark_pages nn i page).
Proof. revert page. induction nn as [|nn IH]; intros page; cbn [mark_pages]; apply _. Qed.
#[export] Instance bootless_reserved i addr size : Bootless (mark_reserved_pages i addr size).
Proof. unfold mark_reserved_pages. apply _. Qed.
#[export] Instance bootless_process m : Bootless (process_memory_map m).
Proof.
  unfold process_memory_map. apply bootless_if; [apply _|]. apply bootless_bind; [apply _|]. intros [e [i|]]; apply _.
Qed.
#[export] Instance bootless_maps l : Bootless (process_maps l).
Proof. induction l as [|m l IH]; cbn [process_maps]; apply _. Qed.

(** The state without the kernel image, in which every frame may be used. *)
Definition no_kernel : bootinfo_t := mkBoot 0 0 0 0 0 0 [] 0 0.
Definition nk s : pmem := with_boot no_kernel s.
Lemma wp_bootless {R} (c : PM R) `{!Bootless c} (Q : R -> pmem -> Prop) s :
  wp c (fun a t => forall s', nk s' = t -> p_boot s' = p_boot s -> Q a s') (nk s) -> wp c Q s.
Proof.
  unfold wp, nk. rewrite bootless. pose proof (bootless (c := c) (p_boot s) s) as E. replace (with_boot (p_boot s) s) with s in E by (by destruct s).
  destruct (c s) as [a s'| | |]; cbn in *; try done. intros H. apply H; [done|]. injection E as E. by rewrite E.
Qed.
Lemma clear_no_kernel a : 0 <= a -> kernel_clear no_kernel a.
Proof.
  intros Ha. unfold kernel_clear, OVERLAPS, in_kernel. cbn [no_kernel b_kern_base b_kern_size]. change (u64 (0 + 0)) with 0.
  pose proof (u64_range (a + VMA_BASE)) as [Hv _]. fold (V2HI a) in Hv.
  split_and!; apply andb_false_iff; [left|right|right]; by apply Z.ltb_ge.
Qed.

(** ** Reserving frames *)
Definition add_res (X : gset Z) I : zinfo := mkInfo (i_start I) (i_bitmap I) (i_map I) (i_pages I) (i_npages I) (i_reserved I ∪ X).
Definition cnt_inc C idx : gmap Z Z := <[idx := default 0 (C !! idx) + 1]> C.
(** All frames in use are reserved ones. *)
Definition res C I : zinfo := mkInfo (i_start I) (i_bitmap I) (i_map I) (i_pages I) (i_npages I) (dom C).
Definition boot_rep s i I C : Prop := zone_rep s i (res C I) C (Z.of_nat (size (dom C))).

Lemma zstep_any s s' i C I : zstep s s' i (res C I) <-> zstep s s' i I.
Proof. split; intros [A1 A2 A3 A4 A5 A6]; by split. Qed.
Lemma info_ok_res X I : info_ok I -> info_ok (add_res X I).
Proof. intros [A1 A2 A3]. by split. Qed.
Lemma zone_is_res z X I u : zone_is z I u -> zone_is z (add_res X I) u.
Proof. intros [A1 A2 A3 A4 A5 A6 A7]. by split. Qed.

Lemma zone_rep_reserve s s' i I C u u' idx p p' :
  zone_rep s i I C u -> 0 <= idx < i_npages I -> default 0 (C !! idx) + 1 < two64 -> p_boot s' = p_boot s ->
  p_page s !! pg I idx = Some p -> pg_refcnt p' = default 0 (C !! idx) + 1 -> p_page s' = <[pg I idx := p']> (p_page s) ->
  (exists z, zone_at i s' = Some z /\ zone_is z I u') -> bits (p_mem s') I (dom C ∪ {[idx]}) ->
  zone_rep s' i (add_res {[idx]} I) (cnt_inc C idx) u'.
Proof.
  intros [_ H2 _ H4 H5 H6 H7] Hidx Hc Hboot Hp Hr Hpg (z & Hz & Hzi) Hb. unfold cnt_inc. split.
  - exists z. split; [done|by apply zone_is_res].
  - by apply info_ok_res.
  - rewrite dom_insert_L. by rewrite (union_comm_L {[idx]}).
  - intros k Hk. rewrite Hpg. destruct (H4 k Hk) as (q & Hq & Hqc & Hqw). change (pg (add_res _ I) k) with (pg I k).
    destruct (decide (k = idx)) as [->|Hne].
    + exists p'. rewrite !lookup_insert_eq. split; [done|]. split; [done|]. intros Hn. exfalso. apply Hn. cbn. set_solver.
    + exists q. rewrite !lookup_insert_ne by (intros E; apply Hne; by first [done|symmetry; apply (pg_inj I)]). split_and!; [done..|].
      intros Hn. apply Hqw. cbn in Hn. set_solver.
  - intros k c. destruct (decide (k = idx)) as [->|Hne].
    + rewrite lookup_insert_eq. intros [= <-]. destruct (C !! idx) as [c0|] eqn:E; cbn in *; [specialize (H5 _ _ E)|]; lia.
    + rewrite lookup_insert_ne by done. apply H5.
  - rewrite Hboot. intros k Hk Hn. apply H6; [done|]. cbn in Hn. set_solver.
  - intros k Hk. cbn in Hk. destruct (decide (k = idx)) as [->|Hne]; [rewrite lookup_insert_eq; eauto|].
    rewrite lookup_insert_ne by done. apply H7. set_solver.
Qed.

Lemma wp_set_one s i I X idx h (Q : Z -> pmem -> Prop) :
  bits (p_mem s) I X -> info_ok I -> locks_at s h -> 0 <= idx < i_npages I ->
  (forall r m', bits m' I (X ∪ {[idx]}) -> zstep s (with_mem m' s) i I -> locks_at (with_mem m' s) h -> Q r (with_mem m' s)) ->
  wp (lift (bitmap_set (i_bitmap I) idx 1)) Q s.
Proof.
  intros Hb Hi Hl Hidx HQ. eapply (wp_bits (BSet idx 1) _ (fun r => (r, None)) _ i); [| |exact Hb|exact Hl|].
  - destruct Hi as [_ _ Hr]. unfold PGSZ in Hr. cbn. lia.
  - done.
  - cbn [b_step]. destruct (Z.ltb_spec (i_npages I) (idx + 1)); [lia|].
    assert (rng idx 1 = {[idx]}) as -> by (apply set_eq; intros k; rewrite elem_of_rng, elem_of_singleton; lia).
    intros r m' _ Hb'. apply HQ. case_decide as Hd; [exact Hb'|]. cbn in Hb'. assert (idx ∈ X) by (destruct (decide (idx ∈ X)); set_solver).
    replace (X ∪ {[idx]}) with X by set_solver. done.
Qed.

Fixpoint mark_run (nn : nat) C idx : gmap Z Z :=
  match nn with
  | O => C
  | S nn => mark_run nn (cnt_inc C idx) (idx + 1)
  end.
Lemma mark_run_lookup (nn : nat) C idx k :
  mark_run nn C idx !! k = if decide (idx <= k < idx + Z.of_nat nn) then Some (default 0 (C !! k) + 1) else C !! k.
Proof.
  revert C idx. induction nn as [|nn IH]; intros C idx; cbn [mark_run]; [by rewrite decide_False by lia|]. rewrite IH. unfold cnt_inc.
  destruct (decide (k = idx)) as [->|Hne].
  - rewrite decide_False, decide_True, lookup_insert_eq by lia. done.
  - rewrite lookup_insert_ne by done. do 2 case_decide; try done; lia.
Qed.
Lemma cnt_inc_dom C idx : dom (cnt_inc C idx) = dom C ∪ {[idx]}.
Proof. unfold cnt_inc. rewrite dom_insert_L. by rewrite union_comm_L. Qed.

Lemma rep_size s i I C u : zone_rep s i I C u -> Z.of_nat (size (dom C)) <= i_npages I.
Proof.
  intros Hrep. assert (dom C ⊆ rng 0 (i_npages I)) as Hsub.
  { intros k Hk%elem_of_dom. apply elem_of_rng. pose proof (zone_rep_in _ _ _ _ _ _ Hrep Hk). lia. }
  pose proof (subseteq_size _ _ Hsub) as Hs. unfold rng in Hs. rewrite size_list_to_set, length_seqZ in Hs by apply NoDup_seqZ.
  pose proof (io_npages _ (zr_info _ _ _ _ _ Hrep)). lia.
Qed.
Lemma cnt_inc_size C idx :
  Z.of_nat (size (dom (cnt_inc C idx))) = match C !! idx with Some _ => Z.of_nat (size (dom C)) | None => Z.of_nat (size (dom C)) + 1 end.
Proof.
  unfold cnt_inc. rewrite !size_dom. destruct (C !! idx) eqn:E; [by rewrite map_size_insert_Some by eauto|]. rewrite map_size_insert_None by done. lia.
Qed.
Lemma res_inc C I idx : add_res {[idx]} (res C I) = res (cnt_inc C idx) I.
Proof. unfold add_res, res. cbn. by rewrite cnt_inc_dom. Qed.

Lemma mark_one_spec s i I C idx (nn : nat) (Q : unit -> pmem -> Prop) :
  boot_rep s i I C -> locks_at s (Some i) -> 0 <= idx < i_npages I -> default 0 (C !! idx) + 1 < two64 ->
  (forall s', boot_rep s' i I (cnt_inc C idx) -> zstep s s' i I -> locks_at s' (Some i) -> wp (mark_pages nn i (pg I (idx + 1))) Q s') ->
  wp (mark_pages (S nn) i (pg I idx)) Q s.
Proof.
  unfold boot_rep. intros Hrep Hl Hidx Hc HQ. pose proof (rep_bound _ _ _ _ _ _ Hrep Hl) as Hi.
  pose proof (zr_at _ _ _ _ _ Hrep) as (z & Hz & Hzi). pose proof (zr_info _ _ _ _ _ Hrep) as Hinfo.
  destruct (zone_rep_get _ _ _ _ _ _ Hrep Hidx) as (p & Hp & Hpc).
  assert (0 <= default 0 (C !! idx)) as Hc0 by (destruct (C !! idx) eqn:E; cbn; [apply (zr_count _ _ _ _ _ Hrep) in E|]; lia).
  pose proof (rep_size _ _ _ _ _ Hrep) as Hsz.
  cbn [mark_pages]. replace (pg I idx + sizeof_page) with (pg I (idx + 1)) by (unfold pg, sizeof_page; lia). change (pg I idx) with (pg (res C I) idx).
  apply wp_bind. eapply wp_zget; [exact Hz|]. rewrite (page_index_eq _ _ _ _ Hzi), (zi_bitmap _ _ _ Hzi), (zi_upages _ _ _ Hzi).
  apply wp_bind. eapply (wp_set_one s i (res C I)); [apply Hrep|done|done|done|]. intros r m' Hb Hs Hl'.
  apply wp_bind. eapply wp_pget; [exact Hp|]. apply wp_bind.
  set (s1 := with_mem m' s) in *. destruct Hl' as [Hlen Hl'].
  assert (0 <= i /\ (Z.to_nat i < length (p_zones s1))%nat) as [Hi0 Hil] by lia.
  assert (forall s2 u', s2 = s1 \/ (exists v : Z, s2 = with_zones (<[Z.to_nat i := set_upages v z]> (p_zones s1)) s1) ->
    (exists z2, zone_at i s2 = Some z2 /\ zone_is z2 (res C I) u') -> u' = Z.of_nat (size (dom (cnt_inc C idx))) ->
    wp (M_bind (pmod (pg (res C I) idx) reserve_page) (fun _ => mark_pages nn i (pg I (idx + 1)))) Q s2) as Hend.
  { intros s2 u' Hs2 Hz2 ->.
    assert (p_page s2 = p_page s /\ p_mem s2 = m' /\ p_boot s2 = p_boot s) as (E1 & E2 & E3) by (destruct Hs2 as [->|[v ->]]; done).
    apply wp_bind. eapply wp_pmod; [rewrite E1; exact Hp|]. apply HQ.
    - rewrite <- res_inc. apply (zone_rep_reserve s _ i (res C I) C _ _ idx p (reserve_page p) Hrep); try done.
      + cbn. rewrite Hpc. apply u64_small. unfold is_u64. lia.
      + cbn. by rewrite E1.
      + cbn. by rewrite E2.
    - apply (zstep_any _ _ _ C). eapply zstep_trans; [exact Hs|]. eapply zstep_trans; [|apply zstep_pages; done]. destruct Hs2 as [->|[v ->]].
      + apply zstep_relocked, relocked_refl.
      + by apply zstep_zone.
    - eapply (locks_at_eq s2); [done..|]. destruct Hs2 as [->|[v ->]]; [by split|]. split; [cbn; by rewrite length_insert|].
      intros k z0 Hz0. rewrite zone_at_insert in Hz0 by done. destruct (decide (k = i)) as [->|Hne]; [injection Hz0 as <-; exact (Hl' i z Hz)|].
      exact (Hl' k z0 Hz0). }
  pose proof (cnt_inc_size C idx) as Hnew.
  apply wp_when; intros E; rewrite Hpc in E.
  - apply Z.eqb_eq in E. destruct (C !! idx) as [c|] eqn:Ec; [apply (zr_count _ _ _ _ _ Hrep) in Ec; cbn in E; lia|].
    eapply wp_zmod; [exact Hz|]. apply (Hend _ (Z.of_nat (size (dom C)) + 1)); [right; by eexists| |by rewrite Hnew].
    eexists. split; [rewrite zone_at_insert, decide_True by done; reflexivity|]. destruct Hzi as [Z1 Z2 Z3 Z4 Z5 Z6 Z7]. split; try done. cbn.
    apply u64_small. unfold is_u64. destruct Hinfo as [Hn _ [Hr0 Hr]]. unfold PGSZ in Hr. lia.
  - apply Z.eqb_neq in E. destruct (C !! idx) as [c|] eqn:Ec; [|done]. apply (Hend _ (Z.of_nat (size (dom C)))); [by left|by exists z|by rewrite Hnew].
Qed.

Lemma mark_pages_spec (nn : nat) s i I C idx :
  boot_rep s i I C -> locks_at s (Some i) -> 0 <= idx -> idx + Z.of_nat nn <= i_npages I ->
  (forall k, default 0 (C !! k) + 1 < two64) ->
  wp (mark_pages nn i (pg I idx)) (fun _ s' => boot_rep s' i I (mark_run nn C idx) /\ zstep s s' i I /\ locks_at s' (Some i)) s.
Proof.
  intros Hrep Hl Hidx Hn Hc. assert (forall k, idx <= k -> default 0 (C !! k) + 1 < two64) as Hc' by auto. clear Hc.
  revert s C idx Hrep Hl Hidx Hn Hc'. induction nn as [|nn IH]; intros s C idx Hrep Hl Hidx Hn Hc; cbn [mark_run].
  { apply wp_ret. split_and!; [done| |done]. apply zstep_relocked, relocked_refl. }
  apply (mark_one_spec s i I C idx); [done|done|lia|apply Hc; lia|]. intros s1 Hrep1 Hs1 Hl1.
  eapply wp_mono; [apply IH; [done|done|lia|lia|]|].
  - intros k Hk. unfold cnt_inc. rewrite lookup_insert_ne by lia. apply Hc. lia.
  - intros [] s2 (H1 & H2 & H3). split_and!; [done|by eapply zstep_trans|done].
Qed.

(** ** The memory map *)
Definition region_skipped (m : boot_mmap_t) : bool := (V2HI MEMMIO <=? bmp_addr m) || (bmp_type m =? MULTIBOOT_MEMORY_AVAILABLE).
Definition region_base (m : boot_mmap_t) : Z := PGROUND (V2LO (bmp_addr m)).
(** The frame at [a] is one of those reserved for the region [m]. *)
Definition covers (a : Z) (m : boot_mmap_t) : Prop :=
  region_skipped m = false /\ region_base m <= a < region_base m + NPAGE (bmp_size m) * PGSZ.
#[export] Instance covers_dec a m : Decision (covers a m).
Proof. unfold covers. apply _. Defined.
Definition ncover (l : list boot_mmap_t) (a : Z) : Z := Z.of_nat (length (filter (covers a) l)).
Definition region_in I (m : boot_mmap_t) : Prop :=
  i_start I <= region_base m /\ (region_base m - i_start I) mod PGSZ = 0 /\ 0 < bmp_size m /\ region_base m + bmp_size m <= frame I (i_npages I).
Definition region_fits L (m : boot_mmap_t) : Prop := region_skipped m = true \/ exists i I, 0 <= i < 4 /\ L i = Some I /\ region_in I m.

(** The state while frames are being reserved. *)
Definition marks : Type := Z -> gmap Z Z.
Implicit Types (N : marks).
Definition resL L N : layout := fun i => res (N i) <$> L i.
Definition resA N : counts := fun i => (N i, Z.of_nat (size (dom (N i)))).
Definition boot_own s L N : Prop := pmm_own s (resL L N) (resA N).

Lemma frame_of_base I m : region_in I m -> region_base m = frame I ((region_base m - i_start I) / PGSZ).
Proof. intros (H1 & H2 & _). unfold frame. pose proof (Z.div_mod (region_base m - i_start I) PGSZ ltac:(done)). lia. Qed.
Lemma NPAGE_mul k : 0 <= k -> NPAGE (k * PGSZ) = k.
Proof. intros Hk. unfold NPAGE. rewrite PGOFF_eq, Z.mod_mul, Z.div_mul by done. cbn. lia. Qed.
Lemma NPAGE_fits I idx n : 0 <= n -> frame I idx + n <= frame I (i_npages I) -> 0 <= NPAGE n /\ idx + NPAGE n <= i_npages I.
Proof.
  intros Hn. unfold frame. pose proof (NPAGE_eq n) as E. pose proof (up_spec n 12 ltac:(lia)) as [U _]. change (2 ^ 12) with PGSZ in U. unfold PGSZ in *. lia.
Qed.
Definition nupd N i C : marks := fun j => if decide (j = i) then C else N j.

Lemma boot_rep_upd s s' L N i I C :
  pmm_rep s (resL L N) (resA N) -> 0 <= i < 4 -> L i = Some I -> boot_rep s' i I C -> zstep s s' i I -> pmm_rep s' (resL L (nupd N i C)) (resA (nupd N i C)).
Proof.
  intros [H1 H2] Hi E Hr Hs. split.
  - intros j Hj. specialize (H1 j Hj). unfold resL, resA, nupd in *. destruct (decide (j = i)) as [->|Hne].
    + rewrite E. exact Hr.
    + destruct (L j) as [J|] eqn:Ej; cbn [fmap option_fmap option_map] in *.
      * eapply (zone_rep_step s s' i j (res (N i) I) (res (N j) J)); [apply (H2 i j); try done; rewrite ?E, ?Ej; done|done|by apply zstep_any|done].
      * destruct H1 as (z & Hz & Hv). pose proof (zs_zones _ _ _ _ Hs j Hne) as Hb. rewrite Hz in Hb. cbn in Hb.
        destruct (zone_at j s') as [z'|]; [|done]. exists z'. split; [done|]. apply (inj Some) in Hb. by rewrite <- zvalid_bare, Hb, zvalid_bare.
  - intros j k I' J' Hj Hk Hjk Ej Ek. unfold resL in *.
    destruct (L j) as [J1|] eqn:E1; [|done]. destruct (L k) as [J2|] eqn:E2; [|done]. cbn in Ej, Ek. injection Ej as <-. injection Ek as <-.
    apply (H2 j k (res (N j) J1) (res (N k) J2)); try done; by rewrite ?E1, ?E2.
Qed.

Lemma ncover_one I idx n m k :
  region_skipped m = false -> region_base m = frame I idx -> n = NPAGE (bmp_size m) ->
  ncover [m] (frame I k) = if decide (idx <= k < idx + n) then 1 else 0.
Proof.
  intros Hs Hb ->. unfold ncover. rewrite filter_cons. unfold frame, PGSZ in Hb.
  destruct (decide (idx <= k < _)); [rewrite decide_True|rewrite decide_False]; try done; unfold covers; rewrite Hb; unfold frame, PGSZ; [split; [done|]|intros [_ ?]]; lia.
Qed.

Definition marked L N (l : list boot_mmap_t) N' : Prop :=
  (forall i I k, 0 <= i < 4 -> L i = Some I -> 0 <= k < i_npages I -> default 0 (N' i !! k) = default 0 (N i !! k) + ncover l (frame I k)) /\
  (forall i k, default 0 (N' i !! k) <= default 0 (N i !! k) + Z.of_nat (length l)).

Lemma process_map_spec s L N m :
  boot_own s L N -> region_fits L m -> (forall i k, default 0 (N i !! k) + 1 < two64) ->
  wp (process_memory_map m) (fun r s' => r = 0 /\ exists N', boot_own s' L N' /\ marked L N [m] N') s.
Proof.
  intros Hown Hfit Hc. unfold process_memory_map. fold (region_skipped m). destruct (region_skipped m) eqn:Esk.
  { apply wp_ret. split; [done|]. exists N. split; [done|]. split; [|intros; cbn; lia].
    intros i I k _ _ _. unfold ncover. rewrite filter_cons, decide_False by (intros [? _]; congruence). cbn. lia. }
  destruct Hfit as [Hf|(i & I & Hi & E & Hin)]; [congruence|]. fold (region_base m). pose proof (frame_of_base I m Hin) as Hb.
  set (idx := (region_base m - i_start I) / PGSZ) in *. destruct Hin as (B1 & B2 & B3 & B4). rewrite Hb in B4.
  assert (0 <= idx) as Hidx by (apply Z.div_pos; [lia|done]). destruct (NPAGE_fits I idx (bmp_size m) ltac:(lia) B4) as [P1 P2].
  assert (resL L N i = Some (res (N i) I)) as Er by (unfold resL; by rewrite E). pose proof Hown as [Hrep Hl].
  rewrite Hb. apply wp_bind. apply (getzone_byaddr_any s (resL L N) (resA N) i (res (N i) I) idx); try done.
  intros s1 Hr Hl1. cbn [snd]. pose proof (pmm_rep_relocked _ _ _ _ Hr Hrep) as Hrep1. pose proof (pmm_rep_at _ _ _ _ _ Hrep1 Hi Er) as Hz1.
  destruct (zr_at _ _ _ _ _ Hz1) as (z & Hz & Hzi). pose proof (zr_info _ _ _ _ _ Hz1) as Hinfo.
  apply wp_bind. unfold mark_reserved_pages. apply wp_bind. eapply wp_zget; [exact Hz|].
  assert (page_at z (NPAGE (u64 (frame I idx - z_start z))) = pg I idx) as ->.
  { rewrite (zi_start _ _ _ Hzi). cbn [res i_start]. replace (frame I idx - i_start I) with (idx * PGSZ) by (unfold frame; lia).
    destruct Hinfo as [_ _ [R1 R2]]. cbn in R1, R2. rewrite u64_small, NPAGE_mul by (unfold is_u64, PGSZ in *; lia). eapply (page_at_eq z (res (N i) I)); [apply Hz1|done|cbn; lia]. }
  apply wp_bind. eapply wp_mono; [apply (mark_pages_spec _ s1 i I (N i) idx); [exact Hz1|done|done|lia|apply Hc]|].
  intros [] s2 (Hrep2 & Hs2 & Hl2). apply wp_ret. apply wp_bind, wp_assert; [done|]. apply wp_bind. apply wp_zone_unlock; [done..|].
  intros s3 Hr3 Hl3. apply wp_ret. split; [done|]. eexists. split; [split; [|exact Hl3]|].
  - eapply (boot_rep_upd s1 s3); [exact Hrep1|done|exact E|by eapply zone_rep_relocked|]. eapply zstep_trans; [exact Hs2|by apply zstep_relocked].
  - split.
    + intros j J k Hj Ej Hk. unfold nupd. destruct (decide (j = i)) as [->|Hne].
      * rewrite E in Ej. injection Ej as <-. rewrite mark_run_lookup, Z2Nat.id by lia. rewrite (ncover_one I idx (NPAGE (bmp_size m))) by done.
        case_decide; cbn; lia.
      * unfold ncover. rewrite filter_cons, decide_False; [cbn; lia|]. intros [_ Hcov].
        destruct (pr_apart _ _ _ Hrep i j (res (N i) I) (res (N j) J)) as (_ & _ & _ & Hd); try done; [unfold resL; by rewrite Ej|].
        cbn in Hd. rewrite Hb in Hcov. unfold frame, PGSZ in *. cbn in Hd. lia.
    + intros j k. unfold nupd. destruct (decide (j = i)) as [->|Hne]; [|cbn; lia]. rewrite mark_run_lookup. case_decide; cbn; lia.
Qed.
Lemma ncover_cons m l a : ncover (m :: l) a = ncover [m] a + ncover l a.
Proof. unfold ncover. rewrite !filter_cons. destruct (decide (covers a m)); cbn; lia. Qed.
Lemma process_maps_spec l s L N :
  boot_own s L N -> Forall (region_fits L) l -> (forall i k, default 0 (N i !! k) + Z.of_nat (length l) < two64) ->
  wp (process_maps l) (fun r s' => r = 0 /\ exists N', boot_own s' L N' /\ marked L N l N') s.
Proof.
  intros Hown Hl. revert s N Hown. induction Hl as [|m l Hm Hl IH]; intros s N Hown Hc; cbn [process_maps length].
  { apply wp_ret. split; [done|]. exists N. split; [done|]. split; intros; unfold ncover; cbn [length filter list_filter]; lia. }
  cbn [length] in Hc. apply wp_bind. eapply wp_mono; [apply (process_map_spec s L N m); try done; intros; specialize (Hc i k); lia|].
  intros r s1 (-> & N1 & Hown1 & H1 & H1'). cbn [Z.eqb negb]. cbn [length] in H1'.
  eapply wp_mono; [apply (IH s1 N1 Hown1); intros i k; specialize (Hc i k); specialize (H1' i k); lia|].
  intros r s2 (-> & N2 & Hown2 & H2 & H2'). split; [done|]. exists N2. split; [done|]. split.
  - intros i I k Hi E Hk. rewrite (H2 i I k), (H1 i I k), (ncover_cons m l) by done. lia.
  - intros i k. specialize (H1' i k). specialize (H2' i k). cbn [length]. lia.
Qed.

(** A region that lies in no zone stops the machine. *)
Lemma process_map_panics s L N m :
  boot_own s L N -> region_skipped m = false -> (forall i I, 0 <= i < 4 -> L i = Some I -> ~ (i_start I <= region_base m /\ u64 (region_base m + bmp_size m) <= frame I (i_npages I))) ->
  process_memory_map m s = Panic.
Proof.
  intros [Hrep Hl] Esk Hno. unfold process_memory_map. fold (region_skipped m). rewrite Esk. fold (region_base m).
  assert (wp (getzone_byaddr (region_base m) (bmp_size m)) (fun r _ => r.2 = None) s) as Hw.
  { unfold getzone_byaddr. apply wp_bind.
    apply (zone_search_spec (fun z v => (z_start z <=? region_base m) && v && (u64 (region_base m + bmp_size m) <=? zone_end z)) 4 0 s); [done|done|lia|lia|..].
    - intros s' k z Hr Hlk Hk Hzk Htest _. exfalso. pose proof (pr_zone _ _ _ Hrep k ltac:(lia)) as Hk'. unfold resL in Hk'.
      destruct (L k) as [J|] eqn:Ek; cbn [fmap option_fmap option_map] in Hk'.
      + destruct Hk' as [(z' & Hz' & Hzi) Hinfo' _ _ _ _ _]. rewrite Hzk in Hz'. injection Hz' as <-.
        rewrite (zone_end_eq _ _ _ Hinfo' Hzi), (zi_start _ _ _ Hzi) in Htest. apply andb_prop in Htest as [[Ht1 _]%andb_prop Ht2].
        apply Z.leb_le in Ht1, Ht2. by apply (Hno k J ltac:(lia) Ek).
      + destruct Hk' as (z' & Hz' & Hv). rewrite Hzk in Hz'. injection Hz' as <-. rewrite Hv, andb_false_r in Htest. done.
    - intros s' _ _ _. by apply wp_ret. }
  unfold wp in Hw. unfold M_bind. destruct (getzone_byaddr _ _ s) as [[e [i|]] s'| | |]; try done.
Qed.

(** ** One zone *)
Definition map_bytes n : Z := (n + 63) / 64 * 8.
(** What a zone of [n] frames asks of [boot_alloc]: its bitmap and its page structures. *)
Definition zone_reqs n : list (Z * Z) := [(up (map_bytes n) 12, 12); (up (n * sizeof_page) 12, 12)].
Definition zone_info (start bm p n : Z) : zinfo :=
  let a := up p 12 in let a' := a + up (up (map_bytes n) 12) 12 in mkInfo start bm (V2HI a) (V2HI (up a' 12)) n ∅.

Section Setup.
Context (junk : Z -> Z).

Lemma init_pages_spec s i z n P w (Q : unit -> pmem -> Prop) :
  zone_at i s = Some z -> z_pages z = P -> 0 <= n -> 0 <= P -> P + sizeof_page * n < two64 -> w = zone_watermark i ->
  (forall g, (forall idx, 0 <= idx < n -> g !! (P + sizeof_page * idx) = Some (mkPage 0 0 0 0 w)) ->
     (forall a, (forall idx, 0 <= idx < n -> a <> P + sizeof_page * idx) -> g !! a = p_page s !! a) -> Q tt (with_page g s)) ->
  wp (init_pages i n) Q s.
Proof.
  intros Hz <- Hn HP H64 -> HQ. unfold init_pages, page_init. apply wp_bind.
  set (Inv := fun k s' => exists g, s' = with_page g s /\
    (forall idx, 0 <= idx < k -> g !! (z_pages z + sizeof_page * idx) = Some (mkPage 0 0 0 0 (zone_watermark i))) /\
    (forall a, (forall idx, 0 <= idx < n -> a <> z_pages z + sizeof_page * idx) -> g !! a = p_page s !! a)).
  eapply wp_mono; [apply (wp_for_range Inv)|].
  - exists (p_page s). split_and!; [by destruct s|lia|done].
  - intros k s' Hk (g & -> & H1 & H2). rewrite Z2Nat.id in Hk by lia. apply wp_bind. eapply (wp_zget i z); [exact Hz|]. unfold page_at.
    rewrite u64_small by (unfold is_u64, sizeof_page in *; lia). apply wp_bind. unfold wp at 1. apply wp_ret. split; [done|].
    eexists. split; [reflexivity|]. cbn [with_page p_page]. split.
    + intros idx Hidx. destruct (decide (idx = k)) as [->|Hne]; [apply lookup_insert_eq|].
      rewrite lookup_insert_ne by (unfold sizeof_page; lia). apply H1. lia.
    + intros a Ha. rewrite lookup_insert_ne by (intros E; apply (Ha k); [lia|done]). by apply H2.
  - intros r s' (-> & g & -> & H1 & H2). rewrite Z2Nat.id in H1 by lia. apply wp_ret. by apply HQ.
Qed.

Lemma V2HI_low a : 0 <= a -> a < 2 ^ 47 -> V2HI a = a + VMA_BASE /\ 0 < V2HI a < two64.
Proof.
  intros H0 H1. change (2 ^ 47) with 140737488355328 in H1. assert (two64 = 18446744073709551616) as E by done.
  unfold V2HI, VMA_BASE. rewrite u64_small by (unfold is_u64; lia). lia.
Qed.
Lemma num_units_div n : 0 < n -> n + 63 < two64 -> num_units n = (n + 63) / 64.
Proof. intros Hn H64. unfold num_units, BITS_PER_USIZE. rewrite u64_small by (unfold is_u64; lia). f_equal. lia. Qed.

Lemma locks_at_zmod s h i z z' : locks_at s h -> zone_at i s = Some z -> z_lock z' = z_lock z -> locks_at (with_zones (<[Z.to_nat i := z']> (p_zones s)) s) h.
Proof.
  intros Hl Hz E. pose proof (zone_at_bound _ _ _ _ Hl Hz) as Hi. destruct Hl as [Hlen Hl]. split; [cbn; by rewrite length_insert|].
  intros k z0 Hz0. rewrite zone_at_insert in Hz0 by lia. destruct (decide (k = i)) as [->|Hne]; [|by apply Hl].
  injection Hz0 as <-. rewrite E. exact (Hl i z Hz).
Qed.
Lemma zone_at_zmod s h i z z' : locks_at s h -> zone_at i s = Some z -> zone_at i (with_zones (<[Z.to_nat i := z']> (p_zones s)) s) = Some z'.
Proof. intros Hl Hz. pose proof (zone_at_bound _ _ _ _ Hl Hz) as Hi. destruct Hl as [Hlen _]. by rewrite zone_at_insert, decide_True by lia. Qed.
Lemma zstep_zmod s h i z z' I : locks_at s h -> zone_at i s = Some z -> zstep s (with_zones (<[Z.to_nat i := z']> (p_zones s)) s) i I.
Proof. intros Hl Hz. pose proof (zone_at_bound _ _ _ _ Hl Hz) as Hi. destruct Hl as [Hlen _]. apply zstep_zone; lia. Qed.
Lemma zstep_words s i I ws : zstep s (with_mem (h_set (<[i_map I := ws]> (words (p_mem s))) (p_mem s)) s) i I.
Proof. split; try done; cbn [p_mem with_mem]; intros a Ha; ksimpl; by apply lookup_insert_ne. Qed.
Lemma valid_set f : negb (Z.land (Z.lor f ZONE_VALID) ZONE_VALID =? 0) = true.
Proof.
  rewrite Z.land_lor_distr_l, Z.land_diag. destruct (Z.eqb_spec (Z.lor (Z.land f ZONE_VALID) ZONE_VALID) 0) as [E|]; [|done].
  by apply Z.lor_eq_0_iff in E as [_ E].
Qed.

Lemma boot_rep_fresh s i I z :
  0 <= i < 4 -> zone_at i s = Some z -> zone_is z I 0 -> info_ok I -> bits (p_mem s) I ∅ ->
  (forall idx, 0 <= idx < i_npages I -> p_page s !! pg I idx = Some (mkPage 0 0 0 0 (zone_watermark i))) -> boot_rep (nk s) i I ∅.
Proof.
  intros Hi Hz Hzi Hinfo Hb Hp. split.
  - exists z. split; [exact Hz|]. destruct Hzi. by split.
  - by destruct Hinfo.
  - by rewrite dom_empty_L.
  - intros idx Hidx. eexists. split; [apply Hp; exact Hidx|]. split; [done|]. intros _. cbn.
    assert (i = 0 \/ i = 1 \/ i = 2 \/ i = 3) as [->|[->|[->| ->]]] by lia; done.
  - done.
  - intros idx Hidx _. apply clear_no_kernel. destruct Hinfo as [_ _ [Hr _]]. unfold frame, PGSZ. cbn. lia.
  - cbn. intros idx Hidx. by rewrite dom_empty_L in Hidx.
Qed.

(** A zone whose range is set and which has no bitmap and no page structures yet. *)
Record zone_fresh s i z n : Prop := {
  zf_at : zone_at i s = Some z;
  zf_size : z_size z = n * PGSZ /\ z_npages z = n /\ z_upages z = 0;
  zf_bitmap : z_bitmap z <> 0 /\ is_Some (bitmaps (p_mem s) !! z_bitmap z);
  zf_range : 0 < n /\ 0 <= z_start z /\ z_start z + n * PGSZ < two64;
  zf_booting : booting (p_boot s) 2;
  zf_room : 1024 * b_usable (p_boot s) <= 2 ^ 46 /\ 2 * place_end (b_phyaddr (p_boot s)) (zone_reqs n) - b_phyaddr (p_boot s) <= 1024 * b_usable (p_boot s)
}.
Fixpoint grown_by (b : bootinfo_t) (bs : list (Z * Z)) : bootinfo_t :=
  match bs with
  | [] => b
  | r :: bs => grown_by (grown b r.1 r.2) bs
  end.
Definition zone_boot (b : bootinfo_t) n : bootinfo_t := grown_by b (place (b_phyaddr b) (zone_reqs n)).

Lemma zone_reqs_ok n : 0 < n -> Forall req_ok (zone_reqs n).
Proof.
  intros Hn. assert (0 < map_bytes n) as Hm.
  { unfold map_bytes. assert (1 <= (n + 63) / 64) by (apply Z.div_le_lower_bound; lia). lia. }
  pose proof (up_spec (map_bytes n) 12 ltac:(lia)) as [U1 _]. pose proof (up_spec (n * sizeof_page) 12 ltac:(lia)) as [U2 _].
  unfold zone_reqs, req_ok, sizeof_page in *. rewrite !Forall_cons. cbn [fst snd]. split_and!; try lia. apply Forall_nil. done.
Qed.
Lemma booting_grown b a size n : booting b (n + 1) -> 0 <= a -> 0 <= size -> size <= 1024 * b_usable b -> booting (grown b a size) n.
Proof.
  intros [H1 H2 [H3 H3'] H4] Ha Hs Hle. pose proof (Z.div_mod size 1024 ltac:(lia)). pose proof (Z.mod_pos_bound size 1024 ltac:(lia)).
  split; cbn; try done; try lia. rewrite length_app. cbn. lia.
Qed.

Lemma fresh_bitmap_spec s i z n I (Q : Z -> pmem -> Prop) :
  z_bitmap z = i_bitmap I -> i_npages I = n -> z_bitmap z <> 0 -> is_Some (bitmaps (p_mem s) !! z_bitmap z) -> i_map I <> 0 -> 0 < n -> n + 63 < two64 ->
  (forall m', bits m' I ∅ -> zstep (nk s) (nk (with_mem m' s)) i I -> k_who m' = k_who (p_mem s) -> Q 0 (with_mem m' s)) ->
  wp (do! raw_words junk (i_map I) (num_units n) in lift (bitmap_init (z_bitmap z) (i_map I) n)) Q s.
Proof.
  intros Eb En Hb0 [b0 Hb] Hm Hn H64 HQ. apply wp_bind. unfold raw_words. unfold wp at 1. rewrite num_units_div by done.
  set (ws := map _ _). set (m := h_set (T:=list Z) _ _).
  assert (length ws = Z.to_nat ((n + 63) / 64)) as Hlen by (unfold ws; by rewrite length_map, length_seqZ).
  assert (0 <= (n + 63) / 64) as Hpos by (apply Z.div_pos; lia).
  apply wp_lift. cbn [p_mem with_mem]. eapply wp_mono; [eapply (bitmap_init_spec m (z_bitmap z) (i_map I) n b0 ws); try done|].
  - unfold m. ksimpl. apply lookup_insert_eq.
  - rewrite Hlen. lia.
  - intros r m' (-> & Hres & Hown). apply (HQ m').
    + exists (replicate (length ws) 0). rewrite <- Eb, En. split; [done|apply repr_clear].
    + apply (zstep_trans _ (nk (with_mem m s))); [apply (zstep_words (nk s))|]. eapply (zstep_mem (nk (with_mem m s))). rewrite <- Eb, En. exact Hres.
    + destruct Hres as (lk & _ & ->). unfold m. by ksimpl.
Qed.

(** The numbers of the two allocations of a zone. *)
Definition map_at (p : Z) : Z := up p 12.
Definition map_len n : Z := up (up (map_bytes n) 12) 12.
Definition pages_at (p n : Z) : Z := up (map_at p + map_len n) 12.
Definition pages_len n : Z := up (up (n * sizeof_page) 12) 12.
Record zone_plan (p n top : Z) : Prop := {
  zp_n : n < 2 ^ 46;
  zp_bytes : 0 < map_bytes n < 2 ^ 50;
  zp_at : p <= map_at p /\ map_at p + map_len n <= pages_at p n;
  zp_len : 0 < map_len n /\ n * sizeof_page <= pages_len n < 2 ^ 47;
  zp_top : map_at p + map_len n <= top /\ pages_at p n + pages_len n <= top - map_len n;
  zp_hi : V2HI (map_at p) <> 0 /\ 0 < V2HI (pages_at p n) /\ V2HI (pages_at p n) = pages_at p n + VMA_BASE /\
    V2HI (pages_at p n) + sizeof_page * n < two64
}.
Lemma zone_plan_of p n top : 0 < n -> 0 <= p -> 2 * place_end p (zone_reqs n) - p <= top -> top <= 2 ^ 46 -> zone_plan p n top.
Proof.
  intros Hn Hp Hroom Htop. cbn [place_end zone_reqs] in Hroom. fold (map_at p) (map_len n) in Hroom. fold (pages_at p n) (pages_len n) in Hroom.
  pose proof (zone_reqs_ok n Hn) as Hreqs. unfold zone_reqs in Hreqs. rewrite !Forall_cons in Hreqs. destruct Hreqs as ([R1 _] & [R2 _] & _). cbn [fst] in R1, R2.
  assert (0 < map_bytes n <= n * 8) as Hmb.
  { unfold map_bytes. assert (1 <= (n + 63) / 64 <= n); [|lia]. split; [apply Z.div_le_lower_bound; lia|].
    assert ((n + 63) / 64 < n + 1); [|lia]. apply Z.div_lt_upper_bound; lia. }
  pose proof (up_spec p 12 ltac:(lia)) as [U1 _]. fold (map_at p) in U1.
  pose proof (up_spec (map_bytes n) 12 ltac:(lia)) as [U2 _]. pose proof (up_spec (up (map_bytes n) 12) 12 ltac:(lia)) as [U3 _]. fold (map_len n) in U3.
  pose proof (up_spec (map_at p + map_len n) 12 ltac:(lia)) as [U4 _]. fold (pages_at p n) in U4.
  pose proof (up_spec (n * sizeof_page) 12 ltac:(lia)) as [U5 _]. pose proof (up_spec (up (n * sizeof_page) 12) 12 ltac:(lia)) as [U6 _]. fold (pages_len n) in U6.
  assert (two64 = 18446744073709551616) as E64 by done. change (2 ^ 46) with 70368744177664 in *. change (2 ^ 12) with 4096 in *. unfold sizeof_page in *.
  destruct (V2HI_low (map_at p)) as [V1 V1']; [lia|change (2 ^ 47) with 140737488355328; lia|].
  destruct (V2HI_low (pages_at p n)) as [V2 V2']; [lia|change (2 ^ 47) with 140737488355328; lia|].
  assert (VMA_BASE = 18446603336221196288) as EV by done.
  split; unfold sizeof_page; change (2 ^ 46) with 70368744177664; change (2 ^ 47) with 140737488355328; change (2 ^ 50) with 1125899906842624; try lia.
Qed.
Lemma zone_boot_eq b n : zone_boot b n = grown (grown b (map_at (b_phyaddr b)) (map_len n)) (pages_at (b_phyaddr b) n) (pages_len n).
Proof. done. Qed.
Lemma map_bytes_eq n : 0 < n -> n < 2 ^ 46 -> map_bytes n < 2 ^ 50 -> 0 < map_bytes n ->
  PGROUNDUP (u64 (u64 (n + BITS_PER_USIZE - 1) / BITS_PER_USIZE * 8)) = up (map_bytes n) 12.
Proof.
  intros H0 H1 H2 H3. change (2 ^ 46) with 70368744177664 in *. change (2 ^ 50) with 1125899906842624 in *. assert (two64 = 18446744073709551616) as E64 by done.
  unfold BITS_PER_USIZE. rewrite (u64_small (n + 64 - 1)) by (unfold is_u64; lia). replace (n + 64 - 1) with (n + 63) by lia. fold (map_bytes n).
  rewrite u64_small by (unfold is_u64; lia). apply PGROUNDUP_eq; unfold PGSZ; lia.
Qed.

Lemma zone_pages_spec s i z n P (Q : Z -> pmem -> Prop) :
  zone_at i s = Some z -> locks_at s (Some i) -> 0 < n -> 0 <= P -> P + sizeof_page * n < two64 ->
  (forall s' z', zone_at i s' = Some z' -> z' = set_flags (Z.lor (z_flags z) ZONE_VALID) (set_pages P z) -> p_mem s' = p_mem s -> p_boot s' = p_boot s ->
     (forall idx, 0 <= idx < n -> p_page s' !! (P + sizeof_page * idx) = Some (mkPage 0 0 0 0 (zone_watermark i))) ->
     (forall I, i_pages I = P -> i_npages I = n -> zstep s s' i I) -> locks_at s' (Some i) -> Q 0 s') ->
  wp (do! zmod i (set_pages P) in do! init_pages i n in do! zone_flags_set i ZONE_VALID in ret! 0) Q s.
Proof.
  intros Hz Hl Hn HP H64 HQ. apply wp_bind. eapply wp_zmod; [exact Hz|].
  pose proof (locks_at_zmod s _ i z (set_pages P z) Hl Hz eq_refl) as Hl1. pose proof (zone_at_zmod s _ i z (set_pages P z) Hl Hz) as Hz1.
  pose proof (fun I => zstep_zmod s _ i z (set_pages P z) I Hl Hz) as Hs1. set (s1 := with_zones _ s) in *.
  apply wp_bind. eapply (init_pages_spec s1 i _ n P); [exact Hz1|done|lia|done|done|done|]. intros g Hg1 Hg2.
  unfold zone_flags_set. apply wp_bind, wp_bind. eapply wp_zget; [exact Hz1|]. apply wp_bind, wp_get.
  apply wp_bind, wp_assert; [destruct Hl1 as [_ Hl1]; specialize (Hl1 i _ Hz1); by rewrite decide_True in Hl1 by done|].
  eapply wp_zmod; [exact Hz1|]. apply wp_ret. set (s2 := with_page g s1) in *.
  assert (locks_at s2 (Some i)) as Hl2 by (by eapply locks_at_eq; [..|exact Hl1]).
  eapply HQ; [exact (zone_at_zmod s2 _ i (set_pages P z) _ Hl2 Hz1)|done..| |by eapply locks_at_zmod].
  intros I E1 E2. eapply zstep_trans; [apply Hs1|]. eapply zstep_trans; [|by eapply (zstep_zmod s2)]. split; try done.
  intros a Ha. cbn. apply Hg2. intros idx Hidx E. apply (Ha idx); [by rewrite E2|]. unfold pg. by rewrite E1.
Qed.

Lemma alloc_buffers_spec s i z n I (Q : Z -> pmem -> Prop) :
  zone_fresh s i z n -> locks_at s (Some i) -> I = zone_info (z_start z) (z_bitmap z) (b_phyaddr (p_boot s)) n ->
  (forall s', boot_rep (nk s') i I ∅ -> zstep (nk s) (nk s') i I -> locks_at s' (Some i) -> p_boot s' = zone_boot (p_boot s) n -> Q 0 s') ->
  wp (zone_alloc_buffers junk i) Q s.
Proof.
  intros [Hz (Es & En & Eu) [Hb0 Hb] (Hn & Hr0 & Hr) Hboot [Hu Hroom]] Hl EI HQ. pose proof (zone_at_bound _ _ _ _ Hl Hz) as Hi.
  rewrite zone_boot_eq in HQ. set (b := p_boot s) in *. set (p := b_phyaddr b) in *. pose proof (bt_phyaddr _ _ Hboot) as Hp0. fold p in Hp0.
  destruct (zone_plan_of p n _ Hn Hp0 Hroom Hu) as [P1 [P2 P2'] [P3 P4] (P5 & P6 & P7) [P8 P9] (P10 & P11 & P12 & P13)].
  assert (i_map I = V2HI (map_at p) /\ i_pages I = V2HI (pages_at p n) /\ i_npages I = n /\ i_bitmap I = z_bitmap z /\ i_start I = z_start z) as (I1 & I2 & I3 & I4 & I5) by (by subst I).
  assert (two64 = 18446744073709551616) as E64 by done. change (2 ^ 47) with 140737488355328 in P7.
  unfold zone_alloc_buffers. apply wp_bind. eapply wp_zget; [exact Hz|]. rewrite Es, En, map_bytes_eq by done.
  destruct (Z.eqb_spec (n * PGSZ) 0); [unfold PGSZ in *; lia|]. change (2 ^ 46) with 70368744177664 in P1.
  pose proof (zone_reqs_ok n Hn) as Hreqs. unfold zone_reqs in Hreqs. rewrite !Forall_cons in Hreqs. destruct Hreqs as ([R1 _] & [R2 _] & _). cbn [fst] in R1, R2.
  apply wp_bind. change PGSZ with (2 ^ 12). apply boot_alloc_spec; fold b p; fold (map_at p) (map_len n); [by destruct Hboot; split; try done; lia|lia|lia|lia|].
  unfold is_null at 1. destruct (Z.eqb_spec (V2HI (map_at p)) 0); [done|]. rewrite <- I1.
  eapply wp_eq; [symmetry; apply M_bind_assoc|]. apply wp_bind.
  eapply (fresh_bitmap_spec _ i z n I); [done|done|done|done|by rewrite I1|done|lia|]. intros m' Hbits Hs1 Hwho. cbn [Z.eqb negb].
  rewrite PGROUNDUP_eq, (u64_small (n * sizeof_page)) by (rewrite ?u64_small; unfold is_u64, PGSZ, sizeof_page in *; lia).
  apply wp_bind. apply boot_alloc_spec; cbn [with_mem p_boot with_boot grown b_phyaddr b_usable]; fold (pages_at p n) (pages_len n); fold b.
  { apply booting_grown; [by destruct Hboot; split; try done; lia|lia|lia|lia]. }
  { lia. }
  { lia. }
  { pose proof (Z.div_mod (map_len n) 1024 ltac:(lia)). pose proof (Z.mod_pos_bound (map_len n) 1024 ltac:(lia)). lia. }
  unfold is_null. destruct (Z.eqb_spec (V2HI (pages_at p n)) 0); [lia|]. set (s2 := with_boot _ _).
  assert (locks_at s2 (Some i)) as Hl2 by (eapply locks_at_eq; [..|exact Hl]; done).
  eapply (zone_pages_spec s2 i z n); [exact Hz|done|done|lia|lia|]. intros s3 z3 Hz3 Ez3 Em3 Eb3 Hpg3 Hs3 Hl3. apply HQ; [| |done|exact Eb3].
  - apply (boot_rep_fresh s3 i I z3); [done|done|..].
    + subst z3. split; cbn; try done; try congruence. unfold zvalid. cbn. apply valid_set.
    + split; rewrite ?I3, ?I5, ?I2; try done; lia.
    + by rewrite Em3.
    + intros idx Hidx. rewrite I3 in Hidx. unfold pg. rewrite I2. by apply Hpg3.
  - eapply zstep_trans; [exact Hs1|]. specialize (Hs3 I I2 I3). destruct Hs3 as [S1 S2 S3 S4 S5 S6]. by split.
Qed.

(** The state after [initialize_zone_struct]. *)
Lemma zone_struct_spec s i z I (Q : unit -> pmem -> Prop) :
  locks_at s None -> zone_at i s = Some z -> is_Some (bitmaps (p_mem s) !! z_bitmap z) -> i_bitmap I = z_bitmap z ->
  (forall s', zone_at i s' = Some (mkZone 0 0 (z_bitmap z) 0 0 0 0 SPINLOCK_INIT) -> is_Some (bitmaps (p_mem s') !! z_bitmap z) ->
     zstep s s' i I -> locks_at s' None -> Q tt s') ->
  wp (initialize_zone_struct i) Q s.
Proof.
  intros Hl Hz [b0 Hb] EI HQ. unfold initialize_zone_struct. apply wp_bind. eapply wp_zget; [exact Hz|]. apply wp_bind. eapply wp_zmod; [exact Hz|].
  set (z1 := mkZone 0 0 _ _ _ _ _ _). set (s1 := with_zones _ s). apply wp_lift. eapply wp_store; [exact Hb|].
  pose proof (zone_at_zmod s _ i z z1 Hl Hz) as Hz1. pose proof (zstep_zmod s _ i z z1 I Hl Hz) as Hs1. apply HQ; [exact Hz1|..].
  - cbn [p_mem with_mem]. ksimpl. rewrite lookup_insert_eq. eauto.
  - eapply zstep_trans; [exact Hs1|]. split; try done; cbn [p_mem with_mem]; intros a Ha; ksimpl. rewrite <- EI. by rewrite lookup_insert_ne.
  - pose proof (zone_at_bound _ _ _ _ Hl Hz) as Hi. destruct Hl as [Hlen Hl]. split; [cbn; by rewrite length_insert|]. intros k z0 Hz0.
    change (zone_at k s1 = Some z0) in Hz0. unfold s1 in Hz0. rewrite zone_at_insert in Hz0 by lia.
    destruct (decide (k = i)) as [->|Hne]; [by injection Hz0 as <-|exact (Hl k z0 Hz0)].
Qed.

Lemma zstep_nk s s' i I : zstep s s' i I -> zstep (nk s) (nk s') i I.
Proof. intros [A1 A2 A3 A4 A5 A6]. by split. Qed.

(** There is room for the buffers of a zone of [n] frames at [start]. *)
Record zone_room (b : bootinfo_t) start n : Prop := {
  zo_range : 0 < n /\ 0 <= start /\ start + n * PGSZ < two64;
  zo_booting : booting b 2;
  zo_room : 1024 * b_usable b <= 2 ^ 46 /\ 2 * place_end (b_phyaddr b) (zone_reqs n) - b_phyaddr b <= 1024 * b_usable b
}.
Definition prev_valid s i : Prop := 0 < i -> exists z0, zone_at (i - 1) s = Some z0 /\ zvalid z0 = true.
Lemma prev_valid_step s s' i I : prev_valid s i -> zstep s s' i I -> prev_valid s' i.
Proof.
  intros Hp Hs H0. destruct (Hp H0) as (z0 & Hz0 & Hv). pose proof (zs_zones _ _ _ _ Hs (i - 1) ltac:(lia)) as E. rewrite Hz0 in E.
  destruct (zone_at (i - 1) s') as [y|]; [|done]. apply (inj Some) in E. exists y. split; [done|]. by rewrite <- zvalid_bare, E, zvalid_bare.
Qed.

Lemma set_address_spec s i z n start I (Q : Z -> pmem -> Prop) :
  locks_at s (Some i) -> zone_at i s = Some z -> z_upages z = 0 -> z_bitmap z <> 0 -> is_Some (bitmaps (p_mem s) !! z_bitmap z) -> prev_valid s i ->
  zone_room (p_boot s) start n -> I = zone_info start (z_bitmap z) (b_phyaddr (p_boot s)) n ->
  (forall s', boot_rep (nk s') i I ∅ -> zstep (nk s) (nk s') i I -> locks_at s' (Some i) -> p_boot s' = zone_boot (p_boot s) n -> Q 0 s') ->
  wp (zone_set_address_range junk i start (n * PGSZ)) Q s.
Proof.
  intros Hl Hz Hu Hb0 Hb Hprev [Hn Hboot Hroom] EI HQ. unfold zone_set_address_range. apply wp_bind. set (before := if 0 <? i then zget (i - 1) else zget i).
  assert (wp before (fun zb s' => s' = s /\ (0 <? i) && (Z.land (z_flags zb) ZONE_VALID =? 0) = false) s) as Hbefore.
  { unfold before. destruct (Z.ltb_spec 0 i) as [H0|H0]; [|by eapply wp_zget; [exact Hz|]]. destruct (Hprev H0) as (z0 & Hz0 & Hv).
    eapply wp_zget; [exact Hz0|]. split; [done|]. cbn [andb]. unfold zvalid in Hv. by apply negb_true_iff in Hv. }
  eapply wp_mono; [exact Hbefore|]. intros zb s' [-> ->]. apply wp_bind. eapply wp_zmod; [exact Hz|]. rewrite NPAGE_mul by lia.
  set (z3 := set_range start (n * PGSZ) n z).
  pose proof (zone_at_zmod s _ i z z3 Hl Hz) as Hz3. pose proof (locks_at_zmod s _ i z z3 Hl Hz eq_refl) as Hl3. pose proof (zstep_zmod s _ i z z3 I Hl Hz) as Hs3.
  set (s3 := with_zones _ s) in *. apply wp_bind. apply (alloc_buffers_spec s3 i z3 n I); [by split|done|exact EI|].
  intros s4 Hrep4 Hs4 Hl4 Eb4. cbn [Z.eqb negb]. apply wp_ret. apply HQ; try done. eapply zstep_trans; [by apply zstep_nk|done].
Qed.

Lemma init_zone_spec s i z n memsz start I (Q : Z * Z -> pmem -> Prop) :
  locks_at s None -> zone_at i s = Some z -> z_bitmap z <> 0 -> is_Some (bitmaps (p_mem s) !! z_bitmap z) -> prev_valid s i ->
  memsz <> 0 -> zone_range (p_boot s) i memsz = Some (start, n * PGSZ) -> zone_room (p_boot s) start n ->
  I = zone_info start (z_bitmap z) (b_phyaddr (p_boot s)) n ->
  (forall s', boot_rep (nk s') i I ∅ -> zstep (nk s) (nk s') i I -> locks_at s' None -> p_boot s' = zone_boot (p_boot s) n -> Q (0, u64 (memsz - 4 * n)) s') ->
  wp (initialize_memory_zone junk i memsz) Q s.
Proof.
  intros Hl Hz Hb0 Hb Hprev Hmem Hrange Hroom EI HQ. pose proof (zone_at_bound _ _ _ _ Hl Hz) as Hi.
  unfold initialize_memory_zone. apply wp_bind. apply (zone_struct_spec s i z I); [done..|by subst I|]. intros s1 Hz1 Hb1 Hs1 Hl1.
  apply wp_bind. apply wp_zone_lock; [done..|]. intros s2 Hr2 Hl2. destruct (relocked_at _ _ _ _ Hr2 Hz1) as (z2 & Hz2 & Eb2).
  destruct (Z.eqb_spec memsz 0); [done|]. assert (zstep s s2 i I) as Hs2 by (eapply zstep_trans; [exact Hs1|by apply zstep_relocked]).
  pose proof (zs_boot _ _ _ _ Hs2) as Eboot. assert (z_bitmap z2 = z_bitmap z /\ z_upages z2 = 0) as [Ez2 Eu2].
  { change (z_bitmap z2) with (z_bitmap (bare z2)). change (z_upages z2) with (z_upages (bare z2)). by rewrite Eb2. }
  apply wp_bind. unfold zone_enumerate. apply wp_bind. eapply wp_zget; [exact Hz2|]. apply wp_bind, wp_get.
  apply wp_bind, wp_assert; [destruct Hl2 as [_ H]; specialize (H i z2 Hz2); by rewrite decide_True in H|].
  apply wp_bind. unfold boot, wp at 1. rewrite Eboot, Hrange. apply wp_bind.
  apply (set_address_spec s2 i z2 n start I); [done|done|done|by rewrite Ez2|by rewrite Ez2; destruct Hr2 as [-> _]|by eapply prev_valid_step|by rewrite Eboot|by rewrite Ez2, Eboot|].
  intros s4 Hrep4 Hs4 Hl4 Eb4. cbn [Z.eqb negb].
  destruct (zr_at _ _ _ _ _ Hrep4) as (z4 & Hz4 & Hzi4). apply wp_bind. eapply wp_zget; [exact Hz4|]. apply wp_ret. rewrite (zi_size _ _ _ Hzi4).
  apply wp_bind. apply wp_zone_unlock; [done|done|]. intros s5 Hr5 Hl5. apply wp_ret. cbn [fst snd Z.eqb].
  assert (i_npages (res ∅ I) * PGSZ = 4 * n * 1024) as -> by (subst I; cbn; unfold PGSZ; lia).
  change (B2KiB (4 * n * 1024)) with (4 * n * 1024 / 1024). rewrite Z.div_mul by done.
  assert (relocked (nk s4) (nk s5)) as Hr5' by (destruct Hr5 as (? & ? & ? & ? & ?); by split_and!).
  apply HQ; [by eapply zone_rep_relocked| |done|].
  - eapply zstep_trans; [by apply zstep_nk|]. eapply zstep_trans; [exact Hs4|]. by apply zstep_relocked.
  - destruct Hr5 as (_ & _ & _ & -> & _). by rewrite Eb4, Eboot.
Qed.

(** Without memory left, a zone stays invalid. *)
Lemma init_zone_none s i z I (Q : Z * Z -> pmem -> Prop) :
  locks_at s None -> zone_at i s = Some z -> is_Some (bitmaps (p_mem s) !! z_bitmap z) -> i_bitmap I = z_bitmap z ->
  (forall s' z', zone_at i s' = Some z' -> zvalid z' = false -> zstep s s' i I -> locks_at s' None -> Q (0, 0) s') ->
  wp (initialize_memory_zone junk i 0) Q s.
Proof.
  intros Hl Hz Hb EI HQ. pose proof (zone_at_bound _ _ _ _ Hl Hz) as Hi. unfold initialize_memory_zone.
  apply wp_bind. apply (zone_struct_spec s i z I); [done..|]. intros s1 Hz1 Hb1 Hs1 Hl1. apply wp_bind. apply wp_zone_lock; [done..|]. intros s2 Hr2 Hl2.
  cbn [Z.eqb]. apply wp_bind. apply wp_zone_unlock; [done..|]. intros s3 Hr3 Hl3. apply wp_ret.
  pose proof (relocked_trans _ _ _ Hr2 Hr3) as Hr. destruct (relocked_at _ _ _ _ Hr Hz1) as (z3 & Hz3 & Eb3). apply (HQ s3 z3); try done.
  - by rewrite <- zvalid_bare, Eb3.
  - eapply zstep_trans; [exact Hs1|by apply zstep_relocked].
Qed.
End Setup.

(** ** All zones: at most 2 GiB of memory

    Zones DMA and NORM take all of it; HOLE and HIGH stay invalid. *)
Definition DMA_FRAMES : Z := 4096.
Definition boot_zones (b : bootinfo_t) n : bootinfo_t := zone_boot (zone_boot b DMA_FRAMES) n.
Definition boot_layout (b : bootinfo_t) (bm : Z -> Z) n : layout := fun i =>
  match i with
  | 0 => Some (zone_info 0 (bm 0) (b_phyaddr b) DMA_FRAMES)
  | 1 => Some (zone_info (MiB 16) (bm 1) (b_phyaddr (zone_boot b DMA_FRAMES)) n)
  | _ => None
  end.

(** Zones from [i] on are as the loader left them; their bitmaps are at [bm]. *)
Definition slots s (bm : Z -> Z) i : Prop :=
  forall j, i <= j < 4 -> exists z, zone_at j s = Some z /\ z_bitmap z = bm j /\ bm j <> 0 /\ is_Some (bitmaps (p_mem s) !! bm j).
Definition distinct (bm : Z -> Z) : Prop := forall i j, 0 <= i < 4 -> 0 <= j < 4 -> i <> j -> bm i <> bm j.
Lemma slots_step s s' bm i I : slots s bm i -> distinct bm -> 0 <= i < 4 -> i_bitmap I = bm i -> zstep (nk s) (nk s') i I -> slots s' bm (i + 1).
Proof.
  intros Hs Hd Hi EI [_ _ A3 A4 _ _] j Hj. destruct (Hs j ltac:(lia)) as (z & Hz & Ez & Hb0 & Hb). specialize (A3 j ltac:(lia)).
  change (zone_at j (nk s')) with (zone_at j s') in A3. change (zone_at j (nk s)) with (zone_at j s) in A3. rewrite Hz in A3.
  destruct (zone_at j s') as [z'|]; [|done]. apply (inj Some) in A3. exists z'. split_and!; [done| |done|].
  - change (z_bitmap z') with (z_bitmap (bare z')). rewrite A3. exact Ez.
  - specialize (A4 (bm j)). cbn [nk with_boot p_mem] in A4. rewrite A4; [done|]. rewrite EI. apply Hd; lia.
Qed.

Definition void_info (bm : Z) : zinfo := mkInfo 0 bm 0 0 0 ∅.
Lemma apart_void bm I : i_bitmap I <> bm -> i_map I <> 0 -> info_ok I -> apart (void_info bm) I.
Proof. intros H1 H2 [_ [H3 _] [H4 _]]. unfold apart, frame, sizeof_page. cbn. split_and!; [congruence|congruence|left; lia|left; lia]. Qed.
Lemma zone_info_map b start bm n : zone_room b start n -> i_map (zone_info start bm (b_phyaddr b) n) <> 0.
Proof.
  intros [(Hn & _) Hb [Hu Hr]]. destruct (zone_plan_of (b_phyaddr b) n _ Hn (bt_phyaddr _ _ Hb) Hr Hu) as [_ _ _ _ _ (H & _)]. exact H.
Qed.
Lemma zones_apart b bm n : zone_room b 0 DMA_FRAMES -> zone_room (zone_boot b DMA_FRAMES) (MiB 16) n -> bm 0 <> bm 1 ->
  apart (zone_info 0 (bm 0) (b_phyaddr b) DMA_FRAMES) (zone_info (MiB 16) (bm 1) (b_phyaddr (zone_boot b DMA_FRAMES)) n).
Proof.
  intros [(Hn & _) Hb [Hu Hr]] [(Hn' & _) Hb' [Hu' Hr']] Hne. pose proof (bt_phyaddr _ _ Hb) as Hp0. rewrite zone_boot_eq in *. cbn [grown b_phyaddr] in *.
  destruct (zone_plan_of _ _ _ Hn Hp0 Hr Hu) as [_ _ [P1 P2] (P3 & P4 & _) [P5 P6] (_ & _ & P7 & _)].
  set (p := b_phyaddr b) in *. set (p' := pages_at p DMA_FRAMES + pages_len DMA_FRAMES) in *.
  destruct (zone_plan_of p' n _ Hn' (bt_phyaddr _ _ Hb') Hr' Hu') as [_ _ [Q1 Q2] (Q3 & Q4 & _) [Q5 Q6] (_ & _ & Q7 & _)].
  assert (two64 = 18446744073709551616) as E64 by done. change (2 ^ 46) with 70368744177664 in *. assert (sizeof_page * DMA_FRAMES <= p' - pages_at p DMA_FRAMES) as Hlen by (unfold p', sizeof_page in *; lia).
  assert (VMA_BASE = 18446603336221196288) as EV by done. pose proof (bt_phyaddr _ _ Hb' : 0 <= p') as Hp0'. unfold apart, frame, zone_info. cbn [i_bitmap i_map i_pages i_npages i_start].
  fold (map_at p) (map_at p') (map_len DMA_FRAMES) (map_len n). fold (pages_at p DMA_FRAMES) (pages_at p' n). split_and!; [done| | |].
  - destruct (V2HI_low (map_at p)) as [V1 _]; [lia|change (2 ^ 47) with 140737488355328; lia|].
    destruct (V2HI_low (map_at p')) as [V2 _]; [lia|change (2 ^ 47) with 140737488355328; lia|]. rewrite V1, V2. unfold sizeof_page, DMA_FRAMES in *. lia.
  - left. rewrite P7, Q7. unfold sizeof_page in *. lia.
  - left. by vm_compute.
Qed.

(** What the boot loader leaves: unlocked zones with room for their bitmaps, up to
    2 GiB of memory in whole frames, a memory map whose regions lie inside zones and
    cover the kernel image. *)
Record boot_ready s (bm : Z -> Z) n : Prop := {
  br_locks : locks_at s None;
  br_slots : slots s bm 0;
  br_distinct : distinct bm;
  br_total : b_total (p_boot s) = M2KiB 16 + 4 * n /\ 4 * n <= M2KiB 2032;
  br_room : zone_room (p_boot s) 0 DMA_FRAMES /\ zone_room (zone_boot (p_boot s) DMA_FRAMES) (MiB 16) n;
  br_maps : Forall (region_fits (boot_layout (p_boot s) bm n)) (b_mmap (boot_zones (p_boot s) n));
  br_kernel : forall i I k, boot_layout (p_boot s) bm n i = Some I -> 0 <= k < i_npages I ->
    ncover (b_mmap (boot_zones (p_boot s) n)) (frame I k) = 0 -> kernel_clear (p_boot s) (frame I k)
}.

Lemma boot_own_zones s1 s2 s3 s4 bm L I0 I1 :
  distinct bm -> L 0 = Some I0 -> L 1 = Some I1 -> L 2 = None -> L 3 = None ->
  i_bitmap I0 = bm 0 -> i_bitmap I1 = bm 1 -> i_map I0 <> 0 -> i_map I1 <> 0 -> apart I0 I1 ->
  boot_rep (nk s1) 0 I0 ∅ -> zstep (nk s1) (nk s2) 1 I1 -> boot_rep (nk s2) 1 I1 ∅ ->
  zstep s2 s3 2 (void_info (bm 2)) -> (exists z, zone_at 2 s3 = Some z /\ zvalid z = false) ->
  zstep s3 s4 3 (void_info (bm 3)) -> (exists z, zone_at 3 s4 = Some z /\ zvalid z = false) -> locks_at s4 None ->
  boot_own (nk s4) L (fun _ => ∅).
Proof.
  intros Hd L0 L1 L2 L3 B0 B1 M0 M1 Hap R0 S1 R1 S2 (z2 & Hz2 & V2) S3 HV3 Hl. split; [|exact Hl].
  apply zstep_nk in S2, S3. pose proof (zr_info _ _ _ _ _ R0) as O0. pose proof (zr_info _ _ _ _ _ R1) as O1.
  assert (forall j I, j = 2 \/ j = 3 -> i_bitmap I = bm 0 \/ i_bitmap I = bm 1 -> i_map I <> 0 -> info_ok (res ∅ I) -> apart (void_info (bm j)) (res ∅ I)) as Hvoid.
  { intros j I Hj HI HM HO. apply apart_void; try done. cbn. destruct Hj as [->| ->], HI as [->| ->]; apply Hd; lia. }
  assert (apart I1 (res ∅ I0)) as Hap'.
  { destruct Hap as (A1 & A2 & A3 & A4). split_and!; [done..| |]; [destruct A3; [by right|by left]|]. destruct A4; [by right|by left]. }
  split.
  - intros i Hi. unfold resL, resA. assert (i = 0 \/ i = 1 \/ i = 2 \/ i = 3) as [->|[->|[->| ->]]] by lia.
    + rewrite L0. cbn. eapply (zone_rep_step (nk s3) (nk s4) 3); [apply (Hvoid 3 I0); auto|done|exact S3|]. eapply (zone_rep_step (nk s2) (nk s3) 2); [apply (Hvoid 2 I0); auto|done|exact S2|].
      eapply (zone_rep_step _ _ 1 0 I1); [exact Hap'|done|exact S1|exact R0].
    + rewrite L1. cbn. eapply (zone_rep_step (nk s3) (nk s4) 3); [apply (Hvoid 3 I1); auto|done|exact S3|]. eapply (zone_rep_step (nk s2) (nk s3) 2); [apply (Hvoid 2 I1); auto|done|exact S2|exact R1].
    + rewrite L2. cbn. pose proof (zs_zones _ _ _ _ S3 2 ltac:(lia)) as E. change (zone_at 2 (nk ?x)) with (zone_at 2 x) in E. rewrite Hz2 in E.
      destruct (zone_at 2 s4) as [z|] eqn:Ez; [|done]. apply (inj Some) in E. exists z. split; [exact Ez|]. by rewrite <- zvalid_bare, E, zvalid_bare.
    + rewrite L3. exact HV3.
  - intros i j I J Hi Hj Hij Ei Ej. unfold resL in *.
    assert (i = 0 \/ i = 1 \/ i = 2 \/ i = 3) as [->|[->|[->| ->]]] by lia; rewrite ?L0, ?L1, ?L2, ?L3 in Ei; try done;
    assert (j = 0 \/ j = 1 \/ j = 2 \/ j = 3) as [->|[->|[->| ->]]] by lia; rewrite ?L0, ?L1, ?L2, ?L3 in Ej; try done; try lia;
    cbn in Ei, Ej; injection Ei as <-; injection Ej as <-; [exact Hap|exact Hap'].
Qed.

Section ZonesInit.
Context (junk : Z -> Z).

Lemma prev_valid_0 s : prev_valid s 0.
Proof. intros H. lia. Qed.

Lemma init_zones_spec s bm n (Q : Z -> pmem -> Prop) :
  boot_ready s bm n ->
  (forall s', boot_own (nk s') (boot_layout (p_boot s) bm n) (fun _ => ∅) -> p_boot s' = boot_zones (p_boot s) n -> Q 0 s') ->
  wp (init_zones junk 4 0 (b_total (p_boot s))) Q s.
Proof.
  intros [Hl Hs Hd [Ht Hn] [R0 R1] _ _] HQ. set (b := p_boot s) in *.
  pose proof R0 as [(N0 & _) _ _]. pose proof R1 as [(N1 & _) _ _].
  assert (M2KiB 16 = 16384 /\ M2KiB 2032 = 2080768 /\ MiB 16 = DMA_FRAMES * PGSZ /\ two64 = 18446744073709551616) as (E1 & E2 & E3 & E64) by done.
  rewrite E1, E2 in *. set (I0 := zone_info 0 (bm 0) (b_phyaddr b) DMA_FRAMES). set (I1 := zone_info (MiB 16) (bm 1) (b_phyaddr (zone_boot b DMA_FRAMES)) n).
  destruct (Hs 0 ltac:(lia)) as (z0 & Hz0 & Ez0 & Hb0 & Hm0). cbn [init_zones].
  apply wp_bind. eapply (init_zone_spec junk s 0 z0 DMA_FRAMES _ 0 I0); [done|done|by rewrite Ez0|by rewrite Ez0|apply prev_valid_0|lia| |done|by rewrite Ez0|].
  { fold b. unfold zone_range. rewrite Ht, E1. destruct (Z.ltb_spec 16384 (16384 + 4 * n)); [|lia]. by rewrite E3. }
  intros s1 Rep1 S1 Hl1 B1. cbn [fst snd Z.eqb negb]. fold b in B1. rewrite Ht. replace (16384 + 4 * n - 4 * DMA_FRAMES) with (4 * n) by (unfold DMA_FRAMES; lia).
  rewrite (u64_small (4 * n)) by (unfold is_u64; lia). change (0 + 1) with 1. change (1 + 1) with 2.
  pose proof (slots_step s s1 bm 0 I0 Hs Hd ltac:(lia) eq_refl S1) as Hs1. cbn [Z.add] in Hs1. destruct (Hs1 1 ltac:(lia)) as (z1 & Hz1 & Ez1 & Hb1 & Hm1).
  cbn [init_zones]. apply wp_bind. eapply (init_zone_spec junk s1 1 z1 n (4 * n) (MiB 16) I1); [done|done|by rewrite Ez1|by rewrite Ez1| |lia| |by rewrite B1|by rewrite Ez1, B1|].
  { intros _. destruct (zr_at _ _ _ _ _ Rep1) as (y & Hy & Hyi). exists y. split; [exact Hy|apply Hyi]. }
  { unfold zone_range. rewrite E2. destruct (Z.ltb_spec 2080768 (4 * n)); [lia|]. unfold KiB. rewrite u64_small by (unfold is_u64; lia).
    do 2 f_equal. unfold PGSZ. lia. }
  intros s2 Rep2 S2 Hl2 B2. cbn [fst snd Z.eqb negb]. rewrite Z.sub_diag. change (u64 0) with 0. rewrite B1 in B2.
  pose proof (slots_step s1 s2 bm 1 I1 Hs1 Hd ltac:(lia) eq_refl S2) as Hs2. cbn [Z.add Pos.add] in Hs2. destruct (Hs2 2 ltac:(lia)) as (z2 & Hz2 & Ez2 & Hb2 & Hm2).
  cbn [init_zones]. apply wp_bind. eapply (init_zone_none junk s2 2 z2 (void_info (bm 2))); [done|done|by rewrite Ez2|by rewrite Ez2|].
  intros s3 y3 Hy3 V3 S3 Hl3. cbn [fst snd Z.eqb negb]. change (2 + 1) with 3.
  pose proof (slots_step s2 s3 bm 2 (void_info (bm 2)) Hs2 Hd ltac:(lia) eq_refl (zstep_nk _ _ _ _ S3)) as Hs3. cbn [Z.add Pos.add] in Hs3.
  destruct (Hs3 3 ltac:(lia)) as (z3 & Hz3 & Ez3 & Hb3 & Hm3).
  cbn [init_zones]. apply wp_bind. eapply (init_zone_none junk s3 3 z3 (void_info (bm 3))); [done|done|by rewrite Ez3|by rewrite Ez3|].
  intros s4 y4 Hy4 V4 S4 Hl4. cbn [fst snd Z.eqb negb]. cbn [init_zones]. apply wp_ret. apply HQ.
  - apply (boot_own_zones s1 s2 s3 s4 bm _ I0 I1 Hd); try done; [apply (zone_info_map b 0 (bm 0) DMA_FRAMES R0)|apply (zone_info_map _ (MiB 16) (bm 1) n R1)|apply (zones_apart b bm n R0 R1); apply Hd; lia|by exists y3|by exists y4].
  - rewrite (zs_boot _ _ _ _ S4), (zs_boot _ _ _ _ S3). exact B2.
Qed.

(** The number of frames reserved in a zone, and the state after [zones_init]. *)
Lemma pmm_own_of_boot s L N :
  boot_own (nk s) L N -> (forall i I k, L i = Some I -> 0 <= k < i_npages I -> N i !! k = None -> kernel_clear (p_boot s) (frame I k)) ->
  pmm_own s (resL L N) (resA N).
Proof.
  intros [[H1 H2] Hl] Hk. split; [|exact Hl]. split; [|done]. intros i Hi. specialize (H1 i Hi). unfold resL in *. destruct (L i) as [I|] eqn:E; [|exact H1].
  cbn in *. destruct H1 as [A1 A2 A3 A4 A5 A6 A7]. split; try done. intros k Hk1 Hk2. apply (Hk i I k E Hk1). cbn in Hk2. by apply not_elem_of_dom.
Qed.
Lemma ncover_nonneg l a : 0 <= ncover l a.
Proof. unfold ncover. lia. Qed.

Lemma zones_init_spec s bm n :
  boot_ready s bm n ->
  let L := boot_layout (p_boot s) bm n in
  let b' := boot_zones (p_boot s) n in
  wp (zones_init junk) (fun r s' => r = 0 /\ p_boot s' = set_watermark BOOT_ALLOC_WATERMARK b' /\ exists N, pmm_own s' (resL L N) (resA N) /\
    forall i I k, L i = Some I -> 0 <= k < i_npages I -> default 0 (N i !! k) = ncover (b_mmap b') (frame I k)) s.
Proof.
  intros Hr L b'. unfold zones_init. apply wp_bind. unfold boot, wp at 1. apply wp_bind. apply (init_zones_spec s bm n); [done|].
  intros s1 Hown B1. cbn [Z.eqb negb]. apply wp_bind. unfold boot, wp at 1. rewrite B1. fold L in Hown. fold b' in B1. fold b'.
  pose proof Hr as [_ _ _ _ [R0 R1] Hmaps Hker]. fold L b' in Hmaps. fold L b' in Hker.
  assert (Z.of_nat (length (b_mmap b')) <= NMMAP) as Hlen.
  { destruct R1 as [_ [_ _ _ Hm] _]. revert Hm. unfold b', boot_zones. generalize (zone_boot (p_boot s) DMA_FRAMES). intros b Hm.
    rewrite zone_boot_eq. cbn [grown b_mmap]. rewrite !length_app. cbn. lia. }
  apply wp_bind. apply wp_bootless; [apply _|]. eapply wp_mono; [apply (process_maps_spec (b_mmap b') (nk s1) L (fun _ => ∅) Hown Hmaps)|].
  { intros i k. rewrite lookup_empty. unfold NMMAP in Hlen. cbn [default]. assert (two64 = 18446744073709551616) as -> by done. lia. }
  intros r t (-> & N & Hown' & Hmark & _) s2 E2 B2. subst t. cbn [Z.eqb negb]. apply wp_bind. unfold wp at 1. apply wp_ret.
  rewrite B1 in B2. split; [done|]. split; [cbn; by rewrite B2|]. exists N.
  assert (forall i I k, L i = Some I -> 0 <= k < i_npages I -> default 0 (N i !! k) = ncover (b_mmap b') (frame I k)) as Hcount.
  { intros i I k E Hk. rewrite (Hmark i I k); [by rewrite lookup_empty| |done|done]. unfold L, boot_layout in E. destruct i as [|[p|p|]|p]; cbn in E; try discriminate; lia. }
  split; [|exact Hcount]. apply pmm_own_of_boot; [exact Hown'|]. intros i I k E Hk Hnone. specialize (Hcount i I k E Hk). rewrite Hnone in Hcount.
  specialize (Hker i I k E Hk (eq_sym Hcount)). unfold kernel_clear, in_kernel in *. cbn [p_boot with_boot]. rewrite B2. exact Hker.
Qed.
End ZonesInit.
