(* ===== verification/PmmProps.v ===== *)
(** * Theorems on the physical memory manager

    Sequences of calls of the page allocator behave as operations on reference
    counts; allocation hands out free frames only; what freeing and dropping
    references gives back, and what it does not. *)
From S2P Require Import Prelude Errno Spinlock KMem Queue Sample Bitmap BitmapFacts BitmapSpec Pmm PmmFacts PmmAlloc PmmInit PmmBoot PmmSetup.

Implicit Types (s : pmem) (C : gmap Z Z) (i idx k n : Z) (I : zinfo) (L : layout) (A : counts).

Section Machine.
Context {MT : Mounting}.

(** ** The abstract machine

    A frame is named by its zone and its index there. *)
Inductive p_op :=
  | PAlloc (gfp order : Z) | PFree (i idx order : Z) | PGet (i idx : Z) | PPut (i idx : Z)
  | PGetAddr (i idx : Z) | PPutAddr (i idx : Z) | PCount (i idx : Z).
Definition p_res : Type := Z * option Z.

Definition in_use L A i idx : Prop := 0 <= i < 4 /\ exists J, L i = Some J /\ is_Some ((A i).1 !! idx) /\ idx ∉ i_reserved J.
Definition can_get L A i idx : Prop := in_use L A i idx /\ default 0 ((A i).1 !! idx) + 1 < two64.

(** When a call is allowed: the frames it names are in use and not reserved; their
    counts do not overflow. *)
Definition p_legal L A (o : p_op) : Prop :=
  match o with
  | PAlloc gfp order => 0 <= order < 64 /\ 0 <= GFP_WHENCE gfp <= 4
  | PFree i idx order => 0 <= order < 64 /\ exists J, L i = Some J /\ 0 <= idx /\ idx + BS order <= i_npages J /\
      forall k, idx <= k < idx + BS order -> in_use L A i k
  | PGet i idx => can_get L A i idx
  | PPut i idx => in_use L A i idx
  | PGetAddr i idx => can_get L A i idx /\ exists J, L i = Some J /\ frame J idx <> 0
  | PPutAddr i idx => in_use L A i idx /\ exists J, L i = Some J /\ frame J idx <> 0
  | PCount i idx => 0 <= i < 4 /\ exists J, L i = Some J /\ 0 <= idx < i_npages J
  end.

Definition p_step L A (o : p_op) : p_res * counts :=
  match o with
  | PAlloc gfp order => let r := a_alloc L A (gfp_to_zone_index gfp) (BS order) in ((r.1.1, fst <$> r.1.2), r.2)
  | PFree i idx order =>
      (** a run at the end of its zone stays allocated *)
      ((0, None), if default 0 (i_npages <$> L i) =? idx + BS order then A
                  else aupd A i (run_dec (Z.to_nat (BS order)) (A i).1 (A i).2 idx))
  | PGet i idx | PGetAddr i idx => ((0, None), aupd A i (<[idx := default 0 ((A i).1 !! idx) + 1]> (A i).1, (A i).2))
  | PPut i idx | PPutAddr i idx => ((0, None), aupd A i (cnt_dec (A i).1 idx, (A i).2))
  | PCount i idx => ((0, Some (default 0 ((A i).1 !! idx))), A)
  end.
Fixpoint p_steps L A (os : list p_op) : list p_res * counts :=
  match os with
  | [] => ([], A)
  | o :: os => let '(r, A1) := p_step L A o in let '(rs, A2) := p_steps L A1 os in (r :: rs, A2)
  end.
Fixpoint p_all_legal L A (os : list p_op) : Prop :=
  match os with
  | [] => True
  | o :: os => p_legal L A o /\ p_all_legal L (p_step L A o).2 os
  end.

(** ** The calls *)
Definition the_pg L i idx : Z := default 0 ((fun J => pg J idx) <$> L i).
Definition the_frame L i idx : Z := default 0 ((fun J => frame J idx) <$> L i).
Definition p_exec L (o : p_op) : PM p_res :=
  match o with
  | PAlloc gfp order => page_alloc_n gfp order
  | PFree i idx order => do! page_free_n (the_pg L i idx) order in ret! (0, None)
  | PGet i idx => let! r := page_get (the_pg L i idx) in ret! (r, None)
  | PPut i idx => do! page_put (the_pg L i idx) in ret! (0, None)
  | PGetAddr i idx => let! r := __page_get (the_frame L i idx) in ret! (r, None)
  | PPutAddr i idx => let! r := __page_put (the_frame L i idx) in ret! (r, None)
  | PCount i idx => page_getcount (the_pg L i idx) true
  end.
Fixpoint p_run L (os : list p_op) : PM (list p_res) :=
  match os with
  | [] => ret! []
  | o :: os => let! r := p_exec L o in let! rs := p_run L os in ret! (r :: rs)
  end.

Lemma the_pg_eq L i I idx : L i = Some I -> the_pg L i idx = pg I idx.
Proof. unfold the_pg. by intros ->. Qed.
Lemma the_frame_eq L i I idx : L i = Some I -> the_frame L i idx = frame I idx.
Proof. unfold the_frame. by intros ->. Qed.

Definition p_sim s L A (o : p_op) (r : p_res) s' : Prop :=
  r = (p_step L A o).1 /\ pmm_own s' L (p_step L A o).2 /\ p_boot s' = p_boot s.

Lemma p_exec_free s L A i idx order :
  pmm_own s L A -> p_legal L A (PFree i idx order) -> wp (p_exec L (PFree i idx order)) (p_sim s L A (PFree i idx order)) s.
Proof.
  intros Hown (Ho & I & E & H0 & Hle & Hrun). destruct (order_range order Ho) as (Hn & _ & _).
  destruct (Hrun idx ltac:(lia)) as (Hi & J & EJ & _ & Hres). rewrite E in EJ. injection EJ as <-.
  cbn [p_exec]. rewrite (the_pg_eq _ _ _ _ E). apply wp_bind. unfold p_sim. cbn [p_step fst snd]. rewrite E. cbn [fmap option_fmap option_map default id].
  destruct (Z.eqb_spec (i_npages I) (idx + BS order)) as [Heq|Hne].
  - eapply wp_mono; [eapply page_free_last_spec; try done; lia|]. intros [] s' (Hown' & _ & Hb). apply wp_ret. by split_and!.
  - eapply wp_mono; [eapply page_free_n_spec; try done; [lia|]|].
    + intros k Hk. destruct (Hrun k Hk) as (_ & J & EJ & Hs & Hr). rewrite E in EJ. by injection EJ as <-.
    + intros [] s' (Hown' & _ & Hb). apply wp_ret. by split_and!.
Qed.

Lemma p_exec_sim s L A o : pmm_own s L A -> mount_ok (p_boot s) -> p_legal L A o -> wp (p_exec L o) (p_sim s L A o) s.
Proof.
  intros Hown Hm Hlegal. destruct o as [gfp order|i idx order|i idx|i idx|i idx|i idx|i idx].
  - destruct Hlegal as [Ho Hg]. cbn [p_exec]. unfold page_alloc_n. apply wp_bind.
    eapply wp_mono; [by apply (do_page_alloc_spec s L A gfp order true false)|]. intros r s' (-> & Hown' & Hb & _). apply wp_ret. by split_and!.
  - by apply p_exec_free.
  - destruct Hlegal as [(Hi & I & E & [c Hc] & Hres) Hlt]. cbn [p_exec]. rewrite (the_pg_eq _ _ _ _ E). unfold p_sim. cbn [p_step fst snd].
    rewrite Hc in Hlt |- *. cbn [default] in *. apply wp_bind. eapply wp_mono; [by eapply page_get_spec|]. intros r s' (-> & Hown' & _ & Hb). apply wp_ret. by split_and!.
  - destruct Hlegal as (Hi & I & E & [c Hc] & Hres). cbn [p_exec]. rewrite (the_pg_eq _ _ _ _ E). apply wp_bind.
    eapply wp_mono; [by eapply page_put_spec|]. intros [] s' (Hown' & _ & Hb). apply wp_ret. by split_and!.
  - destruct Hlegal as [[(Hi & I & E & [c Hc] & Hres) Hlt] (J & EJ & H0)]. rewrite E in EJ. injection EJ as <-.
    cbn [p_exec]. rewrite (the_frame_eq _ _ _ _ E). unfold p_sim. cbn [p_step fst snd].
    rewrite Hc in Hlt |- *. cbn [default] in *. apply wp_bind. eapply wp_mono; [by eapply page_get_addr_spec|]. intros r s' (-> & Hown' & _ & Hb). apply wp_ret. by split_and!.
  - destruct Hlegal as [(Hi & I & E & [c Hc] & Hres) (J & EJ & H0)]. rewrite E in EJ. injection EJ as <-.
    cbn [p_exec]. rewrite (the_frame_eq _ _ _ _ E). apply wp_bind.
    eapply wp_mono; [by eapply page_put_addr_spec|]. intros r s' (-> & Hown' & _ & Hb). apply wp_ret. by split_and!.
  - destruct Hlegal as (Hi & I & E & Hidx). cbn [p_exec]. rewrite (the_pg_eq _ _ _ _ E).
    eapply wp_mono; [by eapply page_getcount_spec|]. intros r s' (-> & Hown' & _ & Hb). by split_and!.
Qed.

End Machine.

(** ** A small memory: eight frames from 16 MiB on, the other zones not valid *)
Definition flat_mount : Mounting := {| arch_mount p := (0, p) |}.
Definition sample_info : zinfo := mkInfo (MiB 16) 100 110 1000 8 ∅.
Definition sample_layout : layout := fun i => if decide (i = 1) then Some sample_info else None.
Definition no_zone : zone_t := mkZone 0 0 90 0 0 0 0 free_lock.
Definition sample_zone : zone_t := mkZone (8 * PGSZ) (MiB 16) 100 1000 8 0 1 free_lock.
Definition sample_page : page_t := mkPage 0 0 0 0 PGWM_NORM_POOL.
Definition sample_pages : gmap Z page_t := list_to_map (map (fun k => (1000 + 40 * k, sample_page)) (seqZ 0 8)).
Definition sample_boot : bootinfo_t := mkBoot 0 0 0 0 0 0 [] 0 0.
Definition sample_pmm : pmem :=
  mkPmem (h_set (T:=bitmap_t) {[100 := mkBitmap 110 8 free_lock]} (h_set (T:=list Z) {[110 := [0]]} idle))
    [no_zone; sample_zone; no_zone; no_zone] sample_pages (fun _ => 255) sample_boot.
Definition no_counts : counts := fun _ => (∅, 0).

Lemma sample_kernel_clear a : 0 <= a -> kernel_clear sample_boot a.
Proof.
  intros Ha. unfold kernel_clear, OVERLAPS, in_kernel, sample_boot. cbn [b_kern_base b_kern_size].
  change (u64 (0 + 0)) with 0. destruct (Z.ltb_spec a 0); [lia|]. rewrite !andb_false_r. split_and!; try done.
  destruct (Z.ltb_spec (V2HI a) 0); [|by rewrite andb_false_r]. pose proof (u64_range (a + VMA_BASE)). unfold V2HI, is_u64 in *. lia.
Qed.
Lemma sample_mount_ok : mount_ok (MT := flat_mount) sample_boot.
Proof.
  intros p. split; [done|]. unfold in_kernel, sample_boot. cbn. change (u64 (0 + 0)) with 0.
  destruct (Z.leb_spec 0 p), (Z.ltb_spec p 0); done || lia.
Qed.
Lemma sample_rep : zone_rep sample_pmm 1 sample_info ∅ 0.
Proof.
  split.
  - exists sample_zone. split; [done|]. by split.
  - split; unfold sample_info, sizeof_page, PGSZ; cbn; vm_compute; split; discriminate || reflexivity.
  - exists [0]. split.
    + exists free_lock. split; [done|]. split; try done.
      * by repeat constructor.
      * intros k Hk. unfold bit_at. cbn in Hk. destruct (Z.to_nat (k / 64)) eqn:E; [|done]. cbn. apply Z.testbit_0_l.
    + intros k. rewrite dom_empty_L, elem_of_empty. split; [done|]. intros [Hk Hb]. unfold bit_at in Hb. cbn in Hk.
      rewrite Z.div_small in Hb by lia. cbn in Hb. by destruct (k mod 64).
  - intros idx Hidx. cbn in Hidx. exists sample_page. split; [|done].
    assert (idx = 0 \/ idx = 1 \/ idx = 2 \/ idx = 3 \/ idx = 4 \/ idx = 5 \/ idx = 6 \/ idx = 7) as [->|[->|[->|[->|[->|[->|[->| ->]]]]]]] by lia;
      vm_compute; reflexivity.
  - by intros idx c Hc.
  - intros idx Hidx _. apply sample_kernel_clear. unfold frame, sample_info, PGSZ. cbn. change (MiB 16) with 16777216. lia.
  - intros idx Hin. by apply elem_of_empty in Hin.
Qed.
Lemma sample_own : pmm_own sample_pmm sample_layout no_counts.
Proof.
  split; [split|split].
  - intros i Hi. unfold sample_layout. destruct (decide (i = 1)) as [->|Hne]; [apply sample_rep|].
    exists no_zone. split; [|done]. assert (i = 0 \/ i = 2 \/ i = 3) as [->|[->| ->]] by lia; done.
  - unfold sample_layout. intros i j I J Hi Hj Hne. destruct (decide (i = 1)), (decide (j = 1)); try done. lia.
  - done.
  - intros j z Hz. rewrite decide_False by done. apply zone_at_eq in Hz as [_ Hz]. cbn in Hz.
    destruct (Z.to_nat j) as [|[|[|[|?]]]]; cbn in Hz; try discriminate; by injection Hz as <-.
Qed.

(** Two frames are allocated, one is shared and dropped, both are released. *)
Definition sample_pops : list p_op :=
  [PAlloc GFP_NORMAL 1; PCount 1 1; PGet 1 1; PPutAddr 1 1; PCount 1 1; PFree 1 0 1; PAlloc GFP_NORMAL 2; PCount 1 3].
Lemma sample_in_use L A i idx J : 0 <= i < 4 -> L i = Some J -> i_reserved J = ∅ -> is_Some ((A i).1 !! idx) -> in_use L A i idx.
Proof. intros Hi E Er Hs. split; [done|]. exists J. rewrite Er. split_and!; [done..|apply not_elem_of_empty]. Qed.
Ltac pops_count := split; [lia|exists sample_info; split; [reflexivity|cbn; lia]].
Ltac pops_used := apply (sample_in_use _ _ _ _ sample_info); [lia|reflexivity|reflexivity|vm_compute; eexists; reflexivity].
Lemma sample_pops_legal : p_all_legal sample_layout no_counts sample_pops.
Proof.
  unfold sample_pops. cbn [p_all_legal]. split_and!; [..|done].
  - split; [lia|vm_compute; split; discriminate].
  - pops_count.
  - split; [pops_used|vm_compute; reflexivity].
  - split; [pops_used|]. exists sample_info. split; [reflexivity|vm_compute; discriminate].
  - pops_count.
  - split; [lia|]. exists sample_info. split_and!; [reflexivity|lia|vm_compute; discriminate|]. change (BS 1) with 2. intros k Hk.
    assert (k = 0 \/ k = 1) as [->| ->] by lia; pops_used.
  - split; [lia|vm_compute; split; discriminate].
  - pops_count.
Qed.

(** ** Allocation *)


(** C25: a run of frames that is allocated and then freed is free again, every count
    and the number of used pages are what they were, unless the run ends with its
    zone. *)
Theorem page_alloc_free_roundtrip {MT : Mounting} s L A gfp order I idx :
  pmm_own s L A -> mount_ok (p_boot s) -> 0 <= order < 64 -> 0 <= GFP_WHENCE gfp <= 4 -> L (gfp_to_zone_index gfp) = Some I ->
  0 <= (A (gfp_to_zone_index gfp)).2 -> (A (gfp_to_zone_index gfp)).2 + 2 ^ order < two64 ->
  find_run (i_npages I) (A (gfp_to_zone_index gfp)).1 (2 ^ order) = Some idx -> idx + 2 ^ order <> i_npages I ->
  wp (let! r := page_alloc_n gfp order in do! page_free_n (default 0 r.2) order in ret! r.1)
    (fun err s' => err = 0 /\ pmm_own s' L A) s.
Proof.
  intros Hown Hm Ho Hg E Hu0 Hu Hf Hend. set (i := gfp_to_zone_index gfp) in *. destruct (order_range order Ho) as (Hn & En & _).
  rewrite <- En in *. destruct (find_run_Some _ _ _ _ Hn Hf) as (F1 & F2 & F3 & _).
  unfold page_alloc_n. apply wp_bind, wp_bind. eapply wp_mono; [by apply (do_page_alloc_spec s L A gfp order true false)|].
  fold i. intros r s1 (-> & Hown1 & Hb & _). revert Hown1. unfold a_alloc. rewrite E.
  destruct (Z.ltb_spec (i_npages I) (BS order)); [lia|]. rewrite Hf. cbn [fst snd]. intros Hown1. apply wp_ret. cbn [snd fmap option_fmap option_map default].
  apply wp_bind. assert (0 <= i < 4) as Hi by (by apply zone_index_range).
  assert (forall k, idx <= k < idx + BS order -> k ∉ i_reserved I) as Hres.
  { intros k Hk Hin. pose proof (pmm_rep_at _ _ _ _ _ (proj1 Hown) Hi E) as Hz. apply (zr_reserved _ _ _ _ _ Hz) in Hin as [c Hc]. rewrite F3 in Hc by lia. done. }
  eapply wp_mono; [apply (page_free_n_spec s1 L _ i I idx order Hown1 Hi E Ho F1); [lia|]|].
  - intros k Hk. split; [|by apply Hres]. rewrite aupd_same. cbn [fst]. rewrite cnt_new_lookup, decide_True by lia. by eexists.
  - rewrite aupd_same. cbn [fst snd]. intros [] s2 [Hown2 _]. apply wp_ret. split; [done|]. eapply pmm_own_ext; [|exact Hown2].
    intros j. rewrite (u64_small (_ + _)) by (unfold is_u64; lia). pose proof (run_dec_new (Z.to_nat (BS order)) (A i).1 (A i).2 idx) as Hrd.
    rewrite Z2Nat.id in Hrd by lia. rewrite Hrd by (done || lia). rewrite <- surjective_pairing. symmetry. apply aupd_undo.
Qed.
Lemma page_alloc_free_roundtrip_witness :
  wp (let! r := page_alloc_n (MT := flat_mount) GFP_NORMAL 1 in do! page_free_n (default 0 r.2) 1 in ret! r.1)
    (fun err s' => err = 0 /\ pmm_own s' sample_layout no_counts) sample_pmm.
Proof.
  apply (page_alloc_free_roundtrip (MT := flat_mount) sample_pmm sample_layout no_counts GFP_NORMAL 1 sample_info 0);
    [apply sample_own|apply sample_mount_ok|lia|vm_compute; split; discriminate|reflexivity|vm_compute; discriminate|reflexivity|vm_compute; reflexivity|vm_compute; discriminate].
Defined.

(** [page_free_n] takes a run that ends exactly with its zone for one that lies
    outside: it returns without freeing any of its frames, so the last frame of a zone
    is never free again once it has been allocated. *)
Theorem page_free_zone_end_leaks s L A i I idx order :
  pmm_own s L A -> 0 <= i < 4 -> L i = Some I -> 0 <= order < 64 -> 0 <= idx -> idx + 2 ^ order = i_npages I -> idx ∉ i_reserved I ->
  wp (page_free_n (pg I idx) order) (fun _ s' => pmm_own s' L A) s.
Proof.
  intros Hown Hi E Ho Hidx Hend Hres. destruct (order_range order Ho) as (_ & En & _).
  eapply wp_mono; [apply (page_free_last_spec s L A i I idx order); try done; by rewrite En|]. by intros [] s' [H _].
Qed.
(** The eight frames, all allocated, are still in use after they are freed. *)
Lemma page_free_zone_end_leaks_witness :
  wp (let! r := page_alloc_n (MT := flat_mount) GFP_NORMAL 3 in do! page_free_n (default 0 r.2) 3 in ret! r.1)
    (fun err s' => err = 0 /\ exists A, pmm_own s' sample_layout A /\ (A 1).1 !! 7 = Some 1) sample_pmm.
Proof.
  unfold page_alloc_n. apply wp_bind, wp_bind. eapply wp_mono; [apply (do_page_alloc_spec (MT := flat_mount) sample_pmm sample_layout no_counts GFP_NORMAL 3 true false)|];
    [apply sample_own|apply sample_mount_ok|reflexivity|lia|vm_compute; split; discriminate|].
  intros r s1 (-> & Hown1 & _). apply wp_ret. apply wp_bind.
  eapply wp_mono; [apply (page_free_zone_end_leaks s1 sample_layout _ 1 sample_info 0 3 Hown1)|];
    [lia|reflexivity|lia|lia|reflexivity|apply not_elem_of_empty|].
  intros [] s2 Hown2. apply wp_ret. split; [vm_compute; reflexivity|]. eexists. split; [exact Hown2|]. vm_compute. reflexivity.
Defined.

(** [page_put] frees a frame when the last reference goes, but leaves it in the
    number of used pages of the zone: after a frame is allocated and put, all counts
    are what they were and the zone reports one used page more. *)
Theorem page_put_keeps_used {MT : Mounting} s L A gfp I idx :
  pmm_own s L A -> mount_ok (p_boot s) -> 0 <= GFP_WHENCE gfp <= 4 -> L (gfp_to_zone_index gfp) = Some I ->
  find_run (i_npages I) (A (gfp_to_zone_index gfp)).1 1 = Some idx ->
  let i := gfp_to_zone_index gfp in
  wp (let! r := page_alloc gfp in do! page_put (default 0 r.2) in ret! r.1)
    (fun err s' => err = 0 /\ pmm_own s' L (aupd A i ((A i).1, u64 ((A i).2 + 1)))) s.
Proof.
  intros Hown Hm Hg E Hf i. assert (0 < 1) as H1 by lia. destruct (find_run_Some _ _ _ _ H1 Hf) as (F1 & F2 & F3 & _). clear H1. pose proof (zone_index_range gfp Hg) as Hi. fold i in E, Hf, F3, Hi.
  unfold page_alloc. apply wp_bind, wp_bind. eapply wp_mono; [apply (do_page_alloc_spec s L A gfp 0 true false); done|].
  change (BS 0) with 1. fold i. intros r s1 (-> & Hown1 & _). revert Hown1. unfold a_alloc. rewrite E, Hf.
  destruct (Z.ltb_spec (i_npages I) 1); [lia|]. cbn [fst snd]. intros Hown1. apply wp_ret. cbn [snd fmap option_fmap option_map default].
  assert (idx ∉ i_reserved I) as Hres.
  { intros Hin. pose proof (pmm_rep_at _ _ _ _ _ (proj1 Hown) Hi E) as Hz. apply (zr_reserved _ _ _ _ _ Hz) in Hin as [c Hc]. rewrite F3 in Hc by lia. done. }
  assert (cnt_new (A i).1 idx 1 !! idx = Some 1) as Hc by (rewrite cnt_new_lookup, decide_True by lia; done).
  apply wp_bind. eapply wp_mono; [eapply (page_put_spec s1 L _ i I idx 1 Hown1 Hi E); [by rewrite aupd_same|done]|].
  rewrite aupd_same. cbn [fst snd]. intros [] s2 [Hown2 _]. apply wp_ret. split; [done|]. eapply pmm_own_ext; [|exact Hown2].
  intros j. unfold aupd. destruct (decide (j = i)) as [->|]; [|done]. f_equal. unfold cnt_dec. rewrite Hc. cbn [Z.eqb Pos.eqb].
  apply map_eq. intros k. destruct (decide (k = idx)) as [->|Hne].
  - rewrite lookup_delete_eq. apply F3. lia.
  - by rewrite lookup_delete_ne, cnt_new_lookup, decide_False by (done || lia).
Qed.
Lemma page_put_keeps_used_witness :
  wp (let! r := page_alloc (MT := flat_mount) GFP_NORMAL in do! page_put (default 0 r.2) in ret! r.1)
    (fun err s' => err = 0 /\ pmm_own s' sample_layout (aupd no_counts 1 (∅, 1))) sample_pmm.
Proof.
  apply (page_put_keeps_used (MT := flat_mount) sample_pmm sample_layout no_counts GFP_NORMAL sample_info 0);
    [apply sample_own|apply sample_mount_ok|vm_compute; split; discriminate|reflexivity|vm_compute; reflexivity].
Defined.

(** * Theorems on the boot phase of the memory manager

    The sorted memory map, the blocks of the bump allocator, and the state that
    [zones_init] leaves to the page allocator. *)
From Stdlib Require Import Sorting.Sorted.

Implicit Types (b : bootinfo_t) (l : list boot_mmap_t).

(** [bubble_sort_mmap] sorts a memory map that is not empty by address and
    keeps its entries. *)
Theorem bubble_sort_mmap_sorts l :
  l <> [] -> exists l', bubble_sort_mmap l = Some l' /\ Sorted addr_le l' /\ l' ≡ₚ l.
Proof.
  intros Hl. unfold bubble_sort_mmap. destruct l as [|a l]; [done|]. cbn [length]. eexists. split; [done|].
  pose proof (bubble_passes_spec (length l) (a :: l) []) as H. rewrite app_nil_r in H. apply H; [done|constructor|]. intros x y _ Hy. by apply elem_of_nil in Hy.
Qed.
Lemma bubble_sort_mmap_sorts_witness :
  let l := [mkBmap 9 1 1; mkBmap 4 2 2; mkBmap 7 1 1] in exists l', bubble_sort_mmap l = Some l' /\ Sorted addr_le l' /\ l' ≡ₚ l.
Proof. apply bubble_sort_mmap_sorts. discriminate. Defined.

(** A sequence of [boot_alloc] calls hands out blocks that are aligned as asked,
    at least as large as asked, pairwise disjoint and above everything in use before;
    each is added to the memory map as a reserved region. *)
Theorem boot_alloc_blocks s reqs :
  booting (p_boot s) (Z.of_nat (length reqs)) -> Forall req_ok reqs ->
  2 * place_end (b_phyaddr (p_boot s)) reqs - b_phyaddr (p_boot s) <= 1024 * b_usable (p_boot s) ->
  wp (boot_allocs reqs) (fun addrs s' => exists bs, addrs = map (fun r => V2HI r.1) bs /\ length bs = length reqs /\
    b_mmap (p_boot s') = b_mmap (p_boot s) ++ map reserved_block bs /\ p_page s' = p_page s /\ p_zones s' = p_zones s /\
    (forall (k : nat) r a, reqs !! k = Some r -> bs !! k = Some a ->
       b_phyaddr (p_boot s) <= a.1 /\ a.1 mod 2 ^ r.2 = 0 /\ r.1 <= a.2 /\ a.1 + a.2 <= b_phyaddr (p_boot s')) /\
    (forall (k k' : nat) a a', (k < k')%nat -> bs !! k = Some a -> bs !! k' = Some a' -> a.1 + a.2 <= a'.1)) s.
Proof.
  intros Hb Hr Hfit. apply boot_allocs_spec; [done..|]. intros s' Es Em Ep. exists (place (b_phyaddr (p_boot s)) reqs).
  split_and!; [done|apply place_length|done|by rewrite Es|by rewrite Es| |].
  - intros k r a Hk Ha. rewrite Ep. by apply (place_spec _ reqs k).
  - intros k k' a a' Hk. by apply (place_disjoint _ reqs).
Qed.

(** A machine with 20 MiB of memory, whose kernel image takes the second MiB. *)
Definition boot_sample : bootinfo_t :=
  mkBoot 0 20480 20480 19456 0 0x200000 [mkBmap (V2HI 0) 0x9f000 1; mkBmap (V2HI 0x100000) 0x100000 2] (V2HI 0x100000) 0x100000.
Definition slot_at (i : Z) : Z := 64 + 64 * i.
Definition boot_sample_state : pmem :=
  mkPmem (h_set (list_to_map (map (fun i => (slot_at i, mkBitmap 0 0 SPINLOCK_INIT)) [0; 1; 2; 3])) idle)
    (map (fun i => mkZone 0 0 (slot_at i) 0 0 0 0 SPINLOCK_INIT) [0; 1; 2; 3]) ∅ (fun _ => 0) boot_sample.

Lemma boot_sample_booting n : 0 <= n <= 70 -> booting boot_sample n.
Proof. intros Hn. split; [by vm_compute|by vm_compute|by vm_compute|]. change (Z.of_nat (length (b_mmap boot_sample))) with 2. unfold NMMAP. lia. Qed.
Lemma boot_alloc_blocks_witness :
  wp (boot_allocs [(100, 4); (5000, 12)]) (fun addrs s' => length addrs = 2%nat /\ length (b_mmap (p_boot s')) = 4%nat) boot_sample_state.
Proof.
  eapply wp_mono; [apply (boot_alloc_blocks boot_sample_state [(100, 4); (5000, 12)])|].
  - apply boot_sample_booting. cbn. lia.
  - repeat (apply Forall_cons; split; [split; cbn; lia|]). by apply Forall_nil.
  - by vm_compute.
  - intros addrs s' (bs & -> & Hlen & -> & _). cbn [length] in Hlen. rewrite length_app, !length_map, Hlen. done.
Defined.


Lemma boot_sample_maps : b_mmap (boot_zones boot_sample 1024) =
  [mkBmap (V2HI 0) 0x9f000 1; mkBmap (V2HI 0x100000) 0x100000 2; mkBmap (V2HI 2097152) 4096 2; mkBmap (V2HI 2101248) 163840 2;
   mkBmap (V2HI 2265088) 4096 2; mkBmap (V2HI 2269184) 40960 2].
Proof. vm_compute. reflexivity. Qed.
Lemma boot_sample_fits : Forall (region_fits (boot_layout boot_sample slot_at 1024)) (b_mmap (boot_zones boot_sample 1024)).
Proof.
  rewrite boot_sample_maps. apply Forall_cons. split; [left; by vm_compute|].
  repeat (apply Forall_cons; split; [right; exists 0; eexists; split; [lia|]; split; [reflexivity|]; by vm_compute|]). by apply Forall_nil.
Qed.
(** Frames that touch the kernel image are covered. *)
Definition clear_or_covered (a : Z) : bool :=
  (0 <? ncover (b_mmap (boot_zones boot_sample 1024)) a) ||
  (negb (OVERLAPS a PGSZ (b_kern_base boot_sample) (b_kern_size boot_sample)) && negb (in_kernel boot_sample a) && negb (in_kernel boot_sample (V2HI a))).
Lemma boot_sample_kernel i I k : boot_layout boot_sample slot_at 1024 i = Some I -> 0 <= k < i_npages I ->
  ncover (b_mmap (boot_zones boot_sample 1024)) (frame I k) = 0 -> kernel_clear boot_sample (frame I k).
Proof.
  intros E Hk H0. assert (forallb (fun k => clear_or_covered (k * PGSZ)) (seqZ 0 5120) = true) as Hall by (vm_compute; reflexivity).
  rewrite forallb_forall in Hall. assert (exists k', 0 <= k' < 5120 /\ frame I k = k' * PGSZ) as (k' & Hk' & Ek).
  { unfold boot_layout in E. destruct i as [|[p|p|]|p]; try discriminate; injection E as <-; unfold frame; cbn [zone_info i_start i_npages] in *.
    - exists k. unfold DMA_FRAMES in Hk. lia.
    - exists (4096 + k). change (MiB 16) with (4096 * PGSZ). lia. }
  rewrite Ek in *. specialize (Hall k'). unfold clear_or_covered in Hall. rewrite H0 in Hall.
  assert (In k' (seqZ 0 5120)) as Hin by (apply list_elem_of_In, elem_of_seqZ; lia). specialize (Hall Hin). cbn [Z.ltb Z.compare orb] in Hall.
  apply andb_prop in Hall as [[H1 H2]%andb_prop H3]. apply negb_true_iff in H1, H2, H3. by split_and!.
Qed.
Lemma boot_sample_ready : boot_ready boot_sample_state slot_at 1024.
Proof.
  assert (forall i, 0 <= i < 4 -> zone_at i boot_sample_state = Some (mkZone 0 0 (slot_at i) 0 0 0 0 SPINLOCK_INIT) /\
    is_Some (bitmaps (p_mem boot_sample_state) !! slot_at i)) as Hz.
  { intros i Hi. assert (i = 0 \/ i = 1 \/ i = 2 \/ i = 3) as [->|[->|[->| ->]]] by lia; split; try reflexivity; vm_compute; by eexists. }
  split.
  - split; [done|]. intros j z Hj. assert (0 <= j < 4) as Hb by (apply zone_at_eq in Hj as [H0 H]; apply lookup_lt_Some in H; cbn in H; lia).
    destruct (Hz j Hb) as [E _]. rewrite E in Hj. by injection Hj as <-.
  - intros j Hj. destruct (Hz j Hj) as [E Hb]. eexists. split; [exact E|]. split_and!; [done| |exact Hb]. unfold slot_at. lia.
  - intros i j Hi Hj Hij. unfold slot_at. lia.
  - split; [reflexivity|by vm_compute].
  - split; (split; [by vm_compute| |by vm_compute]); [apply (boot_sample_booting 2); lia|]. split; by vm_compute.
  - exact boot_sample_fits.
  - exact boot_sample_kernel.
Qed.

(** A reserved region of the memory map that does not lie inside one zone stops
    the boot: [process_memory_map] panics, also when the region straddles two zones
    that are both valid. *)
Theorem region_straddling_panics s L N m :
  boot_own s L N -> region_skipped m = false -> 0 <= region_base m + bmp_size m < two64 ->
  (forall i I, 0 <= i < 4 -> L i = Some I -> i_start I <= region_base m -> frame I (i_npages I) < region_base m + bmp_size m) ->
  process_memory_map m s = Panic.
Proof.
  intros Hown Hs Hb Hno. apply (process_map_panics s L N m Hown Hs). intros i I Hi E [H1 H2]. rewrite u64_small in H2 by done. specialize (Hno i I Hi E H1). lia.
Qed.
(** Eight frames from 16 MiB on; a region of sixteen pages, and one that starts in the
    middle of the second frame. *)
Lemma sample_boot_own : boot_own sample_pmm sample_layout (fun _ => ∅).
Proof.
  destruct sample_own as [[H1 H2] Hl]. split; [|exact Hl]. split.
  - intros i Hi. specialize (H1 i Hi). unfold resL, sample_layout in *. by destruct (decide (i = 1)).
  - unfold resL, sample_layout. intros i j I J Hi Hj Hij. destruct (decide (i = 1)), (decide (j = 1)); try done. lia.
Qed.
Lemma region_straddling_panics_witness : process_memory_map (mkBmap (V2HI (MiB 16)) (16 * PGSZ) 2) sample_pmm = Panic.
Proof.
  apply (region_straddling_panics sample_pmm sample_layout (fun _ => ∅)); [exact sample_boot_own|by vm_compute|by vm_compute|].
  intros i I Hi E _. unfold sample_layout in E. destruct (decide (i = 1)); [|done]. injection E as <-. by vm_compute.
Defined.

(** A reserved region that starts inside a frame and is a whole number of pages
    long loses its last frame: the frame that holds its end gets no reference from
    it and stays available to the page allocator. *)
Theorem region_tail_not_reserved s L N m i I k :
  boot_own s L N -> region_fits L m -> (forall i k, default 0 (N i !! k) + 1 < two64) -> 0 <= i < 4 -> L i = Some I -> 0 <= k < i_npages I ->
  V2LO (bmp_addr m) mod PGSZ <> 0 -> bmp_size m mod PGSZ = 0 -> frame I k <= V2LO (bmp_addr m) + bmp_size m - 1 < frame I k + PGSZ -> (frame I k) mod PGSZ = 0 ->
  wp (process_memory_map m) (fun r s' => r = 0 /\ exists N', boot_own s' L N' /\ default 0 (N' i !! k) = default 0 (N i !! k)) s.
Proof.
  intros Hown Hfit Hc Hi E Hk Ho Hsz Hin Hal. eapply wp_mono; [by apply (process_map_spec s L N m)|].
  intros r s' (-> & N' & Hown' & Hm & _). split; [done|]. exists N'. split; [done|]. rewrite (Hm i I k Hi E Hk).
  unfold ncover. rewrite filter_cons, decide_False; [cbn; lia|]. intros [_ [H1 H2]]. unfold region_base in *.
  rewrite PGROUND_eq in H1, H2 by apply u64_range. rewrite NPAGE_eq, up_id in H2 by (done || lia). set (a := V2LO (bmp_addr m)) in *.
  pose proof (Z.mod_pos_bound a PGSZ ltac:(done)) as Hp. assert ((a - a mod PGSZ) mod PGSZ = 0) as Ha by (rewrite Zminus_mod_idemp_r, Z.sub_diag; done).
  apply Z.mod_divide in Hal as [q Hq]; [|done]. apply Z.mod_divide in Ha as [q' Hq']; [|done]. apply Z.mod_divide in Hsz as [q'' Hq'']; [|done]. unfold PGSZ in *. lia.
Qed.
Lemma region_tail_not_reserved_witness :
  wp (process_memory_map (mkBmap (V2HI (MiB 16 + PGSZ + 8)) PGSZ 2))
    (fun r s' => r = 0 /\ exists N, boot_own s' sample_layout N /\ default 0 (N 1 !! 2) = 0) sample_pmm.
Proof.
  eapply wp_mono; [apply (region_tail_not_reserved sample_pmm sample_layout (fun _ => ∅) (mkBmap (V2HI (MiB 16 + PGSZ + 8)) PGSZ 2) 1 sample_info 2)|].
  - exact sample_boot_own.
  - right. exists 1, sample_info. split; [lia|]. split; [reflexivity|]. by vm_compute.
  - intros i' k'. rewrite lookup_empty. by vm_compute.
  - lia.
  - reflexivity.
  - by vm_compute.
  - by vm_compute.
  - by vm_compute.
  - by vm_compute.
  - by vm_compute.
  - intros r s' (-> & N & Hown & HN). split; [done|]. exists N. split; [exact Hown|]. rewrite HN, lookup_empty. reflexivity.
Defined.
