(* ===== verification/Sched.v ===== *)
(** * The scheduler (sys/sched/scheduler.c, sched.c, load_balancer.c, metrics.h)

    Every CPU has a run queue per priority level (a multi-level feedback queue).  The
    run queues are the embedded queues of EmbQueue.v, here as the lists of threads
    they represent; an operation that holds the locks it needs is one step.  Whether
    [queue_trylock] finds a lock free is a parameter of the load balancer.  The time
    a thread has left is [ts_timeslice]; clocks and context switches are not part of
    the model, nor is the overflow of [ts_age], an int that only grows while the lock
    of the next level is busy. *)
From S2P Require Import Prelude Errno Queue QueueMove Wait.

Inductive tstate_t := T_EMBRYO | T_READY | T_RUNNING | T_SLEEP | T_STOPPED | T_ZOMBIE | T_TERMINATED.
#[export] Instance tstate_eq_dec : EqDecision tstate_t.
Proof. solve_decision. Defined.

Inductive affinity_t := SOFT_AFFINITY | HARD_AFFINITY.
Record cpu_affin_t := mkAffin { af_type : affinity_t; af_cpu_set : Z }.

(** The members of [thread_sched_t] that scheduling reads, with the state. *)
Record tsched := mkTsched {
  ti_state : tstate_t; ts_priority : Z; ts_age : Z; ts_short_holds : Z; ts_long_holds : Z; ts_flags : Z;
  ts_timeslice : Z; ts_last_timeslice : Z; ts_sched_count : Z; ts_proc : Z; ts_affin : cpu_affin_t
}.
Definition NSCHED_LEVEL : Z := 4.
Definition MLFQ_HIGH : Z := NSCHED_LEVEL - 1.
Definition MLFQ_LOW : Z := 0.
Definition AGING_THRESHOLD : Z := 5.
Definition TS_SCHEDULER : Z := 4.
Definition TH_SHORTHOLD_THRESHOLD (level : Z) : Z := level + 4.
Definition TH_LONGHOLD_THRESHOLD : Z := 8.

(** [m_rq c l] is the run queue of level [l] of CPU [c], [m_quantum c l] its quantum. *)
Record msys := mkMsys { m_ncpu : Z; m_rq : Z -> Z -> list tid; m_quantum : Z -> Z -> Z; m_thr : gmap tid tsched }.
Definition set_rq (c l : Z) (q : list tid) (s : msys) : msys :=
  mkMsys (m_ncpu s) (fun c' l' => if (c' =? c) && (l' =? l) then q else m_rq s c' l') (m_quantum s) (m_thr s).
Definition set_thr (t : tid) (x : tsched) (s : msys) : msys := mkMsys (m_ncpu s) (m_rq s) (m_quantum s) (<[t := x]> (m_thr s)).

Definition set_state (st : tstate_t) (x : tsched) : tsched :=
  mkTsched st (ts_priority x) (ts_age x) (ts_short_holds x) (ts_long_holds x) (ts_flags x) (ts_timeslice x) (ts_last_timeslice x) (ts_sched_count x) (ts_proc x) (ts_affin x).
Definition with_prio (p : Z) (x : tsched) : tsched :=
  mkTsched (ti_state x) p (ts_age x) (ts_short_holds x) (ts_long_holds x) (ts_flags x) (ts_timeslice x) (ts_last_timeslice x) (ts_sched_count x) (ts_proc x) (ts_affin x).
Definition with_age (a : Z) (x : tsched) : tsched :=
  mkTsched (ti_state x) (ts_priority x) a (ts_short_holds x) (ts_long_holds x) (ts_flags x) (ts_timeslice x) (ts_last_timeslice x) (ts_sched_count x) (ts_proc x) (ts_affin x).
Definition with_holds (sh lh : Z) (x : tsched) : tsched :=
  mkTsched (ti_state x) (ts_priority x) (ts_age x) sh lh (ts_flags x) (ts_timeslice x) (ts_last_timeslice x) (ts_sched_count x) (ts_proc x) (ts_affin x).
Definition with_run (ts proc : Z) (x : tsched) : tsched :=
  mkTsched (ti_state x) (ts_priority x) (ts_age x) (ts_short_holds x) (ts_long_holds x) (ts_flags x) ts (ts_last_timeslice x) (ts_sched_count x) proc (ts_affin x).

(** ** Priorities (sys/thread/thread.c, sched.c, metrics.c) *)
Definition thread_set_prio (prio : Z) (x : tsched) : Z * tsched :=
  if (prio <? MLFQ_LOW) || (MLFQ_HIGH <? prio) then (- EINVAL, x) else (0, with_prio prio x).
Definition THREAD_PRIO_INC : Z := 0.
Definition THREAD_PRIO_DEC : Z := 1.
(** The old and the new priority are those of the thread before and after. *)
Definition thread_bump_priority (how by_ : Z) (x : tsched) : Z * tsched :=
  if how =? THREAD_PRIO_INC then (0, with_prio (ts_priority x + by_) x)
  else if how =? THREAD_PRIO_DEC then
    let p := ts_priority x - by_ in (0, with_prio (if p <? 0 then 0 else p) x)
  else (- EINVAL, x).

Definition sched_promote_thread (x : tsched) : tsched :=
  if (ts_priority x <? MLFQ_HIGH) && (TH_SHORTHOLD_THRESHOLD (ts_priority x) <=? ts_short_holds x)
  then with_holds 0 0 (with_prio (ts_priority x + 1) x)
  else with_holds (u64 (ts_short_holds x + 1)) (ts_long_holds x) x.
Definition sched_demote_thread (x : tsched) : tsched :=
  if (MLFQ_LOW <? ts_priority x) && (TH_LONGHOLD_THRESHOLD <=? ts_long_holds x)
  then with_holds 0 0 (with_prio (ts_priority x - 1) x)
  else with_holds (ts_short_holds x) (u64 (ts_long_holds x + 1)) x.
Definition sched_set_highest_prior (x : tsched) : tsched := with_prio MLFQ_HIGH (with_holds 0 0 x).
(** [sched], up to the context switch. *)
Definition sched (x : tsched) : tsched :=
  if negb (Z.land (ts_flags x) TS_SCHEDULER =? 0) then sched_set_highest_prior x
  else if ts_timeslice x =? 0 then sched_demote_thread x
  else sched_promote_thread x.
(** [sched_update_thread_metrics], without the clocks. *)
Definition clamp_prio (x : tsched) : tsched :=
  with_prio (if MLFQ_HIGH <? ts_priority x then MLFQ_HIGH else if ts_priority x <? 0 then 0 else ts_priority x) x.
Definition sched_update_thread_metrics (x : tsched) : tsched :=
  let x := clamp_prio x in
  match ti_state x with
  | T_RUNNING =>
      mkTsched (ti_state x) (ts_priority x) (ts_age x) (ts_short_holds x) (ts_long_holds x) (ts_flags x) (ts_timeslice x) (ts_timeslice x)
        (u64 (ts_sched_count x + 1)) (ts_proc x) (ts_affin x)
  | _ => x
  end.

(** ** Loads *)
Definition levels_down : list Z := [3; 2; 1; 0].
Definition levels_up : list Z := [0; 1; 2; 3].
Definition len (q : list tid) : Z := Z.of_nat (length q).
Definition MLFQ_load (s : msys) (c : Z) : Z := foldl (fun load l => load + len (m_rq s c l)) 0 levels_down.
Definition cpus (s : msys) : list Z := seqZ 0 (m_ncpu s).
Definition MLFQ_most_loaded (s : msys) (me : Z) : Z :=
  (foldl (fun '(best, highest) c => let load := MLFQ_load s c in if highest <=? load then (c, load) else (best, highest)) (me, MLFQ_load s me) (cpus s)).1.
Definition MLFQ_least_loaded (s : msys) (me : Z) : Z :=
  (foldl (fun '(best, least) c => let load := MLFQ_load s c in if load <=? least then (c, load) else (best, least)) (me, MLFQ_load s me) (cpus s)).1.

(** [MLFQ_init] for CPU [me]; [t] is [jiffies_from_ms(10)].  The highest level comes
    first. *)
Definition MLFQ_init (me t : Z) (s : msys) : msys :=
  mkMsys (m_ncpu s) (fun c l => if c =? me then [] else m_rq s c l)
    (fun c l => if c =? me then t + 5 * (if 1 <? MLFQ_HIGH - l then 1 else 0) else m_quantum s c l) (m_thr s).

(** ** Entering a run queue (scheduler.c) *)
Definition hard_target (s : msys) (me set : Z) : Z :=
  (foldl (fun '(target, least) c =>
     if Z.land set (Z.shiftl 1 c) =? 0 then (target, least)
     else let load := MLFQ_load s c in if load <=? least then (c, load) else (target, least)) (me, MLFQ_load s me) (cpus s)).1.
Definition choose_cpu (s : msys) (me : Z) (x : tsched) : Z :=
  match af_type (ts_affin x) with
  | HARD_AFFINITY => hard_target s me (af_cpu_set (ts_affin x))
  | SOFT_AFFINITY => MLFQ_least_loaded s me
  end.
(** [embedded_enqueue] of a run queue node with QUEUE_UNIQUE. *)
Definition rq_enqueue (c l : Z) (t : tid) (s : msys) : Z * msys :=
  if decide (t ∈ m_rq s c l) then (- EEXIST, s) else (0, set_rq c l (m_rq s c l ++ [t]) s).

Definition SM (A : Type) := M msys A.
Definition the_thr (t : tid) : SM tsched := fun s => match m_thr s !! t with Some x => Done x s | None => Fault end.
Definition put_thr (t : tid) (x : tsched) : SM unit := fun s => Done tt (set_thr t x s).

Definition MLFQ_enqueue (me : Z) (t : tid) : SM Z :=
  let! x := the_thr t in
  fun s =>
    let target := choose_cpu s me x in
    if (ts_priority x <? MLFQ_LOW) || (MLFQ_HIGH <? ts_priority x) then Done (- EINVAL) s else
    let '(err, s') := rq_enqueue target (ts_priority x) t s in Done err s'.
Definition sched_enqueue (me : Z) (t : tid) : SM Z :=
  let! x := the_thr t in
  do! put_thr t (set_state T_READY (thread_set_prio MLFQ_HIGH x).2) in
  MLFQ_enqueue me t.
Definition thread_schedule (me : Z) (t : tid) : SM Z := sched_enqueue me t.

(** ** Leaving a run queue *)
Fixpoint next_loop (me : Z) (ls : list Z) : SM (option tid) := fun s =>
  match ls with
  | [] => Done None s
  | l :: ls =>
      match m_rq s me l with
      | [] => next_loop me ls s
      | t :: q =>
          (let! x := the_thr t in
           do! (fun s => Done tt (set_rq me l q s)) in
           do! put_thr t (set_state T_RUNNING (with_run (m_quantum s me l) me x)) in
           ret! (Some t)) s
      end
  end.
Definition MLFQ_get_next_thread (me : Z) : SM (option tid) := next_loop me levels_down.

(** A thread comes back from the context switch; [T_ZOMBIE] wakes the threads that
    wait for it, which is no part of this state. *)
Definition hanlde_thread_state (me : Z) (t : tid) : SM unit :=
  let! x := the_thr t in
  match ti_state x with
  | T_EMBRYO | T_RUNNING => M_panic
  | T_READY => let! err := MLFQ_enqueue me t in M_assert (err =? 0)
  | T_SLEEP | T_STOPPED => ret! tt
  | T_ZOMBIE => ret! tt
  | T_TERMINATED => M_panic
  end.

(** ** Load balancing (load_balancer.c)

    [avail c l] says whether the lock of the run queue of level [l] of CPU [c] is
    free when it is tried. *)
(** [embedded_queue_migrate] from CPU [src] to CPU [dst], level [l]. *)
Definition run_spliced (whence : Z) (b q : list tid) : list tid := if whence =? QUEUE_HEAD then b ++ q else q ++ b.
Definition rq_migrate (dst src l pos n whence : Z) (s : msys) : Z * msys :=
  let q := m_rq s src l in
  if migrate_ok (len q) pos n whence then
    (0, set_rq dst l (run_spliced whence (take (Z.to_nat n) (drop (Z.to_nat pos) q)) (m_rq s dst l))
          (set_rq src l (take (Z.to_nat pos) q ++ drop (Z.to_nat (pos + n)) q) s))
  else (- EINVAL, s).

Section Balance.
Context (avail : Z -> Z -> bool).

Definition pull_target (me : Z) (s : msys) : option Z * Z :=
  foldl (fun '(target, target_load) c =>
    if c =? me then (target, target_load)
    else let load := MLFQ_load s c in if target_load <? load then (Some c, load) else (target, target_load)) (None, 0) (cpus s).
Fixpoint pull_levels (me target target_load pulled : Z) (ls : list Z) (s : msys) : msys :=
  match ls with
  | [] => s
  | l :: ls =>
      if target_load / 2 <=? pulled then s else
      if negb (avail me l) then pull_levels me target target_load pulled ls s else
      if negb (avail target l) then pull_levels me target target_load pulled ls s else
      let n := len (m_rq s target l) in
      if n =? 0 then pull_levels me target target_load pulled ls s else
      let count := if n =? 1 then 1 else n / 2 in
      let '(err, s') := rq_migrate me target l (n / 2) count QUEUE_TAIL s in
      if negb (err =? 0) then pull_levels me target target_load pulled ls s'
      else pull_levels me target target_load (pulled + count) ls s'
  end.
Definition MLFQ_pull (me : Z) (s : msys) : msys :=
  match pull_target me s with
  | (Some target, target_load) => if target_load <? 2 then s else pull_levels me target target_load 0 levels_up s
  | (None, _) => s
  end.

Definition push_target (me : Z) (s : msys) : option Z * Z :=
  foldl (fun '(target, target_load) c =>
    if c =? me then (target, target_load)
    else let load := MLFQ_load s c in if load <=? target_load then (Some c, load) else (target, target_load)) (None, 0) (cpus s).
(** [my_load] is never assigned: it stays 0. *)
Fixpoint push_levels (me target pushed : Z) (ls : list Z) (s : msys) : msys :=
  let my_load := 0 in
  match ls with
  | [] => s
  | l :: ls =>
      if negb (avail me l) then push_levels me target pushed ls s else
      if negb (avail target l) then push_levels me target pushed ls s else
      let n := len (m_rq s me l) in
      if (n <? 2) && ((n =? 0) || (my_load / 2 <=? pushed)) then push_levels me target pushed ls s else
      let count := if 2 <=? n then n / 2 else n in
      let '(err, s') := rq_migrate target me l (n / 2) count QUEUE_HEAD s in
      if negb (err =? 0) then push_levels me target pushed ls s'
      else push_levels me target (pushed + count) ls s'
  end.
Definition MLFQ_push (me : Z) (s : msys) : msys :=
  match push_target me s with
  | (Some target, target_load) => if MLFQ_load s me <=? target_load then s else push_levels me target 0 levels_down s
  | (None, _) => s
  end.

Definition MLFQ_balance (me : Z) (s : msys) : msys :=
  let total := foldl (fun t c => t + MLFQ_load s c) 0 (cpus s) in
  let avg_load := total / m_ncpu s in
  let current_load := MLFQ_load s me in
  if u64 (avg_load + 2) <? current_load then MLFQ_push me s
  else if current_load <? u64 (avg_load - 2) then MLFQ_pull me s
  else s.

(** [embedded_queue_relloc] to the tail of a level of the same CPU. *)
Definition rq_relloc (c dst src : Z) (t : tid) (s : msys) : Z * msys :=
  if decide (t ∈ m_rq s c src) then
    let s1 := set_rq c src (filter (fun u => u <> t) (m_rq s c src)) s in (0, set_rq c dst (m_rq s1 c dst ++ [t]) s1)
  else (- ENOENT, s).

(** One thread of the queue of level [l], whose lock is held. *)
Definition age_thread (c l : Z) (t : tid) : SM unit :=
  let! x := the_thr t in
  let x := with_age (ts_age x + 1) x in
  if ts_age x <=? AGING_THRESHOLD then put_thr t x else
  let old_prior := ts_priority x in
  let x := (thread_bump_priority THREAD_PRIO_INC 1 x).2 in
  let new_prior := if MLFQ_HIGH <? ts_priority x then MLFQ_HIGH else ts_priority x in
  let x := if MLFQ_HIGH <? ts_priority x then (thread_set_prio new_prior x).2 else x in
  if new_prior =? l then M_panic else
  if negb (avail c new_prior) then put_thr t (thread_set_prio old_prior x).2 else
  do! put_thr t x in
  let! err := (fun s => let '(err, s') := rq_relloc c new_prior l t s in Done err s') in
  if negb (err =? 0) then put_thr t (thread_set_prio old_prior x).2 else
  put_thr t (with_age 0 x).
Fixpoint age_queue (c l : Z) (ts : list tid) : SM unit :=
  match ts with
  | [] => ret! tt
  | t :: ts => do! age_thread c l t in age_queue c l ts
  end.
Fixpoint age_levels (c : Z) (ls : list Z) : SM unit :=
  match ls with
  | [] => ret! tt
  | l :: ls => do! (if l =? MLFQ_HIGH then ret! tt else fun s => age_queue c l (m_rq s c l) s) in age_levels c ls
  end.
Fixpoint age_cpus (cs : list Z) : SM unit :=
  match cs with
  | [] => ret! tt
  | c :: cs => do! age_levels c levels_up in age_cpus cs
  end.
Definition MLFQ_aging : SM unit := fun s => age_cpus (cpus s) s.
End Balance.

(** ** Executions

    CPU [c] runs the thread it has taken from a queue until the thread gives up the
    CPU in some state. *)
Definition current_timeslice_drop (x : tsched) : tsched := with_run (u64 (ts_timeslice x - 1)) (ts_proc x) x.
Definition leave_cpu (c : Z) (t : tid) (st : tstate_t) : SM unit :=
  let! x := the_thr t in
  do! put_thr t (sched_update_thread_metrics (sched (set_state st x))) in
  hanlde_thread_state c t.
Definition enter_cpu (c : Z) : SM (option tid) :=
  let! r := MLFQ_get_next_thread c in
  match r with
  | None => ret! None
  | Some t => let! x := the_thr t in do! put_thr t (sched_update_thread_metrics x) in ret! (Some t)
  end.
Definition tick (t : tid) : SM unit := let! x := the_thr t in put_thr t (current_timeslice_drop x).

Inductive sched_op :=
  | SSchedule (c : Z) (t : tid)
  | SEnter (c : Z)
  | SLeave (c : Z) (t : tid) (st : tstate_t)
  | STick (t : tid)
  | SBalance (avail : Z -> Z -> bool) (c : Z)
  | SAging (avail : Z -> Z -> bool).
Definition s_exec (o : sched_op) : SM unit :=
  match o with
  | SSchedule c t => let! err := thread_schedule c t in M_assert (err =? 0)
  | SEnter c => let! _ := enter_cpu c in ret! tt
  | SLeave c t st => leave_cpu c t st
  | STick t => tick t
  | SBalance avail c => fun s => Done tt (MLFQ_balance avail c s)
  | SAging avail => MLFQ_aging avail
  end.
Definition in_state (s : msys) (t : tid) (sts : list tstate_t) : Prop := exists x, m_thr s !! t = Some x /\ ti_state x ∈ sts.
Definition s_legal (s : msys) (o : sched_op) : Prop :=
  match o with
  | SSchedule c t => 0 <= c < m_ncpu s /\ in_state s t [T_EMBRYO; T_SLEEP; T_STOPPED]
  | SEnter c => 0 <= c < m_ncpu s
  | SLeave c t st => 0 <= c < m_ncpu s /\ in_state s t [T_RUNNING] /\ st ∈ [T_READY; T_SLEEP; T_STOPPED; T_ZOMBIE]
  | STick t => in_state s t [T_RUNNING]
  | SBalance _ c => 0 <= c < m_ncpu s
  | SAging _ => True
  end.
Inductive sched_step (s : msys) : msys -> Prop :=
  | sched_step_op o s' : s_legal s o -> s_exec o s = Done tt s' -> sched_step s s'.
