(* ===== verification/SchedFacts.v ===== *)
(** * The scheduler: facts

    Where threads are: the invariant of the run queues, and its preservation by every
    operation; what aging does to one thread. *)
From S2P Require Import Prelude Errno Queue QueueMove Wait WaitFacts Sched.

Implicit Types (s : msys) (c l : Z) (t u : tid) (x : tsched) (q : list tid).

Definition prio_ok x : Prop := 0 <= ts_priority x <= 3.
Record swf s : Prop := {
  sw_where : forall c l t, t ∈ m_rq s c l -> 0 <= c < m_ncpu s /\ 0 <= l <= 3 /\
    exists x, m_thr s !! t = Some x /\ ti_state x = T_READY /\ ts_priority x = l;
  sw_once : forall c l, NoDup (m_rq s c l);
  sw_one : forall c c' l t, t ∈ m_rq s c l -> t ∈ m_rq s c' l -> c = c';
  sw_ready : forall t x, m_thr s !! t = Some x -> ti_state x = T_READY -> exists c, t ∈ m_rq s c (ts_priority x);
  sw_prio : forall t x, m_thr s !! t = Some x -> prio_ok x
}.

Lemma rq_set c l q s c' l' : m_rq (set_rq c l q s) c' l' = if decide (c' = c /\ l' = l) then q else m_rq s c' l'.
Proof. cbn. destruct (Z.eqb_spec c' c), (Z.eqb_spec l' l); case_decide; naive_solver. Qed.
Lemma rq_set_eq c l q s : m_rq (set_rq c l q s) c l = q.
Proof. by rewrite rq_set, decide_True. Qed.
Lemma rq_set_ne c l q s c' l' : ~ (c' = c /\ l' = l) -> m_rq (set_rq c l q s) c' l' = m_rq s c' l'.
Proof. intros H. by rewrite rq_set, decide_False. Qed.

(** ** Choosing a CPU *)
Lemma foldl_inv {A B} (P : A -> Prop) (f : A -> B -> A) (bs : list B) a : P a -> (forall a b, b ∈ bs -> P a -> P (f a b)) -> P (foldl f a bs).
Proof.
  revert a. induction bs as [|b bs IH]; intros a Ha Hf; cbn; [done|]. apply IH; [apply Hf; [left|done]|]. intros a' b' Hb'. apply Hf. by right.
Qed.
Lemma cpus_in s c : c ∈ cpus s <-> 0 <= c < m_ncpu s.
Proof. unfold cpus. rewrite elem_of_seqZ. lia. Qed.
Lemma least_loaded_range s me : 0 <= me < m_ncpu s -> 0 <= MLFQ_least_loaded s me < m_ncpu s.
Proof.
  intros H. unfold MLFQ_least_loaded. apply (foldl_inv (fun p : Z * Z => 0 <= p.1 < m_ncpu s)); [done|].
  intros [b h] c Hc%cpus_in Hb. by destruct (_ <=? _).
Qed.
Lemma hard_target_range s me set : 0 <= me < m_ncpu s -> 0 <= hard_target s me set < m_ncpu s.
Proof.
  intros H. unfold hard_target. apply (foldl_inv (fun p : Z * Z => 0 <= p.1 < m_ncpu s)); [done|].
  intros [b h] c Hc%cpus_in Hb. destruct (_ =? 0); [done|]. by destruct (_ <=? _).
Qed.
Lemma choose_cpu_range s me x : 0 <= me < m_ncpu s -> 0 <= choose_cpu s me x < m_ncpu s.
Proof. intros H. unfold choose_cpu. destruct (af_type _); [by apply least_loaded_range|by apply hard_target_range]. Qed.

(** ** Rules *)
Lemma wp_the_thr t x (Q : tsched -> msys -> Prop) s : m_thr s !! t = Some x -> Q x s -> wp (the_thr t) Q s.
Proof. unfold wp, the_thr. by intros ->. Qed.
Lemma wp_put_thr t x (Q : unit -> msys -> Prop) s : Q tt (set_thr t x s) -> wp (put_thr t x) Q s.
Proof. done. Qed.

(** A thread outside the run queues changes in any way that does not make it ready. *)
Lemma swf_set s t x : swf s -> (forall c l, t ∉ m_rq s c l) -> ti_state x <> T_READY -> prio_ok x -> swf (set_thr t x s).
Proof.
  intros [H1 H2 H3 H4 H5] Ht Hx Hp. split; cbn [set_thr m_rq m_thr m_ncpu]; try done.
  - intros c l u Hu. destruct (H1 c l u Hu) as (A1 & A2 & y & A3). split_and!; [lia..|]. exists y. rewrite lookup_insert_ne; [done|]. intros <-. by apply (Ht c l).
  - intros u y. destruct (decide (u = t)) as [->|Hne].
    + rewrite lookup_insert_eq. by intros [= <-].
    + rewrite lookup_insert_ne by done. apply H4.
  - intros u y. destruct (decide (u = t)) as [->|Hne].
    + rewrite lookup_insert_eq. by intros [= <-].
    + rewrite lookup_insert_ne by done. apply H5.
Qed.
Lemma swf_not_queued s t x : swf s -> m_thr s !! t = Some x -> ti_state x <> T_READY -> forall c l, t ∉ m_rq s c l.
Proof. intros Hs Hx Hr c l Hin. destruct (sw_where _ Hs c l t Hin) as (_ & _ & y & Hy & Hst & _). congruence. Qed.

(** A thread that enters a queue at the level of its priority. *)
Lemma swf_enter s t x c : swf s -> (forall c l, t ∉ m_rq s c l) -> 0 <= c < m_ncpu s -> prio_ok x -> ti_state x = T_READY ->
  swf (set_rq c (ts_priority x) (m_rq s c (ts_priority x) ++ [t]) (set_thr t x s)).
Proof.
  intros [H1 H2 H3 H4 H5] Ht Hc Hp Hx. unfold prio_ok in Hp. remember (ts_priority x) as l eqn:El.
  assert (forall c' l' u, u ∈ m_rq (set_rq c l (m_rq s c l ++ [t]) (set_thr t x s)) c' l' <-> u ∈ m_rq s c' l' \/ (u = t /\ c' = c /\ l' = l)) as Hin.
  { intros c' l' u. rewrite rq_set. case_decide as Hd; [destruct Hd as [-> ->]; rewrite elem_of_app, list_elem_of_singleton; naive_solver|].
    cbn [set_thr m_rq]. naive_solver. }
  split.
  - intros c' l' u [Hu|(-> & -> & ->)]%Hin; cbn [set_rq set_thr m_ncpu m_thr].
    + destruct (H1 c' l' u Hu) as (A1 & A2 & y & A3). split_and!; [lia..|]. exists y. rewrite lookup_insert_ne; [done|]. intros <-. by apply (Ht c' l').
    + split_and!; [lia..|]. exists x. by rewrite lookup_insert_eq.
  - intros c' l'. rewrite rq_set. case_decide as Hd; [|apply H2]. apply NoDup_app. split_and!; [apply H2| |apply NoDup_singleton].
    intros u Hu ->%list_elem_of_singleton. by apply (Ht c l).
  - intros c1 c2 l' u [A|(E1 & E2 & E3)]%Hin [B|(F1 & F2 & F3)]%Hin; [by eapply H3|subst u; by destruct (Ht c1 l')|subst u; by destruct (Ht c2 l')|congruence].
  - intros u y. cbn [set_rq set_thr m_thr]. destruct (decide (u = t)) as [->|Hne].
    + rewrite lookup_insert_eq. intros [= <-] _. exists c. rewrite <- El. apply Hin. naive_solver.
    + rewrite lookup_insert_ne by done. intros Hy Hr. destruct (H4 u y Hy Hr) as [c' Hc']. exists c'. apply Hin. by left.
  - intros u y. cbn [set_rq set_thr m_thr]. destruct (decide (u = t)) as [->|Hne]; [rewrite lookup_insert_eq; intros [= <-]; unfold prio_ok; lia|].
    rewrite lookup_insert_ne by done. apply H5.
Qed.

(** A thread that leaves its queue and runs. *)
Lemma swf_leave s t x c l q1 q2 : swf s -> m_rq s c l = q1 ++ t :: q2 -> ti_state x <> T_READY -> prio_ok x ->
  swf (set_thr t x (set_rq c l (q1 ++ q2) s)).
Proof.
  intros Hs Hq Hx Hp. pose proof Hs as [H1 H2 H3 H4 H5].
  assert (t ∈ m_rq s c l) as Ht by (rewrite Hq; apply elem_of_app; right; left). pose proof (H2 c l) as Hnd. rewrite Hq in Hnd.
  assert (t ∉ q1 ++ q2) as Hnt.
  { apply NoDup_app in Hnd as (_ & Hd & [Hn _]%NoDup_cons). intros [Hin|Hin]%elem_of_app; [|done]. apply (Hd t Hin). left. }
  assert (forall c' l' u, u ∈ m_rq (set_rq c l (q1 ++ q2) s) c' l' <-> u ∈ m_rq s c' l' /\ u <> t) as Hin.
  { intros c' l' u. rewrite rq_set. case_decide as Hd.
    - destruct Hd as [-> ->]. rewrite Hq. rewrite !elem_of_app, elem_of_cons. rewrite elem_of_app in Hnt. naive_solver.
    - split; [|tauto]. intros Hu. split; [done|]. intros ->. apply Hd. destruct (H1 c l t Ht) as (_ & _ & y & Hy & _ & Hl).
      destruct (H1 c' l' t Hu) as (_ & _ & y' & Hy' & _ & Hl'). assert (y' = y) as -> by congruence. split; [|congruence]. apply (H3 c' c l' t Hu). by replace l' with l by congruence. }
  split; cbn [set_thr m_rq m_thr m_ncpu]; change (m_ncpu (set_rq c l (q1 ++ q2) s)) with (m_ncpu s).
  - intros c' l' u Hu. change (u ∈ m_rq (set_rq c l (q1 ++ q2) s) c' l') in Hu. apply Hin in Hu as [Hu Hne]. destruct (H1 c' l' u Hu) as (A1 & A2 & y & A3).
    split_and!; [lia..|]. exists y. by rewrite lookup_insert_ne.
  - intros c' l'. change (NoDup (m_rq (set_rq c l (q1 ++ q2) s) c' l')). rewrite rq_set. case_decide; [|apply H2].
    apply NoDup_app in Hnd as (A1 & A2 & [_ A3]%NoDup_cons). apply NoDup_app. split_and!; [done| |done]. intros u Hu Hu'. apply (A2 u Hu). by right.
  - intros c1 c2 l' u Hu Hv. apply (H3 c1 c2 l' u); [by apply (proj1 (Hin c1 l' u))|by apply (proj1 (Hin c2 l' u))].
  - intros u y. destruct (decide (u = t)) as [->|Hne]; [rewrite lookup_insert_eq; by intros [= <-]|]. rewrite lookup_insert_ne by done. intros Hy Hr.
    destruct (H4 u y Hy Hr) as [c' Hc']. exists c'. by apply (proj2 (Hin c' (ts_priority y) u)).
  - intros u y. destruct (decide (u = t)) as [->|Hne]; [rewrite lookup_insert_eq; by intros [= <-]|]. rewrite lookup_insert_ne by done. apply H5.
Qed.

(** Threads of one level move between two CPUs. *)
Lemma swf_perm s c1 c2 l q1 q2 : swf s -> c1 <> c2 -> 0 <= c1 < m_ncpu s -> 0 <= c2 < m_ncpu s -> q1 ++ q2 ≡ₚ m_rq s c1 l ++ m_rq s c2 l ->
  swf (set_rq c1 l q1 (set_rq c2 l q2 s)).
Proof.
  intros Hs Hne Hc1 Hc2 Hp. pose proof Hs as [H1 H2 H3 H4 H5].
  assert (NoDup (q1 ++ q2)) as Hnd.
  { rewrite Hp. apply NoDup_app. split_and!; [apply H2| |apply H2]. intros u Hu Hv. apply Hne. by apply (H3 c1 c2 l u). }
  assert (forall u, u ∈ q1 \/ u ∈ q2 <-> u ∈ m_rq s c1 l \/ u ∈ m_rq s c2 l) as Hu by (intros u; rewrite <- !elem_of_app; by rewrite Hp).
  assert (forall c' l', m_rq (set_rq c1 l q1 (set_rq c2 l q2 s)) c' l' =
    if decide (l' = l) then (if decide (c' = c1) then q1 else if decide (c' = c2) then q2 else m_rq s c' l') else m_rq s c' l') as Hrq.
  { intros c' l'. rewrite !rq_set. repeat case_decide; naive_solver. }
  assert (forall c' l' u, u ∈ m_rq (set_rq c1 l q1 (set_rq c2 l q2 s)) c' l' -> exists c'', u ∈ m_rq s c'' l' /\ (c'' = c' \/ (l' = l /\ (c' = c1 \/ c' = c2) /\ (c'' = c1 \/ c'' = c2)))) as Hback.
  { intros c' l' u. rewrite Hrq. assert (u ∈ q1 \/ u ∈ q2 -> c' = c1 \/ c' = c2 -> exists c'', u ∈ m_rq s c'' l /\
      (c'' = c' \/ (l = l /\ (c' = c1 \/ c' = c2) /\ (c'' = c1 \/ c'' = c2)))) as Hq.
    { intros [Hin|Hin]%Hu Hc; [exists c1|exists c2]; (split; [done|right; split; [done|auto]]). }
    destruct (decide (l' = l)) as [->|]; [|by exists c'; auto]. destruct (decide (c' = c1)); [auto|]. destruct (decide (c' = c2)); [auto|]. by exists c'; auto. }
  split.
  - intros c' l' u Hin. cbn [set_rq m_ncpu m_thr]. destruct (Hback c' l' u Hin) as (c'' & Hin' & Hc). destruct (H1 c'' l' u Hin') as (A1 & A2 & A3). split_and!; try done; destruct Hc as [->|(_ & [->| ->] & _)]; lia.
  - intros c' l'. rewrite Hrq. apply NoDup_app in Hnd as (A1 & _ & A2). repeat case_decide; done || apply H2.
  - intros a b l' u. rewrite !Hrq. apply NoDup_app in Hnd as (_ & A & _). case_decide; [subst l'|apply H3].
    assert (forall c', c' <> c1 -> c' <> c2 -> u ∈ m_rq s c' l -> u ∈ q1 \/ u ∈ q2 -> False) as Hout.
    { intros c' N1 N2 Hin Hq. apply Hu in Hq as [Hq|Hq]; [apply N1|apply N2]; by apply (H3 c' _ l u). }
    repeat case_decide; subst; intros Ha Hb; try done; try (by destruct (A u)); try (by eapply H3); exfalso; first [by apply (Hout a); auto|by apply (Hout b); auto].
  - intros u y Hy Hr. destruct (H4 u y Hy Hr) as [c' Hc']. cbn [set_rq m_thr] in Hy. destruct (decide (ts_priority y = l)) as [E|E].
    + destruct (decide (c' = c1 \/ c' = c2)) as [Hc|Hc].
      * assert (u ∈ q1 \/ u ∈ q2) as [Hq|Hq] by (apply Hu; rewrite <- E; destruct Hc as [<-| <-]; auto).
        -- exists c1. by rewrite Hrq, decide_True, decide_True.
        -- exists c2. by rewrite Hrq, decide_True, decide_False, decide_True.
      * exists c'. rewrite Hrq, decide_True, decide_False, decide_False; try done; intros ->; apply Hc; auto.
    + exists c'. by rewrite Hrq, decide_False.
  - exact H5.
Qed.

(** ** Entering and leaving run queues *)
Lemma mlfq_enqueue_spec s t x me :
  swf s -> (forall c l, t ∉ m_rq s c l) -> 0 <= me < m_ncpu s -> prio_ok x -> ti_state x = T_READY ->
  let c := choose_cpu (set_thr t x s) me x in
  wp (MLFQ_enqueue me t) (fun r s' => r = 0 /\ swf s' /\ s' = set_rq c (ts_priority x) (m_rq s c (ts_priority x) ++ [t]) (set_thr t x s)) (set_thr t x s).
Proof.
  intros Hs Ht Hme Hp Hx c. unfold MLFQ_enqueue. apply wp_bind. eapply wp_the_thr; [apply lookup_insert_eq|].
  unfold wp. fold c. unfold prio_ok in Hp. unfold MLFQ_LOW, MLFQ_HIGH, NSCHED_LEVEL.
  destruct (Z.ltb_spec (ts_priority x) 0), (Z.ltb_spec (4 - 1) (ts_priority x)); try lia. cbn [orb].
  unfold rq_enqueue. change (m_rq (set_thr t x s) c (ts_priority x)) with (m_rq s c (ts_priority x)). rewrite decide_False by apply Ht.
  split_and!; [done| |done]. apply swf_enter; try done. apply (choose_cpu_range (set_thr t x s)). exact Hme.
Qed.

Lemma schedule_spec s me t x : swf s -> 0 <= me < m_ncpu s -> m_thr s !! t = Some x -> ti_state x <> T_READY ->
  wp (thread_schedule me t) (fun r s' => r = 0 /\ swf s' /\ exists c, t ∈ m_rq s' c MLFQ_HIGH) s.
Proof.
  intros Hs Hme Hx Hst. unfold thread_schedule, sched_enqueue. apply wp_bind. eapply wp_the_thr; [done|]. apply wp_bind, wp_put_thr.
  eapply wp_mono; [apply mlfq_enqueue_spec; try done; by eapply swf_not_queued|]. intros r s' (-> & Hs' & ->). split_and!; [done|done|].
  eexists. rewrite rq_set_eq. apply elem_of_app. right. left.
Qed.

(** The next thread is the first one of the highest level that is not empty. *)
Definition next_thread s me : option tid := head (m_rq s me 3 ++ m_rq s me 2 ++ m_rq s me 1 ++ m_rq s me 0).
Lemma prio_ok_run x a p st : prio_ok x -> prio_ok (set_state st (with_run a p x)).
Proof. done. Qed.
Lemma next_loop_spec s me ls : swf s -> (forall l, l ∈ ls -> 0 <= l <= 3) ->
  wp (next_loop me ls) (fun r s' => r = head (mjoin (m_rq s me <$> ls)) /\ swf s' /\
    match r with
    | None => s' = s
    | Some t => exists l x q, l ∈ ls /\ m_rq s me l = t :: q /\ m_thr s !! t = Some x /\
        s' = set_thr t (set_state T_RUNNING (with_run (m_quantum s me l) me x)) (set_rq me l q s)
    end) s.
Proof.
  intros Hs Hls. induction ls as [|l ls IH]; cbn [next_loop]; [by apply wp_ret|].
  unfold wp. cbn [fmap list_fmap mjoin list_join]. destruct (m_rq s me l) as [|t q] eqn:Hq.
  { cbn [app]. specialize (IH (fun l' H => Hls l' (list_elem_of_further _ _ _ H))). unfold wp in IH. destruct (next_loop me ls s) as [r s'| | |]; try done.
    destruct IH as (A & B & C). split_and!; [done|done|]. destruct r as [t|]; [|done]. destruct C as (l' & x & q & C1 & C2). exists l', x, q. split; [by right|done]. }
  assert (t ∈ m_rq s me l) as Ht by (rewrite Hq; left). destruct (sw_where _ Hs me l t Ht) as (_ & _ & x & Hx & _ & _).
  change (wp (let! x := the_thr t in do! (fun s => Done tt (set_rq me l q s)) in do! put_thr t (set_state T_RUNNING (with_run (m_quantum s me l) me x)) in ret! (Some t))
    (fun r s' => r = head ((t :: q) ++ mjoin (m_rq s me <$> ls)) /\ swf s' /\ match r with None => s' = s | Some t => exists l' x q', l' ∈ l :: ls /\ m_rq s me l' = t :: q' /\ m_thr s !! t = Some x /\
        s' = set_thr t (set_state T_RUNNING (with_run (m_quantum s me l') me x)) (set_rq me l' q' s) end) s).
  apply wp_bind. eapply wp_the_thr; [done|]. apply wp_bind. unfold wp at 1. apply wp_bind, wp_put_thr, wp_ret. split_and!; [done| |].
  - apply (swf_leave s t _ me l [] q); [done|done|done|]. apply prio_ok_run. by eapply sw_prio.
  - exists l, x, q. split_and!; [left|done..].
Qed.

Lemma metrics_prio x : prio_ok x -> prio_ok (sched_update_thread_metrics x) /\ ti_state (sched_update_thread_metrics x) = ti_state x /\
  ts_priority (sched_update_thread_metrics x) = ts_priority x.
Proof.
  unfold prio_ok, sched_update_thread_metrics, clamp_prio, MLFQ_HIGH, NSCHED_LEVEL. intros Hp.
  destruct (Z.ltb_spec (4 - 1) (ts_priority x)), (Z.ltb_spec (ts_priority x) 0); try lia. cbn. destruct (ti_state x) eqn:E; cbn; done.
Qed.
Lemma sched_prio x : prio_ok x -> prio_ok (sched x) /\ ti_state (sched x) = ti_state x.
Proof.
  unfold prio_ok, sched, sched_set_highest_prior, sched_demote_thread, sched_promote_thread, MLFQ_HIGH, MLFQ_LOW, NSCHED_LEVEL. intros Hp.
  destruct (negb _); [cbn; split; [lia|done]|]. destruct (ts_timeslice x =? 0).
  - destruct (Z.ltb_spec 0 (ts_priority x)), (_ <=? ts_long_holds x); cbn; (split; [lia|done]).
  - destruct (Z.ltb_spec (ts_priority x) (4 - 1)), (_ <=? ts_short_holds x); cbn; (split; [lia|done]).
Qed.

Lemma swf_put s t x y : swf s -> m_thr s !! t = Some x -> ti_state y = ti_state x -> ts_priority y = ts_priority x -> swf (set_thr t y s).
Proof.
  intros [H1 H2 H3 H4 H5] Hx Est Ep. split; cbn [set_thr m_rq m_thr m_ncpu]; try done.
  - intros c l u Hu. destruct (H1 c l u Hu) as (A1 & A2 & z & A3 & A4 & A5). split_and!; [lia..|]. destruct (decide (u = t)) as [->|Hne].
    + exists y. rewrite lookup_insert_eq. assert (z = x) as -> by congruence. split_and!; congruence.
    + exists z. by rewrite lookup_insert_ne.
  - intros u z. destruct (decide (u = t)) as [->|Hne].
    + rewrite lookup_insert_eq. intros [= <-] Hr. rewrite Ep. apply H4; [done|congruence].
    + rewrite lookup_insert_ne by done. apply H4.
  - intros u z. destruct (decide (u = t)) as [->|Hne]; [rewrite lookup_insert_eq; intros [= <-]; unfold prio_ok; rewrite Ep; by apply (H5 t x)|].
    rewrite lookup_insert_ne by done. apply H5.
Qed.

Lemma enter_cpu_spec s me : swf s -> wp (enter_cpu me) (fun r s' => swf s' /\ r = next_thread s me /\
  (forall t, r = Some t -> exists l x q, m_rq s me l = t :: q /\ m_rq s' me l = q /\ m_thr s' !! t = Some x /\ ti_state x = T_RUNNING /\ ts_timeslice x = m_quantum s me l) /\
  (r = None -> s' = s)) s.
Proof.
  intros Hs. unfold enter_cpu. apply wp_bind. eapply wp_mono; [apply (next_loop_spec s me levels_down Hs)|].
  { intros l Hl. unfold levels_down in Hl. rewrite !elem_of_cons, elem_of_nil in Hl. lia. }
  intros r s1 (Er & Hs1 & Hr). assert (head (mjoin (m_rq s me <$> levels_down)) = next_thread s me) as E by (unfold next_thread; cbn; by rewrite app_nil_r).
  rewrite E in Er. destruct r as [t|]; [|apply wp_ret; subst s1; split_and!; try done]. destruct Hr as (l & x & q & Hl & Hq & Hx & ->).
  apply wp_bind. eapply wp_the_thr; [apply lookup_insert_eq|]. apply wp_bind, wp_put_thr, wp_ret.
  set (y := set_state T_RUNNING _) in *. pose proof (sw_prio _ Hs1 t y (lookup_insert_eq _ _ _)) as Hp. destruct (metrics_prio y Hp) as (M1 & M2 & M3).
  split_and!; [|done| |done].
  - eapply (swf_put _ t y); [exact Hs1|apply lookup_insert_eq|done|done].
  - intros t' [= <-]. exists l, (sched_update_thread_metrics y), q. split_and!; [done| |apply lookup_insert_eq|by rewrite M2|].
    + change (m_rq (set_rq me l q s) me l = q). apply rq_set_eq.
    + reflexivity.
Qed.

Lemma leave_cpu_spec s me t x st : swf s -> 0 <= me < m_ncpu s -> m_thr s !! t = Some x -> ti_state x = T_RUNNING ->
  st ∈ [T_READY; T_SLEEP; T_STOPPED; T_ZOMBIE] -> wp (leave_cpu me t st) (fun _ s' => swf s') s.
Proof.
  intros Hs Hme Hx Hr Hst. pose proof (sw_prio _ Hs t x Hx) as Hp. unfold leave_cpu. apply wp_bind. eapply wp_the_thr; [done|]. apply wp_bind, wp_put_thr.
  destruct (sched_prio (set_state st x) Hp) as [P1 P2]. destruct (metrics_prio _ P1) as (P3 & P4 & _). rewrite P2 in P4. cbn [set_state ti_state] in P4.
  set (y := sched_update_thread_metrics _) in *. assert (forall c l, t ∉ m_rq s c l) as Ht by (apply (swf_not_queued s t x Hs Hx); congruence).
  unfold hanlde_thread_state. apply wp_bind. eapply wp_the_thr; [apply lookup_insert_eq|]. rewrite P4.
  assert (st <> T_READY -> wp (M_ret tt) (fun _ s' => swf s') (set_thr t y s)) as Hother by (intros Hn; apply wp_ret, swf_set; try done; congruence).
  rewrite !elem_of_cons, elem_of_nil in Hst. destruct Hst as [->|[->|[->|[->|[]]]]]; [|by apply Hother..].
  apply wp_bind. eapply wp_mono; [by apply mlfq_enqueue_spec|]. intros r s' (-> & Hs' & _). by apply wp_assert.
Qed.

(** ** Balancing *)
Lemma cut_run_perm (pos n : nat) q : take pos q ++ drop (pos + n) q ++ take n (drop pos q) ≡ₚ q.
Proof.
  transitivity (take pos q ++ drop pos q); [|by rewrite take_drop]. apply Permutation_app_head. rewrite <- drop_drop.
  rewrite Permutation_app_comm. by rewrite take_drop.
Qed.
Lemma migrate_swf s dst src l pos n whence r s' :
  swf s -> dst <> src -> 0 <= dst < m_ncpu s -> 0 <= src < m_ncpu s -> 0 <= pos -> 0 <= n -> rq_migrate dst src l pos n whence s = (r, s') ->
  swf s' /\ m_ncpu s' = m_ncpu s /\ m_thr s' = m_thr s /\ (forall c l', c <> dst -> c <> src -> m_rq s' c l' = m_rq s c l').
Proof.
  intros Hs Hne Hd Hsr Hpos Hn. unfold rq_migrate. destruct (migrate_ok _ _ _ _); [|by intros [= <- <-]]. intros [= <- <-].
  split_and!; [|done|done|].
  - apply (swf_perm s dst src l); try done. rewrite Z2Nat.inj_add by done. pose proof (cut_run_perm (Z.to_nat pos) (Z.to_nat n) (m_rq s src l)) as Hp.
    set (b := take (Z.to_nat n) _) in *. unfold run_spliced. destruct (whence =? QUEUE_HEAD).
    + rewrite (Permutation_app_comm b), <- app_assoc. apply Permutation_app_head. rewrite Permutation_app_comm, <- app_assoc. exact Hp.
    + rewrite <- app_assoc. apply Permutation_app_head. rewrite Permutation_app_comm, <- app_assoc. exact Hp.
  - intros c l' H1 H2. rewrite !rq_set_ne; [done|..]; naive_solver.
Qed.
Definition moved_only s s' : Prop := swf s' /\ m_ncpu s' = m_ncpu s /\ m_thr s' = m_thr s.
Lemma moved_only_trans s1 s2 s3 : moved_only s1 s2 -> moved_only s2 s3 -> moved_only s1 s3.
Proof. intros (A1 & A2 & A3) (B1 & B2 & B3). split_and!; [done|congruence|congruence]. Qed.
Lemma half_len q : 0 <= len q / 2.
Proof. apply Z.div_pos; unfold len; lia. Qed.
Lemma pull_levels_swf avail me target load pulled ls s :
  swf s -> me <> target -> 0 <= me < m_ncpu s -> 0 <= target < m_ncpu s -> moved_only s (pull_levels avail me target load pulled ls s).
Proof.
  revert pulled s. induction ls as [|l ls IH]; intros pulled s Hs Hne Hme Ht; cbn [pull_levels]; [done|].
  destruct (_ <=? pulled); [done|]. destruct (negb (avail me l)); [by apply IH|]. destruct (negb (avail target l)); [by apply IH|].
  destruct (_ =? 0); [by apply IH|]. pose proof (half_len (m_rq s target l)) as Hl. destruct (rq_migrate _ _ _ _ _ _ _) as [r s1] eqn:E.
  apply migrate_swf in E as (S1 & S2 & S3 & _); [|done..|by destruct (_ =? 1)].
  assert (moved_only s s1) as Hm by done. destruct (negb _); (eapply moved_only_trans; [exact Hm|]); apply IH; rewrite ?S2; done.
Qed.
Lemma push_levels_swf avail me target pushed ls s :
  swf s -> target <> me -> 0 <= me < m_ncpu s -> 0 <= target < m_ncpu s -> moved_only s (push_levels avail me target pushed ls s).
Proof.
  revert pushed s. induction ls as [|l ls IH]; intros pushed s Hs Hne Hme Ht; cbn [push_levels]; [done|].
  destruct (negb (avail me l)); [by apply IH|]. destruct (negb (avail target l)); [by apply IH|].
  destruct (_ && _); [by apply IH|]. pose proof (half_len (m_rq s me l)) as Hl. destruct (rq_migrate _ _ _ _ _ _ _) as [r s1] eqn:E.
  apply migrate_swf in E as (S1 & S2 & S3 & _); [|done..|destruct (_ <=? _); [done|unfold len; lia]].
  assert (moved_only s s1) as Hm by done. destruct (negb _); (eapply moved_only_trans; [exact Hm|]); apply IH; rewrite ?S2; done.
Qed.
Lemma target_range (f : option Z * Z -> Z -> option Z * Z) s me :
  (forall o load c, f (o, load) c = (o, load) \/ (c <> me /\ (f (o, load) c).1 = Some c)) ->
  forall c, (foldl f (None, 0) (cpus s)).1 = Some c -> c <> me /\ 0 <= c < m_ncpu s.
Proof.
  intros Hf. apply (foldl_inv (fun p : option Z * Z => forall c, p.1 = Some c -> c <> me /\ 0 <= c < m_ncpu s)); [done|].
  intros [o load] b Hb%cpus_in IH. destruct (Hf o load b) as [->|[Hne ->]]; [exact IH|]. by intros c [= <-].
Qed.
Lemma pull_swf avail me s : swf s -> 0 <= me < m_ncpu s -> moved_only s (MLFQ_pull avail me s).
Proof.
  intros Hs Hme. unfold MLFQ_pull. destruct (pull_target me s) as [[c|] load] eqn:E; [|done]. destruct (load <? 2); [done|].
  assert (c <> me /\ 0 <= c < m_ncpu s) as [H1 H2]; [|apply pull_levels_swf; [done|congruence|done|done]].
  unfold pull_target in E. eapply (target_range _ s me); [|by rewrite E]. intros o ld c'. cbn beta iota. destruct (Z.eqb_spec c' me); [by left|]. cbv zeta.
  destruct (_ <? _); [by right|by left].
Qed.
Lemma push_swf avail me s : swf s -> 0 <= me < m_ncpu s -> moved_only s (MLFQ_push avail me s).
Proof.
  intros Hs Hme. unfold MLFQ_push. destruct (push_target me s) as [[c|] load] eqn:E; [|done]. destruct (_ <=? load); [done|].
  assert (c <> me /\ 0 <= c < m_ncpu s) as [H1 H2]; [|by apply push_levels_swf].
  unfold push_target in E. eapply (target_range _ s me); [|by rewrite E]. intros o ld c'. cbn beta iota. destruct (Z.eqb_spec c' me); [by left|]. cbv zeta.
  destruct (_ <=? _); [by right|by left].
Qed.
Lemma balance_swf avail me s : swf s -> 0 <= me < m_ncpu s -> moved_only s (MLFQ_balance avail me s).
Proof.
  intros Hs Hme. unfold MLFQ_balance. destruct (_ <? _); [by apply push_swf|]. destruct (_ <? _); [by apply pull_swf|]. done.
Qed.

(** ** Aging *)
Definition is_at s t c l (a : Z) : Prop := t ∈ m_rq s c l /\ exists x, m_thr s !! t = Some x /\ ts_age x = a.

Lemma with_prio_back x l p a : ts_priority x = l -> 0 <= l <= 3 -> (thread_set_prio l (with_prio p (with_age a x))).2 = with_age a x.
Proof.
  intros E Hl. unfold thread_set_prio, MLFQ_LOW, MLFQ_HIGH, NSCHED_LEVEL. destruct (Z.ltb_spec l 0), (Z.ltb_spec (4 - 1) l); try lia. subst l. by destruct x.
Qed.
Lemma filter_out t q1 q2 : t ∉ q1 -> t ∉ q2 -> filter (fun u => u <> t) (q1 ++ t :: q2) = q1 ++ q2.
Proof.
  intros H1 H2. rewrite filter_app, filter_cons_False by naive_solver. f_equal; apply filter_all; intros u Hu ->; done.
Qed.

(** The thread moves one level up, at the end of the queue. *)
Definition lifted s t x c l : msys :=
  let s1 := set_rq c l (filter (fun u => u <> t) (m_rq s c l)) (set_thr t x s) in set_rq c (l + 1) (m_rq s1 c (l + 1) ++ [t]) s1.
Lemma lifted_swf s t x c l : swf s -> t ∈ m_rq s c l -> ts_priority x = l + 1 -> l < 3 -> ti_state x = T_READY -> swf (lifted s t x c l).
Proof.
  intros Hs Ht Hx Hl Hst. destruct (sw_where _ Hs c l t Ht) as (Hc & Hl0 & _). pose proof Ht as Ht'. apply list_elem_of_split in Ht' as (q1 & q2 & Hq).
  pose proof (sw_once _ Hs c l) as Hnd. rewrite Hq in Hnd. apply NoDup_app in Hnd as (_ & Hd & [Hn2 _]%NoDup_cons).
  assert (t ∉ q1) as Hn1 by (intros Hin; apply (Hd t Hin); left).
  pose proof (swf_leave s t (set_state T_RUNNING x) c l q1 q2 Hs Hq ltac:(done)) as Hs1. set (s1 := set_thr t _ _) in Hs1.
  assert (prio_ok x) as Hp by (unfold prio_ok; lia). specialize (Hs1 Hp).
  pose proof (swf_enter s1 t x c Hs1) as Hs2. rewrite Hx in Hs2.
  assert (lifted s t x c l = set_rq c (l + 1) (m_rq s1 c (l + 1) ++ [t]) (set_thr t x s1)) as ->.
  { unfold lifted, s1, set_thr, set_rq. cbn [m_ncpu m_rq m_quantum m_thr]. rewrite Hq, filter_out by done. by rewrite insert_insert_eq. }
  apply Hs2; try done. apply (swf_not_queued s1 t (set_state T_RUNNING x)); [done|apply lookup_insert_eq|done].
Qed.

Definition aged s t x c l (up : bool) : msys := if up then lifted s t (with_age 0 (with_prio (l + 1) (with_age (ts_age x + 1) x))) c l else set_thr t (with_age (ts_age x + 1) x) s.
Lemma age_thread_eq avail s c l t x : swf s -> t ∈ m_rq s c l -> m_thr s !! t = Some x -> l < 3 ->
  age_thread avail c l t s = Done tt (aged s t x c l ((5 <? ts_age x + 1) && avail c (l + 1))).
Proof.
  intros Hs Ht Hx Hl. destruct (sw_where _ Hs c l t Ht) as (_ & Hl0 & y & Hy & _ & Hp). assert (y = x) as -> by congruence.
  unfold age_thread, M_bind, the_thr. rewrite Hx. cbn [with_age ts_age ts_priority thread_bump_priority THREAD_PRIO_INC Z.eqb with_prio fst snd]. unfold AGING_THRESHOLD.
  destruct (Z.leb_spec (ts_age x + 1) 5), (Z.ltb_spec 5 (ts_age x + 1)); try lia; [done|]. cbn [andb]. rewrite Hp. unfold MLFQ_HIGH, NSCHED_LEVEL.
  destruct (Z.ltb_spec (4 - 1) (l + 1)); [lia|]. destruct (Z.eqb_spec (l + 1) l); [lia|]. destruct (avail c (l + 1)); cbn [negb].
  - unfold put_thr, rq_relloc, lifted, aged. change (m_rq (set_thr t _ s) c l) with (m_rq s c l). rewrite decide_True by done. cbn [Z.eqb negb].
    replace (thread_bump_priority THREAD_PRIO_INC 1 (with_age (ts_age x + 1) x)).2 with (with_prio (l + 1) (with_age (ts_age x + 1) x)) by (by rewrite <- Hp).
    unfold set_thr, set_rq. cbn [m_ncpu m_rq m_quantum m_thr]. by rewrite insert_insert_eq.
  - unfold put_thr, aged. by rewrite with_prio_back by (done || lia).
Qed.
Lemma lifted_rq s t x c l c' l' u : u ∈ m_rq (lifted s t x c l) c' l' <-> (u ∈ m_rq s c' l' /\ ~ (u = t /\ c' = c /\ l' = l)) \/ (u = t /\ c' = c /\ l' = l + 1).
Proof.
  unfold lifted. rewrite !rq_set. change (m_rq (set_thr t x s)) with (m_rq s). repeat case_decide; rewrite ?elem_of_app, ?list_elem_of_singleton, ?list_elem_of_filter; try naive_solver lia.
Qed.

(** Where one pass over level [k] of CPU [c] takes a thread of that CPU. *)
Definition age_pos (avail : Z -> Z -> bool) c (p : Z * Z) (k : Z) : Z * Z :=
  let '(l, a) := p in
  if (l =? k) && negb (k =? 3) then (if (5 <? a + 1) && avail c (l + 1) then (l + 1, 0) else (l, a + 1)) else (l, a).
(** Every thread of [ts] moves as [f] says, every other one stays. *)
Definition moves s s' (P : tid -> Z -> Z -> Prop) (f : Z * Z -> Z * Z) : Prop :=
  swf s' /\ m_ncpu s' = m_ncpu s /\
  forall u c' l' a, is_at s u c' l' a -> (P u c' l' -> is_at s' u c' (f (l', a)).1 (f (l', a)).2) /\ (~ P u c' l' -> is_at s' u c' l' a).

Lemma aged_moves s t x c l up : swf s -> t ∈ m_rq s c l -> m_thr s !! t = Some x -> l < 3 ->
  moves s (aged s t x c l up) (fun u _ _ => u = t) (fun p => if up then (p.1 + 1, 0) else (p.1, p.2 + 1)).
Proof.
  intros Hs Ht Hx Hl. destruct (sw_where _ Hs c l t Ht) as (Hc & Hl0 & y & Hy & Hst & Hp). assert (y = x) as -> by congruence.
  assert (forall c' l', t ∈ m_rq s c' l' -> c' = c /\ l' = l) as Hat.
  { intros c' l' Hin. destruct (sw_where _ Hs c' l' t Hin) as (_ & _ & z & Hz & _ & Hpz). assert (z = x) as -> by congruence. subst. split; [|done]. by eapply sw_one. }
  split_and!.
  - destruct up; [apply lifted_swf; try done; cbn; lia|]. by eapply swf_put.
  - by destruct up.
  - intros u c' l' a (Hu & z & Hz & <-). split.
    + intros ->. assert (z = x) as -> by congruence. destruct (Hat c' l' Hu) as [-> ->]. destruct up; (split; [|eexists; split; [apply lookup_insert_eq|done]]).
      * apply lifted_rq. by right.
      * exact Hu.
    + intros Hne. destruct up; (split; [|exists z; split; [|done]; cbn; by rewrite lookup_insert_ne]).
      * apply lifted_rq. left. naive_solver.
      * exact Hu.
Qed.
Lemma is_at_split s u c' l' a : is_at s u c' l' a -> u ∈ m_rq s c' l'.
Proof. by intros []. Qed.
Lemma age_queue_moves avail s c l ts : swf s -> l < 3 -> NoDup ts -> (forall t, t ∈ ts -> t ∈ m_rq s c l) ->
  wp (age_queue avail c l ts) (fun _ s' => moves s s' (fun u _ _ => u ∈ ts) (fun p => age_pos avail c p l)) s.
Proof.
  intros Hs Hl. revert s Hs. induction ts as [|t ts IH]; intros s Hs Hnd Hin; cbn [age_queue].
  { apply wp_ret. split_and!; [done|done|]. intros u c' l' a Hu. split; [by intros ?%not_elem_of_nil|done]. }
  apply NoDup_cons in Hnd as [Hnt Hnd]. assert (t ∈ m_rq s c l) as Ht by (apply Hin; left).
  destruct (sw_where _ Hs c l t Ht) as (_ & Hl0 & x & Hx & _ & Hp). apply wp_bind. unfold wp at 1. erewrite age_thread_eq by done.
  set (up := _ && _). destruct (aged_moves s t x c l up Hs Ht Hx Hl) as (S1 & N1 & M1). set (s1 := aged s t x c l up) in *.
  assert (forall u, u ∈ ts -> u ∈ m_rq s1 c l) as Hin1.
  { intros u Hu. assert (u ∈ m_rq s c l) as Hq by (apply Hin; by right). destruct (sw_where _ Hs c l u Hq) as (_ & _ & y & Hy & _).
    eapply is_at_split. apply (M1 u c l (ts_age y)); [by split; [|exists y]|]. intros ->. done. }
  eapply wp_mono; [apply (IH s1); done|]. intros _ s2 (S2 & N2 & M2). split_and!; [done|congruence|].
  intros u c' l' a Hu. destruct (M1 u c' l' a Hu) as [A1 A2]. split.
  - intros [->|Hts]%elem_of_cons.
    + specialize (A1 eq_refl). apply M2 in A1 as [_ A1]. specialize (A1 Hnt). destruct Hu as (Hq & y & Hy & <-). assert (y = x) as -> by congruence.
      destruct (sw_where _ Hs c' l' t Hq) as (_ & _ & z & Hz & _ & Hpz). assert (z = x) as -> by congruence. assert (l' = l) as -> by congruence.
      unfold age_pos. rewrite Z.eqb_refl. destruct (Z.eqb_spec l 3); [lia|]. cbn [andb negb]. fold up. by destruct up.
    + assert (u <> t) as Hne by (by intros ->). by apply (proj1 (M2 u c' l' a (A2 Hne))).
  - intros Hn. rewrite elem_of_cons in Hn. apply (M2 u c' l' a); [apply A2; tauto|tauto].
Qed.

Lemma age_pos_other avail c l a k : l <> k -> age_pos avail c (l, a) k = (l, a).
Proof. intros H. unfold age_pos. by destruct (Z.eqb_spec l k). Qed.
Lemma age_levels_moves avail s c ls : swf s -> (forall l, l ∈ ls -> l <= 3) ->
  wp (age_levels avail c ls) (fun _ s' => moves s s' (fun _ c' _ => c' = c) (fun p => foldl (age_pos avail c) p ls)) s.
Proof.
  revert s. induction ls as [|k ls IH]; intros s Hs Hls; cbn [age_levels].
  { apply wp_ret. split_and!; [done|done|]. intros u c' l' a Hu. split; [done|done]. }
  apply wp_bind. assert (k <= 3) as Hk by (apply Hls; left).
  assert (wp (if k =? MLFQ_HIGH then M_ret tt else fun s => age_queue avail c k (m_rq s c k) s)
    (fun _ s1 => moves s s1 (fun _ c' _ => c' = c) (fun p => age_pos avail c p k)) s) as H1.
  { change MLFQ_HIGH with 3. destruct (Z.eqb_spec k 3) as [->|Hne].
    - apply wp_ret. split_and!; [done|done|]. intros u c' l' a Hu. split; [|done]. intros ->. unfold age_pos. destruct (_ =? _); exact Hu.
    - eapply wp_mono; [apply (age_queue_moves avail s c k (m_rq s c k) Hs); [lia|by apply sw_once|done]|]. intros _ s1 (S1 & N1 & M1). split_and!; [done|done|].
      intros u c' l' a Hu. destruct (M1 u c' l' a Hu) as [A1 A2]. split.
      + intros ->. destruct (decide (l' = k)) as [->|Hlk]; [apply A1; by eapply is_at_split|].
        rewrite age_pos_other by done. apply A2. intros Hin. destruct Hu as (Hq & _). destruct (sw_where _ Hs c l' u Hq) as (_ & _ & z & Hz & _ & Hpz).
        destruct (sw_where _ Hs c k u Hin) as (_ & _ & z' & Hz' & _ & Hpz'). congruence.
      + intros Hne'. apply A2. intros Hin. apply Hne'. destruct Hu as (Hq & _). destruct (sw_where _ Hs c' l' u Hq) as (_ & _ & z & Hz & _ & Hpz).
        destruct (sw_where _ Hs c k u Hin) as (_ & _ & z' & Hz' & _ & Hpz'). apply (sw_one _ Hs c' c k u); [|done]. by replace k with l' by congruence. }
  eapply wp_mono; [exact H1|]. intros _ s1 (S1 & N1 & M1). eapply wp_mono; [apply (IH s1 S1); intros; apply Hls; by right|].
  intros _ s2 (S2 & N2 & M2). split_and!; [done|congruence|]. intros u c' l' a Hu. destruct (M1 u c' l' a Hu) as [A1 A2]. split.
  - intros ->. specialize (A1 eq_refl). apply M2 in A1 as [A1 _]. specialize (A1 eq_refl). cbn [foldl]. by destruct (age_pos avail c (l', a) k).
  - intros Hne. by apply (proj2 (M2 u c' l' a (A2 Hne))).
Qed.
Lemma age_cpus_moves avail s cs : swf s -> NoDup cs ->
  wp (age_cpus avail cs) (fun _ s' => swf s' /\ m_ncpu s' = m_ncpu s /\ forall u c l a, is_at s u c l a ->
    (c ∈ cs -> is_at s' u c (foldl (age_pos avail c) (l, a) levels_up).1 (foldl (age_pos avail c) (l, a) levels_up).2) /\ (c ∉ cs -> is_at s' u c l a)) s.
Proof.
  revert s. induction cs as [|c cs IH]; intros s Hs Hnd; cbn [age_cpus].
  { apply wp_ret. split_and!; [done|done|]. intros u c l a Hu. split; [by intros ?%not_elem_of_nil|done]. }
  apply NoDup_cons in Hnd as [Hnc Hnd]. apply wp_bind. eapply wp_mono; [apply (age_levels_moves avail s c levels_up Hs)|].
  { intros l. unfold levels_up. rewrite !elem_of_cons, elem_of_nil. lia. }
  intros _ s1 (S1 & N1 & M1). eapply wp_mono; [by apply (IH s1)|]. intros _ s2 (S2 & N2 & M2). split_and!; [done|congruence|].
  intros u c' l a Hu. destruct (M1 u c' l a Hu) as [A1 A2]. split.
  - intros [->|Hin]%elem_of_cons; [by apply (proj2 (M2 u c _ _ (A1 eq_refl)))|]. apply (M2 u c' l a); [|done]. apply A2. by intros ->.
  - rewrite elem_of_cons. intros Hn. apply (M2 u c' l a); [apply A2|]; tauto.
Qed.
Lemma aging_moves avail s : swf s ->
  wp (MLFQ_aging avail) (fun _ s' => swf s' /\ m_ncpu s' = m_ncpu s /\ forall u c l a, is_at s u c l a ->
    is_at s' u c (foldl (age_pos avail c) (l, a) levels_up).1 (foldl (age_pos avail c) (l, a) levels_up).2) s.
Proof.
  intros Hs. unfold MLFQ_aging. eapply wp_mono; [apply (age_cpus_moves avail s (cpus s) Hs); apply NoDup_seqZ|].
  intros _ s' (S1 & N1 & M1). split_and!; [done|done|]. intros u c l a Hu. apply (proj1 (M1 u c l a Hu)). apply cpus_in. by destruct (sw_where _ Hs c l u (is_at_split _ _ _ _ _ Hu)).
Qed.

(** ** Repeated aging *)
Fixpoint agings (avail : Z -> Z -> bool) (n : nat) : SM unit :=
  match n with O => M_ret tt | S n => M_bind (MLFQ_aging avail) (fun _ => agings avail n) end.
(** How many passes are left before a waiting thread is at the highest level. *)
Definition passes_left (l a : Z) : Z := if l <? 3 then 6 - Z.min a 5 + 5 * (2 - l) else 0.
Lemma passes_left_range l a : 0 <= l <= 3 -> 0 <= a -> 0 <= passes_left l a <= 16 /\ (passes_left l a = 0 -> l = 3).
Proof. intros Hl Ha. unfold passes_left. destruct (Z.ltb_spec l 3); lia. Qed.
Definition free_locks : Z -> Z -> bool := fun _ _ => true.
Lemma pass_eq c l a : 0 <= l <= 3 -> foldl (age_pos free_locks c) (l, a) levels_up =
  if l =? 3 then (3, a) else if a <? 5 then (l, a + 1) else if l =? 2 then (3, 0) else (l + 1, 1).
Proof.
  intros Hl. assert (l = 0 \/ l = 1 \/ l = 2 \/ l = 3) as Hc by lia. unfold levels_up, age_pos, free_locks.
  destruct (5 <? a + 1) eqn:E; (destruct (Z.ltb_spec a 5); [try lia|try lia]); destruct Hc as [->|[->|[->| ->]]]; cbn; rewrite ?E; reflexivity || lia.
Qed.
Lemma pass_decreases c l a : 0 <= l <= 3 -> 0 <= a ->
  let p := foldl (age_pos free_locks c) (l, a) levels_up in 0 <= p.2 /\ passes_left p.1 p.2 <= Z.max 0 (passes_left l a - 1).
Proof.
  intros Hl Ha p. unfold p. rewrite pass_eq by done. unfold passes_left.
  destruct (Z.eqb_spec l 3) as [->|]; [cbn; lia|]. destruct (Z.ltb_spec l 3); [|lia].
  destruct (Z.ltb_spec a 5); cbn [fst snd]; [destruct (Z.ltb_spec l 3); lia|]. destruct (Z.eqb_spec l 2); cbn [fst snd]; [cbn; lia|]. destruct (Z.ltb_spec (l + 1) 3); lia.
Qed.
Lemma agings_lift n s u c l a : swf s -> is_at s u c l a -> 0 <= a -> passes_left l a <= Z.of_nat n ->
  wp (agings free_locks n) (fun _ s' => swf s' /\ u ∈ m_rq s' c 3) s.
Proof.
  revert s l a. induction n as [|n IH]; intros s l a Hs Hu Ha Hn; cbn [agings]; pose proof Hu as [Hq _]; destruct (sw_where _ Hs c l u Hq) as (_ & Hl & _);
    destruct (passes_left_range l a Hl Ha) as [Hr Hz].
  - apply wp_ret. split; [done|]. by rewrite <- (Hz ltac:(lia)).
  - apply wp_bind. eapply wp_mono; [by apply aging_moves|]. intros _ s1 (S1 & _ & M1). specialize (M1 u c l a Hu).
    destruct (pass_decreases c l a Hl Ha) as (P2 & P3). eapply (IH s1); [done|exact M1|done|lia].
Qed.
