(* ===== verification/SchedProps.v ===== *)
(** * The scheduler: properties

    Every ready thread waits in exactly one run queue, at the level of its priority,
    whatever the CPUs, the balancer and aging do; the CPU takes the first thread of
    its highest level; aging brings every waiting thread to the highest level; and
    what the balancer and the affinity masks do not do. *)
From S2P Require Import Prelude Errno Queue QueueMove Wait WaitFacts Sched SchedFacts.

Implicit Types (s : msys) (c l : Z) (t u : tid) (x : tsched) (q : list tid).

Definition booted s : Prop :=
  0 < m_ncpu s /\ (forall c l, m_rq s c l = []) /\ forall t x, m_thr s !! t = Some x -> ti_state x <> T_READY /\ prio_ok x.
(** A ready thread is in one queue of one CPU, of the level of its priority; any other
    thread is in none. *)
Definition placed s : Prop := forall t x, m_thr s !! t = Some x ->
  (ti_state x = T_READY -> exists c, 0 <= c < m_ncpu s /\ forall c' l', t ∈ m_rq s c' l' <-> c' = c /\ l' = ts_priority x) /\
  (ti_state x <> T_READY -> forall c l, t ∉ m_rq s c l).

Lemma booted_swf s : booted s -> swf s.
Proof.
  intros (_ & Hq & Ht). split.
  - intros c l t. rewrite Hq. by intros ?%not_elem_of_nil.
  - intros c l. rewrite Hq. apply NoDup_nil_2.
  - intros c c' l t. rewrite Hq. by intros ?%not_elem_of_nil.
  - intros t x Hx Hr. by destruct (Ht t x Hx).
  - intros t x Hx. by destruct (Ht t x Hx).
Qed.
Lemma swf_placed s : swf s -> placed s.
Proof.
  intros Hs t x Hx. split; [|intros Hn; by eapply swf_not_queued]. intros Hr. destruct (sw_ready _ Hs t x Hx Hr) as [c Hc]. exists c.
  destruct (sw_where _ Hs c _ t Hc) as (Hc0 & _). split; [done|]. intros c' l'. split; [|by intros [-> ->]]. intros Hin.
  destruct (sw_where _ Hs c' l' t Hin) as (_ & _ & y & Hy & _ & Hp). assert (y = x) as -> by congruence. subst l'. split; [|done]. by eapply sw_one.
Qed.

Lemma s_exec_swf s o : swf s -> s_legal s o -> exists s', s_exec o s = Done tt s' /\ swf s'.
Proof.
  intros Hs Ho. enough (wp (s_exec o) (fun _ s' => swf s') s) as Hw.
  { unfold wp in Hw. destruct (s_exec o s) as [[] s'| | |]; try done. by exists s'. }
  destruct o as [c t|c|c t st|t|avail c|avail]; cbn [s_exec s_legal] in *.
  - destruct Ho as (Hc & x & Hx & Hst). apply wp_bind. eapply wp_mono; [eapply schedule_spec; try done|].
    { rewrite !elem_of_cons, elem_of_nil in Hst. intros E. rewrite E in Hst. naive_solver. }
    intros r s' (-> & Hs' & _). by apply wp_assert.
  - apply wp_bind. eapply wp_mono; [by apply enter_cpu_spec|]. intros r s' (Hs' & _). by apply wp_ret.
  - destruct Ho as (Hc & (x & Hx & Hr) & Hst). rewrite list_elem_of_singleton in Hr. by eapply leave_cpu_spec.
  - destruct Ho as (x & Hx & _). unfold tick. apply wp_bind. eapply wp_the_thr; [done|]. apply wp_put_thr. by eapply swf_put.
  - by destruct (balance_swf avail c s Hs Ho).
  - eapply wp_mono; [by apply aging_moves|]. by intros _ s' (Hs' & _).
Qed.
Lemma sched_reach s0 s : swf s0 -> rtc sched_step s0 s -> swf s.
Proof.
  intros H0 Hr. induction Hr as [|s1 s2 s3 [o s' Ho He] Hr IH]; [done|]. apply IH. destruct (s_exec_swf _ _ H0 Ho) as (s'' & E & Hs). congruence.
Qed.

(** C8: from a system whose run queues are empty, in every state that scheduling,
    context switches, timer ticks, load balancing and aging on any CPUs can reach, in
    any order and with any locks busy, every ready thread is in exactly one run queue
    of one CPU, the one of its priority, and a thread that is not ready is in none; and
    no operation that is legal there panics or fails an assertion. *)
Theorem sched_threads_placed s0 s : booted s0 -> rtc sched_step s0 s ->
  placed s /\ forall o, s_legal s o -> exists s', s_exec o s = Done tt s' /\ placed s'.
Proof.
  intros H0 Hr. pose proof (sched_reach _ _ (booted_swf _ H0) Hr) as Hs. split; [by apply swf_placed|].
  intros o Ho. destruct (s_exec_swf s o Hs Ho) as (s' & E & Hs'). exists s'. split; [done|]. by apply swf_placed.
Qed.

Definition sample_thr (st : tstate_t) (p a : Z) (af : cpu_affin_t) : tsched := mkTsched st p a 0 0 0 10 10 0 0 af.
Definition soft : cpu_affin_t := mkAffin SOFT_AFFINITY 0.
Definition sample_msys : msys := MLFQ_init 0 10 (mkMsys 2 (fun _ _ => []) (fun _ _ => 10) (<[1%nat := sample_thr T_EMBRYO 3 0 soft]> ∅)).
Lemma sample_booted : booted sample_msys.
Proof.
  split_and!; [done|intros c l; cbn; by destruct (c =? 0)|]. intros t x. cbn [sample_msys MLFQ_init m_thr].
  destruct (decide (t = 1%nat)) as [->|Hne]; [rewrite lookup_insert_eq; intros [= <-]; split; [done|unfold prio_ok; cbn; lia]|].
  rewrite lookup_insert_ne by done. by rewrite lookup_empty.
Qed.
(** A thread is scheduled on CPU 0 and waits in the highest queue of the last CPU. *)
Lemma sched_threads_placed_witness : exists s, rtc sched_step sample_msys s /\ placed s /\ m_rq s 1 3 = [1%nat].
Proof.
  destruct (s_exec (SSchedule 0 1%nat) sample_msys) as [[] s| | |] eqn:E; try (exfalso; vm_compute in E; discriminate E). exists s.
  assert (rtc sched_step sample_msys s) as Hr.
  { eapply rtc_once, (sched_step_op _ (SSchedule 0 1%nat)); [|exact E]. split; [cbn; lia|]. eexists. split; [reflexivity|]. left. }
  split_and!; [exact Hr|apply (sched_threads_placed sample_msys s sample_booted Hr)|]. vm_compute in E. injection E as <-. reflexivity.
Defined.

(** ** Which thread runs next *)
Lemma queued_level s t c l c' l' : swf s -> t ∈ m_rq s c l -> t ∈ m_rq s c' l' -> l = l'.
Proof.
  intros Hs H1 H2. destruct (sw_where _ Hs c l t H1) as (_ & _ & x & Hx & _ & Hp). destruct (sw_where _ Hs c' l' t H2) as (_ & _ & y & Hy & _ & Hp'). congruence.
Qed.
Lemma next_level s me t : next_thread s me = Some t -> exists l, 0 <= l <= 3 /\ t ∈ m_rq s me l /\ forall l', l < l' <= 3 -> m_rq s me l' = [].
Proof.
  unfold next_thread. intros H. assert (forall l, m_rq s me l = [] \/ exists u q, m_rq s me l = u :: q) as Hd by (intros l; destruct (m_rq s me l); eauto).
  assert (forall l', l' = 1 \/ l' = 2 \/ l' = 3 \/ ~ (0 < l' <= 3)) as Hl by (intros; lia).
  destruct (Hd 3) as [E3|(u & q & E3)]; rewrite E3 in H; cbn in H.
  2: { exists 3. injection H as ->. rewrite E3. split_and!; [lia..|left|lia]. }
  destruct (Hd 2) as [E2|(u & q & E2)]; rewrite E2 in H; cbn in H.
  2: { exists 2. injection H as ->. rewrite E2. split_and!; [lia..|left|]. intros l' ?. by replace l' with 3 by lia. }
  destruct (Hd 1) as [E1|(u & q & E1)]; rewrite E1 in H; cbn in H.
  2: { exists 1. injection H as ->. rewrite E1. split_and!; [lia..|left|]. intros l' ?. destruct (Hl l') as [->|[->|[->|?]]]; try done; lia. }
  destruct (Hd 0) as [E0|(u & q & E0)]; rewrite E0 in H; cbn in H; [done|].
  exists 0. injection H as ->. rewrite E0. split_and!; [lia..|left|]. intros l' ?. destruct (Hl l') as [->|[->|[->|?]]]; try done; lia.
Qed.

(** C32: a CPU that asks for the next thread gets the first one of its highest run
    queue that is not empty: all its queues above are empty, the thread leaves the
    queue, is running with the quantum of the level, and every CPU's invariant holds;
    it gets none exactly when all its queues are empty. *)
Theorem next_thread_highest s me : swf s ->
  exists r s', enter_cpu me s = Done r s' /\ placed s' /\
    (forall t, r = Some t -> exists l q x, m_rq s me l = t :: q /\ (forall l', l < l' <= 3 -> m_rq s me l' = []) /\
       m_rq s' me l = q /\ m_thr s' !! t = Some x /\ ti_state x = T_RUNNING /\ ts_timeslice x = m_quantum s me l) /\
    (r = None <-> forall l, 0 <= l <= 3 -> m_rq s me l = []).
Proof.
  intros Hs. pose proof (enter_cpu_spec s me Hs) as H. unfold wp in H. destruct (enter_cpu me s) as [r s'| | |]; try done.
  destruct H as (Hs' & Hr & Hsome & Hnone). exists r, s'. split_and!; [done|by apply swf_placed| |].
  - intros t ->. destruct (Hsome t eq_refl) as (l & x & q & A1 & A2 & A3 & A4 & A5). exists l, q, x. split_and!; try done.
    destruct (next_level s me t (eq_sym Hr)) as (l2 & _ & B1 & B2). replace l with l2; [done|]. apply (queued_level s t me l2 me l Hs B1). rewrite A1. left.
  - rewrite Hr. split.
    + unfold next_thread. intros Hh l Hl. assert (l = 0 \/ l = 1 \/ l = 2 \/ l = 3) as Hc by lia. apply head_None in Hh. rewrite !app_nil in Hh. naive_solver.
    + intros Hq. unfold next_thread. by rewrite !Hq by lia.
Qed.
(** The sample thread, scheduled. *)
Definition after (o : sched_op) s : msys := match s_exec o s with Done _ s' => s' | _ => s end.
Lemma after_swf o s : swf s -> s_legal s o -> swf (after o s).
Proof. intros Hs Ho. unfold after. by destruct (s_exec_swf s o Hs Ho) as (s' & -> & Hs'). Qed.
Definition sample_ready : msys := after (SSchedule 0 1%nat) sample_msys.
Lemma sample_ready_swf : swf sample_ready.
Proof.
  apply after_swf; [apply booted_swf, sample_booted|]. split; [cbn; lia|]. eexists. split; [reflexivity|]. left.
Qed.
Lemma next_thread_highest_witness : m_rq sample_ready 1 3 = [1%nat] /\ exists r s', enter_cpu 1 sample_ready = Done r s' /\ r <> None /\ m_rq s' 1 3 = [].
Proof.
  split; [reflexivity|]. destruct (next_thread_highest sample_ready 1 sample_ready_swf) as (r & s' & E & _ & Hsome & Hnone).
  exists r, s'. split; [exact E|]. vm_compute in E. injection E as <- <-. split; [discriminate|reflexivity].
Defined.

(** ** Aging *)
(** C31: no thread starves at a low level: when the locks of the run queues are free,
    sixteen aging passes succeed and after them every thread that waits in any run
    queue, with any age, is in the highest run queue of the same CPU. *)
Theorem aging_lifts_all s : swf s ->
  forall t c l x, t ∈ m_rq s c l -> m_thr s !! t = Some x -> 0 <= ts_age x ->
  exists s', agings free_locks 16 s = Done tt s' /\ placed s' /\ t ∈ m_rq s' c MLFQ_HIGH.
Proof.
  intros Hs t c l x Ht Hx Ha. destruct (sw_where _ Hs c l t Ht) as (_ & Hl & _). destruct (passes_left_range l (ts_age x) Hl Ha) as [Hp _].
  assert (is_at s t c l (ts_age x)) as Hat by (split; [done|by exists x]).
  pose proof (agings_lift 16 s t c l (ts_age x) Hs Hat Ha ltac:(lia)) as H. unfold wp in H. destruct (agings free_locks 16 s) as [[] s'| | |]; try done.
  destruct H as [Hs' Hin]. exists s'. split_and!; [done|by apply swf_placed|done].
Qed.
(** A thread that waits at the lowest level. *)
Definition sample_low : msys := set_rq 1 0 [1%nat] (set_thr 1%nat (sample_thr T_READY 0 0 soft) (mkMsys 2 (fun _ _ => []) (fun _ _ => 10) ∅)).
Lemma single_swf n c t x : 0 <= c < n -> prio_ok x -> ti_state x = T_READY -> swf (set_rq c (ts_priority x) [t] (set_thr t x (mkMsys n (fun _ _ => []) (fun _ _ => 10) ∅))).
Proof.
  intros Hc Hp Hx. apply (swf_enter (mkMsys n (fun _ _ => []) (fun _ _ => 10) ∅) t x c); [|intros c' l'; apply not_elem_of_nil|done..].
  apply booted_swf. split_and!; [cbn; lia|done|]. intros u y. cbn. by rewrite lookup_empty.
Qed.
Lemma sample_low_swf : swf sample_low.
Proof. apply (single_swf 2 1 1%nat (sample_thr T_READY 0 0 soft)); [lia|unfold prio_ok; cbn; lia|done]. Qed.
Lemma aging_lifts_all_witness : m_rq sample_low 1 0 = [1%nat] /\ exists s', agings free_locks 16 sample_low = Done tt s' /\ 1%nat ∈ m_rq s' 1 3.
Proof.
  split; [reflexivity|]. destruct (aging_lifts_all sample_low sample_low_swf 1%nat 1 0 (sample_thr T_READY 0 0 soft)) as (s' & E & _ & Hin);
    [left|reflexivity|cbn; lia|]. exists s'. split; [exact E|exact Hin].
Defined.

(** ** What balancing does *)
Lemma load_nonneg s c : 0 <= MLFQ_load s c.
Proof. unfold MLFQ_load, levels_down, len. cbn. lia. Qed.
Lemma total_nonneg s (cs : list Z) : 0 <= foldl (fun n c => n + MLFQ_load s c) 0 cs.
Proof. apply (foldl_inv (fun n => 0 <= n)); [done|]. intros n c _ Hn. pose proof (load_nonneg s c). lia. Qed.
Definition avg_load s : Z := foldl (fun n c => n + MLFQ_load s c) 0 (cpus s) / m_ncpu s.

(** The test for a lightly loaded CPU subtracts in unsigned arithmetic: while the
    CPUs have fewer than two waiting threads each on average, the difference wraps
    around and a CPU that does not push always pulls, also when it has more than the
    average. *)
Theorem balance_pulls_when_idle avail s me :
  0 < m_ncpu s -> avg_load s < 2 -> MLFQ_load s me <= avg_load s + 2 -> MLFQ_balance avail me s = MLFQ_pull avail me s.
Proof.
  intros Hn Ha Hl. unfold MLFQ_balance. fold (avg_load s). pose proof (total_nonneg s (cpus s)) as Ht.
  assert (0 <= avg_load s) as H0 by (apply Z.div_pos; [exact Ht|done]).
  rewrite (u64_small (avg_load s + 2)) by (unfold is_u64; rewrite two64_eq; lia).
  assert (u64 (avg_load s - 2) = avg_load s - 2 + two64) as ->.
  { rewrite <- (u64_sub_add (avg_load s - 2) 1), Z.mul_1_l. apply u64_small. unfold is_u64. rewrite two64_eq. lia. }
  rewrite two64_eq. destruct (Z.ltb_spec (avg_load s + 2) (MLFQ_load s me)); [lia|]. destruct (Z.ltb_spec (MLFQ_load s me) (avg_load s - 2 + 2 ^ 64)); [done|lia].
Qed.
(** Three threads wait on CPU 1 of four, the average is 0, and CPU 2 takes one. *)
Definition sample_busy : msys := set_rq 1 3 [1; 2; 3]%nat (mkMsys 4 (fun _ _ => []) (fun _ _ => 10) ∅).
Lemma balance_pulls_when_idle_witness :
  avg_load sample_busy = 0 /\ MLFQ_balance free_locks 2 sample_busy = MLFQ_pull free_locks 2 sample_busy /\ m_rq (MLFQ_pull free_locks 2 sample_busy) 2 3 = [2]%nat.
Proof.
  split; [reflexivity|]. split; [|reflexivity]. apply (balance_pulls_when_idle free_locks sample_busy 2); [reflexivity|reflexivity|vm_compute; discriminate].
Defined.

(** Pushing looks for a CPU with at most the load of the target it has so far, and
    starts from a load of zero: while every other CPU has a waiting thread, an
    overloaded CPU pushes nothing, whatever its own load is. *)
Theorem push_needs_idle_cpu avail s me : (forall c, 0 <= c < m_ncpu s -> c <> me -> 0 < MLFQ_load s c) -> MLFQ_push avail me s = s.
Proof.
  intros H. assert (push_target me s = (None, 0)) as E; [|unfold MLFQ_push; by rewrite E].
  unfold push_target. apply (foldl_inv (fun p => p = (None, 0))); [done|]. intros p c Hc%cpus_in ->.
  destruct (Z.eqb_spec c me); [done|]. cbv zeta. specialize (H c Hc n). destruct (Z.leb_spec (MLFQ_load s c) 0); [lia|done].
Qed.
(** Nine threads on CPU 0 and one on CPU 1. *)
Definition sample_over : msys := set_rq 0 3 [1; 2; 3; 4; 5; 6; 7; 8; 9]%nat (set_rq 1 3 [10%nat] (mkMsys 2 (fun _ _ => []) (fun _ _ => 10) ∅)).
Lemma push_needs_idle_cpu_witness : MLFQ_load sample_over 0 = 9 /\ MLFQ_push free_locks 0 sample_over = sample_over.
Proof.
  split; [reflexivity|]. apply (push_needs_idle_cpu free_locks sample_over 0). intros c Hc Hne. assert (c = 1) as -> by (cbn in Hc; lia). vm_compute. reflexivity.
Defined.

(** A thread with a hard affinity mask is placed on the CPU that wakes it, in or
    outside the mask, while every CPU of the mask has more waiting threads. *)
Theorem hard_affinity_wakes_here s t x me :
  swf s -> 0 <= me < m_ncpu s -> m_thr s !! t = Some x -> ti_state x <> T_READY -> af_type (ts_affin x) = HARD_AFFINITY ->
  (forall c, 0 <= c < m_ncpu s -> Z.testbit (af_cpu_set (ts_affin x)) c = true -> MLFQ_load s me < MLFQ_load s c) ->
  exists s', thread_schedule me t s = Done 0 s' /\ t ∈ m_rq s' me MLFQ_HIGH.
Proof.
  intros Hs Hme Hx Hst Haf Hload. set (y := set_state T_READY (with_prio MLFQ_HIGH x)).
  assert (choose_cpu (set_thr t y s) me y = me) as Hch.
  { unfold choose_cpu. change (ts_affin y) with (ts_affin x). rewrite Haf. unfold hard_target.
    rewrite (foldl_inv (fun p => p = (me, MLFQ_load (set_thr t y s) me)) _ (cpus (set_thr t y s)) (me, MLFQ_load (set_thr t y s) me)); [done|done|].
    intros p c Hc%cpus_in ->. destruct (Z.eqb_spec (Z.land (af_cpu_set (ts_affin x)) (Z.shiftl 1 c)) 0) as [|Hb]; [done|]. cbv zeta.
    assert (Z.testbit (af_cpu_set (ts_affin x)) c = true) as Hbit.
    { apply not_false_is_true. intros Hf. apply Hb. apply Z.bits_inj'. intros i Hi. rewrite Z.land_spec, Z.bits_0, Z.shiftl_1_l, Z.pow2_bits_eqb by lia.
      destruct (Z.eqb_spec c i) as [<-|]; [by rewrite Hf|apply andb_false_r]. }
    specialize (Hload c Hc Hbit). change (MLFQ_load (set_thr t y s)) with (MLFQ_load s). destruct (Z.leb_spec (MLFQ_load s c) (MLFQ_load s me)); [lia|done]. }
  pose proof (mlfq_enqueue_spec s t y me Hs (swf_not_queued s t x Hs Hx Hst) Hme ltac:(unfold prio_ok, y; cbn; unfold MLFQ_HIGH, NSCHED_LEVEL; lia) eq_refl) as He. cbv zeta in He. rewrite Hch in He.
  unfold thread_schedule, sched_enqueue, M_bind, the_thr, put_thr. rewrite Hx. change (thread_set_prio MLFQ_HIGH x).2 with (with_prio MLFQ_HIGH x). fold y.
  unfold wp in He. destruct (MLFQ_enqueue me t (set_thr t y s)) as [r s'| | |]; try done. destruct He as (-> & _ & ->). eexists. split; [done|].
  rewrite rq_set_eq. apply elem_of_app. right. left.
Qed.
(** A thread bound to CPU 1, which has a waiting thread, is woken by CPU 0. *)
Definition sample_bound : msys := set_thr 2%nat (sample_thr T_SLEEP 3 0 (mkAffin HARD_AFFINITY 2)) sample_ready.
Lemma hard_affinity_wakes_here_witness : MLFQ_load sample_bound 1 = 1 /\ exists s', thread_schedule 0 2%nat sample_bound = Done 0 s' /\ 2%nat ∈ m_rq s' 0 3.
Proof.
  split; [reflexivity|]. apply (hard_affinity_wakes_here sample_bound 2%nat (sample_thr T_SLEEP 3 0 (mkAffin HARD_AFFINITY 2)) 0).
  - apply swf_set; [exact sample_ready_swf| |discriminate|vm_compute; split; discriminate]. intros c l Hin.
    destruct (sw_where _ sample_ready_swf c l 2%nat Hin) as (_ & _ & y & Hy & _). vm_compute in Hy. discriminate.
  - split; [discriminate|reflexivity].
  - reflexivity.
  - discriminate.
  - reflexivity.
  - intros c Hc Hb. change (m_ncpu sample_bound) with 2 in Hc. assert (c = 0 \/ c = 1) as [->| ->] by lia; [discriminate Hb|reflexivity].
Defined.
