(* ===== verification/Paging.v ===== *)
(** * Page tables (arch/x86_64/paging.c, include/arch/x86_64/paging.h)

    The state is the register CR3, the words of physical memory that hold page-table
    entries, and what the two allocators promise (classes [FrameAlloc] and [Vmman]).
    The kernel edits the tables through the recursive entry 511 of the root table:
    every access goes through the address translation of the processor ([mmu]), and an
    access to a virtual address that is not mapped is a page fault ([Fault]).  The
    translation reads the tables as they are: the code invalidates the translation
    buffer after every change, so that [x86_64_tlb_shootdown] has no effect here.
    Entries for pages of 2 MiB and 1 GiB, which the code refuses, are left out of the
    translation. *)
From S2P Require Import Prelude Errno Pmm.

(** ** What the allocators promise

    [__page_alloc] of a normal frame, [__page_put] and [__page_get] as operations on
    reference counts; [fmanaged] frames lie in a zone. *)
Definition frame_ok (f : Z) : Prop := 0 < f < 2 ^ 52 /\ f mod PGSZ = 0.
Class FrameAlloc := {
  fstate : Type;
  refs : fstate -> Z -> Z;
  fmanaged : Z -> bool;
  falloc : fstate -> option (Z * fstate);
  fput : fstate -> Z -> fstate;
  fget : fstate -> Z -> fstate;
  refs_nonneg a g : 0 <= refs a g;
  falloc_fresh a f a' : falloc a = Some (f, a') -> refs a f = 0 /\ frame_ok f /\ fmanaged f = true;
  falloc_refs a f a' g : falloc a = Some (f, a') -> refs a' g = if decide (g = f) then 1 else refs a g;
  fput_refs a f g : 0 < refs a f -> refs (fput a f) g = if decide (g = f) then refs a f - 1 else refs a g;
  fget_refs a f g : 0 < refs a f -> refs (fget a f) g = if decide (g = f) then refs a f + 1 else refs a g
}.
(** [vmman.alloc] and [vmman.free] of kernel virtual memory: 0 is failure. *)
Class Vmman := {
  vstate : Type;
  vm_alloc : vstate -> Z -> Z * vstate;
  vm_free : vstate -> Z -> vstate
}.

(** ** Entries and indices *)
Definition PTE_P : Z := BS 0.
Definition PTE_W : Z := BS 1.
Definition PTE_U : Z := BS 2.
Definition PTE_WT : Z := BS 3.
Definition PTE_CD : Z := BS 4.
Definition PTE_PS : Z := BS 7.
Definition PTE_ZERO : Z := BS 9.
Definition PTE_REMAP : Z := BS 10.
Definition PTE_ALLOC : Z := BS 11.
Definition PTE_X : Z := PTE_P.
Definition PTE_WTCD : Z := Z.lor PTE_WT PTE_CD.
Definition PTE_R : Z := PTE_P.
Definition PTE_KR : Z := PTE_R.
Definition PTE_KW : Z := Z.lor PTE_KR PTE_W.
Definition PTE_KRW : Z := Z.lor PTE_KR PTE_KW.
Definition PTE_UR : Z := Z.lor PTE_U PTE_R.
Definition PTE_URW : Z := Z.lor PTE_UR PTE_W.

Definition _isP (f : Z) : bool := negb (Z.land f PTE_P =? 0).
Definition _isW (f : Z) : bool := negb (Z.land f PTE_W =? 0).
Definition _isU (f : Z) : bool := negb (Z.land f PTE_U =? 0).
Definition _isPS (f : Z) : bool := negb (Z.land f PTE_PS =? 0).
Definition _iszero (f : Z) : bool := negb (Z.land f PTE_ZERO =? 0).
Definition _isremap (f : Z) : bool := negb (Z.land f PTE_REMAP =? 0).
Definition _isalloc (f : Z) : bool := negb (Z.land f PTE_ALLOC =? 0).

(** The member [phys] of an entry, as the address of the frame. *)
Definition pte_phys (raw : Z) : Z := Z.land raw (2 ^ 52 - 2 ^ 12).

Definition PML4I (p : Z) : Z := Z.land (Z.shiftr p 39) 0x1FF.
Definition PDPTI (p : Z) : Z := Z.land (Z.shiftr p 30) 0x1FF.
Definition PDI (p : Z) : Z := Z.land (Z.shiftr p 21) 0x1FF.
Definition PTI (p : Z) : Z := Z.land (Z.shiftr p 12) 0x1FF.
Definition PML4_Recursion : Z := 511.
Definition NPTE : Z := 512.
Definition iL_INV (i : Z) : bool := (i <? 0) || (NPTE <=? i).
Definition i2v (i4 i3 i2 i1 : Z) : Z :=
  (if 256 <=? i4 then 0xFFFF else 0) * 2 ^ 48 + i4 mod 512 * 2 ^ 39 + i3 mod 512 * 2 ^ 30 + i2 mod 512 * 2 ^ 21 + i1 mod 512 * 2 ^ 12.

(** The virtual addresses of the entries. *)
Definition PML4E (i4 : Z) : Z := u64 (0xFFFFFFFFFFFFF000 + 8 * i4).
Definition PDPTE (i4 i3 : Z) : Z := u64 (0xFFFFFFFFFFE00000 + 0x1000 * i4 + 8 * i3).
Definition PDTE (i4 i3 i2 : Z) : Z := u64 (0xFFFFFFFFC0000000 + 0x200000 * i4 + 0x1000 * i3 + 8 * i2).
Definition PTE (i4 i3 i2 i1 : Z) : Z := u64 (0xFFFFFF8000000000 + 0x40000000 * i4 + 0x200000 * i3 + 0x1000 * i2 + 8 * i1).
Definition extract_vmflags (flags : Z) : Z := PGOFF flags.
Definition USTACK : Z := 0x800000000000.

(** ** The processor *)
(** The entry at the end of a path of indices below the table named by [raw]; 0 when a
    table on the way is not present. *)
Fixpoint walk (mem : Z -> Z) (raw : Z) (ix : list Z) : Z :=
  match ix with
  | [] => raw
  | i :: ix => if _isP raw then walk mem (mem (pte_phys raw + 8 * i)) ix else 0
  end.

Section Paging.
Context {FA : FrameAlloc} {VM : Vmman}.

(** [v_kroot] is the physical address of [_PML4_]. *)
Record vmsys := mkVm { v_cr3 : Z; v_mem : Z -> Z; v_fs : fstate; v_vs : vstate; v_kroot : Z }.
Definition set_mem (a v : Z) (s : vmsys) : vmsys := mkVm (v_cr3 s) (fun b => if b =? a then v else v_mem s b) (v_fs s) (v_vs s) (v_kroot s).
Definition set_fs (a : fstate) (s : vmsys) : vmsys := mkVm (v_cr3 s) (v_mem s) a (v_vs s) (v_kroot s).
Definition set_vs (v : vstate) (s : vmsys) : vmsys := mkVm (v_cr3 s) (v_mem s) (v_fs s) v (v_kroot s).
Definition set_cr3 (c : Z) (s : vmsys) : vmsys := mkVm c (v_mem s) (v_fs s) (v_vs s) (v_kroot s).
Definition clear_frame (f : Z) (s : vmsys) : vmsys :=
  mkVm (v_cr3 s) (fun b => if (f <=? b) && (b <? f + PGSZ) then 0 else v_mem s b) (v_fs s) (v_vs s) (v_kroot s).

(** The entry of the current address space at the end of a path. *)
Definition ent (s : vmsys) (p : list Z) : Z := walk (v_mem s) (Z.lor (v_cr3 s) PTE_P) p.
Definition va_path (va : Z) : list Z := [PML4I va; PDPTI va; PDI va; PTI va].
Definition mmu (s : vmsys) (va : Z) : option Z :=
  let e := ent s (va_path va) in if _isP e then Some (pte_phys e + PGOFF va) else None.

Definition VMM (A : Type) := M vmsys A.
Definition pte_load (va : Z) : VMM Z := fun s => match mmu s va with Some pa => Done (v_mem s pa) s | None => Fault end.
Definition pte_store (va raw : Z) : VMM unit := fun s => match mmu s va with Some pa => Done tt (set_mem pa raw s) | None => Fault end.

(** ** The physical memory manager, as paging.c calls it *)
Definition get_page (zero : bool) : VMM (Z * Z) := fun s =>
  match falloc (v_fs s) with
  | None => Done (- ENOMEM, 0) s
  | Some (f, a) => Done (0, f) (if zero then clear_frame f (set_fs a s) else set_fs a s)
  end.
(** A frame outside all zones is left alone; one that is not in use is a panic. *)
Definition pm_free (f : Z) : VMM unit := fun s =>
  if negb (fmanaged f) then Done tt s
  else if refs (v_fs s) f =? 0 then Panic
  else Done tt (set_fs (fput (v_fs s) f) s).

(** ** Mapping one page *)
(** [if (!pte_isP(E)) { if ((err = pmman.get_page(GFP_NORMAL | GFP_ZERO, &l))) ...;
    E->raw = l | PGOFF(flags | PTE_WT | PTE_KRW); }]: the error, and the new table. *)
Definition need_table (E flags : Z) : VMM (Z * Z) :=
  let! e := pte_load E in
  if _isP e then ret! (0, 0) else
  let! r := get_page true in
  let '(err, l) := r in
  if negb (err =? 0) then ret! (err, 0) else
  do! pte_store E (Z.lor l (PGOFF (Z.lor flags (Z.lor PTE_WT PTE_KRW)))) in
  ret! (0, l).
(** The cleanup at [error:]. *)
Definition drop_table (E l : Z) : VMM unit :=
  M_when (negb (l =? 0)) (do! pte_store E 0 in pm_free l).

Definition x86_64_map_pdpt (i4 flags : Z) : VMM Z :=
  if iL_INV i4 then ret! (- EINVAL) else
  if _isPS flags then ret! (- ENOTSUP) else
  let! r := need_table (PML4E i4) flags in ret! r.1.
Definition x86_64_map_pdt (i4 i3 flags : Z) : VMM Z :=
  if iL_INV i4 || iL_INV i3 then ret! (- EINVAL) else
  if _isPS flags then ret! (- ENOTSUP) else
  let! r3 := need_table (PML4E i4) flags in
  if negb (r3.1 =? 0) then ret! r3.1 else
  let! r2 := need_table (PDPTE i4 i3) flags in
  if negb (r2.1 =? 0) then do! drop_table (PML4E i4) r3.2 in ret! r2.1 else
  ret! 0.
(** The three levels above a page, which [x86_64_map_pt] and [x86_64_map] go through in
    the same way, with their cleanup; then [k]. *)
Definition with_tables (i4 i3 i2 flags : Z) (k : VMM Z) : VMM Z :=
  let! r3 := need_table (PML4E i4) flags in
  if negb (r3.1 =? 0) then ret! r3.1 else
  let! r2 := need_table (PDPTE i4 i3) flags in
  if negb (r2.1 =? 0) then do! drop_table (PML4E i4) r3.2 in ret! r2.1 else
  let! r1 := need_table (PDTE i4 i3 i2) flags in
  if negb (r1.1 =? 0) then
    do! drop_table (PDPTE i4 i3) r2.2 in do! drop_table (PML4E i4) r3.2 in ret! r1.1
  else k.
Definition x86_64_map_pt (i4 i3 i2 flags : Z) : VMM Z :=
  if iL_INV i4 || iL_INV i3 || iL_INV i2 then ret! (- EINVAL) else
  if _isPS flags then ret! (- ENOTSUP) else
  with_tables i4 i3 i2 flags (ret! 0).

Definition x86_64_map (pa i4 i3 i2 i1 flags : Z) : VMM Z :=
  let do_remap := _isremap flags in
  let flags := extract_vmflags flags in
  if iL_INV i4 || iL_INV i3 || iL_INV i2 || iL_INV i1 then ret! (- EINVAL) else
  if _isPS flags then ret! (- ENOTSUP) else
  with_tables i4 i3 i2 flags (
    let! e := pte_load (PTE i4 i3 i2 i1) in
    do! (if negb (_isP e) then pte_store (PTE i4 i3 i2 i1) (Z.lor (PGROUND pa) (PGOFF flags))
         else if do_remap then pte_store (PTE i4 i3 i2 i1) (Z.lor (PGROUND pa) (PGOFF flags))
         else ret! tt) in
    ret! 0).

(** ** Removing mappings *)
Definition x86_64_unmap_pdpt (i4 : Z) : VMM unit :=
  if iL_INV i4 then ret! tt else
  let! e := pte_load (PML4E i4) in
  if negb (_isP e) then ret! tt else
  do! pte_store (PML4E i4) 0 in pm_free (PGROUND e).
Definition x86_64_unmap_pdt (i4 i3 : Z) : VMM unit :=
  if iL_INV i4 || iL_INV i3 then ret! tt else
  let! e4 := pte_load (PML4E i4) in
  if negb (_isP e4) then ret! tt else
  let! e := pte_load (PDPTE i4 i3) in
  if negb (_isP e) then ret! tt else
  do! pte_store (PDPTE i4 i3) 0 in pm_free (PGROUND e).
Definition x86_64_unmap_pt (i4 i3 i2 : Z) : VMM unit :=
  if iL_INV i4 || iL_INV i3 || iL_INV i2 then ret! tt else
  let! e4 := pte_load (PML4E i4) in
  if negb (_isP e4) then ret! tt else
  let! e3 := pte_load (PDPTE i4 i3) in
  if negb (_isP e3) then ret! tt else
  let! e := pte_load (PDTE i4 i3 i2) in
  if negb (_isP e) then ret! tt else
  do! pte_store (PDTE i4 i3 i2) 0 in pm_free (PGROUND e).

(** The frame goes back if it was allocated for the mapping. *)
Definition x86_64_unmap (i4 i3 i2 i1 : Z) : VMM unit :=
  let! e4 := pte_load (PML4E i4) in
  if negb (_isP e4) then ret! tt else
  let! e3 := pte_load (PDPTE i4 i3) in
  if negb (_isP e3) then ret! tt else
  let! e2 := pte_load (PDTE i4 i3 i2) in
  if negb (_isP e2) then ret! tt else
  let! pa := pte_load (PTE i4 i3 i2 i1) in
  if negb (_isP pa) then ret! tt else
  do! pte_store (PTE i4 i3 i2 i1) 0 in
  M_when (_isalloc pa) (pm_free (PGROUND pa)).
Fixpoint unmap_n_loop (nr : nat) (va : Z) : VMM unit :=
  match nr with
  | O => ret! tt
  | S nr => do! x86_64_unmap (PML4I va) (PDPTI va) (PDI va) (PTI va) in unmap_n_loop nr (u64 (va + PGSZ))
  end.
Definition x86_64_unmap_n (va sz : Z) : VMM unit := unmap_n_loop (Z.to_nat (NPAGE sz)) va.

(** ** Ranges *)
(** The error, and how many pages are left when it occurred. *)
Fixpoint map_i_loop (nr : nat) (va pa flags : Z) : VMM (Z * Z) :=
  match nr with
  | O => ret! (0, 0)
  | S nr' =>
      let! err := x86_64_map pa (PML4I va) (PDPTI va) (PDI va) (PTI va) flags in
      if negb (err =? 0) then ret! (err, Z.of_nat nr) else
      map_i_loop nr' (u64 (va + PGSZ)) (u64 (pa + PGSZ)) flags
  end.
Definition x86_64_map_i (va pa sz flags : Z) : VMM Z :=
  let! r := map_i_loop (Z.to_nat (NPAGE sz)) va pa flags in
  if r.1 =? 0 then ret! 0 else
  do! x86_64_unmap_n va ((NPAGE sz - r.2) * PGSZ) in ret! r.1.

Fixpoint map_n_loop (nr : nat) (va flags : Z) : VMM (Z * Z) :=
  match nr with
  | O => ret! (0, 0)
  | S nr' =>
      let! r := get_page (_iszero flags) in
      if negb (r.1 =? 0) then ret! (r.1, Z.of_nat nr) else
      let! err := x86_64_map r.2 (PML4I va) (PDPTI va) (PDI va) (PTI va) (Z.lor flags PTE_ALLOC) in
      if negb (err =? 0) then ret! (err, Z.of_nat nr) else
      map_n_loop nr' (u64 (va + PGSZ)) flags
  end.
Definition x86_64_map_n (va sz flags : Z) : VMM Z :=
  let! r := map_n_loop (Z.to_nat (NPAGE sz)) va flags in
  if r.1 =? 0 then ret! 0 else
  do! x86_64_unmap_n va ((NPAGE sz - r.2) * PGSZ) in ret! r.1.

(** The error, and the virtual address of the entry. *)
Definition x86_64_getmapping (addr : Z) : VMM (Z * Z) :=
  let i4 := PML4I addr in let i3 := PDPTI addr in let i2 := PDI addr in let i1 := PTI addr in
  if addr =? 0 then ret! (- EINVAL, 0) else
  let! e4 := pte_load (PML4E i4) in
  if negb (_isP e4) then ret! (- ENOENT, 0) else
  let! e3 := pte_load (PDPTE i4 i3) in
  if negb (_isP e3) then ret! (- ENOENT, 0) else
  let! e2 := pte_load (PDTE i4 i3 i2) in
  if negb (_isP e2) then ret! (- ENOENT, 0) else
  let! e1 := pte_load (PTE i4 i3 i2 i1) in
  if negb (_isP e1) then ret! (- ENOENT, 0) else
  ret! (0, PTE i4 i3 i2 i1).

Definition perm_mask : Z := Z.lor PTE_U (Z.lor PTE_R (Z.lor PTE_W PTE_X)).
Definition reprotect (raw flags : Z) : Z := Z.lor (Z.land raw (not64 perm_mask)) flags.
Fixpoint mprotect_loop (nr : nat) (va flags : Z) : VMM Z :=
  match nr with
  | O => ret! 0
  | S nr =>
      let! r := x86_64_getmapping va in
      if negb (r.1 =? 0) then
        (if r.1 =? - ENOENT then mprotect_loop nr (u64 (va + PGSZ)) flags else ret! r.1)
      else
      let! raw := pte_load r.2 in
      do! pte_store r.2 (reprotect raw flags) in
      mprotect_loop nr (u64 (va + PGSZ)) flags
  end.
Definition x86_64_mprotect (va sz flags : Z) : VMM Z :=
  let va := PGROUND va in
  let flags := extract_vmflags flags in
  if negb (_isP flags) then ret! (- EINVAL) else
  mprotect_loop (Z.to_nat (NPAGE sz)) va flags.

(** ** A whole address space *)
Fixpoint for_each (l : list Z) (body : Z -> VMM unit) : VMM unit :=
  match l with
  | [] => ret! tt
  | i :: l => do! body i in for_each l body
  end.
Definition unmap_full_pages (i4 i3 i2 : Z) : VMM unit :=
  for_each (seqZ 0 NPTE) (fun i1 =>
    let! e := pte_load (PTE i4 i3 i2 i1) in
    if negb (_isP e) then ret! tt else x86_64_unmap i4 i3 i2 i1).
Definition unmap_full_pts (i4 i3 : Z) : VMM unit :=
  for_each (seqZ 0 NPTE) (fun i2 =>
    let! e := pte_load (PDTE i4 i3 i2) in
    if negb (_isP e) then ret! tt else
    do! unmap_full_pages i4 i3 i2 in x86_64_unmap_pt i4 i3 i2).
Definition unmap_full_pdts (i4 : Z) : VMM unit :=
  for_each (seqZ 0 NPTE) (fun i3 =>
    let! e := pte_load (PDPTE i4 i3) in
    if negb (_isP e) then ret! tt else
    do! unmap_full_pts i4 i3 in x86_64_unmap_pdt i4 i3).
Definition x86_64_unmap_full : VMM unit :=
  for_each (seqZ 0 (PML4I USTACK)) (fun i4 =>
    let! e := pte_load (PML4E i4) in
    if negb (_isP e) then ret! tt else
    do! unmap_full_pdts i4 in x86_64_unmap_pdpt i4).

(** The old root table. *)
Definition x86_64_switchvm (pdbr : Z) : VMM Z := fun s =>
  Done (v_cr3 s) (set_cr3 (if pdbr =? 0 then v_kroot s else pdbr) s).
Definition x86_64_fullvm_unmap (pml4 : Z) : VMM unit :=
  if pml4 =? 0 then ret! tt else
  let! old := x86_64_switchvm pml4 in
  do! x86_64_unmap_full in
  let! _ := x86_64_switchvm old in ret! tt.

(** ** Temporary mappings and new address spaces *)
(** The error and the virtual address. *)
Definition x86_64_mount (pa : Z) : VMM (Z * Z) :=
  if pa =? 0 then ret! (- EINVAL, 0) else fun s =>
  let '(va, vs) := vm_alloc (v_vs s) PGSZ in
  (if va =? 0 then ret! (- ENOMEM, 0) else
   let! err := x86_64_map_i va pa PGSZ PTE_KRW in
   if negb (err =? 0) then
     do! (fun s => Done tt (set_vs (vm_free (v_vs s) va) s)) in ret! (err, 0)
   else ret! (0, va)) (set_vs vs s).
Definition x86_64_unmount (va : Z) : VMM unit := x86_64_unmap_n va PGSZ.

(** [for (i = PML4I(USTACK); i < NPTE; ++i) dstv[i] = PML4[i];] *)
Definition copy_root (dstv : Z) : VMM unit :=
  for_each (seqZ (PML4I USTACK) (NPTE - PML4I USTACK)) (fun i =>
    let! e := pte_load (PML4E i) in pte_store (dstv + 8 * i) e).
Definition x86_64_kvmcpy (dstp : Z) : VMM Z :=
  if (dstp =? 0) || negb (PGOFF dstp =? 0) then ret! (- EINVAL) else
  let! r := x86_64_mount dstp in
  if negb (r.1 =? 0) then ret! r.1 else
  do! copy_root r.2 in
  do! pte_store (r.2 + 8 * PML4_Recursion) (Z.lor dstp (Z.lor PTE_KRW PTE_WTCD)) in
  do! x86_64_unmount r.2 in
  ret! 0.
(** The error and the new root table. *)
Definition x86_64_pml4alloc : VMM (Z * Z) :=
  let! r := get_page true in
  if negb (r.1 =? 0) then ret! (r.1, 0) else
  let! err := x86_64_kvmcpy r.2 in
  if negb (err =? 0) then do! pm_free r.2 in ret! (err, 0) else
  ret! (0, r.2).
Definition x86_64_pml4free (pgdir : Z) : VMM unit := M_when (negb (pgdir =? 0)) (pm_free pgdir).
End Paging.
