(* ===== verification/PagingFacts.v ===== *)
(** * Page tables: facts

    Arithmetic of entries and indices; the recursive entry makes the virtual addresses
    [PML4E] ... [PTE] name the entries of the tables; what writing one entry does to the
    whole translation. *)
From S2P Require Import Prelude Errno Pmm Paging.

Implicit Types (raw f x i j a : Z) (p q r : list Z) (mem : Z -> Z).

(** ** Entries *)
Lemma flag_testbit x k : 0 <= k < 64 -> negb (Z.land x (BS k) =? 0) = Z.testbit x k.
Proof.
  intros Hk. unfold BS. rewrite Z.mod_small, Z.shiftl_1_l by lia. destruct (Z.testbit x k) eqn:E.
  - destruct (Z.eqb_spec (Z.land x (2 ^ k)) 0) as [H|H]; [|done]. exfalso. assert (Z.testbit (Z.land x (2 ^ k)) k = true) as Hb.
    { rewrite Z.land_spec, E, Z.pow2_bits_true by lia. done. }
    rewrite H, Z.bits_0 in Hb. done.
  - destruct (Z.eqb_spec (Z.land x (2 ^ k)) 0) as [H|H]; [done|]. exfalso. apply H. apply Z.bits_inj'. intros j Hj.
    rewrite Z.land_spec, Z.bits_0, Z.pow2_bits_eqb by lia. destruct (Z.eqb_spec k j) as [<-|]; [by rewrite E|apply andb_false_r].
Qed.
Lemma isP_bit x : _isP x = Z.testbit x 0.
Proof. apply (flag_testbit x 0). lia. Qed.
Lemma isalloc_bit x : _isalloc x = Z.testbit x 11.
Proof. apply (flag_testbit x 11). lia. Qed.
Lemma isU_bit x : _isU x = Z.testbit x 2.
Proof. apply (flag_testbit x 2). lia. Qed.
Lemma PGOFF_bit x k : 0 <= k -> Z.testbit (PGOFF x) k = (k <? 12) && Z.testbit x k.
Proof.
  intros Hk. unfold PGOFF. change (PGSZ - 1) with (Z.ones 12). rewrite Z.land_spec. destruct (Z.ltb_spec k 12).
  - rewrite Z.ones_spec_low by lia. by rewrite andb_true_r.
  - rewrite Z.ones_spec_high by lia. apply andb_false_r.
Qed.
Lemma PGOFF_lt x : 0 <= PGOFF x < 4096.
Proof. unfold PGOFF. change (PGSZ - 1) with (Z.ones 12). rewrite Z.land_ones by lia. apply (Z.mod_pos_bound x (2 ^ 12)). lia. Qed.

Lemma pte_phys_bit raw k : 0 <= k -> Z.testbit (pte_phys raw) k = (12 <=? k) && (k <? 52) && Z.testbit raw k.
Proof.
  intros Hk. unfold pte_phys. change (2 ^ 52 - 2 ^ 12) with (Z.shiftl (Z.ones 40) 12). rewrite Z.land_spec, Z.shiftl_spec by done.
  destruct (Z.leb_spec 12 k), (Z.ltb_spec k 52); cbn [andb].
  - rewrite Z.ones_spec_low by lia. by rewrite andb_true_r.
  - rewrite Z.ones_spec_high by lia. apply andb_false_r.
  - rewrite (Z.testbit_neg_r _ (k - 12)) by lia. apply andb_false_r.
  - rewrite (Z.testbit_neg_r _ (k - 12)) by lia. apply andb_false_r.
Qed.
Lemma pte_phys_eq raw : pte_phys raw = (raw / 2 ^ 12) mod 2 ^ 40 * 2 ^ 12.
Proof.
  apply Z.bits_inj'. intros k Hk. rewrite pte_phys_bit by done. destruct (Z.leb_spec 12 k); cbn [andb].
  - rewrite <- (Z.shiftl_mul_pow2 _ 12) by lia. rewrite Z.shiftl_spec by lia. destruct (Z.ltb_spec k 52).
    + rewrite Z.mod_pow2_bits_low by lia. rewrite <- Z.shiftr_div_pow2, Z.shiftr_spec by lia. cbn [andb]. f_equal. lia.
    + by rewrite Z.mod_pow2_bits_high by lia.
  - by rewrite Z.mul_pow2_bits_low by lia.
Qed.
Lemma pte_phys_range raw : 0 <= pte_phys raw < 2 ^ 52 /\ pte_phys raw mod PGSZ = 0.
Proof.
  rewrite pte_phys_eq. pose proof (Z.mod_pos_bound (raw / 2 ^ 12) (2 ^ 40) ltac:(lia)) as H. split; [lia|]. change PGSZ with (2 ^ 12). apply Z.mod_mul. lia.
Qed.
Lemma frame_bits f k : f mod PGSZ = 0 -> k < 12 -> Z.testbit f k = false.
Proof.
  intros Hf Hk. destruct (Z.ltb_spec k 0); [by apply Z.testbit_neg_r|].
  assert (f = f / 2 ^ 12 * 2 ^ 12) as ->; [|apply Z.mul_pow2_bits_low; lia].
  change PGSZ with (2 ^ 12) in Hf. pose proof (Z_div_mod_eq_full f (2 ^ 12)). lia.
Qed.
Lemma low_bits x k : 0 <= x < 4096 -> 12 <= k -> Z.testbit x k = false.
Proof. intros Hx Hk. destruct (decide (x = 0)) as [->|]; [apply Z.bits_0|]. apply Z.bits_above_log2; [lia|]. apply Z.log2_lt_pow2; [lia|]. pose proof (Z.pow_le_mono_r 2 12 k). lia. Qed.
Lemma high_bits f k : 0 <= f < 2 ^ 52 -> 52 <= k -> Z.testbit f k = false.
Proof. intros Hx Hk. destruct (decide (f = 0)) as [->|]; [apply Z.bits_0|]. apply Z.bits_above_log2; [lia|]. apply Z.log2_lt_pow2; [lia|]. pose proof (Z.pow_le_mono_r 2 52 k). lia. Qed.

(** An entry made of a frame and flags. *)
Lemma phys_lor f x : 0 <= f < 2 ^ 52 -> f mod PGSZ = 0 -> 0 <= x < 4096 -> pte_phys (Z.lor f x) = f.
Proof.
  intros Hf Hm Hx. apply Z.bits_inj'. intros k Hk. rewrite pte_phys_bit, Z.lor_spec by done.
  destruct (Z.leb_spec 12 k); [|cbn; symmetry; apply frame_bits; [done|lia]]. rewrite (low_bits x k) by lia. rewrite orb_false_r.
  destruct (Z.ltb_spec k 52); [done|]. cbn. symmetry. by apply high_bits.
Qed.
Lemma flag_lor f x k : f mod PGSZ = 0 -> k < 12 -> Z.testbit (Z.lor f x) k = Z.testbit x k.
Proof. intros Hm Hk. rewrite Z.lor_spec, (frame_bits f k Hm Hk). done. Qed.
Lemma lor_range f x : 0 <= f < 2 ^ 52 -> f mod PGSZ = 0 -> 0 <= x < 4096 -> 0 <= Z.lor f x < 2 ^ 52.
Proof.
  intros Hf Hm Hx. split; [apply Z.lor_nonneg; lia|]. assert (Z.lor f x = Z.lor f x mod 2 ^ 52) as ->; [|apply Z.mod_pos_bound; lia].
  apply Z.bits_inj'. intros k Hk. destruct (Z.ltb_spec k 52).
  - by rewrite Z.mod_pow2_bits_low by lia.
  - rewrite Z.mod_pow2_bits_high by lia. rewrite Z.lor_spec, high_bits, low_bits by lia. done.
Qed.
Lemma PGROUND_phys raw : 0 <= raw < 2 ^ 52 -> PGROUND raw = pte_phys raw.
Proof.
  intros Hr. apply Z.bits_inj'. intros k Hk. rewrite pte_phys_bit by done. unfold PGROUND. rewrite Z.land_spec.
  destruct (Z.ltb_spec k 52) as [Hlt|Hge]; [|rewrite (high_bits raw k Hr Hge); by rewrite andb_false_r].
  rewrite not64_testbit by lia. change (PGSZ - 1) with (Z.ones 12). destruct (Z.leb_spec 12 k).
  - rewrite Z.ones_spec_high by lia. cbn. by rewrite andb_true_r.
  - rewrite Z.ones_spec_low by lia. cbn. by rewrite andb_false_r.
Qed.

(** ** Indices *)
Definition idx_ok i : Prop := 0 <= i < 512.
Definition va_of (h i4 i3 i2 i1 o : Z) : Z := h * 2 ^ 48 + i4 * 2 ^ 39 + i3 * 2 ^ 30 + i2 * 2 ^ 21 + i1 * 2 ^ 12 + o.
Lemma index_eq x k : 0 <= k -> Z.land (Z.shiftr x k) 0x1FF = (x / 2 ^ k) mod 512.
Proof. intros Hk. change 0x1FF with (Z.ones 9). rewrite Z.land_ones, Z.shiftr_div_pow2 by lia. done. Qed.
Lemma digit hi i lo k : 0 <= k -> 0 <= i < 512 -> 0 <= lo < 2 ^ k -> ((hi * 512 + i) * 2 ^ k + lo) / 2 ^ k mod 512 = i.
Proof.
  intros Hk Hi Hlo. rewrite Z.div_add_l, (Z.div_small lo) by lia. rewrite Z.add_0_r, Z.add_comm, Z.mod_add by lia. apply Z.mod_small. lia.
Qed.
Lemma va_path_of h i4 i3 i2 i1 o : idx_ok i4 -> idx_ok i3 -> idx_ok i2 -> idx_ok i1 -> 0 <= o < 4096 ->
  va_path (va_of h i4 i3 i2 i1 o) = [i4; i3; i2; i1] /\ PGOFF (va_of h i4 i3 i2 i1 o) = o.
Proof.
  unfold idx_ok. intros H4 H3 H2 H1 Ho. unfold va_path, PML4I, PDPTI, PDI, PTI, PGOFF. rewrite !index_eq by lia. change (PGSZ - 1) with (Z.ones 12). rewrite Z.land_ones by lia.
  unfold va_of. split; [repeat f_equal|].
  - rewrite <- (digit h i4 (i3 * 2 ^ 30 + i2 * 2 ^ 21 + i1 * 2 ^ 12 + o) 39) at 2 by lia. f_equal. f_equal. lia.
  - rewrite <- (digit (h * 512 + i4) i3 (i2 * 2 ^ 21 + i1 * 2 ^ 12 + o) 30) at 2 by lia. f_equal. f_equal. lia.
  - rewrite <- (digit ((h * 512 + i4) * 512 + i3) i2 (i1 * 2 ^ 12 + o) 21) at 2 by lia. f_equal. f_equal. lia.
  - rewrite <- (digit (((h * 512 + i4) * 512 + i3) * 512 + i2) i1 o 12) at 2 by lia. f_equal. f_equal. lia.
  - replace (h * 2 ^ 48 + i4 * 2 ^ 39 + i3 * 2 ^ 30 + i2 * 2 ^ 21 + i1 * 2 ^ 12 + o) with (o + (h * 2 ^ 36 + i4 * 2 ^ 27 + i3 * 2 ^ 18 + i2 * 2 ^ 9 + i1) * 2 ^ 12) by lia.
    rewrite Z.mod_add by lia. apply Z.mod_small. lia.
Qed.
Lemma i2v_of i4 i3 i2 i1 : idx_ok i4 -> idx_ok i3 -> idx_ok i2 -> idx_ok i1 -> i2v i4 i3 i2 i1 = va_of (if 256 <=? i4 then 0xFFFF else 0) i4 i3 i2 i1 0.
Proof. unfold idx_ok. intros. unfold i2v, va_of. rewrite !Z.mod_small by lia. lia. Qed.
Lemma PML4E_of i4 : idx_ok i4 -> PML4E i4 = va_of 0xFFFF 511 511 511 511 (8 * i4).
Proof. unfold idx_ok. intros. unfold PML4E. rewrite u64_small; [unfold va_of; lia|unfold is_u64; rewrite two64_eq; lia]. Qed.
Lemma PDPTE_of i4 i3 : idx_ok i4 -> idx_ok i3 -> PDPTE i4 i3 = va_of 0xFFFF 511 511 511 i4 (8 * i3).
Proof. unfold idx_ok. intros. unfold PDPTE. rewrite u64_small; [unfold va_of; lia|unfold is_u64; rewrite two64_eq; lia]. Qed.
Lemma PDTE_of i4 i3 i2 : idx_ok i4 -> idx_ok i3 -> idx_ok i2 -> PDTE i4 i3 i2 = va_of 0xFFFF 511 511 i4 i3 (8 * i2).
Proof. unfold idx_ok. intros. unfold PDTE. rewrite u64_small; [unfold va_of; lia|unfold is_u64; rewrite two64_eq; lia]. Qed.
Lemma PTE_of i4 i3 i2 i1 : idx_ok i4 -> idx_ok i3 -> idx_ok i2 -> idx_ok i1 -> PTE i4 i3 i2 i1 = va_of 0xFFFF 511 i4 i3 i2 (8 * i1).
Proof. unfold idx_ok. intros. unfold PTE. rewrite u64_small; [unfold va_of; lia|unfold is_u64; rewrite two64_eq; lia]. Qed.

(** ** Walks *)
Lemma walk_absent mem q : walk mem 0 q = 0.
Proof. by destruct q. Qed.
Lemma walk_app mem raw p q : walk mem raw (p ++ q) = walk mem (walk mem raw p) q.
Proof.
  revert raw. induction p as [|i p IH]; intros raw; cbn [app walk]; [done|]. destruct (_isP raw); [apply IH|]. by rewrite walk_absent.
Qed.
Lemma walk_np mem raw i q : _isP raw = false -> walk mem raw (i :: q) = 0.
Proof. cbn. by intros ->. Qed.
Lemma walk_P mem raw i q : _isP raw = true -> walk mem raw (i :: q) = walk mem (mem (pte_phys raw + 8 * i)) q.
Proof. cbn. by intros ->. Qed.
(** Only the frame and the present bit of the start matter. *)
Lemma walk_start mem raw raw' i q : _isP raw = _isP raw' -> pte_phys raw = pte_phys raw' -> walk mem raw (i :: q) = walk mem raw' (i :: q).
Proof. cbn. by intros -> ->. Qed.
Lemma isP_0 : _isP 0 = false.
Proof. done. Qed.

Section Space.
Context {FA : FrameAlloc} {VM : Vmman}.
Implicit Types (s : vmsys).

Lemma ent_snoc s p i : ent s (p ++ [i]) = if _isP (ent s p) then v_mem s (pte_phys (ent s p) + 8 * i) else 0.
Proof. unfold ent. rewrite walk_app. done. Qed.
Lemma ent_app s p q : ent s (p ++ q) = walk (v_mem s) (ent s p) q.
Proof. unfold ent. apply walk_app. Qed.
Lemma ent_absent s p i q : _isP (ent s p) = false -> ent s (p ++ i :: q) = 0.
Proof. intros H. rewrite ent_app. by apply walk_np. Qed.
Lemma ent_prefix s p q : q <> [] -> _isP (ent s (p ++ q)) = true -> _isP (ent s p) = true.
Proof. intros Hq H. destruct (_isP (ent s p)) eqn:E; [done|]. destruct q as [|i q]; [done|]. by rewrite ent_absent in H. Qed.

(** A path that does not start with the recursive entry. *)
Definition okp p : Prop := Forall idx_ok p /\ (length p <= 4)%nat /\ head p <> Some 511.
Definition owns s p : Prop :=
  okp p /\ _isP (ent s p) = true /\ ((length p <= 3)%nat \/ _isalloc (ent s p) = true).
Record pwf s : Prop := {
  pw_root : frame_ok (v_cr3 s);
  pw_rec : _isP (v_mem s (v_cr3 s + 8 * 511)) = true /\ pte_phys (v_mem s (v_cr3 s + 8 * 511)) = v_cr3 s;
  pw_refs : forall p, owns s p -> 0 < refs (v_fs s) (pte_phys (ent s p)) /\ fmanaged (pte_phys (ent s p)) = true;
  pw_inj : forall p q, owns s p -> owns s q -> pte_phys (ent s p) = pte_phys (ent s q) -> p = q;
  pw_raw : forall p, okp p -> 0 <= ent s p < 2 ^ 52
}.

Lemma okp_nil : okp [].
Proof. split_and!; [constructor|cbn; lia|done]. Qed.
Lemma okp_prefix p q : okp (p ++ q) -> okp p.
Proof.
  intros (H1 & H2 & H3). apply Forall_app in H1 as [H1 _]. rewrite length_app in H2. split_and!; [done|lia|]. by destruct p.
Qed.
Lemma okp_snoc p i : okp p -> (length p <= 3)%nat -> idx_ok i -> (p = [] -> i <> 511) -> okp (p ++ [i]).
Proof.
  intros (H1 & H2 & H3) Hl Hi H0. split_and!; [apply Forall_app; split; [done|by constructor]|rewrite length_app; cbn; lia|].
  destruct p as [|k p]; [cbn; intros [= ->]; by apply H0|done].
Qed.
Lemma okp_idx p i : okp (p ++ [i]) -> idx_ok i /\ (p = [] -> i <> 511).
Proof. intros (H1 & _ & H3). apply Forall_app in H1 as [_ H1]. split; [by inversion H1|]. intros ->. cbn in H3. congruence. Qed.

Lemma cr3_entry s : frame_ok (v_cr3 s) -> _isP (ent s []) = true /\ pte_phys (ent s []) = v_cr3 s.
Proof.
  intros [H1 H2]. unfold ent. cbn [walk]. rewrite isP_bit, flag_lor, phys_lor by (done || change PTE_P with 1; lia). done.
Qed.
(** The recursive entry leads back to the root. *)
Lemma ent_rec s i q : pwf s -> ent s (511 :: i :: q) = ent s (i :: q).
Proof.
  intros Hs. destruct (cr3_entry s (pw_root _ Hs)) as [HP Hf]. destruct (pw_rec _ Hs) as [RP Rf]. unfold ent in *. rewrite walk_P by done.
  cbn [walk] in HP, Hf. apply walk_start; rewrite Hf; [by rewrite HP|done].
Qed.

(** ** The window on the tables *)
Lemma mmu_of s h i4 i3 i2 i1 o : idx_ok i4 -> idx_ok i3 -> idx_ok i2 -> idx_ok i1 -> 0 <= o < 4096 ->
  mmu s (va_of h i4 i3 i2 i1 o) = if _isP (ent s [i4; i3; i2; i1]) then Some (pte_phys (ent s [i4; i3; i2; i1]) + o) else None.
Proof. intros. unfold mmu. destruct (va_path_of h i4 i3 i2 i1 o) as [-> ->]; done. Qed.
Lemma idx_511 : idx_ok 511.
Proof. unfold idx_ok. lia. Qed.
Definition slot s p i : option Z := if _isP (ent s p) then Some (pte_phys (ent s p) + 8 * i) else None.
Lemma ent_one s : pwf s -> _isP (ent s [511]) = true /\ pte_phys (ent s [511]) = v_cr3 s.
Proof.
  intros Hs. destruct (cr3_entry s (pw_root _ Hs)) as [HP Hf]. change [511] with ([] ++ [511]). rewrite (ent_snoc s [] 511), HP, Hf. apply (pw_rec _ Hs).
Qed.
Lemma slot_rec s i : pwf s -> slot s [511] i = slot s [] i.
Proof.
  intros Hs. destruct (cr3_entry s (pw_root _ Hs)) as [HP Hf]. destruct (ent_one s Hs) as [HP' Hf']. unfold slot. by rewrite HP, HP', Hf, Hf'.
Qed.
Lemma mmu_PML4E s i4 : pwf s -> idx_ok i4 -> mmu s (PML4E i4) = slot s [] i4.
Proof.
  intros Hs H4. rewrite PML4E_of by done. unfold idx_ok in H4. rewrite mmu_of by (apply idx_511 || lia). rewrite !ent_rec by done. by rewrite <- slot_rec.
Qed.
Lemma mmu_PDPTE s i4 i3 : pwf s -> idx_ok i4 -> idx_ok i3 -> mmu s (PDPTE i4 i3) = slot s [i4] i3.
Proof.
  intros Hs H4 H3. rewrite PDPTE_of by done. unfold idx_ok in H3. rewrite mmu_of by (done || apply idx_511 || lia). by rewrite !ent_rec.
Qed.
Lemma mmu_PDTE s i4 i3 i2 : pwf s -> idx_ok i4 -> idx_ok i3 -> idx_ok i2 -> mmu s (PDTE i4 i3 i2) = slot s [i4; i3] i2.
Proof.
  intros Hs H4 H3 H2. rewrite PDTE_of by done. unfold idx_ok in H2. rewrite mmu_of by (done || apply idx_511 || lia). by rewrite !ent_rec.
Qed.
Lemma mmu_PTE s i4 i3 i2 i1 : pwf s -> idx_ok i4 -> idx_ok i3 -> idx_ok i2 -> idx_ok i1 -> mmu s (PTE i4 i3 i2 i1) = slot s [i4; i3; i2] i1.
Proof.
  intros Hs H4 H3 H2 H1. rewrite PTE_of by done. unfold idx_ok in H1. rewrite mmu_of by (done || apply idx_511 || lia). by rewrite !ent_rec.
Qed.
(** A virtual address [E] that names entry [i] of the table at the end of [q]. *)
Definition names E q i : Prop := forall s, pwf s -> mmu s E = slot s q i.
Lemma pte_load_eq s E q i : mmu s E = slot s q i -> _isP (ent s q) = true -> pte_load E s = Done (ent s (q ++ [i])) s.
Proof. intros H HP. unfold pte_load. rewrite H. unfold slot. rewrite HP, ent_snoc, HP. done. Qed.
Lemma pte_store_eq s E q i raw : mmu s E = slot s q i -> _isP (ent s q) = true -> pte_store E raw s = Done tt (set_mem (pte_phys (ent s q) + 8 * i) raw s).
Proof. intros H HP. unfold pte_store. rewrite H. unfold slot. by rewrite HP. Qed.

(** ** Writing an entry *)
Lemma slot_inj raw raw' i j : idx_ok i -> idx_ok j -> pte_phys raw + 8 * i = pte_phys raw' + 8 * j -> pte_phys raw = pte_phys raw' /\ i = j.
Proof.
  unfold idx_ok. intros Hi Hj H. destruct (pte_phys_range raw) as [_ M1], (pte_phys_range raw') as [_ M2]. change PGSZ with 4096 in *.
  pose proof (Z_div_mod_eq_full (pte_phys raw) 4096). pose proof (Z_div_mod_eq_full (pte_phys raw') 4096). lia.
Qed.
Lemma owns_table s p : okp p -> _isP (ent s p) = true -> (length p <= 3)%nat -> owns s p.
Proof. intros H1 H2 H3. split_and!; auto. Qed.

(** A frame that is not a table. *)
Definition foreign s f : Prop := frame_ok f /\ forall r, owns s r -> (length r <= 3)%nat -> pte_phys (ent s r) <> f.
Lemma foreign_slot s f i r j : foreign s f -> idx_ok i -> idx_ok j -> owns s r -> (length r <= 3)%nat -> pte_phys (ent s r) + 8 * j <> f + 8 * i.
Proof.
  intros [[Hf Hm] Hn] Hi Hj Ho Hl E. apply (Hn r Ho Hl). assert (pte_phys (Z.lor f 0) = f) as Ef by (apply phys_lor; [lia|done|lia]). rewrite <- Ef in E. rewrite <- Ef.
  by apply slot_inj in E as [E _].
Qed.
Lemma ent_set_other s q i raw r : pwf s -> okp (q ++ [i]) -> _isP (ent s q) = true -> okp r -> ~ (q ++ [i] `prefix_of` r) ->
  ent (set_mem (pte_phys (ent s q) + 8 * i) raw s) r = ent s r.
Proof.
  intros Hs Hq HP. destruct (okp_idx _ _ Hq) as [Hi _]. pose proof (okp_prefix _ _ Hq) as Hq0.
  assert (length q <= 3)%nat as Hlq by (destruct Hq as (_ & Hl & _); rewrite length_app in Hl; cbn in Hl; lia).
  induction r as [|j r IH] using rev_ind; [done|]. intros Hr Hn. pose proof (okp_prefix _ _ Hr) as Hr0. destruct (okp_idx _ _ Hr) as [Hj _].
  rewrite !ent_snoc. rewrite IH; [|done|intros Hpre; apply Hn; by apply prefix_app_r]. destruct (_isP (ent s r)) eqn:Er; [|done].
  cbn [set_mem v_mem]. destruct (Z.eqb_spec (pte_phys (ent s r) + 8 * j) (pte_phys (ent s q) + 8 * i)) as [E|]; [|done].
  exfalso. apply slot_inj in E as [E ->]; [|done..]. apply Hn. replace r with q; [done|].
  apply (pw_inj _ Hs); [by apply owns_table|apply owns_table; try done|done]. destruct Hr as (_ & Hl & _). rewrite length_app in Hl. cbn in Hl. lia.
Qed.
Lemma ent_set_at s q i raw r : pwf s -> okp (q ++ [i]) -> _isP (ent s q) = true ->
  ent (set_mem (pte_phys (ent s q) + 8 * i) raw s) ((q ++ [i]) ++ r) = walk (v_mem (set_mem (pte_phys (ent s q) + 8 * i) raw s)) raw r.
Proof.
  intros Hs Hq HP. rewrite ent_app, ent_snoc. rewrite ent_set_other; [|done..|by eapply okp_prefix|].
  - rewrite HP. cbn [set_mem v_mem]. by rewrite Z.eqb_refl.
  - intros Hpre%prefix_length. rewrite length_app in Hpre. cbn in Hpre. lia.
Qed.
Lemma root_other s q i : pwf s -> okp (q ++ [i]) -> _isP (ent s q) = true -> pte_phys (ent s q) + 8 * i <> v_cr3 s + 8 * 511.
Proof.
  intros Hs Hq HP E. destruct (okp_idx _ _ Hq) as [Hi Hn]. destruct (cr3_entry s (pw_root _ Hs)) as [HP0 Hf0]. rewrite <- Hf0 in E.
  apply slot_inj in E as [E ->]; [|done|apply idx_511]. apply Hn; [|done]. apply (pw_inj _ Hs); [|apply owns_table; [apply okp_nil|done|cbn; lia]|done].
  apply owns_table; [by eapply okp_prefix|done|]. destruct Hq as (_ & Hl & _). rewrite length_app in Hl. cbn in Hl. lia.
Qed.

(** ** States that show the same tables *)
Definition like r (e e' : Z) : Prop := e = e' \/ ((length r < 4)%nat /\ _isP e = false /\ _isP e' = false).
Lemma like_P r e e' : like r e e' -> _isP e' = _isP e.
Proof. intros [->|(_ & -> & ->)]; done. Qed.
Lemma like_eq r e e' : like r e e' -> _isP e = true -> e' = e.
Proof. intros [->|(_ & E & _)]; congruence. Qed.
Lemma like_trans r e1 e2 e3 : like r e1 e2 -> like r e2 e3 -> like r e1 e3.
Proof. intros [->|(A & B & C)] [->|(A' & B' & C')]; try (by left); right; split_and!; congruence. Qed.
Lemma like_sym r e e' : like r e e' -> like r e' e.
Proof. intros [->|(A & B & C)]; [by left|by right]. Qed.

Definition meta s s' : Prop := v_cr3 s' = v_cr3 s /\ v_vs s' = v_vs s /\ v_kroot s' = v_kroot s.
(** The same entries but at the paths of [X]. *)
Definition agree (X : list Z -> Prop) s s' : Prop := meta s s' /\ forall r, okp r -> ~ X r -> like r (ent s r) (ent s' r).
Definition same_refs s s' : Prop := forall g, refs (v_fs s') g = refs (v_fs s) g.
Lemma agree_trans (X : list Z -> Prop) s1 s2 s3 : agree X s1 s2 -> agree X s2 s3 -> agree X s1 s3.
Proof.
  intros [(A1 & A2 & A3) A] [(B1 & B2 & B3) B]. split; [split_and!; congruence|]. intros r Hr Hx. eapply like_trans; [by apply A|by apply B].
Qed.
Lemma agree_weaken (X Y : list Z -> Prop) s s' : (forall r, okp r -> X r -> Y r) -> agree X s s' -> agree Y s s'.
Proof. intros H [A B]. split; [done|]. intros r Hr Hy. apply B; [done|]. intros Hx. apply Hy. by apply H. Qed.

(** ** Well-formedness through a change *)
Lemma owns_like s s' r : okp r -> like r (ent s r) (ent s' r) -> owns s' r -> owns s r /\ ent s' r = ent s r.
Proof.
  intros Hr Hl (_ & HP & Ho). pose proof (like_P _ _ _ Hl) as E. rewrite HP in E. pose proof (like_eq _ _ _ Hl (eq_sym E)) as E'. split; [|done].
  split_and!; [done|done|]. by rewrite <- E'.
Qed.
(** Removing one entry. *)
Lemma pwf_clear s q i : pwf s -> okp (q ++ [i]) -> _isP (ent s q) = true ->
  let s' := set_mem (pte_phys (ent s q) + 8 * i) 0 s in
  pwf s' /\ forall r, okp r -> ent s' r = if decide (q ++ [i] `prefix_of` r) then 0 else ent s r.
Proof.
  intros Hs Hq HP s'. assert (forall r, okp r -> ent s' r = if decide (q ++ [i] `prefix_of` r) then 0 else ent s r) as He.
  { intros r Hr. case_decide as Hd; [|by apply ent_set_other]. destruct Hd as [k ->]. unfold s'. rewrite ent_set_at by done. apply walk_absent. }
  split; [|done]. assert (forall r, owns s' r -> owns s r /\ ent s' r = ent s r) as Ho.
  { intros r (Hr & H1 & H2). rewrite (He r Hr) in *. case_decide; [done|]. split; [by split_and!|done]. }
  split.
  - exact (pw_root _ Hs).
  - unfold s'. cbn [set_mem v_mem v_cr3]. destruct (Z.eqb_spec (v_cr3 s + 8 * 511) (pte_phys (ent s q) + 8 * i)) as [E|]; [|apply (pw_rec _ Hs)]. by destruct (root_other s q i Hs Hq HP).
  - intros r Hr. destruct (Ho r Hr) as [A ->]. by apply (pw_refs _ Hs).
  - intros r1 r2 H1 H2. destruct (Ho r1 H1) as [A1 ->]. destruct (Ho r2 H2) as [A2 ->]. by apply (pw_inj _ Hs).
  - intros r Hr. rewrite He by done. case_decide; [lia|by apply (pw_raw _ Hs)].
Qed.
(** Dropping a reference to a frame that the tables do not use. *)
Lemma ent_set_fs s (a : fstate) r : ent (set_fs a s) r = ent s r.
Proof. done. Qed.
Lemma pwf_refs s (a : fstate) : pwf s -> (forall p, owns s p -> 0 < refs a (pte_phys (ent s p))) -> pwf (set_fs a s).
Proof.
  intros [H1 H2 H3 H4 H5] Ha. split; try done. intros p Hp. destruct (H3 p Hp) as [_ Hm]. split; [|done]. by apply Ha.
Qed.
Lemma pm_free_spec s f : pwf s -> 0 < refs (v_fs s) f -> (forall p, owns s p -> pte_phys (ent s p) <> f) ->
  wp (pm_free f) (fun _ s' => pwf s' /\ (forall r, ent s' r = ent s r) /\ meta s s' /\ v_mem s' = v_mem s /\
    forall g, refs (v_fs s') g = if decide (g = f /\ fmanaged f = true) then refs (v_fs s) g - 1 else refs (v_fs s) g) s.
Proof.
  intros Hs Hf Hn. unfold pm_free, wp. destruct (fmanaged f) eqn:Em; cbn [negb].
  - destruct (Z.eqb_spec (refs (v_fs s) f) 0); [lia|]. split_and!; [|done|done..|].
    + apply pwf_refs; [done|]. intros p Hp. rewrite fput_refs by done. rewrite decide_False by (by apply Hn). by apply (pw_refs _ Hs).
    + intros g. cbn. rewrite fput_refs by done. destruct (decide (g = f)) as [->|]; [by rewrite decide_True by done|by rewrite decide_False by naive_solver].
  - split_and!; try done. intros g. by rewrite decide_False by naive_solver.
Qed.

(** ** A new table *)
Lemma in_frame raw f i : frame_ok f -> idx_ok i -> (f <=? pte_phys raw + 8 * i) && (pte_phys raw + 8 * i <? f + PGSZ) = true -> pte_phys raw = f.
Proof.
  unfold frame_ok, idx_ok. intros [Hf Hm] Hi [H1%Z.leb_le H2%Z.ltb_lt]%andb_true_iff. destruct (pte_phys_range raw) as [_ M]. change PGSZ with 4096 in *.
  pose proof (Z_div_mod_eq_full (pte_phys raw) 4096). pose proof (Z_div_mod_eq_full f 4096). lia.
Qed.
Lemma ent_clear_frame s f r : pwf s -> frame_ok f -> refs (v_fs s) f = 0 -> okp r -> ent (clear_frame f s) r = ent s r.
Proof.
  intros Hs Hf H0. induction r as [|j r IH] using rev_ind; [done|]. intros Hr. pose proof (okp_prefix _ _ Hr) as Hr0. destruct (okp_idx _ _ Hr) as [Hj _].
  rewrite !ent_snoc, IH by done. destruct (_isP (ent s r)) eqn:Er; [|done]. cbn [clear_frame v_mem]. destruct (_ && _) eqn:E; [|done]. exfalso.
  apply in_frame in E; [|done..]. assert (owns s r) as Ho by (apply owns_table; try done; destruct Hr as (_ & Hl & _); rewrite length_app in Hl; cbn in Hl; lia).
  destruct (pw_refs _ Hs r Ho) as [A _]. rewrite E in A. lia.
Qed.
Lemma pwf_taken s f (a : fstate) : pwf s -> falloc (v_fs s) = Some (f, a) ->
  pwf (clear_frame f (set_fs a s)) /\ forall r, okp r -> ent (clear_frame f (set_fs a s)) r = ent s r.
Proof.
  intros Hs Ha. destruct (falloc_fresh _ _ _ Ha) as (H0 & Hf & Hm).
  assert (forall r, okp r -> ent (clear_frame f s) r = ent s r) as He by (intros; by apply ent_clear_frame).
  assert (forall g, 0 < refs (v_fs s) g -> 0 < refs a g) as Hle by (intros g Hg; rewrite (falloc_refs _ _ _ g Ha); case_decide; lia).
  split; [|exact He]. pose proof Hs as [H1 H2 H3 H4 H5]. assert (forall p, owns (clear_frame f (set_fs a s)) p -> owns s p) as Ho.
  { intros p (A & B & C). change (ent (clear_frame f (set_fs a s)) p) with (ent (clear_frame f s) p) in *. rewrite He in * by done. by split_and!. }
  split.
  - exact H1.
  - cbn [clear_frame set_fs v_mem v_cr3]. destruct (_ && _) eqn:E; [|done]. exfalso. destruct (cr3_entry s H1) as [P0 F0]. rewrite <- F0 in E.
    apply in_frame in E; [|done|apply idx_511]. destruct (H3 []) as [A _]; [apply owns_table; [apply okp_nil|done|cbn; lia]|]. rewrite E in A. lia.
  - intros p Hp. change (ent (clear_frame f (set_fs a s)) p) with (ent (clear_frame f s) p). rewrite He by apply Hp. destruct (H3 p (Ho p Hp)) as [A B]. split; [by apply Hle|done].
  - intros p q Hp Hq. change (ent (clear_frame f (set_fs a s)) p) with (ent (clear_frame f s) p). change (ent (clear_frame f (set_fs a s)) q) with (ent (clear_frame f s) q).
    rewrite !He by (apply Hp || apply Hq). apply H4; by apply Ho.
  - intros p Hp. change (ent (clear_frame f (set_fs a s)) p) with (ent (clear_frame f s) p). rewrite He by done. by apply H5.
Qed.

(** Writing an entry whose frame has no entries yet: only that entry changes. *)
Lemma pwf_write s q i raw : pwf s -> okp (q ++ [i]) -> _isP (ent s q) = true -> 0 <= raw < 2 ^ 52 ->
  (forall r, okp (q ++ [i] ++ r) -> r <> [] -> ent s (q ++ [i] ++ r) = 0 /\ walk (v_mem (set_mem (pte_phys (ent s q) + 8 * i) raw s)) raw r = 0) ->
  (_isP raw = true -> (length (q ++ [i]) <= 3)%nat \/ _isalloc raw = true ->
    0 < refs (v_fs s) (pte_phys raw) /\ fmanaged (pte_phys raw) = true /\ forall r, owns s r -> pte_phys (ent s r) = pte_phys raw -> r = q ++ [i]) ->
  let s' := set_mem (pte_phys (ent s q) + 8 * i) raw s in
  pwf s' /\ forall r, okp r -> ent s' r = if decide (r = q ++ [i]) then raw else ent s r.
Proof.
  intros Hs Hq HP Hraw Hsub Hown s'. assert (forall r, okp r -> ent s' r = if decide (r = q ++ [i]) then raw else ent s r) as He.
  { intros r Hr. destruct (decide (q ++ [i] `prefix_of` r)) as [[k ->]|Hd].
    - destruct k as [|j k].
      + rewrite app_nil_r, decide_True by done. unfold s'. rewrite <- (app_nil_r (q ++ [i])). by rewrite ent_set_at.
      + rewrite decide_False by (intros E%(f_equal length); rewrite !length_app in E; cbn in E; lia). unfold s'. rewrite ent_set_at by done. rewrite <- app_assoc in *.
        destruct (Hsub (j :: k) Hr ltac:(done)) as [-> ->]. done.
    - rewrite decide_False by (intros ->; by apply Hd). by apply ent_set_other. }
  split; [|done]. assert (forall r, owns s' r -> r <> q ++ [i] -> owns s r) as Ho.
  { intros r (Hr & H1 & H2) Hne. rewrite (He r Hr), decide_False in * by done. by split_and!. }
  assert (forall r, owns s' r -> r = q ++ [i] -> 0 < refs (v_fs s) (pte_phys raw) /\ fmanaged (pte_phys raw) = true /\ forall r', owns s r' -> pte_phys (ent s r') = pte_phys raw -> r' = q ++ [i]) as Hat.
  { intros r (Hr & H1 & H2) ->. rewrite (He _ Hr), decide_True in * by done. by apply Hown. }
  split.
  - exact (pw_root _ Hs).
  - unfold s'. cbn [set_mem v_mem v_cr3]. destruct (Z.eqb_spec (v_cr3 s + 8 * 511) (pte_phys (ent s q) + 8 * i)) as [E|]; [|apply (pw_rec _ Hs)]. by destruct (root_other s q i Hs Hq HP).
  - intros r Hr. rewrite He by apply Hr. case_decide as Hd; [destruct (Hat r Hr Hd) as (A & B & _); by split|]. apply (pw_refs _ Hs). by apply Ho.
  - intros r1 r2 H1 H2. rewrite !He by (apply H1 || apply H2). repeat case_decide; try congruence; intros E.
    + symmetry. subst r1. destruct (Hat _ H1 eq_refl) as (_ & _ & A). apply A; [by apply Ho|done].
    + subst r2. destruct (Hat _ H2 eq_refl) as (_ & _ & A). apply A; [by apply Ho|done].
    + apply (pw_inj _ Hs); [by apply Ho|by apply Ho|done].
  - intros r Hr. rewrite He by done. case_decide; [done|by apply (pw_raw _ Hs)].
Qed.

(** ** One level of tables *)
(** [s'] is [s] with a new table [l] at the end of [p]. *)
Record made s p l s' : Prop := {
  md_wf : pwf s';
  md_free : refs (v_fs s) l = 0 /\ frame_ok l /\ fmanaged l = true;
  md_refs : forall g, refs (v_fs s') g = if decide (g = l) then 1 else refs (v_fs s) g;
  md_absent : _isP (ent s p) = false;
  md_ent : _isP (ent s' p) = true /\ pte_phys (ent s' p) = l;
  md_rest : agree (fun r => r = p) s s'
}.
(** Frames in use that are not tables keep their contents. *)
Definition keeps_mem s s' : Prop := forall f j, foreign s f -> 0 < refs (v_fs s) f -> idx_ok j -> v_mem s' (f + 8 * j) = v_mem s (f + 8 * j).
Definition table_flags flags : Z := PGOFF (Z.lor flags (Z.lor PTE_WT PTE_KRW)).
Lemma table_flags_P flags : Z.testbit (table_flags flags) 0 = true.
Proof. unfold table_flags. rewrite PGOFF_bit, !Z.lor_spec by lia. cbn. apply orb_true_r. Qed.
Lemma lor_0_l' x : Z.lor 0 x = x.
Proof. done. Qed.
Lemma pwf_table s q i f (a : fstate) flags : pwf s -> okp (q ++ [i]) -> (length (q ++ [i]) <= 3)%nat -> _isP (ent s q) = true -> _isP (ent s (q ++ [i])) = false ->
  falloc (v_fs s) = Some (f, a) ->
  let s2 := set_mem (pte_phys (ent s q) + 8 * i) (Z.lor f (table_flags flags)) (clear_frame f (set_fs a s)) in
  made s (q ++ [i]) f s2 /\ keeps_mem s s2.
Proof.
  intros Hs Hq Hl HP Hn Ha s2. destruct (falloc_fresh _ _ _ Ha) as (H0 & Hf & Hm). destruct (pwf_taken s f a Hs Ha) as [Hs1 He1]. set (s1 := clear_frame f (set_fs a s)) in *.
  pose proof (PGOFF_lt (Z.lor flags (Z.lor PTE_WT PTE_KRW))) as Hfl. fold (table_flags flags) in Hfl. set (raw := Z.lor f (table_flags flags)).
  assert (pte_phys raw = f) as Hphys by (apply phys_lor; [destruct Hf; lia|apply Hf|done]).
  assert (_isP raw = true) as HPr by (unfold raw; rewrite isP_bit, flag_lor by (apply Hf || lia); apply table_flags_P).
  assert (forall g, refs a g = if decide (g = f) then 1 else refs (v_fs s) g) as Hra by (intros; by apply falloc_refs).
  assert (ent s1 q = ent s q) as Eq1 by (apply He1; by eapply okp_prefix).
  destruct (pwf_write s1 q i raw Hs1 Hq) as [Hs2 He2].
  - by rewrite Eq1.
  - apply lor_range; [destruct Hf; lia|apply Hf|done].
  - intros r Hr Hne. destruct r as [|j r]; [done|]. rewrite He1 by done. split.
    + rewrite app_assoc. by apply ent_absent.
    + rewrite walk_P by done. rewrite Hphys. cbn [set_mem v_mem]. destruct (Z.eqb_spec (f + 8 * j) (pte_phys (ent s1 q) + 8 * i)) as [E|_].
      * exfalso. rewrite <- Hphys, Eq1 in E. rewrite Hphys in E. rewrite <- Hphys in E. apply slot_inj in E as [E _]; [|destruct Hr as (Hr & _); rewrite app_assoc in Hr; apply Forall_app in Hr as [_ Hr]; by inversion Hr|by apply okp_idx in Hq as [? _]].
        destruct (pw_refs _ Hs q) as [A _]; [apply owns_table; [by eapply okp_prefix|done|rewrite length_app in Hl; cbn in Hl; lia]|]. rewrite <- E, Hphys in A. lia.
      * assert (v_mem s1 (f + 8 * j) = 0) as ->; [|apply walk_absent]. unfold s1. cbn [clear_frame v_mem].
        assert (idx_ok j) as Hj by (destruct Hr as (Hr & _); rewrite app_assoc in Hr; apply Forall_app in Hr as [_ Hr]; by inversion Hr). unfold idx_ok in Hj.
        destruct (Z.leb_spec f (f + 8 * j)), (Z.ltb_spec (f + 8 * j) (f + PGSZ)); change PGSZ with 4096 in *; try lia. done.
  - intros _ _. rewrite Hphys. split_and!; [change (v_fs s1) with a; rewrite Hra, decide_True by done; lia|done|]. intros r Ho E. exfalso.
    assert (owns s r) as Ho'. { destruct Ho as (A & B & C). rewrite He1 in * by done. by split_and!. }
    rewrite He1 in E by apply Ho. destruct (pw_refs _ Hs r Ho') as [A _]. rewrite E in A. lia.
  - rewrite Eq1 in Hs2, He2. split; [split; [exact Hs2|by split_and!|exact Hra|done| |]|].
    + unfold s2. rewrite He2, decide_True by done. done.
    + split; [done|]. intros r Hr Hne. unfold s2. rewrite He2, decide_False, He1 by done. by left.
    + intros f' j Hf' Hp' Hj. unfold s2. cbn [set_mem v_mem]. destruct (Z.eqb_spec (f' + 8 * j) (pte_phys (ent s q) + 8 * i)) as [E|_].
      * exfalso. assert (owns s q) as Hoq by (apply owns_table; [by eapply okp_prefix|done|rewrite length_app in Hl; cbn in Hl; lia]).
        eapply (foreign_slot s f' j q i); [done|done|by apply okp_idx in Hq as [? _]|done|rewrite length_app in Hl; cbn in Hl; lia|done].
      * unfold s1. cbn [clear_frame set_fs v_mem]. destruct (_ && _) eqn:Ec; [|done]. exfalso. destruct Hf' as [Hfo _].
        assert (pte_phys (Z.lor f' 0) = f') as Ef by (apply phys_lor; [destruct Hfo; lia|apply Hfo|lia]). rewrite <- Ef in Ec. apply in_frame in Ec; [|done..]. rewrite Ef in Ec. subst f'. lia.
Qed.
Lemma need_table_spec s E q i flags : pwf s -> names E q i -> okp (q ++ [i]) -> (length (q ++ [i]) <= 3)%nat -> _isP (ent s q) = true ->
  wp (need_table E flags) (fun (r : Z * Z) s' =>
    (r = (0, 0) /\ s' = s /\ _isP (ent s (q ++ [i])) = true) \/ (exists l, r = (0, l) /\ l <> 0 /\ made s (q ++ [i]) l s' /\ keeps_mem s s') \/ (r = (- ENOMEM, 0) /\ s' = s)) s.
Proof.
  intros Hs Hm Hq Hl HP. unfold need_table. apply wp_bind. unfold wp at 1. rewrite (pte_load_eq s E q i) by auto.
  destruct (_isP (ent s (q ++ [i]))) eqn:Ee; [apply wp_ret; auto|]. apply wp_bind. unfold wp at 1, get_page. destruct (falloc (v_fs s)) as [[f a]|] eqn:Ea.
  - cbn [Z.eqb negb]. destruct (pwf_taken s f a Hs Ea) as [Hs1 He1]. set (s1 := clear_frame f (set_fs a s)) in *.
    apply wp_bind. unfold wp at 1. rewrite (pte_store_eq s1 E q i) by (auto || (rewrite He1 by (by eapply okp_prefix); done)). apply wp_ret. right. left. exists f.
    destruct (falloc_fresh _ _ _ Ea) as (_ & [Hf _] & _). rewrite He1 by (by eapply okp_prefix). destruct (pwf_table s q i f a flags Hs Hq Hl HP Ee Ea) as [A B]. split_and!; [done|lia|exact A|exact B].
  - cbn. apply wp_ret. auto.
Qed.

Lemma drop_table_spec s s' E q i l : names E q i -> okp (q ++ [i]) -> (length (q ++ [i]) <= 3)%nat -> pwf s -> _isP (ent s q) = true -> l <> 0 -> made s (q ++ [i]) l s' ->
  wp (drop_table E l) (fun _ s'' => pwf s'' /\ agree (fun _ => False) s s'' /\ same_refs s s'') s'.
Proof.
  intros HE Hq Hlen Hs HP Hl [Hs' (F1 & F2 & F3) Hr Habs [E1 E2] [Hmeta Hag]]. pose proof (okp_prefix _ _ Hq) as Hq0.
  assert (_isP (ent s' q) = true) as HP'. { apply (ent_prefix s' q [i]); done. }
  unfold drop_table. destruct (Z.eqb_spec l 0); [done|]. cbn [negb M_when]. apply wp_bind. unfold wp at 1. rewrite (pte_store_eq s' E q i) by auto.
  destruct (pwf_clear s' q i Hs' Hq HP') as [Hs2 He2]. set (s2 := set_mem _ 0 s') in *.
  eapply wp_mono; [apply (pm_free_spec s2 l Hs2)|].
  - change (v_fs s2) with (v_fs s'). rewrite Hr, decide_True by done. lia.
  - intros r Ho E0. rewrite He2 in E0 by apply Ho. assert (owns s' r) as Ho'.
    { destruct Ho as (A & B & C). rewrite He2 in * by done. case_decide; [done|]. by split_and!. }
    assert (r = q ++ [i]) as ->. { apply (pw_inj _ Hs'); [done|by apply owns_table|]. rewrite E2. case_decide; [|done]. by destruct F2 as [? _]; rewrite <- E0 in *. }
    destruct Ho as (A & B & _). rewrite He2, decide_True in B by done. done.
  - intros _ s3 (W & He3 & Hm3 & _ & Hr3). split_and!; [done| |].
    + split; [destruct Hmeta as (?&?&?), Hm3 as (?&?&?); split_and!; cbn in *; congruence|]. intros r Hr0 _. rewrite He3, He2 by done. destruct (decide (q ++ [i] `prefix_of` r)) as [Hd|Hd].
      * destruct Hd as [k ->]. destruct k as [|j k].
        -- rewrite app_nil_r. right. split_and!; [lia|done|done].
        -- left. by apply ent_absent.
      * apply Hag; [done|]. intros ->. by apply Hd.
    + intros g. rewrite Hr3. change (v_fs s2) with (v_fs s'). rewrite Hr. destruct (decide (g = l)) as [->|]; [rewrite decide_True by done; lia|by rewrite decide_False by naive_solver].
Qed.
(** A state that shows the same tables can stand for the one with the new table. *)
Lemma made_agree s p l s' s'' : made s p l s' -> okp p -> pwf s'' -> agree (fun _ => False) s' s'' -> same_refs s' s'' -> made s p l s''.
Proof.
  intros [A1 A2 A3 A4 [A5 A5'] [A6 A7]] Hp Hs [B1 B2] B3. split; [done|done| |done| |].
  - intros g. by rewrite B3.
  - pose proof (B2 p Hp ltac:(tauto)) as L. rewrite (like_eq _ _ _ L A5). done.
  - split; [destruct A6 as (?&?&?), B1 as (?&?&?); split_and!; congruence|]. intros r Hr Hne. eapply like_trans; [by apply A7|apply B2; [done|tauto]].
Qed.

(** ** All levels above a page *)
Lemma names_PML4E i4 : idx_ok i4 -> names (PML4E i4) [] i4.
Proof. intros H s Hs. by apply mmu_PML4E. Qed.
Lemma names_PDPTE i4 i3 : idx_ok i4 -> idx_ok i3 -> names (PDPTE i4 i3) [i4] i3.
Proof. intros H1 H2 s Hs. by apply mmu_PDPTE. Qed.
Lemma names_PDTE i4 i3 i2 : idx_ok i4 -> idx_ok i3 -> idx_ok i2 -> names (PDTE i4 i3 i2) [i4; i3] i2.
Proof. intros H1 H2 H3 s Hs. by apply mmu_PDTE. Qed.
Lemma names_PTE i4 i3 i2 i1 : idx_ok i4 -> idx_ok i3 -> idx_ok i2 -> idx_ok i1 -> names (PTE i4 i3 i2 i1) [i4; i3; i2] i1.
Proof. intros H1 H2 H3 H4 s Hs. by apply mmu_PTE. Qed.

(** [s'] is [s] with more tables, all without entries. *)
Record grown s s' : Prop := {
  gr_wf : pwf s';
  gr_meta : meta s s';
  gr_leaf : forall r, okp r -> length r = 4%nat -> ent s' r = ent s r;
  gr_keep : forall r, okp r -> _isP (ent s r) = true -> ent s' r = ent s r;
  gr_refs : forall g, 0 < refs (v_fs s) g -> refs (v_fs s') g = refs (v_fs s) g;
  gr_new : forall r, owns s' r -> owns s r \/ refs (v_fs s) (pte_phys (ent s' r)) = 0;
  gr_mem : keeps_mem s s'
}.
Lemma grown_foreign s s' f : grown s s' -> foreign s f -> 0 < refs (v_fs s) f -> foreign s' f.
Proof.
  intros G [Hf Hn] Hr. split; [done|]. intros r Ho Hl E. destruct (gr_new _ _ G r Ho) as [Ho'|H0]; [|rewrite E in H0; lia].
  apply (Hn r Ho' Hl). by rewrite <- (gr_keep _ _ G r (proj1 Ho') (proj1 (proj2 Ho'))).
Qed.
Lemma grown_refl s : pwf s -> grown s s.
Proof. intros H. split; try done. auto. Qed.
Lemma grown_trans s1 s2 s3 : grown s1 s2 -> grown s2 s3 -> grown s1 s3.
Proof.
  intros G1 G2. pose proof G1 as [A1 (A2 & A2' & A2'') A3 A4 A5 A6 A7]. pose proof G2 as [B1 (B2 & B2' & B2'') B3 B4 B5 B6 B7]. split; [done|split_and!; congruence| | | | |].
  - intros r Hr Hl. by rewrite B3, A3.
  - intros r Hr HP. pose proof (A4 r Hr HP) as E. rewrite B4; [done|done|by rewrite E].
  - intros g Hg. rewrite B5; [by apply A5|rewrite A5; done].
  - intros r Ho. destruct (B6 r Ho) as [Ho2|H0].
    + rewrite (B4 r) by apply Ho2. by apply A6.
    + right. destruct (decide (refs (v_fs s1) (pte_phys (ent s3 r)) = 0)) as [|Hne]; [done|]. exfalso.
      pose proof (refs_nonneg (v_fs s1) (pte_phys (ent s3 r))). rewrite A5 in H0 by lia. done.
  - intros f j Hf Hr Hj. rewrite B7; [by apply A7|by eapply grown_foreign|by rewrite A5|done].
Qed.
Lemma made_grown s p l s' : (length p <= 3)%nat -> okp p -> made s p l s' -> keeps_mem s s' -> grown s s'.
Proof.
  intros Hl Hp [A1 (A2 & A2' & A2'') A3 A4 [A5 A5'] [A6 A7]] Hkm. split; [done|done| | | | |done].
  - intros r Hr Hlen. assert (r <> p) as Hne by (intros ->; lia). destruct (A7 r Hr Hne) as [->|(H & _)]; [done|lia].
  - intros r Hr HP. assert (r <> p) as Hne by (intros ->; congruence). by apply (like_eq r), HP; apply A7.
  - intros g Hg. rewrite A3. case_decide; [subst; lia|done].
  - intros r Ho. destruct (decide (r = p)) as [->|Hne]; [right; by rewrite A5'|left]. eapply owns_like; [apply Ho|by apply A7; [apply Ho|]|done].
Qed.
Ltac okp_tac := split_and!; [repeat (apply Forall_cons_2; [done|]); apply Forall_nil_2|cbn; lia|cbn; congruence].
Lemma okp1 i4 : idx_ok i4 -> i4 <> 511 -> okp [i4].
Proof. intros H Hn. okp_tac. Qed.
Lemma okp2 i4 i3 : idx_ok i4 -> i4 <> 511 -> idx_ok i3 -> okp [i4; i3].
Proof. intros H Hn H3. okp_tac. Qed.
Lemma okp3 i4 i3 i2 : idx_ok i4 -> i4 <> 511 -> idx_ok i3 -> idx_ok i2 -> okp [i4; i3; i2].
Proof. intros H Hn H3 H2. okp_tac. Qed.
Lemma okp4 i4 i3 i2 i1 : idx_ok i4 -> i4 <> 511 -> idx_ok i3 -> idx_ok i2 -> idx_ok i1 -> okp [i4; i3; i2; i1].
Proof. intros H Hn H3 H2 H1. okp_tac. Qed.

(** What one level leaves: the table is there, and taking it away again gives back a
    state like the first. *)
Definition undoes s (E l : Z) s' : Prop :=
  forall s'', pwf s'' -> agree (fun _ => False) s' s'' -> same_refs s' s'' ->
    wp (drop_table E l) (fun _ t => pwf t /\ agree (fun _ => False) s t /\ same_refs s t) s''.
Lemma level_spec s E q i flags : pwf s -> names E q i -> okp (q ++ [i]) -> (length (q ++ [i]) <= 3)%nat -> _isP (ent s q) = true ->
  wp (need_table E flags) (fun o s' =>
    (o.1 = 0 /\ grown s s' /\ _isP (ent s' (q ++ [i])) = true /\ undoes s E o.2 s') \/ (o = (- ENOMEM, 0) /\ s' = s)) s.
Proof.
  intros Hs HE Hq Hl HP. eapply wp_mono; [by eapply need_table_spec|]. intros o s' [(-> & -> & H)|[(l & -> & Hl0 & Hmd & Hkm)|(-> & ->)]]; [left|left|by right].
  - split_and!; [done|by apply grown_refl|done|]. intros s'' W A B. by apply wp_ret.
  - split_and!; [done|by eapply made_grown|apply Hmd|]. intros s'' W A B. eapply drop_table_spec; try done. by eapply made_agree.
Qed.
Lemma agree_refl s : agree (fun _ => False) s s.
Proof. split; [done|]. intros r _ _. by left. Qed.
Lemma with_tables_spec s i4 i3 i2 flags k (Q : Z -> vmsys -> Prop) :
  pwf s -> idx_ok i4 -> i4 <> 511 -> idx_ok i3 -> idx_ok i2 ->
  (forall s', grown s s' -> _isP (ent s' [i4; i3; i2]) = true -> wp k Q s') ->
  (forall s', pwf s' -> agree (fun _ => False) s s' -> same_refs s s' -> Q (- ENOMEM) s') ->
  wp (with_tables i4 i3 i2 flags k) Q s.
Proof.
  intros Hs H4 Hn H3 H2 Hk Hfail. unfold with_tables. apply wp_bind.
  eapply wp_mono; [apply (level_spec s (PML4E i4) [] i4); [done|by apply names_PML4E|by apply okp1|cbn; lia|by apply cr3_entry, pw_root]|].
  intros o3 s3 [(-> & G3 & P3 & U3)|(-> & ->)]; cbn [Z.eqb Z.opp ENOMEM negb fst snd app] in *.
  2: { apply wp_ret. apply Hfail; [done|apply agree_refl|done]. }
  apply wp_bind. eapply wp_mono; [apply (level_spec s3 (PDPTE i4 i3) [i4] i3); [apply G3|by apply names_PDPTE|by apply okp2|cbn; lia|done]|].
  intros o2 s2 [(-> & G2 & P2 & U2)|(-> & ->)]; cbn [Z.eqb Z.opp ENOMEM negb fst snd app] in *.
  2: { apply wp_bind. eapply wp_mono; [apply U3; [apply G3|apply agree_refl|done]|]. intros _ t (W & A & B). by apply wp_ret, Hfail. }
  apply wp_bind. eapply wp_mono; [apply (level_spec s2 (PDTE i4 i3 i2) [i4; i3] i2); [apply G2|by apply names_PDTE|by apply okp3|cbn; lia|done]|].
  intros o1 s1 [(-> & G1 & P1 & _)|(-> & ->)]; cbn [Z.eqb Z.opp ENOMEM negb fst snd app] in *.
  - apply Hk; [|done]. eapply grown_trans; [exact G3|]. by eapply grown_trans.
  - apply wp_bind. eapply wp_mono; [apply U2; [apply G2|apply agree_refl|done]|]. intros _ t (W & A & B).
    apply wp_bind. eapply wp_mono; [by apply U3|]. intros _ t' (W' & A' & B'). by apply wp_ret, Hfail.
Qed.
End Space.
