(* ===== verification/PagingMap.v ===== *)
(** * Mapping and unmapping pages

    What [x86_64_map], [x86_64_unmap] and the loops over them do to the translation and
    to the reference counts of frames. *)
From S2P Require Import Prelude Errno Pmm Paging PagingFacts.

Implicit Types (raw f x i j : Z) (p q r : list Z).

Section Map.
Context {FA : FrameAlloc} {VM : Vmman}.
Implicit Types (s : vmsys).

(** ** One page *)
Definition leaf (pa flags : Z) : Z := Z.lor (PGROUND pa) (PGOFF flags).
(** An entry that may be written at [p]: an allocated frame that no other entry has. *)
Definition can_map s p raw : Prop :=
  0 <= raw < 2 ^ 52 /\
  (_isP raw = true -> _isalloc raw = true ->
    0 < refs (v_fs s) (pte_phys raw) /\ fmanaged (pte_phys raw) = true /\ forall r, owns s r -> pte_phys (ent s r) = pte_phys raw -> r = p).
Lemma PGOFF_idemp x : PGOFF (PGOFF x) = PGOFF x.
Proof. apply Z.bits_inj'. intros k Hk. rewrite !PGOFF_bit by done. by destruct (k <? 12). Qed.
Lemma isPS_PGOFF x : _isPS (PGOFF x) = _isPS x.
Proof. unfold _isPS, PTE_PS. by rewrite !flag_testbit, PGOFF_bit by lia. Qed.
Lemma idx_inv i : idx_ok i -> iL_INV i = false.
Proof. unfold idx_ok, iL_INV, NPTE. intros H. destruct (Z.ltb_spec i 0), (Z.leb_spec 512 i); lia. Qed.

Lemma can_map_grown s s' p raw : grown s s' -> can_map s p raw -> can_map s' p raw.
Proof.
  intros [A1 A2 A3 A4 A5 A6] [H1 H2]. split; [done|]. intros HP Ha. destruct (H2 HP Ha) as (B1 & B2 & B3). split_and!; [by rewrite A5|done|].
  intros r Ho E. destruct (A6 r Ho) as [Ho'|H0]; [|rewrite E in H0; lia]. apply B3; [done|]. rewrite <- (A4 r); [done|apply Ho|apply Ho'].
Qed.
Lemma write_leaf s q i raw : pwf s -> okp (q ++ [i]) -> length q = 3%nat -> _isP (ent s q) = true -> can_map s (q ++ [i]) raw ->
  let s' := set_mem (pte_phys (ent s q) + 8 * i) raw s in
  pwf s' /\ forall r, okp r -> ent s' r = if decide (r = q ++ [i]) then raw else ent s r.
Proof.
  intros Hs Hq Hl HP [Hr Hc]. apply pwf_write; try done.
  - intros r (_ & Hlen & _) Hne. rewrite !length_app in Hlen. destruct r; [done|]. cbn in Hlen. lia.
  - intros HPr [Hlen|Ha]; [rewrite length_app in Hlen; cbn in Hlen; lia|]. by apply Hc.
Qed.

(** Tables are added, and nothing is written but entries of tables. *)
Record tables_grow s s' : Prop := {
  tg_keep : forall r, okp r -> (length r <= 3)%nat -> _isP (ent s r) = true -> ent s' r = ent s r;
  tg_new : forall r, owns s' r -> (length r <= 3)%nat -> owns s r \/ refs (v_fs s) (pte_phys (ent s' r)) = 0;
  tg_mem : keeps_mem s s'
}.
Definition no_new s s' : Prop := forall r, owns s' r -> owns s r /\ ent s' r = ent s r.
Lemma grown_tables s s' : grown s s' -> tables_grow s s'.
Proof. intros G. split; [intros r Hr _; by apply (gr_keep _ _ G)|intros r Ho _; by apply (gr_new _ _ G)|apply (gr_mem _ _ G)]. Qed.
Lemma x86_64_map_spec s pa i4 i3 i2 i1 flags :
  let p := [i4; i3; i2; i1] in
  pwf s -> idx_ok i4 -> i4 <> 511 -> idx_ok i3 -> idx_ok i2 -> idx_ok i1 -> _isPS flags = false -> can_map s p (leaf pa flags) ->
  wp (x86_64_map pa i4 i3 i2 i1 flags) (fun err s' => pwf s' /\ meta s s' /\
    ((err = 0 /\ (forall r, okp r -> length r = 4%nat -> ent s' r = if decide (r = p) then (if _isP (ent s p) && negb (_isremap flags) then ent s p else leaf pa flags) else ent s r) /\
      (forall g, 0 < refs (v_fs s) g -> refs (v_fs s') g = refs (v_fs s) g) /\ tables_grow s s') \/
     (err = - ENOMEM /\ (forall r, okp r -> length r = 4%nat -> ent s' r = ent s r) /\ same_refs s s' /\ no_new s s'))) s.
Proof.
  intros p Hs H4 Hn H3 H2 H1 HPS Hc. unfold x86_64_map, extract_vmflags. rewrite !idx_inv, isPS_PGOFF, HPS by done. cbn [orb].
  assert (okp p) as Hp by (by apply okp4).
  apply with_tables_spec; try done.
  - intros s' G HP. pose proof (gr_wf _ _ G) as Hs'. rewrite PGOFF_idemp. change (Z.lor (PGROUND pa) (PGOFF flags)) with (leaf pa flags).
    apply wp_bind. unfold wp at 1. rewrite (pte_load_eq s' _ [i4; i3; i2] i1) by (done || by apply names_PTE). change ([i4; i3; i2] ++ [i1]) with p.
    rewrite (gr_leaf _ _ G p Hp eq_refl). destruct (write_leaf s' [i4; i3; i2] i1 (leaf pa flags) Hs' Hp eq_refl HP (can_map_grown _ _ _ _ G Hc)) as [Hw He].
    change ([i4; i3; i2] ++ [i1]) with p in He.
    assert (wp (pte_store (PTE i4 i3 i2 i1) (leaf pa flags)) (fun _ t => t = set_mem (pte_phys (ent s' [i4; i3; i2]) + 8 * i1) (leaf pa flags) s') s') as Hst.
    { unfold wp. by rewrite (pte_store_eq s' _ [i4; i3; i2] i1) by (done || by apply names_PTE). }
    assert (forall t, t = set_mem (pte_phys (ent s' [i4; i3; i2]) + 8 * i1) (leaf pa flags) s' -> _isP (ent s p) && negb (_isremap flags) = false ->
      pwf t /\ meta s t /\ ((0 = 0 /\ (forall r, okp r -> length r = 4%nat -> ent t r = if decide (r = p) then (if _isP (ent s p) && negb (_isremap flags) then ent s p else leaf pa flags) else ent s r) /\
      (forall g, 0 < refs (v_fs s) g -> refs (v_fs t) g = refs (v_fs s) g) /\ tables_grow s t) \/ (0 = - ENOMEM /\ (forall r, okp r -> length r = 4%nat -> ent t r = ent s r) /\ same_refs s t /\ no_new s t))) as Hdone.
    { intros t -> Eb. split_and!; [done|exact (gr_meta _ _ G)|]. left. split_and!; [done| |apply (gr_refs _ _ G)|].
      - intros r Hr Hl. rewrite He, Eb by done. case_decide; [done|]. by apply (gr_leaf _ _ G).
      - split.
        + intros r Hr Hl HPr. rewrite He by done. rewrite decide_False by (intros ->; cbn in Hl; lia). by apply (gr_keep _ _ G).
        + intros r Ho Hl. assert (r <> p) as Hne by (intros ->; cbn in Hl; lia). rewrite He, decide_False by (done || apply Ho). apply (gr_new _ _ G).
          destruct Ho as (A & B & C). rewrite He, decide_False in * by done. by split_and!.
        + intros f j Hf Hr Hj. cbn [set_mem v_mem]. destruct (Z.eqb_spec (f + 8 * j) (pte_phys (ent s' [i4; i3; i2]) + 8 * i1)) as [E|_]; [|by apply (gr_mem _ _ G)].
          exfalso. eapply (foreign_slot s' f j [i4; i3; i2] i1); [by eapply grown_foreign|done|done|apply owns_table; [by apply okp3|done|cbn; lia]|cbn; lia|done]. }
    apply wp_bind. destruct (_isP (ent s p)) eqn:EP; cbn [negb].
    + destruct (_isremap flags) eqn:Er.
      * eapply wp_mono; [exact Hst|]. intros [] t Ht. apply wp_ret. by apply Hdone.
      * apply wp_ret, wp_ret. split_and!; [done|exact (gr_meta _ _ G)|]. left. split_and!; [done| |apply (gr_refs _ _ G)|].
        -- intros r Hr Hl. rewrite (gr_leaf _ _ G r Hr Hl). cbn [andb negb]. case_decide; congruence.
        -- by apply grown_tables.
    + eapply wp_mono; [exact Hst|]. intros [] t Ht. apply wp_ret. by apply Hdone.
  - intros s' Hs' [Hm Ha] Hr. split_and!; [done|exact Hm|]. right. split_and!; [done| |done|].
    + intros r Ho Hl. destruct (Ha r Ho ltac:(tauto)) as [->|(Hlt & _)]; [done|lia].
    + intros r Ho. apply (owns_like s s' r); [apply Ho| |done]. apply Ha; [apply Ho|tauto].
Qed.

(** ** Removing entries *)
(** The entries at the paths of [X] are gone, each frame they owned has lost a
    reference, nothing else has changed. *)
Record removed (X : list Z -> Prop) s s' : Prop := {
  rm_wf : pwf s';
  rm_meta : meta s s';
  rm_keep : forall r, okp r -> ~ X r -> ent s' r = ent s r;
  rm_gone : forall r, okp r -> X r -> _isP (ent s' r) = false;
  rm_refs : forall r, owns s r -> X r -> refs (v_fs s') (pte_phys (ent s r)) = refs (v_fs s) (pte_phys (ent s r)) - 1;
  rm_other : forall g, (forall r, owns s r -> X r -> pte_phys (ent s r) <> g) -> refs (v_fs s') g = refs (v_fs s) g;
  rm_mem : forall f j, foreign s f -> idx_ok j -> v_mem s' (f + 8 * j) = v_mem s (f + 8 * j)
}.
Lemma removed_none (X : list Z -> Prop) s : pwf s -> (forall r, okp r -> X r -> _isP (ent s r) = false) -> removed X s s.
Proof.
  intros Hs Hx. split; try done. intros r Ho Hr. destruct Ho as (A & B & _). rewrite Hx in B; done.
Qed.
Lemma removed_owns (X : list Z -> Prop) s s' r : removed X s s' -> owns s' r -> owns s r /\ ~ X r /\ ent s' r = ent s r.
Proof.
  intros [A1 A2 A3 A4 A5 A6 _] Ho. assert (~ X r) as Hx by (intros Hx; destruct Ho as (B & C & _); rewrite A4 in C; done).
  pose proof (A3 r (proj1 Ho) Hx) as E. split_and!; [|done|done]. destruct Ho as (B & C & D). rewrite E in *. by split_and!.
Qed.
Lemma removed_keeps (X : list Z -> Prop) s s' r : removed X s s' -> owns s r -> ~ X r -> owns s' r /\ ent s' r = ent s r.
Proof. intros H Ho Hx. pose proof (rm_keep _ _ _ H r (proj1 Ho) Hx) as E. split; [|done]. destruct Ho as (B & C & D). split_and!; rewrite ?E; done. Qed.
Lemma removed_trans (X Y : list Z -> Prop) s1 s2 s3 : pwf s1 -> (forall r, Decision (X r)) -> removed X s1 s2 -> removed Y s2 s3 -> removed (fun r => X r \/ Y r) s1 s3.
Proof.
  intros Hs Hdec R1 R2. split.
  - apply R2.
  - destruct (rm_meta _ _ _ R1) as (?&?&?), (rm_meta _ _ _ R2) as (?&?&?). split_and!; congruence.
  - intros r Hr Hn. rewrite (rm_keep _ _ _ R2), (rm_keep _ _ _ R1) by tauto. done.
  - intros r Hr Hx. destruct (decide (X r)) as [HX|HX]; [|apply (rm_gone _ _ _ R2); [done|tauto]].
    destruct (_isP (ent s3 r)) eqn:E; [|done]. exfalso.
    assert (~ Y r) as Hy by (intros Hy; by rewrite (rm_gone _ _ _ R2 r Hr Hy) in E). rewrite (rm_keep _ _ _ R2 r Hr Hy), (rm_gone _ _ _ R1 r Hr HX) in E. done.
  - intros r Ho Hx. destruct (decide (X r)) as [HX|HX].
    + rewrite (rm_other _ _ _ R2); [by apply (rm_refs _ _ _ R1)|]. intros r' Ho' Hy E. destruct (removed_owns _ _ _ _ R1 Ho') as (O1 & N1 & E1). rewrite E1 in E.
      apply N1. replace r' with r; [done|]. by apply (pw_inj _ Hs).
    + destruct (removed_keeps _ _ _ _ R1 Ho HX) as [O2 E2]. rewrite <- E2. rewrite (rm_refs _ _ _ R2); [|done|tauto]. rewrite E2. f_equal.
      apply (rm_other _ _ _ R1). intros r' Ho' HX' E. apply HX. replace r with r'; [done|]. by apply (pw_inj _ Hs).
  - intros g Hg. rewrite (rm_other _ _ _ R2), (rm_other _ _ _ R1); [done| |]; [intros r Ho Hx; apply Hg; [done|by left]|].
    intros r Ho Hy. destruct (removed_owns _ _ _ _ R1 Ho) as (O1 & N1 & ->). apply Hg; [done|by right].
  - intros f j Hf Hj. rewrite (rm_mem _ _ _ R2); [by apply (rm_mem _ _ _ R1)| |done]. split; [apply Hf|]. intros r Ho Hl.
    destruct (removed_owns _ _ _ _ R1 Ho) as (O1 & _ & ->). by apply Hf.
Qed.
Lemma removed_ext (X Y : list Z -> Prop) s s' : (forall r, okp r -> X r <-> Y r) -> removed X s s' -> removed Y s s'.
Proof.
  intros H [A1 A2 A3 A4 A5 A6 A7]. split; try done.
  - intros r Hr Hy. apply A3; [done|]. by rewrite H.
  - intros r Hr Hy. apply A4; [done|]. by apply H.
  - intros r Ho Hy. apply A5; [done|]. apply H; [apply Ho|done].
  - intros g Hg. apply A6. intros r Ho Hx. apply Hg; [done|]. by apply H; [apply Ho|].
Qed.

(** Clearing one entry below which there is nothing, and giving its frame back. *)
Lemma clear_free s q i e (fr : bool) : pwf s -> okp (q ++ [i]) -> _isP (ent s q) = true -> e = ent s (q ++ [i]) -> _isP e = true ->
  (forall j r, okp (q ++ [i] ++ j :: r) -> _isP (ent s (q ++ [i] ++ j :: r)) = false) -> (fr = true <-> owns s (q ++ [i])) ->
  wp (M_when fr (pm_free (PGROUND e))) (fun _ s' => removed (fun r => q ++ [i] `prefix_of` r) s s') (set_mem (pte_phys (ent s q) + 8 * i) 0 s).
Proof.
  intros Hs Hq HP -> HPe Hsub Hfr. destruct (pwf_clear s q i Hs Hq HP) as [Hs2 He2]. set (s2 := set_mem _ 0 s) in *.
  rewrite PGROUND_phys by (by apply (pw_raw _ Hs)). set (f := pte_phys (ent s (q ++ [i]))).
  assert (forall r, owns s r -> q ++ [i] `prefix_of` r -> r = q ++ [i]) as Honly.
  { intros r (Hr & B & _) [k ->]. destruct k as [|j k]; [apply app_nil_r|]. rewrite <- app_assoc in *. by rewrite Hsub in B. }
  assert (forall r, owns s2 r -> owns s r /\ ~ q ++ [i] `prefix_of` r /\ ent s2 r = ent s r) as Ho2.
  { intros r (Hr & B & D). rewrite (He2 r Hr) in *. case_decide; [done|]. split_and!; done. }
  assert (forall f j, foreign s f -> idx_ok j -> v_mem s2 (f + 8 * j) = v_mem s (f + 8 * j)) as Hmem.
  { intros f' j Hf' Hj. unfold s2. cbn [set_mem v_mem]. destruct (Z.eqb_spec (f' + 8 * j) (pte_phys (ent s q) + 8 * i)) as [E|_]; [|done]. exfalso.
    assert (length q <= 3)%nat as Hlq by (destruct Hq as (_ & Hl & _); rewrite length_app in Hl; cbn in Hl; lia).
    eapply (foreign_slot s f' j q i); [done|done|by apply okp_idx in Hq as [? _]|apply owns_table; [by eapply okp_prefix|done|done]|done|done]. }
  assert (forall s3, pwf s3 -> meta s2 s3 -> (forall r, ent s3 r = ent s2 r) -> (forall r, okp r -> ~ q ++ [i] `prefix_of` r -> ent s3 r = ent s r) /\ (forall r, okp r -> q ++ [i] `prefix_of` r -> _isP (ent s3 r) = false)) as Hents.
  { intros s3 _ _ He3. split; intros r Hr Hx; rewrite He3, He2 by done; [by rewrite decide_False|by rewrite decide_True]. }
  destruct fr; cbn [M_when].
  - assert (owns s (q ++ [i])) as Ho by (by apply Hfr). destruct (pw_refs _ Hs _ Ho) as [Hr0 Hmg].
    eapply wp_mono; [apply (pm_free_spec s2 f Hs2)|]; [done| |].
    { intros r Hr E. destruct (Ho2 r Hr) as (O1 & N1 & E1). rewrite E1 in E. apply N1. replace r with (q ++ [i]); [done|]. by apply (pw_inj _ Hs). }
    intros _ s3 (W & He3 & Hm3 & Hv3 & Hr3). destruct (Hents s3 W Hm3 He3) as [K1 K2]. split; [done|exact Hm3|done|done| | |by rewrite Hv3].
    + intros r Hor Hx. rewrite (Honly r Hor Hx), Hr3. fold f. by rewrite decide_True.
    + intros g Hg. rewrite Hr3. rewrite decide_False; [done|]. intros [-> _]. by apply (Hg (q ++ [i]) Ho).
  - apply wp_ret. destruct (Hents s2 Hs2 ltac:(done) ltac:(done)) as [K1 K2]. split; [done|done|done|done| |done|done].
    intros r Hor Hx. rewrite (Honly r Hor Hx) in Hor. apply Hfr in Hor. done.
Qed.

Lemma x86_64_unmap_spec s i4 i3 i2 i1 : pwf s -> idx_ok i4 -> i4 <> 511 -> idx_ok i3 -> idx_ok i2 -> idx_ok i1 ->
  wp (x86_64_unmap i4 i3 i2 i1) (fun _ s' => removed (fun r => r = [i4; i3; i2; i1]) s s') s.
Proof.
  intros Hs H4 Hn H3 H2 H1. assert (okp [i4; i3; i2; i1]) as Hp by (by apply okp4).
  assert (_isP (ent s [i4; i3; i2; i1]) = false -> removed (fun r => r = [i4; i3; i2; i1]) s s) as Hno by (intros H; apply removed_none; [done|intros r _ ->; done]).
  destruct (cr3_entry s (pw_root _ Hs)) as [P0 _].
  unfold x86_64_unmap. apply wp_bind. unfold wp at 1. rewrite (pte_load_eq s _ [] i4) by (done || by apply names_PML4E). cbn [app].
  destruct (_isP (ent s [i4])) eqn:P4; cbn [negb]; [|apply wp_ret, Hno; by rewrite (ent_absent s [i4] i3 [i2; i1] P4 : ent s [i4; i3; i2; i1] = 0)].
  apply wp_bind. unfold wp at 1. rewrite (pte_load_eq s _ [i4] i3) by (done || by apply names_PDPTE). cbn [app].
  destruct (_isP (ent s [i4; i3])) eqn:P3; cbn [negb]; [|apply wp_ret, Hno; by rewrite (ent_absent s [i4; i3] i2 [i1] P3 : ent s [i4; i3; i2; i1] = 0)].
  apply wp_bind. unfold wp at 1. rewrite (pte_load_eq s _ [i4; i3] i2) by (done || by apply names_PDTE). cbn [app].
  destruct (_isP (ent s [i4; i3; i2])) eqn:P2; cbn [negb]; [|apply wp_ret, Hno; by rewrite (ent_absent s [i4; i3; i2] i1 [] P2 : ent s [i4; i3; i2; i1] = 0)].
  apply wp_bind. unfold wp at 1. rewrite (pte_load_eq s _ [i4; i3; i2] i1) by (done || by apply names_PTE). cbn [app].
  destruct (_isP (ent s [i4; i3; i2; i1])) eqn:P1; cbn [negb]; [|by apply wp_ret, Hno].
  apply wp_bind. unfold wp at 1. rewrite (pte_store_eq s _ [i4; i3; i2] i1) by (done || by apply names_PTE).
  eapply wp_mono; [apply (clear_free s [i4; i3; i2] i1 _ (_isalloc (ent s [i4; i3; i2; i1]))); try done|].
  - intros j r (_ & Hl & _). cbn in Hl. lia.
  - cbn [app]. split; [intros Ha; split_and!; auto|]. intros (_ & _ & [Hl|Ha]); [cbn in Hl; lia|done].
  - intros [] s'. apply removed_ext. intros r Hr. cbn [app]. split; [|intros ->; done]. intros [k ->]. destruct k as [|j k]; [apply app_nil_r|].
    destruct Hr as (_ & Hl & _). rewrite length_app in Hl. cbn in Hl. lia.
Qed.
End Map.

(** * Whole address spaces and ranges of pages

    [x86_64_unmap_full] takes every table and every allocated page of the user half
    away exactly once; the loops that map and unmap ranges. *)

Section FullUnmap.
Context {FA : FrameAlloc} {VM : Vmman}.
Implicit Types (s : vmsys).

(** ** Loops that remove entries *)
Definition under p i r : Prop := p ++ [i] `prefix_of` r.
#[local] Instance under_dec p i r : Decision (under p i r).
Proof. unfold under. apply _. Defined.
Lemma for_each_removed (I : vmsys -> Prop) (X : Z -> list Z -> Prop) `{forall i r, Decision (X i r)} (body : Z -> VMM unit) l s :
  (forall i s, i ∈ l -> pwf s -> I s -> wp (body i) (fun _ s' => removed (X i) s s') s) ->
  (forall i s s', i ∈ l -> pwf s -> I s -> removed (X i) s s' -> I s') ->
  pwf s -> I s -> wp (for_each l body) (fun _ s' => removed (fun r => Exists (fun i => X i r) l) s s' /\ I s') s.
Proof.
  revert s. induction l as [|i l IH]; intros s Hb Hi Hs HI; cbn [for_each].
  { apply wp_ret. split; [|done]. apply removed_none; [done|]. intros r _ Hx. by apply Exists_nil in Hx. }
  apply wp_bind. eapply wp_mono; [apply Hb; [left|done|done]|]. intros [] s1 R1.
  eapply wp_mono; [apply IH|].
  - intros j s' Hj. apply Hb. by right.
  - intros j s' s'' Hj. apply Hi. by right.
  - apply R1.
  - eapply Hi; [left|done..].
  - intros [] s2 [R2 I2]. split; [|done]. eapply removed_ext; [|by eapply removed_trans]. intros r _. cbn beta. by rewrite Exists_cons.
Qed.
Lemma in_512 i : i ∈ seqZ 0 NPTE <-> idx_ok i.
Proof. rewrite elem_of_seqZ. unfold NPTE, idx_ok. lia. Qed.
Lemma idx_of_snoc p i : okp (p ++ [i]) -> idx_ok i.
Proof. by intros [H _]%okp_idx. Qed.
(** What the loop over all entries of a table, and then the entry of the table, remove. *)
Lemma below_table p r : okp r -> (Exists (fun i => under p i r) (seqZ 0 NPTE) \/ p `prefix_of` r) <-> p `prefix_of` r.
Proof.
  intros Hr. split; [|by right]. intros [He|]; [|done]. apply Exists_exists in He as (i & _ & Hp). etrans; [|exact Hp]. by exists [i].
Qed.
Lemma below_gone p s r j : (forall r, okp r -> Exists (fun i => under p i r) (seqZ 0 NPTE) -> _isP (ent s r) = false) ->
  okp (p ++ j :: r) -> _isP (ent s (p ++ j :: r)) = false.
Proof.
  intros H Hr. apply H; [done|]. apply Exists_exists. exists j. assert (p ++ [j] `prefix_of` p ++ j :: r) as Hpre by (exists r; by rewrite <- app_assoc).
  split; [|done]. apply in_512. apply (idx_of_snoc p). destruct Hpre as [k Ek]. rewrite Ek in Hr. by eapply okp_prefix.
Qed.

Lemma removed_present X s s' p : removed X s s' -> okp p -> ~ X p -> _isP (ent s p) = true -> _isP (ent s' p) = true.
Proof. intros R Hp Hx. by rewrite (rm_keep _ _ _ R p Hp Hx). Qed.
Lemma not_below p i : ~ p ++ [i] `prefix_of` p.
Proof. intros Hl%prefix_length. rewrite length_app in Hl. cbn in Hl. lia. Qed.

(** ** The levels *)
Section Level.
Context (i4 i3 i2 : Z) (H4 : idx_ok i4) (Hn : i4 <> 511) (H3 : idx_ok i3) (H2 : idx_ok i2).

Lemma unmap_full_pages_spec s : pwf s -> _isP (ent s [i4; i3; i2]) = true ->
  wp (unmap_full_pages i4 i3 i2) (fun _ s' => removed (fun r => Exists (fun i => under [i4; i3; i2] i r) (seqZ 0 NPTE)) s s' /\ _isP (ent s' [i4; i3; i2]) = true) s.
Proof.
  intros Hs HP. unfold unmap_full_pages. apply (for_each_removed (fun s => _isP (ent s [i4; i3; i2]) = true) (under [i4; i3; i2])); [| |done|done].
  - intros i1 s1 H1%in_512 Hs1 HP1. assert (okp [i4; i3; i2; i1]) as Hp by (by apply okp4).
    assert (forall r, okp r -> r = [i4; i3; i2; i1] <-> [i4; i3; i2] ++ [i1] `prefix_of` r) as Hx.
    { intros r Hr. split; [intros ->; done|]. intros [k ->]. destruct k as [|j k]; [by rewrite app_nil_r|]. destruct Hr as (_ & Hl & _). rewrite length_app in Hl. cbn in Hl. lia. }
    apply wp_bind. unfold wp at 1. rewrite (pte_load_eq s1 _ [i4; i3; i2] i1) by (done || by apply names_PTE). destruct (_isP (ent s1 ([i4; i3; i2] ++ [i1]))) eqn:E; cbn [negb].
    + eapply wp_mono; [by apply x86_64_unmap_spec|]. intros [] s2. apply removed_ext, Hx.
    + apply wp_ret. eapply removed_ext; [apply Hx|]. apply removed_none; [done|]. by intros r _ ->.
  - intros i s1 s2 Hi Hs1 HP1 R. apply (removed_present _ _ _ _ R); [by apply okp3|apply not_below|done].
Qed.
Lemma x86_64_unmap_pt_spec s : pwf s -> _isP (ent s [i4; i3; i2]) = true -> (forall j r, okp ([i4; i3; i2] ++ j :: r) -> _isP (ent s ([i4; i3; i2] ++ j :: r)) = false) ->
  wp (x86_64_unmap_pt i4 i3 i2) (fun _ s' => removed (fun r => [i4; i3; i2] `prefix_of` r) s s') s.
Proof.
  intros Hs HP Hsub. unfold x86_64_unmap_pt. rewrite !idx_inv by done. cbn [orb]. destruct (cr3_entry s (pw_root _ Hs)) as [P0 _].
  pose proof (ent_prefix s [i4] [i3; i2] ltac:(done) HP) as P4. pose proof (ent_prefix s [i4; i3] [i2] ltac:(done) HP) as P3.
  apply wp_bind. unfold wp at 1. rewrite (pte_load_eq s _ [] i4) by (done || by apply names_PML4E). cbn [app]. rewrite P4. cbn [negb].
  apply wp_bind. unfold wp at 1. rewrite (pte_load_eq s _ [i4] i3) by (done || by apply names_PDPTE). cbn [app]. rewrite P3. cbn [negb].
  apply wp_bind. unfold wp at 1. rewrite (pte_load_eq s _ [i4; i3] i2) by (done || by apply names_PDTE). cbn [app]. rewrite HP. cbn [negb].
  apply wp_bind. unfold wp at 1. rewrite (pte_store_eq s _ [i4; i3] i2) by (done || by apply names_PDTE).
  assert (okp [i4; i3; i2]) as Hp by (by apply okp3).
  apply (clear_free s [i4; i3] i2 _ true); try done. split; [|done]. intros _. apply owns_table; [done|done|cbn; lia].
Qed.

(** All pages of a table, and the table. *)
Lemma then_table p (c : VMM unit) (d : VMM unit) s : pwf s -> 
  wp c (fun _ s' => removed (fun r => Exists (fun i => under p i r) (seqZ 0 NPTE)) s s' /\ _isP (ent s' p) = true) s ->
  (forall s', pwf s' -> _isP (ent s' p) = true -> (forall j r, okp (p ++ j :: r) -> _isP (ent s' (p ++ j :: r)) = false) -> wp d (fun _ s'' => removed (fun r => p `prefix_of` r) s' s'') s') ->
  wp (M_bind c (fun _ => d)) (fun _ s' => removed (fun r => p `prefix_of` r) s s') s.
Proof.
  intros Hs Hc Hd. apply wp_bind. eapply wp_mono; [exact Hc|]. intros [] s1 [R1 P1]. eapply wp_mono; [apply Hd; [apply R1|done|]|].
  - intros j r. apply below_gone. apply R1.
  - intros [] s2 R2. eapply removed_ext; [intros r Hr; apply (below_table p r Hr)|]. eapply removed_trans; [done|apply _|exact R1|exact R2].
Qed.
End Level.

Section Level3.
Context (i4 i3 : Z) (H4 : idx_ok i4) (Hn : i4 <> 511) (H3 : idx_ok i3).
Lemma unmap_full_pts_spec s : pwf s -> _isP (ent s [i4; i3]) = true ->
  wp (unmap_full_pts i4 i3) (fun _ s' => removed (fun r => Exists (fun i => under [i4; i3] i r) (seqZ 0 NPTE)) s s' /\ _isP (ent s' [i4; i3]) = true) s.
Proof.
  intros Hs HP. unfold unmap_full_pts. apply (for_each_removed (fun s => _isP (ent s [i4; i3]) = true) (under [i4; i3])); [| |done|done].
  - intros i2 s1 H2%in_512 Hs1 HP1. apply wp_bind. unfold wp at 1. rewrite (pte_load_eq s1 _ [i4; i3] i2) by (done || by apply names_PDTE).
    change ([i4; i3] ++ [i2]) with [i4; i3; i2]. destruct (_isP (ent s1 [i4; i3; i2])) eqn:E; cbn [negb].
    + apply (then_table [i4; i3; i2]); [done|by apply unmap_full_pages_spec|]. intros s2 Hs2 P2 Hsub. by apply x86_64_unmap_pt_spec.
    + apply wp_ret. apply removed_none; [done|]. intros r _ [k ->]. destruct k as [|j k]; [by rewrite app_nil_r|]. by rewrite (ent_absent s1 ([i4; i3] ++ [i2]) j k).
  - intros i s1 s2 Hi Hs1 HP1 R. apply (removed_present _ _ _ _ R); [by apply okp2|apply not_below|done].
Qed.
Lemma x86_64_unmap_pdt_spec s : pwf s -> _isP (ent s [i4; i3]) = true -> (forall j r, okp ([i4; i3] ++ j :: r) -> _isP (ent s ([i4; i3] ++ j :: r)) = false) ->
  wp (x86_64_unmap_pdt i4 i3) (fun _ s' => removed (fun r => [i4; i3] `prefix_of` r) s s') s.
Proof.
  intros Hs HP Hsub. unfold x86_64_unmap_pdt. rewrite !idx_inv by done. cbn [orb]. destruct (cr3_entry s (pw_root _ Hs)) as [P0 _].
  pose proof (ent_prefix s [i4] [i3] ltac:(done) HP) as P4.
  apply wp_bind. unfold wp at 1. rewrite (pte_load_eq s _ [] i4) by (done || by apply names_PML4E). cbn [app]. rewrite P4. cbn [negb].
  apply wp_bind. unfold wp at 1. rewrite (pte_load_eq s _ [i4] i3) by (done || by apply names_PDPTE). cbn [app]. rewrite HP. cbn [negb].
  apply wp_bind. unfold wp at 1. rewrite (pte_store_eq s _ [i4] i3) by (done || by apply names_PDPTE).
  assert (okp [i4; i3]) as Hp by (by apply okp2).
  apply (clear_free s [i4] i3 _ true); try done. split; [|done]. intros _. apply owns_table; [done|done|cbn; lia].
Qed.
End Level3.

Section Level4.
Context (i4 : Z) (H4 : idx_ok i4) (Hn : i4 <> 511).
Lemma unmap_full_pdts_spec s : pwf s -> _isP (ent s [i4]) = true ->
  wp (unmap_full_pdts i4) (fun _ s' => removed (fun r => Exists (fun i => under [i4] i r) (seqZ 0 NPTE)) s s' /\ _isP (ent s' [i4]) = true) s.
Proof.
  intros Hs HP. unfold unmap_full_pdts. apply (for_each_removed (fun s => _isP (ent s [i4]) = true) (under [i4])); [| |done|done].
  - intros i3 s1 H3%in_512 Hs1 HP1. apply wp_bind. unfold wp at 1. rewrite (pte_load_eq s1 _ [i4] i3) by (done || by apply names_PDPTE).
    change ([i4] ++ [i3]) with [i4; i3]. destruct (_isP (ent s1 [i4; i3])) eqn:E; cbn [negb].
    + apply (then_table [i4; i3]); [done|by apply unmap_full_pts_spec|]. intros s2 Hs2 P2 Hsub. by apply x86_64_unmap_pdt_spec.
    + apply wp_ret. apply removed_none; [done|]. intros r _ [k ->]. destruct k as [|j k]; [by rewrite app_nil_r|]. by rewrite (ent_absent s1 ([i4] ++ [i3]) j k).
  - intros i s1 s2 Hi Hs1 HP1 R. apply (removed_present _ _ _ _ R); [by apply okp1|apply not_below|done].
Qed.
Lemma x86_64_unmap_pdpt_spec s : pwf s -> _isP (ent s [i4]) = true -> (forall j r, okp ([i4] ++ j :: r) -> _isP (ent s ([i4] ++ j :: r)) = false) ->
  wp (x86_64_unmap_pdpt i4) (fun _ s' => removed (fun r => [i4] `prefix_of` r) s s') s.
Proof.
  intros Hs HP Hsub. unfold x86_64_unmap_pdpt. rewrite !idx_inv by done. destruct (cr3_entry s (pw_root _ Hs)) as [P0 _].
  apply wp_bind. unfold wp at 1. rewrite (pte_load_eq s _ [] i4) by (done || by apply names_PML4E). cbn [app]. rewrite HP. cbn [negb].
  apply wp_bind. unfold wp at 1. rewrite (pte_store_eq s _ [] i4) by (done || by apply names_PML4E).
  assert (okp [i4]) as Hp by (by apply okp1).
  apply (clear_free s [] i4 _ true); try done. split; [|done]. intros _. apply owns_table; [done|done|cbn; lia].
Qed.
End Level4.

(** The entries of the user half: below the first 256 entries of the root. *)
Definition user_path r : Prop := exists i r', r = i :: r' /\ i < 256.
Lemma x86_64_unmap_full_spec s : pwf s -> wp x86_64_unmap_full (fun _ s' => removed user_path s s') s.
Proof.
  intros Hs. unfold x86_64_unmap_full. change (PML4I USTACK) with 256.
  eapply wp_mono; [apply (for_each_removed (fun _ => True) (under [])); [| |done|done]|].
  - intros i4 s1 Hi Hs1 _. assert (idx_ok i4 /\ i4 <> 511) as [H4 Hn] by (apply elem_of_seqZ in Hi; unfold idx_ok; lia). destruct (cr3_entry s1 (pw_root _ Hs1)) as [P0 _].
    apply wp_bind. unfold wp at 1. rewrite (pte_load_eq s1 _ [] i4) by (done || by apply names_PML4E). cbn [app].
    destruct (_isP (ent s1 [i4])) eqn:E; cbn [negb].
    + apply (then_table [i4]); [done|by apply unmap_full_pdts_spec|]. intros s2 Hs2 P2 Hsub. by apply x86_64_unmap_pdpt_spec.
    + apply wp_ret. apply removed_none; [done|]. intros r _ [k ->]. destruct k as [|j k]; [by rewrite app_nil_r|]. by rewrite (ent_absent s1 ([] ++ [i4]) j k).
  - done.
  - intros [] s' [R _]. eapply removed_ext; [|exact R]. intros r Hr. rewrite Exists_exists. unfold user_path, under. split.
    + intros (i & Hi%elem_of_seqZ & [k ->]). exists i, k. split; [done|lia].
    + intros (i & r' & -> & Hi). exists i. destruct Hr as (Hr & _). apply Forall_cons in Hr as [Hr _]. unfold idx_ok in Hr. split; [apply elem_of_seqZ; lia|by exists r'].
Qed.
End FullUnmap.
