(* ===== verification/PagingRange.v ===== *)
(** * Ranges of pages

    [x86_64_map_n] maps a range to fresh frames, all of it or none; [x86_64_mprotect]
    changes the permissions of the pages of a range that are mapped. *)
From S2P Require Import Prelude Errno Pmm Paging PagingFacts PagingMap.

Implicit Types (raw f x i j v va : Z) (p q r : list Z).

(** The pages of a range, as the loops visit them. *)
Fixpoint vas (n : nat) va : list Z := match n with O => [] | S n => va :: vas n (u64 (va + PGSZ)) end.
Lemma vas_length n va : length (vas n va) = n.
Proof. revert va. induction n as [|n IH]; intros va; cbn; [done|]. by rewrite IH. Qed.
Lemma vas_take (k n : nat) va : (k <= n)%nat -> take k (vas n va) = vas k va.
Proof. revert n va. induction k as [|k IH]; intros [|n] va Hk; cbn; try done; [lia|]. f_equal. apply IH. lia. Qed.
Lemma idx_mod x k : 0 <= k -> idx_ok (Z.land (Z.shiftr x k) 0x1FF).
Proof. intros Hk. rewrite index_eq by done. unfold idx_ok. apply Z.mod_pos_bound. lia. Qed.
Lemma va_path_ok v : PML4I v <> 511 -> okp (va_path v).
Proof. intros H. apply okp4; [by apply idx_mod|done|by apply idx_mod..]. Qed.
Lemma NPAGE_pages k : 0 <= k -> NPAGE (k * PGSZ) = k.
Proof.
  intros Hk. unfold NPAGE, PGOFF. change (PGSZ - 1) with (Z.ones 12). rewrite Z.land_ones by lia. change (2 ^ 12) with PGSZ.
  rewrite Z.mod_mul, Z.div_mul by done. cbn. lia.
Qed.

Section Range.
Context {FA : FrameAlloc} {VM : Vmman}.
Implicit Types (s : vmsys).

Lemma unmap_va s v : pwf s -> PML4I v <> 511 ->
  wp (x86_64_unmap (PML4I v) (PDPTI v) (PDI v) (PTI v)) (fun _ s' => removed (fun r => r = va_path v) s s') s.
Proof. intros Hs Hv. apply x86_64_unmap_spec; [done|by apply idx_mod|done|by apply idx_mod..]. Qed.
Lemma unmap_n_loop_spec n va s : pwf s -> Forall (fun v => PML4I v <> 511) (vas n va) ->
  wp (unmap_n_loop n va) (fun _ s' => removed (fun r => r ∈ va_path <$> vas n va) s s') s.
Proof.
  revert va s. induction n as [|n IH]; intros va s Hs Hv; cbn [unmap_n_loop vas] in *.
  { apply wp_ret, removed_none; [done|]. intros r _ Hr. by apply not_elem_of_nil in Hr. }
  apply Forall_cons in Hv as [Hv Hvs]. apply wp_bind. eapply wp_mono; [by apply unmap_va|]. intros [] s1 R1.
  eapply wp_mono; [apply IH; [apply R1|done]|]. intros [] s2 R2. eapply removed_ext; [|apply (removed_trans _ _ _ _ _ Hs (fun r => decide (r = va_path va)) R1 R2)].
  intros r _. cbn [fmap list_fmap]. by rewrite elem_of_cons.
Qed.

(** ** Mapping fresh frames *)
Lemma get_page_spec s zero : pwf s ->
  wp (get_page zero) (fun o s' => (o = (- ENOMEM, 0) /\ s' = s) \/
    (exists f, o = (0, f) /\ pwf s' /\ meta s s' /\ (forall r, okp r -> ent s' r = ent s r) /\ frame_ok f /\ fmanaged f = true /\ refs (v_fs s) f = 0 /\
      forall g, refs (v_fs s') g = if decide (g = f) then 1 else refs (v_fs s) g)) s.
Proof.
  intros Hs. unfold wp, get_page. destruct (falloc (v_fs s)) as [[f a]|] eqn:Ea; [|by left]. right. exists f.
  destruct (falloc_fresh _ _ _ Ea) as (F1 & F2 & F3). pose proof (fun g => falloc_refs _ _ _ g Ea) as Fr. destruct (pwf_taken s f a Hs Ea) as [W E].
  destruct zero; [by split_and!|]. split_and!; try done; try apply F2. apply pwf_refs; [done|]. intros p Hp. rewrite Fr.
  destruct (pw_refs _ Hs p Hp) as [A _]. case_decide; lia.
Qed.
Lemma PGROUND_frame f : frame_ok f -> PGROUND f = f.
Proof. intros [Hf Hm]. rewrite PGROUND_phys by lia. rewrite <- (Z.lor_0_r f) at 1. apply phys_lor; [lia|done|lia]. Qed.
Lemma leaf_frame f flags : frame_ok f -> pte_phys (leaf f flags) = f /\ _isP (leaf f flags) = _isP flags /\ _isalloc (leaf f flags) = _isalloc flags /\ 0 <= leaf f flags < 2 ^ 52.
Proof.
  intros Hf. unfold leaf. rewrite PGROUND_frame by done. pose proof Hf as [Hr Hm]. pose proof (PGOFF_lt flags).
  rewrite !isP_bit, !isalloc_bit, !flag_lor, !PGOFF_bit by (done || lia). split_and!; [apply phys_lor; [lia|done|done]|done..|apply lor_range; [lia|done|done]|apply lor_range; [lia|done|done]].
Qed.
(** A page that [s'] has mapped to a frame that was free in [s]. *)
Definition fresh_page s s' flags v : Prop :=
  exists f, ent s' (va_path v) = leaf f (Z.lor flags PTE_ALLOC) /\ frame_ok f /\ refs (v_fs s) f = 0 /\ refs (v_fs s') f = 1.
Definition kept s s' : Prop := forall g, 0 < refs (v_fs s) g -> refs (v_fs s') g = refs (v_fs s) g.
Lemma kept_zero s s' g : kept s s' -> refs (v_fs s') g = 0 -> refs (v_fs s) g = 0.
Proof. intros K H. pose proof (refs_nonneg (v_fs s) g). destruct (decide (refs (v_fs s) g = 0)); [done|]. rewrite K in H by lia. done. Qed.

Lemma map_one_fresh s f v flags : pwf s -> PML4I v <> 511 -> _isPS flags = false -> _isP (ent s (va_path v)) = false ->
  frame_ok f -> fmanaged f = true -> 0 < refs (v_fs s) f -> (forall r, owns s r -> pte_phys (ent s r) <> f) ->
  wp (x86_64_map f (PML4I v) (PDPTI v) (PDI v) (PTI v) (Z.lor flags PTE_ALLOC)) (fun err s' => pwf s' /\ meta s s' /\ kept s s' /\
    (forall r, okp r -> length r = 4%nat -> r <> va_path v -> ent s' r = ent s r) /\
    ((err = 0 /\ ent s' (va_path v) = leaf f (Z.lor flags PTE_ALLOC)) \/ (err = - ENOMEM /\ ent s' (va_path v) = ent s (va_path v)))) s.
Proof.
  intros Hs Hv HPS Hnp Hf Hm Hr Hown. pose proof (va_path_ok v Hv) as Hp. destruct (leaf_frame f (Z.lor flags PTE_ALLOC) Hf) as (L1 & L2 & L3 & L4).
  eapply wp_mono; [apply x86_64_map_spec; [done|by apply idx_mod|done|by apply idx_mod|by apply idx_mod|by apply idx_mod| |]|].
  - unfold _isPS, PTE_PS in *. rewrite flag_testbit in * by lia. rewrite Z.lor_spec, HPS. done.
  - split; [done|]. intros _ _. rewrite L1. split_and!; [done|done|]. intros r Ho E. by destruct (Hown r Ho).
  - intros err s' (W & Hmt & [(-> & He & Hk & _)|(-> & He & Hsr & _)]).
    + split_and!; [done|done|done| |].
      * intros r Hr' Hl Hne. by rewrite He, decide_False.
      * left. split; [done|]. rewrite He by done. change [PML4I v; PDPTI v; PDI v; PTI v] with (va_path v). by rewrite decide_True, Hnp.
    + split_and!; [done|done|by intros g _| |]; [intros r Hr' Hl _; by apply He|]. right. split; [done|by apply He].
Qed.

(** The first [k] pages are mapped, the rest of the translation is as it was. *)
Record mapped_upto s flags (ps : list Z) s' : Prop := {
  mu_wf : pwf s';
  mu_meta : meta s s';
  mu_kept : kept s s';
  mu_fresh : forall v, v ∈ ps -> fresh_page s s' flags v;
  mu_rest : forall r, okp r -> length r = 4%nat -> r ∉ va_path <$> ps -> ent s' r = ent s r
}.
Lemma mapped_cons s s1 s2 s3 flags v ps f : pwf s -> NoDup (va_path <$> v :: ps) -> okp (va_path v) ->
  frame_ok f -> refs (v_fs s) f = 0 -> meta s s1 -> kept s s1 -> refs (v_fs s1) f = 1 -> (forall r, okp r -> ent s1 r = ent s r) ->
  meta s1 s2 -> kept s1 s2 -> (forall r, okp r -> length r = 4%nat -> r <> va_path v -> ent s2 r = ent s1 r) ->
  ent s2 (va_path v) = leaf f (Z.lor flags PTE_ALLOC) -> mapped_upto s2 flags ps s3 -> mapped_upto s flags (v :: ps) s3.
Proof.
  intros Hs Hnd Hv Hf Hf0 (M1&M1'&M1'') K1 Hf1 E1 (M2&M2'&M2'') K2 E2 Ev [W (M3&M3'&M3'') K3 Fr Re]. cbn [fmap list_fmap] in Hnd. apply NoDup_cons in Hnd as [Hni Hnd].
  assert (kept s s2) as K12 by (intros g Hg; rewrite K2 by (by rewrite K1); by apply K1).
  split; [done|split_and!; congruence| | |].
  - intros g Hg. rewrite K3 by (by rewrite K12). by apply K12.
  - intros u [->|Hu]%elem_of_cons.
    + exists f. split_and!; [by rewrite Re|done|done|]. rewrite K3; rewrite K2; lia.
    + destruct (Fr u Hu) as (g & G1 & G2 & G3 & G4). exists g. split_and!; [done|done| |done]. by eapply kept_zero.
  - intros r Hr Hl Hn. cbn [fmap list_fmap] in Hn. rewrite elem_of_cons in Hn. rewrite Re, E2, E1 by tauto. done.
Qed.
Lemma mapped_nil s s' flags : pwf s' -> meta s s' -> kept s s' -> (forall r, okp r -> length r = 4%nat -> ent s' r = ent s r) -> mapped_upto s flags [] s'.
Proof. intros. split; try done; [intros v Hv; by apply not_elem_of_nil in Hv|]. auto. Qed.

Lemma map_n_loop_spec n va flags s : pwf s -> _isPS flags = false -> Forall (fun v => PML4I v <> 511) (vas n va) -> NoDup (va_path <$> vas n va) ->
  (forall v, v ∈ vas n va -> _isP (ent s (va_path v)) = false) ->
  wp (map_n_loop n va flags) (fun o s' => exists k, (k <= n)%nat /\ mapped_upto s flags (vas k va) s' /\
    o = if decide (k = n) then (0, 0) else (- ENOMEM, Z.of_nat (n - k))) s.
Proof.
  intros Hs HPS. revert va s Hs. induction n as [|n IH]; intros va s Hs Hv Hnd Hnp; cbn [map_n_loop vas] in *.
  { apply wp_ret. exists 0%nat. split_and!; [done|by apply mapped_nil|done]. }
  apply Forall_cons in Hv as [Hv Hvs]. apply wp_bind. eapply wp_mono; [by apply get_page_spec|].
  intros o s1 [(-> & ->)|(f & -> & W1 & M1 & E1 & Ff & Fm & F0 & R1)]; cbn [fst snd Z.eqb negb Z.opp ENOMEM].
  { apply wp_ret. exists 0%nat. split_and!; [lia|by apply mapped_nil|done]. }
  pose proof (va_path_ok va Hv) as Hp. assert (kept s s1) as K1 by (intros g Hg; rewrite R1; case_decide; [subst; lia|done]).
  assert (refs (v_fs s1) f = 1) as Rf by (by rewrite R1, decide_True).
  apply wp_bind. eapply wp_mono; [apply (map_one_fresh s1 f va flags); try done|].
  - rewrite E1 by done. apply Hnp. left.
  - lia.
  - intros r Ho E. assert (owns s r) as Ho' by (destruct Ho as (A & B & C); rewrite E1 in * by done; by split_and!).
    rewrite E1 in E by apply Ho. destruct (pw_refs _ Hs r Ho') as [A _]. rewrite E in A. lia.
  - intros err s2 (W2 & M2 & K2 & E2 & [(-> & Ev)|(-> & Ev)]); cbn [Z.eqb negb Z.opp ENOMEM].
    + pose proof Hnd as Hnd'. cbn [fmap list_fmap] in Hnd'. apply NoDup_cons in Hnd' as [Hni Hnd'].
      eapply wp_mono; [apply IH; [done|done|done|]|].
      * intros u Hu. assert (va_path u ∈ va_path <$> vas n (u64 (va + PGSZ))) as Hin by (by apply list_elem_of_fmap_2).
        rewrite E2, E1; [apply Hnp; by right|apply va_path_ok; rewrite Forall_forall in Hvs; by apply Hvs..|done|by intros E; rewrite E in Hin].
      * intros o s3 (k & Hk & Mu & ->). exists (S k). split_and!; [lia| |repeat case_decide; first [done|lia|f_equal; lia]].
        cbn [vas]. eapply (mapped_cons s s1 s2 s3 flags va _ f); try done.
        apply (sublist_NoDup _ _ Hnd). apply fmap_sublist. cbn. constructor. rewrite <- (vas_take k n) by done. apply sublist_take.
    + apply wp_ret. exists 0%nat. split_and!; [lia| |done]. apply mapped_nil; [done| | |].
      * destruct M1 as (?&?&?), M2 as (?&?&?). split_and!; congruence.
      * intros g Hg. rewrite K2 by (by rewrite K1). by apply K1.
      * intros r Hr Hl. destruct (decide (r = va_path va)) as [->|Hne]; [rewrite Ev; by apply E1|]. by rewrite E2, E1.
Qed.

(** All of the range or none of it. *)
Definition range_free s (n : nat) va : Prop :=
  Forall (fun v => PML4I v <> 511) (vas n va) /\ NoDup (va_path <$> vas n va) /\ forall v, v ∈ vas n va -> _isP (ent s (va_path v)) = false.
Lemma x86_64_map_n_spec va sz flags s : let n := Z.to_nat (NPAGE sz) in
  pwf s -> 0 <= NPAGE sz -> _isPS flags = false -> _isP flags = true -> range_free s n va ->
  wp (x86_64_map_n va sz flags) (fun err s' => pwf s' /\ meta s s' /\ kept s s' /\
    (forall r, okp r -> length r = 4%nat -> r ∉ va_path <$> vas n va -> ent s' r = ent s r) /\
    ((err = 0 /\ forall v, v ∈ vas n va -> fresh_page s s' flags v) \/
     (err = - ENOMEM /\ forall v, v ∈ vas n va -> _isP (ent s' (va_path v)) = false))) s.
Proof.
  intros n Hs Hn HPS HPf (Hv & Hnd & Hnp). unfold x86_64_map_n. fold n. apply wp_bind. eapply wp_mono; [by apply map_n_loop_spec|].
  intros o s1 (k & Hk & [W M K Fr Re] & ->). case_decide as Hd; cbn [fst snd Z.eqb Z.opp ENOMEM].
  { subst k. apply wp_ret. split_and!; try done. by left. }
  replace (NPAGE sz - Z.of_nat (n - k)) with (Z.of_nat k) by lia. unfold x86_64_unmap_n. rewrite NPAGE_pages, Nat2Z.id by lia.
  assert (forall v, v ∈ vas k va -> v ∈ vas n va) as Hsub.
  { intros v. rewrite <- (vas_take k n) by done. apply subseteq_take. }
  apply wp_bind. eapply wp_mono; [apply (unmap_n_loop_spec k va s1 W)|]; [apply Forall_forall; intros v Hin; rewrite Forall_forall in Hv; by apply Hv, Hsub|].
  intros [] s2 [W2 M2 Ke Go Rf Ot _]. apply wp_ret. split_and!; [done|destruct M as (?&?&?), M2 as (?&?&?); split_and!; congruence| | |].
  - intros g Hg. rewrite Ot; [by apply K|]. intros r Ho (v & -> & Hin)%list_elem_of_fmap E. destruct (Fr v Hin) as (f & F1 & F2 & F3 & _).
    rewrite F1 in E. destruct (leaf_frame f (Z.lor flags PTE_ALLOC) F2) as (L1 & _). rewrite L1 in E. subst. lia.
  - intros r Hr Hl Hnot. assert (r ∉ va_path <$> vas k va) as Hnk by (intros (v & -> & Hin)%list_elem_of_fmap; apply Hnot; by apply list_elem_of_fmap_2, Hsub).
    by rewrite Ke, Re.
  - right. split; [done|]. intros v Hin. assert (okp (va_path v)) as Hp by (apply va_path_ok; rewrite Forall_forall in Hv; by apply Hv).
    destruct (decide (va_path v ∈ va_path <$> vas k va)) as [Hy|Hno]; [by apply Go|]. rewrite Ke, Re by done. by apply Hnp.
Qed.

(** ** Looking pages up and changing their permissions *)
Lemma x86_64_getmapping_spec s v : pwf s -> PML4I v <> 511 ->
  x86_64_getmapping v s = Done (if v =? 0 then (- EINVAL, 0) else if _isP (ent s (va_path v)) then (0, PTE (PML4I v) (PDPTI v) (PDI v) (PTI v)) else (- ENOENT, 0)) s.
Proof.
  intros Hs Hv. unfold x86_64_getmapping. destruct (v =? 0); [done|]. pose proof (idx_mod v) as Hi. unfold va_path.
  assert (idx_ok (PML4I v) /\ idx_ok (PDPTI v) /\ idx_ok (PDI v) /\ idx_ok (PTI v)) as (H4 & H3 & H2 & H1) by (split_and!; by apply Hi).
  generalize dependent (PML4I v). generalize dependent (PDPTI v). generalize dependent (PDI v). generalize dependent (PTI v). intros i1 H1 i2 H2 i3 H3 i4 Hn H4.
  destruct (cr3_entry s (pw_root _ Hs)) as [P0 _]. unfold M_bind. rewrite (pte_load_eq s _ [] i4) by (done || by apply names_PML4E). cbn [app].
  destruct (_isP (ent s [i4])) eqn:P4; cbn [negb]; [|by rewrite (ent_absent s [i4] i3 [i2; i1] P4 : ent s [i4; i3; i2; i1] = 0)].
  rewrite (pte_load_eq s _ [i4] i3) by (done || by apply names_PDPTE). cbn [app].
  destruct (_isP (ent s [i4; i3])) eqn:P3; cbn [negb]; [|by rewrite (ent_absent s [i4; i3] i2 [i1] P3 : ent s [i4; i3; i2; i1] = 0)].
  rewrite (pte_load_eq s _ [i4; i3] i2) by (done || by apply names_PDTE). cbn [app].
  destruct (_isP (ent s [i4; i3; i2])) eqn:P2; cbn [negb]; [|by rewrite (ent_absent s [i4; i3; i2] i1 [] P2 : ent s [i4; i3; i2; i1] = 0)].
  rewrite (pte_load_eq s _ [i4; i3; i2] i1) by (done || by apply names_PTE). cbn [app]. by destruct (_isP (ent s [i4; i3; i2; i1])).
Qed.
Lemma reprotect_bit raw flags k : 0 <= k < 64 -> Z.testbit (reprotect raw flags) k = ((3 <=? k) && Z.testbit raw k) || Z.testbit flags k.
Proof.
  intros Hk. unfold reprotect. rewrite Z.lor_spec, Z.land_spec, not64_testbit by done. change perm_mask with (Z.ones 3).
  destruct (Z.leb_spec 3 k); [rewrite Z.ones_spec_high by lia|rewrite Z.ones_spec_low by lia]; cbn; [by rewrite andb_true_r|by rewrite andb_false_r].
Qed.
Lemma reprotect_entry raw flags : 0 <= raw < 2 ^ 52 -> 0 <= flags < 4096 ->
  0 <= reprotect raw flags < 2 ^ 52 /\ pte_phys (reprotect raw flags) = pte_phys raw.
Proof.
  intros Hr Hf. split.
  - assert (reprotect raw flags = reprotect raw flags mod 2 ^ 52) as ->; [|apply Z.mod_pos_bound; lia]. apply Z.bits_inj'. intros k Hk. destruct (Z.ltb_spec k 52).
    + by rewrite Z.mod_pow2_bits_low by lia.
    + rewrite Z.mod_pow2_bits_high by lia. unfold reprotect. rewrite Z.lor_spec, Z.land_spec, (high_bits raw k), (low_bits flags k) by lia. done.
  - apply Z.bits_inj'. intros k Hk. rewrite !pte_phys_bit by done. destruct (Z.leb_spec 12 k), (Z.ltb_spec k 52); cbn [andb]; try done.
    rewrite reprotect_bit by lia. destruct (Z.leb_spec 3 k); [|lia]. rewrite (low_bits flags k) by lia. cbn. by rewrite orb_false_r.
Qed.

Definition reprotected s flags (ps : list Z) s' : Prop :=
  pwf s' /\ meta s s' /\ same_refs s s' /\
  forall r, okp r -> ent s' r = if decide (r ∈ va_path <$> ps) then (if _isP (ent s r) then reprotect (ent s r) flags else ent s r) else ent s r.
Lemma reprotect_one s v flags : pwf s -> PML4I v <> 511 -> 0 <= flags < 4096 -> _isalloc flags = false -> _isP (ent s (va_path v)) = true ->
  wp (M_bind (pte_load (PTE (PML4I v) (PDPTI v) (PDI v) (PTI v))) (fun raw => pte_store (PTE (PML4I v) (PDPTI v) (PDI v) (PTI v)) (reprotect raw flags)))
    (fun _ s' => reprotected s flags [v] s') s.
Proof.
  intros Hs Hv Hf Ha HP. pose proof (va_path_ok v Hv) as Hp. pose proof (pw_raw _ Hs _ Hp) as Hraw.
  assert (names (PTE (PML4I v) (PDPTI v) (PDI v) (PTI v)) [PML4I v; PDPTI v; PDI v] (PTI v)) as HN by (apply names_PTE; by apply idx_mod).
  pose proof (ent_prefix s [PML4I v; PDPTI v; PDI v] [PTI v] ltac:(done) HP) as P3. destruct (reprotect_entry (ent s (va_path v)) flags Hraw Hf) as [Rr Rp].
  unfold wp, M_bind. rewrite (pte_load_eq s _ [PML4I v; PDPTI v; PDI v] (PTI v)) by auto. change ([PML4I v; PDPTI v; PDI v] ++ [PTI v]) with (va_path v).
  rewrite (pte_store_eq s _ [PML4I v; PDPTI v; PDI v] (PTI v)) by auto.
  destruct (write_leaf s [PML4I v; PDPTI v; PDI v] (PTI v) (reprotect (ent s (va_path v)) flags) Hs Hp eq_refl P3) as [W E].
  - split; [done|]. rewrite Rp. intros _ Hal. rewrite isalloc_bit, reprotect_bit in Hal by lia. rewrite <- !isalloc_bit, Ha, orb_false_r in Hal. cbn [Z.leb Z.compare Pos.compare Pos.compare_cont andb] in Hal.
    assert (owns s (va_path v)) as Ho by (split_and!; auto). destruct (pw_refs _ Hs _ Ho) as [A B]. split_and!; [done|done|]. intros r Hr Er. by apply (pw_inj _ Hs).
  - split_and!; [done|done|done|]. intros r Hr. rewrite E by done. change ([PML4I v; PDPTI v; PDI v] ++ [PTI v]) with (va_path v). cbn [fmap list_fmap].
    destruct (decide (r = va_path v)) as [->|Hne]; [rewrite decide_True by left; by rewrite HP|]. by rewrite decide_False by (by rewrite list_elem_of_singleton).
Qed.
Lemma mprotect_loop_spec n va flags s : pwf s -> 0 <= flags < 4096 -> _isalloc flags = false ->
  Forall (fun v => PML4I v <> 511 /\ v <> 0) (vas n va) -> NoDup (va_path <$> vas n va) ->
  wp (mprotect_loop n va flags) (fun o s' => o = 0 /\ reprotected s flags (vas n va) s') s.
Proof.
  intros Hs Hf Ha. revert va s Hs. induction n as [|n IH]; intros va s Hs Hv Hnd; cbn [mprotect_loop vas] in *.
  { apply wp_ret. split; [done|]. split_and!; try done. }
  apply Forall_cons in Hv as [[Hv H0] Hvs]. cbn [fmap list_fmap] in Hnd. apply NoDup_cons in Hnd as [Hni Hnd]. apply wp_bind. unfold wp at 1. rewrite x86_64_getmapping_spec by done.
  destruct (Z.eqb_spec va 0); [done|]. destruct (_isP (ent s (va_path va))) eqn:HP; cbn [fst snd Z.eqb negb Z.opp ENOENT Pos.eqb].
  - assert (forall c1 (c2 : VMM Z) (Q : Z -> vmsys -> Prop) (E : Z), wp (M_bind (M_bind c1 (fun raw => pte_store E (reprotect raw flags))) (fun _ => c2)) Q s ->
      wp (M_bind c1 (fun raw => M_bind (pte_store E (reprotect raw flags)) (fun _ => c2))) Q s) as Hassoc by (intros c1 c2 Q E Hw; unfold wp in *; by rewrite M_bind_assoc in Hw).
    apply Hassoc, wp_bind. eapply wp_mono; [by apply reprotect_one|]. intros [] s1 (W1 & M1 & F1 & E1).
    eapply wp_mono; [by apply IH|]. intros o s2 (-> & W2 & M2 & F2 & E2). split; [done|]. split_and!; [done|destruct M1 as (?&?&?), M2 as (?&?&?); split_and!; congruence|by intros g; rewrite F2|].
    intros r Hr. rewrite E2, E1 by done. cbn [fmap list_fmap]. destruct (decide (r = va_path va)) as [->|Hne].
    + rewrite decide_False by done. rewrite !decide_True by left. done.
    + rewrite (decide_False (P := r ∈ [va_path va])) by (by rewrite list_elem_of_singleton). destruct (decide (r ∈ va_path <$> vas n (u64 (va + PGSZ)))); [rewrite decide_True by (by right)|rewrite decide_False by (rewrite elem_of_cons; tauto)]; done.
  - eapply wp_mono; [by apply IH|]. intros o s2 (-> & W2 & M2 & F2 & E2). split; [done|]. split_and!; [done|done|done|]. intros r Hr. rewrite E2 by done. cbn [fmap list_fmap].
    destruct (decide (r = va_path va)) as [->|Hne]; [rewrite decide_False by done; rewrite decide_True by left; by rewrite HP|].
    destruct (decide (r ∈ va_path <$> vas n (u64 (va + PGSZ)))); [rewrite decide_True by (by right)|rewrite decide_False by (rewrite elem_of_cons; tauto)]; done.
Qed.
End Range.
