(* ===== verification/PagingNew.v ===== *)
(** * New address spaces

    A temporary mapping of a frame; a new root table shares the kernel half and has an
    empty user half. *)
From S2P Require Import Prelude Errno Pmm Paging PagingFacts PagingMap PagingRange.

Implicit Types (raw f x i j va pa : Z) (p q r : list Z).

Section New.
Context {FA : FrameAlloc} {VM : Vmman}.
Implicit Types (s : vmsys).

(** ** Writing into a frame that is not a table *)
Lemma ent_set_foreign s f i raw r : foreign s f -> idx_ok i -> okp r -> ent (set_mem (f + 8 * i) raw s) r = ent s r.
Proof.
  intros Hf Hi. induction r as [|j r IH] using rev_ind; [done|]. intros Hr. pose proof (okp_prefix _ _ Hr) as Hr0. destruct (okp_idx _ _ Hr) as [Hj _].
  rewrite !ent_snoc, IH by done. destruct (_isP (ent s r)) eqn:Er; [|done]. cbn [set_mem v_mem].
  assert (length r <= 3)%nat as Hl by (destruct Hr as (_ & Hl & _); rewrite length_app in Hl; cbn in Hl; lia).
  destruct (Z.eqb_spec (pte_phys (ent s r) + 8 * j) (f + 8 * i)) as [E|]; [|done]. exfalso. eapply foreign_slot; [exact Hf|exact Hi|exact Hj|by apply owns_table|done|done].
Qed.
Lemma pwf_foreign s f i raw : pwf s -> foreign s f -> idx_ok i -> pwf (set_mem (f + 8 * i) raw s).
Proof.
  intros Hs Hf Hi. assert (forall r, okp r -> ent (set_mem (f + 8 * i) raw s) r = ent s r) as He by (intros; by apply ent_set_foreign).
  assert (forall r, owns (set_mem (f + 8 * i) raw s) r -> owns s r) as Ho by (intros r (A & B & C); rewrite He in * by done; by split_and!).
  destruct (cr3_entry s (pw_root _ Hs)) as [P0 F0]. split.
  - exact (pw_root _ Hs).
  - cbn [set_mem v_mem v_cr3]. destruct (Z.eqb_spec (v_cr3 s + 8 * 511) (f + 8 * i)) as [E|]; [|apply (pw_rec _ Hs)]. exfalso. rewrite <- F0 in E.
    eapply (foreign_slot s f i [] 511); [done|done|apply idx_511|apply owns_table; [apply okp_nil|done|cbn; lia]|cbn; lia|done].
  - intros r Hr. rewrite He by apply Hr. by apply (pw_refs _ Hs), Ho.
  - intros r1 r2 H1 H2. rewrite !He by (apply H1 || apply H2). apply (pw_inj _ Hs); by apply Ho.
  - intros r Hr. rewrite He by done. by apply (pw_raw _ Hs).
Qed.
Lemma foreign_set s f i raw : foreign s f -> idx_ok i -> foreign (set_mem (f + 8 * i) raw s) f.
Proof.
  intros Hf Hi. split; [apply Hf|]. intros r Ho Hl. rewrite ent_set_foreign by (done || apply Ho). apply Hf; [|done].
  destruct Ho as (A & B & C). rewrite ent_set_foreign in * by done. by split_and!.
Qed.

(** ** Addresses inside a page *)
Lemma va_in_page va o : va mod PGSZ = 0 -> 0 <= o < 4096 -> va_path (va + o) = va_path va /\ PGOFF (va + o) = o.
Proof.
  intros Hm Ho. change PGSZ with 4096 in Hm. assert (exists m, va = m * 4096) as [m ->] by (exists (va / 4096); pose proof (Z_div_mod_eq_full va 4096); lia). split.
  - unfold va_path, PML4I, PDPTI, PDI, PTI. rewrite !index_eq by lia. assert (forall k, 12 <= k -> (m * 4096 + o) / 2 ^ k = m * 4096 / 2 ^ k) as H.
    { intros k Hk. replace k with (12 + (k - 12)) by lia. rewrite Z.pow_add_r by lia. rewrite <- !Z.div_div by lia. f_equal. change (2 ^ 12) with 4096.
      rewrite Z.div_add_l, Z.div_mul, Z.div_small by lia. lia. }
    by rewrite !H by lia.
  - unfold PGOFF. change (PGSZ - 1) with (Z.ones 12). rewrite Z.land_ones by lia. change (2 ^ 12) with 4096. rewrite Z.add_comm, Z.mod_add by lia. by apply Z.mod_small.
Qed.

(** ** Temporary mappings *)
Lemma pwf_set_vs s (v : vstate) : pwf s -> pwf (set_vs v s).
Proof. intros [H1 H2 H3 H4 H5]. by split. Qed.
Definition plain_kernel va : Prop := va mod PGSZ = 0 /\ 256 <= PML4I va < 511.
(** Kernel virtual memory for one page. *)
Definition room s va (vs : vstate) : Prop :=
  vm_alloc (v_vs s) PGSZ = (va, vs) /\ va <> 0 /\ plain_kernel va /\ _isP (ent s (va_path va)) = false.
Lemma NPAGE_one : Z.to_nat (NPAGE PGSZ) = 1%nat.
Proof. done. Qed.
Lemma krw_leaf f : frame_ok f -> _isP (leaf f PTE_KRW) = true /\ _isalloc (leaf f PTE_KRW) = false /\ pte_phys (leaf f PTE_KRW) = f /\ 0 <= leaf f PTE_KRW < 2 ^ 52.
Proof. intros Hf. destruct (leaf_frame f PTE_KRW Hf) as (A & B & C & D). by rewrite B, C. Qed.
Lemma x86_64_mount_spec s f va vs : pwf s -> frame_ok f -> room s va vs ->
  wp (x86_64_mount f) (fun o s' => pwf s' /\ v_cr3 s' = v_cr3 s /\ v_kroot s' = v_kroot s /\
    ((o = (0, va) /\ v_vs s' = vs /\ ent s' (va_path va) = leaf f PTE_KRW /\ (forall r, okp r -> length r = 4%nat -> r <> va_path va -> ent s' r = ent s r) /\
        kept s s' /\ tables_grow s s') \/
     (o = (- ENOMEM, 0) /\ (forall r, okp r -> length r = 4%nat -> ent s' r = ent s r) /\ same_refs s s' /\ no_new s s'))) s.
Proof.
  intros Hs Hf (Ea & H0 & [Hm Hv] & Hnp). unfold x86_64_mount. destruct (Z.eqb_spec f 0) as [->|_]; [by destruct Hf; lia|]. unfold wp. rewrite Ea.
  destruct (Z.eqb_spec va 0); [done|]. set (s1 := set_vs vs s). assert (pwf s1) as Hs1 by (by apply pwf_set_vs).
  assert (okp (va_path va)) as Hp by (apply va_path_ok; lia). destruct (krw_leaf f Hf) as (L1 & L2 & L3 & L4).
  assert (can_map s1 (va_path va) (leaf f PTE_KRW)) as Hc by (split; [done|]; by rewrite L2).
  pose proof (x86_64_map_spec s1 f (PML4I va) (PDPTI va) (PDI va) (PTI va) PTE_KRW Hs1 (idx_mod va 39 ltac:(lia)) ltac:(lia) (idx_mod va 30 ltac:(lia)) (idx_mod va 21 ltac:(lia)) (idx_mod va 12 ltac:(lia)) eq_refl Hc) as H.
  change [PML4I va; PDPTI va; PDI va; PTI va] with (va_path va) in H. apply wp_done in H as (err & s2 & E & W & (M1 & M2 & M3) & H).
  unfold x86_64_map_i, M_bind. rewrite NPAGE_one. cbn [map_i_loop]. unfold M_bind. rewrite E. destruct H as [(-> & He & Hk & Hg)|(-> & He & Hr & Hnn)].
  - cbn -[ent va_path leaf]. split_and!; [done|done|done|]. left. split_and!; [done|done| | |done|].
    + rewrite He, decide_True by done. change (ent s1 (va_path va)) with (ent s (va_path va)). by rewrite Hnp.
    + intros r Hr Hl Hne. by rewrite He, decide_False.
    + destruct Hg as [G1 G2 G3]. split; [exact G1| |exact G3]. intros r Ho Hl. exact (G2 r Ho Hl).
  - cbn -[ent va_path leaf]. split_and!; [by apply pwf_set_vs|done|done|]. right. split_and!; [done|done|done|]. intros r Ho. exact (Hnn r Ho).
Qed.

(** ** Copying the kernel half of the root *)
Lemma for_each_seq (I : Z -> vmsys -> Prop) (body : Z -> VMM unit) n i s : 0 <= n -> I i s ->
  (forall j t, i <= j < i + n -> I j t -> wp (body j) (fun _ t' => I (j + 1) t') t) -> wp (for_each (seqZ i n) body) (fun _ t => I (i + n) t) s.
Proof.
  intros Hn. revert i s. pattern n. apply natlike_ind; [| |done].
  - intros i s HI _. cbn. by rewrite Z.add_0_r.
  - intros m Hm IH i s HI Hb. rewrite seqZ_cons by lia. cbn [for_each]. apply wp_bind. eapply wp_mono; [apply Hb; [lia|done]|]. intros [] t Ht.
    replace (Z.pred (Z.succ m)) with m by lia. replace (Z.succ i) with (i + 1) by lia. eapply wp_mono; [apply IH; [done|]|]; [intros j t' Hj; apply Hb; lia|].
    intros [] t'. by replace (i + 1 + m) with (i + Z.succ m) by lia.
Qed.
Record copied s f i t : Prop := {
  cp_wf : pwf t;
  cp_foreign : foreign t f;
  cp_meta : meta s t;
  cp_fs : v_fs t = v_fs s;
  cp_ent : forall r, okp r -> ent t r = ent s r;
  cp_root : forall j, idx_ok j -> v_mem t (v_cr3 s + 8 * j) = v_mem s (v_cr3 s + 8 * j);
  cp_mem : forall j, idx_ok j -> v_mem t (f + 8 * j) = if decide (256 <= j < i) then v_mem s (v_cr3 s + 8 * j) else v_mem s (f + 8 * j)
}.
Lemma root_not_foreign s f i j : pwf s -> foreign s f -> idx_ok i -> idx_ok j -> v_cr3 s + 8 * j <> f + 8 * i.
Proof.
  intros Hs Hf Hi Hj. destruct (cr3_entry s (pw_root _ Hs)) as [P0 F0]. rewrite <- F0. apply foreign_slot; try done; [apply owns_table; [apply okp_nil|done|cbn; lia]|cbn; lia].
Qed.
(** One word of the new root, through the temporary mapping. *)
Lemma store_mounted s f va i raw : pwf s -> frame_ok f -> va mod PGSZ = 0 -> ent s (va_path va) = leaf f PTE_KRW -> idx_ok i ->
  pte_store (va + 8 * i) raw s = Done tt (set_mem (f + 8 * i) raw s).
Proof.
  intros Hs Hf Hm He Hi. unfold pte_store, mmu. unfold idx_ok in Hi. destruct (va_in_page va (8 * i) Hm ltac:(lia)) as [-> ->]. rewrite He.
  destruct (krw_leaf f Hf) as (-> & _ & -> & _). done.
Qed.
Lemma copied_step s f i t raw : copied s f i t -> 256 <= i < 512 -> raw = v_mem s (v_cr3 s + 8 * i) -> copied s f (i + 1) (set_mem (f + 8 * i) raw t).
Proof.
  intros [W Fo M Fs En Ro Me] Hi ->. assert (idx_ok i) as Hi' by (unfold idx_ok; lia). split; [by apply pwf_foreign|by apply foreign_set|done|done| | |].
  - intros r Hr. rewrite ent_set_foreign by done. by apply En.
  - intros j Hj. cbn [set_mem v_mem]. destruct (Z.eqb_spec (v_cr3 s + 8 * j) (f + 8 * i)) as [E|_]; [|by apply Ro]. exfalso. destruct M as (M1 & _). rewrite <- M1 in E.
    by apply (root_not_foreign t f i j W Fo).
  - intros j Hj. cbn [set_mem v_mem]. destruct (Z.eqb_spec (f + 8 * j) (f + 8 * i)) as [E|E].
    + assert (j = i) as -> by lia. by rewrite decide_True by lia.
    + rewrite Me by done. destruct (decide (256 <= j < i)), (decide (256 <= j < i + 1)); try lia; done.
Qed.
Lemma copy_root_spec s f va : pwf s -> foreign s f -> plain_kernel va -> ent s (va_path va) = leaf f PTE_KRW ->
  wp (copy_root va) (fun _ t => copied s f 512 t) s.
Proof.
  intros Hs Hf [Hm Hv] He. unfold copy_root. change (PML4I USTACK) with 256. change (NPTE - 256) with 256.
  apply (for_each_seq (copied s f)); [lia| |].
  - split; try done. intros j Hj. by rewrite decide_False by lia.
  - intros j t Hj Ht. pose proof Ht as [W Fo M Fs En Ro Me]. assert (idx_ok j) as Hj' by (unfold idx_ok; lia). destruct (cr3_entry t (pw_root _ W)) as [P0 F0].
    assert (okp (va_path va)) as Hp by (apply va_path_ok; lia).
    apply wp_bind. unfold wp at 1. rewrite (pte_load_eq t _ [] j) by (done || by apply names_PML4E). rewrite (ent_snoc t [] j), P0, F0.
    assert (ent t (va_path va) = leaf f PTE_KRW) as He' by (by rewrite En).
    unfold wp. rewrite (store_mounted t f va j _ W (proj1 Hf) Hm He' Hj'). destruct M as (M1 & _). rewrite M1. apply copied_step; [done|lia|by rewrite Ro].
Qed.

(** ** The new root *)
Definition unowned s f : Prop := forall r, owns s r -> pte_phys (ent s r) <> f.
Lemma unowned_foreign s f : frame_ok f -> unowned s f -> foreign s f.
Proof. intros Hf Hu. split; [done|]. intros r Ho _. by apply Hu. Qed.
Definition new_raw f : Z := Z.lor f (Z.lor PTE_KRW PTE_WTCD).
(** What the root at [f] holds, when the current address space is [s]. *)
Record new_root s f : Prop := {
  nr_user : forall j, 0 <= j < 256 -> v_mem s (f + 8 * j) = 0;
  nr_kernel : forall j, 256 <= j < 511 -> v_mem s (f + 8 * j) = ent s [j];
  nr_rec : v_mem s (f + 8 * 511) = new_raw f
}.
Record kvm_done s f s' : Prop := {
  kd_wf : pwf s';
  kd_leaf : forall r, okp r -> length r = 4%nat -> _isP (ent s' r) = _isP (ent s r) /\ (_isP (ent s r) = true -> ent s' r = ent s r);
  kd_kept : kept s s';
  kd_unowned : unowned s' f;
  kd_new : new_root s' f
}.
Lemma mounted_unowned s f s2 va : pwf s -> 0 < refs (v_fs s) f -> unowned s f -> frame_ok f -> okp (va_path va) -> ent s2 (va_path va) = leaf f PTE_KRW ->
  (forall r, okp r -> length r = 4%nat -> r <> va_path va -> ent s2 r = ent s r) -> tables_grow s s2 -> unowned s2 f.
Proof.
  intros Hs Hr Hu Hf Hp Hl He [G1 G2 _] r Ho E. destruct (krw_leaf f Hf) as (_ & L2 & _). destruct (decide (length r <= 3)%nat) as [Hlen|Hlen].
  - destruct (G2 r Ho Hlen) as [Ho'|H0]; [|rewrite E in H0; lia]. apply (Hu r Ho'). rewrite <- (G1 r); [done|apply Ho|done|apply Ho'].
  - assert (length r = 4%nat) as H4 by (destruct Ho as ((_ & H & _) & _); lia). destruct (decide (r = va_path va)) as [->|Hne].
    + destruct Ho as (_ & _ & [H|H]); [lia|]. by rewrite Hl, L2 in H.
    + assert (ent s2 r = ent s r) as E' by (by apply He; [apply Ho| |]). rewrite E' in E. apply (Hu r); [|done]. destruct Ho as (A & B & C). rewrite E' in *. by split_and!.
Qed.
Lemma kvmcpy_finish s s2 s3 f va : pwf s -> frame_ok f -> 0 < refs (v_fs s) f -> unowned s f -> (forall j, idx_ok j -> v_mem s (f + 8 * j) = 0) ->
  plain_kernel va -> _isP (ent s (va_path va)) = false -> ent s2 (va_path va) = leaf f PTE_KRW ->
  (forall r, okp r -> length r = 4%nat -> r <> va_path va -> ent s2 r = ent s r) -> kept s s2 -> tables_grow s s2 -> pwf s2 ->
  copied s2 f 512 s3 ->
  wp (x86_64_unmount va) (fun _ s4 => kvm_done s f s4) (set_mem (f + 8 * 511) (new_raw f) s3).
Proof.
  intros Hs Hf Hr Hu Hz [Hm Hv] Hnp Hl He Hk Hg Hs2 Hc. assert (okp (va_path va)) as Hp by (apply va_path_ok; lia).
  assert (unowned s2 f) as Hu2 by (by apply (mounted_unowned s f s2 va)). pose proof (unowned_foreign _ _ Hf Hu) as Hfo. pose proof (unowned_foreign _ _ Hf Hu2) as Hfo2.
  destruct Hc as [W Fo M Fs En Ro Me]. set (t := set_mem (f + 8 * 511) (new_raw f) s3). assert (pwf t) as Wt by (apply pwf_foreign; [done|done|apply idx_511]).
  assert (foreign t f) as Ft by (apply foreign_set; [done|apply idx_511]).
  assert (forall r, okp r -> ent t r = ent s2 r) as Et by (intros r Hr'; unfold t; rewrite ent_set_foreign by (done || apply idx_511); by apply En).
  assert (unowned t f) as Ut. { intros r (A & B & C) E. rewrite Et in * by done. apply (Hu2 r); [by split_and!|done]. }
  unfold x86_64_unmount, x86_64_unmap_n. rewrite NPAGE_one.
  eapply wp_mono; [apply (unmap_n_loop_spec 1 va t Wt); cbn [vas]; apply Forall_cons; split; [lia|apply Forall_nil_2]|].
  intros [] s4 R. cbn [vas fmap list_fmap] in R. pose proof R as [W4 M4 Ke Go Rf Ot Me4]. destruct (krw_leaf f Hf) as (L1 & L2 & L3 & _). split.
  - done.
  - intros r Hr' H4. destruct (decide (r = va_path va)) as [->|Hne].
    + rewrite Hnp. split; [|done]. apply Go; [done|left].
    + rewrite Ke, Et, He by (done || rewrite list_elem_of_singleton; done). done.
  - intros g Hg0. rewrite Ot; [change (v_fs t) with (v_fs s3); rewrite Fs; by apply Hk|].
    intros r Ho ->%list_elem_of_singleton. destruct Ho as (_ & _ & [H|H]); [cbn in H; lia|]. by rewrite Et, Hl, L2 in H.
  - intros r Ho. destruct (removed_owns _ _ _ _ R Ho) as (O & _ & ->). by apply Ut.
  - assert (forall j, idx_ok j -> v_mem s4 (f + 8 * j) = v_mem t (f + 8 * j)) as Hm4 by (intros j Hj; by apply Me4).
    assert (forall j, idx_ok j -> j <> 511 -> v_mem t (f + 8 * j) = v_mem s3 (f + 8 * j)) as Hmt.
    { intros j Hj Hne. unfold t. cbn [set_mem v_mem]. destruct (Z.eqb_spec (f + 8 * j) (f + 8 * 511)); [lia|done]. }
    split.
    + intros j Hj. assert (idx_ok j) as Hj' by (unfold idx_ok; lia). rewrite Hm4, Hmt, Me, decide_False by (done || lia). rewrite (tg_mem _ _ Hg) by done. by apply Hz.
    + intros j Hj. assert (idx_ok j) as Hj' by (unfold idx_ok; lia). rewrite Hm4, Hmt, Me, decide_True by (done || lia).
      assert (okp [j]) as Hpj by (apply okp1; [done|lia]). rewrite Ke, Et; [|done|done|by rewrite list_elem_of_singleton].
      destruct (cr3_entry s2 (pw_root _ Hs2)) as [P0 F0]. change [j] with ([] ++ [j]). by rewrite (ent_snoc s2 [] j), P0, F0.
    + rewrite Hm4 by apply idx_511. unfold t. cbn [set_mem v_mem]. by rewrite Z.eqb_refl.
Qed.

Definition user_half r : Prop := match r with [] => False | j :: _ => j < 256 end.
#[local] Instance user_half_dec r : Decision (user_half r).
Proof. destruct r; apply _. Defined.
Lemma x86_64_kvmcpy_spec s f va vs : pwf s -> frame_ok f -> 0 < refs (v_fs s) f -> unowned s f -> (forall j, idx_ok j -> v_mem s (f + 8 * j) = 0) -> room s va vs ->
  wp (x86_64_kvmcpy f) (fun err s' => v_cr3 s' = v_cr3 s /\
    ((err = 0 /\ kvm_done s f s') \/ (err = - ENOMEM /\ pwf s' /\ unowned s' f /\ (forall r, okp r -> length r = 4%nat -> ent s' r = ent s r) /\ same_refs s s'))) s.
Proof.
  intros Hs Hf Hr Hu Hz Hroom. pose proof Hroom as (_ & _ & Hpk & Hnp). unfold x86_64_kvmcpy.
  destruct (Z.eqb_spec f 0) as [->|_]; [by destruct Hf; lia|]. assert (PGOFF f = 0) as Hoff.
  { unfold PGOFF. change (PGSZ - 1) with (Z.ones 12). rewrite Z.land_ones by lia. apply Hf. }
  rewrite Hoff. cbn [orb negb Z.eqb]. apply wp_bind. eapply wp_mono; [by apply x86_64_mount_spec|].
  intros o s2 (W2 & M2 & _ & [(-> & _ & Hl & He & Hk & Hg)|(-> & He & Hsr & Hnn)]); cbn [fst snd Z.eqb negb Z.opp ENOMEM].
  - assert (unowned s2 f) as Hu2 by (apply (mounted_unowned s f s2 va); try done; apply va_path_ok; destruct Hpk; lia).
    apply wp_bind. eapply wp_mono; [apply (copy_root_spec s2 f va); [done|by apply unowned_foreign|done|done]|]. intros [] s3 Hc.
    apply wp_bind. unfold wp at 1. assert (ent s3 (va_path va) = leaf f PTE_KRW) as Hl3 by (rewrite (cp_ent _ _ _ _ Hc); [done|apply va_path_ok; destruct Hpk; lia]).
    change PML4_Recursion with 511. rewrite (store_mounted s3 f va 511 _ (cp_wf _ _ _ _ Hc) Hf (proj1 Hpk) Hl3 idx_511).
    apply wp_bind. pose proof (kvmcpy_finish s s2 s3 f va Hs Hf Hr Hu Hz Hpk Hnp Hl He Hk Hg W2 Hc) as Hfin. fold (new_raw f).
    destruct (cp_meta _ _ _ _ Hc) as (M3 & _). apply wp_done in Hfin as ([] & s4 & E4 & Hd). unfold wp at 1. rewrite E4. apply wp_ret. split; [|by left].
    assert (v_cr3 s4 = v_cr3 s3) as ->; [|congruence]. 
    pose proof (unmap_n_loop_spec 1 va (set_mem (f + 8 * 511) (new_raw f) s3)) as Hun. unfold x86_64_unmount, x86_64_unmap_n in E4. rewrite NPAGE_one in E4. unfold wp in Hun. rewrite E4 in Hun.
    destruct (rm_meta _ _ _ (Hun ltac:(apply pwf_foreign; [apply Hc|apply Hc|apply idx_511]) ltac:(cbn [vas]; apply Forall_cons; split; [destruct Hpk; lia|apply Forall_nil_2]))) as (Hcr & _). exact Hcr.
  - apply wp_ret. split; [done|]. right. split_and!; [done|done| |done|done]. intros r Ho E.
    destruct (Hnn r Ho) as [Ho' E']. apply (Hu r Ho'). congruence.
Qed.

(** ** Switching to the new root *)
Lemma new_space_ent s f r : pwf s -> frame_ok f -> new_root s f -> okp r -> r <> [] ->
  ent (set_cr3 f s) r = if decide (user_half r) then 0 else ent s r.
Proof.
  intros Hs Hf [N1 N2 N3] Hr Hne. destruct r as [|j r]; [done|]. destruct (cr3_entry (set_cr3 f s) Hf) as [P0 F0]. cbn [set_cr3 v_cr3] in F0.
  change (j :: r) with ([] ++ j :: r). rewrite ent_app, walk_P, F0 by done. cbn [set_cr3 v_mem app].
  assert (idx_ok j /\ j <> 511) as [Hj Hj'] by (destruct Hr as (Hr & _ & Hh); apply Forall_cons in Hr as [Hr _]; split; [done|by intros ->]). unfold idx_ok in Hj.
  destruct (decide (user_half (j :: r))) as [Hh|Hh]; cbn in Hh.
  - rewrite N1 by lia. apply walk_absent.
  - rewrite N2 by lia. change (j :: r) with ([j] ++ r). by rewrite ent_app.
Qed.
Lemma new_space_pwf s f : pwf s -> frame_ok f -> fmanaged f = true -> 0 < refs (v_fs s) f -> unowned s f -> new_root s f -> pwf (set_cr3 f s).
Proof.
  intros Hs Hf Hmg Hr Hu Hn. destruct (cr3_entry (set_cr3 f s) Hf) as [P0 F0]. cbn [set_cr3 v_cr3] in F0.
  assert (forall r, owns (set_cr3 f s) r -> r = [] \/ (owns s r /\ ent (set_cr3 f s) r = ent s r)) as Ho.
  { intros r (A & B & C). destruct (decide (r = [])) as [|Hne]; [by left|right]. pose proof (new_space_ent s f r Hs Hf Hn A Hne) as E. case_decide; [by rewrite E in B|].
    rewrite E in *. by split_and!. }
  split.
  - exact Hf.
  - cbn [set_cr3 v_mem v_cr3]. rewrite (nr_rec _ _ Hn). unfold new_raw. rewrite isP_bit, flag_lor, phys_lor; [done|destruct Hf; lia|apply Hf|vm_compute; split; [discriminate|reflexivity]|apply Hf|lia].
  - intros r Hor. destruct (Ho r Hor) as [->|[Hor' ->]]; [by rewrite F0|]. by apply (pw_refs _ Hs).
  - intros r1 r2 H1 H2. destruct (Ho r1 H1) as [->|[O1 ->]], (Ho r2 H2) as [->|[O2 ->]]; [done| | |by apply (pw_inj _ Hs)]; rewrite F0; intros E; exfalso.
    + by apply (Hu r2 O2).
    + by apply (Hu r1 O1).
  - intros r Hr'. destruct (decide (r = [])) as [->|Hne].
    + unfold ent. cbn [walk set_cr3 v_cr3]. apply lor_range; [destruct Hf; lia|apply Hf|vm_compute; split; [discriminate|reflexivity]].
    + rewrite new_space_ent by done. case_decide; [lia|by apply (pw_raw _ Hs)].
Qed.
End New.
