(* ===== verification/PagingPmm.v ===== *)
(** * The physical memory manager behind the page tables

    The reference counts of PmmAlloc.v, which the page allocator refines (PmmProps.v),
    keep the promise that Paging.v asks of an allocator of frames. *)
From S2P Require Import Prelude Errno KMem Queue Bitmap BitmapFacts BitmapSpec Pmm PmmFacts PmmAlloc PmmProps Paging.

Implicit Types (A : counts) (J : zinfo) (f g i idx : Z).

Section PmmFrames.
Context (L : layout).

(** Where a frame lies. *)
Definition in_zone f i : option (Z * Z) :=
  match L i with
  | None => None
  | Some J => if bool_decide (i_start J <= f < frame J (i_npages J) /\ f mod PGSZ = 0) then Some (i, (f - i_start J) / PGSZ) else None
  end.
Definition place f : option (Z * Z) :=
  match in_zone f 0 with Some x => Some x | None =>
  match in_zone f 1 with Some x => Some x | None =>
  match in_zone f 2 with Some x => Some x | None => in_zone f 3 end end end.
(** Zones of aligned frames that do not overlap, none at address 0. *)
Record layout_ok : Prop := {
  lo_zone : forall i J, L i = Some J -> 0 <= i < 4;
  lo_frames : forall i J, L i = Some J -> 0 < i_start J /\ i_start J mod PGSZ = 0 /\ 0 < i_npages J /\ frame J (i_npages J) <= 2 ^ 52;
  lo_apart : forall i j J J' f, L i = Some J -> L j = Some J' -> i_start J <= f < frame J (i_npages J) -> i_start J' <= f < frame J' (i_npages J') -> i = j
}.
Context (HL : layout_ok).

Lemma in_zone_spec f i x : in_zone f i = Some x -> exists J, L i = Some J /\ i_start J <= f < frame J (i_npages J) /\ x.1 = i /\ f = frame J x.2 /\ 0 <= x.2 < i_npages J.
Proof.
  unfold in_zone. destruct (L i) as [J|] eqn:E; [|done]. case_bool_decide as H; [|done]. intros [= <-]. exists J. destruct H as [H1 H2]. cbn [fst snd].
  destruct (lo_frames HL i J E) as (_ & Hm & _). change PGSZ with 4096 in *.
  assert ((f - i_start J) mod 4096 = 0) as Hd by (rewrite Zminus_mod, H2, Hm; done). pose proof (Z_div_mod_eq_full (f - i_start J) 4096). unfold frame in *. change PGSZ with 4096 in *. split_and!; [done|lia..].
Qed.
Lemma frame_place_spec f i idx : place f = Some (i, idx) <-> exists J, L i = Some J /\ f = frame J idx /\ 0 <= idx < i_npages J.
Proof.
  assert (forall j x, in_zone f j = Some x -> exists J, L (x.1) = Some J /\ f = frame J x.2 /\ 0 <= x.2 < i_npages J) as Hto.
  { intros j x Hx. destruct (in_zone_spec f j x Hx) as (J & E & _ & -> & H). by exists J. }
  split.
  - unfold place. intros H. destruct (in_zone f 0) eqn:E0; [injection H as ->; by apply (Hto 0 (i, idx))|]. destruct (in_zone f 1) eqn:E1; [injection H as ->; by apply (Hto 1 (i, idx))|].
    destruct (in_zone f 2) eqn:E2; [injection H as ->; by apply (Hto 2 (i, idx))|]. by apply (Hto 3 (i, idx)).
  - intros (J & E & -> & Hi). pose proof (lo_zone HL i J E) as Hz. destruct (lo_frames HL i J E) as (_ & Hm & _).
    assert (i_start J <= frame J idx < frame J (i_npages J)) as Hin by (unfold frame; change PGSZ with 4096; lia).
    assert (in_zone (frame J idx) i = Some (i, idx)) as Hgot.
    { unfold in_zone. rewrite E, bool_decide_eq_true_2; [|split; [done|]; unfold frame; rewrite Zplus_mod, Hm, Z.mod_mul by done; done].
      do 2 f_equal. unfold frame. replace (i_start J + idx * PGSZ - i_start J) with (idx * PGSZ) by lia. by apply Z.div_mul. }
    assert (forall j, j <> i -> in_zone (frame J idx) j = None) as Hno.
    { intros j Hj. destruct (in_zone (frame J idx) j) eqn:Ej; [|done]. destruct (in_zone_spec _ _ _ Ej) as (J' & E' & Hin' & _). destruct Hj. by eapply (lo_apart HL). }
    unfold place. assert (i = 0 \/ i = 1 \/ i = 2 \/ i = 3) as [->|[->|[->| ->]]] by lia; by rewrite ?(Hno 0), ?(Hno 1), ?(Hno 2), Hgot by done.
Qed.

(** Counts of frames in use. *)
Definition counts_ok A : Prop := forall i idx c, (A i).1 !! idx = Some c -> 0 < c.
Definition pstate : Type := { A : counts | counts_ok A }.
Definition prefs (a : pstate) f : Z := match place f with Some (i, idx) => default 0 ((`a i).1 !! idx) | None => 0 end.

Definition norm_alloc A : (Z * option (Z * Z)) * counts := a_alloc L A (gfp_to_zone_index GFP_NORMAL) (BS 0).
Lemma counts_ok_upd A i C u : counts_ok A -> (forall idx c, C !! idx = Some c -> 0 < c) -> counts_ok (aupd A i (C, u)).
Proof. intros HA HC j idx c. unfold aupd. destruct (decide (j = i)); [apply HC|apply HA]. Qed.
Lemma norm_alloc_cases A : counts_ok A ->
  ((norm_alloc A).1.2 = None /\ (norm_alloc A).2 = A) \/
  exists J idx, L ZONEi_NORM = Some J /\ 0 <= idx < i_npages J /\ (A ZONEi_NORM).1 !! idx = None /\ option_map snd (norm_alloc A).1.2 = Some (frame J idx) /\
    (norm_alloc A).2 = aupd A ZONEi_NORM (cnt_new (A ZONEi_NORM).1 idx 1, u64 ((A ZONEi_NORM).2 + 1)).
Proof.
  intros HA. unfold norm_alloc. change (gfp_to_zone_index GFP_NORMAL) with ZONEi_NORM. change (BS 0) with 1. unfold a_alloc. destruct (L ZONEi_NORM) as [J|]; [|by left].
  destruct (_ <? _); [by left|]. destruct (find_run _ _ _) as [idx|] eqn:E; [|by left]. right. exists J, idx.
  destruct (find_run_Some _ _ _ _ Z.lt_0_1 E) as (F1 & F2 & F3 & _). split_and!; try done; try lia. apply F3. lia.
Qed.
Lemma norm_alloc_ok A : counts_ok A -> counts_ok (norm_alloc A).2.
Proof.
  intros HA. destruct (norm_alloc_cases A HA) as [(_ & ->)|(J & idx & _ & _ & _ & _ & ->)]; [done|]. apply counts_ok_upd; [done|].
  intros k c. rewrite cnt_new_lookup. case_decide; [by intros [= <-]|apply HA].
Qed.
Lemma put_ok A i idx : counts_ok A -> counts_ok (p_step L A (PPutAddr i idx)).2.
Proof.
  intros HA. cbn [p_step snd]. apply counts_ok_upd; [done|]. intros k c. unfold cnt_dec. destruct ((A i).1 !! idx) as [d|] eqn:E; [|apply HA].
  pose proof (HA i idx d E). destruct (Z.eqb_spec d 1); [intros [_ ?]%lookup_delete_Some; by eapply HA|].
  destruct (decide (k = idx)) as [->|]; [rewrite lookup_insert_eq; intros [= <-]; lia|rewrite lookup_insert_ne by done; apply HA].
Qed.
Lemma get_ok A i idx : counts_ok A -> counts_ok (p_step L A (PGetAddr i idx)).2.
Proof.
  intros HA. cbn [p_step snd]. apply counts_ok_upd; [done|]. intros k c. destruct (decide (k = idx)) as [->|]; [|rewrite lookup_insert_ne by done; apply HA].
  rewrite lookup_insert_eq. intros [= <-]. destruct ((A i).1 !! idx) as [d|] eqn:E; cbn; [pose proof (HA i idx d E); lia|lia].
Qed.
Definition pfalloc (a : pstate) : option (Z * pstate) :=
  match (norm_alloc (`a)).1.2 with
  | Some (_, f) => Some (f, exist _ (norm_alloc (`a)).2 (norm_alloc_ok _ (proj2_sig a)))
  | None => None
  end.
Definition pfput (a : pstate) f : pstate := match place f with Some (i, idx) => exist _ _ (put_ok _ i idx (proj2_sig a)) | None => a end.
Definition pfget (a : pstate) f : pstate := match place f with Some (i, idx) => exist _ _ (get_ok _ i idx (proj2_sig a)) | None => a end.

Lemma refs_upd A i J idx C u g : L i = Some J -> 0 <= idx < i_npages J -> (forall k, k <> idx -> C !! k = (A i).1 !! k) ->
  match place g with Some (j, k) => default 0 ((aupd A i (C, u) j).1 !! k) | None => 0 end =
  if decide (g = frame J idx) then default 0 (C !! idx) else match place g with Some (j, k) => default 0 ((A j).1 !! k) | None => 0 end.
Proof.
  intros E Hi HC. case_decide as Hg.
  - subst g. assert (place (frame J idx) = Some (i, idx)) as -> by (apply frame_place_spec; by exists J). unfold aupd. by rewrite decide_True.
  - destruct (place g) as [[j k]|] eqn:Ep; [|done]. apply frame_place_spec in Ep as (J' & E' & -> & Hk). unfold aupd. destruct (decide (j = i)) as [->|]; [|done].
    assert (J' = J) as -> by congruence. cbn. rewrite HC; [done|]. by intros ->.
Qed.
Lemma place_refs a f : 0 < prefs a f -> exists i J idx, L i = Some J /\ f = frame J idx /\ 0 <= idx < i_npages J /\ place f = Some (i, idx).
Proof. unfold prefs. destruct (place f) as [[i idx]|] eqn:E; [|lia]. intros _. pose proof E as (J & E1 & E2 & E3)%frame_place_spec. by exists i, J, idx. Qed.

#[export] Program Instance pmm_frames : FrameAlloc := {|
  fstate := pstate; refs := prefs; fmanaged f := bool_decide (is_Some (place f)); falloc := pfalloc; fput := pfput; fget := pfget
|}.
Next Obligation. intros a g. unfold prefs. destruct (place g) as [[i idx]|]; [|done]. destruct ((`a i).1 !! idx) as [c|] eqn:E; cbn; [|done]. pose proof (proj2_sig a i idx c E). lia. Qed.
Next Obligation.
  intros a f a'. unfold pfalloc. destruct (norm_alloc_cases _ (proj2_sig a)) as [(E & _)|(J & idx & HJ & Hi & Hn & E & _)]; [by rewrite E|].
  destruct ((norm_alloc (`a)).1.2) as [[pgp f']|]; [|done]. cbn in E. injection E as ->. intros [= <- _].
  assert (place (frame J idx) = Some (ZONEi_NORM, idx)) as Ep by (apply frame_place_spec; by exists J). destruct (lo_frames HL _ _ HJ) as (F1 & F2 & F3 & F4).
  split_and!; [unfold prefs; by rewrite Ep, Hn| |rewrite Ep; by apply bool_decide_eq_true_2].
  unfold frame_ok, frame in *. change PGSZ with 4096 in *. split; [lia|]. rewrite Zplus_mod, F2, Z.mod_mul by done. done.
Qed.
Next Obligation.
  intros a f a' g. unfold pfalloc. destruct (norm_alloc_cases _ (proj2_sig a)) as [(E & _)|(J & idx & HJ & Hi & Hn & E & E')]; [by rewrite E|].
  destruct ((norm_alloc (`a)).1.2) as [[pgp f']|]; [|done]. cbn in E. injection E as ->. intros [= <- <-]. unfold prefs. cbn [proj1_sig]. rewrite E'.
  rewrite (refs_upd _ _ J idx) by (try done; intros k Hk; rewrite cnt_new_lookup, decide_False by lia; done).
  rewrite cnt_new_lookup, (decide_True (P := idx <= idx < idx + 1)) by lia. done.
Qed.
Next Obligation.
  intros a f g Hf. pose proof Hf as Hf'. destruct (place_refs a f Hf) as (i & J & idx & HJ & -> & Hi & Ep). unfold prefs in *. rewrite Ep in *. unfold pfput. rewrite Ep. cbn [proj1_sig p_step snd].
  rewrite (refs_upd _ _ J idx) by (try done; intros k Hk; by apply cnt_dec_ne). case_decide; [|done].
  unfold cnt_dec. destruct ((`a i).1 !! idx) as [c|]; cbn in *; [|lia]. destruct (Z.eqb_spec c 1); [rewrite lookup_delete_eq; cbn; lia|rewrite lookup_insert_eq; done].
Qed.
Next Obligation.
  intros a f g Hf. destruct (place_refs a f Hf) as (i & J & idx & HJ & -> & Hi & Ep). unfold prefs in *. rewrite Ep in *. unfold pfget. rewrite Ep. cbn [proj1_sig p_step snd].
  rewrite (refs_upd _ _ J idx) by (try done; intros k Hk; by apply lookup_insert_ne). case_decide; [|done]. by rewrite lookup_insert_eq.
Qed.
End PmmFrames.
