(* ===== verification/PagingProps.v ===== *)
(** * Theorems on page tables

    What mapping does to the translation of addresses; ranges are mapped entirely or
    not at all; tearing an address space down frees every frame once; and where the
    code loses frames or leaves a page inaccessible. *)
From S2P Require Import Prelude Errno BitmapSpec Pmm PmmFacts PmmAlloc PmmProps Paging PagingFacts PagingMap PagingRange PagingNew PagingPmm.

Implicit Types (f i v va : Z) (p q r : list Z).

Lemma PGROUND_aligned pa : PGROUND pa mod PGSZ = 0.
Proof.
  unfold PGROUND. change PGSZ with (2 ^ 12). rewrite <- Z.land_ones by lia. apply Z.bits_inj'. intros k Hk. rewrite !Z.land_spec, Z.bits_0. destruct (Z.ltb_spec k 12).
  - rewrite not64_testbit by lia. change (2 ^ 12 - 1) with (Z.ones 12). rewrite !Z.ones_spec_low by lia. cbn [negb]. by rewrite andb_false_r.
  - rewrite Z.ones_spec_high by lia. apply andb_false_r.
Qed.

Section Props.
Context {FA : FrameAlloc} {VM : Vmman}.
Implicit Types (s : vmsys).

(** The entry that the processor reaches for [va] does not go through the recursive
    entry of the root. *)
Definition plain va : Prop := PML4I va <> 511.
Lemma mmu_same s s' va : ent s' (va_path va) = ent s (va_path va) -> mmu s' va = mmu s va.
Proof. unfold mmu. by intros ->. Qed.
Lemma mmu_absent s va : _isP (ent s (va_path va)) = false -> mmu s va = None.
Proof. unfold mmu. by intros ->. Qed.


(** C23: [x86_64_map_n] over a range without mappings returns with the range mapped
    entirely or not at all: on success every page of the range translates to a frame of
    its own that was free before, and on ENOMEM none translates; the translation
    outside the range and the references of frames in use do not change. *)
Theorem map_n_all_or_nothing s va sz flags : let n := Z.to_nat (NPAGE sz) in
  pwf s -> 0 <= NPAGE sz -> _isPS flags = false -> _isP flags = true -> range_free s n va ->
  exists err s', x86_64_map_n va sz flags s = Done err s' /\ pwf s' /\
    (forall v, plain v -> va_path v ∉ va_path <$> vas n va -> mmu s' v = mmu s v) /\
    (forall g, 0 < refs (v_fs s) g -> refs (v_fs s') g = refs (v_fs s) g) /\
    ((err = 0 /\ (forall v, v ∈ vas n va -> exists f, mmu s' v = Some (f + PGOFF v) /\ frame_ok f /\ refs (v_fs s) f = 0 /\ refs (v_fs s') f = 1) /\
        (forall v w, v ∈ vas n va -> w ∈ vas n va -> pte_phys (ent s' (va_path v)) = pte_phys (ent s' (va_path w)) -> va_path v = va_path w)) \/
     (err = - ENOMEM /\ forall v, v ∈ vas n va -> mmu s' v = None)).
Proof.
  intros n Hs Hn HPS HP Hfree. pose proof (x86_64_map_n_spec va sz flags s Hs Hn HPS HP Hfree) as H. fold n in H.
  apply wp_done in H as (err & s' & E & W & _ & K & He & H). exists err, s'. destruct Hfree as (Hv & _ & _). rewrite Forall_forall in Hv.
  split_and!; [done|done| |done|].
  - intros v Hpl Hno. apply mmu_same. by apply He; [apply va_path_ok| |].
  - destruct H as [(-> & Hf)|(-> & Hf)]; [left|right; split; [done|]; intros v Hin; by apply mmu_absent, Hf]. split_and!; [done| |].
    + intros v Hin. destruct (Hf v Hin) as (f & F1 & F2 & F3 & F4). exists f. destruct (leaf_frame f (Z.lor flags PTE_ALLOC) F2) as (L1 & L2 & _).
      split_and!; [|done|done|done]. unfold mmu. rewrite F1, L1, L2. rewrite isP_bit, Z.lor_spec, <- isP_bit, HP. done.
    + assert (forall v, v ∈ vas n va -> owns s' (va_path v)) as Ho.
      { intros v Hin. destruct (Hf v Hin) as (f & F1 & F2 & _). destruct (leaf_frame f (Z.lor flags PTE_ALLOC) F2) as (_ & L2 & L3 & _). split_and!; [by apply va_path_ok, Hv|..].
        - by rewrite F1, L2, isP_bit, Z.lor_spec, <- isP_bit, HP.
        - right. rewrite F1, L3, isalloc_bit, Z.lor_spec. apply orb_true_r. }
      intros v w Hin Hin' E'. apply (pw_inj _ W); auto.
Qed.

(** C13: [x86_64_unmap_full] tears the user half of an address space down without a fault
    or a panic: no user address translates any more, every table and every allocated
    page of the user half has lost exactly one reference, and nothing else has
    changed, neither another reference count nor the translation of the kernel half. *)
Theorem unmap_full_frees_user_half s : pwf s ->
  exists s', x86_64_unmap_full s = Done tt s' /\ pwf s' /\
    (forall va, PML4I va < 256 -> mmu s' va = None) /\
    (forall va, plain va -> 256 <= PML4I va -> mmu s' va = mmu s va) /\
    (forall r, owns s r -> user_path r -> refs (v_fs s') (pte_phys (ent s r)) = refs (v_fs s) (pte_phys (ent s r)) - 1) /\
    (forall g, (forall r, owns s r -> user_path r -> pte_phys (ent s r) <> g) -> refs (v_fs s') g = refs (v_fs s) g).
Proof.
  intros Hs. pose proof (x86_64_unmap_full_spec s Hs) as H. apply wp_done in H as ([] & s' & E & [W M Ke Go Rf Ot _]). exists s'. split_and!; try done.
  - intros va Hva. apply mmu_absent. apply Go; [apply va_path_ok; lia|]. by exists (PML4I va), [PDPTI va; PDI va; PTI va].
  - intros va Hv Hva. apply mmu_same. apply Ke; [by apply va_path_ok|]. intros (i & r & [= <- _] & Hi). lia.
Qed.

(** C24: [x86_64_pml4alloc], given room for a temporary mapping, returns a root table of a
    new, well-formed address space in which no user address translates and every kernel
    address translates as in the current one; or it reports ENOMEM with every reference
    count as before.  The current address space translates every page as before. *)
Theorem new_space_shares_kernel s va vs : pwf s -> room s va vs ->
  exists o s', x86_64_pml4alloc s = Done o s' /\ pwf s' /\ (forall v, plain v -> mmu s' v = mmu s v) /\
    ((exists f, o = (0, f) /\ refs (v_fs s) f = 0 /\ refs (v_fs s') f = 1 /\ pwf (set_cr3 f s') /\
        (forall v, PML4I v < 256 -> mmu (set_cr3 f s') v = None) /\ (forall v, plain v -> 256 <= PML4I v -> mmu (set_cr3 f s') v = mmu s v)) \/
     (o = (- ENOMEM, 0) /\ forall g, refs (v_fs s') g = refs (v_fs s) g)).
Proof.
  intros Hs Hroom. unfold x86_64_pml4alloc, M_bind, get_page. destruct (falloc (v_fs s)) as [[f a]|] eqn:Ea; [|exists (- ENOMEM, 0), s; split_and!; try done; by right].
  destruct (falloc_fresh _ _ _ Ea) as (F0 & Ff & Fm). pose proof (fun g => falloc_refs _ _ _ g Ea) as Fr. destruct (pwf_taken s f a Hs Ea) as [W1 E1]. set (s1 := clear_frame f (set_fs a s)) in *.
  assert (refs (v_fs s1) f = 1) as R1 by (change (v_fs s1) with a; by rewrite Fr, decide_True).
  assert (unowned s1 f) as U1. { intros r (A & B & C) E. rewrite E1 in * by done. destruct (pw_refs _ Hs r) as [D _]; [by split_and!|]. rewrite E in D. lia. }
  assert (forall j, idx_ok j -> v_mem s1 (f + 8 * j) = 0) as Z1 by (intros j Hj; unfold s1; cbn [clear_frame v_mem]; unfold idx_ok in Hj; destruct (Z.leb_spec f (f + 8 * j)), (Z.ltb_spec (f + 8 * j) (f + PGSZ)); change PGSZ with 4096 in *; try lia; done).
  assert (room s1 va vs) as Hroom1. { destruct Hroom as (A & B & C & D). split_and!; [done|done|done|]. rewrite E1; [done|]. apply va_path_ok. destruct C. lia. }
  pose proof (x86_64_kvmcpy_spec s1 f va vs W1 Ff ltac:(lia) U1 Z1 Hroom1) as H. apply wp_done in H as (err & s2 & E2 & _ & H). cbn [fst snd Z.eqb negb]. rewrite E2.
  destruct H as [(-> & [W2 Le Ke Un Nr])|(-> & W2 & Un & Le & Sr)]; cbn [Z.eqb negb Z.opp ENOMEM].
  - exists (0, f), s2. assert (forall v, plain v -> mmu s2 v = mmu s v) as Hm2.
    { intros v Hv. pose proof (va_path_ok v Hv) as Hp. destruct (Le (va_path v) Hp eq_refl) as [L1 L2]. rewrite E1 in L1, L2 by done. unfold mmu. rewrite L1.
      destruct (_isP (ent s (va_path v))); [by rewrite L2|done]. }
    split_and!; [done|done|done|]. left. exists f. assert (refs (v_fs s2) f = 1) as R2 by (rewrite Ke; [done|lia]). split_and!; [done|done|done| | |].
    + apply new_space_pwf; try done. lia.
    + intros v Hv. apply mmu_absent. rewrite new_space_ent by (done || (apply va_path_ok; lia)). by rewrite decide_True.
    + intros v Hv Hk. rewrite <- Hm2 by done. apply mmu_same. rewrite new_space_ent by (done || by apply va_path_ok). rewrite decide_False; [done|]. cbn. lia.
  - pose proof (pm_free_spec s2 f W2 ltac:(rewrite Sr; lia) Un) as H. apply wp_done in H as ([] & s3 & E3 & W3 & En & _ & _ & Rf). change (- ENOMEM =? 0) with false. cbn [negb]. cbv beta. rewrite E3.
    exists (- ENOMEM, 0), s3. split_and!; [done|done| |].
    + intros v Hv. pose proof (va_path_ok v Hv) as Hp. apply mmu_same. by rewrite En, Le, E1.
    + right. split; [done|]. intros g. rewrite Rf, Sr. change (v_fs s1) with a. rewrite Fr. destruct (decide (g = f)) as [->|]; [rewrite decide_True by done; lia|by rewrite decide_False by naive_solver].
Qed.

(** Translation for code in user mode: the user bit has to be set at every level. *)
Definition mmu_user s va : option Z :=
  if _isU (ent s [PML4I va]) && _isU (ent s [PML4I va; PDPTI va]) && _isU (ent s [PML4I va; PDPTI va; PDI va]) && _isU (ent s (va_path va)) then mmu s va else None.

(** Mapping does not add the user bit to tables that are already there: a user page
    mapped below a table that was first needed for a kernel page is reported as mapped
    and cannot be accessed in user mode. *)
Theorem user_page_in_kernel_table s pa va flags :
  pwf s -> plain va -> _isPS flags = false -> can_map s (va_path va) (leaf pa flags) ->
  _isP (ent s [PML4I va; PDPTI va; PDI va]) = true -> _isU (ent s [PML4I va; PDPTI va; PDI va]) = false ->
  exists err s', x86_64_map pa (PML4I va) (PDPTI va) (PDI va) (PTI va) flags s = Done err s' /\ (err = 0 -> mmu_user s' va = None).
Proof.
  intros Hs Hv HPS Hc HP HU.
  pose proof (x86_64_map_spec s pa (PML4I va) (PDPTI va) (PDI va) (PTI va) flags Hs (idx_mod va 39 ltac:(lia)) Hv (idx_mod va 30 ltac:(lia)) (idx_mod va 21 ltac:(lia)) (idx_mod va 12 ltac:(lia)) HPS Hc) as H.
  apply wp_done in H as (err & s' & E & _ & _ & H). exists err, s'. split; [done|]. intros ->. destruct H as [(_ & _ & _ & Hk)|(H & _)]; [|done].
  unfold mmu_user. rewrite (tg_keep _ _ Hk [PML4I va; PDPTI va; PDI va]); [|apply okp3; [by apply idx_mod|done|by apply idx_mod..]|cbn; lia|done].
  rewrite HU, andb_false_r. done.
Qed.

(** When the frame for a page can be had but not the table it needs,
    [x86_64_map_n] reports ENOMEM and forgets the frame: it stays allocated and no entry
    of the tables refers to it. *)
Theorem map_n_leaks_frame s va flags f (a : fstate) :
  pwf s -> plain va -> _isPS flags = false -> _isP (ent s [PML4I va]) = false -> falloc (v_fs s) = Some (f, a) -> falloc a = None ->
  exists s', x86_64_map_n va PGSZ flags s = Done (- ENOMEM) s' /\ refs (v_fs s) f = 0 /\ refs (v_fs s') f = 1 /\
    forall r, owns s' r -> pte_phys (ent s' r) <> f.
Proof.
  intros Hs Hv HPS HP Ha Hn. pose proof (get_page_spec s (_iszero flags) Hs) as G. apply wp_done in G as (o & s1 & Eg & [(-> & _)|(f' & -> & W & M & E & Ff & _ & F0 & R)]);
    [unfold get_page in Eg; by rewrite Ha in Eg|]. assert (f' = f /\ v_fs s1 = a) as [-> Efs].
  { unfold get_page in Eg. rewrite Ha in Eg. destruct (_iszero flags); by injection Eg as <- <-. }
  assert (idx_ok (PML4I va)) as H4 by (by apply idx_mod). destruct (cr3_entry s1 (pw_root _ W)) as [P0 _].
  exists s1. assert (x86_64_map f (PML4I va) (PDPTI va) (PDI va) (PTI va) (Z.lor flags PTE_ALLOC) s1 = Done (- ENOMEM) s1) as Emap.
  { unfold x86_64_map, extract_vmflags. rewrite !idx_inv by (by apply idx_mod). cbn [orb]. rewrite isPS_PGOFF.
    replace (_isPS (Z.lor flags PTE_ALLOC)) with false by (unfold _isPS, PTE_PS in *; rewrite flag_testbit in * by lia; by rewrite Z.lor_spec, HPS).
    unfold with_tables, need_table, M_bind. rewrite (pte_load_eq s1 _ [] (PML4I va)) by (done || by apply names_PML4E). cbn [app]. rewrite E by (by apply okp1). rewrite HP.
    unfold get_page. by rewrite Efs, Hn. }
  split_and!; [|done|by rewrite R, decide_True|].
  - unfold x86_64_map_n. change (NPAGE PGSZ) with 1. change (Z.to_nat 1) with 1%nat. unfold M_bind at 1. cbn [map_n_loop]. unfold M_bind at 1. rewrite Eg. cbn [fst snd Z.eqb negb]. unfold M_bind at 1. rewrite Emap. done.
  - intros r Ho Er. assert (owns s r) as Ho' by (destruct Ho as (A & B & C); rewrite E in * by done; by split_and!). rewrite E in Er by apply Ho.
    destruct (pw_refs _ Hs r Ho') as [A _]. rewrite Er in A. lia.
Qed.
End Props.

(** ** A small machine

    The page allocator of PmmProps.v, with eight frames from 16 MiB, of which the first
    is a root table that has its recursive entry only. *)
Lemma sample_layout_ok : layout_ok sample_layout.
Proof.
  assert (forall i J, sample_layout i = Some J -> i = 1 /\ J = sample_info) as H by (intros i J; unfold sample_layout; case_decide; [by intros [= <-]|done]).
  split.
  - intros i J [-> ->]%H. lia.
  - intros i J [-> ->]%H. vm_compute. done.
  - intros i j J J' f [-> _]%H [-> _]%H. done.
Qed.
#[local] Existing Instance pmm_frames.
#[local] Instance sample_frames : FrameAlloc := pmm_frames sample_layout sample_layout_ok.
#[local] Instance sample_vmman : Vmman := {| vstate := Z; vm_alloc v n := (v, v + n); vm_free v _ := v |}.
Definition sample_root : Z := MiB 16.
Definition root_counts : counts := fun i => if decide (i = 1) then ({[0 := 1]}, 1) else (∅, 0).
Lemma root_counts_ok : counts_ok root_counts.
Proof.
  intros i idx c. unfold root_counts. case_decide; cbn; [|by rewrite lookup_empty]. intros [<- <-]%lookup_singleton_Some. lia.
Qed.
Definition sample_vm : vmsys :=
  mkVm sample_root (fun a => if a =? sample_root + 8 * 511 then Z.lor sample_root PTE_KRW else 0) (exist _ root_counts root_counts_ok : fstate) 0 sample_root.
Lemma sample_ent p : okp p -> p <> [] -> ent sample_vm p = 0.
Proof.
  intros Hp Hne. destruct p as [|i p]; [done|]. destruct Hp as (Hp & _ & Hh). unfold ent. cbn [walk]. destruct (_isP _); [|done].
  assert (v_mem sample_vm (pte_phys (Z.lor (v_cr3 sample_vm) PTE_P) + 8 * i) = 0) as ->; [|apply walk_absent]. unfold sample_vm. cbn [v_mem v_cr3].
  change (pte_phys (Z.lor sample_root PTE_P)) with sample_root. destruct (Z.eqb_spec (sample_root + 8 * i) (sample_root + 8 * 511)) as [E|]; [|done].
  exfalso. apply Hh. cbn. f_equal. lia.
Qed.
Lemma sample_vm_pwf : pwf sample_vm.
Proof.
  assert (forall p, owns sample_vm p -> p = []) as Ho.
  { intros p (Hp & HP & _). destruct p as [|i p]; [done|]. by rewrite sample_ent in HP. }
  split.
  - vm_compute. done.
  - vm_compute. done.
  - intros p ->%Ho. vm_compute. done.
  - intros p q ->%Ho ->%Ho. done.
  - intros p Hp. destruct p as [|i p]; [vm_compute; done|]. rewrite sample_ent by done. lia.
Qed.

(** The value that was returned. *)
Definition returned {S A} (o : outcome S A) : option A := match o with Done a _ => Some a | _ => None end.


(** The state after a call. *)
Definition final {A} (o : outcome vmsys A) : vmsys := match o with Done _ s => s | _ => sample_vm end.
Lemma wp_final {A} (c : VMM A) Q : wp c Q sample_vm -> exists a, Q a (final (c sample_vm)).
Proof. unfold wp, final. destruct (c sample_vm) as [a s| | |]; try done. by exists a. Qed.
(** Two pages at 4 MiB. *)
Lemma sample_range_free : range_free sample_vm (Z.to_nat (NPAGE 8192)) 0x400000.
Proof.
  unfold range_free. change (vas (Z.to_nat (NPAGE 8192)) 0x400000) with [0x400000; 0x401000]. split_and!.
  - repeat (apply Forall_cons_2; [vm_compute; discriminate|]). apply Forall_nil_2.
  - apply (bool_decide_eq_true_1 (NoDup (va_path <$> [0x400000; 0x401000]))). vm_compute. reflexivity.
  - intros v Hv. rewrite sample_ent; [done| |done]. apply va_path_ok. rewrite !elem_of_cons, elem_of_nil in Hv. destruct Hv as [->|[->|[]]]; vm_compute; discriminate.
Qed.
Definition mapped_two : vmsys := final (x86_64_map_n 0x400000 8192 PTE_URW sample_vm).
Lemma map_n_all_or_nothing_witness :
  x86_64_map_n 0x400000 8192 PTE_URW sample_vm = Done 0 mapped_two /\ pwf mapped_two /\ exists f, mmu mapped_two 0x401000 = Some f /\ frame_ok f.
Proof.
  destruct (map_n_all_or_nothing sample_vm 0x400000 8192 PTE_URW sample_vm_pwf ltac:(vm_compute; discriminate) eq_refl eq_refl sample_range_free) as (err & s' & E & W & _ & _ & H).
  assert (returned (x86_64_map_n 0x400000 8192 PTE_URW sample_vm) = Some 0) as Ec by (vm_compute; reflexivity). rewrite E in Ec. injection Ec as ->.
  assert (mapped_two = s') as -> by (unfold mapped_two; by rewrite E). split; [exact E|]. split; [exact W|].
  destruct H as [(_ & H & _)|(H & _)]; [|discriminate H]. destruct (H 0x401000) as (f & Hm & Hf & _); [right; left|]. exists f. split; [|exact Hf]. rewrite Hm. f_equal. change (PGOFF 0x401000) with 0. lia.
Defined.

Lemma mapped_two_pwf : pwf mapped_two.
Proof.
  pose proof (x86_64_map_n_spec 0x400000 8192 PTE_URW sample_vm sample_vm_pwf ltac:(vm_compute; discriminate) eq_refl eq_refl sample_range_free) as H.
  destruct (wp_final _ _ H) as (err & W & _). exact W.
Qed.
Lemma unmap_full_frees_user_half_witness :
  mmu mapped_two 0x400123 <> None /\ exists s', x86_64_unmap_full mapped_two = Done tt s' /\ mmu s' 0x400123 = None.
Proof.
  split; [vm_compute; discriminate|]. destruct (unmap_full_frees_user_half mapped_two mapped_two_pwf) as (s' & E & _ & H & _).
  exists s'. split; [exact E|]. apply H. vm_compute. reflexivity.
Defined.

(** A kernel page at 4 MiB, then a user page next to it. *)
Definition kernel_page : vmsys := final (x86_64_map 0xfee00000 0 0 2 0 PTE_KRW sample_vm).
Lemma kernel_page_pwf : pwf kernel_page.
Proof.
  pose proof (x86_64_map_spec sample_vm 0xfee00000 0 0 2 0 PTE_KRW sample_vm_pwf) as H. unfold idx_ok in H.
  assert (can_map sample_vm [0; 0; 2; 0] (leaf 0xfee00000 PTE_KRW)) as Hc by (split; [vm_compute; split; [discriminate|reflexivity]|]; intros _ Ha; vm_compute in Ha; discriminate).
  specialize (H ltac:(lia) ltac:(lia) ltac:(lia) ltac:(lia) ltac:(lia) eq_refl Hc). destruct (wp_final _ _ H) as (err & W & _). exact W.
Qed.
Lemma user_page_in_kernel_table_witness :
  exists s', x86_64_map 0xfee01000 0 0 2 1 PTE_URW kernel_page = Done 0 s' /\ mmu_user s' 0x401000 = None.
Proof.
  destruct (user_page_in_kernel_table kernel_page 0xfee01000 0x401000 PTE_URW kernel_page_pwf ltac:(vm_compute; discriminate) eq_refl) as (err & s' & E & H).
  - split; [vm_compute; split; [discriminate|reflexivity]|]. intros _ Ha. vm_compute in Ha. discriminate.
  - vm_compute. reflexivity.
  - vm_compute. reflexivity.
  - assert (returned (x86_64_map 0xfee01000 0 0 2 1 PTE_URW kernel_page) = Some 0) as Ec by (vm_compute; reflexivity).
    change (x86_64_map 0xfee01000 0 0 2 1 PTE_URW kernel_page = Done err s') in E. rewrite E in Ec. injection Ec as ->. exists s'. split; [exact E|]. by apply H.
Defined.

(** The same machine with one free frame. *)
Definition full_counts : counts := fun i => if decide (i = 1) then (gset_to_gmap 1 (rng 0 7), 7) else (∅, 0).
Lemma full_counts_ok : counts_ok full_counts.
Proof. intros i idx c. unfold full_counts. case_decide; cbn; [|by rewrite lookup_empty]. intros [_ <-]%lookup_gset_to_gmap_Some. lia. Qed.
Definition sample_full : vmsys := set_fs (exist _ full_counts full_counts_ok : fstate) sample_vm.
Lemma sample_full_pwf : pwf sample_full.
Proof.
  apply pwf_refs; [exact sample_vm_pwf|]. intros p (Hp & HP & _). destruct p as [|i p]; [vm_compute; reflexivity|]. by rewrite sample_ent in HP.
Qed.
Lemma map_n_leaks_frame_witness :
  exists f s', x86_64_map_n 0x400000 PGSZ PTE_URW sample_full = Done (- ENOMEM) s' /\ refs (v_fs s') f = 1 /\ forall r, owns s' r -> pte_phys (ent s' r) <> f.
Proof.
  destruct (falloc (v_fs sample_full)) as [[f a]|] eqn:Ea; [|exfalso; assert (match falloc (v_fs sample_full) with Some (f, _) => Some f | None => None end = Some (MiB 16 + 7 * PGSZ)) as Ec by (vm_compute; reflexivity); by rewrite Ea in Ec].
  destruct (map_n_leaks_frame sample_full 0x400000 PTE_URW f a sample_full_pwf ltac:(vm_compute; discriminate) eq_refl) as (s' & E & _ & R & H).
  - vm_compute. reflexivity.
  - exact Ea.
  - destruct (falloc a) as [[f' a']|] eqn:Eb; [|done]. exfalso.
    assert (match falloc (v_fs sample_full) with Some (_, a) => match falloc a with Some _ => true | None => false end | None => true end = false) as Ec by (vm_compute; reflexivity).
    by rewrite Ea, Eb in Ec.
  - exists f, s'. split; [exact E|]. split; [exact R|exact H].
Defined.

(** Kernel virtual memory from the 5th GiB on. *)
Definition sample_kvm : vmsys := set_vs (V2HI (GiB 4) : vstate) sample_vm.
Lemma sample_room : room sample_kvm (V2HI (GiB 4)) (V2HI (GiB 4) + PGSZ).
Proof.
  split_and!; [reflexivity|vm_compute; discriminate|split; [vm_compute; reflexivity|split; [vm_compute; discriminate|vm_compute; reflexivity]]|].
  change (ent sample_kvm (va_path (V2HI (GiB 4)))) with (ent sample_vm (va_path (V2HI (GiB 4)))). rewrite sample_ent; [done|apply va_path_ok; vm_compute; discriminate|discriminate].
Qed.
Lemma new_space_shares_kernel_witness : exists f s', x86_64_pml4alloc sample_kvm = Done (0, f) s' /\ pwf (set_cr3 f s') /\ mmu (set_cr3 f s') 0x400000 = None.
Proof.
  destruct (new_space_shares_kernel sample_kvm _ _ (pwf_set_vs _ _ sample_vm_pwf) sample_room) as (o & s' & E & _ & _ & H).
  assert (returned (x86_64_pml4alloc sample_kvm) = Some (0, MiB 16 + PGSZ)) as Ec by (vm_compute; reflexivity). rewrite E in Ec. injection Ec as ->.
  destruct H as [(f & Hf & _ & _ & W & Hu & _)|(H & _)]; [|discriminate H]. exists f, s'. rewrite <- Hf. split; [exact E|]. split; [exact W|]. apply Hu. vm_compute. reflexivity.
Defined.
