(* ===== verification/Signal.v ===== *)
(** * Signals: sets, queues, sending and taking (sys/signal, sys/sigset.h, arch/x86_64/threads/signal.c)

    A process has one signal descriptor ([signal_t]) that its threads share; every
    thread has a mask, a pending set and a queue per signal of its own.  The queues
    are the queues of ds/queue, here as the lists of siginfo addresses they hold,
    with the operations of the abstract queue of QueueSpec.v; whether an allocation
    succeeds is the answer of the allocator ([KAlloc]).  A spinlock of a thread, of
    the descriptor and of the thread group is a [spinlock_t]; the lock of a single
    signal queue is taken and given back around every access by the same function and
    is left out.  A signal handler is code of a program: a parameter of the dispatch. *)
From S2P Require Import Prelude Errno Spinlock KMem Queue QueueSpec Wait.

(** ** Signal numbers and sets (sys/sigset.h) *)
Definition NSIG : Z := 32.
Definition SIGABRT : Z := 1.
Definition SIGALRM : Z := 2.
Definition SIGBUS : Z := 3.
Definition SIGCANCEL : Z := 4.
Definition SIGCHLD : Z := 5.
Definition SIGCONT : Z := 6.
Definition SIGEMT : Z := 7.
Definition SIGFPE : Z := 8.
Definition SIGHUP : Z := 9.
Definition SIGILL : Z := 10.
Definition SIGINT : Z := 11.
Definition SIGIO : Z := 12.
Definition SIGIOT : Z := 13.
Definition SIGKILL : Z := 14.
Definition SIGPIPE : Z := 15.
Definition SIGPROF : Z := 16.
Definition SIGQUIT : Z := 17.
Definition SIGSEGV : Z := 18.
Definition SIGSTOP : Z := 19.
Definition SIGSYS : Z := 20.
Definition SIGTERM : Z := 21.
Definition SIGTRAP : Z := 22.
Definition SIGTSTP : Z := 23.
Definition SIGTTIN : Z := 24.
Definition SIGTTOU : Z := 25.
Definition SIGURG : Z := 26.
Definition SIGUSR1 : Z := 27.
Definition SIGUSR2 : Z := 28.
Definition SIGVTALRM : Z := 29.
Definition SIGWINCH : Z := 30.
Definition SIGXCPU : Z := 31.
Definition SIGXFSZ : Z := 32.

(** A [sigset_t] is an array of one unsigned int ([__NR_INT] is 32 / NSIG = 1). *)
Definition BITS_PER_UINT : Z := 32.
Definition not32 (w : Z) : Z := Z.lxor w (Z.ones 32).
Definition SIGBAD (signo : Z) : bool := (signo <? 1) || (NSIG <? signo).
Definition SIGMASK (signo : Z) : Z := Z.shiftl 1 (signo - 1).
Definition SIG_BIT (signo : Z) : Z := Z.shiftl 1 ((signo - 1) mod BITS_PER_UINT).

Definition sigsetempty : Z := 0.
Definition sigsetfill : Z := Z.ones 32.
Definition sigsetadd (set signo : Z) : Z * Z :=
  if SIGBAD signo then (- EINVAL, set) else (0, Z.lor set (SIG_BIT signo)).
Definition sigsetdel (set signo : Z) : Z * Z :=
  if SIGBAD signo then (- EINVAL, set) else (0, Z.land set (not32 (SIG_BIT signo))).
Definition sigismember (set signo : Z) : Z :=
  if SIGBAD signo then - EINVAL else if Z.land set (SIG_BIT signo) =? 0 then 0 else 1.
(** [__builtin_ctz] of a non-zero unsigned int. *)
Fixpoint ctz_from (n : nat) (i w : Z) : Z :=
  match n with
  | O => i
  | S n => if Z.testbit w i then i else ctz_from n (i + 1) w
  end.
Definition builtin_ctz (w : Z) : Z := ctz_from 32 0 w.
Definition sigset_first (set : Z) : Z := if set =? 0 then 0 else 0 * BITS_PER_UINT + builtin_ctz set + 1.
Definition sigsetaddmask (set mask : Z) : Z := Z.lor set mask.
Definition sigsetdelmask (set mask : Z) : Z := Z.land set (not32 mask).
Definition sigsetor (set set1 : Z) : Z := Z.lor set set1.
Definition sigsetand (set set1 : Z) : Z := Z.land set set1.
Definition sigsettest (set set1 : Z) : Z := Z.land set set1.

(** ** Default actions (signal.c, sys/_signal.h) *)
Definition SIG_DFL : Z := 0.
Definition SIG_IGN : Z := 1.
Inductive defact := SIG_IGNORE | SIG_ABRT | SIG_TERM | SIG_TERM_CORE | SIG_STOP | SIG_CONT.
#[export] Instance defact_eq_dec : EqDecision defact.
Proof. solve_decision. Defined.

(** [sig_defaults], by signal number minus one. *)
Definition sig_defaults : list defact :=
  [ SIG_TERM_CORE; SIG_TERM; SIG_TERM_CORE; SIG_IGNORE; SIG_IGNORE; SIG_CONT; SIG_TERM_CORE; SIG_TERM_CORE;
    SIG_TERM; SIG_TERM_CORE; SIG_TERM; SIG_TERM; SIG_TERM_CORE; SIG_TERM; SIG_TERM; SIG_TERM;
    SIG_TERM_CORE; SIG_TERM_CORE; SIG_STOP; SIG_TERM_CORE; SIG_TERM; SIG_TERM_CORE; SIG_STOP; SIG_STOP;
    SIG_STOP; SIG_IGNORE; SIG_TERM; SIG_TERM; SIG_TERM; SIG_IGNORE; SIG_TERM; SIG_TERM ].
Definition sig_default_action (signo : Z) : option defact := sig_defaults !! Z.to_nat (signo - 1).
Definition sig_acts (a : defact) (signo : Z) : bool := bool_decide (sig_default_action signo = Some a).
Definition sig_ignore : Z -> bool := sig_acts SIG_IGNORE.
Definition sig_abort : Z -> bool := sig_acts SIG_ABRT.
Definition sig_terminate : Z -> bool := sig_acts SIG_TERM.
Definition sig_term_dumpcore : Z -> bool := sig_acts SIG_TERM_CORE.
Definition sig_stop : Z -> bool := sig_acts SIG_STOP.
Definition sig_continue : Z -> bool := sig_acts SIG_CONT.
Definition sig_handler_ignored (handler signo : Z) : bool :=
  (handler =? SIG_IGN) || ((handler =? SIG_DFL) && sig_ignore signo).

(** ** Masks (sigmask.c) *)
Definition SIG_BLOCK : Z := 1.
Definition SIG_UNBLOCK : Z := 2.
Definition SIG_SETMASK : Z := 3.

(** The error and the set afterwards. *)
Definition do_sigmask (sigset how set : Z) : Z * Z :=
  if how =? SIG_SETMASK then (0, set)
  else if how =? SIG_BLOCK then (0, Z.lor sigset set)
  else if how =? SIG_UNBLOCK then (0, Z.land sigset (not32 set))
  else (- EINVAL, sigset).
Definition copy_sigmask (dst src : Z) : Z * Z := do_sigmask dst SIG_SETMASK src.
(** What [*oset] receives is the set before the call, also when the call fails. *)
Definition sigmask (sigset how : Z) (set : option Z) : Z * Z :=
  match set with
  | None => (0, sigset)
  | Some set =>
      if negb (sigismember set SIGKILL =? 0) || negb (sigismember set SIGSTOP =? 0) then (- EINVAL, sigset)
      else do_sigmask sigset how set
  end.

(** ** State *)
Record siginfo_t := mkSiginfo {
  si_signo : Z; si_code : Z; si_pid : Z; si_uid : Z; si_addr : Z; si_status : Z; si_value : Z
}.
Definition SIGINFO_ZERO : siginfo_t := mkSiginfo 0 0 0 0 0 0 0.
Record sigaction_t := mkSigact { sa_handler : Z; sa_flags : Z; sa_mask : Z }.
Definition SA_NODEFER : Z := Z.shiftl 1 2.
Definition SA_ONSTACK : Z := Z.shiftl 1 3.
Definition SA_SIGINFO : Z := Z.shiftl 1 6.

Record signal_t := mkSignal {
  sig_mask : Z; sig_pending : Z; sig_queue : list (list Z); sig_action : list sigaction_t; sig_lock : spinlock_t
}.
Record uc_stack_t := mkUcStack { ss_sp : Z; ss_size : Z; ss_flags : Z }.
Definition SS_DISABLE : Z := 1.
Definition SS_ONSTACK : Z := 2.
Definition MINSIGSTKSZ : Z := 4096.
Definition ARCH_NSIG_NESTED : Z := 8.

(** The members of [thread_t] and [arch_thread_t] that signals use; [t_uc_sigmask] is
    the mask of the interrupted context, when there is one ([t_uctx]). *)
Record sigthread := mkSigthread {
  th_lock : spinlock_t; t_sigmask : Z; t_sigpending : Z; t_sigqueue : list (list Z);
  t_nsig_nested : Z; t_uc_sigmask : option Z; t_altstack : uc_stack_t; t_handling : bool
}.

(** The world of one process: the running thread and its pid, the threads of the
    group with the group's lock, the descriptor, the live siginfos, the number of
    allocations so far, and the threads as the scheduler has them. *)
Record sigworld := mkSigworld {
  sw_who : who; sw_cur : tid; sw_pid : Z; sw_group : list tid; sw_glock : spinlock_t;
  sw_thr : gmap tid sigthread; sw_desc : signal_t; sw_info : gmap Z siginfo_t; sw_tick : nat;
  sw_sched : @sys unit
}.

Definition SG (A : Type) := M sigworld A.

Definition set_th (t : tid) (x : sigthread) (w : sigworld) : sigworld :=
  mkSigworld (sw_who w) (sw_cur w) (sw_pid w) (sw_group w) (sw_glock w) (<[t := x]> (sw_thr w)) (sw_desc w) (sw_info w)
    (sw_tick w) (sw_sched w).
Definition set_desc (d : signal_t) (w : sigworld) : sigworld :=
  mkSigworld (sw_who w) (sw_cur w) (sw_pid w) (sw_group w) (sw_glock w) (sw_thr w) d (sw_info w) (sw_tick w) (sw_sched w).
Definition set_info (i : gmap Z siginfo_t) (w : sigworld) : sigworld :=
  mkSigworld (sw_who w) (sw_cur w) (sw_pid w) (sw_group w) (sw_glock w) (sw_thr w) (sw_desc w) i (sw_tick w) (sw_sched w).
Definition next_tick (w : sigworld) : sigworld :=
  mkSigworld (sw_who w) (sw_cur w) (sw_pid w) (sw_group w) (sw_glock w) (sw_thr w) (sw_desc w) (sw_info w) (S (sw_tick w))
    (sw_sched w).
Definition set_glock (lk : spinlock_t) (w : sigworld) : sigworld :=
  mkSigworld (sw_who w) (sw_cur w) (sw_pid w) (sw_group w) lk (sw_thr w) (sw_desc w) (sw_info w) (sw_tick w) (sw_sched w).
Definition set_sched (s : @sys unit) (w : sigworld) : sigworld :=
  mkSigworld (sw_who w) (sw_cur w) (sw_pid w) (sw_group w) (sw_glock w) (sw_thr w) (sw_desc w) (sw_info w) (sw_tick w) s.

Definition th_set_lock (lk : spinlock_t) (x : sigthread) : sigthread :=
  mkSigthread lk (t_sigmask x) (t_sigpending x) (t_sigqueue x) (t_nsig_nested x) (t_uc_sigmask x) (t_altstack x) (t_handling x).
Definition th_set_mask (m : Z) (x : sigthread) : sigthread :=
  mkSigthread (th_lock x) m (t_sigpending x) (t_sigqueue x) (t_nsig_nested x) (t_uc_sigmask x) (t_altstack x) (t_handling x).
Definition th_set_pending (p : Z) (x : sigthread) : sigthread :=
  mkSigthread (th_lock x) (t_sigmask x) p (t_sigqueue x) (t_nsig_nested x) (t_uc_sigmask x) (t_altstack x) (t_handling x).
Definition th_set_queue (q : list (list Z)) (x : sigthread) : sigthread :=
  mkSigthread (th_lock x) (t_sigmask x) (t_sigpending x) q (t_nsig_nested x) (t_uc_sigmask x) (t_altstack x) (t_handling x).
Definition th_set_nested (n : Z) (x : sigthread) : sigthread :=
  mkSigthread (th_lock x) (t_sigmask x) (t_sigpending x) (t_sigqueue x) n (t_uc_sigmask x) (t_altstack x) (t_handling x).
Definition th_set_uc (m : option Z) (x : sigthread) : sigthread :=
  mkSigthread (th_lock x) (t_sigmask x) (t_sigpending x) (t_sigqueue x) (t_nsig_nested x) m (t_altstack x) (t_handling x).
Definition th_set_altstack (s : uc_stack_t) (x : sigthread) : sigthread :=
  mkSigthread (th_lock x) (t_sigmask x) (t_sigpending x) (t_sigqueue x) (t_nsig_nested x) (t_uc_sigmask x) s (t_handling x).
Definition th_set_handling (b : bool) (x : sigthread) : sigthread :=
  mkSigthread (th_lock x) (t_sigmask x) (t_sigpending x) (t_sigqueue x) (t_nsig_nested x) (t_uc_sigmask x) (t_altstack x) b.

Definition d_set_mask (m : Z) (d : signal_t) : signal_t := mkSignal m (sig_pending d) (sig_queue d) (sig_action d) (sig_lock d).
Definition d_set_pending (p : Z) (d : signal_t) : signal_t := mkSignal (sig_mask d) p (sig_queue d) (sig_action d) (sig_lock d).
Definition d_set_queue (q : list (list Z)) (d : signal_t) : signal_t := mkSignal (sig_mask d) (sig_pending d) q (sig_action d) (sig_lock d).
Definition d_set_action (a : list sigaction_t) (d : signal_t) : signal_t := mkSignal (sig_mask d) (sig_pending d) (sig_queue d) a (sig_lock d).
Definition d_set_lock (lk : spinlock_t) (d : signal_t) : signal_t := mkSignal (sig_mask d) (sig_pending d) (sig_queue d) (sig_action d) lk.

(** A member of a thread or of the descriptor. *)
Definition the_th (t : tid) : SG sigthread := fun w => match sw_thr w !! t with Some x => Done x w | None => Fault end.
Definition upd_th (t : tid) (f : sigthread -> sigthread) : SG unit :=
  let! x := the_th t in fun w => Done tt (set_th t (f x) w).
Definition the_desc : SG signal_t := fun w => Done (sw_desc w) w.
Definition upd_desc (f : signal_t -> signal_t) : SG unit := fun w => Done tt (set_desc (f (sw_desc w)) w).
Definition cur : SG tid := fun w => Done (sw_cur w) w.

(** ** Locks *)
Definition on_lock {A} (c : M spinlock_t A) (lk : spinlock_t) (put : spinlock_t -> SG unit) : SG A := fun w =>
  match c lk with
  | Done a lk => M_bind (put lk) (fun _ => M_ret a) w
  | Panic => Panic
  | Fault => Fault
  | Diverge => Diverge
  end.
Definition thread_lock (t : tid) : SG unit := fun w =>
  M_bind (the_th t) (fun x => on_lock (lock_acquire (sw_who w)) (th_lock x) (fun lk => upd_th t (th_set_lock lk))) w.
Definition thread_unlock (t : tid) : SG unit := fun w =>
  M_bind (the_th t) (fun x => on_lock (lock_release (sw_who w)) (th_lock x) (fun lk => upd_th t (th_set_lock lk))) w.
Definition thread_assert_locked (t : tid) : SG unit := fun w =>
  M_bind (the_th t) (fun x => M_assert (holding (sw_who w) (th_lock x))) w.
Definition current_lock : SG unit := let! t := cur in thread_lock t.
Definition current_unlock : SG unit := let! t := cur in thread_unlock t.

Definition signal_lock : SG unit := fun w =>
  on_lock (lock_acquire (sw_who w)) (sig_lock (sw_desc w)) (fun lk => upd_desc (d_set_lock lk)) w.
Definition signal_unlock : SG unit := fun w =>
  on_lock (lock_release (sw_who w)) (sig_lock (sw_desc w)) (fun lk => upd_desc (d_set_lock lk)) w.
Definition signal_assert_locked : SG unit := fun w => M_assert (holding (sw_who w) (sig_lock (sw_desc w))) w.

Definition group_lock : SG unit := fun w =>
  on_lock (lock_acquire (sw_who w)) (sw_glock w) (fun lk w => Done tt (set_glock lk w)) w.
Definition group_unlock : SG unit := fun w =>
  on_lock (lock_release (sw_who w)) (sw_glock w) (fun lk w => Done tt (set_glock lk w)) w.
Definition group_assert_locked : SG unit := fun w => M_assert (holding (sw_who w) (sw_glock w)) w.

(** ** Signal queues (signal.c) *)

(** The queue of signal number [i + 1] of a thread ([t_sigqueue]) or of the process
    ([sig_queue]).  An index outside the array is a fault. *)
Inductive qplace := QThread (t : tid) | QProcess.
Definition queues_at (p : qplace) : SG (list (list Z)) :=
  match p with
  | QThread t => let! x := the_th t in ret! (t_sigqueue x)
  | QProcess => let! d := the_desc in ret! (sig_queue d)
  end.
Definition put_queues (p : qplace) (qs : list (list Z)) : SG unit :=
  match p with
  | QThread t => upd_th t (th_set_queue qs)
  | QProcess => upd_desc (d_set_queue qs)
  end.
Definition the_queue (p : qplace) (i : Z) : SG (list Z) :=
  let! qs := queues_at p in
  if i <? 0 then M_fault else
  match qs !! Z.to_nat i with Some l => ret! l | None => M_fault end.
Definition put_queue (p : qplace) (i : Z) (l : list Z) : SG unit :=
  let! qs := queues_at p in put_queues p (<[Z.to_nat i := l]> qs).

Definition siginfo_free (siginfo : Z) : SG unit := fun w =>
  if siginfo =? 0 then Panic else
  match sw_info w !! siginfo with
  | Some _ => Done tt (set_info (delete siginfo (sw_info w)) w)
  | None => Fault
  end.
Definition the_info (siginfo : Z) : SG siginfo_t := fun w =>
  match sw_info w !! siginfo with Some x => Done x w | None => Fault end.

Section Allocator.
Context {KA : KAlloc}.

(** Whether the allocator has no memory for a queue node. *)
Definition node_oom : SG bool := fun w =>
  Done (match ka_pick (sw_tick w) (dom (sw_info w)) with Some _ => false | None => true end) (next_tick w).

Definition sigqueue_enqueue (p : qplace) (i siginfo : Z) : SG Z :=
  if siginfo =? 0 then ret! (- EINVAL) else
  let! l := the_queue p i in
  let! oom := (if q_oom (Enqueue siginfo QUEUE_UNIQUE) l then node_oom else ret! false) in
  if oom then ret! (- ENOMEM) else
  let s := q_step (Enqueue siginfo QUEUE_UNIQUE) l in
  do! put_queue p i s.2 in
  ret! s.1.1.

Definition siginfo_alloc : SG (Z * Z) := fun w =>
  match ka_pick (sw_tick w) (dom (sw_info w)) with
  | Some p => Done (0, p) (set_info (<[p := SIGINFO_ZERO]> (sw_info w)) (next_tick w))
  | None => Done (- ENOMEM, 0) (next_tick w)
  end.
Definition siginfo_init (siginfo signo val : Z) : SG Z :=
  if (siginfo =? 0) || SIGBAD signo then ret! (- EINVAL) else
  let! x := the_info siginfo in
  fun w => Done 0 (set_info (<[siginfo := mkSiginfo signo (si_code x) (sw_pid w) (si_uid x) (si_addr x) (si_status x) val]> (sw_info w)) w).
Definition siginfo_create (signo sigval : Z) : SG (Z * Z) :=
  let! r := siginfo_alloc in
  if negb (r.1 =? 0) then ret! (r.1, 0) else
  let! err := siginfo_init r.2 signo sigval in
  if negb (err =? 0) then do! siginfo_free r.2 in ret! (err, 0) else
  ret! (0, r.2).
End Allocator.

(** The error and the siginfo taken. *)
Definition sigqueue_dequeue (p : qplace) (i : Z) : SG (Z * option Z) :=
  let! l := the_queue p i in
  let s := q_step Dequeue l in
  do! put_queue p i s.2 in
  ret! s.1.

(** The nodes are removed one by one, each siginfo freed after its node. *)
Fixpoint flush_nodes (p : qplace) (i : Z) (l : list Z) : SG unit :=
  match l with
  | [] => ret! tt
  | d :: l => do! put_queue p i l in do! siginfo_free d in flush_nodes p i l
  end.
Definition sigqueue_flush (p : qplace) (i : Z) : SG unit :=
  let! l := the_queue p i in flush_nodes p i l.
Definition sigqueue_flush_locked : qplace -> Z -> SG unit := sigqueue_flush.

(** ** The descriptor (signal.c) *)
Definition EMPTY_QUEUES : list (list Z) := replicate 32 [].
Definition SIGACT_ZERO : sigaction_t := mkSigact SIG_DFL 0 0.
Definition act_set_handler (h : Z) (a : sigaction_t) : sigaction_t := mkSigact h (sa_flags a) (sa_mask a).
Definition act_set_mask (m : Z) (a : sigaction_t) : sigaction_t := mkSigact (sa_handler a) (sa_flags a) m.
(** What [signal_init] writes; [queue_init] of a member queue never fails. *)
Definition signal_init (d : signal_t) : signal_t :=
  mkSignal sigsetempty (sig_pending d) EMPTY_QUEUES (map (act_set_handler SIG_DFL) (sig_action d)) SPINLOCK_INIT.
(** [kzalloc], then the same. *)
Definition signal_alloc (oom psp : bool) : Z * option signal_t :=
  if negb psp then (- EINVAL, None) else
  if oom then (- ENOMEM, None) else
  (0, Some (signal_init (mkSignal 0 0 EMPTY_QUEUES (replicate 32 SIGACT_ZERO) SPINLOCK_INIT))).

Definition indices : list Z := seqZ 0 NSIG.
Fixpoint flush_all (p : qplace) (ix : list Z) : SG unit :=
  match ix with
  | [] => ret! tt
  | i :: ix => do! sigqueue_flush p i in flush_all p ix
  end.
Definition signal_reset : SG unit :=
  do! signal_assert_locked in
  do! flush_all QProcess indices in
  do! upd_desc (fun d => d_set_action (map (fun _ => mkSigact 0 0 sigsetempty) (sig_action d)) d) in
  do! upd_desc (d_set_mask sigsetempty) in
  upd_desc (d_set_pending sigsetempty).
Definition thread_reset_signal (t : tid) : SG unit :=
  do! thread_assert_locked t in
  do! flush_all (QThread t) indices in
  do! upd_th t (th_set_mask sigsetempty) in
  upd_th t (th_set_pending sigsetempty).
(** sys/thread/exit.c *)
Definition discard_signals : SG unit :=
  do! signal_lock in
  do! signal_reset in
  do! signal_unlock in
  let! t := cur in
  do! thread_lock t in
  do! thread_reset_signal t in
  thread_unlock t.

(** ** Sending (signal.c, kill.c) *)
Section Send.
Context {KA : KAlloc}.

Definition signal_enqueue (siginfo : Z) : SG Z :=
  if siginfo =? 0 then ret! (- EINVAL) else
  let! x := the_info siginfo in
  if SIGBAD (si_signo x) then ret! (- EINVAL) else
  do! signal_assert_locked in
  let! d := the_desc in
  let add := sigsetadd (sig_pending d) (si_signo x) in
  if negb (add.1 =? 0) then ret! add.1 else
  do! upd_desc (d_set_pending add.2) in
  let! err := sigqueue_enqueue QProcess (si_signo x - 1) siginfo in
  let! l := the_queue QProcess (si_signo x - 1) in
  do! M_when (negb (err =? 0) && (Z.of_nat (length l) =? 0))
        (upd_desc (fun d => d_set_pending (sigsetdel (sig_pending d) (si_signo x)).2 d)) in
  ret! err.

Definition thread_send_siginfo (t : tid) (siginfo : Z) : SG Z :=
  if siginfo =? 0 then ret! (- EINVAL) else
  do! thread_assert_locked t in
  let! x := the_info siginfo in
  let! err := sigqueue_enqueue (QThread t) (si_signo x - 1) siginfo in
  if negb (err =? 0) then ret! err else
  let! err := (fun w =>
    let r := thread_wakeup t WAKEUP_SIGNAL (sw_sched w) in
    if sy_panic r.2 then Panic else Done r.1 (set_sched r.2 w)) in
  if negb (err =? 0) then ret! err else
  let! th := the_th t in
  let add := sigsetadd (t_sigpending th) (si_signo x) in
  do! upd_th t (th_set_pending add.2) in
  ret! add.1.

Definition thread_send_signal (t : tid) (signo value : Z) : SG Z :=
  if SIGBAD signo then ret! (- EINVAL) else
  do! thread_assert_locked t in
  let! r := siginfo_create signo value in
  if negb (r.1 =? 0) then ret! r.1 else
  let! err := thread_send_siginfo t r.2 in
  if negb (err =? 0) then do! siginfo_free r.2 in ret! err else
  ret! 0.

(** [thread_queue_find_by_tid] of sys/thread/thread.c leaves the thread locked. *)
Fixpoint thread_queue_find_by_tid (ts : list tid) (t : tid) : SG (Z * option tid) :=
  match ts with
  | [] => ret! (- ESRCH, None)
  | u :: ts =>
      do! thread_lock u in
      if decide (u = t) then ret! (0, Some u) else
      do! thread_unlock u in thread_queue_find_by_tid ts t
  end.
Definition thread_group_get_by_tid (t : tid) : SG (Z * option tid) :=
  do! group_lock in
  let! w := M_get in
  let! r := thread_queue_find_by_tid (sw_group w) t in
  do! group_unlock in
  ret! r.
Definition pthread_sigqueue (t : tid) (signo sigval : Z) : SG Z :=
  if SIGBAD signo then ret! (- EINVAL) else
  let! r := thread_group_get_by_tid t in
  match r.2 with
  | None => ret! r.1
  | Some u =>
      let! err := thread_send_signal u signo sigval in
      do! thread_unlock u in
      ret! err
  end.
Definition pthread_kill (t : tid) (signo : Z) : SG Z := pthread_sigqueue t signo 0.

Definition signal_desc_send_signal (signo sigval : Z) : SG Z :=
  if SIGBAD signo then ret! (- EINVAL) else
  do! signal_assert_locked in
  let! r := siginfo_create signo sigval in
  if negb (r.1 =? 0) then ret! r.1 else
  let! err := signal_enqueue r.2 in
  do! M_when (negb (err =? 0)) (siginfo_free r.2) in
  ret! err.
(** The lock of the process, which the caller holds, is not part of the state. *)
Definition proc_send_signal (signo sigval : Z) : SG Z :=
  if SIGBAD signo then ret! (- EINVAL) else
  do! signal_lock in
  let! err := signal_desc_send_signal signo sigval in
  do! signal_unlock in
  ret! err.
End Send.
Definition kill (pid signo : Z) : SG Z := ret! (- ENOSYS).

(** ** Taking a signal (signal.c) *)
Inductive signal_target_t := signalTargetThread | signalTargetProcess.

Definition pending_at (p : qplace) : SG Z :=
  match p with
  | QThread t => let! x := the_th t in ret! (t_sigpending x)
  | QProcess => let! d := the_desc in ret! (sig_pending d)
  end.
Definition put_pending (p : qplace) (set : Z) : SG unit :=
  match p with
  | QThread t => upd_th t (th_set_pending set)
  | QProcess => upd_desc (d_set_pending set)
  end.
Definition the_action (i : Z) : SG sigaction_t :=
  let! d := the_desc in
  if i <? 0 then M_fault else
  match sig_action d !! Z.to_nat i with Some a => ret! a | None => M_fault end.

Definition try_dequeue_signal (t : tid) (proc_level : bool) : SG (Z * option (Z * sigaction_t)) :=
  let place := if proc_level then QProcess else QThread t in
  let! src := pending_at place in
  let pending := (copy_sigmask sigsetempty src).2 in
  let! th := the_th t in
  let pending := (sigmask pending SIG_UNBLOCK (Some (t_sigmask th))).2 in
  let signo := sigset_first pending in
  if signo =? 0 then ret! (- ENOENT, None) else
  let! r := sigqueue_dequeue place (signo - 1) in
  match r with
  | (err, Some siginfo) =>
      let! l := the_queue place (signo - 1) in
      do! M_when (Z.of_nat (length l) =? 0)
            (let! src := pending_at place in put_pending place (sigsetdel src signo).2) in
      let! oact := the_action (signo - 1) in
      ret! (err, Some (siginfo, oact))
  | (err, None) => ret! (err, None)
  end.

(** The error, and with it the siginfo, the action and the target. *)
Definition signal_dequeue (t : tid) : SG (Z * option (Z * sigaction_t * signal_target_t)) :=
  do! thread_assert_locked t in
  do! signal_lock in
  let! r := try_dequeue_signal t false in
  if negb (r.1 =? - ENOENT) then
    do! signal_unlock in
    ret! (r.1, option_map (fun x => (x, signalTargetThread)) r.2)
  else
  let! r := try_dequeue_signal t true in
  do! signal_unlock in
  ret! (r.1, option_map (fun x => (x, signalTargetProcess)) r.2).

(** ** Masks of a thread and of the process (sigmask.c) *)

(** The error and what [*oset] receives. *)
Definition thread_sigmask (t : tid) (how : Z) (set : option Z) : SG (Z * Z) :=
  do! thread_assert_locked t in
  let! x := the_th t in
  let r := sigmask (t_sigmask x) how set in
  do! upd_th t (th_set_mask r.2) in
  ret! (r.1, t_sigmask x).
Definition pthread_sigmask (how : Z) (set : option Z) : SG (Z * Z) :=
  do! current_lock in
  let! t := cur in
  let! r := thread_sigmask t how set in
  do! current_unlock in
  ret! r.
Definition sigprocmask (how : Z) (set : option Z) : SG (Z * Z) :=
  do! signal_lock in
  let! d := the_desc in
  let r := sigmask (sig_mask d) how set in
  do! upd_desc (d_set_mask r.2) in
  do! signal_unlock in
  ret! (r.1, sig_mask d).

(** ** Actions (sigaction.c) *)
Fixpoint flush_group (ts : list tid) (signo : Z) : SG unit :=
  match ts with
  | [] => ret! tt
  | t :: ts =>
      do! thread_lock t in
      let! x := the_th t in
      do! M_when (negb (sigismember (t_sigpending x) signo =? 0))
            (do! sigqueue_flush (QThread t) (signo - 1) in
             upd_th t (fun x => th_set_pending (sigsetdel (t_sigpending x) signo).2 x)) in
      do! thread_unlock t in
      flush_group ts signo
  end.
(** [foreach_thread] asserts that the lock of the group is held. *)
Definition foreach_thread (body : list tid -> SG unit) : SG unit :=
  do! group_assert_locked in
  let! w := M_get in body (sw_group w).
Definition put_action (i : Z) (a : sigaction_t) : SG unit :=
  upd_desc (fun d => d_set_action (<[Z.to_nat i := a]> (sig_action d)) d).
Definition sig_handler (signo : Z) : SG Z :=
  do! signal_assert_locked in
  let! a := the_action (signo - 1) in ret! (sa_handler a).
Definition do_sigaction (signo : Z) (act : option sigaction_t) (oact : bool) : SG (Z * option sigaction_t) :=
  if SIGBAD signo then ret! (- EINVAL, None) else
  do! signal_lock in
  let! p_act := the_action (signo - 1) in
  do! match act with
      | None => ret! tt
      | Some a =>
          do! put_action (signo - 1) (act_set_mask (sigsetdelmask (sa_mask a) (Z.lor (SIGMASK SIGKILL) (SIGMASK SIGSTOP))) a) in
          let! h := sig_handler signo in
          if sig_handler_ignored h signo then
            do! sigqueue_flush QProcess (signo - 1) in
            foreach_thread (fun ts => flush_group ts signo)
          else ret! tt
      end in
  do! signal_unlock in
  ret! (0, if oact then Some p_act else None).
Definition sigaction (signo : Z) (act : option sigaction_t) (oact : bool) : SG (Z * option sigaction_t) :=
  if SIGBAD signo then ret! (- EINVAL, None) else do_sigaction signo act oact.

(** ** Asking what is pending (sigpending.c) *)

(** [set] is what [*set] holds before the call; the result has it afterwards. *)
Definition sigpending_step (thr proc mask : Z) (acc : Z * Z) (i : Z) : Z * Z :=
  if (negb (sigismember thr (i + 1) =? 0) || negb (sigismember proc (i + 1) =? 0))
     && negb (sigismember mask (i + 1) =? 0)
  then ((sigsetadd acc.1 (i + 1)).2, acc.2 + 1) else acc.
Definition thread_sigpending (t : tid) (set : Z) : SG (Z * Z) :=
  do! thread_assert_locked t in
  do! signal_lock in
  let! x := the_th t in
  let! d := the_desc in
  let r := foldl (sigpending_step (t_sigpending x) (sig_pending d) (t_sigmask x)) (set, 0) indices in
  do! signal_unlock in
  ret! (if 0 <? r.2 then 0 else - 1, r.1).
Definition sigpending (set : Z) : SG (Z * Z) :=
  do! current_lock in
  let! t := cur in
  let! r := thread_sigpending t set in
  do! current_unlock in
  ret! r.

(** ** Waiting for a signal (sigtimedwait.c) *)

(** The signal number (0 for none) and the siginfo. *)
Definition check_thread_signals (set : Z) : SG (Z * Z) :=
  do! current_lock in
  let! t := cur in
  let! x := the_th t in
  let signo := sigset_first (sigsettest set (t_sigpending x)) in
  if signo =? 0 then do! current_unlock in ret! (0, 0) else
  let! r := sigqueue_dequeue (QThread t) (signo - 1) in
  match r.2 with
  | Some siginfo =>
      let! l := the_queue (QThread t) (signo - 1) in
      do! M_when (Z.of_nat (length l) =? 0) (upd_th t (fun x => th_set_pending (sigsetdel (t_sigpending x) signo).2 x)) in
      do! current_unlock in
      ret! (signo, siginfo)
  | None => do! current_unlock in ret! (0, 0)
  end.
Definition check_process_signals (set : Z) : SG (Z * Z) :=
  do! signal_lock in
  let! d := the_desc in
  let signo := sigset_first (sigsettest set (sig_pending d)) in
  if signo =? 0 then do! signal_unlock in ret! (0, 0) else
  let! r := sigqueue_dequeue QProcess (signo - 1) in
  match r.2 with
  | Some siginfo =>
      let! l := the_queue QProcess (signo - 1) in
      do! M_when (Z.of_nat (length l) =? 0) (upd_desc (fun d => d_set_pending (sigsetdel (sig_pending d) signo).2 d)) in
      do! signal_unlock in
      ret! (signo, siginfo)
  | None => do! signal_unlock in ret! (0, 0)
  end.
Definition check_signals (set : Z) : SG (Z * Z) :=
  let! r := check_thread_signals set in
  if negb (r.1 =? 0) then ret! r else check_process_signals set.

Record timespec := mkTimespec { tv_sec : Z; tv_nsec : Z }.
Definition SYS_Hz : Z := 1000.
(** dev/chr/timer/jiffies.c; [jiffies_t] is an unsigned long. *)
Definition jiffies_from_timespec (ts : timespec) : Z := u64 (u64 (tv_sec ts * SYS_Hz) + u64 (Z.quot (tv_nsec ts) 1000000)).
Definition time_before (unknown known : Z) : bool := s64 (s64 unknown - s64 known) <? 0.

(** [yields n] is what the other threads do while this one yields for the [n]-th
    time, [clock n] what [jiffies_get] answers in round [n]. *)
Section TimedWait.
Context (yields : nat -> SG unit) (clock : nat -> Z).

Definition take_found (signo siginfo : Z) : SG (Z * option siginfo_t) :=
  let! x := the_info siginfo in
  do! siginfo_free siginfo in
  ret! (signo, Some x).
Fixpoint timed_loop (fuel n : nat) (set : Z) (expr : option Z) : SG (Z * option siginfo_t) :=
  match fuel with
  | O => M_diverge
  | S fuel =>
      if match expr with Some e => negb (time_before (clock n) e) | None => false end then ret! (- EAGAIN, None) else
      let! r := check_signals set in
      if negb (r.1 =? 0) then take_found r.1 r.2 else
      do! yields n in
      timed_loop fuel (S n) set expr
  end.
(** The result and what [*info] receives. *)
Definition sigtimedwait (fuel : nat) (set : Z) (timeout : option timespec) : SG (Z * option siginfo_t) :=
  if match timeout with
     | Some ts => (1000000000 <=? tv_nsec ts) || ((tv_sec ts <? 0) || (tv_nsec ts <? 0))
     | None => false
     end
  then ret! (- EINVAL, None) else
  let pending := sigsetdelmask (sigsetor sigsetempty set) (Z.lor (SIGMASK SIGKILL) (SIGMASK SIGSTOP)) in
  timed_loop fuel 1 pending (option_map (fun ts => u64 (jiffies_from_timespec ts + clock O)) timeout).
Definition sigwaitinfo (fuel : nat) (set : Z) : SG (Z * option siginfo_t) := sigtimedwait fuel set None.
End TimedWait.

(** ** The alternative stack (altsigstack.c) *)
(** The error and what [*oss] receives. *)
Definition sigaltstack (ss : option uc_stack_t) : SG (Z * option uc_stack_t) :=
  let! t := cur in
  let! x := the_th t in
  if negb (Z.land (ss_flags (t_altstack x)) SS_ONSTACK =? 0) then ret! (- EPERM, None) else
  match ss with
  | None => ret! (0, None)
  | Some s =>
      if negb (Z.land (ss_flags s) (Z.lnot SS_DISABLE) =? 0) || (ss_size s <? MINSIGSTKSZ) then ret! (- EINVAL, None) else
      do! upd_th t (th_set_altstack s) in
      ret! (0, Some (t_altstack x))
  end.

(** ** Dispatch (dispatch.c, arch/x86_64/threads/signal.c) *)

(** [signal_check_pending] returns, or the thread leaves through [thread_exit]. *)
Inductive sig_out := SRet (err : Z) | SExit (status : Z).

(** [run_handler h signo info]: what the handler at address [h] does when it is called;
    [info] is the siginfo it is given with SA_SIGINFO. *)
Section Dispatch.
Context (run_handler : Z -> Z -> option Z -> SG unit).

Definition call_handler (act : sigaction_t) (siginfo : Z) : SG unit :=
  let! x := the_info siginfo in
  run_handler (sa_handler act) (si_signo x) (if Z.land (sa_flags act) SA_SIGINFO =? 0 then None else Some siginfo).

(** The interrupt flag is not part of the state. *)
Definition x86_64_signal_bycall (act : sigaction_t) (siginfo : Z) : SG Z :=
  let! t := cur in
  let! x := the_th t in
  let is_sigctx := t_handling x in
  do! upd_th t (th_set_handling true) in
  do! current_unlock in
  do! call_handler act siginfo in
  do! current_lock in
  do! M_when (negb is_sigctx) (upd_th t (th_set_handling false)) in
  ret! 0.
(** [x86_64_signal_start], the handler, [x86_64_signal_return] and the end of
    [x86_64_signal_onstack], in the order the context switches run them; the frames
    and contexts they build are not part of the state. *)
Definition on_altstack (f : Z -> Z) (x : sigthread) : sigthread :=
  th_set_altstack (mkUcStack (ss_sp (t_altstack x)) (ss_size (t_altstack x)) (f (ss_flags (t_altstack x)))) x.
Definition x86_64_signal_onstack (act : sigaction_t) (siginfo : Z) : SG unit :=
  let! t := cur in
  let! x := the_th t in
  let is_sigctx := t_handling x in
  do! upd_th t (th_set_handling true) in
  do! upd_th t (on_altstack (fun f => Z.lor f SS_ONSTACK)) in
  do! current_unlock in
  do! call_handler act siginfo in
  do! current_lock in
  do! upd_th t (on_altstack (fun f => Z.land f (Z.lnot SS_ONSTACK))) in
  M_when (negb is_sigctx) (upd_th t (th_set_handling false)).
Definition x86_64_dispatch_onstack (act : sigaction_t) (siginfo : Z) : SG Z :=
  let! t := cur in
  let! x := the_th t in
  let s := t_altstack x in
  if (ss_sp s =? 0) || (ss_size s =? 0) then ret! (- EINVAL)
  else if negb (Z.land (ss_flags s) SS_DISABLE =? 0) then x86_64_signal_bycall act siginfo
  else if negb (Z.land (ss_flags s) SS_ONSTACK =? 0) then x86_64_signal_bycall act siginfo
  else do! x86_64_signal_onstack act siginfo in ret! 0.
Definition arch_signal_dispatch (act : sigaction_t) (siginfo : Z) : SG Z :=
  if siginfo =? 0 then ret! (- EINVAL)
  else if negb (Z.land (sa_flags act) SA_ONSTACK =? 0) then x86_64_dispatch_onstack act siginfo
  else x86_64_signal_bycall act siginfo.

(** [Some status] when [thread_exit] is reached, which does not return. *)
Definition do_terminate (siginfo : Z) (target : signal_target_t) : SG (option Z) :=
  let! x := the_info siginfo in
  do! siginfo_free siginfo in
  do! current_unlock in
  ret! (match target with signalTargetThread => Some (s32 (si_value x)) | signalTargetProcess => None end).
Definition do_default_action (siginfo : Z) (target : signal_target_t) : SG (option Z) :=
  let! x := the_info siginfo in
  if sig_abort (si_signo x) then ret! None
  else if sig_terminate (si_signo x) then do_terminate siginfo target
  else ret! None.

(** The mask of the thread before. *)
Definition signal_mask_block (signo : Z) (act : sigaction_t) : SG Z :=
  let set := (sigmask sigsetempty SIG_SETMASK (Some (sa_mask act))).2 in
  let set := if Z.land (sa_flags act) SA_NODEFER =? 0 then (sigsetadd set signo).2 else set in
  let! t := cur in
  let! x := the_th t in
  do! upd_th t (th_set_mask (sigmask (t_sigmask x) SIG_BLOCK (Some set)).2) in
  ret! (t_sigmask x).
Definition signal_mask_restore (oset : Z) : SG unit :=
  let! t := cur in
  upd_th t (fun x => th_set_mask (sigmask (t_sigmask x) SIG_SETMASK (Some oset)).2 x).

Definition signal_check_pending : SG sig_out :=
  let! t := cur in
  let! x := the_th t in
  if ARCH_NSIG_NESTED <? t_nsig_nested x then ret! (SRet (- EINVAL)) else
  let! r := signal_dequeue t in
  match r with
  | (_, None) => ret! (SRet (- 1))
  | (_, Some (siginfo, oact, target)) =>
      let! info := the_info siginfo in
      let! oset := signal_mask_block (si_signo info) oact in
      do! upd_th t (fun x => th_set_uc (option_map (fun m => (sigmask m SIG_SETMASK (Some oset)).2) (t_uc_sigmask x)) x) in
      let! exited :=
        (if sig_handler_ignored (sa_handler oact) (si_signo info) then ret! None
         else if sa_handler oact =? SIG_DFL then do_default_action siginfo target
         else
           do! upd_th t (fun x => th_set_nested (t_nsig_nested x + 1) x) in
           do! (let! _ := arch_signal_dispatch oact siginfo in ret! tt) in
           do! upd_th t (fun x => th_set_nested (t_nsig_nested x - 1) x) in
           ret! None) in
      match exited with
      | Some status => ret! (SExit status)
      | None =>
          do! signal_mask_restore oset in
          do! siginfo_free siginfo in
          ret! (SRet 0)
      end
  end.
Definition signal_dispatch : SG sig_out :=
  do! current_lock in
  let! out := signal_check_pending in
  match out with
  | SRet err => do! current_unlock in ret! (SRet err)
  | SExit status => ret! (SExit status)
  end.
End Dispatch.
