(* ===== verification/SignalFacts.v ===== *)
(** * Facts on signal sets, pending queues and the operations on them

    A place that signals wait in, a thread or the process, is a box: a pending set
    and 32 queues.  The invariant of all boxes is kept when an address is queued,
    taken or flushed; the operations of Signal.v are equations on the world. *)
From S2P Require Import Prelude Errno Spinlock KMem Queue QueueSpec Wait Signal.

(** ** Signal sets *)
Definition is_set (s : Z) : Prop := 0 <= s /\ forall i, 32 <= i -> Z.testbit s i = false.
Definition good_signo (n : Z) : Prop := 1 <= n <= 32.

Lemma SIGBAD_good n : good_signo n -> SIGBAD n = false.
Proof. unfold good_signo, SIGBAD, NSIG. intros. apply orb_false_iff. split; apply Z.ltb_ge; lia. Qed.
Lemma SIGBAD_false n : SIGBAD n = false <-> good_signo n.
Proof.
  split; [|apply SIGBAD_good]. unfold SIGBAD, NSIG, good_signo.
  rewrite orb_false_iff, !Z.ltb_ge. lia.
Qed.
Lemma SIG_BIT_eq n : good_signo n -> SIG_BIT n = bit_mask (n - 1).
Proof. unfold good_signo, SIG_BIT, bit_mask, BITS_PER_UINT. intros. by rewrite Z.mod_small by lia. Qed.
Lemma SIG_BIT_spec n i : good_signo n -> 0 <= i -> Z.testbit (SIG_BIT n) i = bool_decide (i = n - 1).
Proof. intros Hn Hi. rewrite SIG_BIT_eq by done. apply bit_mask_spec; unfold good_signo in *; lia. Qed.
Lemma not32_spec w i : 0 <= i < 32 -> Z.testbit (not32 w) i = negb (Z.testbit w i).
Proof.
  intros Hi. unfold not32. rewrite Z.lxor_spec, Z.ones_spec_low by lia. by destruct (Z.testbit w i).
Qed.

Lemma is_set_0 : is_set 0.
Proof. split; [done|]. intros. apply Z.bits_0. Qed.
Lemma is_set_small s : 0 <= s < 2 ^ 32 -> is_set s.
Proof.
  intros [H0 H1]. split; [done|]. intros i Hi. destruct (decide (s = 0)) as [->|]; [apply Z.bits_0|].
  apply Z.bits_above_log2; [done|]. apply Z.lt_le_trans with 32; [|done]. apply Z.log2_lt_pow2; lia.
Qed.
Lemma is_set_lor a b : is_set a -> is_set b -> is_set (Z.lor a b).
Proof. intros [? Ha] [? Hb]. split; [by apply Z.lor_nonneg|]. intros i Hi. by rewrite Z.lor_spec, Ha, Hb. Qed.
Lemma is_set_land a b : is_set a -> is_set (Z.land a b).
Proof. intros [? Ha]. split; [apply Z.land_nonneg; auto|]. intros i Hi. by rewrite Z.land_spec, Ha. Qed.
Lemma is_set_bit n : good_signo n -> is_set (SIG_BIT n).
Proof.
  intros Hn. pose proof Hn as [? ?]. split.
  - rewrite SIG_BIT_eq by done. unfold bit_mask. apply Z.shiftl_nonneg. lia.
  - intros i Hi. rewrite SIG_BIT_spec by (done || lia). apply bool_decide_eq_false_2. lia.
Qed.

Lemma is_set_ext a b : is_set a -> is_set b -> (forall i, 0 <= i < 32 -> Z.testbit a i = Z.testbit b i) -> a = b.
Proof.
  intros [_ Ha] [_ Hb] H. apply Z.bits_inj'. intros i Hi.
  destruct (decide (i < 32)); [by apply H|]. rewrite Ha, Hb by lia. done.
Qed.

Lemma sigismember_spec s n : good_signo n -> sigismember s n = if Z.testbit s (n - 1) then 1 else 0.
Proof.
  intros Hn. pose proof Hn as [? ?]. unfold sigismember. rewrite SIGBAD_good, SIG_BIT_eq, land_bit_mask_0 by (done || lia).
  by destruct (Z.testbit s (n - 1)).
Qed.
Lemma sigismember_0 s n : good_signo n -> (sigismember s n =? 0) = negb (Z.testbit s (n - 1)).
Proof. intros Hn. rewrite sigismember_spec by done. by destruct (Z.testbit s (n - 1)). Qed.

Lemma sigsetadd_eq s n : good_signo n -> sigsetadd s n = (0, Z.lor s (SIG_BIT n)).
Proof. intros. unfold sigsetadd. by rewrite SIGBAD_good. Qed.
Lemma sigsetdel_eq s n : good_signo n -> sigsetdel s n = (0, Z.land s (not32 (SIG_BIT n))).
Proof. intros. unfold sigsetdel. by rewrite SIGBAD_good. Qed.
Lemma add_bit s n i : good_signo n -> 0 <= i ->
  Z.testbit (Z.lor s (SIG_BIT n)) i = Z.testbit s i || bool_decide (i = n - 1).
Proof. intros. by rewrite Z.lor_spec, SIG_BIT_spec. Qed.
Lemma del_bit s n i : good_signo n -> 0 <= i < 32 ->
  Z.testbit (Z.land s (not32 (SIG_BIT n))) i = Z.testbit s i && negb (bool_decide (i = n - 1)).
Proof. intros. rewrite Z.land_spec, not32_spec, SIG_BIT_spec by (done || lia). done. Qed.

(** The lowest member, from bit [i] on. *)
Lemma ctz_from_spec n i w :
  (exists j, i <= j < i + Z.of_nat n /\ Z.testbit w j = true) ->
  i <= ctz_from n i w < i + Z.of_nat n /\ Z.testbit w (ctz_from n i w) = true /\
  forall j, i <= j < ctz_from n i w -> Z.testbit w j = false.
Proof.
  revert i. induction n as [|n IH]; intros i (j & Hj & Hb); [lia|]. cbn [ctz_from].
  destruct (Z.testbit w i) eqn:E.
  - split; [lia|]. split; [done|]. intros. lia.
  - destruct (IH (i + 1)) as (Hr & Ht & Hl).
    { exists j. split; [|done]. assert (j <> i) by congruence. lia. }
    split; [lia|]. split; [done|]. intros k Hk. destruct (decide (k = i)) as [->|]; [done|]. apply Hl. lia.
Qed.

Lemma set_nonempty s : is_set s -> s <> 0 -> exists j, 0 <= j < 32 /\ Z.testbit s j = true.
Proof.
  intros [H0 Hs] Hne. exists (Z.log2 s). assert (Z.testbit s (Z.log2 s) = true) as Hb by (apply Z.bit_log2; lia).
  split; [|done]. split; [apply Z.log2_nonneg|]. destruct (decide (Z.log2 s < 32)); [done|].
  rewrite Hs in Hb by lia. done.
Qed.

Inductive first_of (s : Z) : Z -> Prop :=
  | first_none : (forall i, 0 <= i < 32 -> Z.testbit s i = false) -> first_of s 0
  | first_some n : good_signo n -> Z.testbit s (n - 1) = true ->
      (forall i, 0 <= i < n - 1 -> Z.testbit s i = false) -> first_of s n.
Lemma sigset_first_spec s : is_set s -> first_of s (sigset_first s).
Proof.
  intros Hs. unfold sigset_first. destruct (Z.eqb_spec s 0) as [->|Hne].
  - apply first_none. intros. apply Z.bits_0.
  - destruct (ctz_from_spec 32 0 s) as (Hr & Hb & Hl); [by apply set_nonempty|].
    unfold builtin_ctz. apply first_some; [unfold good_signo; lia| |].
    + by replace (0 * BITS_PER_UINT + ctz_from 32 0 s + 1 - 1) with (ctz_from 32 0 s) by lia.
    + intros i Hi. apply Hl. lia.
Qed.

(** A mask: a set without SIGKILL and SIGSTOP. *)
Definition mask_ok (m : Z) : Prop := is_set m /\ Z.testbit m 13 = false /\ Z.testbit m 18 = false.
Definition deliverable (pd m : Z) : Z := Z.land pd (not32 m).

Lemma mask_members m : sigismember m SIGKILL = (if Z.testbit m 13 then 1 else 0) /\
  sigismember m SIGSTOP = (if Z.testbit m 18 then 1 else 0).
Proof. split; apply sigismember_spec; unfold good_signo, SIGKILL, SIGSTOP; lia. Qed.

(** What [sigmask] does: a set with SIGKILL or SIGSTOP is refused, whatever [how]. *)
Lemma sigmask_spec s how m : is_set m ->
  sigmask s how (Some m) =
  if Z.testbit m 13 || Z.testbit m 18 then (- EINVAL, s) else do_sigmask s how m.
Proof.
  intros _. unfold sigmask. destruct (mask_members m) as [-> ->].
  by destruct (Z.testbit m 13), (Z.testbit m 18).
Qed.
Lemma sigmask_ok s how m : mask_ok m -> sigmask s how (Some m) = do_sigmask s how m.
Proof. intros (Hs & Hk & Ht). rewrite sigmask_spec by done. by rewrite Hk, Ht. Qed.
Lemma sigmask_unblock pd m : mask_ok m -> sigmask pd SIG_UNBLOCK (Some m) = (0, deliverable pd m).
Proof. intros. by rewrite sigmask_ok. Qed.

Lemma mask_ok_0 : mask_ok 0.
Proof. split; [apply is_set_0|]. by rewrite !Z.bits_0. Qed.
Lemma mask_ok_lor a b : mask_ok a -> mask_ok b -> mask_ok (Z.lor a b).
Proof. intros (? & Ha & Ha') (? & Hb & Hb'). split; [by apply is_set_lor|]. by rewrite !Z.lor_spec, Ha, Ha', Hb, Hb'. Qed.
Lemma mask_ok_land a b : mask_ok a -> mask_ok (Z.land a b).
Proof. intros (? & Ha & Ha'). split; [by apply is_set_land|]. by rewrite !Z.land_spec, Ha, Ha'. Qed.

(** [sigmask] on a mask leaves a mask, whatever set it is given. *)
Lemma sigmask_mask_ok s how set : mask_ok s -> (forall m, set = Some m -> is_set m) -> mask_ok (sigmask s how set).2.
Proof.
  intros Hs Hset. destruct set as [m|]; [|done]. rewrite sigmask_spec by auto.
  destruct (Z.testbit m 13) eqn:E1; [done|]. destruct (Z.testbit m 18) eqn:E2; [done|]. simpl.
  assert (mask_ok m) by (split; auto). unfold do_sigmask.
  repeat case_match; simpl; auto using mask_ok_lor, mask_ok_land.
Qed.

(** ** Boxes *)
#[export] Instance qplace_eq_dec : EqDecision qplace.
Proof. solve_decision. Defined.
Definition box : Type := Z * list (list Z).
Definition boxes : Type := qplace -> option box.
Definition upd_box (B : boxes) (p : qplace) (b : box) : boxes := fun p' => if decide (p' = p) then Some b else B p'.

(** A signal is in the pending set exactly when its queue is not empty; what is
    queued is live and has the signal number of its queue. *)
Record box_ok (I : gmap Z siginfo_t) (b : box) : Prop := {
  bx_len : length b.2 = 32%nat;
  bx_set : is_set b.1;
  bx_bit : forall i l, b.2 !! i = Some l -> Z.testbit b.1 (Z.of_nat i) = bool_decide (l <> []);
  bx_info : forall i l a, b.2 !! i = Some l -> a ∈ l -> exists x, I !! a = Some x /\ si_signo x = Z.of_nat i + 1;
  bx_nodup : forall i l, b.2 !! i = Some l -> NoDup l
}.
Definition queued_at (B : boxes) (a : Z) (p : qplace) : Prop :=
  exists b i l, B p = Some b /\ b.2 !! i = Some l /\ a ∈ l.
Record boxes_ok (B : boxes) (I : gmap Z siginfo_t) : Prop := {
  bs_ok : forall p b, B p = Some b -> box_ok I b;
  bs_uniq : forall a p p', queued_at B a p -> queued_at B a p' -> p = p';
  bs_null : I !! 0 = None
}.

Lemma upd_box_eq B p b : upd_box B p b p = Some b.
Proof. unfold upd_box. by rewrite decide_True. Qed.
Lemma upd_box_ne B p b p' : p' <> p -> upd_box B p b p' = B p'.
Proof. intros. unfold upd_box. by rewrite decide_False. Qed.

Lemma boxes_ok_ext B B' I : (forall p, B p = B' p) -> boxes_ok B I -> boxes_ok B' I.
Proof.
  intros Heq [Hok Hu Hn]. split; [|intros a p p' (b & i & l & Hb & R) (b' & i' & l' & Hb' & R')|done].
  - intros p b Hb. apply (Hok p). by rewrite Heq.
  - apply (Hu a); [exists b, i, l|exists b', i', l']; by rewrite Heq.
Qed.

Lemma box_live B I a p : boxes_ok B I -> queued_at B a p -> is_Some (I !! a).
Proof. intros H (b & i & l & Hb & Hl & Ha). destruct (bx_info _ _ (bs_ok _ _ H _ _ Hb) _ _ _ Hl Ha) as (x & Hx & _). by exists x. Qed.

Lemma boxes_not_null B I a p : boxes_ok B I -> queued_at B a p -> a <> 0.
Proof. intros H Hq ->. apply (box_live _ _ _ _ H) in Hq as [x Hx]. by rewrite (bs_null _ _ H) in Hx. Qed.

(** A queue lookup is in range, and its signal number is good. *)
Lemma box_signo I b i l : box_ok I b -> b.2 !! i = Some l -> good_signo (Z.of_nat i + 1).
Proof. intros H Hl. apply lookup_lt_Some in Hl. rewrite (bx_len _ _ H) in Hl. unfold good_signo. lia. Qed.
Lemma box_queue I b n : box_ok I b -> good_signo n -> exists l, b.2 !! Z.to_nat (n - 1) = Some l.
Proof. intros H [? ?]. apply lookup_lt_is_Some_2. rewrite (bx_len _ _ H). lia. Qed.

(** What a changed box queues. *)
Lemma queued_upd B p b a p' :
  queued_at (upd_box B p b) a p' <->
  (p' = p /\ exists i l, b.2 !! i = Some l /\ a ∈ l) \/ (p' <> p /\ queued_at B a p').
Proof.
  unfold queued_at. destruct (decide (p' = p)) as [->|Hne].
  - rewrite upd_box_eq. naive_solver.
  - rewrite upd_box_ne by done. naive_solver.
Qed.

(** One queue of a box is replaced: the bits and the live addresses must follow. *)
Lemma box_ok_insert I I' pd qs i l pd' l' :
  box_ok I (pd, qs) -> qs !! i = Some l -> is_set pd' ->
  (forall j, j <> i -> (j < 32)%nat -> Z.testbit pd' (Z.of_nat j) = Z.testbit pd (Z.of_nat j)) ->
  Z.testbit pd' (Z.of_nat i) = bool_decide (l' <> []) -> NoDup l' ->
  (forall j m a, j <> i -> qs !! j = Some m -> a ∈ m -> I' !! a = I !! a) ->
  (forall a, a ∈ l' -> exists x, I' !! a = Some x /\ si_signo x = Z.of_nat i + 1) ->
  box_ok I' (pd', <[i := l']> qs).
Proof.
  intros H Hl Hset Hother Hbit Hnd Hsame Hnew. pose proof (lookup_lt_Some _ _ _ Hl) as Hlt.
  assert (forall j m, <[i := l']> qs !! j = Some m -> j = i /\ m = l' \/ j <> i /\ qs !! j = Some m) as Hcase.
  { intros j m Hm. destruct (decide (j = i)) as [->|].
    - rewrite list_lookup_insert_eq in Hm by done. left. by simplify_eq.
    - rewrite list_lookup_insert_ne in Hm by done. by right. }
  split; cbn [fst snd].
  - rewrite length_insert. apply (bx_len _ _ H).
  - done.
  - intros j m Hm. destruct (Hcase _ _ Hm) as [[-> ->]|[Hj Hm']]; [done|].
    rewrite Hother by (done || (apply lookup_lt_Some in Hm'; pose proof (bx_len _ _ H); simpl in *; lia)).
    apply (bx_bit _ _ H _ _ Hm').
  - intros j m a Hm Ha. destruct (Hcase _ _ Hm) as [[-> ->]|[Hj Hm']]; [auto|].
    rewrite (Hsame _ _ _ Hj Hm' Ha). apply (bx_info _ _ H _ _ _ Hm' Ha).
  - intros j m Hm. destruct (Hcase _ _ Hm) as [[-> ->]|[Hj Hm']]; [done|]. apply (bx_nodup _ _ H _ _ Hm').
Qed.

(** The rest of the boxes, when one is replaced by one that queues a subset of what it
    queued and of an address queued nowhere. *)
Lemma boxes_ok_upd B I I' p b b' (A : Z -> Prop) :
  boxes_ok B I -> B p = Some b -> box_ok I' b' -> I' !! 0 = None ->
  (forall a i l, b'.2 !! i = Some l -> a ∈ l -> queued_at B a p \/ A a) ->
  (forall a q, A a -> ~ queued_at B a q) ->
  (forall a q, q <> p -> queued_at B a q -> I' !! a = I !! a) ->
  boxes_ok (upd_box B p b') I'.
Proof.
  intros H Hp Hb' H0 Hsub HA Hsame. split; [| |done].
  - intros q c Hc. destruct (decide (q = p)) as [->|Hne]; [rewrite upd_box_eq in Hc; by simplify_eq|].
    rewrite upd_box_ne in Hc by done. destruct (bs_ok _ _ H _ _ Hc) as [L S Bt If Nd].
    split; [done..| |done]. intros i l a Hl Ha. rewrite (Hsame a q); [eauto|done|]. by exists c, i, l.
  - intros a q q' [[-> (i & l & Hl & Ha)]|[Hne Hq]]%queued_upd [[-> (i' & l' & Hl' & Ha')]|[Hne' Hq']]%queued_upd.
    + done.
    + destruct (Hsub _ _ _ Hl Ha) as [Hq|HAa]; [by apply (bs_uniq _ _ H a)|by destruct (HA _ q' HAa)].
    + destruct (Hsub _ _ _ Hl' Ha') as [Hq'|HAa]; [by apply (bs_uniq _ _ H a)|by destruct (HA _ q HAa)].
    + by apply (bs_uniq _ _ H a).
Qed.

(** Queueing a new address. *)
Lemma boxes_push B I p pd qs i l a x :
  boxes_ok B I -> B p = Some (pd, qs) -> qs !! i = Some l -> I !! a = None -> a <> 0 -> si_signo x = Z.of_nat i + 1 ->
  boxes_ok (upd_box B p (Z.lor pd (SIG_BIT (Z.of_nat i + 1)), <[i := l ++ [a]]> qs)) (<[a := x]> I).
Proof.
  intros H Hp Hl Ha Ha0 Hx. pose proof (bs_ok _ _ H _ _ Hp) as Hb. pose proof (box_signo _ _ _ _ Hb Hl) as Hg.
  assert (forall q, ~ queued_at B a q) as Hnq by (intros q Hq; apply (box_live _ _ _ _ H) in Hq as [? ?]; congruence).
  assert (forall a' q, queued_at B a' q -> <[a := x]> I !! a' = I !! a') as Hsame.
  { intros a' q Hq. apply lookup_insert_ne. intros ->. by apply (Hnq q). }
  apply (boxes_ok_upd _ I _ _ (pd, qs) _ (eq a)); [done..| | | | |].
  - apply (box_ok_insert I _ pd _ _ l); [done..| | | | | |].
    + apply is_set_lor; [apply (bx_set _ _ Hb)|by apply is_set_bit].
    + intros j Hj _. rewrite add_bit by (done || lia). rewrite bool_decide_eq_false_2 by lia. apply orb_false_r.
    + rewrite add_bit by (done || lia). rewrite bool_decide_eq_true_2 by lia. rewrite orb_true_r.
      symmetry. apply bool_decide_eq_true_2. by destruct l.
    + apply NoDup_app. split; [apply (bx_nodup _ _ Hb _ _ Hl)|]. split; [|apply NoDup_singleton].
      intros y Hy ->%list_elem_of_singleton. apply (Hnq p). by exists (pd, qs), i, l.
    + intros j m a' _ Hm Ha'. apply (Hsame _ p). by exists (pd, qs), j, m.
    + intros a' [Ha'| ->%list_elem_of_singleton]%elem_of_app; [|exists x; by rewrite lookup_insert_eq].
      rewrite (Hsame _ p) by (by exists (pd, qs), i, l). apply (bx_info _ _ Hb _ _ _ Hl Ha').
  - rewrite lookup_insert_ne by done. apply (bs_null _ _ H).
  - intros a' j m Hm Ha'. cbn [snd] in Hm. destruct (decide (j = i)) as [->|].
    + rewrite list_lookup_insert_eq in Hm by (by apply lookup_lt_Some in Hl). simplify_eq.
      apply elem_of_app in Ha' as [Ha'| ->%list_elem_of_singleton]; [left; by exists (pd, qs), i, l|by right].
    + rewrite list_lookup_insert_ne in Hm by done. left. by exists (pd, qs), j, m.
  - by intros ? q <-.
  - intros a' q _ Hq. by apply (Hsame _ q).
Qed.

(** The pending set once queue [i] holds [l]: the bit goes with the last entry. *)
Definition del_if_empty (pd : Z) (i : nat) (l : list Z) : Z :=
  if Z.of_nat (length l) =? 0 then (sigsetdel pd (Z.of_nat i + 1)).2 else pd.

(** Taking entries out of a queue. *)
Lemma boxes_shrink B I p pd qs i l l' :
  boxes_ok B I -> B p = Some (pd, qs) -> qs !! i = Some l -> (exists k, l = k ++ l') ->
  boxes_ok (upd_box B p (del_if_empty pd i l', <[i := l']> qs)) I.
Proof.
  intros H Hp Hl [k ->]. pose proof (bs_ok _ _ H _ _ Hp) as Hb. pose proof (box_signo _ _ _ _ Hb Hl) as Hg.
  apply (boxes_ok_upd _ I _ _ (pd, qs) _ (fun _ => False)); [done..| | | | |done].
  - apply (box_ok_insert I _ pd _ _ (k ++ l')); [done..| | | | |done|].
    + unfold del_if_empty. rewrite sigsetdel_eq by done. simpl.
      case_match; [apply is_set_land|]; apply (bx_set _ _ Hb).
    + intros j Hj Hj32. unfold del_if_empty. rewrite sigsetdel_eq by done. simpl. case_match; [|done].
      rewrite del_bit by (done || lia). rewrite bool_decide_eq_false_2 by lia. apply andb_true_r.
    + unfold del_if_empty. rewrite sigsetdel_eq by done. simpl. destruct l' as [|y l']; simpl.
      * pose proof Hg as [? ?]. rewrite del_bit by (done || lia). rewrite bool_decide_eq_true_2 by lia. apply andb_false_r.
      * pose proof (bx_bit _ _ Hb _ _ Hl) as Hbit. cbn [fst] in Hbit. rewrite Hbit. by rewrite !bool_decide_eq_true_2 by (done || by destruct k).
    + pose proof (bx_nodup _ _ Hb _ _ Hl) as Hnd. apply NoDup_app in Hnd. tauto.
    + intros a Ha. apply (bx_info _ _ Hb _ _ _ Hl). apply elem_of_app. by right.
  - apply (bs_null _ _ H).
  - intros a j m Hm Ha. left. cbn [snd] in Hm. destruct (decide (j = i)) as [->|].
    + rewrite list_lookup_insert_eq in Hm by (by apply lookup_lt_Some in Hl). simplify_eq.
      exists (pd, qs), i, (k ++ m). split; [done|]. split; [done|]. apply elem_of_app. by right.
    + rewrite list_lookup_insert_ne in Hm by done. by exists (pd, qs), j, m.
  - by intros.
Qed.

(** What was taken out is queued nowhere. *)
Lemma shrink_unqueued B I p pd qs i k l' pd' a :
  boxes_ok B I -> B p = Some (pd, qs) -> qs !! i = Some (k ++ l') -> a ∈ k ->
  forall q, ~ queued_at (upd_box B p (pd', <[i := l']> qs)) a q.
Proof.
  intros H Hp Hl Ha q. pose proof (bs_ok _ _ H _ _ Hp) as Hb.
  assert (queued_at B a p) as Hq by (exists (pd, qs), i, (k ++ l'); split_and!; [done..|]; apply elem_of_app; by left).
  intros [[-> (j & m & Hm & Ham)]|[Hne Hq']]%queued_upd; [|by apply Hne, (bs_uniq _ _ H a)].
  cbn [snd] in Hm. destruct (decide (j = i)) as [->|Hj].
  - rewrite list_lookup_insert_eq in Hm by (by apply lookup_lt_Some in Hl). simplify_eq.
    pose proof (bx_nodup _ _ Hb _ _ Hl) as Hnd. apply NoDup_app in Hnd as (_ & Hd & _). by apply (Hd a).
  - rewrite list_lookup_insert_ne in Hm by done.
    destruct (bx_info _ _ Hb _ _ a Hm Ham) as (x & Hx & Hsx).
    destruct (bx_info _ _ Hb _ _ a Hl) as (x' & Hx' & Hsx'); [apply elem_of_app; by left|].
    simplify_eq. lia.
Qed.

(** Freeing what is queued nowhere. *)
Lemma boxes_free B I a : boxes_ok B I -> (forall q, ~ queued_at B a q) -> boxes_ok B (delete a I).
Proof.
  intros H Ha. split; [|apply (bs_uniq _ _ H)|].
  - intros p b Hb. destruct (bs_ok _ _ H _ _ Hb) as [L S Bt If Nd]. split; [done..| |done].
    intros i l a' Hl Ha'. rewrite lookup_delete_ne; [eauto|]. intros ->. apply (Ha p). by exists b, i, l.
  - rewrite lookup_delete_None. right. apply (bs_null _ _ H).
Qed.
Lemma boxes_free_all B I l : boxes_ok B I -> (forall a q, a ∈ l -> ~ queued_at B a q) -> boxes_ok B (foldr delete I l).
Proof.
  induction l as [|a l IH]; intros H Hl; [done|]. simpl. apply boxes_free; [apply IH; [done|]|].
  - intros a' q Ha'. apply Hl. by right.
  - intros q. apply Hl. by left.
Qed.

(** ** Boxes of the world *)
Definition box_of (w : sigworld) : boxes := fun p =>
  match p with
  | QThread t => x ← sw_thr w !! t; Some (t_sigpending x, t_sigqueue x)
  | QProcess => Some (sig_pending (sw_desc w), sig_queue (sw_desc w))
  end.
Definition set_box (p : qplace) (b : box) (w : sigworld) : sigworld :=
  match p with
  | QThread t =>
      match sw_thr w !! t with
      | Some x => set_th t (th_set_pending b.1 (th_set_queue b.2 x)) w
      | None => w
      end
  | QProcess => set_desc (d_set_pending b.1 (d_set_queue b.2 (sw_desc w))) w
  end.

Lemma set_th_twice t x y w : set_th t x (set_th t y w) = set_th t x w.
Proof. unfold set_th. simpl. by rewrite insert_insert_eq. Qed.
Lemma set_th_id t x w : sw_thr w !! t = Some x -> set_th t x w = w.
Proof. intros. destruct w. unfold set_th. simpl in *. by rewrite insert_id. Qed.
Lemma th_box_id x : th_set_pending (t_sigpending x) (th_set_queue (t_sigqueue x) x) = x.
Proof. by destruct x. Qed.

Lemma box_set_box w p b b0 : box_of w p = Some b0 -> forall q, box_of (set_box p b w) q = upd_box (box_of w) p b q.
Proof.
  intros Hp q. destruct b as [pd qs]. destruct p as [t|]; simpl in *.
  - destruct (sw_thr w !! t) as [x|] eqn:E; [|done]. destruct q as [u|]; simpl.
    + unfold upd_box. destruct (decide (QThread u = QThread t)) as [Heq|Hne].
      * injection Heq as ->. by rewrite lookup_insert_eq.
      * rewrite lookup_insert_ne by congruence. done.
    + by rewrite upd_box_ne.
  - destruct q; simpl; [by rewrite upd_box_ne|]. by rewrite upd_box_eq.
Qed.
Lemma set_box_twice w p b c : set_box p b (set_box p c w) = set_box p b w.
Proof.
  destruct p as [t|]; simpl; [|done]. destruct (sw_thr w !! t) as [x|] eqn:E; simpl.
  - rewrite lookup_insert_eq, set_th_twice. done.
  - by rewrite E.
Qed.
Lemma set_box_id w p b : box_of w p = Some b -> set_box p b w = w.
Proof.
  destruct p as [t|]; simpl.
  - destruct (sw_thr w !! t) as [x|] eqn:E; [|done]. intros [= <-]. simpl. rewrite th_box_id. by apply set_th_id.
  - intros [= <-]. simpl. unfold set_desc. by destruct w as [? ? ? ? ? ? [] ? ? ?].
Qed.

(** ** What an operation on boxes leaves alone *)
Definition th_rest (x : sigthread) : sigthread := th_set_pending 0 (th_set_queue [] x).
Definition d_rest (d : signal_t) : signal_t := d_set_pending 0 (d_set_queue [] d).
Record sig_frame (w w' : sigworld) : Prop := {
  fr_who : sw_who w' = sw_who w; fr_cur : sw_cur w' = sw_cur w; fr_pid : sw_pid w' = sw_pid w;
  fr_group : sw_group w' = sw_group w; fr_glock : sw_glock w' = sw_glock w;
  fr_thr : forall t, th_rest <$> sw_thr w' !! t = th_rest <$> sw_thr w !! t;
  fr_desc : d_rest (sw_desc w') = d_rest (sw_desc w)
}.
#[export] Instance sig_frame_preorder : PreOrder sig_frame.
Proof.
  split; [done|]. intros w1 w2 w3 [] []. split; [congruence..|intros t|congruence].
  etrans; [apply fr_thr1|apply fr_thr0].
Qed.
Lemma frame_tick w : sig_frame w (next_tick w).
Proof. done. Qed.
Lemma frame_info w i : sig_frame w (set_info i w).
Proof. done. Qed.
Lemma frame_sched w s : sig_frame w (set_sched s w).
Proof. done. Qed.
Lemma frame_box w p b : sig_frame w (set_box p b w).
Proof.
  destruct p as [t|]; [|done]. simpl. destruct (sw_thr w !! t) as [x|] eqn:E; [|done].
  split; [done..| |done]. intros u. simpl. destruct (decide (u = t)) as [->|].
  - rewrite lookup_insert_eq, E. done.
  - by rewrite lookup_insert_ne.
Qed.
#[export] Hint Resolve frame_tick frame_info frame_sched frame_box : kernel.

(** A member a frame keeps, read from a thread. *)
Lemma frame_th {A} (f : sigthread -> A) w w' t x :
  (forall y z, th_rest y = th_rest z -> f y = f z) ->
  sig_frame w w' -> sw_thr w !! t = Some x -> exists x', sw_thr w' !! t = Some x' /\ f x' = f x.
Proof.
  intros Hf H Hx. pose proof (fr_thr _ _ H t) as Ht. rewrite Hx in Ht.
  destruct (sw_thr w' !! t) as [x'|]; [|done]. exists x'. split; [done|]. simpl in Ht. apply Hf. congruence.
Qed.
Lemma rest_lock y z : th_rest y = th_rest z -> th_lock y = th_lock z.
Proof. unfold th_rest, th_set_pending, th_set_queue. simpl. intros Heq. by injection Heq. Qed.
Lemma rest_mask y z : th_rest y = th_rest z -> t_sigmask y = t_sigmask z.
Proof. unfold th_rest, th_set_pending, th_set_queue. simpl. intros Heq. by injection Heq. Qed.

(** ** Locks *)
Definition holds_th (w : sigworld) (t : tid) : Prop :=
  exists x, sw_thr w !! t = Some x /\ holding (sw_who w) (th_lock x) = true.
Definition holds_sig (w : sigworld) : Prop := holding (sw_who w) (sig_lock (sw_desc w)) = true.
Lemma holds_th_frame w w' t : sig_frame w w' -> holds_th w t -> holds_th w' t.
Proof.
  intros H (x & Hx & Hl). destruct (frame_th th_lock _ _ _ _ rest_lock H Hx) as (x' & Hx' & He).
  exists x'. split; [done|]. by rewrite (fr_who _ _ H), He.
Qed.
Lemma holds_sig_frame w w' : sig_frame w w' -> holds_sig w -> holds_sig w'.
Proof.
  intros H. unfold holds_sig. rewrite (fr_who _ _ H). pose proof (fr_desc _ _ H) as Hd.
  unfold d_rest in Hd. simpl in Hd. by injection Hd as _ _ ->.
Qed.
#[export] Hint Resolve holds_th_frame holds_sig_frame : kernel.

(** ** Equations of the primitives *)

(** Decide the tests of error codes that are known. *)
Ltac err_if :=
  cbn [fst snd];
  repeat match goal with
  | |- context [negb (?a =? 0)] =>
      let v := eval vm_compute in (negb (a =? 0)) in
      match v with true => idtac | false => idtac end;
      change (negb (a =? 0)) with v
  end; cbv iota.
Ltac sg_step H := erewrite M_bind_done by (eapply H; eauto with kernel).

Lemma thread_assert_locked_eq w t : holds_th w t -> thread_assert_locked t w = Done tt w.
Proof. intros (x & Hx & Hl). unfold thread_assert_locked, the_th, M_bind. rewrite Hx, Hl. done. Qed.
Lemma signal_assert_locked_eq w : holds_sig w -> signal_assert_locked w = Done tt w.
Proof. unfold holds_sig, signal_assert_locked. by intros ->. Qed.
Lemma thread_lock_eq w t x : sw_thr w !! t = Some x -> lk_free (th_lock x) ->
  thread_lock t w = Done tt (set_th t (th_set_lock (lk_held (sw_who w) (th_lock x)) x) w).
Proof.
  intros Hx Hf. unfold thread_lock, the_th, M_bind, on_lock, upd_th, the_th. rewrite Hx, lk_acquire_free by done.
  unfold M_bind. by rewrite Hx.
Qed.
Lemma thread_unlock_eq w t x lk : sw_thr w !! t = Some x -> th_lock x = lk_held (sw_who w) lk -> lk_free lk ->
  thread_unlock t w = Done tt (set_th t (th_set_lock lk x) w).
Proof.
  intros Hx Hl Hf. unfold thread_unlock, the_th, M_bind, on_lock, upd_th, the_th. rewrite Hx, Hl, lk_release_held by done.
  unfold M_bind. by rewrite Hx.
Qed.
Lemma signal_lock_eq w : lk_free (sig_lock (sw_desc w)) ->
  signal_lock w = Done tt (set_desc (d_set_lock (lk_held (sw_who w) (sig_lock (sw_desc w))) (sw_desc w)) w).
Proof. intros Hf. unfold signal_lock, on_lock. by rewrite lk_acquire_free. Qed.
Lemma signal_unlock_eq w lk : sig_lock (sw_desc w) = lk_held (sw_who w) lk -> lk_free lk ->
  signal_unlock w = Done tt (set_desc (d_set_lock lk (sw_desc w)) w).
Proof. intros Hl Hf. unfold signal_unlock, on_lock. by rewrite Hl, lk_release_held. Qed.

Lemma the_desc_eq w : the_desc w = Done (sw_desc w) w.
Proof. done. Qed.
Lemma the_th_eq w t x : sw_thr w !! t = Some x -> the_th t w = Done x w.
Proof. unfold the_th. by intros ->. Qed.
Lemma queues_at_eq w p pd qs : box_of w p = Some (pd, qs) -> queues_at p w = Done qs w.
Proof.
  destruct p as [t|]; simpl; unfold the_th, M_bind; [|by intros [= <- <-]].
  destruct (sw_thr w !! t); [|done]. by intros [= <- <-].
Qed.
Lemma put_queues_eq w p pd qs qs' : box_of w p = Some (pd, qs) -> put_queues p qs' w = Done tt (set_box p (pd, qs') w).
Proof.
  destruct p as [t|]; simpl; unfold upd_th, the_th, M_bind, upd_desc.
  - destruct (sw_thr w !! t) as [x|]; [|done]. intros [= <- <-]. simpl. by destruct x.
  - intros [= <- <-]. simpl. by destruct (sw_desc w).
Qed.
Lemma the_queue_eq w p pd qs i l : box_of w p = Some (pd, qs) -> qs !! i = Some l ->
  the_queue p (Z.of_nat i) w = Done l w.
Proof.
  intros Hb Hl. unfold the_queue. sg_step queues_at_eq. rewrite (proj2 (Z.ltb_ge _ _)) by lia.
  by rewrite Nat2Z.id, Hl.
Qed.
Lemma put_queue_eq w p pd qs i l : box_of w p = Some (pd, qs) ->
  put_queue p (Z.of_nat i) l w = Done tt (set_box p (pd, <[i := l]> qs) w).
Proof. intros Hb. unfold put_queue. sg_step queues_at_eq. rewrite Nat2Z.id. by eapply put_queues_eq. Qed.
Lemma pending_at_eq w p pd qs : box_of w p = Some (pd, qs) -> pending_at p w = Done pd w.
Proof.
  destruct p as [t|]; simpl; unfold the_th, M_bind; [|by intros [= <- <-]].
  destruct (sw_thr w !! t); [|done]. by intros [= <- <-].
Qed.
Lemma put_pending_eq w p pd qs pd' : box_of w p = Some (pd, qs) -> put_pending p pd' w = Done tt (set_box p (pd', qs) w).
Proof.
  destruct p as [t|]; simpl; unfold upd_th, the_th, M_bind, upd_desc.
  - destruct (sw_thr w !! t) as [x|]; [|done]. intros [= <- <-]. simpl. by destruct x.
  - intros [= <- <-]. simpl. by destruct (sw_desc w).
Qed.
Lemma box_of_set w p b b0 : box_of w p = Some b0 -> box_of (set_box p b w) p = Some b.
Proof. intros Hb. erewrite box_set_box by done. apply upd_box_eq. Qed.
Lemma siginfo_free_eq w a x : a <> 0 -> sw_info w !! a = Some x ->
  siginfo_free a w = Done tt (set_info (delete a (sw_info w)) w).
Proof. intros Ha Hx. unfold siginfo_free. rewrite (proj2 (Z.eqb_neq _ _)) by done. by rewrite Hx. Qed.
Lemma the_info_eq w a x : sw_info w !! a = Some x -> the_info a w = Done x w.
Proof. unfold the_info. by intros ->. Qed.

(** ** The scheduler's side of a wakeup *)

(** A sleeping thread is in the wait queue it is said to be in. *)
Definition sched_ok (s : @sys unit) : Prop :=
  sy_panic s = false /\
  forall t th q, sy_threads s !! t = Some th -> t_asleep th = true -> t_wait_queue th = Some q -> t ∈ queue_of s q.
Definition awake (s : @sys unit) (t : tid) : Prop := exists th, sy_threads s !! t = Some th /\ t_asleep th = false.

Lemma queue_of_set s q l q' : queue_of (with_queue q l s) q' = if decide (q' = q) then l else @queue_of unit s q'.
Proof.
  unfold queue_of, with_queue. simpl. case_decide; subst; [by rewrite lookup_insert_eq|by rewrite lookup_insert_ne].
Qed.

Lemma wakeup_ok s t : sched_ok s -> is_Some (sy_threads s !! t) ->
  exists s', thread_wakeup t WAKEUP_SIGNAL s = (0, s') /\ sched_ok s' /\ awake s' t /\
    dom (sy_threads s') = dom (sy_threads s).
Proof.
  intros [Hp Hs] [th Hth]. unfold thread_wakeup. rewrite Hth. simpl.
  destruct (t_asleep th) eqn:Ea; simpl; [|exists s; split_and!; [done|by split|by exists th|done]].
  assert (forall x, t_asleep x = false -> dom (<[t := x]> (sy_threads s)) = dom (sy_threads s)) as Hd.
  { intros x _. rewrite dom_insert_L. apply elem_of_dom_2 in Hth. set_solver. }
  destruct (t_wait_queue th) as [q|] eqn:Eq.
  - unfold sched_detach_and_wakeup. rewrite decide_True by (by apply (Hs t th)).
    unfold sched_wake_thread. cbn [sy_threads with_queue]. rewrite Hth. simpl. rewrite Ea. simpl.
    unfold clear_wait_queue. simpl. rewrite lookup_insert_eq. eexists. split; [done|]. split_and!.
    + split; [done|]. intros u x q' Hu Hx Hq'. simpl in Hu. rewrite insert_insert_eq in Hu.
      destruct (decide (u = t)) as [->|Hne]; [rewrite lookup_insert_eq in Hu; by simplify_eq|].
      rewrite lookup_insert_ne in Hu by done. pose proof (Hs _ _ _ Hu Hx Hq') as Hin.
      change (u ∈ queue_of (with_queue q (filter (fun u => u <> t) (queue_of s q)) s) q').
      rewrite queue_of_set. case_decide; subst; [|done]. by apply list_elem_of_filter.
    + eexists. simpl. rewrite lookup_insert_eq. done.
    + simpl. rewrite insert_insert_eq. by apply Hd.
  - unfold sched_wake_thread. rewrite Hth. simpl. rewrite Ea. simpl. eexists. split; [done|]. split_and!.
    + split; [done|]. intros u x q' Hu Hx Hq'. simpl in Hu.
      destruct (decide (u = t)) as [->|Hne]; [rewrite lookup_insert_eq in Hu; by simplify_eq|].
      rewrite lookup_insert_ne in Hu by done. by apply (Hs _ _ _ Hu Hx Hq').
    + eexists. simpl. rewrite lookup_insert_eq. done.
    + by apply Hd.
Qed.

(** ** Sending *)
Section SendFacts.
Context {KA : KAlloc}.

Lemma sigqueue_enqueue_spec w p pd qs i l a :
  box_of w p = Some (pd, qs) -> qs !! i = Some l -> a <> 0 -> a ∉ l ->
  sigqueue_enqueue p (Z.of_nat i) a w = Done (- ENOMEM) (next_tick w) \/
  sigqueue_enqueue p (Z.of_nat i) a w = Done 0 (set_box p (pd, <[i := l ++ [a]]> qs) (next_tick w)).
Proof.
  intros Hb Hl Ha Hnin. unfold sigqueue_enqueue. rewrite (proj2 (Z.eqb_neq _ _)) by done.
  sg_step the_queue_eq. unfold q_step, q_oom. rewrite (mem_false _ _ Hnin). simpl.
  assert (exists oom, node_oom w = Done oom (next_tick w)) as [oom E] by (unfold node_oom; eauto).
  rewrite (M_bind_done _ _ _ _ _ E). destruct oom; [by left|right].
  sg_step (put_queue_eq (next_tick w)). done.
Qed.

Lemma siginfo_alloc_spec w :
  siginfo_alloc w = Done (- ENOMEM, 0) (next_tick w) \/
  exists a, sw_info w !! a = None /\ a <> 0 /\
    siginfo_alloc w = Done (0, a) (set_info (<[a := SIGINFO_ZERO]> (sw_info w)) (next_tick w)).
Proof.
  unfold siginfo_alloc. destruct (ka_pick (sw_tick w) (dom (sw_info w))) as [a|] eqn:E; [right|by left].
  apply ka_fresh in E as [Hf Hr]. apply not_elem_of_dom in Hf. exists a. split_and!; [done|lia|done].
Qed.

Lemma siginfo_create_spec w n v : sw_info w !! 0 = None -> good_signo n ->
  siginfo_create n v w = Done (- ENOMEM, 0) (next_tick w) \/
  exists a, sw_info w !! a = None /\ a <> 0 /\
    siginfo_create n v w = Done (0, a) (set_info (<[a := mkSiginfo n 0 (sw_pid w) 0 0 0 v]> (sw_info w)) (next_tick w)).
Proof.
  intros H0 Hn. unfold siginfo_create.
  destruct (siginfo_alloc_spec w) as [E|(a & Hf & Ha & E)]; rewrite (M_bind_done _ _ _ _ _ E); [by left|right].
  exists a. split_and!; [done..|]. simpl.
  unfold siginfo_init. rewrite SIGBAD_good, (proj2 (Z.eqb_neq a 0)) by done. simpl.
  unfold M_bind, the_info. simpl. rewrite lookup_insert_eq. simpl. unfold M_ret, set_info. simpl. by rewrite insert_insert_eq.
Qed.

(** Either memory is exhausted and nothing is queued, or one entry is. *)
Definition sent (p : qplace) (n v : Z) (w : sigworld) (r : Z) (w' : sigworld) : Prop :=
  sig_frame w w' /\
  ((r = - ENOMEM /\ (forall q, box_of w' q = box_of w q) /\ sw_info w' = sw_info w /\ sw_sched w' = sw_sched w) \/
   (exists pd qs l a, r = 0 /\ box_of w p = Some (pd, qs) /\ qs !! Z.to_nat (n - 1) = Some l /\
      sw_info w !! a = None /\ a <> 0 /\
      (forall q, box_of w' q = upd_box (box_of w) p (Z.lor pd (SIG_BIT n), <[Z.to_nat (n - 1) := l ++ [a]]> qs) q) /\
      sw_info w' = <[a := mkSiginfo n 0 (sw_pid w) 0 0 0 v]> (sw_info w))).

Lemma fresh_not_queued B I p pd qs i l a : boxes_ok B I -> B p = Some (pd, qs) -> qs !! i = Some l -> I !! a = None -> a ∉ l.
Proof.
  intros H Hp Hl Ha Hin. destruct (box_live B I a p H) as [x Hx]; [by exists (pd, qs), i, l|congruence].
Qed.

Lemma thread_send_siginfo_spec w t pd qs i l a x s' :
  holds_th w t -> box_of w (QThread t) = Some (pd, qs) -> qs !! i = Some l -> a <> 0 -> a ∉ l ->
  sw_info w !! a = Some x -> si_signo x = Z.of_nat i + 1 -> good_signo (Z.of_nat i + 1) ->
  thread_wakeup t WAKEUP_SIGNAL (sw_sched w) = (0, s') -> sched_ok s' ->
  thread_send_siginfo t a w = Done (- ENOMEM) (next_tick w) \/
  thread_send_siginfo t a w =
    Done 0 (set_sched s' (set_box (QThread t) (Z.lor pd (SIG_BIT (Z.of_nat i + 1)), <[i := l ++ [a]]> qs) (next_tick w))).
Proof.
  intros Hlk Hb Hl Ha Hal Hx Hsx Hg Hwk [Hpan _]. unfold thread_send_siginfo. rewrite (proj2 (Z.eqb_neq a 0)) by done.
  sg_step thread_assert_locked_eq. sg_step the_info_eq. rewrite Hsx.
  replace (Z.of_nat i + 1 - 1) with (Z.of_nat i) by lia.
  destruct (sigqueue_enqueue_spec w (QThread t) _ _ _ _ a Hb Hl Ha Hal) as [E|E]; rewrite (M_bind_done _ _ _ _ _ E);
    [by left|right].
  set (w2 := set_box (QThread t) _ _). err_if.
  assert (sw_sched w2 = sw_sched w) as Hs2 by (subst w2; simpl; by case_match).
  rewrite (M_bind_done _ _ _ 0 (set_sched s' w2)) by (rewrite Hs2, Hwk; simpl; by rewrite Hpan). err_if.
  assert (box_of w2 (QThread t) = Some (pd, <[i := l ++ [a]]> qs)) as Hb2 by (eapply (box_of_set (next_tick w)); exact Hb).
  destruct (sw_thr w2 !! t) as [y|] eqn:Hy; [|by simpl in Hb2; rewrite Hy in Hb2].
  rewrite (M_bind_done _ _ _ y (set_sched s' w2)) by (unfold the_th; simpl; by rewrite Hy).
  simpl in Hb2. rewrite Hy in Hb2. injection Hb2 as Hy1 Hy2. rewrite sigsetadd_eq by done. cbn [fst snd].
  unfold upd_th, the_th, M_bind, M_ret. simpl. rewrite Hy, Hy1. f_equal.
  subst w2. simpl in *. destruct (sw_thr w !! t) as [z|]; [|done]. unfold set_th, set_sched. simpl in *.
  rewrite lookup_insert_eq in Hy. injection Hy as <-. by rewrite insert_insert_eq.
Qed.

Lemma thread_send_signal_spec w t n v :
  boxes_ok (box_of w) (sw_info w) -> holds_th w t -> good_signo n -> sched_ok (sw_sched w) -> is_Some (sy_threads (sw_sched w) !! t) ->
  exists r w', thread_send_signal t n v w = Done r w' /\ sent (QThread t) n v w r w' /\ sched_ok (sw_sched w') /\
    dom (sy_threads (sw_sched w')) = dom (sy_threads (sw_sched w)) /\ (r = 0 -> awake (sw_sched w') t).
Proof.
  intros Hbx Hlk Hn Hs Ht. destruct (id Hlk) as (x & Hx & _).
  pose proof Hn as [Hn1 Hn2]. assert (exists i, n = Z.of_nat i + 1) as [i ->] by (exists (Z.to_nat (n - 1)); lia).
  assert (box_of w (QThread t) = Some (t_sigpending x, t_sigqueue x)) as Hb by (simpl; by rewrite Hx).
  destruct (box_queue _ _ _ (bs_ok _ _ Hbx _ _ Hb) Hn) as [l Hl].
  destruct (wakeup_ok (sw_sched w) t Hs Ht) as (s' & Hwk & Hs' & Haw & Hd).
  unfold thread_send_signal, sent. rewrite SIGBAD_good by done. sg_step thread_assert_locked_eq.
  replace (Z.to_nat (Z.of_nat i + 1 - 1)) with i in * by lia. cbn [snd] in Hl.
  destruct (siginfo_create_spec w (Z.of_nat i + 1) v (bs_null _ _ Hbx) Hn) as [E|(a & Ha & Ha0 & E)];
    rewrite (M_bind_done _ _ _ _ _ E); err_if.
  { eexists _, _. split; [done|]. split_and!; [done|by left|done..]. }
  cbn [snd]. set (w1 := set_info _ _).
  assert (sw_info w1 !! a = Some (mkSiginfo (Z.of_nat i + 1) 0 (sw_pid w) 0 0 0 v)) as Hia
    by (subst w1; simpl; apply lookup_insert_eq).
  assert (a ∉ l) as Hal by (by eapply fresh_not_queued).
  destruct (thread_send_siginfo_spec w1 t _ _ i l a _ s' Hlk Hb Hl Ha0 Hal Hia eq_refl Hn Hwk Hs') as [E1|E1];
    rewrite (M_bind_done _ _ _ _ _ E1); err_if.
  - rewrite (M_bind_done _ _ _ _ _ (siginfo_free_eq (next_tick w1) _ _ Ha0 Hia)).
    eexists _, _. split; [done|]. split_and!; [done| |done..]. left. split_and!; [done..| |done].
    subst w1. simpl. by rewrite delete_insert_id.
  - eexists _, _. split; [done|]. split_and!; [etrans; [|apply frame_sched]; etrans; [|apply frame_box]; done| |done..].
    right. eexists _, _, l, a. split_and!; [done..| |subst w1; simpl; by rewrite Hx].
    intros q. change (box_of (set_sched s' ?z) q) with (box_of z q). by erewrite (box_set_box (next_tick w1)).
Qed.

Lemma upd_pending_eq w pd qs f : box_of w QProcess = Some (pd, qs) ->
  upd_desc (fun d => d_set_pending (f (sig_pending d)) d) w = Done tt (set_box QProcess (f pd, qs) w).
Proof. intros [= <- <-]. unfold upd_desc. simpl. by destruct (sw_desc w). Qed.

Lemma signal_enqueue_spec w pd qs i l a x :
  box_ok (sw_info w) (pd, qs) -> holds_sig w -> box_of w QProcess = Some (pd, qs) -> qs !! i = Some l -> a <> 0 -> a ∉ l ->
  sw_info w !! a = Some x -> si_signo x = Z.of_nat i + 1 -> good_signo (Z.of_nat i + 1) ->
  signal_enqueue a w = Done (- ENOMEM) (next_tick w) \/
  signal_enqueue a w = Done 0 (set_box QProcess (Z.lor pd (SIG_BIT (Z.of_nat i + 1)), <[i := l ++ [a]]> qs) (next_tick w)).
Proof.
  intros Hok Hlk Hb Hl Ha Hal Hx Hsx Hg. unfold signal_enqueue. rewrite (proj2 (Z.eqb_neq a 0)) by done.
  sg_step the_info_eq. rewrite Hsx, SIGBAD_good by done. sg_step signal_assert_locked_eq.
  rewrite (M_bind_done _ _ _ _ _ (the_desc_eq w)). rewrite sigsetadd_eq by done. err_if.
  assert (sig_pending (sw_desc w) = pd) as -> by (by injection Hb).
  change (upd_desc (d_set_pending ?s)) with (put_pending QProcess s).
  rewrite (M_bind_done _ _ _ _ _ (put_pending_eq w QProcess _ _ _ Hb)). replace (Z.of_nat i + 1 - 1) with (Z.of_nat i) by lia.
  set (w1 := set_box QProcess _ w).
  assert (box_of w1 QProcess = Some (Z.lor pd (SIG_BIT (Z.of_nat i + 1)), qs)) as Hb1 by (by eapply box_of_set).
  destruct (sigqueue_enqueue_spec w1 QProcess _ _ _ _ a Hb1 Hl Ha Hal) as [E|E]; rewrite (M_bind_done _ _ _ _ _ E).
  - left. rewrite (M_bind_done _ _ _ _ _ (the_queue_eq (next_tick w1) QProcess _ _ _ _ Hb1 Hl)). err_if.
    rewrite andb_true_l. pose proof (bx_bit _ _ Hok _ _ Hl) as Hbit. cbn [fst] in Hbit.
    assert (set_box QProcess (pd, qs) (next_tick w1) = next_tick w) as Hback.
    { subst w1. change (next_tick (set_box QProcess ?b w)) with (set_box QProcess b (next_tick w)).
      rewrite set_box_twice. by apply set_box_id. }
    destruct l as [|y l]; cbn [length Z.of_nat Z.eqb M_when].
    + rewrite (M_bind_done _ _ _ _ _ (upd_pending_eq (next_tick w1) _ _ (fun p => (sigsetdel p (Z.of_nat i + 1)).2) Hb1)).
      rewrite sigsetdel_eq by done. unfold M_ret. cbn [snd]. f_equal. rewrite <- Hback. do 2 f_equal. apply is_set_ext.
      * apply is_set_land, is_set_lor; [apply (bx_set _ _ Hok)|by apply is_set_bit].
      * apply (bx_set _ _ Hok).
      * intros j Hj. rewrite del_bit, add_bit by (done || lia). destruct (bool_decide_reflect (j = Z.of_nat i + 1 - 1)) as [->|]; simpl.
        -- rewrite andb_false_r. replace (Z.of_nat i + 1 - 1) with (Z.of_nat i) by lia. by rewrite Hbit.
        -- by rewrite andb_true_r, orb_false_r.
    + unfold M_bind, M_ret. f_equal. rewrite <- Hback. symmetry. apply set_box_id.
      change (box_of w1 QProcess = Some (pd, qs)). rewrite Hb1. do 2 f_equal. apply is_set_ext.
      * apply is_set_lor; [apply (bx_set _ _ Hok)|by apply is_set_bit].
      * apply (bx_set _ _ Hok).
      * intros j Hj. rewrite add_bit by (done || lia). destruct (bool_decide_reflect (j = Z.of_nat i + 1 - 1)) as [->|]; [|apply orb_false_r].
        replace (Z.of_nat i + 1 - 1) with (Z.of_nat i) by lia. by rewrite Hbit.
  - right. set (w2 := set_box QProcess _ (next_tick w1)).
    assert (box_of w2 QProcess = Some (Z.lor pd (SIG_BIT (Z.of_nat i + 1)), <[i := l ++ [a]]> qs)) as Hb2
      by (eapply (box_of_set (next_tick w1)); exact Hb1).
    assert (<[i := l ++ [a]]> qs !! i = Some (l ++ [a])) as Hl2 by (apply list_lookup_insert_eq; by apply lookup_lt_Some in Hl).
    rewrite (M_bind_done _ _ _ _ _ (the_queue_eq w2 QProcess _ _ _ _ Hb2 Hl2)). err_if. done.
Qed.

Lemma signal_desc_send_signal_spec w n v :
  boxes_ok (box_of w) (sw_info w) -> holds_sig w -> good_signo n ->
  exists r w', signal_desc_send_signal n v w = Done r w' /\ sent QProcess n v w r w' /\ sw_sched w' = sw_sched w.
Proof.
  intros Hbx Hlk Hn. pose proof Hn as [Hn1 Hn2].
  assert (exists i, n = Z.of_nat i + 1) as [i ->] by (exists (Z.to_nat (n - 1)); lia).
  assert (box_of w QProcess = Some (sig_pending (sw_desc w), sig_queue (sw_desc w))) as Hb by done.
  pose proof (bs_ok _ _ Hbx _ _ Hb) as Hok. destruct (box_queue _ _ _ Hok Hn) as [l Hl].
  unfold signal_desc_send_signal, sent. rewrite SIGBAD_good by done. sg_step signal_assert_locked_eq.
  replace (Z.to_nat (Z.of_nat i + 1 - 1)) with i in * by lia. cbn [snd] in Hl.
  destruct (siginfo_create_spec w (Z.of_nat i + 1) v (bs_null _ _ Hbx) Hn) as [E|(a & Ha & Ha0 & E)];
    rewrite (M_bind_done _ _ _ _ _ E); err_if.
  { eexists _, _. split; [done|]. split_and!; [done|by left|done..]. }
  set (w1 := set_info _ _).
  assert (sw_info w1 !! a = Some (mkSiginfo (Z.of_nat i + 1) 0 (sw_pid w) 0 0 0 v)) as Hia
    by (subst w1; simpl; apply lookup_insert_eq).
  assert (a ∉ l) as Hal by (by eapply fresh_not_queued).
  assert (box_ok (sw_info w1) (sig_pending (sw_desc w), sig_queue (sw_desc w))) as Hok1.
  { destruct Hok as [L S Bt If Nd]. split; [done..| |done]. intros j m a' Hm Ha'. destruct (If j m a' Hm Ha') as (y & Hy & ?).
    exists y. split; [|done]. subst w1. simpl. rewrite lookup_insert_ne; [done|congruence]. }
  destruct (signal_enqueue_spec w1 _ _ i l a _ Hok1 Hlk Hb Hl Ha0 Hal Hia eq_refl Hn) as [E1|E1];
    rewrite (M_bind_done _ _ _ _ _ E1); err_if; cbn [M_when].
  - rewrite (M_bind_done _ _ _ _ _ (siginfo_free_eq (next_tick w1) _ _ Ha0 Hia)).
    eexists _, _. split; [done|]. split_and!; [done| |done]. left. split_and!; [done..| |done].
    subst w1. simpl. by rewrite delete_insert_id.
  - eexists _, _. split; [done|]. split_and!; [etrans; [|apply frame_box]; done| |done].
    right. eexists _, _, l, a. split_and!; [done..| |done].
    intros q. by erewrite (box_set_box (next_tick w1)).
Qed.
End SendFacts.
