(* ===== verification/SignalTake.v ===== *)
(** * Facts on taking and flushing signals

    The order in which [signal_dequeue] hands out what is pending, and what flushing
    leaves behind. *)
From S2P Require Import Prelude Errno Spinlock KMem Queue QueueSpec Wait Signal SignalFacts.

(** ** Delivery order *)

(** What a box holds that mask [m] lets through, signal number by signal number, each
    signal in the order it was sent. *)
Definition let_through (m : Z) (i : nat) (l : list Z) : list Z := if Z.testbit m (Z.of_nat i) then [] else l.
Definition waiting (b : box) (m : Z) : list Z := concat (imap (let_through m) b.2).

Lemma deliverable_bit pd m i : 0 <= i < 32 -> Z.testbit (deliverable pd m) i = Z.testbit pd i && negb (Z.testbit m i).
Proof. intros. unfold deliverable. by rewrite Z.land_spec, not32_spec. Qed.

Lemma concat_all_nil {A} (ls : list (list A)) : Forall (fun l => l = []) ls -> concat ls = [].
Proof. induction 1 as [|? ? -> ? IH]; [done|]. simpl. done. Qed.

(** Nothing below queue [k] gets through when no deliverable bit below [k] is set. *)
Lemma low_nil I pd qs m k : box_ok I (pd, qs) -> (k <= 32)%nat ->
  (forall i, 0 <= i < Z.of_nat k -> Z.testbit (deliverable pd m) i = false) ->
  concat (imap (let_through m) (take k qs)) = [].
Proof.
  intros Hb Hk Hlow. apply concat_all_nil, Forall_lookup. intros i l Hi.
  rewrite list_lookup_imap in Hi. destruct (take k qs !! i) as [l0|] eqn:E; [|done]. simpl in Hi. injection Hi as <-.
  apply lookup_take_Some in E as [E Hik]. unfold let_through.
  specialize (Hlow (Z.of_nat i) ltac:(lia)). rewrite deliverable_bit in Hlow by lia.
  pose proof (bx_bit _ _ Hb _ _ E) as Hbit. cbn [fst] in Hbit. rewrite Hbit in Hlow.
  destruct (Z.testbit m (Z.of_nat i)); [done|]. rewrite andb_true_r in Hlow.
  apply bool_decide_eq_false in Hlow. destruct l0; [done|]. by destruct Hlow.
Qed.

Lemma waiting_none I b m : box_ok I b -> sigset_first (deliverable b.1 m) = 0 -> waiting b m = [].
Proof.
  intros Hb H0. destruct b as [pd qs]. unfold waiting. cbn [snd fst] in *.
  assert (is_set (deliverable pd m)) as Hs by apply is_set_land, (bx_set _ _ Hb).
  pose proof (sigset_first_spec _ Hs) as Hf. rewrite H0 in Hf. inversion Hf as [Hn|n [? ?] Hn _]; [|lia].
  rewrite <- (take_ge qs 32) by (pose proof (bx_len _ _ Hb); simpl in *; lia).
  eapply low_nil; [done|lia|]. intros i Hi. apply Hn. lia.
Qed.

(** The next signal of a box, and the box without it. *)
Lemma waiting_next I b m n : box_ok I b -> sigset_first (deliverable b.1 m) = n -> n <> 0 ->
  good_signo n /\ Z.testbit m (n - 1) = false /\ exists a l, b.2 !! Z.to_nat (n - 1) = Some (a :: l) /\
    waiting b m = a :: waiting (del_if_empty b.1 (Z.to_nat (n - 1)) l, <[Z.to_nat (n - 1) := l]> b.2) m.
Proof.
  intros Hb Hn0 Hne. destruct b as [pd qs]. cbn [fst snd] in *.
  assert (is_set (deliverable pd m)) as Hs by apply is_set_land, (bx_set _ _ Hb).
  pose proof (sigset_first_spec _ Hs) as Hf. rewrite Hn0 in Hf. destruct Hf as [|n Hg Hbit Hlow]; [done|].
  split; [done|]. pose proof Hg as [? ?]. rewrite deliverable_bit in Hbit by lia.
  apply andb_true_iff in Hbit as [Hpd Hm]. apply negb_true_iff in Hm. split; [done|].
  destruct (box_queue _ _ _ Hb Hg) as [q Hq]. cbn [snd] in Hq.
  pose proof (bx_bit _ _ Hb _ _ Hq) as Hqb. cbn [fst] in Hqb. rewrite Z2Nat.id in Hqb by lia. rewrite Hpd in Hqb.
  symmetry in Hqb. apply bool_decide_eq_true in Hqb. destruct q as [|a l]; [done|]. exists a, l. split; [done|].
  set (k := Z.to_nat (n - 1)) in *. unfold waiting. cbn [snd].
  assert (length (take k qs) = k) as Hlen by (apply length_take_le; apply lookup_lt_Some in Hq; lia).
  rewrite <- (take_drop_middle qs k (a :: l) Hq) at 1.
  rewrite (insert_take_drop qs) by (by apply lookup_lt_Some in Hq).
  rewrite !imap_app, !concat_app, (low_nil I pd) by (done || lia || (intros; apply Hlow; lia)). simpl.
  rewrite Hlen, Nat.add_0_r. unfold let_through at 1 3. subst k. rewrite Z2Nat.id by lia. by rewrite Hm.
Qed.

(** ** Taking *)
Lemma take_one w t proc x p pd qs :
  p = (if (proc : bool) then QProcess else QThread t) ->
  sw_thr w !! t = Some x -> mask_ok (t_sigmask x) -> length (sig_action (sw_desc w)) = 32%nat ->
  box_of w p = Some (pd, qs) -> box_ok (sw_info w) (pd, qs) ->
  (waiting (pd, qs) (t_sigmask x) = [] /\ try_dequeue_signal t proc w = Done (- ENOENT, None) w) \/
  exists i a l act, good_signo (Z.of_nat i + 1) /\ Z.testbit (t_sigmask x) (Z.of_nat i) = false /\ qs !! i = Some (a :: l) /\
    sig_action (sw_desc w) !! i = Some act /\
    waiting (pd, qs) (t_sigmask x) = a :: waiting (del_if_empty pd i l, <[i := l]> qs) (t_sigmask x) /\
    try_dequeue_signal t proc w = Done (0, Some (a, act)) (set_box p (del_if_empty pd i l, <[i := l]> qs) w).
Proof.
  intros Hp Hx Hm Hact Hb Hok. unfold try_dequeue_signal. rewrite <- Hp.
  rewrite (M_bind_done _ _ _ _ _ (pending_at_eq _ _ _ _ Hb)), (M_bind_done _ _ _ _ _ (the_th_eq _ _ _ Hx)).
  cbn [copy_sigmask do_sigmask]. change (copy_sigmask sigsetempty pd).2 with pd. rewrite sigmask_unblock by done. cbn [snd].
  destruct (Z.eqb_spec (sigset_first (deliverable pd (t_sigmask x))) 0) as [E|E].
  { left. split; [by apply (waiting_none (sw_info w))|done]. }
  right. destruct (waiting_next _ _ _ _ Hok eq_refl E) as (Hg & Hmb & a & l & Hq & Hw). cbn [fst snd] in *.
  set (n := sigset_first _) in *. pose proof Hg as [? ?].
  assert (exists i, n = Z.of_nat i + 1) as [i Hi] by (exists (Z.to_nat (n - 1)); lia). clearbody n. subst n.
  replace (Z.of_nat i + 1 - 1) with (Z.of_nat i) in * by lia. rewrite Nat2Z.id in *.
  destruct (lookup_lt_is_Some_2 (sig_action (sw_desc w)) i ltac:(lia)) as [act Ha].
  exists i, a, l, act. split_and!; [done..|]. unfold sigqueue_dequeue. rewrite M_bind_assoc.
  rewrite (M_bind_done _ _ _ _ _ (the_queue_eq _ _ _ _ _ _ Hb Hq)). cbn [q_step fst snd]. rewrite M_bind_assoc.
  rewrite (M_bind_done _ _ _ _ _ (put_queue_eq _ _ _ _ _ _ Hb)). unfold M_bind at 1, M_ret at 1.
  set (w1 := set_box p _ w).
  assert (box_of w1 p = Some (pd, <[i := l]> qs)) as Hb1 by (by eapply box_of_set).
  assert (<[i := l]> qs !! i = Some l) as Hl1 by (apply list_lookup_insert_eq; by apply lookup_lt_Some in Hq).
  rewrite (M_bind_done _ _ _ _ _ (the_queue_eq _ _ _ _ _ _ Hb1 Hl1)).
  assert (exists w2, M_when (Z.of_nat (length l) =? 0)
            (let! src := pending_at p in put_pending p (sigsetdel src (Z.of_nat i + 1)).2) w1 = Done tt w2 /\
          w2 = set_box p (del_if_empty pd i l, <[i := l]> qs) w) as (w2 & E2 & ->).
  { eexists. split; [|done]. unfold del_if_empty, M_when. destruct (Z.of_nat (length l) =? 0); [|done].
    rewrite (M_bind_done _ _ _ _ _ (pending_at_eq _ _ _ _ Hb1)), (put_pending_eq _ _ _ _ _ Hb1). subst w1. by rewrite set_box_twice. }
  rewrite (M_bind_done _ _ _ _ _ E2). unfold the_action. rewrite M_bind_assoc, (M_bind_done _ _ _ _ _ (the_desc_eq _)).
  rewrite (proj2 (Z.ltb_ge _ _)), Nat2Z.id by lia.
  assert (sig_action (sw_desc (set_box p (del_if_empty pd i l, <[i:=l]> qs) w)) = sig_action (sw_desc w)) as ->
    by (destruct p; simpl; by repeat case_match).
  by rewrite Ha.
Qed.

Definition waits_at (w : sigworld) (p : qplace) (m : Z) : list Z :=
  match box_of w p with Some b => waiting b m | None => [] end.

(** What [signal_dequeue] of thread [t] with mask [m] does: nothing gets through, or
    the first of the thread's box is taken, or, if there is none, of the process's. *)
Inductive took (w : sigworld) (t : tid) (m : Z) : Z * option (Z * sigaction_t * signal_target_t) -> sigworld -> Prop :=
  | took_none : waits_at w (QThread t) m = [] -> waits_at w QProcess m = [] -> took w t m (- ENOENT, None) w
  | took_some p tg pd qs i a l act :
      p = QThread t /\ tg = signalTargetThread \/ p = QProcess /\ tg = signalTargetProcess /\ waits_at w (QThread t) m = [] ->
      box_of w p = Some (pd, qs) -> good_signo (Z.of_nat i + 1) -> Z.testbit m (Z.of_nat i) = false ->
      qs !! i = Some (a :: l) -> sig_action (sw_desc w) !! i = Some act ->
      waiting (pd, qs) m = a :: waiting (del_if_empty pd i l, <[i := l]> qs) m ->
      took w t m (0, Some (a, act, tg)) (set_box p (del_if_empty pd i l, <[i := l]> qs) w).

Definition lock_sig (w : sigworld) : sigworld := set_desc (d_set_lock (lk_held (sw_who w) (sig_lock (sw_desc w))) (sw_desc w)) w.
Lemma unlock_box w p b : lk_free (sig_lock (sw_desc w)) -> signal_unlock (set_box p b (lock_sig w)) = Done tt (set_box p b w).
Proof.
  intros Hf.
  assert (sw_who (set_box p b (lock_sig w)) = sw_who w) as Hw by (destruct p; simpl; by repeat case_match).
  rewrite (signal_unlock_eq _ (sig_lock (sw_desc w))); [|rewrite Hw; destruct p; simpl; by repeat case_match|done].
  f_equal. unfold lock_sig. destruct w as [? ? ? ? ? ? [] ? ? ?], p; simpl; [|done]. by repeat case_match.
Qed.
Lemma unlock_same w : lk_free (sig_lock (sw_desc w)) -> signal_unlock (lock_sig w) = Done tt w.
Proof.
  intros Hf. rewrite (signal_unlock_eq _ (sig_lock (sw_desc w))) by done.
  f_equal. by destruct w as [? ? ? ? ? ? [] ? ? ?].
Qed.

Lemma signal_dequeue_spec w t x :
  boxes_ok (box_of w) (sw_info w) -> holds_th w t -> sw_thr w !! t = Some x -> mask_ok (t_sigmask x) ->
  length (sig_action (sw_desc w)) = 32%nat -> lk_free (sig_lock (sw_desc w)) ->
  exists r w', signal_dequeue t w = Done r w' /\ took w t (t_sigmask x) r w'.
Proof.
  intros Hbx Hlk Hx Hm Hact Hf. unfold signal_dequeue.
  rewrite (M_bind_done _ _ _ _ _ (thread_assert_locked_eq _ _ Hlk)), (M_bind_done _ _ _ _ _ (signal_lock_eq _ Hf)).
  change (set_desc _ w) with (lock_sig w).
  assert (box_of w (QThread t) = Some (t_sigpending x, t_sigqueue x)) as Hbt by (simpl; by rewrite Hx).
  assert (box_of w QProcess = Some (sig_pending (sw_desc w), sig_queue (sw_desc w))) as Hbp by done.
  assert (forall p b, box_of w p = Some b -> waits_at w p (t_sigmask x) = waiting b (t_sigmask x)) as Hwa
    by (intros p b E; unfold waits_at; by rewrite E).
  destruct (take_one (lock_sig w) t false x _ _ _ eq_refl Hx Hm Hact Hbt (bs_ok _ _ Hbx _ _ Hbt))
    as [[Hnone E]|(i & a & l & act & Hg & Hb & Hq & Ha & Hw & E)]; rewrite (M_bind_done _ _ _ _ _ E).
  2:{ cbn [fst]. change (negb (0 =? - ENOENT)) with true. cbv iota. rewrite (M_bind_done _ _ _ _ _ (unlock_box _ _ _ Hf)). eexists _, _. split; [done|].
      eapply took_some; [by left|done..]. }
  cbn [fst]. change (negb (- ENOENT =? - ENOENT)) with false. cbv iota.
  destruct (take_one (lock_sig w) t true x _ _ _ eq_refl Hx Hm Hact Hbp (bs_ok _ _ Hbx _ _ Hbp))
    as [[Hnone' E']|(i & a & l & act & Hg & Hb & Hq & Ha & Hw & E')]; rewrite (M_bind_done _ _ _ _ _ E').
  - rewrite (M_bind_done _ _ _ _ _ (unlock_same _ Hf)). eexists _, _. split; [done|]. apply took_none; [by rewrite (Hwa _ _ Hbt)|by rewrite (Hwa _ _ Hbp)].
  - rewrite (M_bind_done _ _ _ _ _ (unlock_box _ _ _ Hf)). eexists _, _. split; [done|].
    eapply took_some; [right|done..]. split_and!; [done..|]. by rewrite (Hwa _ _ Hbt).
Qed.

(** Afterwards the boxes are as they should be and what was taken is queued nowhere. *)
Lemma took_ok w t m r w' : boxes_ok (box_of w) (sw_info w) -> took w t m r w' ->
  boxes_ok (box_of w') (sw_info w') /\ sig_frame w w' /\ sw_info w' = sw_info w /\ sw_sched w' = sw_sched w /\
  forall a act tg, r.2 = Some (a, act, tg) ->
    a <> 0 /\ is_Some (sw_info w !! a) /\ forall q, ~ queued_at (box_of w') a q.
Proof.
  intros Hbx Hk. destruct Hk as [|p tg pd qs i a l act Hp Hb Hg Hmi Hq Ha Hw]; [done|].
  assert (forall q, box_of (set_box p (del_if_empty pd i l, <[i:=l]> qs) w) q = upd_box (box_of w) p (del_if_empty pd i l, <[i:=l]> qs) q)
    as Hbox by (by eapply box_set_box).
  assert (sw_info (set_box p (del_if_empty pd i l, <[i:=l]> qs) w) = sw_info w) as Hi by (destruct p; simpl; by repeat case_match).
  assert (queued_at (box_of w) a p) as Hqa by (exists (pd, qs), i, (a :: l); split_and!; [done..|by left]).
  split_and!.
  - rewrite Hi. eapply boxes_ok_ext; [intros q; symmetry; apply Hbox|].
    eapply boxes_shrink; [done..|]. by exists [a].
  - apply frame_box.
  - done.
  - destruct p; simpl; by repeat case_match.
  - intros a' act' tg' [= <- <- <-]. split_and!; [by eapply boxes_not_null|by eapply box_live|].
    intros q (b & j & k & Hbq & R). rewrite Hbox in Hbq.
    eapply (shrink_unqueued _ _ p pd qs i [a] l); [done..|by left|]. by exists b, j, k.
Qed.

(** ** Flushing *)
Definition free_all (I : gmap Z siginfo_t) (l : list Z) : gmap Z siginfo_t := foldl (fun I a => delete a I) I l.

Lemma lookup_free_all I l a : free_all I l !! a = if decide (a ∈ l) then None else I !! a.
Proof.
  revert I. induction l as [|b l IH]; intros I; [by rewrite decide_False by apply not_elem_of_nil|].
  change (free_all I (b :: l)) with (free_all (delete b I) l).
  rewrite IH. destruct (decide (a ∈ l)).
  - rewrite decide_True; [done|]. by right.
  - destruct (decide (a = b)) as [->|].
    + rewrite decide_True by by left. apply lookup_delete_eq.
    + rewrite decide_False by (rewrite elem_of_cons; tauto). by apply lookup_delete_ne.
Qed.
Lemma set_box_info p b I w : set_box p b (set_info I w) = set_info I (set_box p b w).
Proof. destruct p; simpl; [|done]. by repeat case_match. Qed.
Lemma set_info_twice I J w : set_info I (set_info J w) = set_info I w.
Proof. done. Qed.

Lemma flush_nodes_eq p i l w pd qs :
  box_of w p = Some (pd, qs) -> qs !! i = Some l -> NoDup l -> (forall a, a ∈ l -> a <> 0 /\ is_Some (sw_info w !! a)) ->
  flush_nodes p (Z.of_nat i) l w = Done tt (set_info (free_all (sw_info w) l) (set_box p (pd, <[i := []]> qs) w)).
Proof.
  revert w qs. induction l as [|a l IH]; intros w qs Hb Hl Hnd Hlive.
  - cbn [flush_nodes]. rewrite list_insert_id by done. rewrite set_box_id by done. by destruct w.
  - apply NoDup_cons in Hnd as [Ha Hnd]. cbn [flush_nodes]. rewrite (M_bind_done _ _ _ _ _ (put_queue_eq _ _ _ _ _ _ Hb)).
    destruct (Hlive a) as [Ha0 [x Hx]]; [by left|]. set (w1 := set_box p _ w).
    assert (sw_info w1 = sw_info w) as Hi by (subst w1; destruct p; simpl; by repeat case_match).
    rewrite (M_bind_done _ _ _ _ _ (siginfo_free_eq w1 a x Ha0 ltac:(by rewrite Hi))).
    rewrite (IH _ (<[i := l]> qs)).
    + subst w1. rewrite set_box_info, set_info_twice, set_box_twice, list_insert_insert_eq. simpl. by rewrite Hi.
    + subst w1. change (box_of (set_info ?I ?z) p) with (box_of z p). by eapply box_of_set.
    + apply list_lookup_insert_eq. by apply lookup_lt_Some in Hl.
    + done.
    + intros b Hbl. destruct (Hlive b) as [Hb0 Hbs]; [by right|]. split; [done|]. simpl. rewrite Hi.
      rewrite lookup_delete_ne; [done|]. intros ->. done.
Qed.
Lemma sigqueue_flush_eq p i l w pd qs :
  box_of w p = Some (pd, qs) -> qs !! i = Some l -> NoDup l -> (forall a, a ∈ l -> a <> 0 /\ is_Some (sw_info w !! a)) ->
  sigqueue_flush p (Z.of_nat i) w = Done tt (set_info (free_all (sw_info w) l) (set_box p (pd, <[i := []]> qs) w)).
Proof. intros Hb Hl Hnd Hlive. unfold sigqueue_flush. rewrite (M_bind_done _ _ _ _ _ (the_queue_eq _ _ _ _ _ _ Hb Hl)). by apply flush_nodes_eq. Qed.

(** Freeing a list of addresses that are queued nowhere. *)
Lemma boxes_free_list B I l : boxes_ok B I -> (forall a q, a ∈ l -> ~ queued_at B a q) -> boxes_ok B (free_all I l).
Proof.
  revert I. induction l as [|a l IH]; intros I H Hl; [done|]. simpl. apply IH.
  - apply boxes_free; [done|]. intros q. apply Hl. by left.
  - intros b q Hb. apply Hl. by right.
Qed.

(** All the queues of a box, from the last one flushed on. *)
Lemma flush_all_eq p w pd qs k :
  box_of w p = Some (pd, qs) -> NoDup (concat qs) -> length qs = 32%nat -> (k <= 32)%nat ->
  (forall a, a ∈ concat (drop (32 - k) qs) -> a <> 0 /\ is_Some (sw_info w !! a)) ->
  flush_all p (seqZ (32 - Z.of_nat k) (Z.of_nat k)) w =
    Done tt (set_info (free_all (sw_info w) (concat (drop (32 - k) qs)))
               (set_box p (pd, take (32 - k) qs ++ replicate k []) w)).
Proof.
  revert w qs. induction k as [|k IH]; intros w qs Hb Hnd Hlen Hk Hlive.
  - change (flush_all p (seqZ (32 - Z.of_nat 0) (Z.of_nat 0)) w) with (Done (S:=sigworld) tt w).
    rewrite drop_ge, take_ge, app_nil_r, set_box_id by (done || lia). by destruct w.
  - rewrite seqZ_cons by lia. cbn [flush_all].
    destruct (lookup_lt_is_Some_2 qs (32 - S k)%nat ltac:(lia)) as [l Hl].
    pose proof (take_drop_middle _ _ _ Hl) as Hqs. replace (S (32 - S k))%nat with (32 - k)%nat in Hqs by lia.
    assert (drop (32 - S k) qs = l :: drop (32 - k) qs) as Hdrop.
    { rewrite (drop_S _ _ _ Hl). by replace (S (32 - S k))%nat with (32 - k)%nat by lia. }
    rewrite Hdrop in *. simpl in Hlive.
    assert (NoDup l /\ (forall a, a ∈ l -> a ∉ concat (drop (32 - k) qs))) as [Hndl Hdis].
    { rewrite <- Hqs in Hnd. rewrite concat_app in Hnd. simpl in Hnd. apply NoDup_app in Hnd as (_ & _ & Hnd).
      apply NoDup_app in Hnd as (? & ? & _). done. }
    replace (32 - Z.of_nat (S k)) with (Z.of_nat (32 - S k)) by lia.
    rewrite (M_bind_done _ _ _ _ _ (sigqueue_flush_eq p _ l w pd qs Hb Hl Hndl
      ltac:(intros a Ha; apply Hlive; apply elem_of_app; by left))).
    replace (Z.succ (Z.of_nat (32 - S k))) with (32 - Z.of_nat k) by lia.
    replace (Z.pred (Z.of_nat (S k))) with (Z.of_nat k) by lia.
    set (w1 := set_box p _ w).
    assert (sw_info w1 = sw_info w) as Hi by (subst w1; destruct p; simpl; by repeat case_match).
    assert (drop (32 - k) (<[(32 - S k)%nat := []]> qs) = drop (32 - k) qs) as Hd1 by (apply drop_insert_lt; lia).
    rewrite (IH _ (<[(32 - S k)%nat := []]> qs)).
    + rewrite Hd1. subst w1. rewrite set_box_info, set_info_twice, set_box_twice. simpl. unfold free_all. rewrite foldl_app.
      do 3 f_equal. f_equal. rewrite (insert_take_drop qs) by lia. replace (S (32 - S k))%nat with (32 - k)%nat by lia.
      rewrite take_app, length_take_le, (take_ge (take _ _)) by (rewrite ?length_take; lia).
      simpl. replace (32 - k - (31 - k))%nat with 1%nat by lia. simpl.
      by rewrite <- app_assoc.
    + change (box_of (set_info ?I ?z) p) with (box_of z p). subst w1. by eapply box_of_set.
    + rewrite (insert_take_drop qs) by lia. replace (S (32 - S k))%nat with (32 - k)%nat by lia.
      rewrite <- Hqs in Hnd. rewrite !concat_app in *. cbn [concat] in *. rewrite app_nil_l.
      apply NoDup_app in Hnd as (N1 & N2 & N3). apply NoDup_app in N3 as (_ & _ & N3).
      apply NoDup_app. split_and!; [done| |done]. intros y Hy Hy'. apply (N2 y Hy). apply elem_of_app. by right.
    + by rewrite length_insert.
    + lia.
    + rewrite Hd1. intros a Ha. destruct (Hlive a) as [H0 Hs]; [apply elem_of_app; by right|]. split; [done|].
      simpl. rewrite lookup_free_all, decide_False by (intros Hal; by apply (Hdis a Hal)). done.
Qed.
