(* ===== verification/SignalInv.v ===== *)
(** * The invariant of signals, and that every operation keeps it *)
From S2P Require Import Prelude Errno Spinlock KMem Queue QueueSpec Wait Signal SignalFacts SignalTake.

(** Between operations: the boxes are as they should be; no mask holds SIGKILL or
    SIGSTOP; every lock is free; every thread is known to the scheduler. *)
Record sig_inv (w : sigworld) : Prop := {
  iv_boxes : boxes_ok (box_of w) (sw_info w);
  iv_thr : forall t x, sw_thr w !! t = Some x ->
    mask_ok (t_sigmask x) /\ lk_free (th_lock x) /\ is_Some (sy_threads (sw_sched w) !! t);
  iv_len : length (sig_action (sw_desc w)) = 32%nat;
  iv_act : Forall (fun a => mask_ok (sa_mask a)) (sig_action (sw_desc w));
  iv_mask : mask_ok (sig_mask (sw_desc w));
  iv_lock : lk_free (sig_lock (sw_desc w));
  iv_glock : lk_free (sw_glock w);
  iv_group : forall t, t ∈ sw_group w -> is_Some (sw_thr w !! t);
  iv_cur : is_Some (sw_thr w !! sw_cur w);
  iv_sched : sched_ok (sw_sched w)
}.

Lemma rest_of y z : th_rest y = th_rest z -> (t_sigmask y, th_lock y) = (t_sigmask z, th_lock z).
Proof. intros H. by rewrite (rest_mask _ _ H), (rest_lock _ _ H). Qed.
Lemma frame_sym w w' : sig_frame w w' -> sig_frame w' w.
Proof. intros []. by split. Qed.
Lemma frame_dom w w' t : sig_frame w w' -> is_Some (sw_thr w !! t) -> is_Some (sw_thr w' !! t).
Proof. intros H [x Hx]. destruct (frame_th th_lock _ _ _ _ rest_lock H Hx) as (x' & ? & _). by exists x'. Qed.
Lemma frame_drest w w' : sig_frame w w' ->
  sig_action (sw_desc w') = sig_action (sw_desc w) /\ sig_mask (sw_desc w') = sig_mask (sw_desc w) /\
  sig_lock (sw_desc w') = sig_lock (sw_desc w).
Proof.
  intros H. pose proof (fr_desc _ _ H) as Hd. unfold d_rest, d_set_pending, d_set_queue in Hd. simpl in Hd.
  by injection Hd as -> -> ->.
Qed.

Lemma sig_inv_frame w w' :
  sig_inv w -> sig_frame w w' -> boxes_ok (box_of w') (sw_info w') -> sched_ok (sw_sched w') ->
  dom (sy_threads (sw_sched w')) = dom (sy_threads (sw_sched w)) -> sig_inv w'.
Proof.
  intros H Hf Hb Hs Hd. destruct (frame_drest _ _ Hf) as (Ea & Em & El). destruct H. split; try done.
  - intros t x Hx. destruct (frame_th _ _ _ _ _ rest_of (frame_sym _ _ Hf) Hx) as (y & Hy & [= E1 E2]).
    rewrite <- E1, <- E2. destruct (iv_thr0 _ _ Hy) as (? & ? & Ht). split_and!; [done..|].
    apply elem_of_dom. rewrite Hd. by apply elem_of_dom.
  - by rewrite Ea.
  - by rewrite Ea.
  - by rewrite Em.
  - by rewrite El.
  - by rewrite (fr_glock _ _ Hf).
  - intros t. rewrite (fr_group _ _ Hf). intros Ht. eapply frame_dom; eauto.
  - rewrite (fr_cur _ _ Hf). eapply frame_dom; eauto.
Qed.

(** ** Inside the lock of a thread *)
Definition lock_th (t : tid) (x : sigthread) (w : sigworld) : sigworld :=
  set_th t (th_set_lock (lk_held (sw_who w) (th_lock x)) x) w.
Lemma lock_th_eq w t x : sw_thr w !! t = Some x -> lk_free (th_lock x) -> thread_lock t w = Done tt (lock_th t x w).
Proof. apply thread_lock_eq. Qed.
Lemma lock_th_box w t x p : sw_thr w !! t = Some x -> box_of (lock_th t x w) p = box_of w p.
Proof.
  intros Hx. destruct p as [u|]; [|done]. simpl. destruct (decide (u = t)) as [->|].
  - by rewrite lookup_insert_eq, Hx.
  - by rewrite lookup_insert_ne.
Qed.
Lemma lock_th_holds w t x : holds_th (lock_th t x w) t.
Proof. exists (th_set_lock (lk_held (sw_who w) (th_lock x)) x). simpl. rewrite lookup_insert_eq. split; [done|]. apply holding_lk_held. Qed.
Lemma lock_th_boxes w t x : sw_thr w !! t = Some x -> boxes_ok (box_of w) (sw_info w) ->
  boxes_ok (box_of (lock_th t x w)) (sw_info (lock_th t x w)).
Proof. intros Hx. apply boxes_ok_ext. intros p. by rewrite lock_th_box. Qed.

Lemma unlock_th_frame w t x w1 :
  sw_thr w !! t = Some x -> lk_free (th_lock x) -> sig_frame (lock_th t x w) w1 ->
  exists w2, thread_unlock t w1 = Done tt w2 /\ sig_frame w w2 /\ (forall p, box_of w2 p = box_of w1 p) /\
    sw_info w2 = sw_info w1 /\ sw_sched w2 = sw_sched w1.
Proof.
  intros Hx Hf Hfr.
  assert (sw_thr (lock_th t x w) !! t = Some (th_set_lock (lk_held (sw_who w) (th_lock x)) x)) as Hxl by (simpl; apply lookup_insert_eq).
  pose proof (fr_thr _ _ Hfr t) as Ht. rewrite Hxl in Ht. destruct (sw_thr w1 !! t) as [y|] eqn:Hy; [|done]. simpl in Ht.
  injection Ht as El Em En Eu Es Eh.
  exists (set_th t (th_set_lock (th_lock x) y) w1). split; [|split; [|split]].
  - apply thread_unlock_eq; [done| |done]. by rewrite El, (fr_who _ _ Hfr).
  - destruct Hfr. split; [done..| |done]. intros u. simpl. destruct (decide (u = t)) as [->|].
    + rewrite lookup_insert_eq, Hx. simpl. unfold th_rest, th_set_pending, th_set_queue, th_set_lock. simpl. by rewrite Em, En, Eu, Es, Eh.
    + rewrite lookup_insert_ne by done. rewrite fr_thr. simpl. by rewrite lookup_insert_ne.
  - intros [u|]; [|done]. simpl. destruct (decide (u = t)) as [->|].
    + by rewrite lookup_insert_eq, Hy.
    + by rewrite lookup_insert_ne.
  - done.
Qed.
Lemma lock_unlock_th w t x : sw_thr w !! t = Some x -> lk_free (th_lock x) ->
  thread_unlock t (lock_th t x w) = Done tt w.
Proof.
  intros Hx Hf. erewrite thread_unlock_eq; [|simpl; apply lookup_insert_eq|done|done].
  f_equal. unfold lock_th. rewrite set_th_twice. etrans; [|by apply (set_th_id t x)]. by destruct x.
Qed.

(** ** Sending keeps the invariant *)
Lemma sent_boxes p n v w r w' : good_signo n -> boxes_ok (box_of w) (sw_info w) -> sent p n v w r w' ->
  boxes_ok (box_of w') (sw_info w').
Proof.
  intros Hn H [_ [(_ & Hb & Hi & _)|(pd & qs & l & a & _ & Hb & Hl & Ha & Ha0 & Hb' & Hi)]].
  - rewrite Hi. eapply boxes_ok_ext; [|done]. intros q. by rewrite Hb.
  - rewrite Hi. eapply boxes_ok_ext; [intros q; symmetry; apply Hb'|]. pose proof Hn as [? ?].
    assert (exists i, n = Z.of_nat i + 1) as [i ->] by (exists (Z.to_nat (n - 1)); lia).
    replace (Z.to_nat (Z.of_nat i + 1 - 1)) with i in * by lia. by eapply boxes_push.
Qed.

Section Ops.
Context {KA : KAlloc}.

Lemma thread_queue_find_spec ts t w :
  (forall u, u ∈ ts -> exists x, sw_thr w !! u = Some x /\ lk_free (th_lock x)) ->
  (t ∉ ts /\ thread_queue_find_by_tid ts t w = Done (- ESRCH, None) w) \/
  exists x, t ∈ ts /\ sw_thr w !! t = Some x /\ lk_free (th_lock x) /\
    thread_queue_find_by_tid ts t w = Done (0, Some t) (lock_th t x w).
Proof.
  induction ts as [|u ts IH]; intros H; [left; split; [apply not_elem_of_nil|done]|].
  destruct (H u) as (x & Hx & Hf); [by left|]. cbn [thread_queue_find_by_tid].
  rewrite (M_bind_done _ _ _ _ _ (lock_th_eq _ _ _ Hx Hf)). destruct (decide (u = t)) as [->|Hne].
  - right. exists x. split_and!; [by left|done..].
  - rewrite (M_bind_done _ _ _ _ _ (lock_unlock_th _ _ _ Hx Hf)). destruct IH as [[Hn E]|(y & Hin & R)].
    + intros v Hv. apply H. by right.
    + left. split; [|done]. intros [?|?]%elem_of_cons; [by subst|done].
    + right. exists y. split; [by right|done].
Qed.

Lemma pthread_sigqueue_spec w t n v : sig_inv w ->
  exists r w', pthread_sigqueue t n v w = Done r w' /\ sig_inv w' /\
    (SIGBAD n = true /\ r = - EINVAL /\ w' = w \/ t ∉ sw_group w /\ r = - ESRCH /\ w' = w \/
     good_signo n /\ t ∈ sw_group w /\ sent (QThread t) n v w r w' /\ (r = 0 -> awake (sw_sched w') t)).
Proof.
  intros H. unfold pthread_sigqueue. destruct (SIGBAD n) eqn:Hbad; [eexists _, _; split; [done|]; by eauto|].
  apply SIGBAD_false in Hbad. unfold thread_group_get_by_tid. rewrite !M_bind_assoc.
  unfold group_lock. rewrite (M_bind_done _ _ _ tt (set_glock (lk_held (sw_who w) (sw_glock w)) w))
    by (unfold on_lock; by rewrite lk_acquire_free by apply H).
  set (wg := set_glock _ w). rewrite !M_bind_assoc. unfold M_get at 1. rewrite (M_bind_done _ _ _ wg wg) by done. rewrite !M_bind_assoc.
  assert (forall z, sw_who z = sw_who w -> sw_glock z = lk_held (sw_who w) (sw_glock w) ->
    group_unlock z = Done tt (set_glock (sw_glock w) z)) as Hgu.
  { intros z Hw Hg. unfold group_unlock, on_lock. rewrite Hw, Hg, lk_release_held by apply H. done. }
  destruct (thread_queue_find_spec (sw_group wg) t wg) as [[Hn E]|(x & Hin & Hx & Hf & E)].
  { intros u Hu. destruct (iv_group _ H u Hu) as [y Hy]. exists y. split; [done|]. by apply (iv_thr _ H u). }
  - rewrite (M_bind_done _ _ _ _ _ E), !M_bind_assoc, (M_bind_done _ _ _ _ _ (Hgu wg eq_refl eq_refl)).
    assert (set_glock (sw_glock w) wg = w) as -> by (by destruct w). eexists _, _. split; [done|]. split; [done|]. right. by left.
  - rewrite (M_bind_done _ _ _ _ _ E), !M_bind_assoc, (M_bind_done _ _ _ _ _ (Hgu (lock_th t x wg) eq_refl eq_refl)).
    assert (set_glock (sw_glock w) (lock_th t x wg) = lock_th t x w) as -> by (by destruct w). unfold M_bind at 1, M_ret at 1. cbn [snd].
    change (sw_thr w !! t = Some x) in Hx. destruct (iv_thr _ H _ _ Hx) as (Hm & _ & Hts).
    destruct (thread_send_signal_spec (lock_th t x w) t n v (lock_th_boxes _ _ _ Hx (iv_boxes _ H)) (lock_th_holds w t x) Hbad
                (iv_sched _ H) Hts) as (r & w1 & E1 & Hsent & Hs1 & Hd1 & Haw).
    rewrite (M_bind_done _ _ _ _ _ E1).
    destruct (unlock_th_frame w t x w1 Hx Hf (proj1 Hsent)) as (w2 & E2 & Hf2 & Hb2 & Hi2 & Hsc2).
    rewrite (M_bind_done _ _ _ _ _ E2). eexists _, _. split; [done|].
    pose proof (sent_boxes _ _ _ _ _ _ Hbad (lock_th_boxes _ _ _ Hx (iv_boxes _ H)) Hsent) as Hbx1.
    split.
    + apply (sig_inv_frame w); [done..| | |].
      * rewrite Hi2. eapply boxes_ok_ext; [|done]. intros q. by rewrite Hb2.
      * by rewrite Hsc2.
      * by rewrite Hsc2, Hd1.
    + right; right. split_and!; [done..| |by rewrite Hsc2]. split; [done|].
      destruct Hsent as [_ [(Hr & Hb & Hi & Hsc)|(pd & qs & l & a & Hr & Hb & Hl & Ha & Ha0 & Hb' & Hi)]]; [left|right].
      * split_and!; [done|intros q; by rewrite Hb2, Hb, lock_th_box|by rewrite Hi2, Hi|by rewrite Hsc2, Hsc].
      * exists pd, qs, l, a. rewrite lock_th_box in Hb by done. split_and!; [done..| |by rewrite Hi2, Hi].
        intros q. rewrite Hb2, Hb'. unfold upd_box. case_decide; [done|]. by apply lock_th_box.
Qed.

Lemma unlock_sig_frame w w1 : lk_free (sig_lock (sw_desc w)) -> sig_frame (lock_sig w) w1 ->
  exists w2, signal_unlock w1 = Done tt w2 /\ sig_frame w w2 /\ (forall p, box_of w2 p = box_of w1 p) /\
    sw_info w2 = sw_info w1 /\ sw_sched w2 = sw_sched w1.
Proof.
  intros Hf Hfr. destruct (frame_drest _ _ Hfr) as (Ea & Em & El). pose proof (fr_desc _ _ Hfr) as Hd.
  exists (set_desc (d_set_lock (sig_lock (sw_desc w)) (sw_desc w1)) w1). split; [|split; [|split]].
  - apply signal_unlock_eq; [|done]. rewrite El, (fr_who _ _ Hfr). done.
  - destruct Hfr. split; [done..|]. unfold d_rest, d_set_pending, d_set_queue, d_set_lock in *. simpl in *. by rewrite Ea, Em.
  - by intros [u|].
  - done.
Qed.
Lemma lock_sig_holds w : holds_sig (lock_sig w).
Proof. apply holding_lk_held. Qed.

Lemma proc_send_signal_spec w n v : sig_inv w ->
  exists r w', proc_send_signal n v w = Done r w' /\ sig_inv w' /\
    (SIGBAD n = true /\ r = - EINVAL /\ w' = w \/ good_signo n /\ sent QProcess n v w r w').
Proof.
  intros H. unfold proc_send_signal. destruct (SIGBAD n) eqn:Hbad; [eexists _, _; split; [done|]; by eauto|].
  apply SIGBAD_false in Hbad. rewrite (M_bind_done _ _ _ _ _ (signal_lock_eq _ (iv_lock _ H))). change (set_desc _ w) with (lock_sig w).
  destruct (signal_desc_send_signal_spec (lock_sig w) n v (iv_boxes _ H) (lock_sig_holds w) Hbad) as (r & w1 & E1 & Hsent & Hsc).
  rewrite (M_bind_done _ _ _ _ _ E1).
  destruct (unlock_sig_frame w w1 (iv_lock _ H) (proj1 Hsent)) as (w2 & E2 & Hf2 & Hb2 & Hi2 & Hsc2).
  rewrite (M_bind_done _ _ _ _ _ E2). eexists _, _. split; [done|].
  pose proof (sent_boxes QProcess n v (lock_sig w) r w1 Hbad (iv_boxes _ H) Hsent) as Hbx1.
  split; [|right; split; [done|]; split; [done|]].
  - apply (sig_inv_frame w); [done..| | |by rewrite Hsc2, Hsc].
    + rewrite Hi2. eapply boxes_ok_ext; [|done]. intros q. by rewrite Hb2.
    + rewrite Hsc2, Hsc. apply H.
  - destruct Hsent as [_ [(Hr & Hb & Hi & _)|(pd & qs & l & a & Hr & Hb & Hl & Ha & Ha0 & Hb' & Hi)]]; [left|right].
    + split_and!; [done|intros q; by rewrite Hb2, Hb|by rewrite Hi2, Hi|by rewrite Hsc2, Hsc].
    + exists pd, qs, l, a. split_and!; [done..| |by rewrite Hi2, Hi]. intros q. by rewrite Hb2, Hb'.
Qed.
End Ops.

(** ** Changing masks and actions *)
Lemma set_th_boxes w t x y : sw_thr w !! t = Some x -> t_sigpending y = t_sigpending x -> t_sigqueue y = t_sigqueue x ->
  forall p, box_of (set_th t y w) p = box_of w p.
Proof.
  intros Hx E1 E2 [u|]; [|done]. simpl. destruct (decide (u = t)) as [->|].
  - rewrite lookup_insert_eq, Hx. simpl. by rewrite E1, E2.
  - by rewrite lookup_insert_ne.
Qed.
(** A thread of the world gets another mask, alternative stack or the like. *)
Lemma sig_inv_set_th w t x y : sig_inv w -> sw_thr w !! t = Some x ->
  t_sigpending y = t_sigpending x -> t_sigqueue y = t_sigqueue x -> th_lock y = th_lock x -> mask_ok (t_sigmask y) ->
  sig_inv (set_th t y w).
Proof.
  intros H Hx E1 E2 El Hm. pose proof (set_th_boxes w t x y Hx E1 E2) as Hb.
  assert (forall u, is_Some (sw_thr w !! u) -> is_Some (<[t := y]> (sw_thr w) !! u)) as Hd.
  { intros u Hu. destruct (decide (u = t)) as [->|]; [rewrite lookup_insert_eq; eauto|by rewrite lookup_insert_ne]. }
  destruct H. split; try done; simpl; auto.
  - eapply boxes_ok_ext; [|exact iv_boxes0]. intros p. by rewrite Hb.
  - intros u z Hz. destruct (decide (u = t)) as [->|].
    + rewrite lookup_insert_eq in Hz. injection Hz as <-. rewrite El. destruct (iv_thr0 _ _ Hx) as (? & ? & ?). done.
    + rewrite lookup_insert_ne in Hz by done. auto.
Qed.

Lemma pthread_sigmask_spec w how set : sig_inv w -> (forall m, set = Some m -> is_set m) ->
  exists x, sw_thr w !! sw_cur w = Some x /\
    pthread_sigmask how set w = Done ((sigmask (t_sigmask x) how set).1, t_sigmask x)
      (set_th (sw_cur w) (th_set_mask (sigmask (t_sigmask x) how set).2 x) w) /\
    sig_inv (set_th (sw_cur w) (th_set_mask (sigmask (t_sigmask x) how set).2 x) w).
Proof.
  intros H Hset. destruct (iv_cur _ H) as [x Hx]. destruct (iv_thr _ H _ _ Hx) as (Hm & Hf & _).
  exists x. split; [done|]. split.
  - unfold pthread_sigmask, current_lock, current_unlock. rewrite M_bind_assoc. unfold cur at 1.
    rewrite (M_bind_done _ _ _ (sw_cur w) w) by done. rewrite (M_bind_done _ _ _ _ _ (lock_th_eq _ _ _ Hx Hf)).
    unfold cur. rewrite (M_bind_done _ _ _ (sw_cur w) (lock_th (sw_cur w) x w)) by done.
    unfold thread_sigmask. rewrite M_bind_assoc.
    rewrite (M_bind_done _ _ _ _ _ (thread_assert_locked_eq _ _ (lock_th_holds w (sw_cur w) x))).
    assert (sw_thr (lock_th (sw_cur w) x w) !! sw_cur w = Some (th_set_lock (lk_held (sw_who w) (th_lock x)) x)) as Hxl
      by (simpl; apply lookup_insert_eq).
    rewrite M_bind_assoc, (M_bind_done _ _ _ _ _ (the_th_eq _ _ _ Hxl)). cbn [t_sigmask th_set_lock].
    set (m := sigmask (t_sigmask x) how set). unfold upd_th.
    rewrite !M_bind_assoc, (M_bind_done _ _ _ _ _ (the_th_eq _ _ _ Hxl)).
    unfold M_bind at 1 2, M_ret at 1. rewrite M_bind_assoc.
    set (w1 := set_th (sw_cur w) (th_set_mask m.2 _) _). rewrite (M_bind_done _ _ _ (sw_cur w) w1) by done.
    erewrite M_bind_done by (eapply (thread_unlock_eq w1 (sw_cur w)); [simpl; apply lookup_insert_eq|done|done]).
    unfold M_ret. f_equal. subst w1. unfold lock_th. rewrite !set_th_twice. by destruct x.
  - eapply sig_inv_set_th; [done..|]. by apply sigmask_mask_ok.
Qed.

Lemma sig_inv_set_desc w d : sig_inv w ->
  sig_pending d = sig_pending (sw_desc w) -> sig_queue d = sig_queue (sw_desc w) -> sig_lock d = sig_lock (sw_desc w) ->
  mask_ok (sig_mask d) -> length (sig_action d) = 32%nat -> Forall (fun a => mask_ok (sa_mask a)) (sig_action d) ->
  sig_inv (set_desc d w).
Proof.
  intros H E1 E2 El Hm Hlen Hact. destruct H. split; try done; simpl; [|by rewrite El].
  eapply boxes_ok_ext; [|exact iv_boxes0]. intros [u|]; simpl; [done|]. by rewrite E1, E2.
Qed.

Lemma sigprocmask_spec w how set : sig_inv w -> (forall m, set = Some m -> is_set m) ->
  exists r w', sigprocmask how set w = Done r w' /\ sig_inv w'.
Proof.
  intros H Hset. unfold sigprocmask. rewrite (M_bind_done _ _ _ _ _ (signal_lock_eq _ (iv_lock _ H))).
  rewrite (M_bind_done _ _ _ _ _ (the_desc_eq _)). unfold upd_desc, M_bind at 1. cbv beta iota.
  erewrite M_bind_done by (eapply (signal_unlock_eq _ (sig_lock (sw_desc w))); [done|apply H]).
  eexists _, _. split; [done|]. simpl. apply (sig_inv_set_desc w); [done..| |apply H|apply H]. simpl.
  apply sigmask_mask_ok; [apply H|done].
Qed.

(** [sigaction] with a handler that is not ignored, or with none to install. *)
Definition action_legal (n : Z) (act : option sigaction_t) : Prop :=
  forall a, act = Some a -> is_set (sa_mask a) /\ sig_handler_ignored (sa_handler a) n = false.
Lemma delmask_ok m : is_set m -> mask_ok (sigsetdelmask m (Z.lor (SIGMASK SIGKILL) (SIGMASK SIGSTOP))).
Proof.
  intros Hm. split; [by apply is_set_land|]. unfold sigsetdelmask. rewrite !Z.land_spec, !not32_spec by lia.
  vm_compute (Z.lor (SIGMASK SIGKILL) (SIGMASK SIGSTOP)). by rewrite !andb_false_r.
Qed.

Lemma sigaction_spec w n act oact : sig_inv w -> action_legal n act ->
  exists r w', sigaction n act oact w = Done r w' /\ sig_inv w' /\
    (SIGBAD n = true /\ r = (- EINVAL, None) /\ w' = w \/
     exists old, good_signo n /\ sig_action (sw_desc w) !! Z.to_nat (n - 1) = Some old /\
       r = (0, if oact then Some old else None) /\
       sig_action (sw_desc w') = match act with
         | None => sig_action (sw_desc w)
         | Some a => <[Z.to_nat (n - 1) := act_set_mask (sigsetdelmask (sa_mask a) (Z.lor (SIGMASK SIGKILL) (SIGMASK SIGSTOP))) a]>
                       (sig_action (sw_desc w))
         end).
Proof.
  intros H Hleg. unfold sigaction. destruct (SIGBAD n) eqn:Hbad; [eexists _, _; split; [done|]; by eauto|].
  unfold do_sigaction. rewrite Hbad. apply SIGBAD_false in Hbad. pose proof Hbad as [? ?].
  destruct (lookup_lt_is_Some_2 (sig_action (sw_desc w)) (Z.to_nat (n - 1))) as [old Hold]; [rewrite (iv_len _ H); lia|].
  rewrite (M_bind_done _ _ _ _ _ (signal_lock_eq _ (iv_lock _ H))). change (set_desc _ w) with (lock_sig w).
  assert (forall z a, sig_action (sw_desc z) !! Z.to_nat (n - 1) = Some a -> the_action (n - 1) z = Done a z) as Hta.
  { intros z a Ha. unfold the_action. rewrite (M_bind_done _ _ _ _ _ (the_desc_eq _)).
    rewrite (proj2 (Z.ltb_ge _ _)) by lia. by rewrite Ha. }
  rewrite (M_bind_done _ _ _ _ _ (Hta (lock_sig w) old Hold)). destruct act as [a|].
  - destruct (Hleg a eq_refl) as [Hms Hign]. set (a' := act_set_mask _ a).
    unfold put_action. rewrite M_bind_assoc. unfold upd_desc at 1.
    erewrite M_bind_done by done. set (w1 := set_desc _ (lock_sig w)).
    assert (sig_action (sw_desc w1) !! Z.to_nat (n - 1) = Some a') as Ha'
      by (subst w1; simpl; apply list_lookup_insert_eq; by apply lookup_lt_Some in Hold).
    unfold sig_handler. rewrite !M_bind_assoc.
    rewrite (M_bind_done _ _ _ _ _ (signal_assert_locked_eq w1 (lock_sig_holds w))), !M_bind_assoc.
    rewrite (M_bind_done _ _ _ _ _ (Hta w1 a' Ha')). rewrite (M_bind_done _ _ _ (sa_handler a') w1) by done.
    replace (sa_handler a') with (sa_handler a) by done. rewrite Hign. rewrite (M_bind_done _ _ _ tt w1) by done.
    rewrite (M_bind_done _ _ _ _ _ (signal_unlock_eq w1 (sig_lock (sw_desc w)) eq_refl (iv_lock _ H))).
    eexists _, _. split; [done|]. split; [|right; by exists old].
    apply (sig_inv_set_desc w); [done..|apply H| |]; simpl.
    + rewrite length_insert. apply H.
    + apply Forall_insert; [apply H|]. simpl. by apply delmask_ok.
  - rewrite (M_bind_done _ _ _ tt (lock_sig w)) by done.
    rewrite (M_bind_done _ _ _ _ _ (unlock_same _ (iv_lock _ H))). eexists _, _. split; [done|]. split; [done|right; by exists old].
Qed.

(** ** Taking keeps the invariant *)

(** A thread takes one signal, as [signal_check_pending] does, and is done with it. *)
Definition take_signal : SG (option (siginfo_t * signal_target_t)) :=
  do! current_lock in
  let! t := cur in
  let! r := signal_dequeue t in
  match r.2 with
  | None => do! current_unlock in ret! None
  | Some (a, _, tg) =>
      let! x := the_info a in
      do! siginfo_free a in
      do! current_unlock in
      ret! (Some (x, tg))
  end.

Lemma waits_lock w t x p m : sw_thr w !! t = Some x -> waits_at (lock_th t x w) p m = waits_at w p m.
Proof. intros. unfold waits_at. by rewrite lock_th_box. Qed.
Lemma cur_unlock_eq w w1 t r : sw_cur w1 = t -> thread_unlock t w1 = Done r w -> current_unlock w1 = Done r w.
Proof. intros <- E. unfold current_unlock, cur. by rewrite (M_bind_done _ _ _ (sw_cur w1) w1). Qed.

Lemma take_signal_spec w : sig_inv w ->
  exists x r w', sw_thr w !! sw_cur w = Some x /\ take_signal w = Done r w' /\ sig_inv w' /\ sig_frame w w' /\
    (forall p, p <> QThread (sw_cur w) -> p <> QProcess -> box_of w' p = box_of w p) /\
    let m := t_sigmask x in
    match waits_at w (QThread (sw_cur w)) m, waits_at w QProcess m with
    | [], [] => r = None /\ w' = w
    | a :: l, _ => exists i, sw_info w !! a = Some i /\ r = Some (i, signalTargetThread) /\ sw_info w' = delete a (sw_info w) /\
        waits_at w' (QThread (sw_cur w)) m = l /\ waits_at w' QProcess m = waits_at w QProcess m
    | [], a :: l => exists i, sw_info w !! a = Some i /\ r = Some (i, signalTargetProcess) /\ sw_info w' = delete a (sw_info w) /\
        waits_at w' (QThread (sw_cur w)) m = [] /\ waits_at w' QProcess m = l
    end.
Proof.
  intros H. destruct (iv_cur _ H) as [x Hx]. destruct (iv_thr _ H _ _ Hx) as (Hm & Hf & _).
  set (t := sw_cur w) in *. unfold take_signal, current_lock. rewrite M_bind_assoc. unfold cur at 1.
  rewrite (M_bind_done _ _ _ t w) by done. rewrite (M_bind_done _ _ _ _ _ (lock_th_eq _ _ _ Hx Hf)).
  rewrite (M_bind_done _ _ _ t (lock_th t x w)) by done.
  pose proof (lock_th_boxes _ _ _ Hx (iv_boxes _ H)) as Hbx.
  destruct (signal_dequeue_spec (lock_th t x w) t (th_set_lock (lk_held (sw_who w) (th_lock x)) x) Hbx
     (lock_th_holds w t x) ltac:(simpl; apply lookup_insert_eq) Hm (iv_len _ H) (iv_lock _ H)) as (r & w1 & E & Htk).
  rewrite (M_bind_done _ _ _ _ _ E). cbn [t_sigmask th_set_lock] in Htk.
  pose proof (took_ok _ _ _ _ _ Hbx Htk) as (Hbx1 & Hfr & Hi1 & Hsc1 & Hun).
  exists x. destruct Htk as [Hw1 Hw2|p tg pd qs i a l act Hp Hb Hg Hmi Hq Ha Hw].
  - cbn [snd]. rewrite waits_lock in Hw1, Hw2 by done.
    rewrite (M_bind_done _ _ _ _ _ (cur_unlock_eq w (lock_th t x w) t _ eq_refl (lock_unlock_th _ _ _ Hx Hf))).
    eexists _, _. split; [done|]. split; [done|]. split; [done|]. split; [done|]. split; [done|]. by rewrite Hw1, Hw2.
  - cbn [snd]. set (w1 := set_box p _ (lock_th t x w)) in *. destruct (Hun a act tg eq_refl) as (Ha0 & [inf Hinf] & Hnq).
    rewrite <- Hi1 in Hinf. rewrite (M_bind_done _ _ _ _ _ (the_info_eq _ _ _ Hinf)).
    rewrite (M_bind_done _ _ _ _ _ (siginfo_free_eq _ _ _ Ha0 Hinf)). set (w2 := set_info _ w1).
    destruct (unlock_th_frame w t x w2 Hx Hf ltac:(etrans; [exact Hfr|apply frame_info])) as (w3 & E3 & Hf3 & Hb3 & Hi3 & Hsc3).
    assert (sw_cur w2 = t) as Hc by (apply (fr_cur _ _ Hfr)).
    rewrite (M_bind_done _ _ _ _ _ (cur_unlock_eq _ _ t _ Hc E3)). eexists _, _. split; [done|]. split; [done|].
    assert (forall q, box_of w3 q = upd_box (box_of w) p (del_if_empty pd i l, <[i:=l]> qs) q) as Hbox.
    { intros q. rewrite Hb3. change (box_of w2 q) with (box_of w1 q). subst w1. erewrite box_set_box by done.
      unfold upd_box. case_decide; [done|]. by apply lock_th_box. }
    rewrite Hi1 in Hinf. change (sw_info w !! a = Some inf) in Hinf. rewrite lock_th_box in Hb by done.
    assert (sw_info w3 = delete a (sw_info w)) as Hi4 by (rewrite Hi3; simpl; by rewrite Hi1).
    split; [|split; [done|split]].
    + apply (sig_inv_frame w); [done..| | |].
      * rewrite Hi3. eapply boxes_ok_ext; [intros q; symmetry; apply Hb3|]. apply boxes_free; [exact Hbx1|exact Hnq].
      * rewrite Hsc3. simpl. rewrite Hsc1. apply H.
      * rewrite Hsc3. simpl. by rewrite Hsc1.
    + intros q Hq1 Hq2. rewrite Hbox. apply upd_box_ne. destruct Hp as [[-> _]|[-> _]]; done.
    + cbv zeta. unfold waits_at in *. rewrite !Hbox. destruct Hp as [[-> ->]|(-> & -> & Hnone)].
      * rewrite upd_box_eq, upd_box_ne by done. rewrite Hb, Hw. by exists inf.
      * rewrite upd_box_eq, upd_box_ne by done. rewrite lock_th_box in Hnone by done. rewrite Hnone, Hb, Hw. by exists inf.
Qed.

(** ** Waiting for signals of a set: the mask is the complement of the set *)
Lemma settest_deliverable set pd : is_set set -> is_set pd -> sigsettest set pd = deliverable pd (not32 set).
Proof.
  intros Hs Hp. unfold sigsettest. apply is_set_ext; [by apply is_set_land|by apply is_set_land|].
  intros i Hi. rewrite deliverable_bit, Z.land_spec, not32_spec, negb_involutive by done. apply andb_comm.
Qed.

(** One entry leaves a queue, and with the last one the pending bit. *)
Lemma pop_eq w p pd qs i a l : box_of w p = Some (pd, qs) -> qs !! i = Some (a :: l) ->
  sigqueue_dequeue p (Z.of_nat i) w = Done (0, Some a) (set_box p (pd, <[i := l]> qs) w) /\
  box_of (set_box p (pd, <[i := l]> qs) w) p = Some (pd, <[i := l]> qs) /\
  the_queue p (Z.of_nat i) (set_box p (pd, <[i := l]> qs) w) = Done l (set_box p (pd, <[i := l]> qs) w).
Proof.
  intros Hb Hq. assert (box_of (set_box p (pd, <[i := l]> qs) w) p = Some (pd, <[i := l]> qs)) as Hb1 by (by eapply box_of_set).
  split_and!; [|done|].
  - unfold sigqueue_dequeue. rewrite (M_bind_done _ _ _ _ _ (the_queue_eq _ _ _ _ _ _ Hb Hq)). cbn [q_step fst snd].
    by rewrite (M_bind_done _ _ _ _ _ (put_queue_eq _ _ _ _ _ _ Hb)).
  - eapply the_queue_eq; [done|]. apply list_lookup_insert_eq. by apply lookup_lt_Some in Hq.
Qed.
Lemma clear_th_eq w t pd qs i l : box_of w (QThread t) = Some (pd, qs) ->
  M_when (Z.of_nat (length l) =? 0) (upd_th t (fun x => th_set_pending (sigsetdel (t_sigpending x) (Z.of_nat i + 1)).2 x)) w =
    Done tt (set_box (QThread t) (del_if_empty pd i l, qs) w).
Proof.
  intros Hb. unfold del_if_empty, M_when. destruct (Z.of_nat (length l) =? 0); [|by rewrite set_box_id].
  simpl in Hb. destruct (sw_thr w !! t) as [x|] eqn:Hx; [|done]. injection Hb as <- <-.
  unfold upd_th. rewrite (M_bind_done _ _ _ _ _ (the_th_eq _ _ _ Hx)). simpl. rewrite Hx. by destruct x.
Qed.
Lemma clear_proc_eq w pd qs i l : box_of w QProcess = Some (pd, qs) ->
  M_when (Z.of_nat (length l) =? 0) (upd_desc (fun d => d_set_pending (sigsetdel (sig_pending d) (Z.of_nat i + 1)).2 d)) w =
    Done tt (set_box QProcess (del_if_empty pd i l, qs) w).
Proof.
  intros Hb. unfold del_if_empty, M_when. destruct (Z.of_nat (length l) =? 0); [|by rewrite set_box_id].
  by apply (upd_pending_eq w pd qs (fun p => (sigsetdel p (Z.of_nat i + 1)).2)).
Qed.

(** Either nothing of [set] waits at [p], or its first is taken out. *)
Definition found (w : sigworld) (p : qplace) (set : Z) (r : Z * Z) (w' : sigworld) : Prop :=
  (waits_at w p (not32 set) = [] /\ r = (0, 0) /\ w' = w) \/
  exists pd qs i a l, box_of w p = Some (pd, qs) /\ good_signo (Z.of_nat i + 1) /\ qs !! i = Some (a :: l) /\
    Z.testbit set (Z.of_nat i) = true /\ waits_at w p (not32 set) = a :: waiting (del_if_empty pd i l, <[i := l]> qs) (not32 set) /\
    r = (Z.of_nat i + 1, a) /\ sig_frame w w' /\ sw_info w' = sw_info w /\ sw_sched w' = sw_sched w /\
    forall q, box_of w' q = upd_box (box_of w) p (del_if_empty pd i l, <[i := l]> qs) q.

Lemma not32_clear set n : good_signo n -> Z.testbit (not32 set) (n - 1) = false -> Z.testbit set (n - 1) = true.
Proof. intros [? ?] Hc. rewrite not32_spec in Hc by lia. by destruct (Z.testbit set (n - 1)). Qed.

Lemma check_thread_signals_spec w set : sig_inv w -> is_set set ->
  exists r w', check_thread_signals set w = Done r w' /\ found w (QThread (sw_cur w)) set r w'.
Proof.
  intros H Hset. destruct (iv_cur _ H) as [x Hx]. destruct (iv_thr _ H _ _ Hx) as (_ & Hf & _).
  set (t := sw_cur w) in *. unfold check_thread_signals, current_lock. rewrite M_bind_assoc.
  rewrite (M_bind_done _ _ _ t w) by done. rewrite (M_bind_done _ _ _ _ _ (lock_th_eq _ _ _ Hx Hf)).
  rewrite (M_bind_done _ _ _ t (lock_th t x w)) by done.
  erewrite M_bind_done by (apply the_th_eq; simpl; apply lookup_insert_eq). cbn [t_sigpending th_set_lock].
  assert (box_of w (QThread t) = Some (t_sigpending x, t_sigqueue x)) as Hb by (simpl; by rewrite Hx).
  pose proof (bs_ok _ _ (iv_boxes _ H) _ _ Hb) as Hok.
  rewrite settest_deliverable by (done || apply (bx_set _ _ Hok)).
  destruct (Z.eqb_spec (sigset_first (deliverable (t_sigpending x) (not32 set))) 0) as [E|E].
  - rewrite (M_bind_done _ _ _ _ _ (cur_unlock_eq w (lock_th t x w) t _ eq_refl (lock_unlock_th _ _ _ Hx Hf))).
    eexists _, _. split; [done|]. left. split_and!; [|done..]. unfold waits_at. rewrite Hb. by eapply waiting_none.
  - destruct (waiting_next _ _ _ _ Hok eq_refl E) as (Hg & Hmb & a & l & Hq & Hw). cbn [fst snd] in *.
    apply not32_clear in Hmb; [|done]. set (n := sigset_first _) in *. pose proof Hg as [? ?].
    assert (exists i, n = Z.of_nat i + 1) as [i Hi] by (exists (Z.to_nat (n - 1)); lia). clearbody n. subst n.
    replace (Z.of_nat i + 1 - 1) with (Z.of_nat i) in * by lia. rewrite Nat2Z.id in *.
    assert (box_of (lock_th t x w) (QThread t) = Some (t_sigpending x, t_sigqueue x)) as Hbl by (by rewrite lock_th_box).
    destruct (pop_eq _ _ _ _ _ _ _ Hbl Hq) as (E1 & Hb1 & E2). rewrite (M_bind_done _ _ _ _ _ E1). cbn [snd].
    rewrite (M_bind_done _ _ _ _ _ E2), (M_bind_done _ _ _ _ _ (clear_th_eq _ _ _ _ _ _ Hb1)), set_box_twice.
    set (b := (del_if_empty _ i l, <[i:=l]> _)).
    destruct (unlock_th_frame w t x (set_box (QThread t) b (lock_th t x w)) Hx Hf (frame_box _ _ _)) as (w3 & E3 & Hf3 & Hb3 & Hi3 & Hs3).
    assert (sw_cur (set_box (QThread t) b (lock_th t x w)) = t) as Hc by (apply (fr_cur _ _ (frame_box (lock_th t x w) _ _))).
    rewrite (M_bind_done _ _ _ _ _ (cur_unlock_eq _ _ t _ Hc E3)).
    eexists _, _. split; [done|]. right. eexists _, _, i, a, l.
    split_and!; [exact Hb|done|exact Hq|done|unfold waits_at; by rewrite Hb, Hw|done|done| | |].
    + rewrite Hi3. simpl. by repeat case_match.
    + rewrite Hs3. simpl. by repeat case_match.
    + intros q. rewrite Hb3. erewrite box_set_box by done. unfold upd_box. case_decide; [done|]. by apply lock_th_box.
Qed.

Lemma check_process_signals_spec w set : sig_inv w -> is_set set ->
  exists r w', check_process_signals set w = Done r w' /\ found w QProcess set r w'.
Proof.
  intros H Hset. unfold check_process_signals. rewrite (M_bind_done _ _ _ _ _ (signal_lock_eq _ (iv_lock _ H))).
  change (set_desc _ w) with (lock_sig w). rewrite (M_bind_done _ _ _ _ _ (the_desc_eq _)).
  assert (box_of w QProcess = Some (sig_pending (sw_desc w), sig_queue (sw_desc w))) as Hb by done.
  pose proof (bs_ok _ _ (iv_boxes _ H) _ _ Hb) as Hok. change (sig_pending (sw_desc (lock_sig w))) with (sig_pending (sw_desc w)).
  rewrite settest_deliverable by (done || apply (bx_set _ _ Hok)).
  destruct (Z.eqb_spec (sigset_first (deliverable (sig_pending (sw_desc w)) (not32 set))) 0) as [E|E].
  - rewrite (M_bind_done _ _ _ _ _ (unlock_same _ (iv_lock _ H))).
    eexists _, _. split; [done|]. left. split_and!; [|done..]. by eapply waiting_none.
  - destruct (waiting_next _ _ _ _ Hok eq_refl E) as (Hg & Hmb & a & l & Hq & Hw). cbn [fst snd] in *.
    apply not32_clear in Hmb; [|done]. set (n := sigset_first _) in *. pose proof Hg as [? ?].
    assert (exists i, n = Z.of_nat i + 1) as [i Hi] by (exists (Z.to_nat (n - 1)); lia). clearbody n. subst n.
    replace (Z.of_nat i + 1 - 1) with (Z.of_nat i) in * by lia. rewrite Nat2Z.id in *.
    assert (box_of (lock_sig w) QProcess = Some (sig_pending (sw_desc w), sig_queue (sw_desc w))) as Hbl by done.
    destruct (pop_eq _ _ _ _ _ _ _ Hbl Hq) as (E1 & Hb1 & E2). rewrite (M_bind_done _ _ _ _ _ E1). cbn [snd].
    rewrite (M_bind_done _ _ _ _ _ E2), (M_bind_done _ _ _ _ _ (clear_proc_eq _ _ _ _ _ Hb1)), set_box_twice.
    rewrite (M_bind_done _ _ _ _ _ (unlock_box _ _ _ (iv_lock _ H))).
    eexists _, _. split; [done|]. right. eexists _, _, i, a, l.
    split_and!; [exact Hb|done|exact Hq|done|exact Hw|done|done|done|done|]. intros q. by erewrite box_set_box.
Qed.
