(* ===== verification/SignalWait.v ===== *)
(** * Facts on waiting for signals, on asking what is pending and on discarding *)
From S2P Require Import Prelude Errno Spinlock KMem Queue QueueSpec Wait Signal SignalFacts SignalTake SignalInv.

(** ** [sigtimedwait] *)
Lemma found_ok w p set r w' : sig_inv w -> found w p set r w' ->
  sig_inv w' /\ sig_frame w w' /\ sw_info w' = sw_info w /\
  (r.1 <> 0 -> r.2 <> 0 /\ (exists x, sw_info w !! r.2 = Some x /\ si_signo x = r.1) /\ forall q, ~ queued_at (box_of w') r.2 q).
Proof.
  intros H [(_ & -> & ->)|(pd & qs & i & a & l & Hb & Hg & Hq & _ & _ & -> & Hf & Hi & Hs & Hbox)]; [by split_and!|].
  assert (queued_at (box_of w) a p) as Hqa by (exists (pd, qs), i, (a :: l); split_and!; [done..|by left]).
  split_and!; [|done|done|].
  - apply (sig_inv_frame w); [done..| | |].
    + rewrite Hi. eapply boxes_ok_ext; [intros q; symmetry; apply Hbox|]. eapply boxes_shrink; [apply H|done..|]. by exists [a].
    + rewrite Hs. apply H.
    + by rewrite Hs.
  - intros _. cbn [fst snd]. split_and!; [eapply boxes_not_null; [apply H|done]| |].
    + eapply (bx_info _ _ (bs_ok _ _ (iv_boxes _ H) _ _ Hb)); [exact Hq|]. by left.
    + intros q (b & j & k & Hbq & R). rewrite Hbox in Hbq.
      eapply (shrink_unqueued _ _ p pd qs i [a] l); [apply H|done..|by left|]. by exists b, j, k.
Qed.

(** The siginfo is copied out and freed. *)
Lemma take_found_spec w n a x : sig_inv w -> a <> 0 -> sw_info w !! a = Some x -> (forall q, ~ queued_at (box_of w) a q) ->
  exists w', take_found n a w = Done (n, Some x) w' /\ sig_inv w' /\ sig_frame w w' /\ sw_info w' = delete a (sw_info w) /\
    forall p, box_of w' p = box_of w p.
Proof.
  intros H Ha Hx Hnq. unfold take_found. rewrite (M_bind_done _ _ _ _ _ (the_info_eq _ _ _ Hx)).
  rewrite (M_bind_done _ _ _ _ _ (siginfo_free_eq _ _ _ Ha Hx)). eexists. split; [done|]. split; [|done].
  apply (sig_inv_frame w); [done..| |apply H|done]. apply boxes_free; [apply H|done].
Qed.

(** The first signal of [set] that waits for the thread, or else for the process. *)
Definition first_in_set (w : sigworld) (set : Z) : option Z :=
  match waits_at w (QThread (sw_cur w)) (not32 set), waits_at w QProcess (not32 set) with
  | a :: _, _ => Some a
  | [], a :: _ => Some a
  | [], [] => None
  end.

Lemma check_signals_spec w set : sig_inv w -> is_set set ->
  exists r w', check_signals set w = Done r w' /\ sig_inv w' /\
    match first_in_set w set with
    | None => r = (0, 0) /\ w' = w
    | Some a => exists x, sw_info w !! a = Some x /\ good_signo (si_signo x) /\ Z.testbit set (si_signo x - 1) = true /\
        r = (si_signo x, a) /\ a <> 0 /\ sw_info w' = sw_info w /\ (forall q, ~ queued_at (box_of w') a q)
    end.
Proof.
  intros H Hset. destruct (check_thread_signals_spec w set H Hset) as (r & w1 & E & Hfd).
  destruct (found_ok _ _ _ _ _ H Hfd) as (H1 & Hf & Hi & Hr). unfold check_signals, first_in_set.
  rewrite (M_bind_done _ _ _ _ _ E).
  destruct Hfd as [(Hw & -> & ->)|(pd & qs & i & a & l & _ & Hg & _ & Hbit & Hw & -> & _)].
  - rewrite Hw. cbn [fst]. change (negb (0 =? 0)) with false. cbv iota.
    destruct (check_process_signals_spec w set H Hset) as (r & w2 & E2 & Hfd2). exists r, w2. split; [done|].
    destruct (found_ok _ _ _ _ _ H Hfd2) as (H2 & Hf2 & Hi2 & Hr2). split; [done|].
    destruct Hfd2 as [(Hw2 & -> & ->)|(pd & qs & i & a & l & _ & Hg & _ & Hbit & Hw2 & -> & _)]; rewrite Hw2; [done|].
    destruct Hr2 as (Ha & (x & Hx & Hsx) & Hnq); [simpl; unfold good_signo in *; lia|]. cbn [fst snd] in *.
    exists x. rewrite Hsx. split_and!; try done. by replace (Z.of_nat i + 1 - 1) with (Z.of_nat i) by lia.
  - rewrite Hw. cbn [fst]. pose proof Hg as [? ?]. rewrite (proj2 (Z.eqb_neq _ _)) by lia. exists (Z.of_nat i + 1, a), w1.
    split; [done|]. split; [done|]. destruct Hr as (Ha & (x & Hx & Hsx) & Hnq); [simpl; lia|]. cbn [fst snd] in *.
    exists x. rewrite Hsx. split_and!; try done. by replace (Z.of_nat i + 1 - 1) with (Z.of_nat i) by lia.
Qed.

Section Waits.
Context (yields : nat -> SG unit) (clock : nat -> Z).

(** A signal that waits when the loop looks is returned; it is not pending any more. *)
Lemma timed_loop_found fuel n w set expr a : sig_inv w -> is_set set -> first_in_set w set = Some a ->
  match expr with Some e => time_before (clock n) e = true | None => True end ->
  exists x w', timed_loop yields clock (S fuel) n set expr w = Done (si_signo x, Some x) w' /\
    sw_info w !! a = Some x /\ Z.testbit set (si_signo x - 1) = true /\ sig_inv w' /\ sw_info w' = delete a (sw_info w).
Proof.
  intros H Hset Hfirst Htime. cbn [timed_loop].
  assert (match expr with Some e => negb (time_before (clock n) e) | None => false end = false) as ->
    by (destruct expr; [by rewrite Htime|done]).
  destruct (check_signals_spec w set H Hset) as (r & w1 & E & H1 & Hr). rewrite Hfirst in Hr.
  destruct Hr as (x & Hx & [? ?] & Hbit & -> & Ha & Hi & Hnq). rewrite (M_bind_done _ _ _ _ _ E). cbn [fst snd].
  rewrite (proj2 (Z.eqb_neq _ _)) by lia. rewrite <- Hi in Hx.
  destruct (take_found_spec w1 (si_signo x) a x H1 Ha Hx Hnq) as (w2 & E2 & Hinv2 & _ & Hi2 & _).
  exists x, w2. rewrite <- Hi. by split_and!.
Qed.

(** While nothing arrives the loop goes on until the deadline has passed. *)
Lemma timed_loop_expires k n w set e : sig_inv w -> is_set set -> first_in_set w set = None ->
  (forall j z, yields j z = Done tt z) -> (forall j, (n <= j < n + k)%nat -> time_before (clock j) e = true) ->
  time_before (clock (n + k)%nat) e = false ->
  timed_loop yields clock (S k) n set (Some e) w = Done (- EAGAIN, None) w.
Proof.
  intros H Hset Hnone Hy. revert n. induction k as [|k IH]; intros n Hbefore Hafter; cbn [timed_loop].
  - replace (n + 0)%nat with n in Hafter by lia. by rewrite Hafter.
  - rewrite Hbefore by lia. change (negb true) with false. cbv iota.
    destruct (check_signals_spec w set H Hset) as (r & w1 & E & H1 & Hr). rewrite Hnone in Hr. destruct Hr as [-> ->].
    rewrite (M_bind_done _ _ _ _ _ E). cbn [fst]. change (negb (0 =? 0)) with false. cbv iota.
    rewrite (M_bind_done _ _ _ _ _ (Hy n w)). apply IH.
    + intros j Hj. apply Hbefore. lia.
    + by replace (S n + k)%nat with (n + S k)%nat by lia.
Qed.
End Waits.

(** ** [sigpending] *)
Lemma sigpending_step_bit thr proc mask acc k i : 0 <= k < 32 -> 0 <= i < 32 ->
  Z.testbit (sigpending_step thr proc mask acc k).1 i =
  Z.testbit acc.1 i || (bool_decide (i = k) && (Z.testbit thr i || Z.testbit proc i) && Z.testbit mask i).
Proof.
  intros Hk Hi. unfold sigpending_step. assert (good_signo (k + 1)) as Hg by (unfold good_signo; lia).
  rewrite !sigismember_0, !negb_involutive by done. replace (k + 1 - 1) with k by lia.
  destruct (bool_decide_reflect (i = k)) as [->|Hne].
  - destruct (Z.testbit thr k || Z.testbit proc k), (Z.testbit mask k); simpl; rewrite ?orb_false_r; try done.
    rewrite sigsetadd_eq by done. simpl. rewrite add_bit by (done || lia). by rewrite bool_decide_eq_true_2 by lia.
  - simpl. rewrite orb_false_r. case_match; [|done]. rewrite sigsetadd_eq by done. simpl. rewrite add_bit by (done || lia).
    rewrite bool_decide_eq_false_2 by lia. apply orb_false_r.
Qed.
Lemma sigpending_fold_bit thr proc mask ks acc i : 0 <= i < 32 -> Forall (fun k => 0 <= k < 32) ks ->
  Z.testbit (foldl (sigpending_step thr proc mask) acc ks).1 i =
  Z.testbit acc.1 i || (bool_decide (i ∈ ks) && (Z.testbit thr i || Z.testbit proc i) && Z.testbit mask i).
Proof.
  intros Hi. revert acc. induction ks as [|k ks IH]; intros acc Hks.
  - cbn [foldl]. rewrite (bool_decide_eq_false_2 (i ∈ [])) by apply not_elem_of_nil. by rewrite orb_false_r.
  - apply Forall_cons in Hks as [Hk Hks]. cbn [foldl]. rewrite IH, sigpending_step_bit by done.
    assert (bool_decide (i ∈ k :: ks) = bool_decide (i = k) || bool_decide (i ∈ ks)) as ->.
    { rewrite <- bool_decide_or. apply bool_decide_ext. apply elem_of_cons. }
    destruct (Z.testbit acc.1 i), (bool_decide (i = k)), (bool_decide (i ∈ ks)),
      (Z.testbit thr i || Z.testbit proc i), (Z.testbit mask i); done.
Qed.
Lemma indices_range : Forall (fun k => 0 <= k < 32) indices.
Proof. apply Forall_forall. intros k Hk. apply elem_of_seqZ in Hk. unfold NSIG in Hk. lia. Qed.

(** The blocked signals that are pending for the thread or the process are added to
    what the set held before the call. *)
Lemma sigpending_spec w set : sig_inv w ->
  exists x r s, sw_thr w !! sw_cur w = Some x /\ sigpending set w = Done (r, s) w /\
    forall i, 0 <= i < 32 ->
      Z.testbit s i = Z.testbit set i || (Z.testbit (t_sigpending x) i || Z.testbit (sig_pending (sw_desc w)) i) && Z.testbit (t_sigmask x) i.
Proof.
  intros H. destruct (iv_cur _ H) as [x Hx]. destruct (iv_thr _ H _ _ Hx) as (_ & Hf & _). exists x.
  unfold sigpending, current_lock, thread_sigpending. rewrite M_bind_assoc. rewrite (M_bind_done _ _ _ (sw_cur w) w) by done.
  rewrite (M_bind_done _ _ _ _ _ (lock_th_eq _ _ _ Hx Hf)). set (wl := lock_th _ x w).
  rewrite (M_bind_done _ _ _ (sw_cur w) wl) by done.
  rewrite !M_bind_assoc, (M_bind_done _ _ _ _ _ (thread_assert_locked_eq wl (sw_cur w) (lock_th_holds w (sw_cur w) x))).
  rewrite !M_bind_assoc, (M_bind_done _ _ _ _ _ (signal_lock_eq wl (iv_lock _ H))).
  change (set_desc _ wl) with (lock_sig wl). rewrite !M_bind_assoc.
  erewrite M_bind_done by (apply the_th_eq; simpl; apply lookup_insert_eq). rewrite !M_bind_assoc, (M_bind_done _ _ _ _ _ (the_desc_eq _)).
  rewrite !M_bind_assoc, (M_bind_done _ _ _ _ _ (unlock_same wl (iv_lock _ H))). cbn [t_sigpending t_sigmask th_set_lock].
  set (r := foldl _ _ _). rewrite (M_bind_done _ _ _ (if 0 <? r.2 then 0 else -1, r.1) wl) by done.
  rewrite (M_bind_done _ _ _ _ _ (cur_unlock_eq w wl (sw_cur w) _ eq_refl (lock_unlock_th _ _ _ Hx Hf))).
  eexists _, _. split; [done|]. split; [done|]. intros i Hi. subst r. rewrite sigpending_fold_bit by (done || apply indices_range).
  rewrite bool_decide_eq_true_2; [done|]. apply elem_of_seqZ. unfold NSIG. lia.
Qed.

(** ** Discarding *)
Lemma elem_of_concat {A} (a : A) ls : a ∈ concat ls <-> exists l, a ∈ l /\ l ∈ ls.
Proof.
  induction ls as [|l ls IH]; simpl.
  - split; [by intros ?%not_elem_of_nil|]. by intros (l & _ & ?%not_elem_of_nil).
  - rewrite elem_of_app, IH. setoid_rewrite elem_of_cons. naive_solver.
Qed.
Lemma box_concat_nodup I b : box_ok I b -> NoDup (concat b.2).
Proof.
  intros [_ _ _ Hinfo Hnd]. destruct b as [pd qs]. cbn [snd] in *. clear pd.
  assert (forall k, (forall i l a, qs !! i = Some l -> a ∈ l -> exists x, I !! a = Some x /\ si_signo x = Z.of_nat (k + i) + 1) -> NoDup (concat qs))
    as Hgen; [|by apply (Hgen O)].
  clear Hinfo. induction qs as [|l qs IH]; intros k Hinfo; [apply NoDup_nil_2|]. simpl. apply NoDup_app. split_and!.
  - apply (Hnd O). done.
  - intros a Ha (m & Ham & Hm)%elem_of_concat. apply list_elem_of_lookup in Hm as [i Hi].
    destruct (Hinfo O l a eq_refl Ha) as (x & Hx & Hsx). destruct (Hinfo (S i) m a Hi Ham) as (y & Hy & Hsy).
    simplify_eq. lia.
  - apply (IH ltac:(intros i; apply (Hnd (S i))) (S k)). intros i m a Hm Ha.
    destruct (Hinfo (S i) m a Hm Ha) as (x & Hx & Hsx). exists x. split; [done|]. lia.
Qed.
Lemma empty_box_ok I : box_ok I (0, EMPTY_QUEUES).
Proof.
  assert (forall i l, EMPTY_QUEUES !! i = Some l -> l = []) as He by (intros i l Hl; apply lookup_replicate in Hl; tauto).
  split; cbn [fst snd]; [done|apply is_set_0| | |].
  - intros i l ->%He. by rewrite Z.bits_0, bool_decide_eq_false_2 by auto.
  - intros i l a ->%He Ha. by apply not_elem_of_nil in Ha.
  - intros i l ->%He. apply NoDup_nil_2.
Qed.

(** All the queues of a place are flushed and its set is emptied. *)
Lemma flush_box_eq w p b : box_of w p = Some b -> boxes_ok (box_of w) (sw_info w) ->
  flush_all p indices w = Done tt (set_info (free_all (sw_info w) (concat b.2)) (set_box p (b.1, EMPTY_QUEUES) w)) /\
  boxes_ok (upd_box (box_of w) p (0, EMPTY_QUEUES)) (free_all (sw_info w) (concat b.2)).
Proof.
  intros Hb Hbx. destruct b as [pd qs]. cbn [fst snd]. pose proof (bs_ok _ _ Hbx _ _ Hb) as Hok.
  assert (forall a, a ∈ concat qs -> queued_at (box_of w) a p) as Hqa.
  { intros a (l & Hal & Hl)%elem_of_concat. apply list_elem_of_lookup in Hl as [i Hi]. by exists (pd, qs), i, l. }
  split.
  - pose proof (flush_all_eq p w pd qs 32 Hb (box_concat_nodup _ _ Hok) (bx_len _ _ Hok) (le_n _)) as E.
    change (32 - 32)%nat with O in E. rewrite drop_0, take_0 in E. apply E. intros a Ha. split; [by eapply boxes_not_null; eauto|by eapply box_live; eauto].
  - apply boxes_free_list.
    + apply (boxes_ok_upd _ (sw_info w) _ _ (pd, qs) _ (fun _ => False)); [done|done|apply empty_box_ok|apply (bs_null _ _ Hbx)| |done|done].
      intros a i l Hl Ha. cbn [snd] in Hl. apply lookup_replicate in Hl as [-> _]. by apply not_elem_of_nil in Ha.
    + intros a q Ha [[-> (i & l & Hl & Hal)]|[Hne Hq]]%queued_upd.
      * cbn [snd] in Hl. apply lookup_replicate in Hl as [-> _]. by apply not_elem_of_nil in Hal.
      * apply Hne. by apply (bs_uniq _ _ Hbx a); [|apply Hqa].
Qed.

(** The descriptor and the thread that [discard_signals] leaves. *)
Definition desc_reset (d : signal_t) : signal_t :=
  mkSignal 0 0 EMPTY_QUEUES (map (fun _ => mkSigact 0 0 sigsetempty) (sig_action d)) (sig_lock d).
Definition th_reset (x : sigthread) : sigthread := th_set_pending 0 (th_set_mask 0 (th_set_queue EMPTY_QUEUES x)).

Lemma reset_process_spec w : sig_inv w ->
  (do! signal_lock in do! signal_reset in signal_unlock) w =
    Done tt (set_info (free_all (sw_info w) (concat (sig_queue (sw_desc w)))) (set_desc (desc_reset (sw_desc w)) w)) /\
  sig_inv (set_info (free_all (sw_info w) (concat (sig_queue (sw_desc w)))) (set_desc (desc_reset (sw_desc w)) w)).
Proof.
  intros H. split.
  - rewrite (M_bind_done _ _ _ tt (lock_sig w)) by (apply signal_lock_eq, H).
    unfold signal_reset. rewrite M_bind_assoc.
    rewrite (M_bind_done _ _ _ _ _ (signal_assert_locked_eq _ (lock_sig_holds w))).
    destruct (flush_box_eq (lock_sig w) QProcess _ eq_refl (iv_boxes _ H)) as [E _].
    rewrite M_bind_assoc, (M_bind_done _ _ _ _ _ E). unfold M_bind, upd_desc. cbv beta iota.
    erewrite signal_unlock_eq; [|done|apply H]. done.
  - destruct (flush_box_eq w QProcess _ eq_refl (iv_boxes _ H)) as [_ Hok]. destruct H. split; try done; simpl.
    + eapply boxes_ok_ext; [|exact Hok]. intros [u|]; [by rewrite upd_box_ne|by rewrite upd_box_eq].
    + by rewrite length_map.
    + apply Forall_forall. intros a Ha. apply list_elem_of_fmap in Ha as (b & -> & _). apply mask_ok_0.
    + apply mask_ok_0.
Qed.

Lemma reset_thread_spec w t x : sig_inv w -> sw_thr w !! t = Some x ->
  (do! thread_lock t in do! thread_reset_signal t in thread_unlock t) w =
    Done tt (set_info (free_all (sw_info w) (concat (t_sigqueue x))) (set_th t (th_reset x) w)) /\
  sig_inv (set_info (free_all (sw_info w) (concat (t_sigqueue x))) (set_th t (th_reset x) w)).
Proof.
  intros H Hx. destruct (iv_thr _ H _ _ Hx) as (_ & Hf & Hts).
  assert (box_of w (QThread t) = Some (t_sigpending x, t_sigqueue x)) as Hb by (simpl; by rewrite Hx). split.
  - rewrite (M_bind_done _ _ _ _ _ (lock_th_eq _ _ _ Hx Hf)). unfold thread_reset_signal. rewrite M_bind_assoc.
    rewrite (M_bind_done _ _ _ _ _ (thread_assert_locked_eq _ _ (lock_th_holds w t x))).
    destruct (flush_box_eq (lock_th t x w) (QThread t) _ ltac:(rewrite lock_th_box by done; exact Hb) (lock_th_boxes _ _ _ Hx (iv_boxes _ H))) as [E _].
    rewrite M_bind_assoc, (M_bind_done _ _ _ _ _ E). cbn [fst snd set_box]. simpl sw_thr. rewrite lookup_insert_eq.
    unfold upd_th, the_th, M_bind. simpl. rewrite !lookup_insert_eq. simpl. rewrite !lookup_insert_eq.
    erewrite thread_unlock_eq; [|simpl; by rewrite lookup_insert_eq|done|exact Hf].
    f_equal. unfold set_info, set_th. simpl. rewrite !insert_insert_eq. done.
  - destruct (flush_box_eq w (QThread t) _ Hb (iv_boxes _ H)) as [_ Hok].
    assert (forall u, is_Some (sw_thr w !! u) -> is_Some (<[t := th_reset x]> (sw_thr w) !! u)) as Hd.
    { intros u Hu. destruct (decide (u = t)) as [->|]; [rewrite lookup_insert_eq; eauto|by rewrite lookup_insert_ne]. }
    destruct H. split; try done; simpl; auto.
    + eapply boxes_ok_ext; [|exact Hok]. intros [u|]; [|by rewrite upd_box_ne]. simpl. unfold upd_box.
      destruct (decide (QThread u = QThread t)) as [[= ->]|]; [by rewrite lookup_insert_eq|rewrite lookup_insert_ne by congruence; done].
    + intros u y Hy. destruct (decide (u = t)) as [->|].
      * rewrite lookup_insert_eq in Hy. injection Hy as <-. split_and!; [apply mask_ok_0|done..].
      * rewrite lookup_insert_ne in Hy by done. auto.
Qed.

(** Both parts of [discard_signals]. *)
Lemma discard_signals_spec w : sig_inv w ->
  exists x w', sw_thr w !! sw_cur w = Some x /\ discard_signals w = Done tt w' /\ sig_inv w' /\
    box_of w' QProcess = Some (0, EMPTY_QUEUES) /\ box_of w' (QThread (sw_cur w)) = Some (0, EMPTY_QUEUES) /\
    sw_info w' = free_all (free_all (sw_info w) (concat (sig_queue (sw_desc w)))) (concat (t_sigqueue x)).
Proof.
  intros H. destruct (iv_cur _ H) as [x Hx]. destruct (reset_process_spec w H) as [E1 H1]. set (w1 := set_info _ _) in *.
  destruct (reset_thread_spec w1 (sw_cur w) x H1 Hx) as [E2 H2]. exists x. eexists. split; [done|]. split; [|split; [exact H2|]].
  - unfold discard_signals. rewrite <- !M_bind_assoc in E1.
    assert (forall (k : SG unit), (do! signal_lock in do! signal_reset in do! signal_unlock in k) w = k w1) as Hk.
    { intros k. rewrite <- (M_bind_done (do! signal_lock in do! signal_reset in signal_unlock) (fun _ => k) w tt w1) by (by rewrite <- !M_bind_assoc).
      rewrite !M_bind_assoc. apply M_bind_cong. intros [] z _. by rewrite M_bind_assoc. }
    rewrite Hk. rewrite (M_bind_done _ _ _ (sw_cur w) w1) by done. exact E2.
  - split; [done|]. split; [|done]. simpl. by rewrite lookup_insert_eq.
Qed.
