(* ===== verification/SignalProps.v ===== *)
(** * Theorems on signals *)
From S2P Require Import Prelude Errno Spinlock KMem Queue QueueSpec Sample Wait Signal SignalFacts SignalTake SignalInv SignalWait.

(** ** Sequences of operations *)

(** One round of the loop of [sigtimedwait]. *)
Definition sigwait_round (set : Z) : SG unit :=
  let! r := check_signals set in
  if negb (r.1 =? 0) then do! take_found r.1 r.2 in ret! tt else ret! tt.

Inductive sig_op :=
  | OKill (t : tid) (signo val : Z)
  | OProcKill (signo val : Z)
  | OMask (how : Z) (set : option Z)
  | OProcMask (how : Z) (set : option Z)
  | OAction (signo : Z) (act : option sigaction_t)
  | OPending (set : Z)
  | OTake
  | OWait (set : Z)
  | ODiscard.

Section Exec.
Context {KA : KAlloc}.

Definition sig_exec (o : sig_op) : SG unit :=
  match o with
  | OKill t n v => let! _ := pthread_sigqueue t n v in ret! tt
  | OProcKill n v => let! _ := proc_send_signal n v in ret! tt
  | OMask how set => let! _ := pthread_sigmask how set in ret! tt
  | OProcMask how set => let! _ := sigprocmask how set in ret! tt
  | OAction n act => let! _ := sigaction n act true in ret! tt
  | OPending set => let! _ := sigpending set in ret! tt
  | OTake => let! _ := take_signal in ret! tt
  | OWait set => sigwait_round set
  | ODiscard => discard_signals
  end.
Fixpoint sig_run (os : list sig_op) : SG unit :=
  match os with
  | [] => ret! tt
  | o :: os => do! sig_exec o in sig_run os
  end.

(** Sets are unsigned ints; a new action is not to ignore the signal. *)
Definition sig_legal (o : sig_op) : Prop :=
  match o with
  | OMask _ set | OProcMask _ set => forall m, set = Some m -> is_set m
  | OAction n act => action_legal n act
  | OWait set => is_set set
  | _ => True
  end.

Lemma sig_exec_keeps w o : sig_inv w -> sig_legal o -> wp (sig_exec o) (fun _ w' => sig_inv w') w.
Proof.
  intros H Ho. destruct o as [t n v|n v|how set|how set|n act|set| |set|]; simpl in *.
  - destruct (pthread_sigqueue_spec w t n v H) as (r & w' & E & H' & _). unfold wp. by rewrite (M_bind_done _ _ _ _ _ E).
  - destruct (proc_send_signal_spec w n v H) as (r & w' & E & H' & _). unfold wp. by rewrite (M_bind_done _ _ _ _ _ E).
  - destruct (pthread_sigmask_spec w how set H Ho) as (x & _ & E & H'). unfold wp. by rewrite (M_bind_done _ _ _ _ _ E).
  - destruct (sigprocmask_spec w how set H Ho) as (r & w' & E & H'). unfold wp. by rewrite (M_bind_done _ _ _ _ _ E).
  - destruct (sigaction_spec w n act true H Ho) as (r & w' & E & H' & _). unfold wp. by rewrite (M_bind_done _ _ _ _ _ E).
  - destruct (sigpending_spec w set H) as (x & r & s & _ & E & _). unfold wp. by rewrite (M_bind_done _ _ _ _ _ E).
  - destruct (take_signal_spec w H) as (x & r & w' & _ & E & H' & _). unfold wp. by rewrite (M_bind_done _ _ _ _ _ E).
  - destruct (check_signals_spec w set H Ho) as (r & w' & E & H' & Hr). unfold wp, sigwait_round. rewrite (M_bind_done _ _ _ _ _ E).
    destruct (first_in_set w set) as [a|]; [|by destruct Hr as [-> _]].
    destruct Hr as (x & Hx & [? ?] & _ & -> & Ha & Hi & Hnq). cbn [fst snd]. rewrite (proj2 (Z.eqb_neq _ _)) by lia. cbn [negb]. rewrite <- Hi in Hx.
    destruct (take_found_spec w' (si_signo x) a x H' Ha Hx Hnq) as (w2 & E2 & Hinv2 & _). by rewrite (M_bind_done _ _ _ _ _ E2).
  - destruct (discard_signals_spec w H) as (x & w' & _ & E & H' & _). unfold wp. by rewrite E.
Qed.

Lemma sig_run_keeps w os : sig_inv w -> Forall sig_legal os -> wp (sig_run os) (fun _ w' => sig_inv w') w.
Proof.
  intros H Hos. revert w H. induction Hos as [|o os Ho _ IH]; intros w H; [done|].
  cbn [sig_run]. apply wp_bind. eapply wp_mono; [by apply sig_exec_keeps|]. intros ? w' H'. by apply IH.
Qed.
End Exec.

(** ** A small world *)
Definition idle_sched : @sys unit :=
  mkSys tt ∅ {[ 0%nat := [2%nat] ]}
    {[ 1%nat := mkThread false WAKEUP_NONE false None [] regs0; 2%nat := mkThread true WAKEUP_NONE false (Some 0%nat) [] regs0 ]} false.
Definition fresh_thread : sigthread := mkSigthread SPINLOCK_INIT 0 0 EMPTY_QUEUES 0 None (mkUcStack 0 0 0) false.
Definition small_world : sigworld :=
  mkSigworld (mkWho 1 1000) 1%nat 7 [1%nat; 2%nat] SPINLOCK_INIT {[ 1%nat := fresh_thread; 2%nat := fresh_thread ]}
    (mkSignal 0 0 EMPTY_QUEUES (replicate 32 SIGACT_ZERO) SPINLOCK_INIT) ∅ 0 idle_sched.

Lemma small_boxes t x : sw_thr small_world !! t = Some x -> x = fresh_thread.
Proof. unfold small_world. cbn [sw_thr]. by intros [[_ <-]|[_ [_ <-]%lookup_singleton_Some]]%lookup_insert_Some. Qed.
Lemma small_inv : sig_inv small_world.
Proof.
  assert (forall p b, box_of small_world p = Some b -> b = (0, EMPTY_QUEUES)) as Hb.
  { intros [t|] b Hb; [|simpl in Hb; congruence]. cbn [box_of] in Hb.
    destruct (sw_thr small_world !! t) as [x|] eqn:Hx; [|done]. apply small_boxes in Hx as ->. simpl in Hb. congruence. }
  split.
  - split; [intros p b ->%Hb; apply empty_box_ok| |done].
    intros a p p' (b & i & l & ->%Hb & Hl & Ha) _. cbn [snd] in Hl. apply lookup_replicate in Hl as [-> _]. by apply not_elem_of_nil in Ha.
  - intros t x Hx. pose proof (small_boxes _ _ Hx) as ->. split_and!; [apply mask_ok_0|done|].
    unfold small_world in Hx. cbn [sw_thr] in Hx.
    apply lookup_insert_Some in Hx as [[<- _]|[_ [<- _]%lookup_singleton_Some]]; eexists; vm_compute; done.
  - done.
  - apply Forall_replicate, mask_ok_0.
  - apply mask_ok_0.
  - done.
  - done.
  - intros t Ht. repeat (apply elem_of_cons in Ht as [->|Ht]; [eexists; vm_compute; done|]). by apply not_elem_of_nil in Ht.
  - eexists. vm_compute. done.
  - split; [done|]. intros t th q Hth Ha Hq.
    unfold small_world, idle_sched in Hth. cbn [sw_sched sy_threads] in Hth.
    apply lookup_insert_Some in Hth as [[_ <-]|[_ [<- <-]%lookup_singleton_Some]]; [done|].
    injection Hq as <-. vm_compute. by left.
Qed.

(** The world after a sequence of operations, with an allocator that does not run out. *)
Definition world_after (os : list sig_op) : sigworld :=
  match sig_run (KA:=slot_alloc) os small_world with Done _ w => w | _ => small_world end.
Lemma world_after_inv os : Forall sig_legal os -> sig_inv (world_after os).
Proof.
  intros Hos. pose proof (sig_run_keeps (KA:=slot_alloc) small_world os small_inv Hos) as H.
  unfold wp in H. unfold world_after. by destruct (sig_run os small_world).
Qed.
Ltac legal_op := first [exact I | intros ? [= <-]; apply is_set_small; vm_compute; split; [done|reflexivity]].
Ltac legal := repeat (apply Forall_cons_2; [legal_op|]); apply Forall_nil_2.


Definition sample_ops : list sig_op :=
  [OKill 1%nat SIGUSR1 5; OKill 2%nat SIGINT 6; OProcKill SIGTERM 7; OKill 1%nat SIGUSR1 8; OKill 1%nat SIGHUP 9; OPending 0; OKill 9%nat SIGHUP 0; OKill 1%nat 40 0].
Lemma sample_legal : Forall sig_legal sample_ops.
Proof. unfold sample_ops. legal. Qed.

(** ** The order of delivery *)

(** Take signals until none gets through. *)
Fixpoint drain (fuel : nat) : SG (list (siginfo_t * signal_target_t)) :=
  match fuel with
  | O => M_diverge
  | S fuel =>
      let! r := take_signal in
      match r with
      | None => ret! []
      | Some x => let! rs := drain fuel in ret! (x :: rs)
      end
  end.

Lemma waits_queued w p m a : a ∈ waits_at w p m -> queued_at (box_of w) a p.
Proof.
  unfold waits_at. destruct (box_of w p) as [b|] eqn:Hb; [|by intros ?%not_elem_of_nil].
  intros (l & Ha & Hl)%elem_of_concat. apply list_elem_of_lookup in Hl as [i Hi]. rewrite list_lookup_imap in Hi.
  destruct (b.2 !! i) as [q|] eqn:Hq; [|done]. injection Hi as <-. unfold let_through in Ha.
  destruct (Z.testbit m (Z.of_nat i)); [by apply not_elem_of_nil in Ha|]. by exists b, i, q.
Qed.
(** What still waits after one signal was taken is described by the same siginfos. *)
Lemma waits_info w w' p m a b : sig_inv w' -> sw_info w' = delete a (sw_info w) -> b ∈ waits_at w' p m ->
  sw_info w' !! b = sw_info w !! b.
Proof.
  intros H Hi Hb. destruct (box_live _ _ _ _ (iv_boxes _ H) (waits_queued _ _ _ _ Hb)) as [x Hx].
  rewrite Hi in Hx |- *. rewrite lookup_delete_ne; [done|]. intros ->. by rewrite lookup_delete_eq in Hx.
Qed.

Lemma Forall2_impl_elem {A B} (P Q : A -> B -> Prop) l k :
  Forall2 P l k -> (forall x y, x ∈ l -> P x y -> Q x y) -> Forall2 Q l k.
Proof.
  induction 1 as [|x y l k HP _ IH]; intros HQ; constructor; [apply HQ; [by left|done]|]. apply IH. intros ? ? ?. apply HQ. by right.
Qed.


(** SIGHUP is blocked; SIGUSR1 twice and SIGINT for the thread, SIGTERM for the process. *)
Definition blocked_ops : list sig_op :=
  [OMask SIG_BLOCK (Some (SIG_BIT SIGHUP)); OKill 1%nat SIGUSR1 5; OProcKill SIGTERM 7; OKill 1%nat SIGUSR1 8; OKill 1%nat SIGHUP 9; OKill 1%nat SIGINT 4].
Definition blocked_world : sigworld := Eval vm_compute in world_after blocked_ops.
Definition blocked_thread : sigthread := Eval vm_compute in default fresh_thread (sw_thr blocked_world !! 1%nat).
Lemma blocked_inv : sig_inv blocked_world.
Proof.
  assert (blocked_world = world_after blocked_ops) as -> by (vm_compute; reflexivity).
  apply world_after_inv. unfold blocked_ops. legal.
Qed.
Example drained_values :
  match drain 9 blocked_world with Done rs _ => map (fun r => (si_signo r.1, si_value r.1)) rs | _ => [] end =
  [(SIGINT, 4); (SIGUSR1, 5); (SIGUSR1, 8); (SIGTERM, 7)].
Proof. vm_compute. reflexivity. Qed.

(** ** Ignoring a signal *)

(** C39: [sigaction] that makes a signal ignored (SIG_IGN, or SIG_DFL for a signal whose
    default is to be ignored) walks the thread group without holding its lock, which
    [foreach_thread] asserts: the kernel panics. *)
Theorem sigaction_ignore_panics w n a oact :
  sig_inv w -> good_signo n -> sig_handler_ignored (sa_handler a) n = true -> sigaction n (Some a) oact w = Panic.
Proof.
  intros H Hn Hign. pose proof Hn as [? ?]. unfold sigaction, do_sigaction. rewrite !SIGBAD_good by done.
  destruct (lookup_lt_is_Some_2 (sig_action (sw_desc w)) (Z.to_nat (n - 1))) as [old Hold]; [rewrite (iv_len _ H); lia|].
  rewrite (M_bind_done _ _ _ tt (lock_sig w)) by (apply signal_lock_eq, H).
  assert (forall z b, sig_action (sw_desc z) !! Z.to_nat (n - 1) = Some b -> the_action (n - 1) z = Done b z) as Hta.
  { intros z b Hb. unfold the_action. rewrite (M_bind_done _ _ _ _ _ (the_desc_eq _)).
    rewrite (proj2 (Z.ltb_ge _ _)) by lia. by rewrite Hb. }
  rewrite (M_bind_done _ _ _ _ _ (Hta (lock_sig w) old Hold)). apply M_bind_panic. set (a' := act_set_mask _ a).
  unfold put_action, upd_desc at 1. erewrite M_bind_done by done. set (w1 := set_desc _ (lock_sig w)).
  assert (sig_action (sw_desc w1) !! Z.to_nat (n - 1) = Some a') as Ha'
    by (subst w1; simpl; apply list_lookup_insert_eq; by apply lookup_lt_Some in Hold).
  unfold sig_handler. rewrite !M_bind_assoc, (M_bind_done _ _ _ _ _ (signal_assert_locked_eq w1 (lock_sig_holds w))), !M_bind_assoc.
  rewrite (M_bind_done _ _ _ _ _ (Hta w1 a' Ha')). rewrite (M_bind_done _ _ _ (sa_handler a') w1) by done.
  replace (sa_handler a') with (sa_handler a) by done. rewrite Hign.
  assert (exists i, n = Z.of_nat i + 1) as [i ->] by (exists (Z.to_nat (n - 1)); lia). replace (Z.of_nat i + 1 - 1) with (Z.of_nat i) by lia.
  assert (box_of w1 QProcess = Some (sig_pending (sw_desc w), sig_queue (sw_desc w))) as Hb by done.
  pose proof (bs_ok _ _ (iv_boxes _ H) QProcess _ eq_refl) as Hok.
  destruct (box_queue _ _ _ Hok Hn) as [l Hl]. replace (Z.to_nat (Z.of_nat i + 1 - 1)) with i in Hl by lia. cbn [snd] in Hl.
  rewrite (M_bind_done _ _ _ _ _ (sigqueue_flush_eq QProcess i l w1 _ _ Hb Hl (bx_nodup _ _ Hok _ _ Hl)
    ltac:(intros b Hbl; assert (queued_at (box_of w) b QProcess) as Hq by (by exists (sig_pending (sw_desc w), sig_queue (sw_desc w)), i, l);
          split; [eapply boxes_not_null|eapply box_live]; eauto; apply H))).
  apply M_bind_panic. unfold group_assert_locked, M_assert. simpl. unfold holding. by rewrite (proj1 (iv_glock _ H)).
Qed.
Lemma sigaction_ignore_panics_witness :
  sig_handler_ignored SIG_IGN SIGINT = true /\ sigaction SIGINT (Some (mkSigact SIG_IGN 0 0)) false blocked_world = Panic.
Proof.
  split; [reflexivity|].
  exact (sigaction_ignore_panics blocked_world SIGINT (mkSigact SIG_IGN 0 0) false blocked_inv ltac:(vm_compute; split; discriminate) eq_refl).
Defined.

(** ** Dispatch *)

(** The signal that is next for the running thread. *)
Definition next_signal (w : sigworld) (x : sigthread) : option (Z * signal_target_t) :=
  match waits_at w (QThread (sw_cur w)) (t_sigmask x), waits_at w QProcess (t_sigmask x) with
  | a :: _, _ => Some (a, signalTargetThread)
  | [], a :: _ => Some (a, signalTargetProcess)
  | [], [] => None
  end.

Lemma upd_set_th t f y w : upd_th t f (set_th t y w) = Done tt (set_th t (f y) w).
Proof. unfold upd_th, the_th, M_bind. simpl. rewrite lookup_insert_eq. by rewrite set_th_twice. Qed.
Lemma the_set_th t y w : the_th t (set_th t y w) = Done y (set_th t y w).
Proof. apply the_th_eq. simpl. apply lookup_insert_eq. Qed.
Lemma lock_box_comm t x w p b xb : sw_thr w !! t = Some x -> sw_thr (set_box p b w) !! t = Some xb ->
  set_box p b (lock_th t x w) = lock_th t xb (set_box p b w).
Proof.
  intros Hx Hxb. destruct p as [u|]; [|simpl in *; simplify_eq; done]. unfold lock_th. simpl in *.
  destruct (decide (u = t)) as [->|Hne].
  - rewrite lookup_insert_eq. rewrite Hx in *. simpl in Hxb. rewrite lookup_insert_eq in Hxb. injection Hxb as <-.
    rewrite !set_th_twice. done.
  - rewrite lookup_insert_ne by done. destruct (sw_thr w !! u) as [y|] eqn:Hy; [|by simplify_eq].
    simpl in Hxb. rewrite lookup_insert_ne in Hxb by done. simplify_eq. unfold set_th. simpl. by rewrite insert_insert_ne.
Qed.

Section DispatchFacts.
Context (rh : Z -> Z -> option Z -> SG unit).

(** What is left of [signal_dispatch] once a signal is taken and the mask is set. *)
Definition handle_signal (t : tid) (siginfo : Z) (info : siginfo_t) (oact : sigaction_t) (target : signal_target_t) : SG (option Z) :=
  if sig_handler_ignored (sa_handler oact) (si_signo info) then ret! None
  else if sa_handler oact =? SIG_DFL then do_default_action siginfo target
  else
    do! upd_th t (fun x => th_set_nested (t_nsig_nested x + 1) x) in
    do! (let! _ := arch_signal_dispatch rh oact siginfo in ret! tt) in
    do! upd_th t (fun x => th_set_nested (t_nsig_nested x - 1) x) in
    ret! None.
Definition finish_signal (siginfo oset : Z) (exited : option Z) : SG sig_out :=
  match exited with
  | Some status => ret! (SExit status)
  | None => do! signal_mask_restore oset in do! siginfo_free siginfo in do! current_unlock in ret! (SRet 0)
  end.

(** The mask while a signal is handled. *)
Definition handler_mask (m : Z) (signo : Z) (act : sigaction_t) : Z :=
  let set := sa_mask act in
  let set := if Z.land (sa_flags act) SA_NODEFER =? 0 then (sigsetadd set signo).2 else set in
  (sigmask m SIG_BLOCK (Some set)).2.
Definition entered (signo : Z) (act : sigaction_t) (x : sigthread) : sigthread :=
  th_set_uc (option_map (fun _ => t_sigmask x) (t_uc_sigmask x)) (th_set_mask (handler_mask (t_sigmask x) signo act) x).

Lemma dispatch_prefix w x a tg inf act :
  sig_inv w -> sw_thr w !! sw_cur w = Some x -> t_nsig_nested x <= ARCH_NSIG_NESTED -> next_signal w x = Some (a, tg) ->
  sw_info w !! a = Some inf -> sig_action (sw_desc w) !! Z.to_nat (si_signo inf - 1) = Some act ->
  exists wb xb, sig_inv wb /\ sig_frame w wb /\ sw_thr wb !! sw_cur w = Some xb /\ sw_info wb = sw_info w /\ a <> 0 /\
    (forall q, ~ queued_at (box_of wb) a q) /\ good_signo (si_signo inf) /\ Z.testbit (t_sigmask x) (si_signo inf - 1) = false /\
    signal_dispatch rh w =
      (let! e := handle_signal (sw_cur w) a inf act tg in finish_signal a (t_sigmask x) e)
        (set_th (sw_cur w) (entered (si_signo inf) act (th_set_lock (lk_held (sw_who w) (th_lock x)) xb)) wb).
Proof.
  intros H Hx Hn Hnext Hinf Hact. destruct (iv_thr _ H _ _ Hx) as (Hm & Hf & _). set (t := sw_cur w) in *.
  pose proof (lock_th_boxes _ _ _ Hx (iv_boxes _ H)) as Hbx.
  destruct (signal_dequeue_spec (lock_th t x w) t (th_set_lock (lk_held (sw_who w) (th_lock x)) x) Hbx
     (lock_th_holds w t x) ltac:(simpl; apply lookup_insert_eq) Hm (iv_len _ H) (iv_lock _ H)) as (r & w1 & E & Htk).
  cbn [t_sigmask th_set_lock] in Htk. pose proof (took_ok _ _ _ _ _ Hbx Htk) as (Hbx1 & Hfr & Hi1 & Hsc1 & Hun).
  unfold next_signal in Hnext. fold t in Hnext. destruct Htk as [Hw1 Hw2|p tg' pd qs i a' l act' Hp Hb Hg Hmi Hq Ha Hw].
  { rewrite waits_lock in Hw1, Hw2 by done. by rewrite Hw1, Hw2 in Hnext. }
  assert (a' = a /\ tg' = tg) as [-> ->].
  { rewrite lock_th_box in Hb by done. destruct Hp as [[-> ->]|(-> & -> & Hnone)].
    - assert (waits_at w (QThread t) (t_sigmask x) = waiting (pd, qs) (t_sigmask x)) as E1 by (unfold waits_at; by rewrite Hb).
      rewrite E1, Hw in Hnext. by simplify_eq.
    - rewrite waits_lock in Hnone by done. assert (waits_at w QProcess (t_sigmask x) = waiting (pd, qs) (t_sigmask x)) as E1 by (unfold waits_at; by rewrite Hb).
      rewrite Hnone, E1, Hw in Hnext. by simplify_eq. }
  destruct (Hun a act' tg eq_refl) as (Ha0 & _ & Hnq).
  destruct (bx_info _ _ (bs_ok _ _ Hbx _ _ Hb) _ _ a Hq) as (inf' & Hinf' & Hsi); [by left|].
  change (sw_info w !! a = Some inf') in Hinf'. assert (inf' = inf) as -> by congruence.
  rewrite Hsi in *. replace (Z.of_nat i + 1 - 1) with (Z.of_nat i) in * by lia. rewrite Nat2Z.id in Hact.
  change (sig_action (sw_desc w) !! i = Some act') in Ha. assert (act' = act) as -> by congruence.
  set (b := (del_if_empty pd i l, <[i:=l]> qs)) in *.
  destruct (frame_th (fun y => (t_sigmask y, t_nsig_nested y, t_uc_sigmask y, th_lock y)) _ _ _ _
    ltac:(intros y z Hyz; unfold th_rest, th_set_pending, th_set_queue in Hyz; simpl in Hyz; injection Hyz as E1 E2 E3 E4 _ _; cbv beta; congruence)
    (frame_box w p b) Hx) as (xb & Hxb & [= Em _ Eu El]).
  exists (set_box p b w), xb.
  assert (forall q, box_of (set_box p b (lock_th t x w)) q = box_of (set_box p b w) q) as Hbq.
  { intros q. rewrite (lock_box_comm _ _ _ _ _ _ Hx Hxb). by apply lock_th_box. }
  assert (sw_info (set_box p b w) = sw_info w) as Hi by (destruct p; simpl; by repeat case_match).
  assert (sw_sched (set_box p b w) = sw_sched w) as Hs by (destruct p; simpl; by repeat case_match).
  split_and!; try done.
  - apply (sig_inv_frame w); [done|apply frame_box| |rewrite Hs; apply H|by rewrite Hs].
    rewrite Hi. eapply boxes_ok_ext; [exact Hbq|]. change (sw_info w) with (sw_info (lock_th t x w)). by rewrite <- Hi1.
  - apply frame_box.
  - intros q (c & j & k & Hc & R). rewrite <- Hbq in Hc. apply (Hnq q). by exists c, j, k.
  - unfold signal_dispatch, current_lock. rewrite M_bind_assoc, (M_bind_done _ _ _ t w) by done.
    rewrite (M_bind_done _ _ _ _ _ (lock_th_eq _ _ _ Hx Hf)). unfold signal_check_pending. rewrite M_bind_assoc.
    rewrite (M_bind_done _ _ _ t (lock_th t x w)) by done. rewrite M_bind_assoc.
    rewrite (M_bind_done _ _ _ _ _ (the_set_th t _ w : the_th t (lock_th t x w) = _)). cbn [t_nsig_nested th_set_lock]. rewrite (proj2 (Z.ltb_ge _ _)) by done.
    rewrite M_bind_assoc, (M_bind_done _ _ _ _ _ E). rewrite M_bind_assoc.
    rewrite (M_bind_done _ _ _ _ _ (the_info_eq _ a inf ltac:(rewrite Hi1; exact Hinf))).
    rewrite (lock_box_comm _ _ _ _ _ _ Hx Hxb). unfold lock_th. set (wb := set_box p b w) in *.
    assert (sw_who wb = sw_who w) as Hwho by (subst wb; destruct p; simpl; by repeat case_match). rewrite Hwho, El.
    assert (sw_cur wb = t) as Hcur by (subst wb; destruct p; simpl; by repeat case_match).
    unfold signal_mask_block. rewrite !M_bind_assoc.
    rewrite (M_bind_done _ _ _ t (set_th t (th_set_lock (lk_held (sw_who w) (th_lock x)) xb) wb)) by (unfold cur; simpl; by rewrite Hcur).
    rewrite !M_bind_assoc, (M_bind_done _ _ _ _ _ (the_set_th _ _ _)), !M_bind_assoc.
    rewrite (M_bind_done _ _ _ _ _ (upd_set_th _ _ _ _)). cbn [t_sigmask th_set_lock]. rewrite Em.
    rewrite (M_bind_done _ _ _ (t_sigmask x) _) by done. rewrite !M_bind_assoc, (M_bind_done _ _ _ _ _ (upd_set_th _ _ _ _)).
    rewrite Hsi. rewrite M_bind_assoc. unfold entered, handler_mask. cbn [t_sigmask t_uc_sigmask th_set_lock th_set_mask].
    assert ((sigmask sigsetempty SIG_SETMASK (Some (sa_mask act))).2 = sa_mask act) as ->.
    { rewrite sigmask_ok; [done|]. pose proof (iv_act _ H) as HF. by apply (Forall_lookup_1 _ _ _ _ HF Ha). }
    assert (forall m, (sigmask m SIG_SETMASK (Some (t_sigmask x))).2 = t_sigmask x) as Hset by (intros m; by rewrite sigmask_ok).
    assert (option_map (fun m => (sigmask m SIG_SETMASK (Some (t_sigmask x))).2) (t_uc_sigmask xb)
            = option_map (fun _ => t_sigmask x) (t_uc_sigmask xb)) as -> by (destruct (t_uc_sigmask xb); cbn [option_map]; by rewrite ?Hset).
    rewrite Em. unfold handle_signal. rewrite Hsi. apply M_bind_cong. intros [e|] z _; [done|]. unfold finish_signal.
    rewrite !M_bind_assoc. apply M_bind_cong. intros [] z1 _. rewrite M_bind_assoc. by apply M_bind_cong.
Qed.
End DispatchFacts.

Lemma cur_eq w t : sw_cur w = t -> cur w = Done t w.
Proof. unfold cur. by intros ->. Qed.
Lemma terminate_acts n : sig_terminate n = true -> sig_ignore n = false /\ sig_abort n = false.
Proof.
  unfold sig_terminate, sig_ignore, sig_abort, sig_acts. intros E%bool_decide_eq_true. rewrite E. by split.
Qed.

(** A signal of the process whose action is the default and whose default is to
    terminate does not terminate anything: [do_terminate] frees the siginfo and gives the
    thread's lock back, and [signal_check_pending] frees the siginfo again. *)
Theorem process_terminate_double_free rh w x a inf act :
  sig_inv w -> sw_thr w !! sw_cur w = Some x -> t_nsig_nested x <= ARCH_NSIG_NESTED ->
  next_signal w x = Some (a, signalTargetProcess) -> sw_info w !! a = Some inf ->
  sig_action (sw_desc w) !! Z.to_nat (si_signo inf - 1) = Some act ->
  sa_handler act = SIG_DFL -> sig_terminate (si_signo inf) = true ->
  signal_dispatch rh w = Fault.
Proof.
  intros H Hx Hn Hnext Hinf Hact Hdfl Hterm. destruct (terminate_acts _ Hterm) as [Hign Habrt].
  destruct (dispatch_prefix rh w x a _ inf act H Hx Hn Hnext Hinf Hact) as (wb & xb & Hb & Hfr & Hxb & Hi & Ha0 & _ & _ & _ & E).
  rewrite E. unfold handle_signal, sig_handler_ignored. rewrite Hdfl, Hign. cbn [Z.eqb SIG_DFL SIG_IGN andb orb].
  unfold do_default_action, do_terminate. set (wl := set_th _ _ wb).
  assert (sw_info wl !! a = Some inf) as Hil by (subst wl; simpl; by rewrite Hi).
  rewrite M_bind_assoc, (M_bind_done _ _ _ _ _ (the_info_eq _ _ _ Hil)), Habrt, Hterm.
  rewrite M_bind_assoc, (M_bind_done _ _ _ _ _ (the_info_eq _ _ _ Hil)).
  rewrite M_bind_assoc, (M_bind_done _ _ _ _ _ (siginfo_free_eq _ _ _ Ha0 Hil)). set (wf := set_info _ wl).
  destruct (iv_thr _ H _ _ Hx) as (_ & Hfree & _). pose proof (fr_cur _ _ Hfr) as Hc. pose proof (fr_who _ _ Hfr) as Hw.
  assert (sw_thr wf !! sw_cur w = Some (entered (si_signo inf) act (th_set_lock (lk_held (sw_who w) (th_lock x)) xb))) as Hxf
    by (subst wf wl; simpl; apply lookup_insert_eq).
  assert (thread_unlock (sw_cur w) wf = Done tt (set_th (sw_cur w) (th_set_lock (th_lock x) (entered (si_signo inf) act (th_set_lock (lk_held (sw_who w) (th_lock x)) xb))) wf)) as Eu
    by (apply thread_unlock_eq; [done|subst wf wl; simpl; by rewrite Hw|done]).
  rewrite M_bind_assoc, (M_bind_done _ _ _ _ _ (cur_unlock_eq _ wf (sw_cur w) _ Hc Eu)). cbv beta iota. cbn [finish_signal].
  set (wu := set_th _ _ wf). rewrite (M_bind_done _ _ _ None wu) by done. cbn [finish_signal]. unfold signal_mask_restore. rewrite M_bind_assoc.
  rewrite (M_bind_done _ _ _ _ _ (cur_eq wu (sw_cur w) Hc)). subst wu. rewrite (M_bind_done _ _ _ _ _ (upd_set_th _ _ _ _)).
  apply M_bind_fault. unfold siginfo_free. rewrite (proj2 (Z.eqb_neq a 0)) by done. simpl. by rewrite lookup_delete_eq.
Qed.

Definition term_ops : list sig_op := [OProcKill SIGTERM 7].
Definition term_world : sigworld := Eval vm_compute in world_after term_ops.
Lemma term_inv : sig_inv term_world.
Proof.
  assert (term_world = world_after term_ops) as -> by (vm_compute; reflexivity).
  apply world_after_inv. unfold term_ops. legal.
Qed.
Lemma process_terminate_double_free_witness :
  next_signal term_world fresh_thread = Some (65536, signalTargetProcess) /\
  signal_dispatch (fun _ _ _ => ret! tt) term_world = Fault.
Proof.
  split; [vm_compute; reflexivity|].
  exact (process_terminate_double_free (fun _ _ _ => ret! tt) term_world fresh_thread 65536 (mkSiginfo SIGTERM 0 7 0 0 0 7) SIGACT_ZERO
           term_inv eq_refl ltac:(vm_compute; discriminate) ltac:(vm_compute; reflexivity) eq_refl eq_refl eq_refl eq_refl).
Defined.

(** ** Running a handler *)

(** The world a handler is called in: no lock is held, the signal is out of its queue,
    its siginfo still live, and the thread has the mask, the nesting level and the saved
    mask of the handler. *)
Definition called_in (w w1 : sigworld) (x : sigthread) (a n : Z) (act : sigaction_t) : Prop :=
  sig_inv w1 /\ sw_cur w1 = sw_cur w /\ sw_info w1 = sw_info w /\ (forall q, ~ queued_at (box_of w1) a q) /\
  exists x1, sw_thr w1 !! sw_cur w = Some x1 /\ t_sigmask x1 = handler_mask (t_sigmask x) n act /\
    t_nsig_nested x1 = t_nsig_nested x + 1 /\ t_handling x1 = true /\ t_uc_sigmask x1 = option_map (fun _ => t_sigmask x) (t_uc_sigmask x).
(** What a handler must leave when it returns. *)
Definition returns_in (w : sigworld) (a : Z) (w2 : sigworld) : Prop :=
  sig_inv w2 /\ sw_cur w2 = sw_cur w /\ is_Some (sw_info w2 !! a) /\ (forall q, ~ queued_at (box_of w2) a q).

Lemma bycall_spec rh (t : tid) w y lk act a inf Q :
  sw_cur w = t -> th_lock y = lk_held (sw_who w) lk -> lk_free lk -> sw_info w !! a = Some inf ->
  wp (rh (sa_handler act) (si_signo inf) (if Z.land (sa_flags act) SA_SIGINFO =? 0 then None else Some a))
     (fun _ w2 => exists x2, sw_cur w2 = t /\ sw_thr w2 !! t = Some x2 /\ lk_free (th_lock x2) /\
        forall b, Q 0 (set_th t (th_set_handling b (th_set_lock (lk_held (sw_who w2) (th_lock x2)) x2)) w2))
     (set_th t (th_set_lock lk (th_set_handling true y)) w) ->
  wp (x86_64_signal_bycall rh act a) Q (set_th t y w).
Proof.
  intros Hc Hl Hf Hi Hrh. unfold x86_64_signal_bycall. unfold wp. rewrite (M_bind_done _ _ _ t (set_th t y w)) by (by apply cur_eq).
  rewrite (M_bind_done _ _ _ _ _ (the_set_th _ _ _)), (M_bind_done _ _ _ _ _ (upd_set_th _ _ _ _)).
  assert (thread_unlock t (set_th t (th_set_handling true y) w) = Done tt (set_th t (th_set_lock lk (th_set_handling true y)) w)) as Eu.
  { erewrite thread_unlock_eq; [|simpl; apply lookup_insert_eq|exact Hl|done]. by rewrite set_th_twice. }
  rewrite (M_bind_done _ _ _ _ _ (cur_unlock_eq _ (set_th t (th_set_handling true y) w) t _ Hc Eu)). unfold call_handler.
  rewrite M_bind_assoc, (M_bind_done _ _ _ _ _ (the_info_eq (set_th t (th_set_lock lk (th_set_handling true y)) w) _ _ Hi)).
  apply wp_done in Hrh as ([] & w2 & E2 & x2 & Hc2 & Hx2 & Hf2 & HQ). rewrite (M_bind_done _ _ _ _ _ E2).
  unfold current_lock. rewrite M_bind_assoc, (M_bind_done _ _ _ _ _ (cur_eq _ _ Hc2)), (M_bind_done _ _ _ _ _ (lock_th_eq _ _ _ Hx2 Hf2)).
  unfold M_when, lock_th. destruct (t_handling y); cbn [negb].
  - specialize (HQ (t_handling x2)). by destruct x2.
  - rewrite (M_bind_done _ _ _ _ _ (upd_set_th _ _ _ _)). apply HQ.
Qed.

Lemma handler_mask_ok m n act : mask_ok m -> mask_ok (sa_mask act) -> good_signo n -> mask_ok (handler_mask m n act).
Proof.
  intros Hm Ha Hn. unfold handler_mask. apply sigmask_mask_ok; [done|]. intros s [= <-].
  case_match; [|apply Ha]. rewrite sigsetadd_eq by done. apply is_set_lor; [apply Ha|by apply is_set_bit].
Qed.


Definition caught_action : sigaction_t := mkSigact 5000 0 (SIG_BIT SIGHUP).
Definition caught_ops : list sig_op := [OAction SIGINT (Some caught_action); OKill 1%nat SIGINT 4].
Definition caught_world : sigworld := Eval vm_compute in world_after caught_ops.
Definition caught_thread : sigthread := Eval vm_compute in default fresh_thread (sw_thr caught_world !! 1%nat).
Lemma caught_inv : sig_inv caught_world.
Proof.
  assert (caught_world = world_after caught_ops) as -> by (vm_compute; reflexivity). apply world_after_inv.
  apply Forall_cons_2; [|unfold caught_ops; legal]. intros a [= <-]. split; [|done].
  apply is_set_small; vm_compute; split; [done|reflexivity].
Qed.

(** ** Waiting for a signal *)

(** [sigtimedwait], with or without a timeout that has not passed, returns at once the
    first signal of the set that waits for the thread or else for the process, blocked
    or not, with its siginfo, and takes it out of its queue; SIGKILL and SIGSTOP are
    never returned. *)
Theorem sigtimedwait_takes_waiting yields clock w set timeout a fuel :
  let set' := sigsetdelmask (sigsetor sigsetempty set) (Z.lor (SIGMASK SIGKILL) (SIGMASK SIGSTOP)) in
  sig_inv w -> is_set set -> first_in_set w set' = Some a ->
  (forall ts, timeout = Some ts -> 0 <= tv_sec ts /\ 0 <= tv_nsec ts < 1000000000 /\
     time_before (clock 1%nat) (u64 (jiffies_from_timespec ts + clock O)) = true) ->
  wp (sigtimedwait yields clock (S fuel) set timeout) (fun r w' =>
    exists x, sw_info w !! a = Some x /\ r = (si_signo x, Some x) /\ Z.testbit set (si_signo x - 1) = true /\
      si_signo x <> SIGKILL /\ si_signo x <> SIGSTOP /\ sig_inv w' /\ sw_info w' = delete a (sw_info w)) w.
Proof.
  intros set' H Hset Hfirst Hto. unfold wp, sigtimedwait. fold set'.
  assert (mask_ok set') as (Hs' & Hk & Ht) by (apply delmask_ok; unfold sigsetor; by rewrite Z.lor_0_l).
  assert (match timeout with Some ts => (1000000000 <=? tv_nsec ts) || ((tv_sec ts <? 0) || (tv_nsec ts <? 0)) | None => false end = false) as ->.
  { destruct timeout as [ts|]; [|done]. destruct (Hto ts eq_refl) as (? & ? & _).
    rewrite !orb_false_iff, Z.leb_gt, !Z.ltb_ge. lia. }
  destruct (timed_loop_found yields clock fuel 1 w set' (option_map (fun ts => u64 (jiffies_from_timespec ts + clock O)) timeout) a
    H Hs' Hfirst) as (x & w' & E & Hx & Hbit & H' & Hi').
  { destruct timeout as [ts|]; [|done]. by destruct (Hto ts eq_refl) as (_ & _ & ?). }
  rewrite E. exists x. split_and!; [done|done| | | |done|done].
  - unfold set', sigsetdelmask in Hbit. rewrite Z.land_spec in Hbit. apply andb_true_iff in Hbit as [Hbit _].
    unfold sigsetor in Hbit. by rewrite Z.lor_0_l in Hbit.
  - intros Es. rewrite Es in Hbit. change (SIGKILL - 1) with 13 in Hbit. congruence.
  - intros Es. rewrite Es in Hbit. change (SIGSTOP - 1) with 18 in Hbit. congruence.
Qed.
Lemma sigtimedwait_takes_waiting_witness :
  first_in_set blocked_world (SIG_BIT SIGHUP) = Some 65920 /\
  wp (sigtimedwait (fun _ => ret! tt) Z.of_nat 1 (SIG_BIT SIGHUP) (Some (mkTimespec 1 0))) (fun r w' =>
    exists x, sw_info blocked_world !! 65920 = Some x /\ r = (si_signo x, Some x) /\ Z.testbit (SIG_BIT SIGHUP) (si_signo x - 1) = true /\
      si_signo x <> SIGKILL /\ si_signo x <> SIGSTOP /\ sig_inv w' /\ sw_info w' = delete 65920 (sw_info blocked_world)) blocked_world.
Proof.
  split; [vm_compute; reflexivity|].
  refine (sigtimedwait_takes_waiting (fun _ => ret! tt) Z.of_nat blocked_world (SIG_BIT SIGHUP) (Some (mkTimespec 1 0)) 65920 0
    blocked_inv (is_set_bit SIGHUP ltac:(vm_compute; split; discriminate)) ltac:(vm_compute; reflexivity) _).
  intros ts [= <-]. split; [discriminate|]. split; [split; [discriminate|reflexivity]|vm_compute; reflexivity].
Defined.
