(* ===== verification/Vmm.v ===== *)
(** * Kernel virtual addresses (mm/vmm/vmm.c)

    The kernel's heap of virtual addresses: a list of free and a list of used regions,
    both doubly linked and sorted by address, whose nodes come from a third list of
    unused nodes.  The nodes live in one array; the model has them by address.  The
    spinlock of the file is a [spinlock_t]; [debug] and the dump functions are left out. *)
From S2P Require Import Prelude Errno Spinlock Queue Pmm.

(** ** State *)
Record node_t := mkVnode { vn_prev : Z; vn_base : Z; vn_size : Z; vn_next : Z }.
Definition VNODE_ZERO : node_t := mkVnode 0 0 0 0.
Definition vset_prev (x : Z) (n : node_t) : node_t := mkVnode x (vn_base n) (vn_size n) (vn_next n).
Definition vset_base (x : Z) (n : node_t) : node_t := mkVnode (vn_prev n) x (vn_size n) (vn_next n).
Definition vset_size (x : Z) (n : node_t) : node_t := mkVnode (vn_prev n) (vn_base n) x (vn_next n).
Definition vset_next (x : Z) (n : node_t) : node_t := mkVnode (vn_prev n) (vn_base n) (vn_size n) x.

Record vmm := mkVmm {
  vm_who : who; vm_lk : spinlock_t; kheap_size : Z; initialized : bool; used_memsz : Z;
  free_node_list : Z; usedvmr_list : Z; freevmr_list : Z; vm_nodes : gmap Z node_t
}.
Definition VM (A : Type) := M vmm A.

Definition vm_set_lk (x : spinlock_t) (s : vmm) : vmm :=
  mkVmm (vm_who s) x (kheap_size s) (initialized s) (used_memsz s) (free_node_list s) (usedvmr_list s) (freevmr_list s) (vm_nodes s).
Definition vm_set_heap (x : Z) (s : vmm) : vmm :=
  mkVmm (vm_who s) (vm_lk s) x (initialized s) (used_memsz s) (free_node_list s) (usedvmr_list s) (freevmr_list s) (vm_nodes s).
Definition vm_set_init (x : bool) (s : vmm) : vmm :=
  mkVmm (vm_who s) (vm_lk s) (kheap_size s) x (used_memsz s) (free_node_list s) (usedvmr_list s) (freevmr_list s) (vm_nodes s).
Definition vm_set_inuse (x : Z) (s : vmm) : vmm :=
  mkVmm (vm_who s) (vm_lk s) (kheap_size s) (initialized s) x (free_node_list s) (usedvmr_list s) (freevmr_list s) (vm_nodes s).
Definition vm_set_spare (x : Z) (s : vmm) : vmm :=
  mkVmm (vm_who s) (vm_lk s) (kheap_size s) (initialized s) (used_memsz s) x (usedvmr_list s) (freevmr_list s) (vm_nodes s).
Definition vm_set_used (x : Z) (s : vmm) : vmm :=
  mkVmm (vm_who s) (vm_lk s) (kheap_size s) (initialized s) (used_memsz s) (free_node_list s) x (freevmr_list s) (vm_nodes s).
Definition vm_set_free (x : Z) (s : vmm) : vmm :=
  mkVmm (vm_who s) (vm_lk s) (kheap_size s) (initialized s) (used_memsz s) (free_node_list s) (usedvmr_list s) x (vm_nodes s).
Definition vm_set_nodes (x : gmap Z node_t) (s : vmm) : vmm :=
  mkVmm (vm_who s) (vm_lk s) (kheap_size s) (initialized s) (used_memsz s) (free_node_list s) (usedvmr_list s) (freevmr_list s) x.

Definition vupd (f : vmm -> vmm) : VM unit := fun s => Done tt (f s).
Definition vload (p : Z) : VM node_t := fun s => match vm_nodes s !! p with Some n => Done n s | None => Fault end.
Definition vstore (p : Z) (n : node_t) : VM unit := fun s =>
  match vm_nodes s !! p with Some _ => Done tt (vm_set_nodes (<[p := n]> (vm_nodes s)) s) | None => Fault end.
Definition vmodify (p : Z) (f : node_t -> node_t) : VM unit := let! n := vload p in vstore p (f n).
(** [if (p) p->member = x]. *)
Definition vmodify_opt (p : Z) (f : node_t -> node_t) : VM unit := M_when (negb (is_null p)) (vmodify p f).
(** How many steps a walk over nodes can take. *)
Definition vfuel : VM nat := fun s => Done (S (size (vm_nodes s))) s.

Definition vm_lock : VM unit := fun s =>
  match lock_acquire (vm_who s) (vm_lk s) with Done _ lk => Done tt (vm_set_lk lk s) | Panic => Panic | Fault => Fault | Diverge => Diverge end.
Definition vm_unlock : VM unit := fun s =>
  match lock_release (vm_who s) (vm_lk s) with Done _ lk => Done tt (vm_set_lk lk s) | Panic => Panic | Fault => Fault | Diverge => Diverge end.
Definition vm_assert_locked : VM unit := fun s => M_assert (holding (vm_who s) (vm_lk s)) s.
Definition node_assert (p : Z) : VM unit := M_assert (negb (is_null p)).

(** ** Unused nodes *)
Definition free_node_get : VM Z :=
  do! vm_assert_locked in
  let! s := M_get in
  let node := free_node_list s in
  if is_null node then ret! 0 else
  let! n := vload node in
  do! vupd (vm_set_spare (vn_next n)) in
  do! vmodify_opt (vn_next n) (vset_prev 0) in
  do! vstore node VNODE_ZERO in
  ret! node.
Definition free_node_put (node : Z) : VM unit :=
  do! node_assert node in
  do! vm_assert_locked in
  do! vstore node VNODE_ZERO in
  let! s := M_get in
  do! vmodify node (vset_next (free_node_list s)) in
  do! vmodify_opt (free_node_list s) (vset_prev node) in
  vupd (vm_set_spare node).

(** ** Regions *)
Definition can_merge_prev (node prev : Z) : VM bool :=
  do! node_assert node in
  do! vm_assert_locked in
  if is_null prev then ret! false else
  let! n := vload node in
  let! q := vload prev in
  ret! (u64 (vn_base q + vn_size q) =? vn_base n).
Definition can_merge_next (node next : Z) : VM bool :=
  do! node_assert node in
  do! vm_assert_locked in
  if is_null next then ret! false else
  let! n := vload node in
  let! q := vload next in
  ret! (u64 (vn_base n + vn_size n) =? vn_base q).

Fixpoint usedvmr_walk (fuel : nat) (node base next tail : Z) : VM unit :=
  match fuel with
  | O => M_diverge
  | S fuel =>
      if is_null next then
        if is_null tail then vupd (vm_set_used node)
        else do! vmodify tail (vset_next node) in vmodify node (vset_prev tail)
      else
        let! x := vload next in
        if base <? vn_base x then
          do! vmodify node (vset_next next) in
          do! (if is_null (vn_prev x) then vupd (vm_set_used node) else vmodify (vn_prev x) (vset_next node)) in
          do! vmodify node (vset_prev (vn_prev x)) in
          vmodify next (vset_prev node)
        else usedvmr_walk fuel node base (vn_next x) next
  end.
Definition usedvmr_put (node : Z) : VM unit :=
  do! node_assert node in
  do! vm_assert_locked in
  do! vmodify node (vset_next 0) in
  do! vmodify node (vset_prev 0) in
  let! n := vload node in
  let! s := M_get in
  let! fuel := vfuel in
  usedvmr_walk fuel node (vn_base n) (usedvmr_list s) 0.

Fixpoint usedvmr_find_from (fuel : nat) (base node : Z) : VM (Z * Z) :=
  match fuel with
  | O => M_diverge
  | S fuel =>
      if is_null node then ret! (- ENOENT, 0) else
      let! x := vload node in
      if base =? vn_base x then ret! (0, node) else usedvmr_find_from fuel base (vn_next x)
  end.
Definition usedvmr_find (base : Z) : VM (Z * Z) :=
  do! vm_assert_locked in
  if base =? 0 then ret! (- EINVAL, 0) else
  let! s := M_get in
  let! fuel := vfuel in
  usedvmr_find_from fuel base (usedvmr_list s).

(** The place of an address among the free regions: the last region below it and the
    first that is not. *)
Fixpoint freevmr_place (fuel : nat) (base prev next : Z) : VM (Z * Z) :=
  match fuel with
  | O => M_diverge
  | S fuel =>
      if is_null next then ret! (prev, next) else
      let! x := vload next in
      if vn_base x <? base then freevmr_place fuel base next (vn_next x) else ret! (prev, next)
  end.
Definition freevmr_put (node : Z) : VM unit :=
  let! s := M_get in
  do! node_assert node in
  do! vm_assert_locked in
  do! vmodify node (vset_next 0) in
  do! vmodify node (vset_prev 0) in
  let! n := vload node in
  let! fuel := vfuel in
  let! place := freevmr_place fuel (vn_base n) 0 (freevmr_list s) in
  let prev := place.1 in
  let next := place.2 in
  let! down := (if is_null prev then ret! false else can_merge_prev node prev) in
  if down then
    do! vmodify prev (fun q => vset_size (u64 (vn_size q + vn_size n)) q) in
    let! up := (if is_null next then ret! false else can_merge_next prev next) in
    do! M_when up
          (let! x := vload next in
           do! vmodify prev (fun q => vset_size (u64 (vn_size q + vn_size x)) q) in
           do! vmodify prev (vset_next (vn_next x)) in
           do! vmodify_opt (vn_next x) (vset_prev prev) in
           free_node_put next) in
    free_node_put node
  else
    let! up := (if is_null next then ret! false else can_merge_next node next) in
    if up then
      do! vmodify next (fun x => vset_size (u64 (vn_size x + vn_size n)) x) in
      do! vmodify next (fun x => vset_base (u64 (vn_base x - vn_size n)) x) in
      do! (if is_null prev then vupd (vm_set_free next) else vmodify prev (vset_next next)) in
      do! vmodify next (vset_prev prev) in
      free_node_put node
    else
      do! vmodify node (vset_next next) in
      do! vmodify node (vset_prev prev) in
      do! vmodify_opt next (vset_prev node) in
      if is_null prev then vupd (vm_set_free node) else vmodify prev (vset_next node).

Fixpoint freevmr_get_from (fuel : nat) (size node : Z) : VM (Z * Z) :=
  match fuel with
  | O => M_diverge
  | S fuel =>
      if is_null node then ret! (- ENOMEM, 0) else
      let! x := vload node in
      if size <=? vn_size x then ret! (0, node) else freevmr_get_from fuel size (vn_next x)
  end.
Definition freevmr_get (size : Z) : VM (Z * Z) :=
  do! vm_assert_locked in
  if size =? 0 then ret! (- EINVAL, 0) else
  let! s := M_get in
  let! fuel := vfuel in
  freevmr_get_from fuel size (freevmr_list s).

(** ** The interface *)

(** [alloc] once the heap is initialised: the error and the address. *)
Definition vmm_alloc_region (size : Z) : VM (Z * Z) :=
  do! vm_lock in
  let! r := freevmr_get size in
  if negb (r.1 =? 0) then do! vm_unlock in ret! (r.1, 0) else
  let split := r.2 in
  let! x := vload split in
  let! addr :=
    (if size <? vn_size x then
       let! node := free_node_get in
       do! node_assert node in
       do! vmodify node (vset_base (vn_base x)) in
       do! vmodify split (fun x => vset_base (u64 (vn_base x + size)) x) in
       do! vmodify split (fun x => vset_size (u64 (vn_size x - size)) x) in
       do! vmodify node (vset_size size) in
       do! usedvmr_put node in
       ret! (vn_base x)
     else if vn_size x =? size then
       do! vmodify_opt (vn_next x) (vset_prev (vn_prev x)) in
       do! (if is_null (vn_prev x) then vupd (vm_set_free (vn_next x)) else vmodify (vn_prev x) (vset_next (vn_next x))) in
       do! usedvmr_put split in
       ret! (vn_base x)
     else M_panic) in
  do! vupd (fun s => vm_set_inuse (u64 (used_memsz s + size)) s) in
  do! vm_unlock in
  ret! (0, addr).

Definition vmm_free_region (addr : Z) : VM unit :=
  do! M_assert (negb (is_null addr)) in
  do! vm_lock in
  let! r := usedvmr_find addr in
  if negb (r.1 =? 0) then vm_unlock else
  let node := r.2 in
  let! x := vload node in
  do! (if is_null (vn_prev x) then vupd (vm_set_used (vn_next x)) else vmodify (vn_prev x) (vset_next (vn_next x))) in
  do! vmodify_opt (vn_next x) (vset_prev (vn_prev x)) in
  do! vupd (fun s => vm_set_inuse (u64 (used_memsz s - vn_size x)) s) in
  do! freevmr_put node in
  vm_unlock.

Definition vmm_free (addr : Z) : VM unit := vmm_free_region addr.
Definition vmm_getinuse : VM Z := let! s := M_get in ret! (used_memsz s).
Definition vmm_getfreesize : VM Z := let! s := M_get in ret! (u64 (kheap_size s - used_memsz s)).
Definition vmm_active : VM bool := let! s := M_get in ret! (initialized s).

(** ** Initialisation

    [total] is [bootinfo.total] in KiB and [addr] what [pmman.get_pages] answers for the
    array of nodes, whose memory holds [junk].  [memset] clears as many bytes as a
    pointer has: the first member of the first node.  The watermark that detects two
    initialisations at once is left out. *)
Definition KHEAPBASE : Z := V2HI (GiB 4).
Definition SIZEOF_NODE : Z := 32.
Definition NNODES (s : vmm) : Z := kheap_size s / PGSZ.
Fixpoint link_nodes (n : nat) (i count nodes : Z) : VM unit :=
  match n with
  | O => ret! tt
  | S n =>
      do! M_when (0 <? i) (vmodify (nodes + i * SIZEOF_NODE) (vset_prev (nodes + (i - 1) * SIZEOF_NODE))) in
      do! M_when (i + 1 <? count) (vmodify (nodes + i * SIZEOF_NODE) (vset_next (nodes + (i + 1) * SIZEOF_NODE))) in
      link_nodes n (i + 1) count nodes
  end.
Definition node_array (junk : Z -> node_t) (nodes count : Z) : gmap Z node_t :=
  list_to_map (map (fun i => (nodes + i * SIZEOF_NODE, junk i)) (seqZ 0 count)).
Definition vmm_init (total addr : Z) (junk : Z -> node_t) : VM Z :=
  let! s := M_get in
  if initialized s then ret! 0 else
  do! vm_lock in
  do! vupd (vm_set_heap (u64 (KiB total * 2))) in
  let! s := M_get in
  let nodes := V2HI addr in
  do! vupd (vm_set_nodes (node_array junk nodes (NNODES s))) in
  do! vmodify nodes (vset_prev 0) in
  do! link_nodes (Z.to_nat (NNODES s)) 0 (NNODES s) nodes in
  do! vupd (vm_set_spare nodes) in
  let! node := free_node_get in
  do! vstore node (mkVnode 0 KHEAPBASE (kheap_size s) 0) in
  do! freevmr_put node in
  do! vupd (vm_set_init true) in
  do! vm_unlock in
  ret! 0.

(** [vmm_alloc]: the address, 0 when there is none. *)
Definition vmm_alloc (total addr : Z) (junk : Z -> node_t) (size : Z) : VM Z :=
  let! s := M_get in
  do! (if initialized s then ret! tt else let! _ := vmm_init total addr junk in ret! tt) in
  let! r := vmm_alloc_region size in
  ret! r.2.
