(* ===== verification/VmmFacts.v ===== *)
(** * Facts on the lists of kernel virtual memory

    The three lists of Vmm.v as lists of nodes, and what each operation does to them. *)
From S2P Require Import Prelude Errno Spinlock KMem Queue Dll Pmm Vmm.

(** ** Segments of region nodes *)

(** A node with its address, and the base and size of its region. *)
Definition region : Type := Z * Z.
Definition vlist : Type := list (Z * region).
Implicit Types (l k : vlist) (h : gmap Z node_t).

Fixpoint rseg (h : gmap Z node_t) (pv : Z) (l : vlist) (nx : Z) : Prop :=
  match l with
  | [] => True
  | (p, r) :: l => h !! p = Some (mkVnode pv r.1 r.2 (hd_addr l nx)) /\ rseg h p l nx
  end.

Lemma rseg_app h pv l1 l2 nx : rseg h pv (l1 ++ l2) nx <-> rseg h pv l1 (hd_addr l2 nx) /\ rseg h (last_addr l1 pv) l2 nx.
Proof.
  revert pv. induction l1 as [|[p d] l1 IH]; intros pv; simpl; [naive_solver|]. rewrite IH, hd_addr_app. naive_solver.
Qed.
Lemma rseg_ext h h' pv l nx : (forall p, p ∈ addrs l -> h' !! p = h !! p) -> rseg h pv l nx -> rseg h' pv l nx.
Proof.
  revert pv. induction l as [|[p d] l IH]; intros pv Hext; simpl; [done|].
  intros [Hp Hl]. setoid_rewrite elem_of_addrs_cons in Hext. simpl in Hext. split; [rewrite Hext; auto|apply IH; auto].
Qed.
Lemma rseg_insert h pv l nx p n : p ∉ addrs l -> rseg h pv l nx -> rseg (<[p := n]> h) pv l nx.
Proof. intros Hp. apply rseg_ext. intros q Hq. apply lookup_insert_ne. by intros ->. Qed.
Lemma rseg_dom h pv l nx p : rseg h pv l nx -> p ∈ addrs l -> is_Some (h !! p).
Proof.
  revert pv. induction l as [|[q d] l IH]; intros pv; simpl; [intros _ []%not_elem_of_addrs_nil|].
  intros [Hq Hl] [->|Hp]%elem_of_addrs_cons; [eauto|]. by apply (IH q).
Qed.
Lemma rseg_length h pv l nx : rseg h pv l nx -> dll_ok l -> (length l <= size h)%nat.
Proof.
  intros Hs [Hn _]. assert (list_to_set (addrs l) ⊆ dom h) as Hsub.
  { intros p Hp. apply elem_of_list_to_set in Hp. apply elem_of_dom. by eapply rseg_dom. }
  pose proof (subseteq_size _ _ Hsub) as Hsz. rewrite size_list_to_set in Hsz by done. rewrite size_dom in Hsz.
  unfold addrs in Hsz. by rewrite length_fmap in Hsz.
Qed.
Lemma rseg_mid h pv l1 p r l2 nx : rseg h pv (l1 ++ (p, r) :: l2) nx ->
  h !! p = Some (mkVnode (last_addr l1 pv) r.1 r.2 (hd_addr l2 nx)).
Proof. intros [_ [H _]]%rseg_app. done. Qed.

(** Unused nodes are linked by [next] only as far as they are used. *)
Fixpoint nchain (h : gmap Z node_t) (ns : list Z) : Prop :=
  match ns with
  | [] => True
  | p :: ns => (exists n, h !! p = Some n /\ vn_next n = default 0 (hd_error ns)) /\ nchain h ns
  end.
Lemma nchain_ext h h' ns : (forall p, p ∈ ns -> h' !! p = h !! p) -> nchain h ns -> nchain h' ns.
Proof.
  induction ns as [|p ns IH]; intros Hext; simpl; [done|]. intros [(n & Hn & En) Hns].
  setoid_rewrite elem_of_cons in Hext. split; [exists n; rewrite Hext; auto|]. apply IH; auto.
Qed.
Lemma nchain_prev h ns p n x : h !! p = Some n -> nchain h ns -> nchain (<[p := vset_prev x n]> h) ns.
Proof.
  intros Hp. induction ns as [|q ns IH]; simpl; [done|]. intros [(m & Hm & Em) Hns]. split; [|auto].
  destruct (decide (q = p)) as [->|]; [|exists m; by rewrite lookup_insert_ne].
  exists (vset_prev x n). rewrite lookup_insert_eq. split; [done|]. simpl. congruence.
Qed.

(** ** The heap as a whole *)
Definition nodes_of (F U : vlist) (N : list Z) : list Z := addrs F ++ addrs U ++ N.
Record vmm_rep (s : vmm) (F U : vlist) (N : list Z) : Prop := {
  vr_free : rseg (vm_nodes s) 0 F 0; vr_free_hd : freevmr_list s = hd_addr F 0;
  vr_used : rseg (vm_nodes s) 0 U 0; vr_used_hd : usedvmr_list s = hd_addr U 0;
  vr_spare : nchain (vm_nodes s) N; vr_spare_hd : free_node_list s = default 0 (hd_error N);
  vr_nodup : NoDup (nodes_of F U N); vr_addr : Forall addr_ok (nodes_of F U N);
  vr_held : holding (vm_who s) (vm_lk s) = true
}.

(** What the operations on lists leave alone. *)
Record vmm_frame (s s' : vmm) : Prop := {
  vf_who : vm_who s' = vm_who s; vf_lk : vm_lk s' = vm_lk s; vf_heap : kheap_size s' = kheap_size s;
  vf_init : initialized s' = initialized s; vf_inuse : used_memsz s' = used_memsz s
}.
#[export] Instance vmm_frame_preorder : PreOrder vmm_frame.
Proof. split; [done|]. intros s1 s2 s3 [] []. split; congruence. Qed.

Lemma rep_dll s F U N : vmm_rep s F U N -> dll_ok F /\ dll_ok U.
Proof.
  intros H. pose proof (vr_nodup _ _ _ _ H) as Hn. pose proof (vr_addr _ _ _ _ H) as Ha. unfold nodes_of in *.
  rewrite !Forall_app in Ha. apply NoDup_app in Hn as (? & _ & Hn). apply NoDup_app in Hn as (? & _ & _).
  destruct Ha as (? & ? & ?). split; by split.
Qed.
Lemma addr_not_null p : addr_ok p -> is_null p = false.
Proof. unfold addr_ok, is_null. intros. apply Z.eqb_neq. lia. Qed.

(** ** Primitive steps *)
Lemma wp_vload s p n (Q : node_t -> vmm -> Prop) : vm_nodes s !! p = Some n -> Q n s -> wp (vload p) Q s.
Proof. intros Hp HQ. unfold wp, vload. by rewrite Hp. Qed.
Lemma wp_vstore s p n m (Q : unit -> vmm -> Prop) : vm_nodes s !! p = Some n -> Q tt (vm_set_nodes (<[p := m]> (vm_nodes s)) s) -> wp (vstore p m) Q s.
Proof. intros Hp HQ. unfold wp, vstore. by rewrite Hp. Qed.
Lemma wp_vmodify s p n f (Q : unit -> vmm -> Prop) :
  vm_nodes s !! p = Some n -> Q tt (vm_set_nodes (<[p := f n]> (vm_nodes s)) s) -> wp (vmodify p f) Q s.
Proof. intros Hp HQ. apply wp_bind. eapply wp_vload; [done|]. by eapply wp_vstore. Qed.
Lemma wp_vassert s (Q : unit -> vmm -> Prop) : holding (vm_who s) (vm_lk s) = true -> Q tt s -> wp vm_assert_locked Q s.
Proof. intros Hh HQ. unfold wp, vm_assert_locked. by rewrite Hh. Qed.
Lemma wp_node_assert s p (Q : unit -> vmm -> Prop) : addr_ok p -> Q tt s -> wp (node_assert p) Q s.
Proof. intros Hp HQ. unfold node_assert. by rewrite addr_not_null. Qed.
Lemma wp_vupd s f (Q : unit -> vmm -> Prop) : Q tt (f s) -> wp (vupd f) Q s.
Proof. done. Qed.
Ltac vstep :=
  lazymatch goal with
  | |- wp (M_bind _ _) _ _ => apply wp_bind; vstep
  | |- wp (vmodify _ _) _ _ => eapply wp_vmodify; [simpl; by simplify_map_eq|]
  | |- wp (vstore _ _) _ _ => eapply wp_vstore; [simpl; by simplify_map_eq|]
  | |- wp (vload _) _ _ => eapply wp_vload; [simpl; by simplify_map_eq|]
  | |- wp vm_assert_locked _ _ => apply wp_vassert; [done|]
  | |- wp (node_assert _) _ _ => apply wp_node_assert; [done|]
  | |- wp (vupd _) _ _ => apply wp_vupd
  | |- wp M_get _ _ => apply wp_get
  | |- wp (M_ret _) _ _ => apply wp_ret
  end.

(** ** Linking *)
Definition same_out (A : list Z) (h h' : gmap Z node_t) : Prop := forall p, p ∉ A -> h' !! p = h !! p.
Lemma same_out_trans A A' h1 h2 h3 : same_out A h1 h2 -> same_out A' h2 h3 -> same_out (A ++ A') h1 h3.
Proof. intros H1 H2 p Hp. rewrite not_elem_of_app in Hp. rewrite H2, H1; tauto. Qed.
Lemma same_out_insert p n h : same_out [p] h (<[p := n]> h).
Proof. intros q Hq. apply lookup_insert_ne. intros ->. apply Hq. by left. Qed.
Lemma same_out_mono A A' h h' : (forall p, p ∈ A -> p ∈ A') -> same_out A h h' -> same_out A' h h'.
Proof. intros Hs H p Hp. apply H. auto. Qed.
Lemma rseg_out h h' A pv l nx : same_out A h h' -> (forall p, p ∈ addrs l -> p ∉ A) -> rseg h pv l nx -> rseg h' pv l nx.
Proof. intros Ho Hd. apply rseg_ext. intros p Hp. apply Ho. auto. Qed.
Lemma nchain_out h h' A ns : same_out A h h' -> (forall p, p ∈ ns -> p ∉ A) -> nchain h ns -> nchain h' ns.
Proof. intros Ho Hd. apply nchain_ext. intros p Hp. apply Ho. auto. Qed.

Lemma rseg_set_next h pv l p r nx nx' :
  rseg h pv (l ++ [(p, r)]) nx -> p ∉ addrs l ->
  rseg (<[p := mkVnode (last_addr l pv) r.1 r.2 nx']> h) pv (l ++ [(p, r)]) nx'.
Proof.
  rewrite !rseg_app. simpl. intros (Hl & _ & _) Hp. split_and!; [by apply rseg_insert|by simplify_map_eq|done].
Qed.
Lemma rseg_set_prev h pv pv' l p r nx :
  rseg h pv ((p, r) :: l) nx -> p ∉ addrs l -> rseg (<[p := mkVnode pv' r.1 r.2 (hd_addr l nx)]> h) pv' ((p, r) :: l) nx.
Proof. simpl. intros [_ Hl] Hp. split; [by simplify_map_eq|by apply rseg_insert]. Qed.

(** [if (next) next->prev = x], for the rest of a list. *)
Lemma wp_vlink_prev s pv l x (Q : unit -> vmm -> Prop) :
  rseg (vm_nodes s) pv l 0 -> dll_ok l ->
  (forall h', rseg h' x l 0 -> same_out (addrs l) (vm_nodes s) h' -> Q tt (vm_set_nodes h' s)) ->
  wp (vmodify_opt (hd_addr l 0) (vset_prev x)) Q s.
Proof.
  intros Hs Hok HQ. unfold vmodify_opt. destruct l as [|[p r] l]; simpl.
  { assert (Q tt (vm_set_nodes (vm_nodes s) s)) as H by (by apply HQ). by destruct s. }
  apply dll_ok_cons in Hok as (Ha & Hp & _). rewrite addr_not_null by done. simpl.
  pose proof Hs as [Hp' _]. eapply wp_vmodify; [done|]. apply HQ.
  - by apply (rseg_set_prev _ pv).
  - intros q Hq. apply lookup_insert_ne. intros ->. apply Hq, elem_of_addrs_cons. by left.
Qed.

(** The head of one of the two lists of regions. *)
Class ListHead (hget : vmm -> Z) (hset : Z -> vmm -> vmm) : Prop := {
  lh_id : forall s, hset (hget s) s = s;
  lh_nodes : forall x s, vm_nodes (hset x s) = vm_nodes s;
  lh_set_nodes : forall x h s, hset x (vm_set_nodes h s) = vm_set_nodes h (hset x s);
  lh_get : forall h s, hget (vm_set_nodes h s) = hget s
}.
#[export] Instance used_head : ListHead usedvmr_list vm_set_used.
Proof. split; try done. by intros []. Qed.
#[export] Instance free_head : ListHead freevmr_list vm_set_free.
Proof. split; try done. by intros []. Qed.

Section Head.
Context {hget : vmm -> Z} {hset : Z -> vmm -> vmm} {LH : ListHead hget hset}.

(** [if (prev) prev->next = x; else list = x], for the front of a list. *)
Lemma wp_vlink_next s l nx x (Q : unit -> vmm -> Prop) :
  rseg (vm_nodes s) 0 l nx -> dll_ok l -> hget s = hd_addr l nx ->
  (forall h', rseg h' 0 l x -> same_out (addrs l) (vm_nodes s) h' -> Q tt (vm_set_nodes h' (hset (hd_addr l x) s))) ->
  wp (if is_null (last_addr l 0) then vupd (hset x) else vmodify (last_addr l 0) (vset_next x)) Q s.
Proof.
  intros Hs Hok Hh HQ. destruct l as [|[p r] l _] using rev_ind.
  { simpl. apply wp_vupd. assert (Q tt (vm_set_nodes (vm_nodes s) (hset x s))) as H by (by apply HQ).
    rewrite <- (lh_nodes x s) in H. by destruct (hset x s). }
  rewrite last_addr_snoc. apply dll_ok_app in Hok as (_ & Hok2 & Hd). apply dll_ok_cons in Hok2 as (Ha & _ & _). simpl in *.
  assert (p ∉ addrs l) as Hp by (intros Hin; apply (Hd _ Hin), elem_of_addrs_cons; by left).
  rewrite addr_not_null by done. pose proof (rseg_mid _ _ _ _ _ [] _ Hs) as Hp'. eapply wp_vmodify; [done|].
  assert (hset (hd_addr (l ++ [(p, r)]) x) s = s) as Hid.
  { rewrite <- (lh_id s) at 2. rewrite Hh. by destruct l. }
  rewrite <- Hid at 2. apply HQ.
  - by eapply rseg_set_next.
  - intros q Hq. apply lookup_insert_ne. intros ->. apply Hq. rewrite elem_of_addrs_app, elem_of_addrs_cons. auto.
Qed.

(** Taking a node out of a list: the two orders in which the code does it. *)
Lemma wp_vunlink_np {A} s l1 p r l2 (kt : VM A) (Q : A -> vmm -> Prop) :
  rseg (vm_nodes s) 0 (l1 ++ (p, r) :: l2) 0 -> dll_ok (l1 ++ (p, r) :: l2) -> hget s = hd_addr (l1 ++ (p, r) :: l2) 0 ->
  (forall h', rseg h' 0 (l1 ++ l2) 0 -> same_out (addrs (l1 ++ l2)) (vm_nodes s) h' ->
     wp kt Q (vm_set_nodes h' (hset (hd_addr (l1 ++ l2) 0) s))) ->
  wp (do! vmodify_opt (hd_addr l2 0) (vset_prev (last_addr l1 0)) in
      do! (if is_null (last_addr l1 0) then vupd (hset (hd_addr l2 0)) else vmodify (last_addr l1 0) (vset_next (hd_addr l2 0))) in kt) Q s.
Proof.
  intros Hs Hok Hh HQ. apply dll_ok_mid in Hok as (Hok & Hp & _ & Hok1 & Hok2 & Hd).
  apply rseg_app in Hs as [Hs1 [_ Hs2]]. apply wp_bind. eapply wp_vlink_prev; [exact Hs2|done|]. intros h1 H1 Ho1.
  apply wp_bind. eapply wp_vlink_next; [|done| |].
  - eapply rseg_out; [exact Ho1| |exact Hs1]. intros a Ha. by apply Hd.
  - rewrite lh_get, Hh. by rewrite hd_addr_app.
  - intros h2 H2 Ho2. simpl in *. rewrite lh_set_nodes. 
    assert (forall a b z, vm_set_nodes a (vm_set_nodes b z) = vm_set_nodes a z) as -> by done.
    rewrite <- hd_addr_app. apply HQ.
    + apply rseg_app. split; [done|]. eapply rseg_out; [exact Ho2| |exact H1]. intros a Ha Ha1. by apply (Hd a).
    + eapply same_out_mono; [|eapply same_out_trans; [exact Ho1|exact Ho2]]. intros a. rewrite elem_of_app, elem_of_addrs_app. tauto.
Qed.
Lemma wp_vunlink_pn {A} s l1 p r l2 (kt : VM A) (Q : A -> vmm -> Prop) :
  rseg (vm_nodes s) 0 (l1 ++ (p, r) :: l2) 0 -> dll_ok (l1 ++ (p, r) :: l2) -> hget s = hd_addr (l1 ++ (p, r) :: l2) 0 ->
  (forall h', rseg h' 0 (l1 ++ l2) 0 -> same_out (addrs (l1 ++ l2)) (vm_nodes s) h' ->
     wp kt Q (vm_set_nodes h' (hset (hd_addr (l1 ++ l2) 0) s))) ->
  wp (do! (if is_null (last_addr l1 0) then vupd (hset (hd_addr l2 0)) else vmodify (last_addr l1 0) (vset_next (hd_addr l2 0))) in
      do! vmodify_opt (hd_addr l2 0) (vset_prev (last_addr l1 0)) in kt) Q s.
Proof.
  intros Hs Hok Hh HQ. apply dll_ok_mid in Hok as (Hok & Hp & _ & Hok1 & Hok2 & Hd).
  apply rseg_app in Hs as [Hs1 [_ Hs2]]. apply wp_bind. eapply wp_vlink_next; [exact Hs1|done|by rewrite Hh, hd_addr_app|].
  intros h1 H1 Ho1. apply wp_bind. eapply wp_vlink_prev; [|done|].
  - eapply rseg_out; [exact Ho1| |exact Hs2]. intros a Ha Ha1. by apply (Hd a).
  - intros h2 H2 Ho2. simpl in *.
    assert (forall a b z, vm_set_nodes a (vm_set_nodes b z) = vm_set_nodes a z) as -> by done.
    rewrite <- hd_addr_app. apply HQ.
    + apply rseg_app. split; [|done]. eapply rseg_out; [exact Ho2| |exact H1]. intros a Ha. by apply Hd.
    + eapply same_out_mono; [|eapply same_out_trans; [exact Ho1|exact Ho2]]. intros a. rewrite elem_of_app, elem_of_addrs_app. tauto.
Qed.
End Head.

(** ** Searching *)
Lemma vset_same_nodes s : vm_set_nodes (vm_nodes s) s = s.
Proof. by destruct s. Qed.
Lemma vset_same_used s : vm_set_used (usedvmr_list s) s = s.
Proof. by destruct s. Qed.

(** The address of the first node that satisfies a test, 0 if there is none. *)
Fixpoint vfind (f : region -> bool) (l : vlist) : option (Z * region) :=
  match l with
  | [] => None
  | x :: l => if f x.2 then Some x else vfind f l
  end.
Definition vfound (err : Z) (o : option (Z * region)) : Z * Z :=
  match o with Some x => (0, x.1) | None => (- err, 0) end.
Lemma vfind_split f l x : vfind f l = Some x -> exists l1 l2, l = l1 ++ x :: l2 /\ Forall (fun y => f y.2 = false) l1 /\ f x.2 = true.
Proof.
  induction l as [|y l IH]; simpl; [done|]. destruct (f y.2) eqn:E.
  - intros [= ->]. by exists [], l.
  - intros (l1 & l2 & -> & H1 & H2)%IH. exists (y :: l1), l2. auto.
Qed.

Lemma wp_usedvmr_find_from fuel s l pv base (Q : Z * Z -> vmm -> Prop) :
  rseg (vm_nodes s) pv l 0 -> dll_ok l -> (length l < fuel)%nat -> Q (vfound ENOENT (vfind (fun r => base =? r.1) l)) s ->
  wp (usedvmr_find_from fuel base (hd_addr l 0)) Q s.
Proof.
  revert l pv. induction fuel as [|fuel IH]; intros l pv Hs Hok Hf HQ; [lia|].
  destruct l as [|[p r] l]; simpl in *; [by apply wp_ret|]. apply dll_ok_cons in Hok as (Ha & _ & Hok). destruct Hs as [Hp Hs].
  rewrite addr_not_null by done. apply wp_bind. eapply wp_vload; [done|]. simpl.
  destruct (base =? r.1); [by apply wp_ret|]. eapply IH; [done|done|lia|done].
Qed.
Lemma wp_freevmr_get_from fuel s l pv size (Q : Z * Z -> vmm -> Prop) :
  rseg (vm_nodes s) pv l 0 -> dll_ok l -> (length l < fuel)%nat -> Q (vfound ENOMEM (vfind (fun r => size <=? r.2) l)) s ->
  wp (freevmr_get_from fuel size (hd_addr l 0)) Q s.
Proof.
  revert l pv. induction fuel as [|fuel IH]; intros l pv Hs Hok Hf HQ; [lia|].
  destruct l as [|[p r] l]; simpl in *; [by apply wp_ret|]. apply dll_ok_cons in Hok as (Ha & _ & Hok). destruct Hs as [Hp Hs].
  rewrite addr_not_null by done. apply wp_bind. eapply wp_vload; [done|]. simpl.
  destruct (size <=? r.2); [by apply wp_ret|]. eapply IH; [done|done|lia|done].
Qed.
Lemma wp_vfuel s (Q : nat -> vmm -> Prop) : Q (S (size (vm_nodes s))) s -> wp vfuel Q s.
Proof. done. Qed.

(** Where an address goes in a sorted list: the nodes below it and the others. *)
Fixpoint vsplit (b : Z) (l : vlist) : vlist * vlist :=
  match l with
  | [] => ([], [])
  | x :: l' => if x.2.1 <? b then let '(l1, l2) := vsplit b l' in (x :: l1, l2) else ([], l)
  end.
Lemma vsplit_app b l : l = (vsplit b l).1 ++ (vsplit b l).2.
Proof. induction l as [|x l IH]; simpl; [done|]. destruct (x.2.1 <? b); [|done]. destruct (vsplit b l). simpl in *. congruence. Qed.
Lemma vsplit_below b l : Forall (fun x => x.2.1 < b) (vsplit b l).1.
Proof.
  induction l as [|x l IH]; simpl; [constructor|]. destruct (Z.ltb_spec x.2.1 b); [|constructor].
  destruct (vsplit b l). by constructor.
Qed.
Lemma vsplit_above b l x : hd_error (vsplit b l).2 = Some x -> b <= x.2.1.
Proof.
  induction l as [|y l IH]; simpl; [done|]. destruct (Z.ltb_spec y.2.1 b); [by destruct (vsplit b l)|]. simpl. by intros [= ->].
Qed.
Lemma wp_freevmr_place fuel s l pv b (Q : Z * Z -> vmm -> Prop) :
  rseg (vm_nodes s) pv l 0 -> dll_ok l -> (length l < fuel)%nat ->
  Q (last_addr (vsplit b l).1 pv, hd_addr (vsplit b l).2 0) s -> wp (freevmr_place fuel b pv (hd_addr l 0)) Q s.
Proof.
  revert l pv. induction fuel as [|fuel IH]; intros l pv Hs Hok Hf HQ; [lia|].
  destruct l as [|[p r] l]; simpl in *; [by apply wp_ret|]. apply dll_ok_cons in Hok as (Ha & _ & Hok). destruct Hs as [Hp Hs].
  rewrite addr_not_null by done. apply wp_bind. eapply wp_vload; [done|]. simpl in *.
  destruct (r.1 <? b); [|by apply wp_ret]. eapply IH; [done|done|lia|]. by destruct (vsplit b l).
Qed.

(** ** Inserting among the used regions *)
Fixpoint vins (x : Z * region) (l : vlist) : vlist :=
  match l with
  | [] => [x]
  | y :: l' => if x.2.1 <? y.2.1 then x :: l else y :: vins x l'
  end.
Lemma vins_perm x l : Permutation (vins x l) (x :: l).
Proof. induction l as [|y l IH]; simpl; [done|]. destruct (_ <? _); [done|]. rewrite IH. apply Permutation_swap. Qed.
Lemma rseg_join h l1 p r l2 :
  rseg h 0 l1 p -> h !! p = Some (mkVnode (last_addr l1 0) r.1 r.2 (hd_addr l2 0)) -> rseg h p l2 0 -> rseg h 0 (l1 ++ (p, r) :: l2) 0.
Proof. intros. apply rseg_app. by repeat split. Qed.
(** [node] linked before [next] in the used list. *)
Lemma wp_vused_link s l1 p r x rx l2 (Q : unit -> vmm -> Prop) :
  rseg (vm_nodes s) 0 (l1 ++ (x, rx) :: l2) 0 -> dll_ok (l1 ++ (p, r) :: (x, rx) :: l2) ->
  usedvmr_list s = hd_addr (l1 ++ (x, rx) :: l2) 0 -> vm_nodes s !! p = Some (mkVnode 0 r.1 r.2 0) ->
  (forall h', rseg h' 0 (l1 ++ (p, r) :: (x, rx) :: l2) 0 -> same_out (p :: addrs (l1 ++ (x, rx) :: l2)) (vm_nodes s) h' ->
     Q tt (vm_set_nodes h' (vm_set_used (hd_addr (l1 ++ (p, r) :: (x, rx) :: l2) 0) s))) ->
  wp (do! vmodify p (vset_next x) in
      do! (if is_null (last_addr l1 0) then vupd (vm_set_used p) else vmodify (last_addr l1 0) (vset_next p)) in
      do! vmodify p (vset_prev (last_addr l1 0)) in vmodify x (vset_prev p)) Q s.
Proof.
  intros Hs Hok Hh Hp HQ. pose proof (dll_ok_mid _ _ _ _ Hok) as (_ & Hpn & _ & Hok1 & Hok2 & Hd).
  rewrite elem_of_addrs_app, elem_of_addrs_cons in Hpn. apply rseg_app in Hs as [Hs1 [Hx Hs2]]. simpl in *.
  pose proof Hok2 as (_ & Hxn & _)%dll_ok_cons. simpl in *.
  apply wp_bind. eapply wp_vmodify; [done|]. simpl. apply wp_bind. eapply wp_vlink_next; [|done| |].
  { simpl. apply rseg_insert; [tauto|exact Hs1]. }
  { simpl. by rewrite Hh, hd_addr_app. }
  intros h1 H1 Ho1. simpl in *. assert (h1 !! p = Some (mkVnode 0 r.1 r.2 x)) as Hp1.
  { rewrite (Ho1 p) by tauto. by simplify_map_eq. }
  assert (h1 !! x = Some (mkVnode (last_addr l1 0) rx.1 rx.2 (hd_addr l2 0))) as Hx1.
  { rewrite (Ho1 x) by (intros Hin; apply (Hd x Hin), elem_of_addrs_cons; by left). rewrite lookup_insert_ne; [done|naive_solver]. }
  apply wp_bind. eapply wp_vmodify; [done|]. simpl. eapply wp_vmodify; [simpl; rewrite lookup_insert_ne; [done|naive_solver]|]. simpl.
  set (h2 := <[x := _]> _). assert (same_out [p; x] h1 h2) as Ho2.
  { intros q Hq. unfold h2. rewrite !lookup_insert_ne; [done|set_solver..]. }
  assert (same_out (p :: addrs (l1 ++ (x, rx) :: l2)) (vm_nodes s) h2) as Ho.
  { intros q Hq. rewrite elem_of_cons, elem_of_addrs_app, elem_of_addrs_cons in Hq.
    rewrite Ho2 by set_solver. rewrite Ho1 by tauto. apply lookup_insert_ne. naive_solver. }
  assert (rseg h2 p ((x, rx) :: l2) 0) as Hseg2.
  { simpl. unfold h2. simplify_map_eq. split; [done|]. eapply rseg_ext; [|exact Hs2]. intros q Hq.
    rewrite !lookup_insert_ne by naive_solver. rewrite (Ho1 q).
    - apply lookup_insert_ne. naive_solver.
    - intros Hin. apply (Hd q Hin), elem_of_addrs_cons. auto. }
  specialize (HQ h2). rewrite hd_addr_app in HQ. apply HQ; [|done]. apply rseg_join; [| |done].
  - eapply rseg_out; [exact Ho2| |exact H1]. intros q Hq. rewrite !elem_of_cons. intros [->|[->|[]%not_elem_of_nil]]; [tauto|].
    apply (Hd x Hq), elem_of_addrs_cons. by left.
  - unfold h2. rewrite lookup_insert_ne by naive_solver. by simplify_map_eq.
Qed.
(** [node] linked behind the last used region. *)
Lemma wp_vused_tail s l1 p r (Q : unit -> vmm -> Prop) :
  rseg (vm_nodes s) 0 l1 0 -> dll_ok (l1 ++ [(p, r)]) -> usedvmr_list s = hd_addr l1 0 ->
  vm_nodes s !! p = Some (mkVnode 0 r.1 r.2 0) ->
  (forall h', rseg h' 0 (l1 ++ [(p, r)]) 0 -> same_out (p :: addrs l1) (vm_nodes s) h' ->
     Q tt (vm_set_nodes h' (vm_set_used (hd_addr (l1 ++ [(p, r)]) 0) s))) ->
  wp (if is_null (last_addr l1 0) then vupd (vm_set_used p)
      else do! vmodify (last_addr l1 0) (vset_next p) in vmodify p (vset_prev (last_addr l1 0))) Q s.
Proof.
  intros Hs Hok Hh Hp HQ. apply dll_ok_app in Hok as (Hok & Hok2 & Hd). destruct l1 as [|[q rq] l _] using rev_ind.
  - simpl in *. apply wp_vupd. specialize (HQ (vm_nodes s)). rewrite <- (vset_same_nodes (vm_set_used p s)). by apply HQ.
  - rewrite last_addr_snoc. apply dll_ok_app in Hok as (_ & Hok' & Hd'). apply dll_ok_cons in Hok' as (Ha & _ & _). simpl in *.
    rewrite addr_not_null by done. setoid_rewrite elem_of_addrs_app in Hd. setoid_rewrite elem_of_addrs_cons in Hd.
    assert (p <> q /\ p ∉ addrs l) as [Hpq Hpl].
    { split; [intros ->; by apply (Hd q); auto|intros Hin; by apply (Hd p); auto]. }
    assert (q ∉ addrs l) as Hql by (intros Hin; apply (Hd' q Hin), elem_of_addrs_cons; by left).
    pose proof (rseg_mid _ _ _ _ _ [] _ Hs) as Hq. simpl in Hq.
    apply wp_bind. eapply wp_vmodify; [done|]. simpl. eapply wp_vmodify; [simpl; rewrite lookup_insert_ne; [done|naive_solver]|]. simpl.
    specialize (HQ (<[p := mkVnode q r.1 r.2 0]> (<[q := mkVnode (last_addr l 0) rq.1 rq.2 p]> (vm_nodes s)))).
    replace (hd_addr ((l ++ [(q, rq)]) ++ [(p, r)]) 0) with (usedvmr_list s) in HQ by (rewrite Hh; by destruct l).
    rewrite vset_same_used in HQ. apply HQ.
    + apply rseg_join; [|rewrite last_addr_snoc; by simplify_map_eq|done].
      apply rseg_insert; [rewrite elem_of_addrs_app, elem_of_addrs_cons; intros [?|[?|[]%not_elem_of_addrs_nil]]; naive_solver|].
      by eapply rseg_set_next.
    + intros a Ha'. rewrite elem_of_cons, elem_of_addrs_app, elem_of_addrs_cons in Ha'. simpl in Ha'. rewrite !lookup_insert_ne; [done|naive_solver..].
Qed.
Lemma wp_usedvmr_walk fuel s l1 l2 p r (Q : unit -> vmm -> Prop) :
  rseg (vm_nodes s) 0 (l1 ++ l2) 0 -> dll_ok (l1 ++ (p, r) :: l2) -> usedvmr_list s = hd_addr (l1 ++ l2) 0 ->
  vm_nodes s !! p = Some (mkVnode 0 r.1 r.2 0) -> (length l2 < fuel)%nat ->
  (forall h', rseg h' 0 (l1 ++ vins (p, r) l2) 0 -> same_out (p :: addrs (l1 ++ l2)) (vm_nodes s) h' ->
     Q tt (vm_set_nodes h' (vm_set_used (hd_addr (l1 ++ vins (p, r) l2) 0) s))) ->
  wp (usedvmr_walk fuel p r.1 (hd_addr l2 0) (last_addr l1 0)) Q s.
Proof.
  revert l1 l2. induction fuel as [|fuel IH]; intros l1 l2 Hs Hok Hh Hp Hf HQ; [lia|].
  pose proof (dll_ok_mid _ _ _ _ Hok) as (Hok' & Hpn & Ha & Hok1 & Hok2 & Hd).
  rewrite elem_of_addrs_app in Hpn. apply rseg_app in Hs as [Hs1 Hs2]. destruct l2 as [|[x rx] l2].
  - simpl in *. rewrite app_nil_r in *. apply (wp_vused_tail s l1 p r); auto.
  - simpl in *. pose proof Hok2 as (Hx & Hxn & Hok2')%dll_ok_cons. destruct Hs2 as [Hx' Hs2]. simpl in *.
    rewrite addr_not_null by done. apply wp_bind. eapply wp_vload; [done|]. simpl. destruct (r.1 <? rx.1).
    + apply (wp_vused_link s l1 p r x rx l2); auto. apply rseg_app. by repeat split.
    + specialize (IH (l1 ++ [(x, rx)]) l2). rewrite last_addr_snoc, <- !app_assoc in IH. simpl in IH.
      apply IH; auto; [apply rseg_app; by repeat split| |lia]. eapply dll_ok_perm; [|exact Hok]. apply Permutation_app_head, Permutation_swap.
Qed.

(** ** Unused nodes *)
Definition hd0 (N : list Z) : Z := default 0 (hd_error N).
Lemma nchain_link h N x : nchain h N -> Forall addr_ok N -> NoDup N ->
  exists h', (forall (s : vmm) (Q : unit -> vmm -> Prop), vm_nodes s = h -> Q tt (vm_set_nodes h' s) -> wp (vmodify_opt (hd0 N) (vset_prev x)) Q s) /\
    nchain h' N /\ same_out N h h'.
Proof.
  intros Hc Ha Hn. destruct N as [|p N].
  - exists h. split_and!; [|done..]. intros s Q <- HQ. unfold vmodify_opt. simpl. by rewrite vset_same_nodes in HQ.
  - destruct Hc as [(n & Hp & En) Hc]. inversion Ha; subst. inversion Hn; subst. exists (<[p := vset_prev x n]> h). split_and!.
    + intros s Q <- HQ. unfold vmodify_opt. simpl. rewrite addr_not_null by done. simpl. eapply wp_vmodify; [done|done].
    + apply nchain_prev; [done|]. simpl. eauto.
    + intros q Hq. apply lookup_insert_ne. intros ->. apply Hq. by left.
Qed.
Lemma wp_free_node_put s p N (Q : unit -> vmm -> Prop) :
  holding (vm_who s) (vm_lk s) = true -> is_Some (vm_nodes s !! p) -> nchain (vm_nodes s) N -> free_node_list s = hd0 N ->
  Forall addr_ok (p :: N) -> NoDup (p :: N) ->
  (forall h', nchain h' (p :: N) -> same_out (p :: N) (vm_nodes s) h' -> Q tt (vm_set_nodes h' (vm_set_spare p s))) ->
  wp (free_node_put p) Q s.
Proof.
  intros Hl [n Hp] Hc Hh [Hap Ha]%Forall_cons [Hpn Hn]%NoDup_cons HQ. unfold free_node_put.
  apply wp_bind, wp_node_assert; [done|]. apply wp_bind, wp_vassert; [done|]. apply wp_bind. eapply wp_vstore; [done|].
  apply wp_bind, wp_get. apply wp_bind. eapply wp_vmodify; [simpl; by simplify_map_eq|]. simpl. rewrite insert_insert_eq, Hh. simpl.
  assert (nchain (<[p := mkVnode 0 0 0 (hd0 N)]> (vm_nodes s)) N) as Hc1.
  { eapply nchain_ext; [|exact Hc]. intros q Hq. apply lookup_insert_ne. by intros ->. }
  apply wp_bind. destruct (nchain_link _ N p Hc1 Ha Hn) as (h' & Hw & Hc' & Ho). eapply Hw; [done|]. apply wp_vupd. simpl.
  apply HQ; simpl.
  - split; [|done]. eexists. rewrite (Ho p) by done. by rewrite lookup_insert_eq.
  - intros q Hq. rewrite elem_of_cons in Hq. rewrite (Ho q) by tauto. apply lookup_insert_ne. naive_solver.
Qed.
Lemma wp_free_node_get s p N (Q : Z -> vmm -> Prop) :
  holding (vm_who s) (vm_lk s) = true -> nchain (vm_nodes s) (p :: N) -> free_node_list s = p ->
  Forall addr_ok (p :: N) -> NoDup (p :: N) ->
  (forall h', nchain h' N -> h' !! p = Some VNODE_ZERO -> same_out (p :: N) (vm_nodes s) h' -> Q p (vm_set_nodes h' (vm_set_spare (hd0 N) s))) ->
  wp free_node_get Q s.
Proof.
  intros Hl [(n & Hp & En) Hc] Hh [Hap Ha]%Forall_cons [Hpn Hn]%NoDup_cons HQ. unfold free_node_get.
  apply wp_bind, wp_vassert; [done|]. apply wp_bind, wp_get. rewrite Hh, addr_not_null by done.
  apply wp_bind. eapply wp_vload; [done|]. apply wp_bind, wp_vupd. apply wp_bind. rewrite En.
  destruct (nchain_link _ N 0 Hc Ha Hn) as (h' & Hw & Hc' & Ho). apply Hw; [done|].
  assert (h' !! p = Some n) as Hp' by (by rewrite (Ho p)).
  apply wp_bind. eapply wp_vstore; [done|]. apply wp_ret. apply HQ; simpl.
  - eapply nchain_ext; [|exact Hc']. intros q Hq. apply lookup_insert_ne. by intros ->.
  - by rewrite lookup_insert_eq.
  - intros q Hq. rewrite elem_of_cons in Hq. rewrite lookup_insert_ne by naive_solver. apply Ho. tauto.
Qed.

#[global] Arguments usedvmr_walk : simpl never.
#[global] Arguments usedvmr_find_from : simpl never.
#[global] Arguments freevmr_place : simpl never.
#[global] Arguments freevmr_get_from : simpl never.

(** ** A node between two lists *)
Record vdetached (s : vmm) (F U : vlist) (N : list Z) (p : Z) (r : region) : Prop := {
  vd_rep : vmm_rep s F U N;
  vd_node : exists pv nx, vm_nodes s !! p = Some (mkVnode pv r.1 r.2 nx);
  vd_addr : addr_ok p; vd_fresh : p ∉ nodes_of F U N
}.
Lemma elem_of_nodes_of q F U N : q ∈ nodes_of F U N <-> q ∈ addrs F \/ q ∈ addrs U \/ q ∈ N.
Proof. unfold nodes_of. rewrite !elem_of_app. tauto. Qed.

Section Rep.
Context (s : vmm) (F U : vlist) (N : list Z) (p : Z) (r : region).
Hypothesis Hd : vdetached s F U N p r.

Lemma vd_perm_nodup : NoDup (p :: nodes_of F U N) /\ Forall addr_ok (p :: nodes_of F U N).
Proof. destruct Hd as [[] _ ? ?]. split; by constructor. Qed.
Lemma vd_dll : dll_ok ((p, r) :: F) /\ dll_ok ((p, r) :: U).
Proof.
  destruct Hd as [Hr _ Ha Hf]. rewrite elem_of_nodes_of in Hf. destruct (rep_dll _ _ _ _ Hr).
  split; apply dll_ok_cons; simpl; tauto.
Qed.
Lemma vd_spare : Forall addr_ok N /\ NoDup N.
Proof.
  destruct Hd as [Hr _ _ _]. destruct Hr as [_ _ _ _ _ _ Hn Ha _]. unfold nodes_of in *. rewrite !Forall_app in Ha.
  rewrite !NoDup_app in Hn. tauto.
Qed.
Lemma vd_used_out q : q ∈ addrs U -> q ∉ p :: addrs F ++ N.
Proof.
  intros Hq. destruct vd_perm_nodup as [Hn _]. rewrite NoDup_cons, elem_of_nodes_of in Hn. destruct Hn as [Hp Hn].
  unfold nodes_of in Hn. rewrite !NoDup_app in Hn. destruct Hn as (_ & Hn1 & _ & Hn2 & _).
  rewrite elem_of_cons, elem_of_app. intros [->|[Hf|Hf]]; [tauto| |by apply (Hn2 q)]. apply (Hn1 q Hf). rewrite elem_of_app. by left.
Qed.
Lemma vd_free_out q : q ∈ addrs F -> q ∉ p :: addrs U.
Proof.
  intros Hq [->|Hu]%elem_of_cons; [apply (vd_fresh _ _ _ _ _ _ Hd), elem_of_nodes_of; auto|].
  apply (vd_used_out q Hu). rewrite elem_of_cons, elem_of_app. auto.
Qed.
Lemma vd_spare_out q : q ∈ N -> q ∉ p :: addrs U.
Proof.
  intros Hq [->|Hu]%elem_of_cons; [apply (vd_fresh _ _ _ _ _ _ Hd), elem_of_nodes_of; auto|].
  apply (vd_used_out q Hu). rewrite elem_of_cons, elem_of_app. auto.
Qed.
Lemma vd_free_spare q : q ∈ addrs F -> q ∉ p :: N.
Proof.
  intros Hq [->|Hn]%elem_of_cons; [apply (vd_fresh _ _ _ _ _ _ Hd), elem_of_nodes_of; auto|].
  destruct Hd as [[_ _ _ _ _ _ Hnd _ _] _ _ _]. unfold nodes_of in Hnd. rewrite !NoDup_app in Hnd.
  destruct Hnd as (_ & Hnd & _). apply (Hnd q Hq). rewrite elem_of_app. auto.
Qed.

(** The node has gone to the free regions or to the unused nodes. *)
Lemma rep_free_change s' F' N' :
  vmm_frame s s' -> usedvmr_list s' = usedvmr_list s -> rseg (vm_nodes s') 0 F' 0 -> freevmr_list s' = hd_addr F' 0 ->
  nchain (vm_nodes s') N' -> free_node_list s' = hd0 N' -> same_out (p :: addrs F ++ N) (vm_nodes s) (vm_nodes s') ->
  Permutation (addrs F' ++ N') (p :: addrs F ++ N) -> vmm_rep s' F' U N'.
Proof.
  intros Hfr Hu Hs Hh Hc Hc' Ho Hp. assert (Permutation (nodes_of F' U N') (p :: nodes_of F U N)) as Hperm.
  { unfold nodes_of. rewrite (Permutation_app_comm (addrs U) N'), app_assoc, Hp. simpl. rewrite <- app_assoc. do 2 f_equiv. apply Permutation_app_comm. }
  destruct vd_perm_nodup as [Hn Ha]. destruct Hd as [[] _ _ _]. split; try done.
  - eapply rseg_out; [exact Ho| |done]. apply vd_used_out.
  - by rewrite Hu.
  - by rewrite Hperm.
  - by rewrite Hperm.
  - by rewrite (vf_who _ _ Hfr), (vf_lk _ _ Hfr).
Qed.
(** The node has gone to the used regions. *)
Lemma rep_used_change s' U' :
  vmm_frame s s' -> rseg (vm_nodes s') 0 U' 0 -> usedvmr_list s' = hd_addr U' 0 ->
  freevmr_list s' = freevmr_list s -> free_node_list s' = free_node_list s ->
  same_out (p :: addrs U) (vm_nodes s) (vm_nodes s') -> Permutation (addrs U') (p :: addrs U) -> vmm_rep s' F U' N.
Proof.
  intros Hfr Hs Hh Hf Hn' Ho Hp. assert (Permutation (nodes_of F U' N) (p :: nodes_of F U N)) as Hperm.
  { unfold nodes_of. rewrite Hp. simpl. symmetry. apply Permutation_middle. }
  destruct vd_perm_nodup as [Hn Ha]. pose proof vd_free_out. pose proof vd_spare_out. destruct Hd as [[] _ _ _]. split; try done.
  - by eapply rseg_out.
  - by rewrite Hf.
  - by eapply nchain_out.
  - by rewrite Hn'.
  - by rewrite Hperm.
  - by rewrite Hperm.
  - by rewrite (vf_who _ _ Hfr), (vf_lk _ _ Hfr).
Qed.

Lemma wp_usedvmr_put (Q : unit -> vmm -> Prop) :
  (forall s', vmm_rep s' F (vins (p, r) U) N -> vmm_frame s s' -> Q tt s') -> wp (usedvmr_put p) Q s.
Proof.
  intros HQ. pose proof vd_dll as [_ Hdl]. pose proof Hd as [Hr (pv & nx & Hp) Ha Hf].
  pose proof Hdl as (_ & Hpn & Hok)%dll_ok_cons. unfold usedvmr_put.
  apply wp_bind, wp_node_assert; [done|]. apply wp_bind, wp_vassert; [apply Hr|]. apply wp_bind. eapply wp_vmodify; [done|]. simpl.
  apply wp_bind. eapply wp_vmodify; [simpl; by rewrite lookup_insert_eq|]. simpl. rewrite insert_insert_eq. simpl.
  set (h1 := <[p := _]> _). assert (rseg h1 0 U 0) as Hs1 by (apply rseg_insert; [done|apply Hr]).
  apply wp_bind. eapply wp_vload; [simpl; unfold h1; by rewrite lookup_insert_eq|]. simpl. apply wp_bind, wp_get. apply wp_bind, wp_vfuel. simpl.
  rewrite (vr_used_hd _ _ _ _ Hr). apply (wp_usedvmr_walk _ _ [] U p r); simpl; try done.
  - apply Hr.
  - unfold h1. by rewrite lookup_insert_eq.
  - pose proof (rseg_length _ _ _ _ Hs1 Hok). lia.
  - intros h' Hs' Ho. apply HQ; [|by split]. apply rep_used_change; try done.
    + intros q Hq. simpl. rewrite Ho by done. apply lookup_insert_ne. intros ->. apply Hq. by left.
    + unfold addrs. rewrite vins_perm. done.
Qed.
End Rep.

(** * The operations of kernel virtual memory on lists of regions

    What putting a region among the free ones does ([vput]), and [alloc] and [free] as
    functions of the lists of free and used regions. *)
(** ** Putting a region among the free ones *)
Definition region_ok (r : region) : Prop := 0 <= r.1 /\ 0 < r.2 /\ r.1 + r.2 < two64.
Definition vend (r : region) : Z := r.1 + r.2.

(** The four ways: the regions below and above, the list that results and the nodes that
    are no longer needed. *)
Inductive vput (p : Z) (r : region) : vlist -> vlist -> vlist -> list Z -> Prop :=
| vput_both F1 q rq x rx F2 : vend rq = r.1 -> vend r = rx.1 ->
    vput p r (F1 ++ [(q, rq)]) ((x, rx) :: F2) (F1 ++ (q, (rq.1, rq.2 + r.2 + rx.2)) :: F2) [p; x]
| vput_down F1 q rq F2 : vend rq = r.1 -> (forall y, hd_error F2 = Some y -> vend r <> y.2.1) ->
    vput p r (F1 ++ [(q, rq)]) F2 (F1 ++ (q, (rq.1, rq.2 + r.2)) :: F2) [p]
| vput_up F1 x rx F2 : (forall F0 y, F1 = F0 ++ [y] -> vend y.2 <> r.1) -> vend r = rx.1 ->
    vput p r F1 ((x, rx) :: F2) (F1 ++ (x, (r.1, rx.2 + r.2)) :: F2) [p]
| vput_new F1 F2 : (forall F0 y, F1 = F0 ++ [y] -> vend y.2 <> r.1) -> (forall y, hd_error F2 = Some y -> vend r <> y.2.1) ->
    vput p r F1 F2 (F1 ++ (p, r) :: F2) [].

(** What the code has when it has found the place: the node holds the region and no links. *)
Section Put.
Context (s : vmm) (U F1 F2 : vlist) (N : list Z) (p : Z) (r : region).
Hypothesis Hd : vdetached s (F1 ++ F2) U N p r.
Hypothesis Hp : vm_nodes s !! p = Some (mkVnode 0 r.1 r.2 0).
Variable Q : unit -> vmm -> Prop.
Hypothesis HQ : forall s' F' L, vput p r F1 F2 F' L -> vmm_rep s' F' U (L ++ N) -> vmm_frame s s' -> Q tt s'.

Lemma put_dll : dll_ok (F1 ++ (p, r) :: F2).
Proof. destruct (vd_dll _ _ _ _ _ _ Hd) as [H _]. eapply dll_ok_perm; [apply Permutation_middle|exact H]. Qed.
Lemma put_held : holding (vm_who s) (vm_lk s) = true.
Proof. apply (vd_rep _ _ _ _ _ _ Hd). Qed.
Lemma put_seg : rseg (vm_nodes s) 0 F1 (hd_addr F2 0) /\ rseg (vm_nodes s) (last_addr F1 0) F2 0.
Proof. apply rseg_app, (vd_rep _ _ _ _ _ _ Hd). Qed.
Lemma put_spare : Forall addr_ok (p :: N) /\ NoDup (p :: N) /\ nchain (vm_nodes s) N /\ free_node_list s = hd0 N.
Proof.
  destruct (vd_spare _ _ _ _ _ _ Hd) as [Ha Hn]. pose proof (vd_fresh _ _ _ _ _ _ Hd) as Hf. rewrite elem_of_nodes_of in Hf.
  pose proof (vd_rep _ _ _ _ _ _ Hd) as [_ _ _ _ Hc Hh _ _ _]. split_and!; [|apply NoDup_cons; tauto|done|done].
  constructor; [apply (vd_addr _ _ _ _ _ _ Hd)|done].
Qed.

(** No neighbour to merge with. *)
Lemma wp_put_new :
  (forall F0 y, F1 = F0 ++ [y] -> vend y.2 <> r.1) -> (forall y, hd_error F2 = Some y -> vend r <> y.2.1) ->
  wp (do! vmodify p (vset_next (hd_addr F2 0)) in
      do! vmodify p (vset_prev (last_addr F1 0)) in
      do! vmodify_opt (hd_addr F2 0) (vset_prev p) in
      if is_null (last_addr F1 0) then vupd (vm_set_free p) else vmodify (last_addr F1 0) (vset_next p)) Q s.
Proof.
  intros H1 H2. pose proof (dll_ok_mid _ _ _ _ put_dll) as (_ & Hpn & Ha & Hok1 & Hok2 & Hdj). rewrite elem_of_addrs_app in Hpn.
  destruct put_seg as [Hs1 Hs2]. pose proof put_spare as (_ & _ & Hc & Hsp).
  apply wp_bind. eapply wp_vmodify; [done|]. apply wp_bind. eapply wp_vmodify; [simpl; by rewrite lookup_insert_eq|].
  simpl. rewrite insert_insert_eq. simpl. unfold vset_prev, vset_next. simpl. set (h1 := <[p := _]> _).
  assert (same_out [p] (vm_nodes s) h1) as Ho1 by apply same_out_insert.
  apply wp_bind. eapply wp_vlink_prev; [simpl; apply rseg_insert; [tauto|exact Hs2]|done|]. intros h2 Hs2' Ho2. simpl in *.
  eapply wp_vlink_next; [simpl| done|simpl|].
  - eapply rseg_out; [exact Ho2| |apply rseg_insert; [tauto|exact Hs1]]. intros q Hq. by apply Hdj.
  - rewrite <- hd_addr_app. apply (vd_rep _ _ _ _ _ _ Hd).
  - intros h3 Hs3 Ho3. simpl in *. eapply HQ; [by apply vput_new| |by split].
    assert (same_out (p :: addrs (F1 ++ F2)) (vm_nodes s) h3) as Ho.
    { intros q Hq. rewrite elem_of_cons, elem_of_addrs_app in Hq. rewrite Ho3, Ho2 by tauto. apply Ho1. set_solver. }
    apply (rep_free_change _ _ _ _ _ _ Hd); simpl; try done.
    + apply rseg_join; [done| |].
      * rewrite (Ho3 p), (Ho2 p) by tauto. unfold h1. by rewrite lookup_insert_eq.
      * eapply rseg_out; [exact Ho3| |done]. intros q Hq Hq'. by apply (Hdj q).
    + by rewrite hd_addr_app.
    + eapply nchain_out; [exact Ho| |done]. intros q Hq [->|Hf]%elem_of_cons.
      * apply (vd_fresh _ _ _ _ _ _ Hd), elem_of_nodes_of. auto.
      * apply (vd_free_spare _ _ _ _ _ _ Hd q Hf). apply elem_of_cons. auto.
    + eapply same_out_mono; [|exact Ho]. intros q. rewrite !elem_of_cons, elem_of_app. tauto.
    + rewrite addrs_app, addrs_cons. simpl. rewrite <- Permutation_middle, addrs_app. done.
Qed.

(** The node is given back and the free regions are [F']. *)
Lemma wp_put_node F' s1 : vput p r F1 F2 F' [p] -> vmm_frame s s1 -> usedvmr_list s1 = usedvmr_list s -> free_node_list s1 = free_node_list s ->
  rseg (vm_nodes s1) 0 F' 0 -> freevmr_list s1 = hd_addr F' 0 -> addrs F' = addrs (F1 ++ F2) ->
  same_out (addrs (F1 ++ F2)) (vm_nodes s) (vm_nodes s1) -> wp (free_node_put p) Q s1.
Proof.
  intros Hput Hfr Hu Hn Hs Hh Had Ho. pose proof put_spare as (Has & Hnd & Hc & Hsp).
  assert (nchain (vm_nodes s1) N) as Hc1.
  { eapply nchain_out; [exact Ho| |exact Hc]. intros q Hq Hf. apply (vd_free_spare _ _ _ _ _ _ Hd q Hf), elem_of_cons. auto. }
  assert (p ∉ addrs (F1 ++ F2)) as Hpn by (intros Hin; apply (vd_free_spare _ _ _ _ _ _ Hd p Hin), elem_of_cons; auto).
  eapply wp_free_node_put; [|exists (mkVnode 0 r.1 r.2 0)|exact Hc1| |done|done|].
  - rewrite (vf_who _ _ Hfr), (vf_lk _ _ Hfr). apply put_held.
  - by rewrite (Ho p).
  - by rewrite Hn.
  - intros h' Hc' Ho'. eapply HQ; [exact Hput| |destruct Hfr; by split]. apply (rep_free_change _ _ _ _ _ _ Hd); simpl; try done.
    + destruct Hfr; by split.
    + eapply rseg_out; [exact Ho'| |exact Hs]. rewrite Had. apply (vd_free_spare _ _ _ _ _ _ Hd).
    + intros q Hq. rewrite elem_of_cons, elem_of_app in Hq. rewrite (Ho' q) by (rewrite elem_of_cons; tauto). apply Ho. tauto.
    + rewrite Had. symmetry. apply Permutation_middle.
Qed.
End Put.

(** A region in the middle of a list changes its extent. *)
Lemma rseg_resize h l1 p r r' l2 : rseg h 0 (l1 ++ (p, r) :: l2) 0 -> dll_ok (l1 ++ (p, r) :: l2) ->
  rseg (<[p := mkVnode (last_addr l1 0) r'.1 r'.2 (hd_addr l2 0)]> h) 0 (l1 ++ (p, r') :: l2) 0.
Proof.
  intros [H1 [_ H2]]%rseg_app Hok. pose proof (dll_ok_mid _ _ _ _ Hok) as (_ & Hpn & _). rewrite elem_of_addrs_app in Hpn.
  apply rseg_join; [apply rseg_insert; [tauto|done]|by rewrite lookup_insert_eq|apply rseg_insert; [tauto|done]].
Qed.
Lemma addrs_resize l1 p (r r' : region) l2 : addrs (l1 ++ (p, r') :: l2) = addrs (l1 ++ (p, r) :: l2).
Proof. by rewrite !addrs_app, !addrs_cons. Qed.
Lemma hd_resize l1 p (r r' : region) l2 : hd_addr (l1 ++ (p, r') :: l2) 0 = hd_addr (l1 ++ (p, r) :: l2) 0.
Proof. by rewrite !hd_addr_app. Qed.
Lemma vset_same_free s : vm_set_free (freevmr_list s) s = s.
Proof. by destruct s. Qed.

(** [can_merge_next] for the region behind a node. *)
Lemma wp_can_merge_next s1 q rq pv nx lp l (P : bool -> vmm -> Prop) :
  holding (vm_who s1) (vm_lk s1) = true -> addr_ok q -> vm_nodes s1 !! q = Some (mkVnode pv rq.1 rq.2 nx) ->
  rseg (vm_nodes s1) lp l 0 -> dll_ok l ->
  P (match l with [] => false | y :: _ => u64 (rq.1 + rq.2) =? y.2.1 end) s1 ->
  wp (if is_null (hd_addr l 0) then ret! false else can_merge_next q (hd_addr l 0)) P s1.
Proof.
  intros Hl Ha Hq Hs Hok HP. destruct l as [|[y ry] l]; simpl; [by apply wp_ret|].
  apply dll_ok_cons in Hok as (Hy & _ & _). destruct Hs as [Hy' _]. simpl in *. unfold can_merge_next. rewrite !addr_not_null by done.
  apply wp_bind, wp_node_assert; [done|]. apply wp_bind, wp_vassert; [done|]. apply wp_bind. eapply wp_vload; [done|].
  apply wp_bind. eapply wp_vload; [done|]. by apply wp_ret.
Qed.

Section Merge.
Context (s : vmm) (U F1 F2 : vlist) (N : list Z) (p : Z) (r : region).
Hypothesis Hp : vm_nodes s !! p = Some (mkVnode 0 r.1 r.2 0).
Hypothesis Hr : region_ok r.
Variable Q : unit -> vmm -> Prop.

(** Merged into the region above. *)
Lemma wp_put_up x rx :
  vdetached s (F1 ++ (x, rx) :: F2) U N p r -> region_ok rx ->
  (forall F0 y, F1 = F0 ++ [y] -> vend y.2 <> r.1) -> vend r = rx.1 ->
  (forall s' F' L, vput p r F1 ((x, rx) :: F2) F' L -> vmm_rep s' F' U (L ++ N) -> vmm_frame s s' -> Q tt s') ->
  wp (do! vmodify x (fun y => vset_size (u64 (vn_size y + r.2)) y) in
      do! vmodify x (fun y => vset_base (u64 (vn_base y - r.2)) y) in
      do! (if is_null (last_addr F1 0) then vupd (vm_set_free x) else vmodify (last_addr F1 0) (vset_next x)) in
      do! vmodify x (vset_prev (last_addr F1 0)) in
      free_node_put p) Q s.
Proof.
  intros Hd Hrx Hn1 Hup HQ. pose proof (vd_dll _ _ _ _ _ _ Hd) as [(_ & Hpn & Hok)%dll_ok_cons _]. simpl in Hpn.
  pose proof (dll_ok_mid _ _ _ _ Hok) as (_ & Hxn & Hax & Hok1 & _ & Hdj). rewrite elem_of_addrs_app in Hxn.
  pose proof (vd_rep _ _ _ _ _ _ Hd) as [Hseg Hhd _ _ _ _ _ _ _]. pose proof (rseg_mid _ _ _ _ _ _ _ Hseg) as Hx.
  unfold region_ok, vend in *. apply wp_bind. eapply wp_vmodify; [done|]. simpl.
  apply wp_bind. eapply wp_vmodify; [simpl; by rewrite lookup_insert_eq|]. simpl. rewrite insert_insert_eq. unfold vset_base, vset_size. simpl.
  rewrite (u64_small (rx.2 + r.2)), (u64_small (rx.1 - r.2)) by (unfold is_u64; lia).
  replace (rx.1 - r.2) with r.1 by lia. pose proof (rseg_resize _ _ _ _ (r.1, rx.2 + r.2) _ Hseg Hok) as Hs1. simpl in Hs1.
  set (h1 := <[x := _]> _) in *. pose proof Hs1 as [Hs11 [_ Hs12]]%rseg_app. apply wp_bind.
  eapply wp_vlink_next; [exact Hs11|done|simpl; by rewrite Hhd, hd_addr_app|]. intros h2 Hs2 Ho2. simpl in *.
  assert (h2 !! x = h1 !! x) as Hx2 by (apply Ho2; tauto).
  apply wp_bind. eapply wp_vmodify; [simpl; rewrite Hx2; unfold h1; by rewrite lookup_insert_eq|]. simpl.
  eapply (wp_put_node s U F1 ((x, rx) :: F2) N p r Hd Hp Q HQ); [by apply vput_up|by split|done..| | | |]; simpl.
  - apply rseg_join; simpl; [apply rseg_insert; [tauto|done]|by rewrite lookup_insert_eq|]. apply rseg_insert; [tauto|].
    eapply rseg_out; [exact Ho2| |exact Hs12]. intros q Hq Hq'. by apply (Hdj q).
  - by rewrite hd_addr_app.
  - by rewrite !addrs_app, !addrs_cons.
  - intros q Hq. rewrite elem_of_addrs_app, elem_of_addrs_cons in Hq. simpl in Hq. rewrite lookup_insert_ne by naive_solver.
    rewrite Ho2 by tauto. apply lookup_insert_ne. naive_solver.
Qed.

(** Both neighbours merged: the region above is taken out of the list. *)
Lemma wp_put_both q rq x rx :
  vdetached s ((F1 ++ [(q, rq)]) ++ (x, rx) :: F2) U N p r -> region_ok rq -> region_ok rx -> vend rq = r.1 -> vend r = rx.1 ->
  (forall s' F' L, vput p r (F1 ++ [(q, rq)]) ((x, rx) :: F2) F' L -> vmm_rep s' F' U (L ++ N) -> vmm_frame s s' -> Q tt s') ->
  wp (do! (let! y := vload x in
           do! vmodify q (fun z => vset_size (u64 (vn_size z + vn_size y)) z) in
           do! vmodify q (vset_next (vn_next y)) in
           do! vmodify_opt (vn_next y) (vset_prev q) in
           free_node_put x) in
      free_node_put p) Q (vm_set_nodes (<[q := mkVnode (last_addr F1 0) rq.1 (rq.2 + r.2) x]> (vm_nodes s)) s).
Proof.
  intros Hd Hrq Hrx Hdn Hup HQ. pose proof (put_spare _ _ _ _ _ _ _ Hd) as (Has & Hnd & Hc & Hsp). pose proof (put_held _ _ _ _ _ _ _ Hd) as Hl.
  pose proof (vd_dll _ _ _ _ _ _ Hd) as [(_ & Hpn & Hok)%dll_ok_cons _]. pose proof (vd_free_spare _ _ _ _ _ _ Hd) as Hfs.
  pose proof (vd_rep _ _ _ _ _ _ Hd) as [Hseg Hhd _ _ _ _ _ _ _]. pose proof (rseg_mid _ _ _ _ _ _ _ Hseg) as Hx. rewrite last_addr_snoc in Hx.
  rewrite <- app_assoc in Hok, Hseg, Hhd, Hpn. simpl in Hok, Hseg, Hhd, Hpn, Hx.
  pose proof (dll_ok_mid _ _ _ _ Hok) as (_ & Hqn & _ & Hok1 & Hok2 & Hdj). rewrite elem_of_addrs_app, elem_of_addrs_cons in Hqn. simpl in Hqn.
  pose proof Hok2 as (Hax & Hxn & Hok3)%dll_ok_cons. simpl in Hax, Hxn. setoid_rewrite elem_of_addrs_cons in Hdj. simpl in Hdj.
  apply rseg_app in Hseg as [Hs1 [Hq [_ Hs2]]]. simpl in Hs1, Hq.
  rewrite elem_of_addrs_app, !elem_of_addrs_cons in Hpn. simpl in Hpn.
  setoid_rewrite elem_of_addrs_app in Hfs. setoid_rewrite elem_of_addrs_app in Hfs. setoid_rewrite elem_of_addrs_cons in Hfs. simpl in Hfs.
  apply wp_bind, wp_bind. eapply wp_vload; [simpl; rewrite lookup_insert_ne by naive_solver; exact Hx|]. simpl.
  apply wp_bind. eapply wp_vmodify; [simpl; by rewrite lookup_insert_eq|]. simpl.
  apply wp_bind. eapply wp_vmodify; [simpl; by rewrite lookup_insert_eq|]. simpl. rewrite !insert_insert_eq. unfold vset_next, vset_size. simpl.
  unfold region_ok, vend in *. rewrite (u64_small (rq.2 + r.2 + rx.2)) by (unfold is_u64; lia). set (h1 := <[q := _]> _).
  apply wp_bind. eapply wp_vlink_prev; [simpl; apply rseg_insert; [tauto|exact Hs2]|done|]. intros h2 Hs2' Ho2. simpl in *.
  assert (same_out (addrs (F1 ++ (q, rq) :: (x, rx) :: F2)) (vm_nodes s) h2) as Ho.
  { intros a Ha. rewrite elem_of_addrs_app, !elem_of_addrs_cons in Ha. simpl in Ha. rewrite Ho2 by tauto. apply lookup_insert_ne. naive_solver. }
  assert (rseg h2 0 (F1 ++ (q, (rq.1, rq.2 + r.2 + rx.2)) :: F2) 0) as Hs.
  { apply rseg_join; simpl; [|rewrite (Ho2 q) by tauto; apply lookup_insert_eq|done].
    eapply rseg_out; [exact Ho2| |apply rseg_insert; [tauto|exact Hs1]]. intros a Ha Ha'. by apply (Hdj a Ha); auto. }
  assert (x ∉ p :: N) as HxN by (apply Hfs; auto). rewrite elem_of_cons in HxN.
  eapply (wp_free_node_put _ x N); simpl; [done| | |done| | |].
  { rewrite (Ho2 x) by done. unfold h1. rewrite lookup_insert_ne by naive_solver. eauto. }
  { eapply nchain_out; [exact Ho| |exact Hc]. intros a Ha. rewrite elem_of_addrs_app, !elem_of_addrs_cons. simpl. intros Hf.
    apply (Hfs a); [tauto|]. apply elem_of_cons. auto. }
  { apply Forall_cons in Has as [_ ?]. by constructor. }
  { apply NoDup_cons in Hnd as [_ ?]. constructor; tauto. }
  intros h3 Hc3 Ho3. eapply (wp_free_node_put _ p (x :: N)); simpl; [done| |done|done| | |].
  { rewrite (Ho3 p), (Ho p); [eauto| |].
    - rewrite elem_of_addrs_app, !elem_of_addrs_cons. simpl. tauto.
    - apply NoDup_cons in Hnd. rewrite elem_of_cons. naive_solver. }
  { apply Forall_cons in Has as [? ?]. constructor; [done|]. by constructor. }
  { apply NoDup_cons in Hnd as [? ?]. rewrite !NoDup_cons, elem_of_cons. naive_solver. }
  intros h4 Hc4 Ho4. eapply HQ; [by apply vput_both| |by split].
  apply (rep_free_change _ _ _ _ _ _ Hd); simpl; try done.
  - assert (forall a, a ∈ addrs (F1 ++ (q, (rq.1, rq.2 + r.2 + rx.2)) :: F2) -> a <> x /\ a ∉ p :: N) as Hout.
    { intros a. rewrite elem_of_addrs_app, elem_of_addrs_cons. simpl. intros Ha. split; [|apply Hfs; tauto]. intros ->. naive_solver. }
    eapply rseg_ext; [|exact Hs]. intros a Ha. apply Hout in Ha as [Ha1 Ha2]. rewrite elem_of_cons in Ha2.
    rewrite (Ho4 a), (Ho3 a); rewrite ?elem_of_cons; tauto || done.
  - rewrite Hhd. by rewrite !hd_addr_app.
  - intros a Ha. rewrite <- app_assoc in Ha. simpl in Ha. rewrite elem_of_cons, elem_of_app, elem_of_addrs_app, !elem_of_addrs_cons in Ha. simpl in Ha.
    rewrite (Ho4 a), (Ho3 a), (Ho a); rewrite ?elem_of_cons, ?elem_of_addrs_app, ?elem_of_addrs_cons; simpl; tauto || done.
  - rewrite <- app_assoc. rewrite !addrs_app, !addrs_cons. simpl. rewrite <- !app_assoc. simpl. solve_Permutation.
Qed.
End Merge.

(** Merged into the region below, and with the one above if they now meet. *)
Lemma wp_put_down s U F1 F2 N p r (Q : unit -> vmm -> Prop) q rq :
  vm_nodes s !! p = Some (mkVnode 0 r.1 r.2 0) -> region_ok r ->
  vdetached s ((F1 ++ [(q, rq)]) ++ F2) U N p r -> region_ok rq -> Forall (fun x => region_ok x.2) F2 -> vend rq = r.1 ->
  (forall s' F' L, vput p r (F1 ++ [(q, rq)]) F2 F' L -> vmm_rep s' F' U (L ++ N) -> vmm_frame s s' -> Q tt s') ->
  wp (do! vmodify q (fun z => vset_size (u64 (vn_size z + r.2)) z) in
      let! up := (if is_null (hd_addr F2 0) then ret! false else can_merge_next q (hd_addr F2 0)) in
      do! M_when up
            (let! y := vload (hd_addr F2 0) in
             do! vmodify q (fun z => vset_size (u64 (vn_size z + vn_size y)) z) in
             do! vmodify q (vset_next (vn_next y)) in
             do! vmodify_opt (vn_next y) (vset_prev q) in
             free_node_put (hd_addr F2 0)) in
      free_node_put p) Q s.
Proof.
  intros Hp Hr Hd Hrq HF2 Hdn HQ. pose proof (put_held _ _ _ _ _ _ _ Hd) as Hl.
  pose proof (vd_dll _ _ _ _ _ _ Hd) as [(_ & _ & Hok)%dll_ok_cons _]. rewrite <- app_assoc in Hok. simpl in Hok.
  pose proof (vd_rep _ _ _ _ _ _ Hd) as [Hseg Hhd _ _ _ _ _ _ _]. rewrite <- app_assoc in Hseg, Hhd. simpl in Hseg, Hhd.
  pose proof (dll_ok_mid _ _ _ _ Hok) as (_ & Hqn & Haq & _ & Hok2 & _). rewrite elem_of_addrs_app in Hqn.
  pose proof (rseg_mid _ _ _ _ _ _ _ Hseg) as Hq. unfold region_ok, vend in *.
  apply wp_bind. eapply wp_vmodify; [done|]. unfold vset_size. simpl. rewrite (u64_small (rq.2 + r.2)) by (unfold is_u64; lia).
  pose proof (rseg_resize _ _ _ _ (rq.1, rq.2 + r.2) _ Hseg Hok) as Hs1. simpl in Hs1.
  apply wp_bind. eapply (wp_can_merge_next _ q (rq.1, rq.2 + r.2)); simpl; [done|done|by rewrite lookup_insert_eq| |done|].
  { by apply rseg_app in Hs1 as [_ [_ Hs1]]. }
  rewrite (u64_small (rq.1 + (rq.2 + r.2))) by (unfold is_u64; lia).
  assert ((forall y, hd_error F2 = Some y -> vend r <> y.2.1) ->
    wp (free_node_put p) Q (vm_set_nodes (<[q := mkVnode (last_addr F1 0) rq.1 (rq.2 + r.2) (hd_addr F2 0)]> (vm_nodes s)) s)) as Hone.
  { intros Hno. eapply (wp_put_node s U (F1 ++ [(q, rq)]) F2 N p r Hd Hp Q HQ); [by apply vput_down|by split|done..| | | |]; simpl.
    - done.
    - by rewrite Hhd, !hd_addr_app.
    - by rewrite <- app_assoc, !addrs_app, !addrs_cons.
    - intros a Ha. rewrite !elem_of_addrs_app, elem_of_addrs_cons in Ha. simpl in Ha. apply lookup_insert_ne. naive_solver. }
  destruct F2 as [|[x rx] F3]; simpl in *; [by apply Hone|]. apply Forall_cons in HF2 as [Hrx HF3]. simpl in Hrx.
  destruct (Z.eqb_spec (rq.1 + (rq.2 + r.2)) rx.1) as [E|E]; simpl.
  - by apply (wp_put_both s U F1 F3 N p r Hp Hr Q q rq x rx); unfold vend; auto; lia.
  - apply Hone. intros y [= <-]. unfold vend. simpl. lia.
Qed.

Lemma wp_can_merge_prev s p r q rq pv nx pv' nx' (P : bool -> vmm -> Prop) :
  holding (vm_who s) (vm_lk s) = true -> addr_ok p -> addr_ok q ->
  vm_nodes s !! p = Some (mkVnode pv r.1 r.2 nx) -> vm_nodes s !! q = Some (mkVnode pv' rq.1 rq.2 nx') ->
  P (u64 (rq.1 + rq.2) =? r.1) s -> wp (can_merge_prev p q) P s.
Proof.
  intros Hl Hp Hq Hp' Hq' HP. unfold can_merge_prev. apply wp_bind, wp_node_assert; [done|]. apply wp_bind, wp_vassert; [done|].
  rewrite addr_not_null by done. apply wp_bind. eapply wp_vload; [done|]. apply wp_bind. eapply wp_vload; [done|]. by apply wp_ret.
Qed.

(** From the place on. *)
Lemma wp_put_place s U F1 F2 N p r (Q : unit -> vmm -> Prop) :
  vdetached s (F1 ++ F2) U N p r -> vm_nodes s !! p = Some (mkVnode 0 r.1 r.2 0) -> region_ok r ->
  Forall (fun x => region_ok x.2) (F1 ++ F2) ->
  (forall s' F' L, vput p r F1 F2 F' L -> vmm_rep s' F' U (L ++ N) -> vmm_frame s s' -> Q tt s') ->
  let prev := last_addr F1 0 in let next := hd_addr F2 0 in
  wp (let! down := (if is_null prev then ret! false else can_merge_prev p prev) in
      if down then
        do! vmodify prev (fun q => vset_size (u64 (vn_size q + r.2)) q) in
        let! up := (if is_null next then ret! false else can_merge_next prev next) in
        do! M_when up
              (let! x := vload next in
               do! vmodify prev (fun q => vset_size (u64 (vn_size q + vn_size x)) q) in
               do! vmodify prev (vset_next (vn_next x)) in
               do! vmodify_opt (vn_next x) (vset_prev prev) in
               free_node_put next) in
        free_node_put p
      else
        let! up := (if is_null next then ret! false else can_merge_next p next) in
        if up then
          do! vmodify next (fun x => vset_size (u64 (vn_size x + r.2)) x) in
          do! vmodify next (fun x => vset_base (u64 (vn_base x - r.2)) x) in
          do! (if is_null prev then vupd (vm_set_free next) else vmodify prev (vset_next next)) in
          do! vmodify next (vset_prev prev) in
          free_node_put p
        else
          do! vmodify p (vset_next next) in
          do! vmodify p (vset_prev prev) in
          do! vmodify_opt next (vset_prev p) in
          if is_null prev then vupd (vm_set_free p) else vmodify prev (vset_next p)) Q s.
Proof.
  intros Hd Hp Hr HF HQ prev next. pose proof (put_held _ _ _ _ _ _ _ Hd) as Hl. pose proof (vd_addr _ _ _ _ _ _ Hd) as Ha.
  pose proof (vd_dll _ _ _ _ _ _ Hd) as [(_ & _ & [Hok1 [Hok2 _]]%dll_ok_app)%dll_ok_cons _].
  pose proof (put_seg _ _ _ _ _ _ _ Hd) as [Hs1 Hs2]. apply wp_bind.
  assert ((forall F0 y, F1 = F0 ++ [y] -> vend y.2 <> r.1) -> wp
    (let! up := (if is_null next then ret! false else can_merge_next p next) in
     if up then
       do! vmodify next (fun x => vset_size (u64 (vn_size x + r.2)) x) in
       do! vmodify next (fun x => vset_base (u64 (vn_base x - r.2)) x) in
       do! (if is_null prev then vupd (vm_set_free next) else vmodify prev (vset_next next)) in
       do! vmodify next (vset_prev prev) in free_node_put p
     else
       do! vmodify p (vset_next next) in do! vmodify p (vset_prev prev) in do! vmodify_opt next (vset_prev p) in
       if is_null prev then vupd (vm_set_free p) else vmodify prev (vset_next p)) Q s) as Hup.
  { intros Hno. apply wp_bind. apply (wp_can_merge_next s p r 0 0 (last_addr F1 0)); auto.
    destruct F2 as [|[x rx] F3].
    - by apply (wp_put_new s U F1 [] N p r).
    - simpl. apply Forall_app in HF as [_ [Hrx _]%Forall_cons]. simpl in Hrx. pose proof Hr as Hr'. unfold region_ok in Hr'.
      rewrite (u64_small (r.1 + r.2)) by (unfold is_u64; lia). destruct (Z.eqb_spec (r.1 + r.2) rx.1) as [E|E].
      + by apply (wp_put_up s U F1 F3 N p r Hp Hr Q x rx).
      + apply (wp_put_new s U F1 ((x, rx) :: F3) N p r); try done. by intros y [= <-]. }
  unfold prev. destruct F1 as [|[q rq] G _] using rev_ind.
  - simpl. apply wp_ret. apply Hup. by intros [] ?.
  - unfold prev in Hup. rewrite last_addr_snoc in *. simpl in *. apply dll_ok_app in Hok1 as (_ & (Haq & _)%dll_ok_cons & _). simpl in Haq.
    apply rseg_app in Hs1 as [_ [Hq _]]. simpl in Hq. rewrite !Forall_app, Forall_singleton in HF. destruct HF as [[_ Hrq] HF2]. simpl in Hrq.
    rewrite (addr_not_null q) in * by done. eapply (wp_can_merge_prev _ p r q rq); try done.
    pose proof Hrq as Hrq'. unfold region_ok in Hrq'. rewrite (u64_small (rq.1 + rq.2)) by (unfold is_u64; lia).
    destruct (Z.eqb_spec (rq.1 + rq.2) r.1) as [E|E].
    + by apply (wp_put_down s U G F2 N p r Q q rq).
    + apply Hup. intros F0 y [-> [= <-]]%app_inj_tail. done.
Qed.

(** The whole of [freevmr_put]. *)
Lemma wp_freevmr_put s F U N p r (Q : unit -> vmm -> Prop) :
  vdetached s F U N p r -> region_ok r -> Forall (fun x => region_ok x.2) F ->
  (forall s' F' L, vput p r (vsplit r.1 F).1 (vsplit r.1 F).2 F' L -> vmm_rep s' F' U (L ++ N) -> vmm_frame s s' -> Q tt s') ->
  wp (freevmr_put p) Q s.
Proof.
  intros Hd0 Hr HF HQ. pose proof Hd0 as [Hrep (pv & nx & Hp0) Ha Hfr]. pose proof (vd_dll _ _ _ _ _ _ Hd0) as [(_ & Hpn & Hok)%dll_ok_cons _].
  unfold freevmr_put. apply wp_bind, wp_get. apply wp_bind, wp_node_assert; [done|]. apply wp_bind, wp_vassert; [apply Hrep|].
  apply wp_bind. eapply wp_vmodify; [done|]. apply wp_bind. eapply wp_vmodify; [simpl; by rewrite lookup_insert_eq|].
  simpl. rewrite insert_insert_eq. unfold vset_prev, vset_next. simpl. set (s1 := vm_set_nodes _ _).
  assert (vm_nodes s1 !! p = Some (mkVnode 0 r.1 r.2 0)) as Hp by (unfold s1; simpl; apply lookup_insert_eq).
  assert (vdetached s1 F U N p r) as Hd.
  { split; [|eauto|done|done]. rewrite elem_of_nodes_of in Hfr. destruct Hrep. split; try done; unfold s1; simpl.
    - apply rseg_insert; [tauto|done].
    - apply rseg_insert; [tauto|done].
    - eapply nchain_ext; [|done]. intros q Hq. apply lookup_insert_ne. naive_solver. }
  assert (forall s' F' L, vput p r (vsplit r.1 F).1 (vsplit r.1 F).2 F' L -> vmm_rep s' F' U (L ++ N) -> vmm_frame s1 s' -> Q tt s') as HQ1.
  { intros s' F' L Hv Hr' Hf'. eapply HQ; [done|done|]. etrans; [|exact Hf']. by split. }
  clearbody s1. clear HQ Hd0. apply wp_bind. eapply wp_vload; [done|]. simpl. apply wp_bind, wp_vfuel.
  rewrite (vr_free_hd _ _ _ _ Hrep). apply wp_bind. eapply (wp_freevmr_place _ _ F 0); [apply (vd_rep _ _ _ _ _ _ Hd)|done| |].
  { pose proof (rseg_length _ _ _ _ (vr_free _ _ _ _ (vd_rep _ _ _ _ _ _ Hd)) Hok). lia. }
  simpl. rewrite (vsplit_app r.1 F) in Hd, HF, Hok. destruct (vsplit r.1 F) as [F1 F2]. simpl in *.
  apply (wp_put_place s1 U F1 F2 N p r); auto.
Qed.

(** ** Taking a region out of its list *)
Lemma rep_mid_free s F1 q r F2 U N : vmm_rep s (F1 ++ (q, r) :: F2) U N ->
  addr_ok q /\ q ∉ nodes_of (F1 ++ F2) U N /\ NoDup (nodes_of (F1 ++ F2) U N) /\ Forall addr_ok (nodes_of (F1 ++ F2) U N).
Proof.
  intros [_ _ _ _ _ _ Hn Ha _]. assert (Permutation (nodes_of (F1 ++ (q, r) :: F2) U N) (q :: nodes_of (F1 ++ F2) U N)) as Hp.
  { unfold nodes_of. rewrite !addrs_app, addrs_cons, <- !app_assoc. simpl. symmetry. apply Permutation_middle. }
  rewrite Hp in Hn, Ha. apply NoDup_cons in Hn as [? ?]. by apply Forall_cons in Ha as [? ?].
Qed.
Lemma rep_mid_used s U1 q r U2 F N : vmm_rep s F (U1 ++ (q, r) :: U2) N ->
  addr_ok q /\ q ∉ nodes_of F (U1 ++ U2) N /\ NoDup (nodes_of F (U1 ++ U2) N) /\ Forall addr_ok (nodes_of F (U1 ++ U2) N).
Proof.
  intros [_ _ _ _ _ _ Hn Ha _]. assert (Permutation (nodes_of F (U1 ++ (q, r) :: U2) N) (q :: nodes_of F (U1 ++ U2) N)) as Hp.
  { unfold nodes_of. rewrite !addrs_app, addrs_cons. simpl. solve_Permutation. }
  rewrite Hp in Hn, Ha. apply NoDup_cons in Hn as [? ?]. by apply Forall_cons in Ha as [? ?].
Qed.
Lemma nodup_nodes F U N : NoDup (nodes_of F U N) ->
  (forall q, q ∈ addrs U -> q ∉ addrs F) /\ (forall q, q ∈ N -> q ∉ addrs F) /\ (forall q, q ∈ N -> q ∉ addrs U).
Proof.
  unfold nodes_of. rewrite !NoDup_app. intros (_ & H1 & _ & H2 & _). setoid_rewrite elem_of_app in H1. split_and!.
  - intros q Hu Hf. by apply (H1 q Hf); auto.
  - intros q Hn Hf. by apply (H1 q Hf); auto.
  - intros q Hn Hu. by apply (H2 q Hu).
Qed.
Lemma unlink_free s F1 q r F2 U N h' :
  vmm_rep s (F1 ++ (q, r) :: F2) U N -> rseg h' 0 (F1 ++ F2) 0 -> same_out (addrs (F1 ++ F2)) (vm_nodes s) h' ->
  vdetached (vm_set_nodes h' (vm_set_free (hd_addr (F1 ++ F2) 0) s)) (F1 ++ F2) U N q r.
Proof.
  intros Hr Hs Ho. destruct (rep_mid_free _ _ _ _ _ _ _ Hr) as (Ha & Hq & Hn & Hf). destruct (nodup_nodes _ _ _ Hn) as (H1 & H2 & _).
  pose proof (rseg_mid _ _ _ _ _ _ _ (vr_free _ _ _ _ Hr)) as Hq'. split; try done; simpl.
  - destruct Hr. split; try done; simpl; [by eapply rseg_out|by eapply nchain_out].
  - rewrite elem_of_nodes_of in Hq. rewrite (Ho q) by tauto. eauto.
Qed.
Lemma unlink_used s U1 q r U2 F N h' :
  vmm_rep s F (U1 ++ (q, r) :: U2) N -> rseg h' 0 (U1 ++ U2) 0 -> same_out (addrs (U1 ++ U2)) (vm_nodes s) h' ->
  vdetached (vm_set_nodes h' (vm_set_used (hd_addr (U1 ++ U2) 0) s)) F (U1 ++ U2) N q r.
Proof.
  intros Hr Hs Ho. destruct (rep_mid_used _ _ _ _ _ _ _ Hr) as (Ha & Hq & Hn & Hf). destruct (nodup_nodes _ _ _ Hn) as (H1 & _ & H2).
  pose proof (rseg_mid _ _ _ _ _ _ _ (vr_used _ _ _ _ Hr)) as Hq'. split; try done; simpl.
  - destruct Hr. split; try done; simpl; [|by eapply nchain_out]. eapply rseg_out; [done| |done]. intros a Ha1 Ha2. by apply (H1 a).
  - rewrite elem_of_nodes_of in Hq. rewrite (Ho q) by tauto. eauto.
Qed.

(** ** The heap when nobody holds its lock *)
Definition vm_locked (s : vmm) : vmm := vm_set_lk (lk_held (vm_who s) (vm_lk s)) s.
Definition vmm_idle (s : vmm) (F U : vlist) (N : list Z) : Prop := lk_free (vm_lk s) /\ vmm_rep (vm_locked s) F U N.
Lemma wp_vm_lock s (Q : unit -> vmm -> Prop) : lk_free (vm_lk s) -> Q tt (vm_locked s) -> wp vm_lock Q s.
Proof. intros Hl HQ. unfold wp, vm_lock. by rewrite lk_acquire_free. Qed.
Lemma wp_vm_unlock s s0 (Q : unit -> vmm -> Prop) :
  lk_free (vm_lk s0) -> vm_who s = vm_who s0 -> vm_lk s = lk_held (vm_who s0) (vm_lk s0) -> Q tt (vm_set_lk (vm_lk s0) s) -> wp vm_unlock Q s.
Proof. intros Hl Hw Hk HQ. unfold wp, vm_unlock. by rewrite Hw, Hk, lk_release_held. Qed.
Lemma rep_unlocked s s0 F U N : lk_free (vm_lk s0) -> vm_who s = vm_who s0 -> vm_lk s = lk_held (vm_who s0) (vm_lk s0) ->
  vmm_rep s F U N -> vmm_idle (vm_set_lk (vm_lk s0) s) F U N.
Proof.
  intros Hl Hw Hk Hr. split; [done|]. unfold vm_locked. simpl. rewrite Hw. destruct s; simpl in *. by rewrite <- Hk.
Qed.

(** ** [alloc] and [free] *)
Lemma relock_same s : vm_set_lk (vm_lk s) (vm_locked s) = s.
Proof. by destruct s. Qed.
Lemma wp_freevmr_get s F U N size (Q : Z * Z -> vmm -> Prop) :
  vmm_rep s F U N -> Q (if size =? 0 then (- EINVAL, 0) else vfound ENOMEM (vfind (fun r => size <=? r.2) F)) s -> wp (freevmr_get size) Q s.
Proof.
  intros Hr HQ. unfold freevmr_get. apply wp_bind, wp_vassert; [apply Hr|]. destruct (size =? 0); [by apply wp_ret|].
  apply wp_bind, wp_get. apply wp_bind, wp_vfuel. rewrite (vr_free_hd _ _ _ _ Hr). destruct (rep_dll _ _ _ _ Hr) as [Hok _].
  eapply wp_freevmr_get_from; [apply Hr|done| |done]. pose proof (rseg_length _ _ _ _ (vr_free _ _ _ _ Hr) Hok). lia.
Qed.
Lemma wp_usedvmr_find s F U N base (Q : Z * Z -> vmm -> Prop) :
  vmm_rep s F U N -> base <> 0 -> Q (vfound ENOENT (vfind (fun r => base =? r.1) U)) s -> wp (usedvmr_find base) Q s.
Proof.
  intros Hr Hb HQ. unfold usedvmr_find. apply wp_bind, wp_vassert; [apply Hr|]. destruct (Z.eqb_spec base 0); [done|].
  apply wp_bind, wp_get. apply wp_bind, wp_vfuel. rewrite (vr_used_hd _ _ _ _ Hr). destruct (rep_dll _ _ _ _ Hr) as [_ Hok].
  eapply wp_usedvmr_find_from; [apply Hr|done| |done]. pose proof (rseg_length _ _ _ _ (vr_used _ _ _ _ Hr) Hok). lia.
Qed.

(** A free region is cut in two: the node [p] takes the front. *)
Lemma cut_region s F1 q r F2 U p N h' size :
  vmm_rep s (F1 ++ (q, r) :: F2) U (p :: N) -> nchain h' N -> h' !! p = Some VNODE_ZERO -> same_out (p :: N) (vm_nodes s) h' ->
  vdetached (vm_set_nodes (<[p := mkVnode 0 r.1 size 0]> (<[q := mkVnode (last_addr F1 0) (r.1 + size) (r.2 - size) (hd_addr F2 0)]> h')) (vm_set_spare (hd0 N) s))
    (F1 ++ (q, (r.1 + size, r.2 - size)) :: F2) U N p (r.1, size).
Proof.
  intros Hr Hc Hp Ho. pose proof (vr_nodup _ _ _ _ Hr) as Hnd. pose proof (vr_addr _ _ _ _ Hr) as Had.
  destruct (nodup_nodes _ _ _ Hnd) as (H1 & H2 & H3). destruct (rep_dll _ _ _ _ Hr) as [Hok _].
  assert (Permutation (nodes_of (F1 ++ (q, r) :: F2) U (p :: N)) (p :: nodes_of (F1 ++ (q, r) :: F2) U N)) as Hperm.
  { unfold nodes_of. simpl. solve_Permutation. }
  rewrite Hperm in Hnd, Had. apply NoDup_cons in Hnd as [Hpn Hnd]. apply Forall_cons in Had as [Hap Had].
  assert (forall a, a ∈ addrs (F1 ++ (q, r) :: F2) -> a ∉ p :: N) as HF by (intros a Ha Hn; by apply (H2 a)).
  assert (q ∈ addrs (F1 ++ (q, r) :: F2)) as Hq by (rewrite elem_of_addrs_app, elem_of_addrs_cons; auto).
  rewrite elem_of_nodes_of in Hpn. pose proof (HF _ Hq) as Hqn. rewrite elem_of_cons in Hqn.
  assert (nodes_of (F1 ++ (q, (r.1 + size, r.2 - size)) :: F2) U N = nodes_of (F1 ++ (q, r) :: F2) U N) as En.
  { unfold nodes_of. f_equal. apply addrs_resize. }
  split; [|exists 0, 0; simpl; by rewrite lookup_insert_eq|done|].
  - destruct Hr as [R1 R2 R3 R4 R5 R6 _ _ R9]. split; try done; simpl.
    + apply rseg_insert; [rewrite (addrs_resize _ _ r); tauto|]. apply (rseg_resize _ _ _ r (r.1 + size, r.2 - size)); [|done]. by eapply rseg_out.
    + rewrite R2. apply hd_resize.
    + apply rseg_insert; [tauto|]. apply rseg_insert; [intros Hu; by apply (H1 q)|]. eapply rseg_out; [done| |done]. intros a Ha Hn. by apply (H3 a).
    + eapply nchain_ext; [|exact Hc]. intros a Ha. rewrite !lookup_insert_ne; [done|naive_solver..].
    + by rewrite En.
    + by rewrite En.
  - rewrite En, elem_of_nodes_of. tauto.
Qed.

(** What a whole call leaves alone: all but the lists and the bytes in use. *)
Definition vmm_after (s s' : vmm) (inuse : Z) : Prop := vmm_frame (vm_set_inuse inuse s) s'.

Section Calls.
Context (s : vmm) (F U : vlist) (N : list Z).
Hypothesis Hidle : vmm_idle s F U N.
Hypothesis HF : Forall (fun x => region_ok x.2) F.

Lemma wp_finish {A} s1 F' U' N' (r : A) inuse (Q : A -> vmm -> Prop) :
  vmm_rep s1 F' U' N' -> vmm_frame (vm_locked (vm_set_inuse inuse s)) s1 ->
  (forall s', vmm_idle s' F' U' N' -> vmm_after s s' inuse -> Q r s') -> wp (do! vm_unlock in ret! r) Q s1.
Proof.
  intros Hr Hf HQ. destruct Hidle as [Hl _]. destruct Hf as [f1 f2 f3 f4 f5]. simpl in *. apply wp_bind. eapply (wp_vm_unlock _ s); try done.
  apply wp_ret, HQ; [by apply rep_unlocked|by split].
Qed.

Lemma wp_alloc_split size F1 q r F2 p N' (Q : Z * Z -> vmm -> Prop) :
  F = F1 ++ (q, r) :: F2 -> N = p :: N' -> 0 < size < r.2 ->
  (forall s', vmm_idle s' (F1 ++ (q, (r.1 + size, r.2 - size)) :: F2) (vins (p, (r.1, size)) U) N' ->
     vmm_after s s' (u64 (used_memsz s + size)) -> Q (0, r.1) s') ->
  wp (let! addr :=
        (let! node := free_node_get in
         do! node_assert node in
         do! vmodify node (vset_base r.1) in
         do! vmodify q (fun x => vset_base (u64 (vn_base x + size)) x) in
         do! vmodify q (fun x => vset_size (u64 (vn_size x - size)) x) in
         do! vmodify node (vset_size size) in
         do! usedvmr_put node in
         ret! r.1) in
      do! vupd (fun s => vm_set_inuse (u64 (used_memsz s + size)) s) in
      do! vm_unlock in ret! (0, addr)) Q (vm_locked s).
Proof.
  intros HeF HeN Hsz HQ. pose proof Hidle as [Hl Hr]. rewrite HeF, HeN in Hr. pose proof HF as HF'.
  rewrite HeF in HF'. apply Forall_app in HF' as [_ [Hrr _]%Forall_cons]. simpl in Hrr.
  destruct (rep_dll _ _ _ _ Hr) as [Hok _]. pose proof (vr_addr _ _ _ _ Hr) as Had. pose proof (vr_nodup _ _ _ _ Hr) as Hnd.
  destruct (nodup_nodes _ _ _ Hnd) as (_ & H2 & _). unfold nodes_of in Had, Hnd. rewrite !Forall_app in Had. rewrite !NoDup_app in Hnd.
  pose proof (rseg_mid _ _ _ _ _ _ _ (vr_free _ _ _ _ Hr)) as Hq.
  assert (q ∉ p :: N') as Hqn.
  { intros Hn. apply (H2 q Hn). rewrite elem_of_addrs_app, elem_of_addrs_cons. auto. }
  apply wp_bind, wp_bind. eapply (wp_free_node_get _ p N'); [apply Hr|apply Hr|apply Hr|tauto|tauto|].
  intros h' Hc Hp Ho. apply wp_bind, wp_node_assert. { by destruct Had as (_ & _ & [? _]%Forall_cons). }
  rewrite elem_of_cons in Hqn. rewrite <- (Ho q) in Hq by (rewrite elem_of_cons; tauto).
  apply wp_bind. eapply wp_vmodify; [exact Hp|]. apply wp_bind. eapply wp_vmodify; [simpl; rewrite lookup_insert_ne by naive_solver; exact Hq|].
  apply wp_bind. eapply wp_vmodify; [simpl; by rewrite lookup_insert_eq|].
  apply wp_bind. eapply wp_vmodify; [simpl; rewrite !lookup_insert_ne by naive_solver; by rewrite lookup_insert_eq|].
  simpl. unfold vset_base, vset_size. simpl. rewrite insert_insert_eq, (insert_insert_ne _ q p), insert_insert_eq by naive_solver.
  unfold region_ok in Hrr. rewrite (u64_small (r.1 + size)), (u64_small (r.2 - size)) by (unfold is_u64; lia).
  pose proof (cut_region _ _ _ _ _ _ _ _ _ size Hr Hc Hp Ho) as Hd. apply wp_bind. 
  eapply wp_usedvmr_put; [exact Hd|]. intros s' Hr' [f1 f2 f3 f4 f5]. simpl in *. apply wp_ret, wp_bind, wp_vupd.
  eapply (wp_finish _ _ _ _ _ (u64 (used_memsz s + size))); [|split; simpl; try done; by rewrite f5|exact HQ]. destruct Hr'. by split.
Qed.
Lemma wp_alloc_whole size F1 q r F2 (Q : Z * Z -> vmm -> Prop) :
  F = F1 ++ (q, r) :: F2 -> r.2 = size ->
  (forall s', vmm_idle s' (F1 ++ F2) (vins (q, r) U) N -> vmm_after s s' (u64 (used_memsz s + size)) -> Q (0, r.1) s') ->
  wp (let! addr :=
        (do! vmodify_opt (hd_addr F2 0) (vset_prev (last_addr F1 0)) in
         do! (if is_null (last_addr F1 0) then vupd (vm_set_free (hd_addr F2 0)) else vmodify (last_addr F1 0) (vset_next (hd_addr F2 0))) in
         do! usedvmr_put q in
         ret! r.1) in
      do! vupd (fun s => vm_set_inuse (u64 (used_memsz s + size)) s) in
      do! vm_unlock in ret! (0, addr)) Q (vm_locked s).
Proof.
  intros HeF Hsz HQ. pose proof Hidle as [Hl Hr]. rewrite HeF in Hr. destruct (rep_dll _ _ _ _ Hr) as [Hok _].
  apply wp_bind. eapply wp_vunlink_np; [apply Hr|done|apply Hr|]. intros h' Hs Ho.
  pose proof (unlink_free _ _ _ _ _ _ _ _ Hr Hs Ho) as Hd. apply wp_bind. eapply wp_usedvmr_put; [exact Hd|].
  intros s' Hr' [f1 f2 f3 f4 f5]. simpl in *. apply wp_ret, wp_bind, wp_vupd.
  eapply (wp_finish _ _ _ _ _ (u64 (used_memsz s + size))); [|split; simpl; try done; by rewrite f5|exact HQ]. destruct Hr'. by split.
Qed.

(** [alloc]: nothing large enough, a region cut, or a region taken whole. *)
Lemma wp_vmm_alloc_region size (Q : Z * Z -> vmm -> Prop) :
  0 < size ->
  (vfind (fun r => size <=? r.2) F = None -> Q (- ENOMEM, 0) s) ->
  (forall F1 q r F2, F = F1 ++ (q, r) :: F2 -> Forall (fun y => (size <=? y.2.2) = false) F1 -> size < r.2 ->
     exists p N', N = p :: N' /\
       forall s', vmm_idle s' (F1 ++ (q, (r.1 + size, r.2 - size)) :: F2) (vins (p, (r.1, size)) U) N' ->
         vmm_after s s' (u64 (used_memsz s + size)) -> Q (0, r.1) s') ->
  (forall F1 q r F2, F = F1 ++ (q, r) :: F2 -> Forall (fun y => (size <=? y.2.2) = false) F1 -> r.2 = size ->
     forall s', vmm_idle s' (F1 ++ F2) (vins (q, r) U) N -> vmm_after s s' (u64 (used_memsz s + size)) -> Q (0, r.1) s') ->
  wp (vmm_alloc_region size) Q s.
Proof.
  intros Hsz Hnone Hcut Hall. pose proof Hidle as [Hl Hr]. unfold vmm_alloc_region. apply wp_bind, wp_vm_lock; [done|].
  apply wp_bind. eapply wp_freevmr_get; [exact Hr|]. destruct (Z.eqb_spec size 0); [lia|].
  destruct (vfind _ F) as [[q r]|] eqn:Hv; simpl.
  - apply vfind_split in Hv as (F1 & F2 & HeF & Hlt & Hle). simpl in Hle. apply Z.leb_le in Hle.
    pose proof (vr_free _ _ _ _ Hr) as Hs. rewrite HeF in Hs. apply rseg_mid in Hs. apply wp_bind. eapply wp_vload; [done|].
    simpl. destruct (Z.ltb_spec size r.2).
    + destruct (Hcut F1 q r F2) as (p & N' & HeN & HQ); [done..|]. by eapply wp_alloc_split.
    + destruct (Z.eqb_spec r.2 size); [|lia]. eapply wp_alloc_whole; [done|done|]. by eapply Hall.
  - apply wp_bind. eapply (wp_vm_unlock _ s); [done..|]. rewrite relock_same. apply wp_ret. by apply Hnone.
Qed.
(** A size of 0 is refused. *)
Lemma wp_vmm_alloc_zero (Q : Z * Z -> vmm -> Prop) : Q (- EINVAL, 0) s -> wp (vmm_alloc_region 0) Q s.
Proof.
  intros HQ. pose proof Hidle as [Hl Hr]. unfold vmm_alloc_region. apply wp_bind, wp_vm_lock; [done|].
  apply wp_bind. eapply wp_freevmr_get; [exact Hr|]. simpl. apply wp_bind. eapply (wp_vm_unlock _ s); [done..|]. rewrite relock_same. by apply wp_ret.
Qed.

(** [free]: an address that was not allocated is ignored. *)
Lemma wp_vmm_free_region addr (Q : unit -> vmm -> Prop) :
  addr <> 0 ->
  (vfind (fun r => addr =? r.1) U = None -> Q tt s) ->
  (forall U1 q r U2, U = U1 ++ (q, r) :: U2 -> Forall (fun y => (addr =? y.2.1) = false) U1 -> addr = r.1 ->
     region_ok r /\
     forall s' F' L, vput q r (vsplit r.1 F).1 (vsplit r.1 F).2 F' L -> vmm_idle s' F' (U1 ++ U2) (L ++ N) ->
       vmm_after s s' (u64 (used_memsz s - r.2)) -> Q tt s') ->
  wp (vmm_free_region addr) Q s.
Proof.
  intros Ha Hnone Hsome. pose proof Hidle as [Hl Hr]. unfold vmm_free_region.
  apply wp_bind, wp_assert. { unfold is_null. by destruct (Z.eqb_spec addr 0). } apply wp_bind, wp_vm_lock; [done|].
  apply wp_bind. eapply wp_usedvmr_find; [exact Hr|done|]. destruct (vfind _ U) as [[q r]|] eqn:Hv; simpl.
  - apply vfind_split in Hv as (U1 & U2 & HeU & Hlt & Hle). simpl in Hle. apply Z.eqb_eq in Hle.
    destruct (Hsome U1 q r U2) as [Hok HQ]; [done..|]. rewrite HeU in Hr. pose proof (rseg_mid _ _ _ _ _ _ _ (vr_used _ _ _ _ Hr)) as Hq.
    apply wp_bind. eapply wp_vload; [done|]. simpl. destruct (rep_dll _ _ _ _ Hr) as [_ Hd].
    eapply wp_vunlink_pn; [apply Hr|done|apply Hr|]. intros h' Hs Ho. apply wp_bind, wp_vupd.
    pose proof (unlink_used _ _ _ _ _ _ _ _ Hr Hs Ho) as Hdet. apply wp_bind. eapply (wp_freevmr_put _ F (U1 ++ U2) N q r); [|done|done|].
    { destruct Hdet as [[] ? ? ?]. split; [by split|done..]. }
    intros s' F' L Hput Hr' [f1 f2 f3 f4 f5]. simpl in *. eapply (wp_vm_unlock _ s); try done.
    eapply HQ; [done|by apply rep_unlocked|by split].
  - eapply (wp_vm_unlock _ s); [done..|]. rewrite relock_same. by apply Hnone.
Qed.
End Calls.
