(* ===== verification/VmmInv.v ===== *)
(** * The reference allocator for kernel virtual addresses

    A heap of virtual addresses as two lists of regions, free and used: first fit for an
    allocation, insertion and coalescing of all neighbours for a release.  The lists
    always tile the heap, and no two free regions touch. *)
From Stdlib Require Import Sorting.Sorted.
From S2P Require Import Prelude Errno Spinlock KMem Queue Dll Pmm Vmm VmmFacts.

Definition space : Type := list region * list region.
Implicit Types (r x y : region) (l k X Y : list region).

(** ** Operations *)
Fixpoint rins x l : list region :=
  match l with [] => [x] | y :: l' => if x.1 <? y.1 then x :: l else y :: rins x l' end.
Fixpoint coalesce l : list region :=
  match l with
  | [] => []
  | x :: l => match coalesce l with
              | y :: k => if vend x =? y.1 then (x.1, x.2 + y.2) :: k else x :: y :: k
              | [] => [x]
              end
  end.
Fixpoint fit (size : Z) l : option (Z * list region) :=
  match l with
  | [] => None
  | x :: l =>
      if size <=? x.2 then Some (x.1, if size <? x.2 then (x.1 + size, x.2 - size) :: l else l)
      else match fit size l with Some (b, l') => Some (b, x :: l') | None => None end
  end.
Fixpoint rtake (a : Z) l : option (region * list region) :=
  match l with
  | [] => None
  | x :: l => if a =? x.1 then Some (x, l) else match rtake a l with Some (y, l') => Some (y, x :: l') | None => None end
  end.
Definition spec_alloc (size : Z) (a : space) : (Z * Z) * space :=
  if size =? 0 then ((- EINVAL, 0), a) else
  match fit size a.1 with
  | None => ((- ENOMEM, 0), a)
  | Some (b, free) => ((0, b), (free, rins (b, size) a.2))
  end.
Definition spec_free (addr : Z) (a : space) : space :=
  match rtake addr a.2 with
  | None => a
  | Some (r, used) => (coalesce (rins r a.1), used)
  end.

(** ** Tilings *)
Definition page_sized r : Prop := 0 < r.2 /\ (PGSZ | r.2).
Fixpoint tiles (a : Z) l (e : Z) : Prop :=
  match l with [] => a = e | x :: l => x.1 = a /\ page_sized x /\ tiles (vend x) l e end.
Definition tiled (b e : Z) l : Prop := exists t, tiles b t e /\ Permutation l t.
Definition sizes l : Z := foldr (fun x n => x.2 + n) 0 l.

Lemma tiles_app a l k e : tiles a (l ++ k) e <-> exists m, tiles a l m /\ tiles m k e.
Proof.
  revert a. induction l as [|x l IH]; intros a; simpl; [naive_solver|]. rewrite IH. naive_solver.
Qed.
Lemma tiles_le a l e : tiles a l e -> a <= e.
Proof. revert a. induction l as [|x l IH]; intros a; simpl; [lia|]. intros (<- & [? _] & Hl%IH). unfold vend in *. lia. Qed.
Lemma tiles_bound a l e x : tiles a l e -> x ∈ l -> page_sized x /\ a <= x.1 /\ vend x <= e.
Proof.
  revert a. induction l as [|y l IH]; intros a; simpl; [by intros _ []%not_elem_of_nil|]. intros (<- & Hy & Hl).
  intros [->|Hx]%elem_of_cons; [split_and!; [done|lia|by eapply tiles_le]|].
  destruct (IH _ Hl Hx) as (? & ? & ?), Hy. unfold vend in *. split_and!; [done|lia|done].
Qed.
Lemma tiles_sizes a l e : tiles a l e -> sizes l = e - a.
Proof. revert a. induction l as [|x l IH]; intros a; simpl; [lia|]. intros (<- & _ & Hl). rewrite (IH _ Hl). unfold vend. lia. Qed.
Lemma sizes_app l k : sizes (l ++ k) = sizes l + sizes k.
Proof. induction l; simpl; lia. Qed.
#[export] Instance sizes_perm : Proper (Permutation ==> eq) sizes.
Proof. intros l k H. induction H; simpl; lia. Qed.

Section Tiled.
Context (b e : Z).
#[export] Instance tiled_perm : Proper (Permutation ==> iff) (tiled b e).
Proof. intros l k Hp. unfold tiled. by setoid_rewrite Hp. Qed.
Lemma tiled_bound l x : tiled b e l -> x ∈ l -> page_sized x /\ b <= x.1 /\ vend x <= e.
Proof. intros (t & Ht & Hp) Hx. rewrite Hp in Hx. by eapply tiles_bound. Qed.
Lemma tiled_sizes l : tiled b e l -> sizes l = e - b.
Proof. intros (t & Ht & Hp). rewrite Hp. by eapply tiles_sizes. Qed.

(** Two regions of a tiling do not overlap; when the second starts where the first
    ends, nothing is between them. *)
Lemma tiled_two x y l : tiled b e (x :: y :: l) ->
  exists t1 t2 t3, (Permutation l (t1 ++ t2 ++ t3)) /\ (tiles b (t1 ++ x :: t2 ++ y :: t3) e \/ tiles b (t1 ++ y :: t2 ++ x :: t3) e).
Proof.
  intros (t & Ht & Hp). assert (x ∈ t) as Hx by (rewrite <- Hp; by left). apply list_elem_of_split in Hx as (t1 & t2 & ->).
  rewrite <- Permutation_middle in Hp. apply Permutation_cons_inv in Hp. assert (y ∈ t1 ++ t2) as Hy by (rewrite <- Hp; by left).
  apply elem_of_app in Hy as [Hy|Hy]; apply list_elem_of_split in Hy as (k1 & k2 & ->).
  - exists k1, k2, t2. split; [|right; by rewrite <- app_assoc in Ht]. rewrite <- app_assoc in Hp. simpl in Hp.
    rewrite <- Permutation_middle in Hp. by apply Permutation_cons_inv in Hp.
  - exists t1, k1, k2. split; [|by left]. rewrite app_assoc, <- Permutation_middle, <- app_assoc in Hp. by apply Permutation_cons_inv in Hp.
Qed.
Lemma tiled_disjoint x y l : tiled b e (x :: y :: l) -> vend x <= y.1 \/ vend y <= x.1.
Proof.
  intros (t1 & t2 & t3 & _ & [H|H])%tiled_two; apply tiles_app in H as (m & _ & (Hx & _ & Hm)); apply tiles_app in Hm as (m' & Hm & (Hy & _ & _));
    apply tiles_le in Hm; [left|right]; lia.
Qed.
Lemma tiled_merge x y l : tiled b e (x :: y :: l) -> vend x = y.1 -> tiled b e ((x.1, x.2 + y.2) :: l).
Proof.
  intros (t1 & t2 & t3 & Hp & H)%tiled_two He. destruct H as [H|H];
    apply tiles_app in H as (m & H1 & (Hx & Px & Hm)); apply tiles_app in Hm as (m' & Hm & (Hy & Py & H3)).
  - assert (t2 = []) as ->.
    { destruct t2 as [|z t2]; [done|]. simpl in Hm. destruct Hm as (Hz & [? _] & Hm%tiles_le). unfold vend in *. lia. }
    exists (t1 ++ (x.1, x.2 + y.2) :: t3). split; [|rewrite Hp; simpl; apply Permutation_middle].
    apply tiles_app. exists m. split; [done|]. unfold page_sized, vend in *. simpl in *. destruct Px, Py.
    split_and!; [done|split; simpl; [lia|by apply Z.divide_add_r]|]. unfold vend. simpl. by rewrite Z.add_assoc, He.
  - exfalso. apply tiles_le in Hm. unfold page_sized, vend in *. lia.
Qed.
Lemma tiled_split x l n : tiled b e (x :: l) -> 0 < n < x.2 -> (PGSZ | n) -> tiled b e ((x.1, n) :: (x.1 + n, x.2 - n) :: l).
Proof.
  intros (t & Ht & Hp) Hn Hd. assert (x ∈ t) as Hx by (rewrite <- Hp; by left). apply list_elem_of_split in Hx as (t1 & t2 & ->).
  rewrite <- Permutation_middle in Hp. apply Permutation_cons_inv in Hp.
  exists (t1 ++ (x.1, n) :: (x.1 + n, x.2 - n) :: t2). split.
  - apply tiles_app in Ht as (m & H1 & (Hx & [Px Dx] & H2)). apply tiles_app. exists m. split; [done|]. unfold page_sized, vend in *. simpl.
    split_and!; [done|by split; simpl; [lia|]|done|split; simpl; [lia|by apply Z.divide_sub_r]|].
    unfold vend. simpl. by replace (x.1 + n + (x.2 - n)) with (x.1 + x.2) by lia.
  - rewrite Hp. solve_Permutation.
Qed.
Lemma tiled_coalesce l k : tiled b e (l ++ k) -> tiled b e (coalesce l ++ k).
Proof.
  revert k. induction l as [|x l IH]; intros k; simpl; [done|]. intros H. rewrite Permutation_middle in H. apply IH in H.
  rewrite <- Permutation_middle in H. destruct (coalesce l) as [|y c]; [done|]. destruct (Z.eqb_spec (vend x) y.1); [|done].
  simpl in *. by apply tiled_merge.
Qed.
(** There are at most as many regions as pages. *)
Lemma page_sizes l : Forall page_sized l -> Z.of_nat (length l) * PGSZ <= sizes l.
Proof.
  induction 1 as [|x l [Hx [n Hn]] _ IH]; cbn [length sizes foldr]; [lia|]. change (foldr (fun x n => x.2 + n) 0 l) with (sizes l).
  unfold PGSZ in *. nia.
Qed.
Lemma tiled_count l : tiled b e l -> Z.of_nat (length l) * PGSZ <= e - b.
Proof.
  intros H. rewrite <- (tiled_sizes _ H). apply page_sizes, Forall_forall. intros x Hx. by destruct (tiled_bound _ _ H Hx).
Qed.
End Tiled.

(** ** Order *)
Definition apart x y : Prop := vend x < y.1.
Definition in_order x y : Prop := vend x <= y.1.
Notation sep := (StronglySorted apart).
Notation sorted := (StronglySorted in_order).
Definition pos l : Prop := Forall (fun x => 0 < x.2) l.

Lemma sorted_app R l k : StronglySorted R (l ++ k) <->
  StronglySorted R l /\ StronglySorted R k /\ (forall x y, x ∈ l -> y ∈ k -> R x y).
Proof.
  induction l as [|z l IH]; simpl.
  - split; [|naive_solver]. intros H. split_and!; [constructor|done|]. by intros x y []%not_elem_of_nil.
  - split.
    + intros [H1 H2]%StronglySorted_inv. apply IH in H1 as (Hl & Hk & H). rewrite Forall_app, !Forall_forall in H2. split_and!; [|done|].
      * constructor; [done|]. apply Forall_forall. apply H2.
      * intros x y [->|Hx]%elem_of_cons Hy; [by apply H2|by apply H].
    + intros ([H1 H2]%StronglySorted_inv & Hk & H). rewrite Forall_forall in H2. constructor.
      * apply IH. split_and!; [done|done|]. intros x y Hx. apply H. by right.
      * apply Forall_forall. intros x [Hx|Hx]%elem_of_app; [auto|]. apply H; [by left|done].
Qed.
Lemma sep_sorted l : sep l -> sorted l.
Proof. induction 1; constructor; [done|]. eapply Forall_impl; [done|]. unfold apart, in_order. simpl. intros. lia. Qed.

Lemma rins_perm x l : Permutation (rins x l) (x :: l).
Proof. induction l as [|y l IH]; simpl; [done|]. destruct (_ <? _); [done|]. rewrite IH. apply Permutation_swap. Qed.
Lemma rins_sorted x l : 0 < x.2 -> pos l -> sorted l -> (forall y, y ∈ l -> vend x <= y.1 \/ vend y <= x.1) -> sorted (rins x l).
Proof.
  intros Hx. unfold pos. induction l as [|y l IH]; simpl; intros Hp Hs Hd; [by repeat constructor|].
  apply StronglySorted_inv in Hs as [Hs Hy]. apply Forall_cons in Hp as [Py Hp]. unfold vend, in_order in *.
  destruct (Z.ltb_spec x.1 y.1).
  - assert (x.1 + x.2 <= y.1) as Hxy by (destruct (Hd y); [by left|lia..]). constructor; [by constructor|].
    constructor; [unfold vend; done|]. eapply Forall_impl; [exact Hy|]. unfold vend. simpl. intros. lia.
  - constructor; [apply IH; [done|done|]; intros z Hz; apply Hd; by right|].
    rewrite rins_perm. constructor; [|done]. unfold vend. destruct (Hd y); [by left|lia..].
Qed.
(** Where a region goes that overlaps none. *)
Lemma rins_split x l k : (forall y, y ∈ l -> y.1 <= x.1) -> (forall y, hd_error k = Some y -> x.1 < y.1) -> rins x (l ++ k) = l ++ x :: k.
Proof.
  intros Hl Hk. induction l as [|y l IH]; simpl.
  - destruct k as [|y k]; simpl; [done|]. destruct (Z.ltb_spec x.1 y.1); [done|]. specialize (Hk y eq_refl). lia.
  - destruct (Z.ltb_spec x.1 y.1); [specialize (Hl y (list_elem_of_here _ _)); lia|]. rewrite IH; [done|]. intros z Hz. apply Hl. by right.
Qed.

(** ** Coalescing *)
Lemma coalesce_pos l : pos l -> pos (coalesce l).
Proof.
  unfold pos. induction 1 as [|x l Hx Hl IH]; simpl; [done|]. destruct (coalesce l) as [|y k]; [by constructor|].
  destruct (_ =? _); [|by constructor]. apply Forall_cons in IH as [? ?]. constructor; [simpl; lia|done].
Qed.
Lemma coalesce_above m l : Forall (fun y => m <= y.1) l -> Forall (fun y => m <= y.1) (coalesce l).
Proof.
  induction 1 as [|x l Hx Hl IH]; simpl; [done|]. destruct (coalesce l) as [|y k]; [by constructor|].
  destruct (_ =? _); [|by constructor]. apply Forall_cons in IH as [? ?]. by constructor.
Qed.
Lemma coalesce_sep l : pos l -> sorted l -> sep (coalesce l).
Proof.
  intros Hp Hs. induction Hs as [|x l Hs IH Hx]; simpl; [constructor|]. pose proof Hp as [Px Pl]%Forall_cons.
  specialize (IH Pl). pose proof (coalesce_pos _ Pl) as Pc. pose proof (coalesce_above (vend x) l Hx) as Ha.
  destruct (coalesce l) as [|y k]; [by repeat constructor|]. apply StronglySorted_inv in IH as [Hk Hy].
  apply Forall_cons in Ha as [Hxy _]. apply Forall_cons in Pc as [Py _]. unfold apart, vend in *.
  destruct (Z.eqb_spec (x.1 + x.2) y.1) as [E|E].
  - constructor; [done|]. eapply Forall_impl; [exact Hy|]. simpl. unfold vend. simpl. intros z Hz. lia.
  - constructor; [by constructor|]. constructor; [unfold vend; lia|]. eapply Forall_impl; [exact Hy|]. unfold vend. simpl. intros z Hz. lia.
Qed.
Lemma coalesce_id l : sep l -> coalesce l = l.
Proof.
  induction 1 as [|x l Hs IH Hx]; simpl; [done|]. rewrite IH. destruct l as [|y l]; [done|]. apply Forall_cons in Hx as [Hx _].
  unfold apart in Hx. destruct (Z.eqb_spec (vend x) y.1); [lia|done].
Qed.
(** Only the last region of a separated list can grow. *)
Lemma coalesce_app l k y k' : sep l -> coalesce k = y :: k' -> (forall x, x ∈ l -> vend x < y.1) -> coalesce (l ++ k) = l ++ y :: k'.
Proof.
  intros Hs Hk Hy. induction Hs as [|x l Hs IH Hx]; simpl; [done|]. rewrite IH by (intros z Hz; apply Hy; by right).
  destruct l as [|z l]; simpl.
  - destruct (Z.eqb_spec (vend x) y.1); [|done]. specialize (Hy x (list_elem_of_here _ _)). lia.
  - apply Forall_cons in Hx as [Hx _]. unfold apart in Hx. destruct (Z.eqb_spec (vend x) z.1); [lia|done].
Qed.

(** ** The invariant of the reference allocator *)
Record space_ok (b e : Z) (a : space) : Prop := {
  so_tiled : tiled b e (a.1 ++ a.2); so_free : sep a.1; so_used : sorted a.2
}.
Section Space.
Context (b e : Z).
Lemma tiled_pos l : tiled b e l -> pos l.
Proof. intros H. apply Forall_forall. intros x Hx. destruct (tiled_bound b e _ _ H Hx) as ([? _] & _). done. Qed.
Lemma tiled_pos_l l k : tiled b e (l ++ k) -> pos l /\ pos k.
Proof. intros [? ?]%tiled_pos%Forall_app. done. Qed.
Lemma tiled_others x l y : tiled b e (x :: l) -> y ∈ l -> vend x <= y.1 \/ vend y <= x.1.
Proof. intros H (l1 & l2 & ->)%list_elem_of_split. rewrite <- Permutation_middle in H. by eapply tiled_disjoint. Qed.

(** Releasing a used region. *)
Lemma rtake_split a l x k : rtake a l = Some (x, k) -> exists l1 l2, l = l1 ++ x :: l2 /\ k = l1 ++ l2 /\ x.1 = a.
Proof.
  revert k. induction l as [|y l IH]; intros k; simpl; [done|]. destruct (Z.eqb_spec a y.1).
  - intros [= <- <-]. by exists [], l.
  - destruct (rtake a l) as [[z k0]|]; [|done]. intros [= -> <-]. destruct (IH k0 eq_refl) as (l1 & l2 & -> & -> & ?). by exists (y :: l1), l2.
Qed.
Lemma space_release a x l1 l2 : space_ok b e a -> a.2 = l1 ++ x :: l2 -> space_ok b e (coalesce (rins x a.1), l1 ++ l2).
Proof.
  intros [Ht Hf Hu] He. rewrite He in Ht, Hu. assert (tiled b e (x :: a.1 ++ l1 ++ l2)) as Htx.
  { rewrite <- Permutation_middle, <- Permutation_middle in Ht. done. }
  assert (tiled b e (rins x a.1 ++ l1 ++ l2)) as Ht2 by (by rewrite rins_perm).
  pose proof (tiled_pos _ Htx) as [Px [Pa _]%Forall_app]%Forall_cons.
  split; simpl.
  - by apply tiled_coalesce.
  - apply coalesce_sep; [by apply tiled_pos_l in Ht2 as [? _]|]. apply rins_sorted; [done|done|by apply sep_sorted|].
    intros y Hy. eapply tiled_others; [exact Htx|]. apply elem_of_app. by left.
  - apply sorted_app in Hu as (H1 & [H2 _]%StronglySorted_inv & H3). apply sorted_app. split_and!; [done|done|].
    intros y z Hy Hz. apply H3; [done|]. by right.
Qed.

(** Allocating from a free region. *)
Lemma fit_split size l c k : fit size l = Some (c, k) ->
  exists l1 x l2, l = l1 ++ x :: l2 /\ Forall (fun y => y.2 < size) l1 /\ size <= x.2 /\ c = x.1 /\
    k = l1 ++ (if size <? x.2 then [(x.1 + size, x.2 - size)] else []) ++ l2.
Proof.
  revert k. induction l as [|y l IH]; intros k; simpl; [done|]. destruct (Z.leb_spec size y.2).
  - intros [= <- <-]. exists [], y, l. split_and!; [done|constructor|done|done|]. by destruct (size <? y.2).
  - destruct (fit size l) as [[d k0]|]; [|done]. intros [= <- <-]. destruct (IH k0 eq_refl) as (l1 & x & l2 & -> & ? & ? & -> & ->).
    exists (y :: l1), x, l2. split_and!; [done|by constructor|done..].
Qed.
Lemma space_take size a c k : space_ok b e a -> 0 < size -> (PGSZ | size) -> fit size a.1 = Some (c, k) -> space_ok b e (k, rins (c, size) a.2).
Proof.
  intros [Ht Hf Hu] Hsz Hd (l1 & x & l2 & He & _ & Hle & -> & ->)%fit_split. rewrite He in Ht, Hf.
  set (rest := if size <? x.2 then [(x.1 + size, x.2 - size)] else []).
  assert (tiled b e ((x.1, size) :: (l1 ++ rest ++ l2) ++ a.2)) as Ht2.
  { rewrite <- app_assoc in Ht. simpl in Ht. rewrite <- Permutation_middle in Ht. unfold rest. destruct (Z.ltb_spec size x.2).
    - apply (tiled_split _ _ _ _ size) in Ht; [|lia|done]. eapply tiled_perm; [|exact Ht]. simpl. solve_Permutation.
    - replace size with x.2 by lia. destruct x. simpl in *. by rewrite <- app_assoc. }
  assert (pos a.2) as Pu by (by apply tiled_pos_l in Ht as [_ ?]).
  split; simpl.
  - rewrite rins_perm. by rewrite <- Permutation_middle.
  - apply sorted_app in Hf as (H1 & [H2 Hx]%StronglySorted_inv & H3). rewrite Forall_forall in Hx. unfold rest, apart, vend in *. apply sorted_app. split_and!; [done| |].
    + destruct (size <? x.2); simpl; [|done]. constructor; [done|]. apply Forall_forall. intros y Hy. simpl. specialize (Hx y Hy). unfold vend in *. simpl. lia.
    + intros y z Hy Hz. pose proof (H3 y x Hy (list_elem_of_here _ _)) as Hyx. apply elem_of_app in Hz as [Hz|Hz]; [|apply H3; [done|by right]].
      destruct (size <? x.2); [|by apply not_elem_of_nil in Hz]. apply list_elem_of_singleton in Hz as ->. simpl. lia.
  - apply rins_sorted; [simpl; lia|done|done|]. intros y Hy. eapply tiled_others; [exact Ht2|]. apply elem_of_app. by right.
Qed.

(** Both operations keep the invariant. *)
Lemma spec_alloc_ok size a : space_ok b e a -> 0 <= size -> (PGSZ | size) -> space_ok b e (spec_alloc size a).2.
Proof.
  intros Ha Hs Hd. unfold spec_alloc. destruct (Z.eqb_spec size 0); [done|]. destruct (fit size a.1) as [[c k]|] eqn:Hf; [|done].
  apply (space_take size); [done|lia|done|done].
Qed.
Lemma spec_free_ok addr a : space_ok b e a -> space_ok b e (spec_free addr a).
Proof.
  intros Ha. unfold spec_free. destruct (rtake addr a.2) as [[x k]|] eqn:Hr; [|done].
  apply rtake_split in Hr as (l1 & l2 & Hu & -> & _). by apply space_release.
Qed.

(** No request fails for want of coalescing: a run of free addresses lies in one region. *)
Lemma sep_covers l c n : sep l -> pos l -> 0 < n -> (forall z, c <= z < c + n -> exists x, x ∈ l /\ x.1 <= z < vend x) ->
  exists x, x ∈ l /\ x.1 <= c /\ c + n <= vend x.
Proof.
  intros Hs Hp Hn Hc. destruct (Hc c) as (x & Hx & Hlo); [lia|]. exists x. split_and!; [done|lia|].
  destruct (decide (c + n <= vend x)); [done|]. exfalso. destruct (Hc (vend x)) as (y & Hy & Hv); [lia|].
  unfold pos in Hp. rewrite Forall_forall in Hp. pose proof (Hp x Hx). pose proof (Hp y Hy). unfold vend in *.
  apply list_elem_of_split in Hx as (l1 & l2 & ->). apply sorted_app in Hs as (_ & [_ H2]%StronglySorted_inv & H3).
  rewrite Forall_forall in H2. unfold apart, vend in *. apply elem_of_app in Hy as [Hy|[->|Hy]%elem_of_cons]; [|lia|].
  - specialize (H3 y x Hy (list_elem_of_here _ _)). lia.
  - specialize (H2 y Hy). lia.
Qed.

(** What was allocated can be given back, and nothing remains of it. *)
Lemma rtake_rins c n l : (forall y, y ∈ l -> y.1 <> c) -> rtake c (rins (c, n) l) = Some ((c, n), l).
Proof.
  induction l as [|y l IH]; intros Hn; simpl; [by rewrite Z.eqb_refl|]. destruct (c <? y.1); simpl; [by rewrite Z.eqb_refl|].
  destruct (Z.eqb_spec c y.1) as [E|E]; [by destruct (Hn y (list_elem_of_here _ _))|]. rewrite IH; [done|]. intros z Hz. apply Hn. by right.
Qed.
Lemma rins_fit size l1 x l2 : 0 < size <= x.2 -> sep (l1 ++ x :: l2) -> pos (l1 ++ x :: l2) ->
  coalesce (rins (x.1, size) (l1 ++ (if size <? x.2 then [(x.1 + size, x.2 - size)] else []) ++ l2)) = l1 ++ x :: l2.
Proof.
  intros Hsz Hs Hp. apply sorted_app in Hs as (H1 & [H2 Hx]%StronglySorted_inv & H3). apply Forall_app in Hp as [P1 [Px P2]%Forall_cons].
  rewrite Forall_forall in P1, Hx. assert (forall y, y ∈ l1 -> vend y < x.1) as Hl1 by (intros y Hy; apply H3; [done|by left]).
  unfold apart, vend in *. rewrite rins_split; simpl.
  - apply coalesce_app; [done| |done]. simpl. destruct (Z.ltb_spec size x.2); simpl.
    + rewrite (coalesce_id l2) by done. assert (coalesce ((x.1 + size, x.2 - size) :: l2) = (x.1 + size, x.2 - size) :: l2) as Hc.
      { apply coalesce_id. constructor; [done|]. apply Forall_forall. intros y Hy. specialize (Hx y Hy). unfold apart, vend in *. simpl. lia. }
      simpl in Hc. rewrite (coalesce_id l2) in Hc by done. rewrite Hc. unfold vend. simpl. rewrite Z.eqb_refl. f_equal. destruct x; simpl. f_equal. lia.
    + replace size with x.2 by lia. rewrite (coalesce_id l2) by done. destruct l2 as [|y l2]; [by destruct x|].
      unfold vend. simpl. specialize (Hx y (list_elem_of_here _ _)). destruct (Z.eqb_spec (x.1 + x.2) y.1); [lia|by destruct x].
  - intros y Hy. specialize (P1 y Hy). specialize (Hl1 y Hy). simpl in *. lia.
  - intros y. destruct (Z.ltb_spec size x.2); simpl; [intros [= <-]; simpl; lia|]. intros Hy. destruct l2 as [|z l2]; [done|]. injection Hy as <-.
    specialize (Hx z (list_elem_of_here _ _)). lia.
Qed.
Lemma spec_alloc_free size a c a' : space_ok b e a -> 0 < size -> spec_alloc size a = ((0, c), a') -> spec_free c a' = a.
Proof.
  intros [Ht Hf _] Hsz. unfold spec_alloc. destruct (Z.eqb_spec size 0); [done|]. destruct (fit size a.1) as [[d k]|] eqn:Hfit; [|done].
  intros [= <- <-]. apply fit_split in Hfit as (l1 & x & l2 & He & _ & Hle & -> & ->). pose proof Ht as [Pf _]%tiled_pos_l.
  unfold spec_free. simpl. rewrite rtake_rins.
  - rewrite rins_fit; [|lia|by rewrite <- He|by rewrite <- He]. destruct a. simpl in *. by rewrite He.
  - rewrite He, <- app_assoc in Ht. simpl in Ht. rewrite <- Permutation_middle in Ht. intros y Hy Heq.
    pose proof (tiled_pos _ Ht) as [Px P]%Forall_cons. unfold pos in P. rewrite Forall_forall in P.
    assert (y ∈ l1 ++ l2 ++ a.2) as Hin by (rewrite !elem_of_app; auto). specialize (P y Hin).
    destruct (tiled_others _ _ y Ht Hin); unfold vend in *; lia.
Qed.

(** ** The code's insertion is insertion and coalescing *)
Definition regs (l : vlist) : list region := l.*2.
Lemma regs_app (l1 l2 : vlist) : regs (l1 ++ l2) = regs l1 ++ regs l2.
Proof. apply fmap_app. Qed.
Lemma coalesce_meet x l y k : coalesce l = y :: k -> vend x = y.1 -> coalesce (x :: l) = (x.1, x.2 + y.2) :: k.
Proof. intros Hc He. simpl. rewrite Hc, He. by rewrite Z.eqb_refl. Qed.
Lemma coalesce_stay x (F : vlist) : sep (regs F) -> (forall z, hd_error F = Some z -> vend x <> z.2.1) -> coalesce (x :: regs F) = x :: regs F.
Proof.
  intros Hs Hn. simpl. rewrite coalesce_id by done. destruct F as [|[q r] F]; [done|]. simpl.
  destruct (Z.eqb_spec (vend x) r.1) as [E|E]; [by destruct (Hn _ eq_refl)|done].
Qed.
(** When the last region below does not touch, none does. *)
Lemma last_apart (F1 : vlist) r x : (forall (F0 : vlist) (z : Z * region), F1 = F0 ++ [z] -> vend z.2 <> r.1) -> sep (regs F1) -> pos (regs F1) ->
  (forall y, y ∈ regs F1 -> vend y <= r.1) -> x ∈ regs F1 -> vend x < r.1.
Proof.
  intros Hn Hs Hp Hle Hx. destruct F1 as [|[q rq] F0 _] using rev_ind; [by apply not_elem_of_nil in Hx|].
  specialize (Hn F0 (q, rq) eq_refl). rewrite regs_app in *. simpl in *. apply sorted_app in Hs as (_ & _ & Hs).
  unfold pos in Hp. rewrite Forall_app, Forall_singleton in Hp. destruct Hp as [_ Hp].
  assert (vend rq <= r.1) as Hq by (apply Hle, elem_of_app; right; by left).
  apply elem_of_app in Hx as [Hx|Hx%list_elem_of_singleton]; [|subst; simpl in *; lia].
  specialize (Hs x rq Hx (list_elem_of_here _ _)). unfold apart, vend in *. lia.
Qed.
Lemma vput_coalesce p r (F1 F2 F' : vlist) L :
  vput p r F1 F2 F' L -> sep (regs (F1 ++ F2)) -> pos (regs (F1 ++ F2)) -> 0 < r.2 ->
  (forall x, x ∈ regs F1 -> vend x <= r.1) -> (forall y, y ∈ regs F2 -> vend r <= y.1) ->
  regs F' = coalesce (rins r (regs (F1 ++ F2))).
Proof.
  intros Hv Hs Hp Hr H1 H2. rewrite regs_app in *. apply Forall_app in Hp as [P1 P2]. pose proof P1 as P1'. unfold pos in P1'. rewrite Forall_forall in P1'.
  apply sorted_app in Hs as (S1 & S2 & S3). rewrite rins_split.
  2: { intros y Hy. specialize (H1 y Hy). specialize (P1' y Hy). simpl in *. unfold vend in *. lia. }
  2: { intros y Hy. destruct (regs F2) as [|z k]; [done|]. injection Hy as ->. specialize (H2 y (list_elem_of_here _ _)). unfold vend in *. lia. }
  destruct Hv as [F1 q rq x rx F2 Hd Hu|F1 q rq F2 Hd Hu|F1 x rx F2 Hd Hu|F1 F2 Hd Hu]; rewrite ?regs_app in *; simpl in *; symmetry.
  - apply sorted_app in S1 as (S1 & _ & S1'). rewrite <- app_assoc. cbn [app]. apply coalesce_app; [done| |].
    + rewrite (coalesce_meet _ _ (r.1, r.2 + rx.2) (regs F2)); [simpl; by rewrite Z.add_assoc| |done].
      by apply coalesce_meet; [apply coalesce_id|].
    + intros y Hy. apply (S1' y rq Hy). by left.
  - apply sorted_app in S1 as (S1 & _ & S1'). rewrite <- app_assoc. cbn [app]. apply coalesce_app; [done| |].
    + apply coalesce_meet; [by apply coalesce_stay|done].
    + intros y Hy. apply (S1' y rq Hy). by left.
  - apply coalesce_app; [done| |intros y Hy; by apply (last_apart F1)].
    rewrite (coalesce_meet _ _ rx (regs F2)); [by rewrite (Z.add_comm rx.2)|by apply coalesce_id|done].
  - apply coalesce_app; [done|by apply coalesce_stay|intros y Hy; by apply (last_apart F1)].
Qed.
End Space.
