(* ===== verification/VmmProps.v ===== *)
(** * Correctness of kernel virtual memory

    The lists of nodes of Vmm.v implement the reference allocator of VmmInv.v: every
    request gets the answer of the reference, no assertion fails, and the regions tile the
    heap.  Requests are whole pages, as those of the callers are. *)
From Stdlib Require Import Sorting.Sorted.
From S2P Require Import Prelude Errno Spinlock KMem Queue Dll Pmm Paging PagingNew Vmm VmmFacts VmmInv.

(** ** The invariant *)
Definition heap_end (s : vmm) : Z := KHEAPBASE + kheap_size s.
Definition vmm_inv (s : vmm) (a : space) : Prop :=
  exists F U N, vmm_idle s F U N /\ a = (regs F, regs U) /\ space_ok KHEAPBASE (heap_end s) a /\
    used_memsz s = sizes a.2 /\ Z.of_nat (length (nodes_of F U N)) * PGSZ = kheap_size s /\
    heap_end s < two64 /\ initialized s = true.
(** The size of the heap does not change. *)
Definition same_heap (s s' : vmm) : Prop := kheap_size s' = kheap_size s /\ vm_who s' = vm_who s.

Lemma regs_cons x (l : vlist) : regs (x :: l) = x.2 :: regs l.
Proof. done. Qed.
Lemma length_regs (l : vlist) : length (regs l) = length l.
Proof. apply length_fmap. Qed.
Lemma length_nodes F U N : length (nodes_of F U N) = (length F + length U + length N)%nat.
Proof. unfold nodes_of, addrs. rewrite !length_app, !length_fmap. lia. Qed.
Lemma regs_vins x (l : vlist) : regs (vins x l) = rins x.2 (regs l).
Proof. induction l as [|y l IH]; simpl; [done|]. destruct (_ <? _); [done|]. simpl. by rewrite IH. Qed.
Lemma kheapbase_pos : 0 < KHEAPBASE.
Proof. done. Qed.
Lemma sizes_nonneg l : pos l -> 0 <= sizes l.
Proof. induction 1; simpl in *; lia. Qed.

Section Inv.
Context (e : Z) (a : space).
Hypothesis Ha : space_ok KHEAPBASE e a.
Hypothesis He : e < two64.
Lemma space_region_ok x : x ∈ a.1 ++ a.2 -> region_ok x.
Proof.
  intros Hx. destruct (tiled_bound _ _ _ _ (so_tiled _ _ _ Ha) Hx) as ([? _] & ? & ?). pose proof kheapbase_pos. unfold region_ok, vend in *. lia.
Qed.
Lemma space_used_size : 0 <= sizes a.2 <= e - KHEAPBASE.
Proof.
  pose proof (tiled_sizes _ _ _ (so_tiled _ _ _ Ha)) as Hs. rewrite sizes_app in Hs.
  destruct (tiled_pos_l _ _ _ _ (so_tiled _ _ _ Ha)) as [?%sizes_nonneg ?%sizes_nonneg]. lia.
Qed.
End Inv.

(** ** The searches agree *)
Lemma fit_none size (l : vlist) : vfind (fun r => size <=? r.2) l = None -> fit size (regs l) = None.
Proof. induction l as [|x l IH]; simpl; [done|]. destruct (size <=? x.2.2); [done|]. intros H. by rewrite IH. Qed.
Lemma fit_first size (F1 : vlist) q (r : region) (F2 : vlist) : Forall (fun y => (size <=? y.2.2) = false) F1 -> size <= r.2 ->
  fit size (regs (F1 ++ (q, r) :: F2)) =
    Some (r.1, regs F1 ++ (if size <? r.2 then [(r.1 + size, r.2 - size)] else []) ++ regs F2).
Proof.
  intros H Hle. induction F1 as [|x l IH]; [|apply Forall_cons in H as [Hx H]]; rewrite <- ?app_comm_cons, ?regs_cons; cbn [fit app].
  - rewrite regs_cons. cbn [fit fst snd]. destruct (Z.leb_spec size r.2); [|lia]. by destruct (size <? r.2).
  - change ((size <=? x.2.2) = false) in Hx. rewrite Hx. by rewrite (IH H).
Qed.
Lemma rtake_none addr (l : vlist) : vfind (fun r => addr =? r.1) l = None -> rtake addr (regs l) = None.
Proof. induction l as [|x l IH]; simpl; [done|]. destruct (addr =? x.2.1); [done|]. intros H. by rewrite IH. Qed.
Lemma rtake_first (U1 : vlist) q (r : region) (U2 : vlist) : Forall (fun y => (r.1 =? y.2.1) = false) U1 ->
  rtake r.1 (regs (U1 ++ (q, r) :: U2)) = Some (r, regs (U1 ++ U2)).
Proof.
  intros H. induction U1 as [|x l IH]; [|apply Forall_cons in H as [Hx H]]; rewrite <- ?app_comm_cons, ?regs_cons; cbn [rtake app].
  - rewrite regs_cons. cbn [rtake fst snd]. by rewrite Z.eqb_refl.
  - change ((r.1 =? x.2.1) = false) in Hx. rewrite Hx. by rewrite (IH H).
Qed.
Lemma vput_length p r F1 F2 F' L : vput p r F1 F2 F' L -> (length F' + length L = S (length F1 + length F2))%nat.
Proof. intros []; rewrite ?length_app; simpl; rewrite ?length_app; simpl; lia. Qed.
Lemma vput_nil p r F' L : vput p r [] [] F' L -> F' = [(p, r)] /\ L = [].
Proof.
  intros H. inversion H; subst; try done; exfalso; match goal with E : _ ++ [_] = [] |- _ => by apply app_nil in E as [_ ?] end.
Qed.

(** ** [alloc] *)
Lemma vmm_alloc_spec s a size : vmm_inv s a -> 0 <= size -> (PGSZ | size) ->
  wp (vmm_alloc_region size) (fun r s' => r = (spec_alloc size a).1 /\ vmm_inv s' (spec_alloc size a).2 /\ same_heap s s') s.
Proof.
  intros (F & U & N & Hi & -> & Hsp & Hus & Hn & He & Hinit) Hsz Hd. unfold spec_alloc. destruct (Z.eqb_spec size 0) as [->|Hnz].
  { eapply wp_vmm_alloc_zero; [done|]. split_and!; [done| |done]. exists F, U, N. by split_and!. }
  assert (Forall (fun x => region_ok x.2) F) as HF.
  { apply Forall_forall. intros x Hx. eapply space_region_ok; [exact Hsp|done|]. apply elem_of_app. left. by apply list_elem_of_fmap_2. }
  assert (0 < size) as Hpos by lia. pose proof (fun c k => space_take _ _ size _ c k Hsp Hpos Hd) as Htake. simpl in Htake.
  eapply wp_vmm_alloc_region; [done|done|done| | |]; simpl.
  - intros Hnone. rewrite (fit_none _ _ Hnone). split_and!; [done| |done]. exists F, U, N. by split_and!.
  - intros F1 q r F2 HeF H1 Hlt. assert (Hfit := fit_first size F1 q r F2 H1 (Z.lt_le_incl _ _ Hlt)). rewrite <- HeF in Hfit. rewrite Hfit.
    specialize (Htake _ _ Hfit). destruct (Z.ltb_spec size r.2); [|lia]. simpl in Htake.
    pose proof (tiled_count _ _ _ (so_tiled _ _ _ Htake)) as Hc. pose proof (space_used_size _ _ Htake) as Hu. simpl in Hc, Hu.
    rewrite length_app, rins_perm in Hc. rewrite rins_perm in Hu. simpl in Hc, Hu. rewrite length_app in Hc. simpl in Hc.
    rewrite length_nodes in Hn. rewrite !length_regs in Hc. rewrite HeF, length_app in Hn. simpl in Hn.
    destruct N as [|p N']; [exfalso; unfold heap_end, PGSZ in *; simpl in Hn; lia|]. exists p, N'. split; [done|].
    intros s' Hi' [f1 f2 f3 f4 f5]. simpl in *. split_and!; [done| |by split].
    eexists _, _, _. split; [exact Hi'|]. unfold heap_end. rewrite f3. split_and!.
    + by rewrite regs_vins, regs_app.
    + done.
    + simpl. rewrite rins_perm. simpl. rewrite f5, Hus. rewrite u64_small; [lia|]. unfold is_u64, heap_end in *. pose proof kheapbase_pos. lia.
    + rewrite <- Hn, length_nodes, !length_app. simpl. rewrite (Permutation_length (vins_perm _ _)). simpl. f_equal. lia.
    + done.
    + by rewrite f4.
  - intros F1 q r F2 HeF H1 Heq s' Hi' [f1 f2 f3 f4 f5]. simpl in *. assert (size <= r.2) as Hle by lia.
    assert (Hfit := fit_first size F1 q r F2 H1 Hle). rewrite <- HeF in Hfit. rewrite Hfit.
    specialize (Htake _ _ Hfit). destruct (Z.ltb_spec size r.2); [lia|]. simpl in *.
    pose proof (space_used_size _ _ Htake) as Hu. simpl in Hu. rewrite rins_perm in Hu. simpl in Hu. split_and!; [done| |by split].
    eexists _, _, _. split; [exact Hi'|]. unfold heap_end. rewrite f3. split_and!.
    + rewrite regs_vins, regs_app. simpl. rewrite <- Heq. by destruct r.
    + done.
    + simpl. rewrite rins_perm. simpl. rewrite f5, Hus. rewrite u64_small; [lia|]. unfold is_u64, heap_end in *. pose proof kheapbase_pos. lia.
    + rewrite <- Hn, !length_nodes, HeF, !length_app. rewrite (Permutation_length (vins_perm _ _)). simpl. f_equal. lia.
    + done.
    + by rewrite f4.
Qed.

(** ** [free] *)
Lemma vsplit_order b (F : vlist) : sep (regs F) -> pos (regs F) ->
  (forall y, y ∈ regs (vsplit b F).2 -> b <= y.1) /\ (forall x, x ∈ regs (vsplit b F).1 -> x.1 < b).
Proof.
  intros Hs Hp. pose proof (vsplit_above b F) as Ha. pose proof (vsplit_below b F) as Hb. rewrite (vsplit_app b F), regs_app in Hs, Hp.
  destruct (vsplit b F) as [F1 F2]. simpl in *. apply sorted_app in Hs as (_ & Hs & _). apply Forall_app in Hp as [_ Hp]. split.
  - destruct F2 as [|z F2]; intros y; [by intros []%not_elem_of_nil|]. specialize (Ha z eq_refl). rewrite regs_cons in *.
    apply StronglySorted_inv in Hs as [_ Hz]. apply Forall_cons in Hp as [Hz' _]. rewrite Forall_forall in Hz.
    intros [->|Hy]%elem_of_cons; [done|]. specialize (Hz y Hy). unfold apart, vend in Hz. simpl in *. lia.
  - intros x (z & -> & Hz)%list_elem_of_fmap. rewrite Forall_forall in Hb. by apply Hb.
Qed.
Lemma vput_spec b e p (r : region) (F F' : vlist) L X : tiled b e (r :: regs F ++ X) -> sep (regs F) ->
  vput p r (vsplit r.1 F).1 (vsplit r.1 F).2 F' L -> regs F' = coalesce (rins r (regs F)).
Proof.
  intros Ht Hs Hput. pose proof (tiled_pos _ _ _ Ht) as [Pr [Pf _]%Forall_app]%Forall_cons.
  destruct (vsplit_order r.1 F Hs Pf) as [H2 H1]. pose proof (vsplit_app r.1 F) as HeF.
  assert (forall y, y ∈ regs F -> 0 < y.2 /\ (vend r <= y.1 \/ vend y <= r.1)) as Hd.
  { intros y Hy. split; [by rewrite Forall_forall in Pf; apply Pf|]. eapply tiled_others; [exact Ht|]. apply elem_of_app. by left. }
  rewrite HeF at 1. eapply vput_coalesce; [exact Hput|by rewrite <- HeF|by rewrite <- HeF|done|..].
  - intros x Hx. specialize (H1 x Hx). destruct (Hd x); [rewrite HeF, regs_app; apply elem_of_app; by left|]. unfold vend in *. lia.
  - intros x Hx. specialize (H2 x Hx). destruct (Hd x); [rewrite HeF, regs_app; apply elem_of_app; by right|]. unfold vend in *. lia.
Qed.
Lemma vmm_free_spec s a addr : vmm_inv s a -> addr <> 0 ->
  wp (vmm_free_region addr) (fun _ s' => vmm_inv s' (spec_free addr a) /\ same_heap s s') s.
Proof.
  intros (F & U & N & Hi & -> & Hsp & Hus & Hn & He & Hinit) Haddr. unfold spec_free.
  assert (forall x, x ∈ regs F ++ regs U -> region_ok x) as Hok by (intros x Hx; by eapply space_region_ok).
  assert (Forall (fun x => region_ok x.2) F) as HF.
  { apply Forall_forall. intros x Hx. apply Hok, elem_of_app. left. by apply list_elem_of_fmap_2. }
  eapply wp_vmm_free_region; [done|done|done| |]; simpl.
  - intros Hnone. rewrite (rtake_none _ _ Hnone). split; [|done]. exists F, U, N. by split_and!.
  - intros U1 q r U2 HeU H1 ->. rewrite HeU. rewrite rtake_first by done.
    assert (regs U = regs U1 ++ r :: regs U2) as HrU by (by rewrite HeU, regs_app).
    split; [apply Hok; rewrite HrU; set_solver|]. intros s' F' L Hput Hi' [f1 f2 f3 f4 f5]. simpl in *. split; [|by split].
    pose proof (space_release _ _ _ r (regs U1) (regs U2) Hsp HrU) as Hsp'. simpl in Hsp'.
    pose proof (space_used_size _ _ Hsp) as Hu. pose proof (space_used_size _ _ Hsp') as Hu'. simpl in Hu, Hu'.
    rewrite HrU, !sizes_app in Hu. rewrite !sizes_app in Hu'. simpl in Hu.
    assert (regs F' = coalesce (rins r (regs F))) as HF'.
    { eapply (vput_spec KHEAPBASE (heap_end s) q r F F' L (regs U1 ++ regs U2)); [|apply Hsp|exact Hput].
      pose proof (so_tiled _ _ _ Hsp) as Ht. simpl in Ht. rewrite HrU in Ht. by rewrite <- !Permutation_middle in Ht. }
    eexists F', (U1 ++ U2), (L ++ N). split; [exact Hi'|]. unfold heap_end. rewrite f3, HF', regs_app. split_and!.
    + done.
    + done.
    + simpl. rewrite f5, Hus. simpl. rewrite HrU, !sizes_app. simpl. rewrite u64_small; [lia|]. unfold is_u64, heap_end in *. pose proof kheapbase_pos. lia.
    + rewrite <- Hn, HeU, !length_nodes, !length_app. apply vput_length in Hput. rewrite (vsplit_app r.1 F) at 1. rewrite length_app. simpl. f_equal. lia.
    + done.
    + by rewrite f4.
Qed.

(** ** Initialisation *)
Section Init.
Context (nodes count : Z).
Definition node_at (i : Z) : Z := nodes + i * SIZEOF_NODE.
Lemma node_at_inj i j : node_at i = node_at j -> i = j.
Proof. unfold node_at, SIZEOF_NODE. lia. Qed.
#[export] Instance node_at_Inj : Inj eq eq node_at.
Proof. intros ? ?. apply node_at_inj. Qed.
Lemma node_array_lookup junk i : 0 <= i < count -> node_array junk nodes count !! node_at i = Some (junk i).
Proof.
  intros Hi. unfold node_array. apply elem_of_list_to_map_1.
  - rewrite <- list_fmap_compose. apply (NoDup_fmap_2 node_at), NoDup_seqZ.
  - apply list_elem_of_fmap. exists i. split; [done|]. by apply elem_of_seqZ.
Qed.
Lemma wp_when_vmodify s (b : bool) p n f (Q : unit -> vmm -> Prop) :
  vm_nodes s !! p = Some n -> Q tt (vm_set_nodes (<[p := if b then f n else n]> (vm_nodes s)) s) -> wp (M_when b (vmodify p f)) Q s.
Proof.
  intros Hp HQ. destruct b; [by eapply wp_vmodify|]. rewrite insert_id, vset_same_nodes in HQ by done. done.
Qed.
(** The loop threads the nodes on their [next] links; that of the last keeps its value. *)
Lemma wp_link_nodes n i s (Q : unit -> vmm -> Prop) :
  0 <= i -> Z.of_nat n = count - i -> (forall j, i <= j < count -> is_Some (vm_nodes s !! node_at j)) ->
  (forall h', (forall j, 0 <= j < i -> h' !! node_at j = vm_nodes s !! node_at j) ->
     (forall j, i <= j < count -> exists old nd, vm_nodes s !! node_at j = Some old /\ h' !! node_at j = Some nd /\
        vn_next nd = (if j + 1 <? count then node_at (j + 1) else vn_next old)) -> Q tt (vm_set_nodes h' s)) ->
  wp (link_nodes n i count nodes) Q s.
Proof.
  revert i s. induction n as [|n IH]; intros i s Hi Hn Hsome HQ; simpl.
  { apply wp_ret. specialize (HQ (vm_nodes s)). rewrite vset_same_nodes in HQ. apply HQ; [done|]. intros j Hj. lia. }
  destruct (Hsome i) as [nd Hnd]; [lia|]. fold (node_at i) (node_at (i - 1)) (node_at (i + 1)).
  apply wp_bind. eapply wp_when_vmodify; [done|]. apply wp_bind. eapply wp_when_vmodify; [simpl; by rewrite lookup_insert_eq|].
  simpl. rewrite insert_insert_eq. set (nd' := if i + 1 <? count then _ else _).
  assert (vn_next nd' = (if i + 1 <? count then node_at (i + 1) else vn_next nd)) as Hnext.
  { unfold nd'. by destruct (i + 1 <? count), (0 <? i). }
  assert (forall j, j <> i -> <[node_at i := nd']> (vm_nodes s) !! node_at j = vm_nodes s !! node_at j) as Hne.
  { intros j Hj. apply lookup_insert_ne. intros H%node_at_inj. done. }
  apply IH; [lia|lia|simpl; intros j Hj; rewrite Hne by lia; apply Hsome; lia|].
  intros h' H1 H2. simpl in *. apply HQ.
  - intros j Hj. rewrite H1, Hne by lia. done.
  - intros j Hj. destruct (decide (j = i)) as [->|Hji].
    + exists nd, nd'. rewrite H1, lookup_insert_eq by lia. done.
    + destruct (H2 j) as (old & x & Ho & Hx & Hxn); [lia|]. rewrite Hne in Ho by done. eauto.
Qed.
Lemma linked_chain h k i : 0 <= i -> Z.of_nat k = count - i ->
  (forall j, i <= j < count -> exists nd, h !! node_at j = Some nd /\ vn_next nd = (if j + 1 <? count then node_at (j + 1) else 0)) ->
  nchain h (map node_at (seqZ i (Z.of_nat k))).
Proof.
  revert i. induction k as [|k IH]; intros i Hi Hk Hj; [done|].
  rewrite seqZ_cons by lia. replace (Z.pred (Z.of_nat (S k))) with (Z.of_nat k) by lia. simpl. split.
  - destruct (Hj i) as (nd & Hnd & Hx); [lia|]. exists nd. split; [done|]. rewrite Hx. destruct k as [|k].
    + destruct (Z.ltb_spec (i + 1) count); [lia|done].
    + rewrite seqZ_cons by lia. simpl. unfold Z.succ. destruct (Z.ltb_spec (i + 1) count); [done|lia].
  - apply IH; [lia|lia|]. intros j Hj'. apply Hj. lia.
Qed.
End Init.

(** The state before the first call, and what the boot code must provide: an even number of
    KiB of memory, which the heap can hold twice below the end of the address space, and
    room for the nodes, the last of which links to nothing. *)
Record vmm_fresh (s : vmm) : Prop := {
  fr_lock : lk_free (vm_lk s); fr_init : initialized s = false; fr_used : usedvmr_list s = 0; fr_free : freevmr_list s = 0; fr_inuse : used_memsz s = 0
}.
Record boot_ok (total addr : Z) (junk : Z -> node_t) : Prop := {
  bo_total : 0 < total; bo_even : (2 | total); bo_heap : KHEAPBASE + 2048 * total < two64;
  bo_addr : 0 < V2HI addr; bo_nodes : V2HI addr + total / 2 * SIZEOF_NODE < two64; bo_last : vn_next (junk (total / 2 - 1)) = 0
}.
Section Boot.
Context (total addr : Z) (junk : Z -> node_t).
Hypothesis Hb : boot_ok total addr junk.
Let nodes := V2HI addr.
Let count := total / 2.

Lemma heap_bytes : u64 (KiB total * 2) = 2048 * total.
Proof.
  destruct Hb. pose proof kheapbase_pos. unfold KiB. rewrite (u64_small (1024 * total)) by (unfold is_u64; lia).
  rewrite u64_small by (unfold is_u64; lia). lia.
Qed.
Lemma heap_nodes : 2048 * total / PGSZ = count /\ 0 < count /\ count * PGSZ = 2048 * total.
Proof.
  destruct Hb as [Ht [k ->] _ _ _ _]. unfold count, PGSZ. rewrite Z.div_mul by lia.
  replace (2048 * (k * 2)) with (k * 4096) by lia. rewrite Z.div_mul by lia. lia.
Qed.
Lemma boot_addrs : Forall addr_ok (map (node_at nodes) (seqZ 0 count)) /\ NoDup (map (node_at nodes) (seqZ 0 count)).
Proof.
  destruct Hb as [_ _ _ Ha Hn _]. split.
  - apply Forall_forall. intros p (i & -> & Hi%elem_of_seqZ)%list_elem_of_fmap. unfold addr_ok, node_at, SIZEOF_NODE, nodes, count in *. lia.
  - apply (NoDup_fmap_2 (node_at nodes)), NoDup_seqZ.
Qed.
(** The nodes once linked. *)
Lemma boot_chain h : (forall j, 0 <= j < count -> exists nd, h !! node_at nodes j = Some nd /\ vn_next nd = (if j + 1 <? count then node_at nodes (j + 1) else 0)) ->
  nchain h (map (node_at nodes) (seqZ 0 count)).
Proof.
  intros H. destruct heap_nodes as (_ & Hc & _). rewrite <- (Z2Nat.id count) by lia. apply (linked_chain _ count); [lia|lia|done].
Qed.

Lemma vmm_init_spec s : vmm_fresh s ->
  wp (vmm_init total addr junk) (fun r s' => r = 0 /\ vmm_inv s' ([(KHEAPBASE, 2048 * total)], []) /\ kheap_size s' = 2048 * total) s.
Proof.
  intros [Hl Hi Hu Hf Hz]. destruct heap_nodes as (Hnn & Hc & Hcp). destruct boot_addrs as [Had Hnd]. unfold vmm_init.
  apply wp_bind, wp_get. rewrite Hi. apply wp_bind, wp_vm_lock; [done|]. apply wp_bind, wp_vupd. apply wp_bind, wp_get. apply wp_bind, wp_vupd.
  unfold NNODES. simpl. rewrite heap_bytes, Hnn. fold nodes.
  assert (node_array junk nodes count !! nodes = Some (junk 0)) as Hn0.
  { assert (0 <= 0 < count) as H by lia. apply (node_array_lookup nodes count junk) in H. unfold node_at in H. by rewrite Z.mul_0_l, Z.add_0_r in H. }
  apply wp_bind. eapply wp_vmodify; [exact Hn0|]. simpl. set (h0 := <[nodes := _]> _).
  assert (forall j, 0 <= j < count -> exists nd, h0 !! node_at nodes j = Some nd /\ vn_next nd = vn_next (junk j)) as Hh0.
  { intros j Hj. pose proof (node_array_lookup nodes count junk j Hj) as Hx. unfold h0. destruct (decide (nodes = node_at nodes j)) as [E|E].
    - assert (j = 0) as -> by (unfold node_at, SIZEOF_NODE in E; lia). rewrite <- E, lookup_insert_eq. eauto.
    - rewrite lookup_insert_ne by done. eauto. }
  apply wp_bind. apply (wp_link_nodes nodes count); [lia|lia| |].
  { intros j Hj. destruct (Hh0 j Hj) as (nd & Hnd' & _). simpl. eauto. }
  intros h1 _ H1. simpl in *. assert (nchain h1 (map (node_at nodes) (seqZ 0 count))) as Hch.
  { apply boot_chain. intros j Hj. destruct (H1 j Hj) as (old & nd & Ho & Hx & Hxn). exists nd. split; [done|]. rewrite Hxn.
    destruct (Z.ltb_spec (j + 1) count); [done|]. destruct (Hh0 j Hj) as (nd' & Hnd' & Hn'). replace old with nd' by congruence.
    rewrite Hn'. replace j with (total / 2 - 1) by (unfold count in *; lia). apply Hb. }
  rewrite seqZ_cons in Had, Hnd, Hch by lia. cbn [map] in Had, Hnd, Hch. replace (node_at nodes 0) with nodes in * by (unfold node_at; lia).
  set (N := map (node_at nodes) (seqZ (Z.succ 0) (Z.pred count))) in *.
  assert (length N = Z.to_nat (Z.pred count)) as HlenN by (unfold N; rewrite length_map; apply length_seqZ).
  clearbody N. clear H1 Hh0. apply wp_bind, wp_vupd. apply wp_bind.
  eapply (wp_free_node_get _ nodes N); simpl; [apply holding_lk_held|done|done|done|done|]. intros h2 Hch2 Hp2 Ho2.
  apply wp_bind. eapply wp_vstore; [exact Hp2|]. simpl. apply Forall_cons in Had as [Hap Had]. apply NoDup_cons in Hnd as [Hpn Hnd].
  pose proof kheapbase_pos. pose proof (bo_heap _ _ _ Hb). pose proof (bo_total _ _ _ Hb).
  apply wp_bind. eapply (wp_freevmr_put _ [] [] N nodes (KHEAPBASE, 2048 * total)); [|unfold region_ok; simpl; lia|constructor|].
  { split; [split; simpl; try done|exists 0, 0; simpl; by rewrite lookup_insert_eq|done|done].
    - eapply nchain_ext; [|exact Hch2]. intros q Hq. apply lookup_insert_ne. by intros ->.
    - apply holding_lk_held. }
  intros s' F' L Hput Hr' [f1 f2 f3 f4 f5]. simpl in *. assert (F' = [(nodes, (KHEAPBASE, 2048 * total))] /\ L = []) as [-> ->] by (by apply vput_nil).
  apply wp_bind, wp_vupd. apply wp_bind. eapply (wp_vm_unlock _ s); [done|by simpl|by simpl|]. apply wp_ret. simpl. split_and!; [done| |by rewrite f3].
  exists [(nodes, (KHEAPBASE, 2048 * total))], [], N. split; [apply rep_unlocked; try done; destruct Hr'; by split|]. unfold heap_end.
  rewrite length_nodes, Nat.add_0_r, HlenN. simpl. rewrite f3. split_and!; try done.
  - split; simpl; [|by repeat constructor|constructor]. exists [(KHEAPBASE, 2048 * total)]. split; [|done].
    simpl. unfold page_sized, vend. simpl. split_and!; [done|lia| |done]. rewrite <- Hcp. by exists count.
  - by rewrite f5.
  - rewrite <- Hcp. f_equal. lia.
Qed.
End Boot.

(** ** Sequences of calls *)
Inductive vop := VAlloc (size : Z) | VFree (addr : Z).
Definition vop_ok (o : vop) : Prop :=
  match o with VAlloc size => 0 <= size /\ (PGSZ | size) | VFree addr => addr <> 0 end.
Section Run.
Context (total addr : Z) (junk : Z -> node_t).
Definition vop_run (o : vop) : VM Z :=
  match o with VAlloc size => vmm_alloc total addr junk size | VFree a => let! _ := vmm_free a in ret! 0 end.
Fixpoint vrun (ops : list vop) : VM (list Z) :=
  match ops with
  | [] => ret! []
  | o :: ops => let! r := vop_run o in let! rs := vrun ops in ret! (r :: rs)
  end.
End Run.
Definition spec_op (o : vop) (a : space) : Z * space :=
  match o with VAlloc size => ((spec_alloc size a).1.2, (spec_alloc size a).2) | VFree addr => (0, spec_free addr a) end.
Fixpoint spec_run (ops : list vop) (a : space) : list Z * space :=
  match ops with
  | [] => ([], a)
  | o :: ops => ((spec_op o a).1 :: (spec_run ops (spec_op o a).2).1, (spec_run ops (spec_op o a).2).2)
  end.
(** The whole heap, free. *)
Definition space_init (total : Z) : space := ([(KHEAPBASE, 2048 * total)], []).

Section Reach.
Context (total addr : Z) (junk : Z -> node_t).
Hypothesis Hb : boot_ok total addr junk.
(** Before the first allocation, or since. *)
Definition vmm_live (s : vmm) (a : space) : Prop :=
  (vmm_fresh s /\ a = space_init total) \/ (vmm_inv s a /\ kheap_size s = 2048 * total).

Lemma free_fresh s a : vmm_fresh s -> a <> 0 -> wp (vmm_free_region a) (fun _ s' => s' = s) s.
Proof.
  intros [Hl _ Hu _ _] Ha. unfold vmm_free_region. apply wp_bind, wp_assert. { unfold is_null. by destruct (Z.eqb_spec a 0). }
  apply wp_bind, wp_vm_lock; [done|]. apply wp_bind. unfold usedvmr_find. apply wp_bind, wp_vassert; [apply holding_lk_held|].
  destruct (Z.eqb_spec a 0); [done|]. apply wp_bind, wp_get. apply wp_bind, wp_vfuel. simpl. rewrite Hu.
  apply (wp_usedvmr_find_from _ _ [] 0); simpl; [done|apply dll_ok_nil|lia|]. eapply (wp_vm_unlock _ s); [done..|]. apply relock_same.
Qed.
Lemma vop_live s a o : vmm_live s a -> vop_ok o -> wp (vop_run total addr junk o) (fun r s' => r = (spec_op o a).1 /\ vmm_live s' (spec_op o a).2) s.
Proof.
  intros Hs Ho. destruct o as [size|p]; simpl in *.
  - destruct Ho as [Hz Hd]. unfold vmm_alloc. apply wp_bind, wp_get.
    assert (forall s, vmm_inv s a -> kheap_size s = 2048 * total ->
      wp (let! r := vmm_alloc_region size in ret! r.2) (fun r s' => r = (spec_alloc size a).1.2 /\ vmm_live s' (spec_alloc size a).2) s) as Hgo.
    { intros s1 Hi Hk. apply wp_bind. eapply wp_mono; [apply (vmm_alloc_spec _ a); done|]. intros r s' (-> & Hi' & [Hk' _]).
      apply wp_ret. split; [done|]. right. split; [done|]. by rewrite Hk'. }
    destruct Hs as [[Hf ->]|[Hi Hk]].
    + rewrite (fr_init _ Hf). apply wp_bind, wp_bind. eapply wp_mono; [by apply vmm_init_spec|]. intros r s' (_ & Hi & Hk). apply wp_ret. by apply Hgo.
    + pose proof Hi as (? & ? & ? & _ & _ & _ & _ & _ & _ & ->). apply wp_bind, wp_ret. by apply Hgo.
  - unfold vmm_free. apply wp_bind. destruct Hs as [[Hf ->]|[Hi Hk]].
    + eapply wp_mono; [by apply free_fresh|]. intros _ s' ->. apply wp_ret. split; [done|]. by left.
    + eapply wp_mono; [by apply vmm_free_spec|]. intros _ s' (Hi' & [Hk' _]). apply wp_ret. split; [done|]. right. split; [done|]. by rewrite Hk'.
Qed.
Lemma vrun_live ops s a : vmm_live s a -> Forall vop_ok ops ->
  wp (vrun total addr junk ops) (fun rs s' => rs = (spec_run ops a).1 /\ vmm_live s' (spec_run ops a).2) s.
Proof.
  intros Hs Ho. revert s a Hs. induction Ho as [|o ops Ho _ IH]; intros s a Hs; simpl; [by apply wp_ret|].
  apply wp_bind. eapply wp_mono; [by apply vop_live|]. intros r s1 [-> H1]. apply wp_bind. eapply wp_mono; [by apply IH|].
  intros rs s2 [-> H2]. by apply wp_ret.
Qed.
Lemma live_space s a : vmm_live s a -> space_ok KHEAPBASE (KHEAPBASE + 2048 * total) a /\ used_memsz s = sizes a.2.
Proof.
  intros [[Hf ->]|[(F & U & N & _ & _ & Hsp & Hu & _) Hk]].
  - split; [|apply (fr_inuse _ Hf)]. destruct (heap_nodes _ _ _ Hb) as (_ & _ & Hc). destruct Hb.
    split; simpl; [|by repeat constructor|constructor]. exists [(KHEAPBASE, 2048 * total)]. split; [|done].
    simpl. unfold page_sized, vend. simpl. split_and!; [done|lia| |done]. rewrite <- Hc. by eexists.
  - unfold heap_end in Hsp. by rewrite Hk in Hsp.
Qed.
End Reach.

(** The regions a list of nodes holds, read along its links. *)
Fixpoint walk (n : nat) (h : gmap Z node_t) (p : Z) : list region :=
  match n with
  | O => []
  | S n => if is_null p then [] else
           match h !! p with Some x => (vn_base x, vn_size x) :: walk n h (vn_next x) | None => [] end
  end.
Definition free_regions (s : vmm) : list region := walk (S (size (vm_nodes s))) (vm_nodes s) (freevmr_list s).
Definition used_regions (s : vmm) : list region := walk (S (size (vm_nodes s))) (vm_nodes s) (usedvmr_list s).
Lemma walk_rseg n h pv (l : vlist) : rseg h pv l 0 -> dll_ok l -> (length l < n)%nat -> walk n h (hd_addr l 0) = regs l.
Proof.
  revert pv l. induction n as [|n IH]; intros pv l Hs Hok Hn; [lia|]. destruct l as [|[p r] l]; [done|].
  destruct Hs as [Hp Hs]. apply dll_ok_cons in Hok as (Ha & _ & Hok). simpl in *. rewrite addr_not_null, Hp by done. simpl.
  rewrite (IH p l) by (done || lia). by destruct r.
Qed.
Lemma inv_regions s a : vmm_inv s a -> free_regions s = a.1 /\ used_regions s = a.2.
Proof.
  intros (F & U & N & [_ Hr] & -> & _). destruct (rep_dll _ _ _ _ Hr) as [Hf Hu]. unfold free_regions, used_regions. cbn [fst snd].
  pose proof (vr_free_hd _ _ _ _ Hr) as E1. pose proof (vr_used_hd _ _ _ _ Hr) as E2. simpl in E1, E2. rewrite E1, E2.
  pose proof (rseg_length _ _ _ _ (vr_free _ _ _ _ Hr) Hf). pose proof (rseg_length _ _ _ _ (vr_used _ _ _ _ Hr) Hu) as Hn.
  change (vm_nodes (vm_locked s)) with (vm_nodes s) in *.
  split; eapply walk_rseg; try done; (apply Hr || lia).
Qed.

(** First fit in a separated list is the lowest run of free addresses. *)
Lemma fit_lowest l size c : sep l -> pos l -> 0 < size -> (forall z, c <= z < c + size -> exists x, x ∈ l /\ x.1 <= z < vend x) ->
  exists d k, fit size l = Some (d, k) /\ d <= c /\ (forall z, d <= z < d + size -> exists x, x ∈ l /\ x.1 <= z < vend x).
Proof.
  intros Hs Hp Hsz Hc. destruct (sep_covers l c size Hs Hp Hsz Hc) as (y & Hy & Hlo & Hhi). unfold vend in Hhi.
  destruct (fit size l) as [[d k]|] eqn:Hf.
  - exists d, k. split; [done|]. apply fit_split in Hf as (l1 & x & l2 & -> & H1 & Hle & -> & _). split.
    + apply sorted_app in Hs as (_ & [_ Hx]%StronglySorted_inv & _). rewrite Forall_forall in H1, Hx.
      apply Forall_app in Hp as [_ [Px _]%Forall_cons]. simpl in Px.
      apply elem_of_app in Hy as [Hy|[->|Hy]%elem_of_cons]; [specialize (H1 y Hy); simpl in H1; lia|lia|].
      specialize (Hx y Hy). unfold apart, vend in Hx. lia.
    + intros z Hz. exists x. split; [apply elem_of_app; right; by left|]. unfold vend. lia.
  - exfalso. clear -Hf Hy Hlo Hhi. induction l as [|x l IH]; [by apply not_elem_of_nil in Hy|]. simpl in Hf.
    destruct (Z.leb_spec size x.2); [done|]. destruct (fit size l) as [[]|]; [done|]. apply elem_of_cons in Hy as [->|Hy]; [lia|auto].
Qed.

(** ** Kernel virtual memory as the paging code sees it, once initialised *)
#[export] Instance kernel_vmman : Vmman := {|
  vstate := vmm;
  vm_alloc s n := match vmm_alloc_region n s with Done r s' => (r.2, s') | _ => (0, s) end;
  vm_free s a := match vmm_free a s with Done _ s' => s' | _ => s end
|}.

(** A page allocated is the front of a free region. *)
Lemma spec_page a va : (spec_alloc PGSZ a).1.2 = va -> va <> 0 -> exists x, x ∈ a.1 /\ va = x.1 /\ PGSZ <= x.2.
Proof.
  intros He Hva. unfold spec_alloc in He. change (PGSZ =? 0) with false in He. cbv iota in He. destruct (fit PGSZ a.1) as [[c k]|] eqn:Hf; [|by subst].
  simpl in He. subst. apply fit_split in Hf as (l1 & x & l2 & -> & _ & Hle & -> & _). exists x. split_and!; [set_solver|done|done].
Qed.
Lemma tiles_aligned b l e x : tiles b l e -> (PGSZ | b) -> x ∈ l -> (PGSZ | x.1).
Proof.
  revert b. induction l as [|y l IH]; intros b; simpl; [by intros _ _ []%not_elem_of_nil|]. intros (<- & [_ Hy] & Hl) Hb.
  intros [->|Hx]%elem_of_cons; [done|]. apply (IH (vend y)); [done| |done]. by apply Z.divide_add_r.
Qed.
Lemma heap_pml4 va : KHEAPBASE <= va < 0xFFFFFF8000000000 -> 256 <= PML4I va < 511.
Proof.
  intros Hv. unfold PML4I. change 511 with (Z.ones 9). rewrite Z.land_ones, Z.shiftr_div_pow2 by lia. change (Z.ones 9) with 511.
  change KHEAPBASE with 0xFFFF800100000000 in Hv. change (2 ^ 39) with 549755813888. change (2 ^ 9) with 512.
  assert (33554176 <= va / 549755813888 <= 33554430) as Hq by (split; [apply Z.div_le_lower_bound|apply Z.lt_succ_r, Z.div_lt_upper_bound]; lia).
  generalize dependent (va / 549755813888). intros q Hq. replace q with (q - 65535 * 512 + 65535 * 512) by lia.
  rewrite Z.mod_add by lia. rewrite Z.mod_small by lia. lia.
Qed.
Lemma spec_page_plain e a va : space_ok KHEAPBASE e a -> e <= 0xFFFFFF8000000000 -> (spec_alloc PGSZ a).1.2 = va -> va <> 0 -> plain_kernel va.
Proof.
  intros [Ht _ _] He Hs Hva. destruct (spec_page _ _ Hs Hva) as (x & Hx & -> & Hle). assert (x ∈ a.1 ++ a.2) as Hx' by (apply elem_of_app; by left).
  destruct (tiled_bound _ _ _ _ Ht Hx') as (_ & ? & ?). unfold vend, PGSZ in *. split; [|apply heap_pml4; lia].
  destruct Ht as (t & Ht & Hp). rewrite Hp in Hx'. apply (tiles_aligned _ _ _ x) in Ht; [by apply Z.mod_divide|by exists (KHEAPBASE / 4096)|done].
Qed.
Lemma spec_page_apart e a va x : space_ok KHEAPBASE e a -> (spec_alloc PGSZ a).1.2 = va -> va <> 0 -> x ∈ a.2 -> vend x <= va \/ va + PGSZ <= x.1.
Proof.
  intros [Ht _ _] Hs Hva Hx. destruct (spec_page _ _ Hs Hva) as (y & (l1 & l2 & Hl)%list_elem_of_split & -> & Hle).
  rewrite Hl, <- app_assoc in Ht. simpl in Ht. rewrite <- Permutation_middle in Ht.
  destruct (tiled_others _ _ y _ x Ht); [set_solver| |]; unfold vend in *; lia.
Qed.

(** ** Properties *)



(** Releasing what was just allocated leaves the lists of free and of used regions
    and the number of used bytes as they were. *)
Theorem vmm_alloc_then_free s a size : vmm_inv s a -> 0 < size -> (PGSZ | size) ->
  wp (let! r := vmm_alloc_region size in
      do! M_when (r.1 =? 0) (vmm_free_region r.2) in ret! r.1)
    (fun _ s' => free_regions s' = free_regions s /\ used_regions s' = used_regions s /\ used_memsz s' = used_memsz s) s.
Proof.
  intros Hi Hsz Hd. assert (forall s', vmm_inv s' a -> free_regions s' = free_regions s /\ used_regions s' = used_regions s /\ used_memsz s' = used_memsz s) as Hsame.
  { intros s' Hi'. destruct (inv_regions _ _ Hi) as [-> ->], (inv_regions _ _ Hi') as [-> ->].
    destruct Hi as (? & ? & ? & _ & _ & _ & -> & _), Hi' as (? & ? & ? & _ & _ & _ & -> & _). done. }
  pose proof Hi as (F & U & N & _ & _ & Hsp & _). apply wp_bind. eapply wp_mono; [apply (vmm_alloc_spec _ a); [done|lia|done]|]. intros r s1 (-> & Hi1 & _).
  destruct (spec_alloc size a) as [[err d] a1] eqn:Es. simpl in *. apply wp_bind. destruct (Z.eqb_spec err 0) as [->|Herr]; simpl.
  - assert (d <> 0) as Hd0.
    { unfold spec_alloc in Es. destruct (Z.eqb_spec size 0); [done|]. destruct (fit size a.1) as [[c k]|] eqn:Hf; [|done]. injection Es as <- _.
      apply fit_split in Hf as (l1 & x & l2 & He & _ & _ & -> & _). assert (x ∈ a.1 ++ a.2) as Hx by (rewrite He; set_solver).
      destruct (tiled_bound _ _ _ _ (so_tiled _ _ _ Hsp) Hx) as (_ & ? & _). pose proof kheapbase_pos. lia. }
    eapply wp_mono; [by apply vmm_free_spec|]. intros _ s2 [Hi2 _]. apply wp_ret. rewrite (spec_alloc_free _ _ _ _ _ _ Hsp Hsz Es) in Hi2. by apply Hsame.
  - apply wp_ret, wp_ret. apply Hsame. unfold spec_alloc in Es. destruct (Z.eqb_spec size 0); [lia|].
    destruct (fit size a.1) as [[c k]|]; [by injection Es as <- _ _|]. by injection Es as _ _ <-.
Qed.


(** ** Witnesses: a machine with 8 KiB of memory, so a heap of four pages *)
Definition vmm_blank : vmm := mkVmm (mkWho 7 4096) SPINLOCK_INIT 0 false 0 0 0 0 ∅.
Definition zero_nodes (_ : Z) : node_t := VNODE_ZERO.
Lemma blank_fresh : vmm_fresh vmm_blank.
Proof. by split. Qed.
Lemma small_boot : boot_ok 8 4096 zero_nodes.
Proof. split; try done. by exists 4. Qed.
Definition vmm_booted : vmm := match vmm_init 8 4096 zero_nodes vmm_blank with Done _ s => s | _ => vmm_blank end.
Lemma booted_inv : vmm_inv vmm_booted (space_init 8) /\ kheap_size vmm_booted = 16384.
Proof.
  pose proof (vmm_init_spec 8 4096 zero_nodes small_boot vmm_blank blank_fresh) as H. apply wp_done in H as (r & s & Er & _ & Hi & Hk).
  unfold vmm_booted. by rewrite Er.
Qed.
Lemma booted_free : free_regions vmm_booted = [(KHEAPBASE, 16384)].
Proof. apply (inv_regions _ _ (proj1 booted_inv)). Qed.

(** Three regions, the middle one released and taken again in part. *)
Definition vmm_ops : list vop :=
  [VAlloc 4096; VAlloc 8192; VAlloc 4096; VAlloc 4096; VFree (KHEAPBASE + 4096); VAlloc 4096; VFree KHEAPBASE; VFree (KHEAPBASE + 4096); VAlloc 12288; VAlloc 0].
Lemma vmm_alloc_then_free_witness :
  wp (let! r := vmm_alloc_region 4096 in do! M_when (r.1 =? 0) (vmm_free_region r.2) in ret! r.1)
    (fun _ s' => free_regions s' = free_regions vmm_booted /\ used_regions s' = used_regions vmm_booted /\ used_memsz s' = used_memsz vmm_booted) vmm_booted.
Proof. apply (vmm_alloc_then_free vmm_booted (space_init 8) 4096); [apply booted_inv|lia|by exists 1]. Defined.

(** One node per page is enough for whole pages only: smaller regions use the nodes up,
    and the assertion behind [free_node_get] fails. *)
Lemma vmm_small_sizes_panic : vrun 8 4096 zero_nodes [VAlloc 1; VAlloc 1; VAlloc 1; VAlloc 1] vmm_blank = Panic.
Proof. vm_compute. reflexivity. Qed.
