(* ===== verification/File.v ===== *)
(** * Open files (fs/file.c, fs/sysfile.c, fs/inode.c, fs/dentry.c, sys/syscall/cred.c)

    The tables of file descriptors of the processes, the open files they share, the
    directory entries and inodes behind them, permissions and credentials.  The
    operations of a file system ([i_ops]), which are function pointers, and the cache of
    an inode are parameters.  Addresses of buffers, names and attributes are passed on
    as they are. *)
From S2P Require Import Prelude Errno Spinlock KMem Queue.

(** ** Data *)
Record file_t := mkFile { f_off : Z; f_oflags : Z; f_refcnt : Z; f_dentry : Z; fops : Z; f_lock : spinlock_t }.
Definition set_f_off (x : Z) (f : file_t) : file_t := mkFile x (f_oflags f) (f_refcnt f) (f_dentry f) (fops f) (f_lock f).
Definition set_f_refcnt (x : Z) (f : file_t) : file_t := mkFile (f_off f) (f_oflags f) x (f_dentry f) (fops f) (f_lock f).
Definition set_f_lock (x : spinlock_t) (f : file_t) : file_t := mkFile (f_off f) (f_oflags f) (f_refcnt f) (f_dentry f) (fops f) x.

Record dentry_t := mkDentry { d_count : Z; d_inode : Z; d_parent : Z; d_spinlock : spinlock_t }.
Definition set_d_count (x : Z) (d : dentry_t) : dentry_t := mkDentry x (d_inode d) (d_parent d) (d_spinlock d).
Definition set_d_parent (x : Z) (d : dentry_t) : dentry_t := mkDentry (d_count d) (d_inode d) x (d_spinlock d).
Definition set_d_lock (x : spinlock_t) (d : dentry_t) : dentry_t := mkDentry (d_count d) (d_inode d) (d_parent d) x.

Inductive itype_t := FS_INV | FS_RGL | FS_DIR | FS_CHR | FS_LNK | FS_BLK | FS_FIFO | FS_PIPE | FS_SOCK.
#[export] Instance itype_eq_dec : EqDecision itype_t.
Proof. solve_decision. Defined.
Record inode_t := mkInode {
  i_ino : Z; i_uid : Z; i_gid : Z; i_type : itype_t; i_rdev : Z; i_mode : Z; i_size : Z; i_refcnt : Z; i_hlinks : Z;
  i_ops : Z; i_priv : Z; i_cache : Z; i_writers : Z; i_readers : Z; i_lock : spinlock_t
}.
Definition set_i_refcnt (x : Z) (i : inode_t) : inode_t :=
  mkInode (i_ino i) (i_uid i) (i_gid i) (i_type i) (i_rdev i) (i_mode i) (i_size i) x (i_hlinks i) (i_ops i) (i_priv i) (i_cache i) (i_writers i) (i_readers i) (i_lock i).
Definition set_i_hlinks (x : Z) (i : inode_t) : inode_t :=
  mkInode (i_ino i) (i_uid i) (i_gid i) (i_type i) (i_rdev i) (i_mode i) (i_size i) (i_refcnt i) x (i_ops i) (i_priv i) (i_cache i) (i_writers i) (i_readers i) (i_lock i).
Definition set_i_lock (x : spinlock_t) (i : inode_t) : inode_t :=
  mkInode (i_ino i) (i_uid i) (i_gid i) (i_type i) (i_rdev i) (i_mode i) (i_size i) (i_refcnt i) (i_hlinks i) (i_ops i) (i_priv i) (i_cache i) (i_writers i) (i_readers i) x.

(** [fc_files] is the array, [None] for NULL; a slot holds the address of a file or 0. *)
Record file_ctx_t := mkFctx { fc_cwd : Z; fc_fmax : Z; fc_root : Z; fc_nfile : Z; fc_files : option (list Z); fc_lock : spinlock_t }.
Definition set_fc_dirs (cwd root : Z) (c : file_ctx_t) : file_ctx_t := mkFctx cwd (fc_fmax c) root (fc_nfile c) (fc_files c) (fc_lock c).
Definition set_fc_table (n : Z) (t : option (list Z)) (c : file_ctx_t) : file_ctx_t := mkFctx (fc_cwd c) (fc_fmax c) (fc_root c) n t (fc_lock c).
Definition set_fc_lock (x : spinlock_t) (c : file_ctx_t) : file_ctx_t := mkFctx (fc_cwd c) (fc_fmax c) (fc_root c) (fc_nfile c) (fc_files c) x.

Record cred_t := mkCred { c_uid : Z; c_euid : Z; c_suid : Z; c_gid : Z; c_egid : Z; c_sgid : Z; c_umask : Z; c_lock : spinlock_t }.
Definition set_c_lock (x : spinlock_t) (c : cred_t) : cred_t := mkCred (c_uid c) (c_euid c) (c_suid c) (c_gid c) (c_egid c) (c_sgid c) (c_umask c) x.

(** [fs_fctx] and [fs_cred] are those of the current thread. *)
Record fsys := mkFsys {
  fs_who : who; fs_tick : nat; fs_fctx : Z; fs_cred : Z;
  fs_files : gmap Z file_t; fs_dents : gmap Z dentry_t; fs_inodes : gmap Z inode_t; fs_ctxs : gmap Z file_ctx_t; fs_creds : gmap Z cred_t
}.
Definition FM (A : Type) := M fsys A.
Definition fs_live (s : fsys) : gset Z := dom (fs_files s) ∪ dom (fs_dents s) ∪ dom (fs_inodes s) ∪ dom (fs_ctxs s) ∪ dom (fs_creds s).

Class FsHeap (T : Type) := { hp : fsys -> gmap Z T; set_hp : gmap Z T -> fsys -> fsys; ob_lock : T -> spinlock_t; set_ob_lock : spinlock_t -> T -> T }.
#[export] Instance file_heap : FsHeap file_t := {|
  hp := fs_files; ob_lock := f_lock; set_ob_lock := set_f_lock;
  set_hp h s := mkFsys (fs_who s) (fs_tick s) (fs_fctx s) (fs_cred s) h (fs_dents s) (fs_inodes s) (fs_ctxs s) (fs_creds s) |}.
#[export] Instance dentry_heap : FsHeap dentry_t := {|
  hp := fs_dents; ob_lock := d_spinlock; set_ob_lock := set_d_lock;
  set_hp h s := mkFsys (fs_who s) (fs_tick s) (fs_fctx s) (fs_cred s) (fs_files s) h (fs_inodes s) (fs_ctxs s) (fs_creds s) |}.
#[export] Instance inode_heap : FsHeap inode_t := {|
  hp := fs_inodes; ob_lock := i_lock; set_ob_lock := set_i_lock;
  set_hp h s := mkFsys (fs_who s) (fs_tick s) (fs_fctx s) (fs_cred s) (fs_files s) (fs_dents s) h (fs_ctxs s) (fs_creds s) |}.
#[export] Instance fctx_heap : FsHeap file_ctx_t := {|
  hp := fs_ctxs; ob_lock := fc_lock; set_ob_lock := set_fc_lock;
  set_hp h s := mkFsys (fs_who s) (fs_tick s) (fs_fctx s) (fs_cred s) (fs_files s) (fs_dents s) (fs_inodes s) h (fs_creds s) |}.
#[export] Instance cred_heap : FsHeap cred_t := {|
  hp := fs_creds; ob_lock := c_lock; set_ob_lock := set_c_lock;
  set_hp h s := mkFsys (fs_who s) (fs_tick s) (fs_fctx s) (fs_cred s) (fs_files s) (fs_dents s) (fs_inodes s) (fs_ctxs s) h |}.

(** ** Access and locks *)
Section Access.
Context {T : Type} {HT : FsHeap T}.
Definition oload (p : Z) : FM T := fun s => match hp s !! p with Some x => Done x s | None => Fault end.
Definition ostore (p : Z) (x : T) : FM unit := fun s =>
  match hp s !! p with Some _ => Done tt (set_hp (<[p := x]> (hp s)) s) | None => Fault end.
Definition omod (p : Z) (f : T -> T) : FM unit := let! x := oload p in ostore p (f x).
Definition ofree (p : Z) : FM unit := fun s =>
  match hp s !! p with Some _ => Done tt (set_hp (delete p (hp s)) s) | None => Fault end.
Definition oassert (p : Z) : FM unit := M_assert (negb (is_null p)).
Definition olock (p : Z) : FM unit :=
  do! oassert p in
  let! x := oload p in
  fun s => match lock_acquire (fs_who s) (ob_lock x) with
           | Done _ lk => ostore p (set_ob_lock lk x) s | Panic => Panic | Fault => Fault | Diverge => Diverge end.
Definition ounlock (p : Z) : FM unit :=
  do! oassert p in
  let! x := oload p in
  fun s => match lock_release (fs_who s) (ob_lock x) with
           | Done _ lk => ostore p (set_ob_lock lk x) s | Panic => Panic | Fault => Fault | Diverge => Diverge end.
Definition oislocked (p : Z) : FM bool :=
  do! oassert p in let! x := oload p in fun s => Done (holding (fs_who s) (ob_lock x)) s.
Definition oassert_locked (p : Z) : FM unit := let! b := oislocked p in M_assert b.
End Access.
Definition flock (p : Z) : FM unit := olock (T:=file_t) p.
Definition funlock (p : Z) : FM unit := ounlock (T:=file_t) p.
Definition fislocked (p : Z) : FM bool := oislocked (T:=file_t) p.
Definition fassert_locked (p : Z) : FM unit := oassert_locked (T:=file_t) p.
Definition dlock (p : Z) : FM unit := olock (T:=dentry_t) p.
Definition dunlock (p : Z) : FM unit := ounlock (T:=dentry_t) p.
Definition dislocked (p : Z) : FM bool := oislocked (T:=dentry_t) p.
Definition dassert_locked (p : Z) : FM unit := oassert_locked (T:=dentry_t) p.
(** [drecursive_lock]: lock unless held already. *)
Definition drecursive_lock (p : Z) : FM bool := let! h := dislocked p in if h then ret! false else do! dlock p in ret! true.
Definition ilock (p : Z) : FM unit := olock (T:=inode_t) p.
Definition iunlock (p : Z) : FM unit := ounlock (T:=inode_t) p.
Definition iassert_locked (p : Z) : FM unit := oassert_locked (T:=inode_t) p.
Definition fctx_lock (p : Z) : FM unit := olock (T:=file_ctx_t) p.
Definition fctx_unlock (p : Z) : FM unit := ounlock (T:=file_ctx_t) p.
Definition fctx_islocked (p : Z) : FM bool := oislocked (T:=file_ctx_t) p.
Definition fctx_assert_locked (p : Z) : FM unit := oassert_locked (T:=file_ctx_t) p.
Definition cred_lock (p : Z) : FM unit := olock (T:=cred_t) p.
Definition cred_unlock (p : Z) : FM unit := ounlock (T:=cred_t) p.
Definition cred_assert_locked (p : Z) : FM unit := oassert_locked (T:=cred_t) p.
(** [current->t_fctx] and [current->t_cred]. *)
Definition cur_fctx : FM Z := let! s := M_get in ret! (fs_fctx s).
Definition cur_cred : FM Z := let! s := M_get in ret! (fs_cred s).

(** ** Inodes

    [iop] is a call of one of the function pointers of [i_ops] that the operations below use, with its arguments. *)
Inductive iop :=
  | Op_isync | Op_iclose | Op_iunlink | Op_itruncate | Op_igetattr (attr : Z) | Op_isetattr (attr : Z)
  | Op_ifcntl (cmd argp : Z) | Op_iioctl (req argp : Z) | Op_iread (off buf nb : Z) | Op_iwrite (off buf nb : Z)
  | Op_imkdir (fname mode : Z) | Op_icreate (fname mode : Z) | Op_ilink (oldname newname : Z)
  | Op_imknod (name mode devid : Z) | Op_ireaddir (off buf count : Z) | Op_isymlink (atdir symname : Z) | Op_ichown (owner group : Z).
(** A file system: which members of the table at an address are set, and what they answer and
    make of the inode; the same for reads and writes through the cache of an inode.  They
    run with the inode locked and leave its lock and its count as they are. *)
Class FileSystem := {
  iop_set : Z -> iop -> bool;
  iop_call : iop -> inode_t -> Z * inode_t;
  icache_read : Z -> Z -> Z -> inode_t -> Z * inode_t;
  icache_write : Z -> Z -> Z -> inode_t -> Z * inode_t;
  iop_keeps : forall o i, i_lock (iop_call o i).2 = i_lock i /\ i_refcnt (iop_call o i).2 = i_refcnt i;
  icache_keeps : forall off buf nb i,
    (i_lock (icache_read off buf nb i).2 = i_lock i /\ i_refcnt (icache_read off buf nb i).2 = i_refcnt i) /\
    (i_lock (icache_write off buf nb i).2 = i_lock i /\ i_refcnt (icache_write off buf nb i).2 = i_refcnt i)
}.

Section Files.
Context {KA : KAlloc} {FS : FileSystem}.

Definition idupcnt (ip : Z) : FM unit := do! iassert_locked ip in omod ip (fun i => set_i_refcnt (i_refcnt i + 1) i).
Definition iputcnt (ip : Z) : FM unit := do! iassert_locked ip in omod ip (fun i => set_i_refcnt (i_refcnt i - 1) i).
Definition iputlink (ip : Z) : FM unit := do! iassert_locked ip in omod ip (fun i => set_i_hlinks (i_hlinks i - 1) i).
Definition iduplink (ip : Z) : FM unit := do! iassert_locked ip in omod ip (fun i => set_i_hlinks (i_hlinks i + 1) i).
Definition icheck_op (ip : Z) (o : iop) : FM Z :=
  do! iassert_locked ip in
  let! i := oload (T:=inode_t) ip in
  if is_null (i_ops i) then ret! (- ENOSYS) else if iop_set (i_ops i) o then ret! 0 else ret! (- ENOSYS).
Definition IISTYPE (ip : Z) (t : itype_t) : FM bool :=
  do! iassert_locked ip in let! i := oload (T:=inode_t) ip in ret! (bool_decide (i_type i = t)).
Definition icall (ip : Z) (f : inode_t -> Z * inode_t) : FM Z :=
  let! i := oload (T:=inode_t) ip in do! ostore ip (f i).2 in ret! (f i).1.
(** [if ((err = icheck_op(ip, op))) return err; return ip->i_ops->op(...);] *)
Definition icheck_call (ip : Z) (o : iop) : FM Z :=
  let! err := icheck_op ip o in if negb (err =? 0) then ret! err else icall ip (iop_call o).
Definition iplain (ip : Z) (o : iop) : FM Z := do! iassert_locked ip in icheck_call ip o.
Definition idir (ip : Z) (o : iop) : FM Z :=
  do! iassert_locked ip in let! d := IISTYPE ip FS_DIR in if negb d then ret! (- ENOTDIR) else icheck_call ip o.
Definition inotdir (ip : Z) (o : iop) : FM Z :=
  do! iassert_locked ip in let! d := IISTYPE ip FS_DIR in if d then ret! (- EISDIR) else icheck_call ip o.
Definition isync (ip : Z) : FM Z := iplain ip Op_isync.
Definition iclose (ip : Z) : FM Z := iplain ip Op_iclose.
Definition iunlink (ip : Z) : FM Z := iplain ip Op_iunlink.
Definition igetattr (ip attr : Z) : FM Z := iplain ip (Op_igetattr attr).
Definition isetattr (ip attr : Z) : FM Z := iplain ip (Op_isetattr attr).
Definition isymlink (ip atdir symname : Z) : FM Z := iplain ip (Op_isymlink atdir symname).
Definition ichown (ip owner group : Z) : FM Z := iplain ip (Op_ichown owner group).
Definition ilink (oldname dir newname : Z) : FM Z := idir dir (Op_ilink oldname newname).
Definition imknod (dir name mode devid : Z) : FM Z := idir dir (Op_imknod name mode devid).
Definition imkdir (dir fname mode : Z) : FM Z := idir dir (Op_imkdir fname mode).
Definition icreate (dir fname mode : Z) : FM Z := idir dir (Op_icreate fname mode).
Definition itruncate (ip : Z) : FM Z := inotdir ip Op_itruncate.
Definition iread_data (ip off buf nb : Z) : FM Z := inotdir ip (Op_iread off buf nb).
Definition iwrite_data (ip off buf nb : Z) : FM Z := inotdir ip (Op_iwrite off buf nb).
Definition ifcntl (ip cmd argp : Z) : FM Z :=
  do! iassert_locked ip in if is_null argp then ret! (- EINVAL) else icheck_call ip (Op_ifcntl cmd argp).
Definition iioctl (ip req argp : Z) : FM Z :=
  do! iassert_locked ip in
  if is_null argp then ret! (- EINVAL) else
  let! d := IISTYPE ip FS_DIR in if d then ret! (- EISDIR) else icheck_call ip (Op_iioctl req argp).
Definition ireaddir (dir off buf count : Z) : FM Z :=
  do! iassert_locked dir in
  let! d := IISTYPE dir FS_DIR in
  if negb d then ret! (- ENOTDIR) else
  if is_null buf then ret! (- EINVAL) else icheck_call dir (Op_ireaddir off buf count).
Definition iread (ip off buf sz : Z) : FM Z :=
  do! iassert_locked ip in
  let! i := oload (T:=inode_t) ip in
  if is_null (i_cache i) then iread_data ip off buf sz else icall ip (icache_read off buf sz).
Definition iwrite (ip off buf sz : Z) : FM Z :=
  do! iassert_locked ip in
  let! i := oload (T:=inode_t) ip in
  if is_null (i_cache i) then iwrite_data ip off buf sz else icall ip (icache_write off buf sz).
Definition irelease (ip : Z) : FM unit :=
  do! iassert_locked ip in
  do! iputcnt ip in
  let! i := oload (T:=inode_t) ip in
  do! (if i_refcnt i <=? 0 then let! _ := iclose ip in ret! tt else ret! tt) in
  iunlock ip.

(** The answer of [istat]: the members of [struct stat].  The C table has no entry for [FS_PIPE]
    beyond the zero that fills it. *)
Record stat_t := mkStat { st_mode : Z; st_ino : Z; st_uid : Z; st_gid : Z; st_rdev : Z; st_size : Z; st_nlink : Z }.
Definition itype_mode (t : itype_t) : Z :=
  match t with
  | FS_RGL => 0x8000 | FS_DIR => 0x4000 | FS_CHR => 0x2000 | FS_BLK => 0x6000 | FS_FIFO => 0x1000 | FS_LNK => 0xA000 | FS_SOCK => 0xC000
  | FS_INV => 0 | FS_PIPE => 0
  end.
Definition istat (ip : Z) (buf : bool) : FM (Z * option stat_t) :=
  if is_null ip || negb buf then ret! (- EINVAL, None) else
  do! iassert_locked ip in
  let! i := oload (T:=inode_t) ip in
  ret! (0, Some (mkStat (Z.lor (itype_mode (i_type i)) (i_mode i)) (i_ino i) (i_uid i) (i_gid i) (i_rdev i) (i_size i) (i_hlinks i))).

(** ** Permissions *)
Definition O_ACCMODE : Z := 3.
Definition O_RDONLY : Z := 0.
Definition O_WRONLY : Z := 1.
Definition O_RDWR : Z := 2.
Definition O_EXCL : Z := 0x800.
Definition O_NONBLOCK : Z := 0x4000.
Definition S_IRUSR : Z := 0x100.
Definition S_IWUSR : Z := 0x80.
Definition S_IXUSR : Z := 0x40.
Definition S_IRGRP : Z := 0x20.
Definition S_IWGRP : Z := 0x10.
Definition S_IXGRP : Z := 0x8.
Definition S_IROTH : Z := 0x4.
Definition S_IWOTH : Z := 0x2.
Definition S_IXOTH : Z := 0x1.
Definition flag (x m : Z) : bool := negb (Z.land x m =? 0).
(** One of the three tests, with the bits for the owner, the group and the others. *)
Definition perm_test (i : inode_t) (c : cred_t) (usr grp oth : Z) : bool :=
  if i_uid i =? c_uid c then flag (i_mode i) usr
  else if i_gid i =? c_gid c then flag (i_mode i) grp
  else flag (i_mode i) oth.
(** [cred] is 0 for NULL. *)
Definition icheck_perm (ip cred oflags : Z) : FM Z :=
  if is_null ip then ret! (- EINVAL) else
  if is_null cred then ret! 0 else
  do! iassert_locked ip in
  do! cred_lock cred in
  let! c := oload (T:=cred_t) cred in
  let! i := oload (T:=inode_t) ip in
  let acc := Z.land oflags O_ACCMODE in
  if c_uid c =? 0 then do! cred_unlock cred in ret! 0 else
  if ((acc =? O_RDONLY) || negb (acc =? O_WRONLY)) && negb (perm_test i c S_IRUSR S_IRGRP S_IROTH) then do! cred_unlock cred in ret! (- EACCES) else
  if ((acc =? O_WRONLY) || (acc =? O_RDWR)) && negb (perm_test i c S_IWUSR S_IWGRP S_IWOTH) then do! cred_unlock cred in ret! (- EACCES) else
  if flag oflags O_EXCL && negb (perm_test i c S_IXUSR S_IXGRP S_IXOTH) then do! cred_unlock cred in ret! (- EACCES) else
  do! cred_unlock cred in ret! 0.

(** ** Directory entries *)
Definition dopen (d : Z) : FM Z :=
  if is_null d then ret! (- EINVAL) else
  do! dassert_locked d in
  do! omod d (fun x => set_d_count (d_count x + 1) x) in
  let! x := oload (T:=dentry_t) d in
  ret! (if 0 <? d_count x then 0 else - EINVAL).
Definition dget (d : Z) : FM Z := let! err := dopen d in ret! (if err =? 0 then d else 0).
(** The list of siblings is left out. *)
Definition dunbind (d : Z) : FM Z :=
  if is_null d then ret! (- EINVAL) else
  let! x := oload (T:=dentry_t) d in
  if is_null (d_parent x) then ret! (- EINVAL) else
  do! dassert_locked d in
  do! omod (d_parent x) (fun y => set_d_count (d_count y - 1) y) in
  do! omod d (fun y => set_d_count (d_count y - 1) y) in
  do! omod d (set_d_parent 0) in
  ret! 0.
Definition dbind (dir child : Z) : FM Z :=
  if is_null dir || is_null child then ret! (- EINVAL) else
  do! dassert_locked child in
  do! omod child (set_d_parent dir) in
  do! omod child (fun y => set_d_count (d_count y + 1) y) in
  do! omod dir (fun y => set_d_count (d_count y + 1) y) in
  ret! 0.
Definition ddestroy (d : Z) : FM unit :=
  if is_null d then ret! tt else
  let! _ := drecursive_lock d in
  let! _ := dunbind d in
  do! dunlock d in
  ofree (T:=dentry_t) d.
Definition dclose (d : Z) : FM unit :=
  do! dassert_locked d in
  do! omod d (fun x => set_d_count (d_count x - 1) x) in
  let! x := oload (T:=dentry_t) d in
  if d_count x <=? 0 then ddestroy d else let! h := dislocked d in M_when h (dunlock d).
Definition dput (d : Z) : FM unit :=
  if is_null d then ret! tt else
  let! x := oload (T:=dentry_t) d in
  do! omod d (fun y => set_d_count (d_count y - 1) y) in
  M_when (d_count x =? 1) (dclose d).

(** ** Open files *)

(** What [kcalloc] and its like answer for an object, 0 for NULL, and whether they find room for an array. *)
Definition fs_bump (s : fsys) : fsys :=
  mkFsys (fs_who s) (S (fs_tick s)) (fs_fctx s) (fs_cred s) (fs_files s) (fs_dents s) (fs_inodes s) (fs_ctxs s) (fs_creds s).
Definition kcalloc_file : FM Z := fun s =>
  match ka_pick (fs_tick s) (fs_live s) with
  | Some p => Done p (set_hp (<[p := mkFile 0 0 0 0 0 SPINLOCK_INIT]> (fs_files s)) (fs_bump s))
  | None => Done 0 (fs_bump s)
  end.
Definition array_room : FM bool := fun s =>
  Done (match ka_pick (fs_tick s) (fs_live s) with Some _ => true | None => false end) (fs_bump s).
Definition falloc : FM (Z * Z) :=
  let! file := kcalloc_file in
  if is_null file then ret! (- ENOMEM, 0) else
  do! omod file (set_f_refcnt 1) in
  do! omod file (set_f_lock SPINLOCK_INIT) in
  do! flock file in
  ret! (0, file).
Definition fdestroy (file : Z) : FM unit :=
  if is_null file then ret! tt else
  let! h := fislocked file in
  do! M_when (negb h) (flock file) in
  do! funlock file in
  ofree (T:=file_t) file.
Definition fdup (file : Z) : FM Z :=
  if is_null file then ret! (- EINVAL) else
  do! fassert_locked file in do! omod file (fun f => set_f_refcnt (f_refcnt f + 1) f) in ret! 0.
Definition fput (file : Z) : FM Z :=
  if is_null file then ret! (- EINVAL) else
  do! fassert_locked file in do! omod file (fun f => set_f_refcnt (f_refcnt f - 1) f) in ret! 0.

(** No table of file operations exists in the kernel, [fops] is NULL in every file: a call through one
    is outside the model. *)
Definition no_fops (file : Z) : FM unit :=
  let! f := oload (T:=file_t) file in if is_null (fops f) then ret! tt else M_fault.
Definition fclose (file : Z) : FM Z :=
  do! fassert_locked file in
  do! no_fops file in
  let! err := fput file in
  if negb (err =? 0) then ret! err else
  let! f := oload (T:=file_t) file in
  if f_refcnt f <=? 0 then
    do! dlock (f_dentry f) in
    do! dclose (f_dentry f) in
    do! fdestroy file in
    ret! 0
  else do! funlock file in ret! 0.

(** The frame of the generic operations: the inode of the file is locked and counted, used, uncounted
    and unlocked. *)
Definition with_inode (file : Z) (body : Z -> FM Z) : FM Z :=
  do! fassert_locked file in
  do! no_fops file in
  let! f := oload (T:=file_t) file in
  if is_null (f_dentry f) then ret! (- ENOENT) else
  do! dlock (f_dentry f) in
  let! d := oload (T:=dentry_t) (f_dentry f) in
  let inode := d_inode d in
  do! M_when (negb (is_null inode)) (do! ilock inode in idupcnt inode) in
  do! dunlock (f_dentry f) in
  if is_null inode then ret! (- ENOENT) else
  let! err := body inode in
  do! iputcnt inode in
  do! iunlock inode in
  ret! err.
Definition feof (file : Z) : FM Z := with_inode file (fun ip =>
  do! iassert_locked ip in
  let! f := oload (T:=file_t) file in let! i := oload (T:=inode_t) ip in ret! (if i_size i <=? f_off f then 1 else 0)).
Definition fsync (file : Z) : FM Z := with_inode file isync.
Definition funlink (file : Z) : FM Z := with_inode file iunlink.
Definition fgetattr (file attr : Z) : FM Z := with_inode file (fun ip => igetattr ip attr).
Definition fsetattr (file attr : Z) : FM Z := with_inode file (fun ip => isetattr ip attr).
Definition ftruncate (file length : Z) : FM Z := with_inode file itruncate.
Definition ffcntl (file cmd argp : Z) : FM Z := with_inode file (fun ip => ifcntl ip cmd argp).
Definition fioctl (file req argp : Z) : FM Z := with_inode file (fun ip => iioctl ip req argp).
Definition fcreate (dir pathname mode : Z) : FM Z := with_inode dir (fun ip => icreate ip pathname mode).
Definition freaddir (dir off buf count : Z) : FM Z := with_inode dir (fun ip => ireaddir ip off buf count).
Definition flinkat (dir oldname newname : Z) : FM Z := with_inode dir (fun ip => ilink oldname ip newname).
Definition file_chown (file owner group : Z) : FM Z := with_inode file (fun ip => ichown ip owner group).
Definition file_stat (file : Z) (buf : bool) : FM Z := with_inode file (fun ip => let! r := istat ip buf in ret! r.1).

Definition SEEK_SET : Z := 0.
Definition SEEK_CUR : Z := 1.
Definition SEEK_END : Z := 2.
Definition flseek (file off whence : Z) : FM Z := with_inode file (fun ip =>
  let! i := oload (T:=inode_t) ip in
  do! (if whence =? SEEK_SET then omod file (set_f_off off)
       else if whence =? SEEK_CUR then omod file (fun f => set_f_off (u64 (f_off f + off)) f)
       else if whence =? SEEK_END then omod file (set_f_off (u64 (i_size i + off)))
       else ret! tt) in
  let! f := oload (T:=file_t) file in ret! (f_off f)).

(** The loop of [fread] leaves at once: each of the first three branches breaks, and they cover all
    answers.  The wake-up of writers changes nothing here. *)
Definition fread (file buf size : Z) : FM Z := with_inode file (fun ip =>
  let! f := oload (T:=file_t) file in
  let! retval := iread ip (f_off f) buf size in
  do! M_when (0 <? retval) (omod file (fun f => set_f_off (u64 (f_off f + retval)) f)) in
  ret! retval).

(** Non-blocking: the loop goes on after a successful write. *)
Fixpoint fwrite_nonblock (fuel : nat) (file ip buf size : Z) : FM Z :=
  match fuel with
  | O => M_diverge
  | S fuel =>
      let! f := oload (T:=file_t) file in
      do! iassert_locked ip in
      let! i := oload (T:=inode_t) ip in
      if u64 (f_off f + size) <? i_size i then
        let! retval := iwrite ip (f_off f) buf size in
        if 0 <=? retval then
          do! omod file (fun f => set_f_off (u64 (f_off f + retval)) f) in
          fwrite_nonblock fuel file ip buf size
        else ret! retval
      else ret! (- EAGAIN)
  end.
(** Blocking: until everything is written, an error, or nobody to wait for.  [cond_wait] returns when
    the thread is woken. *)
Fixpoint fwrite_block (fuel : nat) (file ip buf remaining retval : Z) : FM Z :=
  match fuel with
  | O => M_diverge
  | S fuel =>
      if negb (0 <? remaining) then ret! retval else
      let! f := oload (T:=file_t) file in
      let! written := iwrite ip (f_off f) buf remaining in
      if written <? 0 then ret! (if retval =? 0 then written else retval) else
      do! omod file (fun f => set_f_off (u64 (f_off f + written)) f) in
      let! i := oload (T:=inode_t) ip in
      if (0 <? u64 (remaining - written)) && is_null (i_writers i) then ret! (retval + written)
      else fwrite_block fuel file ip (u64 (buf + written)) (u64 (remaining - written)) (retval + written)
  end.
Definition fwrite (fuel : nat) (file buf size : Z) : FM Z := with_inode file (fun ip =>
  let! f := oload (T:=file_t) file in
  if flag (f_oflags f) O_NONBLOCK then fwrite_nonblock fuel file ip buf size else fwrite_block fuel file ip buf size 0).

(** ** Descriptors *)
Definition tab_get (c : file_ctx_t) (i : Z) : FM Z :=
  match fc_files c with
  | None => M_fault
  | Some t => if (0 <=? i) && (i <? Z.of_nat (length t)) then ret! (default 0 (t !! Z.to_nat i)) else M_fault
  end.
Definition tab_put (fctx i x : Z) : FM unit :=
  let! c := oload (T:=file_ctx_t) fctx in
  match fc_files c with
  | None => M_fault
  | Some t => if (0 <=? i) && (i <? Z.of_nat (length t)) then ostore fctx (set_fc_table (fc_nfile c) (Some (<[Z.to_nat i := x]> t)) c) else M_fault
  end.
(** [fc_files == NULL || fd < 0 || fd >= fc_nfile]. *)
Definition bad_fd (c : file_ctx_t) (fd : Z) : bool :=
  match fc_files c with None => true | Some _ => (fd <? 0) || (fc_nfile c <=? fd) end.
Definition file_get (fd : Z) : FM (Z * Z) :=
  let! fctx := cur_fctx in
  do! fctx_lock fctx in
  let! c := oload (T:=file_ctx_t) fctx in
  if bad_fd c fd then do! fctx_unlock fctx in ret! (- EBADFD, 0) else
  let! file := tab_get c fd in
  if is_null file then do! fctx_unlock fctx in ret! (- EBADFD, 0) else
  do! flock file in
  do! fctx_unlock fctx in
  ret! (0, file).
Definition file_free (fd : Z) : FM Z :=
  let! fctx := cur_fctx in
  do! fctx_lock fctx in
  let! c := oload (T:=file_ctx_t) fctx in
  if bad_fd c fd then do! fctx_unlock fctx in ret! (- EBADFD) else
  do! tab_put fctx fd 0 in
  do! fctx_unlock fctx in
  ret! 0.

(** The array grown to [n] slots, as [krealloc] leaves it: the new ones hold what the memory held. *)
Definition grown (junk : Z -> Z) (t : list Z) (n : Z) : list Z := t ++ map junk (seqZ (Z.of_nat (length t)) (n - Z.of_nat (length t))).
Definition slot_junk (s : fsys) : Z -> Z := ka_junk (fs_tick s).
Fixpoint first_free (t : list Z) (fd : Z) : option Z :=
  match t with [] => None | x :: t => if is_null x then Some fd else first_free t (fd + 1) end.
Definition file_alloc : FM (Z * Z * Z) :=
  let! r := falloc in
  if negb (r.1 =? 0) then ret! (r.1, 0, 0) else
  let file := r.2 in
  let! fctx := cur_fctx in
  do! fctx_lock fctx in
  let! c := oload (T:=file_ctx_t) fctx in
  let! ok := (match fc_files c with
              | Some _ => ret! true
              | None => let! room := array_room in
                        do! M_when room (ostore fctx (set_fc_table 1 (Some [0]) c)) in ret! room
              end) in
  if negb ok then do! fctx_unlock fctx in do! fdestroy file in ret! (- ENOMEM, 0, 0) else
  let! c := oload (T:=file_ctx_t) fctx in
  match first_free (take (Z.to_nat (fc_nfile c)) (default [] (fc_files c))) 0 with
  | Some fd =>
      do! tab_put fctx fd file in
      do! fctx_unlock fctx in
      ret! (0, fd, file)
  | None =>
      let fd := fc_nfile c in
      let! s := M_get in
      let! room := array_room in
      if negb room then do! fctx_unlock fctx in do! fdestroy file in ret! (- ENOMEM, 0, 0) else
      do! ostore fctx (set_fc_table (fd + 1) (Some (<[Z.to_nat fd := file]> (grown (slot_junk s) (default [] (fc_files c)) (fd + 1)))) c) in
      do! fctx_unlock fctx in
      ret! (0, fd, file)
  end.

(** Room for the descriptor [fd2] of [file_dup], and what it referred to closed. *)
Definition dup_room (fctx fd2 : Z) (c : file_ctx_t) (t : list Z) : FM bool :=
  if negb (fc_nfile c <=? fd2) then ret! true else
  let! room := array_room in
  do! M_when room (ostore fctx (set_fc_table (fd2 + 1) (Some (grown (fun _ => 0) (take (Z.to_nat (fc_nfile c)) t) (fd2 + 1))) c)) in
  ret! room.
Definition dup_close (fctx fd2 : Z) : FM Z :=
  let! c := oload (T:=file_ctx_t) fctx in
  let! old := tab_get c fd2 in
  if is_null old then ret! 0 else
  do! flock old in
  let! err := fclose old in
  if negb (err =? 0) then do! funlock old in do! fctx_unlock fctx in ret! err else
  do! tab_put fctx fd2 0 in
  ret! 0.
Definition file_dup (fd1 fd2 : Z) : FM Z :=
  let! fctx := cur_fctx in
  do! fctx_lock fctx in
  let! c := oload (T:=file_ctx_t) fctx in
  match fc_files c with
  | None => do! fctx_unlock fctx in ret! (- EBADFD)
  | Some t =>
      let! file := tab_get c fd1 in
      if is_null file || (fd1 <? 0) || (fc_nfile c <=? fd1) then do! fctx_unlock fctx in ret! (- EBADFD) else
      let fd2 := if fd2 <? 0 then fc_nfile c else fd2 in
      if fd1 =? fd2 then do! fctx_unlock fctx in ret! fd1 else
      let! err :=
        (if negb (0 <? fd2) then ret! 0 else
         let! room := dup_room fctx fd2 c t in
         if negb room then do! fctx_unlock fctx in ret! (- ENOMEM) else dup_close fctx fd2) in
      if negb (err =? 0) then ret! err else
      do! flock file in
      let! err := fdup file in
      if negb (err =? 0) then do! funlock file in do! fctx_unlock fctx in ret! err else
      do! funlock file in
      do! tab_put fctx fd2 file in
      do! fctx_unlock fctx in
      ret! fd2
  end.
Definition dup (fd : Z) : FM Z := file_dup fd (-1).
Definition dup2 (fd1 fd2 : Z) : FM Z := file_dup fd1 fd2.

(** [file_get], an operation on the locked file, [funlock]. *)
Definition with_file (fd : Z) (body : Z -> FM Z) : FM Z :=
  let! r := file_get fd in
  if negb (r.1 =? 0) then ret! r.1 else
  let! err := body r.2 in
  do! funlock r.2 in
  ret! err.
Definition sync (fd : Z) : FM Z := with_file fd fsync.
Definition unlink (fd : Z) : FM Z := with_file fd funlink.
Definition getattr (fd attr : Z) : FM Z := with_file fd (fun f => fgetattr f attr).
Definition setattr (fd attr : Z) : FM Z := with_file fd (fun f => fsetattr f attr).
Definition truncate (fd length : Z) : FM Z := with_file fd (fun f => ftruncate f length).
Definition fcntl (fd cmd argp : Z) : FM Z := with_file fd (fun f => ffcntl f cmd argp).
(** [ioctl] drops the answer. *)
Definition ioctl (fd req argp : Z) : FM Z := with_file fd (fun f => let! _ := fioctl f req argp in ret! 0).
Definition lseek (fd off whence : Z) : FM Z := with_file fd (fun f => flseek f off whence).
Definition read (fd buf size : Z) : FM Z := with_file fd (fun f => fread f buf size).
Definition write (fuel : nat) (fd buf size : Z) : FM Z := with_file fd (fun f => fwrite fuel f buf size).
Definition readdir (fd off buf count : Z) : FM Z := with_file fd (fun f => freaddir f off buf count).
Definition linkat (fd oldname newname : Z) : FM Z := with_file fd (fun f => flinkat f oldname newname).
Definition fchown (fd owner group : Z) : FM Z := with_file fd (fun f => file_chown f owner group).
Definition fstat (fd : Z) (buf : bool) : FM Z := if negb buf then ret! (- EINVAL) else with_file fd (fun f => file_stat f buf).

Definition close (fd : Z) : FM Z :=
  let! r := file_get fd in
  if negb (r.1 =? 0) then ret! r.1 else
  let! err := fclose r.2 in
  if negb (err =? 0) then do! funlock r.2 in ret! err else file_free fd.
Fixpoint close_from (n : nat) (fd : Z) : FM unit :=
  match n with O => ret! tt | S n => let! _ := close fd in close_from n (fd + 1) end.
Definition file_close_all : FM unit :=
  let! fctx := cur_fctx in
  do! fctx_lock fctx in
  let! c := oload (T:=file_ctx_t) fctx in
  do! fctx_unlock fctx in
  close_from (match fc_files c with None => O | Some _ => Z.to_nat (fc_nfile c) end) 0.

(** The end of [open], from the label [found] on: [dentry] is what the lookup found, locked and with a
    count for the caller. *)
Definition open_found (dentry oflags : Z) : FM Z :=
  let! r := file_alloc in
  let '(err, fd, file) := r in
  if negb (err =? 0) then ret! err else
  do! omod file (fun f => mkFile (f_off f) oflags (f_refcnt f) dentry 0 (f_lock f)) in
  do! funlock file in
  do! dunlock dentry in
  ret! fd.

(** [open] of a name whose directory entry is cached: [dlookup] locks and counts it. *)
Definition open_entry (dentry oflags : Z) : FM Z :=
  do! dlock dentry in
  let! _ := dopen dentry in
  open_found dentry oflags.

(** Copying the descriptors to a child, both contexts locked. *)
Fixpoint copy_files (n : nat) (fd dst src : Z) : FM unit :=
  match n with
  | O => ret! tt
  | S n =>
      let! c := oload (T:=file_ctx_t) src in
      let! file := tab_get c fd in
      do! M_when (negb (is_null file))
            (do! flock file in
             do! omod file (fun f => set_f_refcnt (f_refcnt f + 1) f) in
             do! tab_put dst fd file in
             funlock file) in
      copy_files n (fd + 1) dst src
  end.
Definition file_copy (dst src : Z) : FM Z :=
  if is_null dst || is_null src then ret! (- EINVAL) else
  do! fctx_assert_locked dst in
  do! fctx_assert_locked src in
  let! c := oload (T:=file_ctx_t) src in
  if is_null (fc_cwd c) || is_null (fc_root c) then ret! (- EINVAL) else
  let! s := M_get in
  let! room := (if fc_nfile c =? 0 then ret! true else array_room) in
  if negb room then ret! (- ENOMEM) else
  let files := if fc_nfile c =? 0 then None else Some (grown (slot_junk s) [] (fc_nfile c)) in
  let apart := negb (fc_cwd c =? fc_root c) in
  do! dlock (fc_cwd c) in
  do! M_when apart (dlock (fc_root c)) in
  let! cwd := dget (fc_cwd c) in
  do! omod dst (fun x => set_fc_dirs cwd (fc_root x) x) in
  if is_null cwd then do! M_when apart (dunlock (fc_root c)) in do! dunlock (fc_cwd c) in ret! (- EINVAL) else
  let! root := dget (fc_root c) in
  do! omod dst (fun x => set_fc_dirs (fc_cwd x) root x) in
  if is_null root then do! M_when apart (dunlock (fc_root c)) in do! dunlock (fc_cwd c) in ret! (- EINVAL) else
  do! M_when apart (dunlock (fc_root c)) in
  do! dunlock (fc_cwd c) in
  do! omod dst (set_fc_table (fc_nfile c) files) in
  do! copy_files (Z.to_nat (fc_nfile c)) 0 dst src in
  ret! 0.
(** The part of [copy_proc] about files. *)
Definition copy_fctx (child : Z) : FM Z :=
  let! fctx := cur_fctx in
  do! fctx_lock fctx in
  do! fctx_lock child in
  let! err := file_copy child fctx in
  do! fctx_unlock child in
  do! fctx_unlock fctx in
  ret! err.

(** ** Credentials

    The lock of the current thread, which encloses each of these, is left out. *)
Definition with_cred {A} (f : cred_t -> A * cred_t) : FM A :=
  let! cred := cur_cred in
  do! cred_lock cred in
  let! c := oload (T:=cred_t) cred in
  do! ostore cred (f c).2 in
  do! cred_unlock cred in
  ret! (f c).1.
Definition getuid : FM Z := with_cred (fun c => (c_uid c, c)).
Definition getgid : FM Z := with_cred (fun c => (c_gid c, c)).
Definition geteuid : FM Z := with_cred (fun c => (c_euid c, c)).
Definition getegid : FM Z := with_cred (fun c => (c_egid c, c)).
Definition setuid (uid : Z) : FM Z := with_cred (fun c =>
  if negb (uid =? c_uid c) && negb (c_uid c =? 0) then (- EPERM, c)
  else (0, mkCred uid (c_euid c) (c_suid c) (c_gid c) (c_egid c) (c_sgid c) (c_umask c) (c_lock c))).
Definition setgid (gid : Z) : FM Z := with_cred (fun c =>
  if negb (gid =? c_gid c) && negb (c_gid c =? 0) then (- EPERM, c)
  else (0, mkCred (c_uid c) (c_euid c) (c_suid c) gid (c_egid c) (c_sgid c) (c_umask c) (c_lock c))).
Definition seteuid (euid : Z) : FM Z := with_cred (fun c =>
  if negb (euid =? c_euid c) && negb (c_euid c =? 0) then (- EPERM, c)
  else (0, mkCred (c_uid c) euid (c_suid c) (c_gid c) (c_egid c) (c_sgid c) (c_umask c) (c_lock c))).
Definition setegid (egid : Z) : FM Z := with_cred (fun c =>
  if negb (egid =? c_egid c) && negb (c_egid c =? 0) then (- EPERM, c)
  else (0, mkCred (c_uid c) (c_euid c) (c_suid c) (c_gid c) egid (c_sgid c) (c_umask c) (c_lock c))).
Definition umask (cmask : Z) : FM Z := with_cred (fun c =>
  (c_umask c, mkCred (c_uid c) (c_euid c) (c_suid c) (c_gid c) (c_egid c) (c_sgid c) (Z.land cmask 0x1FF) (c_lock c))).
Definition cred_copy (dst src : Z) : FM Z :=
  if is_null dst || is_null src then ret! (- EINVAL) else
  do! cred_assert_locked dst in
  do! cred_assert_locked src in
  let! c := oload (T:=cred_t) src in
  do! omod dst (fun d => mkCred (c_uid c) (c_euid c) (c_suid c) (c_gid c) (c_egid c) (c_sgid c) (c_umask c) (c_lock d)) in
  ret! 0.
End Files.
