(* ===== verification/FileFacts.v ===== *)
(** * Facts on open files

    The reference counts of open files and directory entries against the descriptors
    that exist, what each call does to the tables, and the theorems. *)
From S2P Require Import Prelude Errno Spinlock KMem Queue Dll Sample File.

(** ** Counting *)
Fixpoint occ (x : Z) (l : list Z) : Z := match l with [] => 0 | y :: l => (if x =? y then 1 else 0) + occ x l end.
Lemma occ_app x l k : occ x (l ++ k) = occ x l + occ x k.
Proof. induction l; simpl; lia. Qed.
#[export] Instance occ_perm x : Proper (Permutation ==> eq) (occ x).
Proof. intros l k H. induction H; simpl; lia. Qed.
Lemma occ_nonneg x l : 0 <= occ x l.
Proof. induction l as [|y l IH]; simpl; [lia|]. destruct (x =? y); lia. Qed.
Lemma occ_pos x l : 0 < occ x l <-> x ∈ l.
Proof.
  induction l as [|y l IH]; simpl; [split; [lia|by intros []%not_elem_of_nil]|]. rewrite elem_of_cons. pose proof (occ_nonneg x l).
  destruct (Z.eqb_spec x y); [split; [auto|lia]|]. rewrite <- IH. split; [right; lia|]. intros [?|?]; [done|lia].
Qed.
Lemma occ_insert x l i y z : l !! i = Some y -> occ x (<[i := z]> l) = occ x l - (if x =? y then 1 else 0) + (if x =? z then 1 else 0).
Proof.
  revert i. induction l as [|w l IH]; intros [|i]; simpl; [done|done|intros [= ->]; lia|]. intros H. rewrite (IH _ H). lia.
Qed.
Lemma occ_replicate x n y : occ x (replicate n y) = if x =? y then Z.of_nat n else 0.
Proof. induction n; simpl; [by destruct (x =? y)|]. destruct (x =? y); lia. Qed.

Section Spread.
Context {V : Type} (g : V -> list Z).
(** All the values the elements of a map hold. *)
Definition spread (m : gmap Z V) : list Z := concat (map (fun kv => g kv.2) (map_to_list m)).
Lemma spread_new m k v : m !! k = None -> Permutation (spread (<[k := v]> m)) (g v ++ spread m).
Proof. intros H. unfold spread. rewrite map_to_list_insert by done. done. Qed.
Lemma spread_delete m k v : m !! k = Some v -> Permutation (spread m) (g v ++ spread (delete k m)).
Proof. intros H. unfold spread. rewrite <- (map_to_list_delete m k v) by done. done. Qed.
Lemma spread_update m k v v' : m !! k = Some v -> Permutation (spread (<[k := v']> m)) (g v' ++ spread (delete k m)).
Proof. intros H. rewrite <- insert_delete_eq. apply spread_new, lookup_delete_eq. Qed.
Lemma occ_update x m k v v' : m !! k = Some v -> occ x (spread (<[k := v']> m)) = occ x (spread m) - occ x (g v) + occ x (g v').
Proof. intros H. rewrite (spread_update _ _ _ v' H), (spread_delete _ _ _ H), !occ_app. lia. Qed.
Lemma occ_new x m k v : m !! k = None -> occ x (spread (<[k := v]> m)) = occ x (spread m) + occ x (g v).
Proof. intros H. rewrite (spread_new _ _ v H), occ_app. lia. Qed.
Lemma occ_delete x m k v : m !! k = Some v -> occ x (spread (delete k m)) = occ x (spread m) - occ x (g v).
Proof. intros H. rewrite (spread_delete _ _ _ H), occ_app. lia. Qed.
Lemma spread_elem x m : x ∈ spread m <-> exists k v, m !! k = Some v /\ x ∈ g v.
Proof.
  unfold spread. rewrite list_elem_of_In, in_concat. setoid_rewrite in_map_iff. split.
  - intros (l & ([k v] & <- & Hin%list_elem_of_In) & Hx%list_elem_of_In). apply elem_of_map_to_list in Hin. eauto.
  - intros (k & v & Hm & Hx). exists (g v). split; [|by apply list_elem_of_In]. exists (k, v). split; [done|]. by apply list_elem_of_In, elem_of_map_to_list.
Qed.
End Spread.

(** ** The invariant *)
Definition table (c : file_ctx_t) : list Z := default [] (fc_files c).
(** How many descriptors refer to a file, and how many files to a directory entry. *)
Definition refs (cs : gmap Z file_ctx_t) (f : Z) : Z := occ f (spread table cs).
Definition users (fs : gmap Z file_t) (d : Z) : Z := occ d (spread (fun x => [f_dentry x]) fs).
Definition all_free {T} `{FsHeap T} (h : gmap Z T) : Prop := forall p x, h !! p = Some x -> addr_ok p /\ lk_free (ob_lock x).

Record files_inv (s : fsys) : Prop := {
  fi_files : all_free (fs_files s); fi_dents : all_free (fs_dents s); fi_inodes : all_free (fs_inodes s); fi_ctxs : all_free (fs_ctxs s);
  fi_cur : is_Some (fs_ctxs s !! fs_fctx s);
  fi_table : forall p c, fs_ctxs s !! p = Some c -> fc_nfile c = Z.of_nat (length (table c)) /\ (fc_files c = None -> fc_nfile c = 0) /\
               is_Some (fs_dents s !! fc_cwd c) /\ is_Some (fs_dents s !! fc_root c);
  fi_slot : forall f, f ∈ spread table (fs_ctxs s) -> f <> 0 -> is_Some (fs_files s !! f);
  fi_file : forall f x, fs_files s !! f = Some x ->
              f_refcnt x = refs (fs_ctxs s) f /\ 0 < f_refcnt x /\ fops x = 0 /\ is_Some (fs_dents s !! f_dentry x);
  fi_dent : forall d x, fs_dents s !! d = Some x -> users (fs_files s) d < d_count x /\ (d_inode x <> 0 -> is_Some (fs_inodes s !! d_inode x))
}.

(** ** Primitive steps *)
Class FsLaws (T : Type) `{FsHeap T} : Prop := {
  hp_set : forall h s, hp (set_hp h s) = h; hp_who : forall h s, fs_who (set_hp h s) = fs_who s;
  hp_twice : forall h h' s, set_hp h (set_hp h' s) = set_hp h s; hp_same : forall s, set_hp (hp s) s = s;
  ob_get : forall l x, ob_lock (set_ob_lock l x) = l; ob_twice : forall l l' x, set_ob_lock l (set_ob_lock l' x) = set_ob_lock l x;
  ob_same : forall x, set_ob_lock (ob_lock x) x = x
}.
#[export] Hint Extern 1 (FsLaws _) => (split; [done|done|done|by intros []|done|done|by intros []]) : typeclass_instances.

Section Prim.
Context {T : Type} `{HT : FsHeap T} {HL : FsLaws T}.
Implicit Types (s : fsys) (x : T).
Definition upd (p : Z) x s : fsys := set_hp (<[p := x]> (hp s)) s.
Definition lockd (w : who) x : T := set_ob_lock (lk_held w (ob_lock x)) x.
Lemma wp_oload s p x (Q : T -> fsys -> Prop) : hp s !! p = Some x -> Q x s -> wp (oload p) Q s.
Proof. intros Hp HQ. unfold wp, oload. by rewrite Hp. Qed.
Lemma wp_ostore s p x y (Q : unit -> fsys -> Prop) : hp s !! p = Some x -> Q tt (upd p y s) -> wp (ostore p y) Q s.
Proof. intros Hp HQ. unfold wp, ostore. by rewrite Hp. Qed.
Lemma wp_omod s p x f (Q : unit -> fsys -> Prop) : hp s !! p = Some x -> Q tt (upd p (f x) s) -> wp (omod p f) Q s.
Proof. intros Hp HQ. apply wp_bind. eapply wp_oload; [done|]. by eapply wp_ostore. Qed.
Lemma wp_ofree s p x (Q : unit -> fsys -> Prop) : hp s !! p = Some x -> Q tt (set_hp (delete p (hp s)) s) -> wp (ofree p) Q s.
Proof. intros Hp HQ. unfold wp, ofree. by rewrite Hp. Qed.
Lemma wp_oassert s p (Q : unit -> fsys -> Prop) : addr_ok p -> Q tt s -> wp (oassert p) Q s.
Proof. intros Hp HQ. unfold oassert, is_null. unfold addr_ok in Hp. by destruct (Z.eqb_spec p 0); [lia|]. Qed.
Lemma wp_olock s p x (Q : unit -> fsys -> Prop) :
  hp s !! p = Some x -> addr_ok p -> lk_free (ob_lock x) -> Q tt (upd p (lockd (fs_who s) x) s) -> wp (olock p) Q s.
Proof.
  intros Hp Ha Hl HQ. apply wp_bind, wp_oassert; [done|]. apply wp_bind. eapply wp_oload; [done|]. unfold wp.
  rewrite lk_acquire_free by done. change (wp (ostore p (lockd (fs_who s) x)) Q s). by eapply wp_ostore.
Qed.
Lemma wp_ounlock s p x lk (Q : unit -> fsys -> Prop) : hp s !! p = Some x -> addr_ok p -> ob_lock x = lk_held (fs_who s) lk -> lk_free lk ->
  Q tt (upd p (set_ob_lock lk x) s) -> wp (ounlock p) Q s.
Proof.
  intros Hp Ha Hx Hl HQ. apply wp_bind, wp_oassert; [done|]. apply wp_bind. eapply wp_oload; [done|]. unfold wp.
  rewrite Hx, lk_release_held by done. change (wp (ostore p (set_ob_lock lk x)) Q s). by eapply wp_ostore.
Qed.
Lemma wp_oislocked s p x lk (Q : bool -> fsys -> Prop) : hp s !! p = Some x -> addr_ok p -> ob_lock x = lk_held (fs_who s) lk -> Q true s -> wp (oislocked p) Q s.
Proof.
  intros Hp Ha Hx HQ. apply wp_bind, wp_oassert; [done|]. apply wp_bind. eapply wp_oload; [done|]. unfold wp. by rewrite Hx, holding_lk_held.
Qed.
Lemma wp_oassert_locked s p x lk (Q : unit -> fsys -> Prop) : hp s !! p = Some x -> addr_ok p -> ob_lock x = lk_held (fs_who s) lk -> Q tt s -> wp (oassert_locked p) Q s.
Proof. intros Hp Ha Hx HQ. apply wp_bind. eapply wp_oislocked; [done..|]. by apply wp_assert. Qed.
End Prim.
Lemma null_ok p : addr_ok p -> is_null p = false.
Proof. unfold addr_ok, is_null. intros. apply Z.eqb_neq. lia. Qed.

(** A critical section leaves the lock free again. *)
Lemma upd_twice {T} `{HT : FsHeap T} {HL : FsLaws T} p (x y : T) s : upd p x (upd p y s) = upd p x s.
Proof. unfold upd. by rewrite hp_set, hp_twice, insert_insert_eq. Qed.
Lemma upd_same {T} `{HT : FsHeap T} {HL : FsLaws T} p (x : T) s : hp s !! p = Some x -> upd p x s = s.
Proof. intros H. unfold upd. by rewrite insert_id, hp_same. Qed.

(** ** Operations that leave the tables alone *)
Definition inode_like (h h' : gmap Z inode_t) : Prop :=
  forall p, match h !! p, h' !! p with Some i, Some i' => i_lock i' = i_lock i /\ i_refcnt i' = i_refcnt i | None, None => True | _, _ => False end.
#[export] Instance inode_like_preorder : PreOrder inode_like.
Proof.
  split.
  - intros h p. by destruct (h !! p).
  - intros h1 h2 h3 H1 H2 p. specialize (H1 p). specialize (H2 p). destruct (h1 !! p), (h2 !! p), (h3 !! p); try done. destruct H1, H2. split; congruence.
Qed.
Lemma inode_like_lookup h h' p i : inode_like h h' -> h !! p = Some i -> exists i', h' !! p = Some i' /\ i_lock i' = i_lock i /\ i_refcnt i' = i_refcnt i.
Proof. intros H Hp. specialize (H p). rewrite Hp in H. destruct (h' !! p); [eauto|done]. Qed.
Lemma inode_like_insert h p i i' : h !! p = Some i -> i_lock i' = i_lock i -> i_refcnt i' = i_refcnt i -> inode_like h (<[p := i']> h).
Proof.
  intros Hp Hl Hr q. destruct (decide (p = q)) as [<-|]; [by rewrite Hp, lookup_insert_eq|]. rewrite lookup_insert_ne by done. by destruct (h !! q).
Qed.
(** Only the offset of the file [f] and the contents of inodes may change. *)
Record quiet (f : Z) (s s' : fsys) : Prop := {
  q_who : fs_who s' = fs_who s; q_tick : fs_tick s' = fs_tick s; q_fctx : fs_fctx s' = fs_fctx s; q_cred : fs_cred s' = fs_cred s;
  q_dents : fs_dents s' = fs_dents s; q_ctxs : fs_ctxs s' = fs_ctxs s; q_creds : fs_creds s' = fs_creds s;
  q_inodes : inode_like (fs_inodes s) (fs_inodes s'); q_files : exists off, fs_files s' = alter (set_f_off off) f (fs_files s)
}.
Lemma alter_off_id f (m : gmap Z file_t) : exists off, m = alter (set_f_off off) f m.
Proof.
  destruct (m !! f) as [x|] eqn:E.
  - exists (f_off x). symmetry. apply map_eq. intros p. destruct (decide (p = f)) as [->|].
    + rewrite lookup_alter_eq, E. simpl. by destruct x.
    + by rewrite lookup_alter_ne.
  - exists 0. apply map_eq. intros p. destruct (decide (p = f)) as [->|]; [by rewrite lookup_alter_eq, E|by rewrite lookup_alter_ne].
Qed.
#[export] Instance quiet_preorder f : PreOrder (quiet f).
Proof.
  split.
  - intros s. split; try done. apply alter_off_id.
  - intros s1 s2 s3 [] []. split; try congruence; [by etrans|]. destruct q_files0 as [o1 E1], q_files1 as [o2 E2]. exists o2.
    rewrite E2, E1. by rewrite alter_alter_eq.
Qed.
Lemma quiet_inode f s p i : fs_inodes s !! p = Some i -> forall i', i_lock i' = i_lock i -> i_refcnt i' = i_refcnt i -> quiet f s (upd p i' s).
Proof. intros Hp i' Hl Hr. split; try done; simpl; [by eapply inode_like_insert|]. apply alter_off_id. Qed.
Lemma quiet_off f s x off : fs_files s !! f = Some x -> quiet f s (upd f (set_f_off off x) s).
Proof.
  intros Hx. split; try done; simpl. exists off. apply map_eq. intros q. destruct (decide (q = f)) as [->|].
  - by rewrite lookup_insert_eq, lookup_alter_eq, Hx.
  - by rewrite lookup_insert_ne, lookup_alter_ne.
Qed.

(** A file and its inode, both locked. *)
Record opened (f ip : Z) (s : fsys) : Prop := {
  op_file : exists x lk, fs_files s !! f = Some x /\ addr_ok f /\ f_lock x = lk_held (fs_who s) lk;
  op_inode : exists i lk, fs_inodes s !! ip = Some i /\ addr_ok ip /\ i_lock i = lk_held (fs_who s) lk
}.
Lemma opened_quiet f ip s s' : opened f ip s -> quiet f s s' -> opened f ip s'.
Proof.
  intros [(x & lk & Hx & Ha & Hl) (i & lk' & Hi & Hb & Hm)] Hq. split.
  - destruct (q_files _ _ _ Hq) as [off E]. exists (set_f_off off x), lk. rewrite E, lookup_alter_eq, Hx, (q_who _ _ _ Hq). done.
  - destruct (inode_like_lookup _ _ _ _ (q_inodes _ _ _ Hq) Hi) as (i' & Hi' & E & _). exists i', lk'. by rewrite E, (q_who _ _ _ Hq).
Qed.

Section Bodies.
Context {KA : KAlloc} {FS : FileSystem} (f ip : Z).
Definition body_ok (c : FM Z) : Prop := forall s, opened f ip s -> wp c (fun _ s' => quiet f s s') s.
Lemma wp_iassert s (Q : unit -> fsys -> Prop) : opened f ip s -> Q tt s -> wp (iassert_locked ip) Q s.
Proof. intros [_ (i & lk & Hi & Ha & Hl)] HQ. by eapply wp_oassert_locked. Qed.
Lemma body_ret v : body_ok (ret! v).
Proof. intros s _. by apply wp_ret. Qed.
Lemma body_assert c : body_ok c -> body_ok (do! iassert_locked ip in c).
Proof. intros Hc s Hs. apply wp_bind, wp_iassert; auto. Qed.
Lemma body_if (b : bool) c1 c2 : body_ok c1 -> body_ok c2 -> body_ok (if b then c1 else c2).
Proof. by destruct b. Qed.
Lemma body_bind c (k : Z -> FM Z) : body_ok c -> (forall v, body_ok (k v)) -> body_ok (M_bind c k).
Proof.
  intros Hc Hk s Hs. apply wp_bind. eapply wp_mono; [by apply Hc|]. intros v s1 H1. eapply wp_mono; [apply Hk; by eapply opened_quiet|].
  intros ? s2 H2. etrans; [exact H1|exact H2].
Qed.
Lemma body_inode (k : inode_t -> FM Z) : (forall i, body_ok (k i)) -> body_ok (let! i := oload (T:=inode_t) ip in k i).
Proof. intros Hk s Hs. pose proof Hs as [_ (i & lk & Hi & _)]. apply wp_bind. eapply wp_oload; [exact Hi|]. by apply Hk. Qed.
Lemma body_file (k : file_t -> FM Z) : (forall x, body_ok (k x)) -> body_ok (let! x := oload (T:=file_t) f in k x).
Proof. intros Hk s Hs. pose proof Hs as [(x & lk & Hx & _) _]. apply wp_bind. eapply wp_oload; [exact Hx|]. by apply Hk. Qed.
Lemma body_off (g : file_t -> Z) c : body_ok c -> body_ok (do! omod f (fun x => set_f_off (g x) x) in c).
Proof.
  intros Hc s Hs. pose proof Hs as [(x & lk & Hx & _) _]. apply wp_bind. eapply wp_omod; [exact Hx|]. pose proof (quiet_off _ _ _ (g x) Hx) as Hq.
  eapply wp_mono; [apply Hc; by eapply opened_quiet|]. intros ? s2 H2. etrans; [exact Hq|exact H2].
Qed.
Lemma body_IISTYPE t (k : bool -> FM Z) : (forall v, body_ok (k v)) -> body_ok (let! v := IISTYPE ip t in k v).
Proof.
  intros Hk s Hs. apply wp_bind. unfold IISTYPE. apply wp_bind, wp_iassert; [done|]. pose proof Hs as [_ (i & lk & Hi & _)].
  apply wp_bind. eapply wp_oload; [exact Hi|]. apply wp_ret. by apply Hk.
Qed.
Lemma body_icall g : (forall i, i_lock (g i).2 = i_lock i /\ i_refcnt (g i).2 = i_refcnt i) -> body_ok (icall ip g).
Proof.
  intros Hg s Hs. pose proof Hs as [_ (i & lk & Hi & _)]. unfold icall. apply wp_bind. eapply wp_oload; [exact Hi|].
  apply wp_bind. eapply wp_ostore; [exact Hi|]. apply wp_ret. destruct (Hg i). by eapply quiet_inode.
Qed.
Lemma body_check o : body_ok (icheck_call ip o).
Proof.
  unfold icheck_call, icheck_op. apply body_bind.
  - apply body_assert, body_inode. intros i. apply body_if; [apply body_ret|]. apply body_if; apply body_ret.
  - intros v. apply body_if; [apply body_ret|]. apply body_icall. apply iop_keeps.
Qed.
Hint Resolve body_ret body_check body_assert body_if body_IISTYPE body_inode body_file body_off : body.
Lemma body_plain o : body_ok (iplain ip o).
Proof. unfold iplain. auto with body. Qed.
Lemma body_dir o : body_ok (idir ip o).
Proof. unfold idir. auto with body. Qed.
Lemma body_notdir o : body_ok (inotdir ip o).
Proof. unfold inotdir. auto with body. Qed.
Lemma body_read off buf sz : body_ok (iread ip off buf sz).
Proof.
  unfold iread. apply body_assert, body_inode. intros i. apply body_if; [apply body_notdir|]. apply body_icall. intros j. apply icache_keeps.
Qed.
Lemma body_write off buf sz : body_ok (iwrite ip off buf sz).
Proof.
  unfold iwrite. apply body_assert, body_inode. intros i. apply body_if; [apply body_notdir|]. apply body_icall. intros j. apply icache_keeps.
Qed.
End Bodies.
#[export] Hint Resolve body_ret body_check body_assert body_if body_IISTYPE body_inode body_file body_off body_plain body_dir body_notdir body_read body_write : body.

(** Two descriptions of one state: inserts over inserts, and what was there before. *)
Ltac fs_same :=
  repeat match goal with s : fsys |- _ => destruct s | d : dentry_t |- _ => destruct d | c : file_ctx_t |- _ => destruct c | c : cred_t |- _ => destruct c end;
  unfold upd, lockd in *; simpl in *; f_equal; rewrite ?insert_insert_eq; first [done | by apply insert_id | by rewrite insert_id].

Section Calls.
Context {KA : KAlloc} {FS : FileSystem}.

(** A locked file in a state that is otherwise as [files_inv] says. *)
Record ready (f : Z) (x : file_t) (lk : spinlock_t) (s : fsys) : Prop := {
  rd_file : fs_files s !! f = Some x; rd_addr : addr_ok f; rd_lock : f_lock x = lk_held (fs_who s) lk; rd_fops : fops x = 0;
  rd_dent : exists d, fs_dents s !! f_dentry x = Some d /\ addr_ok (f_dentry x) /\ lk_free (d_spinlock d) /\
    (d_inode d <> 0 -> exists i, fs_inodes s !! d_inode d = Some i /\ addr_ok (d_inode d) /\ lk_free (i_lock i))
}.
Lemma wp_no_fops f x lk s (Q : unit -> fsys -> Prop) : ready f x lk s -> Q tt s -> wp (no_fops f) Q s.
Proof. intros [Hx _ _ Hf _] HQ. apply wp_bind. eapply wp_oload; [exact Hx|]. rewrite Hf. by apply wp_ret. Qed.

(** The inode is counted and locked, used and put back. *)
Lemma wp_use_inode f ip (body : FM Z) s x lk i (Q : Z -> fsys -> Prop) :
  fs_files s !! f = Some x -> addr_ok f -> f_lock x = lk_held (fs_who s) lk -> fs_inodes s !! ip = Some (set_i_refcnt (i_refcnt i + 1) (lockd (fs_who s) i)) ->
  addr_ok ip -> lk_free (i_lock i) -> body_ok f ip body ->
  (forall v s', quiet f (upd ip i s) s' -> Q v s') ->
  wp (let! err := body in do! iputcnt ip in do! iunlock ip in ret! err) Q s.
Proof.
  intros Hx Haf Hl Hi Hai Hli Hb HQ. assert (opened f ip s) as Ho by (split; eauto 10). apply wp_bind. eapply wp_mono; [by apply Hb|].
  intros v s1 Hq. destruct (inode_like_lookup _ _ _ _ (q_inodes _ _ _ Hq) Hi) as (i1 & Hi1 & El & Er). simpl in El, Er.
  apply wp_bind. unfold iputcnt. apply wp_bind. eapply wp_oassert_locked; [exact Hi1|done|simpl; rewrite El, (q_who _ _ _ Hq); done|].
  eapply wp_omod; [exact Hi1|]. apply wp_bind. eapply (wp_ounlock _ _ _ (i_lock i)); [simpl; apply lookup_insert_eq|done|simpl; rewrite El, (q_who _ _ _ Hq); done|done|].
  apply wp_ret, HQ. rewrite (upd_twice (T:=inode_t)). destruct Hq as [Q1 Q2 Q3 Q4 Q5 Q6 Q7 Q8 Q9]. split; try done; simpl.
  intros p. specialize (Q8 p). simpl. destruct (decide (p = ip)) as [->|].
  - rewrite !lookup_insert_eq. simpl. split; [done|]. lia.
  - by rewrite !lookup_insert_ne.
Qed.
Lemma wp_with_inode f x lk s (body : Z -> FM Z) (Q : Z -> fsys -> Prop) :
  ready f x lk s -> (forall ip, body_ok f ip (body ip)) -> (forall v s', quiet f s s' -> Q v s') -> wp (with_inode f body) Q s.
Proof.
  intros Hr Hb HQ. pose proof Hr as [Hx Ha Hl Hf (d & Hd & Had & Hld & Hin)]. unfold with_inode. apply wp_bind. eapply wp_oassert_locked; [exact Hx|done|exact Hl|].
  apply wp_bind. eapply wp_no_fops; [done|]. apply wp_bind. eapply wp_oload; [exact Hx|]. rewrite null_ok by done.
  apply wp_bind. eapply (wp_olock (T:=dentry_t)); [exact Hd|done|done|]. apply wp_bind. eapply wp_oload; [simpl; apply lookup_insert_eq|]. simpl.
  destruct (decide (d_inode d = 0)) as [E|E].
  - rewrite E. simpl. apply wp_bind, wp_ret. apply wp_bind. eapply (wp_ounlock (T:=dentry_t) _ _ _ (d_spinlock d)); [simpl; apply lookup_insert_eq|done|done|done|].
    apply wp_ret, HQ. match goal with |- quiet _ _ ?t => assert (t = s) as -> by fs_same end. done.
  - destruct (Hin E) as (i & Hi & Hai & Hli). rewrite (null_ok (d_inode d)) by done. simpl. apply wp_bind, wp_bind.
    eapply (wp_olock (T:=inode_t)); [exact Hi|done|done|]. unfold idupcnt. apply wp_bind. eapply (wp_oassert_locked (T:=inode_t)); [simpl; apply lookup_insert_eq|done|done|].
    eapply (wp_omod (T:=inode_t)); [simpl; apply lookup_insert_eq|]. apply wp_bind.
    eapply (wp_ounlock (T:=dentry_t) _ _ _ (d_spinlock d)); [simpl; apply lookup_insert_eq|done|done|done|]. simpl.
    eapply (wp_use_inode f (d_inode d) _ _ x lk i); try done; [simpl; by rewrite lookup_insert_eq|].
    intros v s' Hq. apply HQ. assert (upd (d_inode d) i (upd (f_dentry x) (set_d_lock (d_spinlock d) (lockd (fs_who s) d)) s) = s) as Es.
    { assert (set_d_lock (d_spinlock d) (lockd (fs_who s) d) = d) as -> by (by destruct d). by rewrite (upd_same (f_dentry x)), upd_same. }
    rewrite <- Es. unfold upd in Hq |- *. simpl in Hq |- *. rewrite !insert_insert_eq in Hq. done.
Qed.

(** ** Descriptors *)
Lemma inv_ready s f x : files_inv s -> fs_files s !! f = Some x -> ready f (lockd (fs_who s) x) (f_lock x) (upd f (lockd (fs_who s) x) s).
Proof.
  intros Hi Hx. destruct (fi_files _ Hi f x Hx) as [Ha Hl]. destruct (fi_file _ Hi f x Hx) as (_ & _ & Hf & [d Hd]).
  destruct (fi_dents _ Hi _ _ Hd) as [Had Hld]. split; simpl; [apply lookup_insert_eq|done|done|done|]. exists d. split_and!; [done..|].
  intros Hne. destruct (fi_dent _ Hi _ _ Hd) as [_ Hin]. destruct (Hin Hne) as [i Hi']. exists i. split; [done|]. by apply (fi_inodes _ Hi).
Qed.
Lemma inv_bad_fd s p c fd : files_inv s -> fs_ctxs s !! p = Some c -> bad_fd c fd = false ->
  exists t f, fc_files c = Some t /\ 0 <= fd < Z.of_nat (length t) /\ t !! Z.to_nat fd = Some f.
Proof.
  intros Hi Hc Hb. unfold bad_fd in Hb. destruct (fi_table _ Hi _ _ Hc) as (Hn & _). unfold table in Hn.
  destruct (fc_files c) as [t|]; [|done]. simpl in Hn. apply orb_false_iff in Hb as [H1 H2]. apply Z.ltb_ge in H1. apply Z.leb_gt in H2.
  destruct (lookup_lt_is_Some_2 t (Z.to_nat fd)) as [f Hf]; [lia|]. exists t, f. split_and!; [done|lia|lia|done].
Qed.
Lemma wp_tab_get c t i f s (Q : Z -> fsys -> Prop) : fc_files c = Some t -> 0 <= i < Z.of_nat (length t) -> t !! Z.to_nat i = Some f -> Q f s -> wp (tab_get c i) Q s.
Proof.
  intros Hc Hi Hf HQ. unfold tab_get. rewrite Hc. destruct (Z.leb_spec 0 i); [|lia]. destruct (Z.ltb_spec i (Z.of_nat (length t))); [|lia].
  simpl. rewrite Hf. by apply wp_ret.
Qed.
Lemma wp_file_get s fd (Q : Z * Z -> fsys -> Prop) : files_inv s ->
  Q (- EBADFD, 0) s ->
  (forall c t f x, fs_ctxs s !! fs_fctx s = Some c -> fc_files c = Some t -> 0 <= fd -> t !! Z.to_nat fd = Some f -> f <> 0 -> fs_files s !! f = Some x ->
     Q (0, f) (upd f (lockd (fs_who s) x) s)) -> wp (file_get fd) Q s.
Proof.
  intros Hi Hbad Hok. destruct (fi_cur _ Hi) as [c Hc]. destruct (fi_ctxs _ Hi _ _ Hc) as [Ha Hl]. unfold file_get, cur_fctx.
  apply wp_bind, wp_bind, wp_get. apply wp_ret. apply wp_bind. eapply (wp_olock (T:=file_ctx_t)); [exact Hc|done|done|].
  apply wp_bind. eapply wp_oload; [simpl; apply lookup_insert_eq|].
  assert (forall r, Q r s -> wp (do! fctx_unlock (fs_fctx s) in ret! r) Q (upd (fs_fctx s) (lockd (fs_who s) c) s)) as Hun.
  { intros r HQ. apply wp_bind. eapply (wp_ounlock (T:=file_ctx_t) _ _ _ (fc_lock c)); [simpl; apply lookup_insert_eq|done|done|done|]. apply wp_ret.
    match goal with |- Q _ ?t => assert (t = s) as -> by fs_same end. done. }
  change (bad_fd (set_fc_lock _ c) fd) with (bad_fd c fd). destruct (bad_fd c fd) eqn:Hb; [by apply Hun|].
  destruct (inv_bad_fd _ _ _ _ Hi Hc Hb) as (t & f & Ht & Hfd & Hf). apply wp_bind. eapply wp_tab_get; [exact Ht|done|exact Hf|].
  destruct (decide (f = 0)) as [->|Hne]; [by apply Hun|]. assert (is_Some (fs_files s !! f)) as [x Hx].
  { apply (fi_slot _ Hi); [|done]. apply spread_elem. exists (fs_fctx s), c. split; [done|]. unfold table. rewrite Ht. simpl. by eapply list_elem_of_lookup_2. }
  destruct (fi_files _ Hi _ _ Hx) as [Haf Hlf]. rewrite null_ok by done. apply wp_bind. eapply (wp_olock (T:=file_t)); [exact Hx|done|done|].
  apply wp_bind. eapply (wp_ounlock (T:=file_ctx_t) _ _ _ (fc_lock c)); [simpl; apply lookup_insert_eq|done|done|done|]. apply wp_ret.
  match goal with |- Q _ ?s' => assert (s' = upd f (lockd (fs_who s) x) s) as -> by fs_same end. eapply Hok; [done|done|lia|done..].
Qed.
(** An operation on the file behind a descriptor. *)
Lemma wp_with_file s fd (body : Z -> FM Z) (Q : Z -> fsys -> Prop) : files_inv s ->
  (forall f x lk s1, ready f x lk s1 -> wp (body f) (fun _ s2 => quiet f s1 s2) s1) ->
  Q (- EBADFD) s -> (forall f v s', is_Some (fs_files s !! f) -> quiet f s s' -> Q v s') -> wp (with_file fd body) Q s.
Proof.
  intros Hi Hb Hbad Hok. apply wp_bind. apply wp_file_get; [done| |].
  { simpl. by apply wp_ret. }
  intros c t f x _ _ _ _ Hne Hx. simpl. destruct (fi_files _ Hi _ _ Hx) as [Ha Hl]. pose proof (inv_ready _ _ _ Hi Hx) as Hr.
  apply wp_bind. eapply wp_mono; [by eapply Hb|]. intros v s2 Hq. destruct (q_files _ _ _ Hq) as [off Ef]. simpl in Ef.
  assert (fs_files s2 !! f = Some (set_f_off off (lockd (fs_who s) x))) as Hx2.
  { by rewrite Ef, lookup_alter_eq, lookup_insert_eq. }
  apply wp_bind. eapply (wp_ounlock (T:=file_t) _ _ _ (f_lock x)); [exact Hx2|done|simpl; by rewrite (q_who _ _ _ Hq)|done|].
  apply wp_ret. apply (Hok f); [by eexists|]. destruct Hq as [Q1 Q2 Q3 Q4 Q5 Q6 Q7 Q8 _]. split; try done; simpl. exists off. rewrite Ef.
  apply map_eq. intros p. destruct (decide (p = f)) as [->|].
  - rewrite lookup_insert_eq, lookup_alter_eq, Hx. by destruct x.
  - by rewrite lookup_insert_ne, !lookup_alter_ne, lookup_insert_ne.
Qed.

(** ** Closing *)
Record closable (f : Z) (x : file_t) (d : dentry_t) (s : fsys) : Prop := {
  cl_file : fs_files s !! f = Some x; cl_addr : addr_ok f; cl_lock : lk_free (f_lock x); cl_fops : fops x = 0; cl_ref : 0 < f_refcnt x;
  cl_dent : fs_dents s !! f_dentry x = Some d; cl_daddr : addr_ok (f_dentry x); cl_dlock : lk_free (d_spinlock d); cl_count : 1 < d_count d
}.
(** The state after one reference is given up: the file goes with the last one. *)
Definition closed (f : Z) (x : file_t) (d : dentry_t) (s : fsys) : fsys :=
  if f_refcnt x =? 1 then set_hp (delete f (fs_files s)) (upd (f_dentry x) (set_d_count (d_count d - 1) d) s)
  else upd f (set_f_refcnt (f_refcnt x - 1) x) s.
Lemma wp_dclose p d lk s (Q : unit -> fsys -> Prop) :
  fs_dents s !! p = Some d -> addr_ok p -> d_spinlock d = lk_held (fs_who s) lk -> lk_free lk -> 1 < d_count d ->
  Q tt (upd p (set_d_count (d_count d - 1) (set_d_lock lk d)) s) -> wp (dclose p) Q s.
Proof.
  intros Hd Ha Hl Hf Hc HQ. unfold dclose. apply wp_bind. eapply (wp_oassert_locked (T:=dentry_t)); [exact Hd|done|exact Hl|].
  apply wp_bind. eapply (wp_omod (T:=dentry_t)); [exact Hd|]. apply wp_bind. eapply wp_oload; [simpl; apply lookup_insert_eq|].
  simpl. destruct (Z.leb_spec (d_count d - 1) 0); [lia|]. apply wp_bind. eapply (wp_oislocked (T:=dentry_t)); [simpl; apply lookup_insert_eq|done|exact Hl|].
  simpl. eapply (wp_ounlock (T:=dentry_t) _ _ _ lk); [simpl; apply lookup_insert_eq|done|exact Hl|done|].
  match goal with |- Q _ ?t => assert (t = upd p (set_d_count (d_count d - 1) (set_d_lock lk d)) s) as -> by fs_same end. done.
Qed.
Lemma wp_fclose f x d s (Q : Z -> fsys -> Prop) : closable f x d s -> Q 0 (closed f x d s) -> wp (fclose f) Q (upd f (lockd (fs_who s) x) s).
Proof.
  intros [Hx Ha Hl Hf Hr Hd Had Hld Hc] HQ. unfold fclose. apply wp_bind. eapply (wp_oassert_locked (T:=file_t)); [simpl; apply lookup_insert_eq|done|done|].
  apply wp_bind. unfold no_fops. apply wp_bind. eapply wp_oload; [simpl; apply lookup_insert_eq|]. simpl. rewrite Hf. apply wp_ret.
  apply wp_bind. unfold fput. rewrite null_ok by done. apply wp_bind. eapply (wp_oassert_locked (T:=file_t)); [simpl; apply lookup_insert_eq|done|done|].
  apply wp_bind. eapply (wp_omod (T:=file_t)); [simpl; apply lookup_insert_eq|]. apply wp_ret. simpl. apply wp_bind. eapply wp_oload; [simpl; apply lookup_insert_eq|].
  simpl. unfold closed in HQ. destruct (Z.leb_spec (f_refcnt x - 1) 0), (Z.eqb_spec (f_refcnt x) 1); try lia.
  - apply wp_bind. eapply (wp_olock (T:=dentry_t)); [exact Hd|done|done|]. apply wp_bind.
    eapply (wp_dclose _ _ (d_spinlock d)); [simpl; apply lookup_insert_eq|done|done|done|done|]. apply wp_bind. unfold fdestroy. rewrite null_ok by done.
    apply wp_bind. eapply (wp_oislocked (T:=file_t)); [simpl; apply lookup_insert_eq|done|done|]. apply wp_bind. simpl. apply wp_ret.
    apply wp_bind. eapply (wp_ounlock (T:=file_t) _ _ _ (f_lock x)); [simpl; apply lookup_insert_eq|done|done|done|].
    eapply (wp_ofree (T:=file_t)); [simpl; apply lookup_insert_eq|]. apply wp_ret.
    match goal with |- Q _ ?t => match type of HQ with Q _ ?u => assert (t = u) as -> end end; [|done].
    destruct s; unfold upd, lockd in *; simpl in *. rewrite !insert_insert_eq, !delete_insert_eq. by destruct d.
  - apply wp_bind. eapply (wp_ounlock (T:=file_t) _ _ _ (f_lock x)); [simpl; apply lookup_insert_eq|done|done|done|]. apply wp_ret.
    match goal with |- Q _ ?t => match type of HQ with Q _ ?u => assert (t = u) as -> end end; [|done].
    destruct s; unfold upd, lockd in *; simpl in *. rewrite !insert_insert_eq. by destruct x.
Qed.
Lemma inv_closable s f x : files_inv s -> fs_files s !! f = Some x -> exists d, closable f x d s.
Proof.
  intros Hi Hx. destruct (fi_files _ Hi f x Hx) as [Ha Hl]. destruct (fi_file _ Hi f x Hx) as (_ & Hr & Hf & [d Hd]).
  destruct (fi_dents _ Hi _ _ Hd) as [Had Hld]. destruct (fi_dent _ Hi _ _ Hd) as [Hu _]. exists d. split; try done.
  assert (0 < users (fs_files s) (f_dentry x)); [|lia]. apply occ_pos, spread_elem. exists f, x. split; [done|]. by left.
Qed.
Lemma closed_ctxs f x d s : fs_ctxs (closed f x d s) = fs_ctxs s /\ fs_fctx (closed f x d s) = fs_fctx s /\ fs_who (closed f x d s) = fs_who s.
Proof. unfold closed. by destruct (_ =? _). Qed.
(** A table with another array. *)
Definition retab (p : Z) (c : file_ctx_t) (t : list Z) (s : fsys) : fsys := upd p (set_fc_table (Z.of_nat (length t)) (Some t) c) s.
Lemma wp_tab_put p c t i y s (Q : unit -> fsys -> Prop) : fs_ctxs s !! p = Some c -> fc_files c = Some t -> fc_nfile c = Z.of_nat (length t) ->
  0 <= i < Z.of_nat (length t) -> Q tt (retab p c (<[Z.to_nat i := y]> t) s) -> wp (tab_put p i y) Q s.
Proof.
  intros Hc Ht Hn Hi HQ. unfold tab_put. apply wp_bind. eapply (wp_oload (T:=file_ctx_t)); [exact Hc|]. rewrite Ht.
  destruct (Z.leb_spec 0 i); [|lia]. destruct (Z.ltb_spec i (Z.of_nat (length t))); [|lia]. simpl. eapply (wp_ostore (T:=file_ctx_t)); [exact Hc|].
  unfold retab in HQ. rewrite length_insert in HQ. by rewrite Hn.
Qed.
Lemma wp_close s fd (Q : Z -> fsys -> Prop) : files_inv s ->
  Q (- EBADFD) s ->
  (forall c t f x d, fs_ctxs s !! fs_fctx s = Some c -> fc_files c = Some t -> 0 <= fd -> t !! Z.to_nat fd = Some f -> f <> 0 -> closable f x d s ->
     Q 0 (retab (fs_fctx s) c (<[Z.to_nat fd := 0]> t) (closed f x d s))) -> wp (close fd) Q s.
Proof.
  intros Hi Hbad Hok. unfold close. apply wp_bind, wp_file_get; [done|by apply wp_ret|]. intros c t f x Hc Ht Hfd Hf Hne Hx. simpl.
  destruct (inv_closable _ _ _ Hi Hx) as [d Hd]. apply wp_bind. eapply wp_fclose; [exact Hd|]. simpl.
  destruct (fi_ctxs _ Hi _ _ Hc) as [Ha Hl]. destruct (fi_table _ Hi _ _ Hc) as (Hn & _). unfold table in Hn. rewrite Ht in Hn. simpl in Hn.
  pose proof (lookup_lt_Some _ _ _ Hf) as Hlt. specialize (Hok c t f x d Hc Ht Hfd Hf Hne Hd).
  destruct (closed_ctxs f x d s) as (E1 & E2 & E3). set (s1 := closed f x d s) in *. clearbody s1. rewrite <- E2 in *.
  unfold file_free, cur_fctx. apply wp_bind, wp_bind, wp_get. apply wp_ret. rewrite <- E1 in Hc.
  apply wp_bind. eapply (wp_olock (T:=file_ctx_t)); [exact Hc|done|done|]. apply wp_bind. eapply wp_oload; [simpl; apply lookup_insert_eq|].
  change (bad_fd (set_fc_lock _ c) fd) with (bad_fd c fd). assert (bad_fd c fd = false) as ->.
  { unfold bad_fd. simpl. rewrite Ht. destruct (Z.ltb_spec fd 0); [lia|]. destruct (Z.leb_spec (fc_nfile c) fd); [lia|done]. }
  apply wp_bind. eapply (wp_tab_put _ (lockd (fs_who s1) c) t); [simpl; apply lookup_insert_eq|done|done|lia|].
  apply wp_bind. eapply (wp_ounlock (T:=file_ctx_t) _ _ _ (fc_lock c)); [simpl; apply lookup_insert_eq|done|done|done|]. apply wp_ret.
  match goal with |- Q _ ?u => match type of Hok with Q _ ?v => assert (u = v) as -> end end; [|done].
  destruct s1; unfold retab, upd, lockd in *; simpl in *. by rewrite !insert_insert_eq.
Qed.

(** ** Keeping the invariant *)
Lemma all_free_insert {T} `{HT : FsHeap T} (h : gmap Z T) p x : all_free h -> addr_ok p -> lk_free (ob_lock x) -> all_free (<[p := x]> h).
Proof. intros H Ha Hl q y. destruct (decide (p = q)) as [<-|]; [rewrite lookup_insert_eq; by intros [= <-]|]. rewrite lookup_insert_ne by done. apply H. Qed.
Lemma all_free_delete {T} `{HT : FsHeap T} (h : gmap Z T) p : all_free h -> all_free (delete p h).
Proof. intros H q y [_ Hq]%lookup_delete_Some. by apply H. Qed.
Lemma is_Some_insert {V} (m : gmap Z V) p v q : is_Some (m !! q) -> is_Some (<[p := v]> m !! q).
Proof. intros H. destruct (decide (p = q)) as [<-|]; [rewrite lookup_insert_eq; eauto|by rewrite lookup_insert_ne]. Qed.
Lemma refs_retab (cs : gmap Z file_ctx_t) p c (t : list Z) g : cs !! p = Some c ->
  refs (<[p := set_fc_table (Z.of_nat (length t)) (Some t) c]> cs) g = refs cs g - occ g (table c) + occ g t.
Proof. intros Hc. unfold refs. by rewrite (occ_update _ _ _ _ _ _ Hc). Qed.

(** Tables and files change together so that each count stays the number of references. *)
Lemma inv_step s fs' ds' c t' :
  files_inv s -> fs_ctxs s !! fs_fctx s = Some c -> all_free fs' -> all_free ds' ->
  (forall d, is_Some (fs_dents s !! d) -> is_Some (ds' !! d)) ->
  (forall g, g <> 0 -> 0 < refs (fs_ctxs s) g - occ g (table c) + occ g t' -> is_Some (fs' !! g)) ->
  (forall g x, fs' !! g = Some x -> f_refcnt x = refs (fs_ctxs s) g - occ g (table c) + occ g t' /\ 0 < f_refcnt x /\ fops x = 0 /\ is_Some (ds' !! f_dentry x)) ->
  (forall d x, ds' !! d = Some x -> users fs' d < d_count x /\ (d_inode x <> 0 -> is_Some (fs_inodes s !! d_inode x))) ->
  forall tick, files_inv (mkFsys (fs_who s) tick (fs_fctx s) (fs_cred s) fs' ds' (fs_inodes s)
    (<[fs_fctx s := set_fc_table (Z.of_nat (length t')) (Some t') c]> (fs_ctxs s)) (fs_creds s)).
Proof.
  intros Hi Hc Hf Hd Hds Hslot Hfile Hdent tick. destruct (fi_ctxs _ Hi _ _ Hc) as [Hac Hlc].
  split; simpl; try done; try apply Hi.
  - apply all_free_insert; [apply Hi|done|done].
  - rewrite lookup_insert_eq. eauto.
  - intros p c' Hc'. destruct (decide (fs_fctx s = p)) as [<-|].
    + rewrite lookup_insert_eq in Hc'. injection Hc' as <-. destruct (fi_table _ Hi _ _ Hc) as (_ & _ & ? & ?). simpl. split_and!; auto. done.
    + rewrite lookup_insert_ne in Hc' by done. destruct (fi_table _ Hi _ _ Hc') as (? & ? & ? & ?). split_and!; auto.
  - intros g Hg Hne. apply Hslot; [done|]. rewrite <- (refs_retab _ _ _ _ _ Hc). by apply occ_pos.
  - intros g x Hx. rewrite (refs_retab _ _ _ _ _ Hc). by apply Hfile.
Qed.
Lemma inv_close s c t fd f x d : files_inv s -> fs_ctxs s !! fs_fctx s = Some c -> fc_files c = Some t -> t !! fd = Some f -> f <> 0 -> closable f x d s ->
  files_inv (retab (fs_fctx s) c (<[fd := 0]> t) (closed f x d s)).
Proof.
  intros Hi Hc Ht Hfd Hne [Hx Ha Hl Hf Hr Hd Had Hld Hcnt]. destruct (fi_file _ Hi _ _ Hx) as (Hrf & _ & _ & _).
  assert (table c = t) as Etab by (unfold table; by rewrite Ht).
  assert (forall g, g <> 0 -> refs (fs_ctxs s) g - occ g (table c) + occ g (<[fd := 0]> t) = refs (fs_ctxs s) g - (if g =? f then 1 else 0)) as Hg.
  { intros g Hg. rewrite Etab, (occ_insert g _ _ _ 0 Hfd). destruct (Z.eqb_spec g 0); [done|lia]. }
  assert (forall g y, fs_files s !! g = Some y -> g <> 0) as Hnz by (intros g y Hy; destruct (fi_files _ Hi _ _ Hy) as [Hz _]; unfold addr_ok in Hz; lia).
  unfold closed, retab, upd. destruct (Z.eqb_spec (f_refcnt x) 1) as [E|E]; simpl; apply inv_step; try done.
  - apply all_free_delete, Hi.
  - apply all_free_insert; [apply Hi|done|done].
  - intros q. apply is_Some_insert.
  - intros g Hgz. rewrite Hg by done. destruct (Z.eqb_spec g f) as [->|Hgf]; [lia|]. intros Hp. rewrite lookup_delete_ne by done.
    apply (fi_slot _ Hi); [|done]. apply occ_pos. unfold refs in Hp. lia.
  - intros g y [Hgf Hy]%lookup_delete_Some. rewrite Hg by (by eapply Hnz). destruct (fi_file _ Hi _ _ Hy) as (H1 & H2 & H3 & H4).
    destruct (Z.eqb_spec g f); [done|]. split_and!; [lia|done|done|by apply is_Some_insert].
  - intros q y Hq. unfold users. rewrite (occ_delete _ _ _ _ _ Hx). simpl. fold (users (fs_files s) q).
    destruct (decide (f_dentry x = q)) as [<-|Hqd].
    + rewrite lookup_insert_eq in Hq. injection Hq as <-. destruct (fi_dent _ Hi _ _ Hd). rewrite Z.eqb_refl. simpl. split; [lia|done].
    + rewrite lookup_insert_ne in Hq by done. destruct (fi_dent _ Hi _ _ Hq). destruct (Z.eqb_spec q (f_dentry x)); [done|]. split; [lia|done].
  - apply all_free_insert; [apply Hi|done|done].
  - apply Hi.
  - intros g Hgz. rewrite Hg by done. intros Hp. apply is_Some_insert, (fi_slot _ Hi); [|done]. apply occ_pos. unfold refs in Hp. destruct (g =? f); lia.
  - intros g y Hy. rewrite Hg. 2: { destruct (decide (f = g)) as [<-|]; [done|]. rewrite lookup_insert_ne in Hy by done. by eapply Hnz. }
    destruct (decide (f = g)) as [<-|Hgf].
    + rewrite lookup_insert_eq in Hy. injection Hy as <-. simpl. rewrite Z.eqb_refl. split_and!; [lia|lia|done|eauto].
    + rewrite lookup_insert_ne in Hy by done. destruct (fi_file _ Hi _ _ Hy) as (H1 & H2 & H3 & H4). destruct (Z.eqb_spec g f); [done|]. split_and!; [lia|done..].
  - intros q y Hq. destruct (fi_dent _ Hi _ _ Hq). unfold users. rewrite (occ_update _ _ _ _ _ _ Hx). simpl. fold (users (fs_files s) q). split; [lia|done].
Qed.
Lemma inv_quiet f s s' : files_inv s -> quiet f s s' -> files_inv s'.
Proof.
  intros Hi [Q1 Q2 Q3 Q4 Q5 Q6 Q7 Q8 [off Q9]].
  assert (forall g y, fs_files s' !! g = Some y -> exists y0, fs_files s !! g = Some y0 /\ f_refcnt y = f_refcnt y0 /\ f_dentry y = f_dentry y0 /\ fops y = fops y0 /\ f_lock y = f_lock y0) as Hback.
  { intros g y Hy. rewrite Q9, lookup_alter in Hy. case_decide; [|eauto 10]. subst. destruct (fs_files s !! g) as [y0|]; [|done].
    simpl in Hy. injection Hy as <-. eauto 10. }
  assert (forall q, users (fs_files s') q = users (fs_files s) q) as Hu.
  { intros q. rewrite Q9. unfold users. destruct (fs_files s !! f) as [x|] eqn:Hx.
    - replace (alter (set_f_off off) f (fs_files s)) with (<[f := set_f_off off x]> (fs_files s)).
      + rewrite (occ_update _ _ _ _ _ _ Hx). simpl. lia.
      + apply map_eq. intros p. destruct (decide (p = f)) as [->|]; [by rewrite lookup_insert_eq, lookup_alter_eq, Hx|by rewrite lookup_insert_ne, lookup_alter_ne].
    - f_equal. f_equal. apply map_eq. intros p. destruct (decide (p = f)) as [->|]; [by rewrite lookup_alter_eq, Hx|by rewrite lookup_alter_ne]. }
  assert (forall p, is_Some (fs_inodes s !! p) -> is_Some (fs_inodes s' !! p)) as Hin.
  { intros p [i Hp]. destruct (inode_like_lookup _ _ _ _ Q8 Hp) as (i' & Hp' & _). eauto. }
  split; rewrite ?Q3, ?Q5, ?Q6; try apply Hi.
  - intros g y Hy. destruct (Hback g y Hy) as (y0 & Hy0 & _ & _ & _ & El). simpl. rewrite El. by apply (fi_files _ Hi _ _ Hy0).
  - intros p i' Hp. specialize (Q8 p). rewrite Hp in Q8. destruct (fs_inodes s !! p) as [i|] eqn:Hp0; [|done].
    simpl. destruct Q8 as [-> _]. by apply (fi_inodes _ Hi _ _ Hp0).
  - intros g Hg Hne. destruct (fi_slot _ Hi g Hg Hne) as [y Hy]. rewrite Q9, lookup_alter. case_decide; subst; rewrite Hy; simpl; eauto.
  - intros g y Hy. destruct (Hback g y Hy) as (y0 & Hy0 & -> & -> & -> & _). by apply (fi_file _ Hi).
  - intros d y Hy. rewrite Hu. destruct (fi_dent _ Hi _ _ Hy). split; [done|]. auto.
Qed.

(** ** Opening *)
Lemma first_free_spec t k fd : first_free t k = Some fd -> k <= fd < k + Z.of_nat (length t) /\ t !! Z.to_nat (fd - k) = Some 0 /\
  (forall i, (i < Z.to_nat (fd - k))%nat -> exists g, t !! i = Some g /\ g <> 0).
Proof.
  revert k. induction t as [|x t IH]; intros k; simpl; [done|]. unfold is_null. destruct (Z.eqb_spec x 0) as [->|Hx].
  - intros [= <-]. rewrite Z.sub_diag. split_and!; [lia|lia|done|]. intros i Hi. lia.
  - intros H. destruct (IH _ H) as (H1 & H2 & H3). replace (Z.to_nat (fd - k)) with (S (Z.to_nat (fd - (k + 1)))) by lia. simpl.
    split_and!; [lia|lia|done|]. intros [|i] Hi; simpl; [eauto|]. apply H3. lia.
Qed.
Lemma first_free_none t k : first_free t k = None -> 0 ∉ t.
Proof.
  revert k. induction t as [|x t IH]; intros k; simpl; [by intros _ ?%not_elem_of_nil|]. unfold is_null. destruct (Z.eqb_spec x 0); [done|].
  intros H [E|Hin]%elem_of_cons; [done|by eapply IH].
Qed.
(** The array with the new file in it, and its descriptor: the lowest that is free. *)
Definition placed (t : list Z) (f : Z) : Z * list Z :=
  match first_free t 0 with Some fd => (fd, <[Z.to_nat fd := f]> t) | None => (Z.of_nat (length t), t ++ [f]) end.
Lemma placed_occ t f g : g <> 0 -> occ g (placed t f).2 = occ g t + (if g =? f then 1 else 0).
Proof.
  intros Hg. unfold placed. destruct (first_free t 0) as [fd|] eqn:Hf; simpl.
  - apply first_free_spec in Hf as (_ & H0 & _). rewrite Z.sub_0_r in H0. rewrite (occ_insert g _ _ _ f H0). destruct (Z.eqb_spec g 0); [done|lia].
  - rewrite occ_app. simpl. lia.
Qed.
Definition retick (n : nat) (s : fsys) : fsys :=
  mkFsys (fs_who s) n (fs_fctx s) (fs_cred s) (fs_files s) (fs_dents s) (fs_inodes s) (fs_ctxs s) (fs_creds s).
Lemma grown_one junk t f : <[length t := f]> (grown junk t (Z.of_nat (length t) + 1)) = t ++ [f].
Proof.
  unfold grown. replace (Z.of_nat (length t) + 1 - Z.of_nat (length t)) with 1 by lia. rewrite insert_app_r_alt by lia.
  rewrite Nat.sub_diag. done.
Qed.
Lemma wp_array_room s (Q : bool -> fsys -> Prop) : (forall b, Q b (retick (S (fs_tick s)) s)) -> wp array_room Q s.
Proof. intros HQ. unfold wp, array_room. apply HQ. Qed.
Lemma wp_fdestroy p x lk s (Q : unit -> fsys -> Prop) : fs_files s !! p = Some x -> addr_ok p -> f_lock x = lk_held (fs_who s) lk -> lk_free lk ->
  Q tt (set_hp (delete p (fs_files s)) s) -> wp (fdestroy p) Q s.
Proof.
  intros Hp Ha Hl Hf HQ. unfold fdestroy. rewrite null_ok by done. apply wp_bind. eapply (wp_oislocked (T:=file_t)); [exact Hp|done|exact Hl|].
  apply wp_bind. simpl. apply wp_ret. apply wp_bind. eapply (wp_ounlock (T:=file_t) _ _ _ lk); [exact Hp|done|exact Hl|done|].
  eapply (wp_ofree (T:=file_t)); [simpl; apply lookup_insert_eq|].
  match goal with |- Q _ ?t => assert (t = set_hp (delete p (fs_files s)) s) as -> end; [|done]. destruct s; unfold upd; simpl. by rewrite delete_insert_eq.
Qed.
Definition new_file : file_t := mkFile 0 0 1 0 0 SPINLOCK_INIT.
Lemma wp_falloc s (Q : Z * Z -> fsys -> Prop) :
  Q (- ENOMEM, 0) (retick (S (fs_tick s)) s) ->
  (forall p, addr_ok p -> fs_files s !! p = None -> Q (0, p) (retick (S (fs_tick s)) (upd p (lockd (fs_who s) new_file) s))) -> wp falloc Q s.
Proof.
  intros Hno Hok. unfold falloc. apply wp_bind. unfold wp at 1, kcalloc_file. destruct (ka_pick (fs_tick s) (fs_live s)) as [p|] eqn:Hp.
  - apply ka_fresh in Hp as [Hfr Ha]. assert (fs_files s !! p = None) as Hn by (apply not_elem_of_dom; unfold fs_live in Hfr; set_solver).
    specialize (Hok p Ha Hn). rewrite null_ok by done. apply wp_bind. eapply (wp_omod (T:=file_t)); [simpl; apply lookup_insert_eq|].
    apply wp_bind. eapply (wp_omod (T:=file_t)); [simpl; apply lookup_insert_eq|]. apply wp_bind.
    eapply (wp_olock (T:=file_t)); [simpl; apply lookup_insert_eq|done|done|]. apply wp_ret.
    match goal with |- Q _ ?t => match type of Hok with Q _ ?u => assert (t = u) as -> end end; [|done].
    destruct s; unfold retick, upd, lockd; simpl. by rewrite !insert_insert_eq.
  - simpl. by apply wp_ret.
Qed.
Lemma placed_length t f : Z.of_nat (length (placed t f).2) = Z.max (Z.of_nat (length t)) ((placed t f).1 + 1).
Proof.
  unfold placed. destruct (first_free t 0) as [fd|] eqn:Hf; simpl; [|rewrite length_app; simpl; lia].
  apply first_free_spec in Hf as (H & _). rewrite length_insert. lia.
Qed.
Lemma placed_spec c p : let r := placed (default [0] (fc_files c)) p in
  r.2 !! Z.to_nat r.1 = Some p /\ (forall f, table c !! Z.to_nat r.1 = Some f -> f = 0) /\
  (forall i, (i < Z.to_nat r.1)%nat -> exists f, table c !! i = Some f /\ f <> 0) /\
  (forall i f, i <> Z.to_nat r.1 -> table c !! i = Some f -> r.2 !! i = Some f).
Proof.
  unfold placed, table. destruct (fc_files c) as [t|]; simpl; [|split_and!; [done..|lia|done]].
  destruct (first_free t 0) as [fd|] eqn:Hf; simpl.
  - apply first_free_spec in Hf as (H1 & H2 & H3). rewrite Z.sub_0_r in *. pose proof (lookup_lt_Some _ _ _ H2). split_and!.
    + apply list_lookup_insert_eq. lia.
    + intros f Hfd. congruence.
    + done.
    + intros i f Hi Hif. by rewrite list_lookup_insert_ne.
  - apply first_free_none in Hf. rewrite Nat2Z.id. split_and!.
    + rewrite lookup_app_r, Nat.sub_diag by lia. done.
    + intros f H%lookup_lt_Some. lia.
    + intros i Hi. destruct (lookup_lt_is_Some_2 t i Hi) as [f Hif]. exists f. split; [done|]. intros ->. by apply Hf, (list_elem_of_lookup_2 _ i).
    + intros i f _ Hif. by apply lookup_app_l_Some.
Qed.
(** The second half of [file_alloc]: there is an array. *)
Lemma wp_place s cx c t p lk (Q : Z * Z * Z -> fsys -> Prop) :
  fs_ctxs s !! cx = Some c -> fc_files c = Some t -> fc_nfile c = Z.of_nat (length t) -> fc_lock c = lk_held (fs_who s) lk -> lk_free lk -> addr_ok cx ->
  (first_free t 0 = None -> forall n, wp (do! fctx_unlock cx in do! fdestroy p in ret! (- ENOMEM, 0, 0)) Q (retick n s)) ->
  (forall n, Q (0, (placed t p).1, p) (retick n (retab cx (set_fc_lock lk c) (placed t p).2 s))) ->
  wp (let! c := oload (T:=file_ctx_t) cx in
      match first_free (take (Z.to_nat (fc_nfile c)) (default [] (fc_files c))) 0 with
      | Some fd => do! tab_put cx fd p in do! fctx_unlock cx in ret! (0, fd, p)
      | None =>
          let! s := M_get in
          let! room := array_room in
          if negb room then do! fctx_unlock cx in do! fdestroy p in ret! (- ENOMEM, 0, 0) else
          do! ostore cx (set_fc_table (fc_nfile c + 1) (Some (<[Z.to_nat (fc_nfile c) := p]> (grown (slot_junk s) (default [] (fc_files c)) (fc_nfile c + 1)))) c) in
          do! fctx_unlock cx in ret! (0, fc_nfile c, p)
      end) Q s.
Proof.
  intros Hc Ht Hn Hl Hf Ha Hfail Hok. apply wp_bind. eapply (wp_oload (T:=file_ctx_t)); [exact Hc|]. rewrite Ht, Hn. simpl.
  rewrite Nat2Z.id, firstn_all. unfold placed in Hok. destruct (first_free t 0) as [fd|] eqn:Hff.
  - apply first_free_spec in Hff as (Hfd & _). apply wp_bind. eapply (wp_tab_put _ c t); [exact Hc|done|done|lia|].
    apply wp_bind. eapply (wp_ounlock (T:=file_ctx_t) _ _ _ lk); [simpl; apply lookup_insert_eq|done|exact Hl|done|]. apply wp_ret.
    specialize (Hok (fs_tick s)). simpl in Hok. match goal with |- Q _ ?u => match type of Hok with Q _ ?v => assert (u = v) as -> end end; [|done].
    destruct s; unfold retick, retab, upd; simpl. by rewrite insert_insert_eq.
  - apply wp_bind, wp_get. apply wp_bind, wp_array_room. intros [|]; simpl; [|by apply Hfail]. apply wp_bind. eapply (wp_ostore (T:=file_ctx_t)); [exact Hc|].
    apply wp_bind. eapply (wp_ounlock (T:=file_ctx_t) _ _ _ lk); [simpl; apply lookup_insert_eq|done|exact Hl|done|]. apply wp_ret.
    specialize (Hok (S (fs_tick s))). simpl in Hok. match goal with |- Q _ ?u => match type of Hok with Q _ ?v => assert (u = v) as -> end end; [|done].
    destruct s; unfold retick, retab, upd; simpl. rewrite insert_insert_eq, grown_one, length_app. simpl. by rewrite Nat2Z.inj_add.
Qed.
Lemma wp_file_alloc s c (Q : Z * Z * Z -> fsys -> Prop) :
  fs_ctxs s !! fs_fctx s = Some c -> addr_ok (fs_fctx s) -> lk_free (fc_lock c) -> fc_nfile c = Z.of_nat (length (table c)) ->
  (forall n, Q (- ENOMEM, 0, 0) (retick n s)) ->
  (forall n p, addr_ok p -> fs_files s !! p = None -> let r := placed (default [0] (fc_files c)) p in
     Q (0, r.1, p) (retick n (upd p (lockd (fs_who s) new_file) (retab (fs_fctx s) c r.2 s)))) -> wp file_alloc Q s.
Proof.
  intros Hc Ha Hl Hn Hno Hok. unfold file_alloc. apply wp_bind, wp_falloc; [simpl; by apply wp_ret|]. intros p Hap Hfp. specialize (Hok (S (S (fs_tick s))) p Hap Hfp) as Hok'.
  simpl. set (s1 := retick _ _). unfold cur_fctx. apply wp_bind, wp_bind, wp_get. apply wp_ret.
  apply wp_bind. eapply (wp_olock (T:=file_ctx_t) s1); [exact Hc|done|done|]. apply wp_bind. eapply wp_oload; [simpl; apply lookup_insert_eq|].
  assert (forall n, wp (do! fctx_unlock (fs_fctx s) in do! fdestroy p in ret! (- ENOMEM, 0, 0)) Q (retick n (upd (fs_fctx s) (lockd (fs_who s) c) s1))) as Hfail.
  { intros n. apply wp_bind. eapply (wp_ounlock (T:=file_ctx_t) _ _ _ (fc_lock c)); [simpl; apply lookup_insert_eq|done|done|done|]. apply wp_bind.
    eapply (wp_fdestroy _ _ SPINLOCK_INIT); [simpl; apply lookup_insert_eq|done|done|done|]. apply wp_ret.
    match goal with |- Q _ ?t => assert (t = retick n s) as -> end; [|done]. unfold s1, retick, upd, lockd; simpl. rewrite !insert_insert_eq, delete_insert_id by done.
    f_equal. rewrite insert_id; [done|]. by destruct c. }
  simpl. unfold table in Hn. destruct (fc_files c) as [t|] eqn:Ht; simpl in Hn, Hok'.
  - apply wp_bind, wp_ret. simpl. eapply (wp_place _ _ (lockd (fs_who s) c) t p (fc_lock c)); [simpl; apply lookup_insert_eq|done|done|done|done|done|intros _; exact Hfail|].
    intros n. specialize (Hok n p Hap Hfp). simpl in Hok. match goal with |- Q _ ?u => match type of Hok with Q _ ?v => assert (u = v) as -> end end; [|done].
    unfold s1, retick, retab, upd, lockd; simpl. rewrite !insert_insert_eq. by destruct c.
  - apply wp_bind, wp_bind, wp_array_room. intros [|]; simpl.
    + apply wp_bind. eapply (wp_ostore (T:=file_ctx_t)); [simpl; apply lookup_insert_eq|]. apply wp_ret. simpl.
      eapply (wp_place _ _ (set_fc_table 1 (Some [0]) (lockd (fs_who s) c)) [0] p (fc_lock c)); [simpl; apply lookup_insert_eq|done|done|done|done|done|done|].
      intros n. specialize (Hok n p Hap Hfp). simpl in Hok. match goal with |- Q _ ?u => match type of Hok with Q _ ?v => assert (u = v) as -> end end; [|done].
      unfold s1, retick, retab, upd, lockd; simpl. rewrite !insert_insert_eq. by destruct c.
    + apply wp_bind, wp_ret. apply wp_ret. simpl. apply Hfail.
Qed.
Lemma inv_retab s c t' n : files_inv s -> fs_ctxs s !! fs_fctx s = Some c -> (forall g, g <> 0 -> occ g t' = occ g (table c)) ->
  files_inv (retick n (retab (fs_fctx s) c t' s)).
Proof.
  intros Hi Hc Ht. unfold retick, retab, upd. simpl. apply inv_step; try done; try apply Hi.
  - intros g Hg. rewrite Ht by done. intros Hp. apply (fi_slot _ Hi); [|done]. apply occ_pos. unfold refs in Hp. lia.
  - intros g x Hx. rewrite Ht; [|destruct (fi_files _ Hi _ _ Hx) as [Hz _]; unfold addr_ok in Hz; lia].
    destruct (fi_file _ Hi _ _ Hx) as (H1 & H2 & H3 & H4). split_and!; [lia|done..].
Qed.
Lemma inv_retick s n : files_inv s -> files_inv (retick n s).
Proof. intros [H1 H2 H3 H4 H5 H6 H7 H8 H9]. by split. Qed.
(** One more descriptor for an open file. *)
Lemma inv_dup s c t fd f x : files_inv s -> fs_ctxs s !! fs_fctx s = Some c -> fc_files c = Some t -> t !! fd = Some 0 -> fs_files s !! f = Some x ->
  files_inv (retab (fs_fctx s) c (<[fd := f]> t) (upd f (set_f_refcnt (f_refcnt x + 1) x) s)).
Proof.
  intros Hi Hc Ht Hfd Hx. destruct (fi_file _ Hi _ _ Hx) as (Hrf & Hr & Hf & Hd). destruct (fi_files _ Hi _ _ Hx) as [Ha Hl].
  assert (table c = t) as Etab by (unfold table; by rewrite Ht).
  assert (forall g, g <> 0 -> refs (fs_ctxs s) g - occ g (table c) + occ g (<[fd := f]> t) = refs (fs_ctxs s) g + (if g =? f then 1 else 0)) as Hg.
  { intros g Hg. rewrite Etab, (occ_insert g _ _ _ f Hfd). destruct (Z.eqb_spec g 0); [done|lia]. }
  unfold retab, upd. simpl. apply inv_step; try done; try apply Hi.
  - apply all_free_insert; [apply Hi|done|done].
  - intros g Hgz. rewrite Hg by done. intros Hp. destruct (decide (f = g)) as [<-|]; [rewrite lookup_insert_eq; eauto|].
    rewrite lookup_insert_ne by done. apply (fi_slot _ Hi); [|done]. apply occ_pos. unfold refs in Hp. destruct (Z.eqb_spec g f); [congruence|lia].
  - intros g y Hy. destruct (decide (f = g)) as [<-|Hne].
    + rewrite lookup_insert_eq in Hy. injection Hy as <-. rewrite Hg, Z.eqb_refl by (unfold addr_ok in Ha; lia). simpl. split_and!; [lia|lia|done|done].
    + rewrite lookup_insert_ne in Hy by done. destruct (fi_file _ Hi _ _ Hy) as (H1 & H2 & H3 & H4).
      rewrite Hg by (destruct (fi_files _ Hi _ _ Hy) as [Hz _]; unfold addr_ok in Hz; lia). destruct (Z.eqb_spec g f); [congruence|]. split_and!; [lia|done..].
  - intros q y Hq. destruct (fi_dent _ Hi _ _ Hq). unfold users. rewrite (occ_update _ _ _ _ _ _ Hx). simpl. fold (users (fs_files s) q). split; [lia|done].
Qed.
Lemma first_slot l p : occ p (default [0] l) = occ p (default [] l) + (if l then 0 else if p =? 0 then 1 else 0).
Proof. destruct l; simpl; lia. Qed.
(** A new file for the directory entry [d], at the lowest free descriptor. *)
Lemma inv_open s c p d dd oflags n : files_inv s -> fs_ctxs s !! fs_fctx s = Some c -> addr_ok p -> fs_files s !! p = None -> fs_dents s !! d = Some dd ->
  files_inv (retick n (upd p (mkFile 0 oflags 1 d 0 SPINLOCK_INIT) (upd d (set_d_count (d_count dd + 1) dd)
    (retab (fs_fctx s) c (placed (default [0] (fc_files c)) p).2 s)))).
Proof.
  intros Hi Hc Ha Hn Hd. destruct (fi_dents _ Hi _ _ Hd) as [Had Hld].
  assert (refs (fs_ctxs s) p = 0) as Hp0.
  { assert (p ∉ spread table (fs_ctxs s)) as Hni. { intros Hin. destruct (fi_slot _ Hi _ Hin) as [y Hy]; [unfold addr_ok in Ha; lia|]. congruence. }
    pose proof (occ_nonneg p (spread table (fs_ctxs s))). unfold refs. destruct (Z.eq_dec (occ p (spread table (fs_ctxs s))) 0); [done|]. destruct Hni. apply occ_pos. lia. }
  assert (forall g, g <> 0 -> refs (fs_ctxs s) g - occ g (table c) + occ g (placed (default [0] (fc_files c)) p).2 = refs (fs_ctxs s) g + (if g =? p then 1 else 0)) as Hg.
  { intros g Hg. rewrite placed_occ, first_slot by done. unfold table. destruct (fc_files c), (Z.eqb_spec g 0); try done; lia. }
  unfold retick, retab, upd. simpl. apply inv_step; try done.
  - apply all_free_insert; [apply Hi|done|done].
  - apply all_free_insert; [apply Hi|done|done].
  - intros q. apply is_Some_insert.
  - intros g Hgz. rewrite Hg by done. intros Hp. destruct (decide (p = g)) as [<-|]; [rewrite lookup_insert_eq; eauto|].
    rewrite lookup_insert_ne by done. apply (fi_slot _ Hi); [|done]. apply occ_pos. unfold refs in Hp. destruct (Z.eqb_spec g p); [congruence|lia].
  - intros g y Hy. destruct (decide (p = g)) as [<-|Hne].
    + rewrite lookup_insert_eq in Hy. injection Hy as <-. rewrite Hg, Z.eqb_refl, Hp0 by (unfold addr_ok in Ha; lia). simpl. rewrite lookup_insert_eq. split_and!; [done|lia|done|eauto].
    + rewrite lookup_insert_ne in Hy by done. destruct (fi_file _ Hi _ _ Hy) as (H1 & H2 & H3 & H4).
      rewrite Hg by (destruct (fi_files _ Hi _ _ Hy) as [Hz _]; unfold addr_ok in Hz; lia). destruct (Z.eqb_spec g p); [congruence|].
      split_and!; [lia|done|done|by apply is_Some_insert].
  - intros q y Hq. unfold users. rewrite (occ_new _ _ _ _ _ Hn). simpl. fold (users (fs_files s) q). destruct (decide (d = q)) as [<-|].
    + rewrite lookup_insert_eq in Hq. injection Hq as <-. destruct (fi_dent _ Hi _ _ Hd). rewrite Z.eqb_refl. simpl. split; [lia|done].
    + rewrite lookup_insert_ne in Hq by done. destruct (fi_dent _ Hi _ _ Hq). destruct (Z.eqb_spec q d); [congruence|]. split; [lia|done].
Qed.
(** The state after a successful [open], and its descriptor. *)
Definition opened_at (d : Z) (dd : dentry_t) (oflags : Z) (c : file_ctx_t) (p : Z) (s : fsys) : fsys :=
  upd p (mkFile 0 oflags 1 d 0 SPINLOCK_INIT) (upd d (set_d_count (d_count dd + 1) dd) (retab (fs_fctx s) c (placed (default [0] (fc_files c)) p).2 s)).
Lemma wp_open_entry s c d dd oflags (Q : Z -> fsys -> Prop) : files_inv s -> fs_ctxs s !! fs_fctx s = Some c -> fs_dents s !! d = Some dd ->
  (forall n, Q (- ENOMEM) (retick n (upd d (set_d_count (d_count dd + 1) (lockd (fs_who s) dd)) s))) ->
  (forall n p, addr_ok p -> fs_files s !! p = None -> Q (placed (default [0] (fc_files c)) p).1 (retick n (opened_at d dd oflags c p s))) ->
  wp (open_entry d oflags) Q s.
Proof.
  intros Hi Hc Hd Hno Hok. destruct (fi_dents _ Hi _ _ Hd) as [Ha Hl]. destruct (fi_ctxs _ Hi _ _ Hc) as [Hac Hlc]. destruct (fi_table _ Hi _ _ Hc) as (Hn & _).
  unfold open_entry, dopen. apply wp_bind. eapply (wp_olock (T:=dentry_t)); [exact Hd|done|done|]. rewrite null_ok by done. apply wp_bind, wp_bind.
  eapply (wp_oassert_locked (T:=dentry_t)); [simpl; apply lookup_insert_eq|done|done|]. apply wp_bind. eapply (wp_omod (T:=dentry_t)); [simpl; apply lookup_insert_eq|].
  apply wp_bind. eapply wp_oload; [simpl; apply lookup_insert_eq|]. apply wp_ret. rewrite (upd_twice (T:=dentry_t)).
  unfold open_found. apply wp_bind. eapply wp_file_alloc; [exact Hc|done|done|done|intros n; simpl; by apply wp_ret|].
  intros n p Hp Hfp r. simpl. apply wp_bind. eapply (wp_omod (T:=file_t)); [simpl; apply lookup_insert_eq|].
  apply wp_bind. eapply (wp_ounlock (T:=file_t) _ _ _ SPINLOCK_INIT); [simpl; apply lookup_insert_eq|done|done|done|].
  apply wp_bind. eapply (wp_ounlock (T:=dentry_t) _ _ _ (d_spinlock dd)); [simpl; apply lookup_insert_eq|done|done|done|]. apply wp_ret.
  specialize (Hok n p Hp Hfp). match goal with |- Q _ ?u => match type of Hok with Q _ ?v => assert (u = v) as -> end end; [|done].
  unfold opened_at, retick, retab, upd, lockd, new_file; simpl. rewrite !insert_insert_eq. by destruct dd.
Qed.

(** ** Duplicating

    While the table is locked. *)
Definition held (c : file_ctx_t) (s : fsys) : fsys := upd (fs_fctx s) (lockd (fs_who s) c) s.
Lemma wp_release s c (Q : Z -> fsys -> Prop) r : files_inv s -> fs_ctxs s !! fs_fctx s = Some c -> Q r s ->
  wp (do! fctx_unlock (fs_fctx s) in ret! r) Q (held c s).
Proof.
  intros Hi Hc HQ. destruct (fi_ctxs _ Hi _ _ Hc) as [Ha Hl]. apply wp_bind.
  eapply (wp_ounlock (T:=file_ctx_t) _ _ _ (fc_lock c)); [simpl; apply lookup_insert_eq|done|done|done|]. apply wp_ret.
  unfold held. match goal with |- Q _ ?t => assert (t = s) as -> by fs_same end. done.
Qed.
Lemma wp_slot_put s c t fd y (Q : unit -> fsys -> Prop) : files_inv s -> fs_ctxs s !! fs_fctx s = Some c -> fc_files c = Some t -> 0 <= fd < Z.of_nat (length t) ->
  (forall c', c' = set_fc_table (Z.of_nat (length t)) (Some (<[Z.to_nat fd := y]> t)) c -> Q tt (held c' (retab (fs_fctx s) c (<[Z.to_nat fd := y]> t) s))) ->
  wp (tab_put (fs_fctx s) fd y) Q (held c s).
Proof.
  intros Hi Hc Ht Hfd HQ. destruct (fi_table _ Hi _ _ Hc) as (Hn & _). unfold table in Hn. rewrite Ht in Hn. simpl in Hn.
  eapply (wp_tab_put _ (lockd (fs_who s) c) t); [simpl; apply lookup_insert_eq|done|done|done|]. specialize (HQ _ eq_refl).
  match goal with |- Q _ ?u => match type of HQ with Q _ ?v => assert (u = v) as -> end end; [|done].
  unfold held, retab, upd, lockd; simpl. rewrite !insert_insert_eq, length_insert. done.
Qed.
(** The table and the array of the current process. *)
Record tabled (c : file_ctx_t) (t : list Z) (s : fsys) : Prop := {
  tb_inv : files_inv s; tb_ctx : fs_ctxs s !! fs_fctx s = Some c; tb_files : fc_files c = Some t
}.
Lemma tabled_len c t s : tabled c t s -> fc_nfile c = Z.of_nat (length t).
Proof. intros [Hi Hc Ht]. destruct (fi_table _ Hi _ _ Hc) as (Hn & _). unfold table in Hn. by rewrite Ht in Hn. Qed.
Lemma tabled_retab c t t' s n : tabled c t s -> files_inv (retick n (retab (fs_fctx s) c t' s)) ->
  tabled (set_fc_table (Z.of_nat (length t')) (Some t') c) t' (retick n (retab (fs_fctx s) c t' s)).
Proof. intros [Hi Hc Ht] Hi'. split; [done| |done]. simpl. apply lookup_insert_eq. Qed.
Lemma tabled_slot c t s i f : tabled c t s -> t !! i = Some f -> f <> 0 -> exists x, fs_files s !! f = Some x.
Proof.
  intros [Hi Hc Ht] Hf Hne. destruct (fi_slot _ Hi f) as [x Hx]; [|done|eauto]. apply spread_elem. exists (fs_fctx s), c.
  split; [done|]. unfold table. rewrite Ht. by eapply list_elem_of_lookup_2.
Qed.
Definition zeros (t : list Z) (n : Z) : list Z := grown (fun _ => 0) t n.
Lemma zeros_spec t n : Z.of_nat (length t) <= n ->
  Z.of_nat (length (zeros t n)) = n /\ (forall g, g <> 0 -> occ g (zeros t n) = occ g t) /\
  (forall i f, t !! i = Some f -> zeros t n !! i = Some f) /\ (forall i, (length t <= i < Z.to_nat n)%nat -> zeros t n !! i = Some 0).
Proof.
  intros Hn. unfold zeros, grown. set (k := n - Z.of_nat (length t)).
  assert (map (fun _ => 0) (seqZ (Z.of_nat (length t)) k) = replicate (Z.to_nat k) 0) as ->.
  { apply list_eq_same_length with (Z.to_nat k); [by rewrite length_replicate|by rewrite length_map, length_seqZ|].
    intros i x y Hi Hx Hy. apply lookup_replicate in Hy as [-> _]. change (map ?h ?l) with (h <$> l) in Hx. rewrite list_lookup_fmap in Hx.
    destruct (_ !! i); simpl in Hx; congruence. }
  split_and!.
  - rewrite length_app, length_replicate. lia.
  - intros g Hg. rewrite occ_app, occ_replicate. destruct (Z.eqb_spec g 0); [done|lia].
  - intros i f Hf. by apply lookup_app_l_Some.
  - intros i Hi. rewrite lookup_app_r by lia. apply lookup_replicate. split; [done|lia].
Qed.
(** [krealloc] and [memset]. *)
Lemma wp_dup_room s c t fd2 (Q : bool -> fsys -> Prop) : tabled c t s -> 0 <= fd2 ->
  (forall n, Q false (held c (retick n s))) ->
  (forall n c' t', tabled c' t' (retick n (retab (fs_fctx s) c t' s)) -> t' = zeros t (Z.max (Z.of_nat (length t)) (fd2 + 1)) -> Q true (held c' (retick n (retab (fs_fctx s) c t' s)))) ->
  wp (dup_room (fs_fctx s) fd2 (lockd (fs_who s) c) t) Q (held c s).
Proof.
  intros Ht Hfd Hno Hok. pose proof (tabled_len _ _ _ Ht) as Hn. pose proof Ht as [Hi Hc Hf]. unfold dup_room. simpl.
  destruct (zeros_spec t (Z.max (Z.of_nat (length t)) (fd2 + 1))) as (Z1 & Z2 & _); [lia|].
  assert (table c = t) as Etab by (unfold table; by rewrite Hf).
  pose proof (fun n => tabled_retab _ _ _ _ n Ht (inv_retab _ _ _ n Hi Hc ltac:(rewrite Etab; exact Z2))) as Ht'.
  destruct (Z.leb_spec (fc_nfile c) fd2); simpl.
  - apply wp_bind, wp_array_room. intros [|]; simpl; [|by apply wp_bind, wp_ret; apply wp_ret; apply Hno]. apply wp_bind.
    eapply (wp_ostore (T:=file_ctx_t)); [simpl; apply lookup_insert_eq|]. apply wp_ret. specialize (Hok _ _ _ (Ht' (S (fs_tick s))) eq_refl).
    match goal with |- Q _ ?u => match type of Hok with Q _ ?v => assert (u = v) as -> end end; [|done].
    unfold held, retick, retab, upd, lockd; simpl. rewrite !insert_insert_eq, Z1, Hn, Nat2Z.id, firstn_all. unfold zeros.
    rewrite Z.max_r by lia. done.
  - apply wp_ret. specialize (Hok _ _ _ (Ht' (fs_tick s)) eq_refl).
    match goal with |- Q _ ?u => match type of Hok with Q _ ?v => assert (u = v) as -> end end; [|done].
    assert (zeros t (Z.max (Z.of_nat (length t)) (fd2 + 1)) = t) as ->.
    { unfold zeros, grown. rewrite Z.max_l by lia. rewrite Z.sub_diag. simpl. by rewrite app_nil_r. }
    unfold held, retick, retab, upd, lockd; simpl. rewrite !insert_insert_eq, <- Hn, <- Hf. by destruct c.
Qed.
Lemma tabled_close c t s fd f x d : tabled c t s -> t !! fd = Some f -> f <> 0 -> closable f x d s ->
  tabled (set_fc_table (Z.of_nat (length t)) (Some (<[fd := 0]> t)) c) (<[fd := 0]> t) (retab (fs_fctx s) c (<[fd := 0]> t) (closed f x d s)).
Proof.
  intros [Hi Hc Ht] Hfd Hne Hcl. split; [by apply inv_close| |done]. destruct (closed_ctxs f x d s) as (_ & E & _). unfold retab. simpl. rewrite E.
  rewrite lookup_insert_eq. by rewrite length_insert.
Qed.
Lemma held_closed c f x d s : closed f x d (held c s) = held c (closed f x d s).
Proof. unfold closed, held. destruct (_ =? _); unfold upd; simpl; done. Qed.
Lemma tabled_file c t s i f : tabled c t s -> t !! i = Some f -> f <> 0 -> exists x d, fs_files s !! f = Some x /\ closable f x d s.
Proof.
  intros Ht Hi Hne. destruct (tabled_slot _ _ _ _ _ Ht Hi Hne) as [x Hx]. destruct (inv_closable _ _ _ (tb_inv _ _ _ Ht) Hx) as [d Hd]. eauto.
Qed.
(** The slot [fd2] is empty in the end and the others are as they were. *)
Lemma wp_dup_close s c t fd2 (Q : Z -> fsys -> Prop) : tabled c t s -> 0 <= fd2 < Z.of_nat (length t) ->
  (forall c' s', tabled c' (<[Z.to_nat fd2 := 0]> t) s' -> fs_fctx s' = fs_fctx s -> fs_who s' = fs_who s -> Q 0 (held c' s')) ->
  wp (dup_close (fs_fctx s) fd2) Q (held c s).
Proof.
  intros Ht Hfd Hok. pose proof Ht as [Hi Hc Hf]. unfold dup_close. apply wp_bind. eapply (wp_oload (T:=file_ctx_t)); [simpl; apply lookup_insert_eq|].
  destruct (lookup_lt_is_Some_2 t (Z.to_nat fd2)) as [old Hold]; [lia|]. apply wp_bind. eapply (wp_tab_get _ t); [done|done|exact Hold|].
  destruct (decide (old = 0)) as [->|Hne].
  - apply wp_ret. apply Hok; [|done..]. by rewrite list_insert_id.
  - destruct (tabled_file _ _ _ _ _ Ht Hold Hne) as (x & d & Hx & Hcl). pose proof Hcl as [_ Ha Hl _ _ _ _ _ _]. rewrite null_ok by done.
    apply wp_bind. eapply (wp_olock (T:=file_t)); [exact Hx|done|done|]. apply wp_bind. eapply (wp_fclose _ _ d).
    { destruct Hcl. by split. }
    simpl. rewrite held_closed. pose proof (tabled_close _ _ _ _ _ _ _ Ht Hold Hne Hcl) as Ht2. destruct (closed_ctxs old x d s) as (E1 & E2 & E3).
    apply wp_bind. rewrite <- E2. eapply (wp_tab_put _ (lockd (fs_who s) c) t).
    + unfold held. rewrite E3. simpl. by rewrite lookup_insert_eq.
    + done.
    + by apply (tabled_len _ _ _ Ht).
    + done.
    + apply wp_ret. specialize (Hok _ _ Ht2 E2 E3).
      match goal with |- Q _ ?u => match type of Hok with Q _ ?v => assert (u = v) as -> end end; [|done].
      unfold held, retab, lockd. simpl. rewrite ?E2, ?E3, ?length_insert, !insert_insert_eq. done.
Qed.
(** [flock], [fdup], [funlock] and the slot. *)
Lemma wp_dup_put s c t fd2 f (Q : Z -> fsys -> Prop) : tabled c t s -> 0 <= fd2 < Z.of_nat (length t) -> f <> 0 -> f ∈ t ->
  (forall x, fs_files s !! f = Some x -> Q fd2 (retab (fs_fctx s) c (<[Z.to_nat fd2 := f]> t) (upd f (set_f_refcnt (f_refcnt x + 1) x) s))) ->
  wp (do! flock f in
      let! err := fdup f in
      if negb (err =? 0) then do! funlock f in do! fctx_unlock (fs_fctx s) in ret! err else
      do! funlock f in
      do! tab_put (fs_fctx s) fd2 f in
      do! fctx_unlock (fs_fctx s) in
      ret! fd2) Q (held c s).
Proof.
  intros Ht Hfd Hne [i Hi]%list_elem_of_lookup Hok. destruct (tabled_file _ _ _ _ _ Ht Hi Hne) as (x & d & Hx & [_ Ha Hl _ _ _ _ _ _]).
  pose proof Ht as [Hv Hc Hf]. specialize (Hok x Hx).
  apply wp_bind. eapply (wp_olock (T:=file_t)); [exact Hx|done|done|]. apply wp_bind. unfold fdup. rewrite null_ok by done. apply wp_bind.
  eapply (wp_oassert_locked (T:=file_t)); [simpl; apply lookup_insert_eq|done|done|]. apply wp_bind. eapply (wp_omod (T:=file_t)); [simpl; apply lookup_insert_eq|].
  apply wp_ret. simpl. apply wp_bind. eapply (wp_ounlock (T:=file_t) _ _ _ (f_lock x)); [simpl; apply lookup_insert_eq|done|done|done|].
  apply wp_bind. eapply (wp_tab_put _ (lockd (fs_who s) c) t); [simpl; apply lookup_insert_eq|done|by apply (tabled_len _ _ _ Ht)|done|].
  destruct (fi_ctxs _ Hv _ _ Hc) as [Hac Hlc]. apply wp_bind.
  eapply (wp_ounlock (T:=file_ctx_t) _ _ _ (fc_lock c)); [simpl; apply lookup_insert_eq|done|done|done|]. apply wp_ret.
  match goal with |- Q _ ?u => match type of Hok with Q _ ?v => assert (u = v) as -> end end; [|done].
  unfold held, retab, upd, lockd; simpl. rewrite !insert_insert_eq. by destruct x, c.
Qed.
(** What the caller of [file_dup] has to see to: its first test reads the table at [fd1]; nothing closes
    the file of descriptor 0. *)
Definition dup_ok (fd1 fd2 : Z) (s : fsys) : Prop := forall c t, fs_ctxs s !! fs_fctx s = Some c -> fc_files c = Some t ->
  0 <= fd1 < Z.of_nat (length t) /\ (fd2 = 0 -> fd1 = 0 \/ t !! 0%nat = Some 0).
(** Both descriptors refer to one file, the other descriptors are as they were. *)
Record shared (fd1 fd2 : Z) (t t' : list Z) : Prop := {
  sh_both : exists f, f <> 0 /\ t !! Z.to_nat fd1 = Some f /\ t' !! Z.to_nat fd1 = Some f /\ t' !! Z.to_nat fd2 = Some f;
  sh_rest : forall i f, i <> Z.to_nat fd2 -> t !! i = Some f -> t' !! i = Some f
}.
Lemma wp_dup_finish s0 s c t t0 fd1 fd2 f (Q : Z -> fsys -> Prop) :
  tabled c t s -> 0 <= fd1 -> 0 <= fd2 < Z.of_nat (length t) -> fd1 <> fd2 -> t !! Z.to_nat fd2 = Some 0 -> f <> 0 -> t0 !! Z.to_nat fd1 = Some f ->
  (forall i g, i <> Z.to_nat fd2 -> t0 !! i = Some g -> t !! i = Some g) -> fs_fctx s = fs_fctx s0 ->
  (forall c' t' s', tabled c' t' s' -> fs_fctx s' = fs_fctx s0 -> shared fd1 fd2 t0 t' -> Q fd2 s') ->
  wp (do! flock f in
      let! err := fdup f in
      if negb (err =? 0) then do! funlock f in do! fctx_unlock (fs_fctx s0) in ret! err else
      do! funlock f in
      do! tab_put (fs_fctx s0) fd2 f in
      do! fctx_unlock (fs_fctx s0) in
      ret! fd2) Q (held c s).
Proof.
  intros Ht H1 H2 Hne Hz Hf Hf1 Hrest Ecx Hok. rewrite <- Ecx in Hok |- *. assert (Z.to_nat fd1 <> Z.to_nat fd2) as Hn by lia.
  pose proof (Hrest _ _ Hn Hf1) as Hf1'. eapply (wp_dup_put _ _ t); [done|done|done|by eapply list_elem_of_lookup_2|].
  intros x Hx. pose proof Ht as [Hi Hc Htf]. eapply Hok; [split; [by eapply inv_dup|simpl; apply lookup_insert_eq|done]|done|]. split.
  - exists f. split_and!; [done|done|by rewrite list_lookup_insert_ne|]. apply list_lookup_insert_eq. lia.
  - intros i g Hi' Hg. rewrite list_lookup_insert_ne by done. by apply Hrest.
Qed.
Lemma wp_file_dup s fd1 fd2 (Q : Z -> fsys -> Prop) : files_inv s -> dup_ok fd1 fd2 s ->
  Q (- EBADFD) s -> (fd1 = fd2 -> Q fd1 s) -> (forall n, Q (- ENOMEM) (retick n s)) ->
  (forall c t fd c' t' s', tabled c t s -> (0 <= fd2 -> fd = fd2) -> (fd2 < 0 -> fd = Z.of_nat (length t)) ->
     tabled c' t' s' -> fs_fctx s' = fs_fctx s -> shared fd1 fd t t' -> Q fd s') -> wp (file_dup fd1 fd2) Q s.
Proof.
  intros Hi Hg Hbad Hself Hno Hok. destruct (fi_cur _ Hi) as [c Hc]. destruct (fi_ctxs _ Hi _ _ Hc) as [Ha Hl]. unfold file_dup, cur_fctx.
  apply wp_bind, wp_bind, wp_get. apply wp_ret. apply wp_bind. eapply (wp_olock (T:=file_ctx_t)); [exact Hc|done|done|]. fold (held c s).
  apply wp_bind. eapply (wp_oload (T:=file_ctx_t)); [simpl; apply lookup_insert_eq|]. simpl. destruct (fc_files c) as [t|] eqn:Ht; [|by apply wp_release].
  destruct (Hg c t Hc Ht) as [Hfd1 Hg0]. assert (tabled c t s) as Htb by done. pose proof (tabled_len _ _ _ Htb) as Hn.
  destruct (lookup_lt_is_Some_2 t (Z.to_nat fd1)) as [f Hf]; [lia|]. apply wp_bind. eapply (wp_tab_get _ t); [done|done|exact Hf|].
  destruct (decide (f = 0)) as [->|Hne]; [by apply wp_release|]. destruct (tabled_file _ _ _ _ _ Htb Hf Hne) as (x & d & _ & [_ Haf _ _ _ _ _ _ _]).
  rewrite null_ok by done. destruct (Z.ltb_spec fd1 0); [lia|]. destruct (Z.leb_spec (fc_nfile c) fd1); [lia|]. simpl.
  set (fd := if fd2 <? 0 then fc_nfile c else fd2). assert (fd2 < 0 /\ fd = Z.of_nat (length t) \/ 0 <= fd2 /\ fd = fd2) as Hfd.
  { unfold fd. destruct (Z.ltb_spec fd2 0); [left|right]; split; lia. }
  destruct (Z.eqb_spec fd1 fd) as [E|E]; [apply wp_release; [done..|]; apply Hself; lia|].
  assert (forall c' t' s', tabled c' t' s' -> fs_fctx s' = fs_fctx s -> shared fd1 fd t t' -> Q fd s') as Hfin.
  { intros c' t' s' Ht' Ec Hs. apply (Hok c t fd c' t' s'); try done; lia. }
  apply wp_bind. destruct (Z.ltb_spec 0 fd); simpl.
  - apply wp_bind. eapply wp_dup_room; [done|lia|intros n; simpl|].
    { apply (wp_release (retick n s)); [by apply inv_retick|done|]. simpl. by apply wp_ret. }
    intros n c1 t1 Ht1 ->. simpl. destruct (zeros_spec t (Z.max (Z.of_nat (length t)) (fd + 1))) as (Z1 & _ & Z3 & _); [lia|].
    eapply (wp_dup_close _ _ _ _ _ Ht1); [lia|]. intros c2 s2 Ht2 E2 _. simpl.
    eapply (wp_dup_finish s _ _ _ t); try done; try lia.
    + rewrite length_insert. lia.
    + apply list_lookup_insert_eq. lia.
    + intros i g Hi' Hg'. rewrite list_lookup_insert_ne by done. by apply Z3.
  - apply wp_ret. simpl. assert (fd = 0 /\ fd2 = 0) as [E0 E2] by lia. destruct (Hg0 E2) as [?|Hz]; [lia|].
    eapply (wp_dup_finish s _ _ t t); try done; try lia. rewrite E0. done.
Qed.

(** ** Operations on the file behind a descriptor *)
Definition file_body (g : Z -> FM Z) : Prop := forall f x lk s, ready f x lk s -> wp (g f) (fun _ s' => quiet f s s') s.
Lemma fb_inode (g : Z -> Z -> FM Z) : (forall f ip, body_ok f ip (g f ip)) -> file_body (fun f => with_inode f (g f)).
Proof. intros Hg f x lk s Hr. by eapply wp_with_inode; [exact Hr|intros ip; apply Hg|]. Qed.
Lemma body_when f ip (b : bool) (g : file_t -> Z) c : body_ok f ip c -> body_ok f ip (do! M_when b (omod f (fun x => set_f_off (g x) x)) in c).
Proof.
  intros Hc. destruct b; simpl; [by apply body_off|]. intros s Hs. apply wp_bind, wp_ret. by apply Hc.
Qed.
Lemma fb_flseek off whence : file_body (fun f => flseek f off whence).
Proof.
  apply fb_inode. intros f ip. apply body_inode. intros i. destruct (whence =? SEEK_SET), (whence =? SEEK_CUR), (whence =? SEEK_END);
    first [ apply (body_off f ip (fun _ => off)) | apply (body_off f ip (fun x => u64 (f_off x + off))) | apply (body_off f ip (fun _ => u64 (i_size i + off)))
          | intros s Hs; apply wp_bind, wp_ret; revert s Hs ]; apply body_file; intros; apply body_ret.
Qed.
Lemma fb_fread buf size : file_body (fun f => fread f buf size).
Proof. apply fb_inode. intros f ip. apply body_file. intros x. apply body_bind; [apply body_read|]. intros v. apply body_when, body_ret. Qed.
Lemma fb_feof : file_body feof.
Proof. apply (fb_inode (fun f ip => do! iassert_locked ip in _)). intros f ip. auto with body. Qed.
Lemma fb_fcntl cmd argp : file_body (fun f => ffcntl f cmd argp).
Proof. apply fb_inode. intros f ip. unfold ifcntl. auto with body. Qed.
Lemma fb_fioctl req argp : file_body (fun f => fioctl f req argp).
Proof. apply fb_inode. intros f ip. unfold iioctl. auto with body. Qed.
Lemma fb_freaddir off buf count : file_body (fun f => freaddir f off buf count).
Proof. apply fb_inode. intros f ip. unfold ireaddir. auto with body. Qed.
Lemma fb_stat buf : file_body (fun f => file_stat f buf).
Proof.
  apply fb_inode. intros f ip s Hs. apply wp_bind. unfold istat. destruct (is_null ip || negb buf); [by apply wp_ret; apply wp_ret|].
  eapply wp_bind, wp_iassert; [exact Hs|]. destruct Hs as [_ (i & lk & Hi & _)]. apply wp_bind. eapply wp_oload; [exact Hi|]. by apply wp_ret; apply wp_ret.
Qed.
Lemma fb_ret g v : file_body g -> file_body (fun f => let! _ := g f in ret! v).
Proof. intros Hg f x lk s Hr. apply wp_bind. eapply wp_mono; [by eapply Hg|]. intros. by apply wp_ret. Qed.

(** ** Copying the table to a child *)
Definition bump (x : file_t) : file_t := set_f_refcnt (f_refcnt x + 1) x.
Definition bumps (l : list Z) (m : gmap Z file_t) : gmap Z file_t := foldl (fun m f => alter bump f m) m l.
Lemma bumps_lookup l : forall m f, bumps l m !! f = (fun x => set_f_refcnt (f_refcnt x + occ f l) x) <$> m !! f.
Proof.
  induction l as [|g l IH]; intros m f; simpl.
  - destruct (m !! f) as [[]|]; simpl; [|done]. by rewrite Z.add_0_r.
  - unfold bumps in *. simpl. rewrite IH. destruct (Z.eqb_spec f g) as [->|].
    + rewrite lookup_alter_eq. destruct (m !! g) as [x|]; simpl; [|done]. unfold bump, set_f_refcnt. simpl. f_equal. f_equal. lia.
    + by rewrite lookup_alter_ne by done.
Qed.
Lemma alter_insert_same (m : gmap Z file_t) f x : m !! f = Some x -> alter bump f m = <[f := bump x]> m.
Proof.
  intros Hx. apply map_eq. intros p. destruct (decide (p = f)) as [->|]; [by rewrite lookup_alter_eq, lookup_insert_eq, Hx|by rewrite lookup_alter_ne, lookup_insert_ne].
Qed.
Lemma slot_shift (t0 t : list Z) i f : t !! i = Some f -> length t0 = length t -> take (S i) (<[i := f]> t0) ++ drop (S i) t = take i t0 ++ drop i t.
Proof.
  intros Hi Hl. pose proof (lookup_lt_Some _ _ _ Hi). rewrite (drop_S t f i) by done.
  rewrite (take_S_r _ _ f) by (apply list_lookup_insert_eq; lia). rewrite take_insert_ge by lia. by rewrite <- app_assoc.
Qed.
(** What the loop needs of the files it counts. *)
Definition countable_files (t : list Z) (m : gmap Z file_t) : Prop := forall f, f ∈ t -> exists x, m !! f = Some x /\ addr_ok f /\ lk_free (f_lock x).
Lemma countable_bump t m f x : countable_files t m -> m !! f = Some x -> countable_files t (<[f := bump x]> m).
Proof.
  intros Hm Hx g Hg. destruct (Hm g Hg) as (y & Hy & Ha & Hl). destruct (decide (f = g)) as [->|].
  - assert (x = y) as -> by congruence. exists (bump y). by rewrite lookup_insert_eq.
  - exists y. by rewrite lookup_insert_ne.
Qed.
Lemma wp_copy_files dst src c t n : forall fd s cd t0 (Q : unit -> fsys -> Prop),
  fs_ctxs s !! src = Some c -> fc_files c = Some t -> fs_ctxs s !! dst = Some cd -> fc_files cd = Some t0 -> length t0 = length t ->
  fc_nfile cd = Z.of_nat (length t) -> src <> dst -> 0 <= fd -> fd + Z.of_nat n = Z.of_nat (length t) -> countable_files t (fs_files s) ->
  Q tt (retab dst cd (take (Z.to_nat fd) t0 ++ drop (Z.to_nat fd) t) (set_hp (bumps (drop (Z.to_nat fd) t) (fs_files s)) s)) ->
  wp (copy_files n fd dst src) Q s.
Proof.
  induction n as [|n IH]; intros fd s cd t0 Q Hc Ht Hd Ht0 Hlen Hn Hne Hfd Hsum Hm HQ; simpl.
  - apply wp_ret. rewrite drop_ge, app_nil_r, take_ge in HQ by lia. unfold retab in HQ. rewrite Hlen, <- Hn, <- Ht0 in HQ.
    match goal with |- Q _ ?u => match type of HQ with Q _ ?v => assert (u = v) as -> end end; [|done].
    assert (set_fc_table (fc_nfile cd) (fc_files cd) cd = cd) as -> by (by destruct cd). destruct s; unfold upd, bumps; simpl in *. by rewrite insert_id.
  - apply wp_bind. eapply (wp_oload (T:=file_ctx_t)); [exact Hc|]. destruct (lookup_lt_is_Some_2 t (Z.to_nat fd)) as [f Hf]; [lia|].
    apply wp_bind. eapply (wp_tab_get _ t); [done|lia|exact Hf|]. destruct (Hm f) as (x & Hx & Ha & Hl); [by eapply list_elem_of_lookup_2|].
    rewrite null_ok by done. simpl. apply wp_bind, wp_bind. eapply (wp_olock (T:=file_t)); [exact Hx|done|done|].
    apply wp_bind. eapply (wp_omod (T:=file_t)); [simpl; apply lookup_insert_eq|]. apply wp_bind.
    eapply (wp_tab_put _ cd t0); [done|done|by rewrite Hlen|lia|]. eapply (wp_ounlock (T:=file_t) _ _ _ (f_lock x)); [simpl; apply lookup_insert_eq|done|done|done|].
    assert (set_f_lock (f_lock x) (set_f_refcnt (f_refcnt x + 1) (set_f_lock (lk_held (fs_who s) (f_lock x)) x)) = bump x) as E by (by destruct x).
    eapply (IH _ _ _ (<[Z.to_nat fd := f]> t0)); simpl.
    + rewrite lookup_insert_ne by done. exact Hc.
    + done.
    + apply lookup_insert_eq.
    + done.
    + by rewrite length_insert.
    + by rewrite length_insert, Hlen.
    + done.
    + lia.
    + lia.
    + rewrite E, !insert_insert_eq. by apply countable_bump.
    + match goal with |- Q _ ?u => match type of HQ with Q _ ?v => assert (u = v) as -> end end; [|done].
      replace (Z.to_nat (fd + 1)) with (S (Z.to_nat fd)) by lia. rewrite slot_shift by done. rewrite (drop_S t f (Z.to_nat fd)) by done.
      unfold bumps. simpl. rewrite (alter_insert_same _ _ x) by done. rewrite E, !insert_insert_eq. destruct s; unfold retab, upd; simpl. by rewrite !insert_insert_eq.
Qed.
Lemma users_alter m f d : users (alter bump f m) d = users m d.
Proof.
  destruct (m !! f) as [x|] eqn:Hx.
  - rewrite (alter_insert_same _ _ _ Hx). unfold users. rewrite (occ_update _ _ _ _ _ _ Hx). simpl. lia.
  - f_equal. apply map_eq. intros p. destruct (decide (p = f)) as [->|]; [by rewrite lookup_alter_eq, Hx|by rewrite lookup_alter_ne].
Qed.
Lemma users_bumps l : forall m d, users (bumps l m) d = users m d.
Proof. induction l as [|f l IH]; intros m d; [done|]. unfold bumps in *. simpl. by rewrite IH, users_alter. Qed.
(** Directory entries with more references. *)
Definition more (ds ds' : gmap Z dentry_t) : Prop := forall p,
  match ds !! p, ds' !! p with Some d, Some d' => d_count d <= d_count d' /\ d_inode d' = d_inode d /\ d_spinlock d' = d_spinlock d | None, None => True | _, _ => False end.
#[local] Instance more_preorder : PreOrder more.
Proof.
  split.
  - intros h p. by destruct (h !! p).
  - intros h1 h2 h3 H1 H2 p. specialize (H1 p). specialize (H2 p). destruct (h1 !! p), (h2 !! p), (h3 !! p); try done.
    destruct H1 as (? & ? & ?), H2 as (? & ? & ?). split_and!; [lia|congruence..].
Qed.
Lemma more_count ds p d n : ds !! p = Some d -> d_count d <= n -> more ds (<[p := set_d_count n d]> ds).
Proof.
  intros Hd Hn q. destruct (decide (p = q)) as [<-|]; [by rewrite Hd, lookup_insert_eq|]. rewrite lookup_insert_ne by done. by destruct (ds !! q).
Qed.
Definition child_ctx (c cc : file_ctx_t) : file_ctx_t :=
  mkFctx (fc_cwd c) (fc_fmax cc) (fc_root c) (fc_nfile c) (if fc_nfile c =? 0 then None else Some (table c)) (fc_lock cc).
Definition forked (child : Z) (c cc : file_ctx_t) (ds : gmap Z dentry_t) (n : nat) (s : fsys) : fsys :=
  mkFsys (fs_who s) n (fs_fctx s) (fs_cred s) (bumps (table c) (fs_files s)) ds (fs_inodes s) (<[child := child_ctx c cc]> (fs_ctxs s)) (fs_creds s).
(** What [fork] has to see to: the table of the child is new and that of the parent has no empty slots. *)
Record fork_ok (child : Z) (c cc : file_ctx_t) (s : fsys) : Prop := {
  fk_child : child <> fs_fctx s; fk_parent : fs_ctxs s !! fs_fctx s = Some c; fk_ctx : fs_ctxs s !! child = Some cc; fk_new : fc_files cc = None; fk_full : 0 ∉ table c
}.
Lemma child_table s c cc : files_inv s -> fs_ctxs s !! fs_fctx s = Some c -> table (child_ctx c cc) = table c.
Proof.
  intros Hi Hc. destruct (fi_table _ Hi _ _ Hc) as (Hn & _). unfold child_ctx, table at 1. simpl. destruct (Z.eqb_spec (fc_nfile c) 0) as [E|]; [|done].
  destruct (table c); [done|]. simpl in Hn. lia.
Qed.
Lemma inv_fork s child c cc ds n : files_inv s -> fork_ok child c cc s -> more (fs_dents s) ds -> files_inv (forked child c cc ds n s).
Proof.
  intros Hi [Hne Hp Hc Hnew Hfull] Hm. pose proof (child_table _ _ cc Hi Hp) as Et.
  assert (forall f, refs (<[child := child_ctx c cc]> (fs_ctxs s)) f = refs (fs_ctxs s) f + occ f (table c)) as Hr.
  { intros f. unfold refs. rewrite (occ_update _ _ _ _ _ _ Hc), Et. unfold table at 2. rewrite Hnew. simpl. lia. }
  assert (forall d, is_Some (fs_dents s !! d) -> is_Some (ds !! d)) as Hds.
  { intros d [x Hx]. specialize (Hm d). rewrite Hx in Hm. destruct (ds !! d); [eauto|done]. }
  assert (forall f x, bumps (table c) (fs_files s) !! f = Some x -> exists y, fs_files s !! f = Some y /\ x = set_f_refcnt (f_refcnt y + occ f (table c)) y) as Hb.
  { intros f x. rewrite bumps_lookup. destruct (fs_files s !! f) as [y|]; [|done]. simpl. intros [= <-]. eauto. }
  split; simpl; try apply Hi.
  - intros f x (y & Hy & ->)%Hb. by apply (fi_files _ Hi _ _ Hy).
  - intros d x Hx. specialize (Hm d). rewrite Hx in Hm. destruct (fs_dents s !! d) as [y|] eqn:Hy; [|done]. simpl. destruct Hm as (_ & _ & ->). by apply (fi_dents _ Hi _ _ Hy).
  - destruct (fi_ctxs _ Hi _ _ Hc). by apply all_free_insert; [apply Hi| |].
  - by apply is_Some_insert, Hi.
  - intros p c' Hc'. destruct (decide (child = p)) as [<-|].
    + rewrite lookup_insert_eq in Hc'. injection Hc' as <-. rewrite Et. destruct (fi_table _ Hi _ _ Hp) as (H1 & H2 & H3 & H4). simpl. split_and!; [done| |by apply Hds|by apply Hds].
      destruct (Z.eqb_spec (fc_nfile c) 0); done.
    + rewrite lookup_insert_ne in Hc' by done. destruct (fi_table _ Hi _ _ Hc') as (H1 & H2 & H3 & H4). split_and!; auto.
  - intros f Hf%occ_pos Hf0. fold (refs (<[child := child_ctx c cc]> (fs_ctxs s)) f) in Hf. rewrite Hr in Hf.
    rewrite bumps_lookup. destruct (fi_slot _ Hi f) as [y ->]; [|done|simpl; eauto]. destruct (decide (0 < occ f (table c))) as [Hin%occ_pos|].
    + apply spread_elem. eauto.
    + apply occ_pos. unfold refs in Hf. lia.
  - intros f x (y & Hy & ->)%Hb. destruct (fi_file _ Hi _ _ Hy) as (H1 & H2 & H3 & H4). rewrite Hr. simpl. pose proof (occ_nonneg f (table c)).
    split_and!; [lia|lia|done|by apply Hds].
  - intros d x Hx. rewrite users_bumps. specialize (Hm d). rewrite Hx in Hm. destruct (fs_dents s !! d) as [y|] eqn:Hy; [|done].
    destruct Hm as (Hcnt & -> & _). destruct (fi_dent _ Hi _ _ Hy). split; [lia|done].
Qed.
Lemma wp_dget p d lk s (Q : Z -> fsys -> Prop) : fs_dents s !! p = Some d -> addr_ok p -> d_spinlock d = lk_held (fs_who s) lk -> 0 <= d_count d ->
  Q p (upd p (set_d_count (d_count d + 1) d) s) -> wp (dget p) Q s.
Proof.
  intros Hd Ha Hl Hc HQ. unfold dget, dopen. rewrite null_ok by done. apply wp_bind, wp_bind. eapply (wp_oassert_locked (T:=dentry_t)); [exact Hd|done|exact Hl|].
  apply wp_bind. eapply (wp_omod (T:=dentry_t)); [exact Hd|]. apply wp_bind. eapply wp_oload; [simpl; apply lookup_insert_eq|]. apply wp_ret.
  simpl. destruct (Z.ltb_spec 0 (d_count d + 1)); [|lia]. by apply wp_ret.
Qed.
Definition with_dirs (dst : Z) (c cd : file_ctx_t) (ds : gmap Z dentry_t) (s : fsys) : fsys :=
  upd dst (set_fc_dirs (fc_cwd c) (fc_root c) cd) (set_hp ds s).
Lemma wp_copy_dirs s dst c cd (K : FM Z) (Q : Z -> fsys -> Prop) dc dr :
  fs_dents s !! fc_cwd c = Some dc -> fs_dents s !! fc_root c = Some dr -> all_free (fs_dents s) -> 0 <= d_count dc -> 0 <= d_count dr -> fs_ctxs s !! dst = Some cd ->
  (forall ds, more (fs_dents s) ds -> wp K Q (with_dirs dst c cd ds s)) ->
  wp (let apart := negb (fc_cwd c =? fc_root c) in
      do! dlock (fc_cwd c) in
      do! M_when apart (dlock (fc_root c)) in
      let! cwd := dget (fc_cwd c) in
      do! omod dst (fun x => set_fc_dirs cwd (fc_root x) x) in
      if is_null cwd then do! M_when apart (dunlock (fc_root c)) in do! dunlock (fc_cwd c) in ret! (- EINVAL) else
      let! root := dget (fc_root c) in
      do! omod dst (fun x => set_fc_dirs (fc_cwd x) root x) in
      if is_null root then do! M_when apart (dunlock (fc_root c)) in do! dunlock (fc_cwd c) in ret! (- EINVAL) else
      do! M_when apart (dunlock (fc_root c)) in
      do! dunlock (fc_cwd c) in
      K) Q s.
Proof.
  intros Hc Hr Hf Hcc Hcr Hd HK. destruct (Hf _ _ Hc) as [Hac Hlc]. destruct (Hf _ _ Hr) as [Har Hlr]. cbv zeta.
  apply wp_bind. eapply (wp_olock (T:=dentry_t)); [exact Hc|done|done|]. destruct (Z.eqb_spec (fc_cwd c) (fc_root c)) as [E|E]; simpl.
  - apply wp_bind, wp_ret. apply wp_bind. eapply wp_dget; [simpl; apply lookup_insert_eq|done|done|done|].
    apply wp_bind. eapply (wp_omod (T:=file_ctx_t)); [exact Hd|]. rewrite null_ok by done. apply wp_bind. rewrite <- E.
    eapply wp_dget; [simpl; apply lookup_insert_eq|done|done|simpl; lia|]. apply wp_bind. eapply (wp_omod (T:=file_ctx_t)); [simpl; apply lookup_insert_eq|].
    rewrite null_ok by done. apply wp_bind, wp_ret. apply wp_bind.
    eapply (wp_ounlock (T:=dentry_t) _ _ _ (d_spinlock dc)); [simpl; apply lookup_insert_eq|done|done|done|]. simpl.
    specialize (HK _ (more_count _ _ _ (d_count dc + 1 + 1) Hc ltac:(lia))).
    match goal with |- wp K Q ?u => match type of HK with wp K Q ?v => assert (u = v) as -> end end; [|done].
    destruct s; unfold with_dirs, upd, lockd; simpl. rewrite !insert_insert_eq, <- E. by destruct dc.
  - apply wp_bind. eapply (wp_olock (T:=dentry_t)); [simpl; rewrite lookup_insert_ne by done; exact Hr|done|done|].
    apply wp_bind. eapply wp_dget; [simpl; rewrite lookup_insert_ne by done; apply lookup_insert_eq|done|done|done|].
    apply wp_bind. eapply (wp_omod (T:=file_ctx_t)); [exact Hd|]. rewrite null_ok by done. apply wp_bind.
    eapply wp_dget; [simpl; rewrite lookup_insert_ne by done; apply lookup_insert_eq|done|done|done|]. apply wp_bind. eapply (wp_omod (T:=file_ctx_t)); [simpl; apply lookup_insert_eq|].
    rewrite null_ok by done. apply wp_bind. eapply (wp_ounlock (T:=dentry_t) _ _ _ (d_spinlock dr)); [simpl; apply lookup_insert_eq|done|done|done|].
    apply wp_bind. eapply (wp_ounlock (T:=dentry_t) _ _ _ (d_spinlock dc)).
    { simpl. rewrite !lookup_insert_ne by done. apply lookup_insert_eq. }
    1-3: done.
    specialize (HK (<[fc_root c := set_d_count (d_count dr + 1) dr]> (<[fc_cwd c := set_d_count (d_count dc + 1) dc]> (fs_dents s)))).
    match goal with |- wp K Q ?u => match type of HK with _ -> wp K Q ?v => assert (u = v) as -> end end.
    { destruct s; unfold with_dirs, upd, lockd; simpl. f_equal; [|by rewrite insert_insert_eq]. apply map_eq. intros p.
      destruct (decide (p = fc_cwd c)) as [->|]; [rewrite lookup_insert_eq, lookup_insert_ne, lookup_insert_eq by done; by destruct dc|].
      destruct (decide (p = fc_root c)) as [->|]; [rewrite !(lookup_insert_ne _ (fc_cwd c)) by done; rewrite !lookup_insert_eq; by destruct dr|].
      by rewrite !lookup_insert_ne by done. }
    apply HK. etrans; [apply (more_count _ _ _ (d_count dc + 1) Hc); lia|]. apply more_count; [by rewrite lookup_insert_ne|lia].
Qed.
(** The parent's table and the child's are locked around the copy. *)
Lemma wp_unlock_both s child cur c cc (v : Z) (Q : Z -> fsys -> Prop) w :
  fs_who s = w -> fs_ctxs s !! child = Some (lockd w cc) -> fs_ctxs s !! cur = Some (lockd w c) -> child <> cur -> addr_ok child -> addr_ok cur -> lk_free (fc_lock c) -> lk_free (fc_lock cc) ->
  Q v (upd cur c (upd child cc s)) -> wp (do! fctx_unlock child in do! fctx_unlock cur in ret! v) Q s.
Proof.
  intros Hw Hc Hp Hne Hac Hap Hlp Hlc HQ. apply wp_bind. eapply (wp_ounlock (T:=file_ctx_t) _ _ _ (fc_lock cc)); [exact Hc|done|by rewrite Hw|done|].
  apply wp_bind. eapply (wp_ounlock (T:=file_ctx_t) _ _ _ (fc_lock c)); [simpl; rewrite lookup_insert_ne by done; exact Hp|done|simpl; by rewrite Hw|done|].
  apply wp_ret. destruct c, cc. exact HQ.
Qed.
Lemma countable_table s c : files_inv s -> fs_ctxs s !! fs_fctx s = Some c -> 0 ∉ table c -> countable_files (table c) (fs_files s).
Proof.
  intros Hi Hc H0 f Hf. destruct (fi_slot _ Hi f) as [x Hx]; [apply spread_elem; eauto|intros ->; done|]. exists x. split; [done|]. by apply (fi_files _ Hi).
Qed.
Definition both (child : Z) (c cc : file_ctx_t) (s : fsys) : fsys := upd child (lockd (fs_who s) cc) (upd (fs_fctx s) (lockd (fs_who s) c) s).
(** The loop, and the two locks. *)
Lemma wp_copy_tail s child c cc n ds junk (Q : Z -> fsys -> Prop) : files_inv s -> fork_ok child c cc s -> Q 0 (forked child c cc ds n s) ->
  wp (do! omod child (set_fc_table (fc_nfile c) (if fc_nfile c =? 0 then None else Some (grown junk [] (fc_nfile c)))) in
      do! copy_files (Z.to_nat (fc_nfile c)) 0 child (fs_fctx s) in
      ret! 0) (fun v => wp (do! fctx_unlock child in do! fctx_unlock (fs_fctx s) in ret! v) Q) (with_dirs child c (lockd (fs_who s) cc) ds (retick n (both child c cc s))).
Proof.
  intros Hi [Hne Hp Hc Hnew Hfull] Hok. destruct (fi_ctxs _ Hi _ _ Hp) as [Hap Hlp]. destruct (fi_ctxs _ Hi _ _ Hc) as [Hac Hlc].
  destruct (fi_table _ Hi _ _ Hp) as (Hn & Hn0 & _). apply wp_bind. eapply (wp_omod (T:=file_ctx_t)); [simpl; apply lookup_insert_eq|]. apply wp_bind.
  assert (forall u, u = upd child (lockd (fs_who s) (child_ctx c cc)) (set_hp (bumps (table c) (fs_files s)) (set_hp ds (retick n (both child c cc s)))) ->
    wp (ret! 0) (fun v => wp (do! fctx_unlock child in do! fctx_unlock (fs_fctx s) in ret! v) Q) u) as Hend.
  { intros u ->. apply wp_ret. eapply (wp_unlock_both _ _ _ c (child_ctx c cc) 0 Q (fs_who s)); try done.
    - simpl. apply lookup_insert_eq.
    - simpl. rewrite !lookup_insert_ne by done. apply lookup_insert_eq.
    - match goal with |- Q _ ?t => match type of Hok with Q _ ?v => assert (t = v) as -> end end; [|done].
      unfold forked, both, retick, upd; simpl. f_equal. rewrite !insert_insert_eq. rewrite (insert_insert_ne _ (fs_fctx s) child) by done. rewrite insert_insert_eq.
      by rewrite (insert_id (fs_ctxs s)) by done. }
  destruct (Z.eqb_spec (fc_nfile c) 0) as [E|E].
  - assert (table c = []) as Et by (destruct (table c); [done|simpl in Hn; lia]). rewrite E. simpl. apply wp_ret, Hend. rewrite Et. unfold child_ctx. rewrite E.
    unfold with_dirs, both, retick, upd, lockd; simpl. by rewrite !insert_insert_eq.
  - assert (fc_files c = Some (table c)) as Ec by (unfold table in *; destruct (fc_files c); [done|destruct E; auto]).
    eapply (wp_copy_files _ _ (lockd (fs_who s) c) (table c)).
    + simpl. rewrite !lookup_insert_ne by done. apply lookup_insert_eq.
    + exact Ec.
    + simpl. apply lookup_insert_eq.
    + done.
    + unfold grown. simpl. rewrite length_map, length_seqZ. lia.
    + done.
    + done.
    + done.
    + lia.
    + exact (countable_table s c Hi Hp Hfull).
    + apply Hend. simpl. unfold child_ctx. destruct (Z.eqb_spec (fc_nfile c) 0); [done|].
      unfold retab, with_dirs, both, retick, upd, lockd; simpl. rewrite !insert_insert_eq. change (Z.to_nat 0) with 0%nat. rewrite (drop_0 (table c)), <- Hn. done.
Qed.
Lemma wp_copy_fctx s child c cc (Q : Z -> fsys -> Prop) : files_inv s -> fork_ok child c cc s ->
  (forall n, Q (- ENOMEM) (retick n s)) -> (forall n ds, more (fs_dents s) ds -> Q 0 (forked child c cc ds n s)) -> wp (copy_fctx child) Q s.
Proof.
  intros Hi Hk Hno Hok. pose proof Hk as [Hne Hp Hc Hnew Hfull]. destruct (fi_ctxs _ Hi _ _ Hp) as [Hap Hlp]. destruct (fi_ctxs _ Hi _ _ Hc) as [Hac Hlc].
  destruct (fi_table _ Hi _ _ Hp) as (_ & _ & [dc Hdc] & [dr Hdr]). destruct (fi_dents _ Hi _ _ Hdc) as [Hadc _]. destruct (fi_dents _ Hi _ _ Hdr) as [Hadr _].
  assert (forall d x, fs_dents s !! d = Some x -> 0 <= d_count x) as Hnn.
  { intros d x Hx. destruct (fi_dent _ Hi _ _ Hx). pose proof (occ_nonneg d (spread (fun x => [f_dentry x]) (fs_files s))). unfold users in *. lia. }
  unfold copy_fctx, cur_fctx. apply wp_bind, wp_bind, wp_get. apply wp_ret. apply wp_bind. eapply (wp_olock (T:=file_ctx_t)); [exact Hp|done|done|].
  apply wp_bind. eapply (wp_olock (T:=file_ctx_t)); [simpl; rewrite lookup_insert_ne by done; exact Hc|done|done|]. fold (both child c cc s). set (s1 := both child c cc s).
  assert (fs_ctxs s1 !! fs_fctx s = Some (lockd (fs_who s) c)) as Hp1 by (simpl; rewrite lookup_insert_ne by done; apply lookup_insert_eq).
  assert (fs_ctxs s1 !! child = Some (lockd (fs_who s) cc)) as Hc1 by (simpl; apply lookup_insert_eq).
  apply wp_bind. unfold file_copy. rewrite !null_ok by done. apply wp_bind. eapply (wp_oassert_locked (T:=file_ctx_t)); [exact Hc1|done|done|].
  apply wp_bind. eapply (wp_oassert_locked (T:=file_ctx_t)); [exact Hp1|done|done|]. apply wp_bind. eapply (wp_oload (T:=file_ctx_t)); [exact Hp1|].
  simpl. rewrite !null_ok by done. simpl. apply wp_bind, wp_get. apply wp_bind.
  pose proof (fun n ds Hds junk => wp_copy_tail s child c cc n ds junk Q Hi Hk (Hok n ds Hds)) as HK.
  assert (forall n, Q (- ENOMEM) (upd (fs_fctx s) c (upd child cc (retick n s1)))) as Hno'.
  { intros n. specialize (Hno n). match goal with |- Q _ ?t => match type of Hno with Q _ ?v => assert (t = v) as -> end end; [|done].
    unfold s1, both, retick, upd; simpl. f_equal. rewrite insert_insert_eq, (insert_insert_ne _ (fs_fctx s) child), insert_insert_eq by done.
    rewrite (insert_id (fs_ctxs s) (fs_fctx s)) by done. by rewrite insert_id. }
  destruct (fc_nfile c =? 0).
  - apply wp_ret. simpl. eapply (wp_copy_dirs s1 child c (lockd (fs_who s) cc) _ _ dc dr); try done; [apply Hi|by eapply Hnn|by eapply Hnn|].
    intros ds Hds. exact (HK (fs_tick s) ds Hds (fun _ => 0)).
  - apply wp_array_room. intros [|]; simpl; [|by apply wp_ret; eapply (wp_unlock_both _ _ _ c cc _ Q (fs_who s))].
    eapply (wp_copy_dirs (retick (S (fs_tick s)) s1) child c (lockd (fs_who s) cc) _ _ dc dr); try done; [apply Hi|by eapply Hnn|by eapply Hnn|].
    intros ds Hds. exact (HK (S (fs_tick s)) ds Hds _).
Qed.

(** ** Sequences of calls *)
Inductive fcall :=
  | COpen (dentry oflags : Z) | CClose (fd : Z) | CDup (fd : Z) | CDup2 (fd1 fd2 : Z) | CFork (child : Z) | CLseek (fd off whence : Z) | CRead (fd buf size : Z)
  | CSync (fd : Z) | CUnlink (fd : Z) | CGetattr (fd attr : Z) | CSetattr (fd attr : Z) | CTruncate (fd len : Z) | CFcntl (fd cmd argp : Z) | CIoctl (fd req argp : Z)
  | CReaddir (fd off buf count : Z) | CLinkat (fd oldname newname : Z) | CFchown (fd owner group : Z) | CFstat (fd : Z) (buf : bool).
Definition frun (k : fcall) : FM Z :=
  match k with
  | COpen d fl => open_entry d fl | CClose fd => close fd | CDup fd => dup fd | CDup2 fd1 fd2 => dup2 fd1 fd2 | CFork child => copy_fctx child
  | CLseek fd off wh => lseek fd off wh | CRead fd buf n => read fd buf n | CSync fd => sync fd | CUnlink fd => unlink fd | CGetattr fd a => getattr fd a
  | CSetattr fd a => setattr fd a | CTruncate fd n => truncate fd n | CFcntl fd cmd a => fcntl fd cmd a | CIoctl fd r a => ioctl fd r a
  | CReaddir fd off buf n => readdir fd off buf n | CLinkat fd a b => linkat fd a b | CFchown fd o g => fchown fd o g | CFstat fd b => fstat fd b
  end.
(** The entry that is opened exists, and the conditions of [dup_ok] and [fork_ok]. *)
Definition fallowed (k : fcall) (s : fsys) : Prop :=
  match k with
  | COpen d _ => is_Some (fs_dents s !! d) | CDup fd => dup_ok fd (-1) s | CDup2 fd1 fd2 => dup_ok fd1 fd2 s
  | CFork child => exists c cc, fork_ok child c cc s | _ => True
  end.
(** An [open] without memory leaves the entry locked. *)
Definition fanswered (k : fcall) (r : Z) : Prop := match k with COpen _ _ => r <> - ENOMEM | _ => True end.
Definition switch_to (p : Z) (s : fsys) : fsys :=
  mkFsys (fs_who s) (fs_tick s) p (fs_cred s) (fs_files s) (fs_dents s) (fs_inodes s) (fs_ctxs s) (fs_creds s).
(** Calls of any process, in any order. *)
Inductive fsteps (s0 : fsys) : fsys -> Prop :=
  | fsteps_none : fsteps s0 s0
  | fsteps_switch s p : fsteps s0 s -> is_Some (fs_ctxs s !! p) -> fsteps s0 (switch_to p s)
  | fsteps_call s k r s' : fsteps s0 s -> fallowed k s -> frun k s = Done r s' -> fanswered k r -> fsteps s0 s'.

Lemma with_file_inv s fd g : files_inv s -> file_body g -> wp (with_file fd g) (fun _ s' => files_inv s') s.
Proof. intros Hi Hg. apply wp_with_file; [done|exact Hg|done|]. intros f v s' _ Hq. by eapply inv_quiet. Qed.
Lemma frun_inv k s : files_inv s -> fallowed k s -> wp (frun k) (fun r s' => fanswered k r -> files_inv s') s.
Proof.
  intros Hi Hk.
  assert (forall fd g, file_body g -> wp (with_file fd g) (fun _ s' => True -> files_inv s') s) as Hw.
  { intros fd g Hg. eapply wp_mono; [by apply with_file_inv|]. auto. }
  assert (forall fd o, wp (with_file fd (fun f => with_inode f (fun ip => iplain ip o))) (fun _ s' => True -> files_inv s') s) as Hplain.
  { intros fd o. apply Hw, fb_inode. auto with body. }
  assert (forall fd1 fd2, dup_ok fd1 fd2 s -> wp (file_dup fd1 fd2) (fun _ s' => True -> files_inv s') s) as Hdup.
  { intros fd1 fd2 Hd. apply wp_file_dup; try done; [intros n _; by apply inv_retick|]. intros c t fd c' t' s' _ _ _ [Hi' _ _] _ _ _. exact Hi'. }
  destruct k; simpl in Hk |- *.
  - destruct Hk as [dd Hd]. destruct (fi_cur _ Hi) as [c Hc]. eapply wp_open_entry; [done|exact Hc|exact Hd|done|].
    intros n p Ha Hp _. by apply inv_open.
  - apply wp_close; [done|done|]. intros c t f x d Hc Ht Hfd Hf Hne Hcl _. by apply inv_close.
  - by apply Hdup.
  - by apply Hdup.
  - destruct Hk as (c & cc & Hf). eapply wp_copy_fctx; [done|exact Hf|intros n _; by apply inv_retick|]. intros n ds Hds _. by apply inv_fork.
  - apply Hw, fb_flseek.
  - apply Hw, fb_fread.
  - apply (Hplain fd Op_isync).
  - apply (Hplain fd Op_iunlink).
  - apply (Hplain fd (Op_igetattr attr)).
  - apply (Hplain fd (Op_isetattr attr)).
  - apply Hw, fb_inode. intros f ip. apply body_notdir.
  - apply Hw, fb_fcntl.
  - apply Hw, fb_ret, fb_fioctl.
  - apply Hw, fb_freaddir.
  - apply Hw, fb_inode. intros f ip. apply body_dir.
  - apply (Hplain fd (Op_ichown owner group)).
  - unfold fstat. destruct buf; simpl; [apply Hw, fb_stat|by apply wp_ret].
Qed.
Lemma fsteps_inv s0 s : files_inv s0 -> fsteps s0 s -> files_inv s.
Proof.
  intros H0 Hs. induction Hs as [|s p Hs IH Hp|s k r s' Hs IH Hk Hr Ha]; [done| |].
  - destruct IH. by split.
  - pose proof (frun_inv k s IH Hk) as Hw. unfold wp in Hw. rewrite Hr in Hw. by apply Hw.
Qed.


(** C14: [open] answers the lowest descriptor that is free: all below it are in use, it was free, and it refers to a
    new file at offset 0 with the flags asked for; the other descriptors keep their files. *)
Theorem open_takes_lowest_descriptor s c d oflags fd s' : files_inv s -> fs_ctxs s !! fs_fctx s = Some c -> is_Some (fs_dents s !! d) ->
  open_entry d oflags s = Done fd s' -> fd <> - ENOMEM ->
  exists c' p, fs_ctxs s' !! fs_fctx s = Some c' /\ table c' !! Z.to_nat fd = Some p /\ fs_files s !! p = None /\
    fs_files s' !! p = Some (mkFile 0 oflags 1 d 0 SPINLOCK_INIT) /\ (forall f, table c !! Z.to_nat fd = Some f -> f = 0) /\
    (forall i, (i < Z.to_nat fd)%nat -> exists f, table c !! i = Some f /\ f <> 0) /\
    (forall i f, i <> Z.to_nat fd -> table c !! i = Some f -> table c' !! i = Some f).
Proof.
  intros Hi Hc [dd Hd] Hrun Hne.
  assert (wp (open_entry d oflags) (fun r s' => r <> - ENOMEM -> exists n p, addr_ok p /\ fs_files s !! p = None /\
    r = (placed (default [0] (fc_files c)) p).1 /\ s' = retick n (opened_at d dd oflags c p s)) s) as Hw.
  { eapply wp_open_entry; [done|exact Hc|exact Hd|done|]. intros n p Ha Hp _. eauto 10. }
  unfold wp in Hw. rewrite Hrun in Hw. destruct (Hw Hne) as (n & p & Ha & Hp & -> & ->). clear Hw Hrun Hne.
  destruct (placed_spec c p) as (P1 & P2 & P3 & P4). set (t' := (placed _ _).2) in *.
  exists (set_fc_table (Z.of_nat (length t')) (Some t') c), p. split_and!; try done; simpl; apply lookup_insert_eq.
Qed.

(** ** Permissions and credentials

    The bits 2, 1 and 0 stand for reading, writing and executing; the owner's are those from bit 6 on, the
    group's from bit 3 on. *)
Definition wanted (oflags : Z) : list Z :=
  let acc := Z.land oflags O_ACCMODE in
  (if acc =? O_WRONLY then [] else [2]) ++ (if (acc =? O_WRONLY) || (acc =? O_RDWR) then [1] else []) ++ (if flag oflags O_EXCL then [0] else []).
Definition class_shift (i : inode_t) (c : cred_t) : Z := if i_uid i =? c_uid c then 6 else if i_gid i =? c_gid c then 3 else 0.
Definition permitted (i : inode_t) (c : cred_t) (oflags : Z) : bool :=
  (c_uid c =? 0) || forallb (fun b => Z.testbit (i_mode i) (class_shift i c + b)) (wanted oflags).
Lemma flag_bit x k : 0 <= k -> flag x (2 ^ k) = Z.testbit x k.
Proof.
  intros Hk. unfold flag. assert (Z.land x (2 ^ k) = if Z.testbit x k then 2 ^ k else 0) as ->.
  { apply Z.bits_inj'. intros n Hn. rewrite Z.land_spec, Z.pow2_bits_eqb by done. destruct (Z.eqb_spec k n) as [->|Hne].
    - rewrite andb_true_r. destruct (Z.testbit x n); [by rewrite Z.pow2_bits_true|by rewrite Z.bits_0].
    - rewrite andb_false_r. destruct (Z.testbit x k); [by rewrite Z.pow2_bits_false|by rewrite Z.bits_0]. }
  destruct (Z.testbit x k); [|done]. destruct (Z.eqb_spec (2 ^ k) 0); [|done]. pose proof (Z.pow_pos_nonneg 2 k). lia.
Qed.
Lemma perm_test_bit i c b : 0 <= b -> perm_test i c (2 ^ (6 + b)) (2 ^ (3 + b)) (2 ^ b) = Z.testbit (i_mode i) (class_shift i c + b).
Proof. intros Hb. unfold perm_test, class_shift. destruct (_ =? _); [by rewrite flag_bit by lia|]. destruct (_ =? _); by rewrite flag_bit by lia. Qed.
Lemma permitted_tests i c oflags : permitted i c oflags =
  let acc := Z.land oflags O_ACCMODE in
  (c_uid c =? 0) || negb (((acc =? O_RDONLY) || negb (acc =? O_WRONLY)) && negb (perm_test i c S_IRUSR S_IRGRP S_IROTH)
    || ((acc =? O_WRONLY) || (acc =? O_RDWR)) && negb (perm_test i c S_IWUSR S_IWGRP S_IWOTH)
    || flag oflags O_EXCL && negb (perm_test i c S_IXUSR S_IXGRP S_IXOTH)).
Proof.
  unfold permitted, wanted. cbv zeta. change S_IRUSR with (2 ^ (6 + 2)). change S_IRGRP with (2 ^ (3 + 2)). change S_IROTH with (2 ^ 2).
  change S_IWUSR with (2 ^ (6 + 1)). change S_IWGRP with (2 ^ (3 + 1)). change S_IWOTH with (2 ^ 1).
  change S_IXUSR with (2 ^ (6 + 0)). change S_IXGRP with (2 ^ (3 + 0)). change S_IXOTH with (2 ^ 0). rewrite !perm_test_bit by lia.
  set (acc := Z.land oflags O_ACCMODE). set (t2 := Z.testbit _ (_ + 2)). set (t1 := Z.testbit _ (_ + 1)). set (t0 := Z.testbit _ (_ + 0)).
  assert (acc = O_RDONLY \/ acc = O_WRONLY \/ acc <> O_RDONLY /\ acc <> O_WRONLY) as [E|[E|[E1 E2]]] by (destruct (Z.eq_dec acc O_RDONLY), (Z.eq_dec acc O_WRONLY); auto).
  - rewrite E. simpl. destruct (flag oflags O_EXCL); simpl; fold t2 t0; destruct (c_uid c =? 0), t2, t0; done.
  - rewrite E. simpl. destruct (flag oflags O_EXCL); simpl; fold t1 t0; destruct (c_uid c =? 0), t1, t0; done.
  - apply Z.eqb_neq in E1, E2. rewrite E1, E2. simpl. destruct (acc =? O_RDWR), (flag oflags O_EXCL); simpl; fold t2 t1 t0; destruct (c_uid c =? 0), t2, t1, t0; done.
Qed.
(** C29: The test of permissions with its jumps answers what the bits of the mode say for the class of the user: the superuser may do all, others
    need every bit of what the flags ask for, and a refusal is EACCES.  The credentials are unlocked in the end. *)
Theorem perm_check_is_reference s ip i lk cred c oflags :
  fs_inodes s !! ip = Some i -> addr_ok ip -> i_lock i = lk_held (fs_who s) lk -> fs_creds s !! cred = Some c -> addr_ok cred -> lk_free (c_lock c) ->
  icheck_perm ip cred oflags s = Done (if permitted i c oflags then 0 else - EACCES) s.
Proof.
  intros Hi Hai Hli Hc Hac Hlc. assert (wp (icheck_perm ip cred oflags) (fun r s' => r = (if permitted i c oflags then 0 else - EACCES) /\ s' = s) s) as Hw.
  2: { unfold wp in Hw. destruct (icheck_perm ip cred oflags s); [|done..]. by destruct Hw as [-> ->]. }
  unfold icheck_perm. rewrite !null_ok by done. apply wp_bind. eapply (wp_oassert_locked (T:=inode_t)); [exact Hi|done|exact Hli|].
  apply wp_bind. eapply (wp_olock (T:=cred_t)); [exact Hc|done|done|]. apply wp_bind. eapply (wp_oload (T:=cred_t)); [simpl; apply lookup_insert_eq|].
  apply wp_bind. eapply (wp_oload (T:=inode_t)); [exact Hi|]. rewrite permitted_tests. cbv zeta. simpl.
  assert (forall v (Q : Z -> fsys -> Prop), Q v s -> wp (do! cred_unlock cred in ret! v) Q (upd cred (lockd (fs_who s) c) s)) as Hun.
  { intros v Q HQ. apply wp_bind. eapply (wp_ounlock (T:=cred_t) _ _ _ (c_lock c)); [simpl; apply lookup_insert_eq|done|done|done|]. apply wp_ret.
    match goal with |- Q _ ?t => assert (t = s) as -> by fs_same end. done. }
  change (perm_test i (set_c_lock _ c)) with (perm_test i c).
  repeat (match goal with |- wp (if ?b then _ else _) _ _ => destruct b eqn:? end; [apply Hun; simpl; rewrite ?orb_true_r; by split|]). apply Hun. by split.
Qed.

(** The calls on the credentials of the current thread. *)
Inductive ccall := CGetids | CSetuid (uid : Z) | CSetgid (gid : Z) | CSeteuid (euid : Z) | CSetegid (egid : Z) | CUmask (cmask : Z).
Definition crun (k : ccall) : FM Z :=
  match k with
  | CGetids => let! _ := getuid in let! _ := geteuid in let! _ := getgid in getegid
  | CSetuid u => setuid u | CSetgid g => setgid g | CSeteuid u => seteuid u | CSetegid g => setegid g | CUmask m => umask m
  end.
Fixpoint cruns (l : list ccall) : FM unit := match l with [] => ret! tt | k :: l => let! _ := crun k in cruns l end.
(** Ids other than 0 are kept, saved ids in any case. *)
Record kept (c c' : cred_t) : Prop := {
  kp_uid : c_uid c <> 0 -> c_uid c' = c_uid c; kp_euid : c_euid c <> 0 -> c_euid c' = c_euid c; kp_suid : c_suid c' = c_suid c;
  kp_gid : c_gid c <> 0 -> c_gid c' = c_gid c; kp_egid : c_egid c <> 0 -> c_egid c' = c_egid c; kp_sgid : c_sgid c' = c_sgid c; kp_lock : c_lock c' = c_lock c
}.
#[local] Instance kept_preorder : PreOrder kept.
Proof. split; [done|]. intros a b c [] []. split; intros; try congruence; rewrite <- ?kp_uid0, <- ?kp_euid0, <- ?kp_gid0, <- ?kp_egid0 in * by done; auto. Qed.
Definition recred (c : cred_t) (s : fsys) : fsys := upd (fs_cred s) c s.
Lemma wp_with_cred {A} (g : cred_t -> A * cred_t) s c (Q : A -> fsys -> Prop) : fs_creds s !! fs_cred s = Some c -> addr_ok (fs_cred s) -> lk_free (c_lock c) ->
  (forall x lk, g (set_c_lock lk x) = ((g x).1, set_c_lock lk (g x).2)) -> c_lock (g c).2 = c_lock c ->
  Q (g c).1 (recred (g c).2 s) -> wp (with_cred g) Q s.
Proof.
  intros Hc Ha Hl Hg Hk HQ. unfold with_cred, cur_cred. apply wp_bind, wp_bind, wp_get. apply wp_ret. apply wp_bind.
  eapply (wp_olock (T:=cred_t)); [exact Hc|done|done|]. apply wp_bind. eapply (wp_oload (T:=cred_t)); [simpl; apply lookup_insert_eq|].
  apply wp_bind. eapply (wp_ostore (T:=cred_t)); [simpl; apply lookup_insert_eq|]. change (lockd (fs_who s) c) with (set_c_lock (lk_held (fs_who s) (c_lock c)) c). rewrite Hg. simpl.
  apply wp_bind. eapply (wp_ounlock (T:=cred_t) _ _ _ (c_lock c)); [simpl; apply lookup_insert_eq|done|done|done|]. apply wp_ret.
  match goal with |- Q _ ?t => assert (t = recred (g c).2 s) as -> end; [|done]. unfold recred, upd; simpl. rewrite !insert_insert_eq, <- Hk. by destruct (g c).2.
Qed.
Lemma crun_keeps k s c : fs_creds s !! fs_cred s = Some c -> addr_ok (fs_cred s) -> lk_free (c_lock c) ->
  wp (crun k) (fun _ s' => exists c', fs_creds s' !! fs_cred s' = Some c' /\ fs_cred s' = fs_cred s /\ kept c c') s.
Proof.
  intros Hc Ha Hl.
  assert (forall (g : cred_t -> Z * cred_t) (Q : Z -> fsys -> Prop), (forall x lk, g (set_c_lock lk x) = ((g x).1, set_c_lock lk (g x).2)) -> kept c (g c).2 ->
    Q (g c).1 (recred (g c).2 s) -> wp (with_cred g) Q s) as Hset by (intros g Q Hg Hk; by apply wp_with_cred, Hk).
  assert (forall c', kept c c' -> exists c0, fs_creds (recred c' s) !! fs_cred (recred c' s) = Some c0 /\ fs_cred (recred c' s) = fs_cred s /\ kept c c0) as Hfin.
  { intros c' Hk. exists c'. split_and!; [simpl; apply lookup_insert_eq|done|done]. }
  assert (recred c s = s) as Es by (by apply (upd_same (T:=cred_t))).
  assert (forall (b : bool) (c1 : cred_t), (b = false -> kept c c1) -> kept c ((if b then (- EPERM, c) else (0, c1)) : Z * cred_t).2) as Hif by (intros [|] ? H; simpl; [done|auto]).
  destruct k; simpl.
  1: do 3 (apply wp_bind, Hset; [done|done|]; simpl; rewrite Es); apply Hset; [done|done|]; by apply Hfin.
  all: apply Hset; [intros [] lk; simpl; try destruct (_ && _); done| |apply Hfin]; first [apply Hif; intros E | idtac]; split; simpl; try done; intros Hn;
    apply andb_false_iff in E as [E%negb_false_iff%Z.eqb_eq|E%negb_false_iff%Z.eqb_eq]; congruence.
Qed.
(** C30: Privileges that were given up are not regained: whatever sequence of calls a thread makes, a user or group id that is
    not 0 stays what it is, and the calls never fail to return. *)
Theorem dropped_ids_stay l : forall s c, fs_creds s !! fs_cred s = Some c -> addr_ok (fs_cred s) -> lk_free (c_lock c) ->
  exists s' c', cruns l s = Done tt s' /\ fs_creds s' !! fs_cred s' = Some c' /\ kept c c'.
Proof.
  induction l as [|k l IH]; intros s c Hc Ha Hl; simpl; [by eexists s, c|].
  destruct (proj1 (wp_done _ _ _) (crun_keeps k s c Hc Ha Hl)) as (r & s1 & Hr & c1 & Hc1 & E1 & Hk1).
  destruct (IH s1 c1) as (s2 & c2 & Hr2 & Hc2 & Hk2); [done|by rewrite E1|by rewrite (kp_lock _ _ Hk1)|].
  exists s2, c2. unfold M_bind. rewrite Hr. split_and!; [done|done|]. by etrans.
Qed.

(** [dup2(fd, 0)] does not close what descriptor 0 referred to: the old file keeps its count, which is then one more than the
    number of its descriptors, so it is never freed. *)
Theorem dup2_zero_leaks s c t fd f old x : files_inv s -> fs_ctxs s !! fs_fctx s = Some c -> fc_files c = Some t -> 0 < fd < Z.of_nat (length t) ->
  t !! Z.to_nat fd = Some f -> f <> 0 -> t !! 0%nat = Some old -> old <> 0 -> old <> f -> fs_files s !! old = Some x ->
  exists s', dup2 fd 0 s = Done 0 s' /\ fs_files s' !! old = Some x /\ refs (fs_ctxs s') old = f_refcnt x - 1.
Proof.
  intros Hi Hc Ht Hfd Hf Hne Hold Hne0 Hno Hx. assert (tabled c t s) as Htb by done. pose proof (tabled_len _ _ _ Htb) as Hn.
  enough (wp (dup2 fd 0) (fun r s' => r = 0 /\ fs_files s' !! old = Some x /\ refs (fs_ctxs s') old = f_refcnt x - 1) s) as (r & s' & Hr & -> & H)%wp_done by eauto.
  destruct (fi_ctxs _ Hi _ _ Hc) as [Ha Hl]. unfold dup2, file_dup, cur_fctx.
  apply wp_bind, wp_bind, wp_get. apply wp_ret. apply wp_bind. eapply (wp_olock (T:=file_ctx_t)); [exact Hc|done|done|]. fold (held c s).
  apply wp_bind. eapply (wp_oload (T:=file_ctx_t)); [simpl; apply lookup_insert_eq|]. simpl. rewrite Ht. apply wp_bind. eapply (wp_tab_get _ t); [done|lia|exact Hf|].
  destruct (tabled_file _ _ _ _ _ Htb Hf Hne) as (y & d & _ & [_ Haf _ _ _ _ _ _ _]). rewrite null_ok by done.
  destruct (Z.ltb_spec fd 0); [lia|]. destruct (Z.leb_spec (fc_nfile c) fd); [lia|]. simpl. destruct (Z.eqb_spec fd 0); [lia|]. apply wp_bind, wp_ret. simpl.
  eapply (wp_dup_put _ _ t); [done|lia|done|by eapply list_elem_of_lookup_2|]. intros z _. split_and!; [done| |].
  - simpl. by rewrite lookup_insert_ne.
  - change (fs_ctxs _) with (<[fs_fctx s := set_fc_table (Z.of_nat (length (<[0%nat := f]> t))) (Some (<[0%nat := f]> t)) c]> (fs_ctxs s)).
    rewrite (refs_retab _ _ _ _ _ Hc), (occ_insert old t 0 old f Hold). unfold table. rewrite Ht. simpl.
    destruct (fi_file _ Hi _ _ Hx) as (-> & _). rewrite Z.eqb_refl. destruct (Z.eqb_spec old f); [done|lia].
Qed.

(** Partial correctness: what holds of the answer, if there is one. *)
Definition may {A} (c : FM A) (Q : A -> fsys -> Prop) (s : fsys) : Prop := forall a s', c s = Done a s' -> Q a s'.
Lemma may_bind {A B} (c : FM A) (k : A -> FM B) Q s : may c (fun a => may (k a) Q) s -> may (M_bind c k) Q s.
Proof. intros H b s'. unfold M_bind. destruct (c s) as [a s1| | |] eqn:E; try done. apply (H a s1 E). Qed.
Lemma may_any {A} (c : FM A) (Q : A -> fsys -> Prop) s : (forall a s', Q a s') -> may c Q s.
Proof. intros H a s' _. apply H. Qed.
Lemma nonblock_negative fuel f ip buf size s : may (fwrite_nonblock fuel f ip buf size) (fun r _ => r < 0) s.
Proof.
  revert s. induction fuel as [|fuel IH]; intros s; simpl; [done|]. apply may_bind, may_any. intros x s1. apply may_bind, may_any. intros _ s2.
  apply may_bind, may_any. intros i s3. destruct (_ <? i_size i); [|by intros r s' [= <- _]]. apply may_bind, may_any. intros v s4.
  destruct (Z.leb_spec 0 v); [|by intros r s' [= <- _]]. apply may_bind, may_any. intros _ s5. apply IH.
Qed.
(** The files are not touched by operations on other objects. *)
Definition same_files {A} (c : FM A) : Prop := forall s, may c (fun _ s' => fs_files s' = fs_files s) s.
Section Other.
Context {T : Type} `{HT : FsHeap T} (Hother : forall h s, fs_files (set_hp h s) = fs_files s).
Lemma same_oload p : same_files (oload (T:=T) p).
Proof. intros s a s'. unfold oload. destruct (hp s !! p); [by intros [= _ <-]|done]. Qed.
Lemma same_ostore p (x : T) : same_files (ostore p x).
Proof using Hother. intros s a s'. unfold ostore. destruct (hp s !! p); [intros [= _ <-]; apply Hother|done]. Qed.
Lemma same_bind {A B} (c : FM A) (k : A -> FM B) : same_files c -> (forall a, same_files (k a)) -> same_files (M_bind c k).
Proof. intros Hc Hk s. apply may_bind. intros a s1 E b s2 E2. rewrite (Hk a s1 b s2 E2). by apply (Hc s a s1 E). Qed.
Lemma same_assert b : same_files (M_assert b).
Proof. intros s a s'. destruct b; [by intros [= _ <-]|done]. Qed.
Lemma same_olock p : same_files (olock (T:=T) p).
Proof using Hother.
  apply same_bind; [apply same_assert|]. intros _. apply same_bind; [apply same_oload|]. intros x s a s'. destruct (lock_acquire _ _); try done. apply (same_ostore p _ s).
Qed.
Lemma same_ounlock p : same_files (ounlock (T:=T) p).
Proof using Hother.
  apply same_bind; [apply same_assert|]. intros _. apply same_bind; [apply same_oload|]. intros x s a s'. destruct (lock_release _ _); try done. apply (same_ostore p _ s).
Qed.
Lemma same_assert_locked p : same_files (oassert_locked (T:=T) p).
Proof.
  apply same_bind; [|intros b; apply same_assert]. apply same_bind; [apply same_assert|]. intros _. apply same_bind; [apply same_oload|]. by intros x s a s' [= _ <-].
Qed.
Lemma same_omod p (g : T -> T) : same_files (omod p g).
Proof using Hother. apply same_bind; [apply same_oload|]. intros x. apply same_ostore. Qed.
End Other.
Lemma may_same {A B} (c : FM A) (k : A -> FM B) Q s : same_files c -> (forall a s1, fs_files s1 = fs_files s -> may (k a) Q s1) -> may (M_bind c k) Q s.
Proof. intros Hc Hk. apply may_bind. intros a s1 E. apply Hk. by apply (Hc s a s1 E). Qed.
Lemma same_ret {A} (a : A) : same_files (ret! a).
Proof. by intros s b s' [= _ <-]. Qed.
(** What [with_inode] answers comes from its body, run with the files as they were, or is ENOENT. *)
Lemma may_with_inode f (body : Z -> FM Z) (P : Z -> Prop) s : P (- ENOENT) ->
  (forall ip s1, fs_files s1 = fs_files s -> may (body ip) (fun r _ => P r) s1) -> may (with_inode f body) (fun r _ => P r) s.
Proof.
  intros Hno Hb. unfold with_inode. apply may_same; [apply same_assert_locked|]. intros _ s1 E1. apply may_same.
  { apply same_bind; [apply same_oload|]. intros x. destruct (is_null _); [apply same_ret|done]. }
  intros _ s2 E2. apply may_same; [apply same_oload|]. intros x s3 E3. destruct (is_null _); [by intros r s' [= <- _]|].
  apply may_same; [by apply same_olock|]. intros _ s4 E4. apply may_same; [apply same_oload|]. intros d s5 E5. apply may_same.
  { destruct (is_null _); simpl; [apply same_ret|]. apply same_bind; [by apply same_olock|]. intros _. apply same_bind; [apply same_assert_locked|]. intros _. by apply same_omod. }
  intros _ s6 E6. apply may_same; [by apply same_ounlock|]. intros _ s7 E7. destruct (is_null _); [by intros r s' [= <- _]|].
  apply may_bind. intros r s8 E8. apply may_bind, may_any. intros _ s9. apply may_bind, may_any. intros _ s10 v s11 [= <- _].
  eapply (Hb _ s7); [congruence|exact E8].
Qed.
(** C40: A write to a file opened with O_NONBLOCK never answers success: the loop goes on after each write that succeeded, so
    the answer is that of the last one, an error of the file system or EAGAIN, however much was written. *)
Theorem nonblocking_write_never_succeeds s fuel f x buf size r s' : fs_files s !! f = Some x -> flag (f_oflags x) O_NONBLOCK = true ->
  fwrite fuel f buf size s = Done r s' -> r < 0.
Proof.
  intros Hx Hfl Hr. refine (may_with_inode f _ (fun r => r < 0) s _ _ r s' Hr); [done|]. intros ip s1 E1. apply may_bind. intros y s2. unfold oload. simpl. rewrite E1, Hx.
  intros [= <- <-]. rewrite Hfl. apply nonblock_negative.
Qed.
End Calls.

(** ** Examples *)
#[refine] Definition flat_fs : FileSystem := {|
  iop_set _ _ := true; iop_call _ i := (0, i); icache_read _ _ nb i := (nb, i); icache_write _ _ nb i := (nb, i)
|}.
Proof. all: done. Defined.
#[local] Existing Instance first_fit.
#[local] Existing Instance flat_fs.
(** Two processes without files, one directory entry with its inode. *)
Definition fresh_ctx : file_ctx_t := mkFctx 200 64 200 0 None SPINLOCK_INIT.
Definition an_inode : inode_t := mkInode 2 1000 100 FS_RGL 0 0x1A4 4096 1 1 500 0 600 0 0 SPINLOCK_INIT.
Definition a_user : cred_t := mkCred 1001 1001 0 100 100 0 0 SPINLOCK_INIT.
Definition boot_fs : fsys :=
  mkFsys thread_7 0 100 400 ∅ {[200 := mkDentry 5 300 0 SPINLOCK_INIT]} {[300 := an_inode]} {[100 := fresh_ctx; 101 := fresh_ctx]} {[400 := a_user]}.
Lemma boot_fs_inv : files_inv boot_fs.
Proof.
  split; simpl.
  - by intros p x []%lookup_empty_Some.
  - intros p x [<- <-]%lookup_singleton_Some. by split.
  - intros p x [<- <-]%lookup_singleton_Some. by split.
  - intros p x [[<- <-]|[_ [<- <-]%lookup_singleton_Some]]%lookup_insert_Some; by split.
  - by eexists.
  - intros p c [[<- <-]|[_ [<- <-]%lookup_singleton_Some]]%lookup_insert_Some; by repeat split; eexists.
  - intros f (p & c & [[<- <-]|[_ [<- <-]%lookup_singleton_Some]]%lookup_insert_Some & Hf)%spread_elem; by apply not_elem_of_nil in Hf.
  - by intros f x []%lookup_empty_Some.
  - intros d x [<- <-]%lookup_singleton_Some. split; [done|]. by eexists.
Qed.
Definition after (k : fcall) (s : fsys) : fsys := match frun k s with Done _ s' => s' | _ => s end.
(** The parent opens a file twice, duplicates the first descriptor and forks; the child closes two descriptors. *)
Definition fs1 : fsys := after (COpen 200 2) boot_fs.
Definition fs2 : fsys := after (CDup 0) (after (COpen 200 0) fs1).
Definition fs3 : fsys := switch_to 101 (after (CFork 101) fs2).
Definition fs4 : fsys := after (CClose 1) (after (CClose 0) fs3).
Lemma boot_step s k : fsteps boot_fs s -> fallowed k s -> match frun k s with Done r _ => match k with COpen _ _ => r <> - ENOMEM | _ => True end | _ => False end ->
  fsteps boot_fs (after k s).
Proof. intros Hs Hk Ha. destruct (frun k s) as [r s'| | |] eqn:E; try done. apply (fsteps_call _ s k r); [done|done| |done]. unfold after. by rewrite E. Qed.
Lemma run_fs2 : fsteps boot_fs fs2.
Proof.
  unfold fs2, fs1. apply boot_step; [|intros c t; vm_compute; intros [= <-] [= <-]; split; [split; [discriminate|reflexivity]|discriminate]|vm_compute; done].
  apply boot_step; [|vm_compute; eauto|vm_compute; discriminate]. apply boot_step; [apply fsteps_none|vm_compute; eauto|vm_compute; discriminate].
Qed.
Lemma run_fs4 : fsteps boot_fs fs4.
Proof.
  unfold fs4, fs3. do 2 (apply boot_step; [|done|vm_compute; done]). apply fsteps_switch; [|vm_compute; eauto]. apply boot_step; [apply run_fs2| |vm_compute; done].
  eexists _, _; split; [vm_compute; discriminate|vm_compute; reflexivity|vm_compute; reflexivity|vm_compute; reflexivity|].
  apply (bool_decide_eq_true_1 _). vm_compute. reflexivity.
Qed.
Lemma open_takes_lowest_descriptor_witness : exists c' p, fs_ctxs (after (COpen 200 1) fs4) !! 101 = Some c' /\ table c' !! 0%nat = Some p /\ fs_files fs4 !! p = None.
Proof.
  destruct (open_takes_lowest_descriptor fs4 (mkFctx 200 64 200 3 (Some [0; 0; 1]) SPINLOCK_INIT) 200 1 0 (after (COpen 200 1) fs4)) as (c' & p & H1 & H2 & H3 & _).
  - exact (fsteps_inv _ _ boot_fs_inv run_fs4).
  - vm_compute; reflexivity.
  - vm_compute; eauto.
  - vm_compute; reflexivity.
  - discriminate.
  - exists c', p. auto.
Defined.
Lemma perm_check_is_reference_witness : exists s, icheck_perm 300 400 O_RDWR s = Done (- EACCES) s /\ icheck_perm 300 400 O_RDONLY s = Done 0 s.
Proof.
  exists (upd 300 (lockd thread_7 an_inode) boot_fs). split.
  - etransitivity; [apply (perm_check_is_reference _ 300 (lockd thread_7 an_inode) SPINLOCK_INIT 400 a_user O_RDWR); concrete|reflexivity].
  - etransitivity; [apply (perm_check_is_reference _ 300 (lockd thread_7 an_inode) SPINLOCK_INIT 400 a_user O_RDONLY); concrete|reflexivity].
Defined.
Lemma dropped_ids_stay_witness : exists s' c', cruns [CSetuid 0; CSetgid 0; CUmask 18; CSeteuid 0] boot_fs = Done tt s' /\ fs_creds s' !! fs_cred s' = Some c' /\ c_uid c' = 1001 /\ c_gid c' = 100.
Proof.
  destruct (dropped_ids_stay [CSetuid 0; CSetgid 0; CUmask 18; CSeteuid 0] boot_fs a_user) as (s' & c' & H1 & H2 & H3); [concrete..|].
  exists s', c'. split; [exact H1|]. split; [exact H2|]. split; [apply (kp_uid _ _ H3)|apply (kp_gid _ _ H3)]; discriminate.
Defined.
Lemma dup2_zero_leaks_witness : exists s', dup2 1 0 fs2 = Done 0 s' /\ refs (fs_ctxs s') 1 = 1.
Proof.
  destruct (dup2_zero_leaks fs2 (mkFctx 200 64 200 3 (Some [1; 2; 1]) SPINLOCK_INIT) [1; 2; 1] 1 2 1 (mkFile 0 2 2 200 0 SPINLOCK_INIT)) as (s' & H1 & _ & H2).
  - exact (fsteps_inv _ _ boot_fs_inv run_fs2).
  - vm_compute; reflexivity.
  - reflexivity.
  - split; reflexivity.
  - reflexivity.
  - discriminate.
  - reflexivity.
  - discriminate.
  - discriminate.
  - vm_compute; reflexivity.
  - exists s'. split; [exact H1|exact H2].
Defined.
Definition nb_file : fsys := upd 1 (lockd thread_7 (mkFile 0 O_NONBLOCK 1 200 0 SPINLOCK_INIT)) boot_fs.
Lemma nonblocking_write_never_succeeds_witness : exists r s', fwrite 3 1 7 2048 nb_file = Done r s' /\ r < 0 /\ f_off <$> fs_files s' !! 1 = Some 2048.
Proof.
  destruct (fwrite 3 1 7 2048 nb_file) as [r s'| | |] eqn:E; [|vm_compute in E; discriminate..].
  exists r, s'. split; [reflexivity|]. split.
  - apply (nonblocking_write_never_succeeds nb_file 3 1 (lockd thread_7 (mkFile 0 O_NONBLOCK 1 200 0 SPINLOCK_INIT)) 7 2048 r s'); [reflexivity..|exact E].
  - vm_compute in E. injection E as _ <-. reflexivity.
Defined.
